(* ===== verification/_CoqProject ===== *)
-Q . S2P
Prelude.v
Pm4.v
ImageLayout.v
ShaderPrograms.v
ShaderPack.v
SubmitWire.v
SubmitWireFacts.v
F32.v
SubmitTypes.v
SubmitPackets.v
SubmitOrdering.v
SubmitPacketFacts.v
SubmitA2d.v
SubmitSegment.v
Submit3d.v
SubmitRelocate.v
SubmitSegmentFacts.v
SubmitFields.v
SubmitSafety.v
SubmitSample.v
SubmitConfinement.v
SubmitGeometry.v
SubmitBlits.v
SubmitNoPanic.v
PendingQueue.v
Registers.v
Hardware.v
HardwareFacts.v
Protection.v
BootFacts.v
Dispatch.v
DispatchFacts.v
Resources.v
Contexts.v
ContextFacts.v
ContextSafety.v
Hfi.v
HfiFacts.v
CmdDb.v
HfiSample.v
Opp.v
Gmu.v
GmuTables.v
GmuFacts.v
Scheduler.v
SchedulerFacts.v
NativeQueue.v
CodegenModel.v
CodegenEmit.v
CodegenDraw.v
CodegenCompile.v
CodegenFacts.v
CodegenUploadFacts.v
CodegenDrawFacts.v
CodegenCompileFacts.v
SgfxWire.v
CodegenSample.v
Preparation.v
PreparationFacts.v
ChunkFacts.v
AsyncSubmit.v
SubmissionFacts.v
HidTouch.v
HidFacts.v
TouchFacts.v
EcSpi.v
EcFacts.v
Tlmm.v
TlmmFacts.v
EcWorker.v
EcWorkerFacts.v
Rsc.v
RscFacts.v
Icc.v
IccFacts.v
RpmhPower.v
Motion.v
MotionFacts.v
MotionClaims.v
Mkbp.v
