(* ===== verification/Prelude.v ===== *)
(** * Scarlet on Chromebook: the A618 graphics stack

    Scarlet is an operating system kernel with drivers for Qualcomm SC7180
    Chromebooks.  A user program drives the Adreno A618 GPU by submitting a
    buffer of command words (PM4 packets) with blank GPU addresses, a table of
    the memory it wants to use and a table of relocations.  The kernel checks
    the commands, checks every address against what the program has attached,
    fills the addresses in and passes the words to the command processor, which
    executes them as they are: this check decides which memory a program can
    read and write through the GPU.  The development models that path, from
    bytes to command words, the driver around it, and the userspace code that
    compiles drawing operations to those bytes and queues them, and proves what
    they guarantee.  Beside it stand other drivers of the machine with state of
    their own: the touchscreen, the embedded controller, the pin controller and
    the coordinator of power, clock and bandwidth votes.

    ** The program and the files that model it

    - [shared/adreno-a6xx-pm4] (packet headers and the packet iterator): [Pm4.v].
    - [shared/adreno-a6xx-layout] (mip chains and the tiled depth layout):
      [ImageLayout.v].
    - [shared/adreno-a6xx-shader-pack] (the canonical programs, their metadata
      and the pack that is copied to the GPU): [ShaderPrograms.v] (the bytes of
      the embedded binaries), [ShaderPack.v].
    - [shared/adreno-a6xx-submit-wire] (the wire format): [SubmitWire.v] (the
      encoder and the decoder) and [SubmitWireFacts.v] (its theorems).
    - [drivers/gpu/qcom-adreno-a618/src/submit.rs] (the validator), in the order
      of the file: [SubmitTypes.v] (constants, address fields, images),
      [SubmitPackets.v] (the packet allowlist [validate_type4],
      [validate_type7]), [SubmitOrdering.v] ([validate_memcpy_barriers],
      [validate_ccu_transitions], [validate_render_retirement]), [SubmitA2d.v]
      ([validate_a2d_sequences]), [SubmitSegment.v] ([SegmentIndex] and the
      canonical pipelines), [Submit3d.v] ([validate_3d_sequences]),
      [SubmitRelocate.v] ([validate_texture_initialization], [validate_pm4],
      [image_range], [relocate_one], [validate_and_relocate]).  [F32.v] is the
      binary32 arithmetic the viewport check uses.
    - The theorems about the validator: [SubmitPacketFacts.v] (what the
      allowlist lets through), [SubmitSegmentFacts.v] (segment index and
      pipeline search), [SubmitFields.v] (the later checks only refine the
      address fields), [SubmitSafety.v] (one relocation, all relocations, the
      tables behind them), [SubmitSample.v] (a submission that is accepted),
      [SubmitConfinement.v], [SubmitGeometry.v], [SubmitBlits.v],
      [SubmitNoPanic.v] (the end-to-end theorems).
    - [drivers/gpu/qcom-adreno-a618/src/pending.rs] (the admission queue):
      [PendingQueue.v].
    - [drivers/gpu/qcom-adreno-a618/src/backend.rs] and [registers.rs]:
      [Registers.v] (register offsets, the log of writes), [Hardware.v] (the
      kernel ring, the fence, the boot sequence, shutdown and teardown: what
      runs under the hardware lock), [HardwareFacts.v] and [BootFacts.v] (their
      theorems), [Protection.v] (the validator against the register protection
      that the boot programs, and the kernel's own packets), [Dispatch.v] (the
      worker of [process_submission], [enqueue], [submit_prepared_sync] and
      [begin_cpu_access] as interleaved critical sections), [DispatchFacts.v]
      (invariants, theorems and histories);
      [Resources.v] (image plans and IOMMU mappings, with their theorems),
      [Contexts.v] (the resource registry, contexts, attachments, prepared
      submissions and the sharing of mappings), [ContextFacts.v] (the lookup
      and the invariant) and [ContextSafety.v] (reachable states, theorems and
      a history) are its authority tables.
    - The power controller, [hfi_abi.rs], [hfi.rs], [opp.rs], [gmu.rs] and
      [firmware.rs] beside it: the second half of [Registers.v] (its registers and windows),
      [Hfi.v] (the two rings shared with its firmware and the messages),
      [HfiFacts.v], [Opp.v] (operating points from the device tree, which is
      the class [DeviceTree] with [DeviceTreeLaws]), [Gmu.v]
      (votes, power tables, bring-up, frequencies and shutdown), [GmuTables.v]
      and [GmuFacts.v] (their theorems, a bring-up and a shutdown) and
      [HfiSample.v] (exchanges).
    - [drivers/soc/qcom-cmd-db]: [CmdDb.v].
    - [userspace/sgfx-codegen-adreno-a6xx]: [CodegenModel.v] ([model.rs] and the
      external instruction set, the class [SgfxCore] with its laws
      [SgfxCoreLaws]), [CodegenEmit.v] (the emitter: words, fix-ups, access
      table, uploads, cache events, the finished stream), [CodegenDraw.v] (draw,
      clear, copy and blit commands), [CodegenCompile.v] ([compiler.rs]: the
      checks of the tables and the loop over operations).  [CodegenFacts.v],
      [CodegenUploadFacts.v], [CodegenDrawFacts.v] and [CodegenCompileFacts.v]
      prove that every method keeps the emitter's invariant.
    - [userspace/sgfx-backend-scarlet-adreno]: [Scheduler.v] ([scheduler.rs],
      over the class [Transport]), [SchedulerFacts.v] (its contract),
      [NativeQueue.v] ([completion.rs], [dispatch.rs]: signals, the transport to
      the kernel, the worker; their theorems), [SgfxWire.v] ([wire.rs]
      and its theorems).  [CodegenSample.v] compiles a frame, encodes it and
      runs the kernel's validator on it.  [Preparation.v] ([preparation.rs]:
      splitting, placing, compiling and retrying chunks) and
      [PreparationFacts.v], [ChunkFacts.v] (their theorems), [AsyncSubmit.v]
      ([asynchronous.rs]: arenas, assembly, [submit_async]),
      [SubmissionFacts.v] (theorems; the frame, submitted).
    - [drivers/input/touchscreen/goodix-gt7375p]: [HidTouch.v] ([hid.rs]: the
      report descriptor, contact records and slots; [lib.rs]: one report, the
      events of a frame, identity checks), [HidFacts.v] (layouts and
      contacts) and [TouchFacts.v] (frames, slots and identities).
    - [drivers/platform/chromeos/cros-ec-spi] and [drivers/gpio/
      qcom-sc7180-tlmm]: [EcSpi.v] (framing, commands, draining), [EcFacts.v],
      [Tlmm.v] (registers, pin configuration, interrupt delivery),
      [TlmmFacts.v] (what each operation does to a line), [EcWorker.v] (worker, its waker and timers,
      handler, probe, removal, other drivers and hardware as one transition
      system over both drivers),
      [EcWorkerFacts.v].
    - [drivers/sensor/chrome-ec-motion-sense]: [Motion.v] (the processor of
      samples, the loop that drains the FIFO, start-up), [MotionFacts.v] (a
      call is one machine for each sensor) and [MotionClaims.v].
    - [drivers/input/button/chrome-ec-mkbp-button] and [drivers/input/switch/
      chrome-ec-mkbp-switch]: [Mkbp.v], the switches as a transition system of
      start-up and worker.
    - [drivers/soc/qcom-rpmh-rsc]: [Rsc.v] (probe, register programs over the
      history of accesses, the transfer of a batch) and [RscFacts.v].
    - [drivers/interconnect/qcom-sc7180]: [Icc.v] (paths, votes, the batch of a
      path) and [IccFacts.v].  [drivers/clk/qcom-sc7180-rpmhcc] and
      [drivers/pmdomain/qcom-sc7180-rpmhpd]: [RpmhPower.v], against the class
      [ActiveWriter] with [VoteLaws], which the coordinator discharges.

    ** How the code is modelled

    A [u8], [u16], [u32], [u64] or [usize] is a [Z]; the predicates of the same
    names say that it is in range.  Arithmetic that Rust checks is checked, and
    an unchecked sum, product or index that could fail is a computation that
    may [Panic] ([outcome], below); reads that the same condition has just
    bounded are total ([l.[i]]).  [?] is [let?].  A [Result] keeps the error
    value of the source; the driver's error strings are strings.  Loops are
    [foldM], [forM] and [mapM]; state that a loop mutates is the accumulator.
    A [while] loop or an iterator has fuel equal to the number of words or
    packets it can consume, and the theorems show that the fuel is enough.
    Sorting with [sort_unstable_by_key] is a merge sort and a binary search on
    sorted keys finds the first match; neither difference can be observed,
    because the code looks at keys only where they are unique; the interconnect
    votes sort by keys that repeat, and there the sort is an argument that is
    only known to sort.  Where the answers of hardware matter, a read returns a
    function of the accesses made before it, and so does the clock.

    The two lookups that [validate_and_relocate] is given (an attachment by its
    token, a canonical program by its identifier) are arguments of the model.
    The hypotheses about them, [objects_wf] (addresses and sizes are [u64]
    values) and [images_wf] (image metadata has the ranges of its types, and
    mip chains come from [LinearTextureLayout::new]), hold of the tables of
    [backend.rs] in every reachable state ([objects_ok] and [images_ok] of
    [ContextFacts.v]).  The kernel's graphics interface is a class,
    [KernelGpu], with what the driver relies on in [KernelGpuLaws].  What the hardware, the clock, the GMU and files answer are
    arguments too: a polled register is a function from the number of the poll
    to a value and a time, and the hypotheses ([expires] and its relatives) say
    only that the clock passes the timeout of the loop within the fuel.  The
    build feature [strict-command-validation] is a Boolean
    argument, and the theorems hold for both values.

    ** What the theorems show

    - The GPU only reaches memory of the submitting context
      ([gpu_access_confined]), for the addresses of commands, the vertices of
      draws ([draw_vertices_confined]) and the pixels of blits, as the registers
      the commands leave behind describe them ([blit_pixels_confined]); relocation changes nothing else
      ([relocation_preserves_commands]); and the kernel never panics on hostile
      input ([validation_never_panics]).
    - The wire format has one representation per submission, its encoder and
      decoder are inverse, and acceptance implies the relocation rules
      ([wire_roundtrip], [wire_canonical], [wire_decode_total],
      [wire_decode_sound]).
    - The packet layer: [header_roundtrip], [header_single_bit_errors],
      [packets_collect_stream], and the table of addresses in accepted packets
      ([allowlist_fields]).
    - The ordering rules, as grammars or positions in the stream
      ([memcpy_barriers_iff], [ccu_transitions_iff],
      [render_retirement_sound]).
    - The canonical pipelines: the search is unambiguous
      ([pipeline_selection]), the register index is a scan
      ([segment_reg_scan]), and the shader pack is laid out and copied as its
      identifiers say ([shader_pack_layout], [copy_pack_canonical],
      [pipeline_stages]).
    - Image layouts: levels and layers are inside the image and disjoint
      ([subresource_within_layer], [subresources_disjoint],
      [depth32_layout_closed_form]).
    - The driver around the validator: submissions run and are answered once
      and in order, with success only after the worker saw them retire
      ([pending_history], [dispatch_in_order]), the worker drains
      the queue ([worker_drains]), the first failure is final
      ([failure_is_final]) and a CPU access has the GPU to itself
      ([cpu_access_exclusive]), for every interleaving of the threads.
    - The hardware: a submission that is reported as done was retired by its
      fence ([submission_outcome]), every wait ends, protection is programmed
      before the command processor starts ([boot_outcome]), accepted commands
      stay clear of the protected registers ([accepted_writes_unprotected]),
      the kernel's packets are what they should be ([kernel_ring_packets]) and
      the power states are consistent ([power_invariant]).  One interleaving
      touches a GPU that has lost power ([lost_gpu_registers_written]).
    - Authority and lifetime: whatever the graphics layer does with resources
      and contexts, the commands in flight address only memory that is still
      mapped for them ([inflight_memory_mapped]), preparing them always
      answers ([submit_total]), a token names one resource for ever
      ([attachment_tokens_unique]), lookups are exact ([snapshot_resolves]) and
      the pixels of an image are inside its mapping ([image_pixels_mapped]).
    - The firmware interface: the command ring is a FIFO queue
      ([commands_delivered]), draining whole responses ends
      ([responses_drained]), a command succeeds only with its own
      acknowledgement ([send_outcome], [acknowledgement_unambiguous]), whatever
      the firmware stores; a truncated response, though, is never finished
      with ([truncated_response_hangs]).
    - The power controller: operating points are sorted and complete
      ([operating_points_sound]), the database answers as it is described
      ([command_db_lookup]), together they give a table the firmware interface
      accepts ([power_table_accepted]); over every history no register access
      leaves the mapping and the reported frequency is real
      ([gmu_invariant]), a bring-up ends ready or off ([bring_up_outcome]) and
      the shutdown ends and tells the truth ([shutdown_outcome]).
    - The compiler: for every typed input it answers without a panic, and what
      it returns is well formed ([compile_sound]); with its objects bound, the
      bytes it becomes are read by the kernel as the same words and addresses
      ([compiled_submission_delivered]).
    - The asynchronous session: splitting keeps the effects of a submission
      ([split_preserves]), preparing ends ([preparation_ends]), and
      [submit_async] as a whole either queues one job that does what the
      operations do or refuses for a reason of the caller's or the system's
      ([submission_accepted]).
    - The userspace queue: its calls follow the contract ([scheduler_contract]:
      order, bounds, exclusive chunks), every signal completes once
      ([scheduler_completes_once]), a cooperative transport drains it
      ([scheduler_drains]), CPU writes do not overlap GPU work
      ([buffer_writes_are_serialised]) and waiting answers ([signal_wait]).
    - The touchscreen: an accepted descriptor is sound ([touch_layout_sound]),
      reports are read as numbers ([decode_contacts_reads]) and the events show
      the contacts, over one report and any history ([touch_frame_shown],
      [touch_history]).
    - The embedded controller: a command is a call of the EC
      ([command_delivered]), a batch loses no event
      ([drain_events_lossless]), and no interleaving of worker, interrupt and
      removal loses the interrupt or leaves a flagged event without a wake-up, a
      timer or a visit ([no_event_lost]; what happens if the waker does not
      latch, and to an event flagged before its controller is published, is in
      [wake_lost_without_latch] and [flag_left_behind]).  Pins are configured all or
      nothing ([pin_configuration_atomic]).
    - The motion sensors: every sample is delivered once and in order, with the
      losses ([samples_delivered]), no sample is dated in the future or out of
      order ([samples_dated]), and an event drains the FIFO or changes nothing
      ([fifo_drained]).  A client of the buttons holds what the EC told
      ([buttons_shown]); one of the switches does if start-up is undisturbed, and
      otherwise may not ([posture_shown]).
    - The resource votes: a batch is applied as a whole or fails, and success is
      acknowledged ([batch_transferred]), a bandwidth becomes the batch it should
      ([vote_sent]), and the votes the hardware has, as far as it answered, are
      those of the clocks and domains that are on ([cxo_votes], [domain_votes]).  A failed vote is not taken back
      ([failed_vote_not_restored]), and two domains of one resource do not know
      of each other ([shared_level_dropped]).

    ** What is not modelled

    Failures of [try_reserve] in the validator, the probe functions and the
    registry of power controllers, the contents of GPU memory and
    what the GPU does with it, the diagnostic register dump of a failure, the
    wake-ups of the GPU's threads (a blocked thread has no step; those of the EC
    worker are modelled, over a waker that may latch or not).  Of the userspace backend, the
    creation of resources ([resource.rs]), the translation of portable commands
    and tables ([lib.rs], the first part of [prepare_async]) and the synchronous
    path ([execute.rs]) are left: they are mostly calls of the kernel interface
    and of the portable instruction set, crates the repository does not hold.
    Of the other drivers, the touchscreen's parser and slots, the EC transport
    and events, the GPIO controller and the RPMh coordinator with its clients
    are modelled; of their probes, device-tree lookups, mappings, registrations
    and worker start-up are kernel services in sequence.  Display, video decoder, SD host, USB, clocks,
    serial engines, audio and the small devices are not modelled: register
    sequences and waits on hardware whose answers the repository does not
    describe. *)

From stdpp Require Export prelude list numbers option strings sorting.
From Stdlib Require Export ZArith Lia.
















#[export] Set Default Goal Selector "!".
Open Scope Z_scope.

(** ** Machine integers

    A value of type [u8], [u16], [u32], [u64] or [usize] (64 bits on AArch64)
    is a [Z] in the range of its width. *)
Definition u8 (x : Z) : Prop := 0 ≤ x < 0x100.
Definition u16 (x : Z) : Prop := 0 ≤ x < 0x10000.
Definition u32 (x : Z) : Prop := 0 ≤ x < 0x100000000.
Definition u64 (x : Z) : Prop := 0 ≤ x < 0x10000000000000000.

Definition U32_MAX : Z := 0xffffffff.
Definition U64_MAX : Z := 0xffffffffffffffff.

Declare Scope rust_scope.
Delimit Scope rust_scope with rust.
Open Scope rust_scope.

(** Machine constants are large: [simpl] leaves arithmetic alone. *)
#[global] Arguments Z.leb : simpl never.
#[global] Arguments Z.ltb : simpl never.
#[global] Arguments Z.eqb : simpl never.
#[global] Arguments Z.add : simpl never.
#[global] Arguments Z.sub : simpl never.
#[global] Arguments Z.mul : simpl never.
#[global] Arguments Z.pow : simpl never.
#[global] Arguments Z.div : simpl never.
#[global] Arguments Z.modulo : simpl never.
#[global] Arguments Z.land : simpl never.
#[global] Arguments Z.lor : simpl never.
#[global] Arguments Z.lxor : simpl never.
#[global] Arguments Z.ldiff : simpl never.
#[global] Arguments Z.shiftl : simpl never.
#[global] Arguments Z.shiftr : simpl never.
#[global] Arguments Z.of_nat : simpl never.
#[global] Arguments Z.to_nat : simpl never.
#[global] Arguments Z.min : simpl never.
#[global] Arguments Z.max : simpl never.

(** [a & b], [a | b], [a ^ b] and [a & !b] on unsigned words. *)
Notation "a .& b" := (Z.land a b) (at level 32, left associativity) : rust_scope.
Notation "a .| b" := (Z.lor a b) (at level 34, left associativity) : rust_scope.
Notation "a .^ b" := (Z.lxor a b) (at level 33, left associativity) : rust_scope.
Notation "a .&~ b" := (Z.ldiff a b) (at level 32, left associativity) : rust_scope.
Notation "a << b" := (Z.shiftl a b) (at level 31, left associativity) : rust_scope.
Notation "a >> b" := (Z.shiftr a b) (at level 31, left associativity) : rust_scope.

(** [checked_add], [checked_mul] and [checked_sub] of the width whose largest
    value is [max]. *)
Definition checked_add (max a b : Z) : option Z :=
  if a + b <=? max then Some (a + b) else None.
Definition checked_mul (max a b : Z) : option Z :=
  if a * b <=? max then Some (a * b) else None.
Definition checked_sub (a b : Z) : option Z :=
  if b <=? a then Some (a - b) else None.
Definition saturating_add (max a b : Z) : Z := Z.min max (a + b).
Definition saturating_sub (a b : Z) : Z := Z.max 0 (a - b).

(** [value as u32] truncates. *)
Definition as_u32 (x : Z) : Z := x mod 0x100000000.

(** [u32::count_ones] *)
Fixpoint pos_ones (p : positive) : Z :=
  match p with
  | xH => 1
  | xO p => pos_ones p
  | xI p => 1 + pos_ones p
  end.

Definition count_ones (x : Z) : Z :=
  match x with Zpos p => pos_ones p | _ => 0 end.

(** ** Results

    A Rust function returning [Result] or [Option] that may also panic (an
    index out of range, an unchecked addition that overflows, a failed
    [copy_from_slice]) is a computation in [outcome].  [Panic] also stands for
    a model that runs out of fuel; the theorems show it is never reached. *)
Inductive outcome (E A : Type) : Type :=
| Ok (a : A)
| Err (e : E)
| Panic.
Arguments Ok {E A} a.
Arguments Err {E A} e.
Arguments Panic {E A}.

Definition bind {E A B} (m : outcome E A) (f : A → outcome E B) : outcome E B :=
  match m with Ok a => f a | Err e => Err e | Panic => Panic end.

(** [x = m?; k] *)
Notation "'let?' x ':=' m 'in' k" := (bind m (λ x, k))
  (at level 10, x pattern, m at level 200, k at level 200,
   format "'[v' 'let?'  x  ':='  m  'in' '/' k ']'") : rust_scope.

(** [opt.ok_or(e)] *)
Definition ok_or {E A} (o : option A) (e : E) : outcome E A :=
  match o with Some a => Ok a | None => Err e end.

(** [result.map_err(|_| e)] *)
Definition map_err {E E' A} (m : outcome E A) (e : E') : outcome E' A :=
  match m with Ok a => Ok a | Err _ => Err e | Panic => Panic end.

(** [if guard { return Err(e) }] *)
Definition require {E} (b : bool) (e : E) : outcome E unit :=
  if b then Ok tt else Err e.

(** Indexing [l[i]] and unchecked arithmetic, which panic. *)
Definition index {E A} (l : list A) (i : Z) : outcome E A :=
  match l !! Z.to_nat i with Some a => Ok a | None => Panic end.
Definition add_or_panic {E} (max a b : Z) : outcome E Z :=
  if a + b <=? max then Ok (a + b) else Panic.
Definition mul_or_panic {E} (max a b : Z) : outcome E Z :=
  if a * b <=? max then Ok (a * b) else Panic.

(** [&l[a..b]] once the bounds are known, and [l.get(a..b)]. *)
Definition slice {A} (l : list A) (a b : Z) : list A :=
  take (Z.to_nat (b - a)) (drop (Z.to_nat a) l).
Definition get_range {A} (l : list A) (a b : Z) : option (list A) :=
  if (a <=? b) && (b <=? Z.of_nat (length l)) then Some (slice l a b) else None.

(** [l.len()] as a [usize]. *)
Definition len {A} (l : list A) : Z := Z.of_nat (length l).

(** Reading [payload[i]] where the enclosing match has fixed the length. *)
Notation "l .[ i ]" := (nth i l 0) (at level 1, i at level 200, format "l .[ i ]") : rust_scope.

(** [for x in l { s = f(s, x)?; }] *)
Fixpoint foldM {E S X} (f : S → X → outcome E S) (s : S) (l : list X) : outcome E S :=
  match l with
  | [] => Ok s
  | x :: l => let? s' := f s x in foldM f s' l
  end.

(** [for x in l { f(x)?; }] *)
Definition forM {E X} (f : X → outcome E unit) (l : list X) : outcome E unit :=
  foldM (λ _ x, f x) tt l.

(** [l.map(f).collect::<Result<Vec<_>, _>>()] *)
Fixpoint mapM {E X Y} (f : X → outcome E Y) (l : list X) : outcome E (list Y) :=
  match l with
  | [] => Ok []
  | x :: l => let? y := f x in let? ys := mapM f l in Ok (y :: ys)
  end.

(** A function returning [Option] whose [None] is a value for the caller. *)
Definition optional {E A} (m : outcome () A) : outcome E (option A) :=
  match m with Ok a => Ok (Some a) | Err _ => Ok None | Panic => Panic end.

(** [l.partition_point(f)] on a list that [f] partitions. *)
Fixpoint partition_point {A} (f : A → bool) (l : list A) : nat :=
  match l with
  | x :: l => if f x then S (partition_point f l) else O
  | [] => O
  end.

(** [0..n] *)
Definition range (n : Z) : list Z := Z.of_nat <$> seq 0 (Z.to_nat n).

(** ** Reasoning about outcomes

    [ensures Q m]: [m] does not panic, and a value it returns satisfies [Q]. *)
Definition ensures {E A} (Q : A → Prop) (m : outcome E A) : Prop :=
  match m with Ok a => Q a | Err _ => True | Panic => False end.

Section Ensures.
Context {E : Type}.
Implicit Types (A B S X : Type).

Lemma ensures_bind {A B} (Q : B → Prop) (m : outcome E A) f :
  ensures (λ a, ensures Q (f a)) m → ensures Q (bind m f).
Proof. by destruct m. Qed.

Lemma ensures_mono {A} (P Q : A → Prop) (m : outcome E A) :
  ensures P m → (∀ a, P a → Q a) → ensures Q m.
Proof. destruct m; simpl; auto. Qed.

Lemma ensures_eq {A} (Q : A → Prop) (m : outcome E A) :
  m ≠ Panic → (∀ a, m = Ok a → Q a) → ensures Q m.
Proof. destruct m; simpl; auto; done. Qed.

Lemma ensures_no_panic {A} (Q : A → Prop) (m : outcome E A) :
  ensures Q m → m ≠ Panic.
Proof. by destruct m. Qed.

Lemma ensures_Ok {A} (Q : A → Prop) (m : outcome E A) a :
  ensures Q m → m = Ok a → Q a.
Proof. intros H ->. exact H. Qed.

Lemma ensures_strengthen {A} (P Q : A → Prop) (m : outcome E A) :
  ensures P m → (∀ a, m = Ok a → P a → Q a) → ensures Q m.
Proof. destruct m; simpl; auto. Qed.

Lemma ensures_ok_or {A} (Q : A → Prop) (o : option A) (e : E) :
  (∀ a, o = Some a → Q a) → ensures Q (ok_or o e).
Proof. destruct o; simpl; auto. Qed.

Lemma ensures_require (Q : unit → Prop) b (e : E) :
  (b = true → Q tt) → ensures Q (require b e).
Proof. destruct b; simpl; auto. Qed.

Lemma ensures_map_err {E' A} (Q : A → Prop) (m : outcome E' A) (e : E) :
  ensures Q m → ensures Q (map_err m e).
Proof. by destruct m. Qed.

Lemma ensures_index {A} (Q : A → Prop) (l : list A) i :
  (Z.to_nat i < length l)%nat → (∀ a, l !! Z.to_nat i = Some a → Q a) →
  ensures (E:=E) Q (index l i).
Proof.
  intros Hi HQ. unfold index. destruct (l !! Z.to_nat i) eqn:Hl; simpl; auto.
  apply lookup_ge_None in Hl. lia.
Qed.

(** A loop keeps an invariant over the prefix already processed. *)
Lemma ensures_foldM {S X} (P : list X → S → Prop) f s0 (l : list X) :
  P [] s0 →
  (∀ pre x suf s, l = pre ++ x :: suf → P pre s →
     ensures (P (pre ++ [x])) (f s x)) →
  ensures (E:=E) (P l) (foldM f s0 l).
Proof.
  intros H0 Hstep.
  enough (∀ suf pre s, l = pre ++ suf → P pre s → ensures (P l) (foldM f s suf))
    as Hgen by (by apply (Hgen l [])).
  induction suf as [|x suf IH]; intros pre s Hl HP; simpl.
  - rewrite app_nil_r in Hl. by subst.
  - apply ensures_bind. eapply ensures_mono; [by eapply Hstep|].
    intros s' Hs'. apply (IH (pre ++ [x])); [|done].
    by rewrite <- app_assoc.
Qed.

Lemma ensures_forM {X} (P : X → Prop) (f : X → outcome E unit) (l : list X) :
  (∀ x, x ∈ l → ensures (λ _, P x) (f x)) →
  ensures (λ _, Forall P l) (forM f l).
Proof.
  intros Hf. unfold forM.
  apply (ensures_foldM (λ pre _, Forall P pre)); [constructor|].
  intros pre x suf _ Hl HP. subst l.
  eapply ensures_mono; [apply Hf; set_solver|].
  intros [] HPx. apply Forall_app_2; auto.
Qed.

Lemma ensures_mapM {X Y} (P : X → Y → Prop) (f : X → outcome E Y) (l : list X) :
  (∀ x, x ∈ l → ensures (P x) (f x)) →
  ensures (Forall2 P l) (mapM f l).
Proof.
  induction l as [|x l IH]; intros Hf; simpl; [constructor|].
  apply ensures_bind. eapply ensures_mono; [apply Hf; set_solver|].
  intros y Hy. apply ensures_bind.
  eapply ensures_mono; [apply IH; set_solver|].
  intros ys Hys. simpl. by constructor.
Qed.
End Ensures.

Lemma bind_Ok {E A B} (m : outcome E A) (f : A → outcome E B) b :
  bind m f = Ok b ↔ ∃ a, m = Ok a ∧ f a = Ok b.
Proof. destruct m; simpl; naive_solver. Qed.

Lemma ok_or_Ok {E A} (o : option A) (e : E) a : ok_or o e = Ok a ↔ o = Some a.
Proof. destruct o; simpl; naive_solver. Qed.

Lemma map_err_Ok {E E' A} (m : outcome E A) (e : E') a : map_err m e = Ok a ↔ m = Ok a.
Proof. destruct m; simpl; naive_solver. Qed.

Lemma require_Ok {E} b (e : E) u : require b e = Ok u ↔ b = true.
Proof. destruct b, u; simpl; naive_solver. Qed.

Lemma index_Ok {E A} (l : list A) i a : index (E:=E) l i = Ok a ↔ l !! Z.to_nat i = Some a.
Proof. unfold index. case_match; naive_solver. Qed.

Lemma foldM_app {E S X} (f : S → X → outcome E S) s l1 l2 :
  foldM f s (l1 ++ l2) = bind (foldM f s l1) (λ s', foldM f s' l2).
Proof.
  revert s. induction l1 as [|x l1 IH]; intros s; simpl; [done|].
  destruct (f s x); simpl; auto.
Qed.

Lemma forM_Ok {E X} (f : X → outcome E unit) l :
  forM f l = Ok () ↔ Forall (λ x, f x = Ok ()) l.
Proof.
  unfold forM. induction l as [|x l IH]; simpl; [naive_solver|].
  rewrite bind_Ok, Forall_cons, <- IH. split; [|naive_solver].
  intros ([] & ? & ?). auto.
Qed.

Lemma mapM_Ok {E X Y} (f : X → outcome E Y) l ys :
  mapM f l = Ok ys ↔ Forall2 (λ x y, f x = Ok y) l ys.
Proof.
  revert ys. induction l as [|x l IH]; intros ys; simpl.
  - split; [naive_solver|]. by inversion 1.
  - rewrite bind_Ok. split.
    + intros (y & Hy & (ys' & Hys & [= <-])%bind_Ok). constructor; [done|]. by apply IH.
    + inversion 1; subst. eexists. split; [done|]. apply bind_Ok.
      eexists. split; [by apply IH|done].
Qed.

Lemma mapM_total {E X Y} (f : X → outcome E Y) l :
  (∀ x, x ∈ l → ∃ y, f x = Ok y) → ∃ ys, mapM f l = Ok ys.
Proof.
  induction l as [|x l IH]; intros Hf; [by exists []|]. simpl.
  destruct (Hf x) as [y ->]; [set_solver|]. destruct IH as [ys ->]; [set_solver|].
  by exists (y :: ys).
Qed.

Lemma foldM_Ok_elem {E S X} (f : S → X → outcome E S) s l s' x :
  foldM f s l = Ok s' → x ∈ l → ∃ s1 s2, f s1 x = Ok s2.
Proof.
  revert s. induction l as [|y l IH]; intros s Hf Hx; [by apply elem_of_nil in Hx|].
  cbn [foldM] in Hf. apply bind_Ok in Hf as (s1 & H1 & H2).
  apply elem_of_cons in Hx as [->|Hx]; eauto.
Qed.

Lemma foldM_invariant {E S X} (P : S → Prop) (f : S → X → outcome E S) s l s' :
  (∀ s x s', x ∈ l → P s → f s x = Ok s' → P s') → P s → foldM f s l = Ok s' → P s'.
Proof.
  revert s. induction l as [|x l IH]; intros s Hf Hs H; cbn [foldM] in H; [by injection H as <-|].
  apply bind_Ok in H as (s1 & H1 & H). apply (IH s1); [|apply (Hf s x); [set_solver|done|done]|done].
  intros s2 y s3 Hy. apply Hf. set_solver.
Qed.

Lemma checked_add_Some max a b c :
  checked_add max a b = Some c ↔ c = a + b ∧ a + b ≤ max.
Proof. unfold checked_add. case_match; naive_solver lia. Qed.

Lemma checked_mul_Some max a b c :
  checked_mul max a b = Some c ↔ c = a * b ∧ a * b ≤ max.
Proof. unfold checked_mul. case_match; naive_solver lia. Qed.

Lemma checked_sub_Some a b c :
  checked_sub a b = Some c ↔ c = a - b ∧ b ≤ a.
Proof. unfold checked_sub. case_match; naive_solver lia. Qed.

Lemma elem_of_range n i : i ∈ range n ↔ 0 ≤ i < n.
Proof.
  unfold range. rewrite list_elem_of_fmap. setoid_rewrite elem_of_seq. split.
  - intros (k & -> & ?). lia.
  - intros ?. exists (Z.to_nat i). lia.
Qed.

(** ** Automation *)
Create Rewrite HintDb outcome.
#[export] Hint Rewrite @ok_or_Ok @map_err_Ok @require_Ok @index_Ok
  checked_add_Some checked_mul_Some checked_sub_Some : outcome.

(** Arithmetic with division by literals. *)
Ltac zlia := Z.to_euclidean_division_equations; lia.

(** Take the first step of a successful computation [H : bind m f = Ok r]. *)
Tactic Notation "step_ok" hyp(H) "as" simple_intropattern(x) simple_intropattern(Hx) :=
  apply bind_Ok in H as (x & Hx & H); autorewrite with outcome in Hx.

(** Take all of them. *)
Ltac inv_ok H :=
  repeat (let x := fresh "v" in let Hx := fresh "Hv" in
          apply bind_Ok in H as (x & Hx & H); autorewrite with outcome in Hx).

(** Split boolean conditions into propositions. *)
Ltac bool_to_prop :=
  repeat match goal with
  | H : _ && _ = true |- _ => apply andb_true_iff in H as [??]
  | H : _ || _ = false |- _ => apply orb_false_iff in H as [??]
  | H : negb _ = true |- _ => apply negb_true_iff in H
  | H : negb _ = false |- _ => apply negb_false_iff in H
  | H : bool_decide _ = true |- _ => apply bool_decide_eq_true_1 in H
  | H : bool_decide _ = false |- _ => apply bool_decide_eq_false_1 in H
  | H : (_ =? _) = true |- _ => apply Z.eqb_eq in H
  | H : (_ =? _) = false |- _ => apply Z.eqb_neq in H
  | H : (_ <=? _) = true |- _ => apply Z.leb_le in H
  | H : (_ <=? _) = false |- _ => apply Z.leb_gt in H
  | H : (_ <? _) = true |- _ => apply Z.ltb_lt in H
  | H : (_ <? _) = false |- _ => apply Z.ltb_ge in H
  end.

(** ** Bit fields *)

(** Alignment to a power of two: [(v + a - 1) & !(a - 1)] once the sum fits. *)
Lemma ldiff_ones x n : 0 ≤ n → x .&~ (Z.ones n) = 2 ^ n * (x / 2 ^ n).
Proof.
  intros Hn. rewrite Z.ldiff_ones_r, Z.shiftl_mul_pow2, Z.shiftr_div_pow2 by lia. lia.
Qed.

Lemma lor_add_low a b n :
  0 ≤ n → 0 ≤ a < 2 ^ n → a .| (b << n) = a + b * 2 ^ n.
Proof.
  intros Hn Ha. rewrite <- Z.add_nocarry_lor.
  - rewrite Z.shiftl_mul_pow2; lia.
  - apply Z.bits_inj'. intros i Hi. rewrite Z.land_spec, Z.bits_0.
    destruct (decide (i < n)).
    + by rewrite Z.shiftl_spec_low, andb_false_r.
    + rewrite <- (Z.mod_small a (2 ^ n)) by done.
      by rewrite Z.mod_pow2_bits_high by lia.
Qed.

(** Masking with a contiguous field of [k] bits starting at bit [n]. *)
Lemma land_field x m k n :
  0 ≤ k → 0 ≤ n → m = (2 ^ k - 1) * 2 ^ n → x .& m = (x / 2 ^ n) mod 2 ^ k * 2 ^ n.
Proof.
  intros Hk Hn ->.
  replace ((2 ^ k - 1) * 2 ^ n) with (Z.ones k << n)
    by (rewrite Z.shiftl_mul_pow2, Z.ones_equiv by lia; f_equal; lia).
  rewrite <- Z.shiftl_mul_pow2, <- Z.land_ones, <- Z.shiftr_div_pow2 by lia.
  apply Z.bits_inj'. intros i Hi. rewrite Z.land_spec.
  destruct (decide (i < n)).
  - rewrite !(Z.shiftl_spec_low _ _ i) by lia. by rewrite andb_false_r.
  - rewrite !Z.shiftl_spec_high, Z.land_spec, Z.shiftr_spec by lia.
    by replace (i - n + n) with i by lia.
Qed.

Lemma land_mask x m k : 0 ≤ k → m = 2 ^ k - 1 → x .& m = x mod 2 ^ k.
Proof.
  intros Hk ->. rewrite (land_field x _ k 0) by lia.
  by rewrite Z.div_1_r, Z.mul_1_r.
Qed.

(** Moving the first of five fields to the end of a disjunction. *)
Lemma lor_rotate a b c d e : a .| b .| c .| d .| e = b .| c .| d .| e .| a.
Proof. by rewrite <- !Z.lor_assoc, Z.lor_comm, !Z.lor_assoc. Qed.

(** ** Parity of the number of one bits *)

Definition odd_ones (n : N) : bool := Z.odd (count_ones (Z.of_N n)).

Lemma odd_ones_double n : odd_ones (N.double n) = odd_ones n.
Proof. by destruct n. Qed.

Lemma odd_ones_succ_double n : odd_ones (N.succ_double n) = negb (odd_ones n).
Proof.
  destruct n as [|p]; [done|].
  change (Z.odd (1 + pos_ones p) = negb (Z.odd (pos_ones p))).
  rewrite Z.odd_add. by destruct (Z.odd (pos_ones p)).
Qed.

Lemma pos_ones_lxor p q :
  odd_ones (Pos.lxor p q) = xorb (odd_ones (Npos p)) (odd_ones (Npos q)).
Proof.
  assert (∀ r, odd_ones (Npos r~1) = negb (odd_ones (Npos r))) as H1
    by (intros r; apply (odd_ones_succ_double (Npos r))).
  assert (∀ r, odd_ones (Npos r~0) = odd_ones (Npos r)) as H0 by done.
  revert q. induction p as [p IH|p IH|]; intros [q|q|];
    unfold Pos.lxor; fold Pos.lxor;
    change Pos.Ndouble with N.double; change Pos.Nsucc_double with N.succ_double;
    rewrite ?odd_ones_double, ?odd_ones_succ_double, ?H1, ?H0, ?IH;
    try (destruct (odd_ones (Npos p))); try (destruct (odd_ones (Npos q))); done.
Qed.

Lemma count_ones_lxor a b :
  0 ≤ a → 0 ≤ b →
  Z.odd (count_ones (a .^ b)) = xorb (Z.odd (count_ones a)) (Z.odd (count_ones b)).
Proof.
  intros Ha Hb. destruct (decide (a = 0)) as [->|?]; [by rewrite Z.lxor_0_l; destruct (Z.odd (count_ones b))|].
  destruct (decide (b = 0)) as [->|?]; [by rewrite Z.lxor_0_r; destruct (Z.odd (count_ones a))|].
  destruct a as [|p|p], b as [|q|q]; try lia. apply pos_ones_lxor.
Qed.

Lemma count_ones_pow2 n : 0 ≤ n → count_ones (2 ^ n) = 1.
Proof.
  intros Hn. pattern n. apply natlike_ind; [done| |done].
  intros x Hx IH. rewrite Z.pow_succ_r by done.
  assert (0 < 2 ^ x) by lia. by destruct (2 ^ x).
Qed.

Lemma count_ones_shiftl a n : 0 ≤ n → count_ones (a << n) = count_ones a.
Proof.
  intros Hn. pattern n. apply natlike_ind; [by rewrite Z.shiftl_0_r| |done].
  intros x Hx IH. rewrite <- Z.add_1_r, <- Z.shiftl_shiftl by lia.
  rewrite <- IH, (Z.shiftl_mul_pow2 _ 1), Z.mul_comm by lia. by destruct (a << x).
Qed.

(** The parity of a word made of two adjacent fields. *)
Lemma odd_ones_fields a b n :
  0 ≤ n → 0 ≤ a < 2 ^ n → 0 ≤ b →
  Z.odd (count_ones (a + b * 2 ^ n)) = xorb (Z.odd (count_ones a)) (Z.odd (count_ones b)).
Proof.
  intros Hn Ha Hb. rewrite <- lor_add_low by done.
  rewrite <- Z.lxor_lor.
  - rewrite count_ones_lxor, count_ones_shiftl by (try apply Z.shiftl_nonneg; lia). done.
  - apply Z.bits_inj'. intros i Hi. rewrite Z.land_spec, Z.bits_0.
    destruct (decide (i < n)).
    + by rewrite Z.shiftl_spec_low, andb_false_r.
    + rewrite <- (Z.mod_small a (2 ^ n)) by done.
      by rewrite Z.mod_pow2_bits_high by lia.
Qed.

Lemma odd_ones_flip a i :
  0 ≤ a → 0 ≤ i → Z.odd (count_ones (a .^ (1 << i))) = negb (Z.odd (count_ones a)).
Proof.
  intros Ha Hi. rewrite Z.shiftl_1_l, count_ones_lxor, count_ones_pow2 by lia.
  by destruct (Z.odd _).
Qed.

Lemma testbit_mod x k : 0 ≤ k → Z.testbit x k = ((x / 2 ^ k) mod 2 =? 1).
Proof.
  intros Hk. destruct (Z.testbit x k) eqn:Hb; symmetry.
  - apply Z.eqb_eq, Z.testbit_true; done.
  - apply Z.testbit_false in Hb as ->; done.
Qed.

Lemma flip_u32 w i : u32 w → 0 ≤ i < 32 → u32 (w .^ (1 << i)).
Proof.
  unfold u32. intros Hw Hi. rewrite Z.shiftl_1_l. change 0x100000000 with (2 ^ 32) in *.
  assert (0 ≤ w .^ 2 ^ i) by (apply Z.lxor_nonneg; lia). split; [done|].
  destruct (decide (w .^ 2 ^ i = 0)) as [->|]; [lia|].
  apply Z.log2_lt_pow2; [lia|]. eapply Z.le_lt_trans; [apply Z.log2_lxor; lia|].
  apply Z.max_lub_lt; [|rewrite Z.log2_pow2; lia].
  destruct (decide (w = 0)) as [->|]; [done|]. apply Z.log2_lt_pow2; lia.
Qed.

(** ** Alignment *)
Definition round_up (v a : Z) : Z := a * ((v + (a - 1)) / a).

Lemma ldiff_align x a n : 0 ≤ n → a = 2 ^ n → x .&~ (a - 1) = a * (x / a).
Proof.
  intros Hn ->. replace (2 ^ n - 1) with (Z.ones n) by (rewrite Z.ones_equiv; lia).
  by apply ldiff_ones.
Qed.

Lemma round_up_bounds v a : 0 < a → v ≤ round_up v a < v + a.
Proof. intros Ha. unfold round_up. Z.to_euclidean_division_equations; nia. Qed.

Lemma round_up_mod v a : 0 < a → round_up v a mod a = 0.
Proof. intros Ha. unfold round_up. rewrite Z.mul_comm. apply Z.mod_mul. lia. Qed.

Lemma round_up_mono v w a : 0 < a → v ≤ w → round_up v a ≤ round_up w a.
Proof.
  intros Ha Hvw. unfold round_up. apply Z.mul_le_mono_nonneg_l; [lia|].
  apply Z.div_le_mono; lia.
Qed.

Lemma round_up_id v a : 0 < a → v mod a = 0 → round_up v a = v.
Proof.
  intros Ha Hv. unfold round_up. apply Z.div_exact in Hv; [|lia].
  rewrite Hv at 1. rewrite (Z.add_comm _ (a - 1)), Z.mul_comm, (Z.mul_comm a (v / a)), Z.div_add by lia.
  rewrite (Z.div_small (a - 1)) by lia. lia.
Qed.

(** ** Ranges as loops *)
Lemma range_S k : range (Z.of_nat (S k)) = range (Z.of_nat k) ++ [Z.of_nat k].
Proof. unfold range. by rewrite !Nat2Z.id, seq_S, fmap_app. Qed.

Lemma length_range n : length (range n) = Z.to_nat n.
Proof. unfold range. by rewrite length_fmap, length_seq. Qed.

Lemma shiftr_bounds x n : 0 ≤ n → 0 ≤ x → 0 ≤ x >> n ≤ x.
Proof.
  intros Hn Hx. rewrite Z.shiftr_div_pow2 by done.
  assert (0 < 2 ^ n) by (apply Z.pow_pos_nonneg; lia).
  split; [apply Z.div_pos; lia|]. apply Z.div_le_upper_bound; nia.
Qed.

(** ** Writing into a buffer

    [buf[off..off + n].copy_from_slice(&bytes)] (and [fill]), which panics when
    the range leaves the buffer. *)
Definition write_at {E} (buf : list Z) (off : Z) (bytes : list Z) : outcome E (list Z) :=
  if off + len bytes <=? len buf then Ok (list_inserts (Z.to_nat off) bytes buf) else Panic.

Lemma write_at_ok {E} buf off bytes :
  off + len bytes ≤ len buf →
  write_at (E:=E) buf off bytes = Ok (list_inserts (Z.to_nat off) bytes buf).
Proof. intros H. unfold write_at. by destruct (Z.leb_spec (off + len bytes) (len buf)); [|lia]. Qed.

Lemma list_inserts_prefix {A} (pre new rest : list A) :
  (length new ≤ length rest)%nat →
  list_inserts (length pre) new (pre ++ rest) = pre ++ new ++ drop (length new) rest.
Proof.
  intros Hlen. rewrite <- (Nat.add_0_r (length pre)), list_inserts_app_r.
  f_equal. rewrite <- (take_drop (length new) rest) at 1.
  apply list_inserts_0_r. rewrite length_take. lia.
Qed.

(** Writing where the finished prefix ends. *)
Lemma write_at_prefix {E} pre new rest :
  len new ≤ len rest →
  write_at (E:=E) (pre ++ rest) (len pre) new = Ok (pre ++ new ++ drop (length new) rest).
Proof.
  unfold len. intros Hlen. rewrite write_at_ok by (unfold len; rewrite length_app; lia).
  rewrite Nat2Z.id, list_inserts_prefix by lia. done.
Qed.

(** ** Slices *)

Lemma slice_split {A} (l : list A) a m c :
  0 ≤ a ≤ m → m ≤ c → slice l a c = slice l a m ++ slice l m c.
Proof.
  intros Ha Hc. unfold slice.
  replace (Z.to_nat (c - a)) with (Z.to_nat (m - a) + Z.to_nat (c - m))%nat by lia.
  rewrite <- take_take_drop. f_equal. rewrite drop_drop. do 2 f_equal. lia.
Qed.

Lemma slice_join {A} (l : list A) a a' m c x y :
  slice l a' m = x → a' = a → 0 ≤ a ≤ m → m ≤ c → slice l m c = y → slice l a c = x ++ y.
Proof. intros <- -> ?? <-. by apply slice_split. Qed.

Lemma slice_slice {A} (l : list A) a c x y :
  0 ≤ a → 0 ≤ x ≤ y → a + y ≤ c → slice (slice l a c) x y = slice l (a + x) (a + y).
Proof.
  intros Ha Hx Hy. unfold slice. rewrite skipn_firstn_comm, take_take, drop_drop.
  f_equal; [lia|]. f_equal. lia.
Qed.

Lemma slice_app_r {A} (l1 l2 : list A) a c :
  len l1 ≤ a → slice (l1 ++ l2) a c = slice l2 (a - len l1) (c - len l1).
Proof.
  unfold len, slice. intros Ha. rewrite drop_app_ge by lia.
  f_equal; [lia|]. f_equal. lia.
Qed.

Lemma slice_app_l {A} (l1 l2 : list A) a c :
  0 ≤ a → c ≤ len l1 → slice (l1 ++ l2) a c = slice l1 a c.
Proof.
  unfold len, slice. intros Ha Hc. destruct (decide (a ≤ c)).
  - rewrite drop_app_le by lia. apply take_app_le. rewrite length_drop. lia.
  - replace (Z.to_nat (c - a)) with 0%nat by lia. done.
Qed.

Lemma slice_all {A} (l : list A) a c : a = 0 → c = len l → slice l a c = l.
Proof. intros -> ->. unfold slice, len. rewrite drop_0. apply take_ge. lia. Qed.

Lemma length_slice {A} (l : list A) a c :
  0 ≤ a ≤ c → c ≤ len l → len (slice l a c) = c - a.
Proof. unfold len, slice. intros ??. rewrite length_take, length_drop. lia. Qed.

Lemma slice_two {A} (l : list A) off :
  0 ≤ off → off + 2 ≤ len l →
  ∃ a b, slice l off (off + 2) = [a; b] ∧ l !! Z.to_nat off = Some a ∧ l !! Z.to_nat (off + 1) = Some b.
Proof.
  intros Ho Hlen. unfold len in Hlen.
  destruct (lookup_lt_is_Some_2 l (Z.to_nat off)) as [a Ha]; [lia|].
  destruct (lookup_lt_is_Some_2 l (Z.to_nat (off + 1))) as [b Hb]; [lia|].
  exists a, b. split; [|done].
  unfold slice. rewrite (drop_S _ a) by done. replace (S (Z.to_nat off)) with (Z.to_nat (off + 1)) by lia.
  rewrite (drop_S _ b) by done. by replace (Z.to_nat (off + 2 - off)) with 2%nat by lia.
Qed.

Lemma Forall_slice {A} (P : A → Prop) (l : list A) a c : Forall P l → Forall P (slice l a c).
Proof. intros. unfold slice. by apply Forall_take, Forall_drop. Qed.

Lemma len_nil {A} : len (@nil A) = 0.
Proof. done. Qed.

Lemma len_app {A} (l1 l2 : list A) : len (l1 ++ l2) = len l1 + len l2.
Proof. unfold len. rewrite length_app. lia. Qed.

Lemma len_replicate {A} n (x : A) : len (replicate n x) = Z.of_nat n.
Proof. unfold len. by rewrite length_replicate. Qed.

Lemma len_nonneg {A} (l : list A) : 0 ≤ len l.
Proof. unfold len. lia. Qed.
#[export] Hint Resolve len_nonneg : core.

Lemma elem_of_concat {A} (x : A) (ls : list (list A)) : x ∈ concat ls ↔ ∃ l, l ∈ ls ∧ x ∈ l.
Proof.
  rewrite list_elem_of_In, in_concat. setoid_rewrite list_elem_of_In. naive_solver.
Qed.

(** Records of [k] bytes each. *)
Lemma len_concat {A B} (f : A → list B) (l : list A) k :
  (∀ x, len (f x) = k) → len (concat (f <$> l)) = k * len l.
Proof.
  intros Hf. induction l as [|x l IH]; [unfold len; simpl; lia|].
  rewrite fmap_cons, concat_cons, len_app, Hf, IH. unfold len. simpl. lia.
Qed.

Lemma slice_concat {A B} (f : A → list B) (l : list A) k i x :
  0 ≤ k → (∀ x, len (f x) = k) → l !! i = Some x →
  slice (concat (f <$> l)) (k * Z.of_nat i) (k * Z.of_nat i + k) = f x.
Proof.
  intros Hk Hf. revert i. induction l as [|y l IH]; intros i Hi; [done|].
  rewrite fmap_cons, concat_cons. destruct i as [|i]; simplify_eq/=.
  - replace (k * Z.of_nat 0) with 0 by lia.
    rewrite slice_app_l by (rewrite ?Hf; lia). apply slice_all; [done|]. rewrite Hf. lia.
  - rewrite slice_app_r by (rewrite Hf; lia). rewrite Hf.
    rewrite <- (IH i Hi). f_equal; lia.
Qed.

Lemma concat_slices {A B} (f : A → list B) (b : list B) (l : list A) base k :
  0 ≤ k → 0 ≤ base →
  (∀ i x, l !! i = Some x →
     slice b (base + k * Z.of_nat i) (base + k * Z.of_nat i + k) = f x) →
  slice b base (base + k * len l) = concat (f <$> l).
Proof.
  intros Hk. revert base. induction l as [|x l IH]; intros base Hb Hs.
  - unfold slice. replace (Z.to_nat (base + k * len [] - base)) with 0%nat by (unfold len; simpl; lia).
    done.
  - rewrite fmap_cons, concat_cons. rewrite (slice_split _ _ (base + k)) by (unfold len; simpl; nia).
    f_equal.
    + specialize (Hs 0%nat x eq_refl). rewrite <- Hs. f_equal; lia.
    + replace (base + k * len (x :: l)) with ((base + k) + k * len l) by (unfold len; simpl; lia).
      apply IH; [lia|]. intros i y Hy. specialize (Hs (S i) y Hy). rewrite <- Hs. f_equal; lia.
Qed.

(** ** Loops over indices and loops over the records they name *)

Lemma range_len_lookup {A} (l : list A) i : l !! i ≠ None → range (len l) !! i = Some (Z.of_nat i).
Proof.
  intros Hi. unfold range, len. rewrite Nat2Z.id, list_lookup_fmap.
  apply not_eq_None_Some, lookup_lt_is_Some in Hi. by rewrite lookup_seq_lt.
Qed.

Lemma foldM_range {E S A} (f : S → Z → outcome E S) (g : S → A → outcome E S) s (l : list A) :
  (∀ s i x, l !! i = Some x → f s (Z.of_nat i) = g s x) →
  foldM f s (range (len l)) = foldM g s l.
Proof.
  unfold range, len. rewrite Nat2Z.id.
  assert (∀ k s (l' : list A), (∀ s i x, l' !! i = Some x → f s (Z.of_nat (k + i)) = g s x) →
    foldM f s (Z.of_nat <$> seq k (length l')) = foldM g s l') as Hgen.
  { intros k s' l'. revert k s'. induction l' as [|x l' IH]; intros k s' H; [done|].
    cbn [length seq fmap list_fmap foldM]. pose proof (H s' 0%nat x eq_refl) as H0.
    rewrite Nat.add_0_r in H0. rewrite H0. destruct (g s' x); [|done..]. cbn [bind].
    apply IH. intros s'' i y Hy. specialize (H s'' (1 + i)%nat y Hy).
    by replace (Datatypes.S k + i)%nat with (k + (1 + i))%nat by lia. }
  intros H. by apply (Hgen 0%nat).
Qed.

Lemma forM_range {E A} (f : Z → outcome E ()) (g : A → outcome E ()) (l : list A) :
  (∀ i x, l !! i = Some x → f (Z.of_nat i) = g x) →
  forM f (range (len l)) = forM g l.
Proof. intros H. apply foldM_range. auto. Qed.

Lemma mapM_range {E A} (f : Z → outcome E A) (l : list A) :
  (∀ i x, l !! i = Some x → f (Z.of_nat i) = Ok x) →
  mapM f (range (len l)) = Ok l.
Proof.
  intros H. apply mapM_Ok. apply Forall2_lookup. intros i.
  destruct (l !! i) as [x|] eqn:Hx.
  - rewrite range_len_lookup by congruence. constructor. auto.
  - assert (range (len l) !! i = None) as ->; [|constructor].
    apply lookup_ge_None. rewrite length_range. unfold len.
    apply lookup_ge_None in Hx. lia.
Qed.
