(* ===== verification/Pm4.v ===== *)
(** * PM4 packet grammar

    Model of [shared/adreno-a6xx-pm4/src/lib.rs]: the type-4 and type-7 packet
    headers with their odd-parity bits, and the [Packets] iterator that cuts a
    dword stream into packets.  The theorems relate the encoder and the decoder
    of headers, the bit errors the decoder detects, and the iterator to the
    grammar of a packet stream. *)
From S2P Require Import Prelude.

(** ** Headers *)

Definition TYPE4_TAG : Z := 0x4 << 28.
Definition TYPE7_TAG : Z := 0x7 << 28.
Definition TYPE4_MAX_COUNT : Z := 0x7e.
Definition TYPE7_MAX_COUNT : Z := 0x3fff.
Definition TYPE4_MAX_REGISTER : Z := 0x3ffff.

Inductive Header : Type :=
| Type4 (register count : Z)
| Type7 (opcode count : Z).

Inductive Error : Type :=
| FieldOutOfRange
| UnsupportedPacketType
| InvalidParity
| TruncatedPacket.

#[export] Instance Header_eq_dec : EqDecision Header.
Proof. solve_decision. Defined.
#[export] Instance Error_eq_dec : EqDecision Error.
Proof. solve_decision. Defined.

Definition odd_parity_bit (value : Z) : Z := (count_ones value .^ 1) .& 1.

Definition type4 (register count : Z) : outcome Error Z :=
  if (register =? 0) || (TYPE4_MAX_REGISTER <? register) || (count =? 0)
     || (TYPE4_MAX_COUNT <? count)
  then Err FieldOutOfRange
  else Ok (TYPE4_TAG
           .| count
           .| (odd_parity_bit count << 7)
           .| (register << 8)
           .| (odd_parity_bit register << 27)).

Definition type7 (opcode count : Z) : outcome Error Z :=
  if (0x7f <? opcode) || (TYPE7_MAX_COUNT <? count)
  then Err FieldOutOfRange
  else Ok (TYPE7_TAG
           .| count
           .| (odd_parity_bit count << 15)
           .| (opcode << 16)
           .| (odd_parity_bit opcode << 23)).

Definition decode_header (word : Z) : outcome Error Header :=
  match word >> 28 with
  | 4 =>
    let count := word .& 0x7f in
    let count_parity := (word >> 7) .& 1 in
    let register := (word >> 8) .& TYPE4_MAX_REGISTER in
    let register_parity := (word >> 27) .& 1 in
    if negb (word .& (1 << 26) =? 0) || (register =? 0) || (count =? 0) || (0x7e <? count)
    then Err FieldOutOfRange
    else if negb (count_parity =? odd_parity_bit count)
            || negb (register_parity =? odd_parity_bit register)
    then Err InvalidParity
    else Ok (Type4 register count)
  | 7 =>
    let count := word .& 0x3fff in
    let count_parity := (word >> 15) .& 1 in
    let opcode := (word >> 16) .& 0x7f in
    let opcode_parity := (word >> 23) .& 1 in
    if negb (word .& 0x0f000000 =? 0)
    then Err FieldOutOfRange
    else if negb (count_parity =? odd_parity_bit count)
            || negb (opcode_parity =? odd_parity_bit opcode)
    then Err InvalidParity
    else Ok (Type7 opcode count)
  | _ => Err UnsupportedPacketType
  end.

(** ** The packet iterator *)

Record Packet : Type := MkPacket {
  header : Header;
  payload : list Z;
  word_offset : Z;
}.

#[export] Instance Packet_eq_dec : EqDecision Packet.
Proof. solve_decision. Defined.

Record Packets : Type := MkPackets {
  it_words : list Z;
  it_offset : Z;
  failed : bool;
}.

Definition Packets_new (words : list Z) : Packets := MkPackets words 0 false.

Definition header_count (h : Header) : Z :=
  match h with Type4 _ count | Type7 _ count => count end.

(** [Iterator::next]: the item, if any, and the iterator after the call. *)
Definition next (self : Packets) : option (outcome Error Packet) * Packets :=
  let fail := MkPackets self.(it_words) self.(it_offset) true in
  if self.(failed) || (self.(it_offset) =? len self.(it_words)) then (None, self) else
  let start := self.(it_offset) in
  match bind (index self.(it_words) start) decode_header with
  | Panic => (Some Panic, self)
  | Err error => (Some (Err error), fail)
  | Ok header =>
    let count := header_count header in
    match checked_add U64_MAX start 1 ≫= λ value, checked_add U64_MAX value count with
    | Some end_ =>
      if end_ <=? len self.(it_words) then
        (Some (Ok (MkPacket header (slice self.(it_words) (start + 1) end_) (as_u32 start))),
         MkPackets self.(it_words) end_ false)
      else (Some (Err TruncatedPacket), fail)
    | None => (Some (Err TruncatedPacket), fail)
    end
  end.

(** [packets.collect::<Result<Vec<_>, _>>()], bounded by [fuel] calls. *)
Fixpoint collect_fuel (fuel : nat) (self : Packets) : outcome Error (list Packet) :=
  match fuel with
  | O => Panic
  | S fuel =>
    match next self with
    | (None, _) => Ok []
    | (Some (Ok packet), self') => let? ps := collect_fuel fuel self' in Ok (packet :: ps)
    | (Some (Err error), _) => Err error
    | (Some Panic, _) => Panic
    end
  end.

(** Every packet consumes at least its header, so one call per dword and a
    last one suffice. *)
Definition collect_packets (words : list Z) : outcome Error (list Packet) :=
  collect_fuel (S (length words)) (Packets_new words).

(** [adreno_a6xx_pm4::opcode] *)
Module opcode.
Definition WAIT_MEM_WRITES : Z := 0x12.
Definition WAIT_FOR_ME : Z := 0x13.
Definition WAIT_FOR_IDLE : Z := 0x26.
Definition BLIT : Z := 0x2c.
Definition EVENT_WRITE : Z := 0x46.
Definition ME_INIT : Z := 0x48.
Definition SET_MARKER : Z := 0x65.
End opcode.

(** ** The header word as a sum of fields *)

Lemma odd_parity_bit_bound v : 0 ≤ odd_parity_bit v < 2.
Proof.
  unfold odd_parity_bit. rewrite (land_mask _ 1 1) by lia. zlia.
Qed.

(** The arithmetic value of a type-4 and of a type-7 header. *)
Definition type4_value (register count : Z) : Z :=
  4 * 2 ^ 28 + count + odd_parity_bit count * 2 ^ 7 + register * 2 ^ 8
  + odd_parity_bit register * 2 ^ 27.

Definition type7_value (opcode count : Z) : Z :=
  7 * 2 ^ 28 + count + odd_parity_bit count * 2 ^ 15 + opcode * 2 ^ 16
  + odd_parity_bit opcode * 2 ^ 23.

Lemma type4_Ok r c w :
  0 ≤ r → 0 ≤ c →
  type4 r c = Ok w ↔
  0 < r ≤ TYPE4_MAX_REGISTER ∧ 0 < c ≤ TYPE4_MAX_COUNT ∧ w = type4_value r c.
Proof.
  intros Hr Hc. unfold type4, type4_value, TYPE4_MAX_REGISTER, TYPE4_MAX_COUNT, TYPE4_TAG.
  pose proof (odd_parity_bit_bound c). pose proof (odd_parity_bit_bound r).
  assert (0 < r ≤ 0x3ffff ∧ 0 < c ≤ 0x7e →
    (0x4 << 28) .| c .| (odd_parity_bit c << 7) .| (r << 8) .| (odd_parity_bit r << 27)
    = type4_value r c) as Hval.
  { intros [??]. rewrite lor_rotate. unfold type4_value.
    rewrite (lor_add_low c _ 7), (lor_add_low _ r 8), (lor_add_low _ _ 27),
      (lor_add_low _ _ 28) by lia. lia. }
  unfold type4_value in Hval. case_match; bool_to_prop; [split; [done|lia]|].
  rewrite Hval by lia. split; [intros [= <-]; lia|by intros (_ & _ & ->)].
Qed.

Lemma type7_Ok o c w :
  0 ≤ o → 0 ≤ c →
  type7 o c = Ok w ↔ o ≤ 0x7f ∧ c ≤ TYPE7_MAX_COUNT ∧ w = type7_value o c.
Proof.
  intros Hr Hc. unfold type7, type7_value, TYPE7_MAX_COUNT, TYPE7_TAG.
  pose proof (odd_parity_bit_bound c). pose proof (odd_parity_bit_bound o).
  assert (o ≤ 0x7f ∧ c ≤ 0x3fff →
    (0x7 << 28) .| c .| (odd_parity_bit c << 15) .| (o << 16) .| (odd_parity_bit o << 23)
    = type7_value o c) as Hval.
  { intros [??]. rewrite lor_rotate. unfold type7_value.
    rewrite (lor_add_low c _ 15), (lor_add_low _ o 16), (lor_add_low _ _ 23),
      (lor_add_low _ _ 28) by lia. lia. }
  unfold type7_value in Hval. case_match; bool_to_prop; [split; [done|lia]|].
  rewrite Hval by lia. split; [intros [= <-]; lia|by intros (_ & _ & ->)].
Qed.

(** [decode_header] read off the fields of the word. *)
Lemma decode_header_fields w :
  0 ≤ w →
  decode_header w =
    if w / 2 ^ 28 =? 4 then
      let count := w mod 2 ^ 7 in
      let register := (w / 2 ^ 8) mod 2 ^ 18 in
      if negb ((w / 2 ^ 26) mod 2 =? 0) || (register =? 0) || (count =? 0) || (0x7e <? count)
      then Err FieldOutOfRange
      else if negb ((w / 2 ^ 7) mod 2 =? odd_parity_bit count)
              || negb ((w / 2 ^ 27) mod 2 =? odd_parity_bit register)
      then Err InvalidParity
      else Ok (Type4 register count)
    else if w / 2 ^ 28 =? 7 then
      let count := w mod 2 ^ 14 in
      let opcode := (w / 2 ^ 16) mod 2 ^ 7 in
      if negb ((w / 2 ^ 24) mod 2 ^ 4 =? 0)
      then Err FieldOutOfRange
      else if negb ((w / 2 ^ 15) mod 2 =? odd_parity_bit count)
              || negb ((w / 2 ^ 23) mod 2 =? odd_parity_bit opcode)
      then Err InvalidParity
      else Ok (Type7 opcode count)
    else Err UnsupportedPacketType.
Proof.
  intros Hw. unfold decode_header, TYPE4_MAX_REGISTER.
  rewrite !Z.shiftr_div_pow2 by lia.
  rewrite !(land_mask _ 0x7f 7), !(land_mask _ 1 1), !(land_mask _ 0x3ffff 18),
    !(land_mask _ 0x3fff 14) by lia.
  rewrite (land_field w (1 << 26) 1 26), (land_field w 0x0f000000 4 24) by (lia || done).
  replace ((w / 2 ^ 26) mod 2 ^ 1 * 2 ^ 26 =? 0) with ((w / 2 ^ 26) mod 2 =? 0) by zlia.
  replace ((w / 2 ^ 24) mod 2 ^ 4 * 2 ^ 24 =? 0) with ((w / 2 ^ 24) mod 2 ^ 4 =? 0) by zlia.
  change (2 ^ 1) with 2.
  destruct (w / 2 ^ 28) as [|p|p]; [done| |done].
  do 4 (destruct p as [p|p|]; try done).
Qed.

Lemma decode_type4_iff w r c :
  u32 w → 0 ≤ r → 0 ≤ c →
  decode_header w = Ok (Type4 r c) ↔ type4 r c = Ok w.
Proof.
  intros Hw Hr Hc. unfold u32 in Hw.
  rewrite type4_Ok, decode_header_fields by lia.
  unfold TYPE4_MAX_REGISTER, TYPE4_MAX_COUNT, type4_value; cbv zeta.
  pose proof (odd_parity_bit_bound c). pose proof (odd_parity_bit_bound r). split.
  - repeat case_match; try done. intros [= <- <-]. bool_to_prop.
    split_and!; zlia.
  - intros (Hrm & Hcm & Hval).
    replace (w / 2 ^ 28) with 4 by zlia.
    replace (w mod 2 ^ 7) with c by zlia.
    replace ((w / 2 ^ 8) mod 2 ^ 18) with r by zlia.
    replace ((w / 2 ^ 26) mod 2) with 0 by zlia.
    replace ((w / 2 ^ 7) mod 2) with (odd_parity_bit c) by zlia.
    replace ((w / 2 ^ 27) mod 2) with (odd_parity_bit r) by zlia.
    rewrite !Z.eqb_refl. simpl.
    destruct (Z.eqb_spec r 0), (Z.eqb_spec c 0), (Z.ltb_spec 126 c); simpl; by (done || lia).
Qed.

Lemma decode_type7_iff w o c :
  u32 w → 0 ≤ o → 0 ≤ c →
  decode_header w = Ok (Type7 o c) ↔
  ∃ w0, type7 o c = Ok w0 ∧ (w = w0 ∨ w = w0 + 2 ^ 14).
Proof.
  intros Hw Hr Hc. unfold u32 in Hw.
  setoid_rewrite type7_Ok; [|lia..]. rewrite decode_header_fields by lia.
  unfold TYPE7_MAX_COUNT, type7_value; cbv zeta.
  pose proof (odd_parity_bit_bound c). pose proof (odd_parity_bit_bound o). split.
  - repeat case_match; try done. intros [= <- <-]. bool_to_prop.
    exists (w - ((w / 2 ^ 14) mod 2) * 2 ^ 14). split_and!; zlia.
  - intros (w0 & (Hom & Hcm & Hval) & Hw0).
    replace (w / 2 ^ 28) with 7 by zlia.
    replace (w mod 2 ^ 14) with c by zlia.
    replace ((w / 2 ^ 16) mod 2 ^ 7) with o by zlia.
    replace ((w / 2 ^ 24) mod 2 ^ 4) with 0 by zlia.
    replace ((w / 2 ^ 15) mod 2) with (odd_parity_bit c) by zlia.
    replace ((w / 2 ^ 23) mod 2) with (odd_parity_bit o) by zlia.
    by rewrite !Z.eqb_refl.
Qed.

(** Every decoded count is a [u16], and within the limit of its packet type. *)
Lemma decode_header_count w h :
  decode_header w = Ok h → 0 ≤ header_count h ≤ TYPE7_MAX_COUNT.
Proof.
  unfold decode_header, TYPE7_MAX_COUNT.
  rewrite (land_mask w 0x7f 7), (land_mask w 0x3fff 14) by lia.
  repeat case_match; try done; intros [= <-]; simpl; zlia.
Qed.

Lemma decode_header_no_panic w : decode_header w ≠ Panic.
Proof. unfold decode_header. repeat case_match; done. Qed.

#[global] Arguments decode_header : simpl never.

(** ** The grammar of a packet stream

    [stream off ws ps]: the dwords [ws], which start at offset [off] of the
    command stream, are exactly the packets [ps], each a decodable header
    followed by as many payload dwords as the header counts. *)
Inductive stream : Z → list Z → list Packet → Prop :=
| stream_nil off : stream off [] []
| stream_cons off w h body rest ps :
    decode_header w = Ok h →
    len body = header_count h →
    stream (off + 1 + header_count h) rest ps →
    stream off (w :: body ++ rest) (MkPacket h body off :: ps).

Lemma next_end ws : next (MkPackets ws (len ws) false) = (None, MkPackets ws (len ws) false).
Proof. unfold next; cbn [failed it_offset it_words]. by rewrite Z.eqb_refl. Qed.

(** One call of [next] in the middle of the stream. *)
Lemma next_at pre w rest :
  len pre + 1 + len rest ≤ U64_MAX →
  next (MkPackets (pre ++ w :: rest) (len pre) false) =
    match decode_header w with
    | Ok h =>
      if header_count h <=? len rest then
        (Some (Ok (MkPacket h (take (Z.to_nat (header_count h)) rest) (as_u32 (len pre)))),
         MkPackets (pre ++ w :: rest) (len pre + 1 + header_count h) false)
      else (Some (Err TruncatedPacket), MkPackets (pre ++ w :: rest) (len pre) true)
    | Err e => (Some (Err e), MkPackets (pre ++ w :: rest) (len pre) true)
    | Panic => (Some Panic, MkPackets (pre ++ w :: rest) (len pre) false)
    end.
Proof.
  unfold len, U64_MAX. intros Hmax. unfold next; cbn [failed it_offset it_words orb].
  assert (len (pre ++ w :: rest) = len pre + 1 + len rest) as Hlen
    by (unfold len; rewrite length_app; simpl; lia).
  rewrite Hlen. unfold len in *.
  destruct (Z.eqb_spec (Z.of_nat (length pre)) (Z.of_nat (length pre) + 1 + Z.of_nat (length rest)));
    [lia|].
  unfold index. rewrite Nat2Z.id, list_lookup_middle by done. cbn [bind].
  destruct (decode_header w) as [h|e|] eqn:Hd; [|done..].
  pose proof (decode_header_count w h Hd) as Hc. unfold TYPE7_MAX_COUNT in Hc.
  unfold checked_add, U64_MAX.
  destruct (Z.leb_spec (Z.of_nat (length pre) + 1) 0xffffffffffffffff); [|lia]. cbn [mbind option_bind].
  destruct (Z.leb_spec (header_count h) (Z.of_nat (length rest))).
  - destruct (Z.leb_spec (Z.of_nat (length pre) + 1 + header_count h) 0xffffffffffffffff); [|lia].
    destruct (Z.leb_spec (Z.of_nat (length pre) + 1 + header_count h)
                (Z.of_nat (length pre) + 1 + Z.of_nat (length rest))); [|lia].
    do 4 f_equal. unfold slice.
    replace (Z.to_nat (Z.of_nat (length pre) + 1)) with (S (length pre)) by lia.
    rewrite (drop_app_ge pre) by lia.
    replace (S (length pre) - length pre)%nat with 1%nat by lia. cbn [drop]. f_equal. lia.
  - destruct (Z.leb_spec (Z.of_nat (length pre) + 1 + header_count h) 0xffffffffffffffff); [|done].
    destruct (Z.leb_spec (Z.of_nat (length pre) + 1 + header_count h)
                (Z.of_nat (length pre) + 1 + Z.of_nat (length rest))); [lia|done].
Qed.

(** The iterator, started anywhere with enough fuel, follows the grammar. *)
Lemma collect_fuel_stream fuel pre rest :
  (length rest < fuel)%nat → len pre + len rest ≤ U32_MAX →
  match collect_fuel fuel (MkPackets (pre ++ rest) (len pre) false) with
  | Ok ps => stream (len pre) rest ps
  | Err _ => ∀ ps, ¬ stream (len pre) rest ps
  | Panic => False
  end.
Proof.
  revert pre rest. induction fuel as [|fuel IH]; intros pre rest Hfuel Hmax; [lia|].
  unfold len, U32_MAX in Hmax.
  destruct rest as [|w rest].
  { rewrite app_nil_r. cbn [collect_fuel]. rewrite next_end. constructor. }
  cbn [collect_fuel]. rewrite next_at by (unfold len, U64_MAX; simpl in Hmax; lia).
  simpl in Hfuel, Hmax.
  destruct (decode_header w) as [h|e|] eqn:Hd.
  2: { intros ps Hs. inversion Hs; congruence. }
  2: { by apply decode_header_no_panic in Hd. }
  pose proof (decode_header_count w h Hd) as Hc.
  destruct (Z.leb_spec (header_count h) (len rest)) as [Hle|Hgt]; unfold len in *.
  2: { intros ps Hs. inversion Hs as [|? ? h' body rest' ps' Hd' Hlen Htail]; subst.
       assert (h' = h) as -> by congruence. unfold len in Hlen.
       rewrite length_app in Hgt. lia. }
  set (n := Z.to_nat (header_count h)).
  assert (n ≤ length rest ∧ Z.of_nat n = header_count h)%nat as [Hn Hnc] by lia.
  specialize (IH (pre ++ w :: take n rest) (drop n rest)).
  rewrite <- app_assoc, <- app_comm_cons, take_drop in IH.
  assert (Z.of_nat (length (pre ++ w :: take n rest)) = Z.of_nat (length pre) + 1 + header_count h)
    as Hoff by (rewrite length_app; cbn [length]; rewrite length_take; lia).
  rewrite Hoff, length_drop in IH. specialize (IH ltac:(lia) ltac:(unfold U32_MAX; lia)).
  unfold as_u32. rewrite Z.mod_small by lia.
  destruct (collect_fuel fuel _) as [ps|e|]; simpl; [|intros ps Hs|done].
  - rewrite <- (take_drop n rest) at 1. constructor; [done| |done].
    unfold len. rewrite length_take. lia.
  - inversion Hs as [|? ? h' body rest' ps' Hd' Hlen Htail]; subst.
    assert (h' = h) as -> by congruence.
    apply (IH ps'). unfold len in Hlen.
    by replace n with (length body) in * by lia; rewrite drop_app_length.
Qed.

(** ** Parity of header words *)

Lemma odd_parity_bit_odd v :
  xorb (Z.odd (count_ones v)) (Z.odd (count_ones (odd_parity_bit v))) = true.
Proof.
  unfold odd_parity_bit. rewrite (land_mask _ 1 1) by lia.
  change (2 ^ 1) with 2. rewrite Zmod_odd.
  rewrite <- (Z.bit0_odd (_ .^ _)), Z.lxor_spec, !Z.bit0_odd.
  by destruct (Z.odd (count_ones v)).
Qed.

Lemma type4_value_parity r c :
  0 < r ≤ TYPE4_MAX_REGISTER → 0 < c ≤ TYPE4_MAX_COUNT →
  Z.odd (count_ones (type4_value r c)) = true.
Proof.
  unfold TYPE4_MAX_REGISTER, TYPE4_MAX_COUNT, type4_value. intros Hr Hc.
  pose proof (odd_parity_bit_bound c). pose proof (odd_parity_bit_bound r).
  replace (_ + _) with (c + odd_parity_bit c * 2 ^ 7 + r * 2 ^ 8
    + odd_parity_bit r * 2 ^ 27 + 4 * 2 ^ 28) by lia.
  rewrite (odd_ones_fields _ _ 28), (odd_ones_fields _ _ 27), (odd_ones_fields _ _ 8),
    (odd_ones_fields _ _ 7) by lia.
  rewrite odd_parity_bit_odd. pose proof (odd_parity_bit_odd r) as Hp.
  by rewrite (xorb_assoc true), Hp.
Qed.

Lemma type7_value_parity o c :
  0 ≤ o ≤ 0x7f → 0 ≤ c ≤ TYPE7_MAX_COUNT →
  Z.odd (count_ones (type7_value o c)) = true.
Proof.
  unfold TYPE7_MAX_COUNT, type7_value. intros Hr Hc.
  pose proof (odd_parity_bit_bound c). pose proof (odd_parity_bit_bound o).
  replace (_ + _) with (c + odd_parity_bit c * 2 ^ 15 + o * 2 ^ 16
    + odd_parity_bit o * 2 ^ 23 + 7 * 2 ^ 28) by lia.
  rewrite (odd_ones_fields _ _ 28), (odd_ones_fields _ _ 23), (odd_ones_fields _ _ 16),
    (odd_ones_fields _ _ 15) by lia.
  rewrite odd_parity_bit_odd. pose proof (odd_parity_bit_odd o) as Hp.
  by rewrite (xorb_assoc true), Hp.
Qed.

(** A decoded word is a canonical header, up to the unchecked bit 14 of a
    type-7 header. *)
Lemma decode_header_parity w h :
  u32 w → decode_header w = Ok h →
  Z.odd (count_ones w) = true ∨
  (∃ o c, h = Type7 o c ∧ 0 ≤ o ≤ 0x7f ∧ 0 ≤ c ≤ TYPE7_MAX_COUNT ∧ w = type7_value o c + 2 ^ 14).
Proof.
  intros Hw Hd. assert (0 ≤ header_count h) by (eapply decode_header_count; done).
  destruct h as [r c|o c]; simpl in *.
  - left. assert (0 ≤ r) as Hr.
    { unfold decode_header in Hd. repeat case_match; simplify_eq. 
      unfold TYPE4_MAX_REGISTER. rewrite (land_mask _ 0x3ffff 18) by lia. zlia. }
    apply decode_type4_iff, type4_Ok in Hd as (? & ? & ->); [|done..].
    by apply type4_value_parity.
  - assert (0 ≤ o) as Ho.
    { unfold decode_header in Hd. repeat case_match; simplify_eq.
      rewrite (land_mask _ 0x7f 7) by lia. zlia. }
    apply decode_type7_iff in Hd as (w0 & Hw0 & Hor); [|done..].
    apply type7_Ok in Hw0 as (? & ? & ->); [|done..].
    destruct Hor as [->| ->]; [left; by apply type7_value_parity|right].
    by exists o, c.
Qed.

Lemma type7_value_bit14 o c :
  0 ≤ o ≤ 0x7f → 0 ≤ c ≤ TYPE7_MAX_COUNT → Z.testbit (type7_value o c) 14 = false.
Proof.
  unfold TYPE7_MAX_COUNT, type7_value. intros Ho Hc.
  pose proof (odd_parity_bit_bound c). pose proof (odd_parity_bit_bound o).
  apply Z.testbit_false; zlia.
Qed.

Lemma lor_bit14 o c :
  0 ≤ o ≤ 0x7f → 0 ≤ c ≤ TYPE7_MAX_COUNT →
  type7_value o c + 2 ^ 14 = type7_value o c .| (1 << 14).
Proof.
  intros Ho Hc. rewrite Z.shiftl_1_l. apply Z.add_nocarry_lor.
  apply Z.bits_inj'. intros i Hi. rewrite Z.land_spec, Z.pow2_bits_eqb, Z.bits_0 by lia.
  destruct (Z.eqb_spec 14 i) as [<-|?]; [by rewrite type7_value_bit14|].
  by rewrite andb_false_r.
Qed.

(** A stream has one reading only. *)
Lemma stream_functional off ws ps1 ps2 :
  stream off ws ps1 → stream off ws ps2 → ps1 = ps2.
Proof.
  intros H1. revert ps2. induction H1 as [|off w h body rest ps Hd Hl Hs IH]; intros ps2 H2.
  - by inversion H2.
  - inversion H2 as [|? ? h' body' rest' ps' Hd' Hl' Hs' Heq]; subst.
    assert (h' = h) as -> by congruence. unfold len in *.
    match goal with H : _ ++ _ = _ ++ _ |- _ => apply app_inj_1 in H as [-> ->]; [|lia] end.
    f_equal. by apply IH.
Qed.

(** What an encoded header looks like. *)
Lemma encoded_header_shape h w :
  match h with Type4 r c => u32 r ∧ u16 c | Type7 o c => u8 o ∧ u16 c end →
  match h with Type4 r c => type4 r c | Type7 o c => type7 o c end = Ok w →
  u32 w ∧ Z.odd (count_ones w) = true ∧
  match h with Type4 _ _ => w / 2 ^ 28 = 4 | Type7 _ _ => Z.testbit w 14 = false end.
Proof.
  unfold u8, u16, u32. destruct h as [r c|o c]; intros [??] Henc.
  - apply type4_Ok in Henc as (? & ? & ->); [|lia..].
    split_and!; [..|by apply type4_value_parity|];
      unfold type4_value, TYPE4_MAX_REGISTER, TYPE4_MAX_COUNT in *;
      pose proof (odd_parity_bit_bound c); pose proof (odd_parity_bit_bound r); zlia.
  - apply type7_Ok in Henc as (? & ? & ->); [|lia..].
    split_and!; [..|apply type7_value_parity; lia|apply type7_value_bit14; lia];
      unfold type7_value, TYPE7_MAX_COUNT in *;
      pose proof (odd_parity_bit_bound c); pose proof (odd_parity_bit_bound o); lia.
Qed.

(** ** Properties *)

(** C40: header encoding and decoding are inverse.  A dword decodes to a type-4
    header exactly when [type4] produces it for that register and count; it
    decodes to a type-7 header exactly when it is the dword [type7] produces,
    with bit 14 (which the decoder does not look at) clear or set. *)
Theorem header_roundtrip (w : Z) (Hw : u32 w) :
  (∀ r c, u32 r → u16 c → decode_header w = Ok (Type4 r c) ↔ type4 r c = Ok w) ∧
  (∀ o c, u8 o → u16 c → decode_header w = Ok (Type7 o c) ↔
     ∃ w0, type7 o c = Ok w0 ∧ (w = w0 ∨ w = w0 .| (1 << 14))).
Proof.
  unfold u8, u16, u32. split.
  - intros r c ? ?. apply decode_type4_iff; [done|lia|lia].
  - intros o c ? ?. rewrite decode_type7_iff by (done || lia).
    setoid_rewrite type7_Ok; [|lia..].
    split; intros (w0 & (Ho & Hc & ->) & Hor); exists (type7_value o c);
      rewrite lor_bit14 in *; unfold TYPE7_MAX_COUNT in *; (done || lia).
Qed.

Lemma header_roundtrip_witness :
  decode_header 0x40000701 = Ok (Type4 7 1) ∧
  (decode_header 0x40000701 = Ok (Type4 7 1) ↔ type4 7 1 = Ok 0x40000701).
Proof.
  split; [reflexivity|]. apply (header_roundtrip 0x40000701); by unfold u32, u16.
Defined.

(** The header parity detects every single-bit corruption.  Flipping one
    bit of a header built by [type4] or [type7] makes [decode_header] fail,
    except for the unchecked bit 14 of a type-7 header. *)
Theorem header_single_bit_errors (h : Header) (w i : Z)
    (Hrange : match h with Type4 r c => u32 r ∧ u16 c | Type7 o c => u8 o ∧ u16 c end)
    (Henc : match h with Type4 r c => type4 r c | Type7 o c => type7 o c end = Ok w)
    (Hi : 0 ≤ i < 32) :
  (∃ e, decode_header (w .^ (1 << i)) = Err e) ∨ (∃ o c, h = Type7 o c ∧ i = 14).
Proof.
  destruct (encoded_header_shape h w Hrange Henc) as (Hw & Hodd & Hshape).
  pose proof (flip_u32 w i Hw Hi) as Hw'.
  destruct (decode_header (w .^ (1 << i))) as [h'|e|] eqn:Hd;
    [right|by left; exists e|by apply decode_header_no_panic in Hd].
  apply decode_header_parity in Hd as [Hd|(o' & c' & -> & Ho' & Hc' & Hval)]; [| |done].
  { rewrite odd_ones_flip, Hodd in Hd by (unfold u32 in Hw; lia). done. }
  assert (∀ k, 0 ≤ k → xorb (Z.testbit w k) (i =? k) = Z.testbit (type7_value o' c' + 2 ^ 14) k)
    as Hbit.
  { intros k Hk. by rewrite <- Hval, Z.lxor_spec, Z.shiftl_1_l, Z.pow2_bits_eqb by lia. }
  unfold type7_value, TYPE7_MAX_COUNT in *.
  pose proof (odd_parity_bit_bound c'). pose proof (odd_parity_bit_bound o').
  destruct h as [r c|o c].
  - exfalso. pose proof (Hbit 28 ltac:(lia)) as H28. pose proof (Hbit 29 ltac:(lia)) as H29.
    rewrite !testbit_mod in H28, H29 by lia.
    replace ((w / 2 ^ 28) mod 2 =? 1) with false in H28 by zlia.
    replace ((w / 2 ^ 29) mod 2 =? 1) with false in H29 by zlia.
    rewrite xorb_false_l in H28, H29. zlia.
  - exists o, c. split; [done|]. pose proof (Hbit 14 ltac:(lia)) as H14.
    rewrite Hshape, testbit_mod, xorb_false_l in H14 by lia. zlia.
Qed.

Lemma header_single_bit_errors_witness :
  type7 0x26 0 = Ok 0x70268000 ∧
  ((∃ e, decode_header (0x70268000 .^ (1 << 23)) = Err e) ∨
   (∃ o c, Type7 0x26 0 = Type7 o c ∧ 23 = 14)).
Proof.
  split; [reflexivity|].
  apply (header_single_bit_errors (Type7 0x26 0)); [by unfold u8, u16|reflexivity|lia].
Defined.

Lemma collect_packets_complete ws ps :
  len ws ≤ U32_MAX → stream 0 ws ps → collect_packets ws = Ok ps.
Proof.
  intros Hlen Hs. pose proof (collect_fuel_stream (S (length ws)) [] ws ltac:(lia) Hlen) as H.
  unfold collect_packets, Packets_new. change (len []) with 0 in H. simpl app in H.
  destruct (collect_fuel _ _) as [ps0|e|]; [|by destruct (H ps)|done].
  f_equal. by eapply stream_functional.
Qed.

Lemma collect_packets_sound ws :
  len ws ≤ U32_MAX → ensures (stream 0 ws) (collect_packets ws).
Proof.
  intros Hlen. pose proof (collect_fuel_stream (S (length ws)) [] ws ltac:(lia) Hlen) as H.
  unfold collect_packets, Packets_new. change (len []) with 0 in H. simpl app in H.
  by destruct (collect_fuel _ _).
Qed.

(** [Packets] parses exactly the packet grammar and always terminates.
    Collecting the iterator over a stream of at most [u32::MAX] dwords succeeds
    with [ps] exactly when the stream is the concatenation of the packets [ps],
    each a decodable header followed by its whole payload, at consecutive
    offsets; otherwise it returns an error, and it never panics. *)
Theorem packets_collect_stream (ws : list Z) (Hlen : len ws ≤ U32_MAX) :
  (∀ ps, collect_packets ws = Ok ps ↔ stream 0 ws ps) ∧ collect_packets ws ≠ Panic.
Proof.
  pose proof (collect_packets_sound ws Hlen) as H. split; [|by eapply ensures_no_panic].
  intros ps. split; [|by apply collect_packets_complete].
  intros Hps. by eapply ensures_Ok.
Qed.

Lemma packets_collect_stream_witness :
  (collect_packets [0x40000701; 5; 0x70268000] =
     Ok [MkPacket (Type4 7 1) [5] 0; MkPacket (Type7 0x26 0) [] 2] ↔
   stream 0 [0x40000701; 5; 0x70268000]
     [MkPacket (Type4 7 1) [5] 0; MkPacket (Type7 0x26 0) [] 2]) ∧
  collect_packets [0x40000701; 5; 0x70268000] =
     Ok [MkPacket (Type4 7 1) [5] 0; MkPacket (Type7 0x26 0) [] 2].
Proof.
  split; [|reflexivity].
  by apply (packets_collect_stream [0x40000701; 5; 0x70268000]).
Defined.
