(* ===== verification/ImageLayout.v ===== *)
(** * Image layouts

    Model of [shared/adreno-a6xx-layout/src/lib.rs]: the layer-first linear
    mip chain ([LinearTextureLayout]) and the tiled D32 layout
    ([depth32_tile6_3_layout]) shared by the kernel, the userspace backend and
    the command validator.  The theorems show that every subresource lies in
    its layer, that distinct subresources are disjoint, and that no unchecked
    operation of [subresource] can overflow. *)
From S2P Require Import Prelude.

Definition IMAGE_MODIFIER_TILE6_3_DEPTH : Z :=
  little_endian_to_Z 8 [0x41; 0x36; 0x44; 0x33; 0x54; 0x49; 0x4c; 0x45].
Definition IMAGE_MODIFIER_TILE6_3_COLOR : Z :=
  little_endian_to_Z 8 [0x41; 0x36; 0x43; 0x33; 0x54; 0x49; 0x4c; 0x45].
Definition TILE_MODE_3 : Z := 3.
Definition DEPTH32_PITCH_ALIGNMENT : Z := 256.
Definition DEPTH32_HEIGHT_ALIGNMENT : Z := 16.
Definition DEPTH32_LAYER_ALIGNMENT : Z := 4096.

Record Depth32Tile6Layout : Type := MkDepth32 {
  d32_row_pitch : Z;
  d32_padded_height : Z;
  d32_layer_size : Z;
}.

Definition align_up_u32 (value alignment : Z) : option Z :=
  match checked_add U32_MAX value (alignment - 1) with
  | Some value => Some (value .&~ (alignment - 1))
  | None => None
  end.

Definition align_up_u64 (value alignment : Z) : option Z :=
  match checked_add U64_MAX value (alignment - 1) with
  | Some value => Some (value .&~ (alignment - 1))
  | None => None
  end.

(** ** Linear textures *)

Record LinearTextureLayout : Type := MkLinearTextureLayout {
  width : Z;
  height : Z;
  mip_levels : Z;
  array_layers : Z;
  row_pitch : Z;
  layer_stride : Z;
  total_size : Z;
}.

Record LinearSubresource : Type := MkLinearSubresource {
  sub_offset : Z;
  sub_width : Z;
  sub_height : Z;
  sub_row_pitch : Z;
  sub_size : Z;
}.

#[export] Instance LinearTextureLayout_eq_dec : EqDecision LinearTextureLayout.
Proof. solve_decision. Defined.

(** [u32::leading_zeros] *)
Definition leading_zeros (x : Z) : Z := if x =? 0 then 32 else 31 - Z.log2 x.

(** The body of the mip loop of [LinearTextureLayout::new]. *)
Definition chain_step (row_pitch height mip_levels : Z) (chain_size level : Z) : outcome () Z :=
  let? pitch := ok_or (align_up_u32 (Z.max (row_pitch >> level) 1) 64) tt in
  let rows := Z.max (height >> level) 1 in
  let? rows := (if level =? mip_levels - 1 then ok_or (align_up_u32 rows 4) tt else Ok rows) in
  ok_or (checked_add U64_MAX chain_size (pitch * rows)) tt.

(** [LinearTextureLayout::new]; [Err tt] is [None]. *)
Definition LinearTextureLayout_new (width height mip_levels array_layers : Z)
    : outcome () LinearTextureLayout :=
  if (width =? 0) || (height =? 0) || (0x7fff <? width) || (0x7fff <? height)
     || (mip_levels =? 0) || (32 - leading_zeros (Z.max width height) <? mip_levels)
     || (array_layers =? 0) || (2048 <? array_layers)
  then Err tt
  else
    let? row_bytes := ok_or (checked_mul U32_MAX width 4) tt in
    let? row_pitch := ok_or (align_up_u32 row_bytes 64) tt in
    let? chain_size := foldM (chain_step row_pitch height mip_levels) 0 (range mip_levels) in
    let? aligned := ok_or (align_up_u64 chain_size 4096) tt in
    (* u32::try_from *)
    let? layer_stride := (if aligned <=? U32_MAX then Ok aligned else Err tt) in
    let? total_size := ok_or (checked_mul U64_MAX layer_stride array_layers) tt in
    Ok (MkLinearTextureLayout width height mip_levels array_layers row_pitch
          layer_stride total_size).

(** [x >> n] on [u32] panics when [n >= 32]. *)
Definition shr_or_panic (x n : Z) : outcome () Z :=
  if n <? 32 then Ok (x >> n) else Panic.

(** The body of the mip loop of [LinearTextureLayout::subresource]. *)
Definition offset_step (self : LinearTextureLayout) (offset level : Z) : outcome () Z :=
  let? shifted := shr_or_panic self.(row_pitch) level in
  let? pitch := ok_or (align_up_u32 (Z.max shifted 1) 64) tt in
  let? rows := shr_or_panic self.(height) level in
  let? bytes := mul_or_panic U64_MAX pitch (Z.max rows 1) in
  add_or_panic U64_MAX offset bytes.

Definition subresource (self : LinearTextureLayout) (mip_level array_layer : Z)
    : outcome () LinearSubresource :=
  if (self.(mip_levels) <=? mip_level) || (self.(array_layers) <=? array_layer) then Err tt
  else
    let? start := mul_or_panic U64_MAX array_layer self.(layer_stride) in
    let? offset := foldM (offset_step self) start (range mip_level) in
    let? shifted := shr_or_panic self.(row_pitch) mip_level in
    let? row_pitch := ok_or (align_up_u32 (Z.max shifted 1) 64) tt in
    let? h := shr_or_panic self.(height) mip_level in
    let height := Z.max h 1 in
    let? w := shr_or_panic self.(width) mip_level in
    let? size := mul_or_panic U64_MAX row_pitch height in
    Ok (MkLinearSubresource offset (Z.max w 1) height row_pitch size).

(** ** The tiled depth layout *)

Definition depth32_tile6_3_layout (width height : Z) : option Depth32Tile6Layout :=
  if (width =? 0) || (height =? 0) then None else
  match checked_mul U32_MAX width 4 with
  | None => None
  | Some row_bytes =>
    match align_up_u32 row_bytes DEPTH32_PITCH_ALIGNMENT with
    | None => None
    | Some row_pitch =>
      match align_up_u32 height DEPTH32_HEIGHT_ALIGNMENT with
      | None => None
      | Some padded_height =>
        match checked_mul U64_MAX row_pitch padded_height with
        | None => None
        | Some unaligned_size =>
          match align_up_u64 unaligned_size DEPTH32_LAYER_ALIGNMENT with
          | None => None
          | Some layer_size => Some (MkDepth32 row_pitch padded_height layer_size)
          end
        end
      end
    end
  end.

Definition is_depth32_tile6_3_layout (width height row_pitch layer_size : Z) : bool :=
  match depth32_tile6_3_layout width height with
  | Some layout => (layout.(d32_row_pitch) =? row_pitch) && (layout.(d32_layer_size) =? layer_size)
  | None => false
  end.

(** The figures of the crate's own unit tests. *)
Example linear_65_17 :
  LinearTextureLayout_new 65 17 4 6 = Ok (MkLinearTextureLayout 65 17 4 6 320 8192 49152)
  ∧ subresource (MkLinearTextureLayout 65 17 4 6 320 8192 49152) 3 5
    = Ok (MkLinearSubresource (7488 + 5 * 8192) 8 2 64 128).
Proof. split; reflexivity. Qed.

Example depth_2200_1520 :
  depth32_tile6_3_layout 2200 1520 = Some (MkDepth32 8960 1520 13619200).
Proof. reflexivity. Qed.

(** ** Alignment *)

Lemma align_up_u32_Some v a n r :
  0 ≤ n → a = 2 ^ n →
  align_up_u32 v a = Some r ↔ v + (a - 1) ≤ U32_MAX ∧ r = round_up v a.
Proof.
  intros Hn Ha. unfold align_up_u32, checked_add.
  destruct (Z.leb_spec (v + (a - 1)) U32_MAX).
  - rewrite (ldiff_align _ a n) by done. unfold round_up. naive_solver.
  - naive_solver lia.
Qed.

Lemma align_up_u32_ok v a n :
  0 ≤ n → a = 2 ^ n → v + (a - 1) ≤ U32_MAX → align_up_u32 v a = Some (round_up v a).
Proof. intros. by apply (align_up_u32_Some v a n). Qed.

Lemma align_up_u64_Some v a n r :
  0 ≤ n → a = 2 ^ n →
  align_up_u64 v a = Some r ↔ v + (a - 1) ≤ U64_MAX ∧ r = round_up v a.
Proof.
  intros Hn Ha. unfold align_up_u64, checked_add.
  destruct (Z.leb_spec (v + (a - 1)) U64_MAX).
  - rewrite (ldiff_align _ a n) by done. unfold round_up. naive_solver.
  - naive_solver lia.
Qed.

(** ** The mip chain, mathematically *)

Definition level_pitch (rp l : Z) : Z := round_up (Z.max (rp >> l) 1) 64.
Definition level_rows (h l : Z) : Z := Z.max (h >> l) 1.

(** Bytes of the first [k] levels. *)
Fixpoint level_offset (rp h : Z) (k : nat) : Z :=
  match k with
  | O => 0
  | S k => level_offset rp h k + level_pitch rp (Z.of_nat k) * level_rows h (Z.of_nat k)
  end.

(** What [LinearTextureLayout::new] establishes. *)
Record layout_ok (l : LinearTextureLayout) : Prop := {
  ok_width : 0 < l.(width) ≤ 0x7fff;
  ok_height : 0 < l.(height) ≤ 0x7fff;
  ok_mips : 0 < l.(mip_levels) ≤ 15;
  ok_layers : 0 < l.(array_layers) ≤ 2048;
  ok_pitch : l.(row_pitch) = round_up (4 * l.(width)) 64;
  ok_chain : level_offset l.(row_pitch) l.(height) (Z.to_nat l.(mip_levels)) ≤ l.(layer_stride);
  ok_stride : l.(layer_stride) mod 4096 = 0 ∧ 0 < l.(layer_stride) ≤ U32_MAX;
  ok_total : l.(total_size) = l.(layer_stride) * l.(array_layers) ∧ l.(total_size) ≤ U64_MAX;
}.

Lemma level_pitch_bounds rp l :
  0 ≤ l → 0 ≤ rp ≤ 131072 → 64 ≤ level_pitch rp l ≤ 131136.
Proof.
  intros Hl Hrp. unfold level_pitch. pose proof (shiftr_bounds rp l Hl ltac:(lia)).
  pose proof (round_up_bounds (Z.max (rp >> l) 1) 64 ltac:(lia)).
  pose proof (round_up_mod (Z.max (rp >> l) 1) 64 ltac:(lia)). zlia.
Qed.

Lemma level_rows_bounds h l : 0 ≤ l → 0 < h ≤ 0x7fff → 1 ≤ level_rows h l ≤ 0x7fff.
Proof.
  intros Hl Hh. unfold level_rows. pose proof (shiftr_bounds h l Hl ltac:(lia)). lia.
Qed.

Lemma level_offset_bounds rp h k :
  0 ≤ rp ≤ 131072 → 0 < h ≤ 0x7fff →
  0 ≤ level_offset rp h k ≤ Z.of_nat k * 4296966176.
Proof.
  intros Hrp Hh. induction k as [|k IH]; [done|]. cbn [level_offset].
  pose proof (level_pitch_bounds rp (Z.of_nat k) ltac:(lia) Hrp).
  pose proof (level_rows_bounds h (Z.of_nat k) ltac:(lia) Hh). nia.
Qed.

Lemma level_offset_mono rp h j k :
  0 ≤ rp ≤ 131072 → 0 < h ≤ 0x7fff → (j ≤ k)%nat →
  level_offset rp h j ≤ level_offset rp h k.
Proof.
  intros Hrp Hh. induction 1 as [|k Hk IH]; [lia|]. cbn [level_offset].
  pose proof (level_pitch_bounds rp (Z.of_nat k) ltac:(lia) Hrp).
  pose proof (level_rows_bounds h (Z.of_nat k) ltac:(lia) Hh). nia.
Qed.

(** ** The loops compute the chain *)

Lemma chain_step_inner rp h m k acc :
  0 ≤ rp ≤ 131072 → 0 < h ≤ 0x7fff → Z.of_nat k < m - 1 ≤ 14 →
  0 ≤ acc ≤ 15 * 4296966176 →
  chain_step rp h m acc (Z.of_nat k)
  = Ok (acc + level_pitch rp (Z.of_nat k) * level_rows h (Z.of_nat k)).
Proof.
  intros Hrp Hh Hk Hacc. unfold chain_step.
  pose proof (level_pitch_bounds rp (Z.of_nat k) ltac:(lia) Hrp).
  pose proof (level_rows_bounds h (Z.of_nat k) ltac:(lia) Hh).
  pose proof (shiftr_bounds rp (Z.of_nat k) ltac:(lia) ltac:(lia)).
  rewrite (align_up_u32_ok _ 64 6) by (done || unfold U32_MAX; lia). simpl.
  destruct (Z.eqb_spec (Z.of_nat k) (m - 1)); [lia|]. simpl.
  fold (level_pitch rp (Z.of_nat k)) (level_rows h (Z.of_nat k)).
  unfold checked_add, U64_MAX. destruct (Z.leb_spec (acc + level_pitch rp (Z.of_nat k) * level_rows h (Z.of_nat k)) 0xffffffffffffffff); [done|nia].
Qed.

Lemma chain_fold rp h m k :
  0 ≤ rp ≤ 131072 → 0 < h ≤ 0x7fff → Z.of_nat k ≤ m - 1 ≤ 14 →
  foldM (chain_step rp h m) 0 (range (Z.of_nat k)) = Ok (level_offset rp h k).
Proof.
  intros Hrp Hh. induction k as [|k IH]; intros Hk; [done|].
  rewrite range_S, foldM_app, IH by lia. cbn [bind foldM].
  pose proof (level_offset_bounds rp h k Hrp Hh).
  by rewrite chain_step_inner by lia.
Qed.

(** The last level is padded to four rows. *)
Lemma chain_fold_all rp h k :
  0 ≤ rp ≤ 131072 → 0 < h ≤ 0x7fff → Z.of_nat k ≤ 14 →
  foldM (chain_step rp h (Z.of_nat (S k))) 0 (range (Z.of_nat (S k)))
  = Ok (level_offset rp h k + level_pitch rp (Z.of_nat k) * round_up (level_rows h (Z.of_nat k)) 4).
Proof.
  intros Hrp Hh Hk. rewrite range_S, foldM_app, chain_fold by lia. cbn [bind foldM].
  pose proof (level_offset_bounds rp h k Hrp Hh).
  pose proof (level_pitch_bounds rp (Z.of_nat k) ltac:(lia) Hrp).
  pose proof (level_rows_bounds h (Z.of_nat k) ltac:(lia) Hh).
  pose proof (round_up_bounds (level_rows h (Z.of_nat k)) 4 ltac:(lia)).
  pose proof (shiftr_bounds rp (Z.of_nat k) ltac:(lia) ltac:(lia)).
  unfold chain_step.
  rewrite (align_up_u32_ok _ 64 6) by (done || unfold U32_MAX; lia). simpl.
  destruct (Z.eqb_spec (Z.of_nat k) (Z.of_nat (S k) - 1)); [|lia].
  fold (level_pitch rp (Z.of_nat k)) (level_rows h (Z.of_nat k)).
  rewrite (align_up_u32_ok _ 4 2) by (done || unfold U32_MAX; lia). simpl.
  unfold checked_add, U64_MAX. by destruct (Z.leb_spec (level_offset rp h k + level_pitch rp (Z.of_nat k) * round_up (level_rows h (Z.of_nat k)) 4) 0xffffffffffffffff); [|nia].
Qed.

Lemma new_ok w h m n l :
  0 ≤ w → 0 ≤ h → 0 ≤ m → 0 ≤ n →
  LinearTextureLayout_new w h m n = Ok l →
  layout_ok l ∧ l.(width) = w ∧ l.(height) = h ∧ l.(mip_levels) = m ∧ l.(array_layers) = n.
Proof.
  intros Hw Hh Hm Hn. unfold LinearTextureLayout_new. case_match eqn:Hg; [done|].
  bool_to_prop. intros Hnew.
  step_ok Hnew as rb Hrb. destruct Hrb as [-> _]. step_ok Hnew as rp Hrp.
  apply (align_up_u32_Some _ 64 6) in Hrp as [_ ->]; [|lia|done].
  rewrite Z.mul_comm in Hnew.
  pose proof (round_up_bounds (4 * w) 64 ltac:(lia)) as Hp.
  pose proof (round_up_mod (4 * w) 64 ltac:(lia)) as Hpm.
  assert (0 ≤ round_up (4 * w) 64 ≤ 131072) as Hrp by zlia.
  assert (m ≤ 15) as Hm15.
  { unfold leading_zeros in *. case_match; [lia|].
    assert (Z.log2 (Z.max w h) < 15); [|lia]. apply Z.log2_lt_pow2; lia. }
  destruct (Z.to_nat m) as [|k] eqn:Hk; [lia|].
  replace m with (Z.of_nat (S k)) in * by lia.
  rewrite chain_fold_all in Hnew by lia. cbn [bind] in Hnew.
  step_ok Hnew as al Hal.
  apply (align_up_u64_Some _ 4096 12) in Hal as [_ Hal]; [|lia|done].
  step_ok Hnew as ls Hls.
  case_match eqn:Hfit; [|done]. injection Hls as <-. bool_to_prop.
  step_ok Hnew as tot Htot. destruct Htot as [-> Htot]. injection Hnew as <-.
  pose proof (level_offset_bounds (round_up (4 * w) 64) h k Hrp ltac:(lia)).
  pose proof (level_pitch_bounds (round_up (4 * w) 64) (Z.of_nat k) ltac:(lia) Hrp).
  pose proof (level_rows_bounds h (Z.of_nat k) ltac:(lia) ltac:(lia)).
  pose proof (round_up_bounds (level_rows h (Z.of_nat k)) 4 ltac:(lia)).
  pose proof (round_up_bounds
    (level_offset (round_up (4 * w) 64) h k + level_pitch (round_up (4 * w) 64) (Z.of_nat k)
       * round_up (level_rows h (Z.of_nat k)) 4) 4096 ltac:(lia)) as Hb.
  rewrite <- Hal in Hb.
  split; [|done]. constructor; cbn [width height mip_levels array_layers row_pitch layer_stride total_size];
    try lia.
  - rewrite Hk. cbn [level_offset]. nia.
  - split; [rewrite Hal; by apply round_up_mod|nia].
Qed.

(** ** Subresources *)

Lemma layout_pitch_bounds l : layout_ok l → 64 ≤ l.(row_pitch) ≤ 131072.
Proof.
  intros Hl. rewrite (ok_pitch l Hl). pose proof (ok_width l Hl).
  pose proof (round_up_bounds (4 * l.(width)) 64 ltac:(lia)).
  pose proof (round_up_mod (4 * l.(width)) 64 ltac:(lia)). zlia.
Qed.

Lemma shr_or_panic_ok x n : n < 32 → shr_or_panic x n = Ok (x >> n).
Proof. intros Hn. unfold shr_or_panic. by destruct (Z.ltb_spec n 32); [|lia]. Qed.

Lemma mul_or_panic_ok {E} max a b : a * b ≤ max → mul_or_panic (E:=E) max a b = Ok (a * b).
Proof. intros H. unfold mul_or_panic. by destruct (Z.leb_spec (a * b) max); [|lia]. Qed.

Lemma add_or_panic_ok {E} max a b : a + b ≤ max → add_or_panic (E:=E) max a b = Ok (a + b).
Proof. intros H. unfold add_or_panic. by destruct (Z.leb_spec (a + b) max); [|lia]. Qed.

Lemma offset_fold l start k :
  layout_ok l → Z.of_nat k ≤ 15 → 0 ≤ start ≤ 2 ^ 44 →
  foldM (offset_step l) start (range (Z.of_nat k))
  = Ok (start + level_offset l.(row_pitch) l.(height) k).
Proof.
  intros Hl. pose proof (layout_pitch_bounds l Hl). pose proof (ok_height l Hl).
  induction k as [|k IH]; intros Hk Hs; [cbn [level_offset]; by rewrite Z.add_0_r|].
  rewrite range_S, foldM_app, IH by lia. cbn [bind foldM level_offset].
  pose proof (level_offset_bounds l.(row_pitch) l.(height) k ltac:(lia) ltac:(lia)).
  pose proof (level_pitch_bounds l.(row_pitch) (Z.of_nat k) ltac:(lia) ltac:(lia)).
  pose proof (level_rows_bounds l.(height) (Z.of_nat k) ltac:(lia) ltac:(lia)).
  pose proof (shiftr_bounds l.(row_pitch) (Z.of_nat k) ltac:(lia) ltac:(lia)).
  unfold offset_step. rewrite !shr_or_panic_ok by lia. cbn [bind].
  rewrite (align_up_u32_ok _ 64 6) by (done || unfold U32_MAX; lia). cbn [bind ok_or].
  fold (level_pitch l.(row_pitch) (Z.of_nat k)) (level_rows l.(height) (Z.of_nat k)).
  rewrite mul_or_panic_ok by (unfold U64_MAX; nia). cbn [bind].
  rewrite add_or_panic_ok by (unfold U64_MAX; nia). cbn [bind]. f_equal. lia.
Qed.

(** The subresource of a mip level and a layer, in closed form. *)
Definition subresource_spec (l : LinearTextureLayout) (mip layer : Z) : LinearSubresource :=
  let pitch := level_pitch l.(row_pitch) mip in
  let rows := level_rows l.(height) mip in
  MkLinearSubresource
    (layer * l.(layer_stride) + level_offset l.(row_pitch) l.(height) (Z.to_nat mip))
    (Z.max (l.(width) >> mip) 1) rows pitch (pitch * rows).

Lemma subresource_ok l mip layer :
  layout_ok l → 0 ≤ mip < l.(mip_levels) → 0 ≤ layer < l.(array_layers) →
  subresource l mip layer = Ok (subresource_spec l mip layer).
Proof.
  intros Hl Hm Hn. unfold subresource, subresource_spec.
  pose proof (layout_pitch_bounds l Hl). pose proof (ok_height l Hl).
  pose proof (ok_mips l Hl). pose proof (ok_layers l Hl).
  destruct (ok_stride l Hl) as [_ Hst]. unfold U32_MAX in Hst.
  destruct (Z.leb_spec l.(mip_levels) mip), (Z.leb_spec l.(array_layers) layer); try lia. simpl.
  rewrite mul_or_panic_ok by (unfold U64_MAX; nia). cbn [bind].
  replace mip with (Z.of_nat (Z.to_nat mip)) at 1 by lia.
  rewrite offset_fold by (done || nia). cbn [bind].
  pose proof (level_pitch_bounds l.(row_pitch) mip ltac:(lia) ltac:(lia)).
  pose proof (level_rows_bounds l.(height) mip ltac:(lia) ltac:(lia)).
  pose proof (shiftr_bounds l.(row_pitch) mip ltac:(lia) ltac:(lia)).
  rewrite !shr_or_panic_ok by lia. cbn [bind].
  rewrite (align_up_u32_ok _ 64 6) by (done || unfold U32_MAX; lia). cbn [bind ok_or].
  fold (level_pitch l.(row_pitch) mip) (level_rows l.(height) mip).
  rewrite mul_or_panic_ok by (unfold U64_MAX; nia). done.
Qed.

(** A row of a level holds its pixels. *)
Lemma level_pitch_width l mip :
  layout_ok l → 0 ≤ mip →
  4 * Z.max (l.(width) >> mip) 1 ≤ level_pitch l.(row_pitch) mip.
Proof.
  intros Hl Hm. pose proof (layout_pitch_bounds l Hl).
  pose proof (level_pitch_bounds l.(row_pitch) mip Hm ltac:(lia)).
  pose proof (ok_width l Hl).
  assert (4 * l.(width) ≤ l.(row_pitch)) as Hrp.
  { rewrite (ok_pitch l Hl). apply round_up_bounds. lia. }
  assert (4 * (l.(width) >> mip) ≤ l.(row_pitch) >> mip).
  { rewrite !Z.shiftr_div_pow2 by done.
    assert (0 < 2 ^ mip) by (apply Z.pow_pos_nonneg; lia).
    apply Z.div_le_lower_bound; [done|].
    pose proof (Z.mul_div_le l.(width) (2 ^ mip) ltac:(lia)). nia. }
  unfold level_pitch in *.
  pose proof (round_up_bounds (Z.max (l.(row_pitch) >> mip) 1) 64 ltac:(lia)). lia.
Qed.

Lemma subresource_in_layer l mip layer :
  layout_ok l → 0 ≤ mip < l.(mip_levels) → 0 ≤ layer < l.(array_layers) →
  let sub := subresource_spec l mip layer in
  layer * l.(layer_stride) ≤ sub.(sub_offset) ∧
  sub.(sub_offset) + sub.(sub_size)
    = layer * l.(layer_stride) + level_offset l.(row_pitch) l.(height) (S (Z.to_nat mip)) ∧
  sub.(sub_offset) + sub.(sub_size) ≤ (layer + 1) * l.(layer_stride).
Proof.
  intros Hl Hm Hn. cbn [subresource_spec sub_offset sub_size level_offset].
  rewrite Z2Nat.id by lia.
  pose proof (layout_pitch_bounds l Hl). pose proof (ok_height l Hl).
  pose proof (level_offset_bounds l.(row_pitch) l.(height) (Z.to_nat mip) ltac:(lia) ltac:(lia)).
  pose proof (level_offset_mono l.(row_pitch) l.(height) (S (Z.to_nat mip)) (Z.to_nat l.(mip_levels))
    ltac:(lia) ltac:(lia) ltac:(lia)) as Hmono.
  cbn [level_offset] in Hmono. rewrite Z2Nat.id in Hmono by lia.
  pose proof (ok_chain l Hl). lia.
Qed.

(** ** Properties *)

(** Every mip level of every layer of a texture accepted by
    [LinearTextureLayout::new] has a byte range inside its own layer and inside
    the texture, its rows hold its pixels, and computing it neither overflows
    nor panics; any other level or layer is refused. *)
Theorem subresource_within_layer (w h m n mip layer : Z) (l : LinearTextureLayout)
    (Hargs : u32 w ∧ u32 h ∧ u32 m ∧ u32 n) (Hsel : u32 mip ∧ u32 layer)
    (Hnew : LinearTextureLayout_new w h m n = Ok l) :
  (mip < m → layer < n →
   ∃ sub, subresource l mip layer = Ok sub ∧
     layer * l.(layer_stride) ≤ sub.(sub_offset) ∧
     sub.(sub_offset) + sub.(sub_size) ≤ (layer + 1) * l.(layer_stride) ≤ l.(total_size) ∧
     sub.(sub_size) = sub.(sub_row_pitch) * sub.(sub_height) ∧
     4 * sub.(sub_width) ≤ sub.(sub_row_pitch) ∧ 0 < sub.(sub_width) ∧ 0 < sub.(sub_height)) ∧
  (m ≤ mip ∨ n ≤ layer → subresource l mip layer = Err tt).
Proof.
  destruct Hargs as (Hw & Hh & Hm & Hn), Hsel as [Hmip Hlayer]. unfold u32 in *.
  apply new_ok in Hnew as (Hl & <- & <- & <- & <-); [|lia..]. split.
  - intros Hlt1 Hlt2. exists (subresource_spec l mip layer).
    rewrite subresource_ok by (done || lia). split; [done|].
    destruct (subresource_in_layer l mip layer Hl ltac:(lia) ltac:(lia)) as (? & _ & ?).
    pose proof (level_pitch_width l mip Hl ltac:(lia)).
    destruct (ok_total l Hl) as [Htot _]. destruct (ok_stride l Hl) as [_ ?].
    split_and!; [done|done|rewrite Htot; nia|done|done|..];
      cbn [subresource_spec sub_width sub_height]; unfold level_rows; lia.
  - intros Hor. unfold subresource.
    destruct (Z.leb_spec l.(mip_levels) mip), (Z.leb_spec l.(array_layers) layer);
      simpl; (done || lia).
Qed.

Lemma subresource_within_layer_witness :
  LinearTextureLayout_new 65 17 4 6 = Ok (MkLinearTextureLayout 65 17 4 6 320 8192 49152) ∧
  subresource (MkLinearTextureLayout 65 17 4 6 320 8192 49152) 4 0 = Err tt.
Proof.
  split; [reflexivity|].
  apply (subresource_within_layer 65 17 4 6 4 0); [by unfold u32|by unfold u32|reflexivity|lia].
Defined.

(** Distinct subresources of one texture never overlap. *)
Theorem subresources_disjoint (w h m n mip1 layer1 mip2 layer2 : Z)
    (l : LinearTextureLayout) (s1 s2 : LinearSubresource)
    (Hargs : u32 w ∧ u32 h ∧ u32 m ∧ u32 n)
    (Hsel : u32 mip1 ∧ u32 layer1 ∧ u32 mip2 ∧ u32 layer2)
    (Hnew : LinearTextureLayout_new w h m n = Ok l)
    (Hs1 : subresource l mip1 layer1 = Ok s1) (Hs2 : subresource l mip2 layer2 = Ok s2)
    (Hne : (mip1, layer1) ≠ (mip2, layer2)) :
  s1.(sub_offset) + s1.(sub_size) ≤ s2.(sub_offset) ∨
  s2.(sub_offset) + s2.(sub_size) ≤ s1.(sub_offset).
Proof.
  destruct Hargs as (Hw & Hh & Hm & Hn), Hsel as (Hmip1 & Hlayer1 & Hmip2 & Hlayer2).
  unfold u32 in *. apply new_ok in Hnew as (Hl & <- & <- & <- & <-); [|lia..].
  assert (∀ mip layer s, 0 ≤ mip → 0 ≤ layer → subresource l mip layer = Ok s →
    s = subresource_spec l mip layer ∧ mip < l.(mip_levels) ∧ layer < l.(array_layers)) as Hinv.
  { intros mip layer s ?? Hs. destruct (decide (mip < l.(mip_levels) ∧ layer < l.(array_layers))).
    - rewrite subresource_ok in Hs by (done || lia). naive_solver.
    - unfold subresource in Hs.
      destruct (Z.leb_spec l.(mip_levels) mip), (Z.leb_spec l.(array_layers) layer); (done || lia). }
  apply Hinv in Hs1 as (-> & ? & ?), Hs2 as (-> & ? & ?); [|lia..].
  destruct (subresource_in_layer l mip1 layer1 Hl ltac:(lia) ltac:(lia)) as (? & Ha & ?).
  destruct (subresource_in_layer l mip2 layer2 Hl ltac:(lia) ltac:(lia)) as (? & Hb & ?).
  destruct (ok_stride l Hl) as [_ ?]. rewrite Ha, Hb.
  pose proof (layout_pitch_bounds l Hl). pose proof (ok_height l Hl).
  assert (∀ a b : Z, 0 ≤ a < b →
    level_offset l.(row_pitch) l.(height) (S (Z.to_nat a)) ≤
    level_offset l.(row_pitch) l.(height) (Z.to_nat b)) as Hmono
    by (intros; apply level_offset_mono; lia).
  destruct (Z.lt_trichotomy layer1 layer2) as [?|[->|?]]; [left; nia| |right; nia].
  cbn [subresource_spec sub_offset] in *.
  destruct (Z.lt_trichotomy mip1 mip2) as [Hlt|[->|Hlt]]; [left| |right].
  - specialize (Hmono mip1 mip2 ltac:(lia)). lia.
  - done.
  - specialize (Hmono mip2 mip1 ltac:(lia)). lia.
Qed.

Lemma subresources_disjoint_witness :
  LinearTextureLayout_new 65 17 4 6 = Ok (MkLinearTextureLayout 65 17 4 6 320 8192 49152) ∧
  (0 + 5440 ≤ 5440 ∨ 5440 + 1536 ≤ 0).
Proof.
  split; [reflexivity|].
  apply (subresources_disjoint 65 17 4 6 0 0 1 0
           (MkLinearTextureLayout 65 17 4 6 320 8192 49152)
           (MkLinearSubresource 0 65 17 320 5440) (MkLinearSubresource 5440 32 8 192 1536));
    [by unfold u32|by unfold u32|reflexivity|reflexivity|reflexivity|done].
Defined.

(** The tiled depth layout in closed form.  It exists exactly for a nonempty
    image whose padded row bytes and padded height fit [u32]; the row pitch is the row rounded to
    256 bytes, the height is rounded to 16 rows, and their product is already
    page aligned, so the layer holds the padded rows and nothing else. *)
Theorem depth32_layout_closed_form (w h : Z) (Hw : u32 w) (Hh : u32 h) :
  depth32_tile6_3_layout w h =
    (if bool_decide (0 < w ∧ 0 < h ∧ 4 * w + 255 ≤ U32_MAX ∧ h + 15 ≤ U32_MAX)
     then Some (MkDepth32 (round_up (4 * w) 256) (round_up h 16)
                  (round_up (4 * w) 256 * round_up h 16))
     else None) ∧
  (round_up (4 * w) 256 * round_up h 16) mod 4096 = 0.
Proof.
  unfold u32, U32_MAX in *.
  pose proof (round_up_bounds (4 * w) 256 ltac:(lia)) as Hp.
  pose proof (round_up_bounds h 16 ltac:(lia)) as Hq.
  assert ((round_up (4 * w) 256 * round_up h 16) mod 4096 = 0) as Hmod.
  { unfold round_up. apply Z.mod_divide; [lia|].
    exists ((4 * w + (256 - 1)) / 256 * ((h + (16 - 1)) / 16)). lia. }
  split; [|done]. unfold depth32_tile6_3_layout, checked_mul, DEPTH32_PITCH_ALIGNMENT,
    DEPTH32_HEIGHT_ALIGNMENT, DEPTH32_LAYER_ALIGNMENT, U32_MAX, U64_MAX.
  case_bool_decide as Hd.
  - destruct (Z.eqb_spec w 0), (Z.eqb_spec h 0); try lia. simpl.
    destruct (Z.leb_spec (w * 4) 0xffffffff); [|lia]. rewrite (Z.mul_comm w 4).
    rewrite (align_up_u32_ok _ 256 8), (align_up_u32_ok _ 16 4) by (done || unfold U32_MAX; lia).
    destruct (Z.leb_spec (round_up (4 * w) 256 * round_up h 16) 0xffffffffffffffff); [|nia].
    assert (align_up_u64 (round_up (4 * w) 256 * round_up h 16) 4096
            = Some (round_up (4 * w) 256 * round_up h 16)) as ->; [|done].
    apply (align_up_u64_Some _ 4096 12); [lia|done|].
    rewrite (round_up_id (round_up _ _ * _)) by (done || lia).
    split; [|done]. unfold U64_MAX. nia.
  - destruct (Z.eqb_spec w 0), (Z.eqb_spec h 0); try done. simpl.
    destruct (Z.leb_spec (w * 4) 0xffffffff); [|done].
    destruct (align_up_u32 (w * 4) 256) as [p|] eqn:E1; [|done].
    destruct (align_up_u32 h 16) as [q|] eqn:E2; [|done].
    apply (align_up_u32_Some _ 256 8) in E1 as [? _]; [|lia|done].
    apply (align_up_u32_Some _ 16 4) in E2 as [? _]; [|lia|done]. unfold U32_MAX in *.
    destruct Hd. lia.
Qed.

Lemma depth32_layout_closed_form_witness :
  u32 2200 ∧ depth32_tile6_3_layout 2200 1520 = Some (MkDepth32 8960 1520 13619200).
Proof.
  split; [by unfold u32|].
  exact (proj1 (depth32_layout_closed_form 2200 1520 ltac:(by unfold u32) ltac:(by unfold u32))).
Defined.
