(* ===== verification/ShaderPrograms.v ===== *)
(** * Canonical shader programs

    The immutable IR3 program images that [ShaderVariant::bytes] of
    [shared/adreno-a6xx-shader-pack/src/lib.rs] includes from [artifacts/a618].
    A program is a sequence of 64-bit little-endian instructions, followed by
    [nop]s, whose encoding is zero, up to the size of its file. *)
From S2P Require Import Prelude.

(** The bytes of [instructions], then [nops] zero instructions. *)
Definition program (instructions : list Z) (nops : nat) : list Z :=
  concat (Z_to_little_endian 8 8 <$> instructions) ++ replicate (8 * nops) 0.

(** [vs_stride16_pos2.bin], 128 bytes *)
Definition vs_stride16_pos2_bin : list Z :=
  program
    [0x63808b02300c1004; 0x63800b0620021000; 0x0300000000000000] 13.

(** [vs_stride16_pos2_uv2.bin], 128 bytes *)
Definition vs_stride16_pos2_uv2_bin : list Z :=
  program
    [0x63808b04300c1004; 0x63800b0820041000; 0x0300000000000000] 13.

(** [vs_stride40_pos4.bin], 128 bytes *)
Definition vs_stride40_pos4_bin : list Z :=
  program
    [0x40700b0400001000; 0x63808b0420041004; 0x63810b0420041008; 0x63818b082004100c;
     0x0300000000000000] 11.

(** [vs_stride40_pos4_color4.bin], 128 bytes *)
Definition vs_stride40_pos4_color4_bin : list Z :=
  program
    [0x40700b0800001000; 0x63808b0820081004; 0x63810b0820081008; 0x63818b0c2008100c;
     0x0300000000000000] 11.

(** [vs_stride40_pos4_color4_uv2.bin], 128 bytes *)
Definition vs_stride40_pos4_color4_uv2_bin : list Z :=
  program
    [0x40700b0a00001000; 0x63808b0a200a1004; 0x63810b0a200a1008; 0x63818b0e200a100c;
     0x0300000000000000] 11.

(** [fs_solid.bin], 128 bytes *)
Definition fs_solid_bin : list Z :=
  program
    [0x202cc00000000010; 0x202cc00100000011; 0x202cc00200000012; 0x202cc00300000013;
     0x0300000000000000] 11.

(** [fs_vertex_color.bin], 128 bytes *)
Definition fs_vertex_color_bin : list Z :=
  program
    [0x47308b0200002000; 0x40780b0610100002; 0x0300000000000000] 13.

(** [fs_texture_rgba.bin], 128 bytes *)
Definition fs_texture_rgba_bin : list Z :=
  program
    [0x473080fc00002000; 0x50780b0610100002; 0x0300000000000000] 13.

(** [fs_texture_alpha_mask.bin], 128 bytes *)
Definition fs_texture_alpha_mask_bin : list Z :=
  program
    [0x473080fc00002000; 0x202cc00600000010; 0x202cc00700000011; 0x202cc00800000012;
     0x5070000910130005; 0x0300000000000000] 10.

(** [fs_texture_vertex_color_rgba.bin], 128 bytes *)
Definition fs_texture_vertex_color_rgba_bin : list Z :=
  program
    [0x47308b0600002000; 0x50780b0200060002; 0x40780b0a10100002; 0x0300000000000000] 12.

(** [vs_stride24_pos4_uv2.bin], 128 bytes *)
Definition vs_stride24_pos4_uv2_bin : list Z :=
  program
    [0x40700b0600001000; 0x63808b0620061004; 0x63810b0620061008; 0x63818b0a2006100c;
     0x0300000000000000] 11.

(** [vs_stride28_pos4_color3.bin], 128 bytes *)
Definition vs_stride28_pos4_color3_bin : list Z :=
  program
    [0x40700b0800001000; 0x63808b0820081004; 0x63810b0820081008; 0x204cc0073f800000;
     0x63818b0c2008100c; 0x0300000000000000] 10.

(** [fs_texture_rgb_ignore_alpha.bin], 128 bytes *)
Definition fs_texture_rgb_ignore_alpha_bin : list Z :=
  program
    [0x473080fc00002000; 0x202cc00800000013; 0x50780a0510100002; 0x0300000000000000] 12.

(** [fs_nv12.bin], 152 bytes *)
Definition fs_nv12_bin : list Z :=
  program
    [0x473080fc00002000; 0x202cc00a00000013; 0x7381000510171014; 0x63810006101b1018;
     0x63810002101f101c; 0x6381800500051015; 0x6381800600061019; 0x638180030002101d;
     0x6382040500051016; 0x638204060006101a; 0x63820c040003101e; 0x4070000710100005;
     0x4070000810110006; 0x4070000910120004; 0x0300000000000000] 4.

(** [fs_nv12_vertex_color.bin], 256 bytes *)
Definition fs_nv12_vertex_color_bin : list Z :=
  program
    [0x47308b0500002000; 0x0000020000000000; 0x4070000e00081013; 0x7381000910171014;
     0x6381000a101b1018; 0x63810002101f101c; 0x6381800900091015; 0x6381800a000a1019;
     0x638180030002101d; 0x6382040900091016; 0x6382040a000a101a; 0x63820c040003101e;
     0x4070000910100009; 0x4070000a1011000a; 0x4070080410120004; 0x4070000b00050009;
     0x4070000c0006000a; 0x4070000d00070004; 0x0300000000000000] 13.
