(* ===== verification/ShaderPack.v ===== *)
(** * The canonical shader pack

    Model of [shared/adreno-a6xx-shader-pack/src/lib.rs]: the stable program
    identities, their placement in the kernel-owned pack, the generated
    register payloads of each program, and the shader pairs a pipeline may
    use.  The theorems show that the programs are aligned and disjoint in the
    pack, that [copy_pack] places each of them and touches nothing else, and
    that every pipeline pairs a vertex with a fragment program. *)
From S2P Require Import Prelude ShaderPrograms.

Definition SHADER_ALIGNMENT : Z := 128.
Definition SHADER_SIZE : Z := 128.

Inductive ShaderVariant : Type :=
| VsStride16Pos2
| VsStride16Pos2Uv2
| VsStride40Pos4
| VsStride40Pos4Color4
| VsStride40Pos4Color4Uv2
| FsSolid
| FsVertexColor
| FsTextureRgba
| FsTextureAlphaMask
| FsTextureVertexColorRgba
| VsStride24Pos4Uv2
| VsStride28Pos4Color3
| FsTextureRgbIgnoreAlpha
| FsNv12
| FsNv12VertexColor.

#[export] Instance ShaderVariant_eq_dec : EqDecision ShaderVariant.
Proof. solve_decision. Defined.

(** [ShaderVariant::ALL] *)
Definition ALL_SHADERS : list ShaderVariant :=
  [VsStride16Pos2; VsStride16Pos2Uv2; VsStride40Pos4;
   VsStride40Pos4Color4; VsStride40Pos4Color4Uv2; FsSolid;
   FsVertexColor; FsTextureRgba; FsTextureAlphaMask;
   FsTextureVertexColorRgba; VsStride24Pos4Uv2; VsStride28Pos4Color3;
   FsTextureRgbIgnoreAlpha; FsNv12; FsNv12VertexColor].

(** [self as u16] *)
Definition shader_raw (self : ShaderVariant) : Z :=
  match self with
  | VsStride16Pos2 => 0
  | VsStride16Pos2Uv2 => 1
  | VsStride40Pos4 => 2
  | VsStride40Pos4Color4 => 3
  | VsStride40Pos4Color4Uv2 => 4
  | FsSolid => 5
  | FsVertexColor => 6
  | FsTextureRgba => 7
  | FsTextureAlphaMask => 8
  | FsTextureVertexColorRgba => 9
  | VsStride24Pos4Uv2 => 10
  | VsStride28Pos4Color3 => 11
  | FsTextureRgbIgnoreAlpha => 12
  | FsNv12 => 13
  | FsNv12VertexColor => 14
  end.

Definition shader_from_raw (r : Z) : option ShaderVariant :=
  if r <? len ALL_SHADERS then ALL_SHADERS !! Z.to_nat r else None.

Definition shader_offset (self : ShaderVariant) : Z :=
  if shader_raw self <=? 13 then shader_raw self * SHADER_ALIGNMENT else 15 * SHADER_ALIGNMENT.

Definition shader_bytes (self : ShaderVariant) : list Z :=
  match self with
  | FsNv12 => fs_nv12_bin
  | FsNv12VertexColor => fs_nv12_vertex_color_bin
  | VsStride16Pos2 => vs_stride16_pos2_bin
  | VsStride16Pos2Uv2 => vs_stride16_pos2_uv2_bin
  | VsStride40Pos4 => vs_stride40_pos4_bin
  | VsStride40Pos4Color4 => vs_stride40_pos4_color4_bin
  | VsStride40Pos4Color4Uv2 => vs_stride40_pos4_color4_uv2_bin
  | FsSolid => fs_solid_bin
  | FsVertexColor => fs_vertex_color_bin
  | FsTextureRgba => fs_texture_rgba_bin
  | FsTextureAlphaMask => fs_texture_alpha_mask_bin
  | FsTextureVertexColorRgba => fs_texture_vertex_color_rgba_bin
  | VsStride24Pos4Uv2 => vs_stride24_pos4_uv2_bin
  | VsStride28Pos4Color3 => vs_stride28_pos4_color3_bin
  | FsTextureRgbIgnoreAlpha => fs_texture_rgb_ignore_alpha_bin
  end.

(** [(self.bytes().len() + 127) & !127] *)
Definition shader_size (self : ShaderVariant) : Z := (len (shader_bytes self) + 127) .&~ 127.

Definition is_vertex (self : ShaderVariant) : bool :=
  match self with
  | VsStride16Pos2 | VsStride16Pos2Uv2 | VsStride40Pos4 | VsStride40Pos4Color4
  | VsStride40Pos4Color4Uv2 | VsStride24Pos4Uv2 | VsStride28Pos4Color3 => true
  | _ => false
  end.

(** ** Generated register payloads *)

Record VertexMeta : Type := MkVertexMeta {
  sp_vs_cntl_0 : Z;
  sp_vs_instr_size : Z;
  sp_vs_const_config : Z;
  sp_vs_config : Z;
  vfd_dest_cntl : list Z;
  vfd_cntl_1_6 : list Z;
}.

Record FragmentMeta : Type := MkFragmentMeta {
  sp_ps_cntl_0 : Z;
  sp_ps_instr_size : Z;
  sp_ps_const_config : Z;
  sp_ps_config : Z;
  sp_ps_wave_cntl : Z;
  gras_cl_interp_cntl : Z;
  rb_interp_cntl : Z;
  rb_ps_input_cntl : Z;
  initial_tex_load_cntl : Z;
  initial_tex_load_cmd : list Z;
  sp_reg_prog_id : list Z;
  sp_ps_output_cntl : Z;
  sp_ps_output_reg : list Z;
  sp_ps_output_mask : Z;
  rb_ps_output_cntl : Z;
  rb_ps_output_mask : Z;
}.

Inductive ShaderMeta : Type :=
| Vertex (meta : VertexMeta)
| Fragment (meta : FragmentMeta).

Definition PROG_ID_SOLID : list Z := [0xfcfcfcfc; 0xfcfcfcfc; 0xfcfcfcfc; 0xfcfc].
Definition PROG_ID_VARYING : list Z := [0xfcfcfcfc; 0xfcfcfc00; 0xfcfcfcfc; 0xfcfc].
Definition VFD_CNTL_1_6_NO_SYSVALS : list Z :=
  [0xfcfcfcfc; 0x0000fcfc; 0xfcfcfcfc; 0x000000fc; 0x0000fcfc; 0].

Definition fragment_varying (cntl tex_cntl : Z) (tex_cmd output : list Z) : ShaderMeta :=
  Fragment {|
    sp_ps_cntl_0 := cntl;
    sp_ps_instr_size := 1;
    sp_ps_const_config := 0x102;
    sp_ps_config := if tex_cntl =? 0 then 0x100 else 0x20300;
    sp_ps_wave_cntl := 3;
    gras_cl_interp_cntl := 1;
    rb_interp_cntl := 0x401;
    rb_ps_input_cntl := 0;
    initial_tex_load_cntl := tex_cntl;
    initial_tex_load_cmd := tex_cmd;
    sp_reg_prog_id := PROG_ID_VARYING;
    sp_ps_output_cntl := 0xfcfcfc00;
    sp_ps_output_reg := output;
    sp_ps_output_mask := 15;
    rb_ps_output_cntl := 0;
    rb_ps_output_mask := 15
  |}.

Definition shader_meta (variant : ShaderVariant) : ShaderMeta :=
  match variant with
  | VsStride16Pos2 => Vertex {|
      sp_vs_cntl_0 := 0x00100180;
      sp_vs_instr_size := 1;
      sp_vs_const_config := 0x103;
      sp_vs_config := 0x100;
      vfd_dest_cntl := [3];
      vfd_cntl_1_6 := VFD_CNTL_1_6_NO_SYSVALS
    |}
  | VsStride16Pos2Uv2 => Vertex {|
      sp_vs_cntl_0 := 0x00100180;
      sp_vs_instr_size := 1;
      sp_vs_const_config := 0x103;
      sp_vs_config := 0x100;
      vfd_dest_cntl := [3; 35];
      vfd_cntl_1_6 := VFD_CNTL_1_6_NO_SYSVALS
    |}
  | VsStride40Pos4 => Vertex {|
      sp_vs_cntl_0 := 0x00100180;
      sp_vs_instr_size := 1;
      sp_vs_const_config := 0x103;
      sp_vs_config := 0x100;
      vfd_dest_cntl := [15];
      vfd_cntl_1_6 := VFD_CNTL_1_6_NO_SYSVALS
    |}
  | VsStride40Pos4Color4 => Vertex {|
      sp_vs_cntl_0 := 0x00100200;
      sp_vs_instr_size := 1;
      sp_vs_const_config := 0x103;
      sp_vs_config := 0x100;
      vfd_dest_cntl := [15; 79];
      vfd_cntl_1_6 := VFD_CNTL_1_6_NO_SYSVALS
    |}
  | VsStride40Pos4Color4Uv2 => Vertex {|
      sp_vs_cntl_0 := 0x00100280;
      sp_vs_instr_size := 1;
      sp_vs_const_config := 0x103;
      sp_vs_config := 0x100;
      vfd_dest_cntl := [15; 79; 131];
      vfd_cntl_1_6 := VFD_CNTL_1_6_NO_SYSVALS
    |}
  | VsStride24Pos4Uv2 => Vertex {|
      sp_vs_cntl_0 := 0x00100200;
      sp_vs_instr_size := 1;
      sp_vs_const_config := 0x103;
      sp_vs_config := 0x100;
      vfd_dest_cntl := [15; 67];
      vfd_cntl_1_6 := VFD_CNTL_1_6_NO_SYSVALS
    |}
  | VsStride28Pos4Color3 => Vertex {|
      sp_vs_cntl_0 := 0x00100200;
      sp_vs_instr_size := 1;
      sp_vs_const_config := 0x103;
      sp_vs_config := 0x100;
      vfd_dest_cntl := [15; 71];
      vfd_cntl_1_6 := VFD_CNTL_1_6_NO_SYSVALS
    |}
  | FsNv12 => Fragment {|
      gras_cl_interp_cntl := 1;
      rb_interp_cntl := 1025;
      rb_ps_input_cntl := 0;
      rb_ps_output_cntl := 0;
      rb_ps_output_mask := 15;
      sp_ps_cntl_0 := 2169504128;
      sp_ps_config := 131840;
      sp_ps_const_config := 258;
      initial_tex_load_cmd := [566362112];
      initial_tex_load_cntl := 1;
      sp_ps_instr_size := 1;
      sp_ps_output_cntl := 4244438016;
      sp_ps_output_mask := 15;
      sp_ps_output_reg := [7];
      sp_ps_wave_cntl := 3;
      sp_reg_prog_id := [4244438268; 4244438016; 4244438268; 64764]
    |}
  | FsNv12VertexColor => Fragment {|
      gras_cl_interp_cntl := 1;
      rb_interp_cntl := 1025;
      rb_ps_input_cntl := 0;
      rb_ps_output_cntl := 0;
      rb_ps_output_mask := 15;
      sp_ps_cntl_0 := 2169504256;
      sp_ps_config := 131840;
      sp_ps_const_config := 258;
      initial_tex_load_cmd := [566362116];
      initial_tex_load_cntl := 1;
      sp_ps_instr_size := 2;
      sp_ps_output_cntl := 4244438016;
      sp_ps_output_mask := 15;
      sp_ps_output_reg := [11];
      sp_ps_wave_cntl := 3;
      sp_reg_prog_id := [4244438268; 4244438016; 4244438268; 64764]
    |}
  | FsSolid => Fragment {|
      sp_ps_cntl_0 := 0x81100080;
      sp_ps_instr_size := 1;
      sp_ps_const_config := 0x102;
      sp_ps_config := 0x100;
      sp_ps_wave_cntl := 1;
      gras_cl_interp_cntl := 0;
      rb_interp_cntl := 0;
      rb_ps_input_cntl := 0;
      initial_tex_load_cntl := 8;
      initial_tex_load_cmd := [];
      sp_reg_prog_id := PROG_ID_SOLID;
      sp_ps_output_cntl := 0xfcfcfc00;
      sp_ps_output_reg := [0];
      sp_ps_output_mask := 15;
      rb_ps_output_cntl := 0;
      rb_ps_output_mask := 15
    |}
  | FsVertexColor => fragment_varying 0x81500180 0 [] [6]
  | FsTextureRgba => fragment_varying 0x81500180 1 [0x23c20000] [6]
  | FsTextureAlphaMask => fragment_varying 0x81500180 1 [0x22020000] [6]
  | FsTextureVertexColorRgba => fragment_varying 0x81500200 1 [0x23c20004] [10]
  | FsTextureRgbIgnoreAlpha => fragment_varying 0x81500180 1 [0x21c20000] [5]
  end.

(** ** Pipelines *)

Record LinkMeta : Type := MkLinkMeta {
  vs : ShaderVariant;
  fs : ShaderVariant;
  sp_vs_output_reg : list Z;
  sp_vs_vpc_dest_reg : list Z;
  vpc_vs_cntl : Z;
  pc_vs_cntl : Z;
  sp_vs_output_cntl : Z;
  lm_transfer_disable : list Z;
  vpc_ps_cntl : Z;
}.

Inductive PipelineVariant : Type :=
| Stride16Solid
| Stride16TextureRgba
| Stride16TextureAlphaMask
| Stride40Solid
| Stride40VertexColor
| Stride40TextureVertexColorRgba
| Stride24Solid
| Stride24TextureRgba
| Stride24TextureRgbIgnoreAlpha
| Stride28VertexColor
| Stride32Solid
| Stride32VertexColor
| Stride24TextureAlphaMask
| Stride16Nv12
| Stride24Nv12
| Stride40Nv12VertexColor.

#[export] Instance PipelineVariant_eq_dec : EqDecision PipelineVariant.
Proof. solve_decision. Defined.

(** [PipelineVariant::ALL] *)
Definition ALL_PIPELINES : list PipelineVariant :=
  [Stride16Solid; Stride16TextureRgba;
   Stride16TextureAlphaMask; Stride40Solid;
   Stride40VertexColor; Stride40TextureVertexColorRgba;
   Stride24Solid; Stride24TextureRgba;
   Stride24TextureRgbIgnoreAlpha; Stride28VertexColor;
   Stride32Solid; Stride32VertexColor;
   Stride24TextureAlphaMask; Stride16Nv12;
   Stride24Nv12; Stride40Nv12VertexColor].

Record PipelineStateMeta : Type := MkPipelineStateMeta {
  stride : Z;
  vfd_fetch : list Z;
  uses_sampler : bool;
  source_over : bool;
}.

Definition SAMPLER_CLAMP_NEAREST : list Z := [0x920; 0x40; 0; 0].
Definition SAMPLER_CLAMP_LINEAR : list Z := [0x92a; 0x40; 0x20; 0].

Definition fixed (stride : Z) (vfd_fetch : list Z) (uses_sampler source_over : bool)
    : PipelineStateMeta := MkPipelineStateMeta stride vfd_fetch uses_sampler source_over.

Definition pipeline_state_meta (variant : PipelineVariant) : PipelineStateMeta :=
  let POS2 := [0xc6700000; 1] in
  let POS2_UV2 := [0xc6700000; 1; 0xc6700100; 1] in
  let POS4 := [0xc8200000; 1] in
  let POS4_UV2 := [0xc8200000; 1; 0xc6700200; 1] in
  let POS4_COLOR3 := [0xc8200000; 1; 0xc7400200; 1] in
  let POS4_COLOR4 := [0xc8200000; 1; 0xc8200200; 1] in
  let POS4_COLOR4_UV2 := [0xc8200000; 1; 0xc8200200; 1; 0xc6700400; 1] in
  match variant with
  | Stride16Solid => fixed 16 POS2 false true
  | Stride16Nv12 | Stride16TextureRgba | Stride16TextureAlphaMask =>
    fixed 16 POS2_UV2 true true
  | Stride40Solid => fixed 40 POS4 false true
  | Stride40VertexColor => fixed 40 POS4_COLOR4 false true
  | Stride40Nv12VertexColor | Stride40TextureVertexColorRgba =>
    fixed 40 POS4_COLOR4_UV2 true true
  | Stride24Solid => fixed 24 POS4 false true
  | Stride24Nv12 | Stride24TextureRgba | Stride24TextureRgbIgnoreAlpha
  | Stride24TextureAlphaMask => fixed 24 POS4_UV2 true true
  | Stride28VertexColor => fixed 28 POS4_COLOR3 false false
  | Stride32Solid => fixed 32 POS4 false true
  | Stride32VertexColor => fixed 32 POS4_COLOR4 false true
  end.

Definition link (vs fs : ShaderVariant) (outputs destinations : list Z)
    (vpc_vs_cntl pc_vs_cntl output_count : Z) (lm_transfer_disable : list Z)
    (vpc_ps_cntl : Z) : LinkMeta :=
  MkLinkMeta vs fs outputs destinations vpc_vs_cntl pc_vs_cntl output_count
    lm_transfer_disable vpc_ps_cntl.

Definition link_meta (variant : PipelineVariant) : LinkMeta :=
  match variant with
  | Stride16Nv12 => link VsStride16Pos2Uv2 FsNv12 [252183298] [512] 16712198 6 2 [4294967292;
      4294967295; 4294967295; 4294967295] 4278320898
  | Stride24Nv12 => link VsStride24Pos4Uv2 FsNv12 [252314372] [512] 16712198 6 2 [4294967292;
      4294967295; 4294967295; 4294967295] 4278320898
  | Stride40Nv12VertexColor => link VsStride40Pos4Color4Uv2 FsNv12VertexColor [50859780; 3854]
      [394240] 16713226 10 3 [4294967232; 4294967295; 4294967295; 4294967295] 4278320902
  | Stride16Solid => link VsStride16Pos2 FsSolid [3846] [0] 0x00ff0004 4 1 [U32_MAX; U32_MAX;
      U32_MAX; U32_MAX] 0xff00ff00
  | Stride16TextureRgba => link VsStride16Pos2Uv2 FsTextureRgba [0x0f080302] [512] 0x00ff0206 6
      2 [0xfffffffc; U32_MAX; U32_MAX; U32_MAX] 0xff01ff02
  | Stride16TextureAlphaMask => link VsStride16Pos2Uv2 FsTextureAlphaMask [0x0f080302] [512]
      0x00ff0206 6 2 [0xfffffffc; U32_MAX; U32_MAX; U32_MAX] 0xff01ff02
  | Stride40Solid => link VsStride40Pos4 FsSolid [3848] [0] 0x00ff0004 4 1 [U32_MAX; U32_MAX;
      U32_MAX; U32_MAX] 0xff00ff00
  | Stride40VertexColor => link VsStride40Pos4Color4 FsVertexColor [0x0f0c0f04] [1024]
      0x00ff0408 8 2 [0xfffffff0; U32_MAX; U32_MAX; U32_MAX] 0xff01ff04
  | Stride40TextureVertexColorRgba => link VsStride40Pos4Color4Uv2 FsTextureVertexColorRgba
      [0x03080f04; 3854] [394240] 0x00ff060a 10 3 [0xffffffc0; U32_MAX; U32_MAX; U32_MAX]
      0xff01ff06
  | Stride24Solid => link VsStride40Pos4 FsSolid [3848] [0] 0x00ff0004 4 1 [U32_MAX; U32_MAX;
      U32_MAX; U32_MAX] 0xff00ff00
  | Stride24TextureRgba => link VsStride24Pos4Uv2 FsTextureRgba [0x0f0a0304] [512] 0x00ff0206 6
      2 [0xfffffffc; U32_MAX; U32_MAX; U32_MAX] 0xff01ff02
  | Stride24TextureRgbIgnoreAlpha => link VsStride24Pos4Uv2 FsTextureRgbIgnoreAlpha [0x0f0a0304]
      [512] 0x00ff0206 6 2 [0xfffffffc; U32_MAX; U32_MAX; U32_MAX] 0xff01ff02
  | Stride24TextureAlphaMask => link VsStride24Pos4Uv2 FsTextureAlphaMask [0x0f0a0304] [512]
      0x00ff0206 6 2 [0xfffffffc; U32_MAX; U32_MAX; U32_MAX] 0xff01ff02
  | Stride28VertexColor => link VsStride28Pos4Color3 FsVertexColor [0x0f0c0f04] [1024]
      0x00ff0408 8 2 [0xfffffff0; U32_MAX; U32_MAX; U32_MAX] 0xff01ff04
  | Stride32Solid => link VsStride40Pos4 FsSolid [3848] [0] 0x00ff0004 4 1 [U32_MAX; U32_MAX;
      U32_MAX; U32_MAX] 0xff00ff00
  | Stride32VertexColor => link VsStride40Pos4Color4 FsVertexColor [0x0f0c0f04] [1024]
      0x00ff0408 8 2 [0xfffffff0; U32_MAX; U32_MAX; U32_MAX] 0xff01ff04
  end.

(** ** The kernel-owned pack *)

Definition PACK_SIZE : Z := 17 * SHADER_ALIGNMENT.

(** One turn of the loop of [copy_pack]: clear the slot, copy the program. *)
Definition copy_program (destination : list Z) (variant : ShaderVariant) : outcome () (list Z) :=
  let start := shader_offset variant in
  let? cleared := write_at destination start (replicate (Z.to_nat (shader_size variant)) 0) in
  write_at cleared start (shader_bytes variant).

(** [copy_pack]: the returned flag and the destination after the call. *)
Definition copy_pack (destination : list Z) : outcome () (bool * list Z) :=
  if len destination <? PACK_SIZE then Ok (false, destination) else
  let? d := foldM copy_program destination ALL_SHADERS in
  Ok (true, d).

(** ** The pack as a concatenation *)

(** A program followed by the zero padding of its slot. *)
Definition padded (v : ShaderVariant) : list Z :=
  shader_bytes v ++ replicate (Z.to_nat (shader_size v - len (shader_bytes v))) 0.

Definition canonical_pack : list Z := concat (padded <$> ALL_SHADERS).

Lemma size_bounds v : len (shader_bytes v) ≤ shader_size v ∧ 0 < len (shader_bytes v).
Proof. destruct v; vm_compute; split; done. Qed.

Lemma length_padded v : len (padded v) = shader_size v.
Proof.
  pose proof (size_bounds v). unfold padded, len in *.
  rewrite length_app, length_replicate. lia.
Qed.

Lemma copy_program_prefix pre v rest :
  len pre = shader_offset v → shader_size v ≤ len rest →
  copy_program (pre ++ rest) v = Ok (pre ++ padded v ++ drop (Z.to_nat (shader_size v)) rest).
Proof.
  intros Hoff Hrest. pose proof (size_bounds v) as [Hb Hb0]. unfold copy_program.
  rewrite <- Hoff. unfold len in Hb, Hb0, Hrest.
  rewrite write_at_prefix by (unfold len; rewrite length_replicate; lia). cbn [bind].
  rewrite length_replicate.
  rewrite write_at_prefix by (unfold len; rewrite length_app, length_replicate; lia).
  do 2 f_equal. unfold padded. rewrite <- app_assoc. f_equal.
  rewrite drop_app_le by (rewrite length_replicate; lia). f_equal.
  rewrite drop_replicate. f_equal. unfold len. lia.
Qed.

(** The slots of [vs] follow each other from offset [at_]. *)
Fixpoint contiguous (at_ : Z) (vs : list ShaderVariant) : bool :=
  match vs with
  | [] => true
  | v :: vs => (shader_offset v =? at_) && contiguous (at_ + shader_size v) vs
  end.

Lemma copy_programs_prefix vs pre rest :
  contiguous (len pre) vs = true → len (concat (padded <$> vs)) ≤ len rest →
  foldM copy_program (pre ++ rest) vs
  = Ok (pre ++ concat (padded <$> vs) ++ drop (length (concat (padded <$> vs))) rest).
Proof.
  revert pre rest. induction vs as [|v vs IH]; intros pre rest Hc Hl; [done|].
  cbn [contiguous] in Hc. bool_to_prop. cbn [fmap list_fmap concat foldM] in *.
  pose proof (length_padded v) as Hp. unfold len in *. rewrite length_app in Hl.
  rewrite copy_program_prefix by (unfold len; lia). cbn [bind].
  rewrite app_assoc, IH.
  - rewrite drop_drop, length_app, <- !app_assoc.
    by replace (Z.to_nat (shader_size v)) with (length (padded v)) by lia.
  - unfold len. rewrite length_app, Nat2Z.inj_add, Hp. done.
  - unfold len. rewrite length_drop. unfold fmap in *. lia.
Qed.

(** ** Properties *)

(** Program identities are dense and stable, and the slots of the pack are
    sound: the raw identifier round-trips, every program starts on its required
    alignment and fits its slot, every slot lies in the pack, and no two slots
    overlap. *)
Theorem shader_pack_layout :
  (∀ v, shader_from_raw (shader_raw v) = Some v) ∧
  (∀ r v, 0 ≤ r → shader_from_raw r = Some v → shader_raw v = r) ∧
  (∀ v, shader_offset v mod SHADER_ALIGNMENT = 0 ∧ len (shader_bytes v) ≤ shader_size v ∧
        0 ≤ shader_offset v ∧ shader_offset v + shader_size v ≤ PACK_SIZE) ∧
  (∀ v w, v ≠ w → shader_offset v + shader_size v ≤ shader_offset w ∨ shader_offset w + shader_size w ≤ shader_offset v).
Proof.
  split_and!.
  - by intros [].
  - intros r v Hr. unfold shader_from_raw. case_match eqn:Hlt; [|done]. bool_to_prop.
    change (len ALL_SHADERS) with 15 in Hlt.
    replace r with (Z.of_nat (Z.to_nat r)) by lia.
    assert (Z.to_nat r < 15)%nat as Hn by lia. revert Hn.
    generalize (Z.to_nat r) as n. intros n Hn. rewrite Nat2Z.id.
    do 15 (destruct n as [|n]; [by intros [= <-]|]). lia.
  - intros []; vm_compute; split_and!; done.
  - intros [] []; first [by intros []|intros _; vm_compute; by (left + right)].
Qed.

(** [copy_pack] writes exactly the canonical pack.  A destination shorter
    than the pack is refused and left alone; otherwise the result is the
    programs in identity order, each padded with zeros to its slot, followed by
    the untouched rest of the destination, and no slice operation panics. *)
Theorem copy_pack_canonical (destination : list Z) :
  copy_pack destination =
    (if len destination <? PACK_SIZE then Ok (false, destination)
     else Ok (true, canonical_pack ++ drop (Z.to_nat PACK_SIZE) destination)) ∧
  len canonical_pack = PACK_SIZE.
Proof.
  assert (len canonical_pack = PACK_SIZE) as Hlen by (vm_compute; done).
  split; [|done]. unfold copy_pack.
  destruct (Z.ltb_spec (len destination) PACK_SIZE) as [?|Hge]; [done|].
  rewrite <- (app_nil_l destination) at 1. rewrite copy_programs_prefix.
  - cbn [bind]. fold canonical_pack. rewrite <- Hlen.
    unfold len. by rewrite Nat2Z.id.
  - vm_compute. done.
  - fold canonical_pack. lia.
Qed.

(** Every supported pipeline links a vertex program to a fragment program,
    and [is_vertex] agrees with the stage of the program's metadata. *)
Theorem pipeline_stages (p : PipelineVariant) (v : ShaderVariant) :
  (∃ m, shader_meta (link_meta p).(vs) = Vertex m) ∧
  (∃ m, shader_meta (link_meta p).(fs) = Fragment m) ∧
  (is_vertex v = true ↔ ∃ m, shader_meta v = Vertex m) ∧
  p ∈ ALL_PIPELINES ∧ v ∈ ALL_SHADERS.
Proof.
  split_and!.
  - destruct p; by eexists.
  - destruct p; by eexists.
  - destruct v; cbn; naive_solver.
  - destruct p; set_solver.
  - destruct v; set_solver.
Qed.
