(* ===== verification/SubmitWire.v ===== *)
(** * The submit wire format

    Model of [shared/adreno-a6xx-submit-wire/src/lib.rs]: the versioned payload
    that userspace hands to the kernel driver, with its header, inline PM4
    table, resource table and relocation table.  [encode] fills a caller-owned
    buffer, [decode] validates an untrusted one and gives bounded access to its
    tables.  This file holds the definitions; [SubmitWireFacts] relates the two
    directions. *)
From S2P Require Import Prelude ShaderPack.

(** [u32::from_le_bytes( *b"A6XS")] *)
Definition MAGIC : Z := little_endian_to_Z 8 [0x41; 0x36; 0x58; 0x53].
Definition VERSION_MAJOR : Z := 1.
Definition VERSION_MINOR : Z := 1.
Definition HEADER_SIZE : Z := 64.
Definition RESOURCE_SIZE : Z := 32.
Definition RELOCATION_SIZE : Z := 32.
Definition MAX_SUBMIT_SIZE : Z := 2 * 1024 * 1024.
Definition MAX_RESOURCES : Z := 1024.
Definition MAX_RELOCATIONS : Z := 8192.

Definition ACCESS_READ : Z := 1 << 0.
Definition ACCESS_WRITE : Z := 1 << 1.
Definition ACCESS_MASK : Z := ACCESS_READ .| ACCESS_WRITE.

Inductive Error : Type :=
| Overflow
| InvalidSize
| UnsupportedVersion
| InvalidField
| ReservedNotZero
| InvalidTable
| RelocationsNotSorted
| RelocationOutOfBounds
| NonZeroPlaceholder.

Record Resource : Type := MkResource {
  attachment_token : Z;
  range_offset : Z;
  range_size : Z;
  res_access : Z;
}.

Inductive AddressEncoding : Type :=
| GpuVa64
| GpuVa49TexDescriptor.

#[export] Instance AddressEncoding_eq_dec : EqDecision AddressEncoding.
Proof. solve_decision. Defined.

(** [self as u16] *)
Definition encoding_raw (self : AddressEncoding) : Z :=
  match self with GpuVa64 => 1 | GpuVa49TexDescriptor => 3 end.

Definition encoding_from_raw (value : Z) : outcome Error AddressEncoding :=
  match value with
  | 1 => Ok GpuVa64
  | 3 => Ok GpuVa49TexDescriptor
  | _ => Err InvalidField
  end.

Definition word_count (self : AddressEncoding) : Z :=
  match self with GpuVa64 | GpuVa49TexDescriptor => 2 end.

Definition placeholder_is_valid (self : AddressEncoding) (words : list Z) : bool :=
  match self with
  | GpuVa64 => bool_decide (words = [0; 0])
  | GpuVa49TexDescriptor =>
    match words with
    | [w0; w1] => (w0 =? 0) && (w1 .& 0x1ffff =? 0)
    | _ => false
    end
  end.

Inductive RelocationSource : Type :=
| Attachment (index : Z)
| CanonicalShader (variant : ShaderVariant).

#[export] Instance RelocationSource_eq_dec : EqDecision RelocationSource.
Proof. solve_decision. Defined.

Record Relocation : Type := MkRelocation {
  pm4_word_offset : Z;
  source : RelocationSource;
  resource_offset : Z;
  required_size : Z;
  rel_access : Z;
  encoding : AddressEncoding;
}.

Record Submit : Type := MkSubmit {
  pm4 : list Z;
  resources : list Resource;
  relocations : list Relocation;
}.

Record Layout : Type := MkLayout {
  total : Z;
  pm4_offset : Z;
  resources_offset : Z;
  relocations_offset : Z;
}.

(** ** Table layout *)

Definition align_up (value alignment : Z) : outcome Error Z :=
  match checked_add U64_MAX value (alignment - 1) with
  | Some value => Ok (value .&~ (alignment - 1))
  | None => Err Overflow
  end.

Definition layout (pm4_count resource_count relocation_count : Z) : outcome Error Layout :=
  if (pm4_count =? 0) || (MAX_RESOURCES <? resource_count) || (MAX_RELOCATIONS <? relocation_count)
  then Err InvalidSize
  else
    let? pm4_size := ok_or (checked_mul U64_MAX pm4_count 4) Overflow in
    let? resources_size := ok_or (checked_mul U64_MAX resource_count RESOURCE_SIZE) Overflow in
    let? relocations_size := ok_or (checked_mul U64_MAX relocation_count RELOCATION_SIZE) Overflow in
    let pm4_offset := HEADER_SIZE in
    let? pm4_end := ok_or (checked_add U64_MAX pm4_offset pm4_size) Overflow in
    let? resources_offset := align_up pm4_end 8 in
    let? relocations_offset := ok_or (checked_add U64_MAX resources_offset resources_size) Overflow in
    let? total := ok_or (checked_add U64_MAX relocations_offset relocations_size) Overflow in
    if (MAX_SUBMIT_SIZE <? total) || (U32_MAX <? total) then Err InvalidSize
    else Ok (MkLayout total pm4_offset resources_offset relocations_offset).

Definition encoded_len_for_counts (pm4 resources relocations : Z) : outcome Error Z :=
  let? l := layout pm4 resources relocations in Ok l.(total).

Definition encoded_len (submit : Submit) : outcome Error Z :=
  let? l := layout (len submit.(pm4)) (len submit.(resources)) (len submit.(relocations)) in
  Ok l.(total).

(** ** Little-endian fields *)

(** [value.to_le_bytes()] of an [n]-byte integer. *)
Definition le (n value : Z) : list Z := Z_to_little_endian n 8 value.

Definition put_u16 (output : list Z) (offset value : Z) : outcome Error (list Z) :=
  write_at output offset (le 2 value).
Definition put_u32 (output : list Z) (offset value : Z) : outcome Error (list Z) :=
  write_at output offset (le 4 value).
Definition put_u64 (output : list Z) (offset value : Z) : outcome Error (list Z) :=
  write_at output offset (le 8 value).

(** [uN::from_le_bytes([input[offset], input[offset + 1], ..])] *)
Definition get_le {E} (n : Z) (input : list Z) (offset : Z) : outcome E Z :=
  if offset + n <=? len input
  then Ok (little_endian_to_Z 8 (slice input offset (offset + n)))
  else Panic.

Definition get_u16 {E} (input : list Z) (offset : Z) : outcome E Z := get_le 2 input offset.
Definition get_u32 {E} (input : list Z) (offset : Z) : outcome E Z := get_le 4 input offset.
Definition get_u64 {E} (input : list Z) (offset : Z) : outcome E Z := get_le 8 input offset.

(** ** Record validation *)

Definition validate_access (access : Z) : outcome Error () :=
  if (access =? 0) || negb (access .&~ ACCESS_MASK =? 0) then Err InvalidField else Ok ().

Definition validate_resource (resource : Resource) : outcome Error () :=
  let? _ := validate_access resource.(res_access) in
  if (resource.(attachment_token) =? 0) || (resource.(range_size) =? 0)
     || bool_decide (checked_add U64_MAX resource.(range_offset) resource.(range_size) = None)
  then Err InvalidField
  else Ok ().

(** [previous_end.is_some_and(|previous| previous > start)] *)
Definition overlaps_previous (previous_end : option Z) (start : Z) : bool :=
  match previous_end with Some previous => start <? previous | None => false end.

Definition validate_relocation (relocation : Relocation) (previous_end : option Z)
    (pm4 : list Z) (resources : list Resource) : outcome Error () :=
  let? _ := validate_access relocation.(rel_access) in
  if overlaps_previous previous_end relocation.(pm4_word_offset)
  then Err RelocationsNotSorted
  else
    let? _ :=
      (match relocation.(source) with
       | Attachment resource_index =>
         let? resource := ok_or (resources !! Z.to_nat resource_index) RelocationOutOfBounds in
         if negb (relocation.(rel_access) .&~ resource.(res_access) =? 0)
            || (relocation.(required_size) =? 0)
         then Err RelocationOutOfBounds
         else
           let? range_end :=
             ok_or (checked_add U64_MAX relocation.(resource_offset) relocation.(required_size))
                   Overflow in
           if resource.(range_size) <? range_end then Err RelocationOutOfBounds else Ok ()
       | CanonicalShader variant =>
         if negb (relocation.(resource_offset) =? 0)
            || negb (relocation.(required_size) =? shader_size variant)
            || negb (relocation.(rel_access) =? ACCESS_READ)
            || negb (bool_decide (relocation.(encoding) = GpuVa64))
         then Err RelocationOutOfBounds
         else Ok ()
       end) in
    let? word_end :=
      ok_or (checked_add U32_MAX relocation.(pm4_word_offset) (word_count relocation.(encoding)))
            Overflow in
    if len pm4 <? word_end then Err RelocationOutOfBounds
    else if negb (placeholder_is_valid relocation.(encoding)
                    (slice pm4 relocation.(pm4_word_offset) word_end))
    then Err NonZeroPlaceholder
    else Ok ().

(** ** Encoding *)

(** The validation loop of [encode] over the relocations. *)
Definition encode_relocation_check (submit : Submit) (previous_end : option Z)
    (relocation : Relocation) : outcome Error (option Z) :=
  let? _ := validate_relocation relocation previous_end submit.(pm4) submit.(resources) in
  Ok (checked_add U32_MAX relocation.(pm4_word_offset) (word_count relocation.(encoding))).

Definition encode_header (submit : Submit) (layout : Layout) (output : list Z)
    : outcome Error (list Z) :=
  let? output := put_u32 output 0 MAGIC in
  let? output := put_u16 output 4 VERSION_MAJOR in
  let? output := put_u16 output 6 VERSION_MINOR in
  let? output := put_u16 output 8 HEADER_SIZE in
  let? output := put_u16 output 10 0 in
  let? output := put_u32 output 12 layout.(total) in
  let? output := put_u32 output 16 layout.(pm4_offset) in
  let? output := put_u32 output 20 (len submit.(pm4)) in
  let? output := put_u32 output 24 layout.(resources_offset) in
  let? output := put_u32 output 28 (len submit.(resources)) in
  let? output := put_u32 output 32 layout.(relocations_offset) in
  put_u32 output 36 (len submit.(relocations)).

Definition put_resource (base : Z) (output : list Z) (entry : Z * Resource)
    : outcome Error (list Z) :=
  let '(index, resource) := entry in
  let offset := base + index * RESOURCE_SIZE in
  let? output := put_u64 output offset resource.(attachment_token) in
  let? output := put_u64 output (offset + 8) resource.(range_offset) in
  let? output := put_u64 output (offset + 16) resource.(range_size) in
  put_u32 output (offset + 24) resource.(res_access).

(** [(source_kind, source_index)] *)
Definition source_fields (source : RelocationSource) : Z * Z :=
  match source with
  | Attachment index => (0, index)
  | CanonicalShader variant => (1, shader_raw variant)
  end.

Definition put_relocation (base : Z) (output : list Z) (entry : Z * Relocation)
    : outcome Error (list Z) :=
  let '(index, relocation) := entry in
  let offset := base + index * RELOCATION_SIZE in
  let '(source_kind, source_index) := source_fields relocation.(source) in
  let? output := put_u32 output offset relocation.(pm4_word_offset) in
  let? output := put_u32 output (offset + 4) source_index in
  let? output := put_u64 output (offset + 8) relocation.(resource_offset) in
  let? output := put_u64 output (offset + 16) relocation.(required_size) in
  let? output := put_u32 output (offset + 24) relocation.(rel_access) in
  let? output := put_u16 output (offset + 28) (encoding_raw relocation.(encoding)) in
  put_u16 output (offset + 30) source_kind.

(** [iter().enumerate()] *)
Definition enumerate {A} (l : list A) : list (Z * A) := zip (range (len l)) l.

(** [encode]: the buffer after a successful call.  Every error is reported
    before the buffer is touched. *)
Definition encode (submit : Submit) (output : list Z) : outcome Error (list Z) :=
  let? layout :=
    layout (len submit.(pm4)) (len submit.(resources)) (len submit.(relocations)) in
  if negb (len output =? layout.(total)) then Err InvalidSize
  else
    let? _ := forM validate_resource submit.(resources) in
    let? _ := foldM (encode_relocation_check submit) None submit.(relocations) in
    let output := replicate (length output) 0 in
    let? output := encode_header submit layout output in
    let? output := foldM (λ output '(index, word),
                            put_u32 output (layout.(pm4_offset) + index * 4) word)
                         output (enumerate submit.(pm4)) in
    let? output := foldM (put_resource layout.(resources_offset)) output
                         (enumerate submit.(resources)) in
    foldM (put_relocation layout.(relocations_offset)) output (enumerate submit.(relocations)).

(** ** Decoding *)

Record DecodedSubmit : Type := MkDecodedSubmit {
  dbytes : list Z;
  dlayout : Layout;
  pm4_count : Z;
  resource_count : Z;
  relocation_count : Z;
}.

Definition pm4_len (self : DecodedSubmit) : Z := self.(pm4_count).
Definition resource_len (self : DecodedSubmit) : Z := self.(resource_count).
Definition relocation_len (self : DecodedSubmit) : Z := self.(relocation_count).

(** The accessors return [Option]; [Err tt] is [None]. *)
Definition pm4_word (self : DecodedSubmit) (index : Z) : outcome () Z :=
  if index <? self.(pm4_count)
  then get_u32 self.(dbytes) (self.(dlayout).(pm4_offset) + index * 4)
  else Err tt.

Definition resource (self : DecodedSubmit) (index : Z) : outcome () Resource :=
  if self.(resource_count) <=? index then Err tt
  else
    let offset := self.(dlayout).(resources_offset) + index * RESOURCE_SIZE in
    let? token := get_u64 self.(dbytes) offset in
    let? range_offset := get_u64 self.(dbytes) (offset + 8) in
    let? range_size := get_u64 self.(dbytes) (offset + 16) in
    let? access := get_u32 self.(dbytes) (offset + 24) in
    Ok (MkResource token range_offset range_size access).

Definition relocation (self : DecodedSubmit) (index : Z) : outcome () Relocation :=
  if self.(relocation_count) <=? index then Err tt
  else
    let offset := self.(dlayout).(relocations_offset) + index * RELOCATION_SIZE in
    let? kind := get_u16 self.(dbytes) (offset + 30) in
    let? source :=
      (if kind =? 0 then
         let? index := get_u32 self.(dbytes) (offset + 4) in Ok (Attachment index)
       else
         let? minor := get_u16 self.(dbytes) 6 in
         if (kind =? 1) && (1 <=? minor) then
           let? id := get_u32 self.(dbytes) (offset + 4) in
           (* u16::try_from *)
           let? id := (if id <=? 0xffff then Ok id else Err tt) in
           let? variant := ok_or (shader_from_raw id) tt in
           Ok (CanonicalShader variant)
         else Err tt) in
    let? pm4_word_offset := get_u32 self.(dbytes) offset in
    let? resource_offset := get_u64 self.(dbytes) (offset + 8) in
    let? required_size := get_u64 self.(dbytes) (offset + 16) in
    let? access := get_u32 self.(dbytes) (offset + 24) in
    let? encoding_field := get_u16 self.(dbytes) (offset + 28) in
    let? encoding := map_err (encoding_from_raw encoding_field) tt in
    Ok (MkRelocation pm4_word_offset source resource_offset required_size access encoding).

(** The resource loop of [decode]. *)
Definition decode_resource_check (decoded : DecodedSubmit) (index : Z) : outcome Error () :=
  let offset := decoded.(dlayout).(resources_offset) + index * RESOURCE_SIZE in
  let? reserved := get_u32 decoded.(dbytes) (offset + 28) in
  if negb (reserved =? 0) then Err ReservedNotZero
  else
    let? r := map_err (resource decoded index) InvalidTable in
    validate_resource r.

(** The relocation loop of [decode]. *)
Definition decode_relocation_check (decoded : DecodedSubmit) (previous_end : option Z) (index : Z)
    : outcome Error (option Z) :=
  let? relocation := map_err (relocation decoded index) InvalidField in
  let? _ := validate_access relocation.(rel_access) in
  if overlaps_previous previous_end relocation.(pm4_word_offset)
  then Err RelocationsNotSorted
  else
    let? _ :=
      (match relocation.(source) with
       | Attachment resource_index =>
         let? resource := map_err (resource decoded resource_index) RelocationOutOfBounds in
         if negb (relocation.(rel_access) .&~ resource.(res_access) =? 0)
            || (relocation.(required_size) =? 0)
         then Err RelocationOutOfBounds
         else
           let? range_end :=
             ok_or (checked_add U64_MAX relocation.(resource_offset) relocation.(required_size))
                   Overflow in
           if resource.(range_size) <? range_end then Err RelocationOutOfBounds else Ok ()
       | CanonicalShader variant =>
         if negb (relocation.(resource_offset) =? 0)
            || negb (relocation.(required_size) =? shader_size variant)
            || negb (relocation.(rel_access) =? ACCESS_READ)
            || negb (bool_decide (relocation.(encoding) = GpuVa64))
         then Err RelocationOutOfBounds
         else Ok ()
       end) in
    let? word_end :=
      ok_or (checked_add U32_MAX relocation.(pm4_word_offset) (word_count relocation.(encoding)))
            Overflow in
    if decoded.(pm4_count) <? word_end then Err RelocationOutOfBounds
    else
      (* placeholder.iter_mut().zip(pm4_word_offset..word_end) *)
      let? found :=
        mapM (λ word, map_err (pm4_word decoded word) RelocationOutOfBounds)
             (take 2 (seqZ relocation.(pm4_word_offset)
                        (word_end - relocation.(pm4_word_offset)))) in
      let placeholder := found ++ replicate (2 - length found) 0 in
      if negb (placeholder_is_valid relocation.(encoding)
                 (take (Z.to_nat (word_count relocation.(encoding))) placeholder))
      then Err NonZeroPlaceholder
      else Ok (Some word_end).

Definition any_nonzero (l : list Z) : bool := existsb (λ byte, negb (byte =? 0)) l.

(** The fixed header checks of [decode] and the counts it reads. *)
Definition decode_tables (bytes : list Z) : outcome Error DecodedSubmit :=
  if (len bytes <? HEADER_SIZE) || (MAX_SUBMIT_SIZE <? len bytes) then Err InvalidSize else
  let? magic := get_u32 bytes 0 in
  let? major := get_u16 bytes 4 in
  if negb (magic =? MAGIC) || negb (major =? VERSION_MAJOR) then Err UnsupportedVersion else
  let? minor := get_u16 bytes 6 in
  let? header_size := get_u16 bytes 8 in
  if (VERSION_MINOR <? minor) || negb (header_size =? HEADER_SIZE) then Err UnsupportedVersion else
  let? reserved := get_u16 bytes 10 in
  if negb (reserved =? 0) || any_nonzero (slice bytes 40 HEADER_SIZE) then Err ReservedNotZero else
  let? size := get_u32 bytes 12 in
  if negb (size =? len bytes) then Err InvalidSize else
  let? pm4_offset' := get_u32 bytes 16 in
  let? pm4_count := get_u32 bytes 20 in
  let? resources_offset' := get_u32 bytes 24 in
  let? resource_count := get_u32 bytes 28 in
  let? relocations_offset' := get_u32 bytes 32 in
  let? relocation_count := get_u32 bytes 36 in
  let? expected := layout pm4_count resource_count relocation_count in
  if negb (pm4_offset' =? expected.(pm4_offset))
     || negb (resources_offset' =? expected.(resources_offset))
     || negb (relocations_offset' =? expected.(relocations_offset))
     || negb (expected.(total) =? len bytes)
  then Err InvalidTable
  else
    let? pm4_size := ok_or (checked_mul U64_MAX pm4_count 4) Overflow in
    let? pm4_padding_start := ok_or (checked_add U64_MAX expected.(pm4_offset) pm4_size) Overflow in
    if any_nonzero (slice bytes pm4_padding_start expected.(resources_offset))
    then Err ReservedNotZero
    else Ok (MkDecodedSubmit bytes expected pm4_count resource_count relocation_count).

Definition decode (bytes : list Z) : outcome Error DecodedSubmit :=
  let? decoded := decode_tables bytes in
  let? _ := forM (decode_resource_check decoded) (range decoded.(resource_count)) in
  let? _ := foldM (decode_relocation_check decoded) None (range decoded.(relocation_count)) in
  Ok decoded.
