(* ===== verification/SubmitWireFacts.v ===== *)
(** * The submit wire format: what [encode] and [decode] agree on

    [wire_image] is the byte image of a submission.  [encode] writes exactly
    that image ([encode_image]); [decode] accepts exactly the images of
    submissions that pass validation ([decode_image], [decode_inv]). *)
From S2P Require Import Prelude ShaderPack SubmitWire.

(** ** Fields *)

Lemma len_le n v : 0 ≤ n → len (le n v) = n.
Proof. intros. unfold le, len. by apply length_Z_to_little_endian. Qed.

Lemma length_le n v : 0 ≤ n → length (le n v) = Z.to_nat n.
Proof. intros. apply (len_le n v) in H. unfold len in H. lia. Qed.

Lemma of_le_le n v : 0 ≤ n → 0 ≤ v < 2 ^ (8 * n) → little_endian_to_Z 8 (le n v) = v.
Proof.
  intros Hn Hv. unfold le. rewrite little_endian_to_Z_to_little_endian by lia.
  apply Z.mod_small. by rewrite (Z.mul_comm n 8).
Qed.

Lemma le_of_le l : Forall u8 l → le (len l) (little_endian_to_Z 8 l) = l.
Proof. intros. unfold le, len. by apply Z_to_little_endian_to_Z. Qed.

Lemma of_le_bounds l : Forall u8 l → 0 ≤ little_endian_to_Z 8 l < 2 ^ (8 * len l).
Proof.
  intros. unfold len. rewrite Z.mul_comm. apply little_endian_to_Z_bound; [lia|done].
Qed.

Lemma Forall_le n v : 0 ≤ n → Forall u8 (le n v).
Proof. intros. unfold le. apply (Z_to_little_endian_bound n 8); lia. Qed.

(** Reading the field at [offset]. *)
Lemma get_le_image {E} n b offset v :
  0 ≤ n → 0 ≤ v < 2 ^ (8 * n) → offset + n ≤ len b →
  slice b offset (offset + n) = le n v → get_le (E:=E) n b offset = Ok v.
Proof.
  intros Hn Hv Hlen Hs. unfold get_le.
  destruct (Z.leb_spec (offset + n) (len b)); [|lia]. by rewrite Hs, of_le_le.
Qed.

Lemma get_le_inv {E} n b offset v :
  0 ≤ n → 0 ≤ offset → Forall u8 b → get_le (E:=E) n b offset = Ok v →
  slice b offset (offset + n) = le n v ∧ 0 ≤ v < 2 ^ (8 * n) ∧ offset + n ≤ len b.
Proof.
  intros Hn Ho Hb. unfold get_le. destruct (Z.leb_spec (offset + n) (len b)); [|done].
  intros [= <-]. assert (len (slice b offset (offset + n)) = n) as Hl
    by (rewrite length_slice; lia).
  assert (Forall u8 (slice b offset (offset + n))) as HF by by apply Forall_slice.
  pose proof (le_of_le _ HF) as H1. pose proof (of_le_bounds _ HF) as H2.
  rewrite Hl in H1, H2. auto.
Qed.

Lemma get_le_total {E} n b offset :
  0 ≤ n → 0 ≤ offset → Forall u8 b → offset + n ≤ len b →
  ∃ v, get_le (E:=E) n b offset = Ok v ∧ 0 ≤ v < 2 ^ (8 * n).
Proof.
  intros Hn Ho Hb Hle. destruct (get_le (E:=E) n b offset) as [v| |] eqn:Hg.
  - exists v. split; [done|]. by apply get_le_inv in Hg as (?&?&?).
  - unfold get_le in Hg. by case_match.
  - unfold get_le in Hg. case_match; [done|]. bool_to_prop. lia.
Qed.

(** ** Layout *)

Definition resources_start (words : Z) : Z := round_up (HEADER_SIZE + words * 4) 8.

Definition layout_of (words n_resources n_relocations : Z) : Layout :=
  let resources := resources_start words in
  let relocations := resources + n_resources * RESOURCE_SIZE in
  MkLayout (relocations + n_relocations * RELOCATION_SIZE) HEADER_SIZE resources relocations.

Definition counts_ok (words n_resources n_relocations : Z) : Prop :=
  0 < words ∧ 0 ≤ n_resources ≤ MAX_RESOURCES ∧ 0 ≤ n_relocations ≤ MAX_RELOCATIONS ∧
  (layout_of words n_resources n_relocations).(total) ≤ MAX_SUBMIT_SIZE.

Lemma align_up_8 v r : align_up v 8 = Ok r ↔ v + 7 ≤ U64_MAX ∧ r = round_up v 8.
Proof.
  unfold align_up, checked_add, round_up.
  change (v + (8 - 1)) with (v + 7).
  destruct (Z.leb_spec (v + 7) U64_MAX); [rewrite (ldiff_align _ 8 3) by done|]; naive_solver lia.
Qed.

Lemma resources_start_bounds words :
  HEADER_SIZE + words * 4 ≤ resources_start words ≤ HEADER_SIZE + words * 4 + 7.
Proof.
  unfold resources_start. pose proof (round_up_bounds (HEADER_SIZE + words * 4) 8). lia.
Qed.

Lemma layout_Ok words n m l :
  0 ≤ words → 0 ≤ n → 0 ≤ m →
  layout words n m = Ok l ↔ counts_ok words n m ∧ l = layout_of words n m.
Proof.
  intros Hw Hn Hm. pose proof (resources_start_bounds words) as Hb.
  unfold counts_ok, layout_of; cbn [total].
  unfold layout. unfold MAX_RESOURCES, MAX_RELOCATIONS, MAX_SUBMIT_SIZE, HEADER_SIZE,
    RESOURCE_SIZE, RELOCATION_SIZE, U32_MAX in *. split.
  - intros H. case_match; [done|]. bool_to_prop. inv_ok H. destruct_and?. subst.
    apply align_up_8 in Hv3 as [? ->].
    change (round_up (64 + words * 4) 8) with (resources_start words) in *.
    case_match; [done|]. bool_to_prop. injection H as <-. split_and!; [lia..|done].
  - intros [(?&?&?&?) ->].
    destruct (Z.eqb_spec words 0); [lia|]. destruct (Z.ltb_spec 1024 n); [lia|].
    destruct (Z.ltb_spec 8192 m); [lia|]. cbn [orb]. unfold checked_mul, checked_add.
    change U64_MAX with 0xffffffffffffffff.
    repeat (match goal with |- context [?a <=? ?b] => destruct (Z.leb_spec a b); [|lia] end;
            cbn [ok_or bind]).
    assert (align_up (64 + words * 4) 8 = Ok (round_up (64 + words * 4) 8)) as ->
      by (apply align_up_8; unfold U64_MAX; lia).
    change (round_up (64 + words * 4) 8) with (resources_start words). cbn [bind].
    repeat (match goal with |- context [?a <=? ?b] => destruct (Z.leb_spec a b); [|lia] end;
            cbn [ok_or bind]).
    repeat match goal with |- context [?a <? ?b] => destruct (Z.ltb_spec a b); [lia|] end.
    done.
Qed.

Lemma layout_no_panic words n m : layout words n m ≠ Panic.
Proof.
  unfold layout. case_match; [done|]. unfold align_up, ok_or.
  repeat (case_match; cbn [bind]; try done).
Qed.

(** ** The byte image of a submission *)

Definition header_image (minor : Z) (s : Submit) (l : Layout) : list Z :=
  le 4 MAGIC ++ le 2 VERSION_MAJOR ++ le 2 minor ++ le 2 HEADER_SIZE ++ le 2 0 ++
  le 4 l.(total) ++ le 4 l.(pm4_offset) ++ le 4 (len s.(pm4)) ++
  le 4 l.(resources_offset) ++ le 4 (len s.(resources)) ++
  le 4 l.(relocations_offset) ++ le 4 (len s.(relocations)) ++ replicate 24 0.

Definition resource_image (r : Resource) : list Z :=
  le 8 r.(attachment_token) ++ le 8 r.(range_offset) ++ le 8 r.(range_size) ++
  le 4 r.(res_access) ++ replicate 4 0.

Definition relocation_image (r : Relocation) : list Z :=
  le 4 r.(pm4_word_offset) ++ le 4 (source_fields r.(source)).2 ++
  le 8 r.(resource_offset) ++ le 8 r.(required_size) ++ le 4 r.(rel_access) ++
  le 2 (encoding_raw r.(encoding)) ++ le 2 (source_fields r.(source)).1.

Definition padding (s : Submit) : Z :=
  resources_start (len s.(pm4)) - (HEADER_SIZE + len s.(pm4) * 4).

Definition submit_layout (s : Submit) : Layout :=
  layout_of (len s.(pm4)) (len s.(resources)) (len s.(relocations)).

Definition wire_image (minor : Z) (s : Submit) : list Z :=
  header_image minor s (submit_layout s) ++
  concat (le 4 <$> s.(pm4)) ++
  replicate (Z.to_nat (padding s)) 0 ++
  concat (resource_image <$> s.(resources)) ++
  concat (relocation_image <$> s.(relocations)).

Create Rewrite HintDb wire_len.
#[export] Hint Rewrite @len_nil @len_app @len_replicate : wire_len.
#[export] Hint Rewrite len_le using lia : wire_len.

(** Lengths of concatenated fields. *)
Ltac wire_len := autorewrite with wire_len; try lia.

Lemma len_header_image minor s l : len (header_image minor s l) = 64.
Proof. unfold header_image. wire_len. Qed.

Lemma len_resource_image r : len (resource_image r) = 32.
Proof. unfold resource_image. wire_len. Qed.

Lemma len_relocation_image r : len (relocation_image r) = 32.
Proof. unfold relocation_image. wire_len. Qed.

Lemma len_words l : len (concat (le 4 <$> l)) = 4 * len l.
Proof. apply len_concat. intros. wire_len. Qed.

Lemma len_resources l : len (concat (resource_image <$> l)) = 32 * len l.
Proof. apply len_concat, len_resource_image. Qed.

Lemma len_relocations l : len (concat (relocation_image <$> l)) = 32 * len l.
Proof. apply len_concat, len_relocation_image. Qed.

#[export] Hint Rewrite len_header_image len_resource_image len_relocation_image
  len_words len_resources len_relocations : wire_len.

Lemma padding_bounds s : 0 ≤ padding s ≤ 7.
Proof. unfold padding. pose proof (resources_start_bounds (len s.(pm4))). lia. Qed.

Lemma submit_offsets s :
  (submit_layout s).(pm4_offset) = 64 ∧
  (submit_layout s).(resources_offset) = 64 + 4 * len s.(pm4) + padding s ∧
  (submit_layout s).(relocations_offset)
    = 64 + 4 * len s.(pm4) + padding s + 32 * len s.(resources) ∧
  (submit_layout s).(total)
    = 64 + 4 * len s.(pm4) + padding s + 32 * len s.(resources) + 32 * len s.(relocations).
Proof.
  unfold submit_layout, layout_of, padding, RESOURCE_SIZE, RELOCATION_SIZE, HEADER_SIZE; cbn -[len].
  lia.
Qed.

Lemma len_wire_image minor s : len (wire_image minor s) = (submit_layout s).(total).
Proof.
  destruct (submit_offsets s) as (_&_&_&->). unfold wire_image.
  pose proof (padding_bounds s). wire_len.
Qed.

(** ** Encoding writes the image

    The buffer is a finished prefix followed by zeros. *)

Definition zeroed (pre : list Z) (k : Z) : list Z := pre ++ replicate (Z.to_nat k) 0.

Lemma write_zeroed {E} pre k offset new :
  offset = len pre → len new ≤ k →
  write_at (E:=E) (zeroed pre k) offset new = Ok (zeroed (pre ++ new) (k - len new)).
Proof.
  intros -> Hk. unfold zeroed. rewrite write_at_prefix by (rewrite len_replicate; lia).
  rewrite <- app_assoc. do 3 f_equal. rewrite drop_replicate. f_equal. unfold len in *. lia.
Qed.

Lemma zeroed_skip pre k n :
  0 ≤ n ≤ k → zeroed pre k = zeroed (pre ++ replicate (Z.to_nat n) 0) (k - n).
Proof.
  intros Hn. unfold zeroed. rewrite <- app_assoc, <- replicate_add. do 2 f_equal. lia.
Qed.

(** A loop over a table appends the images of its entries. *)
Lemma write_table {A} (put : list Z → Z * A → outcome Error (list Z)) (img : A → list Z)
    size base pre k (l : list A) :
  0 ≤ size → (∀ x, len (img x) = size) →
  (∀ pre k i x, len pre = base + i * size → size ≤ k →
     put (zeroed pre k) (i, x) = Ok (zeroed (pre ++ img x) (k - size))) →
  len pre = base → size * len l ≤ k →
  foldM put (zeroed pre k) (enumerate l)
    = Ok (zeroed (pre ++ concat (img <$> l)) (k - size * len l)).
Proof.
  intros Hsize Himg Hput. unfold enumerate, range, len at 3. rewrite Nat2Z.id.
  assert (∀ j pre k, len pre = base + Z.of_nat j * size → size * len l ≤ k →
    foldM put (zeroed pre k) (zip (Z.of_nat <$> seq j (length l)) l)
      = Ok (zeroed (pre ++ concat (img <$> l)) (k - size * len l))) as Hgen.
  { induction l as [|x l IH]; intros j p q Hp Hq.
    - simpl. rewrite app_nil_r. do 2 f_equal. unfold len. simpl. lia.
    - assert (len (x :: l) = 1 + len l) as Hl by (unfold len; simpl; lia).
      rewrite Hl in *. cbn [length seq]. rewrite fmap_cons. cbn [zip zip_with foldM].
      pose proof (len_nonneg l).
      rewrite Hput by (try nia; done). cbn [bind]. rewrite fmap_cons, concat_cons, app_assoc.
      rewrite IH.
      + do 2 f_equal. lia.
      + rewrite len_app, Himg. lia.
      + nia. }
  intros Hpre Hk. apply Hgen; [lia|done].
Qed.

(** Run a sequence of [put]s. *)
Ltac run_puts :=
  repeat (rewrite write_zeroed by wire_len; cbn [bind]).

Lemma put_resource_image base pre k i r :
  len pre = base + i * 32 → 32 ≤ k →
  put_resource base (zeroed pre k) (i, r) = Ok (zeroed (pre ++ resource_image r) (k - 32)).
Proof.
  intros Hp Hk. unfold put_resource, put_u64, put_u32, RESOURCE_SIZE. run_puts.
  f_equal. rewrite (zeroed_skip _ _ 4) by wire_len.
  unfold resource_image. rewrite <- !app_assoc. f_equal. wire_len.
Qed.

Lemma put_relocation_image base pre k i r :
  len pre = base + i * 32 → 32 ≤ k →
  put_relocation base (zeroed pre k) (i, r) = Ok (zeroed (pre ++ relocation_image r) (k - 32)).
Proof.
  intros Hp Hk. unfold put_relocation, relocation_image, put_u64, put_u32, put_u16, RELOCATION_SIZE.
  destruct (source_fields r.(source)) as [kind idx]. cbn [fst snd]. run_puts.
  rewrite <- !app_assoc. do 2 f_equal. wire_len.
Qed.

Lemma put_header_image s l k :
  64 ≤ k →
  encode_header s l (zeroed [] k) = Ok (zeroed (header_image VERSION_MINOR s l) (k - 64)).
Proof.
  intros Hk. unfold encode_header, put_u32, put_u16. run_puts.
  f_equal. rewrite (zeroed_skip _ _ 24) by wire_len.
  unfold header_image. rewrite <- !app_assoc, app_nil_l. f_equal. wire_len.
Qed.

Lemma put_word_image base pre k i word :
  len pre = base + i * 4 → 4 ≤ k →
  put_u32 (zeroed pre k) (base + i * 4) word = Ok (zeroed (pre ++ le 4 word) (k - 4)).
Proof. intros Hp Hk. unfold put_u32. run_puts. do 2 f_equal. Qed.

(** The checks [encode] makes of a submission whose tables fit. *)
Definition validate_submit (s : Submit) : outcome Error () :=
  let? _ := forM validate_resource s.(resources) in
  let? _ := foldM (encode_relocation_check s) None s.(relocations) in
  Ok ().

Lemma encode_image s output :
  counts_ok (len s.(pm4)) (len s.(resources)) (len s.(relocations)) →
  len output = (submit_layout s).(total) →
  encode s output = let? _ := validate_submit s in Ok (wire_image VERSION_MINOR s).
Proof.
  intros Hc Hlen. unfold encode, validate_submit.
  assert (layout (len s.(pm4)) (len s.(resources)) (len s.(relocations)) = Ok (submit_layout s)) as ->
    by (apply layout_Ok; auto). cbn [bind].
  rewrite Hlen, Z.eqb_refl. cbn [negb].
  destruct (forM _ _); cbn [bind]; [|done..]. destruct (foldM _ None _); cbn [bind]; [|done..].
  pose proof (padding_bounds s) as Hp. destruct (submit_offsets s) as (Ho1&Ho2&Ho3&Ht).
  pose proof (len_nonneg s.(pm4)). pose proof (len_nonneg s.(resources)).
  pose proof (len_nonneg s.(relocations)).
  assert (replicate (length output) 0 = zeroed [] (submit_layout s).(total)) as ->.
  { unfold zeroed. rewrite <- Hlen. unfold len. by rewrite Nat2Z.id. }
  rewrite put_header_image by lia. cbn [bind].
  rewrite (write_table _ (le 4) 4 64); [|lia|intros; wire_len|apply put_word_image|wire_len..].
  cbn [bind]. rewrite (zeroed_skip _ _ (padding s)) by lia.
  rewrite (write_table _ resource_image 32 (submit_layout s).(resources_offset));
    [|lia|apply len_resource_image|apply put_resource_image|wire_len..].
  cbn [bind].
  rewrite (write_table _ relocation_image 32 (submit_layout s).(relocations_offset));
    [|lia|apply len_relocation_image|apply put_relocation_image|wire_len..].
  unfold zeroed, wire_image. rewrite <- !app_assoc. do 6 f_equal.
  replace (Z.to_nat _) with 0%nat by lia. by rewrite app_nil_r.
Qed.

(** ** Decoding an image *)

(** The fields of a submission fit their Rust types. *)
Definition wf_resource (r : Resource) : Prop :=
  u64 r.(attachment_token) ∧ u64 r.(range_offset) ∧ u64 r.(range_size) ∧ u32 r.(res_access).

Definition wf_source (s : RelocationSource) : Prop :=
  match s with Attachment index => u32 index | CanonicalShader _ => True end.

Definition wf_relocation (r : Relocation) : Prop :=
  u32 r.(pm4_word_offset) ∧ wf_source r.(source) ∧ u64 r.(resource_offset) ∧
  u64 r.(required_size) ∧ u32 r.(rel_access).

Definition wf_submit (s : Submit) : Prop :=
  Forall u32 s.(pm4) ∧ Forall wf_resource s.(resources) ∧ Forall wf_relocation s.(relocations).

(** Minor version 0 has no shader relocations. *)
Definition from_attachment (r : Relocation) : Prop :=
  match r.(source) with Attachment _ => True | CanonicalShader _ => False end.

Definition minor_ok (minor : Z) (s : Submit) : Prop :=
  minor = 1 ∨ minor = 0 ∧ Forall from_attachment s.(relocations).

Definition decoded (minor : Z) (s : Submit) : DecodedSubmit :=
  MkDecodedSubmit (wire_image minor s) (submit_layout s)
    (len s.(pm4)) (len s.(resources)) (len s.(relocations)).

(** A field of a record of [b]. *)
Lemma get_le_field {E} b base size img x n v offset :
  slice b base (base + size) = img → 0 ≤ base → base + size ≤ len b →
  offset = base + x → 0 ≤ x → x + n ≤ size → 0 ≤ n → slice img x (x + n) = le n v →
  0 ≤ v < 2 ^ (8 * n) → get_le (E:=E) n b offset = Ok v.
Proof.
  intros <- Hb Hsize -> Hx Hn Hn0 Hs Hv. apply get_le_image; [done|done|lia|].
  rewrite slice_slice in Hs by lia. by rewrite Z.add_assoc in Hs.
Qed.

Lemma slice_header minor s :
  slice (wire_image minor s) 0 (0 + 64) = header_image minor s (submit_layout s).
Proof.
  unfold wire_image. rewrite slice_app_l by (rewrite ?len_header_image; lia).
  apply slice_all; [done|]. by rewrite len_header_image.
Qed.

(** Two computations with the same prefix. *)
Lemma bind_tail {E A} (m m' : outcome E ()) (d : outcome E A) t c :
  m = m' → d = bind t (λ _, Ok c) →
  bind m (λ _, d) = bind (bind m' (λ _, t)) (λ _ : (), Ok c).
Proof. intros -> ->. by destruct m'. Qed.

Section Image.
Context (minor : Z) (s : Submit).
Hypothesis Hcounts : counts_ok (len s.(pm4)) (len s.(resources)) (len s.(relocations)).
Hypothesis Hwf : wf_submit s.
Hypothesis Hminor : minor_ok minor s.

Lemma image_bounds :
  0 < len s.(pm4) ∧ 0 ≤ len s.(resources) ∧ 0 ≤ len s.(relocations) ∧ 0 ≤ padding s ≤ 7 ∧
  (submit_layout s).(total) ≤ MAX_SUBMIT_SIZE.
Proof.
  destruct Hcounts as (?&?&?&?). pose proof (padding_bounds s). split_and!; try lia. done.
Qed.

Ltac image_lia :=
  destruct (submit_offsets s) as (?&?&?&?); destruct image_bounds as (?&?&?&?&?);
  pose proof (len_wire_image minor s); unfold MAX_SUBMIT_SIZE in *; lia.

Lemma slice_word i word :
  s.(pm4) !! i = Some word →
  slice (wire_image minor s) (64 + Z.of_nat i * 4) (64 + Z.of_nat i * 4 + 4) = le 4 word.
Proof.
  intros Hi. assert (Z.of_nat i < len s.(pm4)) by (apply lookup_lt_Some in Hi; unfold len; lia).
  unfold wire_image. rewrite slice_app_r by (rewrite len_header_image; lia).
  rewrite len_header_image, slice_app_l by (try rewrite len_words; lia).
  rewrite <- (slice_concat (le 4) s.(pm4) 4 i word) by (try done; intros; wire_len).
  f_equal; lia.
Qed.

Lemma slice_padding :
  slice (wire_image minor s) (64 + 4 * len s.(pm4)) (submit_layout s).(resources_offset)
    = replicate (Z.to_nat (padding s)) 0.
Proof.
  assert (0 ≤ padding s) by image_lia. destruct (submit_offsets s) as (_&->&_&_).
  unfold wire_image. rewrite app_assoc, slice_app_r by (wire_len; lia).
  rewrite slice_app_l by (wire_len; lia). apply slice_all; wire_len.
Qed.

Lemma slice_resource i r :
  s.(resources) !! i = Some r →
  let offset := (submit_layout s).(resources_offset) + Z.of_nat i * 32 in
  slice (wire_image minor s) offset (offset + 32) = resource_image r.
Proof.
  intros Hi. assert (Z.of_nat i < len s.(resources)) by (apply lookup_lt_Some in Hi; unfold len; lia).
  assert (0 ≤ padding s) by image_lia. destruct (submit_offsets s) as (_&->&_&_).
  unfold wire_image. rewrite !app_assoc, <- (app_assoc _ _ (concat (relocation_image <$> _))).
  rewrite slice_app_r by (wire_len; lia). rewrite slice_app_l by (wire_len; lia).
  rewrite <- (slice_concat resource_image s.(resources) 32 i r) by (try done; intros; wire_len).
  f_equal; wire_len.
Qed.

Lemma slice_relocation i r :
  s.(relocations) !! i = Some r →
  let offset := (submit_layout s).(relocations_offset) + Z.of_nat i * 32 in
  slice (wire_image minor s) offset (offset + 32) = relocation_image r.
Proof.
  intros Hi. assert (Z.of_nat i < len s.(relocations)) by (apply lookup_lt_Some in Hi; unfold len; lia).
  assert (0 ≤ padding s) by image_lia. destruct (submit_offsets s) as (_&_&->&_).
  unfold wire_image. rewrite !app_assoc.
  rewrite slice_app_r by (wire_len; lia).
  rewrite <- (slice_concat relocation_image s.(relocations) 32 i r) by (try done; intros; wire_len).
  f_equal; wire_len.
Qed.

(** Read the field at byte [x] of the record whose image [H] gives. *)
Ltac read_field H x :=
  erewrite (get_le_field _ _ _ _ x); [|exact H|try image_lia..|reflexivity|first [done|image_lia]]; cbn [bind].

Lemma pm4_word_image i word :
  s.(pm4) !! i = Some word → pm4_word (decoded minor s) (Z.of_nat i) = Ok word.
Proof.
  intros Hi. unfold pm4_word, decoded; cbn [pm4_count dbytes dlayout].
  assert (Z.of_nat i < len s.(pm4)) by (apply lookup_lt_Some in Hi; unfold len; lia).
  destruct (Z.ltb_spec (Z.of_nat i) (len s.(pm4))); [|lia].
  apply get_le_image; [lia| |image_lia|].
  - destruct Hwf as (Hpm4&_&_). rewrite Forall_lookup in Hpm4. by apply (Hpm4 i).
  - destruct (submit_offsets s) as (->&_&_&_). by apply slice_word.
Qed.

Lemma resource_image_read i r :
  s.(resources) !! i = Some r → resource (decoded minor s) (Z.of_nat i) = Ok r.
Proof.
  intros Hi. unfold resource, decoded; cbn [resource_count dbytes dlayout].
  assert (Z.of_nat i < len s.(resources)) by (apply lookup_lt_Some in Hi; unfold len; lia).
  destruct (Z.leb_spec (len s.(resources)) (Z.of_nat i)); [lia|].
  destruct Hwf as (_&Hres&_). rewrite Forall_lookup in Hres.
  destruct (Hres i r Hi) as (?&?&?&?). pose proof (slice_resource i r Hi) as Hs.
  unfold get_u64, get_u32, RESOURCE_SIZE.
  read_field Hs 0.
  read_field Hs 8.
  read_field Hs 16.
  read_field Hs 24.
  by destruct r.
Qed.

Lemma resource_image_none i : len s.(resources) ≤ i → resource (decoded minor s) i = Err tt.
Proof.
  intros Hi. unfold resource, decoded; cbn [resource_count].
  by destruct (Z.leb_spec (len s.(resources)) i); [|lia].
Qed.

Lemma decode_resource_check_image i r :
  s.(resources) !! i = Some r →
  decode_resource_check (decoded minor s) (Z.of_nat i) = validate_resource r.
Proof.
  intros Hi. unfold decode_resource_check. rewrite (resource_image_read i r) by done.
  assert (Z.of_nat i < len s.(resources)) by (apply lookup_lt_Some in Hi; unfold len; lia).
  pose proof (slice_resource i r Hi) as Hs.
  unfold get_u32, RESOURCE_SIZE, decoded; cbn [dbytes dlayout].
  erewrite (get_le_field _ _ _ _ 28 _ 0); [|exact Hs|try image_lia..|reflexivity|try done].
  done.
Qed.

Lemma shader_raw_u16 v : 0 ≤ shader_raw v ≤ 0xffff.
Proof. by destruct v. Qed.

Lemma shader_from_raw_raw v : shader_from_raw (shader_raw v) = Some v.
Proof. by destruct v. Qed.

Lemma encoding_from_raw_raw e : encoding_from_raw (encoding_raw e) = Ok e.
Proof. by destruct e. Qed.

Lemma minor_read : get_u16 (E:=()) (wire_image minor s) 6 = Ok minor.
Proof.
  assert (0 ≤ minor < 2 ^ (8 * 2)) by (destruct Hminor as [->|[-> _]]; done).
  unfold get_u16. by read_field (slice_header minor s) 6.
Qed.

Lemma relocation_image_read i r :
  s.(relocations) !! i = Some r → relocation (decoded minor s) (Z.of_nat i) = Ok r.
Proof.
  intros Hi. unfold relocation, decoded; cbn [relocation_count dbytes dlayout].
  assert (Z.of_nat i < len s.(relocations)) by (apply lookup_lt_Some in Hi; unfold len; lia).
  destruct (Z.leb_spec (len s.(relocations)) (Z.of_nat i)); [lia|].
  destruct Hwf as (_&_&Hrel). rewrite Forall_lookup in Hrel.
  destruct (Hrel i r Hi) as (?&Hsrc&?&?&?). pose proof (slice_relocation i r Hi) as Hs.
  rewrite minor_read. unfold get_u64, get_u32, get_u16, RELOCATION_SIZE.
  assert (0 ≤ (source_fields r.(source)).1 < 2 ^ (8 * 2)) by by destruct r.(source).
  assert (0 ≤ (source_fields r.(source)).2 < 2 ^ (8 * 4)).
  { destruct r.(source) as [|v]; cbn [source_fields snd]; [done|]. pose proof (shader_raw_u16 v). lia. }
  assert (0 ≤ encoding_raw r.(encoding) < 2 ^ (8 * 2)) by by destruct r.(encoding).
  read_field Hs 30. read_field Hs 4. read_field Hs 0. read_field Hs 8. read_field Hs 16.
  read_field Hs 24. read_field Hs 28. rewrite encoding_from_raw_raw. cbn [map_err bind].
  destruct r as [off [idx|v] ? ? ? ?]; cbn [source source_fields fst snd bind] in *; [done|].
  change (1 =? 0) with false. change (1 =? 1) with true. cbn [andb].
  assert ((1 <=? minor) = true) as ->.
  { destruct Hminor as [->|[_ Hatt]]; [done|]. rewrite Forall_lookup in Hatt.
    by specialize (Hatt i _ Hi). }
  pose proof (shader_raw_u16 v). destruct (Z.leb_spec (shader_raw v) 0xffff); [|lia].
  cbn [bind]. by rewrite shader_from_raw_raw.
Qed.

Lemma read_placeholder off :
  0 ≤ off → off + 2 ≤ len s.(pm4) →
  ∃ a b, slice s.(pm4) off (off + 2) = [a; b] ∧
  mapM (λ word, map_err (pm4_word (decoded minor s) word) RelocationOutOfBounds)
       (take 2 (seqZ off (off + 2 - off))) = Ok [a; b].
Proof.
  intros Ho Hlen. destruct (slice_two s.(pm4) off) as (a & b & Hs & Ha & Hb); [done..|].
  exists a, b. split; [done|].
  replace (off + 2 - off) with 2 by lia. rewrite seqZ_cons by lia.
  change (Z.pred 2) with 1. rewrite seqZ_cons by lia. cbn [take mapM].
  replace off with (Z.of_nat (Z.to_nat off)) at 1 by lia.
  replace (Z.succ off) with (Z.of_nat (Z.to_nat (off + 1))) by lia.
  rewrite (pm4_word_image _ a), (pm4_word_image _ b) by done. done.
Qed.

Lemma resource_lookup i :
  0 ≤ i →
  map_err (resource (decoded minor s) i) RelocationOutOfBounds
    = ok_or (s.(resources) !! Z.to_nat i) RelocationOutOfBounds.
Proof.
  intros Hi. destruct (s.(resources) !! Z.to_nat i) as [r|] eqn:Hr.
  - rewrite <- (Z2Nat.id i) at 1 by done. by rewrite (resource_image_read _ r).
  - rewrite resource_image_none; [done|]. apply lookup_ge_None in Hr. unfold len. lia.
Qed.

Lemma decode_relocation_check_image previous i r :
  s.(relocations) !! i = Some r →
  decode_relocation_check (decoded minor s) previous (Z.of_nat i)
    = encode_relocation_check s previous r.
Proof.
  intros Hi. unfold decode_relocation_check, encode_relocation_check, validate_relocation.
  rewrite (relocation_image_read i r) by done. cbn [map_err bind].
  destruct (validate_access _); cbn [bind]; [|done..].
  destruct (overlaps_previous _ _); [done|].
  destruct Hwf as (_&_&Hrel). rewrite Forall_lookup in Hrel.
  destruct (Hrel i r Hi) as (Hoff&Hsrc&_).
  apply bind_tail.
  { destruct r.(source); [|done]. rewrite resource_lookup; [done|]. destruct Hsrc. lia. }
  unfold checked_add. replace (word_count r.(encoding)) with 2 by by destruct r.(encoding).
  destruct (Z.leb_spec (r.(pm4_word_offset) + 2) U32_MAX); cbn [ok_or bind]; [|done].
  unfold decoded at 1; cbn [pm4_count].
  destruct (Z.ltb_spec (len s.(pm4)) (r.(pm4_word_offset) + 2)); [done|].
  destruct (read_placeholder r.(pm4_word_offset)) as (w0 & w1 & -> & ->); [apply Hoff|lia|].
  cbn [bind]. change (take _ ([w0; w1] ++ _)) with [w0; w1].
  by destruct (placeholder_is_valid _ _).
Qed.

Lemma any_nonzero_replicate n : any_nonzero (replicate n 0) = false.
Proof. by induction n. Qed.

Lemma decode_tables_image : decode_tables (wire_image minor s) = Ok (decoded minor s).
Proof.
  destruct image_bounds as (?&?&?&Hp&Ht). destruct (submit_offsets s) as (Ho1&Ho2&Ho3&Ho4).
  pose proof (slice_header minor s) as Hs. unfold MAX_SUBMIT_SIZE in *.
  assert (0 ≤ minor < 2 ^ (8 * 2)) by (destruct Hminor as [->|[-> _]]; done).
  unfold decode_tables. rewrite len_wire_image. unfold HEADER_SIZE, MAX_SUBMIT_SIZE.
  destruct (Z.ltb_spec (submit_layout s).(total) 64); [lia|].
  destruct (Z.ltb_spec (2 * 1024 * 1024) (submit_layout s).(total)); [lia|]. cbn [orb].
  unfold get_u16, get_u32.
  read_field Hs 0. read_field Hs 4. rewrite !Z.eqb_refl. cbn [negb orb].
  read_field Hs 6. read_field Hs 8. rewrite Z.eqb_refl.
  assert ((VERSION_MINOR <? minor) = false) as -> by (destruct Hminor as [->|[-> _]]; done).
  cbn [negb orb]. read_field Hs 10. rewrite Z.eqb_refl.
  assert (slice (wire_image minor s) 40 64 = replicate 24 0) as ->.
  { transitivity (slice (slice (wire_image minor s) 0 (0 + 64)) 40 64).
    - by rewrite slice_slice by lia.
    - by rewrite Hs. }
  rewrite any_nonzero_replicate. cbn [negb orb].
  read_field Hs 12. rewrite Z.eqb_refl. cbn [negb].
  read_field Hs 16. read_field Hs 20. read_field Hs 24.
  read_field Hs 28. read_field Hs 32. read_field Hs 36.
  assert (layout (len s.(pm4)) (len s.(resources)) (len s.(relocations)) = Ok (submit_layout s)) as ->
    by (apply layout_Ok; auto). cbn [bind]. rewrite !Z.eqb_refl. cbn [negb orb].
  unfold checked_mul, checked_add, U64_MAX.
  destruct (Z.leb_spec (len s.(pm4) * 4) 0xffffffffffffffff); [|lia]. cbn [ok_or bind].
  destruct (Z.leb_spec ((submit_layout s).(pm4_offset) + len s.(pm4) * 4) 0xffffffffffffffff); [|lia].
  cbn [ok_or bind]. rewrite Ho1, (Z.mul_comm _ 4), slice_padding by done.
  by rewrite any_nonzero_replicate.
Qed.

Lemma decode_image :
  decode (wire_image minor s) = let? _ := validate_submit s in Ok (decoded minor s).
Proof.
  unfold decode, validate_submit. rewrite decode_tables_image. cbn [bind].
  change (resource_count (decoded minor s)) with (len s.(resources)).
  change (relocation_count (decoded minor s)) with (len s.(relocations)).
  rewrite (forM_range _ validate_resource) by apply decode_resource_check_image.
  rewrite (foldM_range _ (encode_relocation_check s)) by (intros; by apply decode_relocation_check_image).
  destruct (forM _ _); cbn [bind]; [|done..]. by destruct (foldM _ _ _).
Qed.
End Image.

(** ** What [decode] accepts is an image *)

(** The submission read through the accessors of a decoded payload. *)
Definition submit_of (d : DecodedSubmit) : outcome () Submit :=
  let? words := mapM (pm4_word d) (range (pm4_len d)) in
  let? resources := mapM (resource d) (range (resource_len d)) in
  let? relocations := mapM (relocation d) (range (relocation_len d)) in
  Ok (MkSubmit words resources relocations).

Lemma submit_of_decoded minor s :
  counts_ok (len s.(pm4)) (len s.(resources)) (len s.(relocations)) →
  wf_submit s → minor_ok minor s → submit_of (decoded minor s) = Ok s.
Proof.
  intros Hc Hwf Hm. unfold submit_of, pm4_len, resource_len, relocation_len.
  unfold decoded at 2 4 6; cbn [pm4_count resource_count relocation_count].
  rewrite (mapM_range _ s.(pm4)) by (intros; by apply pm4_word_image). cbn [bind].
  rewrite (mapM_range _ s.(resources)) by (intros; by apply resource_image_read). cbn [bind].
  rewrite (mapM_range _ s.(relocations)) by (intros; by apply relocation_image_read). by destruct s.
Qed.

(** Facts about a field read from bytes. *)
Ltac read_inv H :=
  unfold get_u64, get_u32, get_u16 in H; apply get_le_inv in H as (?&?&?); [|lia|lia|done].

Lemma any_nonzero_false l : any_nonzero l = false → l = replicate (length l) 0.
Proof.
  induction l as [|x l IH]; [done|]. unfold any_nonzero; cbn [existsb]. intros H. bool_to_prop.
  subst. simpl. f_equal. auto.
Qed.

Lemma any_nonzero_slice b x y :
  0 ≤ x ≤ y → y ≤ len b → any_nonzero (slice b x y) = false →
  slice b x y = replicate (Z.to_nat (y - x)) 0.
Proof.
  intros Hx Hy H. apply any_nonzero_false in H as ->. f_equal.
  pose proof (length_slice b x y Hx Hy) as Hl. unfold len in Hl. lia.
Qed.

(** Assemble a record from the images of its fields. *)
Ltac join_fields := repeat (eapply slice_join; [eassumption|lia|lia|lia|]).

(** What the fixed part of [decode] establishes. *)
Definition tables_image (minor : Z) (d : DecodedSubmit) : Prop :=
  let l := layout_of d.(pm4_count) d.(resource_count) d.(relocation_count) in
  (minor = 0 ∨ minor = 1) ∧ d.(dlayout) = l ∧ len d.(dbytes) = l.(total) ∧
  counts_ok d.(pm4_count) d.(resource_count) d.(relocation_count) ∧
  get_u16 (E:=()) d.(dbytes) 6 = Ok minor ∧
  (∀ s, len s.(pm4) = d.(pm4_count) → len s.(resources) = d.(resource_count) →
        len s.(relocations) = d.(relocation_count) →
        slice d.(dbytes) 0 64 = header_image minor s l) ∧
  slice d.(dbytes) (64 + d.(pm4_count) * 4) l.(resources_offset)
    = replicate (Z.to_nat (l.(resources_offset) - (64 + d.(pm4_count) * 4))) 0.

Lemma decode_tables_inv b d :
  Forall u8 b → decode_tables b = Ok d → d.(dbytes) = b ∧ ∃ minor, tables_image minor d.
Proof.
  intros Hb H. unfold decode_tables, HEADER_SIZE in H. case_match; [done|].
  step_ok H as magic Hmagic. step_ok H as major Hmajor. case_match; [done|].
  step_ok H as minor Hminor. step_ok H as hs Hhs. case_match; [done|].
  step_ok H as reserved Hreserved. case_match; [done|].
  step_ok H as size Hsize. case_match; [done|].
  step_ok H as po Hpo. step_ok H as pc Hpc. step_ok H as ro Hro. step_ok H as rc Hrc.
  step_ok H as lo Hlo. step_ok H as lc Hlc. step_ok H as expected Hexpected. case_match; [done|].
  step_ok H as ps Hps. step_ok H as pp Hpp. case_match; [done|]. injection H as <-.
  split; [done|]. exists minor. bool_to_prop.
  assert (get_u16 (E:=()) b 6 = Ok minor) as Hminor'.
  { revert Hminor. unfold get_u16, get_le. case_match; [by intros [= ->]|done]. }
  pose proof Hminor as [? _]%get_le_inv; try done.
  read_inv Hmagic. read_inv Hmajor. read_inv Hminor. read_inv Hhs. read_inv Hreserved.
  read_inv Hsize. read_inv Hpo. read_inv Hpc. read_inv Hro. read_inv Hrc. read_inv Hlo. read_inv Hlc.
  apply layout_Ok in Hexpected as [Hc ->]; [|lia..]. destruct Hps as [-> _], Hpp as [-> _].
  subst. unfold tables_image; cbn [dbytes dlayout pm4_count resource_count relocation_count].
  split_and!; try done.
  - unfold VERSION_MINOR in *. lia.
  - intros s Hp Hr Hl. unfold header_image. rewrite Hp, Hr, Hl, H5.
    join_fields. by apply any_nonzero_slice.
  - apply any_nonzero_slice; [|rewrite <- H5|done];
      pose proof (resources_start_bounds pc); destruct Hc as (?&?&?&?);
      unfold layout_of, RESOURCE_SIZE, RELOCATION_SIZE, HEADER_SIZE in *; cbn [resources_offset total] in *; lia.
Qed.

(** A successful read of a record gives its image. *)
Lemma resource_inv d i r :
  Forall u8 d.(dbytes) → 0 ≤ d.(dlayout).(resources_offset) → 0 ≤ i →
  resource d i = Ok r → decode_resource_check d i = Ok () →
  let offset := d.(dlayout).(resources_offset) + i * 32 in
  slice d.(dbytes) offset (offset + 32) = resource_image r ∧ wf_resource r.
Proof.
  intros Hb Ho Hi Hr Hcheck. unfold decode_resource_check, RESOURCE_SIZE in Hcheck.
  step_ok Hcheck as reserved Hres. case_match; [done|]. bool_to_prop. subst. clear Hcheck.
  unfold resource, RESOURCE_SIZE in Hr. case_match; [done|].
  step_ok Hr as token Htoken. step_ok Hr as roff Hroff. step_ok Hr as rsize Hrsize.
  step_ok Hr as acc Hacc. injection Hr as <-.
  read_inv Hres. read_inv Htoken. read_inv Hroff. read_inv Hrsize. read_inv Hacc.
  split; [|done]. unfold resource_image; cbn -[slice le replicate]. join_fields.
  change (replicate 4 0) with (le 4 0). etrans; [|exact H0]. f_equal; lia.
Qed.

Lemma encoding_from_raw_inv raw e :
  encoding_from_raw raw = Ok e → raw = encoding_raw e.
Proof.
  unfold encoding_from_raw. intros H. repeat (case_match; try done); by injection H as <-.
Qed.

Lemma shader_from_raw_inv raw v :
  0 ≤ raw → shader_from_raw raw = Some v → raw = shader_raw v.
Proof.
  intros Hraw. unfold shader_from_raw. case_match; [|done].
  assert (∀ k, ALL_SHADERS !! k = Some v → Z.of_nat k = shader_raw v) as Hall.
  { intros k. do 20 (try (destruct k as [|k]; [by intros [= <-]|])). done. }
  intros <-%Hall. lia.
Qed.

Lemma relocation_inv d i minor r :
  Forall u8 d.(dbytes) → 0 ≤ d.(dlayout).(relocations_offset) → 0 ≤ i →
  get_u16 (E:=()) d.(dbytes) 6 = Ok minor → relocation d i = Ok r →
  let offset := d.(dlayout).(relocations_offset) + i * 32 in
  slice d.(dbytes) offset (offset + 32) = relocation_image r ∧ wf_relocation r ∧
  (minor = 0 → from_attachment r).
Proof.
  intros Hb Ho Hi Hminor Hr. unfold relocation, RELOCATION_SIZE in Hr. case_match; [done|].
  rewrite Hminor in Hr. cbn [bind] in Hr.
  step_ok Hr as kind Hkind. step_ok Hr as src Hsrc.
  step_ok Hr as off Hoff. step_ok Hr as roff Hroff. step_ok Hr as rsize Hrsize.
  step_ok Hr as acc Hacc. step_ok Hr as enc Henc. step_ok Hr as e He. injection Hr as <-.
  apply encoding_from_raw_inv in He as ->.
  assert (∃ idx, get_u32 (E:=()) d.(dbytes) (d.(dlayout).(relocations_offset) + i * 32 + 4) = Ok idx
            ∧ source_fields src = (kind, idx) ∧ wf_source src
            ∧ (minor = 0 → ∃ j, src = Attachment j)) as (idx & Hidx & Hfields & Hwf & Hatt).
  { destruct (Z.eqb_spec kind 0) as [->|].
    - step_ok Hsrc as idx Hidx. injection Hsrc as <-. exists idx. split; [done|].
      read_inv Hidx. split; [done|]. split; [done|eauto].
    - case_match; [|done]. bool_to_prop. subst. step_ok Hsrc as idx Hidx.
      exists idx. split; [done|]. case_match; [|done]. cbn [bind] in Hsrc.
      step_ok Hsrc as v Hv. injection Hsrc as <-. pose proof Hidx as H'. read_inv H'.
      apply shader_from_raw_inv in Hv as ->; [|lia].
      split; [done|]. split; [done|]. intros ->. lia. }
  read_inv Hkind. read_inv Hidx. read_inv Hoff. read_inv Hroff. read_inv Hrsize.
  read_inv Hacc. read_inv Henc. split; [|split].
  - unfold relocation_image. cbn -[slice le replicate]. rewrite Hfields. cbn [fst snd]. join_fields.
    etrans; [|eassumption]. f_equal; lia.
  - done.
  - intros Hm. unfold from_attachment; cbn [source]. by destruct (Hatt Hm) as [j ->].
Qed.

Lemma pm4_word_inv d i :
  Forall u8 d.(dbytes) → 0 ≤ i < d.(pm4_count) → d.(dlayout).(pm4_offset) = 64 →
  64 + d.(pm4_count) * 4 ≤ len d.(dbytes) →
  ∃ word, pm4_word d i = Ok word ∧ u32 word ∧
    slice d.(dbytes) (64 + i * 4) (64 + i * 4 + 4) = le 4 word.
Proof.
  intros Hb Hi Ho Hlen. unfold pm4_word. destruct (Z.ltb_spec i d.(pm4_count)); [|lia].
  rewrite Ho. destruct (get_le_total (E:=()) 4 d.(dbytes) (64 + i * 4)) as (w & Hw & ?); [lia|lia|done|lia|].
  exists w. split; [done|]. by apply get_le_inv in Hw as (?&?&?); [|lia..|].
Qed.

(** A table read entry by entry has the entries' images. *)
Lemma table_inv {A} (f : Z → outcome () A) (img : A → list Z) (P : A → Prop) b base n size :
  0 ≤ n → 0 ≤ base → 0 ≤ size →
  (∀ i, 0 ≤ i < n → ∃ x, f i = Ok x ∧ P x ∧
     slice b (base + size * i) (base + size * i + size) = img x) →
  ∃ l, mapM f (range n) = Ok l ∧ len l = n ∧ Forall P l ∧
       slice b base (base + size * n) = concat (img <$> l).
Proof.
  intros Hn Hb Hsize Hf. destruct (mapM_total f (range n)) as [l Hl].
  { intros i Hi%elem_of_range. destruct (Hf i Hi) as (x & Hx & _). eauto. }
  exists l. split; [done|]. apply mapM_Ok in Hl.
  assert (len l = n) as Hlen.
  { unfold len. rewrite <- (Forall2_length _ _ _ Hl), length_range. lia. }
  assert (∀ i x, l !! i = Some x → 0 ≤ Z.of_nat i < n ∧ f (Z.of_nat i) = Ok x) as Hlook.
  { intros i x Hx. assert (0 ≤ Z.of_nat i < n) by (apply lookup_lt_Some in Hx; unfold len in Hlen; lia).
    split; [done|]. rewrite Forall2_lookup in Hl. specialize (Hl i).
    rewrite Hx, <- Hlen, range_len_lookup in Hl by congruence. by inversion Hl. }
  split_and!; [done| |].
  - apply Forall_lookup. intros i x Hx. destruct (Hlook i x Hx) as [Hi Hfi].
    destruct (Hf _ Hi) as (y & Hy & HP & _). congruence.
  - rewrite <- Hlen. apply concat_slices; [done..|]. intros i x Hx.
    destruct (Hlook i x Hx) as [Hi Hfi]. destruct (Hf _ Hi) as (y & Hy & _ & Hs). congruence.
Qed.

Section Tables.
Context (minor : Z) (d : DecodedSubmit).
Hypothesis Hbytes : Forall u8 d.(dbytes).
Hypothesis Htables : tables_image minor d.

Local Abbreviation start := (resources_start d.(pm4_count)).

Lemma tables_bounds :
  d.(dlayout).(pm4_offset) = 64 ∧ d.(dlayout).(resources_offset) = start ∧
  d.(dlayout).(relocations_offset) = start + 32 * d.(resource_count) ∧
  len d.(dbytes) = start + 32 * d.(resource_count) + 32 * d.(relocation_count) ∧
  64 + 4 * d.(pm4_count) ≤ start ∧ 0 < d.(pm4_count) ∧ 0 ≤ d.(resource_count) ∧
  0 ≤ d.(relocation_count).
Proof.
  destruct Htables as (_ & -> & -> & (?&?&?&?) & _).
  pose proof (resources_start_bounds d.(pm4_count)).
  unfold layout_of, RESOURCE_SIZE, RELOCATION_SIZE, HEADER_SIZE in *; cbn [pm4_offset resources_offset relocations_offset total].
  split_and!; lia.
Qed.

Lemma words_inv :
  ∃ l, mapM (pm4_word d) (range d.(pm4_count)) = Ok l ∧ len l = d.(pm4_count) ∧ Forall u32 l ∧
    slice d.(dbytes) 64 (64 + 4 * d.(pm4_count)) = concat (le 4 <$> l).
Proof.
  destruct tables_bounds as (?&?&?&?&?&?&?&?).
  apply table_inv; [lia..|]. intros i Hi.
  destruct (pm4_word_inv d i) as (w & ? & ? & Hs); [done|done|done|lia|].
  exists w. by rewrite (Z.mul_comm 4).
Qed.

Lemma resources_inv :
  forM (decode_resource_check d) (range d.(resource_count)) = Ok () →
  ∃ l, mapM (resource d) (range d.(resource_count)) = Ok l ∧ len l = d.(resource_count) ∧
    Forall wf_resource l ∧
    slice d.(dbytes) start (start + 32 * d.(resource_count)) = concat (resource_image <$> l).
Proof.
  destruct tables_bounds as (?&Ho&?&?&?&?&?&?). intros Hres.
  apply table_inv; [lia..|]. intros i Hi. rewrite forM_Ok, Forall_forall in Hres.
  pose proof (Hres i (proj2 (elem_of_range _ _) Hi)) as Hcheck.
  pose proof Hcheck as Hc. unfold decode_resource_check in Hc. step_ok Hc as z Hz.
  case_match; [done|]. step_ok Hc as r Hr. exists r. split; [done|].
  destruct (resource_inv d i r) as [Hs ?]; [done|lia|lia|done|done|].
  rewrite Ho in Hs. by rewrite (Z.mul_comm 32 i).
Qed.

Lemma relocations_inv previous previous' :
  foldM (decode_relocation_check d) previous (range d.(relocation_count)) = Ok previous' →
  let base := start + 32 * d.(resource_count) in
  ∃ l, mapM (relocation d) (range d.(relocation_count)) = Ok l ∧ len l = d.(relocation_count) ∧
    Forall (λ r, wf_relocation r ∧ (minor = 0 → from_attachment r)) l ∧
    slice d.(dbytes) base (base + 32 * d.(relocation_count)) = concat (relocation_image <$> l).
Proof.
  destruct tables_bounds as (?&?&Ho&?&?&?&?&?). destruct Htables as (_ & _ & _ & _ & Hminor & _).
  intros Hrel. apply table_inv; [lia..|]. intros i Hi.
  destruct (foldM_Ok_elem _ _ _ _ i Hrel) as (p1 & p2 & Hcheck); [by apply elem_of_range|].
  unfold decode_relocation_check in Hcheck. step_ok Hcheck as r Hr. clear Hcheck.
  exists r. split; [done|].
  destruct (relocation_inv d i minor r) as (Hs & ? & ?); [done|lia|lia|done|done|].
  rewrite Ho in Hs. by rewrite (Z.mul_comm 32 i).
Qed.
End Tables.

Lemma decode_inv b d :
  Forall u8 b → decode b = Ok d →
  ∃ minor s, counts_ok (len s.(pm4)) (len s.(resources)) (len s.(relocations)) ∧
    wf_submit s ∧ minor_ok minor s ∧ b = wire_image minor s ∧ d = decoded minor s.
Proof.
  intros Hb H. unfold decode in H. step_ok H as d' Hd. step_ok H as u Hres.
  step_ok H as prev Hrel. injection H as ->. destruct u.
  apply decode_tables_inv in Hd as (<- & minor & Ht); [|done].
  destruct (words_inv minor d Hb Ht) as (words & _ & Hp & ? & Hps).
  destruct (resources_inv minor d Hb Ht Hres) as (rs & _ & Hr & ? & Hrs).
  destruct (relocations_inv minor d Hb Ht _ _ Hrel) as (ls & _ & Hl & Hls & Hlss).
  destruct (tables_bounds minor d Ht) as (?&?&?&Hlen&?&?&?&?).
  destruct Ht as (Hminor & Hlay & _ & Hc & _ & Hheader & Hpad).
  apply Forall_and in Hls as [??]. unfold layout_of in Hpad; cbn [resources_offset] in Hpad.
  set (s := MkSubmit words rs ls). exists minor, s.
  assert (submit_layout s = dlayout d) as Hsl 
    by (unfold submit_layout; cbn [pm4 resources relocations s]; by rewrite Hp, Hr, Hl).
  assert (dbytes d = wire_image minor s) as Hbytes.
  { unfold wire_image, padding; cbn [pm4 resources relocations s]. rewrite Hsl, Hp.
    rewrite <- (slice_all (dbytes d) 0 (len (dbytes d))) at 1 by done.
    eapply slice_join; [rewrite Hlay; by apply Hheader|lia..|].
    eapply slice_join; [exact Hps|lia..|].
    eapply slice_join; [exact Hpad|lia..|].
    eapply slice_join; [exact Hrs|done|lia..|].
    rewrite Hlen. exact Hlss. }
  split_and!; cbn [pm4 resources relocations s]; [by rewrite Hp, Hr, Hl|done| |done|].
  - destruct Hminor as [->| ->]; [right|by left]. split; [done|]. by eapply Forall_impl; [done|]; auto.
  - destruct d; unfold decoded. f_equal; cbn in *; congruence.
Qed.

(** ** Decoding hostile bytes never panics *)

Lemma ensures_get_le {E} (Q : Z → Prop) n b offset :
  0 ≤ n → 0 ≤ offset → Forall u8 b → offset + n ≤ len b →
  (∀ v, get_le (E:=E) n b offset = Ok v → 0 ≤ v < 2 ^ (8 * n) → Q v) →
  ensures Q (get_le (E:=E) n b offset).
Proof.
  intros Hn Ho Hb Hle HQ. destruct (get_le_total (E:=E) n b offset) as (v & Hv & ?); try done.
  rewrite Hv. simpl. auto.
Qed.

Lemma validate_access_no_panic a : validate_access a ≠ Panic.
Proof. unfold validate_access. by case_match. Qed.

Lemma validate_resource_no_panic r : validate_resource r ≠ Panic.
Proof.
  unfold validate_resource, validate_access. case_match; cbn [bind]; [done|]. by case_match.
Qed.

(** Step over a read whose bounds [lia] shows. *)
Ltac read_ok :=
  apply ensures_bind; unfold get_u16, get_u32, get_u64; apply ensures_get_le; [lia|lia|done|lia|];
  intros ? ? ?.

Lemma decode_tables_no_panic b : Forall u8 b → decode_tables b ≠ Panic.
Proof.
  intros Hb. apply (ensures_no_panic (λ _, True)). unfold decode_tables, HEADER_SIZE.
  case_match; [done|]. bool_to_prop. do 2 read_ok. case_match; [done|].
  do 2 read_ok. case_match; [done|]. read_ok. case_match; [done|]. read_ok. case_match; [done|].
  do 6 read_ok. apply ensures_bind, ensures_eq; [apply layout_no_panic|]. intros l Hl.
  case_match; [done|]. apply ensures_bind, ensures_ok_or. intros ??.
  apply ensures_bind, ensures_ok_or. intros ??. by case_match.
Qed.

Lemma resource_no_panic minor d i :
  Forall u8 d.(dbytes) → tables_image minor d → 0 ≤ i → resource d i ≠ Panic.
Proof.
  intros Hb Ht Hi. destruct (tables_bounds minor d Ht) as (?&Ho&?&?&?&?&?&?).
  apply (ensures_no_panic (λ _, True)). unfold resource, RESOURCE_SIZE. case_match; [done|].
  bool_to_prop. rewrite Ho. do 4 read_ok. done.
Qed.

Lemma relocation_no_panic minor d i :
  Forall u8 d.(dbytes) → tables_image minor d → 0 ≤ i →
  ensures (λ r, u32 r.(pm4_word_offset) ∧ wf_source r.(source)) (relocation d i).
Proof.
  intros Hb Ht Hi. destruct (tables_bounds minor d Ht) as (?&?&Ho&?&?&?&?&?).
  destruct Ht as (_&_&_&_&Hminor&_).
  unfold relocation, RELOCATION_SIZE. case_match; [done|]. bool_to_prop. rewrite Ho, Hminor.
  cbn [bind]. read_ok. apply ensures_bind, (ensures_mono wf_source).
  - case_match; [read_ok; done|]. case_match; [|done]. read_ok. case_match; [|done]. cbn [bind].
    apply ensures_bind, ensures_ok_or. done.
  - intros src Hsrc. do 5 read_ok. apply ensures_bind, ensures_map_err.
    apply ensures_eq; [|done]. unfold encoding_from_raw. by repeat case_match.
Qed.

Lemma pm4_word_no_panic minor d i :
  Forall u8 d.(dbytes) → tables_image minor d → 0 ≤ i → pm4_word d i ≠ Panic.
Proof.
  intros Hb Ht Hi. destruct (tables_bounds minor d Ht) as (?&Ho&?&?&?&?&?&?).
  destruct (decide (i < d.(pm4_count))).
  - destruct (pm4_word_inv d i) as (w & -> & _); [done|lia|done|lia|done].
  - unfold pm4_word. by destruct (Z.ltb_spec i d.(pm4_count)); [lia|].
Qed.

Lemma decode_relocation_check_no_panic minor d previous i :
  Forall u8 d.(dbytes) → tables_image minor d → 0 ≤ i →
  decode_relocation_check d previous i ≠ Panic.
Proof.
  intros Hb Ht Hi. apply (ensures_no_panic (λ _, True)). unfold decode_relocation_check.
  apply ensures_bind, ensures_map_err.
  eapply ensures_mono; [by eapply relocation_no_panic|]. intros r (Hoff & Hsrc).
  apply ensures_bind, ensures_eq; [apply validate_access_no_panic|]. intros [] _.
  case_match; [done|]. apply ensures_bind, (ensures_mono (λ _, True)).
  - destruct r.(source) as [idx|v].
    + apply ensures_bind, ensures_map_err, ensures_eq.
      * eapply resource_no_panic; [done|done|]. by destruct Hsrc.
      * intros res _. case_match; [done|]. apply ensures_bind, ensures_ok_or. intros. by case_match.
    + by case_match.
  - intros [] _. apply ensures_bind, ensures_ok_or. intros we Hwe. case_match; [done|].
    apply ensures_bind. eapply (ensures_mono (λ _, True)); [|intros; by case_match].
    eapply ensures_mono; [apply (ensures_mapM (λ _ _, True))|done].
    intros w (k & [-> Hk]%lookup_seqZ & _)%elem_of_take.
    apply ensures_map_err, ensures_eq; [|done].
    eapply pm4_word_no_panic; [done|done|]. destruct Hoff. lia.
Qed.

Lemma decode_no_panic b : Forall u8 b → decode b ≠ Panic.
Proof.
  intros Hb. apply (ensures_no_panic (λ _, True)). unfold decode.
  apply ensures_bind, ensures_eq; [by apply decode_tables_no_panic|]. intros d Hd.
  apply decode_tables_inv in Hd as (<- & minor & Ht); [|done].
  apply ensures_bind. eapply ensures_mono; [apply (ensures_forM (λ _, True))|].
  { intros i Hi%elem_of_range. unfold decode_resource_check, RESOURCE_SIZE.
    destruct (tables_bounds minor d Ht) as (?&Ho&?&?&?&?&?&?). rewrite Ho.
    read_ok. case_match; [done|]. apply ensures_bind, ensures_map_err, ensures_eq.
    - eapply resource_no_panic; [done|done|lia].
    - intros r _. apply ensures_eq; [apply validate_resource_no_panic|done]. }
  intros _ _. apply ensures_bind. eapply (ensures_foldM (λ _ _, True)); [done|].
  intros pre i suf prev Hl _. apply ensures_eq; [|done].
  eapply decode_relocation_check_no_panic; [done|done|].
  assert (i ∈ range d.(relocation_count)) as Hi%elem_of_range; [|lia]. rewrite Hl. set_solver.
Qed.

(** ** What validation establishes *)

Definition access_ok (access : Z) : Prop := access = 1 ∨ access = 2 ∨ access = 3.

Definition resource_valid (r : Resource) : Prop :=
  access_ok r.(res_access) ∧ r.(attachment_token) ≠ 0 ∧ 0 < r.(range_size) ∧
  r.(range_offset) + r.(range_size) ≤ U64_MAX.

(** The bytes a relocation may touch lie in its resource, with an access the
    resource grants; a shader relocation names the whole canonical program. *)
Definition target_valid (s : Submit) (r : Relocation) : Prop :=
  match r.(source) with
  | Attachment index =>
    ∃ res, s.(resources) !! Z.to_nat index = Some res ∧
      r.(rel_access) .&~ res.(res_access) = 0 ∧ 0 < r.(required_size) ∧
      r.(resource_offset) + r.(required_size) ≤ res.(range_size)
  | CanonicalShader variant =>
    r.(resource_offset) = 0 ∧ r.(required_size) = shader_size variant ∧
    r.(rel_access) = ACCESS_READ ∧ r.(encoding) = GpuVa64
  end.

(** The two words it patches exist and are blank where the address goes. *)
Definition placeholder_blank (s : Submit) (r : Relocation) : Prop :=
  ∃ w0 w1, s.(pm4) !! Z.to_nat r.(pm4_word_offset) = Some w0 ∧
    s.(pm4) !! Z.to_nat (r.(pm4_word_offset) + 1) = Some w1 ∧ w0 = 0 ∧
    match r.(encoding) with
    | GpuVa64 => w1 = 0
    | GpuVa49TexDescriptor => w1 .& 0x1ffff = 0
    end.

Definition relocation_valid (s : Submit) (r : Relocation) : Prop :=
  access_ok r.(rel_access) ∧ target_valid s r ∧ placeholder_blank s r.

(** Relocations patch disjoint words, in order. *)
Definition relocations_ordered (l : list Relocation) : Prop :=
  ∀ i j r r', (i < j)%nat → l !! i = Some r → l !! j = Some r' →
    r.(pm4_word_offset) + 2 ≤ r'.(pm4_word_offset).

Lemma validate_access_inv a : 0 ≤ a → validate_access a = Ok () → access_ok a.
Proof.
  intros Ha. unfold validate_access, access_ok. case_match; [done|]. bool_to_prop. intros _.
  assert (a = a .& 3) as Hland.
  { rewrite <- (Z.lor_ldiff_and a 3) at 1. change ACCESS_MASK with 3 in *.
    match goal with H : a .&~ 3 = 0 |- _ => rewrite H end. apply Z.lor_0_l. }
  rewrite (land_mask _ 3 2) in Hland by done. zlia.
Qed.

Lemma validate_resource_inv r :
  wf_resource r → validate_resource r = Ok () → resource_valid r.
Proof.
  intros (?&?&[??]&[??]) Hok. unfold validate_resource in Hok. step_ok Hok as u Ha. destruct u.
  apply validate_access_inv in Ha; [|done]. case_match; [done|]. bool_to_prop.
  unfold resource_valid. unfold checked_add in *. case_match; [|done].
  bool_to_prop. split_and!; [done|done|lia|lia].
Qed.

Lemma placeholder_is_valid_inv e w0 w1 :
  placeholder_is_valid e [w0; w1] = true →
  w0 = 0 ∧ match e with GpuVa64 => w1 = 0 | GpuVa49TexDescriptor => w1 .& 0x1ffff = 0 end.
Proof. destruct e; simpl; intros; bool_to_prop; by simplify_eq. Qed.

Lemma validate_relocation_inv s r previous :
  wf_relocation r → validate_relocation r previous s.(pm4) s.(resources) = Ok () →
  relocation_valid s r ∧ from_option (λ p, p ≤ r.(pm4_word_offset)) True previous ∧
  r.(pm4_word_offset) + 2 ≤ U32_MAX.
Proof.
  intros ([??]&Hsrc&[??]&[??]&[??]) Hok. unfold validate_relocation in Hok. step_ok Hok as u Ha. destruct u.
  apply validate_access_inv in Ha; [|done]. case_match eqn:Hprev; [done|].
  step_ok Hok as u Ht. destruct u. step_ok Hok as we Hwe. destruct Hwe as [-> Hwe].
  replace (word_count r.(encoding)) with 2 in * by by destruct r.(encoding).
  case_match; [done|]. case_match eqn:Hph; [done|]. bool_to_prop.
  destruct (slice_two s.(pm4) r.(pm4_word_offset)) as (w0 & w1 & Hs & Hw0 & Hw1); [lia|lia|].
  rewrite Hs in Hph. apply placeholder_is_valid_inv in Hph as [-> Henc].
  assert (placeholder_blank s r) as Hblank by (by exists 0, w1). clear Henc.
  split; [split_and!; [done| |done]|split; [|done]].
  - unfold target_valid. destruct r.(source) as [idx|v].
    + step_ok Ht as res Hres. exists res. split; [done|]. case_match; [done|]. bool_to_prop.
      step_ok Ht as re Hre. case_match; [done|]. bool_to_prop. lia.
    + case_match; [done|]. by bool_to_prop.
  - destruct previous; [|done]. simpl in *. by bool_to_prop.
Qed.

Lemma relocation_loop_inv s l previous e :
  Forall wf_relocation l → foldM (encode_relocation_check s) previous l = Ok e →
  Forall (relocation_valid s) l ∧ relocations_ordered l ∧
  Forall (λ r, from_option (λ p, p ≤ r.(pm4_word_offset)) True previous) l.
Proof.
  intros Hwf. revert previous. induction Hwf as [|r l Hr Hl IH]; intros previous H; [by split_and!; [|intros ??|]|].
  cbn [foldM] in H. step_ok H as p' Hp. unfold encode_relocation_check in Hp. step_ok Hp as u Hv.
  destruct u. apply validate_relocation_inv in Hv as (Hv & Hprev & Hmax); [|done].
  injection Hp as <-. apply IH in H as (Hvl & Hord & Hge). clear IH.
  replace (word_count r.(encoding)) with 2 in Hge by by destruct r.(encoding).
  unfold checked_add in Hge. destruct (Z.leb_spec (r.(pm4_word_offset) + 2) U32_MAX); [|lia].
  simpl in Hge. split_and!; [by constructor| |].
  - intros [|i] [|j] r1 r2 Hij Hi Hj; [lia| |lia|by eapply (Hord i j); [lia|..]].
    simplify_eq/=. rewrite Forall_lookup in Hge. by eapply Hge.
  - constructor; [done|]. eapply Forall_impl; [exact Hge|]. intros r' Hr'.
    destruct previous; simpl in *; lia.
Qed.

Lemma validate_submit_inv s :
  wf_submit s → validate_submit s = Ok () →
  Forall resource_valid s.(resources) ∧ Forall (relocation_valid s) s.(relocations) ∧
  relocations_ordered s.(relocations).
Proof.
  intros (_ & Hres & Hrel) H. unfold validate_submit in H. step_ok H as u Hr. destruct u.
  step_ok H as e He. apply relocation_loop_inv in He as (? & ? & _); [|done].
  split_and!; [|done..]. apply forM_Ok in Hr. rewrite Forall_lookup in Hr, Hres |- *.
  intros i r Hi. eapply validate_resource_inv; eauto.
Qed.

Lemma encode_inv s output b :
  encode s output = Ok b →
  counts_ok (len s.(pm4)) (len s.(resources)) (len s.(relocations)) ∧
  len output = (submit_layout s).(total) ∧ validate_submit s = Ok () ∧
  b = wire_image VERSION_MINOR s.
Proof.
  intros H. pose proof H as H'. unfold encode in H'. step_ok H' as l Hl.
  apply layout_Ok in Hl as [Hc ->]; [|auto..]. case_match; [done|]. bool_to_prop.
  rewrite encode_image in H by done. step_ok H as u Hu. destruct u. by injection H as <-.
Qed.

(** ** Correctness of the format *)

(** What [encode] writes, [decode] accepts, and the accessors of the decoded
    payload give back the PM4 words, resources and relocations of the
    submission. *)
Theorem wire_roundtrip s output b :
  wf_submit s → encode s output = Ok b → ∃ d, decode b = Ok d ∧ submit_of d = Ok s.
Proof.
  intros Hwf (Hc & _ & Hv & ->)%encode_inv. assert (minor_ok VERSION_MINOR s) by by left.
  exists (decoded VERSION_MINOR s). rewrite decode_image, Hv by done.
  split; [done|]. by apply submit_of_decoded.
Qed.

(** C39: the format is canonical: bytes that [decode] accepts are what [encode]
    writes for the submission they carry, apart from the minor version (the
    low byte at offset 6), which [encode] always sets to 1.  So two different
    byte strings of the same version never decode to the same submission. *)
Theorem wire_canonical b d :
  Forall u8 b → decode b = Ok d →
  ∃ s, submit_of d = Ok s ∧ wf_submit s ∧
    ∀ output, len output = len b → encode s output = Ok (<[6%nat := 1]> b).
Proof.
  intros Hb Hd. destruct (decode_inv b d Hb Hd) as (minor & s & Hc & Hwf & Hm & -> & ->).
  rewrite decode_image in Hd by done. step_ok Hd as u Hv. destruct u.
  exists s. split; [by apply submit_of_decoded|]. split; [done|]. intros output Hlen.
  rewrite encode_image, Hv by (try rewrite Hlen; try apply len_wire_image; done).
  cbn [bind]. f_equal. unfold wire_image. rewrite insert_app_l.
  - f_equal. destruct Hm as [->|[-> _]]; reflexivity.
  - pose proof (len_header_image minor s (submit_layout s)) as Hh. unfold len in Hh. lia.
Qed.

(** [decode] is total on untrusted bytes: it never panics, and once it has
    accepted a payload no accessor panics at any index. *)
Theorem wire_decode_total b :
  Forall u8 b →
  decode b ≠ Panic ∧
  ∀ d, decode b = Ok d → ∀ i, 0 ≤ i →
    (pm4_word d i ≠ Panic ∧ resource d i ≠ Panic ∧ relocation d i ≠ Panic) ∧
    (i < relocation_len d → ∃ r, relocation d i = Ok r) ∧
    (i < resource_len d → ∃ r, resource d i = Ok r) ∧
    (i < pm4_len d → ∃ word, pm4_word d i = Ok word).
Proof.
  intros Hb. split; [by apply decode_no_panic|]. intros d Hd i Hi.
  destruct (decode_inv b d Hb Hd) as (minor & s & Hc & Hwf & Hm & -> & ->). clear Hd.
  unfold relocation_len, resource_len, pm4_len, decoded; cbn [relocation_count resource_count pm4_count].
  fold (decoded minor s).
  assert (∀ {A} (l : list A) (f : Z → outcome () A),
    (∀ j x, l !! j = Some x → f (Z.of_nat j) = Ok x) → i < len l → ∃ x, f i = Ok x) as Hget.
  { intros A l f Hf Hlt. destruct (lookup_lt_is_Some_2 l (Z.to_nat i)) as [x Hx]; [unfold len in Hlt; lia|].
    exists x. rewrite <- (Hf _ _ Hx). f_equal. lia. }
  assert (i < len s.(relocations) → ∃ r, relocation (decoded minor s) i = Ok r) as Hl
    by (apply Hget; intros; by apply relocation_image_read).
  assert (i < len s.(resources) → ∃ r, resource (decoded minor s) i = Ok r) as Hr
    by (apply Hget; intros; by apply resource_image_read).
  assert (i < len s.(pm4) → ∃ r, pm4_word (decoded minor s) i = Ok r) as Hp
    by (apply Hget; intros; by apply pm4_word_image).
  split; [|done]. split_and!.
  - destruct (decide (i < len s.(pm4))) as [Hlt|]; [by destruct (Hp Hlt) as [? ->]|].
    unfold pm4_word; cbn. by destruct (Z.ltb_spec i (len s.(pm4))); [lia|].
  - destruct (decide (i < len s.(resources))) as [Hlt|]; [by destruct (Hr Hlt) as [? ->]|].
    by rewrite resource_image_none by lia.
  - destruct (decide (i < len s.(relocations))) as [Hlt|]; [by destruct (Hl Hlt) as [? ->]|].
    unfold relocation; cbn. by destruct (Z.leb_spec (len s.(relocations)) i); [|lia].
Qed.

(** What acceptance guarantees.  Every resource of an accepted payload is a
    non-empty range that does not wrap; every relocation stays inside its
    resource with an access the resource grants (or is a whole read-only
    canonical program), patches two existing blank words, and no two
    relocations patch the same word. *)
Theorem wire_decode_sound b d :
  Forall u8 b → decode b = Ok d →
  ∃ s, submit_of d = Ok s ∧ Forall resource_valid s.(resources) ∧
    Forall (relocation_valid s) s.(relocations) ∧ relocations_ordered s.(relocations).
Proof.
  intros Hb Hd. destruct (decode_inv b d Hb Hd) as (minor & s & Hc & Hwf & Hm & -> & ->).
  exists s. split; [by apply submit_of_decoded|].
  rewrite decode_image in Hd by done. step_ok Hd as u Hv. destruct u. by apply validate_submit_inv.
Qed.

(** A submission with one buffer and one relocation of each kind. *)
Definition sample_submit : Submit :=
  MkSubmit [0; 0; 7; 0; 0xfffe0000; 0; 0]
    [MkResource 0x4000000000000001 4096 8192 3]
    [MkRelocation 0 (Attachment 0) 16 4096 1 GpuVa64;
     MkRelocation 3 (Attachment 0) 0 8192 2 GpuVa49TexDescriptor;
     MkRelocation 5 (CanonicalShader FsNv12) 0 256 1 GpuVa64].

Definition sample_bytes : list Z := wire_image 1 sample_submit.

Lemma sample_wf : wf_submit sample_submit.
Proof. unfold wf_submit, wf_relocation, wf_resource, u64, u32; simpl. repeat (constructor; simpl; try lia). Qed.

Lemma sample_encoded : encode sample_submit (replicate 224 9) = Ok sample_bytes.
Proof. vm_compute. reflexivity. Qed.

Lemma sample_bytes_u8 : Forall u8 sample_bytes.
Proof. unfold u8. vm_compute. repeat (constructor; [split; [discriminate|reflexivity]|]). constructor. Qed.

Lemma sample_decoded : decode sample_bytes = Ok (decoded 1 sample_submit).
Proof. vm_compute. reflexivity. Qed.

Lemma wire_roundtrip_witness :
  ∃ d, decode sample_bytes = Ok d ∧ submit_of d = Ok sample_submit.
Proof. exact (wire_roundtrip _ _ _ sample_wf sample_encoded). Defined.

Lemma wire_canonical_witness :
  ∃ s, submit_of (decoded 1 sample_submit) = Ok s ∧ wf_submit s ∧
    ∀ output, len output = len sample_bytes → encode s output = Ok (<[6%nat := 1]> sample_bytes).
Proof. exact (wire_canonical _ _ sample_bytes_u8 sample_decoded). Defined.

Lemma wire_decode_total_witness : decode sample_bytes ≠ Panic.
Proof. exact (proj1 (wire_decode_total _ sample_bytes_u8)). Defined.

Lemma wire_decode_sound_witness :
  ∃ s, submit_of (decoded 1 sample_submit) = Ok s ∧ Forall resource_valid s.(resources) ∧
    Forall (relocation_valid s) s.(relocations) ∧ relocations_ordered s.(relocations).
Proof. exact (wire_decode_sound _ _ sample_bytes_u8 sample_decoded). Defined.
