(* ===== verification/F32.v ===== *)
(** * Single-precision floats

    The validator compares viewport words as [f32] values.  A word is decoded
    into the Standard Library's [spec_float], whose operations round to the
    24-bit format as IEEE 754 binary32 (round to nearest, ties to even). *)
From Stdlib Require Import SpecFloat.
From S2P Require Import Prelude.

(** [f32::from_bits] *)
Definition f32_from_bits (bits : Z) : spec_float :=
  let sign := Z.testbit bits 31 in
  let exponent := (bits >> 23) .& 0xff in
  let mantissa := bits .& 0x7fffff in
  if exponent =? 0xff then
    if mantissa =? 0 then S754_infinity sign else S754_nan
  else if exponent =? 0 then
    match mantissa with
    | Zpos m => S754_finite sign m (-149)
    | _ => S754_zero sign
    end
  else
    match mantissa + 0x800000 with
    | Zpos m => S754_finite sign m (exponent - 150)
    | _ => S754_zero sign
    end.

(** [value as f32] for an unsigned integer. *)
Definition f32_of_u32 (value : Z) : spec_float := binary_normalize 24 128 value 0 false.

Definition f32_add (x y : spec_float) : spec_float := SFadd 24 128 x y.
Definition f32_sub (x y : spec_float) : spec_float := SFsub 24 128 x y.
Definition f32_abs (x : spec_float) : spec_float := SFabs x.
Definition f32_lt (x y : spec_float) : bool := SFltb x y.
Definition f32_le (x y : spec_float) : bool := SFleb x y.

Definition f32_is_finite (x : spec_float) : bool :=
  match x with S754_zero _ | S754_finite _ _ _ => true | _ => false end.

Definition F32_ZERO : spec_float := f32_from_bits 0.
Definition F32_ONE_BITS : Z := 0x3f800000.
Definition F32_ONE : spec_float := f32_from_bits F32_ONE_BITS.

(** [1.0_f32.to_bits()] really is one, and the decoder agrees with the
    conversion of integers. *)
Example f32_one : F32_ONE = f32_of_u32 1.
Proof. reflexivity. Qed.
Example f32_1920 : f32_from_bits 0x44f00000 = f32_of_u32 1920.
Proof. reflexivity. Qed.
Example f32_third : f32_add (f32_from_bits 0x3eaaaaab) (f32_from_bits 0x3eaaaaab) = f32_from_bits 0x3f2aaaab.
Proof. reflexivity. Qed.

Definition f32_mul (x y : spec_float) : spec_float := SFmul 24 128 x y.
Definition f32_div (x y : spec_float) : spec_float := SFdiv 24 128 x y.
Definition f32_neg (x : spec_float) : spec_float := SFopp x.

(** [f32::to_bits]; the payload of a computed NaN is not specified, the
    canonical one is used.  A [spec_float] need not be canonical, but what the
    operations above return is; [as_u32] is the type of the word. *)
Definition f32_to_bits (x : spec_float) : Z :=
  match x with
  | S754_zero s => if s then 0x80000000 else 0
  | S754_infinity s => (if s then 0x80000000 else 0) .| 0x7f800000
  | S754_nan => 0x7fc00000
  | S754_finite s m e =>
      as_u32 ((if s then 0x80000000 else 0) .|
        (if Z.pos m <? 0x800000 then Z.pos m else ((e + 150) << 23) .| (Z.pos m - 0x800000)))
  end.

(** [f32::min]: a NaN operand is ignored. *)
Definition f32_min (x y : spec_float) : spec_float :=
  match x, y with
  | S754_nan, _ => y
  | _, S754_nan => x
  | _, _ => if f32_lt y x then y else x
  end.

(** [f32::clamp] with ordered bounds; a NaN stays a NaN. *)
Definition f32_clamp (x low high : spec_float) : spec_float :=
  if f32_lt x low then low else if f32_lt high x then high else x.

(** [value as u32] saturates. *)
Definition f32_as_u32 (x : spec_float) : Z :=
  match x with
  | S754_finite false m e => Z.min U32_MAX (Z.pos m << e)
  | S754_infinity false => U32_MAX
  | _ => 0
  end.

Example f32_bits_roundtrip :
  forallb (λ b, f32_to_bits (f32_from_bits b) =? b)
    [0; 0x80000000; 1; 0x007fffff; 0x00800000; 0x3f800000; 0xbf800000; 0x7f7fffff;
     0x7f800000; 0xff800000; 0x44f00000] = true.
Proof. reflexivity. Qed.
Example f32_half : f32_to_bits (f32_div F32_ONE (f32_of_u32 2)) = 0x3f000000.
Proof. reflexivity. Qed.
Example f32_truncation : f32_as_u32 (f32_div (f32_of_u32 511) (f32_of_u32 2)) = 255.
Proof. reflexivity. Qed.
