(* ===== verification/SubmitTypes.v ===== *)
(** * The submit validator: registers, opcodes and data

    Model of the declarations of
    [drivers/gpu/qcom-adreno-a618/src/submit.rs]: the register and opcode
    constants, the address fields the validator collects, the image and
    resource metadata the kernel resolves, and the predicates on single words
    that the packet checks share. *)
From S2P Require Import Prelude Pm4 ImageLayout ShaderPack SubmitWire.

(** ** Opcodes, events and registers *)

Definition CP_MEMCPY : Z := 0x75.
Definition CP_MEM_WRITE : Z := 0x3d.
Definition CP_MEMCPY_MAX_DWORDS : Z := 128.
Definition CP_SET_VISIBILITY_OVERRIDE : Z := 0x64.
Definition CP_REG_WRITE : Z := 0x6d.
Definition CP_SKIP_IB2_ENABLE_GLOBAL : Z := 0x1d.
Definition CP_SKIP_IB2_ENABLE_LOCAL : Z := 0x23.
Definition EVENT_CCU_INVALIDATE_DEPTH : Z := 0x18.
Definition EVENT_CCU_FLUSH_COLOR_TS : Z := 0x1d.
Definition EVENT_CCU_FLUSH_DEPTH_TS : Z := 0x1c.
Definition EVENT_WRITE_TIMESTAMP : Z := 1 << 30.
Definition EVENT_CCU_INVALIDATE_COLOR : Z := 0x19.
Definition EVENT_CACHE_INVALIDATE : Z := 0x31.
Definition FORMAT_8_8_8_8_UNORM : Z := 0x30.
Definition FORMAT_32_FLOAT : Z := 0x4a.
Definition DEPTH_FORMAT_32 : Z := 4.
Definition A2D_IFMT_FLOAT32 : Z := 4.
Definition A2D_COLOR_SWAP_WXYZ : Z := 1 << 10.
Definition MRT_COLOR_SWAP_WXYZ : Z := 1 << 13.
Definition RB_CCU_CNTL : Z := 0x8e07.
Definition RB_DBG_ECO_CNTL : Z := 0x8e04.
Definition RB_A2D_BLT_CNTL : Z := 0x8c00.
Definition RB_A2D_PIXEL_CNTL : Z := 0x8c01.
Definition RB_A2D_DEST_BUFFER_INFO : Z := 0x8c17.
Definition RB_A2D_DEST_BUFFER_BASE : Z := 0x8c18.
Definition RB_A2D_DEST_BUFFER_PITCH : Z := 0x8c1a.
Definition RB_A2D_CLEAR_COLOR_DW0 : Z := 0x8c2c.
Definition GRAS_A2D_BLT_CNTL : Z := 0x8400.
Definition GRAS_A2D_SRC_XMIN : Z := 0x8401.
Definition GRAS_A2D_DEST_TL : Z := 0x8405.
Definition GRAS_A2D_SCISSOR_TL : Z := 0x840a.
Definition SP_A2D_OUTPUT_INFO : Z := 0xacc0.
Definition TPL1_A2D_SRC_TEXTURE_INFO : Z := 0xb4c0.
Definition TPL1_A2D_SRC_TEXTURE_SIZE : Z := 0xb4c1.
Definition TPL1_A2D_SRC_TEXTURE_BASE : Z := 0xb4c2.
Definition TPL1_A2D_SRC_TEXTURE_PITCH : Z := 0xb4c4.
Definition CP_DRAW_INDX_OFFSET : Z := 0x38.
Definition CP_LOAD_STATE6_GEOM : Z := 0x32.
Definition CP_LOAD_STATE6_FRAG : Z := 0x34.
Definition TEX_DESCRIPTOR_BGRA_IDENTITY : Z := 0x4c006880.
Definition TEX_DESCRIPTOR_ALPHA_MASK : Z := 0x4c0076d0.
Definition GRAS_CL_CNTL : Z := 0x8000.
Definition GRAS_CL_VS_CLIP_CULL_DISTANCE : Z := 0x8001.
Definition GRAS_CL_ARRAY_SIZE : Z := 0x8004.
Definition GRAS_CL_INTERP_CNTL : Z := 0x8005.
Definition GRAS_CL_GUARDBAND_CLIP_ADJ : Z := 0x8006.
Definition GRAS_CL_VIEWPORT_XOFFSET : Z := 0x8010.
Definition GRAS_SU_CNTL : Z := 0x8090.
Definition GRAS_SU_POINT_MINMAX : Z := 0x8091.
Definition GRAS_SU_POINT_SIZE : Z := 0x8092.
Definition GRAS_SU_DEPTH_PLANE_CNTL : Z := 0x8094.
Definition GRAS_SU_POLY_OFFSET_SCALE : Z := 0x8095.
Definition GRAS_SU_DEPTH_BUFFER_INFO : Z := 0x8098.
Definition GRAS_SU_VS_SIV_CNTL : Z := 0x809b.
Definition GRAS_SC_CNTL : Z := 0x80a0.
Definition GRAS_SC_RAS_MSAA_CNTL : Z := 0x80a2.
Definition GRAS_SC_SCREEN_SCISSOR_CNTL : Z := 0x80af.
Definition GRAS_SC_SCREEN_SCISSOR_TL : Z := 0x80b0.
Definition GRAS_SC_VIEWPORT_SCISSOR_TL : Z := 0x80d0.
Definition GRAS_SC_WINDOW_SCISSOR_TL : Z := 0x80f0.
Definition GRAS_SC_BIN_CNTL : Z := 0x80a1.
Definition GRAS_LRZ_CNTL : Z := 0x8100.
Definition GRAS_LRZ_PS_INPUT_CNTL : Z := 0x8101.
Definition GRAS_LRZ_MRT_BUFFER_INFO_0 : Z := 0x8102.
Definition GRAS_LRZ_PS_SAMPLEFREQ_CNTL : Z := 0x8109.
Definition GRAS_SU_DEPTH_CNTL : Z := 0x8114.
Definition GRAS_SU_STENCIL_CNTL : Z := 0x8115.
Definition RB_CNTL : Z := 0x8800.
Definition RB_RENDER_CNTL : Z := 0x8801.
Definition RB_RAS_MSAA_CNTL : Z := 0x8802.
Definition RB_INTERP_CNTL : Z := 0x8809.
Definition RB_PS_INPUT_CNTL : Z := 0x880a.
Definition RB_PS_OUTPUT_CNTL : Z := 0x880b.
Definition RB_PS_MRT_CNTL : Z := 0x880c.
Definition RB_PS_OUTPUT_MASK : Z := 0x880d.
Definition RB_DITHER_CNTL : Z := 0x880e.
Definition RB_SRGB_CNTL : Z := 0x880f.
Definition RB_PS_SAMPLEFREQ_CNTL : Z := 0x8810.
Definition RB_MRT_CONTROL : Z := 0x8820.
Definition RB_MRT_BUF_INFO : Z := 0x8822.
Definition RB_MRT_PITCH : Z := 0x8823.
Definition RB_MRT_BASE : Z := 0x8825.
Definition RB_MRT_BASE_GMEM : Z := 0x8827.
Definition RB_ALPHA_TEST_CNTL : Z := 0x8864.
Definition RB_BLEND_CNTL : Z := 0x8865.
Definition RB_DEPTH_PLANE_CNTL : Z := 0x8870.
Definition RB_DEPTH_CNTL : Z := 0x8871.
Definition RB_DEPTH_BUFFER_INFO : Z := 0x8872.
Definition RB_DEPTH_BOUND_MIN : Z := 0x8878.
Definition RB_STENCIL_CNTL : Z := 0x8880.
Definition RB_STENCIL_BUFFER_INFO : Z := 0x8881.
Definition RB_STENCIL_REF_CNTL : Z := 0x8887.
Definition RB_STENCIL_MASK : Z := 0x8888.
Definition RB_MODE_CNTL : Z := 0x8811.
Definition RB_WINDOW_OFFSET : Z := 0x8890.
Definition RB_LRZ_CNTL : Z := 0x8898.
Definition RB_BIN_CONTROL2 : Z := 0x88d3.
Definition RB_WINDOW_OFFSET2 : Z := 0x88d4.
Definition RB_RESOLVE_GMEM_BUFFER_INFO : Z := 0x88d5.
Definition RB_COLOR_FLAG_BUFFER_ADDR : Z := 0x8903.
Definition RB_DEPTH_FLAG_BUFFER_BASE : Z := 0x8900.
Definition VPC_RAST_CNTL : Z := 0x9108.
Definition VPC_VARYING_INTERP_MODE : Z := 0x9200.
Definition VPC_VARYING_REPLACE_MODE : Z := 0x9208.
Definition VPC_VARYING_LM_TRANSFER_CNTL_DISABLE : Z := 0x9212.
Definition VPC_VS_CLIP_CULL_CNTL : Z := 0x9101.
Definition VPC_VS_SIV_CNTL : Z := 0x9104.
Definition VPC_VS_CNTL : Z := 0x9301.
Definition VPC_PS_CNTL : Z := 0x9304.
Definition VPC_SO_OVERRIDE : Z := 0x9306.
Definition VPC_VS_CLIP_CULL_CNTL_V2 : Z := 0x9311.
Definition VPC_VS_SIV_CNTL_V2 : Z := 0x9314.
Definition PC_MODE_CNTL : Z := 0x9804.
Definition PC_PS_CNTL : Z := 0x9806.
Definition PC_DGEN_RAST_CNTL : Z := 0x9981.
Definition PC_CNTL : Z := 0x9b00.
Definition PC_VS_CNTL : Z := 0x9b01.
Definition PC_STEREO_RENDERING_CNTL : Z := 0x9b07.
Definition VFD_CNTL_0 : Z := 0xa000.
Definition VFD_CNTL_1 : Z := 0xa001.
Definition VFD_RENDER_MODE : Z := 0xa007.
Definition VFD_MODE_CNTL : Z := 0xa009.
Definition VFD_INDEX_OFFSET : Z := 0xa00e.
Definition VFD_VERTEX_BUFFER_BASE : Z := 0xa010.
Definition VFD_VERTEX_BUFFER_SIZE : Z := 0xa012.
Definition VFD_FETCH_INSTR : Z := 0xa090.
Definition VFD_DEST_CNTL : Z := 0xa0d0.
Definition SP_VS_CNTL_0 : Z := 0xa800.
Definition SP_VS_OUTPUT_CNTL : Z := 0xa802.
Definition SP_VS_OUTPUT_REG : Z := 0xa803.
Definition SP_VS_VPC_DEST_REG : Z := 0xa813.
Definition SP_VS_PROGRAM_COUNTER_OFFSET : Z := 0xa81b.
Definition SP_VS_CONFIG : Z := 0xa823.
Definition SP_VS_INSTR_SIZE : Z := 0xa824.
Definition SP_VS_PVT_MEM_STACK_OFFSET : Z := 0xa825.
Definition SP_HS_CONFIG : Z := 0xa83b.
Definition SP_DS_CONFIG : Z := 0xa863.
Definition SP_GS_CONFIG : Z := 0xa894.
Definition SP_PS_CNTL_0 : Z := 0xa980.
Definition SP_PS_PROGRAM_COUNTER_OFFSET : Z := 0xa982.
Definition SP_BLEND_CNTL : Z := 0xa989.
Definition SP_SRGB_CNTL : Z := 0xa98a.
Definition SP_PS_OUTPUT_MASK : Z := 0xa98b.
Definition SP_PS_OUTPUT_CNTL : Z := 0xa98c.
Definition SP_PS_MRT_CNTL : Z := 0xa98d.
Definition SP_PS_OUTPUT_REG : Z := 0xa98e.
Definition SP_PS_MRT_REG : Z := 0xa996.
Definition SP_PS_INITIAL_TEX_LOAD_CNTL : Z := 0xa99e.
Definition SP_PS_INITIAL_TEX_INDEX_CMD : Z := 0xa9a3.
Definition SP_PS_TSIZE : Z := 0xa9a7.
Definition SP_PS_PVT_MEM_STACK_OFFSET : Z := 0xa9a9.
Definition SP_PS_SAMPLER_BASE : Z := 0xa9e0.
Definition SP_PS_TEXMEMOBJ_BASE : Z := 0xa9e4.
Definition SP_PS_CONFIG : Z := 0xab04.
Definition SP_PS_INSTR_SIZE : Z := 0xab05.
Definition SP_MODE_CNTL : Z := 0xab00.
Definition SP_GFX_USIZE : Z := 0xab20.
Definition SP_VS_CONST_CONFIG : Z := 0xb800.
Definition SP_PS_WAVE_CNTL : Z := 0xb980.
Definition SP_LB_PARAM_LIMIT : Z := 0xb982.
Definition SP_REG_PROG_ID_0 : Z := 0xb983.
Definition TPL1_RAS_MSAA_CNTL : Z := 0xb300.
Definition TPL1_MSAA_SAMPLE_POS_CNTL : Z := 0xb304.
Definition TPL1_WINDOW_OFFSET : Z := 0xb307.
Definition TPL1_MODE_CNTL : Z := 0xb309.
Definition SP_WINDOW_OFFSET : Z := 0xb4d1.
Definition SP_UPDATE_CNTL : Z := 0xbb08.
Definition SP_PS_CONST_CONFIG : Z := 0xbb10.

(** ** Address fields *)

Inductive ShaderStage : Type := VertexStage | FragmentStage.

Inductive AddressSource : Type :=
| AttachmentSource
| CanonicalShaderSource (stage : ShaderStage).

Inductive LinearImageFormat : Type :=
| Nv12 (uv_offset uv_size : Z)
| Nv12Y
| Nv12Uv
| Bgra8Unorm
| Depth32Float.

Inductive ImageModifier : Type :=
| Linear
| Tile6_3Depth
| Tile6_3Color.

Record A2dExpectation : Type := MkA2dExpectation {
  a2d_format : LinearImageFormat;
  a2d_modifier : ImageModifier;
  a2d_row_pitch : Z;
  required_width : Z;
  required_height : Z;
}.

Record ArrayPitchExpectation : Type := MkArrayPitch {
  ap_bytes : Z;
  ap_alignment : Z;
}.

Record ImageExpectation : Type := MkImageExpectation {
  exp_mip_levels : Z;
  exp_format : LinearImageFormat;
  exp_modifier : ImageModifier;
  exp_row_pitch : Z;
  exp_width : Z;
  exp_height : Z;
  exact_extent : bool;
  pitch_align : option Z;
  array_pitch : option ArrayPitchExpectation;
}.

Record AddressField : Type := MkAddressField {
  af_word_offset : Z;
  af_access : Z;
  requires_complete_linear_image : bool;
  af_required_size : option Z;
  af_encoding : AddressEncoding;
  af_source : AddressSource;
  af_a2d : option A2dExpectation;
  af_image : option ImageExpectation;
}.

#[export] Instance ShaderStage_eq_dec : EqDecision ShaderStage.
Proof. solve_decision. Defined.
#[export] Instance LinearImageFormat_eq_dec : EqDecision LinearImageFormat.
Proof. solve_decision. Defined.
#[export] Instance ImageModifier_eq_dec : EqDecision ImageModifier.
Proof. solve_decision. Defined.

Definition address_source_matches (source : AddressSource) (relocation : RelocationSource) : bool :=
  match source, relocation with
  | AttachmentSource, Attachment _ => true
  | CanonicalShaderSource VertexStage, CanonicalShader actual => is_vertex actual
  | CanonicalShaderSource FragmentStage, CanonicalShader actual => negb (is_vertex actual)
  | _, _ => false
  end.

Definition address_field_encoded (fields : list AddressField) (word_offset access : Z)
    (requires_complete_linear_image : bool) (required_size : option Z)
    (encoding : AddressEncoding) : list AddressField :=
  fields ++ [MkAddressField word_offset access requires_complete_linear_image required_size
               encoding AttachmentSource None None].

Definition address_field (fields : list AddressField) (word_offset access : Z)
    (requires_complete_linear_image : bool) (required_size : option Z) : list AddressField :=
  address_field_encoded fields word_offset access requires_complete_linear_image required_size
    GpuVa64.

Definition canonical_address_field (fields : list AddressField) (word_offset : Z)
    (stage : ShaderStage) : list AddressField :=
  fields ++ [MkAddressField word_offset ACCESS_READ false None GpuVa64
               (CanonicalShaderSource stage) None None].

(** ** Resolved authority *)

Record LinearImage : Type := MkLinearImage {
  texture : option LinearTextureLayout;
  img_format : LinearImageFormat;
  img_modifier : ImageModifier;
  img_width : Z;
  img_height : Z;
  img_row_pitch : Z;
  visible_size : Z;
}.

Record ResolvedResource : Type := MkResolvedResource {
  res_attachment_token : Z;
  gpu_va : Z;
  allocation_size : Z;
  allowed_access : Z;
  linear_image : option LinearImage;
}.

Inductive RejectedPacketKind : Type := RejectedType4 | RejectedType7.

Record RejectedPacket : Type := MkRejectedPacket {
  rej_kind : RejectedPacketKind;
  rej_word_offset : Z;
  selector : Z;
  payload_len : Z;
  first_value : option Z;
}.

(** ** Predicates on single words *)

Definition is_nv12_descriptor (word : Z) : bool := word .&~ 0x00050000 =? 0x23806880.

Definition supported_texture_descriptor (word : Z) : bool :=
  is_nv12_descriptor word ||
  (let w := word .&~ 0x000f0000 in
   (w =? TEX_DESCRIPTOR_BGRA_IDENTITY) || (w =? TEX_DESCRIPTOR_ALPHA_MASK) || (w =? 0x0c006883)).

Definition supported_sampler (words : list Z) (last_mip : Z) : bool :=
  match words with
  | [w0; w1; w2; w3] =>
    let base := w0 .&~ 1 in
    let min_lod := w1 >> 20 in
    let max_lod := (w1 >> 8) .& 0xfff in
    ((base =? 0x920) || (base =? 0x92a))
    && (w1 .& 0xff =? if max_lod =? 0 then 0x40 else 0)
    && (min_lod <=? max_lod)
    && (max_lod <=? last_mip * 256)
    && (w3 =? 0)
    && (w2 =? if base =? 0x92a then 0x20 else 0)
  | _ => false
  end.

Definition UNSAFE_VALUE : string := "qcom-adreno-a618: unsafe PM4 register value".

Definition exact (values expected : list Z) : outcome string () :=
  if bool_decide (values = expected) then Ok () else Err UNSAFE_VALUE.

Definition a2d_control_format (value : Z) : option LinearImageFormat :=
  let common := (0xf << 20) .| (1 << 16) in
  let color := (FORMAT_8_8_8_8_UNORM << 8) .| common in
  let depth := (A2D_IFMT_FLOAT32 << 24) .| (FORMAT_32_FLOAT << 8) .| common .| (1 << 7) in
  let low := value .& 7 in
  if negb ((low =? 0) || (low =? 2) || (low =? 4) || (low =? 5)) then None
  else
    let value := value .&~ 7 in
    if (value =? color) || (value =? color .| (1 << 7)) then Some Bgra8Unorm
    else if value =? depth then Some Depth32Float
    else None.

Definition color_target_modifier (value : Z) : option ImageModifier :=
  if value =? FORMAT_8_8_8_8_UNORM .| MRT_COLOR_SWAP_WXYZ then Some Linear
  else if value =? FORMAT_8_8_8_8_UNORM .| (3 << 8) then Some Tile6_3Color
  else None.

Definition a2d_destination_format (value : Z) : option (LinearImageFormat * ImageModifier) :=
  if value =? FORMAT_8_8_8_8_UNORM .| A2D_COLOR_SWAP_WXYZ then Some (Bgra8Unorm, Linear)
  else if value =? FORMAT_8_8_8_8_UNORM .| (3 << 8) then Some (Bgra8Unorm, Tile6_3Color)
  else if value =? FORMAT_32_FLOAT .| (TILE_MODE_3 << 8) then Some (Depth32Float, Tile6_3Depth)
  else None.

Definition a2d_output_format (value : Z) : option LinearImageFormat :=
  if value =? (FORMAT_8_8_8_8_UNORM << 3) .| (0xf << 12) then Some Bgra8Unorm
  else if value =? (FORMAT_32_FLOAT << 3) .| (0xf << 12) then Some Depth32Float
  else None.

Definition safe_depth_control (value : Z) : bool :=
  if value =? 0 then true
  else
    let compare := (value >> 2) .& 7 in
    let expected_read := negb ((compare =? 0) || (compare =? 7)) in
    (value .&~ 0x5f =? 0) && negb (value .& 1 =? 0)
    && Bool.eqb (negb (value .& (1 << 6) =? 0)) expected_read.
