(* ===== verification/SubmitPackets.v ===== *)
(** * The packet allowlist

    Model of [any_shader_payload], [validate_type4] and [validate_type7] of
    [submit.rs]: which register writes and opcodes a submission may contain,
    and which of their words are GPU addresses.  The arms are in the order of
    the Rust [match]. *)
From S2P Require Import Prelude F32 Pm4 ImageLayout ShaderPack SubmitWire SubmitTypes.

(** [payload == [a, b, ..]] *)
Definition eqs (payload expected : list Z) : bool := bool_decide (payload = expected).

(** [payload.first() == Some(&cntl) && payload.get(1..) == Some(cmd)] *)
Definition first_then (payload : list Z) (first : Z) (rest : list Z) : bool :=
  match payload with p :: ps => (p =? first) && eqs ps rest | [] => false end.

Definition any_shader_payload (register : Z) (payload : list Z) : bool :=
  existsb (λ variant,
    match shader_meta variant with
    | Vertex meta =>
      if register =? SP_VS_CNTL_0 then eqs payload [meta.(sp_vs_cntl_0)]
      else if register =? SP_VS_INSTR_SIZE then eqs payload [meta.(sp_vs_instr_size)]
      else if register =? SP_VS_CONST_CONFIG then eqs payload [meta.(sp_vs_const_config); 0; 0; 0]
      else if register =? SP_VS_CONFIG then eqs payload [meta.(sp_vs_config)]
      else if register =? VFD_CNTL_1 then eqs payload meta.(vfd_cntl_1_6)
      else if register =? VFD_DEST_CNTL then eqs payload meta.(vfd_dest_cntl)
      else false
    | Fragment meta =>
      if register =? SP_PS_CNTL_0 then eqs payload [meta.(sp_ps_cntl_0)]
      else if register =? SP_PS_INSTR_SIZE then eqs payload [meta.(sp_ps_instr_size)]
      else if register =? SP_PS_CONST_CONFIG then eqs payload [meta.(sp_ps_const_config)]
      else if register =? SP_PS_CONFIG then eqs payload [meta.(sp_ps_config)]
      else if register =? SP_PS_WAVE_CNTL then eqs payload [meta.(sp_ps_wave_cntl)]
      else if register =? GRAS_CL_INTERP_CNTL then eqs payload [meta.(gras_cl_interp_cntl)]
      else if register =? RB_INTERP_CNTL then eqs payload [meta.(rb_interp_cntl)]
      else if register =? RB_PS_INPUT_CNTL then eqs payload [meta.(rb_ps_input_cntl)]
      else if register =? SP_PS_INITIAL_TEX_LOAD_CNTL then
        first_then payload meta.(initial_tex_load_cntl) meta.(initial_tex_load_cmd)
      else if register =? SP_REG_PROG_ID_0 then eqs payload meta.(sp_reg_prog_id)
      else if register =? SP_PS_OUTPUT_CNTL then eqs payload [meta.(sp_ps_output_cntl)]
      else if register =? SP_PS_OUTPUT_REG then eqs payload meta.(sp_ps_output_reg)
      else if register =? SP_PS_OUTPUT_MASK then eqs payload [meta.(sp_ps_output_mask)]
      else if register =? RB_PS_OUTPUT_CNTL then eqs payload [meta.(rb_ps_output_cntl)]
      else if register =? RB_PS_OUTPUT_MASK then eqs payload [meta.(rb_ps_output_mask)]
      else false
    end) ALL_SHADERS.

(** Registers that must be written with a single zero. *)
Definition ZERO_REGISTERS : list Z :=
  [GRAS_LRZ_CNTL; RB_LRZ_CNTL; RB_BIN_CONTROL2; RB_WINDOW_OFFSET; RB_WINDOW_OFFSET2;
   RB_RESOLVE_GMEM_BUFFER_INFO; SP_WINDOW_OFFSET; TPL1_WINDOW_OFFSET;
   GRAS_SC_SCREEN_SCISSOR_CNTL; VFD_RENDER_MODE; GRAS_CL_ARRAY_SIZE;
   GRAS_CL_VS_CLIP_CULL_DISTANCE; GRAS_SU_VS_SIV_CNTL; GRAS_SU_STENCIL_CNTL;
   GRAS_LRZ_PS_INPUT_CNTL; GRAS_LRZ_PS_SAMPLEFREQ_CNTL; RB_PS_SAMPLEFREQ_CNTL;
   RB_DITHER_CNTL; RB_SRGB_CNTL; RB_MRT_BASE_GMEM; RB_ALPHA_TEST_CNTL;
   RB_DEPTH_PLANE_CNTL; RB_STENCIL_CNTL; RB_STENCIL_BUFFER_INFO; RB_STENCIL_REF_CNTL;
   PC_PS_CNTL; PC_CNTL; PC_STEREO_RENDERING_CNTL; SP_SRGB_CNTL;
   SP_VS_PVT_MEM_STACK_OFFSET; SP_PS_PVT_MEM_STACK_OFFSET; SP_GFX_USIZE].

(** Registers whose payload must be one of the shader pack's. *)
Definition SHADER_REGISTERS : list Z :=
  [SP_VS_CNTL_0; SP_VS_INSTR_SIZE; SP_VS_CONST_CONFIG; SP_VS_CONFIG; SP_PS_CNTL_0;
   SP_PS_INSTR_SIZE; SP_PS_CONST_CONFIG; SP_PS_CONFIG; SP_PS_WAVE_CNTL;
   GRAS_CL_INTERP_CNTL; RB_INTERP_CNTL; RB_PS_INPUT_CNTL; SP_PS_INITIAL_TEX_LOAD_CNTL;
   SP_REG_PROG_ID_0; SP_PS_OUTPUT_CNTL; SP_PS_OUTPUT_REG; SP_PS_OUTPUT_MASK;
   RB_PS_OUTPUT_CNTL; RB_PS_OUTPUT_MASK].

(** [matches!(x, a | b | ..)] *)
Definition one_of (x : Z) (l : list Z) : bool := existsb (Z.eqb x) l.

(** [payload.chunks_exact(2).all(f)] *)
Fixpoint all_pairs (f : Z → Z → bool) (l : list Z) : bool :=
  match l with a :: b :: l => f a b && all_pairs f l | _ => true end.

Definition NOT_ALLOWED_REGISTER : string :=
  "qcom-adreno-a618: PM4 register write is not allowlisted".
Definition NOT_ALLOWED_OPCODE : string := "qcom-adreno-a618: PM4 opcode is not allowlisted".

Definition validate_type4 (register : Z) (payload : list Z) (packet_word : Z)
    (addresses : list AddressField) : outcome string (list AddressField) :=
  let n := len payload in
  let p := λ i, payload.[i] in
  let arm := λ registers count, one_of register registers && (n =? count) in
  let ok := Ok addresses in
  let exactly := λ expected, let? _ := exact payload expected in Ok addresses in
  let word := λ k, add_or_panic U32_MAX packet_word k in
  if arm [RB_CCU_CNTL] 1 then exactly [0x08000000]
  else if arm [RB_DBG_ECO_CNTL] 1 then exactly [0x04100000]
  else if arm [RB_A2D_BLT_CNTL; GRAS_A2D_BLT_CNTL] 1
          && bool_decide (is_Some (a2d_control_format (p 0%nat))) then ok
  else if arm [RB_A2D_PIXEL_CNTL] 1 then exactly [0]
  else if arm [RB_A2D_DEST_BUFFER_INFO] 1
          && bool_decide (is_Some (a2d_destination_format (p 0%nat))) then ok
  else if arm [RB_A2D_DEST_BUFFER_BASE] 2 then
    let? w := word 1 in Ok (address_field addresses w ACCESS_WRITE true None)
  else if arm [RB_A2D_DEST_BUFFER_PITCH] 1
          && negb (p 0%nat =? 0) && (p 0%nat .&~ 0x3fff =? 0) then ok
  else if arm [RB_A2D_CLEAR_COLOR_DW0] 4
          && (forallb (λ w, w <=? 0xff) payload
              || (eqs (drop 1 payload) [0; 0; 0]
                  && f32_is_finite (f32_from_bits (p 0%nat))
                  && f32_le F32_ZERO (f32_from_bits (p 0%nat))
                  && f32_le (f32_from_bits (p 0%nat)) F32_ONE)) then ok
  else if arm [GRAS_A2D_SRC_XMIN] 4 && forallb (λ v, v .& 0xff =? 0) payload then ok
  else if arm [GRAS_A2D_DEST_TL; GRAS_A2D_SCISSOR_TL] 2 then ok
  else if arm [SP_A2D_OUTPUT_INFO] 1
          && bool_decide (is_Some (a2d_output_format (p 0%nat))) then ok
  else if arm [TPL1_A2D_SRC_TEXTURE_INFO] 1
          && (p 0%nat .&~ (1 << 16)
              =? FORMAT_8_8_8_8_UNORM .| A2D_COLOR_SWAP_WXYZ .| (1 << 20) .| (1 << 22)) then ok
  else if arm [TPL1_A2D_SRC_TEXTURE_SIZE] 1
          && negb (p 0%nat =? 0) && (p 0%nat .& 0xc0000000 =? 0) then ok
  else if arm [TPL1_A2D_SRC_TEXTURE_BASE] 2 then
    let? w := word 1 in Ok (address_field addresses w ACCESS_READ true None)
  else if arm [TPL1_A2D_SRC_TEXTURE_PITCH] 1
          && negb (p 0%nat =? 0) && (p 0%nat .& 0x1ff =? 0) && (p 0%nat >> 9 <=? 0x3fff) then ok
  else if arm [GRAS_SC_CNTL] 1 then exactly [2]
  else if arm [GRAS_SC_BIN_CNTL; RB_CNTL] 1 then exactly [0x00c00000]
  else if arm ZERO_REGISTERS 1 then exactly [0]
  else if arm [GRAS_SU_DEPTH_BUFFER_INFO] 1 && one_of (p 0%nat) [0; DEPTH_FORMAT_32] then ok
  else if arm [GRAS_SU_DEPTH_CNTL] 1 && one_of (p 0%nat) [0; 1] then ok
  else if arm [RB_DEPTH_CNTL] 1 && safe_depth_control (p 0%nat) then ok
  else if arm [VFD_MODE_CNTL] 1 then exactly [3]
  else if arm [VPC_SO_OVERRIDE] 1 then exactly [0]
  else if arm [PC_MODE_CNTL] 1 then exactly [0x1f]
  else if arm [SP_MODE_CNTL] 1 then exactly [5]
  else if arm [TPL1_MODE_CNTL] 1 then exactly [0xa2]
  else if arm [RB_MODE_CNTL] 1 then exactly [0x10]
  else if arm [SP_UPDATE_CNTL] 1 then exactly [0xff]
  else if arm [SP_HS_CONFIG; SP_DS_CONFIG; SP_GS_CONFIG] 1 then exactly [0]
  else if arm [SP_VS_PROGRAM_COUNTER_OFFSET] 7
          && (p 0%nat =? 0) && eqs (drop 3 payload) [0; 0; 0; 0] then
    let? w := word 2 in Ok (canonical_address_field addresses w VertexStage)
  else if arm [SP_PS_PROGRAM_COUNTER_OFFSET] 7
          && (p 0%nat =? 0) && eqs (drop 3 payload) [0; 0; 0; 0] then
    let? w := word 2 in Ok (canonical_address_field addresses w FragmentStage)
  else if arm [SP_LB_PARAM_LIMIT] 1 then exactly [7]
  else if arm [GRAS_CL_CNTL] 1 then exactly [0x80]
  else if arm [GRAS_CL_GUARDBAND_CLIP_ADJ] 1
          && (p 0%nat .&~ (0x1ff .| (0x1ff << 10)) =? 0) then ok
  else if arm [GRAS_SU_POINT_MINMAX] 1 then exactly [0x00100010]
  else if arm [GRAS_SU_POINT_SIZE] 1 then exactly [0x10]
  else if arm [GRAS_SU_POLY_OFFSET_SCALE] 3 then exactly [0; 0; 0]
  else if arm [GRAS_SU_DEPTH_PLANE_CNTL] 1 then exactly [0]
  else if arm [GRAS_LRZ_MRT_BUFFER_INFO_0] 1 then exactly [FORMAT_8_8_8_8_UNORM]
  else if arm [TPL1_RAS_MSAA_CNTL] 2 then exactly [0; 4]
  else if arm [GRAS_SC_RAS_MSAA_CNTL; RB_RAS_MSAA_CNTL] 3 then exactly [0; 4; 0]
  else if arm [TPL1_MSAA_SAMPLE_POS_CNTL] 1 then exactly [0]
  else if arm [RB_DEPTH_BUFFER_INFO] 6 && eqs payload (replicate 6 0) then ok
  else if arm [RB_DEPTH_BUFFER_INFO] 6
          && (p 0%nat =? DEPTH_FORMAT_32)
          && negb (p 1%nat =? 0) && (p 1%nat <=? 0x3fff)
          && negb (p 2%nat =? 0) && (p 2%nat <=? 0x0fffffff)
          && eqs (drop 3 payload) [0; 0; 0] then
    let? w := word 4 in
    Ok (address_field addresses w (ACCESS_READ .| ACCESS_WRITE) false None)
  else if arm [RB_DEPTH_BOUND_MIN] 2 then exactly [0; F32_ONE_BITS]
  else if arm [RB_STENCIL_MASK] 2 then exactly [0; 0]
  else if arm [RB_COLOR_FLAG_BUFFER_ADDR] 3 then exactly [0; 0; 0]
  else if arm [RB_DEPTH_FLAG_BUFFER_BASE] 3 then exactly [0; 0; 0]
  else if arm [VPC_VARYING_INTERP_MODE; VPC_VARYING_REPLACE_MODE] 8 then exactly (replicate 8 0)
  else if arm [RB_MRT_CONTROL] 2
          && (eqs payload [0x7e0; 0x00010001] || eqs payload [0x7e3; 0x07010706]) then ok
  else if arm [RB_MRT_BUF_INFO] 1
          && bool_decide (is_Some (color_target_modifier (p 0%nat))) then ok
  else if arm [RB_MRT_PITCH] 2
          && negb (p 0%nat =? 0) && (p 0%nat <=? 0xffff)
          && negb (p 1%nat =? 0) && (p 1%nat <=? 0x1fffffff) then ok
  else if arm [RB_MRT_BASE] 2 then
    let? w := word 1 in Ok (address_field addresses w ACCESS_WRITE false None)
  else if arm [RB_BLEND_CNTL] 1 && one_of (p 0%nat) [0xffff0000; 0xffff0001] then ok
  else if arm [SP_BLEND_CNTL] 1 && one_of (p 0%nat) [0; 1] then ok
  else if arm [SP_PS_MRT_CNTL; RB_PS_MRT_CNTL] 1 then exactly [1]
  else if arm [SP_PS_MRT_REG] 1 then exactly [FORMAT_8_8_8_8_UNORM]
  else if arm [GRAS_CL_VIEWPORT_XOFFSET] 6 then ok
  else if arm [GRAS_SC_SCREEN_SCISSOR_TL; GRAS_SC_VIEWPORT_SCISSOR_TL;
               GRAS_SC_WINDOW_SCISSOR_TL] 2 then ok
  else if arm [GRAS_SU_CNTL] 1
          && (p 0%nat .&~ 0x2017 =? 0) && (p 0%nat .& 0x2010 =? 0x2010) then ok
  else if arm [VPC_RAST_CNTL; PC_DGEN_RAST_CNTL] 1 then exactly [3]
  else if arm [VFD_CNTL_0] 1
          && (p 0%nat .& 0xffff0000 =? 0) && (p 0%nat .& 0xff =? p 0%nat >> 8) then ok
  else if arm [VFD_CNTL_1] 6 && any_shader_payload register payload then ok
  else if arm [VFD_INDEX_OFFSET] 2 then let? _ := exact (drop 1 payload) [0] in ok
  else if arm [VFD_VERTEX_BUFFER_BASE] 2 then
    let? w := word 1 in Ok (address_field addresses w ACCESS_READ false None)
  else if arm [VFD_VERTEX_BUFFER_SIZE] 2
          && negb (p 0%nat =? 0) && one_of (p 1%nat) [16; 24; 28; 32; 40] then ok
  else if one_of register [VFD_FETCH_INSTR] && (2 <=? n) && (n <=? 6) && (n mod 2 =? 0) then
    if all_pairs (λ a b, (b =? 1) && negb (a .& 0x40000000 =? 0)) payload then ok
    else Err "qcom-adreno-a618: unsafe VFD fetch instruction"
  else if one_of register [VFD_DEST_CNTL] && any_shader_payload register payload then ok
  else if one_of register SHADER_REGISTERS && any_shader_payload register payload then ok
  else if arm [SP_PS_INITIAL_TEX_INDEX_CMD] 1 then exactly [0]
  else if arm [SP_PS_TSIZE] 1 && one_of (p 0%nat) [0; 1] then ok
  else if arm [SP_PS_SAMPLER_BASE] 2 then
    let? w := word 1 in Ok (address_field addresses w ACCESS_READ false (Some 16))
  else if arm [SP_PS_TEXMEMOBJ_BASE] 2 then
    let? w := word 1 in Ok (address_field addresses w ACCESS_READ false (Some 64))
  else if arm [SP_VS_OUTPUT_CNTL; VPC_VS_CNTL; VPC_PS_CNTL; PC_VS_CNTL] 1 then ok
  else if one_of register [SP_VS_OUTPUT_REG; SP_VS_VPC_DEST_REG] && (n <=? 2) then ok
  else if arm [VPC_VARYING_LM_TRANSFER_CNTL_DISABLE] 4 then ok
  else if arm [VPC_VS_CLIP_CULL_CNTL; VPC_VS_CLIP_CULL_CNTL_V2] 1 then exactly [0x00ffff00]
  else if arm [VPC_VS_SIV_CNTL; VPC_VS_SIV_CNTL_V2] 1 then exactly [0x0000ffff]
  else Err NOT_ALLOWED_REGISTER.

(** [payload[a..b]] *)
Definition words (payload : list Z) (a b : nat) : list Z := take (b - a) (drop a payload).

Definition validate_type7 (opcode_value : Z) (payload : list Z) (packet_word : Z)
    (addresses : list AddressField) : outcome string (list AddressField) :=
  let n := len payload in
  let p := λ i, payload.[i] in
  let arm := λ opcode count, (opcode_value =? opcode) && (n =? count) in
  let ok := Ok addresses in
  let exactly := λ expected, let? _ := exact payload expected in Ok addresses in
  let word := λ k, add_or_panic U32_MAX packet_word k in
  if arm opcode.WAIT_MEM_WRITES 0 then ok
  else if arm opcode.WAIT_FOR_IDLE 0 then ok
  else if arm opcode.EVENT_WRITE 1
          && one_of (p 0%nat) [EVENT_CCU_INVALIDATE_COLOR; EVENT_CCU_INVALIDATE_DEPTH;
                               EVENT_CACHE_INVALIDATE] then ok
  else if arm opcode.EVENT_WRITE 4
          && one_of (p 0%nat) [EVENT_CCU_FLUSH_COLOR_TS .| EVENT_WRITE_TIMESTAMP;
                               EVENT_CCU_FLUSH_DEPTH_TS .| EVENT_WRITE_TIMESTAMP]
          && eqs (words payload 1 3) [0; 0] && negb (p 3%nat =? 0) then
    let? w := word 2 in Ok (address_field addresses w ACCESS_WRITE false (Some 4))
  else if arm opcode.SET_MARKER 1 && one_of (p 0%nat) [1; 12] then ok
  else if arm CP_SKIP_IB2_ENABLE_GLOBAL 1 then exactly [0]
  else if arm CP_SKIP_IB2_ENABLE_LOCAL 1 then exactly [1]
  else if arm CP_SET_VISIBILITY_OVERRIDE 1 then exactly [1]
  else if arm CP_REG_WRITE 3 then exactly [2; RB_RENDER_CNTL; 0x10]
  else if arm opcode.BLIT 1 then exactly [3]
  else if arm CP_MEMCPY 5 && (1 <=? p 0%nat) && (p 0%nat <=? CP_MEMCPY_MAX_DWORDS) then
    let? size := ok_or (checked_mul U64_MAX (p 0%nat) 4)
                       ("qcom-adreno-a618: PM4 memcpy size overflows" : string) in
    let? w := word 2 in
    let addresses := address_field addresses w ACCESS_READ false (Some size) in
    let? w := word 4 in
    Ok (address_field addresses w ACCESS_WRITE false (Some size))
  else if arm CP_MEM_WRITE 22
          && eqs (words payload 0 2) [0; 0]
          && supported_texture_descriptor (p 2%nat)
          && (p 3%nat .& 0xc0000000 =? 0)
          && negb (p 3%nat .& 0x7fff =? 0)
          && negb ((p 3%nat >> 15) .& 0x7fff =? 0)
          && (p 4%nat .& 0x7f =? if p 2%nat .& 3 =? 3 then 2 else 0)
          && (p 4%nat >> 29 =? 1)
          && (p 5%nat .&~ 0x007fffff =? 0)
          && (p 7%nat =? 1 << 17)
          && (if is_nv12_descriptor (p 2%nat) then
                (p 8%nat =? ((p 4%nat >> 7) .& 0x3fffff) << 8)
                && eqs (words payload 9 18) (replicate 9 0)
              else eqs (words payload 8 18) (replicate 10 0))
          && supported_sampler (drop 18 payload)
               (if is_nv12_descriptor (p 2%nat) then 0 else (p 2%nat >> 16) .& 15) then
    let? w := word 1 in
    let addresses := address_field addresses w ACCESS_WRITE false (Some 80) in
    let? w := word 7 in
    let addresses :=
      address_field_encoded addresses w ACCESS_READ false None GpuVa49TexDescriptor in
    if is_nv12_descriptor (p 2%nat) then
      let? w := word 10 in Ok (address_field addresses w ACCESS_READ false None)
    else Ok addresses
  else if arm CP_LOAD_STATE6_GEOM 3
          && (p 0%nat =? (2 << 16) .| (8 << 18) .| (1 << 22))
          && eqs (words payload 1 3) [0; 0] then
    let? w := word 2 in Ok (canonical_address_field addresses w VertexStage)
  else if arm CP_LOAD_STATE6_FRAG 3
          && one_of (p 0%nat >> 22) [1; 2]
          && (p 0%nat .& ((1 << 22) - 1) =? (2 << 16) .| (12 << 18))
          && eqs (words payload 1 3) [0; 0] then
    let? w := word 2 in Ok (canonical_address_field addresses w FragmentStage)
  else if arm CP_LOAD_STATE6_GEOM 23
          && (p 0%nat =? (1 << 14) .| (8 << 18) .| (5 << 22))
          && eqs (words payload 1 3) [0; 0] then ok
  else if arm CP_LOAD_STATE6_FRAG 35
          && (p 0%nat =? (1 << 14) .| (12 << 18) .| (8 << 22))
          && eqs (words payload 1 3) [0; 0] then ok
  else if arm CP_LOAD_STATE6_FRAG 23
          && (p 0%nat =? (1 << 14) .| (12 << 18) .| (5 << 22))
          && eqs (words payload 1 3) [0; 0] then ok
  else if arm CP_LOAD_STATE6_FRAG 3
          && (p 0%nat =? (2 << 16) .| (4 << 18) .| (1 << 22))
          && eqs (words payload 1 3) [0; 0] then
    let? w := word 2 in Ok (address_field addresses w ACCESS_READ false (Some 16))
  else if arm CP_LOAD_STATE6_FRAG 3
          && (p 0%nat =? (1 << 14) .| (2 << 16) .| (4 << 18) .| (1 << 22))
          && eqs (words payload 1 3) [0; 0] then
    let? w := word 2 in Ok (address_field addresses w ACCESS_READ false (Some 64))
  else if arm CP_DRAW_INDX_OFFSET 3
          && (p 0%nat =? 0x84) && (p 1%nat =? 1)
          && negb (p 2%nat =? 0) && (p 2%nat mod 3 =? 0) then ok
  else if arm CP_DRAW_INDX_OFFSET 7 then
    let? index_size :=
      (if p 0%nat =? 0x404 then Ok 2
       else if p 0%nat =? 0x804 then Ok 4
       else Err ("qcom-adreno-a618: unsafe indexed draw initiator" : string)) in
    let? end_index := ok_or (checked_add U32_MAX (p 3%nat) (p 2%nat))
                            ("qcom-adreno-a618: indexed draw range overflows" : string) in
    if negb (p 1%nat =? 1) || (p 2%nat =? 0) || negb (p 2%nat mod 3 =? 0)
       || (p 6%nat =? 0) || (p 6%nat <? end_index) || negb (eqs (words payload 4 6) [0; 0])
    then Err ("qcom-adreno-a618: unsafe indexed draw range" : string)
    else
      let? required_size := ok_or (checked_mul U64_MAX (p 6%nat) index_size)
                                  ("qcom-adreno-a618: index buffer size overflows" : string) in
      let? w := word 5 in
      Ok (address_field addresses w ACCESS_READ false (Some required_size))
  else Err NOT_ALLOWED_OPCODE.

(** The per-packet dispatch of [validate_pm4]. *)
Definition validate_packet (addresses : list AddressField) (packet : Packet)
    : outcome string (list AddressField) :=
  match packet.(header) with
  | Type4 register _ => validate_type4 register packet.(payload) packet.(word_offset) addresses
  | Type7 opcode _ => validate_type7 opcode packet.(payload) packet.(word_offset) addresses
  end.
