(* ===== verification/SubmitOrdering.v ===== *)
(** * Ordering rules on the packet stream

    Model of [validate_memcpy_barriers], [validate_ccu_transitions] and
    [validate_render_retirement] of [submit.rs], which read the accepted
    packets in order, and of what each of the three rules enforces. *)
From S2P Require Import Prelude Pm4 SubmitTypes SubmitPackets.

(** ** Packet classes *)

Definition is_type7 (packet : Packet) (opcode : Z) : bool :=
  match packet.(header) with Type7 actual _ => actual =? opcode | Type4 _ _ => false end.

Definition is_type4 (packet : Packet) (register : Z) : bool :=
  match packet.(header) with Type4 actual _ => actual =? register | Type7 _ _ => false end.

(** [matches!(packet.header, Header::Type7 { opcode, count })] *)
Definition is_type7_count (packet : Packet) (opcode count : Z) : bool :=
  match packet.(header) with
  | Type7 actual n => (actual =? opcode) && (n =? count)
  | Type4 _ _ => false
  end.

(** [packet.payload.first() == Some(&word)] *)
Definition first_is (payload : list Z) (word : Z) : bool :=
  match payload with first :: _ => first =? word | [] => false end.

(** An event with a timestamp address, and one without. *)
Definition addressed (packet : Packet) (event : Z) : bool :=
  is_type7_count packet opcode.EVENT_WRITE 4
  && first_is packet.(payload) (event .| EVENT_WRITE_TIMESTAMP).

Definition plain (packet : Packet) (event : Z) : bool :=
  is_type7_count packet opcode.EVENT_WRITE 1 && eqs packet.(payload) [event].

(** ** Memory writes *)

Definition MISSING_WAIT : string :=
  "qcom-adreno-a618: CP memory write must be followed by CP_WAIT_MEM_WRITES".

Definition is_memory_write (packet : Packet) : bool :=
  is_type7 packet CP_MEMCPY || is_type7 packet CP_MEM_WRITE.

Definition is_wait_mem_writes (packet : Packet) : bool :=
  is_type7_count packet opcode.WAIT_MEM_WRITES 0 && eqs packet.(payload) [].

Definition memcpy_step (require_wait : bool) (packet : Packet) : outcome string bool :=
  if require_wait then
    if is_wait_mem_writes packet then Ok false else Err MISSING_WAIT
  else Ok (is_memory_write packet).

Definition validate_memcpy_barriers (packets : list Packet) : outcome string () :=
  let? require_wait := foldM memcpy_step false packets in
  if require_wait then Err MISSING_WAIT else Ok ().

(** ** Colour-cache transitions *)

Inductive Transition : Type :=
| Idle
| ColorClean
| ColorAndDepthClean
| DepthInvalidatePending.

#[export] Instance Transition_eq_dec : EqDecision Transition.
Proof. solve_decision. Defined.

Definition color_clean (p : Packet) : bool := addressed p EVENT_CCU_FLUSH_COLOR_TS.
Definition depth_clean (p : Packet) : bool := addressed p EVENT_CCU_FLUSH_DEPTH_TS.
Definition color_invalidate (p : Packet) : bool := plain p EVENT_CCU_INVALIDATE_COLOR.
Definition depth_invalidate (p : Packet) : bool := plain p EVENT_CCU_INVALIDATE_DEPTH.

Definition is_ccu_transition (p : Packet) : bool :=
  color_clean p || depth_clean p || color_invalidate p || depth_invalidate p.

Definition ccu_step (transition : Transition) (packet : Packet) : outcome string Transition :=
  match transition, color_clean packet, depth_clean packet, color_invalidate packet,
        depth_invalidate packet with
  | Idle, true, false, false, false => Ok ColorClean
  | ColorClean, false, true, false, false => Ok ColorAndDepthClean
  | ColorClean, false, false, true, false => Ok Idle
  | ColorAndDepthClean, false, false, true, false => Ok DepthInvalidatePending
  | DepthInvalidatePending, false, false, false, true => Ok Idle
  | Idle, false, false, false, false => Ok Idle
  | _, _, _, _, _ =>
    if is_ccu_transition packet
    then Err ("qcom-adreno-a618: invalid CCU clean/invalidate ordering" : string)
    else Err ("qcom-adreno-a618: CCU clean/invalidate sequence is not contiguous" : string)
  end.

Definition validate_ccu_transitions (packets : list Packet) : outcome string () :=
  let? transition := foldM ccu_step Idle packets in
  if bool_decide (transition = Idle) then Ok ()
  else Err ("qcom-adreno-a618: CCU clean is missing its matching invalidation" : string).

(** ** Retirement of rendering *)

Definition is_wfi (packet : Packet) : bool := is_type7_count packet opcode.WAIT_FOR_IDLE 0.

Definition is_sysmem_retirement (retirement : list Packet) : bool :=
  match retirement with
  | [p0; p1; p2; p3; p4] =>
    addressed p0 EVENT_CCU_FLUSH_COLOR_TS && addressed p1 EVENT_CCU_FLUSH_DEPTH_TS
    && plain p2 EVENT_CCU_INVALIDATE_COLOR && plain p3 EVENT_CCU_INVALIDATE_DEPTH && is_wfi p4
  | _ => false
  end.

(** Packets allowed while a solid clear is not retired. *)
Definition clear_setup (packet : Packet) : bool :=
  match packet.(header) with
  | Type4 register _ =>
    one_of register
      [RB_A2D_BLT_CNTL; GRAS_A2D_BLT_CNTL; RB_A2D_PIXEL_CNTL; SP_A2D_OUTPUT_INFO;
       RB_A2D_CLEAR_COLOR_DW0; RB_A2D_DEST_BUFFER_INFO; RB_A2D_DEST_BUFFER_BASE;
       RB_A2D_DEST_BUFFER_PITCH; GRAS_A2D_DEST_TL; GRAS_A2D_SCISSOR_TL]
  | Type7 opcode_value _ => one_of opcode_value [opcode.WAIT_FOR_IDLE; opcode.BLIT]
  end.

Record RetirementState : Type := MkRetirement {
  pending_draw : bool;
  pending_clear : bool;
  solid_blit : bool;
  at_index : Z;
}.

(** The [BLIT] branch of the loop body. *)
Definition retirement_blit (packets : list Packet) (s : RetirementState) (solid_blit : bool)
    : outcome string RetirementState :=
  let index_ := s.(at_index) in
  if s.(pending_draw) then
    Err ("qcom-adreno-a618: rendering operation lacks the complete A6xx sysmem epilogue" : string)
  else if negb (match packets !! Z.to_nat (index_ + 1) with Some p => is_wfi p | None => false end)
  then Err ("qcom-adreno-a618: A2D blit is not idle before retirement" : string)
  else if solid_blit then Ok (MkRetirement s.(pending_draw) true solid_blit (index_ + 2))
  else if s.(pending_clear)
  then Err ("qcom-adreno-a618: sampled blit follows an unretired clear" : string)
  else
    let? retirement := ok_or (get_range packets (index_ + 2) (index_ + 7))
      ("qcom-adreno-a618: rendering operation lacks sysmem retirement" : string) in
    if negb (is_sysmem_retirement retirement) then
      Err ("qcom-adreno-a618: rendering operation lacks the complete A6xx sysmem epilogue" : string)
    else Ok (MkRetirement s.(pending_draw) s.(pending_clear) solid_blit (index_ + 7)).

(** One iteration of the [while] loop at [packets[at_index]]. *)
Definition retirement_step (packets : list Packet) (s : RetirementState)
    : outcome string RetirementState :=
  let index_ := s.(at_index) in
  let? packet := index packets index_ in
  if (s.(pending_draw) || s.(pending_clear))
     && match get_range packets index_ (saturating_add U64_MAX index_ 5) with
        | Some retirement => is_sysmem_retirement retirement
        | None => false
        end
  then Ok (MkRetirement false false s.(solid_blit) (index_ + 5))
  else
    let? solid_blit :=
      (if is_type4 packet RB_A2D_BLT_CNTL
       then let? word := index packet.(payload) 0 in Ok (negb (word .& (1 << 7) =? 0))
       else Ok s.(solid_blit)) in
    if s.(pending_clear) && negb (clear_setup packet)
    then Err ("qcom-adreno-a618: clear batch lacks sysmem retirement" : string)
    else if is_type7 packet CP_DRAW_INDX_OFFSET
    then Ok (MkRetirement true s.(pending_clear) solid_blit (index_ + 1))
    else if is_type7 packet opcode.BLIT then retirement_blit packets s solid_blit
    else Ok (MkRetirement s.(pending_draw) s.(pending_clear) solid_blit (index_ + 1)).

Fixpoint retirement_loop (fuel : nat) (packets : list Packet) (s : RetirementState)
    : outcome string RetirementState :=
  if s.(at_index) <? len packets then
    match fuel with
    | O => Panic
    | S fuel => let? s := retirement_step packets s in retirement_loop fuel packets s
    end
  else Ok s.

(** Every iteration advances by at least one packet. *)
Definition validate_render_retirement (packets : list Packet) : outcome string () :=
  let? s := retirement_loop (length packets) packets (MkRetirement false false false 0) in
  if s.(pending_draw) || s.(pending_clear)
  then Err ("qcom-adreno-a618: rendering operation lacks sysmem retirement" : string)
  else Ok ().

(** ** What the three rules enforce *)

(** A memory write and its barrier are different packets. *)
Lemma wait_not_memory_write p : is_wait_mem_writes p = true → is_memory_write p = false.
Proof.
  unfold is_wait_mem_writes, is_memory_write, is_type7_count, is_type7.
  destruct (header p); [done|]. intros H. bool_to_prop. by subst.
Qed.

(** The packet after position [i] is the barrier. *)
Definition barrier_at (packets : list Packet) (i : nat) : Prop :=
  ∃ q, packets !! i = Some q ∧ is_wait_mem_writes q = true.

Lemma memcpy_loop packets wait :
  (let? require_wait := foldM memcpy_step wait packets in
   if require_wait then Err MISSING_WAIT else Ok ()) = Ok () ↔
  (wait = true → barrier_at packets 0) ∧
  (∀ i p, packets !! i = Some p → is_memory_write p = true → barrier_at packets (S i)).
Proof.
  unfold barrier_at. revert wait. induction packets as [|x l IH]; intros wait.
  - simpl. destruct wait; naive_solver.
  - destruct wait; cbn [foldM memcpy_step bind].
    + destruct (is_wait_mem_writes x) eqn:Hx; cbn [bind].
      * rewrite IH. pose proof (wait_not_memory_write x Hx). split.
        -- intros [_ Hl]. split; [by exists x|].
           intros [|i] p Hp Hw; simplify_eq/=; [congruence|eauto].
        -- intros [_ Hl]. split; [done|]. intros i p Hp Hw. by apply (Hl (S i) p).
      * split; [done|]. intros [Hq _]. destruct (Hq eq_refl) as (q & Hq' & ?). simplify_eq/=. congruence.
    + rewrite IH. split.
      * intros [Hx Hl]. split; [done|]. intros [|i] p Hp Hw; simplify_eq/=; eauto.
      * intros [_ Hl]. split; [intros Hx; by apply (Hl 0%nat x)|].
        intros i p Hp Hw. by apply (Hl (S i) p).
Qed.

(** A stream passes the memory barrier rule exactly when every CP_MEMCPY and
    CP_MEM_WRITE packet is immediately followed by CP_WAIT_MEM_WRITES. *)
Theorem memcpy_barriers_iff (packets : list Packet) :
  validate_memcpy_barriers packets = Ok () ↔
  ∀ i p, packets !! i = Some p → is_memory_write p = true → barrier_at packets (S i).
Proof. unfold validate_memcpy_barriers. rewrite memcpy_loop. naive_solver. Qed.

(** The cache sequences of the dialect: unrelated packets, a colour clean with
    its invalidation, and the four-step colour and depth retirement. *)
Inductive ccu_sequence : list Packet → Prop :=
| ccu_done : ccu_sequence []
| ccu_other p l : is_ccu_transition p = false → ccu_sequence l → ccu_sequence (p :: l)
| ccu_color c i l :
    color_clean c = true → color_invalidate i = true → ccu_sequence l →
    ccu_sequence (c :: i :: l)
| ccu_color_depth c d i j l :
    color_clean c = true → depth_clean d = true →
    color_invalidate i = true → depth_invalidate j = true → ccu_sequence l →
    ccu_sequence (c :: d :: i :: j :: l).

(** What is left to read in each state. *)
Definition ccu_rest (t : Transition) (l : list Packet) : Prop :=
  match t with
  | Idle => ccu_sequence l
  | ColorClean =>
    (∃ i l', l = i :: l' ∧ color_invalidate i = true ∧ ccu_sequence l') ∨
    (∃ d i j l', l = d :: i :: j :: l' ∧ depth_clean d = true ∧
       color_invalidate i = true ∧ depth_invalidate j = true ∧ ccu_sequence l')
  | ColorAndDepthClean =>
    ∃ i j l', l = i :: j :: l' ∧ color_invalidate i = true ∧ depth_invalidate j = true ∧ ccu_sequence l'
  | DepthInvalidatePending => ∃ j l', l = j :: l' ∧ depth_invalidate j = true ∧ ccu_sequence l'
  end.

(** At most one of the four classes holds of a packet. *)
Lemma ccu_class p :
  match color_clean p, depth_clean p, color_invalidate p, depth_invalidate p with
  | false, false, false, false | true, false, false, false | false, true, false, false
  | false, false, true, false | false, false, false, true => True
  | _, _, _, _ => False
  end.
Proof.
  unfold color_clean, depth_clean, color_invalidate, depth_invalidate, addressed, plain.
  unfold is_type7_count, first_is, eqs. destruct (header p) as [|o n]; [done|].
  destruct (o =? opcode.EVENT_WRITE); [|done]. destruct (Z.eqb_spec n 4) as [->|]; cbn [andb].
  - destruct (payload p) as [|w ?]; [done|].
    destruct (Z.eqb_spec w (EVENT_CCU_FLUSH_COLOR_TS .| EVENT_WRITE_TIMESTAMP)) as [->|];
      [done|]. by destruct (w =? _).
  - destruct (n =? 1); [|done]. cbn [andb].
    destruct (decide (payload p = [EVENT_CCU_INVALIDATE_COLOR])) as [->|]; [done|].
    rewrite bool_decide_eq_false_2 by done. by case_bool_decide.
Qed.

Lemma ccu_sequence_cons p l :
  ccu_sequence (p :: l) ↔
  (is_ccu_transition p = false ∧ ccu_sequence l) ∨ (color_clean p = true ∧ ccu_rest ColorClean l).
Proof.
  split.
  - inversion 1; subst; [by left|right; naive_solver..].
  - intros [[??]|[? [(i & l' & -> & ? & ?)|(d & i & j & l' & -> & ? & ? & ? & ?)]]];
      [by apply ccu_other|by apply ccu_color|by apply ccu_color_depth].
Qed.

Lemma ccu_rest_color p l :
  ccu_rest ColorClean (p :: l) ↔
  (color_invalidate p = true ∧ ccu_sequence l) ∨ (depth_clean p = true ∧ ccu_rest ColorAndDepthClean l).
Proof.
  cbn [ccu_rest]. split.
  - intros [(i & l' & [= -> ->] & ? & ?)|(d & i & j & l' & [= -> ->] & ? & ? & ? & ?)]; [by left|right].
    split; [done|]. by exists i, j, l'.
  - intros [[??]|(? & i & j & l' & -> & ? & ? & ?)]; [left; by exists p, l|right; by exists p, i, j, l'].
Qed.

Lemma ccu_rest_both p l :
  ccu_rest ColorAndDepthClean (p :: l) ↔
  color_invalidate p = true ∧ ccu_rest DepthInvalidatePending l.
Proof.
  cbn [ccu_rest]. split.
  - intros (i & j & l' & [= -> ->] & ? & ? & ?). split; [done|]. by exists j, l'.
  - intros (? & j & l' & -> & ? & ?). by exists p, j, l'.
Qed.

Lemma ccu_rest_pending p l :
  ccu_rest DepthInvalidatePending (p :: l) ↔ depth_invalidate p = true ∧ ccu_sequence l.
Proof.
  cbn [ccu_rest]. split.
  - by intros (j & l' & [= -> ->] & ? & ?).
  - intros [??]. by exists p, l.
Qed.

Lemma ccu_rest_cons t p l :
  ccu_rest t (p :: l) ↔
  match ccu_step t p with Ok t' => ccu_rest t' l | _ => False end.
Proof.
  pose proof (ccu_class p) as Hclass. unfold ccu_step.
  transitivity
    (match t with
     | Idle => (is_ccu_transition p = false ∧ ccu_sequence l) ∨ (color_clean p = true ∧ ccu_rest ColorClean l)
     | ColorClean => (color_invalidate p = true ∧ ccu_sequence l)
                     ∨ (depth_clean p = true ∧ ccu_rest ColorAndDepthClean l)
     | ColorAndDepthClean => color_invalidate p = true ∧ ccu_rest DepthInvalidatePending l
     | DepthInvalidatePending => depth_invalidate p = true ∧ ccu_sequence l
     end).
  { destruct t; [apply ccu_sequence_cons|apply ccu_rest_color|apply ccu_rest_both|apply ccu_rest_pending]. }
  unfold is_ccu_transition. revert Hclass.
  generalize (color_clean p) (depth_clean p) (color_invalidate p) (depth_invalidate p).
  intros [] [] [] [] Hclass; try (by destruct Hclass); destruct t; cbn [orb];
    intuition congruence.
Qed.

Lemma ccu_loop t l : foldM ccu_step t l = Ok Idle ↔ ccu_rest t l.
Proof.
  revert t. induction l as [|p l IH]; intros t.
  - cbn [foldM]. destruct t; cbn [ccu_rest]; [|naive_solver..].
    split; [intros _; constructor|done].
  - rewrite ccu_rest_cons. cbn [foldM]. destruct (ccu_step t p); cbn [bind]; [apply IH|done..].
Qed.

(** The colour-cache rule accepts exactly the streams in which every clean is
    immediately followed by its invalidation, in one of the two sequences of
    the dialect, and no invalidation occurs outside them. *)
Theorem ccu_transitions_iff (packets : list Packet) :
  validate_ccu_transitions packets = Ok () ↔ ccu_sequence packets.
Proof.
  change (ccu_sequence packets) with (ccu_rest Idle packets). rewrite <- ccu_loop.
  unfold validate_ccu_transitions. destruct (foldM ccu_step Idle packets) as [t| |]; cbn [bind]; [|done..].
  case_bool_decide; naive_solver.
Qed.

(** ** Rendering is retired *)

Definition is_draw (p : Packet) : bool := is_type7 p CP_DRAW_INDX_OFFSET.
Definition is_blit (p : Packet) : bool := is_type7 p opcode.BLIT.

(** The complete epilogue starts at packet [j]. *)
Definition retirement_at (packets : list Packet) (j : Z) : Prop :=
  ∃ five, get_range packets j (j + 5) = Some five ∧ is_sysmem_retirement five = true.

(** Every packet of the range satisfies [P]. *)
Definition between (packets : list Packet) (P : Packet → bool) (i j : Z) : Prop :=
  ∀ k p, i ≤ k < j → packets !! Z.to_nat k = Some p → P p = true.

(** The epilogue comes before the next 2D operation. *)
Definition draw_retired (packets : list Packet) (i : Z) : Prop :=
  ∃ j, i ≤ j ∧ retirement_at packets j ∧ between packets (λ p, negb (is_blit p)) i j.

(** The epilogue comes with nothing but clears in between. *)
Definition clear_retired (packets : list Packet) (i : Z) : Prop :=
  ∃ j, i ≤ j ∧ retirement_at packets j ∧ between packets clear_setup i j.

(** Whether the blits after the given packets are solid fills. *)
Definition solid_after (packets : list Packet) : bool :=
  foldl (λ solid p, if is_type4 p RB_A2D_BLT_CNTL
                    then negb (p.(payload).[0] .& (1 << 7) =? 0) else solid) false packets.

Definition blit_retired (packets : list Packet) (i : Z) : Prop :=
  (∃ p, packets !! Z.to_nat (i + 1) = Some p ∧ is_wfi p = true) ∧
  if solid_after (take (Z.to_nat i) packets) then clear_retired packets (i + 2)
  else retirement_at packets (i + 2).

Definition retired_at (packets : list Packet) (i : Z) : Prop :=
  ∀ p, packets !! Z.to_nat i = Some p →
    (is_draw p = true → draw_retired packets (i + 1)) ∧
    (is_blit p = true → blit_retired packets i).

(** The packets that cannot start rendering or change the blit mode. *)
Definition inert (p : Packet) : Prop :=
  is_draw p = false ∧ is_blit p = false ∧ is_type4 p RB_A2D_BLT_CNTL = false.

Lemma is_type7_count_weaken p o c : is_type7_count p o c = true → is_type7 p o = true.
Proof. unfold is_type7_count, is_type7. destruct (header p); [done|]. by intros [? _]%andb_true_iff. Qed.

Lemma type7_inert p o :
  is_type7 p o = true → o ≠ CP_DRAW_INDX_OFFSET → o ≠ opcode.BLIT → inert p.
Proof.
  unfold inert, is_draw, is_blit, is_type7, is_type4. destruct (header p); [done|].
  intros Ho Hd Hb. apply Z.eqb_eq in Ho as ->. apply Z.eqb_neq in Hd, Hb. by rewrite Hd, Hb.
Qed.

Lemma wfi_inert p : is_wfi p = true → inert p.
Proof. intros H%is_type7_count_weaken. by eapply type7_inert. Qed.

Lemma wfi_clear_setup p : is_wfi p = true → clear_setup p = true.
Proof.
  unfold is_wfi, is_type7_count, clear_setup. destruct (header p); [done|].
  intros. bool_to_prop. by subst.
Qed.

Lemma retirement_inert five p :
  is_sysmem_retirement five = true → p ∈ five → inert p.
Proof.
  unfold is_sysmem_retirement. destruct five as [|p0 [|p1 [|p2 [|p3 [|p4 [|]]]]]]; try done.
  intros H Hp. bool_to_prop. unfold addressed, plain in *. bool_to_prop.
  rewrite !elem_of_cons, elem_of_nil in Hp.
  destruct Hp as [->|[->|[->|[->|[->|[]]]]]];
    [eapply (type7_inert _ opcode.EVENT_WRITE); [eapply is_type7_count_weaken; eassumption|done|done]..
    |by apply wfi_inert].
Qed.

Section Retirement.
Context (packets : list Packet).

Lemma get_range_lookup a b l k p :
  0 ≤ a → get_range packets a b = Some l → a ≤ k < b → packets !! Z.to_nat k = Some p → p ∈ l.
Proof.
  intros Ha Hr Hk Hp. unfold get_range in Hr. case_match; [|done]. injection Hr as <-.
  apply list_elem_of_lookup. exists (Z.to_nat (k - a)). unfold slice.
  rewrite lookup_take_lt by lia. rewrite lookup_drop. rewrite <- Hp. f_equal. lia.
Qed.

(** Inert packets leave the blit mode alone. *)
Lemma solid_after_skip i n :
  0 ≤ i → 0 ≤ n →
  (∀ k p, i ≤ k < i + n → packets !! Z.to_nat k = Some p → is_type4 p RB_A2D_BLT_CNTL = false) →
  solid_after (take (Z.to_nat (i + n)) packets) = solid_after (take (Z.to_nat i) packets).
Proof.
  intros Hi Hn. pattern n. apply natlike_ind; [|clear n Hn|done].
  - by rewrite Z.add_0_r.
  - intros n Hn IH Hskip. rewrite <- IH by (intros k p Hk; apply Hskip; lia).
    replace (Z.to_nat (i + Z.succ n)) with (S (Z.to_nat (i + n))) by lia.
    destruct (packets !! Z.to_nat (i + n)) as [p|] eqn:Hp.
    + rewrite (take_S_r _ _ p) by done. unfold solid_after. rewrite foldl_app. cbn [foldl].
      by rewrite (Hskip (i + n) p) by (done || lia).
    + apply lookup_ge_None in Hp. rewrite !take_ge by lia. done.
Qed.

(** The state describes the packets before [at_index] and what follows owes
    them. *)
Definition owes (s : RetirementState) : Prop :=
  (∀ i, s.(at_index) ≤ i → retired_at packets i) ∧
  (s.(pending_draw) = true → draw_retired packets s.(at_index)) ∧
  (s.(pending_clear) = true → clear_retired packets s.(at_index)).

Lemma retired_skip i n :
  (∀ k p, i ≤ k < i + n → packets !! Z.to_nat k = Some p → inert p) →
  (∀ k, i + n ≤ k → retired_at packets k) → ∀ k, i ≤ k → retired_at packets k.
Proof.
  intros Hinert Hlater k Hk. destruct (decide (i + n ≤ k)); [by apply Hlater|].
  intros p Hp. destruct (Hinert k p) as (Hd & Hb & _); [lia|done|]. split; congruence.
Qed.

Lemma between_extend P i j :
  (∀ p, packets !! Z.to_nat i = Some p → P p = true) → between packets P (i + 1) j →
  between packets P i j.
Proof.
  intros Hi Hj k p Hk Hp. destruct (decide (k = i)) as [->|]; [by apply Hi|].
  apply (Hj k); [lia|done].
Qed.

Hypothesis Hlen : len packets ≤ U32_MAX.

(** What holds of the state before every iteration. *)
Definition tracks (s : RetirementState) : Prop :=
  0 ≤ s.(at_index) ∧ s.(solid_blit) = solid_after (take (Z.to_nat s.(at_index)) packets).

Lemma owes_retirement s :
  0 ≤ s.(at_index) → retirement_at packets s.(at_index) →
  owes (MkRetirement false false s.(solid_blit) (s.(at_index) + 5)) → owes s.
Proof.
  intros Hi Hr (Hlater & _ & _). cbn [at_index] in Hlater. split_and!.
  - apply (retired_skip _ 5); [|done]. intros k p Hk Hp. destruct Hr as (five & Hf & Hs).
    eapply retirement_inert; [done|]. by eapply get_range_lookup.
  - intros _. exists s.(at_index). split; [lia|]. split; [done|]. intros k p Hk. lia.
  - intros _. exists s.(at_index). split; [lia|]. split; [done|]. intros k p Hk. lia.
Qed.

(** A packet that is read on its own. *)
Lemma owes_next s p d solid :
  0 ≤ s.(at_index) → packets !! Z.to_nat s.(at_index) = Some p →
  is_blit p = false → (s.(pending_clear) = true → clear_setup p = true ∧ is_draw p = false) →
  d = s.(pending_draw) || is_draw p →
  owes (MkRetirement d s.(pending_clear) solid (s.(at_index) + 1)) → owes s.
Proof.
  intros Hi Hp Hb Hc -> (Hlater & Hdraw & Hclear). cbn [at_index pending_draw pending_clear] in *.
  split_and!.
  - intros i Hle. destruct (decide (i = s.(at_index))) as [->|]; [|apply Hlater; lia].
    intros q Hq. simplify_eq. split; [|congruence]. intros Hd.
    apply Hdraw. by rewrite Hd, orb_true_r.
  - intros Hd. destruct Hdraw as (j & Hj & Hr & Hbt); [by rewrite Hd|].
    exists j. split; [lia|]. split; [done|]. apply between_extend; [|done].
    intros q Hq. simplify_eq. by rewrite Hb.
  - intros Hcl. destruct (Hclear Hcl) as (j & Hj & Hr & Hbt).
    exists j. split; [lia|]. split; [done|]. apply between_extend; [|done].
    intros q Hq. simplify_eq. by apply Hc.
Qed.

(** A solid blit and its wait. *)
Lemma owes_solid s p q :
  0 ≤ s.(at_index) → packets !! Z.to_nat s.(at_index) = Some p → is_blit p = true →
  packets !! Z.to_nat (s.(at_index) + 1) = Some q → is_wfi q = true →
  s.(pending_draw) = false → solid_after (take (Z.to_nat s.(at_index)) packets) = true →
  owes (MkRetirement s.(pending_draw) true true (s.(at_index) + 2)) → owes s.
Proof.
  intros Hi Hp Hb Hq Hw Hd Hs (Hlater & _ & Hclear). cbn [at_index pending_clear] in *.
  specialize (Hclear eq_refl). destruct (wfi_inert q Hw) as (Hqd & Hqb & _). split_and!.
  - intros i Hle. destruct (decide (i = s.(at_index))) as [->|].
    + intros p' Hp'. assert (p' = p) as -> by congruence. split.
      * unfold is_draw, is_blit, is_type7 in *. destruct (header p); [done|]. bool_to_prop. by subst.
      * intros _. split; [by exists q|]. by rewrite Hs.
    + destruct (decide (i = s.(at_index) + 1)) as [->|]; [|apply Hlater; lia].
      intros q' Hq'. simplify_eq. split; congruence.
  - congruence.
  - intros _. destruct Hclear as (j & Hj & Hr & Hbt). exists j. split; [lia|]. split; [done|].
    apply between_extend; [|apply between_extend].
    + intros p' Hp'. assert (p' = p) as -> by congruence. unfold clear_setup, is_blit, is_type7 in *.
      destruct (header p); [done|]. bool_to_prop. by subst.
    + intros q' Hq'. simplify_eq. by apply wfi_clear_setup.
    + by replace (s.(at_index) + 1 + 1) with (s.(at_index) + 2) by lia.
Qed.

Lemma blit_not_draw p : is_blit p = true → is_draw p = false ∧ is_type4 p RB_A2D_BLT_CNTL = false.
Proof.
  unfold is_draw, is_blit, is_type7, is_type4. destruct (header p); [done|].
  intros ->%Z.eqb_eq. done.
Qed.

(** A sampled blit, its wait and its own epilogue. *)
Lemma sampled_inert i q five :
  0 ≤ i → packets !! Z.to_nat (i + 1) = Some q → is_wfi q = true →
  get_range packets (i + 2) (i + 7) = Some five → is_sysmem_retirement five = true →
  ∀ k p, i + 1 ≤ k < i + 1 + 6 → packets !! Z.to_nat k = Some p → inert p.
Proof.
  intros Hi Hq Hw Hf Hs k p Hk Hp. destruct (decide (k = i + 1)) as [->|].
  - simplify_eq. by apply wfi_inert.
  - eapply retirement_inert; [done|]. eapply get_range_lookup; [|done| |done]; lia.
Qed.

Lemma owes_sampled s p q five :
  0 ≤ s.(at_index) → packets !! Z.to_nat s.(at_index) = Some p → is_blit p = true →
  packets !! Z.to_nat (s.(at_index) + 1) = Some q → is_wfi q = true →
  get_range packets (s.(at_index) + 2) (s.(at_index) + 7) = Some five →
  is_sysmem_retirement five = true →
  s.(pending_draw) = false → s.(pending_clear) = false →
  solid_after (take (Z.to_nat s.(at_index)) packets) = false →
  owes (MkRetirement s.(pending_draw) s.(pending_clear) false (s.(at_index) + 7)) → owes s.
Proof.
  intros Hi Hp Hb Hq Hw Hf Hfive Hd Hc Hs (Hlater & _ & _). cbn [at_index] in *.
  split_and!; [|congruence..]. intros i Hle. destruct (decide (i = s.(at_index))) as [->|].
  - intros p' Hp'. assert (p' = p) as -> by congruence. destruct (blit_not_draw p Hb).
    split; [congruence|]. intros _. split; [by exists q|]. rewrite Hs. exists five.
    by replace (s.(at_index) + 2 + 5) with (s.(at_index) + 7) by lia.
  - eapply (retired_skip (s.(at_index) + 1) 6); [by eapply sampled_inert| |lia].
    intros k Hk. apply Hlater. lia.
Qed.

Lemma solid_after_next i p :
  0 ≤ i → packets !! Z.to_nat i = Some p →
  solid_after (take (Z.to_nat (i + 1)) packets) =
  if is_type4 p RB_A2D_BLT_CNTL then negb (p.(payload).[0] .& (1 << 7) =? 0)
  else solid_after (take (Z.to_nat i) packets).
Proof.
  intros Hi Hp. replace (Z.to_nat (i + 1)) with (S (Z.to_nat i)) by lia.
  rewrite (take_S_r _ _ p) by done. unfold solid_after. by rewrite foldl_app.
Qed.

Lemma retirement_blit_owes s s' p :
  0 ≤ s.(at_index) → packets !! Z.to_nat s.(at_index) = Some p → is_blit p = true →
  retirement_blit packets s (solid_after (take (Z.to_nat s.(at_index)) packets)) = Ok s' →
  s.(at_index) < s'.(at_index) ∧ tracks s' ∧ (owes s' → owes s).
Proof.
  intros Hi Hp Hb H. unfold retirement_blit in H. destruct (blit_not_draw p Hb) as [_ Hbt].
  destruct (s.(pending_draw)) eqn:Hd; [done|].
  destruct (packets !! Z.to_nat (s.(at_index) + 1)) as [q|] eqn:Hq; [|done].
  destruct (is_wfi q) eqn:Hw; cbn [negb] in H; [|done].
  destruct (wfi_inert q Hw) as (_ & _ & Hqt).
  pose proof (solid_after_next s.(at_index) p Hi Hp) as H1. rewrite Hbt in H1.
  pose proof (solid_after_next (s.(at_index) + 1) q ltac:(lia) Hq) as H2. rewrite Hqt in H2.
  destruct (solid_after (take (Z.to_nat s.(at_index)) packets)) eqn:Hsol.
  - injection H as <-. cbn [at_index]. split; [lia|]. split.
    + split; cbn [at_index solid_blit]; [lia|].
      replace (s.(at_index) + 2) with (s.(at_index) + 1 + 1) by lia. congruence.
    + rewrite <- Hd. by eapply owes_solid.
  - destruct (s.(pending_clear)) eqn:Hc; [done|]. step_ok H as five Hf.
    destruct (is_sysmem_retirement five) eqn:Hfive; [|done]. injection H as <-.
    cbn [at_index]. split; [lia|]. split.
    + split; cbn [at_index solid_blit]; [lia|]. rewrite <- H1.
      replace (s.(at_index) + 7) with (s.(at_index) + 1 + 6) by lia. symmetry.
      apply solid_after_skip; [lia|lia|]. intros k r Hk Hr.
      by destruct (sampled_inert s.(at_index) q five Hi Hq Hw Hf Hfive k r Hk Hr) as (_ & _ & ?).
    + intros Ho. eapply owes_sampled; [done..|]. by rewrite Hd, Hc.
Qed.

Lemma retirement_step_owes s s' :
  tracks s → retirement_step packets s = Ok s' →
  s.(at_index) < s'.(at_index) ∧ tracks s' ∧ (owes s' → owes s).
Proof.
  intros [Hi Hsolid] H. unfold retirement_step in H. step_ok H as p Hp.
  assert (s.(at_index) < len packets) by (apply lookup_lt_Some in Hp; unfold len; lia).
  replace (saturating_add U64_MAX s.(at_index) 5) with (s.(at_index) + 5) in H
    by (unfold saturating_add, U64_MAX, U32_MAX in *; lia).
  match type of H with (if ?c then _ else _) = _ => destruct c eqn:Hret end.
  { injection H as <-. cbn [at_index]. bool_to_prop.
    destruct (get_range packets s.(at_index) (s.(at_index) + 5)) as [five|] eqn:Hf; [|done].
    assert (retirement_at packets s.(at_index)) by by exists five.
    split; [lia|]. split; [|by apply owes_retirement]. split; cbn [at_index solid_blit]; [lia|].
    rewrite solid_after_skip; [done|lia|lia|]. intros k q Hk Hq.
    eapply retirement_inert; [done|]. by eapply get_range_lookup. }
  clear Hret. step_ok H as solid Hs.
  assert (solid = solid_after (take (Z.to_nat (s.(at_index) + 1)) packets)) as Hsol.
  { rewrite (solid_after_next _ p) by done. destruct (is_type4 p RB_A2D_BLT_CNTL); [|congruence].
    step_ok Hs as w Hw. injection Hs as <-. change (Z.to_nat 0) with 0%nat in Hw.
    by destruct p.(payload); simplify_eq/=. }
  clear Hs. destruct (s.(pending_clear) && negb (clear_setup p)) eqn:Hclear; [done|].
  fold (is_draw p) in H. fold (is_blit p) in H.
  destruct (is_draw p) eqn:Hd; [|destruct (is_blit p) eqn:Hb].
  - injection H as <-. cbn [at_index]. split; [lia|]. split; [by split; cbn; [lia|]|].
    apply (owes_next s p); [done|done| | |by rewrite Hd, orb_true_r].
    + destruct (is_blit p) eqn:Hb; [|done]. destruct (blit_not_draw p Hb). congruence.
    + intros Hc. rewrite Hc in Hclear. exfalso. revert Hclear Hd. unfold clear_setup, is_draw, is_type7.
      destruct (header p); [done|]. by intros ? ->%Z.eqb_eq.
  - destruct (blit_not_draw p Hb) as [_ Hbt].
    rewrite Hsol, (solid_after_next _ p), Hbt in H by done. by eapply retirement_blit_owes.
  - injection H as <-. cbn [at_index]. split; [lia|]. split; [by split; cbn; [lia|]|].
    apply (owes_next s p); [done|done|done| |by rewrite Hd, orb_false_r].
    intros Hc. rewrite Hc in Hclear. split; [|done]. by apply negb_false_iff in Hclear.
Qed.

Lemma retirement_loop_owes fuel s s' :
  tracks s → retirement_loop fuel packets s = Ok s' →
  s'.(pending_draw) = false → s'.(pending_clear) = false → owes s.
Proof.
  revert s. induction fuel as [|fuel IH]; intros s Ht H Hd Hc; cbn [retirement_loop] in H;
    (destruct (Z.ltb_spec s.(at_index) (len packets)); [|injection H as <-]); try done.
  1,3: destruct Ht; split_and!; [|congruence..]; intros i Hi p Hp;
       apply lookup_lt_Some in Hp; unfold len in *; lia.
  step_ok H as s1 H1. destruct (retirement_step_owes s s1 Ht H1) as (_ & Ht1 & Howes).
  eauto.
Qed.
End Retirement.

(** ** The rules never panic *)

Lemma memcpy_barriers_no_panic packets : validate_memcpy_barriers packets ≠ Panic.
Proof.
  apply (ensures_no_panic (λ _, True)). unfold validate_memcpy_barriers. apply ensures_bind.
  eapply ensures_mono; [apply (ensures_foldM (λ _ _, True)); [done|]|].
  - intros. unfold memcpy_step. by repeat case_match.
  - intros. by case_match.
Qed.

Lemma ccu_transitions_no_panic packets : validate_ccu_transitions packets ≠ Panic.
Proof.
  apply (ensures_no_panic (λ _, True)). unfold validate_ccu_transitions. apply ensures_bind.
  eapply ensures_mono; [apply (ensures_foldM (λ _ _, True)); [done|]|].
  - intros. unfold ccu_step.
    destruct s, (color_clean x), (depth_clean x), (color_invalidate x), (depth_invalidate x);
      try done; by case_match.
  - intros. by case_match.
Qed.

Lemma retirement_blit_no_panic packets s solid :
  ensures (λ s', s.(at_index) < s'.(at_index)) (retirement_blit packets s solid).
Proof.
  unfold retirement_blit. destruct (pending_draw s); [done|].
  match goal with |- context [negb ?c] => destruct (negb c) end; [done|].
  destruct solid; [cbn; lia|]. destruct (pending_clear s); [done|].
  apply ensures_bind, ensures_ok_or. intros five _. case_match; [done|]. cbn. lia.
Qed.

Lemma retirement_step_no_panic packets s :
  0 ≤ s.(at_index) < len packets →
  (∀ p, p ∈ packets → is_type4 p RB_A2D_BLT_CNTL = true → p.(payload) ≠ []) →
  ensures (λ s', s.(at_index) < s'.(at_index)) (retirement_step packets s).
Proof.
  intros Hi Hp. unfold retirement_step. apply ensures_bind, ensures_index; [unfold len in Hi; lia|].
  intros p Hlook%list_elem_of_lookup_2.
  match goal with |- context [if ?c then _ else _] => destruct c end; [cbn; lia|].
  apply ensures_bind, (ensures_mono (λ _, True)).
  - destruct (is_type4 p RB_A2D_BLT_CNTL) eqn:Ht; [|done].
    apply ensures_bind, ensures_index; [|done].
    specialize (Hp p Hlook Ht). destruct p.(payload); [done|]. cbn [length]. lia.
  - intros solid _. case_match; [done|]. case_match; [cbn; lia|].
    case_match; [apply retirement_blit_no_panic|cbn; lia].
Qed.

Lemma retirement_loop_no_panic packets fuel s :
  (∀ p, p ∈ packets → is_type4 p RB_A2D_BLT_CNTL = true → p.(payload) ≠ []) →
  0 ≤ s.(at_index) → len packets ≤ s.(at_index) + Z.of_nat fuel →
  retirement_loop fuel packets s ≠ Panic.
Proof.
  intros Hp. revert s. induction fuel as [|fuel IH]; intros s Hi Hf; cbn [retirement_loop];
    destruct (Z.ltb_spec s.(at_index) (len packets)); try done; [lia|].
  pose proof (retirement_step_no_panic packets s ltac:(lia) Hp) as Hs.
  destruct (retirement_step packets s) as [s'| |]; cbn [bind ensures] in *; try done.
  apply IH; lia.
Qed.

(** The loop ends within its fuel, and no index leaves the stream. *)
Lemma render_retirement_no_panic packets :
  (∀ p, p ∈ packets → is_type4 p RB_A2D_BLT_CNTL = true → p.(payload) ≠ []) →
  validate_render_retirement packets ≠ Panic.
Proof.
  intros Hp. apply (ensures_no_panic (λ _, True)). unfold validate_render_retirement.
  apply ensures_bind, ensures_eq; [|intros; by case_match].
  apply retirement_loop_no_panic; [done|done|]. unfold len. cbn. lia.
Qed.

(** A stream that passes the retirement rule retires all rendering.  Every
    2D blit is followed by a wait for idle; a sampled blit then has its own
    complete cache epilogue, and a batch of solid clears has one before
    anything but clear set-up; every draw has an epilogue before the next
    blit.  (The length hypothesis is what a 32-bit word count allows.) *)
Theorem render_retirement_sound (packets : list Packet) :
  len packets ≤ U32_MAX → validate_render_retirement packets = Ok () →
  ∀ i, 0 ≤ i → retired_at packets i.
Proof.
  intros Hlen H i Hi. unfold validate_render_retirement in H. step_ok H as s Hs.
  destruct (s.(pending_draw)) eqn:Hd; [done|]. destruct (s.(pending_clear)) eqn:Hc; [done|].
  apply retirement_loop_owes in Hs as (Hall & _); [by apply Hall|done| |done|done].
  by split.
Qed.

(** A solid clear retired by the epilogue. *)
Definition sample_event (event : Z) (word : Z) : Packet :=
  MkPacket (Type7 opcode.EVENT_WRITE 4) [event .| EVENT_WRITE_TIMESTAMP; 0; 0; 1] word.
Definition sample_clear : list Packet :=
  [MkPacket (Type4 RB_A2D_BLT_CNTL 1) [0x80] 0; MkPacket (Type7 opcode.BLIT 1) [3] 2;
   MkPacket (Type7 opcode.WAIT_FOR_IDLE 0) [] 4;
   sample_event EVENT_CCU_FLUSH_COLOR_TS 5; sample_event EVENT_CCU_FLUSH_DEPTH_TS 10;
   MkPacket (Type7 opcode.EVENT_WRITE 1) [EVENT_CCU_INVALIDATE_COLOR] 15;
   MkPacket (Type7 opcode.EVENT_WRITE 1) [EVENT_CCU_INVALIDATE_DEPTH] 17;
   MkPacket (Type7 opcode.WAIT_FOR_IDLE 0) [] 19].

Lemma render_retirement_sound_witness : retired_at sample_clear 1.
Proof. apply render_retirement_sound; [by vm_compute|by vm_compute|lia]. Defined.
