(* ===== verification/SubmitPacketFacts.v ===== *)
(** * What the packet allowlist lets through

    [packet_fields] is the table of GPU addresses in the commands of the
    dialect, read off the register or opcode.  A packet that passes the
    allowlist contributes exactly those address fields, and its payload has
    the length its readers rely on. *)
From S2P Require Import Prelude F32 Pm4 ImageLayout ShaderPack SubmitWire SubmitTypes SubmitPackets.

Definition attachment_field (word access : Z) (image : bool) (size : option Z) : AddressField :=
  MkAddressField word access image size GpuVa64 AttachmentSource None None.

Definition shader_field (word : Z) (stage : ShaderStage) : AddressField :=
  MkAddressField word ACCESS_READ false None GpuVa64 (CanonicalShaderSource stage) None None.

(** The addresses a register write carries. *)
Definition type4_fields (register : Z) (payload : list Z) (w : Z) : list AddressField :=
  if register =? RB_A2D_DEST_BUFFER_BASE then [attachment_field (w + 1) ACCESS_WRITE true None]
  else if register =? TPL1_A2D_SRC_TEXTURE_BASE then [attachment_field (w + 1) ACCESS_READ true None]
  else if register =? RB_MRT_BASE then [attachment_field (w + 1) ACCESS_WRITE false None]
  else if register =? VFD_VERTEX_BUFFER_BASE then [attachment_field (w + 1) ACCESS_READ false None]
  else if register =? SP_PS_SAMPLER_BASE then [attachment_field (w + 1) ACCESS_READ false (Some 16)]
  else if register =? SP_PS_TEXMEMOBJ_BASE then [attachment_field (w + 1) ACCESS_READ false (Some 64)]
  else if register =? SP_VS_PROGRAM_COUNTER_OFFSET then [shader_field (w + 2) VertexStage]
  else if register =? SP_PS_PROGRAM_COUNTER_OFFSET then [shader_field (w + 2) FragmentStage]
  else if (register =? RB_DEPTH_BUFFER_INFO) && negb (eqs payload (replicate 6 0)) then
    [attachment_field (w + 4) (ACCESS_READ .| ACCESS_WRITE) false None]
  else [].

(** The addresses a command carries. *)
Definition type7_fields (opcode : Z) (payload : list Z) (w : Z) : list AddressField :=
  let p := λ i, payload.[i] in
  if opcode =? opcode.EVENT_WRITE then
    if len payload =? 4 then [attachment_field (w + 2) ACCESS_WRITE false (Some 4)] else []
  else if opcode =? CP_MEMCPY then
    [attachment_field (w + 2) ACCESS_READ false (Some (p 0%nat * 4));
     attachment_field (w + 4) ACCESS_WRITE false (Some (p 0%nat * 4))]
  else if opcode =? CP_MEM_WRITE then
    [attachment_field (w + 1) ACCESS_WRITE false (Some 80);
     MkAddressField (w + 7) ACCESS_READ false None GpuVa49TexDescriptor AttachmentSource None None]
    ++ (if is_nv12_descriptor (p 2%nat) then [attachment_field (w + 10) ACCESS_READ false None] else [])
  else if opcode =? CP_LOAD_STATE6_GEOM then
    if len payload =? 3 then [shader_field (w + 2) VertexStage] else []
  else if opcode =? CP_LOAD_STATE6_FRAG then
    if len payload =? 3 then
      let block := (p 0%nat >> 18) .& 0xf in
      if block =? 12 then [shader_field (w + 2) FragmentStage]
      else [attachment_field (w + 2) ACCESS_READ false
              (Some (if (p 0%nat >> 14) .& 3 =? 0 then 16 else 64))]
    else []
  else if opcode =? CP_DRAW_INDX_OFFSET then
    if len payload =? 7 then
      [attachment_field (w + 5) ACCESS_READ false
         (Some (p 6%nat * (if p 0%nat =? 0x404 then 2 else 4)))]
    else []
  else [].

Definition packet_fields (packet : Packet) : list AddressField :=
  match packet.(header) with
  | Type4 register _ => type4_fields register packet.(payload) packet.(word_offset)
  | Type7 opcode _ => type7_fields opcode packet.(payload) packet.(word_offset)
  end.

(** Payload lengths that later checks rely on. *)
Definition type4_len (register : Z) : option Z :=
  if one_of register [RB_A2D_BLT_CNTL; GRAS_A2D_BLT_CNTL; SP_A2D_OUTPUT_INFO;
       RB_A2D_DEST_BUFFER_INFO; RB_A2D_DEST_BUFFER_PITCH; TPL1_A2D_SRC_TEXTURE_PITCH;
       TPL1_A2D_SRC_TEXTURE_SIZE] then Some 1
  else if one_of register [GRAS_A2D_DEST_TL; GRAS_A2D_SCISSOR_TL; RB_MRT_PITCH;
       GRAS_SC_WINDOW_SCISSOR_TL; VFD_VERTEX_BUFFER_SIZE; VFD_INDEX_OFFSET;
       RB_A2D_DEST_BUFFER_BASE; TPL1_A2D_SRC_TEXTURE_BASE; RB_MRT_BASE; VFD_VERTEX_BUFFER_BASE;
       SP_PS_SAMPLER_BASE; SP_PS_TEXMEMOBJ_BASE] then Some 2
  else if one_of register [GRAS_A2D_SRC_XMIN] then Some 4
  else if one_of register [RB_DEPTH_BUFFER_INFO; GRAS_CL_VIEWPORT_XOFFSET] then Some 6
  else if one_of register [SP_VS_PROGRAM_COUNTER_OFFSET; SP_PS_PROGRAM_COUNTER_OFFSET] then Some 7
  else None.

(** ** Register writes *)

Lemma one_of_inv x l : one_of x l = true → x ∈ l.
Proof.
  unfold one_of. intros (y & Hy & ->%Z.eqb_eq)%existsb_exists. by apply list_elem_of_In.
Qed.

Lemma exact_Ok l e u : exact l e = Ok u ↔ l = e.
Proof. unfold exact. case_bool_decide; destruct u; naive_solver. Qed.

Lemma add_or_panic_Ok {E} m a b c : add_or_panic (E:=E) m a b = Ok c ↔ c = a + b ∧ a + b ≤ m.
Proof. unfold add_or_panic. destruct (Z.leb_spec (a + b) m); naive_solver lia. Qed.
#[export] Hint Rewrite exact_Ok @add_or_panic_Ok : outcome.

(** The claim about one arm, for a register known to be in a list. *)
Definition type4_arm (register : Z) (payload : list Z) (w : Z) (before after : list AddressField) : Prop :=
  after = before ++ type4_fields register payload w ∧
  ∀ n, type4_len register = Some n → len payload = n.

(** An arm that records no address. *)
Lemma type4_plain register payload w l registers count :
  one_of register registers && (len payload =? count) = true →
  forallb (λ r, bool_decide (type4_fields r payload w = [])
                && match type4_len r with Some n => n =? count | None => true end) registers = true →
  type4_arm register payload w l l.
Proof.
  intros [Hr%one_of_inv Hn%Z.eqb_eq]%andb_true_iff Hall. rewrite forallb_forall in Hall.
  specialize (Hall register (proj1 (list_elem_of_In _ _) Hr)). bool_to_prop. split.
  - match goal with H : type4_fields _ _ _ = [] |- _ => by rewrite H, app_nil_r end.
  - intros n Hl. rewrite Hl in *. bool_to_prop. congruence.
Qed.

(** An arm of variable length. *)
Lemma type4_free register payload w l registers :
  one_of register registers = true →
  forallb (λ r, bool_decide (type4_fields r payload w = []) && bool_decide (type4_len r = None))
    registers = true →
  type4_arm register payload w l l.
Proof.
  intros Hr%one_of_inv Hall. rewrite forallb_forall in Hall.
  specialize (Hall register (proj1 (list_elem_of_In _ _) Hr)). bool_to_prop.
  split; [|congruence].
  match goal with H : type4_fields _ _ _ = [] |- _ => by rewrite H, app_nil_r end.
Qed.

(** An arm that records an address. *)
Lemma type4_address register payload w l r count f :
  one_of register [r] && (len payload =? count) = true →
  type4_len r = Some count → type4_fields r payload w = [f] →
  type4_arm register payload w l (l ++ [f]).
Proof.
  intros [Hr%one_of_inv%list_elem_of_singleton Hn%Z.eqb_eq]%andb_true_iff Hl Hf. subst r.
  split; [by rewrite Hf|]. intros n Hn'. congruence.
Qed.

(** Reduce a conjunction to its leading register and length test. *)
Ltac peel Hc :=
  repeat match type of Hc with
  | one_of _ _ && (len _ =? _) = true => fail 1
  | _ && _ = true => apply andb_true_iff in Hc as [Hc _]
  end.

(** Take the next arm of the chain; [Hc] says it was chosen. *)
Ltac next_arm H Hc :=
  match type of H with (if ?c then _ else _) = Ok _ => destruct c eqn:Hc end.

(** Arms that only compare the payload, and arms that record an address. *)
Ltac plain_arm H Hc :=
  peel Hc; first [injection H as <- | step_ok H as u Hu; injection H as <-];
  eapply type4_plain; [exact Hc|reflexivity].
Ltac address_arm H Hc :=
  peel Hc; let v := fresh in let Hv := fresh in
  step_ok H as v Hv; destruct Hv as [-> _]; injection H as <-;
  eapply type4_address; [exact Hc|reflexivity|reflexivity].
Ltac free_arm H Hc :=
  repeat match type of Hc with _ && _ = true => apply andb_true_iff in Hc as [Hc _] end;
  first [injection H as <-
        | match type of H with (if ?c then _ else _) = _ => destruct c; [injection H as <-|discriminate H] end];
  eapply type4_free; [exact Hc|reflexivity].

Lemma depth_info_arm register payload w l :
  one_of register [RB_DEPTH_BUFFER_INFO] && (len payload =? 6) = true →
  (eqs payload (replicate 6 0) = true → type4_arm register payload w l l) ∧
  (payload.[0] = DEPTH_FORMAT_32 →
   type4_arm register payload w l
     (l ++ [attachment_field (w + 4) (ACCESS_READ .| ACCESS_WRITE) false None])).
Proof.
  intros Hc. pose proof Hc as [Hr%one_of_inv%list_elem_of_singleton Hn%Z.eqb_eq]%andb_true_iff.
  subst register. split.
  - intros He. split; [|intros n Hl; by injection Hl as <-].
    unfold type4_fields. rewrite He. by rewrite app_nil_r.
  - intros Hp. eapply type4_address; [exact Hc|reflexivity|].
    assert (eqs payload (replicate 6 0) = false) as Hne.
    { unfold eqs. case_bool_decide; [|done]. by subst payload. }
    unfold type4_fields. rewrite Hne. reflexivity.
Qed.

Ltac depth_arm H Hc :=
  first
  [ apply andb_true_iff in Hc as [Hc He]; injection H as <-;
    by apply (proj1 (depth_info_arm _ _ _ _ Hc))
  | let v := fresh in let Hv := fresh in
    step_ok H as v Hv; destruct Hv as [-> _]; injection H as <-;
    do 5 apply andb_true_iff in Hc as [Hc _]; apply andb_true_iff in Hc as [Hc Hp];
    apply (proj2 (depth_info_arm _ _ _ _ Hc)); by apply Z.eqb_eq ].

Lemma validate_type4_spec register payload w before after :
  validate_type4 register payload w before = Ok after →
  type4_arm register payload w before after.
Proof.
  intros H. unfold validate_type4 in H.
  repeat (next_arm H Hc;
    [ solve [ plain_arm H Hc | address_arm H Hc | depth_arm H Hc | free_arm H Hc ] | clear Hc ]).
  done.
Qed.

(** ** Commands *)

Definition type7_lens (opcode : Z) : option (list Z) :=
  if opcode =? CP_MEM_WRITE then Some [22]
  else if opcode =? CP_MEMCPY then Some [5]
  else if opcode =? CP_DRAW_INDX_OFFSET then Some [3; 7]
  else None.

Definition type7_arm (opcode : Z) (payload : list Z) (w : Z) (before after : list AddressField) : Prop :=
  after = before ++ type7_fields opcode payload w ∧
  ∀ l, type7_lens opcode = Some l → len payload ∈ l.

Lemma type7_plain opcode payload w l o count :
  (opcode =? o) && (len payload =? count) = true →
  (len payload = count → type7_fields o payload w = []) →
  match type7_lens o with Some ks => one_of count ks | None => true end = true →
  type7_arm opcode payload w l l.
Proof.
  intros [->%Z.eqb_eq Hn%Z.eqb_eq]%andb_true_iff Hf Hl. split.
  - by rewrite Hf, app_nil_r.
  - intros ks Hks. rewrite Hks in Hl. rewrite Hn. by apply one_of_inv.
Qed.

Lemma type7_address opcode payload w l fs o count :
  (opcode =? o) && (len payload =? count) = true →
  (len payload = count → type7_fields o payload w = fs) →
  match type7_lens o with Some ks => one_of count ks | None => true end = true →
  type7_arm opcode payload w l (l ++ fs).
Proof.
  intros [->%Z.eqb_eq Hn%Z.eqb_eq]%andb_true_iff Hf Hl. split.
  - by rewrite Hf.
  - intros ks Hks. rewrite Hks in Hl. rewrite Hn. by apply one_of_inv.
Qed.

Ltac peel7 Hc :=
  repeat match type of Hc with
  | (_ =? _) && (len _ =? _) = true => fail 1
  | _ && _ = true => apply andb_true_iff in Hc as [Hc ?]
  end.

(** The block a fragment load names. *)
Lemma load_state_block w :
  0 ≤ w → w .& ((1 << 22) - 1) = (2 << 16) .| (12 << 18) → (w >> 18) .& 0xf = 12.
Proof.
  intros Hw H. change ((1 << 22) - 1) with (2 ^ 22 - 1) in H. rewrite (land_mask _ _ 22) in H by done.
  change ((2 << 16) .| (12 << 18)) with 3276800 in H.
  rewrite (land_mask _ 0xf 4), Z.shiftr_div_pow2 by done. zlia.
Qed.

Ltac plain7 H Hc :=
  peel7 Hc; first [injection H as <- | step_ok H as u Hu; injection H as <-];
  eapply type7_plain; [exact Hc|let Hn := fresh in intros Hn; unfold type7_fields; rewrite ?Hn; reflexivity|reflexivity].

Ltac take_addresses H :=
  inv_ok H; destruct_and?; subst; injection H as <-;
  unfold address_field, address_field_encoded, canonical_address_field;
  rewrite <- ?app_assoc; cbn [app].

Ltac address7 H Hc :=
  peel7 Hc; take_addresses H;
  eapply type7_address; [exact Hc| |reflexivity];
  let Hn := fresh in intros Hn; unfold type7_fields; rewrite ?Hn; bool_to_prop;
  first [ reflexivity
        | match goal with H : nth 0 _ 0 = _ |- _ => rewrite H; reflexivity end
        | match goal with H : nth 0 _ 0 .& _ = _ |- _ =>
            apply load_state_block in H; [rewrite H; reflexivity|assumption] end ].

Ltac simple_arms H :=
  repeat (let Hc := fresh "Hc" in
          next_arm H Hc; [ solve [ plain7 H Hc | address7 H Hc ] | clear Hc ]).

Lemma validate_type7_spec opcode payload w before after :
  Forall u32 payload → validate_type7 opcode payload w before = Ok after →
  type7_arm opcode payload w before after.
Proof.
  intros Hwords H. unfold validate_type7 in H.
  assert (0 ≤ payload.[0]) as Hp0 by (destruct Hwords as [|? ? [??]]; [done|assumption]).
  simple_arms H. next_arm H Hc.
  { peel7 Hc. step_ok H as w1 Hw1. step_ok H as w2 Hw2.
    destruct (is_nv12_descriptor payload.[2]) eqn:Hnv; take_addresses H;
      (eapply type7_address; [exact Hc| |reflexivity]; intros _; unfold type7_fields; by rewrite Hnv). }
  clear Hc. simple_arms H. next_arm H Hc; [|done].
  step_ok H as isize Hisize. step_ok H as eidx Heidx.
  match type of H with (if ?c then _ else _) = _ => destruct c; [done|] end.
  take_addresses H. eapply type7_address; [exact Hc| |reflexivity].
  intros Hn. unfold type7_fields. rewrite Hn.
  destruct (payload.[0] =? 0x404); [by injection Hisize as <-|].
  destruct (payload.[0] =? 0x804); [by injection Hisize as <-|done].
Qed.

(** ** Accepted packets *)

(** The packet passed the allowlist. *)
Definition accepted (p : Packet) : Prop := ∃ before after, validate_packet before p = Ok after.

Lemma validate_packet_spec p before after :
  Forall u32 p.(payload) → validate_packet before p = Ok after →
  after = before ++ packet_fields p.
Proof.
  intros Hwords H. unfold validate_packet, packet_fields in *. destruct (header p).
  - by apply validate_type4_spec in H as [? _].
  - by apply validate_type7_spec in H as [? _].
Qed.

Lemma accepted_type4_len p register count n :
  accepted p → p.(header) = Type4 register count → type4_len register = Some n → len p.(payload) = n.
Proof.
  intros (before & after & H) Hh Hl. unfold validate_packet in H. rewrite Hh in H.
  apply validate_type4_spec in H as [_ Hn]. auto.
Qed.

Lemma accepted_type7_len p opcode count l :
  accepted p → Forall u32 p.(payload) → p.(header) = Type7 opcode count →
  type7_lens opcode = Some l → len p.(payload) ∈ l.
Proof.
  intros (before & after & H) Hwords Hh Hl. unfold validate_packet in H. rewrite Hh in H.
  apply validate_type7_spec in H as [_ Hn]; auto.
Qed.

(** An address field lies inside its packet, after the header. *)
Definition field_within (p : Packet) (f : AddressField) : Prop :=
  p.(word_offset) < f.(af_word_offset) ∧
  f.(af_word_offset) + 2 ≤ p.(word_offset) + 1 + len p.(payload).

Ltac field_arm Hlen :=
  cbn [andb]; try match goal with |- context [negb ?c] => destruct (negb c) end;
  first [ solve [constructor]
        | specialize (Hlen _ eq_refl);
          repeat (constructor; try (unfold field_within; cbn [attachment_field shader_field af_word_offset]; lia)) ].

Lemma type4_fields_within p register count :
  accepted p → p.(header) = Type4 register count → Forall (field_within p) (packet_fields p).
Proof.
  intros Ha Hh. pose proof (λ n, accepted_type4_len p register count n Ha Hh) as Hlen.
  unfold packet_fields. rewrite Hh. unfold type4_fields.
  repeat (match goal with |- context [?a =? ?b] => destruct (Z.eqb_spec a b) as [->|_] end;
          [solve [field_arm Hlen]|]).
  constructor.
Qed.

Lemma type7_fields_within p opcode count :
  accepted p → Forall u32 p.(payload) → p.(header) = Type7 opcode count →
  Forall (field_within p) (packet_fields p).
Proof.
  intros Ha Hwords Hh. pose proof (λ l, accepted_type7_len p opcode count l Ha Hwords Hh) as Hlen.
  unfold packet_fields. rewrite Hh. unfold type7_fields.
  assert (∀ fs, Forall (λ f, p.(word_offset) < f.(af_word_offset)
                   ∧ f.(af_word_offset) ≤ p.(word_offset) + len p.(payload) - 1) fs →
          Forall (field_within p) fs) as Hbounds.
  { intros fs Hfs. eapply Forall_impl; [exact Hfs|]. intros f [??]. unfold field_within. lia. }
  apply Hbounds.
  repeat (match goal with |- context [opcode =? ?o] => destruct (Z.eqb_spec opcode o) as [->|_] end;
    [ first [ specialize (Hlen _ eq_refl); set_unfold in Hlen | clear Hlen ];
      repeat match goal with |- context [if ?c then [] else _] => destruct c eqn:?
                           | |- context [if ?c then [_] else _] => destruct c eqn:?
                           | |- context [if len ?l =? ?k then _ else _] => destruct (Z.eqb_spec (len l) k)
             end;
      solve [ repeat constructor; cbn [attachment_field shader_field af_word_offset]; bool_to_prop; lia ]
    | ]).
  constructor.
Qed.

Lemma packet_fields_within p :
  accepted p → Forall u32 p.(payload) → Forall (field_within p) (packet_fields p).
Proof.
  intros Ha Hwords. destruct (header p) eqn:Hh;
    [by eapply type4_fields_within|by eapply type7_fields_within].
Qed.

(** ** The allowlist never panics *)

Lemma ensures_add {E} (Q : Z → Prop) m a b :
  a + b ≤ m → Q (a + b) → ensures (E:=E) Q (add_or_panic m a b).
Proof. intros. unfold add_or_panic. by destruct (Z.leb_spec (a + b) m); [|lia]. Qed.

(** One arm of the chain. *)
Ltac safe_arm :=
  solve [ done
        | apply ensures_bind; apply ensures_eq; [by unfold exact; case_match|done]
        | repeat first
            [ done
            | apply ensures_bind, ensures_ok_or; intros ? ?
            | apply ensures_bind, ensures_add; [unfold U32_MAX; lia|]
            | match goal with |- ensures _ (if ?c then _ else _) => destruct c end ] ].

Lemma validate_type4_no_panic register payload w l :
  w ≤ 0x100000 → validate_type4 register payload w l ≠ Panic.
Proof.
  intros Hw. apply (ensures_no_panic (λ _, True)). unfold validate_type4.
  repeat (match goal with |- ensures _ (if ?c then _ else _) => destruct c; [safe_arm|] end).
  done.
Qed.

Lemma validate_type7_no_panic opcode payload w l :
  w ≤ 0x100000 → validate_type7 opcode payload w l ≠ Panic.
Proof.
  intros Hw. apply (ensures_no_panic (λ _, True)). unfold validate_type7.
  repeat (match goal with |- ensures _ (if ?c then _ else _) => destruct c; [try safe_arm|] end); [|done].
  apply ensures_bind, ensures_eq; [by repeat case_match|]. intros isize _. safe_arm.
Qed.

Lemma validate_packet_no_panic p l :
  p.(word_offset) ≤ 0x100000 → validate_packet l p ≠ Panic.
Proof.
  intros Hw. unfold validate_packet. destruct (header p);
    [by apply validate_type4_no_panic|by apply validate_type7_no_panic].
Qed.

(** the allowlist and the address table agree.  A packet that is accepted
    contributes exactly the address fields that [packet_fields] lists for its
    register or opcode, whatever was recorded before it; each of them lies
    inside the packet's payload; and checking never panics at the word
    offsets a submission can have. *)
Theorem allowlist_fields (p : Packet) (before : list AddressField) :
  Forall u32 p.(payload) → p.(word_offset) ≤ 0x100000 →
  validate_packet before p ≠ Panic ∧
  ∀ after, validate_packet before p = Ok after →
    after = before ++ packet_fields p ∧ Forall (field_within p) (packet_fields p).
Proof.
  intros Hwords Hoff. split; [by apply validate_packet_no_panic|]. intros after H.
  split; [by apply validate_packet_spec|].
  apply packet_fields_within; [|done]. by exists before, after.
Qed.

(** A bounded memory copy. *)
Definition sample_memcpy : Packet := MkPacket (Type7 CP_MEMCPY 5) [128; 0; 0; 0; 0] 40.

Lemma allowlist_fields_witness :
  validate_packet [] sample_memcpy ≠ Panic ∧
  ∀ after, validate_packet [] sample_memcpy = Ok after →
    after = [] ++ packet_fields sample_memcpy ∧ Forall (field_within sample_memcpy) (packet_fields sample_memcpy).
Proof.
  apply (allowlist_fields sample_memcpy []); [|by vm_compute].
  repeat (constructor; [unfold u32; lia|]). constructor.
Defined.
