(* ===== verification/SubmitA2d.v ===== *)
(** * The 2D engine: rectangles and images of a blit

    Model of [A2dState], [set_a2d_expectation] and [validate_a2d_sequences] of
    [submit.rs], with [address_by_word_mut] and [set_image_expectation], which
    the 3D checks share.  Every blit must follow complete state and names the
    image its addresses must turn out to cover. *)
From S2P Require Import Prelude Pm4 ImageLayout ShaderPack SubmitWire SubmitTypes SubmitPackets.
From S2P Require Import SubmitOrdering SubmitPacketFacts.

(** ** Address fields by word offset *)

Definition with_a2d (e : A2dExpectation) (a : AddressField) : AddressField :=
  MkAddressField a.(af_word_offset) a.(af_access) a.(requires_complete_linear_image)
    a.(af_required_size) a.(af_encoding) a.(af_source) (Some e) a.(af_image).

Definition with_image (e : ImageExpectation) (a : AddressField) : AddressField :=
  MkAddressField a.(af_word_offset) a.(af_access) a.(requires_complete_linear_image)
    a.(af_required_size) a.(af_encoding) a.(af_source) a.(af_a2d) (Some e).

Definition with_size (size : Z) (a : AddressField) : AddressField :=
  MkAddressField a.(af_word_offset) a.(af_access) a.(requires_complete_linear_image)
    (Some size) a.(af_encoding) a.(af_source) a.(af_a2d) a.(af_image).

(** [address_by_word_mut(addresses, word).ok_or(error)?]: the index of the field
    and the field.  [binary_search_by_key] runs on fields that are strictly
    ordered by word offset, so the first match is the only one. *)
Definition address_entry (addresses : list AddressField) (word : Z) (error : string)
    : outcome string (nat * AddressField) :=
  match list_find (λ a, a.(af_word_offset) = word) addresses with
  | Some entry => Ok entry
  | None => Err error
  end.

Definition set_a2d_expectation (addresses : list AddressField) (word_offset : Z)
    (expectation : A2dExpectation) : outcome string (list AddressField) :=
  let? (i, address) := address_entry addresses word_offset
    "qcom-adreno-a618: A2D address lacks relocation metadata" in
  match address.(af_a2d) with
  | Some _ => Err ("qcom-adreno-a618: A2D address is reused by multiple blits" : string)
  | None => Ok (<[i := with_a2d expectation address]> addresses)
  end.

Definition set_image_expectation (addresses : list AddressField) (word : Z)
    (expectation : ImageExpectation) : outcome string (list AddressField) :=
  let? (i, address) := address_entry addresses word
    "qcom-adreno-a618: 3D image address lacks relocation metadata" in
  match address.(af_image) with
  | Some _ => Err ("qcom-adreno-a618: 3D image address is reused" : string)
  | None => Ok (<[i := with_image expectation address]> addresses)
  end.

(** ** Blit state *)

Record A2dState : Type := MkA2dState {
  render_mode : option Z;
  solid : option bool;
  gras_control : option Z;
  rb_control : option Z;
  control_format : option LinearImageFormat;
  pixel_control : bool;
  output_format : option LinearImageFormat;
  destination_format : option (LinearImageFormat * ImageModifier);
  destination_word : option Z;
  destination_pitch : option Z;
  destination_tl : option Z;
  destination_br : option Z;
  scissor_tl : option Z;
  scissor_br : option Z;
  source_info : bool;
  source_word : option Z;
  source_pitch : option Z;
  source_size : option Z;
  source_xmin : option Z;
  source_ymin : option Z;
  source_xmax : option Z;
  source_ymax : option Z;
  clear_color : bool;
}.

(** [A2dState::default()] *)
Definition A2dState_default : A2dState := {|
  render_mode := None;
  solid := None;
  gras_control := None;
  rb_control := None;
  control_format := None;
  pixel_control := false;
  output_format := None;
  destination_format := None;
  destination_word := None;
  destination_pitch := None;
  destination_tl := None;
  destination_br := None;
  scissor_tl := None;
  scissor_br := None;
  source_info := false;
  source_word := None;
  source_pitch := None;
  source_size := None;
  source_xmin := None;
  source_ymin := None;
  source_xmax := None;
  source_ymax := None;
  clear_color := false
|}.

(** Field updates. *)
Definition set_render_mode (v : option Z) (s : A2dState) : A2dState :=
  MkA2dState
   v s.(solid) s.(gras_control) s.(rb_control) s.(control_format) s.(pixel_control)
    s.(output_format) s.(destination_format) s.(destination_word) s.(destination_pitch)
    s.(destination_tl) s.(destination_br) s.(scissor_tl) s.(scissor_br) s.(source_info)
    s.(source_word) s.(source_pitch) s.(source_size) s.(source_xmin) s.(source_ymin)
    s.(source_xmax) s.(source_ymax) s.(clear_color).
Definition set_solid (v : option bool) (s : A2dState) : A2dState :=
  MkA2dState
   s.(render_mode) v s.(gras_control) s.(rb_control) s.(control_format) s.(pixel_control)
    s.(output_format) s.(destination_format) s.(destination_word) s.(destination_pitch)
    s.(destination_tl) s.(destination_br) s.(scissor_tl) s.(scissor_br) s.(source_info)
    s.(source_word) s.(source_pitch) s.(source_size) s.(source_xmin) s.(source_ymin)
    s.(source_xmax) s.(source_ymax) s.(clear_color).
Definition set_gras_control (v : option Z) (s : A2dState) : A2dState :=
  MkA2dState
   s.(render_mode) s.(solid) v s.(rb_control) s.(control_format) s.(pixel_control)
    s.(output_format) s.(destination_format) s.(destination_word) s.(destination_pitch)
    s.(destination_tl) s.(destination_br) s.(scissor_tl) s.(scissor_br) s.(source_info)
    s.(source_word) s.(source_pitch) s.(source_size) s.(source_xmin) s.(source_ymin)
    s.(source_xmax) s.(source_ymax) s.(clear_color).
Definition set_rb_control (v : option Z) (s : A2dState) : A2dState :=
  MkA2dState
   s.(render_mode) s.(solid) s.(gras_control) v s.(control_format) s.(pixel_control)
    s.(output_format) s.(destination_format) s.(destination_word) s.(destination_pitch)
    s.(destination_tl) s.(destination_br) s.(scissor_tl) s.(scissor_br) s.(source_info)
    s.(source_word) s.(source_pitch) s.(source_size) s.(source_xmin) s.(source_ymin)
    s.(source_xmax) s.(source_ymax) s.(clear_color).
Definition set_control_format (v : option LinearImageFormat) (s : A2dState) : A2dState :=
  MkA2dState
   s.(render_mode) s.(solid) s.(gras_control) s.(rb_control) v s.(pixel_control)
    s.(output_format) s.(destination_format) s.(destination_word) s.(destination_pitch)
    s.(destination_tl) s.(destination_br) s.(scissor_tl) s.(scissor_br) s.(source_info)
    s.(source_word) s.(source_pitch) s.(source_size) s.(source_xmin) s.(source_ymin)
    s.(source_xmax) s.(source_ymax) s.(clear_color).
Definition set_pixel_control (v : bool) (s : A2dState) : A2dState :=
  MkA2dState
   s.(render_mode) s.(solid) s.(gras_control) s.(rb_control) s.(control_format) v
    s.(output_format) s.(destination_format) s.(destination_word) s.(destination_pitch)
    s.(destination_tl) s.(destination_br) s.(scissor_tl) s.(scissor_br) s.(source_info)
    s.(source_word) s.(source_pitch) s.(source_size) s.(source_xmin) s.(source_ymin)
    s.(source_xmax) s.(source_ymax) s.(clear_color).
Definition set_output_format (v : option LinearImageFormat) (s : A2dState) : A2dState :=
  MkA2dState
   s.(render_mode) s.(solid) s.(gras_control) s.(rb_control) s.(control_format)
    s.(pixel_control) v s.(destination_format) s.(destination_word) s.(destination_pitch)
    s.(destination_tl) s.(destination_br) s.(scissor_tl) s.(scissor_br) s.(source_info)
    s.(source_word) s.(source_pitch) s.(source_size) s.(source_xmin) s.(source_ymin)
    s.(source_xmax) s.(source_ymax) s.(clear_color).
Definition set_destination_format (v : option (LinearImageFormat * ImageModifier)) (s : A2dState) : A2dState :=
  MkA2dState
   s.(render_mode) s.(solid) s.(gras_control) s.(rb_control) s.(control_format)
    s.(pixel_control) s.(output_format) v s.(destination_word) s.(destination_pitch)
    s.(destination_tl) s.(destination_br) s.(scissor_tl) s.(scissor_br) s.(source_info)
    s.(source_word) s.(source_pitch) s.(source_size) s.(source_xmin) s.(source_ymin)
    s.(source_xmax) s.(source_ymax) s.(clear_color).
Definition set_destination_word (v : option Z) (s : A2dState) : A2dState :=
  MkA2dState
   s.(render_mode) s.(solid) s.(gras_control) s.(rb_control) s.(control_format)
    s.(pixel_control) s.(output_format) s.(destination_format) v s.(destination_pitch)
    s.(destination_tl) s.(destination_br) s.(scissor_tl) s.(scissor_br) s.(source_info)
    s.(source_word) s.(source_pitch) s.(source_size) s.(source_xmin) s.(source_ymin)
    s.(source_xmax) s.(source_ymax) s.(clear_color).
Definition set_destination_pitch (v : option Z) (s : A2dState) : A2dState :=
  MkA2dState
   s.(render_mode) s.(solid) s.(gras_control) s.(rb_control) s.(control_format)
    s.(pixel_control) s.(output_format) s.(destination_format) s.(destination_word) v
    s.(destination_tl) s.(destination_br) s.(scissor_tl) s.(scissor_br) s.(source_info)
    s.(source_word) s.(source_pitch) s.(source_size) s.(source_xmin) s.(source_ymin)
    s.(source_xmax) s.(source_ymax) s.(clear_color).
Definition set_destination_tl (v : option Z) (s : A2dState) : A2dState :=
  MkA2dState
   s.(render_mode) s.(solid) s.(gras_control) s.(rb_control) s.(control_format)
    s.(pixel_control) s.(output_format) s.(destination_format) s.(destination_word)
    s.(destination_pitch) v s.(destination_br) s.(scissor_tl) s.(scissor_br)
    s.(source_info) s.(source_word) s.(source_pitch) s.(source_size) s.(source_xmin)
    s.(source_ymin) s.(source_xmax) s.(source_ymax) s.(clear_color).
Definition set_destination_br (v : option Z) (s : A2dState) : A2dState :=
  MkA2dState
   s.(render_mode) s.(solid) s.(gras_control) s.(rb_control) s.(control_format)
    s.(pixel_control) s.(output_format) s.(destination_format) s.(destination_word)
    s.(destination_pitch) s.(destination_tl) v s.(scissor_tl) s.(scissor_br)
    s.(source_info) s.(source_word) s.(source_pitch) s.(source_size) s.(source_xmin)
    s.(source_ymin) s.(source_xmax) s.(source_ymax) s.(clear_color).
Definition set_scissor_tl (v : option Z) (s : A2dState) : A2dState :=
  MkA2dState
   s.(render_mode) s.(solid) s.(gras_control) s.(rb_control) s.(control_format)
    s.(pixel_control) s.(output_format) s.(destination_format) s.(destination_word)
    s.(destination_pitch) s.(destination_tl) s.(destination_br) v s.(scissor_br)
    s.(source_info) s.(source_word) s.(source_pitch) s.(source_size) s.(source_xmin)
    s.(source_ymin) s.(source_xmax) s.(source_ymax) s.(clear_color).
Definition set_scissor_br (v : option Z) (s : A2dState) : A2dState :=
  MkA2dState
   s.(render_mode) s.(solid) s.(gras_control) s.(rb_control) s.(control_format)
    s.(pixel_control) s.(output_format) s.(destination_format) s.(destination_word)
    s.(destination_pitch) s.(destination_tl) s.(destination_br) s.(scissor_tl) v
    s.(source_info) s.(source_word) s.(source_pitch) s.(source_size) s.(source_xmin)
    s.(source_ymin) s.(source_xmax) s.(source_ymax) s.(clear_color).
Definition set_source_info (v : bool) (s : A2dState) : A2dState :=
  MkA2dState
   s.(render_mode) s.(solid) s.(gras_control) s.(rb_control) s.(control_format)
    s.(pixel_control) s.(output_format) s.(destination_format) s.(destination_word)
    s.(destination_pitch) s.(destination_tl) s.(destination_br) s.(scissor_tl)
    s.(scissor_br) v s.(source_word) s.(source_pitch) s.(source_size) s.(source_xmin)
    s.(source_ymin) s.(source_xmax) s.(source_ymax) s.(clear_color).
Definition set_source_word (v : option Z) (s : A2dState) : A2dState :=
  MkA2dState
   s.(render_mode) s.(solid) s.(gras_control) s.(rb_control) s.(control_format)
    s.(pixel_control) s.(output_format) s.(destination_format) s.(destination_word)
    s.(destination_pitch) s.(destination_tl) s.(destination_br) s.(scissor_tl)
    s.(scissor_br) s.(source_info) v s.(source_pitch) s.(source_size) s.(source_xmin)
    s.(source_ymin) s.(source_xmax) s.(source_ymax) s.(clear_color).
Definition set_source_pitch (v : option Z) (s : A2dState) : A2dState :=
  MkA2dState
   s.(render_mode) s.(solid) s.(gras_control) s.(rb_control) s.(control_format)
    s.(pixel_control) s.(output_format) s.(destination_format) s.(destination_word)
    s.(destination_pitch) s.(destination_tl) s.(destination_br) s.(scissor_tl)
    s.(scissor_br) s.(source_info) s.(source_word) v s.(source_size) s.(source_xmin)
    s.(source_ymin) s.(source_xmax) s.(source_ymax) s.(clear_color).
Definition set_source_size (v : option Z) (s : A2dState) : A2dState :=
  MkA2dState
   s.(render_mode) s.(solid) s.(gras_control) s.(rb_control) s.(control_format)
    s.(pixel_control) s.(output_format) s.(destination_format) s.(destination_word)
    s.(destination_pitch) s.(destination_tl) s.(destination_br) s.(scissor_tl)
    s.(scissor_br) s.(source_info) s.(source_word) s.(source_pitch) v s.(source_xmin)
    s.(source_ymin) s.(source_xmax) s.(source_ymax) s.(clear_color).
Definition set_source_xmin (v : option Z) (s : A2dState) : A2dState :=
  MkA2dState
   s.(render_mode) s.(solid) s.(gras_control) s.(rb_control) s.(control_format)
    s.(pixel_control) s.(output_format) s.(destination_format) s.(destination_word)
    s.(destination_pitch) s.(destination_tl) s.(destination_br) s.(scissor_tl)
    s.(scissor_br) s.(source_info) s.(source_word) s.(source_pitch) s.(source_size) v
    s.(source_ymin) s.(source_xmax) s.(source_ymax) s.(clear_color).
Definition set_source_ymin (v : option Z) (s : A2dState) : A2dState :=
  MkA2dState
   s.(render_mode) s.(solid) s.(gras_control) s.(rb_control) s.(control_format)
    s.(pixel_control) s.(output_format) s.(destination_format) s.(destination_word)
    s.(destination_pitch) s.(destination_tl) s.(destination_br) s.(scissor_tl)
    s.(scissor_br) s.(source_info) s.(source_word) s.(source_pitch) s.(source_size)
    s.(source_xmin) v s.(source_xmax) s.(source_ymax) s.(clear_color).
Definition set_source_xmax (v : option Z) (s : A2dState) : A2dState :=
  MkA2dState
   s.(render_mode) s.(solid) s.(gras_control) s.(rb_control) s.(control_format)
    s.(pixel_control) s.(output_format) s.(destination_format) s.(destination_word)
    s.(destination_pitch) s.(destination_tl) s.(destination_br) s.(scissor_tl)
    s.(scissor_br) s.(source_info) s.(source_word) s.(source_pitch) s.(source_size)
    s.(source_xmin) s.(source_ymin) v s.(source_ymax) s.(clear_color).
Definition set_source_ymax (v : option Z) (s : A2dState) : A2dState :=
  MkA2dState
   s.(render_mode) s.(solid) s.(gras_control) s.(rb_control) s.(control_format)
    s.(pixel_control) s.(output_format) s.(destination_format) s.(destination_word)
    s.(destination_pitch) s.(destination_tl) s.(destination_br) s.(scissor_tl)
    s.(scissor_br) s.(source_info) s.(source_word) s.(source_pitch) s.(source_size)
    s.(source_xmin) s.(source_ymin) s.(source_xmax) v s.(clear_color).
Definition set_clear_color (v : bool) (s : A2dState) : A2dState :=
  MkA2dState
   s.(render_mode) s.(solid) s.(gras_control) s.(rb_control) s.(control_format)
    s.(pixel_control) s.(output_format) s.(destination_format) s.(destination_word)
    s.(destination_pitch) s.(destination_tl) s.(destination_br) s.(scissor_tl)
    s.(scissor_br) s.(source_info) s.(source_word) s.(source_pitch) s.(source_size)
    s.(source_xmin) s.(source_ymin) s.(source_xmax) s.(source_ymax) v.

(** [(tl & 0xffff) > (br & 0xffff) || (tl >> 16) > (br >> 16)] *)
Definition inverted (tl br : Z) : bool :=
  (br .& 0xffff <? tl .& 0xffff) || (br >> 16 <? tl >> 16).

(** The register writes the blit state follows. *)
Definition a2d_register (state : A2dState) (packet : Packet) (register : Z)
    : outcome string A2dState :=
  let at_ := λ i, index packet.(payload) i in
  if register =? RB_A2D_BLT_CNTL then
    let? w := at_ 0 in
    Ok (set_control_format (a2d_control_format w)
         (set_solid (Some (negb (w .& (1 << 7) =? 0))) (set_rb_control (Some w) state)))
  else if register =? GRAS_A2D_BLT_CNTL then
    let? w := at_ 0 in Ok (set_gras_control (Some w) state)
  else if register =? RB_A2D_PIXEL_CNTL then Ok (set_pixel_control true state)
  else if register =? SP_A2D_OUTPUT_INFO then
    let? w := at_ 0 in Ok (set_output_format (a2d_output_format w) state)
  else if register =? RB_A2D_DEST_BUFFER_INFO then
    let? w := at_ 0 in Ok (set_destination_format (a2d_destination_format w) state)
  else if register =? RB_A2D_CLEAR_COLOR_DW0 then Ok (set_clear_color true state)
  else if register =? RB_A2D_DEST_BUFFER_BASE then
    let? word := add_or_panic U32_MAX packet.(word_offset) 1 in
    Ok (set_destination_word (Some word) state)
  else if register =? RB_A2D_DEST_BUFFER_PITCH then
    let? w := at_ 0 in Ok (set_destination_pitch (checked_mul U32_MAX w 64) state)
  else if register =? GRAS_A2D_DEST_TL then
    let? tl := at_ 0 in
    let? br := at_ 1 in
    if inverted tl br
    then Err ("qcom-adreno-a618: inverted A2D destination rectangle" : string)
    else Ok (set_destination_br (Some br) (set_destination_tl (Some tl) state))
  else if register =? GRAS_A2D_SCISSOR_TL then
    let? tl := at_ 0 in
    let? br := at_ 1 in
    if inverted tl br
    then Err ("qcom-adreno-a618: inverted A2D scissor rectangle" : string)
    else Ok (set_scissor_br (Some br) (set_scissor_tl (Some tl) state))
  else if register =? TPL1_A2D_SRC_TEXTURE_INFO then Ok (set_source_info true state)
  else if register =? TPL1_A2D_SRC_TEXTURE_BASE then
    let? word := add_or_panic U32_MAX packet.(word_offset) 1 in
    Ok (set_source_word (Some word) state)
  else if register =? TPL1_A2D_SRC_TEXTURE_PITCH then
    let? w := at_ 0 in Ok (set_source_pitch (checked_mul U32_MAX (w >> 9) 64) state)
  else if register =? TPL1_A2D_SRC_TEXTURE_SIZE then
    let? w := at_ 0 in Ok (set_source_size (Some w) state)
  else if register =? GRAS_A2D_SRC_XMIN then
    let? x0 := at_ 0 in
    let? x1 := at_ 1 in
    let? y0 := at_ 2 in
    let? y1 := at_ 3 in
    if (x1 <? x0) || (y1 <? y0)
    then Err ("qcom-adreno-a618: inverted A2D source rectangle" : string)
    else Ok (set_source_ymax (Some (saturating_add U32_MAX (y1 >> 8) 1))
              (set_source_xmax (Some (saturating_add U32_MAX (x1 >> 8) 1))
                (set_source_ymin (Some (y0 >> 8)) (set_source_xmin (Some (x0 >> 8)) state))))
  else Ok state.

(** The source half of a sampled blit. *)
Definition a2d_source (state : A2dState) (addresses : list AddressField)
    : outcome string (list AddressField) :=
  if negb state.(source_info)
  then Err ("qcom-adreno-a618: A2D source info is missing" : string)
  else
    let? size := ok_or state.(source_size)
      ("qcom-adreno-a618: A2D source size is missing" : string) in
    let width := size .& 0x7fff in
    let height := size >> 15 in
    let missing : string := "qcom-adreno-a618: A2D source rectangle is missing" in
    let? required_width := ok_or state.(source_xmax) missing in
    let? required_height := ok_or state.(source_ymax) missing in
    let? source_xmin := ok_or state.(source_xmin) missing in
    let? source_ymin := ok_or state.(source_ymin) missing in
    if (width =? 0) || (height =? 0) || (required_width <=? source_xmin)
       || (required_height <=? source_ymin) || (width <? required_width)
       || (height <? required_height)
    then Err ("qcom-adreno-a618: A2D source rectangle exceeds texture" : string)
    else
      let? word := ok_or state.(source_word)
        ("qcom-adreno-a618: A2D source base is missing" : string) in
      let? pitch := ok_or state.(source_pitch)
        ("qcom-adreno-a618: A2D source pitch is missing" : string) in
      set_a2d_expectation addresses word
        (MkA2dExpectation Bgra8Unorm Linear pitch width height).

(** The [BLIT] arm: the state must be complete, and is spent by the blit. *)
Definition a2d_blit (state : A2dState) (addresses : list AddressField)
    : outcome string (A2dState * list AddressField) :=
  if negb (bool_decide (state.(render_mode) = Some 12))
     || bool_decide (state.(rb_control) = None)
     || negb (bool_decide (state.(gras_control) = state.(rb_control)))
     || bool_decide (state.(solid) = None)
     || negb state.(pixel_control)
     || bool_decide (state.(control_format) = None)
     || negb (bool_decide (state.(output_format) = state.(control_format)))
     || negb (bool_decide (fst <$> state.(destination_format) = state.(control_format)))
  then Err ("qcom-adreno-a618: incomplete A2D control state" : string)
  else
    let missing : string := "qcom-adreno-a618: A2D destination rectangle is missing" in
    let? destination_tl := ok_or state.(destination_tl) missing in
    let? destination_br := ok_or state.(destination_br) missing in
    let missing : string := "qcom-adreno-a618: A2D scissor is missing" in
    let? scissor_tl := ok_or state.(scissor_tl) missing in
    let? scissor_br := ok_or state.(scissor_br) missing in
    if (scissor_tl .& 0xffff <? destination_tl .& 0xffff)
       || (scissor_tl >> 16 <? destination_tl >> 16)
       || (destination_br .& 0xffff <? scissor_br .& 0xffff)
       || (destination_br >> 16 <? scissor_br >> 16)
    then Err ("qcom-adreno-a618: A2D scissor exceeds destination" : string)
    else
      let? word := ok_or state.(destination_word)
        ("qcom-adreno-a618: A2D destination base is missing" : string) in
      let? (format, modifier) := ok_or state.(destination_format)
        ("qcom-adreno-a618: A2D destination format is missing" : string) in
      let? pitch := ok_or state.(destination_pitch)
        ("qcom-adreno-a618: A2D destination pitch is missing" : string) in
      let? addresses := set_a2d_expectation addresses word
        (MkA2dExpectation format modifier pitch
           (saturating_add U32_MAX (destination_br .& 0xffff) 1)
           (saturating_add U32_MAX (destination_br >> 16) 1)) in
      let? addresses :=
        (if bool_decide (state.(solid) = Some false) then a2d_source state addresses
         else if negb state.(clear_color)
         then Err ("qcom-adreno-a618: A2D solid blit clear color is missing" : string)
         else Ok addresses) in
      Ok (set_render_mode state.(render_mode) A2dState_default, addresses).

Definition a2d_step (s : A2dState * list AddressField) (packet : Packet)
    : outcome string (A2dState * list AddressField) :=
  let '(state, addresses) := s in
  match packet.(header) with
  | Type4 register _ =>
    let? state := a2d_register state packet register in Ok (state, addresses)
  | Type7 opcode_value _ =>
    if opcode_value =? opcode.SET_MARKER
    then Ok (set_render_mode (head packet.(payload)) state, addresses)
    else if opcode_value =? opcode.BLIT then a2d_blit state addresses
    else Ok (state, addresses)
  end.

Definition validate_a2d_sequences (packets : list Packet) (addresses : list AddressField)
    : outcome string (list AddressField) :=
  let? (_, addresses) := foldM a2d_step (A2dState_default, addresses) packets in
  if existsb (λ a, a.(requires_complete_linear_image) && bool_decide (a.(af_a2d) = None)) addresses
  then Err ("qcom-adreno-a618: A2D address is not consumed by a complete blit" : string)
  else Ok addresses.
