(* ===== verification/SubmitSegment.v ===== *)
(** * Draw-state segments

    Model of [SegmentIndex], the shader-program and preload lookups, the
    canonical pipeline matchers and the retained-state language of
    [submit.rs].  A segment is the run of packets between two draws. *)
From S2P Require Import Prelude F32 Pm4 ImageLayout ShaderPack SubmitWire SubmitTypes.
From S2P Require Import SubmitPackets SubmitOrdering.

Record SegmentRegister : Type := MkSegmentRegister {
  sr_register : Z;
  sr_word_offset : Z;
  sr_payload : list Z;
}.

Record SegmentIndex : Type := MkSegmentIndex {
  seg_packets : list Packet;
  registers : list SegmentRegister;
}.

(** The type-4 packets of a segment, in order. *)
Definition segment_registers (packets : list Packet) : list SegmentRegister :=
  omap (λ p, match p.(header) with
             | Type4 register _ => Some (MkSegmentRegister register p.(word_offset) p.(payload))
             | Type7 _ _ => None
             end) packets.

Definition by_register (a b : SegmentRegister) : Prop := a.(sr_register) ≤ b.(sr_register).

#[export] Instance by_register_dec : RelDecision by_register.
Proof. intros a b. unfold by_register. apply _. Defined.

(** [sort_unstable_by_key(|entry| entry.register)] is a sort; the lookups below
    do not depend on the order of equal keys. *)
Definition SegmentIndex_new (packets : list Packet) : SegmentIndex :=
  MkSegmentIndex packets (merge_sort by_register (segment_registers packets)).

Definition reg (self : SegmentIndex) (wanted : Z) : option (Z * list Z) :=
  let index := partition_point (λ entry, entry.(sr_register) <? wanted) self.(registers) in
  match self.(registers) !! index with
  | Some entry =>
    if negb (entry.(sr_register) =? wanted)
       || match self.(registers) !! S index with
          | Some next => next.(sr_register) =? wanted
          | None => false
          end
    then None
    else Some (entry.(sr_word_offset), entry.(sr_payload))
  | None => None
  end.

(** ** Shader program and preload *)

(** [payload[i]] on a payload whose length was just tested. *)
Definition segment_shader_program_layout (segment : SegmentIndex) (first_exec_register : Z)
    : option (Z * Z) :=
  match reg segment first_exec_register with
  | Some (word_offset, payload) =>
    if negb (len payload =? 7) || negb (payload.[0] =? 0)
       || negb (eqs (drop 3 payload) [0; 0; 0; 0])
    then None
    else Some (word_offset, word_offset + 2)
  | None => None
  end.

Definition is_preload (wanted_opcode wanted_block : Z) (candidate : Packet) : bool :=
  is_type7 candidate wanted_opcode
  && (len candidate.(payload) =? 3)
  && ((candidate.(payload).[0] >> 14) .& 3 =? 0)
  && ((candidate.(payload).[0] >> 16) .& 3 =? 2)
  && ((candidate.(payload).[0] >> 18) .& 0xf =? wanted_block).

Definition segment_shader_preload_word (segment : SegmentIndex) (wanted_opcode wanted_block : Z)
    : option Z :=
  (λ c, c.(word_offset) + 2) <$> find (is_preload wanted_opcode wanted_block) segment.(seg_packets).

Definition relocation_is_shader (relocations : list Relocation) (word_offset : Z)
    (expected : ShaderVariant) : bool :=
  existsb (λ r, (r.(pm4_word_offset) =? word_offset)
                && bool_decide (r.(source) = CanonicalShader expected)) relocations.

Definition segment_shader_relocations_match (segment : SegmentIndex)
    (relocations : list Relocation) (variant : PipelineVariant) : bool :=
  let link := link_meta variant in
  match segment_shader_program_layout segment SP_VS_PROGRAM_COUNTER_OFFSET,
        segment_shader_program_layout segment SP_PS_PROGRAM_COUNTER_OFFSET,
        segment_shader_preload_word segment CP_LOAD_STATE6_GEOM 8,
        segment_shader_preload_word segment CP_LOAD_STATE6_FRAG 12 with
  | Some (_, vs_program), Some (_, fs_program), Some vs_preload, Some fs_preload =>
    relocation_is_shader relocations vs_program link.(vs)
    && relocation_is_shader relocations vs_preload link.(vs)
    && relocation_is_shader relocations fs_program link.(fs)
    && relocation_is_shader relocations fs_preload link.(fs)
  | _, _, _, _ => false
  end.

(** ** Retained state *)

(** Registers that may change between draws of one pipeline. *)
Definition RETAINED_REGISTERS : list Z :=
  [RB_MRT_PITCH; RB_MRT_BASE; GRAS_CL_VIEWPORT_XOFFSET; GRAS_SC_SCREEN_SCISSOR_TL;
   GRAS_SC_VIEWPORT_SCISSOR_TL; GRAS_SC_WINDOW_SCISSOR_TL; VFD_INDEX_OFFSET;
   VFD_VERTEX_BUFFER_BASE; VFD_VERTEX_BUFFER_SIZE; SP_PS_SAMPLER_BASE; SP_PS_TEXMEMOBJ_BASE].

Definition retained_packet (packet : Packet) : bool :=
  let p := packet.(payload) in
  match packet.(header) with
  | Type4 register _ => one_of register RETAINED_REGISTERS
  | Type7 opcode _ =>
    if opcode =? CP_LOAD_STATE6_GEOM then
      (len p =? 23) && (p.[0] =? (1 << 14) .| (8 << 18) .| (5 << 22)) && eqs (words p 1 3) [0; 0]
    else if opcode =? CP_LOAD_STATE6_FRAG then
      ((((len p =? 23) && (p.[0] =? (1 << 14) .| (12 << 18) .| (5 << 22)))
        || ((len p =? 35) && (p.[0] =? (1 << 14) .| (12 << 18) .| (8 << 22))))
       && eqs (words p 1 3) [0; 0])
      || ((len p =? 3)
          && ((p.[0] =? (2 << 16) .| (4 << 18) .| (1 << 22))
              || (p.[0] =? (1 << 14) .| (2 << 16) .| (4 << 18) .| (1 << 22)))
          && eqs (words p 1 3) [0; 0])
    else if opcode =? CP_MEM_WRITE then true
    else if one_of opcode [opcode.WAIT_FOR_IDLE; opcode.WAIT_MEM_WRITES] then true
    else if opcode =? opcode.EVENT_WRITE then eqs p [EVENT_CACHE_INVALIDATE]
    else false
  end.

Definition segment_matches_retained_pipeline (segment : SegmentIndex) : bool :=
  forallb retained_packet segment.(seg_packets).

(** ** Depth state *)

(** [segment.reg(wanted).map(|(_, payload)| payload)] *)
Definition payload_of (segment : SegmentIndex) (wanted : Z) : option (list Z) :=
  snd <$> reg segment wanted.

(** [reg(wanted) == Some(&[..])] *)
Definition reg_is (segment : SegmentIndex) (wanted : Z) (expected : list Z) : bool :=
  bool_decide (payload_of segment wanted = Some expected).

(** [reg(wanted).is_some_and(f)] and [reg(wanted).is_none()] *)
Definition reg_and (segment : SegmentIndex) (wanted : Z) (f : list Z → bool) : bool :=
  match payload_of segment wanted with Some p => f p | None => false end.
Definition reg_none (segment : SegmentIndex) (wanted : Z) : bool :=
  bool_decide (payload_of segment wanted = None).
Definition reg_some (segment : SegmentIndex) (wanted : Z) : bool :=
  negb (reg_none segment wanted).

Definition segment_depth_state_is_canonical (segment : SegmentIndex) : bool :=
  if negb (reg_is segment RB_DEPTH_PLANE_CNTL [0])
     || negb (reg_is segment GRAS_SU_DEPTH_PLANE_CNTL [0])
     || negb (reg_is segment RB_DEPTH_BOUND_MIN [0; F32_ONE_BITS])
     || negb (reg_is segment RB_STENCIL_BUFFER_INFO [0])
  then false
  else
    match payload_of segment RB_DEPTH_BUFFER_INFO with
    | None => false
    | Some info =>
      if eqs info (replicate 6 0) then
        reg_is segment RB_DEPTH_CNTL [0]
        && reg_is segment GRAS_SU_DEPTH_CNTL [0]
        && reg_is segment GRAS_SU_DEPTH_BUFFER_INFO [0]
        && reg_none segment RB_DEPTH_FLAG_BUFFER_BASE
      else
        (len info =? 6)
        && (info.[0] =? DEPTH_FORMAT_32)
        && negb (info.[1] =? 0) && (info.[1] <=? 0x3fff)
        && negb (info.[2] =? 0) && (info.[2] <=? 0x0fffffff)
        && eqs (drop 3 info) [0; 0; 0]
        && reg_and segment RB_DEPTH_CNTL (λ control,
             (len control =? 1) && negb (control.[0] =? 0) && safe_depth_control control.[0])
        && reg_is segment GRAS_SU_DEPTH_CNTL [1]
        && reg_is segment GRAS_SU_DEPTH_BUFFER_INFO [DEPTH_FORMAT_32]
        && reg_is segment RB_DEPTH_FLAG_BUFFER_BASE [0; 0; 0]
    end.

(** ** Canonical pipelines *)

(** [u32::from(bool)] and [usize::from(bool)] *)
Definition flag (b : bool) : Z := if b then 1 else 0.

Definition load_count (packets : list Packet) (opcode block state_type : Z) : Z :=
  len (filter (λ p, is_type7 p opcode
                    && match p.(payload) with
                       | word :: _ => ((word >> 18) .& 0xf =? block) && ((word >> 14) .& 3 =? state_type)
                       | [] => false
                       end = true) packets).

Definition type7_count (packets : list Packet) (wanted_opcode : Z) (wanted_payload : list Z) : Z :=
  len (filter (λ p, is_type7 p wanted_opcode && eqs p.(payload) wanted_payload = true) packets).

(** The first word of the last marker that has one. *)
Definition last_marker (packets : list Packet) : option Z :=
  last (omap (λ p, if is_type7 p opcode.SET_MARKER then head p.(payload) else None) packets).

Definition mrt_control (source_over : bool) : list Z :=
  if source_over then [0x7e3; 0x07010706] else [0x7e0; 0x00010001].

Definition segment_matches_pipeline (segment : SegmentIndex) (variant : PipelineVariant) : bool :=
  let packets := segment.(seg_packets) in
  let link := link_meta variant in
  let fixed := pipeline_state_meta variant in
  match shader_meta link.(vs), shader_meta link.(fs) with
  | Vertex vsm, Fragment fsm =>
    (type7_count packets opcode.SET_MARKER [1] =? 1)
    && bool_decide (last_marker packets = Some 1)
    && (type7_count packets CP_SKIP_IB2_ENABLE_GLOBAL [0] =? 1)
    && (type7_count packets CP_SKIP_IB2_ENABLE_LOCAL [1] =? 1)
    && (type7_count packets CP_SET_VISIBILITY_OVERRIDE [1] =? 1)
    && (type7_count packets CP_REG_WRITE [2; RB_RENDER_CNTL; 0x10] =? 1)
    && reg_is segment SP_UPDATE_CNTL [0xff]
    && reg_is segment GRAS_SC_CNTL [2]
    && reg_is segment GRAS_SC_BIN_CNTL [0xc00000]
    && reg_is segment RB_CNTL [0xc00000]
    && reg_is segment RB_MODE_CNTL [0x10]
    && reg_is segment RB_BIN_CONTROL2 [0]
    && reg_is segment RB_WINDOW_OFFSET [0]
    && reg_is segment RB_WINDOW_OFFSET2 [0]
    && reg_is segment SP_WINDOW_OFFSET [0]
    && reg_is segment TPL1_WINDOW_OFFSET [0]
    && reg_is segment GRAS_SC_SCREEN_SCISSOR_CNTL [0]
    && reg_is segment VPC_SO_OVERRIDE [0]
    && reg_is segment PC_STEREO_RENDERING_CNTL [0]
    && reg_is segment SP_VS_CNTL_0 [vsm.(sp_vs_cntl_0)]
    && reg_is segment SP_VS_CONST_CONFIG [vsm.(sp_vs_const_config); 0; 0; 0]
    && reg_is segment SP_PS_CONST_CONFIG [fsm.(sp_ps_const_config)]
    && reg_is segment SP_HS_CONFIG [0]
    && reg_is segment SP_DS_CONFIG [0]
    && reg_is segment SP_GS_CONFIG [0]
    && reg_is segment SP_GFX_USIZE [0]
    && reg_is segment VFD_CNTL_1 vsm.(vfd_cntl_1_6)
    && reg_is segment VFD_DEST_CNTL vsm.(vfd_dest_cntl)
    && reg_is segment SP_VS_OUTPUT_CNTL [link.(sp_vs_output_cntl)]
    && reg_is segment SP_VS_OUTPUT_REG link.(sp_vs_output_reg)
    && reg_is segment SP_VS_VPC_DEST_REG link.(sp_vs_vpc_dest_reg)
    && reg_is segment VPC_VS_CNTL [link.(vpc_vs_cntl)]
    && reg_is segment VPC_VS_CLIP_CULL_CNTL [0xffff00]
    && reg_is segment VPC_VS_CLIP_CULL_CNTL_V2 [0xffff00]
    && reg_is segment GRAS_CL_VS_CLIP_CULL_DISTANCE [0]
    && reg_is segment VPC_VS_SIV_CNTL [0xffff]
    && reg_is segment VPC_VS_SIV_CNTL_V2 [0xffff]
    && reg_is segment GRAS_SU_VS_SIV_CNTL [0]
    && reg_is segment PC_PS_CNTL [0]
    && reg_is segment VPC_PS_CNTL [link.(vpc_ps_cntl)]
    && reg_is segment PC_VS_CNTL [link.(pc_vs_cntl)]
    && reg_is segment VPC_VARYING_LM_TRANSFER_CNTL_DISABLE link.(lm_transfer_disable)
    && reg_is segment SP_PS_CNTL_0 [fsm.(sp_ps_cntl_0)]
    && reg_is segment SP_PS_WAVE_CNTL [fsm.(sp_ps_wave_cntl)]
    && reg_is segment SP_LB_PARAM_LIMIT [7]
    && reg_is segment GRAS_CL_INTERP_CNTL [fsm.(gras_cl_interp_cntl)]
    && reg_is segment RB_INTERP_CNTL [fsm.(rb_interp_cntl)]
    && reg_is segment RB_PS_INPUT_CNTL [fsm.(rb_ps_input_cntl)]
    && reg_is segment RB_PS_SAMPLEFREQ_CNTL [0]
    && reg_is segment GRAS_LRZ_PS_INPUT_CNTL [0]
    && reg_is segment GRAS_LRZ_PS_SAMPLEFREQ_CNTL [0]
    && reg_is segment VPC_VARYING_INTERP_MODE (replicate 8 0)
    && reg_is segment VPC_VARYING_REPLACE_MODE (replicate 8 0)
    && reg_is segment SP_PS_OUTPUT_REG fsm.(sp_ps_output_reg)
    && reg_is segment SP_VS_INSTR_SIZE [vsm.(sp_vs_instr_size)]
    && reg_is segment SP_VS_CONFIG [vsm.(sp_vs_config)]
    && reg_is segment SP_PS_INSTR_SIZE [fsm.(sp_ps_instr_size)]
    && reg_is segment SP_PS_CONFIG [fsm.(sp_ps_config)]
    && bool_decide (is_Some (segment_shader_program_layout segment SP_VS_PROGRAM_COUNTER_OFFSET))
    && reg_is segment SP_VS_PVT_MEM_STACK_OFFSET [0]
    && bool_decide (is_Some (segment_shader_program_layout segment SP_PS_PROGRAM_COUNTER_OFFSET))
    && reg_is segment SP_PS_PVT_MEM_STACK_OFFSET [0]
    && reg_is segment SP_REG_PROG_ID_0 fsm.(sp_reg_prog_id)
    && reg_is segment SP_PS_OUTPUT_CNTL [fsm.(sp_ps_output_cntl)]
    && reg_is segment SP_PS_OUTPUT_MASK [fsm.(sp_ps_output_mask)]
    && reg_is segment RB_PS_OUTPUT_CNTL [fsm.(rb_ps_output_cntl)]
    && reg_is segment RB_PS_OUTPUT_MASK [fsm.(rb_ps_output_mask)]
    && reg_and segment SP_PS_INITIAL_TEX_LOAD_CNTL (λ p,
          first_then p fsm.(initial_tex_load_cntl) fsm.(initial_tex_load_cmd))
    && reg_is segment SP_PS_TSIZE [flag fixed.(uses_sampler)]
    && reg_is segment SP_PS_OUTPUT_REG fsm.(sp_ps_output_reg)
    && (if fixed.(uses_sampler) then
          reg_is segment SP_PS_INITIAL_TEX_INDEX_CMD [0] && reg_some segment SP_PS_SAMPLER_BASE
          && reg_some segment SP_PS_TEXMEMOBJ_BASE
        else
          reg_none segment SP_PS_INITIAL_TEX_INDEX_CMD && reg_none segment SP_PS_SAMPLER_BASE
          && reg_none segment SP_PS_TEXMEMOBJ_BASE)
    && reg_and segment VFD_VERTEX_BUFFER_SIZE (λ p, (len p =? 2) && (p.[1] =? fixed.(stride)))
    && reg_is segment VFD_FETCH_INSTR fixed.(vfd_fetch)
    && reg_is segment VFD_CNTL_0 [(len fixed.(vfd_fetch) / 2) .| ((len fixed.(vfd_fetch) / 2) << 8)]
    && reg_and segment RB_MRT_BUF_INFO (λ p,
          (len p =? 1) && bool_decide (is_Some (color_target_modifier p.[0])))
    && reg_is segment RB_MRT_BASE_GMEM [0]
    && reg_is segment RB_COLOR_FLAG_BUFFER_ADDR [0; 0; 0]
    && reg_is segment GRAS_LRZ_MRT_BUFFER_INFO_0 [FORMAT_8_8_8_8_UNORM]
    && reg_is segment RB_SRGB_CNTL [0]
    && reg_is segment SP_SRGB_CNTL [0]
    && reg_is segment GRAS_CL_ARRAY_SIZE [0]
    && reg_is segment RB_MRT_CONTROL (mrt_control fixed.(source_over))
    && reg_is segment RB_BLEND_CNTL [if fixed.(source_over) then 0xffff0001 else 0xffff0000]
    && reg_is segment SP_BLEND_CNTL [flag fixed.(source_over)]
    && reg_is segment RB_DITHER_CNTL [0]
    && reg_is segment RB_ALPHA_TEST_CNTL [0]
    && reg_is segment RB_STENCIL_CNTL [0]
    && reg_is segment GRAS_SU_STENCIL_CNTL [0]
    && reg_is segment RB_STENCIL_REF_CNTL [0]
    && reg_is segment RB_STENCIL_MASK [0; 0]
    && segment_depth_state_is_canonical segment
    && reg_is segment TPL1_RAS_MSAA_CNTL [0; 4]
    && reg_is segment GRAS_SC_RAS_MSAA_CNTL [0; 4; 0]
    && reg_is segment RB_RAS_MSAA_CNTL [0; 4; 0]
    && reg_is segment TPL1_MSAA_SAMPLE_POS_CNTL [0]
    && reg_is segment RB_RESOLVE_GMEM_BUFFER_INFO [0]
    && reg_is segment GRAS_CL_CNTL [0x80]
    && reg_and segment GRAS_CL_GUARDBAND_CLIP_ADJ (λ p,
          (len p =? 1) && (p.[0] .&~ (0x1ff .| (0x1ff << 10)) =? 0))
    && reg_and segment GRAS_SU_CNTL (λ p,
          (len p =? 1)
          && (if fixed.(stride) =? 28 then (p.[0] .&~ 0x2017 =? 0) && (p.[0] .& 0x2010 =? 0x2010)
              else if fixed.(stride) =? 40 then one_of p.[0] [0x2010; 0x2012]
              else p.[0] =? 0x2010))
    && reg_is segment GRAS_SU_POINT_MINMAX [0x100010]
    && reg_is segment GRAS_SU_POINT_SIZE [0x10]
    && reg_is segment GRAS_SU_POLY_OFFSET_SCALE [0; 0; 0]
    && reg_is segment PC_CNTL [0]
    && reg_is segment VPC_RAST_CNTL [3]
    && reg_is segment PC_DGEN_RAST_CNTL [3]
    && (load_count packets CP_LOAD_STATE6_GEOM 8 1 =? 1)
    && (load_count packets CP_LOAD_STATE6_FRAG 12 1 =? 1)
    && (load_count packets CP_LOAD_STATE6_GEOM 8 0 =? 1)
    && (load_count packets CP_LOAD_STATE6_FRAG 12 0 =? 1)
    && (load_count packets CP_LOAD_STATE6_FRAG 4 1 =? flag fixed.(uses_sampler))
    && (load_count packets CP_LOAD_STATE6_FRAG 4 0 =? flag fixed.(uses_sampler))
    && (negb fixed.(uses_sampler)
          || (reg_some segment SP_PS_SAMPLER_BASE && reg_some segment SP_PS_TEXMEMOBJ_BASE))
  | _, _ => false
  end.

Definition segment_may_match_pipeline (segment : SegmentIndex) (variant : PipelineVariant) : bool :=
  let fixed := pipeline_state_meta variant in
  match shader_meta (link_meta variant).(fs) with
  | Fragment fsm =>
    reg_and segment VFD_VERTEX_BUFFER_SIZE (λ p, (len p =? 2) && (p.[1] =? fixed.(stride)))
    && reg_is segment VFD_FETCH_INSTR fixed.(vfd_fetch)
    && reg_is segment SP_PS_TSIZE [flag fixed.(uses_sampler)]
    && reg_is segment SP_PS_OUTPUT_REG fsm.(sp_ps_output_reg)
    && reg_and segment SP_PS_INITIAL_TEX_LOAD_CNTL (λ p,
         first_then p fsm.(initial_tex_load_cntl) fsm.(initial_tex_load_cmd))
    && reg_is segment RB_MRT_CONTROL (mrt_control fixed.(source_over))
  | Vertex _ => false
  end.
