(* ===== verification/Submit3d.v ===== *)
(** * The 3D engine: state carried from draw to draw

    Model of [validate_3d_sequences] of [submit.rs].  The packets since the
    previous draw form a segment; each draw either sets up a canonical
    pipeline, target and depth state or inherits them through the restricted
    retained-state language.  One definition per phase of the loop body, in
    source order. *)
From S2P Require Import Prelude F32 Pm4 ImageLayout ShaderPack SubmitWire SubmitTypes.
From S2P Require Import SubmitPackets SubmitOrdering SubmitPacketFacts SubmitA2d SubmitSegment.
From Stdlib Require Import SpecFloat.
















(** [screen] and [viewport] are two-word arrays. *)
Record ValidatedTargetState : Type := MkTarget {
  screen0 : Z;
  screen1 : Z;
  viewport0 : Z;
  viewport1 : Z;
}.

(** The variables that live across iterations, and the address fields. *)
Record ThreeDState : Type := MkThreeD {
  segment_start : Z;
  retained_pipeline : option PipelineVariant;
  shader_state_initialized : bool;
  target_state : option ValidatedTargetState;
  depth_state_initialized : bool;
  addresses3 : list AddressField;
}.

Definition x_of (word : Z) : Z := word .& 0xffff.
Definition y_of (word : Z) : Z := word >> 16.

(** ** The pipeline of a draw *)

Definition candidate_step (segment : SegmentIndex) (relocations : list Relocation)
    (matched : option PipelineVariant) (candidate : PipelineVariant)
    : outcome string (option PipelineVariant) :=
  if segment_may_match_pipeline segment candidate
     && segment_matches_pipeline segment candidate
     && segment_shader_relocations_match segment relocations candidate
  then
    match matched with
    | Some _ => Err ("qcom-adreno-a618: ambiguous canonical 3D pipeline state" : string)
    | None => Ok (Some candidate)
    end
  else Ok matched.

Definition select_pipeline (require_canonical_pipeline : bool) (segment : SegmentIndex)
    (relocations : list Relocation) (retained : option PipelineVariant) (retained_delta : bool)
    : outcome string (option PipelineVariant) :=
  if require_canonical_pipeline then
    let? matched := foldM (candidate_step segment relocations) None ALL_PIPELINES in
    match matched with
    | Some variant => Ok (Some variant)
    | None =>
      if bool_decide (is_Some retained) && retained_delta then Ok retained
      else Err ("qcom-adreno-a618: incomplete canonical 3D pipeline state" : string)
    end
  else Ok retained.

(** Shader state is set up completely or inherited completely. *)
Definition shader_transition (segment : SegmentIndex) (initialized retained_delta : bool)
    : outcome string bool :=
  let fields :=
    [bool_decide (is_Some (segment_shader_program_layout segment SP_VS_PROGRAM_COUNTER_OFFSET));
     bool_decide (is_Some (segment_shader_program_layout segment SP_PS_PROGRAM_COUNTER_OFFSET));
     bool_decide (is_Some (segment_shader_preload_word segment CP_LOAD_STATE6_GEOM 8));
     bool_decide (is_Some (segment_shader_preload_word segment CP_LOAD_STATE6_FRAG 12))] in
  if forallb id fields then Ok true
  else if negb (forallb negb fields && initialized && retained_delta)
  then Err ("qcom-adreno-a618: incomplete shader state transition" : string)
  else Ok initialized.

(** ** The render target *)

(** [words.try_into::<[u32; 2]>()] *)
Definition pair_of (l : list Z) (error : string) : outcome string (Z * Z) :=
  match l with [a; b] => Ok (a, b) | _ => Err error end.

(** The scissor is inside the viewport, which starts at the origin. *)
Definition unsafe_scissor (s0 s1 v0 v1 : Z) : bool :=
  negb (v0 =? 0)
  || (x_of v1 <? x_of v0) || (y_of v1 <? y_of v0)
  || (x_of s1 <? x_of s0) || (y_of s1 <? y_of s0)
  || (x_of s0 <? x_of v0) || (y_of s0 <? y_of v0)
  || (x_of v1 <? x_of s1) || (y_of v1 <? y_of s1).

(** The viewport transform maps into the attachment and the depth range. *)
Definition unsafe_transform (xo xs yo ys zo zs width height : spec_float) : bool :=
  negb (forallb f32_is_finite [xo; xs; yo; ys; zo; zs])
  || f32_le xs F32_ZERO
  || f32_lt (f32_sub xo xs) F32_ZERO
  || f32_lt width (f32_add xo xs)
  || f32_lt (f32_sub yo (f32_abs ys)) F32_ZERO
  || f32_lt height (f32_add yo (f32_abs ys))
  || f32_lt (f32_sub zo (f32_abs zs)) F32_ZERO
  || f32_lt F32_ONE (f32_add zo (f32_abs zs)).

Definition new_target (segment : SegmentIndex) (pitch : list Z) (base_packet : Z)
    (clip_transform screen viewport : list Z) (addresses : list AddressField)
    : outcome string (ValidatedTargetState * list AddressField) :=
  let? (s0, s1) := pair_of screen "qcom-adreno-a618: invalid render bounds" in
  let? (v0, v1) := pair_of viewport "qcom-adreno-a618: invalid viewport scissor" in
  if unsafe_scissor s0 s1 v0 v1
  then Err ("qcom-adreno-a618: unsafe 3D scissor state" : string)
  else
    let width := f32_of_u32 (x_of v1 + 1) in
    let height := f32_of_u32 (y_of v1 + 1) in
    match f32_from_bits <$> clip_transform with
    | [xo; xs; yo; ys; zo; zs] =>
      if unsafe_transform xo xs yo ys zo zs width height
      then Err ("qcom-adreno-a618: unsafe 3D viewport transform" : string)
      else
        let? pitch0 := index pitch 0 in
        let? row_pitch := ok_or (checked_mul U32_MAX pitch0 64)
          ("qcom-adreno-a618: MRT pitch overflows" : string) in
        let? word := add_or_panic U32_MAX base_packet 1 in
        let? modifier :=
          ok_or (reg segment RB_MRT_BUF_INFO ≫= λ '(_, values), head values ≫= color_target_modifier)
            ("qcom-adreno-a618: invalid color attachment modifier" : string) in
        let? pitch1 := index pitch 1 in
        let? addresses := set_image_expectation addresses word
          {| exp_mip_levels := 1;
             exp_format := Bgra8Unorm;
             exp_modifier := modifier;
             exp_row_pitch := row_pitch;
             exp_width := saturating_add U32_MAX (v1 .& 0xffff) 1;
             exp_height := saturating_add U32_MAX (v1 >> 16) 1;
             exact_extent := true;
             pitch_align := None;
             array_pitch := Some (MkArrayPitch (pitch1 << 6) 64) |} in
        Ok (MkTarget s0 s1 v0 v1, addresses)
    | _ => Err ("qcom-adreno-a618: invalid viewport transform" : string)
    end.

Definition target_transition (segment : SegmentIndex) (target : option ValidatedTargetState)
    (retained_delta : bool) (addresses : list AddressField)
    : outcome string (ValidatedTargetState * list AddressField) :=
  match reg segment RB_MRT_PITCH, reg segment RB_MRT_BASE, reg segment GRAS_CL_VIEWPORT_XOFFSET,
        reg segment GRAS_SC_SCREEN_SCISSOR_TL, reg segment GRAS_SC_VIEWPORT_SCISSOR_TL with
  | Some (_, pitch), Some (base_packet, _), Some (_, clip_transform), Some (_, screen),
    Some (_, viewport) =>
    new_target segment pitch base_packet clip_transform screen viewport addresses
  | None, None, None, None, None =>
    if retained_delta then
      let? target := ok_or target ("qcom-adreno-a618: target state is not initialized" : string) in
      Ok (target, addresses)
    else Err ("qcom-adreno-a618: incomplete target state transition" : string)
  | _, _, _, _, _ => Err ("qcom-adreno-a618: incomplete target state transition" : string)
  end.

(** ** The depth buffer *)

Definition depth_transition (segment : SegmentIndex) (target : ValidatedTargetState)
    (retained_delta initialized : bool) (addresses : list AddressField)
    : outcome string (bool * list AddressField) :=
  match reg segment RB_DEPTH_BUFFER_INFO with
  | Some (depth_packet, depth_info) =>
    if negb (segment_depth_state_is_canonical segment)
    then Err ("qcom-adreno-a618: incomplete canonical depth state" : string)
    else if eqs depth_info (replicate 6 0) then Ok (true, addresses)
    else
      let width := saturating_add U32_MAX (target.(viewport1) .& 0xffff) 1 in
      let height := saturating_add U32_MAX (target.(viewport1) >> 16) 1 in
      let? pitch := index depth_info 1 in
      let? row_pitch := ok_or (checked_mul U32_MAX pitch 64)
        ("qcom-adreno-a618: depth pitch overflows" : string) in
      let? array := index depth_info 2 in
      let array_pitch := array << 6 in
      let? layout := ok_or (depth32_tile6_3_layout width height)
        ("qcom-adreno-a618: depth target layout overflows" : string) in
      if negb (row_pitch =? layout.(d32_row_pitch)) || negb (array_pitch =? layout.(d32_layer_size))
      then Err ("qcom-adreno-a618: depth array pitch does not match target" : string)
      else
        let? word := add_or_panic U32_MAX depth_packet 4 in
        let? addresses := set_image_expectation addresses word
          {| exp_mip_levels := 1;
             exp_format := Depth32Float;
             exp_modifier := Tile6_3Depth;
             exp_row_pitch := row_pitch;
             exp_width := width;
             exp_height := height;
             exact_extent := true;
             pitch_align := None;
             SubmitTypes.array_pitch := Some (MkArrayPitch array_pitch DEPTH32_LAYER_ALIGNMENT) |} in
        Ok (true, addresses)
  | None =>
    if negb (retained_delta && initialized)
    then Err ("qcom-adreno-a618: depth state is not initialized" : string)
    else Ok (initialized, addresses)
  end.

(** ** Scissor, vertices and descriptor *)

Definition check_window (segment : SegmentIndex) (target : ValidatedTargetState)
    : outcome string () :=
  let? (_, window) := ok_or (reg segment GRAS_SC_WINDOW_SCISSOR_TL)
    ("qcom-adreno-a618: window scissor is missing" : string) in
  let? w0 := index window 0 in
  let? w1 := index window 1 in
  if (x_of w1 <? x_of w0) || (y_of w1 <? y_of w0)
     || (x_of w0 <? x_of target.(screen0)) || (y_of w0 <? y_of target.(screen0))
     || (x_of target.(screen1) <? x_of w1) || (y_of target.(screen1) <? y_of w1)
     || (x_of target.(viewport1) <? x_of w1) || (y_of target.(viewport1) <? y_of w1)
  then Err ("qcom-adreno-a618: unsafe 3D scissor state" : string)
  else Ok ().

Definition check_vertices (segment : SegmentIndex) (packet : Packet)
    (addresses : list AddressField) : outcome string (list AddressField) :=
  let? (_, vertex_layout) := ok_or (reg segment VFD_VERTEX_BUFFER_SIZE)
    ("qcom-adreno-a618: VFD buffer layout is missing" : string) in
  let? (_, vertex_offset) := ok_or (reg segment VFD_INDEX_OFFSET)
    ("qcom-adreno-a618: VFD vertex offset is missing" : string) in
  let? size := index vertex_layout 0 in
  let? stride := index vertex_layout 1 in
  let? offset := index vertex_offset 0 in
  let? _ :=
    (if len packet.(payload) =? 3 then
       let? count := index packet.(payload) 2 in
       let? required_vertex_bytes :=
         ok_or (checked_add U32_MAX count offset ≫= λ n, checked_mul U32_MAX n stride)
           ("qcom-adreno-a618: VFD vertex span overflows" : string) in
       if negb (size =? required_vertex_bytes)
       then Err ("qcom-adreno-a618: VFD size does not match draw span" : string)
       else Ok ()
     else
       let? minimum_vertex_bytes :=
         ok_or (checked_add U32_MAX offset 1 ≫= λ n, checked_mul U32_MAX n stride)
           ("qcom-adreno-a618: indexed VFD base vertex overflows" : string) in
       if size <? minimum_vertex_bytes
       then Err ("qcom-adreno-a618: indexed VFD base vertex is out of bounds" : string)
       else Ok ()) in
  let? (vertex_base, _) := ok_or (reg segment VFD_VERTEX_BUFFER_BASE)
    ("qcom-adreno-a618: VFD buffer base is missing" : string) in
  let? word := add_or_panic U32_MAX vertex_base 1 in
  let? (i, address) := address_entry addresses word
    "qcom-adreno-a618: VFD address lacks relocation" in
  Ok (<[i := with_size size address]> addresses).

(** The inline texture descriptor form. *)
Definition is_inline_descriptor (packet : Packet) : bool :=
  is_type7 packet CP_LOAD_STATE6_FRAG && (len packet.(payload) =? 19)
  && (packet.(payload).[0] =? (1 << 14) .| (4 << 18) .| (1 << 22)).

Definition check_descriptor (segment : SegmentIndex) (addresses : list AddressField)
    : outcome string (list AddressField) :=
  match find is_inline_descriptor segment.(seg_packets) with
  | None => Ok addresses
  | Some packet =>
    let d := packet.(payload) in
    let? word := add_or_panic U32_MAX packet.(word_offset) 8 in
    set_image_expectation addresses word
      {| exp_mip_levels := ((d.[2] >> 16) .& 0xf) + 1;
         exp_format := Bgra8Unorm;
         exp_modifier := if d.[2] .& 3 =? 3 then Tile6_3Color else Linear;
         exp_row_pitch := (d.[5] >> 7) .& 0x3fffff;
         exp_width := d.[4] .& 0x7fff;
         exp_height := (d.[4] >> 15) .& 0x7fff;
         exact_extent := true;
         pitch_align := Some (d.[5] .& 0xf);
         array_pitch := Some (MkArrayPitch ((d.[6] .& 0x7fffff) << 12) 4096) |}
  end.

(** ** The loop *)

Definition validate_draw (require_canonical_pipeline : bool) (packets : list Packet)
    (relocations : list Relocation) (s : ThreeDState) (packet_index : Z) (packet : Packet)
    : outcome string ThreeDState :=
  let segment := SegmentIndex_new (slice packets s.(segment_start) packet_index) in
  let retained_delta := segment_matches_retained_pipeline segment in
  let? pipeline := select_pipeline require_canonical_pipeline segment relocations
                     s.(retained_pipeline) retained_delta in
  let? shader := shader_transition segment s.(shader_state_initialized) retained_delta in
  let? (target, addresses) :=
    target_transition segment s.(target_state) retained_delta s.(addresses3) in
  let? (depth, addresses) :=
    depth_transition segment target retained_delta s.(depth_state_initialized) addresses in
  let? _ := check_window segment target in
  let? addresses := check_vertices segment packet addresses in
  let? addresses := check_descriptor segment addresses in
  Ok (MkThreeD (packet_index + 1) pipeline shader (Some target) depth addresses).

Definition three_d_step (require_canonical_pipeline : bool) (packets : list Packet)
    (relocations : list Relocation) (s : ThreeDState) (entry : Z * Packet)
    : outcome string ThreeDState :=
  let '(packet_index, packet) := entry in
  if is_type7 packet CP_DRAW_INDX_OFFSET
  then validate_draw require_canonical_pipeline packets relocations s packet_index packet
  else Ok s.

Definition validate_3d_sequences (packets : list Packet) (addresses : list AddressField)
    (relocations : list Relocation) (require_canonical_pipeline : bool)
    : outcome string (list AddressField) :=
  let? s := foldM (three_d_step require_canonical_pipeline packets relocations)
              (MkThreeD 0 None false None false addresses) (enumerate packets) in
  Ok s.(addresses3).
