(* ===== verification/SubmitRelocate.v ===== *)
(** * Validation and relocation of a submission

    Model of the rest of [submit.rs]: [validate_texture_initialization],
    [copy_pm4], [diagnose_rejected_packet], [validate_pm4], [relocate_one],
    [image_footprint], [image_range] and [validate_and_relocate].

    The two callbacks of [validate_and_relocate] are arguments.  The caller in
    [backend.rs] passes closures that look up an attachment or a shader without
    changing anything, so they are functions here.  The build feature
    [strict-command-validation] is the argument [strict].  Vectors grow without
    failing: the [try_reserve] errors are out of scope. *)
From stdpp Require Import gmap.
From S2P Require Import Prelude F32 Pm4 ImageLayout ShaderPack SubmitWire SubmitTypes.
From S2P Require Import SubmitPackets SubmitOrdering SubmitPacketFacts SubmitA2d SubmitSegment Submit3d.

(** ** Texture state *)

(** The [location] closure: which attachment byte a state address names. *)
Definition location (decoded : DecodedSubmit) (relocations : list Relocation)
    (word field_offset : Z) : outcome string (Z * Z) :=
  let index := partition_point (λ r, r.(pm4_word_offset) <? word) relocations in
  let? relocation :=
    ok_or (match relocations !! index with
           | Some r => if r.(pm4_word_offset) =? word then Some r else None
           | None => None
           end) ("qcom-adreno-a618: texture state lacks relocation" : string) in
  match relocation.(source) with
  | CanonicalShader _ => Err ("qcom-adreno-a618: texture state is not an attachment" : string)
  | Attachment i =>
    let? r := map_err (resource decoded i)
      ("qcom-adreno-a618: texture state attachment is missing" : string) in
    let? offset :=
      ok_or (checked_add U64_MAX r.(range_offset) relocation.(resource_offset)
               ≫= λ offset, checked_sub offset field_offset)
        ("qcom-adreno-a618: invalid texture state offset" : string) in
    Ok (r.(attachment_token), offset)
  end.

(** The [CP_MEM_WRITE] arm: an image descriptor is written to memory. *)
Definition init_descriptor (decoded : DecodedSubmit) (relocations : list Relocation)
    (initialized : gset (Z * Z)) (addresses : list AddressField) (packet : Packet)
    : outcome string (gset (Z * Z) * list AddressField) :=
  let at_ := λ i, index packet.(payload) i in
  let? d2 := at_ 2 in
  let? d3 := at_ 3 in
  let? d4 := at_ 4 in
  let? d5 := at_ 5 in
  let nv12 := is_nv12_descriptor d2 in
  let width := d3 .& 0x7fff in
  let height := (d3 >> 15) .& 0x7fff in
  let? word := add_or_panic U32_MAX packet.(word_offset) 7 in
  let? addresses := set_image_expectation addresses word
    {| exp_mip_levels := if nv12 then 1 else ((d2 >> 16) .& 0xf) + 1;
       exp_format := if nv12 then Nv12Y else Bgra8Unorm;
       exp_modifier := if d2 .& 3 =? 3 then Tile6_3Color else Linear;
       exp_row_pitch := (d4 >> 7) .& 0x3fffff;
       exp_width := width;
       exp_height := height;
       exact_extent := true;
       pitch_align := Some (d4 .& 0xf);
       array_pitch := Some (MkArrayPitch ((d5 .& 0x7fffff) << 12) 4096) |} in
  let? addresses :=
    (if nv12 then
       if negb (width mod 2 =? 0) || negb (height mod 2 =? 0)
       then Err ("qcom-adreno-a618: odd NV12 extent" : string)
       else
         let? word := add_or_panic U32_MAX packet.(word_offset) 10 in
         let? d8 := at_ 8 in
         set_image_expectation addresses word
           {| exp_mip_levels := 1;
              exp_format := Nv12Uv;
              exp_modifier := Linear;
              exp_row_pitch := d8 >> 8;
              exp_width := width / 2;
              exp_height := height / 2;
              exact_extent := true;
              pitch_align := None;
              array_pitch := None |}
     else Ok addresses) in
  let? word := add_or_panic U32_MAX packet.(word_offset) 1 in
  let? place := location decoded relocations word 0 in
  Ok ({[place]} ∪ initialized, addresses).

(** The state address a packet looks up, with the offset of its field. *)
Definition state_lookup (packet : Packet) : outcome string (option (Z * Z)) :=
  let at_word := λ k offset,
    let? word := add_or_panic U32_MAX packet.(word_offset) k in Ok (Some (word, offset)) in
  match packet.(header) with
  | Type4 register _ =>
    if register =? SP_PS_TEXMEMOBJ_BASE then at_word 1 0
    else if register =? SP_PS_SAMPLER_BASE then at_word 1 64
    else Ok None
  | Type7 opcode _ =>
    if (opcode =? CP_LOAD_STATE6_FRAG) && (len packet.(payload) =? 3)
       && ((packet.(payload).[0] >> 18) .& 0xf =? 4)
    then at_word 2 (if (packet.(payload).[0] >> 14) .& 3 =? 0 then 64 else 0)
    else Ok None
  end.

Definition texture_step (decoded : DecodedSubmit) (relocations : list Relocation)
    (s : gset (Z * Z) * list AddressField) (packet : Packet)
    : outcome string (gset (Z * Z) * list AddressField) :=
  let '(initialized, addresses) := s in
  if is_type7 packet CP_MEM_WRITE
  then init_descriptor decoded relocations initialized addresses packet
  else
    let? lookup := state_lookup packet in
    match lookup with
    | None => Ok s
    | Some (word, offset) =>
      let? place := location decoded relocations word offset in
      if bool_decide (place ∈ initialized) then Ok s
      else Err ("qcom-adreno-a618: texture state lookup precedes initialization" : string)
    end.

Definition validate_texture_initialization (decoded : DecodedSubmit) (packets : list Packet)
    (addresses : list AddressField) (relocations : list Relocation)
    : outcome string (list AddressField) :=
  let? (_, addresses) := foldM (texture_step decoded relocations) (∅, addresses) packets in
  Ok addresses.

(** ** The whole stream *)

Definition copy_pm4 (decoded : DecodedSubmit) : outcome string (list Z) :=
  mapM (λ i, map_err (pm4_word decoded i)
               ("qcom-adreno-a618: PM4 table changed during decode" : string))
       (range (pm4_len decoded)).

(** The loop over the packet iterator of [diagnose_rejected_packet]; [Err tt]
    is [None]. *)
Definition rejected_packet (packet : Packet) : RejectedPacket :=
  {| rej_kind := match packet.(header) with Type4 _ _ => RejectedType4 | Type7 _ _ => RejectedType7 end;
     rej_word_offset := packet.(word_offset);
     selector := match packet.(header) with Type4 register _ => register | Type7 opcode _ => opcode end;
     payload_len := as_u32 (len packet.(payload));
     first_value := head packet.(payload) |}.

Fixpoint diagnose_loop (fuel : nat) (it : Packets) (addresses : list AddressField)
    : outcome () RejectedPacket :=
  match fuel with
  | O => Panic
  | S fuel =>
    match next it with
    | (None, _) => Err tt
    | (Some (Err _), _) => Err tt
    | (Some Panic, _) => Panic
    | (Some (Ok packet), it) =>
      match validate_packet addresses packet with
      | Err _ => Ok (rejected_packet packet)
      | Panic => Panic
      | Ok addresses => diagnose_loop fuel it addresses
      end
    end
  end.

Definition diagnose_rejected_packet (bytes : list Z) : outcome () RejectedPacket :=
  let? decoded := map_err (decode bytes) tt in
  let? words := map_err (copy_pm4 decoded) tt in
  diagnose_loop (S (length words)) (Packets_new words) [].

(** [addresses.windows(2).all(|pair| pair[0].word_offset < pair[1].word_offset)] *)
Fixpoint strictly_ordered (l : list AddressField) : bool :=
  match l with
  | a :: (b :: _) as l' => (a.(af_word_offset) <? b.(af_word_offset)) && strictly_ordered l'
  | _ => true
  end.

Definition relocation_matches (address : AddressField) (relocation : Relocation) : bool :=
  (relocation.(pm4_word_offset) =? address.(af_word_offset))
  && (relocation.(rel_access) =? address.(af_access))
  && bool_decide (relocation.(encoding) = address.(af_encoding))
  && address_source_matches address.(af_source) relocation.(source).

Definition validate_pm4 (strict : bool) (decoded : DecodedSubmit) (relocations : list Relocation)
    : outcome string (list Z * list AddressField) :=
  let? words := copy_pm4 decoded in
  let? packets := map_err (collect_packets words)
    ("qcom-adreno-a618: malformed PM4 packet stream" : string) in
  let? addresses := foldM validate_packet [] packets in
  if negb (len addresses =? len relocations)
  then Err ("qcom-adreno-a618: every GPU address must have one relocation" : string)
  else if negb (strictly_ordered addresses)
  then Err ("qcom-adreno-a618: GPU address fields are not strictly ordered" : string)
  else
    let? _ := validate_memcpy_barriers packets in
    let? _ := validate_ccu_transitions packets in
    let? _ := validate_render_retirement packets in
    let? addresses := validate_a2d_sequences packets addresses in
    let? addresses := validate_texture_initialization decoded packets addresses relocations in
    let? addresses := validate_3d_sequences packets addresses relocations strict in
    if forallb (λ '(a, r), relocation_matches a r) (zip addresses relocations)
    then Ok (words, addresses)
    else Err ("qcom-adreno-a618: relocation does not match its PM4 address field" : string).

(** ** Relocation *)

Definition relocate_one (words : list Z) (relocation : Relocation) (resource : ResolvedResource)
    : outcome string (list Z) :=
  let? end_ := ok_or (checked_add U64_MAX resource.(gpu_va) resource.(allocation_size))
    ("qcom-adreno-a618: resource GPU VA overflows" : string) in
  let? address := ok_or (checked_add U64_MAX resource.(gpu_va) relocation.(resource_offset))
    ("qcom-adreno-a618: relocated GPU VA overflows" : string) in
  let? required_end := ok_or (checked_add U64_MAX address relocation.(required_size))
    ("qcom-adreno-a618: relocated range overflows" : string) in
  if end_ <? required_end
  then Err ("qcom-adreno-a618: relocation exceeds attached allocation" : string)
  else
    let i := relocation.(pm4_word_offset) in
    let invalid : string := "qcom-adreno-a618: relocation PM4 offset is invalid" in
    match relocation.(encoding) with
    | GpuVa64 =>
      let? _ := ok_or (get_range words i (i + 2)) invalid in
      Ok (list_inserts (Z.to_nat i) [as_u32 address; as_u32 (address >> 32)] words)
    | GpuVa49TexDescriptor =>
      if negb (address .& 0x1f =? 0) || (1 << 49 <=? address)
      then Err ("qcom-adreno-a618: texture descriptor address is invalid" : string)
      else
        let? destination := ok_or (get_range words i (i + 2)) invalid in
        Ok (list_inserts (Z.to_nat i)
              [(destination.[0] .& 0x1f) .| (as_u32 address .&~ 0x1f);
               (destination.[1] .&~ 0x1ffff) .| (as_u32 (address >> 32) .& 0x1ffff)] words)
    end.

Definition image_footprint (image : LinearImage) : option Z :=
  match image.(texture) with
  | Some texture => Some texture.(total_size)
  | None =>
    match image.(img_format), image.(img_modifier) with
    | (Bgra8Unorm | Nv12Y | Nv12Uv), Linear =>
      checked_mul U64_MAX image.(img_row_pitch) image.(img_height)
    | Depth32Float, Tile6_3Depth | Bgra8Unorm, Tile6_3Color =>
      match depth32_tile6_3_layout image.(img_width) image.(img_height) with
      | Some layout =>
        if layout.(d32_row_pitch) =? image.(img_row_pitch) then Some layout.(d32_layer_size) else None
      | None => None
      end
    | _, _ => None
    end
  end.

(** [LinearImage { .., ..image }] *)
Definition with_visible (image : LinearImage) (size : Z) : LinearImage :=
  MkLinearImage image.(texture) image.(img_format) image.(img_modifier) image.(img_width)
    image.(img_height) image.(img_row_pitch) size.

(** The mip loop: the level whose range is exactly the one named. *)
Fixpoint find_level (image : LinearImage) (texture : LinearTextureLayout) (layer offset size : Z)
    (levels : list Z) : outcome () LinearImage :=
  match levels with
  | [] => Err tt
  | level :: levels =>
    let? sub := subresource texture level layer in
    if (sub.(sub_offset) =? offset) && (sub.(sub_size) =? size)
    then Ok (MkLinearImage None image.(img_format) image.(img_modifier) sub.(sub_width)
               sub.(sub_height) sub.(sub_row_pitch) sub.(sub_size))
    else find_level image texture layer offset size levels
  end.

(** [image_range]; [Err tt] is [None].  Divisions by zero panic. *)
Definition image_range (image : LinearImage) (offset size : Z) : outcome () LinearImage :=
  match image.(img_format) with
  | Nv12 uv_offset uv_size =>
    if (offset =? 0) && (size =? image.(visible_size)) then Ok image
    else
      let? y_size := mul_or_panic U64_MAX image.(img_row_pitch) image.(img_height) in
      if (offset =? 0) && (size =? y_size)
      then Ok (MkLinearImage image.(texture) Nv12Y image.(img_modifier) image.(img_width)
                 image.(img_height) image.(img_row_pitch) size)
      else if (offset =? uv_offset) && (size =? uv_size)
      then Ok (MkLinearImage image.(texture) Nv12Uv image.(img_modifier) (image.(img_width) / 2)
                 (image.(img_height) / 2) image.(img_row_pitch) size)
      else Err tt
  | _ =>
    if (offset =? 0) && (size =? image.(visible_size)) then Ok image
    else if bool_decide (image.(img_format) = Depth32Float) then
      let? layer_size := ok_or (image_footprint image) tt in
      if size =? layer_size then
        if layer_size =? 0 then Panic
        else if offset mod layer_size =? 0 then
          let? end_ := ok_or (checked_add U64_MAX offset size) tt in
          if end_ <=? image.(visible_size) then Ok (with_visible image size) else Err tt
        else Err tt
      else Err tt
    else
      let? texture := ok_or image.(texture) tt in
      if texture.(layer_stride) =? 0 then Panic
      else
        let layer := offset / texture.(layer_stride) in
        (* u32::try_from *)
        if U32_MAX <? layer then Err tt
        else if layer <? texture.(array_layers)
        then find_level image texture layer offset size (range texture.(mip_levels))
        else Err tt
  end.

(** ** Authorisation *)

Section Authorise.
Context (resolve : Z → option ResolvedResource).
Context (resolve_shader : ShaderVariant → option ResolvedResource).

(** The resource loop: the authority the submission declares, inside the
    authority of the attached object. *)
Definition authorise_resource (decoded : DecodedSubmit) (i : Z) : outcome string ResolvedResource :=
  let? wire := map_err (resource decoded i)
    ("qcom-adreno-a618: resource table is incomplete" : string) in
  let? resolved := ok_or (resolve wire.(attachment_token))
    ("qcom-adreno-a618: resource is not attached to this context" : string) in
  let? range_end := ok_or (checked_add U64_MAX wire.(range_offset) wire.(range_size))
    ("qcom-adreno-a618: resource range overflows" : string) in
  if negb (wire.(res_access) .&~ resolved.(allowed_access) =? 0)
  then Err ("qcom-adreno-a618: submit exceeds attached resource access authority" : string)
  else if resolved.(allocation_size) <? range_end
  then Err ("qcom-adreno-a618: resource range exceeds attached allocation" : string)
  else
    let? va := ok_or (checked_add U64_MAX resolved.(gpu_va) wire.(range_offset))
      ("qcom-adreno-a618: resource range GPU VA overflows" : string) in
    let? image :=
      match resolved.(linear_image) with
      | Some image => optional (image_range image wire.(range_offset) wire.(range_size))
      | None => Ok None
      end in
    Ok (MkResolvedResource resolved.(res_attachment_token) va wire.(range_size)
          wire.(res_access) image).

(** [resource.linear_image.and_then(|image| image_range(..)).ok_or(error)?] *)
Definition relocated_image (relocation : Relocation) (resource : ResolvedResource) (error : string)
    : outcome string LinearImage :=
  match resource.(linear_image) with
  | Some image =>
    map_err (image_range image relocation.(resource_offset) relocation.(required_size)) error
  | None => Err error
  end.

Definition check_a2d (address : AddressField) (relocation : Relocation)
    (resource : ResolvedResource) : outcome string () :=
  let? image := relocated_image relocation resource
    "qcom-adreno-a618: A2D address must cover one complete linear image" in
  let? row_bytes := ok_or (checked_mul U32_MAX image.(img_width) 4)
    ("qcom-adreno-a618: image row size overflows" : string) in
  let? layout_size := ok_or (image_footprint image)
    ("qcom-adreno-a618: image layout is not supported" : string) in
  if (image.(img_width) =? 0) || (image.(img_height) =? 0)
     || (image.(img_row_pitch) <? row_bytes)
     || negb (layout_size =? image.(visible_size))
     || negb (relocation.(required_size) =? image.(visible_size))
  then Err ("qcom-adreno-a618: A2D relocation does not match image layout" : string)
  else
    let? e := ok_or address.(af_a2d)
      ("qcom-adreno-a618: A2D relocation lacks semantic bounds" : string) in
    let? accessed_bytes :=
      (if bool_decide (image.(img_modifier) = Linear) then
         ok_or (checked_mul U64_MAX (saturating_sub e.(required_height) 1) e.(a2d_row_pitch)
                  ≫= λ bytes, checked_mul U64_MAX e.(required_width) 4
                  ≫= λ row, checked_add U64_MAX bytes row)
           ("qcom-adreno-a618: A2D byte range overflows" : string)
       else Ok image.(visible_size)) in
    if negb (e.(a2d_row_pitch) =? image.(img_row_pitch))
       || negb (bool_decide (e.(a2d_format) = image.(img_format)))
       || negb (bool_decide (e.(a2d_modifier) = image.(img_modifier)))
       || (e.(required_width) =? 0) || (e.(required_height) =? 0)
       || (image.(img_width) <? e.(required_width))
       || (image.(img_height) <? e.(required_height))
       || (relocation.(required_size) <? accessed_bytes)
    then Err ("qcom-adreno-a618: A2D state exceeds the authorized image layout" : string)
    else Ok ().

(** Bytes per pixel of an image's first plane. *)
Definition bytes_per_pixel (format : LinearImageFormat) : Z :=
  match format with Nv12Y => 1 | Nv12Uv => 2 | _ => 4 end.

Definition array_pitch_mismatch (image : LinearImage) (pitch : ArrayPitchExpectation) : bool :=
  let size := match image.(texture) with Some t => t.(layer_stride) | None => image.(visible_size) end in
  match checked_add U64_MAX size (pitch.(ap_alignment) - 1) with
  | Some size => negb (size .&~ (pitch.(ap_alignment) - 1) =? pitch.(ap_bytes))
  | None => true
  end.

Definition check_image (e : ImageExpectation) (relocation : Relocation)
    (resource : ResolvedResource) : outcome string () :=
  let? image := relocated_image relocation resource
    "qcom-adreno-a618: 3D image address must cover one complete linear image" in
  let? layout_size := ok_or (image_footprint image)
    ("qcom-adreno-a618: 3D image layout is not supported" : string) in
  let mismatch : string := "qcom-adreno-a618: 3D descriptor does not match attached image metadata" in
  if (image.(img_width) =? 0) || (image.(img_height) =? 0) then Err mismatch
  else
    let? row_bytes := ok_or (checked_mul U32_MAX image.(img_width) (bytes_per_pixel image.(img_format)))
      ("qcom-adreno-a618: 3D row size overflows" : string) in
    if (image.(img_row_pitch) <? row_bytes)
       || negb (layout_size =? image.(visible_size))
       || negb (relocation.(required_size) =? image.(visible_size))
       || negb (e.(exp_mip_levels) =? match image.(texture) with Some t => t.(mip_levels) | None => 1 end)
       || negb (bool_decide (e.(exp_format) = image.(img_format)))
       || negb (bool_decide (e.(exp_modifier) = image.(img_modifier)))
       || negb (e.(exp_row_pitch) =? image.(img_row_pitch))
       || (e.(exp_width) =? 0) || (e.(exp_height) =? 0)
       || (image.(img_width) <? e.(exp_width)) || (image.(img_height) <? e.(exp_height))
       || (e.(exact_extent) && (negb (e.(exp_width) =? image.(img_width))
                                || negb (e.(exp_height) =? image.(img_height))))
       || match e.(pitch_align) with
          | Some align =>
            negb (align =? if bool_decide (image.(img_modifier) = Tile6_3Color) then 2 else 0)
          | None => false
          end
       || match e.(array_pitch) with
          | Some pitch => array_pitch_mismatch image pitch
          | None => false
          end
    then Err mismatch
    else Ok ().

(** The object a relocation names, as this submission may use it. *)
Definition relocation_resource (resources : list ResolvedResource) (relocation : Relocation)
    : outcome string ResolvedResource :=
  match relocation.(source) with
  | Attachment i => ok_or (resources !! Z.to_nat i)
      ("qcom-adreno-a618: relocation resource index is invalid" : string)
  | CanonicalShader variant => ok_or (resolve_shader variant)
      ("qcom-adreno-a618: canonical shader is unavailable" : string)
  end.

(** The body of the relocation loop. *)
Definition relocation_step (resources : list ResolvedResource) (addresses : list AddressField)
    (words : list Z) (entry : Z * Relocation) : outcome string (list Z) :=
  let '(i, relocation) := entry in
  let? resource := relocation_resource resources relocation in
  if negb (relocation.(rel_access) .&~ resource.(allowed_access) =? 0)
  then Err ("qcom-adreno-a618: relocation exceeds declared resource access" : string)
  else
    let? address := index addresses i in
    if match address.(af_required_size) with
       | Some required => negb (relocation.(required_size) =? required)
       | None => false
       end
    then Err ("qcom-adreno-a618: relocation size does not match PM4 operation" : string)
    else
      let? _ := (if address.(requires_complete_linear_image)
                 then check_a2d address relocation resource else Ok ()) in
      let? _ := match address.(af_image) with
                | Some e => check_image e relocation resource
                | None => Ok ()
                end in
      relocate_one words relocation resource.

Definition validate_and_relocate (strict : bool) (bytes : list Z) : outcome string (list Z) :=
  let? decoded := map_err (decode bytes)
    ("qcom-adreno-a618: invalid A6xx submit wire" : string) in
  let? resources := mapM (authorise_resource decoded) (range (resource_len decoded)) in
  let? relocations :=
    mapM (λ i, map_err (relocation decoded i)
                 ("qcom-adreno-a618: relocation table is incomplete" : string))
         (range (relocation_len decoded)) in
  let? (words, addresses) := validate_pm4 strict decoded relocations in
  foldM (relocation_step resources addresses) words (enumerate relocations).
End Authorise.
