(* ===== verification/SubmitSegmentFacts.v ===== *)
(** * Draw-state segments: lookups and pipeline identity

    The sorted register index answers like a scan of the segment
    ([segment_reg_scan]); the pipeline prefilter never rejects what the full
    matcher accepts, and no segment matches two pipelines
    ([pipeline_selection]). *)
From S2P Require Import Prelude F32 Pm4 ImageLayout ShaderPack SubmitWire SubmitTypes.
From S2P Require Import SubmitPackets SubmitOrdering SubmitSegment Submit3d.

(** ** The register index *)

Definition has_register (wanted : Z) (e : SegmentRegister) : Prop := e.(sr_register) = wanted.

#[export] Instance has_register_dec wanted e : Decision (has_register wanted e).
Proof. unfold has_register. apply _. Defined.

Lemma filter_above wanted e l :
  wanted < e.(sr_register) → Forall (by_register e) l → filter (has_register wanted) l = [].
Proof.
  intros He. induction 1 as [|x l Hx Hl IH]; [done|].
  rewrite filter_cons_False; [done|]. unfold by_register, has_register in *. lia.
Qed.

(** The lookup on sorted entries finds the only entry of a register. *)
Lemma reg_sorted packets l wanted w p :
  StronglySorted by_register l →
  reg (MkSegmentIndex packets l) wanted = Some (w, p) ↔
  filter (has_register wanted) l = [MkSegmentRegister wanted w p].
Proof.
  intros Hs. unfold reg; cbn [registers]. induction Hs as [|e l Hs IH He]; [done|].
  cbn [partition_point]. rewrite filter_cons. destruct (Z.ltb_spec e.(sr_register) wanted).
  { rewrite decide_False by (unfold has_register; lia). exact IH. }
  clear IH. cbn [lookup list_lookup]. destruct (Z.eqb_spec e.(sr_register) wanted) as [Heq|Hne].
  2: { rewrite decide_False by done. rewrite (filter_above _ e) by (done || lia). done. }
  rewrite decide_True by done. cbn [negb orb].
  assert (e = MkSegmentRegister wanted e.(sr_word_offset) e.(sr_payload)) as Hed by (destruct e; by subst).
  destruct l as [|n l]; [rewrite Hed; naive_solver|].
  cbn [lookup list_lookup]. rewrite filter_cons.
  destruct (Z.eqb_spec n.(sr_register) wanted).
  - rewrite decide_True by done. naive_solver.
  - rewrite decide_False by done. inversion Hs; subst. inversion He; subst.
    rewrite (filter_above _ n) by (done || unfold by_register in *; lia). rewrite Hed. naive_solver.
Qed.

Lemma filter_segment_registers packets wanted :
  filter (has_register wanted) (segment_registers packets) =
  (λ p, MkSegmentRegister wanted p.(word_offset) p.(payload)) <$>
    filter (λ p, is_type4 p wanted = true) packets.
Proof.
  unfold segment_registers. induction packets as [|p l IH]; [done|]. cbn [omap list_omap].
  destruct p as [[r c|o c] pl w]; cbn [header word_offset payload].
  - destruct (decide (r = wanted)) as [->|Hne].
    + rewrite !filter_cons_True by (done || unfold is_type4; cbn; apply Z.eqb_refl).
      rewrite fmap_cons. f_equal. exact IH.
    + rewrite !filter_cons_False by (done || unfold is_type4; cbn; by rewrite Z.eqb_eq).
      exact IH.
  - rewrite (filter_cons_False _ (MkPacket _ _ _)) by done. exact IH.
Qed.

(** The answer for any sorted arrangement of the segment's register writes. *)
Lemma reg_scan packets l wanted w p :
  l ≡ₚ segment_registers packets → StronglySorted by_register l →
  reg (MkSegmentIndex packets l) wanted = Some (w, p) ↔
  ∃ q, filter (λ q, is_type4 q wanted = true) packets = [q] ∧
       w = q.(word_offset) ∧ p = q.(payload).
Proof.
  intros Hperm Hs. rewrite reg_sorted by done.
  assert (filter (has_register wanted) l ≡ₚ
    (λ p, MkSegmentRegister wanted p.(word_offset) p.(payload)) <$>
      filter (λ p, is_type4 p wanted = true) packets) as Hf
    by (rewrite <- filter_segment_registers; by rewrite Hperm).
  split.
  - intros Heq. rewrite Heq in Hf. symmetry in Hf. apply Permutation_singleton_r in Hf.
    destruct (filter _ packets) as [|q [|]]; simplify_eq/=. by exists q.
  - intros (q & Hq & -> & ->). rewrite Hq in Hf. by apply Permutation_singleton_r in Hf.
Qed.

#[export] Instance by_register_total : Total by_register.
Proof. intros a b. unfold by_register. lia. Qed.
#[export] Instance by_register_trans : Transitive by_register.
Proof. intros a b c. unfold by_register. lia. Qed.

Lemma reg_new packets wanted w p :
  reg (SegmentIndex_new packets) wanted = Some (w, p) ↔
  ∃ q, filter (λ q, is_type4 q wanted = true) packets = [q] ∧
       w = q.(word_offset) ∧ p = q.(payload).
Proof.
  apply reg_scan; [apply merge_sort_Permutation|].
  apply StronglySorted_merge_sort; apply _.
Qed.

Lemma reg_new_elem packets wanted w p :
  reg (SegmentIndex_new packets) wanted = Some (w, p) →
  ∃ q c, q ∈ packets ∧ q.(header) = Type4 wanted c ∧ w = q.(word_offset) ∧ p = q.(payload).
Proof.
  intros (q & Hq & -> & ->)%reg_new.
  assert (q ∈ filter (λ q, is_type4 q wanted = true) packets) as [Ht Hin]%list_elem_of_filter
    by (rewrite Hq; set_solver).
  unfold is_type4 in Ht. destruct (header q) as [r c|] eqn:Hh; [|done].
  apply Z.eqb_eq in Ht as ->. by exists q, c.
Qed.

(** ** Pipeline identity *)

Lemma reg_is_true segment r l : reg_is segment r l = true ↔ payload_of segment r = Some l.
Proof. unfold reg_is. apply bool_decide_eq_true. Qed.

Lemma reg_and_true segment r f :
  reg_and segment r f = true ↔ ∃ p, payload_of segment r = Some p ∧ f p = true.
Proof. unfold reg_and. destruct (payload_of segment r); naive_solver. Qed.

Lemma first_then_true p a l : first_then p a l = true ↔ p = a :: l.
Proof.
  unfold first_then, eqs. destruct p as [|x p]; [done|].
  rewrite andb_true_iff, Z.eqb_eq, bool_decide_eq_true. naive_solver.
Qed.

(** The state the prefilter looks at, as the pipeline defines it. *)
Definition pipeline_signature (variant : PipelineVariant)
    : Z * list Z * Z * list Z * list Z * list Z :=
  let fixed := pipeline_state_meta variant in
  match shader_meta (link_meta variant).(fs) with
  | Fragment fsm =>
    (fixed.(stride), fixed.(vfd_fetch), flag fixed.(uses_sampler), fsm.(sp_ps_output_reg),
     fsm.(initial_tex_load_cntl) :: fsm.(initial_tex_load_cmd), mrt_control fixed.(source_over))
  | Vertex _ => (0, [], 0, [], [], [])
  end.

(** The same, read from a segment. *)
Definition segment_signature (segment : SegmentIndex) : option (Z * list Z * Z * list Z * list Z * list Z) :=
  match payload_of segment VFD_VERTEX_BUFFER_SIZE, payload_of segment VFD_FETCH_INSTR,
        payload_of segment SP_PS_TSIZE, payload_of segment SP_PS_OUTPUT_REG,
        payload_of segment SP_PS_INITIAL_TEX_LOAD_CNTL, payload_of segment RB_MRT_CONTROL with
  | Some [_; stride], Some fetch, Some [sampler], Some output, Some load, Some mrt =>
    Some (stride, fetch, sampler, output, load, mrt)
  | _, _, _, _, _, _ => None
  end.

Lemma may_match_signature segment variant :
  segment_may_match_pipeline segment variant = true →
  segment_signature segment = Some (pipeline_signature variant).
Proof.
  unfold segment_may_match_pipeline, pipeline_signature, segment_signature.
  destruct (shader_meta _) as [|fsm]; [done|].
  rewrite !andb_true_iff, !reg_is_true, !reg_and_true.
  intros [[[[[(p & -> & Hp) ->] ->] ->] (q & -> & Hq%first_then_true)] ->]. subst q. bool_to_prop.
  destruct p as [|a [|b [|]]]; unfold len in *; simpl in *; try lia. by subst.
Qed.

Lemma pipeline_signature_inj : Inj (=) (=) pipeline_signature.
Proof. intros v1 v2. destruct v1, v2; try done; vm_compute; intros H; discriminate H. Qed.

(** The prefilter lets at most one pipeline through. *)
Lemma may_match_unique segment v1 v2 :
  segment_may_match_pipeline segment v1 = true → segment_may_match_pipeline segment v2 = true →
  v1 = v2.
Proof.
  intros H1%may_match_signature H2%may_match_signature. apply pipeline_signature_inj. congruence.
Qed.

Lemma matches_may_match segment variant :
  segment_matches_pipeline segment variant = true →
  segment_may_match_pipeline segment variant = true.
Proof.
  unfold segment_matches_pipeline, segment_may_match_pipeline.
  destruct (shader_meta (link_meta variant).(vs)) as [vsm|]; [|done].
  destruct (shader_meta (link_meta variant).(fs)) as [|fsm]; [done|]. intros H.
  repeat match type of H with
  | _ && _ = true => let H1 := fresh "Hm" in apply andb_true_iff in H as [H H1]
  end.
  rewrite !andb_true_iff. split_and!; assumption.
Qed.

(** What the full matcher and the relocations decide, without the prefilter. *)
Definition pipeline_accepts (segment : SegmentIndex) (relocations : list Relocation)
    (variant : PipelineVariant) : bool :=
  segment_matches_pipeline segment variant
  && segment_shader_relocations_match segment relocations variant.

Lemma candidate_accepts segment relocations variant :
  segment_may_match_pipeline segment variant && segment_matches_pipeline segment variant
  && segment_shader_relocations_match segment relocations variant
  = pipeline_accepts segment relocations variant.
Proof.
  unfold pipeline_accepts. destruct (segment_matches_pipeline segment variant) eqn:Hm.
  - by rewrite (matches_may_match _ _ Hm).
  - by rewrite andb_false_r.
Qed.

Lemma accepts_unique segment relocations v1 v2 :
  pipeline_accepts segment relocations v1 = true → pipeline_accepts segment relocations v2 = true →
  v1 = v2.
Proof.
  unfold pipeline_accepts. intros [H1 _]%andb_true_iff [H2 _]%andb_true_iff.
  eapply may_match_unique; by apply matches_may_match.
Qed.

Lemma candidates_kept segment relocations v l :
  v ∉ l → pipeline_accepts segment relocations v = true →
  foldM (candidate_step segment relocations) (Some v) l = Ok (Some v).
Proof.
  intros Hv Ha. induction l as [|x l IH]; [done|]. cbn [foldM]. unfold candidate_step at 1.
  rewrite candidate_accepts. destruct (pipeline_accepts segment relocations x) eqn:Hx; cbn [bind].
  - destruct Hv. rewrite (accepts_unique _ _ _ _ Ha Hx). set_solver.
  - apply IH. set_solver.
Qed.

Lemma candidates_find segment relocations l :
  NoDup l →
  foldM (candidate_step segment relocations) None l
    = Ok (find (pipeline_accepts segment relocations) l).
Proof.
  induction 1 as [|x l Hx Hl IH]; [done|]. cbn [foldM find]. unfold candidate_step at 1.
  rewrite candidate_accepts. destruct (pipeline_accepts segment relocations x) eqn:Ha; cbn [bind];
    [by apply candidates_kept|done].
Qed.

Lemma all_pipelines_NoDup : NoDup ALL_PIPELINES.
Proof. by apply (bool_decide_eq_true_1 (NoDup ALL_PIPELINES)). Qed.

(** Choosing the pipeline of a draw.  The loop over all pipelines behind the
    cheap prefilter returns exactly the pipeline that the complete matcher and
    the shader relocations accept, there is at most one, and the "ambiguous
    pipeline" error is never raised: the prefilter changes nothing. *)
Theorem pipeline_selection (segment : SegmentIndex) (relocations : list Relocation) :
  foldM (candidate_step segment relocations) None ALL_PIPELINES
    = Ok (find (pipeline_accepts segment relocations) ALL_PIPELINES) ∧
  ∀ v1 v2, pipeline_accepts segment relocations v1 = true →
           pipeline_accepts segment relocations v2 = true → v1 = v2.
Proof.
  split; [apply candidates_find, all_pipelines_NoDup|apply accepts_unique].
Qed.

(** The register index is a faithful accelerator.  For any arrangement of the
    segment's register writes that is sorted by register (whatever the
    unstable sort does with equal keys), a lookup returns the one packet of
    that register, and nothing when there is none or more than one. *)
Theorem segment_reg_scan (packets : list Packet) (l : list SegmentRegister) (wanted w : Z) (p : list Z) :
  l ≡ₚ segment_registers packets → StronglySorted by_register l →
  reg (MkSegmentIndex packets l) wanted = Some (w, p) ↔
  ∃ q, filter (λ q, is_type4 q wanted = true) packets = [q] ∧
       w = q.(word_offset) ∧ p = q.(payload).
Proof. apply reg_scan. Qed.

Definition sample_segment : list Packet :=
  [MkPacket (Type4 SP_PS_TSIZE 1) [1] 0; MkPacket (Type4 RB_MRT_BASE 2) [0; 0] 2;
   MkPacket (Type7 opcode.WAIT_FOR_IDLE 0) [] 5; MkPacket (Type4 RB_MRT_BASE 2) [0; 0] 6].

Lemma segment_reg_scan_witness :
  reg (SegmentIndex_new sample_segment) SP_PS_TSIZE = Some (0, [1]) ↔
  ∃ q, filter (λ q, is_type4 q SP_PS_TSIZE = true) sample_segment = [q] ∧
       0 = q.(word_offset) ∧ [1] = q.(payload).
Proof.
  apply segment_reg_scan; [apply merge_sort_Permutation|apply StronglySorted_merge_sort; apply _].
Defined.

(** The comment on the prefilter names stride, fetch layout, sampler use,
    blend mode and texture-load command as a unique identity.  Two pipelines
    share all of these; only the fragment output register, which the code also
    compares, tells them apart. *)
Lemma documented_identity_collides :
  let key v := let '(a, b, c, _, d, e) := pipeline_signature v in (a, b, c, d, e) in
  key Stride24Nv12 = key Stride24TextureRgbIgnoreAlpha ∧
  pipeline_signature Stride24Nv12 ≠ pipeline_signature Stride24TextureRgbIgnoreAlpha.
Proof. split; [by vm_compute|]. vm_compute. discriminate. Qed.
