(* ===== verification/SubmitFields.v ===== *)
(** * What the sequence checks do to the address fields

    The 2D, texture and 3D checks only refine the address fields collected
    from the packets: they attach image expectations and the size of a vertex
    buffer, and leave word, access, encoding and source alone. *)
From stdpp Require Import gmap.
From S2P Require Import Prelude F32 Pm4 ImageLayout ShaderPack SubmitWire SubmitTypes.
From S2P Require Import SubmitPackets SubmitOrdering SubmitPacketFacts SubmitA2d SubmitSegment Submit3d.
From S2P Require Import SubmitRelocate SubmitSegmentFacts.

(** [b] says at least what [a] says. *)
Record refines (a b : AddressField) : Prop := {
  ref_word : b.(af_word_offset) = a.(af_word_offset);
  ref_access : b.(af_access) = a.(af_access);
  ref_complete : b.(requires_complete_linear_image) = a.(requires_complete_linear_image);
  ref_encoding : b.(af_encoding) = a.(af_encoding);
  ref_source : b.(af_source) = a.(af_source);
  ref_size n : a.(af_required_size) = Some n → b.(af_required_size) = Some n;
  ref_a2d e : a.(af_a2d) = Some e → b.(af_a2d) = Some e;
  ref_image e : a.(af_image) = Some e → b.(af_image) = Some e;
}.

#[export] Instance refines_preorder : PreOrder refines.
Proof.
  split.
  - by constructor.
  - intros a b c [] []. constructor; try congruence; eauto.
Qed.

Definition refine_fields : relation (list AddressField) := Forall2 refines.

#[export] Instance refine_fields_preorder : PreOrder refine_fields.
Proof. unfold refine_fields. apply _. Qed.

Lemma refine_fields_insert l i a b :
  l !! i = Some a → refines a b → refine_fields l (<[i := b]> l).
Proof.
  intros Hi Hab. unfold refine_fields. rewrite <- (list_insert_id l i a) at 1 by done.
  apply Forall2_insert; [reflexivity|done].
Qed.

(** The entry the search finds. *)
Lemma address_entry_Ok l word e i a :
  address_entry l word e = Ok (i, a) → l !! i = Some a ∧ a.(af_word_offset) = word.
Proof.
  unfold address_entry. intros H.
  destruct (list_find _ l) as [[j b]|] eqn:Hf; [|done]. injection H as -> ->.
  apply list_find_Some in Hf as (? & ? & _). done.
Qed.

Lemma address_entry_no_panic l word e : address_entry l word e ≠ Panic.
Proof. unfold address_entry. by case_match. Qed.

Lemma set_a2d_Ok l word e l' :
  set_a2d_expectation l word e = Ok l' →
  ∃ i a, l !! i = Some a ∧ a.(af_word_offset) = word ∧ a.(af_a2d) = None ∧
    l' = <[i := with_a2d e a]> l.
Proof.
  unfold set_a2d_expectation. intros H. step_ok H as entry He. destruct entry as [i a].
  apply address_entry_Ok in He as [??]. destruct (af_a2d a) eqn:Ha; [done|]. injection H as <-.
  by exists i, a.
Qed.

Lemma set_a2d_refines l word e l' : set_a2d_expectation l word e = Ok l' → refine_fields l l'.
Proof.
  intros (i & a & Hi & _ & Ha & ->)%set_a2d_Ok. eapply refine_fields_insert; [done|].
  constructor; try done. by rewrite Ha.
Qed.

Lemma set_image_Ok l word e l' :
  set_image_expectation l word e = Ok l' →
  ∃ i a, l !! i = Some a ∧ a.(af_word_offset) = word ∧ a.(af_image) = None ∧
    l' = <[i := with_image e a]> l.
Proof.
  unfold set_image_expectation. intros H. step_ok H as entry He. destruct entry as [i a].
  apply address_entry_Ok in He as [??]. destruct (af_image a) eqn:Ha; [done|]. injection H as <-.
  by exists i, a.
Qed.

Lemma set_image_refines l word e l' : set_image_expectation l word e = Ok l' → refine_fields l l'.
Proof.
  intros (i & a & Hi & _ & Ha & ->)%set_image_Ok. eapply refine_fields_insert; [done|].
  constructor; try done. by rewrite Ha.
Qed.

Lemma foldM_preorder {E S X A} (R : relation A) `{!PreOrder R} (f : S → X → outcome E S) (g : S → A) s l s' :
  (∀ s x s', x ∈ l → f s x = Ok s' → R (g s) (g s')) → foldM f s l = Ok s' → R (g s) (g s').
Proof.
  revert s. induction l as [|x l IH]; intros s Hf H; cbn [foldM] in H; [by injection H as <-|].
  step_ok H as s1 H1. transitivity (g s1); [apply (Hf s x); [set_solver|done]|].
  apply IH; [|done]. intros s2 y s3 Hy. apply Hf. set_solver.
Qed.

(** ** The 2D checks *)

Lemma a2d_source_refines st l l' : a2d_source st l = Ok l' → refine_fields l l'.
Proof.
  unfold a2d_source. intros H. destruct (negb (source_info st)); [done|]. inv_ok H.
  match type of H with (if ?c then _ else _) = _ => destruct c; [done|] end.
  step_ok H as word Hword. step_ok H as pitch Hpitch. by eapply set_a2d_refines.
Qed.

Lemma a2d_blit_refines st l st' l' : a2d_blit st l = Ok (st', l') → refine_fields l l'.
Proof.
  unfold a2d_blit. intros H.
  match type of H with (if ?c then _ else _) = _ => destruct c; [done|] end.
  step_ok H as d1 Hd1. step_ok H as d2 Hd2. step_ok H as s1 Hs1. step_ok H as s2 Hs2.
  match type of H with (if ?c then _ else _) = _ => destruct c; [done|] end.
  step_ok H as w Hw. step_ok H as fm Hfm. destruct fm as [format modifier].
  step_ok H as pitch Hpitch. step_ok H as l1 Hl1. step_ok H as l2 Hl2. injection H as <- <-.
  etrans; [by eapply set_a2d_refines|]. case_bool_decide; [by eapply a2d_source_refines|].
  destruct (negb _); [done|]. by injection Hl2 as <-.
Qed.

Lemma a2d_step_refines s p s' : a2d_step s p = Ok s' → refine_fields s.2 s'.2.
Proof.
  destruct s as [st l], s' as [st' l']. unfold a2d_step. cbn [snd]. destruct (header p).
  - intros H. step_ok H as st1 H1. by injection H as <- <-.
  - case_match; [by intros [= <- <-]|]. case_match; [apply a2d_blit_refines|by intros [= <- <-]].
Qed.

Lemma validate_a2d_refines packets l l' :
  validate_a2d_sequences packets l = Ok l' →
  refine_fields l l' ∧ Forall (λ a, a.(requires_complete_linear_image) = true → is_Some a.(af_a2d)) l'.
Proof.
  unfold validate_a2d_sequences. intros H. step_ok H as s Hs. destruct s as [st l1].
  destruct (existsb _ l1) eqn:He; [done|]. injection H as <-. split.
  - change (refine_fields (A2dState_default, l).2 (st, l1).2).
    eapply (foldM_preorder refine_fields a2d_step snd); [|done]. intros. by eapply a2d_step_refines.
  - apply Forall_forall. intros a Ha Hc. destruct (af_a2d a) eqn:Haa; [done|].
    assert (existsb (λ a, requires_complete_linear_image a && bool_decide (af_a2d a = None)) l1 = true);
      [|congruence].
    apply existsb_exists. exists a. split; [by apply list_elem_of_In|]. by rewrite Hc, Haa.
Qed.

(** ** The texture checks *)

Lemma init_descriptor_refines decoded rels init l p init' l' :
  init_descriptor decoded rels init l p = Ok (init', l') → refine_fields l l'.
Proof.
  unfold init_descriptor. intros H.
  step_ok H as d2 H2. step_ok H as d3 H3. step_ok H as d4 H4. step_ok H as d5 H5.
  step_ok H as w Hw. step_ok H as l1 Hl1. step_ok H as l2 Hl2. step_ok H as w1 Hw1.
  step_ok H as place Hplace. injection H as _ <-. etrans; [by eapply set_image_refines|].
  destruct (is_nv12_descriptor d2); [|by injection Hl2 as <-].
  match type of Hl2 with (if ?c then _ else _) = _ => destruct c; [done|] end.
  step_ok Hl2 as w2 Hw2. step_ok Hl2 as d8 Hd8. by eapply set_image_refines.
Qed.

Lemma validate_texture_refines decoded packets l rels l' :
  validate_texture_initialization decoded packets l rels = Ok l' → refine_fields l l'.
Proof.
  unfold validate_texture_initialization. intros H. step_ok H as s Hs. destruct s as [init l1].
  injection H as <-. change (refine_fields ((∅ : gset (Z * Z)), l).2 (init, l1).2).
  eapply (foldM_preorder refine_fields (texture_step decoded rels) snd); [|done].
  intros [i1 l2] p [i2 l3] _. unfold texture_step; cbn [snd]. case_match.
  - apply init_descriptor_refines.
  - intros Hp. step_ok Hp as lk Hlk. destruct lk as [[w o]|]; [|by injection Hp as <- <-].
    step_ok Hp as place Hplace. case_bool_decide; [by injection Hp as <- <-|done].
Qed.

(** ** The fields of the accepted packets *)

Lemma fields_collected packets l :
  (∀ p, p ∈ packets → Forall u32 p.(payload)) →
  foldM validate_packet [] packets = Ok l → l = concat (packet_fields <$> packets).
Proof.
  intros Hwords H.
  assert (∀ pre, foldM validate_packet pre packets = Ok l → l = pre ++ concat (packet_fields <$> packets))
    as Hgen; [|by apply (Hgen [])].
  clear H. induction packets as [|p ps IH]; intros pre H; cbn [foldM] in H.
  - injection H as <-. by rewrite app_nil_r.
  - step_ok H as l1 H1. apply validate_packet_spec in H1 as ->; [|apply Hwords; set_solver].
    rewrite fmap_cons, concat_cons, app_assoc. apply IH; [|done]. intros. apply Hwords. set_solver.
Qed.

Lemma packets_accepted packets l l' p :
  foldM validate_packet l packets = Ok l' → p ∈ packets → accepted p.
Proof. intros H Hp. destruct (foldM_Ok_elem _ _ _ _ p H Hp) as (s1 & s2 & ?). by exists s1, s2. Qed.

Definition word_lt (a b : AddressField) : Prop := a.(af_word_offset) < b.(af_word_offset).

Lemma strictly_ordered_sorted l : strictly_ordered l = true → StronglySorted word_lt l.
Proof.
  intros H. apply Sorted_StronglySorted; [intros a b c; unfold word_lt; lia|].
  induction l as [|a l IH]; [constructor|]. destruct l as [|b l]; [by repeat constructor|].
  cbn [strictly_ordered] in H. bool_to_prop. constructor; [by apply IH|]. by constructor.
Qed.

Lemma ordered_lookup_lt l i j a b :
  StronglySorted word_lt l → l !! i = Some a → l !! j = Some b → (i < j)%nat → word_lt a b.
Proof.
  intros Hs. revert i j. induction Hs as [|x l Hs IH Hx]; intros i j Hi Hj Hij; [done|].
  destruct j as [|j]; [lia|]. destruct i as [|i]; simplify_eq/=.
  - rewrite Forall_lookup in Hx. eauto.
  - eapply IH; eauto. lia.
Qed.

Lemma ordered_inj l i j a b :
  StronglySorted word_lt l → l !! i = Some a → l !! j = Some b →
  a.(af_word_offset) = b.(af_word_offset) → i = j.
Proof.
  intros Hs Hi Hj Heq. destruct (Nat.lt_trichotomy i j) as [H|[H|H]]; [|done|].
  - pose proof (ordered_lookup_lt l i j a b Hs Hi Hj H). unfold word_lt in *. lia.
  - pose proof (ordered_lookup_lt l j i b a Hs Hj Hi H). unfold word_lt in *. lia.
Qed.

(** ** The 3D checks *)

Lemma new_target_refines seg pitch base ct sc vp l t l' :
  new_target seg pitch base ct sc vp l = Ok (t, l') → refine_fields l l'.
Proof.
  unfold new_target. intros H. step_ok H as s Hs. destruct s as [s0 s1]. step_ok H as v Hv.
  destruct v as [v0 v1]. destruct (unsafe_scissor _ _ _ _); [done|].
  destruct (f32_from_bits <$> ct) as [|a0 [|a1 [|a2 [|a3 [|a4 [|a5 [|]]]]]]]; try done.
  destruct (unsafe_transform _ _ _ _ _ _ _ _); [done|].
  step_ok H as p0 Hp0. step_ok H as rp Hrp. step_ok H as w Hw. step_ok H as m Hm.
  step_ok H as p1 Hp1. step_ok H as l1 Hl1. injection H as _ <-. by eapply set_image_refines.
Qed.

Lemma target_transition_refines seg t r l t' l' :
  target_transition seg t r l = Ok (t', l') → refine_fields l l'.
Proof.
  unfold target_transition.
  destruct (reg seg RB_MRT_PITCH) as [[? ?]|], (reg seg RB_MRT_BASE) as [[? ?]|],
    (reg seg GRAS_CL_VIEWPORT_XOFFSET) as [[? ?]|], (reg seg GRAS_SC_SCREEN_SCISSOR_TL) as [[? ?]|],
    (reg seg GRAS_SC_VIEWPORT_SCISSOR_TL) as [[? ?]|]; try done; [apply new_target_refines|].
  destruct r; [|done]. intros H. step_ok H as t1 Ht. by injection H as _ <-.
Qed.

Lemma depth_transition_refines seg t r i l d l' :
  depth_transition seg t r i l = Ok (d, l') → refine_fields l l'.
Proof.
  unfold depth_transition. destruct (reg seg RB_DEPTH_BUFFER_INFO) as [[w info]|].
  - destruct (negb _); [done|]. destruct (eqs info _); [by intros [= _ <-]|]. intros H.
    step_ok H as p Hp. step_ok H as rp Hrp. step_ok H as ar Har. step_ok H as ly Hly.
    destruct (_ || _); [done|]. step_ok H as w1 Hw1. step_ok H as l1 Hl1. injection H as _ <-.
    by eapply set_image_refines.
  - destruct (negb _); [done|]. by intros [= _ <-].
Qed.

Lemma check_descriptor_refines seg l l' : check_descriptor seg l = Ok l' → refine_fields l l'.
Proof.
  unfold check_descriptor. destruct (find _ _); [|by intros [= <-]]. intros H.
  step_ok H as w Hw. by eapply set_image_refines.
Qed.

(** What an accepted draw says about its vertices. *)
Record vertex_span (seg : SegmentIndex) (draw : Packet) (base size stride first : Z) : Prop := {
  span_base : ∃ p, reg seg VFD_VERTEX_BUFFER_BASE = Some (base, p);
  span_layout : ∃ w p, reg seg VFD_VERTEX_BUFFER_SIZE = Some (w, p) ∧ p !! 0%nat = Some size ∧ p !! 1%nat = Some stride;
  span_first : ∃ w p, reg seg VFD_INDEX_OFFSET = Some (w, p) ∧ p !! 0%nat = Some first;
  span_direct : len draw.(payload) = 3 →
    ∃ count, draw.(payload) !! 2%nat = Some count ∧ size = (count + first) * stride;
  span_indexed : len draw.(payload) ≠ 3 → (first + 1) * stride ≤ size;
}.

Lemma check_vertices_Ok seg draw l l' :
  check_vertices seg draw l = Ok l' →
  ∃ base size stride first i a, vertex_span seg draw base size stride first ∧
    l !! i = Some a ∧ a.(af_word_offset) = base + 1 ∧ l' = <[i := with_size size a]> l.
Proof.
  unfold check_vertices. intros H. step_ok H as vl Hvl. destruct vl as [lw lay].
  step_ok H as vo Hvo. destruct vo as [ow off]. step_ok H as size Hsize. step_ok H as stride Hstride.
  step_ok H as first Hfirst. step_ok H as u Hspan. step_ok H as vb Hvb. destruct vb as [base bp].
  step_ok H as w Hw. destruct Hw as [-> _]. step_ok H as e He. destruct e as [i a].
  apply address_entry_Ok in He as [Hi Ha]. injection H as <-.
  exists base, size, stride, first, i, a. split; [|done]. split; [eauto|eauto 6|eauto| |].
  - intros Hlen. rewrite Hlen in Hspan. cbn in Hspan. step_ok Hspan as count Hcount.
    step_ok Hspan as bytes Hb. apply bind_Some in Hb as (n & [-> _]%checked_add_Some & [-> _]%checked_mul_Some).
    case_match; [done|]. bool_to_prop. eauto.
  - intros Hlen. destruct (Z.eqb_spec (len (payload draw)) 3); [done|]. step_ok Hspan as bytes Hb.
    apply bind_Some in Hb as (m & [-> _]%checked_add_Some & [-> _]%checked_mul_Some).
    case_match; [done|]. bool_to_prop. lia.
Qed.

Section ThreeD.
Context (packets : list Packet) (l0 : list AddressField).
Hypothesis Hordered : StronglySorted word_lt l0.
Hypothesis Hfields : ∀ p f, p ∈ packets → f ∈ packet_fields p → f ∈ l0.

Lemma elem_of_slice {A} (l : list A) a b x : x ∈ slice l a b → x ∈ l.
Proof.
  unfold slice. intros (k & Hk & _)%elem_of_take. rewrite lookup_drop in Hk.
  by eapply list_elem_of_lookup_2.
Qed.

Lemma check_vertices_refines s e draw l l' :
  refine_fields l0 l →
  check_vertices (SegmentIndex_new (slice packets s e)) draw l = Ok l' → refine_fields l0 l'.
Proof.
  intros Hl (base & size & stride & first & i & a & [[bp Hbase] _ _ _ _] & Hi & Ha & ->)%check_vertices_Ok.
  destruct (Forall2_lookup_r _ _ _ i a Hl Hi) as (a0 & Ha0 & Href).
  apply reg_new_elem in Hbase as (q & c & Hq & Hh & -> & ->).
  assert (attachment_field (q.(word_offset) + 1) ACCESS_READ false None ∈ l0) as Hin.
  { apply (Hfields q); [by eapply elem_of_slice|]. unfold packet_fields. rewrite Hh. set_solver. }
  apply list_elem_of_lookup in Hin as [j Hj].
  assert (j = i) as ->. { eapply ordered_inj; [done|exact Hj|exact Ha0|]. rewrite <- (ref_word _ _ Href), Ha. done. }
  assert (a0 = attachment_field (q.(word_offset) + 1) ACCESS_READ false None) as -> by congruence.
  unfold refine_fields. rewrite <- (list_insert_id l0 i _ Hj). apply Forall2_insert; [done|].
  destruct Href. by constructor.
Qed.

Lemma validate_draw_refines strict rels s i p s' :
  refine_fields l0 s.(addresses3) → validate_draw strict packets rels s i p = Ok s' →
  refine_fields l0 s'.(addresses3).
Proof.
  unfold validate_draw. intros Hl H. step_ok H as pipe Hpipe. step_ok H as sh Hsh.
  step_ok H as tl Htl. destruct tl as [t l1]. step_ok H as dl Hdl. destruct dl as [d l2].
  step_ok H as u Hu. step_ok H as l3 Hl3. step_ok H as l4 Hl4. injection H as <-. cbn [addresses3].
  apply target_transition_refines in Htl. apply depth_transition_refines in Hdl.
  assert (refine_fields l0 l2) as Hl2 by (transitivity s.(addresses3); [done|by transitivity l1]).
  apply check_vertices_refines in Hl3; [|done].
  etrans; [exact Hl3|]. by eapply check_descriptor_refines.
Qed.

Lemma validate_3d_refines strict rels l l' :
  refine_fields l0 l → validate_3d_sequences packets l rels strict = Ok l' → refine_fields l0 l'.
Proof.
  unfold validate_3d_sequences. intros Hl H. step_ok H as s Hs. injection H as <-.
  eapply (foldM_invariant (λ s, refine_fields l0 s.(addresses3))); [| |exact Hs]; [|done].
  intros s1 [i p] s2 _ H1 H2. unfold three_d_step in H2.
  destruct (is_type7 p CP_DRAW_INDX_OFFSET); [by eapply validate_draw_refines|by injection H2 as <-].
Qed.
End ThreeD.
