(* ===== verification/SubmitSafety.v ===== *)
(** * Safety of submission: confinement of every GPU address

    The end-to-end theorems about [validate_and_relocate]: what reaches the
    command processor is the submitted stream with its blank address fields
    filled in, and every address in it lies in an object that the context was
    given, with an access the object allows. *)
From stdpp Require Import gmap.
From S2P Require Import Prelude F32 Pm4 ImageLayout ShaderPack SubmitWire SubmitWireFacts SubmitTypes.
From S2P Require Import SubmitPackets SubmitOrdering SubmitPacketFacts SubmitA2d SubmitSegment Submit3d.
From S2P Require Import SubmitRelocate SubmitSegmentFacts SubmitFields.

(** ** Packets of a word stream *)

Lemma stream_payload off ws ps p :
  Forall u32 ws → stream off ws ps → p ∈ ps → Forall u32 p.(payload).
Proof.
  intros Hws Hs. revert Hws. induction Hs as [|off w h body rest ps Hd Hl Hs IH]; intros Hws Hp.
  - by apply elem_of_nil in Hp.
  - apply Forall_cons in Hws as [_ [Hb Hr]%Forall_app].
    apply elem_of_cons in Hp as [->|Hp]; [done|auto].
Qed.

Lemma stream_bounds off ws ps p :
  stream off ws ps → p ∈ ps →
  off ≤ p.(word_offset) ∧ p.(word_offset) + 1 + len p.(payload) ≤ off + len ws.
Proof.
  induction 1 as [|off w h body rest ps Hd Hl Hs IH]; intros Hp; [by apply elem_of_nil in Hp|].
  assert (len (w :: body ++ rest) = 1 + header_count h + len rest) as Hlen
    by (rewrite <- Hl; unfold len; simpl; rewrite length_app; lia).
  pose proof (len_nonneg rest). pose proof (len_nonneg body).
  apply elem_of_cons in Hp as [->|Hp]; cbn [word_offset payload]; [lia|].
  specialize (IH Hp). lia.
Qed.

(** ** The decoded tables *)

Lemma copy_pm4_decoded minor s :
  counts_ok (len s.(pm4)) (len s.(resources)) (len s.(relocations)) → wf_submit s →
  copy_pm4 (decoded minor s) = Ok s.(pm4).
Proof.
  intros Hc Hwf. unfold copy_pm4, pm4_len. unfold decoded at 2; cbn [pm4_count].
  apply mapM_range. intros i w Hi. by rewrite (pm4_word_image minor s Hc Hwf i w).
Qed.

Lemma pm4_len_bound s :
  counts_ok (len s.(pm4)) (len s.(resources)) (len s.(relocations)) → len s.(pm4) ≤ 0x80000.
Proof.
  intros (?&?&?&Ht). pose proof (resources_start_bounds (len s.(pm4))).
  unfold layout_of, HEADER_SIZE, RESOURCE_SIZE, RELOCATION_SIZE, MAX_SUBMIT_SIZE in *. cbn [total] in Ht.
  pose proof (len_nonneg s.(resources)). pose proof (len_nonneg s.(relocations)). lia.
Qed.

Lemma relocations_decoded minor s e :
  counts_ok (len s.(pm4)) (len s.(resources)) (len s.(relocations)) → wf_submit s → minor_ok minor s →
  mapM (λ i, map_err (E':=string) (relocation (decoded minor s) i) e)
    (range (relocation_len (decoded minor s))) = Ok s.(relocations).
Proof.
  intros Hc Hwf Hm. unfold relocation_len. unfold decoded at 2; cbn [relocation_count].
  apply mapM_range. intros i r Hi. by rewrite (relocation_image_read minor s Hc Hwf Hm i r).
Qed.

(** ** What validation of the stream establishes *)

Record validated (s : Submit) (packets : list Packet) (addresses : list AddressField) : Prop := {
  val_stream : stream 0 s.(pm4) packets;
  val_accepted p : p ∈ packets → accepted p;
  val_ordered : StronglySorted word_lt (concat (packet_fields <$> packets));
  val_refines : refine_fields (concat (packet_fields <$> packets)) addresses;
  val_length : length addresses = length s.(relocations);
  val_matches i a r :
    addresses !! i = Some a → s.(relocations) !! i = Some r → relocation_matches a r = true;
  val_barriers : validate_memcpy_barriers packets = Ok ();
  val_ccu : validate_ccu_transitions packets = Ok ();
  val_retirement : validate_render_retirement packets = Ok ();
  val_checks : ∃ strict d l1 l2,
    validate_a2d_sequences packets (concat (packet_fields <$> packets)) = Ok l1 ∧
    validate_texture_initialization d packets l1 s.(relocations) = Ok l2 ∧
    validate_3d_sequences packets l2 s.(relocations) strict = Ok addresses;
}.

Lemma validate_pm4_validated strict minor s words addresses :
  counts_ok (len s.(pm4)) (len s.(resources)) (len s.(relocations)) → wf_submit s →
  validate_pm4 strict (decoded minor s) s.(relocations) = Ok (words, addresses) →
  words = s.(pm4) ∧ ∃ packets, validated s packets addresses.
Proof.
  intros Hc Hwf H. pose proof (pm4_len_bound s Hc) as Hlen. unfold validate_pm4 in H.
  rewrite copy_pm4_decoded in H by done. cbn [bind] in H. step_ok H as packets Hp.
  step_ok H as l0 Hl0. case_match; [done|]. case_match; [done|]. bool_to_prop.
  step_ok H as u1 Hu1. step_ok H as u2 Hu2. step_ok H as u3 Hu3. destruct u1, u2, u3.
  step_ok H as l1 Hl1. step_ok H as l2 Hl2. step_ok H as l3 Hl3.
  destruct (forallb _ _) eqn:Hmatch; [|done]. injection H as <- <-. split; [done|]. exists packets.
  pose proof (ensures_Ok _ _ _ (collect_packets_sound s.(pm4) ltac:(unfold U32_MAX; lia)) Hp) as Hs.
  assert (∀ p, p ∈ packets → Forall u32 p.(payload)) as Hwords
    by (intros p Hin; destruct Hwf; by eapply stream_payload).
  pose proof (fields_collected packets l0 Hwords Hl0) as Heq.
  match goal with H : strictly_ordered _ = true |- _ => apply strictly_ordered_sorted in H as Hord end.
  pose proof Hl1 as [Hr1 _]%validate_a2d_refines. pose proof Hl2 as Hr1'%validate_texture_refines.
  assert (refine_fields l0 l2) as Hr2 by by transitivity l1.
  assert (refine_fields l0 l3) as Hr3.
  { eapply validate_3d_refines; [exact Hord| |exact Hr2|exact Hl3].
    intros p f Hin Hf. rewrite Heq. apply elem_of_concat. exists (packet_fields p).
    split; [|done]. apply list_elem_of_fmap. eauto. }
  subst l0. constructor; try done.
  - intros p Hin. by eapply packets_accepted.
  - apply Forall2_length in Hr3. unfold len in *. lia.
  - intros i a r Ha Hr. rewrite forallb_forall in Hmatch. apply (Hmatch (a, r)).
    apply list_elem_of_In, list_elem_of_lookup. exists i. by rewrite lookup_zip_with, Ha; cbn; rewrite Hr.
  - by exists strict, (decoded minor s), l1, l2.
Qed.

(** ** Addresses in words *)

(** The address an encoding stores in two words. *)
Definition read_address (e : AddressEncoding) (w0 w1 : Z) : Z :=
  match e with
  | GpuVa64 => w0 .| (w1 << 32)
  | GpuVa49TexDescriptor => (w0 .&~ 0x1f) .| ((w1 .& 0x1ffff) << 32)
  end.

Lemma as_u32_land a : as_u32 a = a .& Z.ones 32.
Proof. unfold as_u32. by rewrite Z.land_ones by lia. Qed.

Lemma high_bits a i n : 0 ≤ a < 2 ^ n → n ≤ i → Z.testbit a i = false.
Proof.
  intros Ha Hi. rewrite <- (Z.mod_small a (2 ^ n)) by lia.
  destruct (decide (0 ≤ n)); [by apply Z.mod_pow2_bits_high|].
  rewrite Z.pow_neg_r in Ha by lia. lia.
Qed.

Lemma read_address_64 a : u64 a → read_address GpuVa64 (as_u32 a) (as_u32 (a >> 32)) = a.
Proof.
  intros Ha. unfold read_address. rewrite !as_u32_land. apply Z.bits_inj'. intros i Hi.
  rewrite Z.lor_spec, Z.land_spec, Z.ones_spec by lia.
  destruct (decide (i < 32)).
  - rewrite Z.shiftl_spec_low by lia. rewrite bool_decide_true by lia. by rewrite andb_true_r, orb_false_r.
  - rewrite bool_decide_false by lia. rewrite andb_false_r, orb_false_l, Z.shiftl_spec_high by lia.
    rewrite Z.land_spec, Z.ones_spec, Z.shiftr_spec by lia.
    replace (i - 32 + 32) with i by lia. destruct (decide (i < 64)).
    + by rewrite bool_decide_true, andb_true_r by lia.
    + rewrite (high_bits a i 64) by (unfold u64 in Ha; lia). done.
Qed.

Lemma read_address_49 a d0 d1 :
  0 ≤ a < 2 ^ 49 → a .& 0x1f = 0 →
  read_address GpuVa49TexDescriptor ((d0 .& 0x1f) .| (as_u32 a .&~ 0x1f))
    ((d1 .&~ 0x1ffff) .| (as_u32 (a >> 32) .& 0x1ffff)) = a.
Proof.
  intros Ha Hlow. unfold read_address. rewrite !as_u32_land. apply Z.bits_inj'. intros i Hi.
  change 0x1f with (Z.ones 5) in *. change 0x1ffff with (Z.ones 17).
  assert (i < 5 → Z.testbit a i = false) as Hlowb.
  { intros. apply (f_equal (λ z, Z.testbit z i)) in Hlow.
    rewrite Z.land_spec, Z.ones_spec_low, andb_true_r, Z.bits_0 in Hlow by lia. done. }
  rewrite Z.lor_spec, Z.ldiff_spec, Z.lor_spec, Z.land_spec, Z.ldiff_spec, Z.land_spec.
  destruct (decide (i < 32)).
  - rewrite Z.shiftl_spec_low, (Z.ones_spec_low 32) by lia. destruct (decide (i < 5)).
    + rewrite Hlowb by done. rewrite Z.ones_spec_low by lia. by rewrite andb_false_r.
    + rewrite Z.ones_spec_high by lia. rewrite !andb_false_r. cbn [negb orb]. by rewrite !andb_true_r, orb_false_r.
  - rewrite Z.shiftl_spec_high by lia. rewrite (Z.ones_spec_high 32), (Z.ones_spec_high 5) by lia.
    rewrite !andb_false_r. cbn [negb orb andb].
    rewrite Z.land_spec, Z.lor_spec, Z.ldiff_spec, !Z.land_spec, Z.shiftr_spec by lia.
    replace (i - 32 + 32) with i by lia. destruct (decide (i < 49)).
    + rewrite !Z.ones_spec_low by lia. cbn [negb]. by rewrite andb_false_r, !andb_true_r.
    + rewrite (high_bits a i 49) by lia. by rewrite (Z.ones_spec_high 17), !andb_false_r by lia.
Qed.

(** ** Relocating one address *)

Definition resource_wf (r : ResolvedResource) : Prop := u64 r.(gpu_va) ∧ u64 r.(allocation_size).

(** Words [i] and [i + 1] hold the address [a]. *)
Definition holds_address (words : list Z) (e : AddressEncoding) (i a : Z) : Prop :=
  ∃ w0 w1, words !! Z.to_nat i = Some w0 ∧ words !! Z.to_nat (i + 1) = Some w1 ∧
    read_address e w0 w1 = a.

(** Nothing but words [i] and [i + 1] changed. *)
Definition same_outside (words words' : list Z) (i : Z) : Prop :=
  length words' = length words ∧
  ∀ k : nat, ¬ (i ≤ Z.of_nat k < i + 2) → words' !! k = words !! k.

Lemma inserts_two words i w0 w1 :
  0 ≤ i → i + 2 ≤ len words →
  let words' := list_inserts (Z.to_nat i) [w0; w1] words in
  same_outside words words' i ∧
  words' !! Z.to_nat i = Some w0 ∧ words' !! Z.to_nat (i + 1) = Some w1.
Proof.
  intros Hi Hlen words'. unfold len in Hlen. split; [split|].
  - apply length_inserts.
  - intros k Hk. unfold words'. destruct (decide (k < Z.to_nat i)%nat).
    + apply list_lookup_inserts_lt. lia.
    + apply list_lookup_inserts_ge. simpl. lia.
  - unfold words'. rewrite !list_lookup_inserts by (simpl; lia).
    rewrite Nat.sub_diag. split; [done|].
    by replace (Z.to_nat (i + 1) - Z.to_nat i)%nat with 1%nat by lia.
Qed.

Lemma get_range_Some {A} (l : list A) a b x :
  get_range l a b = Some x → b ≤ len l.
Proof. unfold get_range. case_match; [|done]. bool_to_prop. intros _. unfold len. lia. Qed.

Lemma relocate_one_Ok words r res words' :
  wf_relocation r → resource_wf res → relocate_one words r res = Ok words' →
  let a := res.(gpu_va) + r.(resource_offset) in
  a + r.(required_size) ≤ res.(gpu_va) + res.(allocation_size) ≤ U64_MAX ∧
  same_outside words words' r.(pm4_word_offset) ∧
  holds_address words' r.(encoding) r.(pm4_word_offset) a.
Proof.
  intros ([??]&_&[??]&[??]&_) [[??] [??]] Hok. unfold relocate_one in Hok.
  step_ok Hok as e He. step_ok Hok as a Ha. step_ok Hok as re Hre.
  destruct He as [-> He], Ha as [-> Ha], Hre as [-> Hre].
  match type of Hok with (if ?c then _ else _) = _ => destruct c eqn:Hend; [done|] end. bool_to_prop.
  split; [lia|]. assert (u64 (gpu_va res + resource_offset r)) by (unfold u64, U64_MAX in *; lia).
  destruct (encoding r).
  - step_ok Hok as d Hd. injection Hok as <-. apply get_range_Some in Hd.
    match goal with |- context [<[_ := ?w0]> (<[S _ := ?w1]> _)] =>
      destruct (inserts_two words r.(pm4_word_offset) w0 w1) as (Hs & H0' & H1') end; [done|done|].
    split; [done|]. eexists _, _. split; [exact H0'|]. split; [exact H1'|]. by apply read_address_64.
  - match type of Hok with (if ?c then _ else _) = _ => destruct c eqn:Hal; [done|] end. bool_to_prop.
    step_ok Hok as d Hd. injection Hok as <-. apply get_range_Some in Hd.
    match goal with |- context [<[_ := ?w0]> (<[S _ := ?w1]> _)] =>
      destruct (inserts_two words r.(pm4_word_offset) w0 w1) as (Hs & H0' & H1') end; [done|done|].
    split; [done|]. eexists _, _. split; [exact H0'|]. split; [exact H1'|].
    apply read_address_49; [|done]. change (1 << 49) with (2 ^ 49) in *. lia.
Qed.

(** ** Relocating all of them *)

Section Relocation.
Context (resolve : Z → option ResolvedResource).
Context (resolve_shader : ShaderVariant → option ResolvedResource).

(** What the relocation loop guarantees of relocation [r], the [i]-th. *)
Record relocated (resources : list ResolvedResource) (addresses : list AddressField)
    (out : list Z) (i : nat) (r : Relocation) (res : ResolvedResource) (a : AddressField) : Prop := {
  rel_resource : relocation_resource resolve_shader resources r = Ok res;
  rel_field : addresses !! i = Some a;
  rel_allowed : r.(rel_access) .&~ res.(allowed_access) = 0;
  rel_size n : a.(af_required_size) = Some n → r.(required_size) = n;
  rel_a2d : a.(requires_complete_linear_image) = true → check_a2d a r res = Ok ();
  rel_image e : a.(af_image) = Some e → check_image e r res = Ok ();
  rel_inside : res.(gpu_va) + r.(resource_offset) + r.(required_size)
                 ≤ res.(gpu_va) + res.(allocation_size) ≤ U64_MAX;
  rel_holds : holds_address out r.(encoding) r.(pm4_word_offset)
                (res.(gpu_va) + r.(resource_offset));
}.

Definition covers (r : Relocation) (k : nat) : Prop :=
  r.(pm4_word_offset) ≤ Z.of_nat k < r.(pm4_word_offset) + 2.

Lemma holds_address_same words words' e i a :
  0 ≤ i →
  (∀ k : nat, i ≤ Z.of_nat k < i + 2 → words' !! k = words !! k) →
  holds_address words e i a → holds_address words' e i a.
Proof.
  intros Hi Hsame (w0 & w1 & H0 & H1 & Hr). exists w0, w1. split_and!; [| |done].
  - by rewrite Hsame by lia.
  - by rewrite Hsame by lia.
Qed.

Lemma relocation_step_Ok resources addresses words i r words' :
  wf_relocation r →
  (∀ res, relocation_resource resolve_shader resources r = Ok res → resource_wf res) →
  relocation_step resolve_shader resources addresses words (Z.of_nat i, r) = Ok words' →
  same_outside words words' r.(pm4_word_offset) ∧
  ∃ res a, relocated resources addresses words' i r res a.
Proof.
  intros Hwf Hres H. unfold relocation_step in H. step_ok H as res Hr.
  destruct (negb _) eqn:Hacc; [done|]. bool_to_prop. step_ok H as a Ha. rewrite Nat2Z.id in Ha.
  destruct (match af_required_size a with Some _ => _ | None => _ end) eqn:Hsize; [done|].
  step_ok H as u1 Hu1. step_ok H as u2 Hu2. destruct u1, u2.
  destruct (relocate_one_Ok words r res words' Hwf (Hres _ Hr) H) as (Hin & Hsame & Hholds).
  split; [done|]. exists res, a. constructor; try done.
  - intros n Hn. rewrite Hn in Hsize. by bool_to_prop.
  - intros Hc. by rewrite Hc in Hu1.
  - intros e He. by rewrite He in Hu2.
Qed.

Lemma relocation_loop_Ok resources addresses rels j words out :
  Forall wf_relocation rels → relocations_ordered rels →
  (∀ r res, relocation_resource resolve_shader resources r = Ok res → resource_wf res) →
  foldM (relocation_step resolve_shader resources addresses) words
    (zip (Z.of_nat <$> seq j (length rels)) rels) = Ok out →
  length out = length words ∧
  (∀ k, (∀ r, r ∈ rels → ¬ covers r k) → out !! k = words !! k) ∧
  ∀ i r, rels !! i = Some r → ∃ res a, relocated resources addresses out (j + i) r res a.
Proof.
  intros Hwf Hord Hres. revert j words Hord.
  induction Hwf as [|r rels Hr Hrels IH]; intros j words Hord H.
  { by injection H as <-. }
  cbn [length seq] in H. rewrite fmap_cons in H. cbn [zip zip_with foldM] in H.
  step_ok H as words1 H1. apply relocation_step_Ok in H1 as ([Hlen1 Hsame1] & res & a & Hrel); [|done|eauto].
  apply IH in H as (Hlen & Hsame & Hall); [|intros i1 i2 r1 r2 Hlt Hl1 Hl2; by eapply (Hord (S i1) (S i2)); [lia|..]].
  assert (∀ r', r' ∈ rels → r.(pm4_word_offset) + 2 ≤ r'.(pm4_word_offset)) as Hafter.
  { intros r' [k Hk]%list_elem_of_lookup. by eapply (Hord 0%nat (S k)); [lia|..]. }
  split_and!; [congruence| |].
  - intros k Hk. rewrite Hsame by (intros; apply Hk; set_solver). apply Hsame1, (Hk r). set_solver.
  - intros [|i] r' Hr'; simplify_eq/=.
    + rewrite Nat.add_0_r. exists res, a. destruct Hrel. constructor; try done.
      destruct Hr as ([??] & _). eapply holds_address_same; [done| |done]. intros k Hk. apply Hsame.
      intros r2 Hr2 Hc. specialize (Hafter r2 Hr2). unfold covers in Hc. lia.
    + rewrite <- Nat.add_succ_comm. by apply Hall.
Qed.

(** ** Authority *)

(** The objects the context owns have addresses that fit. *)
Definition objects_wf : Prop :=
  (∀ token obj, resolve token = Some obj → resource_wf obj) ∧
  (∀ variant obj, resolve_shader variant = Some obj → resource_wf obj).

(** [res] is a declared view of the attached object [obj]. *)
Record view_of (wire : Resource) (obj res : ResolvedResource) : Prop := {
  view_object : resolve wire.(attachment_token) = Some obj;
  view_va : res.(gpu_va) = obj.(gpu_va) + wire.(range_offset);
  view_size : res.(allocation_size) = wire.(range_size);
  view_range : wire.(range_offset) + wire.(range_size) ≤ obj.(allocation_size);
  view_declared : res.(allowed_access) = wire.(res_access);
  view_access : wire.(res_access) .&~ obj.(allowed_access) = 0;
  view_fits : res.(gpu_va) ≤ U64_MAX;
}.

Lemma authorise_view decoded i res wire :
  SubmitWire.resource decoded i = Ok wire → authorise_resource resolve decoded i = Ok res →
  ∃ obj, view_of wire obj res.
Proof.
  intros Hw H. unfold authorise_resource in H. rewrite Hw in H. cbn [map_err bind] in H.
  step_ok H as obj Hobj. step_ok H as e He. destruct He as [-> _].
  destruct (negb _) eqn:Hacc; [done|]. destruct (_ <? _) eqn:Hlt; [done|]. bool_to_prop.
  step_ok H as va Hva. destruct Hva as [-> ?]. step_ok H as im Him. injection H as <-.
  exists obj. by constructor.
Qed.

Lemma view_wf wire obj res : wf_resource wire → resource_wf obj → view_of wire obj res → resource_wf res.
Proof.
  intros (_ & [??] & [??] & _) [[??] _] []. split; [|by rewrite view_size0].
  rewrite view_va0 in *. unfold u64, U64_MAX in *. lia.
Qed.

(** Everything an accepted submission went through. *)
Record admitted (s : Submit) (packets : list Packet) (addresses : list AddressField)
    (resources : list ResolvedResource) (out : list Z) : Prop := {
  adm_counts : counts_ok (len s.(pm4)) (len s.(SubmitWire.resources)) (len s.(relocations));
  adm_wf : wf_submit s;
  adm_relocations : Forall (relocation_valid s) s.(relocations);
  adm_ordered : relocations_ordered s.(relocations);
  adm_validated : validated s packets addresses;
  adm_views i res : resources !! i = Some res →
    ∃ wire obj, s.(SubmitWire.resources) !! i = Some wire ∧ view_of wire obj res;
  adm_length : length out = length s.(pm4);
  adm_unchanged k : (∀ r, r ∈ s.(relocations) → ¬ covers r k) → out !! k = s.(pm4) !! k;
  adm_relocated i r : s.(relocations) !! i = Some r →
    ∃ res a, relocated resources addresses out i r res a;
}.

Lemma authorised_views minor s resources :
  counts_ok (len s.(pm4)) (len s.(SubmitWire.resources)) (len s.(relocations)) → wf_submit s →
  mapM (authorise_resource resolve (decoded minor s)) (range (resource_len (decoded minor s))) = Ok resources →
  ∀ i res, resources !! i = Some res →
    ∃ wire obj, s.(SubmitWire.resources) !! i = Some wire ∧ view_of wire obj res.
Proof.
  intros Hc Hwf H i res Hi. apply mapM_Ok in H. rewrite Forall2_lookup in H. specialize (H i).
  rewrite Hi in H. unfold resource_len in H; cbn [decoded resource_count] in H.
  destruct (s.(SubmitWire.resources) !! i) as [wire|] eqn:Hwire.
  - rewrite range_len_lookup in H by congruence. inversion H; subst. exists wire.
    destruct (authorise_view (decoded minor s) (Z.of_nat i) res wire) as [obj ?];
      [by apply resource_image_read|done|]. by exists obj.
  - assert (range (len s.(SubmitWire.resources)) !! i = None) as Hn.
    { apply lookup_ge_None. rewrite length_range. apply lookup_ge_None in Hwire. unfold len. lia. }
    rewrite Hn in H. inversion H.
Qed.

Lemma validate_and_relocate_admitted strict bytes out :
  objects_wf → Forall u8 bytes →
  validate_and_relocate resolve resolve_shader strict bytes = Ok out →
  ∃ d s packets addresses resources, decode bytes = Ok d ∧ submit_of d = Ok s ∧
    admitted s packets addresses resources out.
Proof.
  intros [Hobj Hsh] Hb H. unfold validate_and_relocate in H. step_ok H as d Hd.
  destruct (decode_inv bytes d Hb Hd) as (minor & s & Hc & Hwf & Hm & -> & ->).
  pose proof Hd as Hd'. rewrite decode_image in Hd by done. step_ok Hd as u Hv. destruct u. clear Hd.
  destruct (validate_submit_inv s Hwf Hv) as (_ & Hrel & Hord).
  step_ok H as resources Hres. rewrite relocations_decoded in H by done. cbn [bind] in H.
  step_ok H as wa Hwa. destruct wa as [words addresses].
  apply validate_pm4_validated in Hwa as (-> & packets & Hval); [|done..].
  pose proof (authorised_views minor s resources Hc Hwf Hres) as Hviews.
  exists (decoded minor s), s, packets, addresses, resources.
  split; [done|]. split; [by apply submit_of_decoded|].
  destruct (relocation_loop_Ok resources addresses s.(relocations) 0 s.(pm4) out)
    as (Hlen & Hsame & Hall); [by destruct Hwf as (_&_&?)|done| | |by constructor].
  - intros r res Hr. unfold relocation_resource in Hr. destruct (source r).
    + apply ok_or_Ok in Hr. destruct (Hviews _ _ Hr) as (wire & obj & Hwire & Hview).
      destruct Hwf as (_ & Hwfr & _). rewrite Forall_lookup in Hwfr.
      eapply view_wf; [by eapply Hwfr| |done]. eapply Hobj, view_object, Hview.
    + apply ok_or_Ok in Hr. eauto.
  - unfold enumerate, range, len in H. by rewrite Nat2Z.id in H.
Qed.
End Relocation.
