(* ===== verification/SubmitSample.v ===== *)
(** * A submission that the validator accepts

    A complete submission, with a memory copy, a solid and a sampled blit and a
    canonical draw, each followed by what the ordering rules ask for.  It shows
    that the hypotheses of the safety theorems can be met together, with the
    strict build's pipeline check on. *)
From S2P Require Import Prelude F32 Pm4 ImageLayout ShaderPack SubmitWire SubmitWireFacts SubmitTypes.
From S2P Require Import SubmitPackets SubmitOrdering SubmitPacketFacts SubmitA2d SubmitSegment Submit3d.
From S2P Require Import SubmitRelocate SubmitSegmentFacts SubmitFields SubmitSafety.

Definition write_register (register : Z) (values : list Z) : list Z :=
  type4_value register (len values) :: values.
Definition command (opcode : Z) (values : list Z) : list Z :=
  type7_value opcode (len values) :: values.

(** The clean, invalidate and idle sequence after rendering. *)
Definition sample_epilogue : list (list Z) :=
  [command opcode.EVENT_WRITE [EVENT_CCU_FLUSH_COLOR_TS .| EVENT_WRITE_TIMESTAMP; 0; 0; 1];
   command opcode.EVENT_WRITE [EVENT_CCU_FLUSH_DEPTH_TS .| EVENT_WRITE_TIMESTAMP; 0; 0; 1];
   command opcode.EVENT_WRITE [EVENT_CCU_INVALIDATE_COLOR];
   command opcode.EVENT_WRITE [EVENT_CCU_INVALIDATE_DEPTH];
   command opcode.WAIT_FOR_IDLE []].

Definition sample_copy : list (list Z) :=
  [command CP_MEMCPY [16; 0; 0; 0; 0]; command opcode.WAIT_MEM_WRITES []].

(** The destination half of a blit onto the 64 by 64 image. *)
Definition sample_destination (control : Z) : list (list Z) :=
  [write_register RB_A2D_BLT_CNTL [control]; write_register GRAS_A2D_BLT_CNTL [control];
   write_register RB_A2D_PIXEL_CNTL [0];
   write_register SP_A2D_OUTPUT_INFO [(FORMAT_8_8_8_8_UNORM << 3) .| (0xf << 12)];
   write_register RB_A2D_DEST_BUFFER_INFO [FORMAT_8_8_8_8_UNORM .| A2D_COLOR_SWAP_WXYZ];
   write_register RB_A2D_DEST_BUFFER_BASE [0; 0]; write_register RB_A2D_DEST_BUFFER_PITCH [4];
   write_register GRAS_A2D_DEST_TL [0; (63 << 16) .| 63];
   write_register GRAS_A2D_SCISSOR_TL [0; (63 << 16) .| 63]].

Definition blit_control (solid : bool) : Z :=
  (FORMAT_8_8_8_8_UNORM << 8) .| (0xf << 20) .| (1 << 16) .| (if solid then 1 << 7 else 0).

Definition sample_solid_blit : list (list Z) :=
  command opcode.SET_MARKER [12] :: sample_destination (blit_control true) ++
  [write_register RB_A2D_CLEAR_COLOR_DW0 [1; 2; 3; 4];
   command opcode.BLIT [3]; command opcode.WAIT_FOR_IDLE []] ++ sample_epilogue.

Definition sample_sampled_blit : list (list Z) :=
  sample_destination (blit_control false) ++
  [write_register TPL1_A2D_SRC_TEXTURE_INFO
     [FORMAT_8_8_8_8_UNORM .| A2D_COLOR_SWAP_WXYZ .| (1 << 20) .| (1 << 22)];
   write_register TPL1_A2D_SRC_TEXTURE_SIZE [(64 << 15) .| 64];
   write_register TPL1_A2D_SRC_TEXTURE_BASE [0; 0]; write_register TPL1_A2D_SRC_TEXTURE_PITCH [4 << 9];
   write_register GRAS_A2D_SRC_XMIN [0; 63 << 8; 0; 63 << 8];
   command opcode.BLIT [3]; command opcode.WAIT_FOR_IDLE []] ++ sample_epilogue.

(** The fixed-function state that does not depend on the pipeline. *)
Definition sample_fixed_state : list (list Z) :=
  [command opcode.SET_MARKER [1]; command CP_SKIP_IB2_ENABLE_GLOBAL [0];
   command CP_SKIP_IB2_ENABLE_LOCAL [1]; command CP_SET_VISIBILITY_OVERRIDE [1];
   command CP_REG_WRITE [2; RB_RENDER_CNTL; 0x10];
   write_register SP_UPDATE_CNTL [0xff]; write_register GRAS_SC_CNTL [2];
   write_register GRAS_SC_BIN_CNTL [0xc00000]; write_register RB_CNTL [0xc00000];
   write_register RB_MODE_CNTL [0x10]] ++
  ((λ r, write_register r [0]) <$>
     [RB_BIN_CONTROL2; RB_WINDOW_OFFSET; RB_WINDOW_OFFSET2; SP_WINDOW_OFFSET; TPL1_WINDOW_OFFSET;
      GRAS_SC_SCREEN_SCISSOR_CNTL; VPC_SO_OVERRIDE; PC_STEREO_RENDERING_CNTL; SP_HS_CONFIG;
      SP_DS_CONFIG; SP_GS_CONFIG; SP_GFX_USIZE; GRAS_CL_VS_CLIP_CULL_DISTANCE; GRAS_SU_VS_SIV_CNTL;
      PC_PS_CNTL; RB_PS_SAMPLEFREQ_CNTL; GRAS_LRZ_PS_INPUT_CNTL; GRAS_LRZ_PS_SAMPLEFREQ_CNTL;
      SP_VS_PVT_MEM_STACK_OFFSET; SP_PS_PVT_MEM_STACK_OFFSET; RB_MRT_BASE_GMEM; RB_SRGB_CNTL;
      SP_SRGB_CNTL; GRAS_CL_ARRAY_SIZE; RB_DITHER_CNTL; RB_ALPHA_TEST_CNTL; RB_STENCIL_CNTL;
      GRAS_SU_STENCIL_CNTL; RB_STENCIL_REF_CNTL; TPL1_MSAA_SAMPLE_POS_CNTL;
      RB_RESOLVE_GMEM_BUFFER_INFO; PC_CNTL; RB_DEPTH_PLANE_CNTL; GRAS_SU_DEPTH_PLANE_CNTL;
      RB_STENCIL_BUFFER_INFO; RB_DEPTH_CNTL; GRAS_SU_DEPTH_CNTL; GRAS_SU_DEPTH_BUFFER_INFO]) ++
  [write_register VPC_VS_CLIP_CULL_CNTL [0xffff00]; write_register VPC_VS_CLIP_CULL_CNTL_V2 [0xffff00];
   write_register VPC_VS_SIV_CNTL [0xffff]; write_register VPC_VS_SIV_CNTL_V2 [0xffff];
   write_register SP_LB_PARAM_LIMIT [7]; write_register VPC_VARYING_INTERP_MODE (replicate 8 0);
   write_register VPC_VARYING_REPLACE_MODE (replicate 8 0);
   write_register RB_MRT_BUF_INFO [FORMAT_8_8_8_8_UNORM .| MRT_COLOR_SWAP_WXYZ];
   write_register RB_COLOR_FLAG_BUFFER_ADDR [0; 0; 0];
   write_register GRAS_LRZ_MRT_BUFFER_INFO_0 [FORMAT_8_8_8_8_UNORM];
   write_register RB_STENCIL_MASK [0; 0]; write_register RB_DEPTH_BOUND_MIN [0; F32_ONE_BITS];
   write_register RB_DEPTH_BUFFER_INFO (replicate 6 0);
   write_register TPL1_RAS_MSAA_CNTL [0; 4]; write_register GRAS_SC_RAS_MSAA_CNTL [0; 4; 0];
   write_register RB_RAS_MSAA_CNTL [0; 4; 0]; write_register GRAS_CL_CNTL [0x80];
   write_register GRAS_CL_GUARDBAND_CLIP_ADJ [0]; write_register GRAS_SU_CNTL [0x2010];
   write_register GRAS_SU_POINT_MINMAX [0x100010]; write_register GRAS_SU_POINT_SIZE [0x10];
   write_register GRAS_SU_POLY_OFFSET_SCALE [0; 0; 0]; write_register VPC_RAST_CNTL [3];
   write_register PC_DGEN_RAST_CNTL [3]].

Definition sample_vertex_state (m : VertexMeta) : list (list Z) :=
  [write_register SP_VS_CNTL_0 [m.(sp_vs_cntl_0)];
   write_register SP_VS_CONST_CONFIG [m.(sp_vs_const_config); 0; 0; 0];
   write_register VFD_CNTL_1 m.(vfd_cntl_1_6); write_register VFD_DEST_CNTL m.(vfd_dest_cntl);
   write_register SP_VS_INSTR_SIZE [m.(sp_vs_instr_size)]; write_register SP_VS_CONFIG [m.(sp_vs_config)];
   write_register SP_VS_PROGRAM_COUNTER_OFFSET (replicate 7 0)].

Definition sample_fragment_state (m : FragmentMeta) : list (list Z) :=
  [write_register SP_PS_CONST_CONFIG [m.(sp_ps_const_config)]; write_register SP_PS_CNTL_0 [m.(sp_ps_cntl_0)];
   write_register SP_PS_WAVE_CNTL [m.(sp_ps_wave_cntl)];
   write_register GRAS_CL_INTERP_CNTL [m.(gras_cl_interp_cntl)];
   write_register RB_INTERP_CNTL [m.(rb_interp_cntl)]; write_register RB_PS_INPUT_CNTL [m.(rb_ps_input_cntl)];
   write_register SP_PS_OUTPUT_REG m.(sp_ps_output_reg); write_register SP_PS_INSTR_SIZE [m.(sp_ps_instr_size)];
   write_register SP_PS_CONFIG [m.(sp_ps_config)];
   write_register SP_PS_PROGRAM_COUNTER_OFFSET (replicate 7 0);
   write_register SP_REG_PROG_ID_0 m.(sp_reg_prog_id);
   write_register SP_PS_OUTPUT_CNTL [m.(sp_ps_output_cntl)];
   write_register SP_PS_OUTPUT_MASK [m.(sp_ps_output_mask)];
   write_register RB_PS_OUTPUT_CNTL [m.(rb_ps_output_cntl)];
   write_register RB_PS_OUTPUT_MASK [m.(rb_ps_output_mask)];
   write_register SP_PS_INITIAL_TEX_LOAD_CNTL (m.(initial_tex_load_cntl) :: m.(initial_tex_load_cmd))].

Definition sample_link_state (variant : PipelineVariant) : list (list Z) :=
  let link := link_meta variant in
  let fixed := pipeline_state_meta variant in
  [write_register SP_VS_OUTPUT_CNTL [link.(sp_vs_output_cntl)];
   write_register SP_VS_OUTPUT_REG link.(sp_vs_output_reg);
   write_register SP_VS_VPC_DEST_REG link.(sp_vs_vpc_dest_reg);
   write_register VPC_VS_CNTL [link.(vpc_vs_cntl)]; write_register VPC_PS_CNTL [link.(vpc_ps_cntl)];
   write_register PC_VS_CNTL [link.(pc_vs_cntl)];
   write_register VPC_VARYING_LM_TRANSFER_CNTL_DISABLE link.(lm_transfer_disable);
   write_register SP_PS_TSIZE [flag fixed.(uses_sampler)];
   write_register VFD_FETCH_INSTR fixed.(vfd_fetch);
   write_register VFD_CNTL_0 [(len fixed.(vfd_fetch) / 2) .| ((len fixed.(vfd_fetch) / 2) << 8)];
   write_register RB_MRT_CONTROL (mrt_control fixed.(source_over));
   write_register RB_BLEND_CNTL [if fixed.(source_over) then 0xffff0001 else 0xffff0000];
   write_register SP_BLEND_CNTL [flag fixed.(source_over)];
   command CP_LOAD_STATE6_GEOM [(2 << 16) .| (8 << 18) .| (1 << 22); 0; 0];
   command CP_LOAD_STATE6_FRAG [(2 << 16) .| (12 << 18) .| (1 << 22); 0; 0];
   command CP_LOAD_STATE6_GEOM ([(1 << 14) .| (8 << 18) .| (5 << 22); 0; 0] ++ replicate 20 0);
   command CP_LOAD_STATE6_FRAG ([(1 << 14) .| (12 << 18) .| (5 << 22); 0; 0] ++ replicate 20 0)].

(** The target, the viewport (32.0 each way, depth 0.0 to 1.0) and three vertices. *)
Definition sample_target_and_draw : list (list Z) :=
  [write_register RB_MRT_PITCH [4; 256]; write_register RB_MRT_BASE [0; 0];
   write_register GRAS_CL_VIEWPORT_XOFFSET
     [0x42000000; 0x42000000; 0x42000000; 0x42000000; 0x3f000000; 0x3f000000];
   write_register GRAS_SC_SCREEN_SCISSOR_TL [0; (63 << 16) .| 63];
   write_register GRAS_SC_VIEWPORT_SCISSOR_TL [0; (63 << 16) .| 63];
   write_register GRAS_SC_WINDOW_SCISSOR_TL [(8 << 16) .| 8; (55 << 16) .| 55];
   write_register VFD_INDEX_OFFSET [0; 0]; write_register VFD_VERTEX_BUFFER_BASE [0; 0];
   write_register VFD_VERTEX_BUFFER_SIZE [48; 16];
   command CP_DRAW_INDX_OFFSET [0x84; 1; 3]].

Definition sample_draw (variant : PipelineVariant) : list (list Z) :=
  match shader_meta (link_meta variant).(vs), shader_meta (link_meta variant).(fs) with
  | Vertex v, Fragment f =>
    sample_fixed_state ++ sample_vertex_state v ++ sample_fragment_state f ++
    sample_link_state variant ++ sample_target_and_draw ++ sample_epilogue
  | _, _ => []
  end.

Definition sample_words : list Z :=
  concat (sample_copy ++ sample_solid_blit ++ sample_sampled_blit ++ sample_draw Stride16Solid).

(** Resource 0 is the image, resource 1 the buffer; every address of the stream
    gets a relocation to what it needs. *)
Definition sample_relocation (f : AddressField) : Relocation :=
  let at_ := MkRelocation f.(af_word_offset) in
  match f.(af_source), f.(af_required_size) with
  | CanonicalShaderSource stage, _ =>
    let variant := match stage with VertexStage => VsStride16Pos2 | FragmentStage => FsSolid end in
    at_ (CanonicalShader variant) 0 (shader_size variant) ACCESS_READ GpuVa64
  | AttachmentSource, Some n => at_ (Attachment 1) 0 n f.(af_access) GpuVa64
  | AttachmentSource, None =>
    if f.(requires_complete_linear_image) || (f.(af_access) =? ACCESS_WRITE)
    then at_ (Attachment 0) 0 16384 f.(af_access) GpuVa64
    else at_ (Attachment 1) 0 48 f.(af_access) GpuVa64
  end.

Definition sample_fields : list AddressField :=
  match collect_packets sample_words with
  | Ok packets => concat (packet_fields <$> packets)
  | _ => []
  end.

Definition draw_submit : Submit :=
  MkSubmit sample_words [MkResource 1 0 16384 3; MkResource 2 0 4096 3]
    (sample_relocation <$> sample_fields).

Definition draw_bytes : list Z := wire_image 1 draw_submit.

(** What the context has attached. *)
Definition sample_image : LinearImage := MkLinearImage None Bgra8Unorm Linear 64 64 256 16384.

Definition sample_resolve (token : Z) : option ResolvedResource :=
  if token =? 1 then Some (MkResolvedResource 1 0x100000000 16384 3 (Some sample_image))
  else if token =? 2 then Some (MkResolvedResource 2 0x200000000 4096 3 None)
  else None.

Definition sample_resolve_shader (variant : ShaderVariant) : option ResolvedResource :=
  Some (MkResolvedResource 3 (0x300000000 + 4096 * shader_raw variant) 4096 ACCESS_READ None).

(** What the command processor is given. *)
Definition draw_out : list Z :=
  match validate_and_relocate sample_resolve sample_resolve_shader true draw_bytes with
  | Ok words => words
  | _ => []
  end.

Lemma draw_accepted :
  validate_and_relocate sample_resolve sample_resolve_shader true draw_bytes = Ok draw_out.
Proof. vm_compute. reflexivity. Qed.

Lemma draw_bytes_u8 : Forall u8 draw_bytes.
Proof.
  assert (forallb (λ b, (0 <=? b) && (b <? 0x100)) draw_bytes = true) as H by (vm_compute; reflexivity).
  apply Forall_forall. intros b Hb%list_elem_of_In. rewrite forallb_forall in H. specialize (H b Hb).
  bool_to_prop. by split.
Qed.

Lemma sample_objects_wf : objects_wf sample_resolve sample_resolve_shader.
Proof.
  split.
  - intros token obj H. unfold sample_resolve in H.
    repeat match type of H with (if ?c then _ else _) = _ => destruct c end; simplify_eq;
      split; unfold u64; cbn; lia.
  - intros variant obj H. injection H as <-. split; unfold u64; [|cbn; lia].
    pose proof (shader_raw_u16 variant). cbn [gpu_va]. lia.
Qed.
