(* ===== verification/SubmitConfinement.v ===== *)
(** * Confinement: what the command processor may reach

    The theorems a client of the submission path relies on.  They are about
    the words [validate_and_relocate] returns, read again as packets: they are
    the submitted commands with blank addresses filled in, and every address
    among them lies in an object of the submitting context.  The registers
    that packets write are defined here too. *)
From stdpp Require Import gmap.
From S2P Require Import Prelude F32 Pm4 ImageLayout ShaderPack SubmitWire SubmitWireFacts SubmitTypes.
From S2P Require Import SubmitPackets SubmitOrdering SubmitPacketFacts SubmitA2d SubmitSegment Submit3d.
From S2P Require Import SubmitRelocate SubmitSegmentFacts SubmitFields SubmitSafety SubmitSample.

(** ** Reading changed words as packets *)

(** The packet of the words [ws], which start at [off], where [p] was. *)
Definition reread (off : Z) (ws : list Z) (p : Packet) : Packet :=
  MkPacket p.(header)
    (slice ws (p.(word_offset) + 1 - off) (p.(word_offset) + 1 + len p.(payload) - off))
    p.(word_offset).

Lemma reread_skip off w body rest n p :
  len body = n → off + 1 + n ≤ p.(word_offset) →
  reread off (w :: body ++ rest) p = reread (off + 1 + n) rest p.
Proof.
  intros Hn Hp. unfold reread. f_equal.
  assert (len (w :: body) = 1 + n) as Hl by (unfold len in *; simpl; lia).
  change (w :: body ++ rest) with ((w :: body) ++ rest).
  rewrite slice_app_r by lia. rewrite Hl. f_equal; lia.
Qed.

Lemma reread_here off w h body rest :
  reread off (w :: body ++ rest) (MkPacket h body off) = MkPacket h body off.
Proof.
  unfold reread. cbn [header payload word_offset]. f_equal.
  change (w :: body ++ rest) with ([w] ++ body ++ rest).
  rewrite slice_app_r by (unfold len; simpl; lia).
  rewrite slice_app_l by (unfold len; simpl; lia).
  apply slice_all; unfold len; simpl; lia.
Qed.

Lemma split_at {A} (l : list A) n : (n ≤ length l)%nat → ∃ a b, l = a ++ b ∧ length a = n.
Proof. intros Hn. exists (take n l), (drop n l). by rewrite take_drop, length_take_le. Qed.

(** Words that keep the headers are the same packets with new payloads. *)
Lemma stream_reread off ws ws' ps :
  stream off ws ps → length ws' = length ws →
  (∀ p, p ∈ ps → ws' !! Z.to_nat (p.(word_offset) - off) = ws !! Z.to_nat (p.(word_offset) - off)) →
  stream off ws' (reread off ws' <$> ps).
Proof.
  intros Hs. revert ws'. induction Hs as [off|off w h body rest ps Hd Hl Hs IH]; intros ws' Hlen Hsame.
  { apply nil_length_inv in Hlen as ->. constructor. }
  destruct ws' as [|w' tail]; [done|]. simpl in Hlen. rewrite length_app in Hlen.
  pose proof (Hsame _ (list_elem_of_here _ _)) as Hw. cbn [word_offset] in Hw.
  rewrite Z.sub_diag in Hw. simpl in Hw. injection Hw as ->.
  destruct (split_at tail (length body)) as (body' & rest' & -> & Hbody'); [lia|].
  assert (len body' = header_count h) as Hb by (unfold len in *; lia).
  rewrite fmap_cons.
  replace (reread off (w :: body' ++ rest') (MkPacket h body off)) with (MkPacket h body' off).
  2:{ rewrite <- (reread_here off w h body' rest'). unfold reread. cbn [header payload word_offset].
      by unfold len; rewrite Hbody'. }
  replace (reread off (w :: body' ++ rest') <$> ps)
    with (reread (off + 1 + header_count h) rest' <$> ps).
  2:{ apply list_fmap_ext. intros i p Hp. symmetry. apply reread_skip; [done|].
      eapply stream_bounds; [done|]. by eapply list_elem_of_lookup_2. }
  constructor; [done|done|]. rewrite length_app in Hlen. apply IH; [lia|].
  intros p Hp. destruct (stream_bounds _ _ _ _ Hs Hp) as [Hlo _].
  specialize (Hsame p (list_elem_of_further _ _ _ Hp)). unfold len in Hb, Hl.
  rewrite !app_comm_cons, !lookup_app_r in Hsame by (cbn [length]; lia). cbn [length] in Hsame.
  by replace (Z.to_nat (word_offset p - (off + 1 + header_count h)))
    with (Z.to_nat (word_offset p - off) - S (length body))%nat by lia; rewrite <- Hbody' at 1.
Qed.

(** ** The address table does not read addresses *)

(** Word [i] of the payload of [p] is part of an address. *)
Definition address_word (p : Packet) (i : nat) : Prop :=
  ∃ f, f ∈ packet_fields p ∧
    f.(af_word_offset) ≤ p.(word_offset) + 1 + Z.of_nat i < f.(af_word_offset) + 2.

(** [p'] is [p] with other addresses. *)
Record same_but_addresses (p p' : Packet) : Prop := {
  same_header : p'.(header) = p.(header);
  same_offset : p'.(word_offset) = p.(word_offset);
  same_length : length p'.(payload) = length p.(payload);
  same_words i : ¬ address_word p i → p'.(payload) !! i = p.(payload) !! i;
}.

Lemma same_nth p p' i :
  same_but_addresses p p' → ¬ address_word p i → p'.(payload).[i] = p.(payload).[i].
Proof. intros Hs Hi. by rewrite !nth_lookup, (same_words _ _ Hs i Hi). Qed.

Lemma same_no_fields p p' :
  same_but_addresses p p' → packet_fields p = [] → p'.(payload) = p.(payload).
Proof.
  intros Hs Hn. apply list_eq. intros i. apply (same_words _ _ Hs).
  intros (f & Hf & _). rewrite Hn in Hf. by apply elem_of_nil in Hf.
Qed.

Lemma depth_info_payload p count :
  accepted p → p.(header) = Type4 RB_DEPTH_BUFFER_INFO count →
  eqs p.(payload) (replicate 6 0) = true ∨ p.(payload).[0] = DEPTH_FORMAT_32.
Proof.
  intros (before & after & H) Hh. unfold validate_packet in H. rewrite Hh in H.
  unfold validate_type4 in H.
  repeat (next_arm H Hc;
    [ first
      [ left; by apply andb_true_iff in Hc as [_ Hc]
      | right; do 5 apply andb_true_iff in Hc as [Hc _]; apply andb_true_iff in Hc as [_ Hc];
        by apply Z.eqb_eq
      | exfalso; repeat match type of Hc with _ && _ = true => apply andb_true_iff in Hc as [Hc _] end;
        vm_compute in Hc; discriminate Hc ]
    | clear Hc ]).
  done.
Qed.

Lemma type4_fields_depth register l1 l2 w :
  (register = RB_DEPTH_BUFFER_INFO → eqs l1 (replicate 6 0) = eqs l2 (replicate 6 0)) →
  type4_fields register l1 w = type4_fields register l2 w.
Proof.
  intros Heq. unfold type4_fields. destruct (Z.eqb_spec register RB_DEPTH_BUFFER_INFO) as [Hr|_].
  - by rewrite (Heq Hr).
  - done.
Qed.

Lemma depth_field_word l w f :
  f ∈ type4_fields RB_DEPTH_BUFFER_INFO l w → f.(af_word_offset) = w + 4.
Proof.
  change (type4_fields RB_DEPTH_BUFFER_INFO l w) with
    (if negb (eqs l (replicate 6 0)) then
       [attachment_field (w + 4) (ACCESS_READ .| ACCESS_WRITE) false None] else []).
  case_match; set_unfold; [|done]. by intros [->|[]].
Qed.

Lemma type4_fields_stable p p' register count :
  accepted p → p.(header) = Type4 register count → same_but_addresses p p' →
  type4_fields register p'.(payload) p.(word_offset)
    = type4_fields register p.(payload) p.(word_offset).
Proof.
  intros Ha Hh Hs. apply type4_fields_depth. intros ->.
  assert (packet_fields p = type4_fields RB_DEPTH_BUFFER_INFO p.(payload) p.(word_offset)) as Hf
    by (unfold packet_fields; by rewrite Hh).
  destruct (depth_info_payload p count Ha Hh) as [Hz|H4].
  - f_equal. apply same_no_fields; [done|]. rewrite Hf. unfold type4_fields. by rewrite Hz.
  - assert (p'.(payload).[0] = DEPTH_FORMAT_32) as H4'.
    { rewrite (same_nth p p' 0 Hs); [done|]. intros (f & Hin & Hw). rewrite Hf in Hin.
      apply depth_field_word in Hin. lia. }
    unfold eqs. rewrite !bool_decide_false; [done|..]; intros He.
    + by rewrite He in H4.
    + by rewrite He in H4'.
Qed.

(** Where the addresses of a command are, counted from its header. *)
Definition type7_offsets (opcode : Z) : list Z :=
  if opcode =? opcode.EVENT_WRITE then [2]
  else if opcode =? CP_MEMCPY then [2; 4]
  else if opcode =? CP_MEM_WRITE then [1; 7; 10]
  else if opcode =? CP_LOAD_STATE6_GEOM then [2]
  else if opcode =? CP_LOAD_STATE6_FRAG then [2]
  else if opcode =? CP_DRAW_INDX_OFFSET then [5]
  else [].

Lemma type7_field_word opcode l w f :
  f ∈ type7_fields opcode l w → ∃ k, k ∈ type7_offsets opcode ∧ f.(af_word_offset) = w + k.
Proof.
  unfold type7_fields, type7_offsets. intros Hf.
  repeat match type of Hf with context [opcode =? ?o] => destruct (opcode =? o) end;
    repeat match type of Hf with context [if ?c then _ else _] => destruct c end;
    set_unfold in Hf; destruct_or?; try done; subst f;
    cbn [attachment_field shader_field af_word_offset]; eexists; (split; [|reflexivity]); set_solver.
Qed.

(** Word [i] of the payload is no address. *)
Ltac keep_word Hs Hf :=
  rewrite (same_nth _ _ _ Hs) by
    (let f := fresh in let Hin := fresh in let Hw := fresh in let k := fresh in let Hk := fresh in
     intros (f & Hin & Hw); rewrite Hf in Hin; apply type7_field_word in Hin as (k & Hin & Hk);
     match type of Hin with _ ∈ ?l => let l' := eval vm_compute in l in change l with l' in Hin end;
     set_unfold in Hin; destruct_or?; try done; lia).

Lemma type7_fields_stable p p' opcode count :
  p.(header) = Type7 opcode count → same_but_addresses p p' →
  type7_fields opcode p'.(payload) p.(word_offset)
    = type7_fields opcode p.(payload) p.(word_offset).
Proof.
  intros Hh Hs.
  assert (packet_fields p = type7_fields opcode p.(payload) p.(word_offset)) as Hf
    by (unfold packet_fields; by rewrite Hh).
  unfold type7_fields at 1 2.
  replace (len p'.(payload)) with (len p.(payload)) by (unfold len; by rewrite (same_length _ _ Hs)).
  repeat (match goal with |- context [opcode =? ?o] => destruct (Z.eqb_spec opcode o) as [->|_] end;
          [ solve [ repeat keep_word Hs Hf; done ] | ]).
  done.
Qed.

Lemma fields_stable p p' :
  accepted p → same_but_addresses p p' → packet_fields p' = packet_fields p.
Proof.
  intros Ha Hs. unfold packet_fields. rewrite (same_header _ _ Hs), (same_offset _ _ Hs).
  destruct (header p) eqn:Hh; [by eapply type4_fields_stable|by eapply type7_fields_stable].
Qed.

(** ** The registers that packets write *)

(** Commands that write no register of their own: they order, synchronise,
    move memory, load shader state, blit or draw. *)
Definition QUIET_COMMANDS : list Z :=
  [opcode.WAIT_MEM_WRITES; opcode.WAIT_FOR_IDLE; opcode.EVENT_WRITE; opcode.SET_MARKER;
   CP_SKIP_IB2_ENABLE_GLOBAL; CP_SKIP_IB2_ENABLE_LOCAL; CP_SET_VISIBILITY_OVERRIDE; opcode.BLIT;
   CP_MEMCPY; CP_MEM_WRITE; CP_LOAD_STATE6_GEOM; CP_LOAD_STATE6_FRAG; CP_DRAW_INDX_OFFSET].

(** What the command processor writes for a packet: the payload of a type 4
    packet goes to consecutive registers, [CP_REG_WRITE] names one register
    and its value after a tracker word.  Of any other command nothing is known. *)
Definition register_writes (p : Packet) : option (gmap Z Z) :=
  match p.(header) with
  | Type4 register _ => Some (map_seqZ register p.(payload))
  | Type7 command _ =>
    if command =? CP_REG_WRITE then
      match p.(payload) with [_; register; value] => Some {[register := value]} | _ => None end
    else if one_of command QUIET_COMMANDS then Some ∅ else None
  end.

(** The registers after [packets]: the last write of each stands. *)
Definition register_file (packets : list Packet) : gmap Z Z :=
  foldl (λ file p, default ∅ (register_writes p) ∪ file) ∅ packets.

Lemma register_file_snoc packets p :
  register_file (packets ++ [p]) = default ∅ (register_writes p) ∪ register_file packets.
Proof. unfold register_file. by rewrite foldl_app. Qed.

(** The allowlist passes one register write, and quiet commands. *)
Lemma accepted_commands p command count :
  accepted p → p.(header) = Type7 command count →
  (command = CP_REG_WRITE ∧ p.(payload) = [2; RB_RENDER_CNTL; 0x10]) ∨
  (command ≠ CP_REG_WRITE ∧ one_of command QUIET_COMMANDS = true).
Proof.
  intros (before & after & H) Hh. unfold validate_packet in H. rewrite Hh in H. unfold validate_type7 in H.
  repeat (next_arm H Hc;
    [ repeat match type of Hc with _ && _ = true => apply andb_true_iff in Hc as [Hc _] end;
      apply Z.eqb_eq in Hc; subst command;
      first [ right; split; [done|vm_compute; reflexivity]
            | left; split; [done|]; step_ok H as u Hu; exact Hu ]
    | clear Hc ]).
  done.
Qed.

(** What a relocated packet writes: the registers its header names, or
    [RB_RENDER_CNTL]. *)
Lemma written_registers p p' :
  accepted p → same_but_addresses p p' → ∃ ws, register_writes p' = Some ws ∧
    match p.(header) with
    | Type4 register _ => ws = map_seqZ register p'.(payload)
    | Type7 _ _ => ∀ r, r ≠ RB_RENDER_CNTL → ws !! r = None
    end.
Proof.
  intros Ha Hs. unfold register_writes. rewrite (same_header _ _ Hs).
  destruct (header p) as [b c|command c] eqn:Hh; [by eexists|].
  destruct (accepted_commands p command c Ha Hh) as [[-> Hp]|[Hn ->]].
  - rewrite (same_no_fields p p' Hs), Hp by (unfold packet_fields; by rewrite Hh).
    eexists. split; [done|]. intros r Hr. by rewrite lookup_singleton_ne.
  - rewrite (proj2 (Z.eqb_neq _ _) Hn). eexists. split; [done|]. intros. apply lookup_empty.
Qed.

(** ** The ranges of registers that the allowlist passes *)

(** The arms of [validate_type4]: registers, and how many words a packet that
    starts at one of them may have at most. *)
Definition TYPE4_RANGES : list (list Z * Z) :=
  [([RB_CCU_CNTL], 1); ([RB_DBG_ECO_CNTL], 1); ([RB_A2D_BLT_CNTL; GRAS_A2D_BLT_CNTL], 1);
   ([RB_A2D_PIXEL_CNTL], 1); ([RB_A2D_DEST_BUFFER_INFO], 1); ([RB_A2D_DEST_BUFFER_BASE], 2);
   ([RB_A2D_DEST_BUFFER_PITCH], 1); ([RB_A2D_CLEAR_COLOR_DW0], 4); ([GRAS_A2D_SRC_XMIN], 4);
   ([GRAS_A2D_DEST_TL; GRAS_A2D_SCISSOR_TL], 2); ([SP_A2D_OUTPUT_INFO], 1);
   ([TPL1_A2D_SRC_TEXTURE_INFO], 1); ([TPL1_A2D_SRC_TEXTURE_SIZE], 1);
   ([TPL1_A2D_SRC_TEXTURE_BASE], 2); ([TPL1_A2D_SRC_TEXTURE_PITCH], 1); ([GRAS_SC_CNTL], 1);
   ([GRAS_SC_BIN_CNTL; RB_CNTL], 1); (ZERO_REGISTERS, 1); ([GRAS_SU_DEPTH_BUFFER_INFO], 1);
   ([GRAS_SU_DEPTH_CNTL], 1); ([RB_DEPTH_CNTL], 1); ([VFD_MODE_CNTL], 1); ([VPC_SO_OVERRIDE], 1);
   ([PC_MODE_CNTL], 1); ([SP_MODE_CNTL], 1); ([TPL1_MODE_CNTL], 1); ([RB_MODE_CNTL], 1);
   ([SP_UPDATE_CNTL], 1); ([SP_HS_CONFIG; SP_DS_CONFIG; SP_GS_CONFIG], 1);
   ([SP_VS_PROGRAM_COUNTER_OFFSET], 7); ([SP_PS_PROGRAM_COUNTER_OFFSET], 7); ([SP_LB_PARAM_LIMIT], 1);
   ([GRAS_CL_CNTL], 1); ([GRAS_CL_GUARDBAND_CLIP_ADJ], 1); ([GRAS_SU_POINT_MINMAX], 1);
   ([GRAS_SU_POINT_SIZE], 1); ([GRAS_SU_POLY_OFFSET_SCALE], 3); ([GRAS_SU_DEPTH_PLANE_CNTL], 1);
   ([GRAS_LRZ_MRT_BUFFER_INFO_0], 1); ([TPL1_RAS_MSAA_CNTL], 2);
   ([GRAS_SC_RAS_MSAA_CNTL; RB_RAS_MSAA_CNTL], 3); ([TPL1_MSAA_SAMPLE_POS_CNTL], 1);
   ([RB_DEPTH_BUFFER_INFO], 6); ([RB_DEPTH_BOUND_MIN], 2); ([RB_STENCIL_MASK], 2);
   ([RB_COLOR_FLAG_BUFFER_ADDR], 3); ([RB_DEPTH_FLAG_BUFFER_BASE], 3);
   ([VPC_VARYING_INTERP_MODE; VPC_VARYING_REPLACE_MODE], 8); ([RB_MRT_CONTROL], 2);
   ([RB_MRT_BUF_INFO], 1); ([RB_MRT_PITCH], 2); ([RB_MRT_BASE], 2); ([RB_BLEND_CNTL], 1);
   ([SP_BLEND_CNTL], 1); ([SP_PS_MRT_CNTL; RB_PS_MRT_CNTL], 1); ([SP_PS_MRT_REG], 1);
   ([GRAS_CL_VIEWPORT_XOFFSET], 6);
   ([GRAS_SC_SCREEN_SCISSOR_TL; GRAS_SC_VIEWPORT_SCISSOR_TL; GRAS_SC_WINDOW_SCISSOR_TL], 2);
   ([GRAS_SU_CNTL], 1); ([VPC_RAST_CNTL; PC_DGEN_RAST_CNTL], 1); ([VFD_CNTL_0], 1); ([VFD_CNTL_1], 6);
   ([VFD_INDEX_OFFSET], 2); ([VFD_VERTEX_BUFFER_BASE], 2); ([VFD_VERTEX_BUFFER_SIZE], 2);
   ([VFD_FETCH_INSTR], 6); ([VFD_DEST_CNTL], TYPE4_MAX_COUNT); (SHADER_REGISTERS, TYPE4_MAX_COUNT);
   ([SP_PS_INITIAL_TEX_INDEX_CMD], 1); ([SP_PS_TSIZE], 1); ([SP_PS_SAMPLER_BASE], 2);
   ([SP_PS_TEXMEMOBJ_BASE], 2); ([SP_VS_OUTPUT_CNTL; VPC_VS_CNTL; VPC_PS_CNTL; PC_VS_CNTL], 1);
   ([SP_VS_OUTPUT_REG; SP_VS_VPC_DEST_REG], 2); ([VPC_VARYING_LM_TRANSFER_CNTL_DISABLE], 4);
   ([VPC_VS_CLIP_CULL_CNTL; VPC_VS_CLIP_CULL_CNTL_V2], 1); ([VPC_VS_SIV_CNTL; VPC_VS_SIV_CNTL_V2], 1)].

Lemma arm_then {A} (c : bool) (m k : outcome string A) (a : A) (P : Prop) :
  (c = true → m = Ok a → P) → (k = Ok a → P) → (if c then m else k) = Ok a → P.
Proof. destruct c; auto. Qed.

(** One arm of the allowlist. *)
Ltac range_arm :=
  intros Harm _;
  repeat match goal with
  | H : _ && _ = true |- _ => apply andb_true_iff in H as [? ?]
  | H : (_ =? _) = true |- _ => apply Z.eqb_eq in H
  | H : (_ <=? _) = true |- _ => apply Z.leb_le in H
  end;
  match goal with H : one_of _ ?l = true |- _ =>
    eexists l, _; split; [|split; [exact H|first [apply Z.eq_le_incl; eassumption|eassumption]]];
    apply list_elem_of_In; unfold TYPE4_RANGES;
    repeat (first [left; reflexivity|right])
  end.

Lemma validate_type4_range register payload w before after :
  len payload ≤ TYPE4_MAX_COUNT → validate_type4 register payload w before = Ok after →
  ∃ l n, (l, n) ∈ TYPE4_RANGES ∧ one_of register l = true ∧ len payload ≤ n.
Proof.
  intros Hn. unfold validate_type4. cbv zeta.
  repeat (apply arm_then; [range_arm|]). done.
Qed.

(** What holds of every range holds of every register write that passed. *)
Lemma accepted_range (clear : Z → Z → bool) p register count :
  forallb (λ '(l, n), forallb (λ r, clear r n) l) TYPE4_RANGES = true →
  accepted p → p.(header) = Type4 register count → len p.(payload) ≤ TYPE4_MAX_COUNT →
  ∃ n, len p.(payload) ≤ n ∧ clear register n = true.
Proof.
  intros Hall (before & after & H) Hh Hn. unfold validate_packet in H. rewrite Hh in H.
  destruct (validate_type4_range _ _ _ _ _ Hn H) as (l & n & Hin%list_elem_of_In & Hone & Hl).
  rewrite forallb_forall in Hall. specialize (Hall _ Hin). cbn in Hall. exists n. split; [done|].
  unfold one_of in Hone. apply existsb_exists in Hone as (r & Hr & ->%Z.eqb_eq).
  rewrite forallb_forall in Hall. auto.
Qed.

Lemma decode_type4_count w r c : decode_header w = Ok (Type4 r c) → c ≤ TYPE4_MAX_COUNT.
Proof.
  unfold decode_header. repeat case_match; try done. intros [= <- <-]. bool_to_prop. unfold TYPE4_MAX_COUNT. lia.
Qed.

Lemma stream_type4_count off ws ps p r c :
  stream off ws ps → p ∈ ps → p.(header) = Type4 r c → len p.(payload) = c ∧ c ≤ TYPE4_MAX_COUNT.
Proof.
  induction 1 as [|off w h body rest ps Hd Hl Hs IH]; [by intros ?%elem_of_nil|].
  intros [->|Hp]%elem_of_cons Hh; [|auto]. cbn in *. subst h. split; [done|]. by eapply decode_type4_count.
Qed.

(** ** Where the packets of a stream are *)

Lemma lookup_slice {A} (l : list A) a b i :
  0 ≤ a → Z.of_nat i < b - a → slice l a b !! i = l !! Z.to_nat (a + Z.of_nat i).
Proof.
  intros Ha Hi. unfold slice. rewrite lookup_take_lt, lookup_drop by lia. f_equal. lia.
Qed.

Lemma slice_length {A} (l : list A) a c :
  0 ≤ a ≤ c → c ≤ len l → length (slice l a c) = Z.to_nat (c - a).
Proof. intros. pose proof (length_slice l a c). unfold len in *. lia. Qed.

Lemma stream_reread_same off ws ps p : stream off ws ps → p ∈ ps → reread off ws p = p.
Proof.
  induction 1 as [|off w h body rest ps Hd Hl Hs IH]; intros Hp; [by apply elem_of_nil in Hp|].
  apply elem_of_cons in Hp as [->|Hp]; [by apply reread_here|].
  rewrite (reread_skip off w body rest (header_count h)); [auto|done|].
  by eapply stream_bounds.
Qed.

Definition packet_covers (p : Packet) (k : Z) : Prop :=
  p.(word_offset) ≤ k < p.(word_offset) + 1 + len p.(payload).

Lemma stream_disjoint off ws ps p q k :
  stream off ws ps → p ∈ ps → q ∈ ps → packet_covers p k → packet_covers q k → p = q.
Proof.
  unfold packet_covers.
  induction 1 as [|off w h body rest ps Hd Hl Hs IH]; intros Hp Hq Hpk Hqk; [by apply elem_of_nil in Hp|].
  apply elem_of_cons in Hp as [->|Hp]; apply elem_of_cons in Hq as [->|Hq];
    cbn [word_offset payload] in *; [done| | |auto].
  - pose proof (stream_bounds _ _ _ _ Hs Hq). lia.
  - pose proof (stream_bounds _ _ _ _ Hs Hp). lia.
Qed.

Lemma covered_word p f k :
  field_within p f → f.(af_word_offset) ≤ k < f.(af_word_offset) + 2 →
  packet_covers p k ∧ p.(word_offset) < k.
Proof. unfold field_within, packet_covers. lia. Qed.

Lemma validated_within s packets addresses p f :
  Forall u32 s.(pm4) → validated s packets addresses → p ∈ packets → f ∈ packet_fields p →
  field_within p f.
Proof.
  intros Hwf Hval Hp Hf. destruct Hval.
  assert (Forall (field_within p) (packet_fields p)) as Hall.
  { apply packet_fields_within; [auto|]. by eapply stream_payload. }
  rewrite Forall_forall in Hall. auto.
Qed.

Lemma ldiff_trans a b c : a .&~ b = 0 → b .&~ c = 0 → a .&~ c = 0.
Proof.
  intros Hab Hbc. apply Z.bits_inj'. intros i Hi.
  apply (f_equal (λ z, Z.testbit z i)) in Hab, Hbc. rewrite !Z.ldiff_spec, !Z.bits_0 in *.
  by destruct (Z.testbit a i), (Z.testbit b i), (Z.testbit c i).
Qed.

Section Confinement.
Context (resolve : Z → option ResolvedResource).
Context (resolve_shader : ShaderVariant → option ResolvedResource).

Lemma admitted_field s packets addresses resources out i r :
  admitted resolve resolve_shader s packets addresses resources out → s.(relocations) !! i = Some r →
  ∃ p f a, p ∈ packets ∧ f ∈ packet_fields p ∧ field_within p f ∧
    concat (packet_fields <$> packets) !! i = Some f ∧ addresses !! i = Some a ∧
    refines f a ∧ relocation_matches a r = true ∧ f.(af_word_offset) = r.(pm4_word_offset).
Proof.
  intros [Hc Hwf _ _ Hval _ _ _ _] Hr. pose proof Hval as [Hs Hacc _ Href Hlen Hmatch _ _ _ _].
  destruct (lookup_lt_is_Some_2 addresses i) as [a Ha].
  { rewrite Hlen. by eapply lookup_lt_Some. }
  destruct (Forall2_lookup_r _ _ _ _ _ Href Ha) as (f & Hf & Hfa).
  pose proof (Hmatch i a r Ha Hr) as Hm.
  pose proof Hf as (l & (p & -> & Hp)%list_elem_of_fmap & Hin)%list_elem_of_lookup_2%elem_of_concat.
  exists p, f, a. split_and!; try done.
  - destruct Hwf. by eapply validated_within.
  - unfold relocation_matches in Hm. bool_to_prop. rewrite <- (ref_word _ _ Hfa). congruence.
Qed.

Lemma admitted_same s packets addresses resources out p :
  admitted resolve resolve_shader s packets addresses resources out → p ∈ packets →
  same_but_addresses p (reread 0 out p) ∧
  out !! Z.to_nat p.(word_offset) = s.(pm4) !! Z.to_nat p.(word_offset).
Proof.
  intros Hadm Hp. pose proof (val_stream _ _ _ (adm_validated _ _ _ _ _ _ _ Hadm)) as Hs.
  pose proof (stream_bounds _ _ _ _ Hs Hp) as [Hlo Hhi].
  pose proof (adm_length _ _ _ _ _ _ _ Hadm) as Hlen.
  assert (∀ k, packet_covers p (Z.of_nat k) →
            (∀ f, f ∈ packet_fields p → ¬ f.(af_word_offset) ≤ Z.of_nat k < f.(af_word_offset) + 2) →
            out !! k = s.(pm4) !! k) as Hkeep.
  { intros k Hk Hno. apply (adm_unchanged _ _ _ _ _ _ _ Hadm). intros r [i Hi]%list_elem_of_lookup Hcov.
    destruct (admitted_field _ _ _ _ _ _ _ Hadm Hi) as (q & f & a & Hq & Hf & Hw & _ & _ & _ & _ & Heq).
    unfold covers in Hcov. rewrite <- Heq in Hcov.
    assert (p = q) as <- by (eapply stream_disjoint; eauto; by eapply covered_word).
    by apply (Hno f). }
  split.
  - constructor; [done|done| |].
    + cbn [reread payload]. rewrite slice_length by (unfold len in *; lia). unfold len. lia.
    + intros i Hi. rewrite <- (stream_reread_same _ _ _ _ Hs Hp) at 2. cbn [reread payload].
      destruct (decide (Z.of_nat i < len p.(payload))).
      * rewrite !lookup_slice by lia. apply Hkeep; [unfold packet_covers; lia|].
        intros f Hf Hfk. apply Hi. exists f. split; [done|]. lia.
      * rewrite !lookup_ge_None_2; [done|..]; rewrite slice_length; unfold len in *; lia.
  - apply Hkeep; [unfold packet_covers; pose proof (len_nonneg p.(payload)); lia|].
    intros f Hf Hfk. assert (field_within p f) as Hw.
    { destruct Hadm as [_ [] _ _ Hval _ _ _ _]. by eapply validated_within. }
    destruct (covered_word p f _ Hw Hfk). lia.
Qed.

(** ** Every address has an object behind it *)

(** The object an address may point into: one attached to the context, or a
    canonical program of the right stage. *)
Definition authority (source : AddressSource) (obj : ResolvedResource) : Prop :=
  match source with
  | AttachmentSource => ∃ token, resolve token = Some obj
  | CanonicalShaderSource stage => ∃ variant, resolve_shader variant = Some obj ∧
      is_vertex variant = bool_decide (stage = VertexStage)
  end.

(** The words of [out] at the field [f] hold an [address], and the [size] bytes
    there, at least one, are part of [obj], which allows the field's access. *)
Record confined (out : list Z) (f : AddressField) (obj : ResolvedResource) (address size : Z) : Prop := {
  con_authority : authority f.(af_source) obj;
  con_access : f.(af_access) .&~ obj.(allowed_access) = 0;
  con_holds : holds_address out f.(af_encoding) f.(af_word_offset) address;
  con_start : obj.(gpu_va) ≤ address;
  con_end : address + size ≤ obj.(gpu_va) + obj.(allocation_size);
  con_fits : address + size ≤ U64_MAX;
  con_positive : 0 < size;
  con_size n : f.(af_required_size) = Some n → size = n;
}.

Lemma confined_refines out f a obj address size :
  refines f a → confined out a obj address size → confined out f obj address size.
Proof.
  intros Href []. destruct Href. constructor; try congruence. intros n Hn. auto.
Qed.

Hypothesis Hobjects : objects_wf resolve resolve_shader.

(** The object behind what a relocation resolved to. *)
Lemma relocated_object s packets addresses resources out i r res a :
  admitted resolve resolve_shader s packets addresses resources out → s.(relocations) !! i = Some r →
  relocated resolve_shader resources addresses out i r res a → relocation_matches a r = true →
  ∃ obj, authority a.(af_source) obj ∧ obj.(gpu_va) ≤ res.(gpu_va) ∧
    res.(gpu_va) + res.(allocation_size) ≤ obj.(gpu_va) + obj.(allocation_size) ∧
    res.(allowed_access) .&~ obj.(allowed_access) = 0.
Proof.
  intros Hadm Hr Hrel Hm. destruct Hobjects as [Hatt Hsh]. unfold relocation_matches in Hm. bool_to_prop.
  match goal with H : address_source_matches _ _ = true |- _ => rename H into Hsrc end.
  pose proof (rel_resource _ _ _ _ _ _ _ _ Hrel) as Hres. unfold relocation_resource in Hres.
  destruct (source r) as [k|variant].
  - apply ok_or_Ok in Hres. destruct (adm_views _ _ _ _ _ _ _ Hadm _ _ Hres) as (wire & obj & Hw & [Hvo Hva Hvs Hvr Hvd Hvacc Hvf]).
    exists obj. destruct (af_source a) as [|[]]; try done. destruct (Hatt _ _ Hvo) as [[??] [??]].
    assert (wf_resource wire) as (_ & [??] & _).
    { destruct Hadm as [_ (_ & Hwf & _) _ _ _ _ _ _ _]. rewrite Forall_lookup in Hwf. eauto. }
    split_and!; [by eexists|lia|lia|by rewrite Hvd].
  - apply ok_or_Ok in Hres. exists res. destruct (Hsh _ _ Hres) as [_ [??]].
    split_and!; [|lia|lia|by rewrite Z.ldiff_diag].
    destruct (af_source a) as [|[]]; try done; exists variant; (split; [done|]);
      cbn in Hsrc; by destruct (is_vertex variant).
Qed.

(** A relocation covers at least one byte. *)
Lemma admitted_size s packets addresses resources out i r :
  admitted resolve resolve_shader s packets addresses resources out → s.(relocations) !! i = Some r →
  0 < r.(required_size).
Proof.
  intros Hadm Hr. pose proof (adm_relocations _ _ _ _ _ _ _ Hadm) as Hall. rewrite Forall_lookup in Hall.
  destruct (Hall _ _ Hr) as (_ & Ht & _). unfold target_valid in Ht. destruct (source r) as [k|v].
  - by destruct Ht as (_ & _ & _ & ? & _).
  - destruct Ht as (_ & -> & _). pose proof (size_bounds v). lia.
Qed.

Lemma admitted_confined s packets addresses resources out i f :
  admitted resolve resolve_shader s packets addresses resources out →
  concat (packet_fields <$> packets) !! i = Some f →
  ∃ r res a obj, s.(relocations) !! i = Some r ∧
    relocated resolve_shader resources addresses out i r res a ∧ refines f a ∧
    confined out a obj (res.(gpu_va) + r.(resource_offset)) r.(required_size).
Proof.
  intros Hadm Hf. pose proof (adm_validated _ _ _ _ _ _ _ Hadm) as Hval.
  destruct (Forall2_lookup_l _ _ _ _ _ (val_refines _ _ _ Hval) Hf) as (a & Ha & Href).
  destruct (lookup_lt_is_Some_2 s.(relocations) i) as [r Hr].
  { rewrite <- (val_length _ _ _ Hval). by eapply lookup_lt_Some. }
  destruct (adm_relocated _ _ _ _ _ _ _ Hadm _ _ Hr) as (res & a' & Hrel).
  assert (a' = a) as -> by (pose proof (rel_field _ _ _ _ _ _ _ _ Hrel); congruence).
  pose proof (val_matches _ _ _ Hval _ _ _ Ha Hr) as Hm.
  destruct (relocated_object _ _ _ _ _ _ _ _ _ Hadm Hr Hrel Hm) as (obj & Hauth & Hlo & Hhi & Hacc).
  exists r, res, a, obj. split_and!; try done.
  assert (wf_relocation r) as (_ & _ & [??] & _).
  { destruct Hadm as [_ (_ & _ & Hwf) _ _ _ _ _ _ _]. rewrite Forall_lookup in Hwf. eauto. }
  unfold relocation_matches in Hm. bool_to_prop. destruct Hrel. constructor; [done| | |lia|lia|lia| |].
  - match goal with H : rel_access r = _ |- _ => rewrite <- H end. by eapply ldiff_trans.
  - congruence.
  - by eapply admitted_size.
  - eauto.
Qed.

(** The packets of the result are the submitted ones with other addresses. *)
Lemma admitted_packets s packets addresses resources out :
  admitted resolve resolve_shader s packets addresses resources out →
  collect_packets s.(pm4) = Ok packets ∧ collect_packets out = Ok (reread 0 out <$> packets) ∧
  Forall2 same_but_addresses packets (reread 0 out <$> packets).
Proof.
  intros Hadm. pose proof (val_stream _ _ _ (adm_validated _ _ _ _ _ _ _ Hadm)) as Hs.
  pose proof (adm_length _ _ _ _ _ _ _ Hadm) as Hlen.
  pose proof (pm4_len_bound s (adm_counts _ _ _ _ _ _ _ Hadm)) as Hmax. split_and!.
  - apply collect_packets_complete; [unfold U32_MAX; lia|done].
  - apply collect_packets_complete; [unfold len in *; rewrite Hlen; unfold U32_MAX; lia|].
    eapply stream_reread; [done..|]. intros p Hp. rewrite Z.sub_0_r. by eapply admitted_same.
  - apply Forall2_fmap_r, Forall_Forall2_diag, Forall_forall. intros p Hp. by eapply admitted_same.
Qed.
(** Every address field of the result is confined. *)
Lemma admitted_fields s packets addresses resources out :
  admitted resolve resolve_shader s packets addresses resources out →
  ∃ packets', collect_packets out = Ok packets' ∧
    ∀ p f, p ∈ packets' → f ∈ packet_fields p → ∃ obj address size, confined out f obj address size.
Proof.
  intros Hadm. destruct (admitted_packets _ _ _ _ _ Hadm) as (_ & Hout & _).
  exists (reread 0 out <$> packets). split; [done|]. intros p' f (p & -> & Hp)%list_elem_of_fmap Hf.
  destruct (admitted_same _ _ _ _ _ _ Hadm Hp) as [Hsame _].
  rewrite (fields_stable p) in Hf; [|by apply (val_accepted _ _ _ (adm_validated _ _ _ _ _ _ _ Hadm))|done].
  assert (f ∈ concat (packet_fields <$> packets)) as [i Hi]%list_elem_of_lookup.
  { apply elem_of_concat. exists (packet_fields p). split; [|done]. apply list_elem_of_fmap. eauto. }
  destruct (admitted_confined _ _ _ _ _ _ _ Hadm Hi) as (r & rs & a & obj & _ & _ & Href & Hcon).
  eexists obj, _, _. by eapply confined_refines.
Qed.
End Confinement.

Section Theorems.
Context (resolve : Z → option ResolvedResource).
Context (resolve_shader : ShaderVariant → option ResolvedResource).

(** C1: the GPU only reaches memory of the submitting context.  The words an
    accepted submission sends to the command processor parse as packets, and
    each address field of each packet holds an address whose bytes, at least
    one, lie in an object attached to the context (a canonical program of the
    right stage for shader state), with an access that the object allows; where
    the command fixes how many bytes it touches, that many bytes are inside. *)
Theorem gpu_access_confined (strict : bool) (bytes out : list Z) :
  objects_wf resolve resolve_shader → Forall u8 bytes →
  validate_and_relocate resolve resolve_shader strict bytes = Ok out →
  ∃ packets, collect_packets out = Ok packets ∧
    ∀ p f, p ∈ packets → f ∈ packet_fields p →
      ∃ obj address size, confined resolve resolve_shader out f obj address size.
Proof.
  intros Hobj Hb H.
  destruct (validate_and_relocate_admitted _ _ _ _ _ Hobj Hb H) as (d & s & ps & l & res & _ & _ & Hadm).
  by eapply admitted_fields.
Qed.

(** C5: relocation changes nothing else.  The words an accepted submission
    sends to the command processor are the submitted packets, in order, each
    passed by the allowlist, with the same header and the same payload
    except for the address words; and the submitted packets satisfy the
    copy-barrier, colour-cache and retirement rules. *)
Theorem relocation_preserves_commands (strict : bool) (bytes out : list Z) :
  objects_wf resolve resolve_shader → Forall u8 bytes →
  validate_and_relocate resolve resolve_shader strict bytes = Ok out →
  ∃ d s packets packets',
    decode bytes = Ok d ∧ submit_of d = Ok s ∧
    collect_packets s.(pm4) = Ok packets ∧ collect_packets out = Ok packets' ∧
    Forall accepted packets ∧ Forall2 same_but_addresses packets packets' ∧
    validate_memcpy_barriers packets = Ok () ∧ validate_ccu_transitions packets = Ok () ∧
    validate_render_retirement packets = Ok ().
Proof.
  intros Hobj Hb H.
  destruct (validate_and_relocate_admitted _ _ _ _ _ Hobj Hb H) as (d & s & ps & l & res & Hd & Hs & Hadm).
  destruct (admitted_packets _ _ _ _ _ _ _ Hadm) as (Hin & Hout & Hsame).
  destruct (adm_validated _ _ _ _ _ _ _ Hadm).
  exists d, s, ps, (reread 0 out <$> ps). split_and!; try done. by apply Forall_forall.
Qed.
End Theorems.

Lemma gpu_access_confined_witness :
  ∃ packets, collect_packets draw_out = Ok packets ∧
    ∀ p f, p ∈ packets → f ∈ packet_fields p →
      ∃ obj address size, confined sample_resolve sample_resolve_shader draw_out f obj address size.
Proof. exact (gpu_access_confined _ _ _ _ _ sample_objects_wf draw_bytes_u8 draw_accepted). Defined.

Lemma relocation_preserves_commands_witness :
  ∃ d s packets packets',
    decode draw_bytes = Ok d ∧ submit_of d = Ok s ∧
    collect_packets s.(pm4) = Ok packets ∧ collect_packets draw_out = Ok packets' ∧
    Forall accepted packets ∧ Forall2 same_but_addresses packets packets' ∧
    validate_memcpy_barriers packets = Ok () ∧ validate_ccu_transitions packets = Ok () ∧
    validate_render_retirement packets = Ok ().
Proof. exact (relocation_preserves_commands _ _ _ _ _ sample_objects_wf draw_bytes_u8 draw_accepted). Defined.
