(* ===== verification/SubmitGeometry.v ===== *)
(** * Vertices of draws and pixels of blits

    The address checks of [validate_and_relocate] bound the bytes a command
    declares.  This file ties those declarations to what the 3D and 2D engines
    fetch: the vertices a draw reads, and the pixels a blit reads or writes. *)
From stdpp Require Import gmap.
From S2P Require Import Prelude F32 Pm4 ImageLayout ShaderPack SubmitWire SubmitWireFacts SubmitTypes.
From S2P Require Import SubmitPackets SubmitOrdering SubmitPacketFacts SubmitA2d SubmitSegment Submit3d.
From S2P Require Import SubmitRelocate SubmitSegmentFacts SubmitFields SubmitSafety SubmitSample SubmitConfinement.

(** ** Loops with an index *)

Lemma foldM_enumerate {E S X} (P : nat → S → Prop) (f : S → Z * X → outcome E S) s0 l s' :
  P 0%nat s0 →
  (∀ n x s s', l !! n = Some x → P n s → f s (Z.of_nat n, x) = Ok s' → P (Datatypes.S n) s') →
  foldM f s0 (enumerate l) = Ok s' → P (length l) s'.
Proof.
  intros H0 Hstep. unfold enumerate, range, len. rewrite Nat2Z.id.
  assert (∀ k s rest, (∀ i, rest !! i = l !! (k + i)%nat) → P k s →
    foldM f s (zip (Z.of_nat <$> seq k (length rest)) rest) = Ok s' → P (k + length rest)%nat s') as Hgen.
  { intros k s rest. revert k s. induction rest as [|x rest IH]; intros k s Hl Hk H.
    - injection H as <-. by rewrite Nat.add_0_r.
    - cbn [length seq] in H. rewrite fmap_cons in H. cbn [zip zip_with foldM] in H. step_ok H as s1 H1.
      pose proof (Hl 0%nat) as Hx. rewrite Nat.add_0_r in Hx. simpl in Hx.
      apply IH in H; [|intros i; specialize (Hl (Datatypes.S i)); simpl in Hl; rewrite Hl; f_equal; lia|by eauto].
      cbn [length]. by rewrite Nat.add_succ_r. }
  intros H. by apply (Hgen 0%nat s0 l).
Qed.

(** ** The order of packets *)

Lemma stream_ordered off ws ps i j p q :
  stream off ws ps → ps !! i = Some p → ps !! j = Some q → (i < j)%nat →
  p.(word_offset) < q.(word_offset).
Proof.
  intros Hs. revert i j. induction Hs as [|off w h body rest ps Hd Hl Hs IH]; intros i j Hi Hj Hij; [done|].
  destruct j as [|j]; [lia|]. destruct i as [|i]; simplify_eq/=.
  - pose proof (stream_bounds _ _ _ _ Hs (list_elem_of_lookup_2 _ _ _ Hj)).
    pose proof (len_nonneg body). lia.
  - eapply IH; eauto. lia.
Qed.

Lemma elem_of_slice_index {A} (l : list A) a b x :
  0 ≤ a → x ∈ slice l a b → ∃ k, l !! k = Some x ∧ a ≤ Z.of_nat k < b.
Proof.
  unfold slice. intros Ha (k & Hk & Hlt)%elem_of_take. rewrite lookup_drop in Hk.
  eexists. split; [exact Hk|]. lia.
Qed.

Lemma refine_lookup l l' j a :
  refine_fields l l' → l !! j = Some a → ∃ a', l' !! j = Some a' ∧ refines a a'.
Proof. intros Hl Hj. by apply (Forall2_lookup_l _ _ _ _ _ Hl). Qed.

(** ** Draws *)

(** The field of the vertex buffer whose base is written at packet word [base]
    demands exactly [size] bytes. *)
Definition vertex_field (l : list AddressField) (base size : Z) : Prop :=
  ∃ j a, l !! j = Some a ∧ a.(af_word_offset) = base + 1 ∧ a.(af_required_size) = Some size.

Lemma vertex_field_refines l l' base size :
  refine_fields l l' → vertex_field l base size → vertex_field l' base size.
Proof.
  intros Hl (j & a & Hj & Hw & Hn). destruct (refine_lookup _ _ _ _ Hl Hj) as (a' & Hj' & Href).
  exists j, a'. split_and!; [done|by rewrite (ref_word _ _ Href)|by apply (ref_size _ _ Href)].
Qed.

Lemma vertex_field_insert l i a n base size base' :
  l !! i = Some a → a.(af_word_offset) = base' + 1 →
  (base ≠ base' → vertex_field l base size) → (base = base' → n = size) →
  vertex_field (<[i := with_size n a]> l) base size.
Proof.
  intros Hi Ha Hne Heq. destruct (decide (base = base')) as [->|Hb].
  - exists i, (with_size n a). rewrite list_lookup_insert_eq by by eapply lookup_lt_Some.
    by rewrite (Heq eq_refl).
  - destruct (Hne Hb) as (j & b & Hj & Hw & Hn). exists j, b.
    rewrite list_lookup_insert_ne; [done|]. intros ->. assert (a = b) as -> by congruence. lia.
Qed.

Section Draws.
Context (ws : list Z) (packets : list Packet).
Hypothesis Hstream : stream 0 ws packets.

(** No packet from [start] up to [n] is a draw. *)
Definition no_draw (start n : Z) : Prop :=
  ∀ k p, packets !! k = Some p → start ≤ Z.of_nat k < n → is_draw p = false.

(** The [i]-th packet, a draw, was checked: its segment starts after the
    previous draw and sets up the vertices it reads. *)
Definition draw_checked (l : list AddressField) (i : nat) (draw : Packet) : Prop :=
  ∃ start base size stride first, 0 ≤ start ≤ Z.of_nat i ∧ no_draw start (Z.of_nat i) ∧
    vertex_span (SegmentIndex_new (slice packets start (Z.of_nat i))) draw base size stride first ∧
    vertex_field l base size.

Lemma segment_base start n r base p :
  0 ≤ start → reg (SegmentIndex_new (slice packets start n)) r = Some (base, p) →
  ∃ k q, packets !! k = Some q ∧ start ≤ Z.of_nat k < n ∧ q.(word_offset) = base.
Proof.
  intros Hs (q & c & Hq & _ & -> & _)%reg_new_elem. apply elem_of_slice_index in Hq as (k & Hk & ?); [|done].
  by exists k, q.
Qed.

Definition draws_done (n : nat) (s : ThreeDState) : Prop :=
  0 ≤ s.(segment_start) ≤ Z.of_nat n ∧ no_draw s.(segment_start) (Z.of_nat n) ∧
  ∀ i draw, packets !! i = Some draw → Z.of_nat i < Z.of_nat n → is_draw draw = true →
    Z.of_nat i < s.(segment_start) ∧ draw_checked s.(addresses3) i draw.

(** A later draw does not touch the vertex field of an earlier one. *)
Lemma draw_checked_vertices l l' i draw start n draw' :
  Z.of_nat i < start → check_vertices (SegmentIndex_new (slice packets start n)) draw' l = Ok l' →
  draw_checked l i draw → draw_checked l' i draw.
Proof.
  intros Hi (base' & size' & stride' & first' & j & a & [[bp Hb] _ _ _ _] & Hj & Ha & ->)%check_vertices_Ok
    (st & base & size & stride & first & Hst & Hno & Hspan & Hf).
  exists st, base, size, stride, first. split_and!; try done; try lia.
  apply segment_base in Hb as (k' & q' & Hk' & Hrange' & <-); [|lia].
  pose proof (span_base _ _ _ _ _ _ Hspan) as [bp' Hb'].
  apply segment_base in Hb' as (k & q & Hk & Hrange & <-); [|lia].
  pose proof (stream_ordered _ _ _ k k' q q' Hstream Hk Hk' ltac:(lia)).
  eapply vertex_field_insert; [done|done|done|]. lia.
Qed.

Lemma draw_checked_refines l l' i draw :
  refine_fields l l' → draw_checked l i draw → draw_checked l' i draw.
Proof.
  intros Hl (st & base & size & stride & first & Hst & Hno & Hspan & Hf).
  exists st, base, size, stride, first. split_and!; try done; try lia. by eapply vertex_field_refines.
Qed.

Lemma draw_checked_here l l' start n draw :
  0 ≤ start ≤ Z.of_nat n → no_draw start (Z.of_nat n) →
  check_vertices (SegmentIndex_new (slice packets start (Z.of_nat n))) draw l = Ok l' →
  draw_checked l' n draw.
Proof.
  intros Hst Hno (base & size & stride & first & j & a & Hspan & Hj & Ha & ->)%check_vertices_Ok.
  exists start, base, size, stride, first. split_and!; try done; try lia.
  by eapply vertex_field_insert.
Qed.

Lemma draws_done_step strict rels n p s s' :
  packets !! n = Some p → draws_done n s →
  three_d_step strict packets rels s (Z.of_nat n, p) = Ok s' → draws_done (S n) s'.
Proof.
  intros Hn (Hst & Hno & Hall) H. unfold three_d_step in H.
  destruct (is_type7 p CP_DRAW_INDX_OFFSET) eqn:Hd.
  - unfold validate_draw in H. step_ok H as pipe Hpipe. step_ok H as sh Hsh.
    step_ok H as tl Htl. destruct tl as [t l1]. step_ok H as dl Hdl. destruct dl as [d l2].
    step_ok H as u Hu. step_ok H as l3 Hl3. step_ok H as l4 Hl4. injection H as <-.
    apply target_transition_refines in Htl. apply depth_transition_refines in Hdl.
    apply check_descriptor_refines in Hl4. unfold draws_done. cbn [segment_start addresses3].
    split_and!; [lia|lia|intros k q Hk Hr; lia|].
    intros i draw Hi Hlt Hdraw. split; [lia|]. eapply draw_checked_refines; [exact Hl4|].
    destruct (decide (i = n)) as [->|].
    + assert (draw = p) as -> by congruence. by eapply draw_checked_here.
    + destruct (Hall i draw Hi ltac:(lia) Hdraw) as [Hlt' Hck].
      eapply draw_checked_vertices; [exact Hlt'|exact Hl3|].
      eapply draw_checked_refines; [exact Hdl|]. by eapply draw_checked_refines.
  - injection H as <-. split_and!; [lia|lia| |].
    + intros k q Hk Hr. destruct (decide (k = n)) as [->|]; [|by eapply Hno; [done|lia]].
      unfold is_draw. replace q with p by congruence. congruence.
    + intros i draw Hi Hlt Hdraw. apply Hall; [done| |done].
      destruct (decide (i = n)) as [->|]; [|lia]. unfold is_draw in Hdraw. congruence.
Qed.

Lemma draws_checked strict rels l l' i draw :
  validate_3d_sequences packets l rels strict = Ok l' → packets !! i = Some draw → is_draw draw = true →
  draw_checked l' i draw.
Proof.
  unfold validate_3d_sequences. intros H Hi Hd. step_ok H as s Hs. injection H as <-.
  apply (foldM_enumerate draws_done) in Hs as (_ & _ & Hall).
  - apply Hall; [done| |done]. apply lookup_lt_Some in Hi. lia.
  - unfold draws_done. cbn [segment_start]. split_and!; [lia|lia|intros k p Hk Hr; lia|intros; lia].
  - intros. by eapply draws_done_step.
Qed.
End Draws.

(** ** Fields by word offset *)

Lemma field_at packets p f j a l :
  StronglySorted word_lt (concat (packet_fields <$> packets)) →
  refine_fields (concat (packet_fields <$> packets)) l →
  p ∈ packets → f ∈ packet_fields p → l !! j = Some a → a.(af_word_offset) = f.(af_word_offset) →
  concat (packet_fields <$> packets) !! j = Some f.
Proof.
  intros Hord Href Hp Hf Hj Hw. destruct (Forall2_lookup_r _ _ _ _ _ Href Hj) as (g & Hg & Hga).
  assert (f ∈ concat (packet_fields <$> packets)) as [k Hk]%list_elem_of_lookup.
  { apply elem_of_concat. exists (packet_fields p). split; [|done]. apply list_elem_of_fmap. eauto. }
  assert (k = j) as ->; [|congruence]. eapply ordered_inj; [done|exact Hk|exact Hg|].
  by rewrite <- Hw, (ref_word _ _ Hga).
Qed.

Lemma payload_word s packets addresses p i w :
  Forall u32 s.(pm4) → validated s packets addresses → p ∈ packets → p.(payload) !! i = Some w → u32 w.
Proof.
  intros Hwf Hval Hp Hi. pose proof (stream_payload _ _ _ _ Hwf (val_stream _ _ _ Hval) Hp) as Hall.
  rewrite Forall_lookup in Hall. eauto.
Qed.

Section Geometry.
Context (resolve : Z → option ResolvedResource).
Context (resolve_shader : ShaderVariant → option ResolvedResource).

(** [size] bytes at [address] are memory of an attached object that allows
    [access]. *)
Definition accessible (access : Z) (obj : ResolvedResource) (address size : Z) : Prop :=
  (∃ token, resolve token = Some obj) ∧ access .&~ obj.(allowed_access) = 0 ∧
  obj.(gpu_va) ≤ address ∧ address + size ≤ obj.(gpu_va) + obj.(allocation_size).

Lemma vertex_buffer_confined s packets addresses resources out start n base size stride first draw :
  objects_wf resolve resolve_shader →
  admitted resolve resolve_shader s packets addresses resources out →
  vertex_span (SegmentIndex_new (slice packets start n)) draw base size stride first →
  vertex_field addresses base size →
  ∃ obj address, holds_address out GpuVa64 (base + 1) address ∧ accessible ACCESS_READ obj address size.
Proof.
  intros Hobj Hadm Hspan (j & a & Hj & Hw & Hn).
  destruct (span_base _ _ _ _ _ _ Hspan) as [bp (q & c & Hq & Hh & -> & _)%reg_new_elem].
  apply elem_of_slice in Hq. pose proof (adm_validated _ _ _ _ _ _ _ Hadm) as Hval.
  set (f := attachment_field (q.(word_offset) + 1) ACCESS_READ false None).
  assert (f ∈ packet_fields q) as Hf by (unfold packet_fields; rewrite Hh; set_solver).
  pose proof (field_at _ _ _ _ _ _ (val_ordered _ _ _ Hval) (val_refines _ _ _ Hval) Hq Hf Hj Hw) as Hjf.
  destruct (admitted_confined _ _ Hobj _ _ _ _ _ _ _ Hadm Hjf) as (r & res & a' & obj & _ & Hrel & Href & Hcon).
  assert (a' = a) as -> by (pose proof (rel_field _ _ _ _ _ _ _ _ Hrel); congruence).
  pose proof (con_size _ _ _ _ _ _ _ Hcon _ Hn) as Hsize.
  destruct (confined_refines _ _ _ _ _ _ _ _ Href Hcon) as [Hauth Hacc Hholds Hlo Hhi _ _ _].
  eexists obj, _. split; [exact Hholds|]. unfold accessible. rewrite <- Hsize. done.
Qed.

(** C3: draws read their vertices inside one attached buffer.  For every draw
    of an accepted submission, the packets since the previous draw set a
    vertex buffer base, size, stride and first vertex; the relocated base and
    the declared size are readable memory of an attached object; and when the
    draw is not indexed, each vertex it fetches lies in that memory. *)
Theorem draw_vertices_confined (strict : bool) (bytes out : list Z) :
  objects_wf resolve resolve_shader → Forall u8 bytes →
  validate_and_relocate resolve resolve_shader strict bytes = Ok out →
  ∃ d s packets, decode bytes = Ok d ∧ submit_of d = Ok s ∧ collect_packets s.(pm4) = Ok packets ∧
    ∀ i draw, packets !! i = Some draw → is_draw draw = true →
      ∃ start base size stride first obj address,
        no_draw packets start (Z.of_nat i) ∧
        vertex_span (SegmentIndex_new (slice packets start (Z.of_nat i))) draw base size stride first ∧
        holds_address out GpuVa64 (base + 1) address ∧ accessible ACCESS_READ obj address size ∧
        ∀ count v, len draw.(payload) = 3 → draw.(payload) !! 2%nat = Some count → 0 ≤ v < count →
          accessible ACCESS_READ obj (address + (first + v) * stride) stride.
Proof.
  intros Hobj Hb H.
  destruct (validate_and_relocate_admitted _ _ _ _ _ Hobj Hb H) as (d & s & ps & l & rs & Hd & Hs & Hadm).
  destruct (admitted_packets _ _ _ _ _ _ _ Hadm) as (Hin & _ & _).
  pose proof (adm_validated _ _ _ _ _ _ _ Hadm) as Hval.
  destruct (val_checks _ _ _ Hval) as (st & dd & l1 & l2 & _ & _ & H3).
  exists d, s, ps. split_and!; [done..|]. intros i draw Hi Hdraw.
  destruct (draws_checked _ _ (val_stream _ _ _ Hval) _ _ _ _ _ _ H3 Hi Hdraw)
    as (start & base & size & stride & first & Hst & Hno & Hspan & Hf).
  destruct (vertex_buffer_confined _ _ _ _ _ _ _ _ _ _ _ _ Hobj Hadm Hspan Hf) as (obj & address & Hh & Hr).
  exists start, base, size, stride, first, obj, address. split_and!; try done.
  intros count v Hlen Hc Hv. destruct Hspan as [_ (w & p & (q & c & Hq & _ & _ & ->)%reg_new_elem & _ & Hstride)
    (w' & p' & (q' & c' & Hq' & _ & _ & ->)%reg_new_elem & Hfirst) Hdirect _].
  apply elem_of_slice in Hq, Hq'. assert (Forall u32 s.(pm4)) as Hwf by by destruct (adm_wf _ _ _ _ _ _ _ Hadm).
  pose proof (payload_word _ _ _ _ _ _ Hwf Hval Hq Hstride) as [??].
  pose proof (payload_word _ _ _ _ _ _ Hwf Hval Hq' Hfirst) as [??].
  destruct (Hdirect Hlen) as (count' & Hc' & ->). assert (count' = count) as -> by congruence.
  destruct Hr as (? & ? & ? & ?). unfold accessible. split_and!; [done|done|nia|nia].
Qed.
End Geometry.

Lemma draw_vertices_confined_witness :
  ∃ d s packets, decode draw_bytes = Ok d ∧ submit_of d = Ok s ∧ collect_packets s.(pm4) = Ok packets ∧
    ∀ i draw, packets !! i = Some draw → is_draw draw = true →
      ∃ start base size stride first obj address,
        no_draw packets start (Z.of_nat i) ∧
        vertex_span (SegmentIndex_new (slice packets start (Z.of_nat i))) draw base size stride first ∧
        holds_address draw_out GpuVa64 (base + 1) address ∧
        accessible sample_resolve ACCESS_READ obj address size ∧
        ∀ count v, len draw.(payload) = 3 → draw.(payload) !! 2%nat = Some count → 0 ≤ v < count →
          accessible sample_resolve ACCESS_READ obj (address + (first + v) * stride) stride.
Proof. exact (draw_vertices_confined _ _ _ _ _ sample_objects_wf draw_bytes_u8 draw_accepted). Defined.
