(* ===== verification/SubmitBlits.v ===== *)
(** * Pixels of blits

    A blit reads and writes through the state that earlier register writes set
    up.  The theorem of this file follows that state: the relocated base
    addresses, pitches and rectangles of a blit of a linear image address
    pixels inside one attached object. *)
From stdpp Require Import gmap.
From S2P Require Import Prelude F32 Pm4 ImageLayout ShaderPack SubmitWire SubmitWireFacts SubmitTypes.
From S2P Require Import SubmitPackets SubmitOrdering SubmitPacketFacts SubmitA2d SubmitSegment Submit3d.
From S2P Require Import SubmitRelocate SubmitSegmentFacts SubmitFields SubmitSafety SubmitSample SubmitConfinement.
From S2P Require Import SubmitGeometry.

(** ** Where the state of a blit comes from *)

(** [w] is the address word of a write to [register] among [pre]. *)
Definition base_from (pre : list Packet) (register w : Z) : Prop :=
  ∃ q c, q ∈ pre ∧ q.(header) = Type4 register c ∧ w = q.(word_offset) + 1.

(** [v] is a payload word of [pre]. *)
Definition word_from (pre : list Packet) (v : Z) : Prop :=
  ∃ q i, q ∈ pre ∧ q.(payload) !! i = Some v.

Record blit_state (pre : list Packet) (st : A2dState) : Prop := {
  bs_destination w : st.(destination_word) = Some w → base_from pre RB_A2D_DEST_BUFFER_BASE w;
  bs_source w : st.(source_word) = Some w → base_from pre TPL1_A2D_SRC_TEXTURE_BASE w;
  bs_br v : st.(destination_br) = Some v → word_from pre v;
  bs_size v : st.(source_size) = Some v → word_from pre v;
  bs_destination_pitch v : st.(destination_pitch) = Some v → ∃ w, word_from pre w ∧ v = w * 64;
  bs_source_pitch v : st.(source_pitch) = Some v → ∃ w, word_from pre w ∧ v = (w >> 9) * 64;
}.

Lemma base_from_mono pre pre' r w : pre ⊆ pre' → base_from pre r w → base_from pre' r w.
Proof. intros Hsub (q & c & Hq & ?). exists q, c. by split; [apply Hsub|]. Qed.

Lemma word_from_mono pre pre' v : pre ⊆ pre' → word_from pre v → word_from pre' v.
Proof. intros Hsub (q & i & Hq & ?). exists q, i. by split; [apply Hsub|]. Qed.

Lemma blit_state_mono pre pre' st : pre ⊆ pre' → blit_state pre st → blit_state pre' st.
Proof.
  intros Hsub []. split; intros v Hv; eauto using base_from_mono, word_from_mono.
  - destruct (bs_destination_pitch0 v Hv) as (w & ? & ?). eauto using word_from_mono.
  - destruct (bs_source_pitch0 v Hv) as (w & ? & ?). eauto using word_from_mono.
Qed.

Lemma blit_state_default pre m : blit_state pre (set_render_mode m A2dState_default).
Proof. by split. Qed.

Lemma blit_state_marker pre m st : blit_state pre st → blit_state pre (set_render_mode m st).
Proof. intros []. by split. Qed.

(** A register write adds itself to the provenance. *)
Lemma a2d_register_state pre st p register c st' :
  p ∈ pre → p.(header) = Type4 register c → blit_state pre st →
  a2d_register st p register = Ok st' → blit_state pre st'.
Proof.
  intros Hp Hh Hst H. unfold a2d_register in H. cbv zeta beta in H.
  assert (∀ i v, p.(payload) !! i = Some v → word_from pre v) as Hword by (intros i v Hv; by exists p, i).
  repeat match type of H with
  | (if register =? ?r then _ else _) = _ => destruct (Z.eqb_spec register r) as [->|_]
  end;
    repeat match type of H with
    | bind (index _ _) _ = _ => let v := fresh "v" in let Hv := fresh "Hv" in step_ok H as v Hv
    | bind (add_or_panic _ _ _) _ = _ => 
        let w := fresh "w" in let Hw := fresh "Hw" in step_ok H as w Hw; destruct Hw as [-> _]
    | (if ?c then _ else _) = _ => destruct c; [done|]
    end;
    injection H as <-; destruct Hst; split; cbn; try done;
    intros v' Hv'; simplify_eq; try apply checked_mul_Some in Hv' as [-> _]; eauto.
  all: by exists p, c.
Qed.

(** A blit spends the state. *)
Lemma a2d_blit_resets st l st' l' :
  a2d_blit st l = Ok (st', l') → st' = set_render_mode st.(render_mode) A2dState_default.
Proof.
  unfold a2d_blit. intros H.
  match type of H with (if ?c then _ else _) = _ => destruct c; [done|] end.
  step_ok H as d1 Hd1. step_ok H as d2 Hd2. step_ok H as e1 He1. step_ok H as e2 He2.
  match type of H with (if ?c then _ else _) = _ => destruct c; [done|] end.
  step_ok H as w Hw. step_ok H as fm Hfm. destruct fm. step_ok H as pitch Hpitch.
  step_ok H as l3 Hl3. step_ok H as l4 Hl4. by injection H as <- <-.
Qed.

Lemma a2d_fold_state l packets st l' :
  foldM a2d_step (A2dState_default, l) packets = Ok (st, l') → blit_state packets st.
Proof.
  intros H. apply (foldM_invariant (λ s, blit_state packets s.1)) in H; [done| |by split].
  intros [s1 l1] p [s2 l2] Hp Hs Hstep. cbn [fst] in *. unfold a2d_step in Hstep.
  destruct (header p) as [r c|o c] eqn:Hh.
  - step_ok Hstep as s3 H3. injection Hstep as <- <-. by eapply a2d_register_state.
  - destruct (o =? opcode.SET_MARKER); [injection Hstep as <- <-; by apply blit_state_marker|].
    destruct (o =? opcode.BLIT); [|by injection Hstep as <- <-].
    apply a2d_blit_resets in Hstep as ->. apply blit_state_default.
Qed.

(** ** The registers behind the state of a blit *)

(** The registers that describe a blit: first register and how many. *)
Definition BLIT_BLOCKS : list (Z * Z) :=
  [(RB_A2D_BLT_CNTL, 1); (RB_A2D_DEST_BUFFER_INFO, 1); (RB_A2D_DEST_BUFFER_BASE, 2);
   (RB_A2D_DEST_BUFFER_PITCH, 1); (GRAS_A2D_DEST_TL, 2); (TPL1_A2D_SRC_TEXTURE_SIZE, 1);
   (TPL1_A2D_SRC_TEXTURE_BASE, 2); (TPL1_A2D_SRC_TEXTURE_PITCH, 1); (GRAS_A2D_SRC_XMIN, 4)].

(** A packet of [n] registers from [r] starts each block or stays clear of it. *)
Definition apart (r n : Z) : bool :=
  forallb (λ '(base, k), (r =? base) || (r + n <=? base) || (base + k <=? r)) BLIT_BLOCKS.

Lemma accepted_apart p register count base k :
  accepted p → p.(header) = Type4 register count → len p.(payload) ≤ TYPE4_MAX_COUNT →
  (base, k) ∈ BLIT_BLOCKS →
  register = base ∨ register + len p.(payload) ≤ base ∨ base + k ≤ register.
Proof.
  intros Ha Hh Hn Hin%list_elem_of_In.
  destruct (accepted_range apart p register count ltac:(vm_compute; reflexivity) Ha Hh Hn) as (n & Hl & Hc).
  unfold apart in Hc. rewrite forallb_forall in Hc. specialize (Hc _ Hin). cbn in Hc.
  apply orb_true_iff in Hc as [[?%Z.eqb_eq|?%Z.leb_le]%orb_true_iff|?%Z.leb_le]; auto with lia.
Qed.

(** One packet more, seen from a block: the packet writes the block, and then
    its payload is what the block holds, or it leaves the block alone. *)
Lemma register_file_block file p p' base k i :
  accepted p → same_but_addresses p p' →
  (∀ r c, p.(header) = Type4 r c → len p.(payload) ≤ TYPE4_MAX_COUNT) →
  (base, k) ∈ BLIT_BLOCKS → Z.of_nat i < k →
  (default ∅ (register_writes p') ∪ file) !! (base + Z.of_nat i) =
    if is_type4 p base then
      match p'.(payload) !! i with Some v => Some v | None => file !! (base + Z.of_nat i) end
    else file !! (base + Z.of_nat i).
Proof.
  intros Ha Hs Hn Hin Hi. destruct (written_registers p p' Ha Hs) as (ws & -> & Hws). cbn [from_option].
  unfold is_type4. destruct (header p) as [r c|o c] eqn:Hh in Hws |- *.
  - subst ws. destruct (Z.eqb_spec r base) as [->|Hne].
    + destruct (payload p' !! i) eqn:Hp.
      * apply lookup_union_Some_l, lookup_map_seqZ_Some. split; [lia|]. rewrite <- Hp. f_equal. lia.
      * rewrite lookup_union_r; [done|]. apply lookup_map_seqZ_None. apply lookup_ge_None in Hp. lia.
    + rewrite lookup_union_r; [done|]. apply lookup_map_seqZ_None.
      pose proof (accepted_apart p r c base k Ha Hh (Hn r c Hh) Hin). rewrite (same_length _ _ Hs).
      unfold len in *. lia.
  - apply lookup_union_r, Hws. intros Heq.
    assert (forallb (λ '(b, n), (RB_RENDER_CNTL <? b) || (b + n <=? RB_RENDER_CNTL)) BLIT_BLOCKS = true) as Hr
      by (vm_compute; reflexivity).
    apply list_elem_of_In in Hin. rewrite forallb_forall in Hr. specialize (Hr _ Hin). cbn in Hr.
    apply orb_true_iff in Hr as [?%Z.ltb_lt|?%Z.leb_le]; lia.
Qed.

(** Word [i] of the register block at [base]. *)
Definition register_word (file : gmap Z Z) (base : Z) (i : nat) : option Z := file !! (base + Z.of_nat i).

(** The state of the checker tells what the registers of [file] hold, the
    addresses being those of [out]. *)
Record describes (out : list Z) (file : gmap Z Z) (st : A2dState) : Prop := {
  ds_solid b : st.(solid) = Some b →
    ∃ v, register_word file RB_A2D_BLT_CNTL 0 = Some v ∧ b = negb (v .& (1 << 7) =? 0);
  ds_format f : st.(destination_format) = Some f →
    ∃ v, register_word file RB_A2D_DEST_BUFFER_INFO 0 = Some v ∧ a2d_destination_format v = Some f;
  ds_destination w : st.(destination_word) = Some w →
    register_word file RB_A2D_DEST_BUFFER_BASE 0 = out !! Z.to_nat w ∧
    register_word file RB_A2D_DEST_BUFFER_BASE 1 = out !! Z.to_nat (w + 1);
  ds_destination_pitch v : st.(destination_pitch) = Some v →
    ∃ u, register_word file RB_A2D_DEST_BUFFER_PITCH 0 = Some u ∧ v = u * 64;
  ds_br v : st.(destination_br) = Some v → register_word file GRAS_A2D_DEST_TL 1 = Some v;
  ds_source w : st.(source_word) = Some w →
    register_word file TPL1_A2D_SRC_TEXTURE_BASE 0 = out !! Z.to_nat w ∧
    register_word file TPL1_A2D_SRC_TEXTURE_BASE 1 = out !! Z.to_nat (w + 1);
  ds_source_pitch v : st.(source_pitch) = Some v →
    ∃ u, register_word file TPL1_A2D_SRC_TEXTURE_PITCH 0 = Some u ∧ v = (u >> 9) * 64;
  ds_xmax v : st.(source_xmax) = Some v →
    ∃ u, register_word file GRAS_A2D_SRC_XMIN 1 = Some u ∧ v = (u >> 8) + 1;
  ds_ymax v : st.(source_ymax) = Some v →
    ∃ u, register_word file GRAS_A2D_SRC_XMIN 3 = Some u ∧ v = (u >> 8) + 1;
}.

(** Where the packets of the result take their words from. *)
Record relocated_packet (out : list Z) (p p' : Packet) : Prop := {
  rp_accepted : accepted p;
  rp_same : same_but_addresses p p';
  rp_words : Forall u32 p.(payload);
  rp_count r c : p.(header) = Type4 r c → len p.(payload) ≤ TYPE4_MAX_COUNT;
  rp_out i : (i < length p.(payload))%nat → p'.(payload) !! i = out !! Z.to_nat (p.(word_offset) + 1 + Z.of_nat i);
}.

(** The two address words of a base register. *)
Lemma base_words out p p' register c access :
  relocated_packet out p p' → p.(header) = Type4 register c →
  (∀ payload w, type4_fields register payload w = [attachment_field (w + 1) access true None]) →
  p'.(payload) !! 0%nat = out !! Z.to_nat (p.(word_offset) + 1) ∧
  p'.(payload) !! 1%nat = out !! Z.to_nat (p.(word_offset) + 1 + 1) ∧
  is_Some (p'.(payload) !! 0%nat) ∧ is_Some (p'.(payload) !! 1%nat).
Proof.
  intros [Ha Hs Hu _ Hout] Hh Hf. pose proof (packet_fields_within p Ha Hu) as Hw.
  unfold packet_fields in Hw. rewrite Hh, Hf in Hw. apply Forall_singleton in Hw as [_ Hw]. cbn in Hw.
  unfold len in Hw. pose proof (same_length _ _ Hs). split_and!.
  - rewrite (Hout 0%nat) by lia. do 2 f_equal; lia.
  - rewrite (Hout 1%nat) by lia. do 2 f_equal; lia.
  - apply lookup_lt_is_Some_2. lia.
  - apply lookup_lt_is_Some_2. lia.
Qed.

(** One packet more, seen from a block. *)
Lemma file_block out file p p' base k i :
  relocated_packet out p p' → (base, k) ∈ BLIT_BLOCKS → Z.of_nat i < k →
  register_word (default ∅ (register_writes p') ∪ file) base i =
    if is_type4 p base then
      match p'.(payload) !! i with Some v => Some v | None => register_word file base i end
    else register_word file base i.
Proof. intros [] Hin Hi. by eapply register_file_block. Qed.

Ltac at_block Hp base k :=
  rewrite ?(file_block _ _ _ _ base k _ Hp) by (done || (unfold BLIT_BLOCKS; set_solver)).

(** A command that is no register write of a blit. *)
Lemma describes_frame out file p p' st :
  relocated_packet out p p' → (∀ base k, (base, k) ∈ BLIT_BLOCKS → is_type4 p base = false) →
  describes out file st → describes out (default ∅ (register_writes p') ∪ file) st.
Proof.
  intros Hp Hno Hst.
  assert (∀ base k i, (base, k) ∈ BLIT_BLOCKS → Z.of_nat i < k →
    register_word (default ∅ (register_writes p') ∪ file) base i = register_word file base i) as Heq.
  { intros base k i Hin Hi. rewrite (file_block out file p p' base k i Hp Hin Hi). by rewrite (Hno base k Hin). }
  destruct Hst. split; intros v Hv;
    rewrite ?(Heq RB_A2D_BLT_CNTL 1), ?(Heq RB_A2D_DEST_BUFFER_INFO 1), ?(Heq RB_A2D_DEST_BUFFER_BASE 2),
      ?(Heq RB_A2D_DEST_BUFFER_PITCH 1), ?(Heq GRAS_A2D_DEST_TL 2), ?(Heq TPL1_A2D_SRC_TEXTURE_BASE 2),
      ?(Heq TPL1_A2D_SRC_TEXTURE_PITCH 1), ?(Heq GRAS_A2D_SRC_XMIN 4) by (done || (unfold BLIT_BLOCKS; set_solver));
    eauto.
Qed.

(** The word [i] of the block at [base] describes a blit. *)
Definition in_block (base : Z) (i : nat) : bool :=
  existsb (λ '(b, k), (b =? base) && (Z.of_nat i <? k)) BLIT_BLOCKS.

Lemma in_block_spec base i : in_block base i = true → ∃ k, (base, k) ∈ BLIT_BLOCKS ∧ Z.of_nat i < k.
Proof.
  intros ([b k] & Hin & [->%Z.eqb_eq ?%Z.ltb_lt]%andb_true_iff)%existsb_exists.
  exists k. by rewrite list_elem_of_In.
Qed.

(** A register write leaves the other blocks alone and sets its own. *)
Lemma file_keep out file p p' register c :
  relocated_packet out p p' → p.(header) = Type4 register c →
  ∀ base i, in_block base i = true → register ≠ base →
    register_word (default ∅ (register_writes p') ∪ file) base i = register_word file base i.
Proof.
  intros Hp Hh base i (k & Hin & Hi)%in_block_spec Hne. rewrite (file_block out file p p' base k i Hp Hin Hi).
  unfold is_type4. by rewrite Hh, (proj2 (Z.eqb_neq _ _) Hne).
Qed.

Lemma file_set out file p p' register c :
  relocated_packet out p p' → p.(header) = Type4 register c →
  ∀ i v, in_block register i = true → p'.(payload) !! i = Some v →
    register_word (default ∅ (register_writes p') ∪ file) register i = Some v.
Proof.
  intros Hp Hh i v (k & Hin & Hi)%in_block_spec Hv. rewrite (file_block out file p p' register k i Hp Hin Hi).
  unfold is_type4. by rewrite Hh, Z.eqb_refl, Hv.
Qed.

(** The words of the blocks that the packet does not write. *)
Ltac keep_words Hkeep :=
  repeat match goal with
  | |- context [register_word ?file ?b ?i] =>
      rewrite (Hkeep b i) by first [vm_compute; reflexivity | assumption | vm_compute; discriminate]
  end.

Lemma describes_register out file p p' register c st st' :
  relocated_packet out p p' → p.(header) = Type4 register c → describes out file st →
  a2d_register st p register = Ok st' →
  describes out (default ∅ (register_writes p') ∪ file) st'.
Proof.
  intros Hp Hh Hst H. pose proof Hp as [_ Hs Hu _ _]. rewrite Forall_lookup in Hu.
  assert (type4_fields register p.(payload) p.(word_offset) = [] → p'.(payload) = p.(payload)) as Hpay.
  { intros Hf. apply (same_no_fields p p' Hs). unfold packet_fields. by rewrite Hh. }
  pose proof (file_keep out file p p' register c Hp Hh) as Hkeep.
  pose proof (file_set out file p p' register c Hp Hh) as Hset.
  pose proof (base_words out p p' register c) as Hbase.
  set (file' := default ∅ (register_writes p') ∪ file) in *. clearbody file'.
  unfold a2d_register in H. cbv zeta beta in H.
  repeat match type of H with
  | (if register =? ?r then _ else _) = _ => destruct (Z.eqb_spec register r) as [->|?]
  end;
    repeat match type of H with
    | bind (index _ _) _ = _ => let v := fresh "v" in let Hv := fresh "Hv" in step_ok H as v Hv
    | bind (add_or_panic _ _ _) _ = _ => 
        let w := fresh "w" in let Hw := fresh "Hw" in step_ok H as w Hw; destruct Hw as [-> _]
    | (if ?c then _ else _) = _ => destruct c; [done|]
    end;
    injection H as <-.
  all: destruct Hst; split; intros z Hz; cbn in Hz; try (keep_words Hkeep; by eauto).
  all: clear Hkeep; simplify_eq/=.
  all: try (apply checked_mul_Some in Hz as [-> _]).
  all: try (eexists; split; [apply Hset; [vm_compute; reflexivity|by rewrite Hpay]|done]).
  all: try (apply Hset; [vm_compute; reflexivity|by rewrite Hpay]).
  all: try (destruct (Hbase _ Hp Hh (λ _ _, eq_refl)) as (<- & <- & [v0 Hv0] & [v1 Hv1]);
            rewrite Hv0, Hv1; split; (apply Hset; [vm_compute; reflexivity|done])).
  all: eexists; (split; [apply Hset; [vm_compute; reflexivity|rewrite Hpay by done; eassumption]|]);
    unfold saturating_add, U32_MAX; rewrite Z.shiftr_div_pow2 by done; apply Z.min_r;
    match goal with Hv : _ !! _ = Some ?v |- context [?v / _] => destruct (Hu _ _ Hv) end; zlia.
Qed.

(** The registers after a prefix of the result describe the state that the
    checker has after the submitted prefix. *)
Lemma a2d_fold_describes out l pre : ∀ pre' st l',
  Forall2 (relocated_packet out) pre pre' →
  foldM a2d_step (A2dState_default, l) pre = Ok (st, l') → describes out (register_file pre') st.
Proof.
  induction pre as [|p pre IH] using rev_ind; intros pre' st l' Hall H.
  { apply Forall2_nil_inv_l in Hall as ->. injection H as <- <-. by split. }
  apply Forall2_app_inv_l in Hall as (pre1 & rest & Hpre & (p' & ? & Hp & ->%Forall2_nil_inv_l & ->)%Forall2_cons_inv_l & ->).
  rewrite foldM_app in H. step_ok H as s1 H1. destruct s1 as [st1 l1]. specialize (IH _ _ _ Hpre H1).
  rewrite register_file_snoc. cbn [foldM] in H. step_ok H as s2 H2. injection H as ->. unfold a2d_step in H2.
  destruct (header p) as [r c|o c] eqn:Hh.
  - step_ok H2 as st2 Hst. injection H2 as <- <-. by eapply describes_register.
  - apply (describes_frame out _ p p') in IH; [|done|by intros; unfold is_type4; rewrite Hh].
    destruct (o =? opcode.SET_MARKER); [injection H2 as <- <-; by destruct IH|].
    destruct (o =? opcode.BLIT); [|by injection H2 as <- <-]. apply a2d_blit_resets in H2 as ->. by split.
Qed.

(** ** What a blit demands of its addresses *)

(** The field at [word] carries the image expectation [e]. *)
Definition a2d_field (l : list AddressField) (word : Z) (e : A2dExpectation) : Prop :=
  ∃ j a, l !! j = Some a ∧ a.(af_word_offset) = word ∧ a.(af_a2d) = Some e.

Lemma a2d_field_refines l l' w e : refine_fields l l' → a2d_field l w e → a2d_field l' w e.
Proof.
  intros Hl (j & a & Hj & Hw & He). destruct (refine_lookup _ _ _ _ Hl Hj) as (a' & Hj' & Href).
  exists j, a'. split_and!; [done|by rewrite (ref_word _ _ Href)|by apply (ref_a2d _ _ Href)].
Qed.

Lemma set_a2d_field l w e l' : set_a2d_expectation l w e = Ok l' → a2d_field l' w e.
Proof.
  intros (i & a & Hi & Hw & _ & ->)%set_a2d_Ok. exists i, (with_a2d e a).
  by rewrite list_lookup_insert_eq by by eapply lookup_lt_Some.
Qed.

(** The rectangles of a blit whose state is [st]. *)
Record blit_rectangles (st : A2dState) (l : list AddressField) : Prop := {
  br_solid : is_Some st.(solid);
  br_destination : ∃ word format modifier pitch br,
    st.(destination_word) = Some word ∧ st.(destination_format) = Some (format, modifier) ∧
    st.(destination_pitch) = Some pitch ∧ st.(destination_br) = Some br ∧
    a2d_field l word (MkA2dExpectation format modifier pitch
      (saturating_add U32_MAX (br .& 0xffff) 1) (saturating_add U32_MAX (br >> 16) 1));
  br_source : st.(solid) = Some false →
    ∃ word pitch size xmax ymax,
      st.(source_word) = Some word ∧ st.(source_pitch) = Some pitch ∧ st.(source_size) = Some size ∧
      st.(source_xmax) = Some xmax ∧ st.(source_ymax) = Some ymax ∧
      xmax ≤ size .& 0x7fff ∧ ymax ≤ size >> 15 ∧
      a2d_field l word (MkA2dExpectation Bgra8Unorm Linear pitch (size .& 0x7fff) (size >> 15));
}.

Lemma a2d_source_field st l l' :
  a2d_source st l = Ok l' →
  ∃ word pitch size xmax ymax,
    st.(source_word) = Some word ∧ st.(source_pitch) = Some pitch ∧ st.(source_size) = Some size ∧
    st.(source_xmax) = Some xmax ∧ st.(source_ymax) = Some ymax ∧
    xmax ≤ size .& 0x7fff ∧ ymax ≤ size >> 15 ∧
    a2d_field l' word (MkA2dExpectation Bgra8Unorm Linear pitch (size .& 0x7fff) (size >> 15)).
Proof.
  unfold a2d_source. intros H. destruct (negb (source_info st)); [done|].
  step_ok H as size Hsize. step_ok H as xmax Hxmax. step_ok H as ymax Hymax.
  step_ok H as xmin Hxmin. step_ok H as ymin Hymin.
  match type of H with (if ?c then _ else _) = _ => destruct c eqn:Hc; [done|] end. bool_to_prop.
  step_ok H as word Hword. step_ok H as pitch Hpitch. apply set_a2d_field in H.
  by exists word, pitch, size, xmax, ymax.
Qed.

Lemma a2d_blit_rectangles st l st' l' : a2d_blit st l = Ok (st', l') → blit_rectangles st l'.
Proof.
  unfold a2d_blit. intros H.
  match type of H with (if ?c then _ else _) = _ => destruct c eqn:Hc; [done|] end.
  step_ok H as d1 Hd1. step_ok H as d2 Hd2. step_ok H as s1 Hs1. step_ok H as s2 Hs2.
  match type of H with (if ?c then _ else _) = _ => destruct c; [done|] end.
  step_ok H as w Hw. step_ok H as fm Hfm. destruct fm as [format modifier].
  step_ok H as pitch Hpitch. step_ok H as l1 Hl1. step_ok H as l2 Hl2. injection H as <- <-. split.
  - destruct (solid st); [done|]. bool_to_prop. done.
  - exists w, format, modifier, pitch, d2. split_and!; try done.
    eapply a2d_field_refines; [|by eapply set_a2d_field].
    clear Hc. case_bool_decide; [by eapply a2d_source_refines|]. destruct (negb _); [done|]. by injection Hl2 as <-.
  - intros Hsolid. rewrite bool_decide_true in Hl2 by done. by eapply a2d_source_field.
Qed.

Lemma blit_rectangles_mono st l l' :
  (∀ w e, a2d_field l w e → a2d_field l' w e) → blit_rectangles st l → blit_rectangles st l'.
Proof.
  intros Hl [Hb Hd Hs]. split; [done|..].
  - destruct Hd as (w & f & m & p & b & ? & ? & ? & ? & Hf). exists w, f, m, p, b.
    split_and!; try done. auto.
  - intros Hsolid. destruct (Hs Hsolid) as (w & p & z & x & y & ? & ? & ? & ? & ? & ? & ? & Hf).
    exists w, p, z, x, y. split_and!; try done. auto.
Qed.

(** Every blit runs in the state of the packets before it. *)
Lemma blit_checked l packets l' pre blit suf :
  validate_a2d_sequences packets l = Ok l' → packets = pre ++ blit :: suf → is_blit blit = true →
  ∃ st l1, foldM a2d_step (A2dState_default, l) pre = Ok (st, l1) ∧
    blit_state pre st ∧ blit_rectangles st l'.
Proof.
  unfold validate_a2d_sequences. intros H -> Hb. step_ok H as s Hs. destruct s as [sf lf].
  destruct (existsb _ lf); [done|]. injection H as <-. rewrite foldM_app in Hs.
  step_ok Hs as s1 H1. destruct s1 as [st l1]. cbn [foldM] in Hs. step_ok Hs as s2 H2. destruct s2 as [st2 l2].
  exists st, l1. split_and!; [done|by eapply a2d_fold_state|].
  assert (refine_fields l2 lf) as Href.
  { change (refine_fields (st2, l2).2 (sf, lf).2).
    eapply (foldM_preorder refine_fields a2d_step snd); [|exact Hs]. intros. by eapply a2d_step_refines. }
  eapply blit_rectangles_mono; [intros w e; by apply a2d_field_refines|]. apply (a2d_blit_rectangles st l1 st2).
  unfold is_blit, is_type7 in Hb. unfold a2d_step in H2.
  destruct (header blit) as [|o c]; [done|]. apply Z.eqb_eq in Hb as ->. exact H2.
Qed.

(** The 3D checks keep what the blits demand. *)
Lemma check_vertices_a2d seg draw l l' w e :
  check_vertices seg draw l = Ok l' → a2d_field l w e → a2d_field l' w e.
Proof.
  intros (base & size & stride & first & i & a & _ & Hi & _ & ->)%check_vertices_Ok (j & b & Hj & Hw & He).
  destruct (decide (i = j)) as [->|].
  - exists j, (with_size size a). rewrite list_lookup_insert_eq by by eapply lookup_lt_Some.
    by assert (a = b) as -> by congruence.
  - exists j, b. by rewrite list_lookup_insert_ne.
Qed.

Lemma validate_3d_a2d packets l rels strict l' w e :
  validate_3d_sequences packets l rels strict = Ok l' → a2d_field l w e → a2d_field l' w e.
Proof.
  unfold validate_3d_sequences. intros H Hl. step_ok H as s Hs. injection H as <-.
  eapply (foldM_invariant (λ s, a2d_field s.(addresses3) w e)); [| |exact Hs]; [|done].
  intros s1 [i p] s2 _ H1 H. unfold three_d_step in H.
  destruct (is_type7 p CP_DRAW_INDX_OFFSET); [|by injection H as <-]. unfold validate_draw in H.
  step_ok H as pipe Hpipe. step_ok H as sh Hsh. step_ok H as tl Htl. destruct tl as [t l1].
  step_ok H as dl Hdl. destruct dl as [d l2]. step_ok H as u Hu. step_ok H as l3 Hl3.
  step_ok H as l4 Hl4. injection H as <-. cbn [addresses3].
  eapply a2d_field_refines; [by eapply check_descriptor_refines|].
  eapply check_vertices_a2d; [exact Hl3|]. eapply a2d_field_refines; [by eapply depth_transition_refines|].
  eapply a2d_field_refines; [by eapply target_transition_refines|done].
Qed.

(** ** Pixels *)

(** The 2D check bounds every pixel of a linear image. *)
Lemma check_a2d_pixels a r res e x y :
  check_a2d a r res = Ok () → a.(af_a2d) = Some e → e.(a2d_modifier) = Linear →
  0 ≤ e.(a2d_row_pitch) → 0 ≤ x < e.(required_width) → 0 ≤ y < e.(required_height) →
  y * e.(a2d_row_pitch) + x * 4 + 4 ≤ r.(required_size).
Proof.
  intros H He Hm Hp Hx Hy. unfold check_a2d in H. step_ok H as image Himage.
  step_ok H as row Hrow. step_ok H as size Hsize.
  match type of H with (if ?c then _ else _) = _ => destruct c; [done|] end.
  rewrite He in H. cbn [ok_or bind] in H. step_ok H as bytes Hbytes.
  match type of H with (if ?c then _ else _) = _ => destruct c eqn:Hc; [done|] end. bool_to_prop.
  rewrite bool_decide_true in Hbytes by congruence. apply ok_or_Ok in Hbytes.
  apply bind_Some in Hbytes as (b & [-> _]%checked_mul_Some & (b' & [-> _]%checked_mul_Some & [-> _]%checked_add_Some)%bind_Some).
  unfold saturating_sub in *. rewrite Z.max_r in * by lia. nia.
Qed.

Section Blits.
Context (resolve : Z → option ResolvedResource).
Context (resolve_shader : ShaderVariant → option ResolvedResource).

(** A base address with an image expectation, once relocated. *)
Lemma a2d_address_confined s packets addresses resources out register access word e :
  objects_wf resolve resolve_shader →
  admitted resolve resolve_shader s packets addresses resources out →
  base_from packets register word → a2d_field addresses word e →
  (∀ payload w, type4_fields register payload w = [attachment_field (w + 1) access true None]) →
  ∃ obj address, holds_address out GpuVa64 word address ∧
    ∀ x y, e.(a2d_modifier) = Linear → 0 ≤ e.(a2d_row_pitch) →
      0 ≤ x < e.(required_width) → 0 ≤ y < e.(required_height) →
      accessible resolve access obj (address + y * e.(a2d_row_pitch) + x * 4) 4.
Proof.
  intros Hobj Hadm (q & c & Hq & Hh & ->) (j & a & Hj & Hw & He) Hfields.
  pose proof (adm_validated _ _ _ _ _ _ _ Hadm) as Hval.
  set (f := attachment_field (q.(word_offset) + 1) access true None).
  assert (f ∈ packet_fields q) as Hf by (unfold packet_fields; rewrite Hh, Hfields; set_solver).
  pose proof (field_at _ _ _ _ _ _ (val_ordered _ _ _ Hval) (val_refines _ _ _ Hval) Hq Hf Hj Hw) as Hjf.
  destruct (admitted_confined _ _ Hobj _ _ _ _ _ _ _ Hadm Hjf) as (r & res & a' & obj & _ & Hrel & Href & Hcon).
  assert (a' = a) as -> by (pose proof (rel_field _ _ _ _ _ _ _ _ Hrel); congruence).
  pose proof (rel_a2d _ _ _ _ _ _ _ _ Hrel (ref_complete _ _ Href)) as Hcheck.
  destruct (confined_refines _ _ _ _ _ _ _ _ Href Hcon) as [Hauth Hacc Hholds Hlo Hhi _ _ _].
  eexists obj, _. split; [exact Hholds|]. intros x y Hm Hp Hx Hy.
  pose proof (check_a2d_pixels _ _ _ _ _ _ Hcheck He Hm Hp Hx Hy).
  unfold accessible. split_and!; [done|done|nia|nia].
Qed.

Lemma word_from_u32 s packets addresses pre v :
  Forall u32 s.(pm4) → validated s packets addresses → pre ⊆ packets → word_from pre v → u32 v.
Proof. intros Hwf Hval Hsub (q & i & Hq & Hi). eapply payload_word; eauto. Qed.

(** The pixels that a blit may write are memory of an attached object: with
    the destination registers of [file], if they describe a linear image, the
    four bytes of every pixel up to the corner of the destination rectangle. *)
Definition destination_inside (file : gmap Z Z) : Prop :=
  ∃ obj info lo hi pitch br,
    register_word file RB_A2D_DEST_BUFFER_INFO 0 = Some info ∧
    register_word file RB_A2D_DEST_BUFFER_BASE 0 = Some lo ∧
    register_word file RB_A2D_DEST_BUFFER_BASE 1 = Some hi ∧
    register_word file RB_A2D_DEST_BUFFER_PITCH 0 = Some pitch ∧
    register_word file GRAS_A2D_DEST_TL 1 = Some br ∧
    (info .& (3 << 8) = 0 → ∀ x y, 0 ≤ x ≤ br .& 0xffff → 0 ≤ y ≤ br >> 16 →
      accessible resolve ACCESS_WRITE obj ((lo .| (hi << 32)) + y * (pitch * 64) + x * 4) 4).

(** The pixels that a sampled blit reads, in the same way: the corner of the
    source rectangle is in fixed point with eight fractional bits. *)
Definition source_inside (file : gmap Z Z) : Prop :=
  ∃ obj lo hi pitch xmax ymax,
    register_word file TPL1_A2D_SRC_TEXTURE_BASE 0 = Some lo ∧
    register_word file TPL1_A2D_SRC_TEXTURE_BASE 1 = Some hi ∧
    register_word file TPL1_A2D_SRC_TEXTURE_PITCH 0 = Some pitch ∧
    register_word file GRAS_A2D_SRC_XMIN 1 = Some xmax ∧
    register_word file GRAS_A2D_SRC_XMIN 3 = Some ymax ∧
    ∀ x y, 0 ≤ x ≤ xmax >> 8 → 0 ≤ y ≤ ymax >> 8 →
      accessible resolve ACCESS_READ obj ((lo .| (hi << 32)) + y * ((pitch >> 9) * 64) + x * 4) 4.

(** The checker's word for the tiling of the destination. *)
Lemma destination_linear v f m : a2d_destination_format v = Some (f, m) → v .& (3 << 8) = 0 → m = Linear.
Proof.
  unfold a2d_destination_format. intros H Hv. repeat case_match; try done; bool_to_prop; subst v;
    first [by injection H|by vm_compute in Hv].
Qed.

Lemma blit_destination_inside s packets addresses resources out file st :
  objects_wf resolve resolve_shader →
  admitted resolve resolve_shader s packets addresses resources out →
  blit_state packets st → describes out file st → blit_rectangles st addresses → destination_inside file.
Proof.
  intros Hobj Hadm Hstate Hfile [_ (word & format & modifier & pitch & br & Hword & Hformat & Hpitch & Hbr & Hfield) _].
  pose proof (λ v, word_from_u32 _ _ _ packets v (proj1 (adm_wf _ _ _ _ _ _ _ Hadm))
                (adm_validated _ _ _ _ _ _ _ Hadm) (reflexivity packets)) as Hu32.
  destruct (a2d_address_confined _ _ _ _ _ RB_A2D_DEST_BUFFER_BASE ACCESS_WRITE _ _ Hobj Hadm
    (bs_destination _ _ Hstate _ Hword) Hfield ltac:(done)) as (obj & address & (lo & hi & Hlo & Hhi & Haddr) & Hpix).
  destruct (ds_destination _ _ _ Hfile _ Hword) as [Hrlo Hrhi]. rewrite Hlo in Hrlo. rewrite Hhi in Hrhi.
  destruct (ds_format _ _ _ Hfile _ Hformat) as (info & Hinfo & Hf).
  destruct (ds_destination_pitch _ _ _ Hfile _ Hpitch) as (pw & Hpw & Hpv).
  exists obj, info, lo, hi, pw, br. split_and!; try done; [by apply (ds_br _ _ _ Hfile)|].
  intros Hlin x y Hx Hy. apply (destination_linear _ _ _ Hf) in Hlin.
  destruct (Hu32 br (bs_br _ _ Hstate _ Hbr)) as [??].
  destruct (bs_destination_pitch _ _ Hstate _ Hpitch) as (w & [??]%Hu32 & ->).
  replace (pw * 64) with (w * 64) by lia. change (lo .| (hi << 32)) with (read_address GpuVa64 lo hi). rewrite Haddr.
  apply Hpix; cbn [a2d_modifier a2d_row_pitch required_width required_height]; [done|lia|..];
    unfold saturating_add, U32_MAX; rewrite Z.min_r; try lia.
  - rewrite (land_mask _ 0xffff 16) by done. zlia.
  - rewrite Z.shiftr_div_pow2 by done. zlia.
Qed.

Lemma blit_source_inside s packets addresses resources out file st :
  objects_wf resolve resolve_shader →
  admitted resolve resolve_shader s packets addresses resources out →
  blit_state packets st → describes out file st → blit_rectangles st addresses →
  st.(solid) = Some false → source_inside file.
Proof.
  intros Hobj Hadm Hstate Hfile [_ _ Hsrc] Hsolid. destruct (Hsrc Hsolid) as
    (word & pitch & size & xmax & ymax & Hword & Hpitch & Hsize & Hxm & Hym & Hx & Hy & Hfield).
  pose proof (λ v, word_from_u32 _ _ _ packets v (proj1 (adm_wf _ _ _ _ _ _ _ Hadm))
                (adm_validated _ _ _ _ _ _ _ Hadm) (reflexivity packets)) as Hu32.
  destruct (a2d_address_confined _ _ _ _ _ TPL1_A2D_SRC_TEXTURE_BASE ACCESS_READ _ _ Hobj Hadm
    (bs_source _ _ Hstate _ Hword) Hfield ltac:(done)) as (obj & address & (lo & hi & Hlo & Hhi & Haddr) & Hpix).
  destruct (ds_source _ _ _ Hfile _ Hword) as [Hrlo Hrhi]. rewrite Hlo in Hrlo. rewrite Hhi in Hrhi.
  destruct (ds_source_pitch _ _ _ Hfile _ Hpitch) as (pw & Hpw & Hpv).
  destruct (ds_xmax _ _ _ Hfile _ Hxm) as (x1 & Hx1 & ->). destruct (ds_ymax _ _ _ Hfile _ Hym) as (y1 & Hy1 & ->).
  exists obj, lo, hi, pw, x1, y1. split_and!; try done.
  intros x y Hx' Hy'. destruct (bs_source_pitch _ _ Hstate _ Hpitch) as (w & [Hw ?]%Hu32 & Hwv).
  pose proof (shiftr_bounds w 9 ltac:(lia) Hw).
  replace ((pw >> 9) * 64) with pitch by lia. change (lo .| (hi << 32)) with (read_address GpuVa64 lo hi). rewrite Haddr.
  apply Hpix; cbn [a2d_modifier a2d_row_pitch required_width required_height]; [done|lia|lia|lia].
Qed.

Lemma admitted_relocated s packets addresses resources out p :
  admitted resolve resolve_shader s packets addresses resources out → p ∈ packets →
  relocated_packet out p (reread 0 out p).
Proof.
  intros Hadm Hp. pose proof (adm_validated _ _ _ _ _ _ _ Hadm) as Hval.
  destruct (admitted_same _ _ _ _ _ _ _ _ Hadm Hp) as [Hs _]. constructor; [by apply (val_accepted _ _ _ Hval)|done|..].
  - eapply stream_payload; [|by apply (val_stream _ _ _ Hval)|done]. by destruct (adm_wf _ _ _ _ _ _ _ Hadm).
  - intros r c Hh. destruct (stream_type4_count _ _ _ p r c (val_stream _ _ _ Hval) Hp Hh). lia.
  - intros i Hi. pose proof (stream_bounds _ _ _ _ (val_stream _ _ _ Hval) Hp) as [Hlo _].
    cbn [reread payload]. rewrite lookup_slice by (unfold len; lia). f_equal. lia.
Qed.

(** C4: blits touch pixels of attached images only.  Take the words that an
    accepted submission sends to the command processor, and at each blit the
    register file that the packets before it leave behind, whatever the
    validator thought of them: last writes stand.  If the destination registers
    describe a linear image, the destination base address with the destination
    pitch addresses four writable bytes of one attached object for every pixel
    up to the bottom right corner of the destination rectangle; and unless the
    control register makes the blit a solid fill, the source base address with
    the source pitch addresses four readable bytes of one attached object for
    every pixel up to the corner of the source rectangle. *)
Theorem blit_pixels_confined (strict : bool) (bytes out : list Z) :
  objects_wf resolve resolve_shader → Forall u8 bytes →
  validate_and_relocate resolve resolve_shader strict bytes = Ok out →
  ∃ packets, collect_packets out = Ok packets ∧
    ∀ pre blit suf, packets = pre ++ blit :: suf → is_blit blit = true →
      destination_inside (register_file pre) ∧
      ∃ control, register_word (register_file pre) RB_A2D_BLT_CNTL 0 = Some control ∧
        (control .& (1 << 7) = 0 → source_inside (register_file pre)).
Proof.
  intros Hobj Hb H.
  destruct (validate_and_relocate_admitted _ _ _ _ _ Hobj Hb H) as (d & s & ps & l & rs & Hd & Hs & Hadm).
  destruct (admitted_packets _ _ _ _ _ _ _ Hadm) as (_ & Hout & _).
  destruct (val_checks _ _ _ (adm_validated _ _ _ _ _ _ _ Hadm)) as (strict' & dd & l1 & l2 & H1 & H2 & H3).
  exists (reread 0 out <$> ps). split; [done|].
  intros pre' blit' suf' (pre & rest & Hpre & (blit & suf & Hbl & Hsuf & Hrest)%symmetry%fmap_cons_inv & Hps)%fmap_app_inv Hblit.
  subst rest pre' blit' suf'. assert (pre ⊆ ps) as Hsub by set_solver.
  destruct (blit_checked _ _ _ _ _ _ H1 Hps Hblit) as (st & lp & Hfold & Hstate & Hrect).
  apply (blit_rectangles_mono _ _ l) in Hrect ; last first.
  { intros w e He. eapply validate_3d_a2d; [exact H3|].
      eapply a2d_field_refines; [by eapply validate_texture_refines|done]. }
  apply (blit_state_mono pre ps) in Hstate; [|done].
  assert (describes out (register_file (reread 0 out <$> pre)) st) as Hfile.
  { eapply a2d_fold_describes; [|exact Hfold]. apply Forall2_fmap_r, Forall_Forall2_diag, Forall_forall.
    intros p Hp. eapply admitted_relocated; [exact Hadm|auto]. }
  split; [by eapply blit_destination_inside|]. destruct (br_solid _ _ Hrect) as [b Hsolid].
  destruct (ds_solid _ _ _ Hfile _ Hsolid) as (control & Hc & ->). exists control. split; [done|].
  intros Hz. rewrite Hz in Hsolid. by eapply blit_source_inside.
Qed.
End Blits.

Lemma blit_pixels_confined_witness :
  ∃ packets, collect_packets draw_out = Ok packets ∧
    ∀ pre blit suf, packets = pre ++ blit :: suf → is_blit blit = true →
      destination_inside sample_resolve (register_file pre) ∧
      ∃ control, register_word (register_file pre) RB_A2D_BLT_CNTL 0 = Some control ∧
        (control .& (1 << 7) = 0 → source_inside sample_resolve (register_file pre)).
Proof. exact (blit_pixels_confined _ _ _ _ _ sample_objects_wf draw_bytes_u8 draw_accepted). Defined.

(** The corner and the pitch of the destination, the corner of the source and
    the solid bit at each blit: the sample holds a solid and a sampled one. *)
Definition blit_registers (packets : list Packet) : list (list (option Z)) :=
  let at_ (i : nat) (p : Packet) :=
    let file := register_file (take i packets) in
    if is_blit p then
      [[register_word file GRAS_A2D_DEST_TL 1; register_word file RB_A2D_DEST_BUFFER_PITCH 0;
        register_word file GRAS_A2D_SRC_XMIN 1; option_map (λ v, v .& (1 << 7)) (register_word file RB_A2D_BLT_CNTL 0)]]
    else [] in
  concat (imap at_ packets).

Lemma sample_has_blits :
  match collect_packets draw_out with Ok packets => blit_registers packets | _ => [] end
  = [[Some 4128831; Some 4; None; Some 128]; [Some 4128831; Some 4; Some 16128; Some 0]].
Proof. vm_compute. reflexivity. Qed.
