(* ===== verification/SubmitNoPanic.v ===== *)
(** * The validator never panics

    [validate_and_relocate] runs in the kernel on bytes a user program chose.
    Its indexing, its unchecked additions and its divisions are safe because of
    checks made elsewhere: the allowlist fixes payload lengths, the stream is
    short, and image layouts come from the layout crate.  This file collects
    those reasons into one theorem. *)
From stdpp Require Import gmap.
From S2P Require Import Prelude F32 Pm4 ImageLayout ShaderPack SubmitWire SubmitWireFacts SubmitTypes.
From S2P Require Import SubmitPackets SubmitOrdering SubmitPacketFacts SubmitA2d SubmitSegment Submit3d.
From S2P Require Import SubmitRelocate SubmitSegmentFacts SubmitFields SubmitSafety SubmitSample.

(** What the packet loop of [validate_pm4] leaves of a packet. *)
Record safe_packet (p : Packet) : Prop := {
  safe_accepted : accepted p;
  safe_words : Forall u32 p.(payload);
  safe_offset : 0 ≤ p.(word_offset) ≤ 0x80000;
}.

Definition safe {E A} (m : outcome E A) : Prop := ensures (λ _, True) m.

Lemma safe_bind {E A B} (m : outcome E A) (f : A → outcome E B) :
  safe m → (∀ a, m = Ok a → safe (f a)) → safe (bind m f).
Proof. intros Hm Hf. destruct m; [by apply Hf|done..]. Qed.

Lemma safe_no_panic {E A} (m : outcome E A) : safe m ↔ m ≠ Panic.
Proof. by destruct m. Qed.

Lemma safe_ok_or {E A} (o : option A) (e : E) : safe (ok_or o e).
Proof. by destruct o. Qed.

Lemma safe_map_err {E E' A} (m : outcome E A) (e : E') : safe m → safe (map_err m e).
Proof. by destruct m. Qed.

Lemma safe_index {E A} (l : list A) i : 0 ≤ i < len l → safe (E:=E) (index l i).
Proof. intros Hi. apply ensures_index; [|done]. unfold len in Hi. lia. Qed.

Lemma safe_add {E} p k : safe_packet p → 0 ≤ k ≤ 16 → safe (E:=E) (add_or_panic U32_MAX p.(word_offset) k).
Proof.
  intros Hp Hk. pose proof (safe_offset p Hp). apply ensures_add; [unfold U32_MAX; lia|done].
Qed.

Lemma safe_foldM {E S X} (P : S → Prop) (f : S → X → outcome E S) s l :
  P s → (∀ s x s', x ∈ l → P s → f s x = Ok s' → P s') → (∀ s x, x ∈ l → P s → safe (f s x)) →
  safe (foldM f s l).
Proof.
  revert s. induction l as [|x l IH]; intros s Hs Hkeep Hsafe; [done|]. cbn [foldM]. apply safe_bind.
  - apply Hsafe; [set_solver|done].
  - intros s' Hs'. apply IH; [eapply Hkeep; [|done..]; set_solver| |].
    + intros s1 y s2 Hy. apply Hkeep. set_solver.
    + intros s1 y Hy. apply Hsafe. set_solver.
Qed.

Lemma safe_mapM {E X Y} (f : X → outcome E Y) l : (∀ x, x ∈ l → safe (f x)) → safe (mapM f l).
Proof.
  intros H. eapply ensures_mono; [apply (ensures_mapM (λ _ _, True)); exact H|done].
Qed.

(** Take one step: a guard, a fallible lookup or a bind. *)
Ltac safe_step :=
  match goal with
  | |- safe (Ok _) => exact I
  | |- safe (Err _) => exact I
  | |- safe (ok_or _ _) => apply safe_ok_or
  | |- safe (bind _ _) => apply safe_bind; [|let x := fresh "x" in let Hx := fresh "Hx" in intros x Hx]
  | |- safe (if ?c then _ else _) => destruct c eqn:?
  | |- safe (match ?o with Some _ => _ | None => _ end) => destruct o eqn:?
  | |- safe (let '(_, _) := ?o in _) => destruct o
  end.
Ltac safe_steps := repeat safe_step.

(** ** The 2D checks *)

Lemma type4_index {E} p register count n i :
  safe_packet p → p.(header) = Type4 register count → type4_len register = Some n → 0 ≤ i < n →
  safe (E:=E) (index p.(payload) i).
Proof.
  intros Hp Hh Hn Hi. apply safe_index.
  by rewrite (accepted_type4_len p register count n (safe_accepted p Hp) Hh Hn).
Qed.

Lemma a2d_register_safe st p register count :
  safe_packet p → p.(header) = Type4 register count → safe (a2d_register st p register).
Proof.
  intros Hp Hh. unfold a2d_register. cbv zeta beta.
  repeat match goal with
  | |- safe (if register =? ?r then _ else _) => destruct (Z.eqb_spec register r) as [->|_]
  end; safe_steps;
    first [ eapply type4_index; [exact Hp|exact Hh|reflexivity|lia] | apply safe_add; [done|lia] ].
Qed.

Lemma set_a2d_safe l w e : safe (set_a2d_expectation l w e).
Proof.
  unfold set_a2d_expectation. apply safe_bind; [apply safe_no_panic, address_entry_no_panic|].
  intros [i a] _. by case_match.
Qed.

Lemma set_image_safe l w e : safe (set_image_expectation l w e).
Proof.
  unfold set_image_expectation. apply safe_bind; [apply safe_no_panic, address_entry_no_panic|].
  intros [i a] _. by case_match.
Qed.

Lemma a2d_source_safe st l : safe (a2d_source st l).
Proof. unfold a2d_source. safe_steps. apply set_a2d_safe. Qed.

Lemma a2d_blit_safe st l : safe (a2d_blit st l).
Proof. unfold a2d_blit. safe_steps; first [apply set_a2d_safe|apply a2d_source_safe]. Qed.

Lemma validate_a2d_safe packets l :
  Forall safe_packet packets → safe (validate_a2d_sequences packets l).
Proof.
  intros Hp. unfold validate_a2d_sequences. apply safe_bind; [|intros [st l'] _; by safe_steps].
  apply (safe_foldM (λ _, True)); [done..|]. intros [st l'] p Hin _.
  rewrite Forall_forall in Hp. specialize (Hp p Hin). unfold a2d_step.
  destruct (header p) eqn:Hh; safe_steps; [by eapply a2d_register_safe|apply a2d_blit_safe].
Qed.

(** ** The texture checks *)

Section Decoded.
Context (minor : Z) (s : Submit).
Hypothesis Hcounts : counts_ok (len s.(pm4)) (len s.(resources)) (len s.(relocations)).
Hypothesis Hwf : wf_submit s.

Lemma decoded_resource_safe i : 0 ≤ i → safe (resource (decoded minor s) i).
Proof.
  intros Hi. destruct (s.(resources) !! Z.to_nat i) as [r|] eqn:Hr.
  - pose proof (resource_image_read minor s Hcounts Hwf _ _ Hr) as H. rewrite Z2Nat.id in H by done.
    by rewrite H.
  - rewrite resource_image_none; [done|]. apply lookup_ge_None in Hr. unfold len. lia.
Qed.

Lemma location_safe w o : safe (location (decoded minor s) s.(relocations) w o).
Proof.
  unfold location. apply safe_bind; [apply safe_ok_or|]. intros r Hr. apply ok_or_Ok in Hr.
  destruct (s.(relocations) !! _) as [r'|] eqn:Hl; [|done]. case_match; [|done]. simplify_eq.
  destruct (source r) as [i|v] eqn:Hsrc; [|done].
  destruct Hwf as (_ & _ & Hrel). rewrite Forall_lookup in Hrel. destruct (Hrel _ _ Hl) as (_ & Hs & _).
  rewrite Hsrc in Hs. destruct Hs. safe_steps. by apply safe_map_err, decoded_resource_safe.
Qed.

Lemma mem_write_index {E} p i :
  safe_packet p → is_type7 p CP_MEM_WRITE = true → 0 ≤ i < 22 → safe (E:=E) (index p.(payload) i).
Proof.
  intros Hp Ht Hi. apply safe_index. unfold is_type7 in Ht. destruct (header p) as [|o c] eqn:Hh; [done|].
  apply Z.eqb_eq in Ht as ->.
  pose proof (accepted_type7_len p CP_MEM_WRITE c _ (safe_accepted p Hp) (safe_words p Hp) Hh eq_refl) as Hl.
  apply list_elem_of_singleton in Hl. lia.
Qed.

Lemma init_descriptor_safe init l p :
  safe_packet p → is_type7 p CP_MEM_WRITE = true →
  safe (init_descriptor (decoded minor s) s.(relocations) init l p).
Proof.
  intros Hp Ht. unfold init_descriptor. cbv zeta beta.
  safe_steps; first
    [ apply mem_write_index; [done|done|lia] | apply safe_add; [done|lia] | apply set_image_safe
    | apply location_safe ].
Qed.

Lemma validate_texture_safe packets l :
  Forall safe_packet packets →
  safe (validate_texture_initialization (decoded minor s) packets l s.(relocations)).
Proof.
  intros Hp. unfold validate_texture_initialization. apply safe_bind; [|by intros [? ?] _].
  apply (safe_foldM (λ _, True)); [done..|]. intros [init l'] p Hin _.
  rewrite Forall_forall in Hp. specialize (Hp p Hin). unfold texture_step.
  destruct (is_type7 p CP_MEM_WRITE) eqn:Ht; [by apply init_descriptor_safe|].
  apply safe_bind.
  - unfold state_lookup. cbv zeta beta. destruct (header p); safe_steps; (apply safe_add; [done|lia]).
  - intros [[w o]|] _; [|done]. apply safe_bind; [apply location_safe|]. intros place _. by safe_steps.
Qed.
End Decoded.

(** ** The 3D checks *)

Section Segments.
Context (packets : list Packet) (start stop : Z).
Hypothesis Hpackets : Forall safe_packet packets.
Local Abbreviation segment := (SegmentIndex_new (slice packets start stop)).

Lemma segment_register r w p :
  reg segment r = Some (w, p) →
  ∃ q c, safe_packet q ∧ q.(header) = Type4 r c ∧ w = q.(word_offset) ∧ p = q.(payload).
Proof.
  intros (q & c & Hq & Hh & -> & ->)%reg_new_elem. exists q, c. split_and!; try done.
  rewrite Forall_forall in Hpackets. apply Hpackets. by eapply elem_of_slice.
Qed.

Lemma segment_index {E} r w p n i :
  reg segment r = Some (w, p) → type4_len r = Some n → 0 ≤ i < n → safe (E:=E) (index p i).
Proof. intros (q & c & Hq & Hh & _ & ->)%segment_register Hn Hi. by eapply type4_index. Qed.

Lemma segment_word {E} r w p k :
  reg segment r = Some (w, p) → 0 ≤ k ≤ 16 → safe (E:=E) (add_or_panic U32_MAX w k).
Proof. intros (q & c & Hq & _ & -> & _)%segment_register Hk. by apply safe_add. Qed.

Ltac segment_lookup :=
  match goal with
  | H : ok_or (reg _ _) _ = Ok (_, _) |- _ => apply ok_or_Ok in H
  end.
Ltac segment_step :=
  first [ eapply segment_index; [eassumption|reflexivity|lia]
        | eapply segment_word; [eassumption|lia]
        | apply set_image_safe | apply safe_no_panic, address_entry_no_panic ].

Lemma select_pipeline_safe strict rels retained delta :
  safe (select_pipeline strict segment rels retained delta).
Proof.
  unfold select_pipeline. safe_steps. apply (safe_foldM (λ _, True)); [done..|].
  intros m v _ _. unfold candidate_step. by safe_steps.
Qed.

Lemma shader_transition_safe initialized delta : safe (shader_transition segment initialized delta).
Proof. unfold shader_transition. by safe_steps. Qed.

Lemma target_transition_safe target delta l : safe (target_transition segment target delta l).
Proof.
  unfold target_transition.
  destruct (reg segment RB_MRT_PITCH) as [[? pitch]|] eqn:Hpitch,
    (reg segment RB_MRT_BASE) as [[base ?]|] eqn:Hbase,
    (reg segment GRAS_CL_VIEWPORT_XOFFSET) as [[? clip]|],
    (reg segment GRAS_SC_SCREEN_SCISSOR_TL) as [[? screen]|],
    (reg segment GRAS_SC_VIEWPORT_SCISSOR_TL) as [[? viewport]|]; try done; [|by safe_steps].
  unfold new_target, pair_of. apply safe_bind; [by repeat case_match|]. intros [s0 s1] _.
  apply safe_bind; [by repeat case_match|]. intros [v0 v1] _. safe_step; [done|].
  destruct (f32_from_bits <$> clip) as [|? [|? [|? [|? [|? [|? [|]]]]]]]; try done.
  safe_steps; segment_step.
Qed.

Lemma depth_transition_safe target delta initialized l :
  safe (depth_transition segment target delta initialized l).
Proof.
  unfold depth_transition. destruct (reg segment RB_DEPTH_BUFFER_INFO) as [[w info]|] eqn:Hinfo; safe_steps;
    segment_step.
Qed.

Lemma check_window_safe target : safe (check_window segment target).
Proof.
  unfold check_window. apply safe_bind; [apply safe_ok_or|]. intros [w window] Hw. segment_lookup.
  safe_steps; segment_step.
Qed.

Lemma check_vertices_safe draw l :
  safe_packet draw → is_type7 draw CP_DRAW_INDX_OFFSET = true → safe (check_vertices segment draw l).
Proof.
  intros Hd Ht. unfold check_vertices.
  apply safe_bind; [apply safe_ok_or|]. intros [lw layout] Hlayout. segment_lookup.
  apply safe_bind; [apply safe_ok_or|]. intros [ow offset] Hoffset. segment_lookup.
  do 3 (apply safe_bind; [segment_step|intros ? _]). apply safe_bind.
  - destruct (Z.eqb_spec (len (payload draw)) 3); safe_steps. apply safe_index. lia.
  - intros [] _. apply safe_bind; [apply safe_ok_or|]. intros [base bp] Hbase. segment_lookup.
    apply safe_bind; [segment_step|]. intros w _. apply safe_bind; [segment_step|]. by intros [? ?] _.
Qed.

Lemma check_descriptor_safe l : safe (check_descriptor segment l).
Proof.
  unfold check_descriptor. destruct (find _ _) as [q|] eqn:Hf; [|done].
  apply find_some in Hf as [Hin%list_elem_of_In _]. cbn [SegmentIndex_new seg_packets] in Hin.
  apply elem_of_slice in Hin. rewrite Forall_forall in Hpackets. specialize (Hpackets q Hin).
  cbv zeta. apply safe_bind; [apply safe_add; [done|lia]|]. intros w _. apply set_image_safe.
Qed.
End Segments.

Lemma validate_3d_safe packets l rels strict :
  Forall safe_packet packets → safe (validate_3d_sequences packets l rels strict).
Proof.
  intros Hp. unfold validate_3d_sequences. apply safe_bind; [|done].
  apply (safe_foldM (λ _, True)); [done..|]. intros st [i p] Hin _. unfold three_d_step.
  assert (safe_packet p) as Hsafe.
  { rewrite Forall_forall in Hp. apply Hp. unfold enumerate in Hin.
    apply elem_of_zip_r in Hin. done. }
  destruct (is_type7 p CP_DRAW_INDX_OFFSET) eqn:Ht; [|done]. unfold validate_draw. cbv zeta.
  apply safe_bind; [apply select_pipeline_safe|]. intros pipe _.
  apply safe_bind; [apply shader_transition_safe|]. intros sh _.
  apply safe_bind; [by apply target_transition_safe|]. intros [t l1] _.
  apply safe_bind; [by apply depth_transition_safe|]. intros [d l2] _.
  apply safe_bind; [by apply check_window_safe|]. intros [] _.
  apply safe_bind; [by apply check_vertices_safe|]. intros l3 _.
  apply safe_bind; [by apply check_descriptor_safe|]. done.
Qed.

(** ** Images *)

(** The metadata the backend keeps of an image: extents and pitch are [u32]
    values, and a mip chain is laid out by the layout crate. *)
Record image_wf (image : LinearImage) : Prop := {
  wf_width : u32 image.(img_width);
  wf_height : u32 image.(img_height);
  wf_pitch : u32 image.(img_row_pitch);
  wf_texture t : image.(texture) = Some t → layout_ok t;
}.

Lemma depth_layer_size w h layout :
  0 ≤ w → 0 ≤ h → depth32_tile6_3_layout w h = Some layout → 0 < layout.(d32_layer_size).
Proof.
  intros Hw Hh. unfold depth32_tile6_3_layout. destruct (_ || _) eqn:H0; [done|]. bool_to_prop.
  destruct (checked_mul _ w 4) as [rb|] eqn:Hrb; [|done]. apply checked_mul_Some in Hrb as [-> _].
  destruct (align_up_u32 (w * 4) _) as [rp|] eqn:Hrp; [|done].
  apply (align_up_u32_Some _ _ 8) in Hrp as [_ ->]; [|lia|done].
  destruct (align_up_u32 h _) as [ph|] eqn:Hph; [|done].
  apply (align_up_u32_Some _ _ 4) in Hph as [_ ->]; [|lia|done].
  destruct (checked_mul _ _ _) as [sz|] eqn:Hsz; [|done]. apply checked_mul_Some in Hsz as [-> _].
  pose proof (round_up_bounds (w * 4) DEPTH32_PITCH_ALIGNMENT ltac:(done)).
  pose proof (round_up_bounds h DEPTH32_HEIGHT_ALIGNMENT ltac:(done)).
  destruct (align_up_u64 _ _) as [ls|] eqn:Hls; [|done].
  apply (align_up_u64_Some _ _ 12) in Hls as [_ ->]; [|nia|done]. intros [= <-]. cbn [d32_layer_size].
  match goal with |- 0 < round_up ?v ?a => pose proof (round_up_bounds v a ltac:(done)) end. nia.
Qed.

Lemma image_footprint_pos image n :
  image_wf image → image.(img_format) = Depth32Float → image_footprint image = Some n → 0 < n.
Proof.
  intros [[??] [??] _ Ht] Hf. unfold image_footprint. rewrite Hf.
  destruct (texture image) as [t|].
  - intros [= <-]. specialize (Ht t eq_refl). destruct Ht. nia.
  - destruct (img_modifier image); [done| |done].
    destruct (depth32_tile6_3_layout _ _) as [layout|] eqn:Hl; [|done].
    case_match; [|done]. intros [= <-]. by eapply depth_layer_size; [| |exact Hl].
Qed.

Lemma find_level_wf image t layer offset size levels :
  image_wf image → layout_ok t → 0 ≤ layer < t.(array_layers) →
  Forall (λ l, 0 ≤ l < t.(mip_levels)) levels →
  ensures image_wf (find_level image t layer offset size levels).
Proof.
  intros Hi Ht Hl. induction 1 as [|level levels Hlevel _ IH]; [done|]. cbn [find_level].
  rewrite subresource_ok by done. cbn [bind]. case_match; [|done]. cbn [ensures subresource_spec].
  pose proof (layout_pitch_bounds t Ht). pose proof (ok_height t Ht). pose proof (ok_width t Ht).
  pose proof (level_pitch_bounds t.(row_pitch) level ltac:(lia) ltac:(lia)).
  pose proof (level_rows_bounds t.(height) level ltac:(lia) ltac:(lia)).
  pose proof (shiftr_bounds t.(width) level ltac:(lia) ltac:(lia)).
  constructor; unfold u32; cbn [img_width img_height img_row_pitch texture subresource_spec
    sub_width sub_height sub_row_pitch]; [lia|lia|lia|done].
Qed.

Lemma image_range_wf image offset size :
  image_wf image → 0 ≤ offset → ensures image_wf (image_range image offset size).
Proof.
  intros Hi Ho. pose proof Hi as [[??] [??] [??] Ht]. unfold image_range.
  assert (∀ fmt m w h v, u32 w → u32 h →
    image_wf (MkLinearImage (texture image) fmt m w h (img_row_pitch image) v)) as Hmk by (by constructor).
  assert (u32 (img_width image / 2) ∧ u32 (img_height image / 2)) as [??] by (unfold u32; split; zlia).
  destruct (img_format image) eqn:Hf.
  1:{ case_match; [done|]. rewrite mul_or_panic_ok by (unfold U64_MAX; nia). cbn [bind].
      case_match; [by apply Hmk|]. case_match; [by apply Hmk|done]. }
  4:{ case_match; [done|]. rewrite bool_decide_true by done. destruct (image_footprint image) as [n|] eqn:Hn; [|done]. cbn [ok_or bind].
      apply image_footprint_pos in Hn; [|done|done]. case_match; [|done].
      destruct (Z.eqb_spec n 0); [lia|]. case_match; [|done].
      destruct (checked_add _ _ _); [|done]. cbn [ok_or bind]. case_match; [|done]. by apply Hmk. }
  all: case_match; [done|]; rewrite bool_decide_false by done; destruct (texture image) as [t|]; [|done]; cbn [ok_or bind];
    specialize (Ht t eq_refl); pose proof (ok_stride t Ht) as [_ ?];
    (destruct (Z.eqb_spec (layer_stride t) 0); [lia|]); case_match; [done|]; case_match; [|done];
    bool_to_prop; apply find_level_wf; [done|done|split; [apply Z.div_pos; lia|done]|];
    apply Forall_forall; intros l Hl%elem_of_range; lia.
Qed.

(** ** Authorisation and relocation *)

(** What the context's attachments are known to be. *)
Definition resources_image_wf (obj : ResolvedResource) : Prop :=
  ∀ image, obj.(linear_image) = Some image → image_wf image.

Section Entry.
Context (resolve : Z → option ResolvedResource).
Context (resolve_shader : ShaderVariant → option ResolvedResource).

Definition images_wf : Prop :=
  (∀ token obj, resolve token = Some obj → resources_image_wf obj) ∧
  (∀ variant obj, resolve_shader variant = Some obj → resources_image_wf obj).

Hypothesis Himages : images_wf.

Lemma relocated_image_safe r res e :
  wf_relocation r → resources_image_wf res → safe (relocated_image r res e).
Proof.
  intros (_ & _ & [? _] & _) Hres. unfold relocated_image.
  destruct (linear_image res) as [image|] eqn:Hi; [|done].
  apply safe_map_err. eapply ensures_mono; [by apply image_range_wf; [apply Hres|]|done].
Qed.

Lemma check_a2d_safe a r res :
  wf_relocation r → resources_image_wf res → safe (check_a2d a r res).
Proof.
  intros Hr Hres. unfold check_a2d. apply safe_bind; [by apply relocated_image_safe|].
  intros image _. by safe_steps.
Qed.

Lemma check_image_safe e r res :
  wf_relocation r → resources_image_wf res → safe (check_image e r res).
Proof.
  intros Hr Hres. unfold check_image. apply safe_bind; [by apply relocated_image_safe|].
  intros image _. by safe_steps.
Qed.

Lemma relocate_one_safe words r res : safe (relocate_one words r res).
Proof. unfold relocate_one. cbv zeta. destruct (encoding r); by safe_steps. Qed.

Lemma relocation_step_safe resources addresses words i r :
  wf_relocation r → Forall resources_image_wf resources → 0 ≤ i < len addresses →
  safe (relocation_step resolve_shader resources addresses words (i, r)).
Proof.
  intros Hr Hres Hi. unfold relocation_step.
  apply safe_bind; [unfold relocation_resource; destruct (source r); apply safe_ok_or|]. intros res Hok.
  assert (resources_image_wf res) as Hwf.
  { unfold relocation_resource in Hok. destruct (source r); apply ok_or_Ok in Hok.
    - rewrite Forall_lookup in Hres. eauto.
    - destruct Himages. eauto. }
  safe_steps; try by first [apply safe_index|apply check_a2d_safe|apply check_image_safe|apply relocate_one_safe].
Qed.

Lemma authorise_resource_safe minor s i :
  counts_ok (len s.(pm4)) (len s.(SubmitWire.resources)) (len s.(relocations)) → wf_submit s → 0 ≤ i →
  ensures resources_image_wf (authorise_resource resolve (decoded minor s) i).
Proof.
  intros Hc Hwf Hi. unfold authorise_resource.
  apply ensures_bind, ensures_eq; [by apply safe_no_panic, safe_map_err, decoded_resource_safe|].
  intros wire Hwire. apply map_err_Ok in Hwire.
  apply ensures_bind, ensures_ok_or. intros obj Hobj. apply ensures_bind, ensures_ok_or. intros e He.
  case_match; [done|]. case_match; [done|]. apply ensures_bind, ensures_ok_or. intros va Hva.
  destruct (s.(SubmitWire.resources) !! Z.to_nat i) as [w|] eqn:Hw.
  2:{ rewrite resource_image_none in Hwire; [done|]. apply lookup_ge_None in Hw. unfold len. lia. }
  pose proof (resource_image_read minor s Hc Hwf _ _ Hw) as Hread. rewrite Z2Nat.id in Hread by done.
  assert (wf_resource wire) as (_ & [? _] & _).
  { destruct Hwf as (_ & Hres & _). rewrite Forall_lookup in Hres.
    assert (w = wire) as <- by congruence. eauto. }
  destruct Himages as [Hatt _]. destruct (linear_image obj) as [image|] eqn:Him; [|by cbn].
  pose proof (image_range_wf image wire.(range_offset) wire.(range_size) (Hatt _ _ Hobj _ Him) ltac:(done)) as Hr.
  destruct (image_range _ _ _) as [im| |]; cbn in *; [|done|done]. by intros im' [= <-].
Qed.

Lemma stream_safe_packets s packets l :
  Forall u32 s.(pm4) → len s.(pm4) ≤ 0x80000 → stream 0 s.(pm4) packets →
  foldM validate_packet [] packets = Ok l → Forall safe_packet packets.
Proof.
  intros Hw Hlen Hs Hl. apply Forall_forall. intros p Hp.
  pose proof (stream_bounds _ _ _ _ Hs Hp). pose proof (len_nonneg p.(payload)).
  constructor; [by eapply packets_accepted|by eapply stream_payload|lia].
Qed.

Lemma retirement_safe packets : Forall safe_packet packets → safe (validate_render_retirement packets).
Proof.
  intros Hp. apply safe_no_panic, render_retirement_no_panic. intros p Hin Ht.
  rewrite Forall_forall in Hp. specialize (Hp p Hin). unfold is_type4 in Ht.
  destruct (header p) as [r c|] eqn:Hh; [|done]. apply Z.eqb_eq in Ht as ->.
  pose proof (accepted_type4_len p _ c _ (safe_accepted p Hp) Hh eq_refl). by destruct (payload p).
Qed.

Lemma validate_pm4_safe strict minor s :
  counts_ok (len s.(pm4)) (len s.(SubmitWire.resources)) (len s.(relocations)) → wf_submit s →
  safe (validate_pm4 strict (decoded minor s) s.(relocations)).
Proof.
  intros Hc Hwf. pose proof (pm4_len_bound s Hc) as Hlen. unfold validate_pm4.
  rewrite copy_pm4_decoded by done. cbn [bind].
  pose proof (collect_packets_sound s.(pm4) ltac:(unfold U32_MAX; lia)) as Hsound.
  apply safe_bind; [by apply safe_map_err; eapply ensures_mono; [exact Hsound|]|].
  intros packets Hp. apply map_err_Ok in Hp. pose proof (ensures_Ok _ _ _ Hsound Hp) as Hs.
  apply safe_bind.
  - apply (safe_foldM (λ _, True)); [done..|]. intros l p Hin _. apply safe_no_panic, validate_packet_no_panic.
    pose proof (stream_bounds _ _ _ _ Hs Hin). pose proof (len_nonneg p.(payload)). lia.
  - intros l Hl. assert (Forall safe_packet packets) as Hsafe
      by (destruct Hwf; by eapply stream_safe_packets).
    safe_steps; first [ apply safe_no_panic, memcpy_barriers_no_panic
                      | apply safe_no_panic, ccu_transitions_no_panic | by apply retirement_safe
                      | by apply validate_a2d_safe | by apply validate_texture_safe
                      | by apply validate_3d_safe ].
Qed.

Lemma validate_and_relocate_safe (strict : bool) (bytes : list Z) :
  Forall u8 bytes → safe (validate_and_relocate resolve resolve_shader strict bytes).
Proof.
  intros Hb. unfold validate_and_relocate.
  apply safe_bind; [by apply safe_map_err, safe_no_panic, decode_no_panic|].
  intros d Hd. apply map_err_Ok in Hd.
  destruct (decode_inv bytes d Hb Hd) as (minor & s & Hc & Hwf & Hm & -> & ->).
  pose proof (ensures_mapM (λ _, resources_image_wf) (authorise_resource resolve (decoded minor s))
    (range (resource_len (decoded minor s)))) as Hres.
  apply safe_bind; [|intros resources Hr].
  { eapply ensures_mono; [apply Hres|done]. intros i Hi%elem_of_range. apply authorise_resource_safe; [done..|lia]. }
  apply (ensures_Ok _ _ resources) in Hres; [|intros i Hi%elem_of_range; apply authorise_resource_safe; [done..|lia]|done].
  rewrite relocations_decoded by done. cbn [bind].
  apply safe_bind; [by apply validate_pm4_safe|]. intros [words addresses] Hv.
  apply validate_pm4_validated in Hv as (-> & packets & Hval); [|done..].
  apply (safe_foldM (λ _, True)); [done..|]. intros w [i r] Hin _. unfold enumerate in Hin.
  pose proof (elem_of_zip_l _ _ _ _ Hin) as Hi%elem_of_range. apply elem_of_zip_r in Hin.
  destruct Hwf as (_ & _ & Hrel). rewrite Forall_forall in Hrel. apply relocation_step_safe; [auto| |].
  - clear -Hres. induction Hres; constructor; auto.
  - unfold len in *. rewrite (val_length _ _ _ Hval). lia.
Qed.

(** C2: the kernel's entry point is total on hostile input.  Whatever bytes a
    program submits, whatever it has attached and in either build, validation
    and relocation return a command stream or an error: no index is out of
    range, no unchecked sum overflows and no division by zero is reached. *)
Theorem validation_never_panics (strict : bool) (bytes : list Z) :
  Forall u8 bytes → validate_and_relocate resolve resolve_shader strict bytes ≠ Panic.
Proof. intros Hb. by apply safe_no_panic, validate_and_relocate_safe. Qed.
End Entry.

Lemma sample_images_wf : images_wf sample_resolve sample_resolve_shader.
Proof.
  split.
  - intros token obj H image Hi. unfold sample_resolve in H.
    repeat match type of H with (if ?c then _ else _) = _ => destruct c end; simplify_eq/=.
    constructor; unfold u32; cbn; [lia|lia|lia|done].
  - intros variant obj [= <-] image Hi. done.
Qed.

Lemma validation_never_panics_witness :
  validate_and_relocate sample_resolve sample_resolve_shader true draw_bytes ≠ Panic.
Proof. exact (validation_never_panics _ _ sample_images_wf true _ draw_bytes_u8). Defined.
