(* ===== verification/PendingQueue.v ===== *)
(** * The admission queue of the A618 driver

    [pending.rs]: a bounded FIFO whose admission slots are held by queued work,
    by the work the worker has taken out, and by work whose DMA could not be
    shown to have stopped.  The operations are pure functions on the record;
    callers serialise them with the mutex around [PendingState], so a history
    is a list of operations.  Removing a slot that was never taken would be an
    integer underflow, which is a [Panic] here. *)
From S2P Require Import Prelude.

Module Pending.

(** ** State and operations *)
Record PendingQueue (T : Type) := mk_queue {
  queued : list T;
  outstanding : Z;
  running : bool;
  capacity : Z;
  cpu_access : bool;
}.
Arguments mk_queue {T}.
Arguments queued {T}.
Arguments outstanding {T}.
Arguments running {T}.
Arguments capacity {T}.
Arguments cpu_access {T}.

Section Queue.
Context {T : Type}.
Implicit Types (q : PendingQueue T) (v : T).

Definition try_new (cap : Z) : outcome string (PendingQueue T) :=
  if cap =? 0 then Err "qcom-adreno-a618: pending queue capacity must be nonzero"%string
  else Ok (mk_queue [] 0 false cap false).

Definition has_slot q : bool := outstanding q <? capacity q.

Definition has_capacity q : bool := negb (cpu_access q) && has_slot q.

Definition try_begin_cpu_access q : bool * PendingQueue T :=
  if cpu_access q then (false, q)
  else (true, mk_queue (queued q) (outstanding q) (running q) (capacity q) true).

Definition end_cpu_access q : PendingQueue T :=
  mk_queue (queued q) (outstanding q) (running q) (capacity q) false.

Definition push_admitted q v : outcome T (PendingQueue T) :=
  let? n := add_or_panic U64_MAX (outstanding q) 1 in
  Ok (mk_queue (queued q ++ [v]) n (running q) (capacity q) (cpu_access q)).

(** Refusal hands the value back and leaves the queue as it is. *)
Definition push q v : outcome T (PendingQueue T) :=
  if negb (has_capacity q) then Err v else push_admitted q v.

Definition push_cpu_checkpoint q v : outcome T (PendingQueue T) :=
  if negb (cpu_access q) || negb (has_slot q) then Err v else push_admitted q v.

Definition start_next q : option (T * PendingQueue T) :=
  if running q then None else
  match queued q with
  | [] => None
  | v :: rest => Some (v, mk_queue rest (outstanding q) true (capacity q) (cpu_access q))
  end.

Definition finish q (retired : bool) : outcome T (PendingQueue T) :=
  if running q then
    let? n := if retired then match checked_sub (outstanding q) 1 with
                              | Some n => Ok n
                              | None => Panic
                              end
              else Ok (outstanding q) in
    Ok (mk_queue (queued q) n false (capacity q) (cpu_access q))
  else Ok q.
End Queue.

(** The proof that one submission's DMA has stopped. *)
Definition fence_retired (expected dma_fence scratch read_pointer target_pointer : Z)
    (idle : bool) : bool :=
  negb (expected =? 0) && (dma_fence =? expected) && (scratch =? expected) &&
  (read_pointer =? target_pointer) && idle.

(** ** Histories

    One critical section of some caller, and what it lets the caller see. *)
Inductive Op (T : Type) :=
| OPush (v : T)
| OCheckpoint (v : T)
| OStart
| OFinish (retired : bool)
| OBeginCpu
| OEndCpu.
Arguments OPush {T}.
Arguments OCheckpoint {T}.
Arguments OStart {T}.
Arguments OFinish {T}.
Arguments OBeginCpu {T}.
Arguments OEndCpu {T}.

Inductive Event (T : Type) :=
| Accepted (v : T)
| Refused (v : T)
| Started (v : T)
| NoWork
| Finished (retired : bool)
| Reserved (granted : bool)
| Unreserved.
Arguments Accepted {T}.
Arguments Refused {T}.
Arguments Started {T}.
Arguments NoWork {T}.
Arguments Finished {T}.
Arguments Reserved {T}.
Arguments Unreserved {T}.

Section History.
Context {T : Type}.
Implicit Types (q : PendingQueue T) (v : T) (evs : list (Event T)).

Definition admission q v (m : outcome T (PendingQueue T)) :
    outcome () (PendingQueue T * Event T) :=
  match m with
  | Ok q' => Ok (q', Accepted v)
  | Err v' => Ok (q, Refused v')
  | Panic => Panic
  end.

Definition apply_op q (op : Op T) : outcome () (PendingQueue T * Event T) :=
  match op with
  | OPush v => admission q v (push q v)
  | OCheckpoint v => admission q v (push_cpu_checkpoint q v)
  | OStart => match start_next q with
              | Some (v, q') => Ok (q', Started v)
              | None => Ok (q, NoWork)
              end
  | OFinish r => match finish q r with
                 | Ok q' => Ok (q', if running q then Finished r else NoWork)
                 | _ => Panic
                 end
  | OBeginCpu => let '(granted, q') := try_begin_cpu_access q in Ok (q', Reserved granted)
  | OEndCpu => Ok (end_cpu_access q, Unreserved)
  end.

Fixpoint run q (ops : list (Op T)) : outcome () (PendingQueue T * list (Event T)) :=
  match ops with
  | [] => Ok (q, [])
  | op :: ops =>
      let? (q1, e) := apply_op q op in
      let? (q2, es) := run q1 ops in
      Ok (q2, e :: es)
  end.

(** What a history says: the values admitted and started, in order, and the
    number of turns that ended with and without proof of retirement. *)
Definition admitted evs : list T := omap (λ e, match e with Accepted v => Some v | _ => None end) evs.
Definition started evs : list T := omap (λ e, match e with Started v => Some v | _ => None end) evs.
Definition finished (r : bool) evs : Z :=
  len (omap (λ e, match e with Finished r' => if eqb r' r then Some tt else None | _ => None end) evs).

(** The accounting invariant of a queue with [lost] slots lost for good. *)
Record accounted (lost : Z) q : Prop := {
  acc_lost : 0 ≤ lost;
  acc_sum : outstanding q = len (queued q) + (if running q then 1 else 0) + lost;
  acc_bound : outstanding q ≤ capacity q;
  acc_capacity : 0 < capacity q ≤ U64_MAX;
}.

(** ** Properties *)

(** What one operation does to the queue and to the history. *)
Definition op_ok lost q q' (e : Event T) : Prop :=
  capacity q' = capacity q ∧
  accounted (lost + finished false [e]) q' ∧
  queued q ++ admitted [e] = started [e] ++ queued q' ∧
  outstanding q' = outstanding q + len (admitted [e]) - finished true [e].

Ltac count :=
  unfold op_ok, finished, admitted, started, len in *; cbn in *;
  rewrite ?length_app, ?app_nil_r; cbn in *; try done; try lia.

Lemma admission_accounted lost q v b :
  accounted lost q → (b = true → outstanding q < capacity q) →
  ∃ q' e, admission q v (if negb b then Err v else push_admitted q v) = Ok (q', e) ∧ op_ok lost q q' e.
Proof.
  intros [Hl Hs Hb Hc] Hslot. destruct q as [vs n rn cap cpu]. destruct b; cbn in *.
  - specialize (Hslot eq_refl). unfold push_admitted, add_or_panic.
    rewrite (proj2 (Z.leb_le _ _)) by (cbn; lia). cbn. eexists _, _. split; [done|].
    split_and!; [done|constructor|..]; count.
  - eexists _, _. split; [done|]. split_and!; [done|constructor|..]; count.
Qed.

Lemma apply_op_accounted lost q op :
  accounted lost q → ∃ q' e, apply_op q op = Ok (q', e) ∧ op_ok lost q q' e.
Proof.
  intros Hacc. destruct op as [v|v| |r| |]; cbn [apply_op].
  1: { apply admission_accounted; [done|]. unfold has_capacity, has_slot. intros ?. by bool_to_prop. }
  1: { unfold push_cpu_checkpoint. rewrite <- negb_andb.
       apply admission_accounted; [done|]. unfold has_slot. intros ?. by bool_to_prop. }
  all: destruct Hacc as [Hl Hs Hb Hc], q as [vs n rn cap cpu]; cbn in *.
  - unfold start_next. destruct vs as [|v vs], rn; cbn in *;
      (eexists _, _; split; [done|]); (split_and!; [done|constructor|..]); count.
  - unfold finish, checked_sub. pose proof (len_nonneg vs). destruct rn, r; cbn in *;
      rewrite ?(proj2 (Z.leb_le _ _)) by lia;
      (eexists _, _; split; [done|]); (split_and!; [done|constructor|..]); count.
  - unfold try_begin_cpu_access. destruct cpu; cbn;
      (eexists _, _; split; [done|]); (split_and!; [done|constructor|..]); count.
  - eexists _, _. split; [done|]. split_and!; [done|constructor|..]; count.
Qed.

Lemma finished_cons r e evs : finished r (e :: evs) = finished r [e] + finished r evs.
Proof. destruct e as [| | | |r'| |]; unfold finished, len; cbn; try lia. destruct (eqb r' r); cbn; lia. Qed.

Lemma admitted_cons e evs : admitted (e :: evs) = admitted [e] ++ admitted evs.
Proof. by destruct e. Qed.

Lemma started_cons e evs : started (e :: evs) = started [e] ++ started evs.
Proof. by destruct e. Qed.

(** Every history from an accounted queue runs, keeps the queue accounted, and
    relates the queue to the history. *)
Lemma run_accounted ops lost q :
  accounted lost q →
  ∃ q' evs, run q ops = Ok (q', evs) ∧ capacity q' = capacity q ∧
    accounted (lost + finished false evs) q' ∧
    queued q ++ admitted evs = started evs ++ queued q' ∧
    outstanding q' = outstanding q + len (admitted evs) - finished true evs.
Proof.
  revert lost q. induction ops as [|op ops IH]; intros lost q Hacc; cbn [run].
  - exists q, []. split_and!; [done|done|by change (finished false []) with 0; rewrite Z.add_0_r|by rewrite app_nil_r|count].
  - destruct (apply_op_accounted lost q op Hacc) as (q1 & e & -> & Hc1 & Hacc1 & Hq1 & Ho1). cbn [bind].
    destruct (IH _ _ Hacc1) as (q2 & evs & -> & Hc2 & Hacc2 & Hq2 & Ho2). cbn [bind].
    exists q2, (e :: evs).
    rewrite (finished_cons true e evs), (finished_cons false e evs), (admitted_cons e evs), (started_cons e evs), len_app, Z.add_assoc.
    split_and!; [done|congruence|done| |lia].
    by rewrite app_assoc, Hq1, <- !app_assoc, Hq2.
Qed.

Lemma accounted_new cap q : u64 cap → try_new cap = Ok q → accounted 0 q ∧ q = mk_queue [] 0 false cap false.
Proof.
  unfold try_new, u64, U64_MAX. case_match; [done|]. intros ? [= <-]. bool_to_prop.
  split; [|done]. constructor; cbn; unfold len, U64_MAX; cbn; lia.
Qed.

(** The admission queue is a bounded FIFO that never loses track of a slot.
    After any interleaving of operations on a new queue, none of which panics:
    work has been started exactly in the order it was admitted, and what is
    left is queued; the slots in use are the queued values, the running one and
    those whose turn ended without proof of retirement, which are never given
    back; they are the admissions less the proven retirements, and never exceed
    the capacity (so an insertion never outgrows the storage reserved). *)
Theorem pending_history cap q0 ops :
  u64 cap → try_new cap = Ok q0 →
  ∃ q evs, run q0 ops = Ok (q, evs) ∧
    admitted evs = started evs ++ queued q ∧
    len (started evs) = finished true evs + finished false evs + (if running q then 1 else 0) ∧
    outstanding q = len (queued q) + (if running q then 1 else 0) + finished false evs ∧
    outstanding q = len (admitted evs) - finished true evs ∧
    outstanding q ≤ cap ∧ len (queued q) ≤ cap.
Proof.
  intros Hcap Hnew. destruct (accounted_new _ _ Hcap Hnew) as [Hacc Hq0].
  destruct (run_accounted ops 0 q0 Hacc) as (q & evs & Hrun & Hc & [Hl Hs Hb _] & Hq & Ho).
  exists q, evs. rewrite Hq0 in *. cbn in *. pose proof (f_equal len Hq) as Hlen.
  rewrite len_app in Hlen. destruct (running q); split_and!; try done; lia.
Qed.
End History.

Lemma pending_history_witness :
  ∃ q evs, run (mk_queue [] 0 false 2 false)
             [OPush 10; OPush 20; OPush 30; OStart; OFinish false; OBeginCpu; OPush 40; OStart;
              OFinish true; OCheckpoint 50; OStart; OFinish true; OEndCpu; OPush 60] = Ok (q, evs) ∧
    admitted evs = started evs ++ queued q ∧ outstanding q ≤ 2 ∧
    admitted evs = [10; 20; 50; 60] ∧ finished false evs = 1.
Proof.
  destruct (pending_history 2 (mk_queue [] 0 false 2 false)
    [OPush 10; OPush 20; OPush 30; OStart; OFinish false; OBeginCpu; OPush 40; OStart;
     OFinish true; OCheckpoint 50; OStart; OFinish true; OEndCpu; OPush 60])
    as (q & evs & Hrun & Ha & _ & _ & _ & Ho & _); [unfold u64; lia|reflexivity|].
  exists q, evs. split_and!; [exact Hrun|exact Ha|exact Ho|..];
    vm_compute in Hrun; injection Hrun as <- <-; reflexivity.
Defined.
End Pending.
