(* ===== verification/Registers.v ===== *)
(** * Registers of the GPU

    The dword offsets and interrupt bits of [registers.rs] that the ring and
    the boot sequence use, and after them those of the power controller.  Register writes are kept as a log of offset and
    value pairs, oldest first; reads are inputs of the functions that poll. *)
From S2P Require Import Prelude.

Module Reg.
Definition RBBM_INT_0_STATUS : Z := 0x0201.
Definition RBBM_INT_CLEAR_CMD : Z := 0x0037.
Definition RBBM_INT_0_MASK : Z := 0x0038.
Definition RBBM_INT_CP_AHB_ERROR : Z := 1 << 1.
Definition RBBM_INT_CP_HW_ERROR : Z := 1 << 9.
Definition RBBM_INT_CP_CCU_FLUSH_DEPTH_TS : Z := 1 << 10.
Definition RBBM_INT_CP_CCU_FLUSH_COLOR_TS : Z := 1 << 11.
Definition RBBM_INT_CP_CCU_RESOLVE_TS : Z := 1 << 12.
Definition RBBM_INT_CP_RB_DONE_TS : Z := 1 << 17.
Definition RBBM_INT_CP_WT_DONE_TS : Z := 1 << 18.
Definition RBBM_INT_CP_CACHE_FLUSH_TS : Z := 1 << 20.
Definition RBBM_INT_RBBM_HANG_DETECT : Z := 1 << 23.
Definition RBBM_INT_UCHE_OOB_ACCESS : Z := 1 << 24.
Definition RBBM_INT_UCHE_TRAP_INTR : Z := 1 << 25.
Definition RBBM_INT_COMPLETION_MASK : Z := 
  RBBM_INT_CP_CCU_FLUSH_DEPTH_TS .| RBBM_INT_CP_CCU_FLUSH_COLOR_TS .| RBBM_INT_CP_CCU_RESOLVE_TS
  .| RBBM_INT_CP_RB_DONE_TS .| RBBM_INT_CP_WT_DONE_TS .| RBBM_INT_CP_CACHE_FLUSH_TS.
Definition RBBM_INT_FATAL_MASK : Z := 
  RBBM_INT_CP_AHB_ERROR .| RBBM_INT_CP_HW_ERROR .| RBBM_INT_RBBM_HANG_DETECT
  .| RBBM_INT_UCHE_OOB_ACCESS .| RBBM_INT_UCHE_TRAP_INTR.
Definition RBBM_STATUS : Z := 0x0210.
Definition RBBM_STATUS1 : Z := 0x0211.
Definition RBBM_STATUS2 : Z := 0x0212.
Definition RBBM_STATUS3 : Z := 0x0213.
Definition RBBM_STATUS3_SMMU_STALLED_ON_FAULT : Z := 1 << 24.
Definition RBBM_STATUS_CP_AHB_BUSY_CX_MASTER : Z := 0x00000001.
Definition RBBM_SW_RESET_CMD : Z := 0x0043.
Definition RBBM_GBIF_HALT : Z := 0x0016.
Definition RBBM_GBIF_HALT_ACK : Z := 0x0017.
Definition GBIF_HALT : Z := 0x3c45.
Definition GBIF_HALT_ACK : Z := 0x3c46.
Definition RBBM_PERFCTR_CNTL : Z := 0x0500.
Definition RBBM_PERFCTR_GPU_BUSY_MASKED : Z := 0x050b.
Definition RBBM_VBIF_CLIENT_QOS_CNTL : Z := 0x0010.
Definition RBBM_INTERFACE_HANG_INT_CNTL : Z := 0x001f.
Definition CP_RB_BASE : Z := 0x0800.
Definition CP_RB_CNTL : Z := 0x0802.
Definition CP_RB_RPTR : Z := 0x0806.
Definition CP_RB_WPTR : Z := 0x0807.
Definition CP_SQE_CNTL : Z := 0x0808.
Definition CP_HW_FAULT : Z := 0x0821.
Definition CP_INTERRUPT_STATUS : Z := 0x0823.
Definition CP_INT_OPCODE_ERROR : Z := 1 << 0.
Definition CP_INT_UCODE_ERROR : Z := 1 << 1.
Definition CP_INT_HW_FAULT_ERROR : Z := 1 << 2.
Definition CP_INT_REGISTER_PROTECTION_ERROR : Z := 1 << 4.
Definition CP_INT_AHB_ERROR : Z := 1 << 5.
Definition CP_INT_VSD_PARITY_ERROR : Z := 1 << 6.
Definition CP_INT_ILLEGAL_INSTR_ERROR : Z := 1 << 7.
Definition CP_INT_FATAL_MASK : Z := 
  CP_INT_OPCODE_ERROR .| CP_INT_UCODE_ERROR .| CP_INT_HW_FAULT_ERROR
  .| CP_INT_REGISTER_PROTECTION_ERROR .| CP_INT_AHB_ERROR .| CP_INT_VSD_PARITY_ERROR
  .| CP_INT_ILLEGAL_INSTR_ERROR.
Definition CP_PROTECT_STATUS : Z := 0x0824.
Definition CP_SQE_INSTR_BASE : Z := 0x0830.
Definition CP_SQE_STAT_ADDR : Z := 0x0908.
Definition CP_SQE_STAT_DATA : Z := 0x0909.
Definition CP_ADDR_MODE_CNTL : Z := 0x0842.
Definition CP_SCRATCH_2 : Z := 0x0885.
Definition CP_ROQ_THRESHOLDS_1 : Z := 0x08c1.
Definition CP_ROQ_THRESHOLDS_2 : Z := 0x08c2.
Definition CP_MEM_POOL_SIZE : Z := 0x08c3.
Definition CP_PERFCTR_CP_SEL_0 : Z := 0x08d0.
Definition CP_AHB_CNTL : Z := 0x098d.
Definition CP_PROTECT_CNTL : Z := 0x084f.
Definition CP_PROTECT_BASE : Z := 0x0850.
Definition CP_IB1_BASE : Z := 0x0928.
Definition CP_IB1_REM_SIZE : Z := 0x092a.
Definition CP_IB2_BASE : Z := 0x092b.
Definition CP_IB2_REM_SIZE : Z := 0x092d.
Definition CP_ROQ_RB_STATUS : Z := 0x0939.
Definition CP_ROQ_IB1_STATUS : Z := 0x093a.
Definition CP_ROQ_IB2_STATUS : Z := 0x093b.
Definition CP_ROQ_SDS_STATUS : Z := 0x093c.
Definition CP_ROQ_MRB_STATUS : Z := 0x093d.
Definition CP_ROQ_VSD_STATUS : Z := 0x093e.
Definition UCHE_ADDR_MODE_CNTL : Z := 0x0e00.
Definition UCHE_WRITE_RANGE_MAX : Z := 0x0e05.
Definition UCHE_WRITE_THRU_BASE : Z := 0x0e07.
Definition UCHE_TRAP_BASE : Z := 0x0e09.
Definition UCHE_GMEM_RANGE_MIN : Z := 0x0e0b.
Definition UCHE_GMEM_RANGE_MAX : Z := 0x0e0d.
Definition UCHE_CACHE_WAYS : Z := 0x0e17.
Definition UCHE_FILTER_CNTL : Z := 0x0e18.
Definition UCHE_CLIENT_PF : Z := 0x0e19.
Definition UCHE_UNKNOWN_0E12 : Z := 0x0e12.
Definition RBBM_SECVID_TRUST_CNTL : Z := 0xf400.
Definition RBBM_SECVID_TSB_TRUSTED_BASE : Z := 0xf800.
Definition RBBM_SECVID_TSB_TRUSTED_SIZE : Z := 0xf802.
Definition RBBM_SECVID_TSB_CNTL : Z := 0xf803.
Definition RBBM_SECVID_TSB_ADDR_MODE_CNTL : Z := 0xf810.
Definition VSC_ADDR_MODE_CNTL : Z := 0x0c01.
Definition GRAS_ADDR_MODE_CNTL : Z := 0x8601.
Definition GRAS_SC_CNTL : Z := 0x80a0.
Definition GRAS_DBG_ECO_CNTL : Z := 0x8600.
Definition PC_ADDR_MODE_CNTL : Z := 0x9e01.
Definition PC_MODE_CNTL : Z := 0x9804.
Definition PC_POWER_CNTL : Z := 0x9805.
Definition VFD_ADDR_MODE_CNTL : Z := 0xa601.
Definition VFD_MODE_CNTL : Z := 0xa009.
Definition VFD_POWER_CNTL : Z := 0xa0f8.
Definition VPC_ADDR_MODE_CNTL : Z := 0x9601.
Definition VPC_DBG_ECO_CNTL : Z := 0x9600.
Definition HLSQ_ADDR_MODE_CNTL : Z := 0xbe05.
Definition HLSQ_SHARED_CONSTS : Z := 0xbb11.
Definition HLSQ_UNKNOWN_BE00 : Z := 0xbe00.
Definition HLSQ_UNKNOWN_BE01 : Z := 0xbe01.
Definition HLSQ_DBG_ECO_CNTL : Z := 0xbe04.
Definition SP_ADDR_MODE_CNTL : Z := 0xae01.
Definition SP_DBG_ECO_CNTL : Z := 0xae00.
Definition SP_CHICKEN_BITS : Z := 0xae03.
Definition SP_GFX_USIZE : Z := 0xab20.
Definition SP_PERFCTR_SHADER_MASK : Z := 0xae0f.
Definition TPL1_ADDR_MODE_CNTL : Z := 0xb601.
Definition TPL1_DBG_ECO_CNTL : Z := 0xb600.
Definition TPL1_UNKNOWN_B605 : Z := 0xb605.
Definition RB_ADDR_MODE_CNTL : Z := 0x8e05.
Definition RB_MODE_CNTL : Z := 0x8811.
Definition RB_RBP_CNTL : Z := 0x8e01.
Definition PC_DBG_ECO_CNTL : Z := 0x9e00.
Definition RB_DBG_ECO_CNTL : Z := 0x8e04.

(** [DwordRegisters::write] and [DwordRegisters::write64], as log entries. *)
Definition write (register value : Z) : list (Z * Z) := [(register, value)].
Definition write64 (register value : Z) : list (Z * Z) :=
  write register (as_u32 value) ++ write (register + 1) (as_u32 (value >> 32)).
End Reg.

(** * Registers of the GMU

    The constants of [registers.rs] for the GMU, the RSC and the PDC, and the
    translation of an absolute GMU register to its place in the mapped resource,
    which panics outside it.  A write is logged with the window it goes to. *)

Module GmuReg.
Definition GMU_RESOURCE_SIZE : Z := 0x31000.
Definition PDC_RESOURCE_SIZE : Z := 0x10000.
Definition PDC_SEQ_RESOURCE_SIZE : Z := 0x10000.
Definition GMU_GPU_DWORD_BASE : Z := 0x1a800.
Definition RSCC_BYTE_OFFSET : Z := 0x23000.
Definition GMU_GX_SPTPRAC_CLOCK_CONTROL : Z := 0x1a880.
Definition GMU_GX_SPTPRAC_POWER_CONTROL : Z := 0x1a881.
Definition GMU_CM3_ITCM_START : Z := 0x1b400.
Definition GMU_CM3_DTCM_START : Z := 0x1c400.
Definition GMU_BOOT_SLUMBER_OPTION : Z := 0x1cbf8.
Definition GMU_GX_VOTE_IDX : Z := 0x1cbf9.
Definition GMU_MX_VOTE_IDX : Z := 0x1cbfa.
Definition GMU_DCVS_ACK_OPTION : Z := 0x1cbfc.
Definition GMU_DCVS_PERF_SETTING : Z := 0x1cbfd.
Definition GMU_DCVS_BW_SETTING : Z := 0x1cbfe.
Definition GMU_DCVS_RETURN : Z := 0x1cbff.
Definition GMU_ICACHE_CONFIG : Z := 0x1f400.
Definition GMU_DCACHE_CONFIG : Z := 0x1f401.
Definition GMU_SYS_BUS_CONFIG : Z := 0x1f40f.
Definition GMU_CM3_SYSRESET : Z := 0x1f800.
Definition GMU_CM3_BOOT_CONFIG : Z := 0x1f801.
Definition GMU_CM3_FW_INIT_RESULT : Z := 0x1f81c.
Definition GMU_CM3_CFG : Z := 0x1f82d.
Definition GMU_POWER_COUNTER_SELECT_0 : Z := 0x1f840.
Definition GMU_POWER_COUNTER_ENABLE : Z := 0x1f841.
Definition GMU_PWR_COL_INTER_FRAME_CTRL : Z := 0x1f8c0.
Definition GMU_SPTPRAC_PWR_CLK_STATUS : Z := 0x1f8d0.
Definition GMU_RPMH_CTRL : Z := 0x1f8e8.
Definition GMU_PWR_COL_CP_MSG : Z := 0x1f900.
Definition GMU_PWR_COL_CP_RESP : Z := 0x1f901.
Definition GMU_PWR_COL_KEEPALIVE : Z := 0x1f8c3.
Definition GMU_HFI_CTRL_STATUS : Z := 0x1f980.
Definition GMU_HFI_SFR_ADDR : Z := 0x1f982.
Definition GMU_HFI_QTBL_INFO : Z := 0x1f984.
Definition GMU_HFI_QTBL_ADDR : Z := 0x1f985.
Definition GMU_HFI_CTRL_INIT : Z := 0x1f986.
Definition GMU_GMU2HOST_INTR_CLR : Z := 0x1f991.
Definition GMU_GMU2HOST_INTR_INFO : Z := 0x1f992.
Definition GMU_GMU2HOST_INTR_MASK : Z := 0x1f993.
Definition GMU_HOST2GMU_INTR_SET : Z := 0x1f994.
Definition GMU_GENERAL_7 : Z := 0x1f9cc.
Definition GMU_AO_HOST_INTERRUPT_CLR : Z := 0x23b04.
Definition GMU_AO_HOST_INTERRUPT_MASK : Z := 0x23b06.
Definition GMU_RSCC_CONTROL_REQ : Z := 0x23b07.
Definition GMU_RSCC_CONTROL_ACK : Z := 0x23b08.
Definition GMU_AO_GPU_CX_BUSY_MASK : Z := 0x23b0e.
Definition GMU_AHB_FENCE_RANGE_0 : Z := 0x23b11.
Definition GMU_AO_AHB_FENCE_CTRL : Z := 0x23b10.
Definition GMU_AHB_FENCE_STATUS_CLR : Z := 0x23b14.
Definition GPU_CC_GX_GDSCR : Z := 0x24403.
Definition RSCC_RSC_STATUS0_DRV0 : Z := 0x004.
Definition RSCC_PDC_SEQ_START_ADDR : Z := 0x008.
Definition RSCC_PDC_MATCH_VALUE_LO : Z := 0x009.
Definition RSCC_PDC_MATCH_VALUE_HI : Z := 0x00a.
Definition RSCC_PDC_SLAVE_ID_DRV0 : Z := 0x00b.
Definition RSCC_HIDDEN_TCS_CMD0_ADDR : Z := 0x00d.
Definition RSCC_HIDDEN_TCS_CMD0_DATA : Z := 0x00e.
Definition RSCC_OVERRIDE_START_ADDR : Z := 0x100.
Definition RSCC_SEQ_BUSY_DRV0 : Z := 0x101.
Definition RSCC_TCS0_DRV0_STATUS : Z := 0x346.
Definition RSCC_TCS1_DRV0_STATUS : Z := 0x3ee.
Definition RSCC_TCS2_DRV0_STATUS : Z := 0x496.
Definition RSCC_TCS3_DRV0_STATUS : Z := 0x53e.
Definition RSCC_SEQ_MEM_0_DRV0 : Z := 0x180.
Definition PDC_GPU_SEQ_MEM_0 : Z := 0x0000.
Definition PDC_GPU_ENABLE_PDC : Z := 0x1140.
Definition PDC_GPU_SEQ_START_ADDR : Z := 0x1148.
Definition PDC_GPU_TCS1_CONTROL : Z := 0x1572.
Definition PDC_GPU_TCS1_CMD_ENABLE_BANK : Z := 0x1573.
Definition PDC_GPU_TCS1_CMD_WAIT_FOR_CMPL_BANK : Z := 0x1574.
Definition PDC_GPU_TCS1_CMD0_MSGID : Z := 0x1575.
Definition PDC_GPU_TCS1_CMD0_ADDR : Z := 0x1576.
Definition PDC_GPU_TCS1_CMD0_DATA : Z := 0x1577.
Definition PDC_GPU_TCS3_CONTROL : Z := 0x15d6.
Definition PDC_GPU_TCS3_CMD_ENABLE_BANK : Z := 0x15d7.
Definition PDC_GPU_TCS3_CMD_WAIT_FOR_CMPL_BANK : Z := 0x15d8.
Definition PDC_GPU_TCS3_CMD0_MSGID : Z := 0x15d9.
Definition PDC_GPU_TCS3_CMD0_ADDR : Z := 0x15da.
Definition PDC_GPU_TCS3_CMD0_DATA : Z := 0x15db.

(** The four mapped windows. *)
Inductive Window := Gmu | Rscc | Pdc | PdcSequence.

#[export] Instance Window_eq_dec : EqDecision Window.
Proof. solve_decision. Defined.

Definition gmu_resource_register {E} (absolute_register : Z) : outcome E Z :=
  match checked_sub absolute_register GMU_GPU_DWORD_BASE with
  | None => Panic
  | Some register => if register <? GMU_RESOURCE_SIZE / 4 then Ok register else Panic
  end.

(** The words of [write_bulk]: chunks of four bytes, the last one padded. *)
Fixpoint bulk_words (fuel : nat) (bytes : list Z) : list Z :=
  match fuel, bytes with
  | S fuel, _ :: _ =>
    let chunk := take 4 bytes in
    (chunk.[0] + 0x100 * chunk.[1] + 0x10000 * chunk.[2] + 0x1000000 * chunk.[3]) :: bulk_words fuel (drop 4 bytes)
  | _, _ => []
  end.
End GmuReg.
