(* ===== verification/Hardware.v ===== *)
(** * Ring, fence and boot of the A618

    The part of [backend.rs] that runs with the hardware lock held: the boot of
    the command processor, the kernel ring, the wait for a fence and the
    shutdown of a lost GPU.  [HardwareState] is the record of the same name; it
    also holds the addresses of its DMA allocations, the [quarantine] flag of
    [MappingGate] (stored only under this lock) and a log of register writes.

    What the hardware, the clock, the GMU and the firmware file answer is an
    argument: a polled register is a function from the number of the poll to
    the value read and the time of the read.  Cache maintenance and delays do
    not change the state.  The loops end when the clock passes their timeout,
    so they have fuel, and running out of it is a [Panic]. *)
From stdpp Require Import list.
From S2P Require Import Prelude Pm4 PendingQueue Registers.

Module Hw.
Import Pending.

(** ** State *)
Inductive BootState := Cold | Ready | Lost.

#[export] Instance BootState_eq_dec : EqDecision BootState.
Proof. solve_decision. Defined.

Record RingInterruptSnapshot := mk_snapshot {
  rbbm : Z; cp : Z; cp_hw_fault : Z; cp_protect_status : Z; cp_opcode : Z;
}.

(** [RingInterruptSnapshot::default] *)
Definition no_interrupts : RingInterruptSnapshot := mk_snapshot 0 0 0 0 0.

(** [RingFailureSnapshot], without the dump of diagnostic registers. *)
Record RingFailure := mk_failure {
  reason : string; sequence : Z; command_words : Z; target_wptr : Z;
  interrupts : RingInterruptSnapshot; fence_pair : option (Z * Z);
}.

Record HardwareState := mk_hw {
  boot : BootState;
  ring : list Z;
  ring_addr : Z;
  command : list Z;
  command_addr : Z;
  command_size : Z;
  sqe : option (Z * list Z);
  fence : Z;
  fence_addr : Z;
  wptr : Z;
  fence_sequence : Z;
  gpu_oob_held : bool;
  quiesce_failed : bool;
  lost_reason : option string;
  last_ring_failure : option RingFailure;
  quarantine : bool;
  mmio : list (Z * Z);
}.

Definition set_boot (v : BootState) (h : HardwareState) : HardwareState :=
  mk_hw v h.(ring) h.(ring_addr) h.(command) h.(command_addr) h.(command_size) h.(sqe) h.(fence)
    h.(fence_addr) h.(wptr) h.(fence_sequence) h.(gpu_oob_held) h.(quiesce_failed)
    h.(lost_reason) h.(last_ring_failure) h.(quarantine) h.(mmio).
Definition set_ring (v : list Z) (h : HardwareState) : HardwareState :=
  mk_hw h.(boot) v h.(ring_addr) h.(command) h.(command_addr) h.(command_size) h.(sqe) h.(fence)
    h.(fence_addr) h.(wptr) h.(fence_sequence) h.(gpu_oob_held) h.(quiesce_failed)
    h.(lost_reason) h.(last_ring_failure) h.(quarantine) h.(mmio).
Definition set_command (v : list Z) (h : HardwareState) : HardwareState :=
  mk_hw h.(boot) h.(ring) h.(ring_addr) v h.(command_addr) h.(command_size) h.(sqe) h.(fence)
    h.(fence_addr) h.(wptr) h.(fence_sequence) h.(gpu_oob_held) h.(quiesce_failed)
    h.(lost_reason) h.(last_ring_failure) h.(quarantine) h.(mmio).
Definition set_sqe (v : option (Z * list Z)) (h : HardwareState) : HardwareState :=
  mk_hw h.(boot) h.(ring) h.(ring_addr) h.(command) h.(command_addr) h.(command_size) v
    h.(fence) h.(fence_addr) h.(wptr) h.(fence_sequence) h.(gpu_oob_held) h.(quiesce_failed)
    h.(lost_reason) h.(last_ring_failure) h.(quarantine) h.(mmio).
Definition set_fence (v : Z) (h : HardwareState) : HardwareState :=
  mk_hw h.(boot) h.(ring) h.(ring_addr) h.(command) h.(command_addr) h.(command_size) h.(sqe) v
    h.(fence_addr) h.(wptr) h.(fence_sequence) h.(gpu_oob_held) h.(quiesce_failed)
    h.(lost_reason) h.(last_ring_failure) h.(quarantine) h.(mmio).
Definition set_wptr (v : Z) (h : HardwareState) : HardwareState :=
  mk_hw h.(boot) h.(ring) h.(ring_addr) h.(command) h.(command_addr) h.(command_size) h.(sqe)
    h.(fence) h.(fence_addr) v h.(fence_sequence) h.(gpu_oob_held) h.(quiesce_failed)
    h.(lost_reason) h.(last_ring_failure) h.(quarantine) h.(mmio).
Definition set_fence_sequence (v : Z) (h : HardwareState) : HardwareState :=
  mk_hw h.(boot) h.(ring) h.(ring_addr) h.(command) h.(command_addr) h.(command_size) h.(sqe)
    h.(fence) h.(fence_addr) h.(wptr) v h.(gpu_oob_held) h.(quiesce_failed) h.(lost_reason)
    h.(last_ring_failure) h.(quarantine) h.(mmio).
Definition set_gpu_oob_held (v : bool) (h : HardwareState) : HardwareState :=
  mk_hw h.(boot) h.(ring) h.(ring_addr) h.(command) h.(command_addr) h.(command_size) h.(sqe)
    h.(fence) h.(fence_addr) h.(wptr) h.(fence_sequence) v h.(quiesce_failed) h.(lost_reason)
    h.(last_ring_failure) h.(quarantine) h.(mmio).
Definition set_quiesce_failed (v : bool) (h : HardwareState) : HardwareState :=
  mk_hw h.(boot) h.(ring) h.(ring_addr) h.(command) h.(command_addr) h.(command_size) h.(sqe)
    h.(fence) h.(fence_addr) h.(wptr) h.(fence_sequence) h.(gpu_oob_held) v h.(lost_reason)
    h.(last_ring_failure) h.(quarantine) h.(mmio).
Definition set_lost_reason (v : option string) (h : HardwareState) : HardwareState :=
  mk_hw h.(boot) h.(ring) h.(ring_addr) h.(command) h.(command_addr) h.(command_size) h.(sqe)
    h.(fence) h.(fence_addr) h.(wptr) h.(fence_sequence) h.(gpu_oob_held) h.(quiesce_failed) v
    h.(last_ring_failure) h.(quarantine) h.(mmio).
Definition set_last_ring_failure (v : option RingFailure) (h : HardwareState) : HardwareState :=
  mk_hw h.(boot) h.(ring) h.(ring_addr) h.(command) h.(command_addr) h.(command_size) h.(sqe)
    h.(fence) h.(fence_addr) h.(wptr) h.(fence_sequence) h.(gpu_oob_held) h.(quiesce_failed)
    h.(lost_reason) v h.(quarantine) h.(mmio).
Definition set_quarantine (v : bool) (h : HardwareState) : HardwareState :=
  mk_hw h.(boot) h.(ring) h.(ring_addr) h.(command) h.(command_addr) h.(command_size) h.(sqe)
    h.(fence) h.(fence_addr) h.(wptr) h.(fence_sequence) h.(gpu_oob_held) h.(quiesce_failed)
    h.(lost_reason) h.(last_ring_failure) v h.(mmio).
Definition set_mmio (v : list (Z * Z)) (h : HardwareState) : HardwareState :=
  mk_hw h.(boot) h.(ring) h.(ring_addr) h.(command) h.(command_addr) h.(command_size) h.(sqe)
    h.(fence) h.(fence_addr) h.(wptr) h.(fence_sequence) h.(gpu_oob_held) h.(quiesce_failed)
    h.(lost_reason) h.(last_ring_failure) h.(quarantine) v.

Inductive GpuBackendSubmitError :=
| Rejected (reason : string)
| Unavailable (reason : string)
| DeviceLost (reason : string).

(** Functions that take [&mut HardwareState] and return a [Result]. *)
Definition hw (E A : Type) : Type := HardwareState → outcome E A * HardwareState.

Definition ret {E A} (a : A) : hw E A := λ h, (Ok a, h).
Definition fail {E A} (e : E) : hw E A := λ h, (Err e, h).
Definition lift {E A} (m : outcome E A) : hw E A := λ h, (m, h).
Definition modify {E} (f : HardwareState → HardwareState) : hw E () := λ h, (Ok tt, f h).
Definition andThen {E A B} (m : hw E A) (f : A → hw E B) : hw E B := λ h,
  match m h with
  | (Ok a, h') => f a h'
  | (Err e, h') => (Err e, h')
  | (Panic, h') => (Panic, h')
  end.
Notation "'do!' x ':=' m 'in' k" := (andThen m (λ x, k))
  (at level 10, x pattern, m at level 200, k at level 200,
   format "'[v' 'do!'  x  ':='  m  'in' '/' k ']'") : rust_scope.

Definition log {E} (writes : list (Z * Z)) : hw E () := modify (λ h, set_mmio (h.(mmio) ++ writes) h).

(** ** Interrupt status *)
Definition merge (self newer : RingInterruptSnapshot) : RingInterruptSnapshot :=
  mk_snapshot (self.(rbbm) .| newer.(rbbm)) (self.(cp) .| newer.(cp))
    (if newer.(cp_hw_fault) =? 0 then self.(cp_hw_fault) else newer.(cp_hw_fault))
    (if newer.(cp_protect_status) =? 0 then self.(cp_protect_status) else newer.(cp_protect_status))
    (if newer.(cp_opcode) =? 0 then self.(cp_opcode) else newer.(cp_opcode)).

Definition is_fatal (self : RingInterruptSnapshot) : bool :=
  let completion := self.(rbbm) .& Reg.RBBM_INT_COMPLETION_MASK in
  negb ((self.(rbbm) .&~ completion) .& Reg.RBBM_INT_FATAL_MASK =? 0)
  || negb (self.(cp) .& Reg.CP_INT_FATAL_MASK =? 0).

Definition is_empty (self : RingInterruptSnapshot) : bool :=
  (self.(rbbm) =? 0) && (self.(cp) =? 0).

(** The registers that [consume_ring_interrupts] may read. *)
Record InterruptRegisters := mk_int_regs {
  r_status : Z; r_cp_status : Z; r_hw_fault : Z; r_protect : Z; r_sqe_stat : Z;
}.

(** [Ok] and [Err] both carry the snapshot; [is_fatal] tells them apart. *)
Definition consume_ring_interrupts (r : InterruptRegisters) :
    RingInterruptSnapshot * list (Z * Z) :=
  let cp := r.(r_cp_status) in
  let opcode_error := negb (cp .& Reg.CP_INT_OPCODE_ERROR =? 0) in
  (mk_snapshot r.(r_status) cp
     (if cp .& Reg.CP_INT_HW_FAULT_ERROR =? 0 then 0 else r.(r_hw_fault))
     (if cp .& Reg.CP_INT_REGISTER_PROTECTION_ERROR =? 0 then 0 else r.(r_protect))
     (if opcode_error then r.(r_sqe_stat) else 0),
   (if opcode_error then Reg.write Reg.CP_SQE_STAT_ADDR 1 else [])
   ++ (if r.(r_status) =? 0 then [] else Reg.write Reg.RBBM_INT_CLEAR_CMD r.(r_status))).

(** [taken] is what [take_interrupt_snapshot] finds. *)
Definition collect_polled_interrupts (taken : RingInterruptSnapshot) (r : InterruptRegisters) :
    RingInterruptSnapshot * list (Z * Z) :=
  let '(snapshot, writes) := consume_ring_interrupts r in
  (merge taken snapshot, writes).

(** ** Polling *)
Definition GPU_TIMEOUT_US : Z := 1000000.
Definition GPU_QUIESCE_TIMEOUT_US : Z := 10000.
Definition GPU_INTERRUPT_CLEAR_TIMEOUT_US : Z := 1000.

Record Poll := mk_poll { poll_start : Z; poll_read : nat → Z * Z }.

Fixpoint poll_loop (fuel i : nat) (p : Poll) (predicate : Z → bool) : outcome string bool :=
  match fuel with
  | O => Panic
  | S fuel =>
      let '(value, now) := p.(poll_read) i in
      if predicate value then Ok true
      else if GPU_QUIESCE_TIMEOUT_US <=? saturating_sub now p.(poll_start) then Ok false
      else poll_loop fuel (S i) p predicate
  end.

Definition poll_gpu (fuel : nat) (p : Poll) (predicate : Z → bool) : hw string bool :=
  lift (poll_loop fuel 0 p predicate).

Fixpoint clear_loop (fuel i : nat) (p : Poll) : hw string () :=
  match fuel with
  | O => lift Panic
  | S fuel =>
      let '(pending, now) := p.(poll_read) i in
      if pending =? 0 then ret tt
      else if negb (pending .& Reg.RBBM_INT_FATAL_MASK =? 0)
      then fail "qcom-adreno-a618: GPU fault pending before ring submit"%string
      else
        do! _ := log (Reg.write Reg.RBBM_INT_CLEAR_CMD pending) in
        if GPU_INTERRUPT_CLEAR_TIMEOUT_US <=? saturating_sub now p.(poll_start)
        then fail "qcom-adreno-a618: stale GPU interrupt did not clear"%string
        else clear_loop fuel (S i) p
  end.

Definition clear_ring_interrupts (fuel : nat) (p : Poll) : hw string () := clear_loop fuel 0 p.

(** What the four polls of [force_stop_gpu] read. *)
Record StopEnv := mk_stop { p_drain : Poll; p_gx : Poll; p_clients : Poll; p_axi : Poll }.

Definition force_stop_gpu (fuel : nat) (env : StopEnv) : hw string () := λ h,
  (do! _ := log (Reg.write Reg.CP_SQE_CNTL 3 ++ Reg.write Reg.RBBM_INT_0_MASK 0
                 ++ Reg.write Reg.RBBM_INT_CLEAR_CMD U32_MAX) in
   do! _ := poll_gpu fuel env.(p_drain) (λ rptr, rptr =? h.(wptr)) in
   do! _ := log (Reg.write Reg.RBBM_GBIF_HALT 1) in
   do! gx_halted := poll_gpu fuel env.(p_gx) (λ v, negb (v .& 1 =? 0)) in
   do! _ := log (Reg.write Reg.GBIF_HALT 1) in
   do! clients_halted := poll_gpu fuel env.(p_clients) (λ v, negb (v .& 1 =? 0)) in
   do! _ := log (Reg.write Reg.GBIF_HALT 2) in
   do! axi_halted := poll_gpu fuel env.(p_axi) (λ v, negb (v .& 2 =? 0)) in
   do! _ := log (Reg.write Reg.GBIF_HALT 0 ++ Reg.write Reg.RBBM_SW_RESET_CMD 1) in
   if gx_halted && clients_halted && axi_halted then ret tt
   else fail "qcom-adreno-a618: GPU bus drain timed out"%string) h.

(** [result.is_ok()], which lets the caller go on. *)
Definition is_ok {E E' A} (m : hw E A) : hw E' bool := λ h,
  match m h with
  | (Ok _, h') => (Ok true, h')
  | (Err _, h') => (Ok false, h')
  | (Panic, h') => (Panic, h')
  end.

(** ** Kernel commands *)
Definition CP_INDIRECT_BUFFER : Z := 0x3f.
Definition EVENT_CACHE_FLUSH_TS : Z := 0x04.
Definition EVENT_CCU_INVALIDATE_DEPTH : Z := 0x18.
Definition EVENT_CCU_INVALIDATE_COLOR : Z := 0x19.
Definition EVENT_CACHE_INVALIDATE : Z := 0x31.
Definition CP_EVENT_WRITE_IRQ : Z := 1 << 31.

Definition completion_commands (fence_address sequence : Z) : outcome string (list Z) :=
  let? scratch_header := map_err (type4 Reg.CP_SCRATCH_2 1)
      "qcom-adreno-a618: failed to encode kernel scratch write"%string in
  let? event_header := map_err (type7 opcode.EVENT_WRITE 4)
      "qcom-adreno-a618: failed to encode kernel fence"%string in
  Ok [scratch_header; sequence; event_header; EVENT_CACHE_FLUSH_TS .| CP_EVENT_WRITE_IRQ;
      as_u32 fence_address; as_u32 (fence_address >> 32); sequence].

Definition submission_commands (command_address word_count : Z) : outcome string (list Z) :=
  let? event_header := map_err (type7 opcode.EVENT_WRITE 1)
      "qcom-adreno-a618: failed to encode kernel CCU invalidate"%string in
  let? indirect_header := map_err (type7 CP_INDIRECT_BUFFER 3)
      "qcom-adreno-a618: failed to encode kernel indirect buffer"%string in
  Ok [event_header; EVENT_CACHE_INVALIDATE; event_header; EVENT_CCU_INVALIDATE_DEPTH;
      event_header; EVENT_CCU_INVALIDATE_COLOR; indirect_header;
      as_u32 command_address; as_u32 (command_address >> 32); word_count].

(** ** The ring *)

(** [for word in words { ring_words[wptr] = word; wptr = (wptr + 1) & mask; }] *)
Fixpoint ring_put (words : list Z) : hw string () :=
  match words with
  | [] => ret tt
  | word :: words => λ h,
      let capacity := len h.(ring) in
      (do! _ := if h.(wptr) <? capacity
                then modify (set_ring (<[Z.to_nat h.(wptr) := word]> h.(ring))) else lift Panic in
       do! next := lift (add_or_panic U32_MAX h.(wptr) 1) in
       do! mask := lift (match checked_sub (as_u32 capacity) 1 with Some m => Ok m | None => Panic end) in
       do! _ := modify (set_wptr (next .& mask)) in
       ring_put words) h
  end.

Definition write_ring (fuel : nat) (clear : Poll) (words : list Z) : hw string Z := λ h,
  let capacity := len h.(ring) in
  (if (capacity =? 0) || negb (count_ones capacity =? 1) || (capacity <=? len words)
   then fail "qcom-adreno-a618: kernel ring command is too large"%string
   else
     do! _ := ring_put words in
     do! _ := clear_ring_interrupts fuel clear in
     λ h, (do! _ := log (Reg.write Reg.CP_RB_WPTR h.(wptr)) in ret h.(wptr)) h) h.

Definition record_ring_failure (why : string) (seq cmds target : Z)
    (ints : RingInterruptSnapshot) (pair : option (Z * Z)) : hw string () :=
  modify (λ h, set_lost_reason (Some why)
    (set_last_ring_failure (Some (mk_failure why seq cmds target ints pair)) h)).

(** [RBBM_STATUS & !RBBM_STATUS_CP_AHB_BUSY_CX_MASTER == 0] *)
Definition status_idle (status : Z) : bool :=
  status .&~ Reg.RBBM_STATUS_CP_AHB_BUSY_CX_MASTER =? 0.

(** One turn of [wait_ring_idle]. *)
Record IdlePoll := mk_idle_poll {
  i_rptr : Z; i_status : Z; i_taken : RingInterruptSnapshot; i_regs : InterruptRegisters;
  i_now : Z;
}.

Fixpoint idle_loop (fuel i : nat) (start : Z) (polls : nat → IdlePoll)
    (target cmds : Z) (observed : RingInterruptSnapshot) : hw string () :=
  match fuel with
  | O => lift Panic
  | S fuel =>
      let p := polls i in
      if (p.(i_rptr) =? target) && status_idle p.(i_status) then ret tt
      else
        let '(combined, writes) := collect_polled_interrupts p.(i_taken) p.(i_regs) in
        let observed := merge observed combined in
        do! _ := log writes in
        if is_fatal combined then
          do! _ := record_ring_failure "fatal interrupt during ME initialization"
                     0 cmds target observed None in
          fail "qcom-adreno-a618: GPU fault interrupt during GPU submit"%string
        else if GPU_TIMEOUT_US <=? saturating_sub p.(i_now) start then
          do! _ := record_ring_failure "timeout during ME initialization"
                     0 cmds target observed None in
          fail "qcom-adreno-a618: GPU fence timed out"%string
        else idle_loop fuel (S i) start polls target cmds observed
  end.

Definition wait_ring_idle (fuel : nat) (start : Z) (polls : nat → IdlePoll)
    (target cmds : Z) : hw string () :=
  idle_loop fuel 0 start polls target cmds no_interrupts.

(** One turn of the loop of [execute_ring]: the fence word, the snapshot taken
    first, the registers, the time of the timeout test, and the snapshot taken
    after arming the wait. *)
Record FencePoll := mk_fence_poll {
  f_fence : Z; f_taken : RingInterruptSnapshot;
  f_scratch : Z; f_rptr : Z; f_status : Z; f_now : Z; f_late : RingInterruptSnapshot;
}.

Definition fault_reason (ints : RingInterruptSnapshot) : string :=
  if negb (ints.(cp) .& Reg.CP_INT_ILLEGAL_INSTR_ERROR =? 0)
  then "CP illegal instruction during submit"
  else if negb (ints.(cp) .& Reg.CP_INT_OPCODE_ERROR =? 0) then "CP opcode error during submit"
  else if negb (ints.(cp) .& Reg.CP_INT_REGISTER_PROTECTION_ERROR =? 0)
  then "CP register protection fault during submit"
  else if negb (ints.(cp) .& Reg.CP_INT_HW_FAULT_ERROR =? 0) then "CP hardware fault during submit"
  else "fatal interrupt during submit".

Definition fault_error (ints : RingInterruptSnapshot) : string :=
  if negb (ints.(cp) .& Reg.CP_INT_ILLEGAL_INSTR_ERROR =? 0)
  then "qcom-adreno-a618: CP illegal instruction during GPU submit"
  else if negb (ints.(cp) .& Reg.CP_INT_OPCODE_ERROR =? 0)
  then "qcom-adreno-a618: CP opcode error during GPU submit"
  else if negb (ints.(cp) .& Reg.CP_INT_REGISTER_PROTECTION_ERROR =? 0)
  then "qcom-adreno-a618: CP register protection fault during GPU submit"
  else if negb (ints.(cp) .& Reg.CP_INT_HW_FAULT_ERROR =? 0)
  then "qcom-adreno-a618: CP hardware fault during GPU submit"
  else "qcom-adreno-a618: GPU fault interrupt during GPU submit".

Fixpoint fence_loop (fuel i : nat) (start : Z) (polls : nat → FencePoll)
    (seq target cmds : Z) (observed : RingInterruptSnapshot) : hw string () :=
  match fuel with
  | O => lift Panic
  | S fuel =>
      let p := polls i in
      let observed := merge observed p.(f_taken) in
      if is_fatal observed then
        do! _ := record_ring_failure (fault_reason observed) seq cmds target observed
                   (Some (p.(f_fence), seq)) in
        fail (fault_error observed)
      else if fence_retired seq p.(f_fence) p.(f_scratch) p.(f_rptr) target (status_idle p.(f_status))
      then ret tt
      else if GPU_TIMEOUT_US <=? saturating_sub p.(f_now) start then
        do! _ := record_ring_failure "GPU submit timeout" seq cmds target observed
                   (Some (p.(f_fence), seq)) in
        fail "qcom-adreno-a618: GPU fence timed out"%string
      else
        let observed := if is_empty p.(f_late) then observed else merge observed p.(f_late) in
        fence_loop fuel (S i) start polls seq target cmds observed
  end.

(** What the hardware answers during one submission. *)
Record RingEnv := mk_ring_env {
  e_clear : Poll; e_start : Z; e_polls : nat → FencePoll; e_stop : StopEnv; e_gmu_stopped : bool;
}.

Definition execute_ring (fuel : nat) (env : RingEnv) (words : list Z) (cmds : Z) : hw string () := λ h,
  let seq := Z.max (as_u32 (h.(fence_sequence) + 1)) 1 in
  (do! _ := modify (set_fence_sequence seq) in
   do! _ := modify (set_fence 0) in
   do! completion := lift (completion_commands h.(fence_addr) seq) in
   if 17 - len completion <? len words
   then fail "qcom-adreno-a618: kernel preamble exceeds ring packet storage"%string
   else
     do! target := write_ring fuel env.(e_clear) (words ++ completion) in
     fence_loop fuel 0 env.(e_start) env.(e_polls) seq target cmds no_interrupts) h.

(** ** Shutdown of a lost GPU *)

(** [gmu_stopped] is [gmu.force_shutdown().is_ok()]. *)
Definition quiesce_lost {E} (fuel : nat) (stop : StopEnv) (gmu_stopped : bool) (why : string) : hw E () :=
  do! _ := modify (set_lost_reason (Some why)) in
  do! _ := λ h,
    (if h.(gpu_oob_held) then
       do! gpu_stopped := is_ok (force_stop_gpu fuel stop) in
       let failed := negb (gpu_stopped && gmu_stopped) in
       do! _ := modify (set_quiesce_failed failed) in
       if failed then ret tt else modify (set_gpu_oob_held false)
     else ret tt) h in
  do! _ := modify (set_boot Lost) in
  λ h, (if h.(quiesce_failed) then modify (set_quarantine true) else ret tt) h.

(** ** Register protection and the boot sequence *)
Definition protect_no_access (register length : Z) : Z :=
  (1 << 31) .| ((length .& 0x3fff) << 18) .| (register .& 0x3ffff).
Definition protect_readonly (register length : Z) : Z :=
  ((length .& 0x3fff) << 18) .| (register .& 0x3ffff).

Definition CP_PROTECT : list Z :=
  [protect_readonly 0x00000 0x04ff; protect_readonly 0x00501 0x0005; protect_readonly 0x0050b 0x02f4;
   protect_no_access 0x0050e 0x0000; protect_no_access 0x00510 0x0000; protect_no_access 0x00534 0x0000;
   protect_no_access 0x00800 0x0082; protect_no_access 0x008a0 0x0008; protect_no_access 0x008ab 0x0024;
   protect_readonly 0x008de 0x00ae; protect_no_access 0x00900 0x004d; protect_no_access 0x0098d 0x0272;
   protect_no_access 0x00e00 0x0001; protect_no_access 0x00e03 0x000c; protect_no_access 0x03c00 0x00c3;
   protect_readonly 0x03cc4 0x1fff; protect_no_access 0x08630 0x01cf; protect_no_access 0x08e00 0x0000;
   protect_no_access 0x08e08 0x0000; protect_no_access 0x08e50 0x001f; protect_no_access 0x09624 0x01db;
   protect_no_access 0x09e70 0x0001; protect_no_access 0x09e78 0x0187; protect_no_access 0x0a630 0x01cf;
   protect_no_access 0x0ae02 0x0000; protect_no_access 0x0ae50 0x032f; protect_no_access 0x0b604 0x0000;
   protect_no_access 0x0be02 0x0001; protect_no_access 0x0be20 0x17df; protect_no_access 0x0f000 0x0bff;
   protect_readonly 0x0fc00 0x1fff; protect_no_access 0x11c00 0x0000].

Definition RBBM_INT_POLL_MASK : Z := Reg.RBBM_INT_FATAL_MASK .| Reg.RBBM_INT_CP_CACHE_FLUSH_TS.
Definition UCHE_CACHED_WRITE_RANGE_MAX : Z := 0x0001ffffffffffc0.
Definition UCHE_UNMAPPED_TRAP_BASE : Z := 0x0001fffffffff000.
Definition GMEM_BASE : Z := 0x100000.
Definition GMEM_SIZE : Z := 512 * 1024.

Definition ADDRESS_MODE_REGISTERS : list Z :=
  [Reg.CP_ADDR_MODE_CNTL; Reg.VSC_ADDR_MODE_CNTL; Reg.GRAS_ADDR_MODE_CNTL; Reg.RB_ADDR_MODE_CNTL;
   Reg.PC_ADDR_MODE_CNTL; Reg.HLSQ_ADDR_MODE_CNTL; Reg.VFD_ADDR_MODE_CNTL; Reg.VPC_ADDR_MODE_CNTL;
   Reg.UCHE_ADDR_MODE_CNTL; Reg.SP_ADDR_MODE_CNTL; Reg.TPL1_ADDR_MODE_CNTL; Reg.RBBM_SECVID_TSB_ADDR_MODE_CNTL].

Definition CONTEXT_REGISTERS : list (Z * Z) :=
  [(Reg.UCHE_UNKNOWN_0E12, 0x00000001); (Reg.GRAS_SC_CNTL, 0x00000002); (Reg.GRAS_DBG_ECO_CNTL, 0x00000880);
   (Reg.RB_MODE_CNTL, 0x00000010); (Reg.RB_RBP_CNTL, 0x00000001); (Reg.RB_DBG_ECO_CNTL, 0x04100000);
   (Reg.VPC_DBG_ECO_CNTL, 0x00000000); (Reg.PC_MODE_CNTL, 0x0000001f); (Reg.PC_POWER_CNTL, 0x00000000);
   (Reg.VFD_MODE_CNTL, 0x00000003); (Reg.VFD_POWER_CNTL, 0x00000000); (Reg.SP_GFX_USIZE, 0x00000000);
   (Reg.SP_DBG_ECO_CNTL, 0x00000000); (Reg.SP_CHICKEN_BITS, 0x00000430); (Reg.SP_PERFCTR_SHADER_MASK, 0x0000003f);
   (Reg.TPL1_DBG_ECO_CNTL, 0x00108000); (Reg.TPL1_UNKNOWN_B605, 0x00000044); (Reg.HLSQ_SHARED_CONSTS, 0x00000000);
   (Reg.HLSQ_UNKNOWN_BE00, 0x00000080); (Reg.HLSQ_UNKNOWN_BE01, 0x00000000); (Reg.HLSQ_DBG_ECO_CNTL, 0x00080000)].

Definition initialize_nonprivileged_mmio (h : HardwareState) : list (Z * Z) :=
  Reg.write Reg.RBBM_INT_0_MASK 0
  ++ Reg.write Reg.RBBM_INT_CLEAR_CMD U32_MAX
  ++ Reg.write Reg.RBBM_INT_0_MASK RBBM_INT_POLL_MASK
  ++ Reg.write Reg.RBBM_SECVID_TSB_CNTL 0
  ++ Reg.write64 Reg.RBBM_SECVID_TSB_TRUSTED_BASE 0
  ++ Reg.write Reg.RBBM_SECVID_TSB_TRUSTED_SIZE 0
  ++ ((λ r, (r, 1)) <$> ADDRESS_MODE_REGISTERS)
  ++ CONTEXT_REGISTERS
  ++ Reg.write Reg.RBBM_VBIF_CLIENT_QOS_CNTL 3
  ++ Reg.write Reg.RBBM_PERFCTR_GPU_BUSY_MASKED U32_MAX
  ++ Reg.write64 Reg.UCHE_WRITE_RANGE_MAX UCHE_CACHED_WRITE_RANGE_MAX
  ++ Reg.write64 Reg.UCHE_TRAP_BASE UCHE_UNMAPPED_TRAP_BASE
  ++ Reg.write64 Reg.UCHE_WRITE_THRU_BASE UCHE_UNMAPPED_TRAP_BASE
  ++ Reg.write64 Reg.UCHE_GMEM_RANGE_MIN GMEM_BASE
  ++ Reg.write64 Reg.UCHE_GMEM_RANGE_MAX (GMEM_BASE + GMEM_SIZE - 1)
  ++ Reg.write Reg.UCHE_FILTER_CNTL 0x804
  ++ Reg.write Reg.UCHE_CACHE_WAYS 4
  ++ Reg.write Reg.CP_ROQ_THRESHOLDS_2 0x010000c0
  ++ Reg.write Reg.CP_ROQ_THRESHOLDS_1 0x8040362c
  ++ Reg.write Reg.CP_MEM_POOL_SIZE 128
  ++ Reg.write Reg.PC_DBG_ECO_CNTL 0x00180000
  ++ Reg.write Reg.CP_AHB_CNTL 1
  ++ Reg.write Reg.RBBM_PERFCTR_CNTL 1
  ++ Reg.write Reg.CP_PERFCTR_CP_SEL_0 0
  ++ Reg.write Reg.RBBM_INTERFACE_HANG_INT_CNTL ((1 << 30) .| 0x1fffff)
  ++ Reg.write Reg.UCHE_CLIENT_PF 1
  ++ Reg.write Reg.CP_PROTECT_CNTL (1 .| (1 << 1) .| (1 << 3))
  ++ imap (λ index value, (Reg.CP_PROTECT_BASE + Z.of_nat index, value)) CP_PROTECT
  ++ match h.(sqe) with Some (addr, _) => Reg.write64 Reg.CP_SQE_INSTR_BASE addr | None => [] end
  ++ Reg.write64 Reg.CP_RB_BASE h.(ring_addr)
  ++ Reg.write Reg.CP_RB_CNTL (12 .| (2 << 8) .| (1 << 27))
  ++ Reg.write Reg.CP_RB_WPTR 0.

(** [u32::from_le_bytes] of the four bytes at [i]. *)
Definition le_word (bytes : list Z) (i : nat) : Z :=
  bytes.[i] .| (bytes.[S i] << 8) .| (bytes.[S (S i)] << 16) .| (bytes.[S (S (S i))] << 24).

Definition sqe_version_is_secure (instructions : list Z) : bool :=
  if (len instructions <? 12) || negb (len instructions .& 3 =? 0) then false
  else
    let version := le_word instructions 0 in
    let patchlevel := le_word instructions 8 in
    ((version .& 0xf =? 0xa) && (1 <=? patchlevel .& 0xf)) || (0x190 <=? version .& 0xfff).

(** The [Result] of a call that is not modelled, which may not panic. *)
Definition result {E A} (r : E + A) : outcome E A :=
  match r with inl e => Err e | inr a => Ok a end.

(** What the board, the GMU, the firmware file and the GPU answer at boot.
    [b_gmu_stopped] is [gmu.force_shutdown().is_ok()], called at most once. *)
Record BootEnv := mk_boot_env {
  b_no_zap : bool;
  b_set_peak : string + ();
  b_ensure_ready : string + ();
  b_begin_boot : string + ();
  b_gmu_stopped : bool;
  b_restore_iommu : bool;
  b_firmware : string + list Z;
  b_sqe_alloc : string + Z;
  b_clear : Poll;
  b_idle_start : Z;
  b_idle : nat → IdlePoll;
  b_stop : StopEnv;
}.

(** The closure [preparation] up to [sqe_started = true] ... *)
Definition prepare_sqe (env : BootEnv) : hw string () :=
  do! _ := lift (require env.(b_restore_iommu)
             "qcom-adreno-a618: failed to restore GPU IOMMU"%string) in
  do! firmware := lift (result env.(b_firmware)) in
  do! instructions := lift (ok_or
        (match get_range firmware 4 (len firmware) with
         | Some bytes => if negb (len bytes =? 0) && (len bytes .& 3 =? 0) then Some bytes else None
         | None => None
         end) "qcom-adreno-a618: a630 SQE firmware has no instruction payload"%string) in
  do! _ := lift (require (sqe_version_is_secure instructions)
             "qcom-adreno-a618: a630 SQE firmware lacks required security fixes"%string) in
  do! addr := lift (result env.(b_sqe_alloc)) in
  do! _ := modify (set_sqe (Some (addr, instructions))) in
  do! _ := modify (λ h, set_wptr 0 (set_ring (replicate (length h.(ring)) 0) h)) in
  do! _ := λ h, log (initialize_nonprivileged_mmio h) h in
  log (Reg.write Reg.CP_SQE_CNTL 1).

Definition ME_INIT_PAYLOAD : list Z := [0x2f; 0x3; 0x20000000; 0; 0; 0; 0; 0].

(** ... and from there to its end. *)
Definition start_sqe (fuel : nat) (env : BootEnv) : hw string () :=
  do! header := lift (map_err (type7 opcode.ME_INIT 8)
                  "qcom-adreno-a618: failed to encode CP initialization"%string) in
  let me_init := header :: ME_INIT_PAYLOAD in
  do! target := write_ring fuel env.(b_clear) me_init in
  do! _ := wait_ring_idle fuel env.(b_idle_start) env.(b_idle) target (len me_init) in
  log (Reg.write Reg.RBBM_SECVID_TRUST_CNTL 0).

(** The end of [ensure_hardware_ready] when [preparation] failed. *)
Definition boot_failed (fuel : nat) (env : BootEnv) (sqe_started : bool) (error : string) :
    hw GpuBackendSubmitError () :=
  do! gpu_stopped := if sqe_started then is_ok (force_stop_gpu fuel env.(b_stop)) else ret true in
  let failed := negb (gpu_stopped && env.(b_gmu_stopped)) in
  do! _ := modify (set_quiesce_failed failed) in
  do! _ := if failed then modify (set_quarantine true) else ret tt in
  do! _ := if failed then ret tt else modify (set_gpu_oob_held false) in
  do! _ := modify (set_boot (if sqe_started || failed then Lost else Cold)) in
  if sqe_started then
    do! _ := modify (set_lost_reason (Some error)) in
    fail (DeviceLost error)
  else fail (Unavailable error).

Definition boot_ready : hw GpuBackendSubmitError () :=
  modify (λ h, set_last_ring_failure None (set_lost_reason None (set_boot Ready h))).

(** From the acknowledgement of the GPU's power request. *)
Definition boot_powered (fuel : nat) (env : BootEnv) : hw GpuBackendSubmitError () :=
  do! _ := modify (set_gpu_oob_held true) in
  λ h, match prepare_sqe env h with
       | (Ok _, h1) => match start_sqe fuel env h1 with
                       | (Ok _, h2) => boot_ready h2
                       | (Err error, h2) => boot_failed fuel env true error h2
                       | (Panic, h2) => (Panic, h2)
                       end
       | (Err error, h1) => boot_failed fuel env false error h1
       | (Panic, h1) => (Panic, h1)
       end.

Definition OOB_TIMEOUT : string := "qcom-adreno-a618: failed to quiesce GMU after GPU OOB timeout".

Definition boot_refused (env : BootEnv) (error : string) : hw GpuBackendSubmitError () :=
  do! _ := modify (set_quiesce_failed (negb env.(b_gmu_stopped))) in
  do! _ := modify (set_boot (if env.(b_gmu_stopped) then Cold else Lost)) in
  if env.(b_gmu_stopped) then fail (Unavailable error)
  else
    do! _ := modify (λ h, set_lost_reason (Some OOB_TIMEOUT) (set_quarantine true h)) in
    fail (DeviceLost OOB_TIMEOUT).

(** [result.map_err(f)] *)
Definition map_error {E E' A} (f : E → E') (m : outcome E A) : outcome E' A :=
  match m with Ok a => Ok a | Err e => Err (f e) | Panic => Panic end.

Definition ensure_hardware_ready (fuel : nat) (env : BootEnv) : hw GpuBackendSubmitError () := λ h,
  match h.(boot) with
  | Ready => (Ok tt, h)
  | Lost => (Err (DeviceLost (default
               "qcom-adreno-a618: GPU was lost during a prior hardware operation"%string
               h.(lost_reason))), h)
  | Cold =>
      (if negb env.(b_no_zap)
       then fail (Unavailable "qcom-adreno-a618: no authenticated zap-shader path exists for this board")
       else
         do! _ := lift (map_error Unavailable (result env.(b_set_peak))) in
         do! _ := lift (map_error Unavailable (result env.(b_ensure_ready))) in
         match env.(b_begin_boot) with
         | inr _ => boot_powered fuel env
         | inl error => boot_refused env error
         end) h
  end.

(** ** Submission *)
Definition submit_words (fuel : nat) (env : RingEnv) (words : list Z) :
    hw GpuBackendSubmitError () := λ h,
  (do! word_count := lift (if len words <=? U32_MAX then Ok (len words)
        else Err (Rejected "qcom-adreno-a618: command stream is too large")) in
   do! byte_size := lift (ok_or (checked_mul U64_MAX (len words) 4)
        (Rejected "qcom-adreno-a618: command byte size overflows")) in
   do! _ := lift (require (negb (h.(command_size) <? byte_size))
        (Rejected "qcom-adreno-a618: command stream exceeds staging allocation")) in
   do! _ := (if byte_size =? 0 then ret tt
             else
               do! _ := if len words <=? len h.(command)
                        then modify (set_command (words ++ drop (length words) h.(command)))
                        else lift Panic in
               lift (require (negb ((byte_size =? 0) || (h.(command_size) <? byte_size)))
                 (Unavailable "qcom-adreno-a618: DMA cache-clean range is invalid"))) in
   do! submission := lift (map_error Unavailable (submission_commands h.(command_addr) word_count)) in
   let ring_words := if (len words =? 0) then [] else submission in
   λ h, match execute_ring fuel env ring_words (len words) h with
        | (Ok _, h') => (Ok tt, h')
        | (Err error, h') =>
            (do! _ := quiesce_lost fuel env.(e_stop) env.(e_gmu_stopped) error in
             fail (DeviceLost error)) h'
        | (Panic, h') => (Panic, h')
        end) h.

(** [A618FrequencyDriver::set_frequency_khz]; [vote] is what the GMU answers. *)
Definition set_frequency_khz (fuel : nat) (stop : StopEnv) (gmu_stopped : bool)
    (vote : string + ()) : hw string () := λ h,
  match h.(boot) with
  | Ready => match vote with
             | inr _ => (Ok tt, h)
             | inl why => (do! _ := quiesce_lost fuel stop gmu_stopped why in fail why) h
             end
  | _ => (Err "qcom-adreno-a618: GPU is not ready"%string, h)
  end.

(** [Drop for A618Core]: the memory and the mapping are released, or the
    driver stops for ever and keeps them. *)
Inductive Teardown := Released | FailStopped.

Definition drop_core (fuel : nat) (stop : StopEnv) (gmu_stopped : bool) : hw string Teardown := λ h,
  (if h.(quiesce_failed) then ret FailStopped
   else if h.(gpu_oob_held) then
     do! gpu_stopped := is_ok (force_stop_gpu fuel stop) in
     if negb gpu_stopped then ret FailStopped
     else if negb gmu_stopped then ret FailStopped
     else do! _ := modify (set_gpu_oob_held false) in ret Released
   else ret Released) h.
End Hw.
