(* ===== verification/HardwareFacts.v ===== *)
(** * Properties of the ring, the fence and the boot sequence

    What a successful submission has observed, that every wait ends, the power
    states of the GPU, and the order of the boot sequence. *)
From stdpp Require Import list.
From S2P Require Import Prelude Pm4 PendingQueue Registers Hardware.

Module HwFacts.
Import Pending Hw.

(** ** Reading off a computation *)

(** [after Q m h]: the run of [m] from [h] ends in a result and state in [Q]. *)
Definition after {E A} (Q : outcome E A → HardwareState → Prop) (m : hw E A) (h : HardwareState) : Prop :=
  Q (m h).1 (m h).2.

Lemma after_andThen {E A B} Q (m : hw E A) (f : A → hw E B) h :
  after (λ r h', match r with
                 | Ok a => after Q (f a) h'
                 | Err e => Q (Err e) h'
                 | Panic => Q Panic h'
                 end) m h → after Q (andThen m f) h.
Proof. unfold after, andThen. destruct (m h) as [[a|e|] h']; simpl; auto. Qed.

Lemma after_mono {E A} (P Q : outcome E A → HardwareState → Prop) m h :
  after P m h → (∀ r h', P r h' → Q r h') → after Q m h.
Proof. unfold after. auto. Qed.

Lemma after_is_ok {E E' A} (Q : outcome E' bool → HardwareState → Prop) (m : hw E A) h :
  after (λ r h', Q (match r with Ok _ => Ok true | Err _ => Ok false | Panic => Panic end) h') m h →
  after Q (is_ok m) h.
Proof. unfold after, is_ok. by destruct (m h) as [[] ?]. Qed.

(** [f args] opened on the state it starts from. *)
Ltac enter f :=
  match goal with |- after ?Q ?m ?h =>
    let m' := eval unfold f in m in
    let b := eval cbv beta in (m' h) in
    match b with ?k h => change (after Q k h) end
  end.

(** ** Waits

    Polling touches nothing but the log of register writes, and ends when the
    clock passes the timeout. *)
Definition only_mmio (h h' : HardwareState) : Prop := ∃ l, h' = set_mmio (h.(mmio) ++ l) h.

#[export] Instance only_mmio_refl : Reflexive only_mmio.
Proof. intros []. exists []. unfold set_mmio. cbn. by rewrite app_nil_r. Qed.
#[export] Instance only_mmio_trans : Transitive only_mmio.
Proof. intros h1 h2 h3 [l ->] [l' ->]. exists (l ++ l'). unfold set_mmio. cbn. by rewrite app_assoc. Qed.

Lemma only_mmio_log h l : only_mmio h (set_mmio (h.(mmio) ++ l) h).
Proof. by exists l. Qed.

Lemma after_log {E} Q l h :
  Q (Ok tt) (set_mmio (h.(mmio) ++ l) h) → after (E:=E) Q (log l) h.
Proof. done. Qed.

(** The clock of a poll passes [timeout] within [fuel] turns. *)
Definition expires (timeout : Z) (fuel : nat) (p : Poll) : Prop :=
  ∃ i, (i < fuel)%nat ∧ timeout ≤ (p.(poll_read) i).2 - p.(poll_start).

Lemma expired timeout start now :
  0 < timeout → timeout ≤ now - start → (timeout <=? saturating_sub now start) = true.
Proof. unfold saturating_sub. intros. apply Z.leb_le. lia. Qed.

Lemma poll_loop_total fuel i p predicate :
  (∃ j, (i ≤ j < i + fuel)%nat ∧ GPU_QUIESCE_TIMEOUT_US ≤ (p.(poll_read) j).2 - p.(poll_start)) →
  ∃ b, poll_loop fuel i p predicate = Ok b.
Proof.
  revert i. induction fuel as [|fuel IH]; intros i (j & Hj & Ht); [lia|]. cbn [poll_loop].
  destruct (poll_read p i) as [v now] eqn:E. destruct (predicate v); [eauto|].
  destruct (decide (j = i)) as [->|Hne].
  - rewrite E in Ht. rewrite expired by (done || (unfold GPU_QUIESCE_TIMEOUT_US; lia)). eauto.
  - case_match; [eauto|]. apply IH. exists j. split; [lia|done].
Qed.

Lemma poll_loop_reads fuel i p predicate :
  poll_loop fuel i p predicate = Ok true → ∃ j, predicate (p.(poll_read) j).1 = true.
Proof.
  revert i. induction fuel as [|fuel IH]; intros i; [done|]. cbn [poll_loop].
  destruct (poll_read p i) as [v now] eqn:E. destruct (predicate v) eqn:Hv.
  - intros _. exists i. by rewrite E.
  - case_match; [done|]. apply IH.
Qed.

Lemma clear_loop_total fuel i p h :
  (∃ j, (i ≤ j < i + fuel)%nat ∧ GPU_INTERRUPT_CLEAR_TIMEOUT_US ≤ (p.(poll_read) j).2 - p.(poll_start)) →
  after (λ r h', r ≠ Panic ∧ only_mmio h h') (clear_loop fuel i p) h.
Proof.
  revert i h. induction fuel as [|fuel IH]; intros i h (j & Hj & Ht); [lia|]. cbn [clear_loop].
  destruct (poll_read p i) as [v now] eqn:E. case_match; [done|]. case_match; [done|].
  apply after_andThen, after_log. destruct (decide (j = i)) as [->|Hne].
  - rewrite E in Ht. rewrite expired by (done || (unfold GPU_INTERRUPT_CLEAR_TIMEOUT_US; lia)).
    split; [done|]. apply only_mmio_log.
  - case_match; [split; [done|apply only_mmio_log]|].
    eapply after_mono; [apply IH; exists j; split; [lia|done]|].
    intros r h' [Hr Hh']. split; [done|]. etrans; [apply only_mmio_log|done].
Qed.

(** A GPU stop needs its four polls to end. *)
Definition stop_expires (fuel : nat) (env : StopEnv) : Prop :=
  Forall (expires GPU_QUIESCE_TIMEOUT_US fuel) [env.(p_drain); env.(p_gx); env.(p_clients); env.(p_axi)].

(** Every halt request was acknowledged. *)
Definition halted (env : StopEnv) : Prop :=
  (∃ i, (env.(p_gx).(poll_read) i).1 .& 1 ≠ 0) ∧
  (∃ i, (env.(p_clients).(poll_read) i).1 .& 1 ≠ 0) ∧
  (∃ i, (env.(p_axi).(poll_read) i).1 .& 2 ≠ 0).

Lemma poll_gpu_after fuel p predicate h :
  expires GPU_QUIESCE_TIMEOUT_US fuel p →
  after (λ r h', ∃ b, r = Ok b ∧ h' = h ∧ (b = true → ∃ i, predicate (p.(poll_read) i).1 = true))
    (poll_gpu fuel p predicate) h.
Proof.
  intros (j & Hj & Ht). destruct (poll_loop_total fuel 0 p predicate) as [b Hb];
    [exists j; split; [lia|done]|].
  unfold after, poll_gpu, lift. simpl. exists b. split_and!; [done|done|].
  intros ->. by eapply poll_loop_reads.
Qed.

Ltac poll_next H :=
  apply after_andThen; eapply after_mono; [by apply poll_gpu_after, H|];
  intros ? ? (? & -> & -> & ?); cbv beta iota.
Ltac log_next := apply after_andThen, after_log; cbv beta iota.

Lemma force_stop_after fuel env h :
  stop_expires fuel env →
  after (λ r h', r ≠ Panic ∧ only_mmio h h' ∧ (r = Ok tt → halted env)) (force_stop_gpu fuel env) h.
Proof.
  intros He. unfold stop_expires in He. rewrite !Forall_cons in He. destruct He as (H1 & H2 & H3 & H4 & _).
  enter force_stop_gpu.
  log_next. poll_next H1. log_next. poll_next H2. log_next. poll_next H3. log_next. poll_next H4. log_next.
  case_match; (split; [done|]); (split; [repeat (eapply only_mmio_trans; [|apply only_mmio_log]); done|]); [|done].
  intros _. unfold halted. bool_to_prop.
  repeat match goal with H : ?b = true → _, Hb : ?b = true |- _ => destruct (H Hb) as [? ?%negb_true_iff%Z.eqb_neq]; clear H end.
  split_and!; eexists; eassumption.
Qed.

(** *** Diagnostics *)
Definition diagnosed (h h' : HardwareState) : Prop :=
  ∃ l r f, h' = set_lost_reason r (set_last_ring_failure f (set_mmio (h.(mmio) ++ l) h)).

#[export] Instance diagnosed_trans : Transitive diagnosed.
Proof.
  intros h1 h2 h3 (l & r & f & ->) (l' & r' & f' & ->). exists (l ++ l'), r', f'.
  destruct h1. cbv -[app]. by rewrite app_assoc.
Qed.

Lemma only_mmio_diagnosed h h' : only_mmio h h' → diagnosed h h'.
Proof. intros [l ->]. exists l, (lost_reason h), (last_ring_failure h). by destruct h. Qed.

#[export] Instance diagnosed_refl : Reflexive diagnosed.
Proof. intros h. by apply only_mmio_diagnosed. Qed.

Lemma diagnosed_record h why seq cmds target ints pair :
  diagnosed h (record_ring_failure why seq cmds target ints pair h).2.
Proof.
  eexists [], _, _. cbn. unfold set_lost_reason, set_last_ring_failure, set_mmio. cbn. by rewrite app_nil_r.
Qed.

Lemma idle_loop_total fuel i start polls target cmds observed h :
  (∃ j, (i ≤ j < i + fuel)%nat ∧ GPU_TIMEOUT_US ≤ (polls j).(i_now) - start) →
  after (λ r h', r ≠ Panic ∧ diagnosed h h') (idle_loop fuel i start polls target cmds observed) h.
Proof.
  revert i observed h. induction fuel as [|fuel IH]; intros i observed h (j & Hj & Ht); [lia|].
  cbn [idle_loop]. case_match; [done|].
  destruct (collect_polled_interrupts _ _) as [combined writes].
  apply after_andThen, after_log.
  assert (diagnosed h (set_mmio (mmio h ++ writes) h)) as Hlog by (apply only_mmio_diagnosed, only_mmio_log).
  case_match; [split; [done|]; etrans; [done|apply diagnosed_record]|].
  destruct (decide (j = i)) as [->|Hne].
  - rewrite expired by (done || (unfold GPU_TIMEOUT_US; lia)). split; [done|]. etrans; [done|apply diagnosed_record].
  - case_match; [split; [done|]; etrans; [done|apply diagnosed_record]|].
    eapply after_mono; [apply IH; exists j; split; [lia|done]|].
    intros r h' [Hr Hh']. split; [done|]. by etrans.
Qed.

(** ** The fence *)
Lemma is_fatal_spec s :
  is_fatal s = negb (s.(rbbm) .& Reg.RBBM_INT_FATAL_MASK =? 0) || negb (s.(cp) .& Reg.CP_INT_FATAL_MASK =? 0).
Proof.
  unfold is_fatal. do 3 f_equal. apply Z.bits_inj'. intros n Hn.
  rewrite !Z.land_spec, Z.ldiff_spec, Z.land_spec.
  assert (Z.testbit (Reg.RBBM_INT_COMPLETION_MASK .& Reg.RBBM_INT_FATAL_MASK) n = false) as H
    by (change (Reg.RBBM_INT_COMPLETION_MASK .& Reg.RBBM_INT_FATAL_MASK) with 0; by rewrite Z.bits_0).
  rewrite Z.land_spec in H.
  destruct (Z.testbit (rbbm s) n), (Z.testbit Reg.RBBM_INT_COMPLETION_MASK n),
    (Z.testbit Reg.RBBM_INT_FATAL_MASK n); done.
Qed.

(** A fault is never forgotten. *)
Lemma is_fatal_merge a b : is_fatal (merge a b) = is_fatal a || is_fatal b.
Proof.
  rewrite !is_fatal_spec. cbn [merge rbbm cp]. rewrite !Z.land_lor_distr_l.
  apply eq_true_iff_eq. rewrite !orb_true_iff, !negb_true_iff, !Z.eqb_neq, !Z.lor_eq_0_iff.
  destruct (Z.eq_dec (rbbm a .& Reg.RBBM_INT_FATAL_MASK) 0), (Z.eq_dec (cp a .& Reg.CP_INT_FATAL_MASK) 0);
    naive_solver.
Qed.

(** What makes turn [j] of the wait succeed. *)
Definition retired_at (polls : nat → FencePoll) (seq target : Z) (j : nat) : Prop :=
  let p := polls j in
  p.(f_fence) = seq ∧ p.(f_scratch) = seq ∧ p.(f_rptr) = target ∧ status_idle p.(f_status) = true ∧
  (∀ k, (k ≤ j)%nat → is_fatal (polls k).(f_taken) = false) ∧
  (∀ k, (k < j)%nat → is_fatal (polls k).(f_late) = false).

Lemma is_empty_not_fatal s : is_empty s = true → is_fatal s = false.
Proof.
  unfold is_empty. intros [?%Z.eqb_eq ?%Z.eqb_eq]%andb_true_iff. rewrite is_fatal_spec.
  destruct s; simpl in *; by subst.
Qed.

Lemma fence_loop_sound fuel i start polls seq target cmds observed h h' :
  fence_loop fuel i start polls seq target cmds observed h = (Ok tt, h') →
  h' = h ∧ seq ≠ 0 ∧ is_fatal observed = false ∧
  ∃ j, (i ≤ j)%nat ∧ (polls j).(f_fence) = seq ∧ (polls j).(f_scratch) = seq ∧
    (polls j).(f_rptr) = target ∧ status_idle (polls j).(f_status) = true ∧
    (∀ k, (i ≤ k ≤ j)%nat → is_fatal (polls k).(f_taken) = false) ∧
    (∀ k, (i ≤ k < j)%nat → is_fatal (polls k).(f_late) = false).
Proof.
  revert i observed. induction fuel as [|fuel IH]; intros i observed; [done|]. cbn [fence_loop].
  rewrite is_fatal_merge. destruct (is_fatal observed) eqn:Hobs; [done|].
  destruct (is_fatal (f_taken (polls i))) eqn:Hi; [done|]. cbn [orb].
  destruct (fence_retired _ _ _ _ _ _) eqn:Hr.
  - intros [= <-]. unfold fence_retired in Hr. bool_to_prop. split_and!; try done. exists i.
    split_and!; try done; intros k Hk; [by replace k with i by lia|lia].
  - case_match; [done|]. intros (-> & Hs & Hlate & j & Hj & ? & ? & ? & ? & Ht & Hl)%IH.
    split_and!; try done. exists j. split_and!; try done; [lia|..].
    + intros k Hk. destruct (decide (k = i)) as [->|]; [done|]. apply Ht. lia.
    + intros k Hk. destruct (decide (k = i)) as [->|]; [|apply Hl; lia].
      destruct (is_empty (f_late (polls i))) eqn:He; [by apply is_empty_not_fatal|].
      rewrite is_fatal_merge in Hlate. by apply orb_false_iff in Hlate as [_ ?].
Qed.

Lemma fence_loop_total fuel i start polls seq target cmds observed h :
  (∃ j, (i ≤ j < i + fuel)%nat ∧ GPU_TIMEOUT_US ≤ (polls j).(f_now) - start) →
  after (λ r h', r ≠ Panic ∧ diagnosed h h') (fence_loop fuel i start polls seq target cmds observed) h.
Proof.
  revert i observed h. induction fuel as [|fuel IH]; intros i observed h (j & Hj & Ht); [lia|].
  cbn [fence_loop]. case_match; [split; [done|apply diagnosed_record]|]. case_match; [done|].
  destruct (decide (j = i)) as [->|Hne].
  - rewrite expired by (done || (unfold GPU_TIMEOUT_US; lia)). split; [done|apply diagnosed_record].
  - case_match; [split; [done|apply diagnosed_record]|]. apply IH. exists j. split; [lia|done].
Qed.

Lemma fence_loop_after fuel start polls seq target cmds h :
  (∃ j, (j < fuel)%nat ∧ GPU_TIMEOUT_US ≤ (polls j).(f_now) - start) →
  after (λ r h', r ≠ Panic ∧ diagnosed h h' ∧
           (r = Ok tt → h' = h ∧ ∃ j, retired_at polls seq target j))
    (fence_loop fuel 0 start polls seq target cmds no_interrupts) h.
Proof.
  intros (j & Hj & Ht).
  pose proof (fence_loop_total fuel 0 start polls seq target cmds no_interrupts h) as Htot.
  destruct Htot as [Hnp Hd]; [exists j; split; [lia|done]|].
  unfold after. destruct (fence_loop _ _ _ _ _ _ _ _ h) as [r h'] eqn:Hloop. split_and!; [done..|].
  cbn. intros ->. apply fence_loop_sound in Hloop as (-> & Hs & _ & k & Hk & ? & ? & ? & ? & Htk & Hlk).
  split; [done|]. exists k. split_and!; try done; intros; [apply Htk|apply Hlk]; lia.
Qed.

(** ** The ring *)
Definition RING_WORDS : Z := 0x2000.

Record ring_wf (h : HardwareState) : Prop := {
  rw_len : len h.(ring) = RING_WORDS;
  rw_wptr : 0 ≤ h.(wptr) < RING_WORDS;
}.

(** The words stored cyclically from index [w]. *)
Fixpoint ring_store (l : list Z) (w : Z) (words : list Z) : list Z :=
  match words with
  | [] => l
  | x :: words => ring_store (<[Z.to_nat w := x]> l) ((w + 1) mod RING_WORDS) words
  end.

Lemma length_ring_store l w words : length (ring_store l w words) = length l.
Proof. revert l w. induction words as [|x words IH]; intros l w; [done|]. cbn. by rewrite IH, length_insert. Qed.

Lemma ring_put_spec words h :
  ring_wf h →
  ring_put words h = (Ok tt, set_wptr ((h.(wptr) + len words) mod RING_WORDS)
                               (set_ring (ring_store h.(ring) h.(wptr) words) h)).
Proof.
  revert h. induction words as [|x words IH]; intros h [Hl Hw]; unfold RING_WORDS in *; cbn [ring_put].
  - cbn. rewrite Z.add_0_r, Z.mod_small by done. by destruct h.
  - unfold andThen. rewrite Hl. rewrite (proj2 (Z.ltb_lt _ _)) by lia. cbn [modify].
    unfold add_or_panic, lift. rewrite (proj2 (Z.leb_le _ _)) by (unfold U32_MAX; lia).
    change (checked_sub (as_u32 0x2000) 1) with (Some 0x1fff). cbn.
    rewrite (land_mask _ _ 13) by done. change (2 ^ 13) with 0x2000.
    rewrite IH; cbn.
    + unfold RING_WORDS. f_equal. unfold set_wptr, set_ring; cbn. f_equal. rewrite Zplus_mod_idemp_l.
      f_equal. unfold len. cbn. lia.
    + constructor; cbn; [unfold len in *; by rewrite length_insert|]. apply Z.mod_pos_bound. done.
Qed.

Lemma ring_store_other words l w k :
  0 ≤ w < RING_WORDS → 0 ≤ k < RING_WORDS → len words ≤ RING_WORDS →
  (∀ i, (i < length words)%nat → k ≠ (w + Z.of_nat i) mod RING_WORDS) →
  ring_store l w words !! Z.to_nat k = l !! Z.to_nat k.
Proof.
  revert l w. induction words as [|x words IH]; intros l w Hw Hk Hlen Hne; [done|]. cbn.
  rewrite IH; [|apply Z.mod_pos_bound; done|done|unfold len in *; cbn in *; lia|].
  - apply list_lookup_insert_ne. pose proof (Hne 0%nat ltac:(cbn; lia)) as H0.
    rewrite Z.add_0_r, Z.mod_small in H0 by done. lia.
  - intros i Hi. rewrite Zplus_mod_idemp_l. replace (w + 1 + Z.of_nat i) with (w + Z.of_nat (S i)) by lia.
    apply Hne. cbn. lia.
Qed.

Lemma ring_store_lookup words l w i :
  0 ≤ w < RING_WORDS → len l = RING_WORDS → len words ≤ RING_WORDS → (i < length words)%nat →
  ring_store l w words !! Z.to_nat ((w + Z.of_nat i) mod RING_WORDS) = words !! i.
Proof.
  revert l w i. induction words as [|x words IH]; intros l w i Hw Hl Hlen Hi; cbn in Hi; [lia|]. cbn [ring_store].
  assert (len words < RING_WORDS) as Hlen' by (unfold len in *; cbn in *; lia).
  destruct i as [|i].
  - rewrite Z.add_0_r, (Z.mod_small w) by done. rewrite ring_store_other.
    + cbn. apply list_lookup_insert_eq. unfold len in Hl. lia.
    + by apply Z.mod_pos_bound.
    + done.
    + lia.
    + intros i Hi'. rewrite Zplus_mod_idemp_l. unfold len, RING_WORDS in *. zlia.
  - replace (w + Z.of_nat (S i)) with ((w + 1) + Z.of_nat i) by lia. rewrite <- Zplus_mod_idemp_l.
    rewrite IH; [done|by apply Z.mod_pos_bound|unfold len in *; by rewrite length_insert|lia|lia].
Qed.

(** The state with [words] in the ring. *)
Definition ring_with (words : list Z) (h : HardwareState) : HardwareState :=
  set_wptr ((h.(wptr) + len words) mod RING_WORDS) (set_ring (ring_store h.(ring) h.(wptr) words) h).

Lemma write_ring_after fuel clear words h :
  ring_wf h → len words < RING_WORDS → expires GPU_INTERRUPT_CLEAR_TIMEOUT_US fuel clear →
  after (λ r h', match r with
                 | Panic => False
                 | Err _ => only_mmio (ring_with words h) h'
                 | Ok target => target = (ring_with words h).(wptr) ∧
                     ∃ l, h' = set_mmio (h.(mmio) ++ l ++ [(Reg.CP_RB_WPTR, target)]) (ring_with words h)
                 end) (write_ring fuel clear words) h.
Proof.
  intros Hwf Hlen (j & Hj & Ht). pose proof Hwf as [Hl Hw]. enter write_ring.
  rewrite Hl. change (count_ones RING_WORDS) with 1. change (RING_WORDS =? 0) with false.
  rewrite (proj2 (Z.leb_gt _ _)) by done. cbn [orb negb Z.eqb].
  change (negb (1 =? 1)) with false. cbv iota.
  apply after_andThen. unfold after at 1. rewrite ring_put_spec by done. fold (ring_with words h).
  cbn [fst snd]. apply after_andThen. eapply after_mono; [apply (clear_loop_total fuel 0); exists j; split; [lia|done]|].
  intros [[]|e|] h1 [Hr Hm]; [|done..]. unfold after, log, ret, andThen, modify. cbn.
  destruct Hm as [l ->]. split; [by destruct h|]. exists l. unfold set_mmio. cbn. by rewrite app_assoc.
Qed.

(** ** One submission to the ring *)
Definition next_sequence (h : HardwareState) : Z := Z.max (as_u32 (h.(fence_sequence) + 1)) 1.

Lemma next_sequence_pos h : 1 ≤ next_sequence h < 2 ^ 32.
Proof. unfold next_sequence, as_u32. zlia. Qed.

Definition completion_words (addr seq : Z) : list Z :=
  default [] (match completion_commands addr seq with Ok ws => Some ws | _ => None end).

Lemma completion_commands_ok addr seq : completion_commands addr seq = Ok (completion_words addr seq).
Proof.
  unfold completion_words, completion_commands.
  let v := eval vm_compute in (type4 Reg.CP_SCRATCH_2 1) in change (type4 Reg.CP_SCRATCH_2 1) with v.
  let v := eval vm_compute in (type7 opcode.EVENT_WRITE 4) in change (type7 opcode.EVENT_WRITE 4) with v.
  done.
Qed.

Lemma len_completion_words addr seq : len (completion_words addr seq) = 7.
Proof.
  unfold completion_words, completion_commands.
  let v := eval vm_compute in (type4 Reg.CP_SCRATCH_2 1) in change (type4 Reg.CP_SCRATCH_2 1) with v.
  let v := eval vm_compute in (type7 opcode.EVENT_WRITE 4) in change (type7 opcode.EVENT_WRITE 4) with v.
  done.
Qed.

(** The state in which the fence of the submission is awaited. *)
Definition staged (words : list Z) (h : HardwareState) : HardwareState :=
  ring_with (words ++ completion_words h.(fence_addr) (next_sequence h))
    (set_fence 0 (set_fence_sequence (next_sequence h) h)).

(** The waits of a submission end. *)
Definition ring_expires (fuel : nat) (env : RingEnv) : Prop :=
  expires GPU_INTERRUPT_CLEAR_TIMEOUT_US fuel env.(e_clear) ∧
  (∃ j, (j < fuel)%nat ∧ GPU_TIMEOUT_US ≤ (env.(e_polls) j).(f_now) - env.(e_start)) ∧
  stop_expires fuel env.(e_stop).

Lemma execute_ring_after fuel env words cmds h :
  ring_wf h → len words ≤ 10 → ring_expires fuel env →
  after (λ r h', r ≠ Panic ∧ diagnosed (staged words h) h' ∧
           (r = Ok tt → ∃ l j,
              h' = set_mmio (h.(mmio) ++ l ++ [(Reg.CP_RB_WPTR, (staged words h).(wptr))]) (staged words h) ∧
              retired_at env.(e_polls) (next_sequence h) (staged words h).(wptr) j))
    (execute_ring fuel env words cmds) h.
Proof.
  intros Hwf Hlen (Hclear & (j & Hj & Ht) & _). enter execute_ring. fold (next_sequence h).
  do 2 (apply after_andThen; unfold after at 1; cbn [modify fst snd]).
  rewrite completion_commands_ok. apply after_andThen. unfold after at 1, lift. cbn [fst snd].
  rewrite len_completion_words, (proj2 (Z.ltb_ge _ _)) by lia.
  apply after_andThen. eapply after_mono; [apply write_ring_after; [..|done]|].
  - destruct Hwf. by constructor.
  - rewrite len_app, len_completion_words. unfold RING_WORDS. lia.
  - cbv beta. intros [target|e|] h1 Hr; [|split_and!; [done|by apply only_mmio_diagnosed|done]|done].
    fold (staged words h) in Hr. destruct Hr as [-> [l ->]].
    eapply after_mono; [apply fence_loop_after; eauto|]. cbv beta. fold (staged words h).
    intros r h2 (Hnp & Hd & Hok). split_and!; [done| |].
    + etrans; [|done]. apply only_mmio_diagnosed. by eexists.
    + intros [-> [k Hk]]%Hok. eauto.
Qed.

(** ** Power states *)
#[local] Arguments force_stop_gpu : simpl never.
#[local] Arguments write_ring : simpl never.
#[local] Arguments execute_ring : simpl never.
#[local] Arguments wait_ring_idle : simpl never.
Definition power_ok (h : HardwareState) : Prop :=
  (h.(quiesce_failed) = true → h.(quarantine) = true) ∧
  match h.(boot) with
  | Ready => h.(gpu_oob_held) = true ∧ h.(quarantine) = false
  | Cold => h.(gpu_oob_held) = false ∧ h.(quarantine) = false
  | Lost => h.(quiesce_failed) = false → h.(gpu_oob_held) = false
  end.

Record hw_wf (h : HardwareState) : Prop := {
  wf_ring : ring_wf h;
  wf_command : len h.(command) = h.(command_size) / 4;
  wf_command_size : 0 ≤ h.(command_size) < 2 ^ 32;
  wf_sequence : u32 h.(fence_sequence);
  wf_power : power_ok h;
}.

(** The parts of the state that a change of power state leaves alone. *)
Record same_memory (h h' : HardwareState) : Prop := {
  sm_ring : h'.(ring) = h.(ring);
  sm_wptr : h'.(wptr) = h.(wptr);
  sm_command : h'.(command) = h.(command);
  sm_sequence : h'.(fence_sequence) = h.(fence_sequence);
  sm_addresses : (h'.(command_addr), h'.(command_size), h'.(fence_addr), h'.(ring_addr))
                 = (h.(command_addr), h.(command_size), h.(fence_addr), h.(ring_addr));
}.

Lemma same_memory_wf h h' : same_memory h h' → hw_wf h → power_ok h' → hw_wf h'.
Proof.
  intros [Hr Hw Hc Hs Ha] [[Hlr Hlw] Hlc Hls Hq _] Hp. injection Ha as H1 H2 H3 H4.
  constructor; [constructor|..]; rewrite ?Hr, ?Hw, ?Hc, ?Hs, ?H2; done.
Qed.

(** The GPU is off after its shutdown, or quarantined. *)
Definition shut_down (stop : StopEnv) (gmu_stopped : bool) (h h' : HardwareState) : Prop :=
  (h'.(quiesce_failed) = true ∧ h'.(quarantine) = true) ∨
  (h'.(gpu_oob_held) = false ∧ (h.(gpu_oob_held) = true → halted stop ∧ gmu_stopped = true)).

Lemma quiesce_after {E} fuel stop gmu_stopped why h :
  stop_expires fuel stop → power_ok h → h.(boot) ≠ Cold →
  after (E:=E) (λ r h', r = Ok tt ∧ same_memory h h' ∧ power_ok h' ∧ h'.(boot) = Lost ∧
           h'.(lost_reason) = Some why ∧ shut_down stop gmu_stopped h h' ∧
           (h.(quarantine) = true → h'.(quarantine) = true))
    (quiesce_lost fuel stop gmu_stopped why) h.
Proof.
  intros Hstop [Hq Hp] Hb. destruct h as [bt rg ra cm ca cs sq fe fa wp fs oob qf lr lf q mm]; cbn in Hq, Hp, Hb.
  unfold after, quiesce_lost, andThen, is_ok, modify, ret, shut_down. destruct oob; cbn.
  - match goal with |- context [force_stop_gpu fuel stop ?h0] =>
      pose proof (force_stop_after fuel stop h0 Hstop) as Hf; unfold after in Hf;
      destruct (force_stop_gpu fuel stop h0) as [r h1] end.
    cbn [fst snd] in Hf. destruct Hf as (Hnp & [l ->] & Hh). cbn.
    destruct r as [[]|e|], gmu_stopped; [..|done|done]; cbn; (split_and!; [done|by constructor|by split|..]); auto.
  - destruct qf; cbn; (split_and!; [done|by constructor|by split|..]); auto; by right.
Qed.

(** ** One submission *)
Definition submission_words (addr count : Z) : list Z :=
  default [] (match submission_commands addr count with Ok ws => Some ws | _ => None end).

Lemma submission_commands_ok addr count :
  submission_commands addr count = Ok (submission_words addr count) ∧ len (submission_words addr count) = 10.
Proof.
  unfold submission_words, submission_commands.
  let v := eval vm_compute in (type7 opcode.EVENT_WRITE 1) in change (type7 opcode.EVENT_WRITE 1) with v.
  let v := eval vm_compute in (type7 CP_INDIRECT_BUFFER 3) in change (type7 CP_INDIRECT_BUFFER 3) with v.
  done.
Qed.

(** What the kernel puts in the ring for a submission. *)
Definition ring_stream (h : HardwareState) (words : list Z) : list Z :=
  (if len words =? 0 then [] else submission_words h.(command_addr) (len words))
  ++ completion_words h.(fence_addr) (next_sequence h).

(** The command buffer after staging. *)
Definition with_command (words : list Z) (h : HardwareState) : HardwareState :=
  if len words =? 0 then h else set_command (words ++ drop (length words) h.(command)) h.

Lemma with_command_wf words h :
  hw_wf h → len words * 4 ≤ h.(command_size) → hw_wf (with_command words h) ∧
  take (length words) (with_command words h).(command) = words.
Proof.
  intros [Hr Hc Hs Hq Hp] Hlen. unfold with_command. case_match eqn:E.
  - bool_to_prop. destruct words; [|done]. split; [by constructor|done].
  - split; [constructor; cbn; [by destruct Hr; constructor| |done..]|cbn; by rewrite take_app_length].
    rewrite len_app, <- Hc. unfold len in *. rewrite length_drop. zlia.
Qed.

(** [submit_words] once its guards hold is [execute_ring] from the staged
    command buffer. *)
Lemma submit_words_execute fuel env words h :
  hw_wf h → len words * 4 ≤ h.(command_size) →
  submit_words fuel env words h =
  match execute_ring fuel env (if len words =? 0 then [] else submission_words h.(command_addr) (len words))
          (len words) (with_command words h) with
  | (Ok _, h') => (Ok tt, h')
  | (Err error, h') => (do! _ := quiesce_lost fuel env.(e_stop) env.(e_gmu_stopped) error in
                        fail (DeviceLost error)) h'
  | (Panic, h') => (Panic, h')
  end.
Proof.
  intros [_ Hc Hs _ _] Hlen. pose proof (len_nonneg words) as Hn.
  unfold submit_words, andThen, lift, modify, ret, ok_or, require, checked_mul, map_error.
  rewrite (proj2 (Z.leb_le (len words) U32_MAX)) by (unfold U32_MAX; lia). cbv beta iota.
  rewrite (proj2 (Z.leb_le (len words * 4) U64_MAX)) by (unfold U64_MAX; lia). cbv beta iota.
  rewrite (proj2 (Z.ltb_ge (command_size h) (len words * 4))) by done. cbn [negb].
  destruct (submission_commands_ok (command_addr h) (len words)) as [-> _].
  unfold with_command. destruct (Z.eqb_spec (len words) 0) as [E|E].
  - by rewrite E.
  - rewrite (proj2 (Z.eqb_neq (len words * 4) 0)) by lia.
    rewrite (proj2 (Z.leb_le (len words) (len (command h)))) by zlia. done.
Qed.

Lemma staged_wf words h : hw_wf h → hw_wf (staged words h).
Proof.
  intros [[Hl Hw] Hc Hs Hq Hp]. pose proof (next_sequence_pos h). constructor; [constructor|..]; cbn; try done.
  - unfold len in *. by rewrite length_ring_store.
  - by apply Z.mod_pos_bound.
  - unfold u32. lia.
Qed.

Lemma diagnosed_wf h h' : diagnosed h h' → hw_wf h →
  hw_wf h' ∧ same_memory h h' ∧ h'.(boot) = h.(boot) ∧ h'.(quarantine) = h.(quarantine) ∧
  h'.(gpu_oob_held) = h.(gpu_oob_held).
Proof. intros (l & r & f & ->) [[] ? ? ? ?]. split_and!; [by constructor; [constructor|..]|by constructor|done..]. Qed.

(** Everything a submission that succeeded has to show. *)
Record retired (env : RingEnv) (words : list Z) (h h' : HardwareState) : Prop := {
  ret_command : take (length words) h'.(command) = words;
  ret_sequence : h'.(fence_sequence) = next_sequence h;
  ret_wptr : h'.(wptr) = (h.(wptr) + len (ring_stream h words)) mod RING_WORDS;
  ret_ring : ∀ i, (i < length (ring_stream h words))%nat →
    h'.(ring) !! Z.to_nat ((h.(wptr) + Z.of_nat i) mod RING_WORDS) = ring_stream h words !! i;
  ret_kick : ∃ l, h'.(mmio) = h.(mmio) ++ l ++ [(Reg.CP_RB_WPTR, h'.(wptr))];
  ret_fence : ∃ j, retired_at env.(e_polls) (next_sequence h) h'.(wptr) j;
  ret_ready : h'.(boot) = h.(boot) ∧ h'.(quarantine) = h.(quarantine);
}.

Lemma len_ring_stream h words : len (ring_stream h words) ≤ 17.
Proof.
  unfold ring_stream. rewrite len_app, len_completion_words. case_match; [done|].
  destruct (submission_commands_ok (command_addr h) (len words)) as [_ ->]. done.
Qed.

(** The memory and addresses that staging a command buffer does not touch. *)
Lemma staged_stream h words :
  staged (if len words =? 0 then [] else submission_words h.(command_addr) (len words)) (with_command words h)
  = ring_with (ring_stream h words) (set_fence 0 (set_fence_sequence (next_sequence h) (with_command words h))).
Proof. unfold staged, ring_stream, with_command. by case_match. Qed.

Lemma retired_intro env words h l j :
  hw_wf h → len words * 4 ≤ h.(command_size) →
  let h1 := ring_with (ring_stream h words) (set_fence 0 (set_fence_sequence (next_sequence h) (with_command words h))) in
  retired_at env.(e_polls) (next_sequence h) h1.(wptr) j →
  retired env words h (set_mmio (h.(mmio) ++ l ++ [(Reg.CP_RB_WPTR, h1.(wptr))]) h1).
Proof.
  intros Hwf Hlen h1 Hj. destruct (with_command_wf words h Hwf Hlen) as [_ Hcmd].
  destruct Hwf as [[Hl Hw] _ _ _ _]. pose proof (len_ring_stream h words) as H17.
  unfold with_command in *. split; cbn.
  - done.
  - done.
  - by case_match.
  - intros i Hi. rewrite <- (ring_store_lookup (ring_stream h words) (ring h) (wptr h) i Hw Hl);
      [by case_match|unfold RING_WORDS; lia|done].
  - by exists l.
  - by exists j.
  - by case_match.
Qed.

(** The outcome of [submit_words] after a boot, even if the GPU was lost since. *)
Lemma submit_after fuel env words h :
  hw_wf h → h.(boot) ≠ Cold → len words * 4 ≤ h.(command_size) → ring_expires fuel env →
  let '(r, h') := submit_words fuel env words h in
  hw_wf h' ∧ h'.(command_size) = h.(command_size) ∧ (h.(quarantine) = true → h'.(quarantine) = true) ∧
  match r with
  | Ok _ => retired env words h h'
  | Err e => ∃ why, e = DeviceLost why ∧ h'.(boot) = Lost ∧ h'.(lost_reason) = Some why ∧
      shut_down env.(e_stop) env.(e_gmu_stopped) h h'
  | Panic => False
  end.
Proof.
  intros Hwf Hready Hlen Hexp. rewrite submit_words_execute by done.
  destruct (with_command_wf words h Hwf Hlen) as [Hwf1 _].
  set (pre_words := if len words =? 0 then [] else submission_words h.(command_addr) (len words)).
  assert (len pre_words ≤ 10) as H10
    by (unfold pre_words; case_match; [done|]; by destruct (submission_commands_ok (command_addr h) (len words)) as [_ ->]).
  pose proof (execute_ring_after fuel env pre_words (len words) _ (wf_ring _ Hwf1) H10 Hexp) as Hex.
  unfold after in Hex. destruct (execute_ring _ _ _ _ _) as [r h1]. cbn [fst snd] in Hex.
  destruct Hex as (Hnp & Hd & Hok).
  destruct (diagnosed_wf _ _ Hd (staged_wf _ _ Hwf1)) as (Hwf2 & Hsm & Hb & Hq & Ho).
  assert (h1.(boot) = h.(boot) ∧ h1.(quarantine) = h.(quarantine) ∧ h1.(gpu_oob_held) = h.(gpu_oob_held)) as (Hb1 & Hq1 & Ho1)
    by (rewrite Hb, Hq, Ho; unfold staged, with_command; by case_match).
  assert (h1.(command_size) = h.(command_size)) as Hcs
    by (destruct Hsm as [_ _ _ _ Ha]; injection Ha as _ -> _ _; unfold staged, with_command; by case_match).
  destruct r as [[]|why|]; [|..|done].
  - split_and!; [done|done|by rewrite Hq1|]. destruct (Hok eq_refl) as (l & j & -> & Hj). clear Hok. unfold pre_words in *.
    rewrite staged_stream in *. replace (next_sequence (with_command words h)) with (next_sequence h) in Hj
      by (unfold with_command; by case_match).
    replace (mmio (with_command words h)) with (mmio h) by (unfold with_command; by case_match).
    by eapply retired_intro.
  - pose proof (quiesce_after (E:=GpuBackendSubmitError) fuel env.(e_stop) env.(e_gmu_stopped) why h1
      (proj2 (proj2 Hexp)) (wf_power _ Hwf2)) as Hqu. rewrite Hb1 in Hqu. specialize (Hqu Hready).
    unfold after in Hqu. unfold andThen. destruct (quiesce_lost _ _ _ _ h1) as [r h2]. cbn [fst snd] in Hqu.
    destruct Hqu as (-> & Hsm2 & Hp & Hl & Hr & Hc & Hm). cbn. unfold shut_down in Hc.
    rewrite Hq1 in Hm. rewrite Ho1 in Hc. split_and!; [by eapply same_memory_wf| |done|eauto 10].
    destruct Hsm2 as [_ _ _ _ Ha2]. injection Ha2. congruence.
Qed.
End HwFacts.
