(* ===== verification/Protection.v ===== *)
(** * The validator against the register protection of the command processor

    [backend.rs] programs [CP_PROTECT] before the command processor starts:
    ranges of registers that commands of a user context cannot write.  A write
    to one of them faults the GPU, for every context.  Here the ranges are
    decoded, and the allowlist of [submit.rs] is shown to keep clear of them;
    the kernel's own packets in the ring are shown to be what they should be. *)
From stdpp Require Import gmap.
From S2P Require Import Prelude Pm4 ShaderPack SubmitWire SubmitWireFacts SubmitTypes SubmitPackets SubmitPacketFacts.
From S2P Require Import SubmitRelocate SubmitSafety SubmitSample SubmitConfinement PendingQueue Registers Hardware HardwareFacts.

Module Protect.
Import Hw HwFacts.

(** The first register of an entry and the number of registers after it. *)
Definition entry_base (v : Z) : Z := v .& 0x3ffff.
Definition entry_length (v : Z) : Z := (v >> 18) .& 0x1fff.

(** A write of [r] is refused: some programmed entry covers it. *)
Definition protected_register (r : Z) : Prop :=
  ∃ v, v ∈ CP_PROTECT ∧ entry_base v ≤ r ≤ entry_base v + entry_length v.

(** No entry meets the [n] registers from [r]. *)
Definition unprotected (r n : Z) : bool :=
  forallb (λ v, (r + n <=? entry_base v) || (entry_base v + entry_length v <? r)) CP_PROTECT.

Lemma unprotected_spec r n i :
  unprotected r n = true → 0 ≤ i < n → ¬ protected_register (r + i).
Proof.
  unfold unprotected. rewrite forallb_forall. intros H Hi (v & Hv & Hb & Hl).
  apply list_elem_of_In in Hv. specialize (H v Hv). apply orb_true_iff in H as [?%Z.leb_le|?%Z.ltb_lt]; lia.
Qed.

(** No range of the allowlist meets a programmed entry. *)
Lemma ranges_unprotected : forallb (λ '(l, n), forallb (λ r, unprotected r n) l) TYPE4_RANGES = true.
Proof. vm_compute. reflexivity. Qed.

(** The one register that a command other than a register write reaches. *)
Lemma render_cntl_unprotected : ¬ protected_register RB_RENDER_CNTL.
Proof.
  replace RB_RENDER_CNTL with (RB_RENDER_CNTL + 0) by done.
  eapply (unprotected_spec _ 1); [vm_compute; reflexivity|done].
Qed.

(** C18: Accepted commands never write a protected register.  Whatever the
    attached objects are, what each packet of an accepted submission writes
    to registers after relocation is known: the consecutive registers of a
    type 4 packet, the register that CP_REG_WRITE names, and nothing for the
    other commands that the allowlist passes.  All of these registers lie
    outside the ranges that the driver programs into the protection unit, so
    no user context can raise the fault that would lose the GPU for all of
    them. *)
Theorem accepted_writes_unprotected resolve resolve_shader strict bytes out :
  objects_wf resolve resolve_shader → Forall u8 bytes →
  validate_and_relocate resolve resolve_shader strict bytes = Ok out →
  ∃ packets, collect_packets out = Ok packets ∧
    ∀ p, p ∈ packets → ∃ writes, register_writes p = Some writes ∧
      ∀ r v, writes !! r = Some v → ¬ protected_register r.
Proof.
  intros Hobj Hb H.
  destruct (validate_and_relocate_admitted _ _ _ _ _ Hobj Hb H) as (d & s & ps & l & res & Hd & Hs & Hadm).
  destruct (admitted_packets _ _ _ _ _ _ _ Hadm) as (_ & Hout & Hsame).
  exists (reread 0 out <$> ps). split; [done|]. intros p' (p & -> & Hp)%list_elem_of_fmap.
  pose proof (adm_validated _ _ _ _ _ _ _ Hadm) as Hv. pose proof (val_accepted _ _ _ Hv p Hp) as Ha.
  destruct (admitted_same _ _ _ _ _ _ _ _ Hadm Hp) as [Hpp _].
  destruct (written_registers p _ Ha Hpp) as (ws & Hw & Hws). exists ws. split; [done|]. intros r v Hr.
  destruct (header p) as [b c|o c] eqn:Hh.
  - subst ws. apply mk_is_Some, lookup_map_seqZ_is_Some in Hr. rewrite (same_length _ _ Hpp) in Hr.
    destruct (stream_type4_count _ _ _ p b c (val_stream _ _ _ Hv) Hp Hh).
    destruct (accepted_range unprotected p b c ranges_unprotected Ha Hh) as (n & Hn & Hc); [lia|].
    replace r with (b + (r - b)) by lia. eapply unprotected_spec; [exact Hc|unfold len in *; lia].
  - destruct (decide (r = RB_RENDER_CNTL)) as [->|Hne]; [apply render_cntl_unprotected|].
    by rewrite (Hws r Hne) in Hr.
Qed.

Lemma accepted_writes_unprotected_witness :
  ∃ packets, collect_packets draw_out = Ok packets ∧
    ∀ p, p ∈ packets → ∃ writes, register_writes p = Some writes ∧
      ∀ r v, writes !! r = Some v → ¬ protected_register r.
Proof. exact (accepted_writes_unprotected _ _ _ _ _ sample_objects_wf draw_bytes_u8 draw_accepted). Defined.

(** ** The kernel's packets *)
Definition event (opcode_count : Z) (body : list Z) (off : Z) : Packet :=
  MkPacket (Type7 opcode.EVENT_WRITE opcode_count) body off.

(** The packets of a submission: invalidate the caches, call the command
    buffer, write the sequence to the scratch register, then flush and write
    it to the fence with an interrupt. *)
Definition preamble_packets (command_address count : Z) : list Packet :=
  [event 1 [EVENT_CACHE_INVALIDATE] 0; event 1 [EVENT_CCU_INVALIDATE_DEPTH] 2;
   event 1 [EVENT_CCU_INVALIDATE_COLOR] 4;
   MkPacket (Type7 CP_INDIRECT_BUFFER 3) [as_u32 command_address; as_u32 (command_address >> 32); count] 6].

Definition completion_packets (fence_address seq off : Z) : list Packet :=
  [MkPacket (Type4 Reg.CP_SCRATCH_2 1) [seq] off;
   event 4 [EVENT_CACHE_FLUSH_TS .| CP_EVENT_WRITE_IRQ; as_u32 fence_address;
            as_u32 (fence_address >> 32); seq] (off + 2)].

Definition stream_packets (h : HardwareState) (words : list Z) : list Packet :=
  if len words =? 0 then completion_packets h.(fence_addr) (next_sequence h) 0
  else preamble_packets h.(command_addr) (len words)
       ++ completion_packets h.(fence_addr) (next_sequence h) 10.

Lemma stream_packet off w h body rest ps ws off' :
  ws = w :: body ++ rest → decode_header w = Ok h → len body = header_count h →
  off' = off + 1 + header_count h → stream off' rest ps → stream off ws (MkPacket h body off :: ps).
Proof. intros -> ? ? -> ?. by constructor. Qed.

Ltac next_packet :=
  eapply stream_packet; [cbn [app]; reflexivity|vm_compute; reflexivity|reflexivity|cbn [header_count]; reflexivity|].

Lemma completion_stream addr seq off : stream off (completion_words addr seq) (completion_packets addr seq off).
Proof.
  unfold completion_words, completion_commands, completion_packets, event.
  let v := eval vm_compute in (type4 Reg.CP_SCRATCH_2 1) in change (type4 Reg.CP_SCRATCH_2 1) with v.
  let v := eval vm_compute in (type7 opcode.EVENT_WRITE 4) in change (type7 opcode.EVENT_WRITE 4) with v.
  cbn [map_err bind default]. next_packet. replace (off + 2) with (off + 1 + 1) by lia. next_packet. constructor.
Qed.

Lemma preamble_stream addr count rest ps :
  stream 10 rest ps → stream 0 (submission_words addr count ++ rest) (preamble_packets addr count ++ ps).
Proof.
  intros Hs. unfold submission_words, submission_commands, preamble_packets, event.
  let v := eval vm_compute in (type7 opcode.EVENT_WRITE 1) in change (type7 opcode.EVENT_WRITE 1) with v.
  let v := eval vm_compute in (type7 CP_INDIRECT_BUFFER 3) in change (type7 CP_INDIRECT_BUFFER 3) with v.
  cbn [map_err bind default app]. next_packet. next_packet. next_packet. next_packet. done.
Qed.

(** What the kernel puts in the ring for a submission parses as the packets
    it means: cache invalidations, one call of the command buffer with its
    address and exact length, the scratch write and the fence write of the same
    sequence; an empty submission is only the fence. *)
Theorem kernel_ring_packets h words :
  collect_packets (ring_stream h words) = Ok (stream_packets h words).
Proof.
  pose proof (len_ring_stream h words) as Hl.
  apply collect_packets_complete; [unfold U32_MAX; lia|]. unfold ring_stream, stream_packets.
  case_match; [apply completion_stream|]. apply preamble_stream, completion_stream.
Qed.
End Protect.
