(* ===== verification/BootFacts.v ===== *)
(** * Properties of the boot sequence and the power states

    The order in which a boot programs the GPU, and the invariant of the power
    states over every sequence of operations that take the hardware lock. *)
From stdpp Require Import list.
From S2P Require Import Prelude Pm4 PendingQueue Registers Hardware HardwareFacts.

Module Boot.
Import Hw HwFacts.
#[local] Arguments force_stop_gpu : simpl never.
#[local] Arguments write_ring : simpl never.
#[local] Arguments initialize_nonprivileged_mmio : simpl never.

(** The waits of a boot end. *)
Definition boot_expires (fuel : nat) (env : BootEnv) : Prop :=
  expires GPU_INTERRUPT_CLEAR_TIMEOUT_US fuel env.(b_clear) ∧
  (∃ j, (j < fuel)%nat ∧ GPU_TIMEOUT_US ≤ (env.(b_idle) j).(i_now) - env.(b_idle_start)) ∧
  stop_expires fuel env.(b_stop).

(** The command processor has been started from a checked firmware, after the
    registers were programmed. *)
Record programmed (h h1 : HardwareState) : Prop := {
  pr_firmware : ∃ addr instructions, h1.(sqe) = Some (addr, instructions) ∧
    sqe_version_is_secure instructions = true ∧ len instructions mod 4 = 0;
  pr_mmio : h1.(mmio) = h.(mmio) ++ initialize_nonprivileged_mmio h1 ++ [(Reg.CP_SQE_CNTL, 1)];
  pr_ring : Forall (λ w, w = 0) h1.(ring) ∧ h1.(wptr) = 0;
}.

Lemma prepare_after env h :
  ring_wf h →
  after (λ r h', r ≠ Panic ∧ ring_wf h' ∧ h' = set_sqe h'.(sqe) (set_ring h'.(ring) (set_wptr h'.(wptr) (set_mmio h'.(mmio) h))) ∧
           (r = Ok tt → programmed h h') ∧ (r ≠ Ok tt → h'.(mmio) = h.(mmio)))
    (prepare_sqe env) h.
Proof.
  intros [Hl Hw]. unfold after, prepare_sqe, andThen, lift, modify, log, require.
  destruct (b_restore_iommu env); cbn; [|by destruct h].
  destruct (b_firmware env) as [e|fw]; cbn; [by destruct h|].
  destruct (get_range fw 4 (len fw)) as [bytes|]; cbn; [|by destruct h].
  destruct (negb (len bytes =? 0) && (len bytes .& 3 =? 0)) eqn:Hb; cbn; [|by destruct h].
  destruct (sqe_version_is_secure bytes) eqn:Hsec; cbn; [|by destruct h].
  destruct (b_sqe_alloc env) as [e|addr]; cbn; [by destruct h|].
  assert (len (replicate (length (ring h)) 0) = RING_WORDS) as Hr by (rewrite len_replicate; exact Hl).
  split_and!; [done|by constructor|done| |done]. intros _. split; cbn.
  - exists addr, bytes. split_and!; [done..|]. bool_to_prop. by rewrite <- (land_mask _ 3 2).
  - by rewrite <- app_assoc.
  - split; [by apply Forall_replicate|done].
Qed.

(** What starting the command processor leaves alone. *)
Record booting (h h' : HardwareState) : Prop := {
  bo_ring : ring_wf h';
  bo_power : (h'.(boot), h'.(gpu_oob_held), h'.(quiesce_failed), h'.(quarantine))
             = (h.(boot), h.(gpu_oob_held), h.(quiesce_failed), h.(quarantine));
  bo_command : (h'.(command), h'.(command_size), h'.(fence_sequence), h'.(sqe))
               = (h.(command), h.(command_size), h.(fence_sequence), h.(sqe));
  bo_mmio : h.(mmio) `prefix_of` h'.(mmio);
}.

Lemma diagnosed_booting words h h' :
  ring_wf h → len words < RING_WORDS → diagnosed (ring_with words h) h' → booting h h'.
Proof.
  intros [Hl Hw] Hn (l & r & f & ->). split; cbn; [|done|done|by apply prefix_app_r].
  constructor; cbn; [unfold len in *; by rewrite length_ring_store|by apply Z.mod_pos_bound].
Qed.

Lemma start_after fuel env h :
  ring_wf h → boot_expires fuel env →
  after (λ r h', r ≠ Panic ∧ booting h h') (start_sqe fuel env) h.
Proof.
  intros Hwf (Hclear & Hidle & _). unfold start_sqe.
  let v := eval vm_compute in (type7 opcode.ME_INIT 8) in change (type7 opcode.ME_INIT 8) with v.
  apply after_andThen. unfold after at 1, lift. cbn [map_err fst snd]. cbv zeta.
  match goal with |- after _ (andThen (write_ring _ _ ?w) _) _ => set (me_init := w) end.
  assert (len me_init < RING_WORDS) as Hlen by done.
  apply after_andThen. eapply after_mono; [by apply write_ring_after|]. cbv beta.
  intros [target|e|] h1 Hr; [|split; [done|]; eapply diagnosed_booting; [done|done|by apply only_mmio_diagnosed]|done].
  destruct Hr as [-> [l ->]]. apply after_andThen.
  eapply after_mono; [apply idle_loop_total; destruct Hidle as (j & ? & ?); exists j; split; [lia|done]|]. cbv beta.
  intros r h2 [Hnp Hd].
  assert (diagnosed (ring_with me_init h) h2) as Hd2.
  { etrans; [|done]. apply only_mmio_diagnosed. by eexists. }
  destruct r as [[]|e|]; [|split; [done|by eapply diagnosed_booting]|done].
  split; [done|]. eapply diagnosed_booting; [done|done|]. etrans; [done|].
  apply only_mmio_diagnosed, only_mmio_log.
Qed.

(** The end of a boot that failed, with the GPU powered. *)
Lemma boot_failed_after fuel env started error h :
  stop_expires fuel env.(b_stop) → h.(quarantine) = false → h.(gpu_oob_held) = true →
  after (λ r h', ∃ e, r = Err e ∧ same_memory h h' ∧ power_ok h' ∧ h'.(sqe) = h.(sqe) ∧ h'.(boot) ≠ Ready ∧
           (started = true → e = DeviceLost error ∧ h'.(boot) = Lost) ∧
           (h'.(quarantine) = false → env.(b_gmu_stopped) = true ∧ (started = true → halted env.(b_stop))))
    (boot_failed fuel env started error) h.
Proof.
  intros Hstop Hq Hoob. destruct h as [bt rg ra cm ca cs sq fe fa wp fs oob qf lr lf q mm]; cbn in Hq, Hoob; subst oob q.
  unfold after, boot_failed, andThen, is_ok, modify, ret, fail. destruct started; cbn.
  - match goal with |- context [force_stop_gpu fuel ?st ?h0] =>
      pose proof (force_stop_after fuel st h0 Hstop) as Hf; unfold after in Hf;
      destruct (force_stop_gpu fuel st h0) as [r h1] end.
    cbn [fst snd] in Hf. destruct Hf as (Hnp & [l ->] & Hh). cbn.
    destruct r as [[]|e|], (b_gmu_stopped env); [..|done|done]; cbn; eexists;
      (split_and!; [done|by constructor|..]); try done; auto.
  - destruct (b_gmu_stopped env); cbn; eexists; (split_and!; [done|by constructor|..]); done.
Qed.

Lemma rebuilt_wf h h' :
  hw_wf h → ring_wf h' → power_ok h' →
  (h'.(command), h'.(command_size), h'.(fence_sequence)) = (h.(command), h.(command_size), h.(fence_sequence)) →
  hw_wf h'.
Proof. intros [_ Hc Hs Hq _] Hr Hp [= H1 H2 H3]. by constructor; rewrite ?H1, ?H2, ?H3. Qed.

Lemma boot_failed_wf fuel env started error h0 h :
  hw_wf h0 → stop_expires fuel env.(b_stop) → ring_wf h → h.(quarantine) = false → h.(gpu_oob_held) = true →
  (h.(command), h.(command_size), h.(fence_sequence)) = (h0.(command), h0.(command_size), h0.(fence_sequence)) →
  after (λ r h', hw_wf h' ∧ h'.(command_size) = h0.(command_size) ∧
           match r with Err _ => h'.(boot) ≠ Ready | _ => False end)
    (boot_failed fuel env started error) h.
Proof.
  intros Hwf Hstop Hr Hq Hoob Hc. eapply after_mono; [by apply boot_failed_after|]. cbv beta.
  intros r h' (e & -> & [Hr' Hw Hc' Hs Ha] & Hp & _ & Hb & _).
  injection Hc as H1 H2 H3. injection Ha as _ H4 _ _. destruct Hr. split; [|split; [congruence|done]].
  apply (rebuilt_wf h0); [done|constructor; by rewrite ?Hr', ?Hw|done|congruence].
Qed.

(** A boot that powered the GPU. *)
Lemma boot_powered_after fuel env h :
  hw_wf h → h.(boot) = Cold → boot_expires fuel env →
  after (λ r h', hw_wf h' ∧ h'.(command_size) = h.(command_size) ∧
           match r with
           | Panic => False
           | Ok _ => h'.(boot) = Ready ∧ ∃ h1, programmed h h1 ∧ h1.(mmio) `prefix_of` h'.(mmio) ∧ h'.(sqe) = h1.(sqe)
           | Err e => h'.(boot) ≠ Ready
           end) (boot_powered fuel env) h.
Proof.
  intros Hwf Hcold Hexp. pose proof (wf_power _ Hwf) as [Hqf Hp]. rewrite Hcold in Hp. destruct Hp as [_ Hq].
  unfold boot_powered. apply after_andThen. unfold after at 1, modify. cbn [fst snd].
  destruct (prepare_after env (set_gpu_oob_held true h)) as (Hnp & Hr1 & He1 & Hok & _);
    [by destruct Hwf as [[] ? ? ? ?]; constructor|].
  unfold after. destruct (prepare_sqe env _) as [r1 h1]. cbn [fst snd] in *.
  destruct r1 as [[]|e|]; [|rewrite He1; rewrite He1 in Hr1; eapply after_mono;
    [apply (boot_failed_wf _ _ _ _ h); [done|apply Hexp|done..]|cbv beta; intros []; naive_solver]|done].
  specialize (Hok eq_refl).
  destruct (start_after fuel env h1 Hr1 Hexp) as [Hnp2 [Hr2 Hpo Hco Hmm]].
  destruct (start_sqe fuel env h1) as [r2 h2]. cbn [fst snd] in *.
  assert (h2.(quarantine) = false ∧ h2.(gpu_oob_held) = true ∧ (h2.(quiesce_failed) = true → h2.(quarantine) = true))
    as (Hq2 & Ho2 & Hqf2)
    by (rewrite He1 in Hpo; injection Hpo as _ -> -> ->; cbn; by split_and!).
  assert ((h2.(command), h2.(command_size), h2.(fence_sequence)) = (h.(command), h.(command_size), h.(fence_sequence))) as Hc2
    by (rewrite He1 in Hco; injection Hco as -> -> -> _; done).
  destruct r2 as [[]|e|]; [|eapply after_mono;
    [apply (boot_failed_wf _ _ _ _ h); [done|apply Hexp|done..]|cbv beta; intros []; naive_solver]|done].
  cbn. split; [|split; [by injection Hc2|split; [done|]]].
  - apply (rebuilt_wf h); [done|by destruct Hr2; constructor|by split|done].
  - exists h1. split_and!; [|done|by injection Hco].
    destruct Hok as [Hf Hm Hr]. by constructor.
Qed.

Lemma boot_refused_after env error h :
  hw_wf h → h.(boot) = Cold →
  after (λ r h', hw_wf h' ∧ h'.(command_size) = h.(command_size) ∧
           match r with Err _ => h'.(boot) ≠ Ready | _ => False end) (boot_refused env error) h.
Proof.
  intros [[] ? ? ? [Hqf Hp]] Hc. rewrite Hc in Hp. destruct Hp as [Ho Hq].
  unfold after, boot_refused, andThen, modify, fail. destruct (b_gmu_stopped env); cbn;
    (split; [|done]); (constructor; [constructor|..]); try done; split; cbn; try done; congruence.
Qed.

(** The registers written before the command processor starts. *)
Record protected_start (before : list (Z * Z)) : Prop := {
  ps_entries : ∀ i v, CP_PROTECT !! i = Some v → (Reg.CP_PROTECT_BASE + Z.of_nat i, v) ∈ before;
  ps_enabled : (Reg.CP_PROTECT_CNTL, 11) ∈ before;
  ps_first : ∀ r v, (r, v) ∈ before → r ≠ Reg.CP_SQE_CNTL ∧ (r = Reg.CP_RB_WPTR → v = 0);
}.

Lemma elem_write x r v : x ∈ Reg.write r v ↔ x = (r, v).
Proof. apply list_elem_of_singleton. Qed.

Lemma elem_write64 x r v :
  x ∈ Reg.write64 r v ↔ x = (r, as_u32 v) ∨ x = (r + 1, as_u32 (v >> 32)).
Proof. unfold Reg.write64. by rewrite elem_of_app, !elem_write. Qed.

(** The writes whose value depends on an address, apart from the others. *)
Lemma initialize_split h :
  ∃ pre post, initialize_nonprivileged_mmio h =
    pre ++ match h.(sqe) with Some (addr, _) => Reg.write64 Reg.CP_SQE_INSTR_BASE addr | None => [] end
    ++ Reg.write64 Reg.CP_RB_BASE h.(ring_addr) ++ post ∧
    Forall (.∈ pre) (imap (λ i v, (Reg.CP_PROTECT_BASE + Z.of_nat i, v)) CP_PROTECT) ∧
    (Reg.CP_PROTECT_CNTL, 11) ∈ pre ∧
    forallb (λ '(r, v), negb (r =? Reg.CP_SQE_CNTL) && (negb (r =? Reg.CP_RB_WPTR) || (v =? 0))) (pre ++ post) = true.
Proof.
  unfold initialize_nonprivileged_mmio.
  eexists _, _. split; [rewrite !(app_assoc _ _ (match sqe h with Some _ => _ | None => _ end ++ _)); reflexivity|].
  split_and!; [apply (bool_decide_unpack _); vm_compute; exact I..|vm_compute; reflexivity].
Qed.

Lemma initialize_protects h : protected_start (initialize_nonprivileged_mmio h).
Proof.
  destruct (initialize_split h) as (pre & post & -> & Hent & Hen & Hall).
  rewrite forallb_forall in Hall.
  assert (∀ r v, (r, v) ∈ pre ∨ (r, v) ∈ post → r ≠ Reg.CP_SQE_CNTL ∧ (r = Reg.CP_RB_WPTR → v = 0)) as Hin.
  { intros r v Hrv. specialize (Hall (r, v)). cbn in Hall. rewrite <- list_elem_of_In, elem_of_app in Hall.
    specialize (Hall Hrv). apply andb_true_iff in Hall as [?%negb_true_iff%Z.eqb_neq Hz].
    split; [done|]. intros ->. apply orb_true_iff in Hz as [?%negb_true_iff%Z.eqb_neq|?%Z.eqb_eq]; done. }
  constructor.
  - intros i v Hi. rewrite elem_of_app. left. rewrite Forall_forall in Hent. apply Hent.
    apply elem_of_lookup_imap. eauto.
  - rewrite elem_of_app. by left.
  - intros r v. rewrite !elem_of_app, elem_write64.
    intros [?|[Hs|[[[= -> ->]|[= -> ->]]|?]]]; [by apply Hin; left| |done..|by apply Hin; right].
    destruct (sqe h) as [[addr b]|]; [|by apply elem_of_nil in Hs].
    apply elem_write64 in Hs as [[= -> ->]|[= -> ->]]; done.
Qed.

Lemma ensure_after fuel env h :
  hw_wf h → boot_expires fuel env →
  let '(r, h') := ensure_hardware_ready fuel env h in
  hw_wf h' ∧ h'.(command_size) = h.(command_size) ∧ (h.(boot) ≠ Cold → h' = h) ∧
  match r with
  | Panic => False
  | Ok _ => h'.(boot) = Ready ∧ (h.(boot) = Cold →
      ∃ h1, programmed h h1 ∧ h1.(mmio) `prefix_of` h'.(mmio) ∧ h'.(sqe) = h1.(sqe))
  | Err _ => h'.(boot) ≠ Ready
  end.
Proof.
  intros Hwf Hexp. unfold ensure_hardware_ready.
  destruct (boot h) eqn:Hb; [|by split_and!|split_and!; [done..|by rewrite Hb]].
  destruct (b_no_zap env); cbn [negb]; [|split_and!; [done..|by rewrite Hb]].
  unfold andThen, lift. destruct (b_set_peak env) as [e|[]]; cbn [result map_error]; [split_and!; [done..|by rewrite Hb]|].
  destruct (b_ensure_ready env) as [e|[]]; cbn [result map_error]; [split_and!; [done..|by rewrite Hb]|].
  destruct (b_begin_boot env) as [e|[]].
  - pose proof (boot_refused_after env e h Hwf Hb) as H. unfold after in H.
    destruct (boot_refused env e h) as [[] h']; cbn in H; destruct H as (? & ? & ?); done.
  - pose proof (boot_powered_after fuel env h Hwf Hb Hexp) as H. unfold after in H.
    destruct (boot_powered fuel env h) as [r h']. cbn [fst snd] in H. destruct H as (Hwf' & Hcs & H).
    split_and!; [done..|]. destruct r as [[]|e|]; [|done..]. destruct H as [Hr H]. by split.
Qed.

(** C19: The outcome of [ensure_hardware_ready], for any behaviour of the board
    whose clock advances.  It returns.  A cold boot that succeeds has checked
    the firmware's version and loaded it, and programmed every protection entry
    and enabled protection before it started the command processor, which had
    not been given any ring work.  A GPU that is ready or lost is left as it is.
    A boot that fails leaves the GPU cold or lost, never ready, and in all cases
    the state is well formed: a lost GPU that was not shut down is
    quarantined. *)
Theorem boot_outcome fuel env h :
  hw_wf h → boot_expires fuel env →
  let '(r, h') := ensure_hardware_ready fuel env h in
  hw_wf h' ∧ (h.(boot) ≠ Cold → h' = h) ∧
  match r with
  | Panic => False
  | Ok _ => h'.(boot) = Ready ∧ (h.(boot) = Cold →
      (∃ addr firmware, h'.(sqe) = Some (addr, firmware) ∧ sqe_version_is_secure firmware = true) ∧
      ∃ before later, h'.(mmio) = h.(mmio) ++ before ++ (Reg.CP_SQE_CNTL, 1) :: later ∧ protected_start before)
  | Err _ => h'.(boot) ≠ Ready
  end.
Proof.
  intros Hwf Hexp. pose proof (ensure_after fuel env h Hwf Hexp) as H.
  destruct (ensure_hardware_ready fuel env h) as [r h']. destruct H as (Hwf' & _ & Hsame & H).
  split_and!; [done..|]. destruct r as [[]|e|]; [|done..]. destruct H as [Hr Hcold]. split; [done|].
  intros (h1 & [(addr & ins & Hsq & Hsec & _) Hmm _] & [later Hl] & Hs)%Hcold.
  split; [exists addr, ins; by rewrite Hs|]. eexists _, later.
  split; [|apply (initialize_protects h1)]. rewrite Hl, Hmm. by rewrite <- !app_assoc.
Qed.

(** C8: The outcome of one submission, for any behaviour of the hardware whose
    clock advances, also when the GPU was lost since [ensure_hardware_ready]
    returned.  The call returns.  If it succeeds, the command buffer holds the
    words, the ring holds the kernel's packets at the old write pointer, the
    GPU was started by a last write of the new write pointer, and some poll saw
    the fence word and the scratch register equal to this submission's nonzero
    sequence, the ring consumed and the GPU idle, with no fault reported before.
    If it fails, the error is [DeviceLost], the GPU is lost, and it is
    quarantined or off, and then off only because its buses acknowledged the
    halt and the GMU stopped, unless it was off already. *)
Theorem submission_outcome fuel env words h :
  hw_wf h → h.(boot) ≠ Cold → ring_expires fuel env → len words * 4 ≤ h.(command_size) →
  let '(r, h') := submit_words fuel env words h in
  hw_wf h' ∧
  match r with
  | Ok _ => retired env words h h' ∧ next_sequence h ≠ 0
  | Err e => ∃ why, e = DeviceLost why ∧ h'.(boot) = Lost ∧ h'.(lost_reason) = Some why ∧
      shut_down env.(e_stop) env.(e_gmu_stopped) h h'
  | Panic => False
  end.
Proof.
  intros Hwf Hb Hr Hlen. pose proof (submit_after fuel env words h Hwf Hb Hlen Hr) as Hs.
  destruct (submit_words fuel env words h) as [r h']. destruct Hs as (Hwf' & _ & _ & Hs). split; [done|].
  destruct r as [[]|e|]; [|done..]. split; [done|]. pose proof (next_sequence_pos h). lia.
Qed.

(** ** The power states over time

    The operations that take the hardware lock.  A submission follows a boot
    that returned [Ok], so the GPU is no longer cold, but the lock is released
    in between. *)
Inductive hw_step (fuel : nat) (h : HardwareState) : HardwareState → Prop :=
| step_ensure env : boot_expires fuel env → hw_step fuel h (ensure_hardware_ready fuel env h).2
| step_submit env words :
    h.(boot) ≠ Cold → ring_expires fuel env → len words * 4 ≤ h.(command_size) →
    hw_step fuel h (submit_words fuel env words h).2
| step_frequency stop gmu_stopped vote :
    stop_expires fuel stop → hw_step fuel h (set_frequency_khz fuel stop gmu_stopped vote h).2.

Lemma frequency_after fuel stop gmu_stopped vote h :
  hw_wf h → stop_expires fuel stop →
  let '(r, h') := set_frequency_khz fuel stop gmu_stopped vote h in
  r ≠ Panic ∧ hw_wf h' ∧ h'.(command_size) = h.(command_size) ∧ (h.(boot) ≠ Ready → h' = h) ∧
  (h'.(boot) = Ready ∨ h'.(boot) = h.(boot) ∨ h'.(boot) = Lost).
Proof.
  intros Hwf Hs. unfold set_frequency_khz. destruct (boot h) eqn:Hb; [by split_and!; auto| |by split_and!; auto].
  destruct vote as [why|[]]; [|by split_and!; auto]. unfold andThen.
  pose proof (quiesce_after (E:=string) fuel stop gmu_stopped why h Hs (wf_power _ Hwf) ltac:(by rewrite Hb)) as H.
  unfold after in H. destruct (quiesce_lost fuel stop gmu_stopped why h) as [r h']. cbn [fst snd] in H.
  destruct H as (-> & Hsm & Hpo & Hl & _). cbn.
  split_and!; [done|by eapply same_memory_wf|by destruct Hsm as [_ _ _ _ [= ]]|done|auto].
Qed.

Lemma hw_step_wf fuel h h' :
  hw_wf h → hw_step fuel h h' →
  hw_wf h' ∧ h'.(command_size) = h.(command_size) ∧ (h.(boot) = Lost → h'.(boot) = Lost) ∧
  (h.(boot) ≠ Cold → h'.(boot) ≠ Cold) ∧ (h.(quarantine) = true → h'.(quarantine) = true).
Proof.
  intros Hwf Hstep.
  assert (h.(boot) ≠ Cold ∨ h.(quarantine) = false) as Hcq
    by (destruct (wf_power _ Hwf) as [_ Hp]; destruct (boot h); naive_solver).
  destruct Hstep as [env He|env words Hb Hr Hl|stop g vote Hs].
  - pose proof (ensure_after fuel env h Hwf He) as H. destruct (ensure_hardware_ready _ _ _) as [r h'].
    destruct H as (? & ? & Hsame & _). cbn. split_and!; [done..| | |]; intros Hx.
    + by rewrite (Hsame ltac:(by rewrite Hx)).
    + by rewrite Hsame.
    + destruct Hcq as [Hc|Hc]; [by rewrite Hsame|congruence].
  - pose proof (submit_after fuel env words h Hwf Hb Hl Hr) as H.
    destruct (submit_words fuel env words h) as [r h']. destruct H as (Hwf' & Hcs & Hq & H). cbn.
    destruct r as [[]|e|]; [|..|done].
    + destruct H as [_ _ _ _ _ _ [Hb' _]]. rewrite Hb'. by split_and!.
    + destruct H as (why & _ & -> & _). by split_and!.
  - pose proof (frequency_after fuel stop g vote h Hwf Hs) as H.
    destruct (set_frequency_khz _ _ _ _ _) as [r h']. destruct H as (_ & ? & ? & Hsame & H). cbn.
    destruct (decide (h.(boot) = Ready)) as [Hr|Hr]; [|by rewrite (Hsame Hr)].
    destruct (wf_power _ Hwf) as [_ Hp]. rewrite Hr in Hp, H. destruct Hp as [_ Hq].
    split_and!; try done; try congruence. destruct H as [->|[->| ->]]; done.
Qed.

Lemma not_ready_off h : hw_wf h → h.(boot) ≠ Ready → h.(quarantine) = true ∨ h.(gpu_oob_held) = false.
Proof.
  intros [_ _ _ _ [Hq Hp]] Hb. destruct (boot h); [right; by destruct Hp|done|].
  destruct (quiesce_failed h); auto.
Qed.

Lemma drop_core_after fuel stop gmu_stopped h :
  stop_expires fuel stop →
  let '(r, h') := drop_core fuel stop gmu_stopped h in
  (r = Ok FailStopped ∨ r = Ok Released) ∧
  (r = Ok Released → h.(quiesce_failed) = false ∧ h'.(gpu_oob_held) = false ∧
     (h.(gpu_oob_held) = true → halted stop ∧ gmu_stopped = true)).
Proof.
  intros Hs. unfold drop_core. destruct (quiesce_failed h); [by split; [left|]|].
  destruct (gpu_oob_held h) eqn:Ho; [|by split; [right|]].
  unfold andThen, is_ok. pose proof (force_stop_after fuel stop h Hs) as Hf. unfold after in Hf.
  destruct (force_stop_gpu fuel stop h) as [r h1]. cbn [fst snd] in Hf. destruct Hf as (Hnp & _ & Hh).
  destruct r as [[]|e|]; [|by split; [left|]|done].
  destruct gmu_stopped; cbn; [|by split; [left|]]. split; [by right|auto].
Qed.

(** C20: The power states of the GPU over any sequence of boots, submissions and
    frequency changes.  A ready GPU is powered and not quarantined; a GPU that
    is neither ready nor quarantined is off; nothing leaves the lost state or
    lifts a quarantine; and tearing the driver down releases DMA memory only
    when no shutdown failed and the GPU was off or its buses acknowledged the
    halt and the GMU stopped; otherwise the driver stops for ever. *)
Theorem power_invariant fuel h0 h :
  hw_wf h0 → rtc (hw_step fuel) h0 h →
  hw_wf h ∧
  (h.(boot) = Ready → h.(gpu_oob_held) = true ∧ h.(quarantine) = false) ∧
  (h.(boot) ≠ Ready → h.(quarantine) = true ∨ h.(gpu_oob_held) = false) ∧
  (h0.(boot) = Lost → h.(boot) = Lost) ∧ (h0.(quarantine) = true → h.(quarantine) = true ∧ h.(boot) = Lost) ∧
  ∀ stop gmu_stopped, stop_expires fuel stop →
    let '(r, h') := drop_core fuel stop gmu_stopped h in
    (r = Ok FailStopped ∨ r = Ok Released) ∧
    (r = Ok Released → h.(quiesce_failed) = false ∧ h'.(gpu_oob_held) = false ∧
       (h.(gpu_oob_held) = true → halted stop ∧ gmu_stopped = true)).
Proof.
  intros Hwf0 Hrtc.
  assert (hw_wf h ∧ (h0.(boot) = Lost → h.(boot) = Lost) ∧ (h0.(quarantine) = true → h.(quarantine) = true)) as (Hwf & Hl & Hq).
  { induction Hrtc as [|h1 h2 h3 Hstep _ IH]; [done|].
    destruct (hw_step_wf fuel h1 h2 Hwf0 Hstep) as (Hwf & _ & Hl & _ & Hq). destruct (IH Hwf) as (? & ? & ?). auto. }
  pose proof (wf_power _ Hwf) as [Hqf Hp]. split_and!; [done| |by apply not_ready_off|done| |].
  - intros Hb. by rewrite Hb in Hp.
  - intros Hq0. split; [auto|]. specialize (Hq Hq0). destruct (boot h); [destruct Hp; congruence..|done].
  - intros stop g Hs. by apply drop_core_after.
Qed.

(** ** A board that answers *)
Definition answering (v : Z) : Poll := mk_poll 0 (λ _, (v, 2000000)).
Definition sample_stop : StopEnv := mk_stop (answering 0) (answering 1) (answering 1) (answering 2).

Definition sample_boot : BootEnv :=
  mk_boot_env true (inr tt) (inr tt) (inr tt) true true
    (inr [0; 0; 0; 0; 0x90; 1; 0; 0; 0; 0; 0; 0; 0; 0; 0; 0]) (inr 0x100100000)
    (answering 0) 0 (λ _, mk_idle_poll 9 0 no_interrupts (mk_int_regs 0 0 0 0 0) 2000000) sample_stop.

(** The fence arrives at the third poll. *)
Definition sample_ring : RingEnv :=
  mk_ring_env (answering 0) 0
    (λ i, mk_fence_poll (if (i <? 2)%nat then 0 else 1) no_interrupts 1 26 1
            (500000 * Z.of_nat i) no_interrupts) sample_stop true.

Definition cold_hw : HardwareState :=
  mk_hw Cold (replicate (Z.to_nat RING_WORDS) 0) 0x100000000 (replicate 64 0) 0x100010000 256 None 0 0x100020000 0 0
    false false None None false [].

Lemma cold_hw_wf : hw_wf cold_hw.
Proof. constructor; [constructor|..]; vm_compute; try done; split; done. Qed.

Lemma answering_expires timeout fuel v : timeout ≤ 2000000 → expires timeout (S fuel) (answering v).
Proof. intros H. exists 0%nat. split; [lia|]. cbn. lia. Qed.

Lemma sample_stop_expires : stop_expires 3 sample_stop.
Proof. repeat constructor; by apply answering_expires. Qed.

Lemma sample_boot_expires : boot_expires 3 sample_boot.
Proof. split_and!; [by apply answering_expires|exists 0%nat; split; [lia|done]|apply sample_stop_expires]. Qed.

Lemma sample_ring_expires : ring_expires 3 sample_ring.
Proof. split_and!; [by apply answering_expires|exists 2%nat; split; [lia|done]|apply sample_stop_expires]. Qed.

Lemma boot_outcome_witness :
  (ensure_hardware_ready 3 sample_boot cold_hw).1 = Ok tt ∧
  let '(r, h') := ensure_hardware_ready 3 sample_boot cold_hw in
  hw_wf h' ∧ (cold_hw.(boot) ≠ Cold → h' = cold_hw) ∧
  match r with
  | Panic => False
  | Ok _ => h'.(boot) = Ready ∧ (cold_hw.(boot) = Cold →
      (∃ addr firmware, h'.(sqe) = Some (addr, firmware) ∧ sqe_version_is_secure firmware = true) ∧
      ∃ before later, h'.(mmio) = cold_hw.(mmio) ++ before ++ (Reg.CP_SQE_CNTL, 1) :: later ∧ protected_start before)
  | Err _ => h'.(boot) ≠ Ready
  end.
Proof. split; [vm_compute; reflexivity|exact (boot_outcome 3 sample_boot cold_hw cold_hw_wf sample_boot_expires)]. Defined.

(** The state after a boot. *)
Definition ready_hw : HardwareState := (ensure_hardware_ready 3 sample_boot cold_hw).2.

Lemma ready_hw_wf : hw_wf ready_hw ∧ ready_hw.(boot) = Ready.
Proof. constructor; [constructor; [constructor|..]|]; vm_compute; try done; split; done. Qed.

Lemma submission_outcome_witness :
  (submit_words 3 sample_ring [7; 8; 9] ready_hw).1 = Ok tt ∧
  retired sample_ring [7; 8; 9] ready_hw (submit_words 3 sample_ring [7; 8; 9] ready_hw).2.
Proof.
  assert ((submit_words 3 sample_ring [7; 8; 9] ready_hw).1 = Ok tt) as Hok by (vm_compute; reflexivity).
  pose proof (submission_outcome 3 sample_ring [7; 8; 9] ready_hw (proj1 ready_hw_wf)
    ltac:(by rewrite (proj2 ready_hw_wf)) sample_ring_expires ltac:(vm_compute; done)) as H.
  destruct (submit_words 3 sample_ring [7; 8; 9] ready_hw) as [r h'].
  cbn [fst snd] in *. subst r. destruct H as (_ & Hr & _). by split.
Defined.

Lemma power_invariant_witness :
  hw_wf ready_hw ∧ (ready_hw.(boot) = Ready → ready_hw.(gpu_oob_held) = true ∧ ready_hw.(quarantine) = false).
Proof.
  destruct (power_invariant 3 cold_hw ready_hw cold_hw_wf) as (Hwf & Hr & _); [|by split].
  apply rtc_once. exact (step_ensure 3 cold_hw sample_boot sample_boot_expires).
Defined.
End Boot.
