(* ===== verification/Dispatch.v ===== *)
(** * Submissions, the worker and CPU access

    The threads around the admission queue in [backend.rs]: callers of
    [submit] and [enqueue], callers that take the GPU away for a CPU access,
    the worker of [process_submission], and the other users of the hardware
    lock.  A step is one critical section of one thread; between two of them
    any other thread may run.  A thread whose condition does not hold yet has
    no step (it sleeps and tries again).

    The commands arrive as the words that [prepare_submission] returns. *)
From stdpp Require Import gmap.
From S2P Require Import Prelude PendingQueue Registers Hardware HardwareFacts BootFacts.

Module Dispatch.
Import Pending Hw HwFacts Boot.

(** ** State *)
Inductive Observer := Async | Sync.

(** [PendingSubmission]; the identity of the allocation is a number. *)
Record Submission := mk_submission { sub_id : nat; sub_words : list Z; sub_observer : Observer }.

Definition Result : Type := GpuBackendSubmitError + ().

(** Where the worker is in [process_submission]. *)
Inductive Worker :=
| WIdle
| WStarted (s : Submission) (previous_failure : option GpuBackendSubmitError)
| WReady (s : Submission)
| WExecuted (s : Submission) (r : Result)
| WLoaded (s : Submission) (r : Result) (quarantined : bool)
| WRecorded (s : Submission) (r : Result) (quarantined : bool)
| WFinishing (quarantined : bool).

(** Where a caller is; a thread that is not here is not in the driver. *)
Inductive Client :=
| CPush (words : list Z) (cpu_access_owner : bool)
| CWait (id : nat) (cpu_access_owner : bool)
| CBegin
| CHeld
| CDropping.

(** How the worker disposed of a submission. *)
Inductive Settlement := Completed (r : Result) | Forgotten.

(** [A618Core], with [PendingState] in [queue] and [failure], the cells of the
    [SyncResult]s, and a history: the submissions admitted, those the GPU
    retired, those settled, and the slots lost to quarantine. *)
Record Core := mk_core {
  queue : PendingQueue Submission;
  failure : option GpuBackendSubmitError;
  hardware : HardwareState;
  worker : Worker;
  clients : gmap nat Client;
  results : gmap nat Result;
  next_id : nat;
  admissions : list Submission;
  retirements : list Submission;
  settled : list (Submission * Settlement);
  lost : Z;
}.

Definition with_worker (w : Worker) (d : Core) : Core :=
  mk_core d.(queue) d.(failure) d.(hardware) w d.(clients) d.(results) d.(next_id)
    d.(admissions) d.(retirements) d.(settled) d.(lost).
Definition with_queue (q : PendingQueue Submission) (d : Core) : Core :=
  mk_core q d.(failure) d.(hardware) d.(worker) d.(clients) d.(results) d.(next_id)
    d.(admissions) d.(retirements) d.(settled) d.(lost).
Definition with_hardware (h : HardwareState) (d : Core) : Core :=
  mk_core d.(queue) d.(failure) h d.(worker) d.(clients) d.(results) d.(next_id)
    d.(admissions) d.(retirements) d.(settled) d.(lost).
Definition with_clients (c : gmap nat Client) (d : Core) : Core :=
  mk_core d.(queue) d.(failure) d.(hardware) d.(worker) c d.(results) d.(next_id)
    d.(admissions) d.(retirements) d.(settled) d.(lost).
Definition with_failure (f : option GpuBackendSubmitError) (d : Core) : Core :=
  mk_core d.(queue) f d.(hardware) d.(worker) d.(clients) d.(results) d.(next_id)
    d.(admissions) d.(retirements) d.(settled) d.(lost).

Definition set_client (t : nat) (c : Client) (d : Core) : Core := with_clients (<[t:=c]> d.(clients)) d.
Definition drop_client (t : nat) (d : Core) : Core := with_clients (delete t d.(clients)) d.

(** ** The worker: [process_submission] *)
Definition worker_start (d : Core) : option Core :=
  match d.(worker) with
  | WIdle => match start_next d.(queue) with
             | Some (s, q) => Some (with_worker (WStarted s d.(failure)) (with_queue q d))
             | None => None
             end
  | _ => None
  end.

(** [ensure_hardware_ready], unless an earlier submission failed. *)
Definition worker_ensure (fuel : nat) (env : BootEnv) (d : Core) : option Core :=
  match d.(worker) with
  | WStarted s (Some error) => Some (with_worker (WExecuted s (inl error)) d)
  | WStarted s None =>
      match ensure_hardware_ready fuel env d.(hardware) with
      | (Ok _, h) => Some (with_worker (WReady s) (with_hardware h d))
      | (Err error, h) => Some (with_worker (WExecuted s (inl error)) (with_hardware h d))
      | (Panic, _) => None
      end
  | _ => None
  end.

(** [submit_words] takes the lock again. *)
Definition worker_submit (fuel : nat) (env : RingEnv) (d : Core) : option Core :=
  match d.(worker) with
  | WReady s =>
      match submit_words fuel env s.(sub_words) d.(hardware) with
      | (Ok _, h) =>
          Some (mk_core d.(queue) d.(failure) h (WExecuted s (inr tt)) d.(clients) d.(results)
                  d.(next_id) d.(admissions) (d.(retirements) ++ [s]) d.(settled) d.(lost))
      | (Err error, h) => Some (with_worker (WExecuted s (inl error)) (with_hardware h d))
      | (Panic, _) => None
      end
  | _ => None
  end.

Definition worker_load (d : Core) : option Core :=
  match d.(worker) with
  | WExecuted s r => Some (with_worker (WLoaded s r d.(hardware).(quarantine)) d)
  | _ => None
  end.

(** [pending.failure.get_or_insert(error)] *)
Definition worker_record (d : Core) : option Core :=
  match d.(worker) with
  | WLoaded s r q =>
      let f := match r, d.(failure) with
               | inl error, None => Some error
               | _, f => f
               end in
      Some (with_worker (WRecorded s r q) (with_failure f d))
  | _ => None
  end.

Definition worker_settle (d : Core) : option Core :=
  match d.(worker) with
  | WRecorded s r q =>
      let results' := match q, s.(sub_observer) with
                      | false, Sync => <[s.(sub_id) := r]> d.(results)
                      | _, _ => d.(results)
                      end in
      Some (mk_core d.(queue) d.(failure) d.(hardware) (WFinishing q) d.(clients) results'
              d.(next_id) d.(admissions) d.(retirements)
              (d.(settled) ++ [(s, if q then Forgotten else Completed r)]) d.(lost))
  | _ => None
  end.

Definition worker_finish (d : Core) : option Core :=
  match d.(worker) with
  | WFinishing q =>
      match finish d.(queue) (negb q) with
      | Ok q' => Some (mk_core q' d.(failure) d.(hardware) WIdle d.(clients) d.(results) d.(next_id)
                         d.(admissions) d.(retirements) d.(settled) (d.(lost) + if q then 1 else 0))
      | _ => None
      end
  | _ => None
  end.

(** ** Admission *)
Definition record_admission (q : PendingQueue Submission) (s : Submission) (d : Core) : Core :=
  mk_core q d.(failure) d.(hardware) d.(worker) d.(clients) d.(results) (S d.(next_id))
    (d.(admissions) ++ [s]) d.(retirements) d.(settled) d.(lost).

(** [enqueue], once it holds the lock and the commands are prepared.  [None]:
    the caller gets [Busy] or [Rejected] and nothing changes. *)
Definition enqueue (words : list Z) (d : Core) : option Core :=
  let s := mk_submission d.(next_id) words Async in
  match d.(failure) with
  | Some _ => None
  | None => if negb (has_capacity d.(queue)) then None
            else match push d.(queue) s with
                 | Ok q => Some (record_admission q s d)
                 | _ => None
                 end
  end.

(** [submit_prepared_sync]: one turn of its loop ... *)
Definition sync_push (t : nat) (d : Core) : option Core :=
  match d.(clients) !! t with
  | Some (CPush words owner) =>
      match d.(failure) with
      | Some _ => Some (if owner then set_client t CDropping d else drop_client t d)
      | None =>
          let s := mk_submission d.(next_id) words Sync in
          match (if owner then push_cpu_checkpoint d.(queue) s else push d.(queue) s) with
          | Ok q => Some (set_client t (CWait s.(sub_id) owner) (record_admission q s d))
          | _ => None
          end
      end
  | _ => None
  end.

(** ... and [result.wait()]. *)
Definition sync_wait (t : nat) (d : Core) : option Core :=
  match d.(clients) !! t with
  | Some (CWait id owner) =>
      match d.(results) !! id with
      | Some r =>
          Some (if owner then set_client t (match r with inr _ => CHeld | inl _ => CDropping end) d
                else drop_client t d)
      | None => None
      end
  | _ => None
  end.

(** ** CPU access: [begin_cpu_access] and the guard *)
Definition cpu_begin (t : nat) (d : Core) : option Core :=
  match d.(clients) !! t with
  | Some CBegin =>
      match d.(failure) with
      | Some _ => Some (drop_client t d)
      | None => match try_begin_cpu_access d.(queue) with
                | (true, q) => Some (set_client t (CPush [] true) (with_queue q d))
                | (false, _) => None
                end
      end
  | _ => None
  end.

(** [Drop for A618CpuAccess] *)
Definition cpu_end (t : nat) (d : Core) : option Core :=
  match d.(clients) !! t with
  | Some CHeld | Some CDropping => Some (drop_client t (with_queue (end_cpu_access d.(queue)) d))
  | _ => None
  end.

(** A thread enters [submit] or [begin_cpu_access]. *)
Definition enter_submit (t : nat) (words : list Z) (d : Core) : option Core :=
  match d.(clients) !! t with
  | None => Some (set_client t (CPush words false) d)
  | Some _ => None
  end.
Definition enter_cpu (t : nat) (d : Core) : option Core :=
  match d.(clients) !! t with
  | None => Some (set_client t CBegin d)
  | Some _ => None
  end.

(** Other threads that take the hardware lock: [query_info] and the frequency
    driver. *)
Definition query_info (fuel : nat) (env : BootEnv) (d : Core) : Core :=
  with_hardware (ensure_hardware_ready fuel env d.(hardware)).2 d.
Definition change_frequency (fuel : nat) (stop : StopEnv) (gmu_stopped : bool) (vote : string + ())
    (d : Core) : Core :=
  with_hardware (set_frequency_khz fuel stop gmu_stopped vote d.(hardware)).2 d.
End Dispatch.
