(* ===== verification/DispatchFacts.v ===== *)
(** * Properties of the dispatcher

    Invariants of every interleaving of callers, worker and hardware users, by
    induction on the steps; then what they mean: submissions run and complete
    once, in order; after a failure nothing more runs; a CPU access has the GPU
    to itself; and the worker always drains the queue. *)
From stdpp Require Import gmap.
From S2P Require Import Prelude PendingQueue Registers Hardware HardwareFacts BootFacts Dispatch.

Module DispatchFacts.
Import Pending Hw HwFacts Boot Dispatch.

(** ** Steps *)
Definition ASYNC_CAPACITY : Z := 8.

(** The commands fit the staging buffer. *)
Definition fits (d : Core) (words : list Z) : Prop := len words * 4 ≤ d.(hardware).(command_size).

Inductive worker_step (fuel : nat) (d d' : Core) : Prop :=
| ws_start : worker_start d = Some d' → worker_step fuel d d'
| ws_ensure env : boot_expires fuel env → worker_ensure fuel env d = Some d' → worker_step fuel d d'
| ws_submit env : ring_expires fuel env → worker_submit fuel env d = Some d' → worker_step fuel d d'
| ws_load : worker_load d = Some d' → worker_step fuel d d'
| ws_record : worker_record d = Some d' → worker_step fuel d d'
| ws_settle : worker_settle d = Some d' → worker_step fuel d d'
| ws_finish : worker_finish d = Some d' → worker_step fuel d d'.

Inductive step (fuel : nat) (d d' : Core) : Prop :=
| step_worker : worker_step fuel d d' → step fuel d d'
| step_enqueue words : fits d words → enqueue words d = Some d' → step fuel d d'
| step_enter t words : fits d words → enter_submit t words d = Some d' → step fuel d d'
| step_push t : sync_push t d = Some d' → step fuel d d'
| step_wait t : sync_wait t d = Some d' → step fuel d d'
| step_enter_cpu t : enter_cpu t d = Some d' → step fuel d d'
| step_begin t : cpu_begin t d = Some d' → step fuel d d'
| step_end t : cpu_end t d = Some d' → step fuel d d'
| step_query env : boot_expires fuel env → d' = query_info fuel env d → step fuel d d'
| step_frequency stop gmu_stopped vote :
    stop_expires fuel stop → d' = change_frequency fuel stop gmu_stopped vote d → step fuel d d'.

(** The driver after probing. *)
Definition initial (h : HardwareState) : Core :=
  mk_core (mk_queue [] 0 false ASYNC_CAPACITY false) None h WIdle ∅ ∅ 0 [] [] [] 0.

Definition reachable (fuel : nat) (d : Core) : Prop :=
  ∃ h, hw_wf h ∧ h.(boot) = Cold ∧ rtc (step fuel) (initial h) d.

(** ** Invariants *)

(** The submission the worker holds. *)
Definition taken (w : Worker) : list Submission :=
  match w with
  | WIdle | WFinishing _ => []
  | WStarted s _ | WReady s | WExecuted s _ | WLoaded s _ _ | WRecorded s _ _ => [s]
  end.

Definition is_idle (w : Worker) : bool := match w with WIdle => true | _ => false end.

(** Slots, order and identities. *)
Record queue_inv (d : Core) : Prop := {
  qi_accounted : accounted d.(lost) d.(queue);
  qi_capacity : capacity d.(queue) = ASYNC_CAPACITY;
  qi_running : running d.(queue) = negb (is_idle d.(worker));
  qi_fifo : d.(admissions) = d.(settled).*1 ++ taken d.(worker) ++ queued d.(queue);
  qi_ids : sub_id <$> d.(admissions) = seq 0 d.(next_id);
}.

(** The result the worker carries. *)
Definition carried (w : Worker) : option (Submission * Result) :=
  match w with
  | WExecuted s r | WLoaded s r _ | WRecorded s r _ => Some (s, r)
  | _ => None
  end.

(** What the worker knows of earlier failures and of the hardware. *)
Definition worker_knows (d : Core) : Prop :=
  match d.(worker) with
  | WStarted _ f => f = d.(failure)
  | WReady _ => d.(failure) = None ∧ d.(hardware).(boot) ≠ Cold
  | WRecorded _ (inl _) _ => is_Some d.(failure)
  | _ => True
  end.

Record run_inv (d : Core) : Prop := {
  ri_hw : hw_wf d.(hardware);
  ri_fits : Forall (λ s, fits d s.(sub_words)) d.(admissions);
  ri_client : ∀ t words o, d.(clients) !! t = Some (CPush words o) → fits d words;
  ri_knows : worker_knows d;
  ri_carried : ∀ s, carried d.(worker) = Some (s, inr tt) → s ∈ d.(retirements);
  ri_settled : ∀ s, (s, Completed (inr tt)) ∈ d.(settled) → s ∈ d.(retirements);
  ri_results : ∀ id r, d.(results) !! id = Some r →
    ∃ s, s.(sub_id) = id ∧ s.(sub_observer) = Sync ∧ (s, Completed r) ∈ d.(settled);
}.

(** The clients that hold the CPU reservation. *)
Definition owns (c : Client) : bool :=
  match c with CPush _ o | CWait _ o => o | CBegin => false | CHeld | CDropping => true end.

Record cpu_inv (d : Core) : Prop := {
  ci_flag : ∀ t c, d.(clients) !! t = Some c → owns c = true → cpu_access d.(queue) = true;
  ci_unique : ∀ t t' c c', d.(clients) !! t = Some c → d.(clients) !! t' = Some c' →
    owns c = true → owns c' = true → t = t';
  ci_owner : cpu_access d.(queue) = true → ∃ t c, d.(clients) !! t = Some c ∧ owns c = true;
  ci_wait : ∀ t id, d.(clients) !! t = Some (CWait id true) → S id = d.(next_id);
  ci_held : ∀ t, d.(clients) !! t = Some CHeld → taken d.(worker) = [] ∧ queued d.(queue) = [];
}.

Record inv (d : Core) : Prop := {
  inv_queue : queue_inv d;
  inv_run : run_inv d;
  inv_cpu : cpu_inv d;
}.

Lemma initial_inv h : hw_wf h → inv (initial h).
Proof.
  intros Hh. constructor.
  - constructor; done.
  - constructor; try done; cbn; intros *; try rewrite lookup_empty; try done; by intros ?%elem_of_nil.
  - constructor; cbn; intros *; try rewrite lookup_empty; done.
Qed.

(** ** Admission *)
Lemma push_Ok {T} (q q' : PendingQueue T) v :
  push q v = Ok q' → cpu_access q = false ∧ outstanding q < capacity q ∧ push_admitted q v = Ok q'.
Proof.
  unfold push, has_capacity, has_slot. destruct (cpu_access q); cbn; [done|].
  destruct (Z.ltb_spec (outstanding q) (capacity q)); cbn; done.
Qed.

Lemma push_checkpoint_Ok {T} (q q' : PendingQueue T) v :
  push_cpu_checkpoint q v = Ok q' → cpu_access q = true ∧ outstanding q < capacity q ∧ push_admitted q v = Ok q'.
Proof.
  unfold push_cpu_checkpoint, has_slot. destruct (cpu_access q); cbn; [|done].
  destruct (Z.ltb_spec (outstanding q) (capacity q)); cbn; done.
Qed.

Lemma push_admitted_Ok {T} (q q' : PendingQueue T) v :
  push_admitted q v = Ok q' →
  q' = mk_queue (queued q ++ [v]) (outstanding q + 1) (running q) (capacity q) (cpu_access q).
Proof. unfold push_admitted, add_or_panic. case_match; [by intros [= <-]|done]. Qed.

Lemma admit_queue_inv q s d :
  queue_inv d → outstanding d.(queue) < capacity d.(queue) → s.(sub_id) = d.(next_id) →
  push_admitted d.(queue) s = Ok q → queue_inv (record_admission q s d).
Proof.
  intros [[Hl Hs Hb Hc] Hcap Hr Hf Hi] Hslot Hid ->%push_admitted_Ok. constructor; cbn -[seq]; try done.
  - constructor; cbn; try lia. rewrite len_app. unfold len at 2. cbn. destruct (running (queue d)); lia.
  - rewrite Hf, <- !app_assoc. done.
  - rewrite fmap_app, Hi, seq_S. cbn. by rewrite Hid.
Qed.

Lemma admit_run_inv q s d : run_inv d → fits d s.(sub_words) → run_inv (record_admission q s d).
Proof.
  intros [] Hf. constructor; try done. cbn. apply Forall_app_2; [done|]. by repeat constructor.
Qed.

(** A submission that was admitted while the GPU was reserved for a CPU access
    is the reservation owner's. *)
Lemma admit_cpu_inv q s d :
  cpu_inv d → cpu_access q = cpu_access d.(queue) →
  (∀ t, d.(clients) !! t ≠ Some CHeld) → (∀ t id, d.(clients) !! t ≠ Some (CWait id true)) →
  cpu_inv (record_admission q s d).
Proof.
  intros [] Hq Hheld Hwait. constructor; cbn; rewrite ?Hq; try done.
  - intros t id H. by destruct (Hwait t id).
  - intros t H. by destruct (Hheld t).
Qed.

(** ** Steps of the worker *)
Lemma worker_step_queue fuel d d' : worker_step fuel d d' → queue_inv d → queue_inv d'.
Proof.
  intros Hw [Hacc Hcap Hr Hf Hi].
  destruct Hw as [H|env _ H|env _ H|H|H|H|H]; unfold worker_start, worker_ensure, worker_submit,
    worker_load, worker_record, worker_settle, worker_finish in H;
    destruct (worker d) as [|s f|s|s r|s r q|s r q|q] eqn:Hwk; try done.
  - unfold start_next in H. cbn in Hr. rewrite Hr in H. destruct (queued (queue d)) as [|s rest] eqn:Hq; [done|].
    injection H as <-. constructor; cbn; try done.
    destruct Hacc as [? Hs ? ?]. constructor; cbn; try done. rewrite Hr, Hq in Hs. rewrite Hs. unfold len. cbn. lia.
  - destruct f as [e|]; [injection H as <-; by constructor|].
    destruct (ensure_hardware_ready _ _ _) as [[] h]; [injection H as <-; by constructor..|done].
  - destruct (submit_words _ _ _ _) as [[] h]; [injection H as <-; by constructor..|done].
  - injection H as <-. by constructor.
  - injection H as <-. by constructor.
  - injection H as <-. constructor; cbn; try done. rewrite Hf, fmap_app, <- app_assoc. done.
  - unfold finish in H. cbn in Hr. rewrite Hr in H. destruct Hacc as [Hl Hs Hb Hc]. rewrite Hr in Hs.
    pose proof (len_nonneg (queued (queue d))). unfold checked_sub in H.
    destruct q; cbn in H; rewrite ?(proj2 (Z.leb_le 1 _)) in H by lia; injection H as <-;
      constructor; cbn; try done; constructor; cbn; lia.
Qed.

(** The worker moves on, with a new hardware state. *)
Lemma hardware_run_inv w h d :
  run_inv d → hw_wf h → h.(command_size) = d.(hardware).(command_size) →
  worker_knows (with_worker w (with_hardware h d)) →
  (∀ s, carried w = Some (s, inr tt) → s ∈ d.(retirements)) →
  run_inv (with_worker w (with_hardware h d)).
Proof.
  intros [Hh Hf Hc Hk Hca Hs Hres] Hwf Hcs Hk' Hca'.
  constructor; cbn; unfold fits in *; cbn in *; rewrite ?Hcs; done.
Qed.

Lemma worker_run_inv w d :
  run_inv d → worker_knows (with_worker w d) →
  (∀ s, carried w = Some (s, inr tt) → s ∈ d.(retirements)) → run_inv (with_worker w d).
Proof. intros [] Hk Hc. by constructor. Qed.

Lemma worker_ensure_run fuel env d d' :
  boot_expires fuel env → worker_ensure fuel env d = Some d' → run_inv d → run_inv d'.
Proof.
  unfold worker_ensure. intros He H Hi. destruct (worker d) as [|s f|s|s r|s r q|s r q|q] eqn:Hw; try done.
  destruct f as [e|]; [injection H as <-; by apply worker_run_inv|].
  pose proof (ensure_after fuel env _ (ri_hw _ Hi) He) as Ha.
  destruct (ensure_hardware_ready _ _ _) as [r h]. destruct Ha as (Hwf & Hcs & _ & Ha).
  pose proof (ri_knows _ Hi) as Hk. unfold worker_knows in Hk. rewrite Hw in Hk.
  destruct r as [[]|e|]; [..|done]; injection H as <-; apply hardware_run_inv; try done.
  cbn. destruct Ha as [Hb _]. by rewrite Hb.
Qed.

(** The submission that is about to run fits the staging buffer. *)
Lemma ready_fits d s : queue_inv d → run_inv d → d.(worker) = WReady s → fits d s.(sub_words).
Proof.
  intros Hq Hi Hw. pose proof (ri_fits _ Hi) as Hf. rewrite (qi_fifo _ Hq), Hw, !Forall_app in Hf.
  destruct Hf as (_ & [Hf _]%Forall_cons & _). done.
Qed.

Lemma worker_submit_run fuel env d d' :
  ring_expires fuel env → worker_submit fuel env d = Some d' → queue_inv d → run_inv d → run_inv d'.
Proof.
  unfold worker_submit. intros He H Hq Hi. destruct (worker d) as [|s f|s|s r|s r q|s r q|q] eqn:Hw; try done.
  pose proof (ri_knows _ Hi) as Hk. unfold worker_knows in Hk. rewrite Hw in Hk. destruct Hk as [_ Hb].
  pose proof (submit_after fuel env (sub_words s) _ (ri_hw _ Hi) Hb (ready_fits _ _ Hq Hi Hw) He) as Ha.
  destruct (submit_words _ _ _ _) as [r h]. destruct Ha as (Hwf & Hcs & _ & Ha).
  destruct r as [[]|e|]; [..|done]; injection H as <-.
  - destruct Hi as [Hh Hf Hc Hk Hca Hs Hres]. constructor; cbn; unfold fits in *; cbn in *; rewrite ?Hcs; try done.
    + intros s' [= <-]. apply elem_of_app. right. by apply list_elem_of_singleton.
    + intros s' ?. apply elem_of_app. left. by apply Hs.
  - by apply hardware_run_inv.
Qed.

Lemma worker_settle_run d d' : worker_settle d = Some d' → run_inv d → run_inv d'.
Proof.
  unfold worker_settle. intros H [Hh Hf Hc Hk Hca Hs Hres].
  destruct (worker d) as [|s f|s|s r|s r q|s r q|q] eqn:Hw; try done. injection H as <-.
  assert (∀ id r', results d !! id = Some r' → ∃ s', sub_id s' = id ∧ sub_observer s' = Sync ∧
    (s', Completed r') ∈ settled d ++ [(s, if q then Forgotten else Completed r)]) as Hres'
    by (intros id r' (s' & ? & ? & ?)%Hres; exists s'; split_and!; try done; apply elem_of_app; by left).
  constructor; cbn; try done.
  - intros s' [?|H%list_elem_of_singleton]%elem_of_app; [auto|]. destruct q; [done|]. injection H as -> <-. by apply Hca.
  - intros id r'. destruct q; [apply Hres'|]. destruct (sub_observer s) eqn:Ho; [apply Hres'|].
    intros [[<- <-]|[_ ?]]%lookup_insert_Some; [|by apply Hres'].
    exists s. split_and!; [done..|]. apply elem_of_app. right. by apply list_elem_of_singleton.
Qed.

Lemma worker_step_run fuel d d' : worker_step fuel d d' → queue_inv d → run_inv d → run_inv d'.
Proof.
  intros Hw Hq Hi. destruct Hw as [H|env He H|env He H|H|H|H|H].
  - unfold worker_start in H. destruct (worker d), (start_next (queue d)) as [[]|]; try done.
    injection H as <-. by destruct Hi; constructor.
  - by eapply worker_ensure_run.
  - by eapply worker_submit_run.
  - unfold worker_load in H. destruct (worker d) eqn:Hw; try done. injection H as <-.
    apply worker_run_inv; try done. pose proof (ri_carried _ Hi) as Hc. by rewrite Hw in Hc.
  - unfold worker_record in H. destruct (worker d) eqn:Hw; try done. injection H as <-.
    pose proof (ri_carried _ Hi) as Hc. rewrite Hw in Hc. apply worker_run_inv;
      [destruct Hi; constructor; try done; unfold worker_knows; cbn; by rewrite Hw| |done].
    unfold worker_knows. cbn. destruct r; [|done]. destruct (failure d); eauto.
  - by eapply worker_settle_run.
  - unfold worker_finish in H. destruct (worker d); try done. destruct (finish _ _); try done.
    injection H as <-. by destruct Hi; constructor.
Qed.

Lemma worker_step_cpu fuel d d' : worker_step fuel d d' → cpu_inv d → cpu_inv d'.
Proof.
  intros Hw [Hfl Hun How Hwt Hhd].
  assert (clients d' = clients d ∧ next_id d' = next_id d ∧ cpu_access (queue d') = cpu_access (queue d) ∧
    (taken (worker d) = [] ∧ queued (queue d) = [] → taken (worker d') = [] ∧ queued (queue d') = [])) as (Hc & Hn & Ha & Ht).
  { destruct Hw as [H|env _ H|env _ H|H|H|H|H]; unfold worker_start, start_next, worker_ensure, worker_submit,
      worker_load, worker_record, worker_settle, worker_finish, finish in H; repeat case_match; simplify_eq/=;
      try done; (split_and!; [done..|]); try done; by intros []. }
  constructor; rewrite ?Hc, ?Hn, ?Ha; try done. intros t Hx. apply Ht. by apply (Hhd t).
Qed.

(** ** Steps of the clients *)
Lemma replace_client_cpu t c c' d :
  cpu_inv d → d.(clients) !! t = Some c → owns c' = owns c →
  (∀ id, c' = CWait id true → S id = d.(next_id)) →
  (c' = CHeld → taken d.(worker) = [] ∧ queued d.(queue) = []) → cpu_inv (set_client t c' d).
Proof.
  intros [Hfl Hun How Hwt Hhd] Ht Ho Hw Hh.
  assert (∀ t' x, (set_client t c' d).(clients) !! t' = Some x →
    ∃ y, d.(clients) !! t' = Some y ∧ owns x = owns y ∧ (t' = t ∧ x = c' ∨ x = y)) as Hold.
  { intros t' x. cbn. intros [[<- <-]|[? ?]]%lookup_insert_Some; eauto 10. }
  constructor.
  - intros t' x (y & Hy & -> & _)%Hold. by apply (Hfl t').
  - intros t1 t2 x1 x2 (y1 & Hy1 & -> & _)%Hold (y2 & Hy2 & -> & _)%Hold. by apply (Hun t1 t2).
  - intros (t1 & y & Hy & Hoy)%How. destruct (decide (t1 = t)) as [->|Hne].
    + exists t, c'. cbn. rewrite lookup_insert_eq. split; [done|]. congruence.
    + exists t1, y. cbn. by rewrite lookup_insert_ne.
  - intros t' id (y & Hy & _ & [[_ <-]|<-])%Hold; [by apply Hw|by apply (Hwt t')].
  - intros t' (y & Hy & _ & [[_ <-]|<-])%Hold; [by apply Hh|by apply (Hhd t')].
Qed.

Lemma leave_client_cpu t c d :
  cpu_inv d → d.(clients) !! t = Some c → owns c = false → cpu_inv (drop_client t d).
Proof.
  intros [Hfl Hun How Hwt Hhd] Ht Ho.
  assert (∀ t' x, (drop_client t d).(clients) !! t' = Some x → d.(clients) !! t' = Some x) as Hold
    by (intros t' x; cbn; by intros [_ ?]%lookup_delete_Some).
  constructor.
  - intros t' x H%Hold. by apply (Hfl t').
  - intros t1 t2 x1 x2 H1%Hold H2%Hold. by apply (Hun t1 t2 x1 x2).
  - intros (t1 & y & Hy & Hoy)%How. exists t1, y. cbn. rewrite lookup_delete_ne; [done|]. congruence.
  - intros t' id H%Hold. by apply (Hwt t').
  - intros t' H%Hold. by apply (Hhd t').
Qed.

(** The owner gives the reservation back. *)
Lemma release_cpu t c d :
  cpu_inv d → d.(clients) !! t = Some c → owns c = true →
  cpu_inv (drop_client t (with_queue (end_cpu_access d.(queue)) d)).
Proof.
  intros [Hfl Hun How Hwt Hhd] Ht Ho.
  assert (∀ t' x, (delete t d.(clients)) !! t' = Some x → owns x = false) as Hno.
  { intros t' x [Hne Hx]%lookup_delete_Some. destruct (owns x) eqn:E; [|done]. destruct Hne. by apply (Hun t t' c x). }
  constructor; cbn.
  - intros t' x Hx. by rewrite (Hno t' x Hx).
  - intros t1 t2 x1 x2 Hx. by rewrite (Hno t1 x1 Hx).
  - done.
  - intros t' id Hx%Hno. done.
  - intros t' Hx%Hno. done.
Qed.

Lemma enter_client_cpu t c d :
  cpu_inv d → d.(clients) !! t = None → owns c = false → cpu_inv (set_client t c d).
Proof.
  intros [Hfl Hun How Hwt Hhd] Ht Ho.
  assert (∀ t' x, (set_client t c d).(clients) !! t' = Some x → owns x = true → d.(clients) !! t' = Some x) as Hold.
  { intros t' x. cbn. intros [[<- <-]|[? ?]]%lookup_insert_Some; congruence. }
  constructor.
  - intros t' x H Hx. by apply (Hfl t' x); [apply Hold|].
  - intros t1 t2 x1 x2 H1 H2 Hx1 Hx2. by apply (Hun t1 t2 x1 x2); [apply Hold..| |].
  - intros (t1 & y & Hy & Hoy)%How. exists t1, y. cbn. rewrite lookup_insert_ne; [done|]. congruence.
  - intros t' id H. by apply (Hwt t'), Hold.
  - intros t' H. by apply (Hhd t'), Hold.
Qed.

Lemma clients_run_inv c d :
  run_inv d → (∀ t w o, c !! t = Some (CPush w o) → fits d w) → run_inv (with_clients c d).
Proof. intros [] Hc. by constructor. Qed.

Lemma set_client_run t c d :
  run_inv d → (∀ w o, c = CPush w o → fits d w) → run_inv (set_client t c d).
Proof.
  intros Hi Hc. apply clients_run_inv; [done|]. intros t' w o [[_ ->]|[_ ?]]%lookup_insert_Some; [by eapply Hc|].
  by eapply (ri_client _ Hi).
Qed.

Lemma drop_client_run t d : run_inv d → run_inv (drop_client t d).
Proof.
  intros Hi. apply clients_run_inv; [done|]. intros t' w o [_ ?]%lookup_delete_Some. by eapply (ri_client _ Hi).
Qed.

Lemma with_clients_queue_inv c d : queue_inv d → queue_inv (with_clients c d).
Proof. intros []. by constructor. Qed.

(** No reservation: nobody waits for a checkpoint or holds the GPU. *)
Lemma no_owner d : cpu_inv d → cpu_access d.(queue) = false →
  (∀ t, d.(clients) !! t ≠ Some CHeld) ∧ (∀ t id, d.(clients) !! t ≠ Some (CWait id true)).
Proof.
  intros [Hfl _ _ _ _] Hq. split.
  - intros t H. by rewrite (Hfl t CHeld H) in Hq.
  - intros t id H. by rewrite (Hfl t (CWait id true) H) in Hq.
Qed.

Lemma enqueue_inv words d d' : fits d words → enqueue words d = Some d' → inv d → inv d'.
Proof.
  intros Hfit H [Hq Hr Hc]. unfold enqueue in H. destruct (failure d); [done|]. case_match; [done|].
  destruct (push _ _) as [q| |] eqn:Hp; try done. injection H as <-.
  apply push_Ok in Hp as (Hcpu & Hslot & Hp). destruct (no_owner d Hc Hcpu). constructor.
  - by apply admit_queue_inv.
  - by apply admit_run_inv.
  - apply admit_cpu_inv; try done. by apply push_admitted_Ok in Hp as ->.
Qed.

Lemma sync_push_inv t d d' : sync_push t d = Some d' → inv d → inv d'.
Proof.
  intros H [Hq Hr Hc]. unfold sync_push in H.
  destruct (clients d !! t) as [[words owner| | | |]|] eqn:Ht; try done.
  pose proof (ri_client _ Hr _ _ _ Ht) as Hfit. destruct (failure d).
  { injection H as <-. destruct owner; constructor;
      [by apply with_clients_queue_inv|by apply set_client_run|by eapply replace_client_cpu
      |by apply with_clients_queue_inv|by apply drop_client_run|by eapply leave_client_cpu]. }
  destruct owner.
  - destruct (push_cpu_checkpoint _ _) as [q| |] eqn:Hp; try done. injection H as <-.
    apply push_checkpoint_Ok in Hp as (Hcpu & Hslot & Hp). pose proof (push_admitted_Ok _ _ _ Hp) as Hq'. constructor.
    + by apply with_clients_queue_inv, admit_queue_inv.
    + apply set_client_run; [|done]. by apply admit_run_inv.
    + eapply (replace_client_cpu t (CPush words true)); try done; [|by intros id [= <-]].
      apply admit_cpu_inv; [done|by rewrite Hq'|..].
      * intros t' Ht'. pose proof (ci_unique _ Hc t t' _ _ Ht Ht' eq_refl eq_refl). congruence.
      * intros t' id Ht'. pose proof (ci_unique _ Hc t t' _ _ Ht Ht' eq_refl eq_refl). congruence.
  - destruct (push _ _) as [q| |] eqn:Hp; try done. injection H as <-.
    apply push_Ok in Hp as (Hcpu & Hslot & Hp). pose proof (push_admitted_Ok _ _ _ Hp) as Hq'.
    destruct (no_owner d Hc Hcpu). constructor.
    + by apply with_clients_queue_inv, admit_queue_inv.
    + apply set_client_run; [|done]. by apply admit_run_inv.
    + eapply (replace_client_cpu t (CPush words false)); try done. apply admit_cpu_inv; [done|by rewrite Hq'|done..].
Qed.

(** Identities are positions in the order of admission. *)
Lemma admission_index d i s : queue_inv d → d.(admissions) !! i = Some s → s.(sub_id) = i.
Proof.
  intros Hq Hi. pose proof (f_equal (.!! i) (qi_ids _ Hq)) as H. cbn in H. rewrite list_lookup_fmap, Hi in H. cbn in H.
  symmetry in H. apply lookup_seq in H. lia.
Qed.

Lemma length_admissions d : queue_inv d → length d.(admissions) = d.(next_id).
Proof. intros Hq. pose proof (f_equal length (qi_ids _ Hq)) as H. by rewrite length_fmap, length_seq in H. Qed.

(** The last admission is settled only when the worker is done with all. *)
Lemma last_settled d s x :
  queue_inv d → (s, x) ∈ d.(settled) → S s.(sub_id) = d.(next_id) →
  taken d.(worker) = [] ∧ queued d.(queue) = [].
Proof.
  intros Hq [i Hi]%list_elem_of_lookup Hs. pose proof (lookup_lt_Some _ _ _ Hi) as Hlt.
  assert (d.(admissions) !! i = Some s) as Ha.
  { rewrite (qi_fifo _ Hq), lookup_app_l by (by rewrite length_fmap). by rewrite list_lookup_fmap, Hi. }
  apply admission_index in Ha; [|done]. pose proof (length_admissions d Hq) as Hl.
  rewrite (qi_fifo _ Hq), !length_app, length_fmap in Hl.
  destruct (taken (worker d)), (queued (queue d)); cbn in Hl; try lia. done.
Qed.

Lemma sync_wait_inv t d d' : sync_wait t d = Some d' → inv d → inv d'.
Proof.
  intros H [Hq Hr Hc]. unfold sync_wait in H.
  destruct (clients d !! t) as [[|id owner| | |]|] eqn:Ht; try done.
  destruct (results d !! id) as [r|] eqn:Hres; [|done]. injection H as <-. destruct owner; constructor.
  - by apply with_clients_queue_inv.
  - apply set_client_run; [done|]. by destruct r.
  - eapply replace_client_cpu; [done|done|by destruct r|by destruct r|]. intros _.
    destruct (ri_results _ Hr _ _ Hres) as (s & <- & _ & Hs).
    eapply last_settled; [done..|]. by apply (ci_wait _ Hc t).
  - by apply with_clients_queue_inv.
  - by apply drop_client_run.
  - by eapply leave_client_cpu.
Qed.

Lemma queue_flag_inv q d :
  queue_inv d → q = mk_queue (queued d.(queue)) (outstanding d.(queue)) (running d.(queue)) (capacity d.(queue)) (cpu_access q) →
  queue_inv (with_queue q d).
Proof. intros [[] ? ? ? ?] ->. by constructor. Qed.

Lemma cpu_begin_inv t d d' : cpu_begin t d = Some d' → inv d → inv d'.
Proof.
  intros H [Hq Hr Hc]. unfold cpu_begin in H. destruct (clients d !! t) as [[| | | |]|] eqn:Ht; try done.
  destruct (failure d).
  { injection H as <-. constructor; [by apply with_clients_queue_inv|by apply drop_client_run|by eapply leave_client_cpu]. }
  unfold try_begin_cpu_access in H. destruct (cpu_access (queue d)) eqn:Hcpu; [done|]. injection H as <-. constructor.
  - apply with_clients_queue_inv. by apply queue_flag_inv.
  - apply set_client_run; [by destruct Hr; constructor|]. intros w o [= <- <-].
    destruct (ri_hw _ Hr) as [_ _ ? _ _]. unfold fits. cbn. change (len []) with 0. lia.
  - destruct Hc as [Hfl Hun How Hwt Hhd].
    assert (∀ t' x, clients d !! t' = Some x → owns x = false) as Hno
      by (intros t' x Hx; destruct (owns x) eqn:E; [|done]; by rewrite (Hfl t' x Hx E) in Hcpu).
    constructor; cbn; try done.
    + intros t1 t2 x1 x2 [[<- <-]|[? H1%Hno]]%lookup_insert_Some [[<- <-]|[? H2%Hno]]%lookup_insert_Some; congruence.
    + exists t, (CPush [] true). by rewrite lookup_insert_eq.
    + intros t' id [[_ ?]|[? H1%Hno]]%lookup_insert_Some; done.
    + intros t' [[_ ?]|[? H1%Hno]]%lookup_insert_Some; done.
Qed.

Lemma cpu_end_inv t d d' : cpu_end t d = Some d' → inv d → inv d'.
Proof.
  intros H [Hq Hr Hc]. unfold cpu_end in H.
  destruct (clients d !! t) as [[| | | |]|] eqn:Ht; try done; injection H as <-; constructor;
    [apply with_clients_queue_inv; by apply queue_flag_inv|apply drop_client_run; by destruct Hr; constructor
    |by eapply release_cpu|apply with_clients_queue_inv; by apply queue_flag_inv
    |apply drop_client_run; by destruct Hr; constructor|by eapply release_cpu].
Qed.

(** A step of another user of the hardware. *)
Lemma hardware_inv fuel h d : inv d → hw_step fuel d.(hardware) h → inv (with_hardware h d).
Proof.
  intros [Hq Hr Hc] Hs. destruct (hw_step_wf _ _ _ (ri_hw _ Hr) Hs) as (Hwf & Hcs & _ & Hb & _).
  constructor; [by destruct Hq; constructor| |by destruct Hc; constructor].
  destruct Hr as [Hh Hf Hcl Hk Hca Hse Hres]. constructor; cbn; unfold fits in *; cbn; rewrite ?Hcs; try done.
  unfold worker_knows in *. cbn. destruct (worker d); try done. destruct Hk. auto.
Qed.

Lemma step_inv fuel d d' : step fuel d d' → inv d → inv d'.
Proof.
  intros Hs Hi. destruct Hs as [H|words Hf H|t words Hf H|t H|t H|t H|t H|t H|env He ->|stop g v He ->].
  - destruct Hi as [Hq Hr Hc]. constructor; [by eapply worker_step_queue|by eapply worker_step_run|by eapply worker_step_cpu].
  - by eapply enqueue_inv.
  - unfold enter_submit in H. destruct (clients d !! t) eqn:Ht; [done|]. injection H as <-. destruct Hi. constructor;
      [by apply with_clients_queue_inv|apply set_client_run; [done|by intros w o [= <- <-]]|by apply enter_client_cpu].
  - by eapply sync_push_inv.
  - by eapply sync_wait_inv.
  - unfold enter_cpu in H. destruct (clients d !! t) eqn:Ht; [done|]. injection H as <-. destruct Hi. constructor;
      [by apply with_clients_queue_inv|by apply set_client_run|by apply enter_client_cpu].
  - by eapply cpu_begin_inv.
  - by eapply cpu_end_inv.
  - eapply hardware_inv; [done|]. by constructor.
  - eapply hardware_inv; [done|]. by constructor.
Qed.

Lemma reachable_inv fuel d : reachable fuel d → inv d.
Proof.
  intros (h & Hh & _ & Hr). pose proof (initial_inv h Hh) as Hi.
  induction Hr as [|d1 d2 d3 Hs _ IH]; [done|]. apply IH. by eapply step_inv.
Qed.

(** ** Histories *)

(** The states of a history, the newest first. *)
Inductive trace (fuel : nat) : list Core → Prop :=
| trace_start h : hw_wf h → h.(boot) = Cold → trace fuel [initial h]
| trace_step d d' past : trace fuel (d :: past) → step fuel d d' → trace fuel (d' :: d :: past).

Lemma trace_reachable fuel d past : trace fuel (d :: past) → reachable fuel d.
Proof.
  intros H. remember (d :: past) as l eqn:Hl. revert d past Hl.
  induction H as [h Hh Hb|d1 d' past' _ IH Hs]; intros d past [= <- <-]; [by exists h|].
  destruct (IH _ _ eq_refl) as (h & Hh & Hb & Hr). exists h. split_and!; [done..|]. by eapply rtc_r.
Qed.

Lemma reachable_trace fuel d : reachable fuel d → ∃ past, trace fuel (d :: past).
Proof.
  intros (h & Hh & Hb & Hr). revert d Hr. apply rtc_ind_r; [exists []; by constructor|].
  intros d1 d2 _ Hs [past IH]. exists (d1 :: past). by constructor.
Qed.

(** The step from [d1] to [d2] is the worker running [s] on the GPU, and in it
    the hardware showed that it retired the words of [s]. *)
Definition retiring_step (fuel : nat) (s : Submission) (d1 d2 : Core) : Prop :=
  ∃ env, d1.(worker) = WReady s ∧ ring_expires fuel env ∧ worker_submit fuel env d1 = Some d2 ∧
    retired env s.(sub_words) d1.(hardware) d2.(hardware).

(** The retirements grow in these steps only. *)
Lemma step_retires fuel d d' s :
  inv d → step fuel d d' → s ∈ d'.(retirements) → s ∈ d.(retirements) ∨ retiring_step fuel s d d'.
Proof.
  intros [Hq Hi _] Hs Hin. destruct Hs as [Hw|words _ H|t words _ H|t H|t H|t H|t H|t H|env _ ->|stop g v _ ->].
  2-10: left; unfold enqueue, record_admission, enter_submit, sync_push, sync_wait, enter_cpu, cpu_begin, cpu_end in *;
    repeat case_match; by simplify_eq/=.
  destruct Hw as [H|env _ H|env He H|H|H|H|H].
  1-2, 4-7: left; unfold worker_start, worker_ensure, worker_load, worker_record, worker_settle, worker_finish in H;
    repeat case_match; by simplify_eq/=.
  pose proof H as Hsub. unfold worker_submit in H. destruct (worker d) as [|s' f|s'|s' r|s' r q|s' r q|q] eqn:Hw; try done.
  pose proof (ri_knows _ Hi) as Hk. unfold worker_knows in Hk. rewrite Hw in Hk. destruct Hk as [_ Hb].
  pose proof (submit_after fuel env (sub_words s') _ (ri_hw _ Hi) Hb (ready_fits _ _ Hq Hi Hw) He) as Ha.
  destruct (submit_words _ _ _ _) as [r h]. destruct Ha as (_ & _ & _ & Ha).
  destruct r as [[]|e|]; [|injection H as <-; by left|done]. injection H as <-. cbn in Hin.
  apply elem_of_app in Hin as [?| ->%list_elem_of_singleton]; [by left|]. right. by exists env.
Qed.

Lemma trace_retires fuel past d s :
  trace fuel (d :: past) → s ∈ d.(retirements) →
  ∃ i d1 d2, (d :: past) !! S i = Some d1 ∧ (d :: past) !! i = Some d2 ∧ retiring_step fuel s d1 d2.
Proof.
  revert d. induction past as [|d1 past IH]; intros d Ht Hin; inversion Ht; subst.
  - by apply elem_of_nil in Hin.
  - destruct (step_retires fuel d1 d s) as [Hin'|Hstep]; [by eapply reachable_inv, trace_reachable|done..| |].
    + destruct (IH d1) as (i & e1 & e2 & ? & ? & ?); [done..|]. by exists (S i), e1, e2.
    + by exists 0%nat, d1, d.
Qed.

(** ** What the invariants mean *)

(** C9: Submissions are settled once, in the order they were admitted.  At the
    end of every history the admissions are, in order, the settled ones, the one
    the worker holds and the queued ones; identities never repeat; a synchronous
    caller finds a result only after its own submission was settled, and that
    very result; a submission is answered with success only when the history
    contains the step in which the worker ran it, and in that step the hardware
    showed the retirement of its words; and the slots in use, the quarantined
    ones included, never exceed the capacity. *)
Theorem dispatch_in_order fuel d past :
  trace fuel (d :: past) →
  d.(admissions) = d.(settled).*1 ++ taken d.(worker) ++ queued d.(queue) ∧
  NoDup (sub_id <$> d.(admissions)) ∧
  (∀ id r, d.(results) !! id = Some r →
     ∃ s, s.(sub_id) = id ∧ s.(sub_observer) = Sync ∧ (s, Completed r) ∈ d.(settled)) ∧
  (∀ s, (s, Completed (inr tt)) ∈ d.(settled) →
     ∃ i d1 d2, (d :: past) !! S i = Some d1 ∧ (d :: past) !! i = Some d2 ∧ retiring_step fuel s d1 d2) ∧
  len (queued d.(queue)) + (if is_idle d.(worker) then 0 else 1) + d.(lost) = outstanding d.(queue) ∧
  outstanding d.(queue) ≤ ASYNC_CAPACITY.
Proof.
  intros Ht. pose proof Ht as [[Hacc Hcap Hrun Hf Hi] Hr _]%trace_reachable%reachable_inv.
  destruct Hacc as [Hl Hs Hb _].
  split_and!; [done| |by apply Hr| | |by rewrite <- Hcap].
  - rewrite Hi. apply NoDup_seq.
  - intros s Hx%(ri_settled _ Hr). by eapply trace_retires.
  - rewrite Hs, Hrun. destruct (is_idle (worker d)); cbn; lia.
Qed.

(** C7: A CPU access has the GPU to itself.  While a caller holds the guard
    that [begin_cpu_access] returned, nothing is queued and the worker holds
    no submission, so everything admitted before has been settled; nobody else
    holds a guard or a reservation; and no step of any thread admits work or
    runs a submission on the GPU until the guard is dropped. *)
Theorem cpu_access_exclusive fuel d t :
  reachable fuel d → d.(clients) !! t = Some CHeld →
  queued d.(queue) = [] ∧ taken d.(worker) = [] ∧ d.(admissions) = d.(settled).*1 ∧
  (∀ t' c, d.(clients) !! t' = Some c → owns c = true → t' = t) ∧
  ∀ d', step fuel d d' →
    (∀ s, d'.(worker) ≠ WReady s) ∧ d'.(retirements) = d.(retirements) ∧ d'.(admissions) = d.(admissions).
Proof.
  intros [Hq Hr Hc]%reachable_inv Ht. destruct (ci_held _ Hc t Ht) as [Htk Hqd].
  pose proof (ci_flag _ Hc t CHeld Ht eq_refl) as Hflag.
  split_and!; [done|done|by rewrite (qi_fifo _ Hq), Htk, Hqd, app_nil_r| |].
  { intros t' c Hc' Ho. by apply (ci_unique _ Hc t' t c CHeld). }
  assert (∀ s, worker d ≠ WReady s) as Hnr by (by intros s Hs; rewrite Hs in Htk).
  intros d' Hs. destruct Hs as [H|words Hf H|t' words Hf H|t' H|t' H|t' H|t' H|t' H|env He ->|stop g v He ->].
  - destruct H as [H|env _ H|env _ H|H|H|H|H]; unfold worker_start, start_next, worker_ensure, worker_submit,
      worker_load, worker_record, worker_settle, worker_finish in H; destruct (worker d); try done; rewrite ?Hqd in H;
      repeat case_match; simplify_eq/=; by split_and!.
  - unfold enqueue in H. destruct (failure d); [done|]. unfold has_capacity in H. by rewrite Hflag in H.
  - unfold enter_submit in H. case_match; [done|]. injection H as <-. by split_and!.
  - unfold sync_push in H. destruct (clients d !! t') as [[words [] | | | |]|] eqn:Ht'; try done.
    + pose proof (ci_unique _ Hc t t' _ _ Ht Ht' eq_refl eq_refl). congruence.
    + destruct (failure d); [injection H as <-; by split_and!|]. unfold push, has_capacity in H. by rewrite Hflag in H.
  - unfold sync_wait in H. repeat case_match; simplify_eq/=; by split_and!.
  - unfold enter_cpu in H. case_match; [done|]. injection H as <-. by split_and!.
  - unfold cpu_begin, try_begin_cpu_access in H. repeat case_match; simplify_eq/=; by split_and!.
  - unfold cpu_end in H. repeat case_match; simplify_eq/=; by split_and!.
  - by split_and!.
  - by split_and!.
Qed.

(** A recorded failure is final. *)
Lemma failed_step fuel d d' e :
  inv d → d.(failure) = Some e → step fuel d d' →
  d'.(failure) = Some e ∧ d'.(admissions) = d.(admissions) ∧ d'.(retirements) = d.(retirements).
Proof.
  intros [Hq Hr Hc] Hf Hs. pose proof (ri_knows _ Hr) as Hk. unfold worker_knows in Hk.
  destruct Hs as [H|words _ H|t' words _ H|t' H|t' H|t' H|t' H|t' H|env He ->|stop g v He ->]; [|try done..].
  - destruct H as [H|env _ H|env _ H|H|H|H|H]; unfold worker_start, worker_ensure, worker_submit,
      worker_load, worker_record, worker_settle, worker_finish in H; destruct (worker d); try done;
      [..|by destruct Hk; congruence| | | |]; rewrite ?Hf in H; repeat case_match; simplify_eq/=; done.
  - unfold enqueue in H. by rewrite Hf in H.
  - unfold enter_submit in H. by repeat case_match; simplify_eq/=.
  - unfold sync_push in H. rewrite Hf in H. by repeat case_match; simplify_eq/=.
  - unfold sync_wait in H. by repeat case_match; simplify_eq/=.
  - unfold enter_cpu in H. by repeat case_match; simplify_eq/=.
  - unfold cpu_begin in H. rewrite Hf in H. by repeat case_match; simplify_eq/=.
  - unfold cpu_end in H. by repeat case_match; simplify_eq/=.
Qed.

(** The driver fails stop.  Once the worker has recorded a failure, whatever
    the threads do afterwards, the first failure stays, no submission is
    admitted and none is run on the GPU again; and a submission that the worker
    takes after that is answered with that failure. *)
Theorem failure_is_final fuel d d' e :
  reachable fuel d → d.(failure) = Some e → rtc (step fuel) d d' →
  d'.(failure) = Some e ∧ d'.(admissions) = d.(admissions) ∧ d'.(retirements) = d.(retirements) ∧
  (∀ s, d'.(worker) ≠ WReady s) ∧ (∀ s f, d'.(worker) = WStarted s f → f = Some e).
Proof.
  intros Hi%reachable_inv Hf Hr. revert Hi Hf.
  induction Hr as [d|d1 d2 d3 Hs _ IH]; intros Hi Hf.
  - pose proof (ri_knows _ (inv_run _ Hi)) as Hk. unfold worker_knows in Hk.
    split_and!; try done; [intros s Hw|intros s f Hw]; rewrite Hw in Hk; [destruct Hk|]; congruence.
  - destruct (failed_step fuel d1 d2 e Hi Hf Hs) as (Hf2 & Ha & Hre).
    rewrite <- Ha, <- Hre. apply IH; [by eapply step_inv|done].
Qed.

(** ** Progress *)
Definition rank (w : Worker) : nat :=
  match w with
  | WIdle => 0
  | WFinishing _ => 1
  | WRecorded _ _ _ => 2
  | WLoaded _ _ _ => 3
  | WExecuted _ _ => 4
  | WReady _ => 5
  | WStarted _ _ => 6
  end.

Definition work (d : Core) : nat := 7 * length (queued d.(queue)) + rank d.(worker).

Lemma worker_step_decreases fuel d d' : worker_step fuel d d' → (work d' < work d)%nat ∧ admissions d' = admissions d.
Proof.
  unfold work. intros [H|env _ H|env _ H|H|H|H|H]; unfold worker_start, start_next, worker_ensure, worker_submit,
    worker_load, worker_record, worker_settle, worker_finish, finish in H; destruct (worker d); try done;
    repeat case_match; simplify_eq/=; (split; [|done]); try lia.
Qed.

Lemma worker_progress fuel boot_env env d :
  boot_expires fuel boot_env → ring_expires fuel env → inv d →
  (d.(worker) = WIdle ∧ queued d.(queue) = []) ∨ ∃ d', worker_step fuel d d'.
Proof.
  intros Hb He [Hq Hr _]. destruct (worker d) as [|s f|s|s r|s r q|s r q|q] eqn:Hw.
  - pose proof (qi_running _ Hq) as Hrun. rewrite Hw in Hrun. destruct (queued (queue d)) as [|s rest] eqn:Hqd; [by left|].
    right. eexists. apply ws_start. unfold worker_start, start_next. rewrite Hw, Hrun, Hqd. done.
  - right. destruct f as [e|]; [eexists; eapply ws_ensure; [done|]; unfold worker_ensure; by rewrite Hw|].
    pose proof (ensure_after fuel boot_env _ (ri_hw _ Hr) Hb) as Ha.
    destruct (ensure_hardware_ready fuel boot_env (hardware d)) as [[[]|e|] h] eqn:E;
      [| |by destruct Ha as (_ & _ & _ & [])];
      eexists; eapply ws_ensure; try done; unfold worker_ensure; rewrite Hw, E; done.
  - right. pose proof (ri_knows _ Hr) as Hk. unfold worker_knows in Hk. rewrite Hw in Hk. destruct Hk as [_ Hcold].
    assert (fits d (sub_words s)) as Hfit.
    { pose proof (ri_fits _ Hr) as Hf. rewrite (qi_fifo _ Hq), Hw, !Forall_app in Hf.
      destruct Hf as (_ & [Hf _]%Forall_cons & _). done. }
    pose proof (submit_after fuel env (sub_words s) _ (ri_hw _ Hr) Hcold Hfit He) as Ha.
    destruct (submit_words fuel env (sub_words s) (hardware d)) as [[[]|e|] h] eqn:E;
      [| |by destruct Ha as (_ & _ & _ & [])];
      eexists; eapply ws_submit; try done; unfold worker_submit; rewrite Hw, E; done.
  - right. eexists. apply ws_load. unfold worker_load. by rewrite Hw.
  - right. eexists. apply ws_record. unfold worker_record. by rewrite Hw.
  - right. eexists. apply ws_settle. unfold worker_settle. by rewrite Hw.
  - right. pose proof (qi_running _ Hq) as Hrun. rewrite Hw in Hrun. cbn in Hrun.
    destruct (qi_accounted _ Hq) as [Hl Hs _ _]. rewrite Hrun in Hs. pose proof (len_nonneg (queued (queue d))).
    destruct q; eexists; apply ws_finish; unfold worker_finish, finish, checked_sub; rewrite Hw, Hrun; cbn;
      rewrite ?(proj2 (Z.leb_le 1 _)) by lia; reflexivity.
Qed.

Lemma worker_terminates fuel d : Acc (flip (worker_step fuel)) d.
Proof.
  apply (wf_projected lt work); [|apply lt_wf]. intros d1 d2 H. by apply worker_step_decreases in H as [? _].
Qed.

(** C10: The worker always drains the queue.  From every reachable state its
    turns come to an end, whatever the hardware answers as long as its clock
    advances; and when it has no turn left it is idle, the queue is empty and
    every admitted submission has been settled. *)
Theorem worker_drains fuel boot_env env d :
  boot_expires fuel boot_env → ring_expires fuel env → reachable fuel d →
  Acc (flip (worker_step fuel)) d ∧
  (∃ d', rtc (worker_step fuel) d d' ∧ ∀ d'', ¬ worker_step fuel d' d'') ∧
  ∀ d', rtc (worker_step fuel) d d' → (∀ d'', ¬ worker_step fuel d' d'') →
    d'.(worker) = WIdle ∧ queued d'.(queue) = [] ∧ d'.(settled).*1 = d.(admissions).
Proof.
  intros Hb He Hi%reachable_inv. split_and!.
  - apply worker_terminates.
  - pose proof (worker_terminates fuel d) as Hacc. induction Hacc as [d _ IH].
    destruct (worker_progress _ _ _ d Hb He Hi) as [[Hw Hq]|[d1 H1]].
    + exists d. split; [done|]. intros d'' [H|e' _ H|e' _ H|H|H|H|H]; unfold worker_start, start_next, worker_ensure,
        worker_submit, worker_load, worker_record, worker_settle, worker_finish in H; rewrite Hw in H; try done.
      rewrite Hq in H. by destruct (running (queue d)).
    + destruct (IH d1 H1) as (d' & Hr & Hn); [by eapply step_inv; [apply step_worker|]|].
      exists d'. split; [by eapply rtc_l|done].
  - intros d' Hr Hn. assert (inv d' ∧ admissions d' = admissions d) as [Hi' Ha].
    { induction Hr as [|d1 d2 d3 H1 _ IH]; [done|]. destruct (worker_step_decreases _ _ _ H1) as [_ <-].
      apply IH; [by eapply step_inv; [apply step_worker|]|done]. }
    destruct (worker_progress _ _ _ d' Hb He Hi') as [[Hw Hq]|[d1 H1]]; [|by destruct (Hn d1)].
    split_and!; [done..|]. rewrite <- Ha, (qi_fifo _ (inv_queue _ Hi')), Hw, Hq. by rewrite app_nil_r.
Qed.
End DispatchFacts.

(** * Histories of the dispatcher

    Concrete interleavings: a submission that completes, a CPU access that is
    granted, and a frequency change that loses the GPU between the two halves
    of a submission. *)

Module DispatchSample.
Import Pending Hw HwFacts Boot Dispatch DispatchFacts.

Definition forced (o : option Core) : Core := default (initial cold_hw) o.
Definition enabled (o : option Core) : bool := match o with Some _ => true | None => false end.

Lemma forced_eq o : enabled o = true → o = Some (forced o).
Proof. by destruct o. Qed.

Lemma reachable_step fuel d d' : reachable fuel d → step fuel d d' → reachable fuel d'.
Proof. intros (h & ? & ? & Hr) Hs. exists h. split_and!; [done..|]. by eapply rtc_r. Qed.

Lemma reachable_initial fuel : reachable fuel (initial cold_hw).
Proof. exists cold_hw. split_and!; [apply cold_hw_wf|done|done]. Qed.

(** The fence of a checkpoint after the boot packet. *)
Definition checkpoint_ring : RingEnv :=
  mk_ring_env (answering 0) 0 (λ _, mk_fence_poll 1 no_interrupts 1 16 0 2000000 no_interrupts) sample_stop true.

Lemma checkpoint_ring_expires : ring_expires 3 checkpoint_ring.
Proof. split_and!; [by apply answering_expires|exists 0%nat; split; [lia|done]|apply sample_stop_expires]. Qed.

(** A turn of the worker. *)
Definition turn_ready (d : Core) : Core := forced (worker_ensure 3 sample_boot (forced (worker_start d))).
Definition turn_settle (d : Core) : Core :=
  forced (worker_settle (forced (worker_record (forced (worker_load d))))).

Definition submitted : Core := forced (enqueue [7; 8; 9] (initial cold_hw)).
Definition answered : Core :=
  forced (worker_finish (turn_settle (forced (worker_submit 3 sample_ring (turn_ready submitted))))).

Lemma turn_ready_reachable d :
  reachable 3 d → enabled (worker_start d) = true →
  enabled (worker_ensure 3 sample_boot (forced (worker_start d))) = true → reachable 3 (turn_ready d).
Proof.
  intros Hd H1 H2. eapply reachable_step; [eapply reachable_step; [exact Hd|]|].
  - apply step_worker, ws_start. by apply forced_eq.
  - eapply step_worker, ws_ensure; [apply sample_boot_expires|]. by apply forced_eq.
Qed.

Lemma turn_settle_reachable d :
  reachable 3 d → enabled (worker_load d) = true → reachable 3 (turn_settle d).
Proof.
  intros Hd H1. unfold turn_settle.
  assert (enabled (worker_record (forced (worker_load d))) = true ∧
    enabled (worker_settle (forced (worker_record (forced (worker_load d))))) = true) as [H2 H3]
    by (unfold worker_load in *; destruct (worker d); done).
  eapply reachable_step; [eapply reachable_step; [eapply reachable_step; [exact Hd|]|]|].
  - apply step_worker, ws_load. by apply forced_eq.
  - apply step_worker, ws_record. by apply forced_eq.
  - apply step_worker, ws_settle. by apply forced_eq.
Qed.

Lemma submitted_reachable : reachable 3 submitted.
Proof.
  eapply reachable_step; [apply reachable_initial|].
  apply (step_enqueue _ _ _ [7; 8; 9]); [done|]. by apply forced_eq.
Qed.

Lemma answered_reachable : reachable 3 answered.
Proof.
  eapply reachable_step; [apply turn_settle_reachable; [eapply reachable_step; [apply turn_ready_reachable|]|]|].
  - apply submitted_reachable.
  - vm_compute; reflexivity.
  - vm_compute; reflexivity.
  - eapply step_worker, ws_submit; [apply sample_ring_expires|]. apply forced_eq. vm_compute. reflexivity.
  - vm_compute; reflexivity.
  - eapply step_worker, ws_finish. apply forced_eq. vm_compute. reflexivity.
Qed.

(** Thread 0 takes the GPU for a CPU access. *)
Definition reserved : Core :=
  forced (sync_push 0 (forced (cpu_begin 0 (forced (enter_cpu 0 (initial cold_hw)))))).
Definition held : Core :=
  forced (sync_wait 0 (turn_settle (forced (worker_submit 3 checkpoint_ring (turn_ready reserved))))).

Lemma reserved_reachable : reachable 3 reserved.
Proof.
  eapply reachable_step; [eapply reachable_step; [eapply reachable_step; [apply reachable_initial|]|]|].
  - apply (step_enter_cpu _ _ _ 0). by apply forced_eq.
  - apply (step_begin _ _ _ 0). by apply forced_eq.
  - apply (step_push _ _ _ 0). apply forced_eq. vm_compute. reflexivity.
Qed.

Lemma held_reachable : reachable 3 held ∧ held.(clients) !! 0%nat = Some CHeld.
Proof.
  split; [|vm_compute; reflexivity].
  eapply reachable_step; [apply turn_settle_reachable; [eapply reachable_step; [apply turn_ready_reachable|]|]|].
  - apply reserved_reachable.
  - vm_compute; reflexivity.
  - vm_compute; reflexivity.
  - eapply step_worker, ws_submit; [apply checkpoint_ring_expires|]. apply forced_eq. vm_compute. reflexivity.
  - vm_compute; reflexivity.
  - apply (step_wait _ _ _ 0). apply forced_eq. vm_compute. reflexivity.
Qed.

(** The frequency driver loses the GPU after [ensure_hardware_ready] released
    the lock. *)
Definition raced : Core :=
  change_frequency 3 sample_stop true (inl "vote timed out"%string) (turn_ready submitted).

Lemma raced_reachable : reachable 3 raced.
Proof.
  eapply reachable_step; [apply turn_ready_reachable; [apply submitted_reachable|vm_compute; reflexivity..]|].
  eapply step_frequency; [apply sample_stop_expires|reflexivity].
Qed.

(** C21: The two halves of a submission take the hardware lock separately, and
    the second does not look at the boot state.  There is a reachable state in
    which the GPU is lost and without power, and the worker's next step writes
    its registers. *)
Theorem lost_gpu_registers_written :
  ∃ d d' l, reachable 3 d ∧ worker_step 3 d d' ∧
    d.(hardware).(boot) = Lost ∧ d.(hardware).(gpu_oob_held) = false ∧
    d'.(hardware).(mmio) = d.(hardware).(mmio) ++ l ∧ (Reg.CP_RB_WPTR, 26) ∈ l.
Proof.
  exists raced, (forced (worker_submit 3 sample_ring raced)), [(Reg.CP_RB_WPTR, 26)].
  split_and!; [apply raced_reachable| |vm_compute; reflexivity..|].
  - eapply ws_submit; [apply sample_ring_expires|]. apply forced_eq. vm_compute. reflexivity.
  - by apply list_elem_of_singleton.
Qed.

(** ** Witnesses *)
Lemma dispatch_in_order_witness :
  ∃ past, trace 3 (answered :: past) ∧
  answered.(admissions) = answered.(settled).*1 ++ taken answered.(worker) ++ queued answered.(queue) ∧
  ∃ s, (s, Completed (inr tt)) ∈ answered.(settled) ∧
    ∃ i d1 d2, (answered :: past) !! S i = Some d1 ∧ (answered :: past) !! i = Some d2 ∧ retiring_step 3 s d1 d2.
Proof.
  destruct (reachable_trace 3 answered answered_reachable) as [past Ht]. exists past.
  destruct (dispatch_in_order 3 answered past Ht) as (Hf & _ & _ & Hr & _).
  split; [exact Ht|]. split; [exact Hf|].
  exists (mk_submission 0 [7; 8; 9] Async).
  assert ((mk_submission 0 [7; 8; 9] Async, Completed (inr tt)) ∈ answered.(settled)) as Hin
    by (apply list_elem_of_lookup; exists 0%nat; vm_compute; reflexivity).
  split; [exact Hin|apply (Hr _ Hin)].
Defined.

Lemma cpu_access_exclusive_witness :
  queued held.(queue) = [] ∧ taken held.(worker) = [] ∧ held.(admissions) = held.(settled).*1.
Proof.
  destruct (cpu_access_exclusive 3 held 0 (proj1 held_reachable) (proj2 held_reachable)) as (H1 & H2 & H3 & _).
  split; [exact H1|split; [exact H2|exact H3]].
Defined.

(** A GPU that never answers. *)
Definition dead_ring : RingEnv :=
  mk_ring_env (answering 0) 0 (λ _, mk_fence_poll 0 no_interrupts 0 0 0 2000000 no_interrupts) sample_stop true.

Lemma dead_ring_expires : ring_expires 3 dead_ring.
Proof. split_and!; [by apply answering_expires|exists 0%nat; split; [lia|done]|apply sample_stop_expires]. Qed.

Definition failed : Core :=
  turn_settle (forced (worker_submit 3 dead_ring (turn_ready submitted))).

Lemma failed_reachable : reachable 3 failed.
Proof.
  apply turn_settle_reachable; [eapply reachable_step; [apply turn_ready_reachable|]|].
  - apply submitted_reachable.
  - vm_compute; reflexivity.
  - vm_compute; reflexivity.
  - eapply step_worker, ws_submit; [apply dead_ring_expires|].
    apply forced_eq. vm_compute. reflexivity.
  - vm_compute; reflexivity.
Qed.

Lemma failure_is_final_witness :
  let e := DeviceLost "qcom-adreno-a618: GPU fence timed out" in
  failed.(failure) = Some e ∧
  (forced (worker_finish failed)).(failure) = Some e ∧
  (forced (worker_finish failed)).(admissions) = failed.(admissions).
Proof.
  assert (failed.(failure) = Some (DeviceLost "qcom-adreno-a618: GPU fence timed out")) as Hf by (vm_compute; reflexivity).
  destruct (failure_is_final 3 failed (forced (worker_finish failed)) _ failed_reachable Hf) as (H1 & H2 & _).
  - apply rtc_once, step_worker, ws_finish. apply forced_eq. vm_compute. reflexivity.
  - split; [exact Hf|split; [exact H1|exact H2]].
Defined.

Lemma worker_drains_witness :
  ∃ d', rtc (worker_step 3) submitted d' ∧ d'.(worker) = WIdle ∧ d'.(settled).*1 = submitted.(admissions).
Proof.
  destruct (worker_drains 3 sample_boot sample_ring submitted sample_boot_expires sample_ring_expires submitted_reachable)
    as (_ & (d' & Hr & Hn) & Hall).
  destruct (Hall d' Hr Hn) as (Hw & _ & Hs). exists d'. split; [exact Hr|split; [exact Hw|exact Hs]].
Defined.
End DispatchSample.
