(* ===== verification/Resources.v ===== *)
(** * Image plans and resource mappings

    Model of the part of [backend.rs] that decides how an image is laid out
    and what the GPU may do with it: [plan_image], the metadata that
    [create_image_with_layout] and [import_shared_image] record, and the
    mapping of its memory by [map_backing] and [map_image_backing].

    The records and constants of the kernel's graphics interface, its linear
    layout function and its descriptor check are not part of this repository:
    they are the fields of the class [KernelGpu]. *)
From S2P Require Import Prelude ImageLayout SubmitWire SubmitTypes SubmitNoPanic.

Module Resources.

(** ** The kernel's graphics interface *)
Record GpuImageCreateInfo := mk_create {
  ci_format : Z;
  ci_usage : Z;
  ci_width : Z;
  ci_height : Z;
  ci_mip_levels : Z;
  ci_array_layers : Z;
  ci_cube : bool;
}.

Record GpuBackendImagePlaneLayout := mk_plane {
  pl_offset : Z;
  pl_size : Z;
  pl_row_pitch : Z;
  pl_array_pitch : Z;
  pl_block_width : Z;
  pl_block_height : Z;
  pl_bytes_per_block : Z;
}.

(** [planes] is an array of four: plane 0 and the rest. *)
Record GpuBackendImageLayout := mk_layout {
  il_modifier : Z;
  il_total_size : Z;
  il_alignment : Z;
  il_plane_count : Z;
  il_plane0 : GpuBackendImagePlaneLayout;
  il_planes : list GpuBackendImagePlaneLayout;
}.

#[export] Instance plane_eq_dec : EqDecision GpuBackendImagePlaneLayout.
Proof. solve_decision. Defined.
#[export] Instance layout_eq_dec : EqDecision GpuBackendImageLayout.
Proof. solve_decision. Defined.

(** [GpuImageBackingInfo], by what its methods answer. *)
Record GpuImageBackingInfo := mk_backing {
  bk_paddr : Z;
  bk_allocation_size : Z;
  bk_contiguous : bool;
  bk_segments : list (Z * Z);
}.

Record SharedPlane := mk_shared_plane {
  sp_buffer_index : Z;
  sp_offset : Z;
  sp_row_pitch : Z;
  sp_size : Z;
}.

Record SharedImageDescriptor := mk_descriptor {
  sd_format : Z;
  sd_modifier : Z;
  sd_buffer_count : Z;
  sd_visible : Z * Z * Z * Z;
  sd_width : Z;
  sd_height : Z;
  sd_plane0 : SharedPlane;
  sd_plane1 : SharedPlane;
  sd_buffer_size0 : Z;
}.

Record ImageColor := mk_color {
  ic_reserved : list Z;
  ic_matrix : Z;
  ic_range : Z;
  ic_chroma_x : Z;
  ic_chroma_y : Z;
}.

Class KernelGpu := {
  GPU_IMAGE_FORMAT_BGRA8_UNORM : Z;
  GPU_IMAGE_FORMAT_DEPTH32_FLOAT : Z;
  GPU_IMAGE_FORMAT_NV12 : Z;
  GPU_IMAGE_USAGE_RENDER_TARGET : Z;
  GPU_IMAGE_USAGE_PRESENTABLE : Z;
  GPU_IMAGE_USAGE_SAMPLED : Z;
  GPU_IMAGE_USAGE_TRANSFER_SRC : Z;
  GPU_IMAGE_USAGE_TRANSFER_DST : Z;
  GPU_IMAGE_USAGE_DEPTH_STENCIL_ATTACHMENT : Z;
  IMAGE_FORMAT_NV12 : Z;
  COLOR_MATRIX_BT601 : Z;
  COLOR_MATRIX_BT709 : Z;
  COLOR_RANGE_LIMITED : Z;
  COLOR_RANGE_FULL : Z;
  CHROMA_COSITED : Z;
  CHROMA_MIDPOINT : Z;
  PAGE_SIZE : Z;
  EMPTY : GpuBackendImagePlaneLayout;
  linear_32bpp : GpuImageCreateInfo → Z → Z → outcome string GpuBackendImageLayout;
  descriptor_validate : SharedImageDescriptor → outcome string ();
}.

(** What the driver relies on: formats are told apart, and a linear layout of
    a given pitch has that pitch and room for the rows of the image. *)
Class KernelGpuLaws (K : KernelGpu) : Prop := {
  formats_distinct : GPU_IMAGE_FORMAT_BGRA8_UNORM ≠ GPU_IMAGE_FORMAT_DEPTH32_FLOAT;
  linear_pitch create pitch alignment layout :
    linear_32bpp create pitch alignment = Ok layout → layout.(il_plane0).(pl_row_pitch) = pitch;
  linear_room create pitch alignment layout :
    linear_32bpp create pitch alignment = Ok layout → pitch * create.(ci_height) ≤ layout.(il_total_size);
  linear_modifier create pitch alignment layout :
    linear_32bpp create pitch alignment = Ok layout → layout.(il_modifier) = 0;
  linear_total create pitch alignment : ensures (λ l, u64 l.(il_total_size)) (linear_32bpp create pitch alignment);
}.

Section Images.
Context `{K : KernelGpu}.
Implicit Types create : GpuImageCreateInfo.

(** ** Planning *)
Definition one_plane (modifier total_size alignment : Z) (p : GpuBackendImagePlaneLayout) :
    GpuBackendImageLayout :=
  mk_layout modifier total_size alignment 1 p [EMPTY; EMPTY; EMPTY].

Definition tiled_color create : bool :=
  (create.(ci_format) =? GPU_IMAGE_FORMAT_BGRA8_UNORM)
  && (create.(ci_usage) =? GPU_IMAGE_USAGE_RENDER_TARGET .| GPU_IMAGE_USAGE_SAMPLED)
  && (create.(ci_mip_levels) =? 1) && (create.(ci_array_layers) =? 1)
  && (64 <=? create.(ci_width)).

Definition try_u32 (x : Z) : option Z := if x <=? U32_MAX then Some x else None.

Definition plan_tiled create : outcome string GpuBackendImageLayout :=
  let? tiled := ok_or (depth32_tile6_3_layout create.(ci_width) create.(ci_height))
    ("qcom-adreno-a618: tiled depth layout overflows" : string) in
  let? array_pitch := ok_or (try_u32 tiled.(d32_layer_size))
    ("qcom-adreno-a618: depth layer pitch exceeds the backend ABI" : string) in
  let? total_size := ok_or (checked_mul U64_MAX tiled.(d32_layer_size) create.(ci_array_layers))
    ("qcom-adreno-a618: depth array size overflows" : string) in
  Ok (one_plane (if tiled_color create then IMAGE_MODIFIER_TILE6_3_COLOR else IMAGE_MODIFIER_TILE6_3_DEPTH)
        total_size DEPTH32_LAYER_ALIGNMENT
        (mk_plane 0 total_size tiled.(d32_row_pitch) array_pitch 1 1 4)).

Definition plan_texture create : outcome string GpuBackendImageLayout :=
  let? texture := map_err (LinearTextureLayout_new create.(ci_width) create.(ci_height)
                             create.(ci_mip_levels) create.(ci_array_layers))
    ("qcom-adreno-a618: texture layout overflows" : string) in
  Ok (one_plane 0 texture.(total_size) PAGE_SIZE
        (mk_plane 0 texture.(total_size) texture.(row_pitch) texture.(layer_stride) 1 1 4)).

Definition plan_linear create : outcome string GpuBackendImageLayout :=
  let? row_bytes := ok_or (checked_mul U32_MAX create.(ci_width) 4)
    ("qcom-adreno-a618: image row size overflows" : string) in
  let? padded := ok_or (checked_add U32_MAX row_bytes 63)
    ("qcom-adreno-a618: image row pitch overflows" : string) in
  linear_32bpp create (padded .&~ 63) PAGE_SIZE.

Definition is_texture create : bool := (1 <? create.(ci_mip_levels)) || (1 <? create.(ci_array_layers)).

Definition plan_image create : outcome string GpuBackendImageLayout :=
  if negb ((create.(ci_format) =? GPU_IMAGE_FORMAT_BGRA8_UNORM)
           || (create.(ci_format) =? GPU_IMAGE_FORMAT_DEPTH32_FLOAT))
  then Err ("qcom-adreno-a618: image format is not supported" : string)
  else if (create.(ci_format) =? GPU_IMAGE_FORMAT_DEPTH32_FLOAT) || tiled_color create
  then plan_tiled create
  else if is_texture create then plan_texture create
  else plan_linear create.

(** ** The authority over an image *)
Definition has_usage create (mask : Z) : bool := negb (create.(ci_usage) .& mask =? 0).

Definition image_access create : Z :=
  (if has_usage create (GPU_IMAGE_USAGE_PRESENTABLE .| GPU_IMAGE_USAGE_SAMPLED) then ACCESS_READ else 0)
  .| (if has_usage create (GPU_IMAGE_USAGE_RENDER_TARGET .| GPU_IMAGE_USAGE_TRANSFER_DST
                           .| GPU_IMAGE_USAGE_DEPTH_STENCIL_ATTACHMENT) then ACCESS_WRITE else 0)
  .| (if has_usage create GPU_IMAGE_USAGE_DEPTH_STENCIL_ATTACHMENT then ACCESS_READ else 0).

(** The [LinearImage] of [create_image_with_layout]. *)
Definition planned_image create (layout : GpuBackendImageLayout) : outcome string LinearImage :=
  let depth := create.(ci_format) =? GPU_IMAGE_FORMAT_DEPTH32_FLOAT in
  let? texture :=
    (if (create.(ci_format) =? GPU_IMAGE_FORMAT_BGRA8_UNORM) && is_texture create
     then optional (LinearTextureLayout_new create.(ci_width) create.(ci_height)
                      create.(ci_mip_levels) create.(ci_array_layers))
     else Ok None) in
  let? visible :=
    (if is_texture create || negb (layout.(il_modifier) =? 0) then Ok layout.(il_plane0).(pl_size)
     else ok_or (checked_mul U64_MAX layout.(il_plane0).(pl_row_pitch) create.(ci_height))
            ("qcom-adreno-a618: image visible size overflows" : string)) in
  Ok (MkLinearImage texture
        (if depth then Depth32Float else Bgra8Unorm)
        (if depth then Tile6_3Depth
         else if layout.(il_modifier) =? IMAGE_MODIFIER_TILE6_3_COLOR then Tile6_3Color else Linear)
        create.(ci_width) create.(ci_height) layout.(il_plane0).(pl_row_pitch) visible).

(** [create_image_with_layout] up to the mapping: the plan is the caller's and
    the backing holds it. *)
Definition image_authority create (layout : GpuBackendImageLayout) (backing : GpuImageBackingInfo) :
    outcome string (Z * LinearImage) :=
  let? planned := plan_image create in
  if negb (bool_decide (layout = planned)) || (backing.(bk_allocation_size) <? layout.(il_total_size))
  then Err ("qcom-adreno-a618: image backing does not match its layout plan" : string)
  else
    let? image := planned_image create layout in
    Ok (image_access create, image).

(** [import_shared_image] up to the mapping. *)
Definition nv12_supported (d : SharedImageDescriptor) (color : ImageColor) : bool :=
  let one_of := λ x a b : Z, (x =? a) || (x =? b) in
  negb (negb (bool_decide (color.(ic_reserved) = [0; 0]))
        || negb (d.(sd_format) =? IMAGE_FORMAT_NV12) || negb (d.(sd_modifier) =? 0)
        || negb (d.(sd_buffer_count) =? 1)
        || negb (bool_decide (d.(sd_visible) = (0, 0, d.(sd_width), d.(sd_height))))
        || negb (d.(sd_width) mod 2 =? 0) || negb (d.(sd_height) mod 2 =? 0)
        || negb (one_of color.(ic_matrix) COLOR_MATRIX_BT601 COLOR_MATRIX_BT709)
        || negb (one_of color.(ic_range) COLOR_RANGE_LIMITED COLOR_RANGE_FULL)
        || negb (one_of color.(ic_chroma_x) CHROMA_COSITED CHROMA_MIDPOINT)
        || negb (one_of color.(ic_chroma_y) CHROMA_COSITED CHROMA_MIDPOINT)).

Definition nv12_planes_supported (d : SharedImageDescriptor) : bool :=
  let y := d.(sd_plane0) in
  let uv := d.(sd_plane1) in
  negb (negb (y.(sp_buffer_index) =? 0) || negb (uv.(sp_buffer_index) =? 0) || negb (y.(sp_offset) =? 0)
        || negb (y.(sp_row_pitch) mod 64 =? 0) || negb (uv.(sp_row_pitch) =? y.(sp_row_pitch))
        || negb (y.(sp_size) =? y.(sp_row_pitch) * d.(sd_height))
        || negb (uv.(sp_size) =? uv.(sp_row_pitch) * (d.(sd_height) / 2))
        || (uv.(sp_offset) <? y.(sp_size)) || negb (uv.(sp_offset) mod 4096 =? 0)).

Definition nv12_plane (p : SharedPlane) (block : Z) : GpuBackendImagePlaneLayout :=
  mk_plane p.(sp_offset) p.(sp_size) p.(sp_row_pitch) (as_u32 p.(sp_size)) block block block.

Definition shared_authority (d : SharedImageDescriptor) (color : ImageColor) :
    outcome string (GpuBackendImageLayout * LinearImage) :=
  let? _ := descriptor_validate d in
  if negb (nv12_supported d color) then Err ("qcom-adreno-a618: unsupported NV12 import" : string)
  else if negb (nv12_planes_supported d)
  then Err ("qcom-adreno-a618: unsupported NV12 plane layout" : string)
  else Ok (mk_layout 0 d.(sd_buffer_size0) 4096 2 (nv12_plane d.(sd_plane0) 1)
             [nv12_plane d.(sd_plane1) 2; EMPTY; EMPTY],
           MkLinearImage None (Nv12 d.(sd_plane1).(sp_offset) d.(sd_plane1).(sp_size)) Linear
             d.(sd_width) d.(sd_height) d.(sd_plane0).(sp_row_pitch) d.(sd_buffer_size0)).

(** ** Mappings *)

(** A live IOMMU mapping: the device address and the memory behind it. *)
Record DmaMapping := mk_mapping { dma_addr : Z; dma_segments : list (Z * Z) }.

Definition mapped_bytes (m : DmaMapping) : Z := foldr Z.add 0 (snd <$> m.(dma_segments)).

(** The IOMMU answers with a device address or refuses. *)
Definition iommu_map (iommu : option Z) (segments : list (Z * Z)) (e : string) : outcome string DmaMapping :=
  let? address := ok_or iommu e in
  Ok (mk_mapping address segments).

Definition map_backing (quarantine : bool) (iommu : option Z) (paddr allocation_size : Z) :
    outcome string DmaMapping :=
  if (paddr =? 0) || (allocation_size =? 0) || negb (paddr .& (PAGE_SIZE - 1) =? 0)
  then Err ("qcom-adreno-a618: resource backing is invalid" : string)
  else if quarantine then Err ("qcom-adreno-a618: GPU mappings are quarantined" : string)
  else iommu_map iommu [(paddr, allocation_size)] "qcom-adreno-a618: resource IOMMU mapping failed".

Definition segment_step (total : Z) (s : Z * Z) : outcome string Z :=
  let (physical_addr, length) := s in
  if (physical_addr =? 0) || negb (physical_addr .& (PAGE_SIZE - 1) =? 0)
     || (length =? 0) || negb (length .& (PAGE_SIZE - 1) =? 0)
  then Err ("qcom-adreno-a618: image backing segment is invalid" : string)
  else ok_or (checked_add U64_MAX total length) ("qcom-adreno-a618: image backing size overflows" : string).

Definition map_image_backing (quarantine : bool) (iommu : option Z) (reserved : bool)
    (backing : GpuImageBackingInfo) : outcome string DmaMapping :=
  if backing.(bk_contiguous)
  then map_backing quarantine iommu backing.(bk_paddr) backing.(bk_allocation_size)
  else if negb reserved
  then Err ("qcom-adreno-a618: image segment metadata allocation failed" : string)
  else
    let? total_size := foldM segment_step 0 backing.(bk_segments) in
    if total_size <? backing.(bk_allocation_size)
    then Err ("qcom-adreno-a618: image backing segments are undersized" : string)
    else if quarantine then Err ("qcom-adreno-a618: GPU mappings are quarantined" : string)
    else iommu_map iommu backing.(bk_segments) "qcom-adreno-a618: segmented image IOMMU mapping failed".
End Images.
End Resources.

(** * Properties of image plans and mappings

    The metadata that the backend keeps of an image is well formed, its pixels
    lie in the memory that is mapped for it, and a mapping covers the
    allocation it was asked for. *)

Module ResourceFacts.
Import Resources.

(** The fields of the kernel's records have the ranges of their types. *)
Definition create_typed (create : GpuImageCreateInfo) : Prop :=
  u32 create.(ci_width) ∧ u32 create.(ci_height) ∧ u32 create.(ci_mip_levels) ∧ u32 create.(ci_array_layers).

Definition backing_typed (backing : GpuImageBackingInfo) : Prop :=
  u64 backing.(bk_allocation_size).

Definition descriptor_typed (d : SharedImageDescriptor) : Prop :=
  u32 d.(sd_width) ∧ u32 d.(sd_height) ∧ u32 d.(sd_plane0).(sp_row_pitch) ∧ u64 d.(sd_buffer_size0).

(** An image whose rows are [pitch] bytes apart and fit [total]. *)
Record plan_ok (create : GpuImageCreateInfo) (layout : GpuBackendImageLayout) : Prop := {
  po_pitch : u32 layout.(il_plane0).(pl_row_pitch);
  po_row : 4 * create.(ci_width) ≤ layout.(il_plane0).(pl_row_pitch);
  po_rows : 1 ≤ create.(ci_array_layers) →
    layout.(il_plane0).(pl_row_pitch) * create.(ci_height) ≤ layout.(il_total_size);
  po_plane : is_texture create || negb (layout.(il_modifier) =? 0) = true →
    layout.(il_plane0).(pl_size) = layout.(il_total_size);
}.

Section Images.
Context `{K : KernelGpu, !KernelGpuLaws K}.

Lemma plan_tiled_ok create layout :
  create_typed create → plan_tiled create = Ok layout → plan_ok create layout.
Proof.
  intros (Hw & Hh & _ & Hl) H. unfold plan_tiled in H. step_ok H as tiled Ht. step_ok H as ap Hap.
  step_ok H as total Htot. destruct Htot as [-> _]. injection H as <-.
  unfold depth32_tile6_3_layout in Ht. destruct (_ || _); [done|]. unfold u32 in *.
  destruct (checked_mul _ _ 4) as [rb|] eqn:Hrb; [|done]. apply checked_mul_Some in Hrb as [-> _].
  destruct (align_up_u32 (ci_width create * 4) _) as [rp|] eqn:Hrp; [|done].
  apply (align_up_u32_Some _ 256 8) in Hrp as [? ->]; [|lia|done].
  destruct (align_up_u32 (ci_height create) _) as [ph|] eqn:Hph; [|done].
  apply (align_up_u32_Some _ 16 4) in Hph as [? ->]; [|lia|done].
  destruct (checked_mul _ _ _) as [us|] eqn:Hus; [|done]. apply checked_mul_Some in Hus as [-> _].
  destruct (align_up_u64 _ _) as [ls|] eqn:Hls; [|done]. injection Ht as <-.
  apply (align_up_u64_Some _ 4096 12) in Hls as [_ ->]; [|lia|done].
  pose proof (round_up_bounds (ci_width create * 4) 256 ltac:(lia)).
  pose proof (round_up_bounds (ci_height create) 16 ltac:(lia)).
  pose proof (round_up_bounds (round_up (ci_width create * 4) 256 * round_up (ci_height create) 16) 4096 ltac:(lia)).
  unfold U32_MAX in *.
  generalize dependent (round_up (round_up (ci_width create * 4) 256 * round_up (ci_height create) 16) 4096).
  generalize dependent (round_up (ci_width create * 4) 256). intros rp Hrp.
  generalize dependent (round_up (ci_height create) 16). intros ph Hph layer **.
  constructor; cbn; unfold u32; try done; [lia|lia|]. intros Hn.
  transitivity (rp * ph); [by apply Z.mul_le_mono_nonneg_l; lia|]. assert (0 ≤ rp * ph) by (apply Z.mul_nonneg_nonneg; lia).
  transitivity (layer * 1); [lia|]. by apply Z.mul_le_mono_nonneg_l; lia.
Qed.

Lemma texture_ok create t :
  create_typed create →
  LinearTextureLayout_new create.(ci_width) create.(ci_height) create.(ci_mip_levels) create.(ci_array_layers) = Ok t →
  layout_ok t ∧ t.(width) = create.(ci_width) ∧ t.(height) = create.(ci_height).
Proof.
  intros ([? _] & [? _] & [? _] & [? _]) Ht. apply new_ok in Ht as (? & ? & ? & _); auto.
Qed.

Lemma plan_texture_ok create layout :
  create_typed create → plan_texture create = Ok layout → plan_ok create layout.
Proof.
  intros Hc H. unfold plan_texture in H. step_ok H as t Ht. injection H as <-.
  destruct (texture_ok _ _ Hc Ht) as (Hok & Hw' & Hh').
  pose proof (layout_pitch_bounds t Hok) as Hp. destruct Hok as [Ow Oh Om Ol Op Oc Os Ot].
  pose proof (round_up_bounds (4 * width t) 64 ltac:(lia)).
  constructor; cbn; unfold u32; try done; [lia|congruence || lia|]. intros _.
  pose proof (level_offset_mono (row_pitch t) (height t) 1 (Z.to_nat (mip_levels t)) ltac:(lia) ltac:(lia) ltac:(lia)) as Hmono.
  assert (row_pitch t * height t ≤ level_offset (row_pitch t) (height t) 1); [|nia].
  cbn. unfold level_pitch, level_rows. rewrite !Z.shiftr_0_r.
  pose proof (round_up_bounds (Z.max (row_pitch t) 1) 64 ltac:(lia)). nia.
Qed.

Lemma plan_linear_ok create layout :
  create_typed create → plan_linear create = Ok layout → is_texture create = false → plan_ok create layout.
Proof.
  intros (Hw & Hh & _ & _) H Htex. unfold plan_linear in H. step_ok H as rb Hrb. destruct Hrb as [-> _].
  step_ok H as pd Hpd. destruct Hpd as [-> Hpd]. unfold u32, U32_MAX in *.
  rewrite (ldiff_align _ 64 6) in H by done.
  assert (64 * ((ci_width create * 4 + 63) / 64) = round_up (ci_width create * 4) 64) as Hr by done.
  rewrite Hr in H. pose proof (round_up_bounds (ci_width create * 4) 64 ltac:(lia)).
  constructor; rewrite ?(linear_pitch _ _ _ _ H); unfold u32; [|lia| |].
  - pose proof (Z.mul_div_le (ci_width create * 4 + 63) 64 ltac:(lia)). lia.
  - intros _. by apply (linear_room _ _ _ _ H).
  - by rewrite Htex, (linear_modifier _ _ _ _ H).
Qed.

Lemma plan_image_ok create layout :
  create_typed create → plan_image create = Ok layout → plan_ok create layout.
Proof.
  intros Hc. unfold plan_image. case_match; [done|]. case_match; [by apply plan_tiled_ok|].
  case_match eqn:Ht; [by apply plan_texture_ok|]. intros. by apply plan_linear_ok.
Qed.

(** The recorded image is the planned one. *)
Lemma planned_image_ok create layout image :
  create_typed create → plan_ok create layout → u64 layout.(il_total_size) → planned_image create layout = Ok image →
  image_wf image ∧ image.(img_width) = create.(ci_width) ∧ image.(img_height) = create.(ci_height) ∧
  image.(img_row_pitch) = layout.(il_plane0).(pl_row_pitch) ∧
  (1 ≤ create.(ci_array_layers) →
     image.(img_row_pitch) * image.(img_height) ≤ image.(visible_size) ≤ layout.(il_total_size)).
Proof.
  intros Hc Hp Hu H. pose proof Hc as (Hw & Hh & _). unfold planned_image in H. step_ok H as tex Ht. step_ok H as vis Hv.
  injection H as <-. cbn. split_and!; try done; [constructor; cbn; try done; [apply Hp|]|].
  - intros t ->. destruct (_ && _); [|done]. unfold optional in Ht.
    destruct (LinearTextureLayout_new _ _ _ _) as [t'| |] eqn:Hn; simplify_eq.
    by destruct (texture_ok _ _ Hc Hn).
  - intros Hlay. destruct Hp as [Hp1 Hp2 Hp3 Hp4]. specialize (Hp3 Hlay).
    destruct (_ || _); [injection Hv as <-; rewrite Hp4 by done; lia|].
    apply ok_or_Ok, checked_mul_Some in Hv as [-> _]. lia.
Qed.

Lemma plan_total create layout : plan_image create = Ok layout → create_typed create → u64 layout.(il_total_size).
Proof.
  intros H Hc. pose proof Hc as ([? _] & [? _] & _ & [? _]). unfold plan_image in H. case_match; [done|]. unfold u64.
  case_match; [|case_match].
  - unfold plan_tiled in H. step_ok H as tiled Ht. step_ok H as ap Hap. step_ok H as total Htot.
    destruct Htot as [-> ?]. injection H as <-. cbn. unfold U64_MAX in *.
    apply depth_layer_size in Ht; [|done..]. nia.
  - unfold plan_texture in H. step_ok H as t Ht. injection H as <-. cbn.
    destruct (texture_ok _ _ Hc Ht) as ([] & _).
    unfold U64_MAX in *. nia.
  - unfold plan_linear in H. step_ok H as rb Hrb. step_ok H as pd Hpd.
    pose proof (linear_total create (pd .&~ 63) PAGE_SIZE) as Ht. by rewrite H in Ht.
Qed.

Lemma image_authority_ok create layout backing access image :
  create_typed create → image_authority create layout backing = Ok (access, image) →
  image_wf image ∧ 4 * image.(img_width) ≤ image.(img_row_pitch) ∧
  image.(img_width) = create.(ci_width) ∧ image.(img_height) = create.(ci_height) ∧
  (1 ≤ create.(ci_array_layers) →
   image.(img_row_pitch) * image.(img_height) ≤ image.(visible_size) ≤ backing.(bk_allocation_size)).
Proof.
  intros Hc H. unfold image_authority in H. step_ok H as planned Hp. destruct (_ || _) eqn:Hb; [done|].
  bool_to_prop. subst planned. step_ok H as im Him. injection H as _ <-.
  pose proof (plan_image_ok _ _ Hc Hp) as Hok.
  destruct (planned_image_ok _ _ _ Hc Hok (plan_total _ _ Hp Hc) Him) as (Hwf & Hw & Hh & Hpitch & Hvis).
  split_and!; try done; [rewrite Hw, Hpitch; apply Hok|]. intros Hl. specialize (Hvis Hl). lia.
Qed.

Lemma shared_authority_ok d color layout image :
  descriptor_typed d → shared_authority d color = Ok (layout, image) →
  image_wf image ∧ layout.(il_total_size) = d.(sd_buffer_size0).
Proof.
  intros (Hw & Hh & Hp & _) H. unfold shared_authority in H. step_ok H as u Hu. case_match; [done|]. case_match; [done|].
  injection H as <- <-. split; [by constructor|done].
Qed.

(** ** Mappings *)
Lemma map_backing_ok q iommu paddr size m :
  map_backing q iommu paddr size = Ok m → iommu = Some m.(dma_addr) ∧ size = mapped_bytes m ∧ q = false.
Proof.
  unfold map_backing. case_match; [done|]. case_match; [done|]. unfold iommu_map. intros Hm. step_ok Hm as a Ha.
  injection Hm as <-. unfold mapped_bytes. cbn. split_and!; [done|lia|done].
Qed.

Lemma segments_total segments total :
  foldM segment_step 0 segments = Ok total → total = foldr Z.add 0 (snd <$> segments).
Proof.
  assert (∀ acc, foldM segment_step acc segments = Ok total → total = acc + foldr Z.add 0 (snd <$> segments)) as H.
  { induction segments as [|[pa n] segments IH]; intros acc H; cbn in *; [injection H as <-; lia|].
    step_ok H as acc' Hacc. case_match; [done|]. apply ok_or_Ok, checked_add_Some in Hacc as [-> _].
    rewrite (IH _ H). lia. }
  intros Ht. by rewrite (H 0 Ht).
Qed.

Lemma map_image_backing_ok q iommu reserved backing m :
  map_image_backing q iommu reserved backing = Ok m →
  iommu = Some m.(dma_addr) ∧ backing.(bk_allocation_size) ≤ mapped_bytes m ∧ q = false.
Proof.
  unfold map_image_backing. destruct (bk_contiguous backing).
  - intros (-> & -> & ->)%map_backing_ok. done.
  - case_match; [done|]. intros Hm. step_ok Hm as total Ht. case_match; [done|]. case_match; [done|].
    unfold iommu_map in Hm. step_ok Hm as a Ha. injection Hm as <-. bool_to_prop.
    apply segments_total in Ht as ->. done.
Qed.

(** The pixels of an image lie in the memory mapped for it.  When the
    backend accepts an image of a plan and maps its backing, pixel [(x, y)] of
    a level, [pitch] bytes per row and four per pixel, is inside the footprint
    that submissions may name, and that footprint is inside the mapping. *)
Theorem image_pixels_mapped (create : GpuImageCreateInfo) (layout : GpuBackendImageLayout)
    (backing : GpuImageBackingInfo) (access : Z) (image : LinearImage) (quarantine reserved : bool)
    (iommu : option Z) (m : DmaMapping) (x y : Z) :
  create_typed create → 1 ≤ create.(ci_array_layers) →
  image_authority create layout backing = Ok (access, image) →
  map_image_backing quarantine iommu reserved backing = Ok m →
  0 ≤ x < create.(ci_width) → 0 ≤ y < create.(ci_height) →
  0 ≤ y * image.(img_row_pitch) + 4 * x ∧
  y * image.(img_row_pitch) + 4 * x + 4 ≤ image.(visible_size) ∧ image.(visible_size) ≤ mapped_bytes m.
Proof.
  intros Hc Hl Ha Hm Hx Hy. apply image_authority_ok in Ha as (_ & Hp & Hw & Hh & Hv); [|done].
  apply map_image_backing_ok in Hm as (_ & Hsz & _). specialize (Hv Hl). rewrite Hw in Hp. rewrite Hh in Hv.
  split_and!; [nia| |lia]. assert ((y + 1) * img_row_pitch image ≤ ci_height create * img_row_pitch image); [|lia].
  apply Z.mul_le_mono_nonneg_r; lia.
Qed.
End Images.
End ResourceFacts.
