(* ===== verification/Contexts.v ===== *)
(** * Resources, contexts and their attachments

    Model of the authority tables of [backend.rs]: the resource registry of
    [A618Core], the attachments of each [A618ContextInner], the snapshot that
    a submission is validated against, and the lifetime of the IOMMU mappings,
    which an [Arc] shares between the registry, the attachments and the
    submissions in flight.

    An operation is one call from the kernel's graphics layer.  [execution]
    serialises attach, detach and the preparation of a submission of one
    context; [try_reserve], the IOMMU and the worker registration answer by
    arguments. *)
From stdpp Require Import gmap sorting.
From S2P Require Import Prelude ImageLayout ShaderPack SubmitWire SubmitTypes SubmitRelocate.
From S2P Require Import Registers Hardware Resources.

Module Contexts.
Import Resources.

(** ** State *)
Record ResourceEntry := mk_entry {
  re_token : Z;
  re_gpu_va : Z;
  re_allocation_size : Z;
  re_allowed_access : Z;
  re_linear_image : option LinearImage;
  re_mapping : DmaMapping;
}.

Record Attachment := mk_attachment { at_token : Z; at_resource : ResourceEntry }.

Record Context := mk_context {
  cx_id : Z;
  cx_next_attachment : Z;
  cx_attachments : list Attachment;
}.

Record PreparedSubmission := mk_prepared {
  ps_words : list Z;
  ps_resources : list ResourceEntry;
}.

(** [mapped] are the device mappings that exist, by the token of their
    resource; [inflight] the prepared submissions that are not dropped yet. *)
Record Backend := mk_backend {
  be_cookie : Z;
  be_next_token : Z;
  be_next_context : Z;
  be_registry : list ResourceEntry;
  be_contexts : gmap Z Context;
  be_shader_pack : option Z;
  be_quarantine : bool;
  be_mapped : gmap Z DmaMapping;
  be_inflight : list PreparedSubmission;
}.

Definition set_next_token (v : Z) (b : Backend) : Backend :=
  mk_backend b.(be_cookie) v b.(be_next_context) b.(be_registry) b.(be_contexts) b.(be_shader_pack)
    b.(be_quarantine) b.(be_mapped) b.(be_inflight).
Definition set_registry (v : list ResourceEntry) (b : Backend) : Backend :=
  mk_backend b.(be_cookie) b.(be_next_token) b.(be_next_context) v b.(be_contexts) b.(be_shader_pack)
    b.(be_quarantine) b.(be_mapped) b.(be_inflight).
Definition set_contexts (v : gmap Z Context) (b : Backend) : Backend :=
  mk_backend b.(be_cookie) b.(be_next_token) b.(be_next_context) b.(be_registry) v b.(be_shader_pack)
    b.(be_quarantine) b.(be_mapped) b.(be_inflight).
Definition set_next_context (v : Z) (b : Backend) : Backend :=
  mk_backend b.(be_cookie) b.(be_next_token) v b.(be_registry) b.(be_contexts) b.(be_shader_pack)
    b.(be_quarantine) b.(be_mapped) b.(be_inflight).
Definition set_shader_pack (v : option Z) (b : Backend) : Backend :=
  mk_backend b.(be_cookie) b.(be_next_token) b.(be_next_context) b.(be_registry) b.(be_contexts) v
    b.(be_quarantine) b.(be_mapped) b.(be_inflight).
Definition set_be_quarantine (v : bool) (b : Backend) : Backend :=
  mk_backend b.(be_cookie) b.(be_next_token) b.(be_next_context) b.(be_registry) b.(be_contexts)
    b.(be_shader_pack) v b.(be_mapped) b.(be_inflight).
Definition set_mapped (v : gmap Z DmaMapping) (b : Backend) : Backend :=
  mk_backend b.(be_cookie) b.(be_next_token) b.(be_next_context) b.(be_registry) b.(be_contexts)
    b.(be_shader_pack) b.(be_quarantine) v b.(be_inflight).
Definition set_inflight (v : list PreparedSubmission) (b : Backend) : Backend :=
  mk_backend b.(be_cookie) b.(be_next_token) b.(be_next_context) b.(be_registry) b.(be_contexts)
    b.(be_shader_pack) b.(be_quarantine) b.(be_mapped) v.

(** ** Counters and vectors *)

(** The value handed out and the counter after the call. *)
Definition allocate_monotonic (current : Z) (exhausted : string) : outcome string Z * Z :=
  if negb (current =? 0) && negb (current =? U64_MAX) then (Ok current, current + 1)
  else (Err exhausted, current).

(** [Vec::swap_remove]: the last element takes the place of the removed one. *)
Definition swap_remove {A} (i : nat) (l : list A) : list A :=
  match last l with
  | Some x => if decide (S i = length l) then removelast l else removelast (<[i := x]> l)
  | None => l
  end.

(** [iter().position(..)] *)
Fixpoint position {A} (p : A → bool) (l : list A) : option nat :=
  match l with
  | [] => None
  | x :: l => if p x then Some O else S <$> position p l
  end.

(** [u64::rotate_left] *)
Definition rotate_left (x n : Z) : Z := ((x << n) .| (x >> (64 - n))) mod 2 ^ 64.

(** [slice::binary_search_by_key]: halve the range [size] elements from
    [base] on until one is left. *)
Fixpoint bisect (fuel : nat) (key : Z) (keys : list Z) (base size : nat) : nat :=
  match fuel with
  | O => base
  | S fuel =>
    if (size <=? 1)%nat then base
    else
      let half := (size / 2)%nat in
      let mid := (base + half)%nat in
      bisect fuel key keys (if key <? nth mid keys 0 then base else mid) (size - half)
  end.

Definition binary_search (key : Z) (keys : list Z) : option nat :=
  match keys with
  | [] => None
  | _ => let i := bisect (length keys) key keys 0 (length keys) in
         if nth i keys 0 =? key then Some i else None
  end.

(** ** Sharing *)

(** Every [Arc<ResourceEntry>] of the driver.  The handle that the graphics
    layer holds lives as long as the registry's. *)
Definition context_entries (c : Context) : list ResourceEntry := at_resource <$> c.(cx_attachments).

Definition holders (b : Backend) : list ResourceEntry :=
  b.(be_registry) ++ concat (context_entries <$> (map_to_list b.(be_contexts)).*2)
  ++ concat (ps_resources <$> b.(be_inflight)).

(** Dropping one [Arc]: [ResourceMapping::drop] runs with the last one, and
    leaks the mapping under quarantine. *)
Definition release (b : Backend) (e : ResourceEntry) : Backend :=
  if existsb (λ e', e'.(re_token) =? e.(re_token)) (holders b) then b
  else if b.(be_quarantine) then b
  else set_mapped (delete e.(re_token) b.(be_mapped)) b.

(** ** Resources *)
Section Operations.
Context `{K : KernelGpu}.
Implicit Types b : Backend.

(** The tail of [create_resource] and [create_image_resource]. *)
Definition publish (m : DmaMapping) (size access : Z) (image : option LinearImage) (reserved : bool) b :
    outcome string Z * Backend :=
  match allocate_monotonic b.(be_next_token) "qcom-adreno-a618: resource token space exhausted" with
  | (Ok token, next) =>
    let entry := mk_entry token m.(dma_addr) size access image m in
    let b := set_mapped (<[token := m]> b.(be_mapped)) (set_next_token next b) in
    if reserved then (Ok token, set_registry (b.(be_registry) ++ [entry]) b)
    else (Err ("qcom-adreno-a618: resource registry allocation failed" : string), release b entry)
  | (Err e, _) => (Err e, b)
  | (Panic, _) => (Panic, b)
  end.

Definition create_buffer (iommu : option Z) (reserved : bool) (paddr size : Z) b :
    outcome string Z * Backend :=
  match map_backing b.(be_quarantine) iommu paddr size with
  | Ok m => publish m size (ACCESS_READ .| ACCESS_WRITE) None reserved b
  | Err e => (Err e, b)
  | Panic => (Panic, b)
  end.

Definition create_image_resource (iommu : option Z) (metadata reserved : bool)
    (backing : GpuImageBackingInfo) (access : Z) (image : LinearImage) b : outcome string Z * Backend :=
  match map_image_backing b.(be_quarantine) iommu metadata backing with
  | Ok m => publish m backing.(bk_allocation_size) access (Some image) reserved b
  | Err e => (Err e, b)
  | Panic => (Panic, b)
  end.

Definition create_image_with_layout (iommu : option Z) (metadata reserved : bool) (create : GpuImageCreateInfo)
    (layout : GpuBackendImageLayout) (backing : GpuImageBackingInfo) b : outcome string Z * Backend :=
  match image_authority create layout backing with
  | Ok (access, image) => create_image_resource iommu metadata reserved backing access image b
  | Err e => (Err e, b)
  | Panic => (Panic, b)
  end.

(** The backing is [GpuImageBackingInfo::new_segmented] of the shared buffer's
    segments and the total size. *)
Definition import_shared_image (iommu : option Z) (metadata reserved : bool) (d : SharedImageDescriptor)
    (color : ImageColor) (paddr : Z) (contiguous : bool) (segments : list (Z * Z)) b :
    outcome string Z * Backend :=
  match shared_authority d color with
  | Ok (layout, image) =>
    let backing := mk_backing paddr layout.(il_total_size) contiguous segments in
    create_image_resource iommu metadata reserved backing ACCESS_READ image b
  | Err e => (Err e, b)
  | Panic => (Panic, b)
  end.

(** [Drop for A618Resource]: [unregister_resource], then the handle's [Arc]. *)
Definition drop_resource (token : Z) b : Backend :=
  match position (λ e, e.(re_token) =? token) b.(be_registry) with
  | Some i =>
    match b.(be_registry) !! i with
    | Some e => release (set_registry (swap_remove i b.(be_registry)) b) e
    | None => b
    end
  | None => b
  end.

(** [A618Core::resource] *)
Definition find_resource (token : Z) b : option ResourceEntry :=
  List.find (λ e, e.(re_token) =? token) b.(be_registry).

(** ** Contexts *)

(** [ensure_shader_pack]: the allocation answers with its device address and
    its zeroed bytes. *)
Definition ensure_shader_pack (allocation : string + Z * list Z) b : outcome string () * Backend :=
  if b.(be_quarantine) then (Err ("qcom-adreno-a618: GPU mappings are quarantined" : string), b)
  else match b.(be_shader_pack) with
  | Some _ => (Ok (), b)
  | None =>
    match allocation with
    | inl e => (Err e, b)
    | inr (address, bytes) =>
      let copied := if address .& (SHADER_ALIGNMENT - 1) =? 0 then copy_pack bytes else Ok (false, bytes) in
      match copied with
      | Ok (true, _) => (Ok (), set_shader_pack (Some address) b)
      | Ok (false, _) | Err _ => (Err ("qcom-adreno-a618: canonical shader pack layout is invalid" : string), b)
      | Panic => (Panic, b)
      end
    end
  end.

Definition DIALECT_TOKEN : Z := 0x4136585800010000.

Definition create_context (allocation : string + Z * list Z) (worker : string + ()) (index token : Z) b :
    outcome string Z * Backend :=
  if negb (index =? 0) || negb (token =? DIALECT_TOKEN)
  then (Err ("qcom-adreno-a618: dialect descriptor does not match" : string), b)
  else match ensure_shader_pack allocation b with
  | (Ok _, b) =>
    match worker with
    | inl e => (Err e, b)
    | inr _ =>
      match allocate_monotonic b.(be_next_context) "qcom-adreno-a618: context ID space exhausted" with
      | (Ok id, next) =>
        (Ok id, set_contexts (<[id := mk_context id 1 []]> b.(be_contexts)) (set_next_context next b))
      | (Err e, _) => (Err e, b)
      | (Panic, _) => (Panic, b)
      end
    end
  | (Err e, b) => (Err e, b)
  | (Panic, b) => (Panic, b)
  end.

(** The last [Arc] of a context goes: its attachments are dropped. *)
Definition drop_context (id : Z) b : Backend :=
  match b.(be_contexts) !! id with
  | Some c => foldl release (set_contexts (delete id b.(be_contexts)) b) (context_entries c)
  | None => b
  end.

Definition attach (resource : option ResourceEntry) (resource_token : Z) (reserved : bool) (c : Context) :
    outcome string Z * Context :=
  match resource with
  | None => (Err ("qcom-adreno-a618: resource no longer exists" : string), c)
  | Some resource =>
    if existsb (λ a, a.(at_resource).(re_token) =? resource_token) c.(cx_attachments)
    then (Err ("qcom-adreno-a618: resource is already attached" : string), c)
    else match allocate_monotonic c.(cx_next_attachment) "qcom-adreno-a618: attachment token space exhausted" with
    | (Ok generation, next) =>
      let token := (rotate_left c.(cx_id) 17 + generation) mod 2 ^ 64 in
      let c := mk_context c.(cx_id) next c.(cx_attachments) in
      if (token =? 0) || existsb (λ a, a.(at_token) =? token) c.(cx_attachments)
      then (Err ("qcom-adreno-a618: attachment token space exhausted" : string), c)
      else if negb reserved then (Err ("qcom-adreno-a618: attachment allocation failed" : string), c)
      else (Ok token, mk_context c.(cx_id) next (c.(cx_attachments) ++ [mk_attachment token resource]))
    | (Err e, _) => (Err e, c)
    | (Panic, _) => (Panic, c)
    end
  end.

(** The context without the attachment, and the [Arc] that is dropped. *)
Definition detach (resource_token : Z) (c : Context) : outcome string ResourceEntry * Context :=
  match position (λ a, a.(at_resource).(re_token) =? resource_token) c.(cx_attachments) with
  | Some i =>
    match c.(cx_attachments) !! i with
    | Some a => (Ok a.(at_resource), mk_context c.(cx_id) c.(cx_next_attachment) (swap_remove i c.(cx_attachments)))
    | None => (Panic, c)
    end
  | None => (Err ("qcom-adreno-a618: resource is not attached" : string), c)
  end.

(** [attach_image] and [attach_buffer]: the object answers with its cookie and
    its token. *)
Definition attach_resource (cookie token : Z) (reserved : bool) (c : Context) b : outcome string Z * Backend :=
  if negb (cookie =? b.(be_cookie)) || (token =? 0)
  then (Err ("qcom-adreno-a618: resource belongs to another backend" : string), b)
  else let (r, c) := attach (find_resource token b) token reserved c in
       (r, set_contexts (<[c.(cx_id) := c]> b.(be_contexts)) b).

Definition detach_object (foreign : string) (cookie token : Z) (c : Context) b : outcome string () * Backend :=
  if negb (cookie =? b.(be_cookie)) then (Err foreign, b)
  else match detach token c with
       | (Ok e, c) => (Ok (), release (set_contexts (<[c.(cx_id) := c]> b.(be_contexts)) b) e)
       | (Err e, _) => (Err e, b)
       | (Panic, _) => (Panic, b)
       end.

Definition detach_image := detach_object "qcom-adreno-a618: image belongs to another backend".
Definition detach_buffer := detach_object "qcom-adreno-a618: buffer belongs to another backend".

(** ** Submissions *)
Definition resolved (a : Attachment) : ResolvedResource :=
  MkResolvedResource a.(at_token) a.(at_resource).(re_gpu_va) a.(at_resource).(re_allocation_size)
    a.(at_resource).(re_allowed_access) a.(at_resource).(re_linear_image).

Definition token_le (r s : ResolvedResource) : Prop := r.(res_attachment_token) ≤ s.(res_attachment_token).

#[export] Instance token_le_dec r s : Decision (token_le r s).
Proof. unfold token_le. apply _. Defined.

Definition attachment_snapshot (attachment_count : Z) (reserved retained : bool) (c : Context) :
    outcome string (list ResolvedResource * list ResourceEntry) :=
  if negb reserved then Err ("qcom-adreno-a618: attachment snapshot allocation failed" : string)
  else if negb retained then Err ("qcom-adreno-a618: mapping snapshot allocation failed" : string)
  else if negb (len c.(cx_attachments) =? attachment_count)
  then Err ("qcom-adreno-a618: attachment registry changed during submit" : string)
  else Ok (merge_sort token_le (resolved <$> c.(cx_attachments)), context_entries c).

(** The closure that validation resolves attachments with. *)
Definition resolve_attachment (attachments : list ResolvedResource) (token : Z) : option ResolvedResource :=
  binary_search token (res_attachment_token <$> attachments) ≫= λ i, attachments !! i.

Definition resolve_shader_at (pack_base : Z) (variant : ShaderVariant) : option ResolvedResource :=
  checked_add U64_MAX (shader_offset variant) (shader_size variant) ≫= λ end_,
  if PACK_SIZE <? end_ then None
  else checked_add U64_MAX pack_base (shader_offset variant) ≫= λ va,
    Some (MkResolvedResource 0 va (shader_size variant) ACCESS_READ None).

(** [shader_pack_base]: the address cell is zero until a pack is stored. *)
Definition shader_pack_base b : option Z :=
  b.(be_shader_pack) ≫= λ address, if address =? 0 then None else Some address.

Definition prepare_submission (strict reserved retained : bool) (c : Context) (commands : list Z) b :
    outcome Hw.GpuBackendSubmitError PreparedSubmission :=
  match commands with
  | [] => Ok (mk_prepared [] [])
  | _ =>
    let? base := ok_or (shader_pack_base b)
      (Hw.Unavailable "qcom-adreno-a618: canonical shader pack is unavailable") in
    let? (attachments, resources) :=
      Hw.map_error Hw.Unavailable (attachment_snapshot (len c.(cx_attachments)) reserved retained c) in
    let? words := Hw.map_error Hw.Rejected
      (validate_and_relocate (resolve_attachment attachments) (resolve_shader_at base) strict commands) in
    Ok (mk_prepared words resources)
  end.

(** [submit] and [enqueue] keep what was prepared until the worker drops it. *)
Definition submit (strict reserved retained : bool) (commands : list Z) (c : Context) b :
    outcome Hw.GpuBackendSubmitError () * Backend :=
  match prepare_submission strict reserved retained c commands b with
  | Ok p => (Ok (), set_inflight (b.(be_inflight) ++ [p]) b)
  | Err e => (Err e, b)
  | Panic => (Panic, b)
  end.

(** The worker is done with a submission: it drops it, or, under quarantine,
    forgets it and with it every [Arc] it holds. *)
Definition retire (i : nat) b : Backend :=
  if b.(be_quarantine) then b
  else match b.(be_inflight) !! i with
       | Some p => foldl release (set_inflight (delete i b.(be_inflight)) b) p.(ps_resources)
       | None => b
       end.
End Operations.
End Contexts.
