(* ===== verification/ContextFacts.v ===== *)
(** * Properties of the authority tables

    The lookup of an attachment is exact; every operation of the graphics
    layer preserves the invariant of the tables; so in every reachable state
    the commands in flight address only memory that is mapped for them, and
    what is prepared fits the hardware and never panics. *)
From stdpp Require Import gmap sorting.
From S2P Require Import Prelude Pm4 ImageLayout ShaderPack SubmitWire SubmitTypes SubmitPackets.
From S2P Require Import SubmitPacketFacts SubmitFields SubmitRelocate SubmitSafety SubmitSample SubmitConfinement SubmitNoPanic.
From S2P Require Import Registers Hardware Resources Contexts.

Module ContextFacts.
Import Resources ResourceFacts Contexts.
#[local] Arguments holders : simpl never.
#[local] Arguments mapped_bytes : simpl never.

(** ** Search *)
Definition increasing (keys : list Z) : Prop :=
  ∀ i j x y, keys !! i = Some x → keys !! j = Some y → (i < j)%nat → x < y.

Lemma bisect_found fuel key keys : increasing keys → ∀ base size i,
  (1 ≤ size ≤ S fuel)%nat → (base + size ≤ length keys)%nat →
  keys !! i = Some key → (base ≤ i < base + size)%nat → bisect fuel key keys base size = i.
Proof.
  intros Hinc. induction fuel as [|fuel IH]; intros base size i Hs Hb Hi Hr; cbn [bisect]; [lia|].
  destruct (Nat.leb_spec size 1); [lia|].
  pose proof (Nat.div_mod_eq size 2). pose proof (Nat.mod_upper_bound size 2 ltac:(done)).
  set (half := (size / 2)%nat) in *. set (mid := (base + half)%nat).
  destruct (lookup_lt_is_Some_2 keys mid) as [x Hx]; [unfold mid; lia|].
  rewrite (nth_lookup_Some _ _ _ _ Hx). destruct (Z.ltb_spec key x).
  - destruct (decide (mid ≤ i)%nat); [|apply IH; unfold mid in *; (done || lia)].
    destruct (decide (mid = i)) as [<-|]; [simplify_eq; lia|].
    pose proof (Hinc mid i x key Hx Hi ltac:(lia)). lia.
  - apply IH; try done; unfold mid in *; try lia. split; [|lia].
    destruct (decide (base + half ≤ i)%nat); [done|].
    pose proof (Hinc i (base + half)%nat key x Hi Hx ltac:(lia)). lia.
Qed.

Lemma binary_search_Some key keys i :
  increasing keys → binary_search key keys = Some i ↔ keys !! i = Some key.
Proof.
  intros Hinc. unfold binary_search. destruct keys as [|k ks]; [done|].
  set (keys := k :: ks) in *. split.
  - destruct (Z.eqb_spec (nth (bisect (length keys) key keys 0 (length keys)) keys 0) key) as [He|]; [|done].
    intros [= <-]. destruct (keys !! bisect (length keys) key keys 0 (length keys)) as [x|] eqn:Hx.
    + rewrite (nth_lookup_Some _ _ _ _ Hx) in He. by subst x.
    + exfalso. apply lookup_ge_None in Hx.
      assert (∀ fuel base size, (1 ≤ size)%nat → (base + size ≤ length keys)%nat →
        (bisect fuel key keys base size < length keys)%nat) as Hlt.
      { induction fuel as [|fuel IH]; intros base size Hs Hb; cbn [bisect]; [lia|].
        destruct (Nat.leb_spec size 1); [lia|].
        pose proof (Nat.div_mod_eq size 2). pose proof (Nat.mod_upper_bound size 2 ltac:(done)).
        apply IH; [lia|]. case_match; lia. }
      specialize (Hlt (length keys) 0%nat (length keys)). cbn in Hlt, Hx. lia.
  - intros Hi. pose proof (lookup_lt_Some _ _ _ Hi).
    rewrite (bisect_found _ _ _ Hinc 0 (length keys) i); [|cbn in *; lia..|done|lia].
    by rewrite (nth_lookup_Some _ _ _ _ Hi), Z.eqb_refl.
Qed.

#[export] Instance token_le_total : Total token_le.
Proof. intros r s. unfold token_le. lia. Qed.
#[export] Instance token_le_trans : Transitive token_le.
Proof. intros r s t. unfold token_le. lia. Qed.

Lemma sorted_increasing (l : list ResolvedResource) :
  StronglySorted token_le l → NoDup (res_attachment_token <$> l) → increasing (res_attachment_token <$> l).
Proof.
  induction 1 as [|r l Hl IH Hr]; intros Hnd; [by intros i j x y Hi|].
  apply NoDup_cons in Hnd as [Hnin Hnd]. specialize (IH Hnd).
  intros [|i] [|j] x y Hi Hj Hij; try lia; cbn in *; [|by eapply (IH i j); eauto; lia].
  injection Hi as <-. apply list_lookup_fmap_Some in Hj as (s & -> & Hs).
  rewrite Forall_lookup in Hr. specialize (Hr _ _ Hs). unfold token_le in Hr.
  assert (res_attachment_token r ≠ res_attachment_token s); [|lia].
  intros Heq. apply Hnin. rewrite Heq. apply list_elem_of_fmap_2. by eapply list_elem_of_lookup_2.
Qed.

(** The snapshot of a context resolves its attachments and nothing else. *)
Lemma resolve_snapshot (l : list Attachment) token r :
  NoDup (at_token <$> l) →
  resolve_attachment (merge_sort token_le (resolved <$> l)) token = Some r ↔
  ∃ a, a ∈ l ∧ a.(at_token) = token ∧ r = resolved a.
Proof.
  intros Hnd. set (sorted := merge_sort token_le (resolved <$> l)).
  assert (sorted ≡ₚ resolved <$> l) as Hperm by apply merge_sort_Permutation.
  assert (increasing (res_attachment_token <$> sorted)) as Hinc.
  { apply sorted_increasing; [apply (StronglySorted_merge_sort token_le)|].
    rewrite Hperm, <- list_fmap_compose. exact Hnd. }
  unfold resolve_attachment. split.
  - intros (i & Hi & Hr)%bind_Some. apply binary_search_Some in Hi; [|done].
    rewrite list_lookup_fmap, Hr in Hi. injection Hi as <-.
    apply list_elem_of_lookup_2 in Hr. rewrite Hperm in Hr.
    apply list_elem_of_fmap in Hr as (a & -> & Ha). by exists a.
  - intros (a & Ha & <- & ->). assert (resolved a ∈ sorted) as [i Hi]%list_elem_of_lookup_1.
    { rewrite Hperm. by apply list_elem_of_fmap_2. }
    apply bind_Some. exists i. split; [|done]. apply binary_search_Some; [done|].
    by rewrite list_lookup_fmap, Hi.
Qed.

(** ** Vectors *)
Lemma swap_remove_Permutation {A} (i : nat) (l : list A) x : l !! i = Some x → l ≡ₚ x :: swap_remove i l.
Proof.
  intros Hi. unfold swap_remove. destruct (last l) as [y|] eqn:Hy.
  2:{ apply last_None in Hy as ->. done. }
  apply last_Some in Hy as [l' ->]. rewrite length_app. cbn [length]. case_decide as Hlen.
  - rewrite removelast_last. rewrite lookup_app_r in Hi by lia.
    replace (i - length l')%nat with O in Hi by lia. injection Hi as ->. by rewrite Permutation_app_comm.
  - pose proof (lookup_lt_Some _ _ _ Hi) as Hlt. rewrite length_app in Hlt. cbn [length] in Hlt.
    rewrite lookup_app_l in Hi by lia. rewrite insert_app_l, removelast_last by lia.
    rewrite <- (take_drop_middle l' i x Hi) at 1.
    rewrite insert_take_drop by lia. solve_Permutation.
Qed.

Lemma position_Some {A} (p : A → bool) l i :
  position p l = Some i → ∃ x, l !! i = Some x ∧ p x = true.
Proof.
  revert i. induction l as [|y l IH]; intros i; [done|]. cbn. destruct (p y) eqn:Hp.
  - intros [= <-]. by exists y.
  - intros (j & Hj & ->)%fmap_Some. by apply IH.
Qed.

(** ** The invariant *)

(** The metadata of a resource describes its mapping. *)
Record entry_ok (e : ResourceEntry) : Prop := {
  eo_va : u64 e.(re_gpu_va);
  eo_size : u64 e.(re_allocation_size);
  eo_image image : e.(re_linear_image) = Some image → image_wf image;
  eo_mapping : e.(re_gpu_va) = e.(re_mapping).(dma_addr);
  eo_bytes : e.(re_allocation_size) ≤ mapped_bytes e.(re_mapping);
}.

Definition generation_of (c : Context) (a : Attachment) (g : Z) : Prop :=
  1 ≤ g < c.(cx_next_attachment) ∧ a.(at_token) = (rotate_left c.(cx_id) 17 + g) mod 2 ^ 64.

Record context_ok (c : Context) : Prop := {
  co_next : 1 ≤ c.(cx_next_attachment) ≤ U64_MAX;
  co_tokens : NoDup (at_token <$> c.(cx_attachments));
  co_generation a : a ∈ c.(cx_attachments) → ∃ g, generation_of c a g;
}.

(** Where the address in field [f] of a prepared submission points. *)
Definition place (pack : option Z) (p : PreparedSubmission) (f : AddressField) (address size : Z) : Prop :=
  match f.(af_source) with
  | AttachmentSource => ∃ e, e ∈ p.(ps_resources) ∧ e.(re_gpu_va) ≤ address ∧
      address + size ≤ e.(re_gpu_va) + e.(re_allocation_size) ∧ f.(af_access) .&~ e.(re_allowed_access) = 0
  | CanonicalShaderSource _ => ∃ base, pack = Some base ∧ base ≤ address ∧
      address + size ≤ base + PACK_SIZE ∧ f.(af_access) .&~ ACCESS_READ = 0
  end.

Record submission_ok (pack : option Z) (p : PreparedSubmission) : Prop := {
  so_fits : len p.(ps_words) * 4 ≤ MAX_SUBMIT_SIZE;
  so_places : ∃ packets, collect_packets p.(ps_words) = Ok packets ∧
    ∀ packet f, packet ∈ packets → f ∈ packet_fields packet →
      ∃ address size, holds_address p.(ps_words) f.(af_encoding) f.(af_word_offset) address ∧
        0 < size ∧ (∀ n, f.(af_required_size) = Some n → size = n) ∧ place pack p f address size;
}.

(** An entry somebody holds: its token is spent and its mapping exists. *)
Record held_ok (b : Backend) (e : ResourceEntry) : Prop := {
  ho_entry : entry_ok e;
  ho_token : e.(re_token) < b.(be_next_token);
  ho_mapped : b.(be_mapped) !! e.(re_token) = Some e.(re_mapping);
}.

Record backend_ok (b : Backend) : Prop := {
  bo_next : 1 ≤ b.(be_next_token) ≤ U64_MAX;
  bo_held e : e ∈ holders b → held_ok b e;
  bo_contexts id c : b.(be_contexts) !! id = Some c → c.(cx_id) = id ∧ context_ok c;
  bo_ids id c : b.(be_contexts) !! id = Some c → id < b.(be_next_context);
  bo_pack base : b.(be_shader_pack) = Some base → u64 base;
  bo_inflight : Forall (submission_ok b.(be_shader_pack)) b.(be_inflight);
}.

Lemma elem_of_holders b e :
  e ∈ holders b ↔ e ∈ b.(be_registry) ∨
    (∃ id c, b.(be_contexts) !! id = Some c ∧ e ∈ context_entries c) ∨
    (∃ p, p ∈ b.(be_inflight) ∧ e ∈ p.(ps_resources)).
Proof.
  unfold holders. rewrite !elem_of_app, !elem_of_concat. f_equiv. f_equiv.
  - split.
    + intros (l & (c & -> & ([id c'] & -> & Hc)%list_elem_of_fmap)%list_elem_of_fmap & He).
      apply elem_of_map_to_list in Hc. by exists id, c'.
    + intros (id & c & Hc & He). exists (context_entries c). split; [|done].
      apply list_elem_of_fmap. exists c. split; [done|]. apply list_elem_of_fmap.
      exists (id, c). by rewrite elem_of_map_to_list.
  - split.
    + intros (l & (p & -> & Hp)%list_elem_of_fmap & He). by exists p.
    + intros (p & Hp & He). exists (ps_resources p). split; [|done]. by apply list_elem_of_fmap_2.
Qed.

Lemma submission_ok_pack base p : submission_ok None p → submission_ok (Some base) p.
Proof.
  intros [Hfit (packets & Hc & Hp)]. constructor; [done|]. exists packets. split; [done|].
  intros packet f Hin Hf. destruct (Hp packet f Hin Hf) as (address & size & Hh & Hpos & Hs & Hpl).
  exists address, size. split_and!; [done..|]. unfold place in *. destruct (af_source f); [done|].
  by destruct Hpl as (base' & ? & _).
Qed.

(** ** Releasing *)
Lemma release_ok b e : backend_ok b → backend_ok (release b e).
Proof.
  intros Hok. unfold release. destruct (existsb _ _) eqn:Hex; [done|]. destruct (be_quarantine b); [done|].
  destruct Hok as [Hn Hh Hc Hi Hp Hf]. constructor; try done. intros e' He'.
  destruct (Hh e' He') as [He Ht Hm]. constructor; [done..|]. cbn. rewrite lookup_delete_ne; [done|].
  intros Heq. assert (existsb (λ e0, re_token e0 =? re_token e) (holders b) = true); [|congruence].
  apply existsb_exists. exists e'. split; [by apply list_elem_of_In|]. rewrite Heq. apply Z.eqb_refl.
Qed.

Lemma releases_ok l b : backend_ok b → backend_ok (foldl release b l).
Proof. revert b. induction l as [|e l IH]; intros b Hok; [done|]. by apply IH, release_ok. Qed.

(** Giving up references keeps the invariant. *)
Lemma shrink_ok b registry contexts inflight :
  backend_ok b →
  (∀ e, e ∈ registry → e ∈ b.(be_registry)) →
  (∀ id c, contexts !! id = Some c → ∃ c0, b.(be_contexts) !! id = Some c0 ∧ c.(cx_id) = c0.(cx_id) ∧
     context_ok c ∧ ∀ e, e ∈ context_entries c → e ∈ holders b) →
  (∀ p, p ∈ inflight → p ∈ b.(be_inflight)) →
  backend_ok (set_registry registry (set_contexts contexts (set_inflight inflight b))).
Proof.
  intros [Hn Hh Hc Hi Hp Hf] Hr Hcs Hfl. constructor; cbn; try done.
  - intros e He. destruct (Hh e) as [? ? ?]; [|by constructor].
    apply elem_of_holders. apply elem_of_holders in He as [He|[(id & c & Hl & He)|(p & Hin & He)]]; cbn in *.
    + left. auto.
    + destruct (Hcs id c Hl) as (c0 & _ & _ & _ & Hsub). by apply elem_of_holders, Hsub.
    + right; right. exists p. auto.
  - intros id c Hl. destruct (Hcs id c Hl) as (c0 & Hl0 & -> & Hok & _). split; [|done]. by destruct (Hc id c0 Hl0).
  - intros id c Hl. destruct (Hcs id c Hl) as (c0 & Hl0 & _). eauto.
  - apply Forall_forall. intros p Hin. rewrite Forall_forall in Hf. auto.
Qed.

(** ** Preparing a submission *)
Section Submissions.
Context (b : Backend) (c : Context).
Hypothesis Hheld : ∀ e, e ∈ context_entries c → entry_ok e.
Hypothesis Hc : context_ok c.

Let snapshot := merge_sort token_le (resolved <$> c.(cx_attachments)).

Lemma resolved_entry token r :
  resolve_attachment snapshot token = Some r →
  ∃ e, e ∈ context_entries c ∧ entry_ok e ∧ r.(gpu_va) = e.(re_gpu_va) ∧ r.(allocation_size) = e.(re_allocation_size) ∧
    r.(allowed_access) = e.(re_allowed_access) ∧ r.(linear_image) = e.(re_linear_image).
Proof.
  intros H. apply resolve_snapshot in H as (a & Ha & _ & ->); [|by apply co_tokens].
  exists (at_resource a). assert (at_resource a ∈ context_entries c) by by apply list_elem_of_fmap_2.
  split_and!; auto.
Qed.

Lemma resolved_shader base variant r :
  u64 base → resolve_shader_at base variant = Some r →
  base ≤ r.(gpu_va) ∧ r.(gpu_va) + r.(allocation_size) ≤ base + PACK_SIZE ∧ resource_wf r ∧
  r.(allowed_access) = ACCESS_READ ∧ r.(linear_image) = None.
Proof.
  intros [Hpos _]. unfold resolve_shader_at. intros (e & He & H)%bind_Some. apply checked_add_Some in He as [-> _].
  destruct (Z.ltb_spec PACK_SIZE (shader_offset variant + shader_size variant)); [done|].
  apply bind_Some in H as (va & Hva & [= <-]). apply checked_add_Some in Hva as [-> Hva]. cbn.
  assert (0 ≤ shader_offset variant ∧ 0 ≤ shader_size variant < 0x10000) by (destruct variant; vm_compute; done).
  unfold resource_wf, u64, U64_MAX in *. cbn. split_and!; (done || lia).
Qed.

Lemma objects_ok base : u64 base → objects_wf (resolve_attachment snapshot) (resolve_shader_at base).
Proof.
  intros Hb. split.
  - intros token r (e & _ & [] & Hva & Hsz & _)%resolved_entry. by unfold resource_wf; rewrite Hva, Hsz.
  - intros variant r Hr. by apply (resolved_shader base) in Hr as (_ & _ & ? & _).
Qed.

Lemma images_ok base : u64 base → images_wf (resolve_attachment snapshot) (resolve_shader_at base).
Proof.
  intros Hb. split.
  - intros token r (e & _ & [] & _ & _ & _ & Him)%resolved_entry image Hi. rewrite Him in Hi. auto.
  - intros variant r Hr image Hi. apply (resolved_shader base) in Hr as (_ & _ & _ & _ & Hn); congruence.
Qed.

(** What validation confines is held by the submission. *)
Lemma confined_place base out f obj address size :
  u64 base → confined (resolve_attachment snapshot) (resolve_shader_at base) out f obj address size →
  place (Some base) (mk_prepared out (context_entries c)) f address size.
Proof.
  intros Hb [Ha Hacc _ Hlo Hhi _ _ _]. unfold place. destruct (af_source f) as [|stage]; cbn in Ha.
  - destruct Ha as [token (e & He & _ & Hva & Hsz & Hal & _)%resolved_entry]. exists e. cbn.
    rewrite <- Hva, <- Hsz, <- Hal. done.
  - destruct Ha as (variant & Hv & _). apply (resolved_shader base) in Hv as (? & ? & _ & Hal & _); [|done].
    exists base. split_and!; [done|lia|lia|congruence].
Qed.

Hypothesis Hpack : ∀ base, b.(be_shader_pack) = Some base → u64 base.

Lemma shader_base base : shader_pack_base b = Some base → b.(be_shader_pack) = Some base ∧ u64 base.
Proof.
  unfold shader_pack_base. intros (a & Ha & H)%bind_Some. case_match; [done|]. injection H as <-. auto.
Qed.

Lemma prepare_submission_ok strict reserved retained commands p :
  Forall u8 commands → prepare_submission strict reserved retained c commands b = Ok p →
  submission_ok b.(be_shader_pack) p ∧ ∀ e, e ∈ p.(ps_resources) → e ∈ context_entries c.
Proof.
  intros Hu H. unfold prepare_submission in H. destruct commands as [|w ws].
  { injection H as <-. split; [|set_solver]. constructor; [done|]. exists []. split; [done|set_solver]. }
  step_ok H as base Hbase. destruct (shader_base base Hbase) as [-> Hb].
  step_ok H as sr Hs. destruct sr as [attachments resources]. unfold attachment_snapshot in Hs.
  repeat (case_match; [done|]). injection Hs as <- <-. step_ok H as words Hw. injection H as <-.
  unfold Hw.map_error in Hw. destruct (validate_and_relocate _ _ _ _) as [out| |] eqn:Hv; simplify_eq.
  split; [|done]. pose proof (objects_ok base Hb) as Hobj.
  destruct (validate_and_relocate_admitted _ _ _ _ _ Hobj Hu Hv) as (d & s & ps & l & res & _ & _ & Hadm).
  constructor; cbn [ps_words].
  - pose proof (pm4_len_bound s (adm_counts _ _ _ _ _ _ _ Hadm)) as Hlen.
    pose proof (adm_length _ _ _ _ _ _ _ Hadm). unfold len, MAX_SUBMIT_SIZE in *. lia.
  - destruct (admitted_fields _ _ Hobj _ _ _ _ _ Hadm) as (packets & Hp & Hf). exists packets. split; [done|].
    intros packet f Hin Hff. destruct (Hf packet f Hin Hff) as (obj & address & size & Hcon).
    exists address, size. split_and!; [apply Hcon|apply Hcon|apply Hcon|by eapply confined_place].
Qed.

Lemma prepare_submission_safe strict reserved retained commands :
  Forall u8 commands → safe (prepare_submission strict reserved retained c commands b).
Proof.
  intros Hu. unfold prepare_submission. destruct commands as [|w ws]; [done|].
  apply safe_bind; [apply safe_ok_or|]. intros base [_ Hb]%ok_or_Ok%shader_base.
  apply safe_bind; [by unfold attachment_snapshot; repeat case_match|]. intros [attachments resources] Hs.
  apply safe_bind; [|done]. unfold attachment_snapshot in Hs. repeat (case_match; [done|]).
  injection Hs as <- <-. pose proof (validate_and_relocate_safe _ _ (images_ok base Hb) strict _ Hu) as Hsafe.
  fold snapshot. by destruct (validate_and_relocate _ _ _ _).
Qed.
End Submissions.

(** ** Operations *)

(** The IOMMU answers with a device address. *)
Definition address_ok (iommu : option Z) : Prop := ∀ a, iommu = Some a → u64 a.

Lemma allocate_inv current e :
  1 ≤ current ≤ U64_MAX →
  (∃ x, allocate_monotonic current e = (Err x, current)) ∨
  (allocate_monotonic current e = (Ok current, current + 1) ∧ current + 1 ≤ U64_MAX).
Proof.
  intros H. unfold allocate_monotonic. destruct (Z.eqb_spec current 0); [lia|].
  destruct (Z.eqb_spec current U64_MAX); [left; by eexists|]. right. split; [done|lia].
Qed.

Lemma fresh_ok b m :
  backend_ok b → b.(be_next_token) + 1 ≤ U64_MAX →
  backend_ok (set_mapped (<[b.(be_next_token) := m]> b.(be_mapped)) (set_next_token (b.(be_next_token) + 1) b)).
Proof.
  intros [Hn Hh Hc Hi Hp Hf] Hlt. constructor; cbn; try done; [lia|].
  intros e He. destruct (Hh e He) as [Hok Ht Hm]. constructor; cbn; [done|lia|].
  rewrite lookup_insert_ne by lia. done.
Qed.

Lemma register_ok b e :
  backend_ok b → held_ok b e → backend_ok (set_registry (b.(be_registry) ++ [e]) b).
Proof.
  intros [Hn Hh Hc Hi Hp Hf] He. constructor; cbn; try done. intros e' He'.
  assert (held_ok b e') as [? ? ?]; [|by constructor].
  apply elem_of_holders in He'. cbn in He'. rewrite elem_of_app, list_elem_of_singleton in He'.
  destruct He' as [[He'| ->]|He']; [|done|]; apply Hh, elem_of_holders; tauto.
Qed.

Lemma publish_ok b m size access image reserved :
  backend_ok b → u64 m.(dma_addr) → u64 size → size ≤ mapped_bytes m →
  (∀ im, image = Some im → image_wf im) → backend_ok (publish m size access image reserved b).2.
Proof.
  intros Hok Hva Hsz Hbytes Him. unfold publish.
  destruct (allocate_inv b.(be_next_token) "qcom-adreno-a618: resource token space exhausted" (bo_next _ Hok))
    as [[x ->]|[-> Hlt]]; [done|].
  pose proof (fresh_ok b m Hok Hlt) as Hfresh. destruct reserved; cbn [snd].
  - apply (register_ok _ _ Hfresh). constructor; cbn; [by constructor|lia|by rewrite lookup_insert_eq].
  - by apply release_ok.
Qed.

(** Replacing a context by one that holds nothing new. *)
Lemma update_context_ok b c c' :
  backend_ok b → b.(be_contexts) !! c.(cx_id) = Some c → c'.(cx_id) = c.(cx_id) → context_ok c' →
  (∀ e, e ∈ context_entries c' → e ∈ holders b) →
  backend_ok (set_contexts (<[c.(cx_id) := c']> b.(be_contexts)) b).
Proof.
  intros Hok Hl Hid Hc' Hsub.
  refine (shrink_ok b b.(be_registry) (<[c.(cx_id) := c']> b.(be_contexts)) b.(be_inflight) Hok _ _ _); try done.
  intros id c1 [[<- <-]|[Hne Hl1]]%lookup_insert_Some; [by exists c|].
  exists c1. destruct (bo_contexts _ Hok _ _ Hl1). split_and!; try done.
  intros e He. apply elem_of_holders. right; left. eauto.
Qed.

Lemma context_entries_held b c e :
  b.(be_contexts) !! c.(cx_id) = Some c → e ∈ context_entries c → e ∈ holders b.
Proof. intros Hl He. apply elem_of_holders. right; left. eauto. Qed.

Lemma attach_ok (resource : option ResourceEntry) token reserved c r c' :
  context_ok c → attach resource token reserved c = (r, c') →
  c'.(cx_id) = c.(cx_id) ∧ context_ok c' ∧
  ∀ e, e ∈ context_entries c' → e ∈ context_entries c ∨ resource = Some e.
Proof.
  intros Hc H. unfold attach in H. destruct resource as [e|]; [|by simplify_eq; auto].
  destruct (existsb _ _); [by simplify_eq; auto|].
  destruct (allocate_inv c.(cx_next_attachment) "qcom-adreno-a618: attachment token space exhausted" (co_next _ Hc))
    as [[x Hx]|[Hx Hlt]]; rewrite Hx in H; [by simplify_eq; auto|]. clear Hx.
  destruct Hc as [Hn Ht Hg].
  assert (context_ok (mk_context c.(cx_id) (c.(cx_next_attachment) + 1) c.(cx_attachments))) as Hmore.
  { constructor; cbn; [lia|done|]. intros a (g & ? & ?)%Hg. exists g. split; cbn; [lia|done]. }
  cbn [cx_id cx_attachments] in H. destruct (_ || _) eqn:Hfree; [by simplify_eq; auto|].
  destruct (negb reserved); simplify_eq; [by auto|]. apply orb_false_elim in Hfree as [_ Hfree].
  cbn. split_and!; [done| |].
  - constructor; cbn; [lia| |].
    + rewrite fmap_app, NoDup_app. split_and!; [done| |apply NoDup_singleton].
      intros t (a & -> & Ha)%list_elem_of_fmap [= Heq]%list_elem_of_singleton.
      assert (existsb (λ a, at_token a =? (rotate_left (cx_id c) 17 + cx_next_attachment c) mod 2 ^ 64) (cx_attachments c) = true);
        [|congruence].
      apply existsb_exists. exists a. split; [by apply list_elem_of_In|]. by apply Z.eqb_eq.
    + intros a [Ha| ->%list_elem_of_singleton]%elem_of_app.
      * destruct (Hg a Ha) as (g & ? & ?). exists g. split; cbn; [lia|done].
      * exists c.(cx_next_attachment). split; cbn; [lia|done].
  - unfold context_entries. cbn. intros e'. rewrite fmap_app, elem_of_app. cbn. rewrite list_elem_of_singleton.
    intros [?| ->]; auto.
Qed.

Lemma detach_ok token c r c' :
  context_ok c → detach token c = (r, c') →
  c'.(cx_id) = c.(cx_id) ∧ context_ok c' ∧ (∀ e, e ∈ context_entries c' → e ∈ context_entries c) ∧ r ≠ Panic.
Proof.
  intros Hc H. unfold detach in H. destruct (position _ _) as [i|] eqn:Hpos; [|by simplify_eq].
  apply position_Some in Hpos as (a & Ha & _). rewrite Ha in H. simplify_eq. cbn.
  pose proof (swap_remove_Permutation i _ a Ha) as Hperm. destruct Hc as [Hn Ht Hg]. split_and!; try done.
  - constructor; cbn; [done| |].
    + rewrite Hperm in Ht. cbn in Ht. by apply NoDup_cons in Ht as [_ ?].
    + intros a' Ha'. apply (Hg a'). rewrite Hperm. by right.
  - unfold context_entries. cbn. intros e He. rewrite Hperm. cbn. by right.
Qed.
End ContextFacts.
