(* ===== verification/ContextSafety.v ===== *)
(** * Reachable states of the authority tables

    The calls of the graphics layer, in any order and on any number of
    contexts, as a step relation; the invariant of [ContextFacts] holds in
    every reachable state, and attachment tokens are never handed out twice. *)
From stdpp Require Import gmap sorting.
From S2P Require Import Prelude Pm4 ImageLayout ShaderPack SubmitWire SubmitWireFacts SubmitTypes SubmitPackets SubmitPacketFacts.
From S2P Require Import SubmitRelocate SubmitFields SubmitSafety SubmitSample SubmitConfinement SubmitNoPanic Registers Hardware Resources.
From S2P Require Import Resources Contexts ContextFacts.

Module ContextSafety.
Import Resources ResourceFacts Contexts ContextFacts.
#[local] Arguments holders : simpl never.

Section Steps.
Context `{K : KernelGpu, !KernelGpuLaws K}.

(** The device address of a fresh allocation. *)
Definition allocation_ok (allocation : string + Z * list Z) : Prop :=
  match allocation with inl _ => True | inr (address, _) => u64 address end.

Inductive step (b : Backend) : Backend → Prop :=
| st_buffer iommu reserved paddr size :
    address_ok iommu → u64 size → step b (create_buffer iommu reserved paddr size b).2
| st_image iommu metadata reserved create layout backing :
    address_ok iommu → create_typed create → backing_typed backing →
    step b (create_image_with_layout iommu metadata reserved create layout backing b).2
| st_import iommu metadata reserved d color paddr contiguous segments :
    address_ok iommu → descriptor_typed d →
    step b (import_shared_image iommu metadata reserved d color paddr contiguous segments b).2
| st_drop token : step b (drop_resource token b)
| st_context allocation worker index token :
    allocation_ok allocation → step b (create_context allocation worker index token b).2
| st_drop_context id : step b (drop_context id b)
| st_attach c cookie token reserved :
    b.(be_contexts) !! c.(cx_id) = Some c → step b (attach_resource cookie token reserved c b).2
| st_detach foreign c cookie token :
    b.(be_contexts) !! c.(cx_id) = Some c → step b (detach_object foreign cookie token c b).2
| st_submit c strict reserved retained commands :
    b.(be_contexts) !! c.(cx_id) = Some c → Forall u8 commands →
    step b (submit strict reserved retained commands c b).2
| st_retire i : step b (retire i b)
| st_quarantine : step b (set_be_quarantine true b).

(** A probed device: no resource, no context, counters at one. *)
Definition fresh_backend (cookie : Z) : Backend := mk_backend cookie 1 1 [] ∅ None false ∅ [].

Definition reachable (b : Backend) : Prop := ∃ cookie, rtc step (fresh_backend cookie) b.

(** ** The invariant is preserved *)
Lemma create_image_resource_ok b iommu metadata reserved backing access image :
  backend_ok b → address_ok iommu → backing_typed backing → image_wf image →
  backend_ok (create_image_resource iommu metadata reserved backing access image b).2.
Proof.
  intros Hok Hi Hb Him. unfold create_image_resource.
  destruct (map_image_backing _ _ _ _) as [m| |] eqn:Hm; try done.
  apply map_image_backing_ok in Hm as (Ha & Hsz & _). apply publish_ok; auto. by intros im [= <-].
Qed.

Lemma create_ok b b' :
  backend_ok b →
  (∃ iommu reserved paddr size, address_ok iommu ∧ u64 size ∧ b' = (create_buffer iommu reserved paddr size b).2) ∨
  (∃ iommu metadata reserved create layout backing, address_ok iommu ∧ create_typed create ∧ backing_typed backing ∧
     b' = (create_image_with_layout iommu metadata reserved create layout backing b).2) ∨
  (∃ iommu metadata reserved d color paddr contiguous segments, address_ok iommu ∧ descriptor_typed d ∧
     b' = (import_shared_image iommu metadata reserved d color paddr contiguous segments b).2) →
  backend_ok b'.
Proof.
  intros Hok [(iommu & rs & pa & sz & Hi & Hs & ->)|[(iommu & md & rs & cr & ly & bk & Hi & Hc & Hb & ->)
    |(iommu & md & rs & d & co & pa & ct & sg & Hi & Hd & ->)]].
  - unfold create_buffer. destruct (map_backing _ _ _ _) as [m| |] eqn:Hm; try done.
    apply map_backing_ok in Hm as (Ha & Hsz & _). apply publish_ok; auto; [lia|done].
  - unfold create_image_with_layout. destruct (image_authority _ _ _) as [[a im]| |] eqn:Ha; try done.
    apply image_authority_ok in Ha as [Hwf _]; [|done]. by apply create_image_resource_ok.
  - unfold import_shared_image. destruct (shared_authority _ _) as [[ly im]| |] eqn:Ha; try done.
    apply shared_authority_ok in Ha as [Hwf Ht]; [|done]. apply create_image_resource_ok; try done.
    unfold backing_typed. cbn. rewrite Ht. apply Hd.
Qed.

Lemma drop_resource_ok b token : backend_ok b → backend_ok (drop_resource token b).
Proof.
  intros Hok. unfold drop_resource. destruct (position _ _) as [i|] eqn:Hp; [|done].
  apply position_Some in Hp as (e & He & _). rewrite He. apply release_ok.
  refine (shrink_ok b (swap_remove i b.(be_registry)) b.(be_contexts) b.(be_inflight) Hok _ _ _); try done.
  - intros e' He'. rewrite (swap_remove_Permutation i _ e He). by right.
  - intros id c Hc. exists c. destruct (bo_contexts _ Hok _ _ Hc) as [Hid ?]. split_and!; try done.
    intros e'. apply context_entries_held. by rewrite Hid.
Qed.

Lemma ensure_shader_pack_ok b allocation :
  backend_ok b → allocation_ok allocation → backend_ok (ensure_shader_pack allocation b).2.
Proof.
  intros Hok Ha. unfold ensure_shader_pack. destruct (be_quarantine b); [done|].
  destruct (be_shader_pack b) as [base|] eqn:Hb; [done|]. destruct allocation as [e|[address bytes]]; [done|].
  repeat case_match; try done. destruct Hok as [Hn Hh Hc Hi Hp Hf]. constructor; cbn; try done.
  - intros e He. by destruct (Hh e He).
  - by intros base [= <-].
  - rewrite Hb in Hf. eapply Forall_impl; [exact Hf|]. intros p. apply submission_ok_pack.
Qed.

Lemma create_context_ok b allocation worker index token :
  backend_ok b → allocation_ok allocation → backend_ok (create_context allocation worker index token b).2.
Proof.
  intros Hok Ha. unfold create_context. case_match; [done|]. apply (ensure_shader_pack_ok _ allocation) in Hok; [|done].
  destruct (ensure_shader_pack allocation b) as [[] b1]; cbn in Hok; try done. destruct worker; [done|].
  unfold allocate_monotonic. destruct (_ && _); [|done]. destruct Hok as [Hn Hh Hc Hi Hp Hf]. constructor; cbn; try done.
  - intros e He. assert (held_ok b1 e) as [? ? ?]; [|by constructor]. apply Hh, elem_of_holders.
    apply elem_of_holders in He as [?|[(id & c & Hl & He)|?]]; cbn in *; [by left| |by right; right].
    apply lookup_insert_Some in Hl as [[<- <-]|[? Hl]]; [by apply elem_of_nil in He|]. right; left. eauto.
  - intros id c [[<- <-]|[? Hl]]%lookup_insert_Some; [|eauto]. split; [done|]. constructor; cbn; [done|constructor|].
    intros at0 Hat. by apply elem_of_nil in Hat.
  - intros id c [[<- <-]|[? Hl]]%lookup_insert_Some; [lia|]. specialize (Hi _ _ Hl). lia.
Qed.

Lemma drop_context_ok b id : backend_ok b → backend_ok (drop_context id b).
Proof.
  intros Hok. unfold drop_context. destruct (be_contexts b !! id) as [c|] eqn:Hl; [|done]. apply releases_ok.
  refine (shrink_ok b b.(be_registry) (delete id b.(be_contexts)) b.(be_inflight) Hok _ _ _); try done.
  intros id' c' [? Hl']%lookup_delete_Some. exists c'. destruct (bo_contexts _ Hok _ _ Hl') as [Hid ?].
  split_and!; try done. intros e. apply context_entries_held. by rewrite Hid.
Qed.

Lemma attach_resource_ok b c cookie token reserved :
  backend_ok b → b.(be_contexts) !! c.(cx_id) = Some c → backend_ok (attach_resource cookie token reserved c b).2.
Proof.
  intros Hok Hl. unfold attach_resource. case_match; [done|].
  destruct (attach _ _ _ _) as [r c'] eqn:Ha. destruct (bo_contexts _ Hok _ _ Hl) as [_ Hc].
  apply attach_ok in Ha as (Hid & Hc' & Hsub); [|done]. cbn [snd]. rewrite Hid.
  apply update_context_ok; try done. intros e [He|He]%Hsub; [by eapply context_entries_held|].
  apply elem_of_holders. left. apply find_some in He as [He _]. by apply list_elem_of_In.
Qed.

Lemma detach_object_ok b foreign c cookie token :
  backend_ok b → b.(be_contexts) !! c.(cx_id) = Some c → backend_ok (detach_object foreign cookie token c b).2.
Proof.
  intros Hok Hl. unfold detach_object. case_match; [done|].
  destruct (detach token c) as [r c'] eqn:Hd. destruct (bo_contexts _ Hok _ _ Hl) as [_ Hc].
  apply detach_ok in Hd as (Hid & Hc' & Hsub & _); [|done]. destruct r as [e| |]; try done.
  apply release_ok. rewrite Hid. apply update_context_ok; try done.
  intros e' He'. eapply context_entries_held; [done|]. auto.
Qed.

Lemma submit_ok b c strict reserved retained commands :
  backend_ok b → b.(be_contexts) !! c.(cx_id) = Some c → Forall u8 commands →
  backend_ok (submit strict reserved retained commands c b).2.
Proof.
  intros Hok Hl Hu. unfold submit. destruct (bo_contexts _ Hok _ _ Hl) as [_ Hc].
  destruct (prepare_submission _ _ _ _ _ _) as [p| |] eqn:Hp; try done.
  apply prepare_submission_ok in Hp as [Hsub Hres]; [|intros e He|done|by apply bo_pack|done].
  2:{ by destruct (bo_held _ Hok e (context_entries_held _ _ _ Hl He)). }
  destruct Hok as [Hn Hh Hcs Hi Hpk Hf]. constructor; cbn; try done.
  - intros e He. assert (held_ok b e) as [? ? ?]; [|by constructor]. apply Hh, elem_of_holders.
    apply elem_of_holders in He as [?|[?|(p' & Hin & He)]]; cbn in *; [by left|by right; left|].
    apply elem_of_app in Hin as [?| ->%list_elem_of_singleton]; right; [right|left]; eauto.
  - apply Forall_app. split; [done|]. by constructor.
Qed.

Lemma retire_ok b i : backend_ok b → backend_ok (retire i b).
Proof.
  intros Hok. unfold retire. destruct (be_quarantine b); [done|]. destruct (_ !! i) as [p|]; [|done]. apply releases_ok.
  refine (shrink_ok b b.(be_registry) b.(be_contexts) (delete i b.(be_inflight)) Hok _ _ _); try done.
  - intros id c Hc. exists c. destruct (bo_contexts _ Hok _ _ Hc) as [Hid ?]. split_and!; try done.
    intros e. apply context_entries_held. by rewrite Hid.
  - intros p'. apply list_elem_of_delete_inv.
Qed.

Lemma step_ok' b b' : backend_ok b → step b b' → backend_ok b'.
Proof.
  intros Hok [] ; eauto 8 using drop_resource_ok, create_context_ok, drop_context_ok, attach_resource_ok, detach_object_ok,
    submit_ok, retire_ok.
  - eapply create_ok; [exact Hok|]. left. do 4 eexists. eauto.
  - eapply create_ok; [exact Hok|]. right; left. do 6 eexists. eauto.
  - eapply create_ok; [exact Hok|]. right; right. do 8 eexists. eauto.
  - destruct Hok. constructor; cbn; try done. intros e He. by destruct (bo_held0 e He).
Qed.

Lemma reachable_ok b : reachable b → backend_ok b.
Proof.
  intros [cookie H]. assert (backend_ok (fresh_backend cookie)) as H0.
  { constructor; cbn; try done. intros e He. by apply elem_of_nil in He. }
  induction H as [|b1 b2 b3 Hs _ IH]; eauto using step_ok'.
Qed.

(** ** Tokens *)

(** Generations below [n] of context [id] are spent. *)
Definition spent (id n : Z) (b : Backend) : Prop :=
  id < b.(be_next_context) ∧ ∀ c, b.(be_contexts) !! id = Some c → n ≤ c.(cx_next_attachment).

(** Operations that leave the contexts alone. *)
Lemma release_contexts b e :
  (release b e).(be_contexts) = b.(be_contexts) ∧ (release b e).(be_next_context) = b.(be_next_context).
Proof. unfold release. by repeat case_match. Qed.

Lemma releases_contexts l b :
  (foldl release b l).(be_contexts) = b.(be_contexts) ∧ (foldl release b l).(be_next_context) = b.(be_next_context).
Proof.
  revert b. induction l as [|e l IH]; intros b; [done|]. cbn. destruct (IH (release b e)) as [-> ->].
  apply release_contexts.
Qed.

Lemma publish_contexts m size access image reserved b :
  (publish m size access image reserved b).2.(be_contexts) = b.(be_contexts) ∧
  (publish m size access image reserved b).2.(be_next_context) = b.(be_next_context).
Proof.
  unfold publish. destruct (allocate_monotonic _ _) as [[]]; try done. destruct reserved; [done|].
  cbn [snd]. destruct (release_contexts (set_mapped (<[a:=m]> (be_mapped b)) (set_next_token z b))
    (mk_entry a (dma_addr m) size access image m)) as [-> ->]. done.
Qed.

Lemma spent_same id n b b' :
  b'.(be_contexts) = b.(be_contexts) → b'.(be_next_context) = b.(be_next_context) → spent id n b → spent id n b'.
Proof. intros Hc Hn [Hid Hs]. split; [by rewrite Hn|]. intros c. rewrite Hc. apply Hs. Qed.

Lemma spent_update id n b c c' :
  b.(be_contexts) !! c.(cx_id) = Some c → c'.(cx_id) = c.(cx_id) →
  c.(cx_next_attachment) ≤ c'.(cx_next_attachment) →
  spent id n b → spent id n (set_contexts (<[c'.(cx_id) := c']> b.(be_contexts)) b).
Proof.
  intros Hl Hid Hle [Hn Hs]. split; [done|]. cbn. rewrite Hid.
  intros c1 [[<- <-]|[_ Hl1]]%lookup_insert_Some; [|auto]. specialize (Hs _ Hl). lia.
Qed.

Lemma attach_next resource token reserved c r c' :
  attach resource token reserved c = (r, c') →
  c'.(cx_id) = c.(cx_id) ∧ c.(cx_next_attachment) ≤ c'.(cx_next_attachment).
Proof.
  unfold attach, allocate_monotonic. intros H.
  repeat (case_match; simplify_eq/=; try (split; (done || lia))).
Qed.

Lemma create_context_next b allocation worker index token r b' :
  create_context allocation worker index token b = (r, b') →
  b.(be_next_context) ≤ b'.(be_next_context) ∧
  ∀ id c, b'.(be_contexts) !! id = Some c → b.(be_contexts) !! id = Some c ∨ id = b.(be_next_context).
Proof.
  unfold create_context, ensure_shader_pack, allocate_monotonic. intros H.
  repeat (case_match; simplify_eq/=; try (split; [lia|by left])); (split; [lia|]);
    intros id c1 [[<- <-]|[_ ?]]%lookup_insert_Some; auto.
Qed.

Lemma step_spent id n b b' : step b b' → spent id n b → spent id n b'.
Proof.
  intros Hs Hsp. destruct Hs.
  - unfold create_buffer. destruct (map_backing _ _ _ _); [|done..].
    eapply spent_same; [apply publish_contexts..|done].
  - unfold create_image_with_layout, create_image_resource. destruct (image_authority _ _ _) as [[]| |]; [|done..].
    destruct (map_image_backing _ _ _ _); [|done..]. eapply spent_same; [apply publish_contexts..|done].
  - unfold import_shared_image, create_image_resource. destruct (shared_authority _ _) as [[]| |]; [|done..].
    destruct (map_image_backing _ _ _ _); [|done..]. eapply spent_same; [apply publish_contexts..|done].
  - unfold drop_resource. repeat (case_match; [|done]). eapply spent_same; [apply release_contexts..|done].
  - destruct (create_context _ _ _ _ b) as [r b'] eqn:Hc. apply create_context_next in Hc as [Hn Hc].
    destruct Hsp as [Hid Hle]. split; [cbn; lia|]. intros c [Hl| ->]%Hc; [auto|lia].
  - unfold drop_context. case_match; [|done]. eapply spent_same; [apply releases_contexts..|].
    destruct Hsp as [Hid Hle]. split; [done|]. cbn. intros c' [_ Hl]%lookup_delete_Some. auto.
  - unfold attach_resource. case_match; [done|]. destruct (attach _ _ _ _) as [r c'] eqn:Ha.
    apply attach_next in Ha as (Hid & Hle). by apply (spent_update _ _ _ c).
  - unfold detach_object. case_match; [done|]. unfold detach. repeat (case_match; try done); simplify_eq.
    eapply spent_same; [apply release_contexts..|]. by apply (spent_update _ _ _ c).
  - unfold submit. by destruct (prepare_submission _ _ _ _ _ _).
  - unfold retire. case_match; [done|]. case_match; [|done]. by eapply spent_same; [apply releases_contexts..|].
  - done.
Qed.

Lemma attach_token resource token reserved c t c' :
  context_ok c → attach resource token reserved c = (Ok t, c') →
  t = (rotate_left c.(cx_id) 17 + c.(cx_next_attachment)) mod 2 ^ 64 ∧
  c'.(cx_id) = c.(cx_id) ∧ c'.(cx_next_attachment) = c.(cx_next_attachment) + 1 ∧ c'.(cx_next_attachment) ≤ U64_MAX.
Proof.
  intros Hc H. unfold attach in H. destruct resource; [|done]. destruct (existsb _ _); [done|].
  destruct (allocate_inv c.(cx_next_attachment) "qcom-adreno-a618: attachment token space exhausted" (co_next _ Hc))
    as [[x Hx]|[Hx Hlt]]; rewrite Hx in H; [done|]. repeat (case_match; simplify_eq/=); auto.
Qed.

(** ** Theorems *)

(** C6: the memory of a submission stays mapped until it retires.  In every
    state that the graphics layer can bring about, by any sequence of creating
    and dropping resources and contexts, attaching, detaching, submitting and
    retiring, the words of every submission in flight parse as packets, and
    each address they hold, with at least one byte and as many as the command
    fixes, lies either in a live IOMMU mapping of a resource the submission
    retains, with an access the resource allows, or in the shader pack, for
    reading. *)
Theorem inflight_memory_mapped (b : Backend) (p : PreparedSubmission) :
  reachable b → p ∈ b.(be_inflight) →
  ∃ packets, collect_packets p.(ps_words) = Ok packets ∧
    ∀ packet f, packet ∈ packets → f ∈ packet_fields packet →
      ∃ address size, holds_address p.(ps_words) f.(af_encoding) f.(af_word_offset) address ∧
        0 < size ∧ (∀ n, f.(af_required_size) = Some n → size = n) ∧
        match f.(af_source) with
        | AttachmentSource => ∃ e m, e ∈ p.(ps_resources) ∧ b.(be_mapped) !! e.(re_token) = Some m ∧
            m.(dma_addr) ≤ address ∧ address + size ≤ m.(dma_addr) + mapped_bytes m ∧
            f.(af_access) .&~ e.(re_allowed_access) = 0
        | CanonicalShaderSource _ => ∃ base, b.(be_shader_pack) = Some base ∧ base ≤ address ∧
            address + size ≤ base + PACK_SIZE ∧ f.(af_access) .&~ ACCESS_READ = 0
        end.
Proof.
  intros Hr Hp. apply reachable_ok in Hr. pose proof (bo_inflight _ Hr) as Hf. rewrite Forall_forall in Hf.
  destruct (Hf p Hp) as [_ (packets & Hc & Hpl)]. exists packets. split; [done|]. intros packet f Hin Hff.
  destruct (Hpl packet f Hin Hff) as (address & size & Hh & Hpos & Hs & Hplace). exists address, size.
  split_and!; [done..|]. unfold place in Hplace. destruct (af_source f); [|done].
  destruct Hplace as (e & He & Hlo & Hhi & Hacc).
  destruct (bo_held _ Hr e) as [[_ _ _ Hva Hsz] _ Hm]; [apply elem_of_holders; right; right; eauto|].
  exists e, (re_mapping e). split_and!; try done; lia.
Qed.

(** An attachment token is never handed out twice.  Whatever happens
    between two successful attachments to one context, resources detached and
    dropped, other contexts created and dropped, the second token differs from
    the first: a stale token never designates another resource. *)
Theorem attachment_tokens_unique (b1 b2 b2' : Backend) (c1 c2 : Context)
    (cookie1 cookie2 token1 token2 t1 t2 : Z) (reserved1 reserved2 : bool) :
  reachable b1 → b1.(be_contexts) !! c1.(cx_id) = Some c1 →
  (attach_resource cookie1 token1 reserved1 c1 b1).1 = Ok t1 →
  rtc step (attach_resource cookie1 token1 reserved1 c1 b1).2 b2 →
  c2.(cx_id) = c1.(cx_id) → b2.(be_contexts) !! c2.(cx_id) = Some c2 →
  attach_resource cookie2 token2 reserved2 c2 b2 = (Ok t2, b2') → t1 ≠ t2.
Proof.
  intros Hr Hl1 H1 Hrun Hid Hl2 H2.
  assert (reachable b2) as Hr2.
  { destruct Hr as [cookie Hr]. exists cookie. etrans; [exact Hr|]. eapply rtc_l; [|exact Hrun]. by constructor. }
  apply reachable_ok in Hr, Hr2. destruct (bo_contexts _ Hr _ _ Hl1) as [_ Hc1].
  destruct (bo_contexts _ Hr2 _ _ Hl2) as [_ Hc2]. pose proof (bo_ids _ Hr _ _ Hl1) as Hids.
  unfold attach_resource in H1, H2, Hrun.
  destruct (negb (cookie1 =? _) || _); [done|]. destruct (negb (cookie2 =? _) || _); [done|].
  destruct (attach _ token1 _ _) as [r1 c1'] eqn:Ha1. destruct (attach _ token2 _ _) as [r2 c2'] eqn:Ha2.
  cbn in H1. simplify_eq. apply attach_token in Ha1 as (-> & Hi1 & Hn1 & Hm1); [|done].
  apply attach_token in Ha2 as (-> & _ & Hn2 & Hm2); [|done].
  assert (spent c1.(cx_id) c1'.(cx_next_attachment) b2) as [_ Hsp].
  { cbn [snd] in Hrun. assert (∀ x y, rtc step x y → ∀ n, spent c1.(cx_id) n x → spent c1.(cx_id) n y) as Hmono.
    { induction 1; eauto using step_spent. }
    eapply Hmono; [exact Hrun|]. split; [done|]. cbn. rewrite Hi1, lookup_insert_eq. by intros c [= <-]. }
  rewrite Hid in *. specialize (Hsp _ Hl2). pose proof (co_next _ Hc1). pose proof (co_next _ Hc2).
  unfold U64_MAX in *. intros Heq. generalize dependent (rotate_left (cx_id c1) 17). intros r Heq.
  Z.to_euclidean_division_equations. lia.
Qed.

(** A submission is resolved against what its context has attached.  The
    sorted snapshot and its binary search find, for each token, the attachment
    that carries it, and nothing for any other token. *)
Theorem snapshot_resolves (b : Backend) (c : Context) (snapshot : list ResolvedResource)
    (retained : list ResourceEntry) (token : Z) :
  reachable b → b.(be_contexts) !! c.(cx_id) = Some c →
  attachment_snapshot (len c.(cx_attachments)) true true c = Ok (snapshot, retained) →
  resolve_attachment snapshot token
  = resolved <$> List.find (λ a, a.(at_token) =? token) c.(cx_attachments).
Proof.
  intros Hr Hl H. destruct (bo_contexts _ (reachable_ok _ Hr) _ _ Hl) as [_ Hc].
  unfold attachment_snapshot in H. cbn in H. case_match; [done|]. injection H as <- _.
  apply option_eq. intros r. rewrite resolve_snapshot by apply Hc. rewrite fmap_Some. split.
  - intros (a & Ha & Ht & ->). destruct (List.find _ _) as [a'|] eqn:Hf.
    + exists a'. split; [done|]. f_equal. apply find_some in Hf as [Hin Heq%Z.eqb_eq].
      apply list_elem_of_In in Hin. apply list_elem_of_lookup in Ha as [i Hi], Hin as [j Hj].
      assert (i = j) as <-; [|congruence].
      eapply (NoDup_lookup _ _ _ token (co_tokens _ Hc)); rewrite list_lookup_fmap, ?Hi, ?Hj; cbn; congruence.
    + pose proof (find_none _ _ Hf a ltac:(by apply list_elem_of_In)) as Hn. by apply Z.eqb_neq in Hn.
  - intros (a & Hf & ->). apply find_some in Hf as [Hin Heq%Z.eqb_eq]. exists a.
    by apply list_elem_of_In in Hin.
Qed.

(** Preparing a submission always answers.  In every reachable state and
    for every byte string, the call returns words or an error, and the words
    fit the staging buffer that the hardware reads them from. *)
Theorem submit_total (b : Backend) (c : Context) (strict reserved retained : bool) (commands : list Z) :
  reachable b → b.(be_contexts) !! c.(cx_id) = Some c → Forall u8 commands →
  match prepare_submission strict reserved retained c commands b with
  | Ok p => len p.(ps_words) * 4 ≤ MAX_SUBMIT_SIZE
  | Err _ => True
  | Panic => False
  end.
Proof.
  intros Hr%reachable_ok Hl Hu. destruct (bo_contexts _ Hr _ _ Hl) as [_ Hc].
  assert (∀ e, e ∈ context_entries c → entry_ok e) as Hheld.
  { intros e He. by destruct (bo_held _ Hr e (context_entries_held _ _ _ Hl He)). }
  pose proof (prepare_submission_safe b c Hheld Hc (bo_pack _ Hr) strict reserved retained _ Hu) as Hsafe.
  destruct (prepare_submission _ _ _ _ _ _) as [p| |] eqn:Hp; [|done|done].
  apply prepare_submission_ok in Hp as [[Hfit _] _]; [done..|by apply bo_pack|done].
Qed.
End Steps.
End ContextSafety.

(** * A history of the authority tables

    A kernel with concrete constants and a linear layout, and a run of calls:
    a context, an image and a buffer, both attached, and the submission of
    [SubmitSample] against their tokens.  It shows that the hypotheses of the
    theorems about the tables can be met. *)

Module ContextSample.
Import Resources ResourceFacts Contexts ContextFacts ContextSafety.

Definition no_plane : GpuBackendImagePlaneLayout := mk_plane 0 0 0 0 0 0 0.

Definition linear_layout (create : GpuImageCreateInfo) (pitch alignment : Z) :
    outcome string GpuBackendImageLayout :=
  let size := pitch * create.(ci_height) in
  if (0 <=? size) && (size <=? U64_MAX)
  then Ok (mk_layout 0 size alignment 1 (mk_plane 0 size pitch 0 1 1 4) [no_plane; no_plane; no_plane])
  else Err ("layout overflows" : string).

#[export] Instance sample_kernel : KernelGpu := {|
  GPU_IMAGE_FORMAT_BGRA8_UNORM := 1;
  GPU_IMAGE_FORMAT_DEPTH32_FLOAT := 2;
  GPU_IMAGE_FORMAT_NV12 := 3;
  GPU_IMAGE_USAGE_RENDER_TARGET := 1;
  GPU_IMAGE_USAGE_PRESENTABLE := 2;
  GPU_IMAGE_USAGE_SAMPLED := 4;
  GPU_IMAGE_USAGE_TRANSFER_SRC := 8;
  GPU_IMAGE_USAGE_TRANSFER_DST := 16;
  GPU_IMAGE_USAGE_DEPTH_STENCIL_ATTACHMENT := 32;
  IMAGE_FORMAT_NV12 := 1;
  COLOR_MATRIX_BT601 := 1;
  COLOR_MATRIX_BT709 := 2;
  COLOR_RANGE_LIMITED := 1;
  COLOR_RANGE_FULL := 2;
  CHROMA_COSITED := 1;
  CHROMA_MIDPOINT := 2;
  PAGE_SIZE := 4096;
  EMPTY := no_plane;
  linear_32bpp := linear_layout;
  descriptor_validate := λ _, Ok ();
|}.

#[export] Instance sample_kernel_laws : KernelGpuLaws sample_kernel.
Proof.
  constructor; [done|..]; intros create pitch alignment; cbn; unfold linear_layout;
    destruct (_ && _) eqn:Hs; try done; try (intros layout [= <-]; cbn; (done || lia)).
  cbn. bool_to_prop. unfold u64, U64_MAX in *. lia.
Qed.

Definition sample_create : GpuImageCreateInfo := mk_create 1 7 64 64 1 1 false.
Definition sample_layout : GpuBackendImageLayout :=
  mk_layout 0 16384 4096 1 (mk_plane 0 16384 256 0 1 1 4) [no_plane; no_plane; no_plane].

(** The image is made of two pieces of memory. *)
Definition sample_backing : GpuImageBackingInfo := mk_backing 0 16384 false [(0x80000000, 12288); (0x90000000, 4096)].

(** The calls, in order; the context has the identifier 1. *)
Definition context_of (b : Backend) : Context :=
  match b.(be_contexts) !! 1 with Some c => c | None => mk_context 1 1 [] end.

Definition b1 : Backend := (create_context (inr (0x300000000, replicate 2176 0)) (inr ()) 0 DIALECT_TOKEN (fresh_backend 9)).2.
Definition b2 : Backend :=
  (create_image_with_layout (Some 0x100000000) true true sample_create sample_layout sample_backing b1).2.
Definition b3 : Backend := (create_buffer (Some 0x200000000) true 0xa0000000 4096 b2).2.
Definition b4 : Backend := (attach_resource 9 1 true (context_of b3) b3).2.
Definition b5 : Backend := (attach_resource 9 2 true (context_of b4) b4).2.

Definition context_submit : Submit :=
  MkSubmit sample_words [MkResource 131073 0 16384 3; MkResource 131074 0 4096 3]
    (sample_relocation <$> sample_fields).
Definition context_bytes : list Z := wire_image 1 context_submit.

(** Then the submission, and both resources detached and dropped. *)
Definition b6 : Backend := (submit true true true context_bytes (context_of b5) b5).2.
Definition b7 : Backend := (detach_buffer 9 2 (context_of b6) b6).2.
Definition b8 : Backend := drop_resource 2 b7.

Definition in_flight (b : Backend) : PreparedSubmission :=
  match b.(be_inflight) with p :: _ => p | [] => mk_prepared [] [] end.

Lemma context_bytes_u8 : Forall u8 context_bytes.
Proof.
  assert (forallb (λ b, (0 <=? b) && (b <? 0x100)) context_bytes = true) as H by (vm_compute; reflexivity).
  apply Forall_forall. intros b Hb%list_elem_of_In. rewrite forallb_forall in H. specialize (H b Hb).
  bool_to_prop. by split.
Qed.

Lemma sample_create_typed : create_typed sample_create.
Proof. unfold create_typed, u32; cbn; lia. Qed.

Lemma b3_reachable : rtc step (fresh_backend 9) b3.
Proof.
  apply (rtc_l _ _ b1); [apply st_context; unfold allocation_ok, u64; lia|].
  apply (rtc_l _ _ b2); [apply st_image; [|exact sample_create_typed|]|].
  { intros a [= <-]. unfold u64. lia. }
  { unfold backing_typed, u64. cbn. lia. }
  apply rtc_once, st_buffer; [intros a [= <-]|]; unfold u64; lia.
Qed.

Lemma b4_step : step b3 b4.
Proof. apply st_attach. vm_compute. reflexivity. Qed.

Lemma b5_reachable : rtc step (fresh_backend 9) b5.
Proof.
  etrans; [exact b3_reachable|]. apply (rtc_l _ _ b4); [exact b4_step|].
  apply rtc_once, st_attach. vm_compute. reflexivity.
Qed.

Lemma b8_reachable : rtc step (fresh_backend 9) b8.
Proof.
  etrans; [exact b5_reachable|].
  apply (rtc_l _ _ b6); [apply st_submit; [vm_compute; reflexivity|exact context_bytes_u8]|].
  apply (rtc_l _ _ b7); [apply st_detach; vm_compute; reflexivity|]. apply rtc_once, st_drop.
Qed.

(** The submission was accepted, and the buffer it uses is still mapped. *)
Lemma sample_in_flight : len (in_flight b8).(ps_words) = len sample_words ∧ is_Some (b8.(be_mapped) !! 2).
Proof. split; vm_compute; eauto. Qed.

(** After the submission retires the buffer is unmapped; the image is not. *)
Lemma sample_retired : (retire 0 b8).(be_mapped) !! 2 = None ∧ is_Some ((retire 0 b8).(be_mapped) !! 1).
Proof. split; vm_compute; eauto. Qed.

Lemma in_flight_b8 : in_flight b8 ∈ b8.(be_inflight).
Proof.
  assert (head b8.(be_inflight) = Some (in_flight b8)) as H by (vm_compute; reflexivity).
  apply head_Some_elem_of in H. exact H.
Qed.

Lemma inflight_memory_mapped_witness :
  let p := in_flight b8 in
  ∃ packets, collect_packets p.(ps_words) = Ok packets ∧
    ∀ packet f, packet ∈ packets → f ∈ packet_fields packet →
      ∃ address size, holds_address p.(ps_words) f.(af_encoding) f.(af_word_offset) address ∧
        0 < size ∧ (∀ n, f.(af_required_size) = Some n → size = n) ∧
        match f.(af_source) with
        | AttachmentSource => ∃ e m, e ∈ p.(ps_resources) ∧ b8.(be_mapped) !! e.(re_token) = Some m ∧
            m.(dma_addr) ≤ address ∧ address + size ≤ m.(dma_addr) + mapped_bytes m ∧
            f.(af_access) .&~ e.(re_allowed_access) = 0
        | CanonicalShaderSource _ => ∃ base, b8.(be_shader_pack) = Some base ∧ base ≤ address ∧
            address + size ≤ base + PACK_SIZE ∧ f.(af_access) .&~ ACCESS_READ = 0
        end.
Proof. exact (inflight_memory_mapped b8 (in_flight b8) (ex_intro _ 9 b8_reachable) in_flight_b8). Defined.

(** The image is attached, and then the buffer. *)
Lemma first_attachment : (attach_resource 9 1 true (context_of b3) b3).1 = Ok 131073.
Proof. vm_compute. reflexivity. Qed.
Lemma second_attachment : attach_resource 9 2 true (context_of b4) b4 = (Ok 131074, b5).
Proof.
  rewrite (surjective_pairing (attach_resource 9 2 true (context_of b4) b4)). unfold b5.
  f_equal; vm_compute; reflexivity.
Qed.
Lemma context_b3 : b3.(be_contexts) !! (context_of b3).(cx_id) = Some (context_of b3).
Proof. vm_compute. reflexivity. Qed.
Lemma context_b4 : b4.(be_contexts) !! (context_of b4).(cx_id) = Some (context_of b4).
Proof. vm_compute. reflexivity. Qed.
Lemma no_steps : rtc step (attach_resource 9 1 true (context_of b3) b3).2 b4.
Proof. unfold b4. apply rtc_refl. Qed.
Lemma same_context : (context_of b4).(cx_id) = (context_of b3).(cx_id).
Proof. vm_compute. reflexivity. Qed.

Lemma attachment_tokens_unique_witness : (131073 : Z) ≠ 131074.
Proof.
  exact (attachment_tokens_unique b3 b4 b5 (context_of b3) (context_of b4) 9 9 1 2 131073 131074 true true
    (ex_intro _ 9 b3_reachable) context_b3 first_attachment no_steps same_context context_b4 second_attachment).
Defined.

Lemma context_b5 : b5.(be_contexts) !! (context_of b5).(cx_id) = Some (context_of b5).
Proof. vm_compute. reflexivity. Qed.

Lemma snapshot_b5 :
  attachment_snapshot (len (context_of b5).(cx_attachments)) true true (context_of b5)
  = Ok (merge_sort token_le (resolved <$> (context_of b5).(cx_attachments)), context_entries (context_of b5)).
Proof. unfold attachment_snapshot. cbn [negb]. by rewrite Z.eqb_refl. Qed.

Lemma snapshot_resolves_witness :
  resolve_attachment (merge_sort token_le (resolved <$> (context_of b5).(cx_attachments))) 131074
  = resolved <$> List.find (λ a, a.(at_token) =? 131074) (context_of b5).(cx_attachments).
Proof.
  exact (snapshot_resolves b5 (context_of b5) _ _ 131074 (ex_intro _ 9 b5_reachable) context_b5 snapshot_b5).
Defined.

Lemma submit_total_witness :
  match prepare_submission true true true (context_of b5) context_bytes b5 with
  | Ok p => len p.(ps_words) * 4 ≤ MAX_SUBMIT_SIZE
  | Err _ => True
  | Panic => False
  end.
Proof.
  exact (submit_total b5 (context_of b5) true true true context_bytes (ex_intro _ 9 b5_reachable) context_b5 context_bytes_u8).
Defined.

Lemma image_pixels_mapped_witness :
  0 ≤ 63 * 256 + 4 * 63 ∧ 63 * 256 + 4 * 63 + 4 ≤ 16384 ∧
  16384 ≤ mapped_bytes (mk_mapping 0x100000000 sample_backing.(bk_segments)).
Proof.
  refine (image_pixels_mapped sample_create sample_layout sample_backing 3 sample_image false true (Some 0x100000000)
    _ 63 63 sample_create_typed _ _ _ _ _); [cbn; lia|vm_compute; reflexivity|vm_compute; reflexivity|cbn; lia|cbn; lia].
Defined.
End ContextSample.
