(* ===== verification/Hfi.v ===== *)
(** * The firmware queues of the GMU

    Model of [hfi_abi.rs] and [hfi.rs]: the queue table, the performance and
    bandwidth tables, acknowledgements, and the two rings in memory that the
    driver shares with the firmware.

    The memory is the list [hfi_words].  Where the driver invalidates its cache
    the firmware's stores become visible: each such point has a function on the
    memory as its argument.  Interrupt polls are functions from the number of
    the poll to the register and the clock, as in [Hardware.v]. *)
From S2P Require Import Prelude Registers Hardware.

Module Hfi.
Import Hw GmuReg.

(** ** Layout *)
Definition TABLE_HEADER_WORDS : Z := 6.
Definition QUEUE_HEADER_WORDS : Z := 12.
Definition COMMAND_HEADER_WORD : Z := TABLE_HEADER_WORDS.
Definition RESPONSE_HEADER_WORD : Z := TABLE_HEADER_WORDS + QUEUE_HEADER_WORDS.
Definition QUEUE_WORDS : Z := 0x400.
Definition Q_STATUS : Z := 0.
Definition Q_IOVA : Z := 1.
Definition Q_TYPE : Z := 2.
Definition Q_SIZE : Z := 3.
Definition Q_DROPPED : Z := 5.
Definition Q_RX_WATERMARK : Z := 6.
Definition Q_TX_WATERMARK : Z := 7.
Definition Q_RX_REQUEST : Z := 8.
Definition Q_READ_INDEX : Z := 10.
Definition Q_WRITE_INDEX : Z := 11.
Definition HFI_SIZE : Z := 0x4000.
Definition COMMAND_DATA_WORD : Z := 0x1000 / 4.
Definition RESPONSE_DATA_WORD : Z := 0x2000 / 4.

Definition HFI_F2H_MSG_ERROR : Z := 100.
Definition HFI_F2H_MSG_ACK : Z := 126.
Definition HFI_MSG_CMD : Z := 0.
Definition HFI_MSG_ACK : Z := 1.
Definition HFI_MSG_ACK_V1 : Z := 2.
Definition HFI_H2F_MSG_INIT : Z := 0.
Definition HFI_H2F_MSG_FW_VERSION : Z := 1.
Definition HFI_H2F_MSG_BW_TABLE : Z := 3.
Definition HFI_H2F_MSG_PERF_TABLE : Z := 4.
Definition HFI_H2F_MSG_TEST : Z := 5.
Definition MAX_GPU_LEVELS : Z := 16.
Definition MAX_GMU_LEVELS : Z := 4.
Definition MESSAGE_INTERRUPT : Z := 1.
Definition HFI_TIMEOUT_US : Z := 1000000.

Record HfiPerfLevel := mk_level { vote : Z; frequency_khz : Z }.

Record HfiPowerTable := mk_power {
  gx_levels : list HfiPerfLevel;
  cx_levels : list HfiPerfLevel;
  initial_gpu_index : Z;
  peak_kbps : option Z;
}.

(** [words[i] = v] *)
Definition store {E} (words : list Z) (i v : Z) : outcome E (list Z) :=
  if (0 <=? i) && (i <? len words) then Ok (<[Z.to_nat i := v]> words) else Panic.

(** A sequence of stores. *)
Definition stores {E} (words : list Z) (l : list (Z * Z)) : outcome E (list Z) :=
  foldM (λ w p, store w p.1 p.2) words l.

(** ** Tables *)

(** [windows(2).all(..)] on the frequencies. *)
Fixpoint ascending (levels : list HfiPerfLevel) : bool :=
  match levels with
  | a :: (b :: _) as rest => (a.(frequency_khz) <? b.(frequency_khz)) && ascending rest
  | _ => true
  end.

Definition levels_are_valid (levels : list HfiPerfLevel) (maximum : Z) : bool :=
  match levels with
  | [] => false
  | first :: _ => (len levels <=? maximum) && (first.(frequency_khz) =? 0) && ascending levels
  end.

Definition initialize_queue {E} (words : list Z) (header iova id : Z) : outcome E (list Z) :=
  stores words [(header + Q_STATUS, 1); (header + Q_IOVA, iova); (header + Q_TYPE, (10 << 8) .| id);
    (header + Q_SIZE, QUEUE_WORDS); (header + Q_RX_WATERMARK, 1); (header + Q_TX_WATERMARK, 1);
    (header + Q_RX_REQUEST, 1)].

Definition initialize_legacy_table (words : list Z) (hfi_iova : Z) : outcome string (list Z) :=
  if len words <? 0x3000 / 4 then Err ("qcom-adreno-a618: HFI allocation is too small" : string)
  else
    let words := replicate (length words) 0 in
    let? words := stores words [(0, 0); (1, (TABLE_HEADER_WORDS + QUEUE_HEADER_WORDS * 2) * 4);
      (2, TABLE_HEADER_WORDS); (3, QUEUE_HEADER_WORDS); (4, 2); (5, 2)] in
    let? command_iova := add_or_panic U32_MAX hfi_iova 0x1000 in
    let? words := initialize_queue words COMMAND_HEADER_WORD command_iova 0 in
    let? response_iova := add_or_panic U32_MAX hfi_iova 0x2000 in
    initialize_queue words RESPONSE_HEADER_WORD response_iova 4.

(** The loops over the levels: [message[offset]] and [message[offset + 1]]. *)
Fixpoint put_levels {E} (message : list Z) (offset : Z) (levels : list HfiPerfLevel) : outcome E (list Z) :=
  match levels with
  | [] => Ok message
  | l :: levels =>
    let? message := stores message [(offset, l.(vote)); (offset + 1, l.(frequency_khz))] in
    put_levels message (offset + 2) levels
  end.

Definition performance_table (gx cx : list HfiPerfLevel) : outcome string (list Z) :=
  if negb (levels_are_valid gx MAX_GPU_LEVELS) || negb (levels_are_valid cx MAX_GMU_LEVELS)
  then Err ("qcom-adreno-a618: HFI performance table level count is invalid" : string)
  else
    let message := replicate (Z.to_nat (3 + MAX_GPU_LEVELS * 2 + MAX_GMU_LEVELS * 2)) 0 in
    let? message := stores message [(1, len gx); (2, len cx)] in
    let? message := put_levels message 3 gx in
    put_levels message (3 + MAX_GPU_LEVELS * 2) cx.

Definition bandwidth_table {E} : outcome E (list Z) :=
  stores (replicate 160 0)
    [(1, 1); (2, 1); (3, 3); (4, 1); (5, 1); (6, 0x5007c); (12, 0x40000000); (18, 0x60000001);
     (24, 0x50000); (25, 0x5003c); (26, 0x5000c); (32, 0x40000000); (33, 0x40000000); (34, 0x40000000)].

Definition ack_matches (response : list Z) (command_id sequence : Z) : outcome string bool :=
  match response with
  | [] => Err ("qcom-adreno-a618: empty HFI response" : string)
  | header :: _ =>
    let response_id := header .& 0xff in
    if response_id =? HFI_F2H_MSG_ERROR then Ok false
    else
      let response_type := (header >> 16) .& 0xf in
      if negb (response_id =? HFI_F2H_MSG_ACK)
         || negb ((response_type =? HFI_MSG_ACK) || (response_type =? HFI_MSG_ACK_V1))
      then Ok false
      else if len response <? 3 then Err ("qcom-adreno-a618: short HFI acknowledgement" : string)
      else
        let? returned := index response 1 in
        if negb (returned .& 0xff =? command_id) || negb ((returned >> 16) .& 0xf =? HFI_MSG_CMD)
           || negb ((returned >> 20) .& 0xfff =? sequence)
        then Ok false
        else
          let? status := index response 2 in
          if negb (status =? 0) then Err ("qcom-adreno-a618: GMU rejected HFI message" : string)
          else Ok true
  end.

(** ** The transport *)
Record LegacyHfi := mk_hfi {
  hfi_words : list Z;
  hfi_iova : Z;
  hfi_sequence : Z;
  hfi_mmio : list (Z * Z);
}.

Definition set_words (w : list Z) (h : LegacyHfi) : LegacyHfi :=
  mk_hfi w h.(hfi_iova) h.(hfi_sequence) h.(hfi_mmio).
Definition set_sequence (n : Z) (h : LegacyHfi) : LegacyHfi :=
  mk_hfi h.(hfi_words) h.(hfi_iova) n h.(hfi_mmio).
Definition mmio_write (register value : Z) (h : LegacyHfi) : LegacyHfi :=
  mk_hfi h.(hfi_words) h.(hfi_iova) h.(hfi_sequence) (h.(hfi_mmio) ++ [(register, value)]).

(** [LegacyHfi::new] on an allocation at [dma_addr]. *)
Definition hfi_new (dma_addr : Z) : outcome string LegacyHfi :=
  if U32_MAX <? dma_addr then Err ("qcom-adreno-a618: HFI IOVA exceeds legacy address width" : string)
  else
    let? words := initialize_legacy_table (replicate (Z.to_nat (HFI_SIZE / 4)) 0) dma_addr in
    Ok (mk_hfi words dma_addr 0 []).

Definition advance (sequence : Z) : Z :=
  let n := (sequence + 1) .& 0xfff in
  if n =? 0 then 1 else n.

Definition next_sequence (h : LegacyHfi) : Z * LegacyHfi :=
  let n := advance h.(hfi_sequence) in
  (n, set_sequence n h).

(** What the firmware stored by the next time the driver looks. *)
Definition Firmware : Type := list Z → list Z.

Definition stop (fw : Firmware) (h : LegacyHfi) : outcome string LegacyHfi :=
  let? words := stores (fw h.(hfi_words))
    [(COMMAND_HEADER_WORD + Q_READ_INDEX, 0); (COMMAND_HEADER_WORD + Q_WRITE_INDEX, 0);
     (RESPONSE_HEADER_WORD + Q_READ_INDEX, 0); (RESPONSE_HEADER_WORD + Q_WRITE_INDEX, 0)] in
  Ok (set_sequence 0 (set_words words h)).

(** The copy loops: the memory or the words read, and the index after them. *)
Fixpoint ring_write {E} (words : list Z) (base index : Z) (message : list Z) : outcome E (list Z * Z) :=
  match message with
  | [] => Ok (words, index)
  | value :: message =>
    let? words := store words (base + index) value in
    ring_write words base ((index + 1) mod QUEUE_WORDS) message
  end.

Fixpoint ring_read {E} (words : list Z) (base index : Z) (dwords : nat) : outcome E (list Z * Z) :=
  match dwords with
  | O => Ok ([], index)
  | S dwords =>
    let? value := Prelude.index words (base + index) in
    let? (rest, index) := ring_read words base ((index + 1) mod QUEUE_WORDS) dwords in
    Ok (value :: rest, index)
  end.

Definition queue_space (read_index write_index : Z) : Z :=
  if read_index <=? write_index then QUEUE_WORDS - (write_index - read_index) - 1
  else read_index - write_index - 1.

(** The result and the memory after the call. *)
Definition write_command (fw : Firmware) (message : list Z) (words : list Z) : outcome string () * list Z :=
  if bool_decide (message = []) || (QUEUE_WORDS <=? len message)
  then (Err ("qcom-adreno-a618: invalid HFI message length" : string), words)
  else
    let words := fw words in
    match (let? r := Prelude.index words (COMMAND_HEADER_WORD + Q_READ_INDEX) in
           let? w := Prelude.index words (COMMAND_HEADER_WORD + Q_WRITE_INDEX) in
           Ok (r, w) : outcome string (Z * Z)) with
    | Ok (read_index, write_index) =>
      if (QUEUE_WORDS <=? read_index) || (QUEUE_WORDS <=? write_index)
      then (Err ("qcom-adreno-a618: corrupt HFI command queue indices" : string), words)
      else if queue_space read_index write_index <? len message
      then
        match (let? d := Prelude.index words (COMMAND_HEADER_WORD + Q_DROPPED) in
               store words (COMMAND_HEADER_WORD + Q_DROPPED) (as_u32 (d + 1)) : outcome string (list Z)) with
        | Ok words => (Err ("qcom-adreno-a618: HFI command queue is full" : string), words)
        | _ => (Panic, words)
        end
      else
        match (let? (words, i) := ring_write words COMMAND_DATA_WORD write_index message in
               store words (COMMAND_HEADER_WORD + Q_WRITE_INDEX) i : outcome string (list Z)) with
        | Ok words => (Ok (), words)
        | Err e => (Err e, words)
        | Panic => (Panic, words)
        end
    | Err e => (Err e, words)
    | Panic => (Panic, words)
    end.

Definition read_response (fw : Firmware) (words : list Z) : outcome string (option (list Z)) * list Z :=
  let words := fw words in
  match (let? r := Prelude.index words (RESPONSE_HEADER_WORD + Q_READ_INDEX) in
         let? w := Prelude.index words (RESPONSE_HEADER_WORD + Q_WRITE_INDEX) in
         Ok (r, w) : outcome string (Z * Z)) with
  | Ok (read_index, write_index) =>
    if (QUEUE_WORDS <=? read_index) || (QUEUE_WORDS <=? write_index)
    then (Err ("qcom-adreno-a618: corrupt HFI response queue indices" : string), words)
    else if read_index =? write_index
    then
      match (store words (RESPONSE_HEADER_WORD + Q_RX_REQUEST) 1 : outcome string (list Z)) with
      | Ok words => (Ok None, words)
      | _ => (Panic, words)
      end
    else
      match (Prelude.index words (RESPONSE_DATA_WORD + read_index) : outcome string Z) with
      | Ok header =>
        let dwords := (header >> 8) .& 0xff in
        if (dwords =? 0) || (19 <? dwords) || (QUEUE_WORDS <=? dwords)
        then (Err ("qcom-adreno-a618: invalid HFI response length" : string), words)
        else
          match (let? (response, i) := ring_read words RESPONSE_DATA_WORD read_index (Z.to_nat dwords) in
                 let? words := store words (RESPONSE_HEADER_WORD + Q_READ_INDEX) i in
                 Ok (response, words) : outcome string (list Z * list Z)) with
          | Ok (response, words) => (Ok (Some response), words)
          | _ => (Panic, words)
          end
      | _ => (Panic, words)
      end
  | _ => (Panic, words)
  end.

(** [None]: the loop is still running when the fuel is spent. *)
Fixpoint wait_for_interrupt (fuel i : nat) (p : Poll) : option (outcome string ()) :=
  match fuel with
  | O => None
  | S fuel =>
    let '(info, now) := p.(poll_read) i in
    if negb (info .& MESSAGE_INTERRUPT =? 0) then Some (Ok ())
    else if HFI_TIMEOUT_US <=? saturating_sub now p.(poll_start)
    then Some (Err ("qcom-adreno-a618: HFI response timed out" : string))
    else wait_for_interrupt fuel (S i) p
  end.

(** The inner loop of [send]: read responses until one acknowledges the command
    ([Some response]) or the queue is empty ([None]). *)
Fixpoint drain_responses (fuel i : nat) (fw : nat → Firmware) (id sequence : Z) (words : list Z) :
    option (outcome string (option (list Z)) * list Z) :=
  match fuel with
  | O => None
  | S fuel =>
    match read_response (fw i) words with
    | (Ok None, words) => Some (Ok None, words)
    | (Ok (Some response), words) =>
      match ack_matches response id sequence with
      | Ok true => Some (Ok (Some response), words)
      | Ok false => drain_responses fuel (S i) fw id sequence words
      | Err e => Some (Err e, words)
      | Panic => Some (Panic, words)
      end
    | (Err e, words) => Some (Err e, words)
    | (Panic, words) => Some (Panic, words)
    end
  end.

(** One turn of the outer loop: the interrupt that ends the wait, and what the
    firmware stores before each of the reads that follow. *)
Record Round := mk_round { round_poll : Poll; round_fw : nat → Firmware }.

Fixpoint send_loop (fuel : nat) (rounds : list Round) (id sequence : Z) (h : LegacyHfi) :
    option (outcome string (list Z) * LegacyHfi) :=
  match rounds with
  | [] => None
  | round :: rounds =>
    match wait_for_interrupt fuel 0 round.(round_poll) with
    | Some (Ok _) =>
      let h := mmio_write GMU_GMU2HOST_INTR_CLR MESSAGE_INTERRUPT h in
      match drain_responses fuel 0 round.(round_fw) id sequence h.(hfi_words) with
      | Some (Ok (Some response), words) => Some (Ok response, set_words words h)
      | Some (Ok None, words) => send_loop fuel rounds id sequence (set_words words h)
      | Some (Err e, words) => Some (Err e, set_words words h)
      | Some (Panic, words) => Some (Panic, set_words words h)
      | None => None
      end
    | Some (Err e) => Some (Err e, h)
    | Some Panic => Some (Panic, h)
    | None => None
    end
  end.

Definition command_header (sequence length id : Z) : Z :=
  (sequence << 20) .| (HFI_MSG_CMD << 16) .| (length << 8) .| id.

(** The environment of one [send]. *)
Record SendEnv := mk_send_env { se_write : Firmware; se_rounds : list Round }.

Definition send (fuel : nat) (env : SendEnv) (id : Z) (message : list Z) (h : LegacyHfi) :
    option (outcome string (list Z) * LegacyHfi) :=
  let (sequence, h) := next_sequence h in
  if bool_decide (message = []) || (255 <? len message)
  then Some (Err ("qcom-adreno-a618: HFI message is invalid" : string), h)
  else
    let message := <[O := command_header sequence (len message) id]> message in
    match write_command env.(se_write) message h.(hfi_words) with
    | (Ok _, words) =>
      send_loop fuel env.(se_rounds) id sequence (mmio_write GMU_HOST2GMU_INTR_SET 1 (set_words words h))
    | (Err e, words) => Some (Err e, set_words words h)
    | (Panic, words) => Some (Panic, set_words words h)
    end.

(** The messages of [start_legacy_sequence], in order. *)
Definition boot_messages (debug_iova debug_size : Z) (power : HfiPowerTable) :
    list (Z * outcome string (list Z)) :=
  [(HFI_H2F_MSG_INIT, Ok [0; 0; debug_iova; debug_size; 0]);
   (HFI_H2F_MSG_FW_VERSION, Ok [0; (1 << 28) .| (1 << 19) .| (1 << 17)]);
   (HFI_H2F_MSG_PERF_TABLE, performance_table power.(gx_levels) power.(cx_levels));
   (HFI_H2F_MSG_BW_TABLE, bandwidth_table);
   (HFI_H2F_MSG_TEST, Ok [0])].

Fixpoint send_all (fuel : nat) (envs : list SendEnv) (messages : list (Z * outcome string (list Z)))
    (h : LegacyHfi) {struct messages} : option (outcome string () * LegacyHfi) :=
  match messages with
  | [] => Some (Ok (), h)
  | (id, message) :: messages =>
    match message with
    | Ok message =>
      match envs with
      | [] => None
      | env :: envs =>
        match send fuel env id message h with
        | Some (Ok _, h) => send_all fuel envs messages h
        | Some (Err e, h) => Some (Err e, h)
        | Some (Panic, h) => Some (Panic, h)
        | None => None
        end
      end
    | Err e => Some (Err e, h)
    | Panic => Some (Panic, h)
    end
  end.

Definition start_legacy_sequence (fuel : nat) (envs : list SendEnv) (debug_iova debug_size : Z)
    (power : HfiPowerTable) (h : LegacyHfi) : option (outcome string () * LegacyHfi) :=
  send_all fuel envs (boot_messages debug_iova debug_size power) h.
End Hfi.
