(* ===== verification/HfiFacts.v ===== *)
(** * Properties of the firmware queues

    The rings refine two FIFO queues of words; well-framed responses are read
    one by one and every drain of them ends; sequence numbers tell
    acknowledgements apart; and a response that claims more words than the
    firmware queued makes the driver loop for ever. *)
From S2P Require Import Prelude Registers Hardware Hfi.

Module HfiFacts.
Import Hw Hfi.
#[local] Arguments Z.modulo : simpl never.
#[local] Arguments Z.div : simpl never.

(** ** Memory *)
Record memory_ok (words : list Z) : Prop := {
  mo_length : len words = 4096;
  mo_words : Forall u32 words;
}.

Definition firmware_ok (fw : Firmware) : Prop := ∀ words, memory_ok words → memory_ok (fw words).

Definition word (words : list Z) (i : Z) : Z := nth (Z.to_nat i) words 0.

Lemma index_word {E} words i :
  memory_ok words → 0 ≤ i < 4096 → Prelude.index (E:=E) words i = Ok (word words i) ∧ u32 (word words i).
Proof.
  intros [Hl Hu] Hi. unfold len in Hl. destruct (lookup_lt_is_Some_2 words (Z.to_nat i)) as [x Hx]; [lia|].
  unfold Prelude.index, word. rewrite Hx, (nth_lookup_Some _ _ _ _ Hx). split; [done|].
  rewrite Forall_lookup in Hu. eauto.
Qed.

Lemma store_ok {E} words i v :
  memory_ok words → 0 ≤ i < 4096 → u32 v →
  ∃ words', store (E:=E) words i v = Ok words' ∧ memory_ok words' ∧ word words' i = v ∧
    ∀ j, 0 ≤ j → j ≠ i → word words' j = word words j.
Proof.
  intros [Hl Hu] Hi Hv. unfold store. destruct (Z.leb_spec 0 i); [|lia]. destruct (Z.ltb_spec i (len words)); [|lia].
  eexists. split; [done|]. unfold len, word in *. split_and!.
  - constructor; [unfold len; by rewrite length_insert|by apply Forall_insert].
  - apply nth_lookup_Some, list_lookup_insert_eq. lia.
  - intros j Hj Hne. rewrite !nth_lookup, list_lookup_insert_ne by lia. done.
Qed.

Lemma stores_ok {E} words l :
  memory_ok words → Forall (λ p, 0 ≤ p.1 < 4096 ∧ u32 p.2) l →
  ∃ words', stores (E:=E) words l = Ok words' ∧ memory_ok words'.
Proof.
  intros Hm Hl. revert words Hm. induction Hl as [|[i v] l [Hi Hv] _ IH]; intros words Hm; [by exists words|].
  cbn in *. destruct (store_ok (E:=E) words i v Hm Hi Hv) as (w & -> & Hw & _). apply (IH w Hw).
Qed.

Lemma stores_no_error {E} words l (e : E) : stores words l ≠ Err e.
Proof.
  unfold stores. revert words. induction l as [|[i v] l IH]; intros words; [done|]. cbn. unfold store.
  destruct (_ && _); [apply IH|done].
Qed.

Lemma initialize_queue_ok {E} words header iova id :
  memory_ok words → 0 ≤ header ≤ 1000 → u32 iova → u32 ((10 << 8) .| id) →
  ∃ words', initialize_queue (E:=E) words header iova id = Ok words' ∧ memory_ok words'.
Proof.
  intros Hm Hh Hi Hid. apply stores_ok; [done|].
  repeat (apply Forall_cons; split); try done; (split; [|done]); cbn [fst snd];
    unfold Q_STATUS, Q_IOVA, Q_TYPE, Q_SIZE, Q_RX_WATERMARK, Q_TX_WATERMARK, Q_RX_REQUEST; lia.
Qed.

(** A new transport has well-formed memory. *)
Lemma hfi_new_ok dma_addr :
  0 ≤ dma_addr → dma_addr + 0x2000 ≤ U32_MAX →
  ∃ h, hfi_new dma_addr = Ok h ∧ memory_ok h.(hfi_words) ∧ h.(hfi_sequence) = 0.
Proof.
  intros Hlo Hhi. unfold hfi_new, U32_MAX in *. destruct (Z.ltb_spec 0xffffffff dma_addr); [lia|].
  unfold initialize_legacy_table. change (len _ <? 0x3000 / 4) with false. cbn [bind]. rewrite length_replicate.
  destruct (stores_ok (E:=string) (replicate (Z.to_nat (HFI_SIZE / 4)) 0)
    [(0, 0); (1, (TABLE_HEADER_WORDS + QUEUE_HEADER_WORDS * 2) * 4); (2, TABLE_HEADER_WORDS); (3, QUEUE_HEADER_WORDS); (4, 2); (5, 2)])
    as (w1 & -> & Hm1); [constructor; [done|by apply Forall_replicate]|by repeat (apply Forall_cons; split)|].
  unfold add_or_panic, U32_MAX. destruct (Z.leb_spec (dma_addr + 0x1000) 0xffffffff); [|lia]. cbn [bind].
  destruct (initialize_queue_ok (E:=string) w1 COMMAND_HEADER_WORD (dma_addr + 0x1000) 0) as (w2 & -> & Hm2);
    [done|done|unfold u32; lia|done|]. destruct (Z.leb_spec (dma_addr + 0x2000) 0xffffffff); [|lia]. cbn [bind].
  destruct (initialize_queue_ok (E:=string) w2 RESPONSE_HEADER_WORD (dma_addr + 0x2000) 4) as (w3 & -> & Hm3);
    [done|done|unfold u32; lia|done|]. by eexists.
Qed.

(** ** Rings *)
Definition slot (base index : Z) (k : nat) : Z := base + (index + Z.of_nat k) mod QUEUE_WORDS.

Definition ring_view (words : list Z) (base index : Z) (n : nat) : list Z :=
  (λ k, word words (slot base index k)) <$> seq 0 n.

(** The words between the read and the write index of a queue. *)
Definition queued (words : list Z) (header base : Z) : list Z :=
  let r := word words (header + Q_READ_INDEX) in
  let w := word words (header + Q_WRITE_INDEX) in
  ring_view words base r (Z.to_nat ((w - r) mod QUEUE_WORDS)).

Definition commands (words : list Z) : list Z := queued words COMMAND_HEADER_WORD COMMAND_DATA_WORD.
Definition responses (words : list Z) : list Z := queued words RESPONSE_HEADER_WORD RESPONSE_DATA_WORD.

(** Both indices of a queue are inside the ring. *)
Definition indices_ok (words : list Z) (header : Z) : Prop :=
  word words (header + Q_READ_INDEX) < QUEUE_WORDS ∧ word words (header + Q_WRITE_INDEX) < QUEUE_WORDS.

Lemma length_ring_view words base i n : length (ring_view words base i n) = n.
Proof. unfold ring_view. by rewrite length_fmap, length_seq. Qed.

Lemma slot_bounds base i k : base ≤ slot base i k < base + QUEUE_WORDS.
Proof. unfold slot, QUEUE_WORDS. pose proof (Z.mod_pos_bound (i + Z.of_nat k) 0x400 ltac:(lia)). lia. Qed.

Lemma slot_succ base i k : slot base ((i + 1) mod QUEUE_WORDS) k = slot base i (S k).
Proof. unfold slot, QUEUE_WORDS. f_equal. rewrite Zplus_mod_idemp_l. f_equal. lia. Qed.

Lemma slot_zero base i : 0 ≤ i < QUEUE_WORDS → slot base i 0 = base + i.
Proof. intros Hi. unfold slot. by rewrite Z.add_0_r, Z.mod_small. Qed.

Lemma slot_inj base i k k' :
  (k < Z.to_nat QUEUE_WORDS)%nat → (k' < Z.to_nat QUEUE_WORDS)%nat → slot base i k = slot base i k' → k = k'.
Proof. unfold slot, QUEUE_WORDS. intros Hk Hk' H. zlia. Qed.

Lemma ring_view_S words base i n :
  0 ≤ i < QUEUE_WORDS →
  ring_view words base i (S n) = word words (base + i) :: ring_view words base ((i + 1) mod QUEUE_WORDS) n.
Proof.
  intros Hi. unfold ring_view. cbn [seq fmap list_fmap]. rewrite slot_zero by done. f_equal.
  rewrite <- fmap_S_seq, <- list_fmap_compose. apply list_fmap_ext. intros _ k _. cbn. by rewrite slot_succ.
Qed.

Lemma ring_view_split words base i n m :
  0 ≤ i < QUEUE_WORDS →
  ring_view words base i (n + m) = ring_view words base i n ++ ring_view words base ((i + Z.of_nat n) mod QUEUE_WORDS) m.
Proof.
  revert i. induction n as [|n IH]; intros i Hi.
  - cbn [Nat.add]. by rewrite Z.add_0_r, Z.mod_small.
  - cbn [Nat.add]. rewrite !ring_view_S, IH by (done || apply Z.mod_pos_bound; done). cbn. f_equal. f_equal. f_equal.
    unfold QUEUE_WORDS. rewrite Zplus_mod_idemp_l. f_equal. lia.
Qed.

Lemma ring_view_same words words' base i n :
  (∀ j, base ≤ j < base + QUEUE_WORDS → word words' j = word words j) →
  ring_view words' base i n = ring_view words base i n.
Proof. intros H. apply list_fmap_ext. intros _ k _. apply H, slot_bounds. Qed.

Lemma ring_read_ok {E} words base n i :
  memory_ok words → 0 ≤ base → base + QUEUE_WORDS ≤ 4096 → 0 ≤ i < QUEUE_WORDS →
  ring_read (E:=E) words base i n = Ok (ring_view words base i n, (i + Z.of_nat n) mod QUEUE_WORDS).
Proof.
  intros Hm Hb Hb'. revert i. induction n as [|n IH]; intros i Hi.
  - cbn. by rewrite Z.add_0_r, Z.mod_small.
  - cbn [ring_read]. destruct (index_word (E:=E) words (base + i) Hm ltac:(lia)) as [-> _]. cbn [bind].
    rewrite IH by (apply Z.mod_pos_bound; done). cbn [bind]. rewrite ring_view_S by done. do 2 f_equal.
    unfold QUEUE_WORDS. rewrite Zplus_mod_idemp_l. f_equal. lia.
Qed.

Lemma ring_write_ok {E} message words base i :
  memory_ok words → 0 ≤ base → base + QUEUE_WORDS ≤ 4096 → 0 ≤ i < QUEUE_WORDS →
  len message < QUEUE_WORDS → Forall u32 message →
  ∃ words', ring_write (E:=E) words base i message = Ok (words', (i + len message) mod QUEUE_WORDS) ∧
    memory_ok words' ∧ ring_view words' base i (length message) = message ∧
    ∀ j, 0 ≤ j → (∀ k, (k < length message)%nat → j ≠ slot base i k) → word words' j = word words j.
Proof.
  intros Hm Hb Hb'. revert words i Hm. induction message as [|v message IH]; intros words i Hm Hi Hlen Hu.
  - exists words. cbn. rewrite Z.add_0_r, Z.mod_small by done. split_and!; done.
  - apply Forall_cons in Hu as [Hv Hu]. unfold len in *. cbn [length] in *.
    destruct (store_ok (E:=E) words (base + i) v Hm ltac:(lia) Hv) as (w & Hst & Hw & Hwi & Hwo).
    destruct (IH w ((i + 1) mod QUEUE_WORDS) Hw) as (w' & Hrw & Hw' & Hview & Hother);
      [by apply Z.mod_pos_bound|lia|done|]. exists w'. cbn [ring_write]. rewrite Hst. cbn [bind]. split_and!.
    + rewrite Hrw. do 2 f_equal. unfold QUEUE_WORDS. rewrite Zplus_mod_idemp_l. f_equal. lia.
    + done.
    + rewrite ring_view_S, Hview by done. f_equal. rewrite Hother; [done|lia|].
      intros k Hk Heq. rewrite slot_succ, <- (slot_zero base i) in Heq by done.
      apply slot_inj in Heq; [done|unfold QUEUE_WORDS in *; lia..].
    + intros j Hj Hn. rewrite Hother; [|done|].
      * apply Hwo; [done|]. rewrite <- (slot_zero base i) by done. apply Hn. lia.
      * intros k Hk. rewrite slot_succ. apply Hn. lia.
Qed.

(** The offsets of the layout are numbers. *)
Ltac layout :=
  unfold COMMAND_HEADER_WORD, RESPONSE_HEADER_WORD, TABLE_HEADER_WORDS, QUEUE_HEADER_WORDS, Q_READ_INDEX,
    Q_WRITE_INDEX, Q_RX_REQUEST, Q_DROPPED, COMMAND_DATA_WORD, RESPONSE_DATA_WORD, QUEUE_WORDS in *;
  change (0x1000 / 4) with 1024 in *; change (0x2000 / 4) with 2048 in *; unfold u32 in *; lia.

Lemma slot_shift base i n k : slot base ((i + Z.of_nat n) mod QUEUE_WORDS) k = slot base i (n + k).
Proof. unfold slot, QUEUE_WORDS. f_equal. rewrite Zplus_mod_idemp_l. f_equal. lia. Qed.

Lemma ring_view_ext words words' base i n :
  (∀ k, (k < n)%nat → word words' (slot base i k) = word words (slot base i k)) →
  ring_view words' base i n = ring_view words base i n.
Proof.
  intros H. apply list_fmap_ext. intros j k Hk. apply lookup_seq in Hk as [-> ?]. by apply H.
Qed.

(** ** Commands *)
Lemma queue_space_mod r w :
  0 ≤ r < QUEUE_WORDS → 0 ≤ w < QUEUE_WORDS → queue_space r w = QUEUE_WORDS - 1 - (w - r) mod QUEUE_WORDS.
Proof.
  unfold queue_space, QUEUE_WORDS. intros Hr Hw. destruct (Z.leb_spec r w).
  - rewrite Z.mod_small by lia. lia.
  - rewrite <- (Z_mod_plus_full _ 1), Z.mod_small by lia. lia.
Qed.

(** A queue depends on its two indices and its ring. *)
Lemma queued_same words words' header base :
  word words' (header + Q_READ_INDEX) = word words (header + Q_READ_INDEX) →
  word words' (header + Q_WRITE_INDEX) = word words (header + Q_WRITE_INDEX) →
  (∀ j, base ≤ j < base + QUEUE_WORDS → word words' j = word words j) →
  queued words' header base = queued words header base.
Proof. intros Hr Hw Hd. unfold queued. rewrite Hr, Hw. by apply ring_view_same. Qed.

(** Appending [n] words at the write index of a ring with room for them. *)
Lemma queued_push words words' header base message
    (r := word words (header + Q_READ_INDEX)) (w := word words (header + Q_WRITE_INDEX)) :
  0 ≤ r < QUEUE_WORDS → 0 ≤ w < QUEUE_WORDS → len message ≤ queue_space r w →
  word words' (header + Q_READ_INDEX) = r →
  word words' (header + Q_WRITE_INDEX) = (w + len message) mod QUEUE_WORDS →
  ring_view words' base w (length message) = message →
  (∀ j, base ≤ j < base + QUEUE_WORDS → (∀ k, (k < length message)%nat → j ≠ slot base w k) →
     word words' j = word words j) →
  queued words' header base = queued words header base ++ message.
Proof.
  intros Hr Hw Hspace Hr' Hw' Hview Hother. rewrite queue_space_mod in Hspace by done.
  pose proof (Z.mod_pos_bound (w - r) QUEUE_WORDS ltac:(done)) as Hq. unfold len in *.
  set (n := Z.to_nat ((w - r) mod QUEUE_WORDS)).
  assert (w = (r + Z.of_nat n) mod QUEUE_WORDS) as Hwn.
  { unfold n. rewrite Z2Nat.id, Zplus_mod_idemp_r by lia. replace (r + (w - r)) with w by lia. by rewrite Z.mod_small. }
  unfold queued. rewrite Hr', Hw'. fold r w n.
  replace (Z.to_nat (((w + Z.of_nat (length message)) mod QUEUE_WORDS - r) mod QUEUE_WORDS)) with (n + length message)%nat.
  2:{ rewrite Zminus_mod_idemp_l. replace (w + Z.of_nat (length message) - r) with ((w - r) + Z.of_nat (length message)) by lia.
      rewrite <- Zplus_mod_idemp_l, Z.mod_small by lia. unfold n. lia. }
  rewrite ring_view_split by done. rewrite <- Hwn, Hview. f_equal. apply ring_view_ext. intros k Hk.
  apply Hother; [apply slot_bounds|]. intros k' Hk'. rewrite Hwn, slot_shift. intros Heq.
  apply slot_inj in Heq; unfold n in *; layout.
Qed.

(** What one call of [write_command] does to the memory it finds. *)
Record pushed (message words words' : list Z) : Prop := {
  pu_memory : memory_ok words';
  pu_commands : commands words' = commands words ++ message;
  pu_responses : responses words' = responses words;
  pu_bound : len (commands words') < QUEUE_WORDS;
}.

Lemma queued_bound words header base : len (queued words header base) < QUEUE_WORDS.
Proof.
  unfold queued, len. rewrite length_ring_view.
  pose proof (Z.mod_pos_bound (word words (header + Q_WRITE_INDEX) - word words (header + Q_READ_INDEX)) QUEUE_WORDS ltac:(done)).
  lia.
Qed.

Lemma push_command words message (r := word words (COMMAND_HEADER_WORD + Q_READ_INDEX))
    (w := word words (COMMAND_HEADER_WORD + Q_WRITE_INDEX)) :
  memory_ok words → 0 ≤ r < QUEUE_WORDS → 0 ≤ w < QUEUE_WORDS → Forall u32 message →
  len message ≤ queue_space r w →
  ∃ words', (let? (words, i) := ring_write words COMMAND_DATA_WORD w message in
             store words (COMMAND_HEADER_WORD + Q_WRITE_INDEX) i : outcome string (list Z)) = Ok words' ∧
    pushed message words words'.
Proof.
  intros Hm Hr Hw Hu Hspace. pose proof Hspace as Hlen. rewrite queue_space_mod in Hlen by done.
  pose proof (Z.mod_pos_bound (w - r) QUEUE_WORDS ltac:(done)) as Hq.
  destruct (ring_write_ok (E:=string) message words COMMAND_DATA_WORD w Hm) as (w1 & -> & Hm1 & Hview & Hother);
    [done|done|done|lia|done|]. cbn [bind].
  pose proof (Z.mod_pos_bound (w + len message) QUEUE_WORDS ltac:(done)) as Hi.
  destruct (store_ok (E:=string) w1 (COMMAND_HEADER_WORD + Q_WRITE_INDEX) ((w + len message) mod QUEUE_WORDS) Hm1)
    as (w2 & -> & Hm2 & Hw2 & Ho2); [done|layout|].
  assert (∀ j, 0 ≤ j → (∀ k, (k < length message)%nat → j ≠ slot COMMAND_DATA_WORD w k) →
    j ≠ COMMAND_HEADER_WORD + Q_WRITE_INDEX → word w2 j = word words j) as Hout
    by (intros j Hj Hk Hne; by rewrite Ho2, Hother).
  assert (∀ j k, j < COMMAND_DATA_WORD ∨ COMMAND_DATA_WORD + QUEUE_WORDS ≤ j → j ≠ slot COMMAND_DATA_WORD w k) as Hfar
    by (intros j k Hj; pose proof (slot_bounds COMMAND_DATA_WORD w k); lia).
  exists w2. split; [done|]. constructor; [done| | |apply queued_bound].
  - apply queued_push; try done.
    + apply Hout; [done| |done]. intros k _. apply Hfar. by left.
    + rewrite <- Hview at 2. apply ring_view_same. intros j Hj. apply Ho2; layout.
    + intros j Hj Hk. apply Hout; [layout|done|layout].
  - apply queued_same; [apply Hout; [done| |done]; intros k _; apply Hfar; by left..|].
    intros j Hj. apply Hout; [layout| |layout]. intros k _. apply Hfar. right. layout.
Qed.

Lemma queued_len words header base :
  len (queued words header base)
  = (word words (header + Q_WRITE_INDEX) - word words (header + Q_READ_INDEX)) mod QUEUE_WORDS.
Proof.
  unfold queued, len. rewrite length_ring_view.
  pose proof (Z.mod_pos_bound (word words (header + Q_WRITE_INDEX) - word words (header + Q_READ_INDEX)) QUEUE_WORDS ltac:(done)).
  lia.
Qed.

(** Storing outside both rings and away from their indices. *)
Lemma store_header {E} words i v :
  memory_ok words → 0 ≤ i < 4096 → u32 v → i < COMMAND_DATA_WORD →
  i ≠ COMMAND_HEADER_WORD + Q_READ_INDEX → i ≠ COMMAND_HEADER_WORD + Q_WRITE_INDEX →
  i ≠ RESPONSE_HEADER_WORD + Q_READ_INDEX → i ≠ RESPONSE_HEADER_WORD + Q_WRITE_INDEX →
  ∃ words', store (E:=E) words i v = Ok words' ∧ memory_ok words' ∧
    commands words' = commands words ∧ responses words' = responses words.
Proof.
  intros Hm Hi Hv Hlow H1 H2 H3 H4. destruct (store_ok (E:=E) words i v Hm Hi Hv) as (w & -> & Hw & _ & Ho).
  exists w. split_and!; try done.
  - apply queued_same; [apply Ho; (done || congruence)..|]. intros j Hj. apply Ho; layout.
  - apply queued_same; [apply Ho; (done || congruence)..|]. intros j Hj. apply Ho; layout.
Qed.

Lemma full_queue (words message : list Z) (r := word words (COMMAND_HEADER_WORD + Q_READ_INDEX))
    (w := word words (COMMAND_HEADER_WORD + Q_WRITE_INDEX)) :
  0 ≤ r < QUEUE_WORDS → 0 ≤ w < QUEUE_WORDS →
  queue_space r w < len message ↔ QUEUE_WORDS ≤ len (commands words) + len message.
Proof. intros Hr Hw. unfold commands. rewrite queued_len, queue_space_mod by done. fold r w. lia. Qed.

(** Whatever the firmware left in memory, sending a message either appends
    exactly its words to the queued commands, leaving the response queue alone,
    or refuses for a stated reason and leaves both queues as they are. *)
Lemma write_command_spec (fw : Firmware) (message words : list Z) :
  memory_ok words → firmware_ok fw → Forall u32 message →
  match write_command fw message words with
  | (Ok _, words') => pushed message (fw words) words'
  | (Err _, words') => memory_ok words' ∧
      ((message = [] ∨ QUEUE_WORDS ≤ len message) ∧ words' = words ∨
       commands words' = commands (fw words) ∧ responses words' = responses (fw words) ∧
       (¬ indices_ok (fw words) COMMAND_HEADER_WORD ∨
        QUEUE_WORDS ≤ len (commands (fw words)) + len message))
  | (Panic, _) => False
  end.
Proof.
  intros Hm Hfw Hu. unfold write_command. case_bool_decide as Hnil; [cbn; auto|].
  destruct (Z.leb_spec QUEUE_WORDS (len message)); [cbn; auto|]. cbn [orb]. specialize (Hfw words Hm).
  set (found := fw words) in *.
  destruct (index_word (E:=string) found (COMMAND_HEADER_WORD + Q_READ_INDEX) Hfw ltac:(done)) as [-> [Hr0 _]].
  destruct (index_word (E:=string) found (COMMAND_HEADER_WORD + Q_WRITE_INDEX) Hfw ltac:(done)) as [-> [Hw0 _]].
  cbn [bind]. unfold indices_ok. set (r := word found (COMMAND_HEADER_WORD + Q_READ_INDEX)) in *.
  set (w := word found (COMMAND_HEADER_WORD + Q_WRITE_INDEX)) in *.
  destruct (Z.leb_spec QUEUE_WORDS r); [split; [done|]; right; split_and!; [done..|left; lia]|].
  destruct (Z.leb_spec QUEUE_WORDS w); [split; [done|]; right; split_and!; [done..|left; lia]|]. cbn [orb].
  destruct (Z.ltb_spec (queue_space r w) (len message)) as [Hfull|Hroom].
  - destruct (index_word (E:=string) found (COMMAND_HEADER_WORD + Q_DROPPED) Hfw ltac:(done)) as [-> _]. cbn [bind].
    destruct (store_header (E:=string) found (COMMAND_HEADER_WORD + Q_DROPPED)
      (as_u32 (word found (COMMAND_HEADER_WORD + Q_DROPPED) + 1)) Hfw) as (w' & -> & Hw' & Hc & Hrs); try done.
    { unfold as_u32, u32. apply Z.mod_pos_bound. done. }
    split; [done|]. right. split_and!; [done..|]. right. by apply full_queue.
  - destruct (push_command found message Hfw) as (w' & Heq & Hp); [done|done|done|done|].
    fold w in Heq. rewrite Heq. done.
Qed.

Lemma write_command_safe fw message words :
  memory_ok words → firmware_ok fw → Forall u32 message →
  match write_command fw message words with (Panic, _) => False | (_, words') => memory_ok words' end.
Proof.
  intros Hm Hfw Hu. pose proof (write_command_spec fw message words Hm Hfw Hu) as H.
  destruct (write_command fw message words) as [[]]; [by destruct H|by destruct H|done].
Qed.

(** A history of the command ring: messages are sent, and before each of them
    the firmware takes some of the queued words, [c].  [sent] are the words of
    the accepted messages, [taken] those that the firmware took. *)
Inductive history : list Z → list Z → list Z → Prop :=
| hist_start words : memory_ok words → commands words = [] → history [] [] words
| hist_send sent taken words fw message c r words' :
    history sent taken words → firmware_ok fw → Forall u32 message → message ≠ [] → len message < QUEUE_WORDS →
    commands words = c ++ commands (fw words) →
    write_command fw message words = (r, words') →
    history (sent ++ match r with Ok _ => message | _ => [] end) (taken ++ c) words'.

Lemma history_memory sent taken words : history sent taken words → memory_ok words.
Proof.
  induction 1 as [|sent taken words fw message c r words' _ IH Hfw Hu _ _ _ Hw]; [done|].
  pose proof (write_command_safe fw message words IH Hfw Hu) as Hs. rewrite Hw in Hs. by destruct r.
Qed.

(** C22: the command ring refines a FIFO queue.  In every history the words the
    firmware has taken and the words still queued are, in order, the words of
    the messages that were accepted: none is lost, repeated or reordered, and
    a refused message leaves no trace. *)
Theorem commands_delivered (sent taken words : list Z) :
  history sent taken words → sent = taken ++ commands words ∧ len (commands words) < QUEUE_WORDS.
Proof.
  intros H. split; [|apply queued_bound].
  induction H as [words _ ->|sent taken words fw message c r words' Hh IH Hfw Hu Hne Hlen Htake Hw]; [done|].
  pose proof (write_command_spec fw message words (history_memory _ _ _ Hh) Hfw Hu) as Hs. rewrite Hw in Hs.
  rewrite IH, Htake. destruct r as [|e|]; [| |done].
  - rewrite (pu_commands _ _ _ Hs). by rewrite !app_assoc.
  - destruct Hs as (_ & [[[?|?] _]|(-> & _)]); [done|lia|]. by rewrite app_nil_r, app_assoc.
Qed.

(** ** Responses *)

(** A message whose first word states its length. *)
Definition framed (m : list Z) : Prop := ∃ h rest, m = h :: rest ∧ (h >> 8) .& 0xff = len m ∧ len m ≤ 19.

Lemma read_indices words :
  memory_ok words → indices_ok words RESPONSE_HEADER_WORD →
  (let? r := Prelude.index words (RESPONSE_HEADER_WORD + Q_READ_INDEX) in
   let? w := Prelude.index words (RESPONSE_HEADER_WORD + Q_WRITE_INDEX) in
   Ok (r, w) : outcome string (Z * Z))
  = Ok (word words (RESPONSE_HEADER_WORD + Q_READ_INDEX), word words (RESPONSE_HEADER_WORD + Q_WRITE_INDEX)) ∧
  0 ≤ word words (RESPONSE_HEADER_WORD + Q_READ_INDEX) < QUEUE_WORDS ∧
  0 ≤ word words (RESPONSE_HEADER_WORD + Q_WRITE_INDEX) < QUEUE_WORDS.
Proof.
  intros Hm [Hr Hw].
  destruct (index_word (E:=string) words (RESPONSE_HEADER_WORD + Q_READ_INDEX) Hm ltac:(done)) as [-> [? _]].
  destruct (index_word (E:=string) words (RESPONSE_HEADER_WORD + Q_WRITE_INDEX) Hm ltac:(done)) as [-> [? _]]. done.
Qed.

(** The state after a read: the response queue is [rest], the commands are untouched. *)
Record popped (rest words words' : list Z) : Prop := {
  po_memory : memory_ok words';
  po_indices : indices_ok words' RESPONSE_HEADER_WORD;
  po_responses : responses words' = rest;
  po_commands : commands words' = commands words;
}.

Lemma read_empty fw words :
  memory_ok (fw words) → indices_ok (fw words) RESPONSE_HEADER_WORD → responses (fw words) = [] →
  ∃ words', read_response fw words = (Ok None, words') ∧ popped [] (fw words) words'.
Proof.
  intros Hm Hi Hnil. unfold read_response. destruct (read_indices _ Hm Hi) as (-> & Hr & Hw).
  set (found := fw words) in *. set (r := word found _) in *. set (w := word found (_ + Q_WRITE_INDEX)) in *.
  assert (r = w) as Hrw.
  { apply (f_equal len) in Hnil. unfold responses in Hnil. rewrite queued_len in Hnil. fold r w in Hnil.
    change (len []) with 0 in Hnil. apply Z.mod_divide in Hnil as [k Hk]; [|done]. unfold QUEUE_WORDS in *. lia. }
  destruct (Z.leb_spec QUEUE_WORDS r); [lia|]. destruct (Z.leb_spec QUEUE_WORDS w); [lia|]. cbn [orb].
  rewrite Hrw, Z.eqb_refl.
  destruct (store_ok (E:=string) found (RESPONSE_HEADER_WORD + Q_RX_REQUEST) 1 Hm) as (w1 & Hst & Hm1 & _ & Ho); [done|layout|].
  destruct (store_header (E:=string) found (RESPONSE_HEADER_WORD + Q_RX_REQUEST) 1 Hm) as (w' & Heq & Hm' & Hc & Hrs);
    try done; try layout.
  rewrite Heq in Hst. injection Hst as ->. rewrite Heq. exists w1. split; [done|]. constructor; [done| |congruence|done].
  unfold indices_ok. rewrite !Ho by done. done.
Qed.

Lemma read_framed fw words m rest :
  memory_ok (fw words) → indices_ok (fw words) RESPONSE_HEADER_WORD → framed m → responses (fw words) = m ++ rest →
  ∃ words', read_response fw words = (Ok (Some m), words') ∧ popped rest (fw words) words'.
Proof.
  intros Hm Hi (h & tl & Hmeq & Hlen & Hmax) Hresp. unfold read_response. destruct (read_indices _ Hm Hi) as (-> & Hr & Hw).
  set (found := fw words) in *. set (r := word found (RESPONSE_HEADER_WORD + Q_READ_INDEX)) in *.
  set (w := word found (RESPONSE_HEADER_WORD + Q_WRITE_INDEX)) in *.
  assert (len m + len rest = (w - r) mod QUEUE_WORDS) as Hq.
  { rewrite <- len_app, <- Hresp. unfold responses. by rewrite queued_len. }
  assert (1 ≤ len m) as Hpos by (rewrite Hmeq; unfold len; cbn [length]; lia). pose proof (len_nonneg rest) as Hrest.
  pose proof (Z.mod_pos_bound (w - r) QUEUE_WORDS ltac:(done)) as Hqb. rewrite <- Hq in Hqb.
  destruct (Z.leb_spec QUEUE_WORDS r); [lia|]. destruct (Z.leb_spec QUEUE_WORDS w); [lia|]. cbn [orb].
  destruct (Z.eqb_spec r w) as [Hrw|_].
  { rewrite Hrw, Z.sub_diag, Z.mod_0_l in Hq by done. lia. }
  set (n := length m). assert (ring_view found RESPONSE_DATA_WORD r n = m ∧
    ring_view found RESPONSE_DATA_WORD ((r + Z.of_nat n) mod QUEUE_WORDS) (length rest) = rest) as [Hvm Hvr].
  { unfold responses, queued in Hresp. fold r w in Hresp. rewrite <- Hq in Hresp. unfold len in Hresp.
    rewrite Z2Nat.inj_add, !Nat2Z.id, ring_view_split in Hresp by (done || lia).
    by apply app_inj_1 in Hresp; [|by rewrite length_ring_view]. }
  destruct (index_word (E:=string) found (RESPONSE_DATA_WORD + r) Hm ltac:(layout)) as [-> _].
  assert (word found (RESPONSE_DATA_WORD + r) = h) as ->.
  { unfold n in Hvm. rewrite Hmeq in Hvm. cbn [length] in Hvm. rewrite ring_view_S in Hvm by done. congruence. }
  rewrite Hlen. destruct (Z.eqb_spec (len m) 0); [lia|]. destruct (Z.ltb_spec 19 (len m)); [lia|].
  destruct (Z.leb_spec QUEUE_WORDS (len m)); [layout|]. cbn [orb].
  replace (Z.to_nat (len m)) with n by (unfold len, n; lia). rewrite (ring_read_ok found RESPONSE_DATA_WORD n r) by done. cbn [bind].
  pose proof (Z.mod_pos_bound (r + Z.of_nat n) QUEUE_WORDS ltac:(done)) as Hnew.
  destruct (store_ok (E:=string) found (RESPONSE_HEADER_WORD + Q_READ_INDEX) ((r + Z.of_nat n) mod QUEUE_WORDS) Hm)
    as (w' & -> & Hm' & Hri & Ho); [done|layout|]. cbn [bind]. rewrite Hvm. exists w'. split; [done|].
  constructor; [done| | |].
  - unfold indices_ok. rewrite Hri, Ho by done. fold w. lia.
  - unfold responses, queued. rewrite Hri, Ho by done. fold w.
    replace (Z.to_nat ((w - (r + Z.of_nat n) mod QUEUE_WORDS) mod QUEUE_WORDS)) with (length rest).
    2:{ rewrite Zminus_mod_idemp_r. replace (w - (r + Z.of_nat n)) with ((w - r) - Z.of_nat n) by lia.
        rewrite <- Zminus_mod_idemp_l, <- Hq, Z.mod_small; unfold len, n in *; layout. }
    rewrite <- Hvr at 2. apply ring_view_same. intros j Hj. apply Ho; layout.
  - apply queued_same; [apply Ho; done..|]. intros j Hj. apply Ho; layout.
Qed.

(** What a drain of these messages answers: the first acknowledgement of the
    command, an error of the firmware, or nothing. *)
Fixpoint answer (messages : list (list Z)) (id sequence : Z) : outcome string (option (list Z)) :=
  match messages with
  | [] => Ok None
  | m :: messages =>
    match ack_matches m id sequence with
    | Ok true => Ok (Some m)
    | Ok false => answer messages id sequence
    | Err e => Err e
    | Panic => Panic
    end
  end.

(** draining well-framed responses ends and reads them in order.  When the
    firmware has queued whole messages and then waits, the drain takes at most
    one read per message and one more, answers as a scan of the messages does,
    leaves the commands alone, and has emptied the queue if nothing matched. *)
Theorem responses_drained (fuel i : nat) (fw : nat → Firmware) (id sequence : Z) (messages : list (list Z))
    (words : list Z) :
  memory_ok (fw i words) → indices_ok (fw i words) RESPONSE_HEADER_WORD →
  (∀ k w, (i < k)%nat → fw k w = w) → Forall framed messages →
  responses (fw i words) = concat messages → (length messages < fuel)%nat →
  ∃ words', drain_responses fuel i fw id sequence words = Some (answer messages id sequence, words') ∧
    memory_ok words' ∧ commands words' = commands (fw i words) ∧
    (answer messages id sequence = Ok None → responses words' = []).
Proof.
  intros Hm Hi Hq Hf Hr Hlt. revert i fuel words Hm Hi Hq Hr Hlt. induction Hf as [|m messages Hm1 _ IH];
    intros i fuel words Hm Hi Hq Hr Hlt; (destruct fuel as [|fuel]; [cbn in Hlt; lia|]); cbn [drain_responses answer].
  - destruct (read_empty (fw i) words Hm Hi Hr) as (w' & -> & []). by exists w'.
  - destruct (read_framed (fw i) words m (concat messages) Hm Hi Hm1 Hr) as (w' & -> & [Hmw Hiw Hrw Hcw]).
    destruct (ack_matches m id sequence) as [[]| |]; [by exists w'| |by exists w'..].
    destruct (IH (S i) fuel w') as (w2 & -> & Hm2 & Hc2 & Hn2); rewrite ?(Hq (S i)) in * by lia; try done.
    + intros k w Hk. apply Hq. lia.
    + cbn in Hlt. lia.
    + exists w2. split_and!; [done..|congruence|done].
Qed.

(** ** Acknowledgements *)
Lemma acknowledged response id sequence :
  ack_matches response id sequence = Ok true →
  ∃ a returned status rest, response = a :: returned :: status :: rest ∧ status = 0 ∧
    a .& 0xff = HFI_F2H_MSG_ACK ∧ returned .& 0xff = id ∧ (returned >> 20) .& 0xfff = sequence.
Proof.
  unfold ack_matches. destruct response as [|a l]; [done|]. case_match; [done|].
  destruct (negb (a .& _ =? HFI_F2H_MSG_ACK) || _) eqn:Ha; [done|].
  destruct (Z.ltb_spec (len (a :: l)) 3) as [|Hl]; [done|].
  destruct l as [|returned [|status rest]]; [unfold len in Hl; cbn in Hl; lia..|]. unfold Prelude.index.
  change (Z.to_nat 1) with 1%nat. change (Z.to_nat 2) with 2%nat. cbn [lookup list_lookup from_option bind].
  destruct (negb (returned .& _ =? id) || _ || _) eqn:Hb; [done|]. destruct (status =? 0) eqn:Hz; [|done]. intros _.
  bool_to_prop. by exists a, returned, status, rest.
Qed.

Definition iter_sequence (n : nat) (s : Z) : Z :=
  Nat.iter n advance s.

Lemma advance_closed s : 0 ≤ s ≤ 0xfff → advance s = s mod 4095 + 1.
Proof.
  intros Hs. unfold advance. rewrite (land_mask _ 0xfff 12) by done.
  destruct (Z.eqb_spec ((s + 1) mod 2 ^ 12) 0); zlia.
Qed.

Lemma iter_sequence_closed n s : 0 ≤ s ≤ 0xfff → iter_sequence (S n) s = (s + Z.of_nat n) mod 4095 + 1.
Proof.
  intros Hs. induction n as [|n IH]; [cbn; rewrite advance_closed by done; do 2 f_equal; lia|].
  change (iter_sequence (S (S n)) s) with (advance (iter_sequence (S n) s)).
  rewrite IH, advance_closed by zlia. zlia.
Qed.

(** An acknowledgement belongs to one command.  Commands are numbered from
    1 to 4095 in turn; a response that acknowledges one of them acknowledges
    none of the next 4094, so a late answer cannot complete another command. *)
Theorem acknowledgement_unambiguous (s id id' : Z) (n d : nat) (response : list Z) :
  0 ≤ s ≤ 0xfff → (0 < d < 4095)%nat →
  ack_matches response id (iter_sequence (S n) s) = Ok true →
  1 ≤ iter_sequence (S n) s ≤ 0xfff ∧ ack_matches response id' (iter_sequence (S (n + d)) s) ≠ Ok true.
Proof.
  intros Hs Hd Hack. rewrite !iter_sequence_closed in * by done. split; [zlia|]. intros Hack'.
  apply acknowledged in Hack as (? & x & ? & ? & -> & _ & _ & _ & Hsx), Hack' as (? & y & ? & ? & [= <- <- <- <-] & _ & _ & _ & Hsy).
  rewrite Hsx in Hsy. clear Hsx. zlia.
Qed.

(** ** Every call answers *)
Lemma read_response_safe fw words :
  memory_ok words → firmware_ok fw →
  match read_response fw words with (Panic, _) => False | (_, words') => memory_ok words' end.
Proof.
  intros Hm Hfw. specialize (Hfw words Hm). unfold read_response. set (found := fw words) in *.
  destruct (index_word (E:=string) found (RESPONSE_HEADER_WORD + Q_READ_INDEX) Hfw ltac:(done)) as [-> [Hr0 _]].
  destruct (index_word (E:=string) found (RESPONSE_HEADER_WORD + Q_WRITE_INDEX) Hfw ltac:(done)) as [-> [Hw0 _]].
  cbn [bind]. set (r := word found (_ + Q_READ_INDEX)) in *. set (w := word found (_ + Q_WRITE_INDEX)) in *.
  destruct (Z.leb_spec QUEUE_WORDS r); [done|]. destruct (Z.leb_spec QUEUE_WORDS w); [done|]. cbn [orb].
  destruct (Z.eqb_spec r w) as [|_].
  { destruct (store_ok (E:=string) found (RESPONSE_HEADER_WORD + Q_RX_REQUEST) 1 Hfw) as (w' & -> & ? & _); [done|layout|done]. }
  destruct (index_word (E:=string) found (RESPONSE_DATA_WORD + r) Hfw ltac:(layout)) as [-> _].
  destruct (_ || _); [done|]. set (n := Z.to_nat _). rewrite (ring_read_ok found RESPONSE_DATA_WORD n r) by done. cbn [bind].
  pose proof (Z.mod_pos_bound (r + Z.of_nat n) QUEUE_WORDS ltac:(done)).
  destruct (store_ok (E:=string) found (RESPONSE_HEADER_WORD + Q_READ_INDEX) ((r + Z.of_nat n) mod QUEUE_WORDS) Hfw)
    as (w' & -> & ? & _); [done|layout|done].
Qed.

Lemma ack_matches_safe response id sequence : ack_matches response id sequence ≠ Panic.
Proof.
  unfold ack_matches. destruct response as [|a l]; [done|]. case_match; [done|]. case_match; [done|].
  destruct (Z.ltb_spec (len (a :: l)) 3) as [|Hl]; [done|].
  destruct l as [|b [|c l]]; [unfold len in Hl; cbn in Hl; lia..|]. unfold Prelude.index.
  change (Z.to_nat 1) with 1%nat. change (Z.to_nat 2) with 2%nat. cbn [lookup list_lookup from_option bind].
  clear. by repeat case_match.
Qed.

Lemma drain_safe fuel i fw id sequence words r words' :
  memory_ok words → (∀ k, firmware_ok (fw k)) → drain_responses fuel i fw id sequence words = Some (r, words') →
  r ≠ Panic ∧ memory_ok words' ∧ ∀ response, r = Ok (Some response) → ack_matches response id sequence = Ok true.
Proof.
  revert i words. induction fuel as [|fuel IH]; intros i words Hm Hfw H; [done|]. cbn in H.
  pose proof (read_response_safe (fw i) words Hm (Hfw i)) as Hs.
  destruct (read_response (fw i) words) as [[[response|]|e|] w]; simplify_eq; try done.
  destruct (ack_matches response id sequence) as [[]|e|] eqn:Ha; simplify_eq; [|by eapply IH|done|].
  - split_and!; try done. by intros ? [= <-].
  - by destruct (ack_matches_safe response id sequence).
Qed.

Lemma send_loop_safe fuel rounds id sequence h r h' :
  memory_ok h.(hfi_words) → Forall (λ round, ∀ k, firmware_ok (round.(round_fw) k)) rounds →
  send_loop fuel rounds id sequence h = Some (r, h') →
  r ≠ Panic ∧ memory_ok h'.(hfi_words) ∧ h'.(hfi_sequence) = h.(hfi_sequence) ∧
  ∀ response, r = Ok response → ack_matches response id sequence = Ok true.
Proof.
  intros Hm Hr. revert h Hm. induction Hr as [|round rounds Hround _ IH]; intros h Hm H; [done|]. cbn in H.
  assert (∀ j p, wait_for_interrupt fuel j p ≠ Some Panic) as Hwait.
  { clear. induction fuel as [|fuel IH]; intros j p; cbn; [done|]. repeat (case_match; try done). }
  destruct (wait_for_interrupt _ _ _) as [[[]|e|]|] eqn:Hw; simplify_eq; [|done|by destruct (Hwait O (round_poll round))].
  destruct (drain_responses _ _ _ _ _ _) as [[o words]|] eqn:Hd; [|done].
  apply drain_safe in Hd as (Hp & Hm' & Ha); [|done|done].
  destruct o as [[response|]|e|]; simplify_eq; cbn; try done; [|by apply IH in H].
  split_and!; try done. intros ? [= <-]. auto.
Qed.

Lemma lor_u32 a b : u32 a → u32 b → u32 (a .| b).
Proof.
  intros [Ha Ha'] [Hb Hb']. split; [by apply Z.lor_nonneg|].
  destruct (Z.eq_dec (a .| b) 0) as [->|Hne]; [done|]. apply (Z.log2_lt_pow2 _ 32); [|].
  { assert (0 ≤ a .| b) by by apply Z.lor_nonneg. lia. }
  rewrite Z.log2_lor by done. apply Z.max_lub_lt.
  - destruct (Z.eq_dec a 0) as [->|]; [done|]. apply Z.log2_lt_pow2; lia.
  - destruct (Z.eq_dec b 0) as [->|]; [done|]. apply Z.log2_lt_pow2; lia.
Qed.

Lemma command_header_u32 sequence n id : 0 ≤ sequence ≤ 0xfff → 0 ≤ n ≤ 255 → u8 id → u32 (command_header sequence n id).
Proof.
  intros Hs Hn [Hi Hi']. unfold command_header. repeat apply lor_u32; unfold u32, HFI_MSG_CMD; rewrite ?Z.shiftl_mul_pow2 by done;
    try change (2 ^ 20) with 1048576; try change (2 ^ 16) with 65536; try change (2 ^ 8) with 256; lia.
Qed.

(** Whatever the firmware does, a call of [send] that returns stays inside the
    memory and succeeds only with an acknowledgement of this command. *)
Record send_env_ok (env : SendEnv) : Prop := {
  so_write : firmware_ok env.(se_write);
  so_rounds : Forall (λ round, ∀ k, firmware_ok (round.(round_fw) k)) env.(se_rounds);
}.

Record sent (id : Z) (h : LegacyHfi) (r : outcome string (list Z)) (h' : LegacyHfi) : Prop := {
  sn_answer : r ≠ Panic;
  sn_memory : memory_ok h'.(hfi_words);
  sn_sequence : h'.(hfi_sequence) = advance h.(hfi_sequence);
  sn_ack response : r = Ok response → ack_matches response id (advance h.(hfi_sequence)) = Ok true;
}.

Lemma advance_range s : 0 ≤ s ≤ 0xfff → 1 ≤ advance s ≤ 0xfff.
Proof. intros Hs. rewrite advance_closed by done. zlia. Qed.

Lemma send_safe fuel env id message h h' r :
  memory_ok h.(hfi_words) → 0 ≤ h.(hfi_sequence) ≤ 0xfff → u8 id → Forall u32 message → send_env_ok env →
  send fuel env id message h = Some (r, h') → sent id h r h'.
Proof.
  intros Hm Hs Hid Hu [Hw Hrs] H. unfold send, next_sequence in H.
  destruct (_ || _) eqn:Hg; [by injection H as <- <-|].
  bool_to_prop. set (sequence := advance (hfi_sequence h)) in *.
  assert (0 ≤ sequence ≤ 0xfff) by (pose proof (advance_range _ Hs); lia).
  set (message' := <[_ := _]> message) in *.
  assert (Forall u32 message') as Hu'.
  { apply Forall_insert; [done|]. apply command_header_u32; [done| |done]. pose proof (len_nonneg message). lia. }
  pose proof (write_command_safe (se_write env) message' (hfi_words h) Hm Hw Hu') as Hsafe.
  cbn [set_sequence hfi_words] in H. destruct (write_command _ _ _) as [[[]|e|] words]; simplify_eq; try done.
  by apply send_loop_safe in H as (? & ? & ? & ?).
Qed.

(** a command is answered by its own acknowledgement.  Whatever the
    firmware stores and whenever it interrupts, a call of [send] that returns
    has not left the memory of the queues, and it reports success only with a
    response that acknowledges the identifier and the new sequence number of
    this command with status zero. *)
Theorem send_outcome (fuel : nat) (env : SendEnv) (id : Z) (message : list Z) (h h' : LegacyHfi)
    (r : outcome string (list Z)) :
  memory_ok h.(hfi_words) → 0 ≤ h.(hfi_sequence) ≤ 0xfff → u8 id → Forall u32 message → send_env_ok env →
  send fuel env id message h = Some (r, h') →
  r ≠ Panic ∧ memory_ok h'.(hfi_words) ∧ h'.(hfi_sequence) = advance h.(hfi_sequence) ∧
  ∀ response, r = Ok response →
    ∃ a returned status rest, response = a :: returned :: status :: rest ∧ status = 0 ∧
      a .& 0xff = HFI_F2H_MSG_ACK ∧ returned .& 0xff = id ∧ (returned >> 20) .& 0xfff = advance h.(hfi_sequence).
Proof.
  intros Hm Hs Hid Hu He H. apply send_safe in H as [Hp Hm' Hseq Hack]; try done. split_and!; try done.
  intros response Hr. by apply acknowledged, Hack.
Qed.

(** ** A truncated response *)

(** The firmware has published one word of a message that claims two. *)
Definition stuck (read_index : Z) : list Z :=
  <[28%nat := read_index]> (<[29%nat := 1]> (replicate 2048 0 ++ replicate 2048 0x200)).

Lemma stuck_memory r : u32 r → memory_ok (stuck r).
Proof.
  intros Hr. constructor; [reflexivity|]. unfold stuck. apply Forall_insert; [|done].
  apply Forall_insert; [|done]. apply Forall_app. split; by apply Forall_replicate.
Qed.

Lemma stuck_data r i : 0 ≤ i < QUEUE_WORDS → word (stuck r) (RESPONSE_DATA_WORD + i) = 0x200.
Proof.
  intros Hi. unfold word, stuck. apply nth_lookup_Some.
  rewrite !list_lookup_insert_ne by layout. rewrite lookup_app_r by (rewrite length_replicate; layout).
  apply lookup_replicate_2. rewrite length_replicate. layout.
Qed.

Lemma stuck_read r :
  0 ≤ r < QUEUE_WORDS → r mod 2 = 0 →
  read_response id (stuck r) = (Ok (Some [0x200; 0x200]), stuck ((r + 2) mod QUEUE_WORDS)).
Proof.
  intros Hr Heven. assert (memory_ok (stuck r)) as Hm by (apply stuck_memory; layout).
  assert (word (stuck r) (RESPONSE_HEADER_WORD + Q_READ_INDEX) = r) as Hri by done.
  assert (word (stuck r) (RESPONSE_HEADER_WORD + Q_WRITE_INDEX) = 1) as Hwi by done.
  assert (indices_ok (stuck r) RESPONSE_HEADER_WORD) as Hi by (unfold indices_ok; rewrite Hri, Hwi; layout).
  unfold read_response, id. destruct (read_indices _ Hm Hi) as (-> & _ & _). rewrite Hri, Hwi.
  destruct (Z.leb_spec QUEUE_WORDS r); [lia|]. change (QUEUE_WORDS <=? 1) with false. cbn [orb].
  destruct (Z.eqb_spec r 1) as [->|_]; [done|].
  destruct (index_word (E:=string) (stuck r) (RESPONSE_DATA_WORD + r) Hm ltac:(layout)) as [-> _].
  rewrite stuck_data by done. cbn -[ring_read store stuck].
  change (Pos.to_nat 2) with 2%nat. rewrite (ring_read_ok (stuck r) RESPONSE_DATA_WORD 2 r) by done. cbn [bind].
  pose proof (Z.mod_pos_bound (r + 1) QUEUE_WORDS ltac:(done)).
  rewrite ring_view_S, stuck_data by done. rewrite ring_view_S, stuck_data by done. done.
Qed.

(** C38: a truncated response hangs the driver.  The driver checks the length of
    a response against a constant but not against what is queued: there is a
    memory with valid indices, one word in the response queue and nothing
    further from the firmware, on which the loop that drains the queue never
    ends, for any command, although every wait is meant to time out. *)
Theorem truncated_response_hangs :
  ∃ words, memory_ok words ∧ indices_ok words RESPONSE_HEADER_WORD ∧ len (responses words) = 1 ∧
    ∀ fuel i id sequence, drain_responses fuel i (λ _ w, w) id sequence words = None.
Proof.
  exists (stuck 0). split_and!; [by apply stuck_memory|done|done|].
  assert (∀ fuel r i id sequence, 0 ≤ r < QUEUE_WORDS → r mod 2 = 0 →
    drain_responses fuel i (λ _ w, w) id sequence (stuck r) = None) as H.
  { induction fuel as [|fuel IH]; intros r i id sequence Hr He; [done|]. cbn [drain_responses].
    change (λ w, w) with (@Datatypes.id (list Z)). rewrite stuck_read by done. cbn [ack_matches].
    apply IH; [by apply Z.mod_pos_bound|]. unfold QUEUE_WORDS. zlia. }
  intros. by apply H.
Qed.
End HfiFacts.
