(* ===== verification/CmdDb.v ===== *)
(** * The command database

    Model of [drivers/soc/qcom-cmd-db]: a read-only table in firmware memory
    that names the resources of the power controller.  The mapped region is the
    list of its bytes; [base] is the address it is mapped at. *)
From S2P Require Import Prelude.

Module CmdDb.

Definition MAGIC : list Z := [0xdb; 0x30; 0x03; 0x0c].
Definition MAX_SLAVES : Z := 8.
Definition RESOURCE_HEADER_SIZE : Z := 16.
Definition COMMAND_DB_HEADER_SIZE : Z := 4 + 4 + MAX_SLAVES * RESOURCE_HEADER_SIZE + 4 + 4.
Definition ENTRY_HEADER_SIZE : Z := 24.
Definition ENTRY_ID_SIZE : Z := 8.

Record ResourceHeader := mk_resource {
  header_offset : Z;
  res_data_offset : Z;
  count : Z;
}.

Record EntryHeader := mk_entry {
  address : Z;
  data_length : Z;
  data_offset : Z;
}.

(** The mapping; its size is the number of bytes. *)
Record CommandDb := mk_db { base : Z; bytes : list Z }.

Section Reads.
Context (self : CommandDb).

Definition checked_end (offset n : Z) : option Z :=
  checked_add U64_MAX offset n ≫= λ e, if e <=? len self.(bytes) then Some e else None.

Definition checked_offset (offset n : Z) : option Z :=
  checked_end offset n ≫= λ _, checked_add U64_MAX self.(base) offset.

Definition read_u8 (offset : Z) : option Z :=
  checked_offset offset 1 ≫= λ _, self.(bytes) !! Z.to_nat offset.

Definition read_u16 (offset : Z) : option Z :=
  checked_add U64_MAX offset 1 ≫= λ next,
  read_u8 offset ≫= λ a, read_u8 next ≫= λ b, Some (a + 256 * b).

Definition read_u32 (offset : Z) : option Z :=
  checked_add U64_MAX offset 1 ≫= λ one,
  checked_add U64_MAX offset 2 ≫= λ two,
  checked_add U64_MAX offset 3 ≫= λ three,
  read_u8 offset ≫= λ a, read_u8 one ≫= λ b, read_u8 two ≫= λ c, read_u8 three ≫= λ d,
  Some (a + 0x100 * b + 0x10000 * c + 0x1000000 * d).

Definition resource_header (index : Z) : option ResourceHeader :=
  if MAX_SLAVES <=? index then None
  else
    let offset := 8 + index * RESOURCE_HEADER_SIZE in
    read_u16 offset ≫= λ slave_id,
    if slave_id =? 0 then None
    else
      read_u16 (offset + 2) ≫= λ h, read_u16 (offset + 4) ≫= λ d, read_u16 (offset + 6) ≫= λ c,
      Some (mk_resource h d c).

Definition id_matches (offset : Z) (query : list Z) : bool :=
  if ENTRY_ID_SIZE <? len query then false
  else forallb (λ i, bool_decide (checked_add U64_MAX offset i ≫= read_u8
                                  = Some (default 0 (query !! Z.to_nat i))))
         (range ENTRY_ID_SIZE).

(** The body of the inner loop for one entry: [None] leaves [find] with [None],
    [Some None] goes on. *)
Definition find_entry (resource : ResourceHeader) (query : list Z) (entries_base entry_index : Z) :
    option (option EntryHeader) :=
  checked_mul U64_MAX entry_index ENTRY_HEADER_SIZE ≫= λ o,
  checked_add U64_MAX entries_base o ≫= λ entry_offset,
  checked_offset entry_offset ENTRY_HEADER_SIZE ≫= λ _,
  if negb (id_matches entry_offset query) then Some None
  else
    checked_add U64_MAX entry_offset 20 ≫= λ data_length_offset,
    checked_add U64_MAX entry_offset 22 ≫= λ entry_data_offset,
    read_u16 data_length_offset ≫= λ data_length,
    checked_end COMMAND_DB_HEADER_SIZE resource.(res_data_offset) ≫= λ data_base,
    read_u16 entry_data_offset ≫= λ d,
    checked_add U64_MAX data_base d ≫= λ data_offset,
    checked_offset data_offset data_length ≫= λ _,
    read_u32 (entry_offset + 16) ≫= λ address,
    Some (Some (mk_entry address data_length data_offset)).

Fixpoint find_in (resource : ResourceHeader) (query : list Z) (entries_base : Z) (indices : list Z) :
    option (option EntryHeader) :=
  match indices with
  | [] => Some None
  | i :: indices =>
    find_entry resource query entries_base i ≫= λ r,
    match r with
    | Some e => Some (Some e)
    | None => find_in resource query entries_base indices
    end
  end.

Fixpoint find_from (query : list Z) (slaves : list Z) : option EntryHeader :=
  match slaves with
  | [] => None
  | i :: slaves =>
    match resource_header i with
    | None => None
    | Some resource =>
      checked_end COMMAND_DB_HEADER_SIZE resource.(header_offset) ≫= λ entries_base,
      find_in resource query entries_base (range resource.(count)) ≫= λ r,
      match r with
      | Some e => Some e
      | None => find_from query slaves
      end
    end
  end.

Definition find (query : list Z) : option EntryHeader :=
  if bool_decide (query = []) || (ENTRY_ID_SIZE <? len query) then None
  else find_from query (range MAX_SLAVES).

Definition has_valid_magic : bool :=
  forallb (λ '(i, b), bool_decide (read_u8 (4 + i) = Some b)) (zip (range 4) MAGIC).

(** ** The public functions *)
Definition read_address (id : list Z) : option Z := address <$> find id.

Fixpoint read_each {A} (read : Z → option A) (start : Z) (offsets : list Z) : option (list A) :=
  match offsets with
  | [] => Some []
  | o :: offsets =>
    checked_add U64_MAX start o ≫= λ a, read a ≫= λ x, read_each read start offsets ≫= λ xs, Some (x :: xs)
  end.

Definition read_aux_data (id : list Z) : option (list Z) :=
  find id ≫= λ entry, read_each read_u8 entry.(data_offset) (range entry.(data_length)).

Definition read_aux_u16 (id : list Z) : option (list Z) :=
  find id ≫= λ entry,
  if (entry.(data_length) =? 0) || negb (entry.(data_length) mod 2 =? 0) then None
  else read_each read_u16 entry.(data_offset) ((λ i, 2 * i) <$> range (entry.(data_length) / 2)).
End Reads.

(** [probe] on a resource of [size] bytes; what it registers. *)
Definition probe (size : Z) (mapping : option CommandDb) : outcome string CommandDb :=
  if size <? COMMAND_DB_HEADER_SIZE
  then Err ("qcom-cmd-db: reserved-memory resource is too small" : string)
  else
    let? database := ok_or mapping ("qcom-cmd-db: ioremap failed" : string) in
    if negb (has_valid_magic database) then Err ("qcom-cmd-db: invalid database magic" : string)
    else Ok database.
End CmdDb.

(** * Properties of the command database

    An abstract database is a list of slaves, each with its entries; an image
    describes it when the headers and payloads are where the format puts them.
    Looking up an identifier in such an image finds the first entry of that
    identifier, and copies its payload. *)

Module CmdDbFacts.
Import CmdDb.

(** ** The abstract database *)
Record Entry := mk_abstract {
  en_id : list Z;
  en_address : Z;
  en_data : list Z;
}.

Record Slave := mk_slave {
  sl_id : Z;
  sl_header : Z;
  sl_data : Z;
  sl_entries : list Entry;
}.

(** Identifiers are padded with zeros to eight bytes. *)
Definition pad_id (id : list Z) : list Z := id ++ replicate (Z.to_nat ENTRY_ID_SIZE - length id) 0.

Definition lookup_entry (slaves : list Slave) (id : list Z) : option Entry :=
  List.find (λ e, bool_decide (pad_id e.(en_id) = pad_id id)) (concat (sl_entries <$> slaves)).

(** ** Images *)
Definition holds (bytes : list Z) (off : Z) (l : list Z) : Prop :=
  0 ≤ off ∧ ∀ i x, l !! i = Some x → bytes !! (Z.to_nat off + i)%nat = Some x.

Definition le16 (v : Z) : list Z := [v mod 256; v / 256].
Definition le32 (v : Z) : list Z := [v mod 256; v / 256 mod 256; v / 65536 mod 256; v / 16777216].

Record entry_at (bytes : list Z) (data_base off : Z) (e : Entry) (d : Z) : Prop := {
  ea_id : holds bytes off (pad_id e.(en_id)) ∧ len e.(en_id) ≤ ENTRY_ID_SIZE;
  ea_address : holds bytes (off + 16) (le32 e.(en_address));
  ea_length : holds bytes (off + 20) (le16 (len e.(en_data))) ∧ len e.(en_data) < 0x10000;
  ea_offset : holds bytes (off + 22) (le16 d) ∧ 0 ≤ d < 0x10000;
  ea_data : holds bytes (data_base + d) e.(en_data) ∧ data_base + d + len e.(en_data) ≤ len bytes;
}.

Record slave_at (bytes : list Z) (i : nat) (s : Slave) : Prop := {
  sa_id : holds bytes (8 + Z.of_nat i * 16) (le16 s.(sl_id)) ∧ 0 < s.(sl_id) < 0x10000;
  sa_header : holds bytes (8 + Z.of_nat i * 16 + 2) (le16 s.(sl_header)) ∧ 0 ≤ s.(sl_header) < 0x10000;
  sa_data : holds bytes (8 + Z.of_nat i * 16 + 4) (le16 s.(sl_data)) ∧ 0 ≤ s.(sl_data) < 0x10000;
  sa_count : holds bytes (8 + Z.of_nat i * 16 + 6) (le16 (len s.(sl_entries))) ∧ len s.(sl_entries) < 0x10000;
  sa_room : COMMAND_DB_HEADER_SIZE + s.(sl_header) ≤ len bytes ∧ COMMAND_DB_HEADER_SIZE + s.(sl_data) ≤ len bytes;
  sa_entries j e : s.(sl_entries) !! j = Some e →
    ∃ d, entry_at bytes (COMMAND_DB_HEADER_SIZE + s.(sl_data))
           (COMMAND_DB_HEADER_SIZE + s.(sl_header) + Z.of_nat j * 24) e d;
}.

(** A mapping that describes the database [slaves]. *)
Record describes (db : CommandDb) (slaves : list Slave) : Prop := {
  de_base : 0 ≤ db.(base) ∧ db.(base) + len db.(bytes) ≤ U64_MAX;
  de_count : (length slaves ≤ 8)%nat;
  de_slaves i s : slaves !! i = Some s → slave_at db.(bytes) i s;
  de_end : (length slaves < 8)%nat → holds db.(bytes) (8 + Z.of_nat (length slaves) * 16) (le16 0);
}.

Section Lookup.
Context (db : CommandDb).
Hypothesis Hbase : 0 ≤ db.(base) ∧ db.(base) + len db.(bytes) ≤ U64_MAX.

Lemma holds_bound off l : holds db.(bytes) off l → l ≠ [] → off + len l ≤ len db.(bytes).
Proof.
  intros [Ho Hl] Hne. destruct (lookup_lt_is_Some_2 l (length l - 1)) as [x Hx]; [destruct l; [done|cbn; lia]|].
  apply Hl, lookup_lt_Some in Hx. unfold len. destruct l; [done|]. cbn [length] in *. lia.
Qed.

Lemma checked_offset_ok off n :
  0 ≤ off → 0 ≤ n → off + n ≤ len db.(bytes) → checked_offset db off n = Some (db.(base) + off).
Proof.
  intros Ho Hn Hl. unfold checked_offset, checked_end, checked_add.
  destruct (Z.leb_spec (off + n) U64_MAX); [|lia]. cbn. destruct (Z.leb_spec (off + n) (len (bytes db))); [|lia].
  cbn. destruct (Z.leb_spec (base db + off) U64_MAX); [done|lia].
Qed.

Lemma checked_end_ok off n :
  0 ≤ off → 0 ≤ n → off + n ≤ len db.(bytes) → checked_end db off n = Some (off + n).
Proof.
  intros Ho Hn Hl. unfold checked_end, checked_add. destruct (Z.leb_spec (off + n) U64_MAX); [|lia]. cbn.
  by destruct (Z.leb_spec (off + n) (len (bytes db))); [|lia].
Qed.

Lemma checked_add_ok a b : a + b ≤ U64_MAX → checked_add U64_MAX a b = Some (a + b).
Proof. intros H. unfold checked_add. by destruct (Z.leb_spec (a + b) U64_MAX); [|lia]. Qed.

Lemma read_u8_at off l i x k :
  holds db.(bytes) off l → l !! i = Some x → k = off + Z.of_nat i → read_u8 db k = Some x.
Proof.
  intros [Ho Hl] Hi ->. pose proof (Hl i x Hi) as Hx. pose proof (lookup_lt_Some _ _ _ Hx).
  unfold read_u8. rewrite checked_offset_ok by (unfold len; lia). cbn. rewrite <- Hx. f_equal. lia.
Qed.

Lemma read_u16_at off v : holds db.(bytes) off (le16 v) → read_u16 db off = Some v.
Proof.
  intros H. pose proof (holds_bound off _ H ltac:(done)) as Hb. change (len (le16 v)) with 2 in Hb. unfold read_u16.
  rewrite checked_add_ok by lia. cbn.
  rewrite (read_u8_at off _ 0 (v mod 256) off H), (read_u8_at off _ 1 (v / 256) (off + 1) H) by (done || lia). cbn. f_equal.
  pose proof (Z.div_mod v 256). lia.
Qed.

Lemma read_u32_at off v : holds db.(bytes) off (le32 v) → read_u32 db off = Some v.
Proof.
  intros H. pose proof (holds_bound off _ H ltac:(done)) as Hb. change (len (le32 v)) with 4 in Hb. unfold read_u32.
  rewrite !checked_add_ok by lia. cbn.
  rewrite (read_u8_at off _ 0 (v mod 256) off H), (read_u8_at off _ 1 (v / 256 mod 256) (off + 1) H),
    (read_u8_at off _ 2 (v / 65536 mod 256) (off + 2) H), (read_u8_at off _ 3 (v / 16777216) (off + 3) H)
    by (done || lia). cbn. f_equal. zlia.
Qed.

Lemma read_each_at {A} (read : Z → option A) start offsets xs :
  Forall2 (λ o x, start + o ≤ U64_MAX ∧ read (start + o) = Some x) offsets xs → read_each read start offsets = Some xs.
Proof.
  induction 1 as [|o x offsets xs [Ho Hr] _ IH]; [done|]. cbn. rewrite checked_add_ok by done. cbn.
  by rewrite Hr, IH.
Qed.

Lemma range_Forall2 {A} (P : Z → A → Prop) (l : list A) :
  (∀ i x, l !! i = Some x → P (Z.of_nat i) x) → Forall2 P (range (len l)) l.
Proof.
  intros H. apply Forall2_same_length_lookup. split; [rewrite length_range; unfold len; lia|].
  intros i o x Ho Hx. rewrite range_len_lookup in Ho by congruence. injection Ho as <-. auto.
Qed.

Lemma pad_id_length id : len id ≤ ENTRY_ID_SIZE → length (pad_id id) = 8%nat.
Proof. unfold pad_id, len, ENTRY_ID_SIZE. rewrite length_app, length_replicate. lia. Qed.

Lemma pad_id_lookup id i : (i < 8)%nat → len id ≤ ENTRY_ID_SIZE → pad_id id !! i = Some (default 0 (id !! i)).
Proof.
  intros Hi Hl. unfold pad_id, len, ENTRY_ID_SIZE in *. destruct (decide (i < length id)%nat) as [Hlt|Hge].
  - rewrite lookup_app_l by done. by destruct (lookup_lt_is_Some_2 _ _ Hlt) as [x ->].
  - rewrite lookup_app_r, (lookup_ge_None_2 id i) by lia. cbn. apply lookup_replicate_2. lia.
Qed.

Lemma id_matches_at off id query :
  holds db.(bytes) off (pad_id id) → len id ≤ ENTRY_ID_SIZE → len query ≤ ENTRY_ID_SIZE →
  id_matches db off query = bool_decide (pad_id id = pad_id query).
Proof.
  intros H Hid Hq. pose proof (pad_id_length id Hid) as Hlen.
  assert (off + 8 ≤ len db.(bytes)) as Hb.
  { apply holds_bound in H; [unfold len in *; lia|]. intros Hn. by rewrite Hn in Hlen. }
  unfold id_matches. destruct (Z.ltb_spec ENTRY_ID_SIZE (len query)); [lia|]. apply eq_bool_prop_intro.
  rewrite bool_decide_spec, forallb_True, Forall_forall. split.
  - intros Hall. apply list_eq_same_length with 8%nat; [by apply pad_id_length|done|].
    intros i x y Hi Hx Hy. rewrite pad_id_lookup in Hy by done. injection Hy as <-.
    specialize (Hall (Z.of_nat i)). rewrite elem_of_range in Hall.
    specialize (Hall ltac:(unfold ENTRY_ID_SIZE; lia)). apply bool_decide_unpack in Hall.
    rewrite checked_add_ok in Hall by lia. cbn in Hall. rewrite (read_u8_at off _ i x _ H Hx eq_refl), Nat2Z.id in Hall. congruence.
  - intros Heq i Hi%elem_of_range. apply bool_decide_pack. unfold ENTRY_ID_SIZE in Hi.
    rewrite checked_add_ok by lia. cbn. apply (read_u8_at off (pad_id id) (Z.to_nat i)); [done| |lia].
    rewrite Heq. apply pad_id_lookup; [lia|done].
Qed.

(** ** The search *)

(** A header that stands for an entry. *)
Record stands_for (h : EntryHeader) (e : Entry) : Prop := {
  sf_address : h.(address) = e.(en_address);
  sf_length : h.(data_length) = len e.(en_data);
  sf_data : holds db.(bytes) h.(data_offset) e.(en_data);
  sf_room : h.(data_offset) + len e.(en_data) ≤ len db.(bytes);
}.

Context (query : list Z).
Hypothesis Hquery : len query ≤ ENTRY_ID_SIZE.

Definition matching (e : Entry) : bool := bool_decide (pad_id e.(en_id) = pad_id query).

(** The answer of a search among [entries]. *)
Definition answers (r : option EntryHeader) (entries : list Entry) : Prop :=
  match List.find matching entries with
  | Some e => ∃ h, r = Some h ∧ stands_for h e
  | None => r = None
  end.

Lemma find_entry_at s j e d :
  COMMAND_DB_HEADER_SIZE + s.(sl_data) ≤ len db.(bytes) → 0 ≤ s.(sl_data) → 0 ≤ s.(sl_header) →
  entry_at db.(bytes) (COMMAND_DB_HEADER_SIZE + s.(sl_data))
    (COMMAND_DB_HEADER_SIZE + s.(sl_header) + Z.of_nat j * 24) e d →
  ∃ r, find_entry db (mk_resource s.(sl_header) s.(sl_data) (len s.(sl_entries))) query
         (COMMAND_DB_HEADER_SIZE + s.(sl_header)) (Z.of_nat j) = Some r ∧ answers r [e].
Proof.
  intros Hroom Hsd Hsh [[Hid Hidl] Haddr [Hlen Hlenb] [Hoff Hd] [Hdata Hend]].
  set (off := COMMAND_DB_HEADER_SIZE + sl_header s + Z.of_nat j * 24) in *.
  pose proof (holds_bound (off + 22) _ Hoff ltac:(done)) as Hb. change (len (le16 d)) with 2 in Hb.
  change COMMAND_DB_HEADER_SIZE with 144 in *. pose proof (len_nonneg e.(en_data)) as Hnn.
  unfold find_entry, ENTRY_HEADER_SIZE, checked_mul. destruct (Z.leb_spec (Z.of_nat j * 24) U64_MAX); [|lia].
  cbn [mbind option_bind]. rewrite checked_add_ok by lia. cbn [mbind option_bind]. fold off.
  rewrite checked_offset_ok by lia. cbn [mbind option_bind]. rewrite (id_matches_at off e.(en_id)) by done.
  unfold answers. cbn [List.find]. fold (matching e). destruct (matching e) eqn:Hm; cbn [negb].
  - rewrite !checked_add_ok by lia. cbn [mbind option_bind]. rewrite (read_u16_at _ _ Hlen). cbn [mbind option_bind].
    cbn [res_data_offset]. change COMMAND_DB_HEADER_SIZE with 144. rewrite checked_end_ok by lia. cbn [mbind option_bind].
    rewrite (read_u16_at _ _ Hoff). cbn [mbind option_bind]. rewrite checked_add_ok by lia. cbn [mbind option_bind].
    rewrite checked_offset_ok by lia. cbn [mbind option_bind]. rewrite (read_u32_at _ _ Haddr). cbn [mbind option_bind].
    eexists. split; [done|]. eexists. split; [done|]. by constructor.
  - eexists. split; [done|]. done.
Qed.

Lemma find_app {A} (p : A → bool) l1 l2 :
  List.find p (l1 ++ l2) = match List.find p l1 with Some x => Some x | None => List.find p l2 end.
Proof. induction l1 as [|x l1 IH]; [done|]. cbn. by destruct (p x). Qed.

Lemma find_in_at resource entries_base indices entries :
  Forall2 (λ i e, ∃ r, find_entry db resource query entries_base i = Some r ∧ answers r [e]) indices entries →
  ∃ r, find_in db resource query entries_base indices = Some r ∧ answers r entries.
Proof.
  induction 1 as [|i e indices entries (r & Hf & Ha) _ (r' & IH & IHa)]; [by exists None|]. cbn [find_in].
  rewrite Hf. cbn. unfold answers in *. cbn [List.find] in *. destruct (matching e).
  - destruct Ha as (h & -> & Hs). exists (Some h). split; [done|]. by exists h.
  - subst r. by exists r'.
Qed.

Lemma find_slave_at i s :
  slave_at db.(bytes) i s → (i < 8)%nat →
  resource_header db (Z.of_nat i) = Some (mk_resource s.(sl_header) s.(sl_data) (len s.(sl_entries))) ∧
  checked_end db COMMAND_DB_HEADER_SIZE s.(sl_header) = Some (COMMAND_DB_HEADER_SIZE + s.(sl_header)) ∧
  ∃ r, find_in db (mk_resource s.(sl_header) s.(sl_data) (len s.(sl_entries))) query
         (COMMAND_DB_HEADER_SIZE + s.(sl_header)) (range (len s.(sl_entries))) = Some r ∧ answers r s.(sl_entries).
Proof.
  intros [[Hid Hidb] [Hh Hhb] [Hd Hdb] [Hc Hcb] [Hr1 Hr2] He] Hi. split_and!.
  - unfold resource_header, MAX_SLAVES, RESOURCE_HEADER_SIZE. destruct (Z.leb_spec 8 (Z.of_nat i)); [lia|].
    rewrite (read_u16_at _ _ Hid). cbn [mbind option_bind]. destruct (Z.eqb_spec (sl_id s) 0); [lia|].
    by rewrite (read_u16_at _ _ Hh), (read_u16_at _ _ Hd), (read_u16_at _ _ Hc).
  - apply checked_end_ok; [done|lia|lia].
  - apply find_in_at, range_Forall2. intros j e Hj. destruct (He j e Hj) as [d Hat].
    eapply find_entry_at; [done|lia|lia|exact Hat].
Qed.

Lemma find_from_at slaves i :
  (i + length slaves ≤ 8)%nat → (∀ k s, slaves !! k = Some s → slave_at db.(bytes) (i + k) s) →
  ((i + length slaves < 8)%nat → holds db.(bytes) (8 + Z.of_nat (i + length slaves) * 16) (le16 0)) →
  answers (find_from db query (Z.of_nat <$> seq i (8 - i))) (concat (sl_entries <$> slaves)).
Proof.
  revert i. induction slaves as [|s slaves IH]; intros i Hlen Hat Hend; cbn [length] in *.
  - unfold answers. cbn [fmap list_fmap concat List.find]. destruct (decide (i = 8)%nat) as [->|Hne]; [done|].
    replace (8 - i)%nat with (S (7 - i)) by lia. cbn [seq fmap list_fmap find_from].
    unfold resource_header, MAX_SLAVES, RESOURCE_HEADER_SIZE. destruct (Z.leb_spec 8 (Z.of_nat i)); [done|].
    rewrite Nat.add_0_r in Hend. by rewrite (read_u16_at _ _ (Hend ltac:(lia))).
  - replace (8 - i)%nat with (S (8 - S i)) by lia. cbn [seq fmap list_fmap find_from concat].
    destruct (find_slave_at i s) as (-> & Hce & r & Hr & Hans); [by rewrite <- (Nat.add_0_r i); apply Hat|lia|].
    cbn [header_offset count]. rewrite Hce. cbn [mbind option_bind]. rewrite Hr. cbn [mbind option_bind].
    specialize (IH (S i)). unfold answers in *. rewrite find_app. destruct (List.find matching (sl_entries s)).
    + destruct Hans as (h & -> & Hs). by exists h.
    + subst r. apply IH; [lia| |].
      * intros k s' Hk. rewrite Nat.add_succ_comm. by apply Hat.
      * rewrite Nat.add_succ_comm. exact Hend.
Qed.
End Lookup.

(** The command database is looked up as it is described.  On a mapping
    whose bytes describe a table of slaves and entries, reading the address or
    the payload of an identifier of at most eight bytes gives that of the
    first entry with the identifier, in the order of the table, and nothing
    when there is none; no read leaves the mapping. *)
Theorem command_db_lookup (db : CommandDb) (slaves : list Slave) (id : list Z) :
  describes db slaves → id ≠ [] → len id ≤ ENTRY_ID_SIZE →
  read_address db id = en_address <$> lookup_entry slaves id ∧
  read_aux_data db id = en_data <$> lookup_entry slaves id.
Proof.
  intros [Hbase Hcount Hat Hend] Hne Hlen.
  assert (answers db id (find db id) (concat (sl_entries <$> slaves))) as Ha.
  { unfold find. rewrite bool_decide_false by done. destruct (Z.ltb_spec ENTRY_ID_SIZE (len id)); [lia|]. cbn [orb].
    apply (find_from_at db Hbase id Hlen slaves 0); [done|done|exact Hend]. }
  unfold read_address, read_aux_data, lookup_entry. unfold answers, matching in Ha.
  destruct (List.find _ _) as [e|]; [|by rewrite Ha]. destruct Ha as (h & -> & [Hadr Hdl Hdat Hroom]). cbn.
  split; [by rewrite Hadr|]. rewrite Hdl. apply read_each_at, range_Forall2. intros i x Hi.
  pose proof (lookup_lt_Some _ _ _ Hi). unfold len in *. split; [lia|].
  by apply (read_u8_at db Hbase (data_offset h) (en_data e) i).
Qed.
End CmdDbFacts.
