(* ===== verification/HfiSample.v ===== *)
(** * Sample exchanges with the firmware

    The queue memory the driver sets up, two commands of which the firmware
    takes the first, a response queue with two messages, one whole exchange,
    and a small command database: concrete inputs of the theorems of
    [HfiFacts.v] and [CmdDbFacts.v]. *)
From S2P Require Import Prelude Registers Hardware Hfi HfiFacts CmdDb.

Module HfiSample.
Import Hw Hfi HfiFacts.

(** ** Memory *)
Definition memory_okb (words : list Z) : bool :=
  (len words =? 4096) && forallb (λ w, (0 <=? w) && (w <? 2 ^ 32)) words.

Lemma memory_okb_sound words : memory_okb words = true → memory_ok words.
Proof.
  unfold memory_okb. rewrite andb_true_iff. intros [Hl Hw]. constructor; [by apply Z.eqb_eq|].
  rewrite forallb_forall in Hw. apply Forall_forall. intros x Hx%list_elem_of_In%Hw. unfold u32. lia.
Qed.

(** A firmware that stores one word. *)
Definition poke (i : nat) (v : Z) : Firmware := λ words, <[i := v]> words.

Lemma poke_ok i v : u32 v → firmware_ok (poke i v).
Proof.
  intros Hv words [Hl Hu]. constructor; [unfold poke, len; by rewrite length_insert|by apply Forall_insert].
Qed.

Lemma idle_ok : firmware_ok id.
Proof. by intros words. Qed.

Definition fresh : LegacyHfi :=
  match hfi_new 0x10000 with Ok h => h | _ => mk_hfi [] 0 0 [] end.

Lemma fresh_memory : memory_ok fresh.(hfi_words).
Proof. apply memory_okb_sound. vm_compute. reflexivity. Qed.

(** ** Two commands *)
Definition first_command : list Z := [0x100200; 5].
Definition second_command : list Z := [0x200101].
Definition after_first : list Z := (write_command id first_command fresh.(hfi_words)).2.
Definition after_second : list Z := (write_command (poke 16 2) second_command after_first).2.

Lemma sample_history : history ([] ++ first_command ++ second_command) (([] ++ []) ++ first_command) after_second.
Proof.
  rewrite app_assoc.
  assert (history ([] ++ first_command) ([] ++ []) after_first) as H1.
  { eapply (hist_send [] [] (hfi_words fresh) id first_command [] (Ok ()));
      [|apply idle_ok|by repeat constructor|done|done|vm_compute; reflexivity|vm_compute; reflexivity].
    constructor; [apply fresh_memory|vm_compute; reflexivity]. }
  eapply (hist_send _ _ after_first (poke 16 2) second_command first_command (Ok ()));
    [exact H1|by apply poke_ok|by repeat constructor|done|done|vm_compute; reflexivity|vm_compute; reflexivity].
Qed.

Lemma commands_delivered_witness :
  first_command ++ second_command = first_command ++ commands after_second ∧ len (commands after_second) < QUEUE_WORDS.
Proof. exact (commands_delivered _ _ _ sample_history). Defined.

(** ** Two responses *)
Definition notice : list Z := [0x00200 .| 101; 9].
Definition ack (id sequence : Z) : list Z := [(HFI_MSG_ACK << 16) .| (3 << 8) .| HFI_F2H_MSG_ACK; (sequence << 20) .| id; 0].

(** The words of [l] stored from index [i] on. *)
Definition poke_all (i : nat) (l : list Z) (words : list Z) : list Z :=
  list_inserts i l words.

Definition two_responses : list Z :=
  poke 29 5 (poke_all 2048 (notice ++ ack 5 1) fresh.(hfi_words)).

Lemma two_responses_memory : memory_ok two_responses.
Proof. apply memory_okb_sound. vm_compute. reflexivity. Qed.

Lemma two_responses_indices : indices_ok two_responses RESPONSE_HEADER_WORD.
Proof. split; vm_compute; reflexivity. Qed.

Lemma two_responses_framed : Forall framed [notice; ack 5 1].
Proof. repeat constructor; eexists _, _; (split; [reflexivity|split; vm_compute; done]). Qed.

Lemma two_responses_queued : responses two_responses = concat [notice; ack 5 1].
Proof. vm_compute. reflexivity. Qed.

Definition quiet : nat → Firmware := λ _ words, words.

Lemma responses_drained_witness :
  ∃ words', drain_responses 3 0 quiet 5 1 two_responses = Some (answer [notice; ack 5 1] 5 1, words') ∧
    memory_ok words' ∧ commands words' = commands (quiet 0%nat two_responses) ∧
    (answer [notice; ack 5 1] 5 1 = Ok None → responses words' = []).
Proof.
  exact (responses_drained 3 0 quiet 5 1 [notice; ack 5 1] two_responses two_responses_memory
    two_responses_indices (λ _ _ _, eq_refl) two_responses_framed two_responses_queued ltac:(cbn; lia)).
Defined.

Lemma acknowledgement_unambiguous_witness :
  1 ≤ iter_sequence 1 0 ≤ 0xfff ∧ ack_matches (ack 5 1) 5 (iter_sequence 2 0) ≠ Ok true.
Proof. apply (acknowledgement_unambiguous 0 5 5 0 1 (ack 5 1)); [lia|lia|vm_compute; reflexivity]. Defined.

(** ** One exchange *)

(** The firmware answers before the first read of the first round. *)
Definition reply : Firmware := λ words, poke 29 3 (poke_all 2048 (ack HFI_H2F_MSG_TEST 1) words).

Lemma reply_ok : firmware_ok reply.
Proof.
  intros words [Hl Hu]. unfold reply, poke_all. constructor.
  - unfold poke, len in *. rewrite length_insert, length_inserts. done.
  - apply Forall_insert; [|unfold u32; lia]. apply Forall_lookup. intros i x Hx.
    rewrite list_lookup_inserts_Some in Hx. rewrite Forall_lookup in Hu. destruct Hx as [[_ Hx]|(_ & _ & Hx)]; [by eapply Hu|].
    assert (Forall u32 (ack HFI_H2F_MSG_TEST 1)) as Ha by (by repeat constructor).
    rewrite Forall_lookup in Ha. exact (Ha _ _ Hx).
Qed.

Definition exchange : SendEnv :=
  mk_send_env id [mk_round (mk_poll 0 (λ _, (MESSAGE_INTERRUPT, 10))) (λ i, if decide (i = O) then reply else id)].

Definition after_exchange : LegacyHfi :=
  match send 3 exchange HFI_H2F_MSG_TEST [0] fresh with Some (_, h) => h | None => fresh end.

Lemma exchange_sent : send 3 exchange HFI_H2F_MSG_TEST [0] fresh = Some (Ok (ack HFI_H2F_MSG_TEST 1), after_exchange).
Proof. vm_compute. reflexivity. Qed.

Lemma exchange_ok : send_env_ok exchange.
Proof.
  split; [apply idle_ok|]. apply Forall_cons. split; [|done]. intros k. cbn.
  destruct (decide _); [apply reply_ok|apply idle_ok].
Qed.

Lemma send_outcome_witness :
  (Ok (ack HFI_H2F_MSG_TEST 1) : outcome string (list Z)) ≠ Panic ∧ memory_ok after_exchange.(hfi_words) ∧
  after_exchange.(hfi_sequence) = advance fresh.(hfi_sequence) ∧
  ∀ response, (Ok (ack HFI_H2F_MSG_TEST 1) : outcome string (list Z)) = Ok response →
    ∃ a returned status rest, response = a :: returned :: status :: rest ∧ status = 0 ∧
      a .& 0xff = HFI_F2H_MSG_ACK ∧ returned .& 0xff = HFI_H2F_MSG_TEST ∧
      (returned >> 20) .& 0xfff = advance fresh.(hfi_sequence).
Proof.
  apply (send_outcome 3 exchange HFI_H2F_MSG_TEST [0] fresh after_exchange (Ok (ack HFI_H2F_MSG_TEST 1))).
  - exact fresh_memory.
  - vm_compute. split; discriminate.
  - unfold u8, HFI_H2F_MSG_TEST. lia.
  - by repeat constructor.
  - exact exchange_ok.
  - exact exchange_sent.
Defined.
End HfiSample.

Module CmdDbSample.
Import CmdDb CmdDbFacts.

(** ** A database with three entries *)
Definition gfx_lvl : Entry := mk_abstract [0x67; 0x66; 0x78; 0x2e; 0x6c; 0x76; 0x6c] 0x30010 [0; 0; 48; 0; 128; 0].
Definition cx_lvl : Entry := mk_abstract [0x63; 0x78; 0x2e; 0x6c; 0x76; 0x6c] 0x30000 [0; 0; 64; 0].
Definition mx_lvl : Entry := mk_abstract [0x6d; 0x78; 0x2e; 0x6c; 0x76; 0x6c] 0x30090 [0; 0; 64; 0].
Definition sample_slave : Slave := mk_slave 4 0 72 [gfx_lvl; cx_lvl; mx_lvl].

Definition entry_bytes (e : Entry) (d : Z) : list Z :=
  pad_id e.(en_id) ++ replicate 8 0 ++ le32 e.(en_address) ++ le16 (len e.(en_data)) ++ le16 d.

Definition sample_bytes : list Z :=
  replicate 4 0 ++ MAGIC
  ++ (le16 4 ++ le16 0 ++ le16 72 ++ le16 3 ++ replicate 8 0) ++ replicate (7 * 16) 0 ++ replicate 8 0
  ++ entry_bytes gfx_lvl 0 ++ entry_bytes cx_lvl 6 ++ entry_bytes mx_lvl 10
  ++ gfx_lvl.(en_data) ++ cx_lvl.(en_data) ++ mx_lvl.(en_data).

Definition sample_db : CommandDb := mk_db 0x80820000 sample_bytes.

Lemma holds_sound bytes off l :
  0 ≤ off → firstn (length l) (skipn (Z.to_nat off) bytes) = l → holds bytes off l.
Proof.
  intros Ho Heq. split; [done|]. intros i x Hi. rewrite <- Heq in Hi. apply lookup_take_Some in Hi as [Hi _].
  by rewrite lookup_drop in Hi.
Qed.

Ltac hold := apply holds_sound; [vm_compute; discriminate|vm_compute; reflexivity].

Lemma sample_describes : describes sample_db [sample_slave].
Proof.
  constructor.
  - vm_compute. split; discriminate.
  - cbn. lia.
  - intros [|i] s; [intros [= <-]|done]. constructor; try (split; [hold|vm_compute; (done || split; done)]).
    { vm_compute. split; discriminate. }
    intros [|[|[|j]]] e; [intros [= <-]..|done].
    + exists 0. constructor; (split; [hold|vm_compute; (done || split; done)]) || hold.
    + exists 6. constructor; (split; [hold|vm_compute; (done || split; done)]) || hold.
    + exists 10. constructor; (split; [hold|vm_compute; (done || split; done)]) || hold.
  - intros _. hold.
Qed.

Lemma command_db_lookup_witness :
  read_address sample_db gfx_lvl.(en_id) = Some 0x30010 ∧
  read_aux_data sample_db gfx_lvl.(en_id) = Some [0; 0; 48; 0; 128; 0].
Proof.
  apply (command_db_lookup sample_db [sample_slave] gfx_lvl.(en_id));
    [exact sample_describes|discriminate|vm_compute; discriminate].
Defined.
End CmdDbSample.
