(* ===== verification/Opp.v ===== *)
(** * Operating points

    Model of [opp.rs]: the operating points of the GPU and of the GMU, read
    from the device tree, filtered by the speed bin, sorted and checked.

    The device tree is parsed by a crate of its own; what the driver uses of it
    is the interface [DeviceTree], and that a tree is finite is its law.  The
    properties of the device node and the fuse cell come from the kernel and
    are arguments. *)
From S2P Require Import Prelude Hfi.

(** ** The device tree *)
Class DeviceTree (node : Type) := {
  property : node → string → option (list Z);
  children : node → list node;
}.

(** Properties are byte strings, and the tree is finite: every node weighs more
    than its children together. *)
Class DeviceTreeLaws (node : Type) `{DeviceTree node} := {
  property_bytes n name value : property n name = Some value → Forall u8 value;
  weight : node → nat;
  weight_children n : (sum_list_with weight (children n) < weight n)%nat;
}.

Module Opp.
Import Hfi.

Definition A618_SPEED_BIN_DEFAULT_MASK : Z := 1.

Record OperatingPoint := mk_point {
  point_khz : Z;
  level : Z;
  point_kbps : option Z;
}.

(** [uN::from_be_bytes] and [uN::from_le_bytes] *)
Definition from_be_bytes (bytes : list Z) : Z := fold_left (λ acc b, acc * 256 + b) bytes 0.
Definition from_le_bytes (bytes : list Z) : Z := from_be_bytes (rev bytes).

Definition be_u32 (bytes : list Z) : option Z := from_be_bytes <$> get_range bytes 0 4.
Definition be_u64 (bytes : list Z) : option Z := from_be_bytes <$> get_range bytes 0 8.

(** The bytes of a string literal. *)
Definition str (s : string) : list Z := (λ c, Z.of_N (Ascii.N_of_ascii c)) <$> String.list_ascii_of_string s.

(** The bytes before the first zero. *)
Fixpoint until_nul (bytes : list Z) : list Z :=
  match bytes with
  | [] => []
  | b :: bytes => if b =? 0 then [] else b :: until_nul bytes
  end.

Section Nodes.
Context {node : Type} `{DeviceTree node}.

Definition node_phandle (n : node) : option Z :=
  match property n "phandle" with
  | Some value => be_u32 value
  | None => property n "linux,phandle" ≫= be_u32
  end.

(** The loop over the stack; its top is the head of the list. *)
Fixpoint find_on_stack (fuel : nat) (phandle : Z) (stack : list node) : outcome string (option node) :=
  match fuel with
  | O => Panic
  | S fuel =>
    match stack with
    | [] => Ok None
    | n :: stack =>
      if bool_decide (node_phandle n = Some phandle) then Ok (Some n)
      else find_on_stack fuel phandle (rev (children n) ++ stack)
    end
  end.

(** [root] is [fdt.find_node("/")]. *)
Definition find_node_by_phandle (fuel : nat) (root : option node) (phandle : Z) : outcome string (option node) :=
  match root with
  | None => Ok None
  | Some root => find_on_stack fuel phandle [root]
  end.

Definition node_is_available (n : node) : bool :=
  match property n "status" with
  | None => true
  | Some value => bool_decide (until_nul value = str "ok") || bool_decide (until_nul value = str "okay")
  end.

Definition operating_point_from_node (n : node) (supported_hardware : Z) : outcome string (option OperatingPoint) :=
  if negb (node_is_available n) then Ok None
  else
    let? supported :=
      match property n "opp-supported-hw" with
      | None => Ok true
      | Some value =>
        let? mask := ok_or (be_u32 value) "qcom-adreno-a618: malformed OPP supported-hardware mask"%string in
        Ok (negb (mask .& supported_hardware =? 0))
      end in
    if negb supported then Ok None
    else
      let? frequency_hz := ok_or (property n "opp-hz" ≫= be_u64)
        "qcom-adreno-a618: OPP is missing a 64-bit frequency"%string in
      if (frequency_hz =? 0) || negb (frequency_hz mod 1000 =? 0)
      then Err "qcom-adreno-a618: OPP frequency is not an integral kHz value"%string
      else if U32_MAX <? frequency_hz / 1000 then Err "qcom-adreno-a618: OPP frequency exceeds HFI v1 range"%string
      else
        let? level := ok_or ((property n "opp-level" ≫= be_u32) ≫= λ l, if l <? 0x10000 then Some l else None)
          "qcom-adreno-a618: OPP is missing a valid RPMh level"%string in
        if level =? 0 then Err "qcom-adreno-a618: non-zero OPP has an off RPMh level"%string
        else
          let? peak_kbps :=
            match property n "opp-peak-kBps" with
            | None => Ok None
            | Some value =>
              let? kbps := ok_or (be_u32 value) "qcom-adreno-a618: malformed OPP peak bandwidth"%string in
              Ok (Some kbps)
            end in
          Ok (Some (mk_point (frequency_hz / 1000) level peak_kbps)).
End Nodes.

(** [sort_unstable_by_key]: points of one frequency may come in any order, and
    a table with two such points is refused. *)
Definition by_frequency (a b : OperatingPoint) : Prop := a.(point_khz) ≤ b.(point_khz).
#[export] Instance by_frequency_dec : RelDecision by_frequency.
Proof. intros a b. unfold by_frequency. apply _. Defined.

(** The loop over [windows(2)]. *)
Fixpoint check_pairs (points : list OperatingPoint) : outcome string () :=
  match points with
  | a :: (b :: _) as rest =>
    if a.(point_khz) =? b.(point_khz) then Err "qcom-adreno-a618: OPP table has duplicate frequencies"%string
    else if b.(level) <? a.(level) then Err "qcom-adreno-a618: OPP voltage level decreases with frequency"%string
    else check_pairs rest
  | _ => Ok ()
  end.

Definition finalize_operating_points (points : list OperatingPoint) (max_levels_including_off : Z) :
    outcome string (list OperatingPoint) :=
  if bool_decide (points = []) then Err "qcom-adreno-a618: no supported operating points"%string
  else if max_levels_including_off <=? len points then Err "qcom-adreno-a618: OPP table exceeds HFI v1 capacity"%string
  else
    let points := merge_sort by_frequency points in
    let? _ := check_pairs points in
    Ok points.

(** What the kernel knows of the device: its properties and its fuse cell. *)
Record NvmemCell := mk_cell { cell_size : Z; cell_read : outcome string (list Z) }.

Record PlatformDevice := mk_device {
  device_property : string → option (list Z);
  nvmem_cell : outcome string NvmemCell;
}.

Section Tables.
Context {node : Type} `{DeviceTree node}.

(** [tree] is the parsed tree, if there is one, and its root. *)
Definition read_operating_points (fuel : nat) (tree : option (option node)) (device : PlatformDevice)
    (supported_hardware max_levels_including_off : Z) : outcome string (list OperatingPoint) :=
  let? table_phandle :=
    ok_or ((device.(device_property) "operating-points-v2" ≫= be_u32) ≫= λ p, if p =? 0 then None else Some p)
      "qcom-adreno-a618: device is missing its OPP table"%string in
  let? root := ok_or tree "qcom-adreno-a618: FDT is unavailable while parsing OPPs"%string in
  let? found := find_node_by_phandle fuel root table_phandle in
  let? table := ok_or found "qcom-adreno-a618: OPP table phandle was not found"%string in
  let? points := foldM (λ points child,
    let? point := operating_point_from_node child supported_hardware in
    Ok (points ++ option_list point)) [] (children table) in
  finalize_operating_points points max_levels_including_off.

Definition supported_hardware_from_fuse (fuse : Z) : Z * bool :=
  if fuse =? 0 then (1 << 0, true)
  else if fuse =? 169 then (1 << 1, true)
  else if fuse =? 174 then (1 << 2, true)
  else (A618_SPEED_BIN_DEFAULT_MASK, false).

Definition read_gpu_supported_hardware (device : PlatformDevice) : outcome string Z :=
  match device.(device_property) "nvmem-cells" with
  | None => Ok A618_SPEED_BIN_DEFAULT_MASK
  | Some _ =>
    let? cell := device.(nvmem_cell) in
    if (cell.(cell_size) =? 0) || (4 <? cell.(cell_size))
    then Err "qcom-adreno-a618: GPU speed-bin cell has an invalid size"%string
    else
      let? bytes := map_err cell.(cell_read) "qcom-adreno-a618: failed to read GPU speed-bin fuse"%string in
      let fuse := from_le_bytes (bytes ++ replicate (4 - length bytes) 0) in
      Ok (fst (supported_hardware_from_fuse fuse))
  end.

Definition read_gmu_operating_points (fuel : nat) (tree : option (option node)) (device : PlatformDevice) :
    outcome string (list OperatingPoint) :=
  read_operating_points fuel tree device U32_MAX MAX_GMU_LEVELS.

Definition read_gpu_operating_points (fuel : nat) (tree : option (option node)) (device : PlatformDevice) :
    outcome string (list OperatingPoint) :=
  let? supported_hardware := read_gpu_supported_hardware device in
  read_operating_points fuel tree device supported_hardware MAX_GPU_LEVELS.
End Tables.
End Opp.

(** * Properties of the operating points

    The search of the device tree visits every node and ends; the table it
    finds gives exactly the points of its available and supported children, in
    strictly increasing frequency and with voltage levels that never fall. *)

Module OppFacts.
Import Hfi Opp.

(** What a table of operating points promises to the GMU. *)
Definition below (a b : OperatingPoint) : Prop := a.(point_khz) < b.(point_khz) ∧ a.(level) ≤ b.(level).
Definition in_range (p : OperatingPoint) : Prop := 0 < p.(point_khz) ≤ U32_MAX ∧ 0 < p.(level) < 0x10000.

Record finalized (max : Z) (points : list OperatingPoint) : Prop := {
  fp_count : 1 ≤ len points < max;
  fp_sorted : StronglySorted below points;
  fp_range : Forall in_range points;
}.

(** ** Sorting and checking *)
Lemma below_trans : Transitive below.
Proof. intros a b c [] []. unfold below. lia. Qed.

#[export] Instance by_frequency_total : Total by_frequency.
Proof. intros a b. unfold by_frequency. lia. Qed.
#[export] Instance by_frequency_trans : Transitive by_frequency.
Proof. intros a b c. unfold by_frequency. lia. Qed.

Lemma check_pairs_sorted points :
  Sorted by_frequency points → check_pairs points = Ok () → StronglySorted below points.
Proof.
  intros Hs Hc. apply Sorted_StronglySorted; [apply below_trans|].
  induction Hs as [|a points Hs IH Hhd]; [constructor|]. destruct points as [|b points]; [repeat constructor|].
  cbn [check_pairs] in Hc. destruct (Z.eqb_spec (point_khz a) (point_khz b)); [done|].
  destruct (Z.ltb_spec (level b) (level a)); [done|]. apply HdRel_inv in Hhd. unfold by_frequency in Hhd.
  constructor; [by apply IH|]. constructor. split; lia.
Qed.

Lemma finalize_spec points max :
  Forall in_range points →
  ensures (λ r, r ≡ₚ points ∧ finalized max r) (finalize_operating_points points max).
Proof.
  intros Hr. unfold finalize_operating_points. case_bool_decide as Hnil; [done|].
  destruct (Z.leb_spec max (len points)) as [|Hmax]; [done|].
  pose proof (merge_sort_Permutation by_frequency points) as Hp.
  pose proof (Sorted_merge_sort by_frequency points) as Hs.
  destruct (check_pairs _) as [[]| |] eqn:Hc; cbn; [|done|].
  - split; [done|]. constructor; [|by apply check_pairs_sorted|by rewrite Hp].
    unfold len in *. rewrite Hp. destruct points; [done|]. cbn [length] in *. lia.
  - clear -Hc. induction (merge_sort by_frequency points) as [|a [|b l] IH]; [done..|].
    cbn [check_pairs] in Hc. repeat (case_match; try done).
Qed.

Section Trees.
Context {node : Type} `{Htree : DeviceTree node} `{!DeviceTreeLaws node}.

(** ** The search *)
Definition reaches : node → node → Prop := rtc (λ n m, m ∈ children n).

(** The answer of a search below the nodes of [stack]. *)
Definition found_below (phandle : Z) (stack : list node) (r : option node) : Prop :=
  match r with
  | Some m => node_phandle m = Some phandle ∧ ∃ n, n ∈ stack ∧ reaches n m
  | None => ∀ n m, n ∈ stack → reaches n m → node_phandle m ≠ Some phandle
  end.

Lemma stack_weight (n : node) (stack : list node) :
  (sum_list_with weight (rev (children n) ++ stack) < sum_list_with weight (n :: stack))%nat.
Proof.
  pose proof (weight_children n). rewrite sum_list_with_app, <- Permutation_rev. cbn. lia.
Qed.

Lemma find_on_stack_spec fuel phandle stack :
  (sum_list_with weight stack < fuel)%nat →
  ∃ r, find_on_stack fuel phandle stack = Ok r ∧ found_below phandle stack r.
Proof.
  revert stack. induction fuel as [|fuel IH]; intros stack Hf; [lia|]. destruct stack as [|n stack].
  { exists None. split; [done|]. intros ? ? []%elem_of_nil. }
  pose proof (stack_weight n stack) as Hw. cbn [find_on_stack]. case_bool_decide as Hp.
  { exists (Some n). split; [done|]. split; [done|]. exists n. split; [set_solver|apply rtc_refl]. }
  destruct (IH (rev (children n) ++ stack)) as (r & -> & Hr); [lia|]. exists r. split; [done|].
  destruct r as [m|]; cbn in *.
  - destruct Hr as (Hm & c & Hc & Hcm). split; [done|]. rewrite elem_of_app, <- Permutation_rev in Hc.
    destruct Hc as [Hc|Hc]; [|exists c; set_solver]. exists n. split; [set_solver|]. by eapply rtc_l.
  - intros c m Hc Hcm. apply elem_of_cons in Hc as [->|Hc].
    + destruct Hcm as [|n c m Hc Hcm]; [done|]. apply (Hr c); [|done]. rewrite elem_of_app, <- Permutation_rev. by left.
    + apply (Hr c); [|done]. rewrite elem_of_app. by right.
Qed.

(** ** One node *)

(** The point a child stands for by its properties. *)
Definition supported (supported_hardware : Z) (n : node) : bool :=
  match property n "opp-supported-hw" with
  | None => true
  | Some value => match be_u32 value with Some mask => negb (mask .& supported_hardware =? 0) | None => false end
  end.

Definition offered (supported_hardware : Z) (n : node) : option OperatingPoint :=
  if node_is_available n && supported supported_hardware n
  then Some (mk_point (default 0 (property n "opp-hz" ≫= be_u64) / 1000)
               (default 0 (property n "opp-level" ≫= be_u32)) (property n "opp-peak-kBps" ≫= be_u32))
  else None.

Lemma from_be_bytes_nonneg bytes : Forall u8 bytes → 0 ≤ from_be_bytes bytes.
Proof.
  intros Hb. unfold from_be_bytes.
  enough (∀ acc, 0 ≤ acc → 0 ≤ fold_left (λ acc b, acc * 256 + b) bytes acc) as H by by apply H.
  induction Hb as [|b bytes [] _ IH]; intros acc Hacc; [done|]. cbn. apply IH. lia.
Qed.

Lemma property_word_nonneg (n : node) name k v :
  property n name ≫= (λ value, from_be_bytes <$> get_range value 0 k) = Some v → 0 ≤ v.
Proof.
  intros (value & Hv & (bytes & Hb & ->)%fmap_Some)%bind_Some. apply from_be_bytes_nonneg.
  unfold get_range in Hb. case_match; [|done]. injection Hb as <-. unfold slice.
  apply Forall_take, Forall_drop. by eapply property_bytes.
Qed.

Lemma operating_point_spec (n : node) supported_hardware :
  ensures (λ p, p = offered supported_hardware n ∧ from_option in_range True p)
    (operating_point_from_node n supported_hardware).
Proof.
  unfold operating_point_from_node, offered. destruct (node_is_available n); [|done]. cbn [negb andb].
  apply ensures_bind. apply (ensures_mono (λ b, b = supported supported_hardware n)).
  { unfold supported. destruct (property n "opp-supported-hw") as [v|]; [|done]. by destruct (be_u32 v). }
  intros b ->. destruct (supported supported_hardware n); [|done]. cbn [negb].
  apply ensures_bind, ensures_ok_or. intros hz Hhz. pose proof (property_word_nonneg n _ 8 hz Hhz) as Hpos.
  destruct (Z.eqb_spec hz 0) as [|Hz]; [done|]. destruct (Z.eqb_spec (hz mod 1000) 0) as [Hmod|]; [|done]. cbn [negb orb].
  destruct (Z.ltb_spec U32_MAX (hz / 1000)); [done|]. apply ensures_bind, ensures_ok_or.
  intros l (l' & Hl & Hlt)%bind_Some. pose proof (property_word_nonneg n _ 4 l' Hl) as Hlpos.
  destruct (Z.ltb_spec l' 0x10000); [|done]. injection Hlt as ->.
  destruct (Z.eqb_spec l 0); [done|]. apply ensures_bind.
  apply (ensures_mono (λ k, k = property n "opp-peak-kBps" ≫= be_u32)).
  { destruct (property n "opp-peak-kBps") as [v|]; [|done]. cbn. by destruct (be_u32 v). }
  intros k ->. cbn. rewrite Hhz, Hl. cbn. split; [done|]. unfold in_range. cbn. zlia.
Qed.

(** ** The table *)
Lemma points_of_children supported_hardware (nodes : list node) :
  ensures (λ points, points = omap (offered supported_hardware) nodes ∧ Forall in_range points)
    (foldM (λ points child,
       let? point := operating_point_from_node child supported_hardware in
       Ok (points ++ option_list point)) [] nodes).
Proof.
  apply (ensures_foldM (λ pre points, points = omap (offered supported_hardware) pre ∧ Forall in_range points)); [done|].
  intros pre x suf points _ [-> Hr]. apply ensures_bind. eapply ensures_mono; [apply operating_point_spec|].
  intros p [-> Hp]. cbn. rewrite omap_app. cbn. destruct (offered supported_hardware x); cbn; rewrite ?app_nil_r; [|done].
  split; [done|]. apply Forall_app. auto.
Qed.

(** The operating points of a device.  For any finite device tree, reading
    them ends, and a table that is accepted is a permutation of the points of
    the available children, supported on this speed bin, of the node with the
    handle that the device names; their frequencies increase strictly, their
    voltage levels never fall and are not off, and their number leaves room
    for the off level. *)
Theorem operating_points_sound (fuel : nat) (root : node) (device : PlatformDevice) (supported_hardware max : Z) :
  (weight root < fuel)%nat →
  ensures (λ points, finalized max points ∧
      ∃ table value phandle, device.(device_property) "operating-points-v2" = Some value ∧
        be_u32 value = Some phandle ∧ phandle ≠ 0 ∧ node_phandle table = Some phandle ∧ reaches root table ∧
        points ≡ₚ omap (offered supported_hardware) (children table))
    (read_operating_points fuel (Some (Some root)) device supported_hardware max).
Proof.
  intros Hf. unfold read_operating_points. apply ensures_bind, ensures_ok_or. intros phandle Hh.
  apply bind_Some in Hh as (p & (value & Hv & Hp)%bind_Some & Hnz).
  destruct (Z.eqb_spec p 0) as [|Hne]; [done|]. injection Hnz as ->. cbn [ok_or bind find_node_by_phandle].
  destruct (find_on_stack_spec fuel phandle [root]) as (r & -> & Hr); [cbn; lia|]. cbn [bind].
  apply ensures_bind, ensures_ok_or. intros table ->. destruct Hr as (Ht & n & ->%list_elem_of_singleton & Hreach).
  apply ensures_bind. eapply ensures_mono; [apply points_of_children|]. intros points [-> Hr].
  eapply ensures_mono; [by apply finalize_spec|]. intros r [Hperm Hfin]. split; [done|]. by exists table, value, phandle.
Qed.
End Trees.
End OppFacts.
