(* ===== verification/Gmu.v ===== *)
(** * The GMU

    Model of [gmu.rs] and [firmware.rs]: votes and power tables, the bring-up
    of the power microcontroller, frequency changes and the forced shutdown.

    [A618Gmu] is the record of the same name; the mappings, clocks and DMA
    allocations it owns are represented by the addresses the code uses, and
    [writes] is the log of register writes with the window they go to.  Polled
    registers are functions of the number of the poll, as in [Hardware.v]; a
    computation that is still running when its fuel is spent is [None]. *)
From S2P Require Import Prelude Registers Hardware Hfi CmdDb Opp.

Module Gmu.
Import Hw GmuReg Hfi CmdDb Opp.

Definition GMU_IOVA_BASE : Z := 0x60000000.
Definition DEBUG_SIZE : Z := 0x4000.
Definition LOG_SIZE : Z := 0x4000.
Definition GMU_FIRMWARE_MAX_SIZE : Z := 0x8000.
Definition REGISTER_TIMEOUT_US : Z := 10000.
Definition OOB_GPU_SET_REQUEST : Z := 16.
Definition OOB_GPU_SET_ACK : Z := 24.
Definition OOB_BOOT_REQUEST : Z := 22.
Definition OOB_BOOT_ACK : Z := 30.
Definition OOB_DCVS_REQUEST : Z := 23.
Definition OOB_DCVS_ACK : Z := 31.
Definition RPMH_ENABLES : Z := 1 .| (1 << 4) .| (1 << 8) .| (1 << 9) .| (1 << 10) .| (1 << 11).

(** ** Votes and power tables *)

(** [iter().position(..)] *)
Fixpoint position {A} (p : A → bool) (l : list A) : option Z :=
  match l with
  | [] => None
  | x :: l => if p x then Some 0 else Z.succ <$> position p l
  end.

(** The loop over the secondary table. *)
Fixpoint secondary_position (level index best : Z) (secondary : list Z) : Z :=
  match secondary with
  | [] => best
  | value :: secondary =>
    if level <=? value then index
    else secondary_position level (index + 1) (if value =? 0 then best else index) secondary
  end.

Section Votes.
Context (db : option CommandDb).

Definition build_vote (level : Z) (primary_id secondary_id : string) : outcome string Z :=
  let? primary := ok_or (db ≫= λ d, read_aux_u16 d (str primary_id))
    "qcom-adreno-a618: Command DB primary ARC table is unavailable"%string in
  let? secondary := ok_or (db ≫= λ d, read_aux_u16 d (str secondary_id))
    "qcom-adreno-a618: Command DB secondary ARC table is unavailable"%string in
  let? primary_index := ok_or (position (λ value, level <=? value) primary)
    "qcom-adreno-a618: requested ARC level is unavailable"%string in
  let secondary_index := secondary_position level 0 0 secondary in
  if 0xff <? primary_index then Err "qcom-adreno-a618: primary ARC table is too large"%string
  else if 0xff <? secondary_index then Err "qcom-adreno-a618: secondary ARC table is too large"%string
  else
    let? value := Prelude.index primary primary_index in
    Ok ((value << 16) .| (secondary_index << 8) .| primary_index).

Definition build_hfi_levels (operating_points : list OperatingPoint) (primary_id : string) :
    outcome string (list HfiPerfLevel) :=
  let? off := build_vote 0 primary_id "mx.lvl" in
  let? levels := mapM (λ point,
    let? vote := build_vote point.(level) primary_id "mx.lvl" in
    Ok (mk_level vote point.(point_khz))) operating_points in
  Ok (mk_level off 0 :: levels).

Definition build_power_table (gpu gmu : list OperatingPoint) : outcome string HfiPowerTable :=
  let? gx_levels := build_hfi_levels gpu "gfx.lvl" in
  let? initial_gpu_index :=
    ok_or (checked_sub (len gx_levels) 1 ≫= λ i, if i =? 0 then None else Some i)
      "qcom-adreno-a618: GPU OPP table has no active level"%string in
  let? cx_levels := build_hfi_levels gmu "cx.lvl" in
  Ok (mk_power gx_levels cx_levels initial_gpu_index
        (foldr (λ k best, Some (match best with Some b => Z.max k b | None => k end)) None (omap point_kbps gpu))).
End Votes.

(** ** Firmware files *)
Record FirmwareFile := mk_file {
  vfs_ready : bool;
  is_file : option bool;
  file_size : option Z;
  file_read : Z → option (list Z);
}.

Fixpoint load_loop (fuel : nat) (file : FirmwareFile) (size offset : Z) (bytes : list Z) : option (outcome string (list Z)) :=
  match fuel with
  | O => None
  | S fuel =>
    if offset <? size then
      match file.(file_read) offset with
      | None => Some (Err "qcom-adreno-a618: firmware read failed"%string)
      | Some data =>
        if len data =? 0 then Some (Err "qcom-adreno-a618: firmware ended early"%string)
        else
          match checked_add U64_MAX offset (len data) with
          | None => Some (Err "qcom-adreno-a618: firmware read offset overflows"%string)
          | Some next => load_loop fuel file size next (list_inserts (Z.to_nat offset) data bytes)
          end
      end
    else Some (Ok bytes)
  end.

Definition load (fuel : nat) (file : FirmwareFile) (maximum_size : Z) : option (outcome string (list Z)) :=
  if negb file.(vfs_ready) then Some (Err "qcom-adreno-a618: VFS is not ready"%string)
  else
    match file.(is_file) with
    | None => Some (Err "qcom-adreno-a618: firmware file is unavailable"%string)
    | Some false => Some (Err "qcom-adreno-a618: firmware path is not a file"%string)
    | Some true =>
      match file.(file_size) with
      | None => Some (Err "qcom-adreno-a618: firmware metadata read failed"%string)
      | Some size =>
        if (size =? 0) || (maximum_size <? size) then Some (Err "qcom-adreno-a618: firmware size is invalid"%string)
        else load_loop fuel file size 0 (replicate (Z.to_nat size) 0)
      end
    end.

(** ** State *)
Record A618Gmu := mk_gmu {
  hfi : LegacyHfi;
  debug_addr : Z;
  log_addr : Z;
  gmu_operating_points : list OperatingPoint;
  power : option HfiPowerTable;
  current_gpu_index : option Z;
  ready : bool;
  active : bool;
  rsc_asleep : bool;
  writes : list (Window * Z * Z);
}.

Definition set_hfi (v : LegacyHfi) (g : A618Gmu) : A618Gmu :=
  mk_gmu v g.(debug_addr) g.(log_addr) g.(gmu_operating_points) g.(power) g.(current_gpu_index)
    g.(ready) g.(active) g.(rsc_asleep) g.(writes).
Definition set_power (v : option HfiPowerTable) (i : option Z) (g : A618Gmu) : A618Gmu :=
  mk_gmu g.(hfi) g.(debug_addr) g.(log_addr) g.(gmu_operating_points) v i
    g.(ready) g.(active) g.(rsc_asleep) g.(writes).
Definition set_flags (r a s : bool) (g : A618Gmu) : A618Gmu :=
  mk_gmu g.(hfi) g.(debug_addr) g.(log_addr) g.(gmu_operating_points) g.(power) g.(current_gpu_index)
    r a s g.(writes).
Definition set_writes (v : list (Window * Z * Z)) (g : A618Gmu) : A618Gmu :=
  mk_gmu g.(hfi) g.(debug_addr) g.(log_addr) g.(gmu_operating_points) g.(power) g.(current_gpu_index)
    g.(ready) g.(active) g.(rsc_asleep) v.

(** Computations on the GMU. *)
Definition gm (A : Type) : Type := A618Gmu → option (outcome string A * A618Gmu).

Definition ret {A} (a : A) : gm A := λ g, Some (Ok a, g).
Definition fail {A} (e : string) : gm A := λ g, Some (Err e, g).
Definition lift {A} (m : outcome string A) : gm A := λ g, Some (m, g).
Definition wait {A} (m : option (outcome string A)) : gm A := λ g, m ≫= λ r, Some (r, g).
Definition modify (f : A618Gmu → A618Gmu) : gm () := λ g, Some (Ok tt, f g).
Definition andThen {A B} (m : gm A) (f : A → gm B) : gm B := λ g,
  match m g with
  | Some (Ok a, g) => f a g
  | Some (Err e, g) => Some (Err e, g)
  | Some (Panic, g) => Some (Panic, g)
  | None => None
  end.
(** A closure whose result is looked at: [(|| ..)()]. *)
Definition attempt {A} (m : gm A) : gm (string + A) := λ g,
  match m g with
  | Some (Ok a, g) => Some (Ok (inr a), g)
  | Some (Err e, g) => Some (Ok (inl e), g)
  | Some (Panic, g) => Some (Panic, g)
  | None => None
  end.
Definition succeeds {A} (m : gm A) : gm bool :=
  andThen (attempt m) (λ r, ret (match r with inr _ => true | inl _ => false end)).

Notation "'run!' x ':=' m 'in' k" := (andThen m (λ x, k))
  (at level 10, x pattern, m at level 200, k at level 200,
   format "'[v' 'run!'  x  ':='  m  'in' '/' k ']'") : rust_scope.

(** ** Registers *)
Definition log (w : Window) (register value : Z) : gm () :=
  modify (λ g, set_writes (g.(writes) ++ [(w, register, value)]) g).

(** [registers.read]: the value is what the hardware answers. *)
Definition gmu_read (register value : Z) : gm Z :=
  run! _ := lift (gmu_resource_register register) in ret value.

Definition gmu_write (register value : Z) : gm () :=
  run! _ := lift (gmu_resource_register register) in log Gmu register value.

(** [old] is the value of the register. *)
Definition gmu_update (register clear set old : Z) : gm () :=
  run! value := gmu_read register old in
  gmu_write register ((value .&~ clear) .| set).

Fixpoint write_words (register : Z) (words : list Z) : gm () :=
  match words with
  | [] => ret tt
  | word :: words => run! _ := gmu_write register word in write_words (register + 1) words
  end.

Definition write_bulk (register : Z) (bytes : list Z) : gm () :=
  write_words register (bulk_words (length bytes) bytes).

Fixpoint write_all (w : Window) (l : list (Z * Z)) : gm () :=
  match l with
  | [] => ret tt
  | (register, value) :: l =>
    run! _ := match w with Gmu => gmu_write register value | _ => log w register value end in
    write_all w l
  end.

(** [Some false] when the time is up. *)
Fixpoint poll_until (timeout : Z) (fuel i : nat) (p : Poll) (predicate : Z → bool) : option bool :=
  match fuel with
  | O => None
  | S fuel =>
    let '(value, now) := p.(poll_read) i in
    if predicate value then Some true
    else if timeout <=? saturating_sub now p.(poll_start) then Some false
    else poll_until timeout fuel (S i) p predicate
  end.

Definition poll_or {A} (timeout : Z) (fuel : nat) (p : Poll) (predicate : Z → bool) (error : string) (k : gm A) : gm A :=
  λ g, match poll_until timeout fuel 0 p predicate with
       | Some true => k g
       | Some false => fail error g
       | None => None
       end.

Definition poll_register (fuel : nat) (p : Poll) (register : Z) (predicate : Z → bool) (error : string) : gm () :=
  run! _ := gmu_read register 0 in
  poll_or REGISTER_TIMEOUT_US fuel p predicate error (ret tt).

Definition poll_dword_register (fuel : nat) (p : Poll) (predicate : Z → bool) : gm () :=
  poll_or REGISTER_TIMEOUT_US fuel p predicate "qcom-adreno-a618: GMU power sequence timed out" (ret tt).

Definition clear_oob (acknowledgement : Z) : gm () := gmu_write GMU_HOST2GMU_INTR_SET (1 << acknowledgement).

Definition set_oob (fuel : nat) (p : Poll) (request acknowledgement : Z) : gm () :=
  run! _ := gmu_write GMU_HOST2GMU_INTR_SET (1 << request) in
  run! _ := gmu_read GMU_GMU2HOST_INTR_INFO 0 in
  poll_or REGISTER_TIMEOUT_US fuel p (λ info, negb (info .& (1 << acknowledgement) =? 0))
    "qcom-adreno-a618: GMU OOB acknowledgement timed out" (gmu_write GMU_GMU2HOST_INTR_CLR (1 << acknowledgement)).

(** ** Set-up *)
Definition write_pdc_command (message_base address_base data_base command message address data : Z) : list (Z * Z) :=
  let offset := command * 4 in
  [(message_base + offset, message); (address_base + offset, address); (data_base + offset, data)].

Definition initialize_rpmh : gm () :=
  run! _ := write_all Rscc
    ([(RSCC_RSC_STATUS0_DRV0, 1 << 24); (RSCC_PDC_SLAVE_ID_DRV0, 1)]
     ++ concat ((λ offset, [(RSCC_HIDDEN_TCS_CMD0_DATA + offset, 0); (RSCC_HIDDEN_TCS_CMD0_ADDR + offset, 0)]) <$> [0; 2; 4])
     ++ [(RSCC_OVERRIDE_START_ADDR, 0); (RSCC_PDC_SEQ_START_ADDR, 0x4520);
         (RSCC_PDC_MATCH_VALUE_LO, 0x4510); (RSCC_PDC_MATCH_VALUE_HI, 0x4514)]
     ++ zip ((λ i, RSCC_SEQ_MEM_0_DRV0 + i) <$> range 5) [0xa7a506a0; 0xa1e6a6e7; 0xa2e081e1; 0xe9a982e2; 0x0020e8a8]) in
  run! _ := write_all PdcSequence
    (zip ((λ i, PDC_GPU_SEQ_MEM_0 + i) <$> range 5) [0xfebea1e1; 0xa5a4a3a2; 0x8382a6e0; 0xbce3e284; 0x002081fc]) in
  write_all Pdc
    ([(PDC_GPU_TCS1_CMD_ENABLE_BANK, 7); (PDC_GPU_TCS1_CMD_WAIT_FOR_CMPL_BANK, 0); (PDC_GPU_TCS1_CONTROL, 0)]
     ++ write_pdc_command PDC_GPU_TCS1_CMD0_MSGID PDC_GPU_TCS1_CMD0_ADDR PDC_GPU_TCS1_CMD0_DATA 0 0x10108 0x30010 1
     ++ write_pdc_command PDC_GPU_TCS1_CMD0_MSGID PDC_GPU_TCS1_CMD0_ADDR PDC_GPU_TCS1_CMD0_DATA 1 0x10108 0x30000 0
     ++ write_pdc_command PDC_GPU_TCS1_CMD0_MSGID PDC_GPU_TCS1_CMD0_ADDR PDC_GPU_TCS1_CMD0_DATA 2 0x10108 0x30090 0
     ++ [(PDC_GPU_TCS3_CMD_ENABLE_BANK, 7); (PDC_GPU_TCS3_CMD_WAIT_FOR_CMPL_BANK, 0); (PDC_GPU_TCS3_CONTROL, 0)]
     ++ write_pdc_command PDC_GPU_TCS3_CMD0_MSGID PDC_GPU_TCS3_CMD0_ADDR PDC_GPU_TCS3_CMD0_DATA 0 0x10108 0x30010 2
     ++ write_pdc_command PDC_GPU_TCS3_CMD0_MSGID PDC_GPU_TCS3_CMD0_ADDR PDC_GPU_TCS3_CMD0_DATA 1 0x10108 0x30000 2
     ++ write_pdc_command PDC_GPU_TCS3_CMD0_MSGID PDC_GPU_TCS3_CMD0_ADDR PDC_GPU_TCS3_CMD0_DATA 2 0x10108 0x30090 3
     ++ [(PDC_GPU_SEQ_START_ADDR, 0); (PDC_GPU_ENABLE_PDC, 0x80000001)]).

(** [A618Gmu::new] once the four allocations are mapped at these addresses. *)
Definition gmu_new (dummy debug log_ hfi_ : Z) (points : list OperatingPoint) : option (outcome string () * A618Gmu) :=
  let empty h := mk_gmu h debug log_ points None None false false false [] in
  match hfi_new hfi_ with
  | Ok h =>
    if negb (dummy =? 0x60000000) || negb (debug =? 0x60001000) || negb (log_ =? 0x60005000) || negb (hfi_ =? 0x60009000)
    then Some (Err "qcom-adreno-a618: legacy GMU IOVA layout is not contiguous"%string, empty h)
    else initialize_rpmh (empty h)
  | Err e => Some (Err e, empty (mk_hfi [] 0 0 []))
  | Panic => Some (Panic, empty (mk_hfi [] 0 0 []))
  end.

Definition configure_gpu_operating_points (db : option CommandDb) (gpu_operating_points : list OperatingPoint) : gm () :=
  λ g,
    (if g.(active) || g.(ready) then fail "qcom-adreno-a618: cannot replace OPPs while the GMU is active"
     else
       run! power := lift (build_power_table db gpu_operating_points g.(gmu_operating_points)) in
       run! _ := lift (ok_or (power.(gx_levels) !! 1%nat) "qcom-adreno-a618: GPU OPP table has no active level"%string) in
       run! _ := lift (ok_or (last power.(gx_levels)) "qcom-adreno-a618: GPU OPP table is empty"%string) in
       modify (set_power (Some power) None)) g.

(** ** Shutdown *)

(** What the hardware answers: the old value of [GPU_CC_GX_GDSCR], the polls of
    the power domains, and what the firmware stored before it was stopped. *)
Record ShutdownEnv := mk_shutdown {
  sd_gdscr : Z; sd_sptp : Poll; sd_tcs0 : Poll; sd_tcs1 : Poll; sd_tcs2 : Poll; sd_tcs3 : Poll; sd_rsc : Poll;
  sd_fw : Firmware;
}.

Definition hfi_stop (fw : Firmware) : gm () := λ g,
  match stop fw g.(hfi) with
  | Ok h => Some (Ok tt, set_hfi h g)
  | Err e => Some (Err e, g)
  | Panic => Some (Panic, g)
  end.

(** The register sequence of [force_shutdown]: whether the SPTPRAC and the four
    TCS were seen idle, and whether the RSC was seen asleep. *)
Definition shutdown_sequence (fuel : nat) (env : ShutdownEnv) : gm (bool * bool) :=
  run! _ := gmu_write GMU_PWR_COL_KEEPALIVE 0 in
  run! _ := hfi_stop env.(sd_fw) in
  run! _ := write_all Gmu [(GMU_HFI_CTRL_INIT, 0); (GMU_AO_HOST_INTERRUPT_MASK, U32_MAX);
    (GMU_GMU2HOST_INTR_MASK, U32_MAX); (GMU_AO_HOST_INTERRUPT_CLR, U32_MAX);
    (GMU_GMU2HOST_INTR_CLR, U32_MAX); (GMU_POWER_COUNTER_ENABLE, 0)] in
  run! _ := gmu_update GPU_CC_GX_GDSCR 0 (1 << 11) env.(sd_gdscr) in
  run! _ := gmu_write GMU_GX_SPTPRAC_POWER_CONTROL 0x778001 in
  run! sptp := succeeds (poll_register fuel env.(sd_sptp) GMU_SPTPRAC_PWR_CLK_STATUS
    (λ value, negb (value .& 4 =? 0)) "qcom-adreno-a618: SPTPRAC power-off timed out") in
  run! tcs0 := succeeds (poll_dword_register fuel env.(sd_tcs0) (λ value, negb (value .& 1 =? 0))) in
  run! tcs1 := succeeds (poll_dword_register fuel env.(sd_tcs1) (λ value, negb (value .& 1 =? 0))) in
  run! tcs2 := succeeds (poll_dword_register fuel env.(sd_tcs2) (λ value, negb (value .& 1 =? 0))) in
  run! tcs3 := succeeds (poll_dword_register fuel env.(sd_tcs3) (λ value, negb (value .& 1 =? 0))) in
  run! _ := write_all Gmu [(GMU_AHB_FENCE_STATUS_CLR, 7); (GMU_AO_AHB_FENCE_CTRL, 0)] in
  run! _ := clear_oob OOB_GPU_SET_ACK in
  run! _ := clear_oob OOB_BOOT_ACK in
  run! _ := write_all Gmu [(GMU_CM3_SYSRESET, 1); (GMU_RSCC_CONTROL_REQ, 1)] in
  run! asleep := succeeds (poll_dword_register fuel env.(sd_rsc) (λ value, negb (value .& (1 << 16) =? 0))) in
  run! _ := gmu_write GMU_RSCC_CONTROL_REQ 0 in
  ret (sptp && tcs0 && tcs1 && tcs2 && tcs3, asleep).

Definition force_shutdown (fuel : nat) (env : ShutdownEnv) : gm () := λ g,
  if negb g.(active) then modify (λ g, set_flags false g.(active) g.(rsc_asleep) g) g
  else
    (run! (idle, asleep) := shutdown_sequence fuel env in
     run! _ := modify (λ g, set_flags false g.(active) g.(rsc_asleep) g) in
     if idle && asleep
     then modify (λ g, set_flags g.(ready) false asleep g)
     else fail "qcom-adreno-a618: GMU force-off did not quiesce all power domains") g.

(** [drop]: after a failure it waits for ever, so it does not return. *)
Definition drop_gmu (fuel : nat) (env : ShutdownEnv) : gm () := λ g,
  match force_shutdown fuel env g with
  | Some (Err _, _) => None
  | r => r
  end.

(** ** Frequencies *)
Record DcvsEnv := mk_dcvs { dc_ack : Poll; dc_return : Z }.

Definition set_performance_index (fuel : nat) (env : DcvsEnv) (index : Z) : gm () := λ g,
  (run! level_count := lift (ok_or ((λ p, len p.(gx_levels)) <$> g.(power))
     "qcom-adreno-a618: GPU OPP table was not configured"%string) in
   if (index =? 0) || (level_count <=? index) then fail "qcom-adreno-a618: GPU performance index is out of range"
   else if negb g.(active) then fail "qcom-adreno-a618: GMU is inactive during frequency change"
   else if U32_MAX <? index then fail "qcom-adreno-a618: GPU performance index exceeds register width"
   else
     run! _ := write_all Gmu [(GMU_DCVS_ACK_OPTION, 0); (GMU_DCVS_PERF_SETTING, (3 << 28) .| index);
       (GMU_DCVS_BW_SETTING, 0xff)] in
     run! _ := set_oob fuel env.(dc_ack) OOB_DCVS_REQUEST OOB_DCVS_ACK in
     run! _ := clear_oob OOB_DCVS_ACK in
     run! returned := gmu_read GMU_DCVS_RETURN env.(dc_return) in
     if negb (returned =? 0) then fail "qcom-adreno-a618: GMU rejected frequency vote"
     else modify (λ g, set_power g.(power) (Some index) g)) g.

Definition set_frequency_khz (fuel : nat) (env : DcvsEnv) (frequency : Z) : gm () := λ g,
  (run! index := lift (ok_or (g.(power) ≫= λ p,
     position (λ l, (l.(frequency_khz) =? frequency) && negb (frequency =? 0)) p.(gx_levels))
     "qcom-adreno-a618: frequency is not an available OPP"%string) in
   set_performance_index fuel env index) g.

Definition frequencies_khz (g : A618Gmu) : outcome string (list Z) :=
  let? p := ok_or g.(power) "qcom-adreno-a618: OPPs unavailable"%string in
  Ok (frequency_khz <$> drop 1 p.(gx_levels)).

(** [self.current_gpu_index.and_then(|index| ..gx_levels.get(index))] *)
Definition current_level (g : A618Gmu) : option HfiPerfLevel :=
  g.(current_gpu_index) ≫= λ i, g.(power) ≫= λ p, p.(gx_levels) !! Z.to_nat i.

Definition current_frequency_khz (g : A618Gmu) : outcome string Z :=
  if negb g.(ready) || negb g.(active) then Err "qcom-adreno-a618: GMU is not ready"%string
  else ok_or (frequency_khz <$> current_level g) "qcom-adreno-a618: current OPP is unknown"%string.

(** ** Bring-up *)
Record BringUpEnv := mk_bring_up {
  bu_wake_ack : Poll; bu_wake_busy : Poll;      (* wake_rsc *)
  bu_iommu : bool;                              (* restore_iommu().is_ok() *)
  bu_file : FirmwareFile;
  bu_rpmh : Z;                                  (* GMU_RPMH_CTRL *)
  bu_version : Z;                               (* GMU_CM3_DTCM_START + 0xff8 *)
  bu_init : Poll; bu_rail : Poll; bu_sptp : Poll; bu_hfi : Poll;
  bu_sends : list SendEnv;
  bu_dcvs : DcvsEnv;
  bu_counter : Z;                               (* GMU_POWER_COUNTER_SELECT_0 *)
  bu_stop : ShutdownEnv;
}.

Definition wake_rsc (fuel : nat) (env : BringUpEnv) : gm () := λ g,
  if negb g.(rsc_asleep) then Some (Ok tt, g)
  else
    (run! _ := gmu_write GMU_RSCC_CONTROL_REQ (1 << 1) in
     run! result := attempt
       (run! _ := poll_register fuel env.(bu_wake_ack) GMU_RSCC_CONTROL_ACK (λ value, negb (value .& (1 << 1) =? 0))
          "qcom-adreno-a618: GMU RSC wake acknowledgement timed out" in
        poll_or REGISTER_TIMEOUT_US fuel env.(bu_wake_busy) (λ value, value =? 0)
          "qcom-adreno-a618: GMU RSC wake sequence timed out" (ret tt)) in
     run! _ := gmu_write GMU_RSCC_CONTROL_REQ 0 in
     match result with
     | inl e => fail e
     | inr _ => modify (λ g, set_flags g.(ready) g.(active) false g)
     end) g.

Definition gmu_chip_id : Z :=
  let chip_id := 0x06010800 in
  (chip_id .& 0xffff0000) .| (as_u32 (chip_id << 4) .& 0xf000) .| (as_u32 (chip_id << 8) .& 0x0f00).

Definition configure_power (rpmh : Z) : gm () :=
  run! _ := write_all Gmu [(GMU_SYS_BUS_CONFIG, 1); (GMU_ICACHE_CONFIG, 1); (GMU_DCACHE_CONFIG, 1);
    (GMU_PWR_COL_INTER_FRAME_CTRL, 0x09c40400)] in
  gmu_update GMU_RPMH_CTRL 0 RPMH_ENABLES rpmh.

Definition start_cm3 (fuel : nat) (version : Z) (init : Poll) : gm () :=
  run! version := gmu_read (GMU_CM3_DTCM_START + 0xff8) version in
  let (mask, expected) := if version <=? 0x20010004 then (U32_MAX, 0xbabeface) else (0x1ff, 0x100) in
  run! _ := write_all Gmu [(GMU_CM3_SYSRESET, 1); (GMU_PWR_COL_CP_RESP, 0); (GMU_CM3_SYSRESET, 0)] in
  poll_register fuel init GMU_CM3_FW_INIT_RESULT (λ value, value .& mask =? expected)
    "qcom-adreno-a618: GMU firmware initialization timed out".

Definition enable_gfx_rail (fuel : nat) (rail : Poll) (vote : Z) : gm () :=
  run! _ := write_all Gmu [(GMU_BOOT_SLUMBER_OPTION, 0); (GMU_GX_VOTE_IDX, vote .& 0xff);
    (GMU_MX_VOTE_IDX, (vote >> 8) .& 0xff)] in
  set_oob fuel rail OOB_BOOT_REQUEST OOB_BOOT_ACK.

Definition enable_sptprac (fuel : nat) (sptp : Poll) : gm () :=
  run! _ := gmu_write GMU_GX_SPTPRAC_POWER_CONTROL 0x778000 in
  run! _ := gmu_read GMU_SPTPRAC_PWR_CLK_STATUS 0 in
  poll_or 100 fuel sptp (λ status, status .& 0x38 =? 0x28) "qcom-adreno-a618: SPTPRAC power-on timed out" (ret tt).

Definition start_hfi_transport (fuel : nat) (p : Poll) : gm () :=
  run! _ := gmu_write GMU_HFI_CTRL_INIT 1 in
  poll_register fuel p GMU_HFI_CTRL_STATUS (λ value, negb (value .& 1 =? 0))
    "qcom-adreno-a618: HFI transport failed to start".

(** [self.hfi.start_legacy_sequence(..)]; the queues write the same registers,
    so their log joins that of the GMU. *)
Definition start_hfi (fuel : nat) (envs : list SendEnv) (power : HfiPowerTable) : gm () := λ g,
  match start_legacy_sequence fuel envs (as_u32 g.(debug_addr)) (as_u32 DEBUG_SIZE) power g.(hfi) with
  | Some (r, h) =>
    Some (r, set_writes (g.(writes) ++ ((λ '(register, value), (Gmu, register, value)) <$> h.(hfi_mmio)))
               (set_hfi (mk_hfi h.(hfi_words) h.(hfi_iova) h.(hfi_sequence) []) g))
  | None => None
  end.

(** The closure of [ensure_ready]. *)
Definition boot_gmu (fuel : nat) (env : BringUpEnv) (power : HfiPowerTable) (firmware : list Z) (initial : HfiPerfLevel) :
    gm () := λ g,
  (run! _ := write_all Gmu [(GMU_AO_HOST_INTERRUPT_CLR, U32_MAX); (GMU_AO_HOST_INTERRUPT_MASK, U32_MAX);
     (GMU_GMU2HOST_INTR_CLR, U32_MAX); (GMU_GMU2HOST_INTR_MASK, U32_MAX); (GMU_GENERAL_7, 1)] in
   run! _ := write_bulk GMU_CM3_ITCM_START firmware in
   run! _ := write_all Gmu [(GMU_CM3_FW_INIT_RESULT, 0); (GMU_CM3_BOOT_CONFIG, 2);
     (GMU_HFI_QTBL_ADDR, g.(hfi).(hfi_iova)); (GMU_HFI_QTBL_INFO, 1);
     (GMU_AHB_FENCE_RANGE_0, (1 << 31) .| (0x0a << 18) .| 0x0a0); (GMU_CM3_CFG, 0x4052);
     (GMU_HFI_SFR_ADDR, gmu_chip_id);
     (GMU_PWR_COL_CP_MSG, as_u32 g.(log_addr) .| (as_u32 LOG_SIZE / 0x1000 - 1))] in
   run! _ := configure_power env.(bu_rpmh) in
   run! _ := start_cm3 fuel env.(bu_version) env.(bu_init) in
   run! _ := enable_gfx_rail fuel env.(bu_rail) initial.(vote) in
   run! _ := enable_sptprac fuel env.(bu_sptp) in
   run! _ := start_hfi_transport fuel env.(bu_hfi) in
   run! _ := start_hfi fuel env.(bu_sends) power in
   run! _ := set_performance_index fuel env.(bu_dcvs) power.(initial_gpu_index) in
   run! _ := gmu_update GMU_POWER_COUNTER_SELECT_0 0xff (1 << 5) env.(bu_counter) in
   gmu_write GMU_POWER_COUNTER_ENABLE 1) g.

Definition ensure_ready (fuel : nat) (env : BringUpEnv) : gm () := λ g,
  if g.(ready) then Some (Ok tt, g)
  else if g.(active) then Some (Err "qcom-adreno-a618: GMU is not quiesced after a prior failure"%string, g)
  else
    (run! _ := wake_rsc fuel env in
     run! _ := lift (require env.(bu_iommu) "qcom-adreno-a618: failed to restore GMU IOMMU"%string) in
     run! power := lift (ok_or g.(power) "qcom-adreno-a618: GPU OPP table was not configured"%string) in
     run! firmware := wait (load fuel env.(bu_file) GMU_FIRMWARE_MAX_SIZE) in
     run! initial := lift (ok_or (power.(gx_levels) !! Z.to_nat power.(initial_gpu_index))
       "qcom-adreno-a618: initial GPU OPP index is invalid"%string) in
     run! _ := modify (λ g, set_flags g.(ready) true g.(rsc_asleep) g) in
     run! boot := attempt (boot_gmu fuel env power firmware initial) in
     match boot with
     | inl error =>
       run! stopped := succeeds (force_shutdown fuel env.(bu_stop)) in
       if negb stopped then fail "qcom-adreno-a618: failed to quiesce GMU after bring-up error"
       else fail error
     | inr _ => modify (λ g, set_flags true g.(active) g.(rsc_asleep) g)
     end) g.

(** ** GPU boot votes *)
Definition begin_gpu_boot (fuel : nat) (p : Poll) : gm () := set_oob fuel p OOB_GPU_SET_REQUEST OOB_GPU_SET_ACK.
Definition finish_gpu_boot : gm () :=
  run! _ := clear_oob OOB_GPU_SET_ACK in clear_oob OOB_BOOT_ACK.
Definition finish_initial_boot_keep_gpu_on : gm () := clear_oob OOB_BOOT_ACK.
Definition release_gpu : gm () := clear_oob OOB_GPU_SET_ACK.
End Gmu.
