(* ===== verification/GmuTables.v ===== *)
(** * Properties of votes and power tables

    A vote names the lowest level of the command database that suffices; the
    table built from two lists of operating points is one the firmware
    interface accepts, entry for entry. *)
From S2P Require Import Prelude Registers Hardware Hfi HfiFacts CmdDb Opp Gmu.

Module GmuTables.
Import Hfi HfiFacts CmdDb Opp OppFacts Gmu.

(** ** Votes *)

(** [i] is the first place of [l] whose value reaches [level]. *)
Definition first_reaching (level : Z) (l : list Z) (i : Z) : Prop :=
  0 ≤ i ∧ (∃ v, l !! Z.to_nat i = Some v ∧ level ≤ v) ∧
  ∀ j v, (j < Z.to_nat i)%nat → l !! j = Some v → v < level.

Lemma position_first level l i :
  position (λ value, level <=? value) l = Some i → first_reaching level l i.
Proof.
  revert i. induction l as [|x l IH]; intros i Hi; [done|]. cbn in Hi. destruct (Z.leb_spec level x).
  - injection Hi as <-. split_and!; [done|by exists x|intros j v Hj; cbn in Hj; lia].
  - apply fmap_Some in Hi as (k & Hk & ->). destruct (IH k Hk) as (Hk0 & (v & Hv & Hle) & Hlt).
    split_and!; [lia| |].
    + exists v. replace (Z.to_nat (Z.succ k)) with (S (Z.to_nat k)) by lia. done.
    + intros [|j] w Hj Hw; [by injection Hw as <-|]. apply (Hlt j w); [lia|done].
Qed.

(** The place in the secondary table: the first that suffices, or else the last
    that is in use. *)
Definition secondary_place (level : Z) (l : list Z) (i : Z) : Prop :=
  first_reaching level l i ∨
  Forall (λ v, v < level) l ∧
    ((∃ v, l !! Z.to_nat i = Some v ∧ v ≠ 0 ∧ ∀ j w, (Z.to_nat i < j)%nat → l !! j = Some w → w = 0) ∨
     i = 0 ∧ Forall (λ v, v = 0) l).

Lemma secondary_position_from level suf pre best :
  Forall (λ v, v < level) pre → 0 ≤ best →
  ((∃ v, pre !! Z.to_nat best = Some v ∧ v ≠ 0 ∧ ∀ j w, (Z.to_nat best < j)%nat → pre !! j = Some w → w = 0) ∨
   best = 0 ∧ Forall (λ v, v = 0) pre) →
  0 ≤ secondary_position level (len pre) best suf ∧
  secondary_place level (pre ++ suf) (secondary_position level (len pre) best suf).
Proof.
  revert pre best. induction suf as [|x suf IH]; intros pre best Hpre Hb Hbest; cbn [secondary_position].
  { rewrite app_nil_r. split; [done|]. by right. }
  destruct (Z.leb_spec level x) as [Hx|Hx].
  - split; [unfold len; lia|]. left. unfold first_reaching, len. rewrite Nat2Z.id. split_and!; [lia| |].
    + exists x. by rewrite list_lookup_middle.
    + intros j v Hj Hv. rewrite lookup_app_l in Hv by done. rewrite Forall_lookup in Hpre. eauto.
  - replace (len pre + 1) with (len (pre ++ [x])) by (unfold len; rewrite length_app; cbn; lia).
    replace (pre ++ x :: suf) with ((pre ++ [x]) ++ suf) by by rewrite <- app_assoc.
    apply IH; [by apply Forall_app; split; [|constructor]|by destruct (x =? 0); [|unfold len; lia]|].
    destruct (Z.eqb_spec x 0) as [->|Hne].
    + destruct Hbest as [(v & Hv & Hvn & Hz)|[-> Hz]].
      * left. exists v. split_and!; [by apply lookup_app_l_Some|done|]. intros j w Hj [Hw|[_ Hw]]%lookup_app_Some; [eauto|].
        apply list_lookup_singleton_Some in Hw as [_ <-]. done.
      * right. split; [done|]. apply Forall_app. by split; [|constructor].
    + left. exists x. unfold len. rewrite Nat2Z.id. split_and!; [by rewrite list_lookup_middle|done|].
      intros j w Hj Hw. apply lookup_lt_Some in Hw. rewrite length_app in Hw. cbn in Hw. lia.
Qed.

Lemma secondary_position_place level l :
  0 ≤ secondary_position level 0 0 l ∧ secondary_place level l (secondary_position level 0 0 l).
Proof. apply (secondary_position_from level l [] 0); [done|done|]. by right. Qed.

(** What a vote for [level] means with the tables of a database. *)
Record vote_for (db : option CommandDb) (primary_id : string) (level vote : Z) : Prop := {
  vf_u32 : u32 vote;
  vf_tables : ∃ primary secondary,
    db ≫= (λ d, read_aux_u16 d (str primary_id)) = Some primary ∧
    db ≫= (λ d, read_aux_u16 d (str "mx.lvl")) = Some secondary ∧
    first_reaching level primary (vote .& 0xff) ∧
    primary !! Z.to_nat (vote .& 0xff) = Some (vote >> 16) ∧
    secondary_place level secondary ((vote >> 8) .& 0xff);
}.

Definition db_ok (db : option CommandDb) : Prop := ∀ d, db = Some d → Forall u8 d.(bytes).

Lemma read_u16_range d off v : Forall u8 d.(bytes) → read_u16 d off = Some v → u16 v.
Proof.
  intros Hb. unfold read_u16, read_u8. rewrite Forall_lookup in Hb.
  intros (next & _ & (a & (_ & _ & Ha)%bind_Some & (b & (_ & _ & Hb')%bind_Some & [= <-])%bind_Some)%bind_Some)%bind_Some.
  pose proof (Hb _ _ Ha). pose proof (Hb _ _ Hb'). unfold u8, u16 in *. lia.
Qed.

Lemma read_each_forall {A} (P : A → Prop) (read : Z → option A) start offsets l :
  (∀ a x, read a = Some x → P x) → read_each read start offsets = Some l → Forall P l.
Proof.
  intros HP. revert l. induction offsets as [|o offsets IH]; intros l Hl; [by injection Hl as <-|].
  cbn in Hl. apply bind_Some in Hl as (a & _ & (x & Hx & (xs & Hxs & [= <-])%bind_Some)%bind_Some).
  constructor; eauto.
Qed.

Lemma read_aux_u16_range db id l : db_ok db → db ≫= (λ d, read_aux_u16 d id) = Some l → Forall u16 l.
Proof.
  intros Hdb (d & Hd & Hl)%bind_Some. unfold read_aux_u16 in Hl. apply bind_Some in Hl as (e & _ & Hl).
  case_match; [done|]. eapply read_each_forall; [|exact Hl]. intros a x. apply read_u16_range. auto.
Qed.

Lemma vote_fields value s i :
  u16 value → 0 ≤ s ≤ 0xff → 0 ≤ i ≤ 0xff →
  let vote := (value << 16) .| (s << 8) .| i in
  u32 vote ∧ vote .& 0xff = i ∧ (vote >> 8) .& 0xff = s ∧ vote >> 16 = value.
Proof.
  intros Hv Hs Hi vote. assert (vote = i + s * 256 + value * 65536) as ->.
  { unfold vote. rewrite (Z.lor_comm (value << 16)), Z.lor_comm, Z.lor_assoc.
    change 256 with (2 ^ 8). change 65536 with (2 ^ 16). rewrite (lor_add_low i s 8), lor_add_low; lia. }
  rewrite !(land_mask _ 0xff 8), !Z.shiftr_div_pow2 by done. unfold u16, u32 in *.
  change (2 ^ 8) with 256. change (2 ^ 16) with 65536. split_and!; zlia.
Qed.

Lemma build_vote_spec db level primary_id :
  db_ok db → ensures (vote_for db primary_id level) (build_vote db level primary_id "mx.lvl").
Proof.
  intros Hdb. unfold build_vote. apply ensures_bind, ensures_ok_or. intros primary Hp.
  apply ensures_bind, ensures_ok_or. intros secondary Hs. apply ensures_bind, ensures_ok_or. intros i Hi.
  apply position_first in Hi as Hf. destruct (secondary_position_place level secondary) as [Hs0 Hplace].
  set (s := secondary_position level 0 0 secondary) in *.
  destruct (Z.ltb_spec 0xff i); [done|]. destruct (Z.ltb_spec 0xff s); [done|].
  destruct Hf as (Hi0 & (v & Hv & Hle) & Hlt). unfold Prelude.index. rewrite Hv. cbn.
  pose proof (read_aux_u16_range _ _ _ Hdb Hp) as Hu. rewrite Forall_lookup in Hu.
  destruct (vote_fields v s i (Hu _ _ Hv)) as (H1 & H2 & H3 & H4); [lia|lia|].
  constructor; [done|]. exists primary, secondary. rewrite H2, H3, H4. split_and!; try done.
  split_and!; [done|by exists v|done].
Qed.

(** ** Levels *)

(** A level that stands for an operating point. *)
Definition level_for (db : option CommandDb) (primary_id : string) (p : OperatingPoint) (l : HfiPerfLevel) : Prop :=
  l.(frequency_khz) = p.(point_khz) ∧ vote_for db primary_id p.(level) l.(vote).

Definition off_point : OperatingPoint := mk_point 0 0 None.

Lemma build_hfi_levels_spec db points primary_id :
  db_ok db →
  ensures (λ levels, Forall2 (level_for db primary_id) (off_point :: points) levels)
    (build_hfi_levels db points primary_id).
Proof.
  intros Hdb. unfold build_hfi_levels. apply ensures_bind. eapply ensures_mono; [by apply build_vote_spec|].
  intros off Hoff. apply ensures_bind. eapply ensures_mono; [apply (ensures_mapM (level_for db primary_id))|].
  { intros p _. apply ensures_bind. eapply ensures_mono; [by apply build_vote_spec|]. intros v Hv. by split. }
  intros levels Hl. cbn. constructor; [by split|done].
Qed.

Lemma levels_ascending db primary_id p points l levels :
  Forall2 (level_for db primary_id) (p :: points) (l :: levels) → StronglySorted below (p :: points) →
  ascending (l :: levels) = true.
Proof.
  revert p l levels. induction points as [|q points IH]; intros p l levels Hl Hs.
  { apply Forall2_cons in Hl as [_ ->%Forall2_nil_inv_l]. done. }
  apply Forall2_cons in Hl as [[Hp _] Hl]. destruct levels as [|m levels]; [by inversion Hl|].
  apply StronglySorted_inv in Hs as [Hs Hhd]. cbn [ascending]. apply andb_true_iff. split; [|by apply (IH q)].
  apply Forall_cons in Hhd as [[Hlt _] _]. apply Forall2_cons in Hl as [[Hq _] _]. apply Z.ltb_lt. lia.
Qed.

(** The off level may be prepended. *)
Lemma off_point_below max points : finalized max points → StronglySorted below (off_point :: points).
Proof.
  intros [_ Hs Hr]. constructor; [done|]. eapply Forall_impl; [exact Hr|]. intros p [? ?]. split; cbn; lia.
Qed.

Lemma levels_valid db primary_id max points levels :
  finalized max points → Forall2 (level_for db primary_id) (off_point :: points) levels →
  levels_are_valid levels max = true ∧ len levels = len points + 1.
Proof.
  intros Hfin Hl. pose proof (Forall2_length _ _ _ Hl) as Hlen. cbn in Hlen.
  destruct levels as [|l levels]; [by inversion Hl|]. pose proof (fp_count _ _ Hfin) as Hc.
  assert (len (l :: levels) = len points + 1) as Heq by (unfold len; rewrite <- Hlen; lia).
  split; [|done]. unfold levels_are_valid. rewrite !andb_true_iff. split_and!.
  - apply Z.leb_le. lia.
  - apply Forall2_cons in Hl as [[-> _] _]. done.
  - eapply levels_ascending; [exact Hl|by eapply off_point_below].
Qed.

(** ** The performance table message *)
Definition level_ok (l : HfiPerfLevel) : Prop := u32 l.(vote) ∧ u32 l.(frequency_khz).

Lemma put_levels_spec {E} levels message offset :
  0 ≤ offset → offset + 2 * len levels ≤ len message → Forall level_ok levels → Forall u32 message →
  ∃ message', put_levels (E:=E) message offset levels = Ok message' ∧ length message' = length message ∧
    Forall u32 message' ∧
    (∀ i l, levels !! i = Some l →
       message' !! Z.to_nat (offset + 2 * Z.of_nat i) = Some l.(vote) ∧
       message' !! Z.to_nat (offset + 2 * Z.of_nat i + 1) = Some l.(frequency_khz)) ∧
    ∀ j, (j < Z.to_nat offset ∨ Z.to_nat (offset + 2 * len levels) ≤ j)%nat → message' !! j = message !! j.
Proof.
  revert message offset. induction levels as [|l levels IH]; intros message offset Ho Hlen Hok Hu.
  { exists message. cbn. split_and!; try done. }
  apply Forall_cons in Hok as [[Hv Hf] Hok]. unfold len in *. cbn [length] in *. cbn [put_levels stores foldM].
  unfold store. cbn [fst snd]. unfold len.
  destruct (Z.leb_spec 0 offset); [|lia]. destruct (Z.ltb_spec offset (Z.of_nat (length message))); [|lia]. cbn [andb bind].
  rewrite length_insert. destruct (Z.leb_spec 0 (offset + 1)); [|lia].
  destruct (Z.ltb_spec (offset + 1) (Z.of_nat (length message))); [|lia]. cbn [andb bind].
  set (m1 := <[Z.to_nat (offset + 1) := _]> (<[Z.to_nat offset := _]> message)).
  assert (length m1 = length message) as Hm1 by (unfold m1; by rewrite !length_insert).
  destruct (IH m1 (offset + 2)) as (m2 & -> & Hl2 & Hu2 & Hin & Hout); [lia|rewrite Hm1; lia|done|by repeat apply Forall_insert|].
  exists m2. split_and!; [done|lia|done| |].
  - intros [|i] l' Hl'; [injection Hl' as <-|].
    + rewrite !Hout by lia. unfold m1. replace (offset + 2 * Z.of_nat 0) with offset by lia. split.
      * rewrite list_lookup_insert_ne by lia. apply list_lookup_insert_eq. lia.
      * apply list_lookup_insert_eq. rewrite length_insert. lia.
    + destruct (Hin i l' Hl') as [Hiv Hif]. split; [rewrite <- Hiv|rewrite <- Hif]; f_equal; lia.
  - intros j Hj. rewrite Hout by lia. unfold m1. by rewrite !list_lookup_insert_ne by lia.
Qed.
(** The message states the levels: their numbers, then vote and frequency of
    each in turn, sixteen for the GPU and four for the GMU. *)
Record message_for (gx cx : list HfiPerfLevel) (message : list Z) : Prop := {
  mf_length : len message = 43;
  mf_words : Forall u32 message;
  mf_counts : message !! 1%nat = Some (len gx) ∧ message !! 2%nat = Some (len cx);
  mf_gx i l : gx !! i = Some l →
    message !! (3 + 2 * i)%nat = Some l.(vote) ∧ message !! (4 + 2 * i)%nat = Some l.(frequency_khz);
  mf_cx i l : cx !! i = Some l →
    message !! (35 + 2 * i)%nat = Some l.(vote) ∧ message !! (36 + 2 * i)%nat = Some l.(frequency_khz);
}.

Lemma levels_valid_length levels max : levels_are_valid levels max = true → 1 ≤ len levels ≤ max.
Proof.
  unfold levels_are_valid. destruct levels as [|l levels]; [done|]. intros H. bool_to_prop.
  split; [unfold len; cbn; lia|done].
Qed.

Lemma performance_table_spec gx cx :
  levels_are_valid gx MAX_GPU_LEVELS = true → levels_are_valid cx MAX_GMU_LEVELS = true →
  Forall level_ok gx → Forall level_ok cx →
  ∃ message, performance_table gx cx = Ok message ∧ message_for gx cx message.
Proof.
  intros Hgx Hcx Hog Hoc. unfold performance_table. rewrite Hgx, Hcx. cbn [negb orb].
  apply levels_valid_length in Hgx, Hcx. unfold MAX_GPU_LEVELS, MAX_GMU_LEVELS in *.
  set (m0 := <[2%nat := len cx]> (<[1%nat := len gx]> (replicate 43 0))).
  change (stores _ _) with (Ok (E:=string) m0). cbn [bind]. assert (length m0 = 43%nat) as Hl0 by done.
  assert (Forall u32 m0) as Hu0.
  { unfold m0. repeat apply Forall_insert; [by apply Forall_replicate|unfold u32; lia..]. }
  destruct (put_levels_spec (E:=string) gx m0 3) as (m1 & -> & Hl1 & Hu1 & Hin1 & Hout1);
    [lia|unfold len in *; lia|done|done|]. cbn [bind].
  destruct (put_levels_spec (E:=string) cx m1 (3 + 16 * 2)) as (m2 & -> & Hl2 & Hu2 & Hin2 & Hout2);
    [lia|unfold len in *; lia|done|done|].
  exists m2. split; [done|]. constructor; [unfold len; lia|done| | |].
  - rewrite !Hout2, !Hout1 by (left; lia). done.
  - intros i l Hl. destruct (Hin1 i l Hl) as [Hv Hf]. pose proof (lookup_lt_Some _ _ _ Hl). unfold len in *.
    rewrite !Hout2 by lia. rewrite <- Hv, <- Hf. split; f_equal; lia.
  - intros i l Hl. destruct (Hin2 i l Hl) as [Hv Hf]. rewrite <- Hv, <- Hf. split; f_equal; lia.
Qed.

(** ** The interface between operating points and the firmware *)

(** What the GMU relies on in its table. *)
Record table_ok (p : HfiPowerTable) : Prop := {
  to_gx : levels_are_valid p.(gx_levels) MAX_GPU_LEVELS = true;
  to_cx : levels_are_valid p.(cx_levels) MAX_GMU_LEVELS = true;
  to_levels : Forall level_ok p.(gx_levels) ∧ Forall level_ok p.(cx_levels);
  to_initial : p.(initial_gpu_index) = len p.(gx_levels) - 1 ∧ 1 ≤ p.(initial_gpu_index);
}.

Lemma levels_ok db primary_id max points levels :
  finalized max points → Forall2 (level_for db primary_id) (off_point :: points) levels → Forall level_ok levels.
Proof.
  intros Hfin Hl. assert (Forall (λ p, 0 ≤ p.(point_khz) ≤ U32_MAX) (off_point :: points)) as Hr.
  { constructor; [done|]. eapply Forall_impl; [exact (fp_range _ _ Hfin)|]. intros p [? _]. lia. }
  revert Hr. induction Hl as [|p l points' levels' [Hk Hv] _ IH]; intros Hr; [done|].
  apply Forall_cons in Hr as [Hp Hr]. constructor; [|auto]. split; [apply Hv|]. rewrite Hk. unfold u32, U32_MAX in *. lia.
Qed.

Lemma build_power_table_spec db gpu gmu :
  db_ok db → finalized MAX_GPU_LEVELS gpu → finalized MAX_GMU_LEVELS gmu →
  ensures (λ t, table_ok t ∧ Forall2 (level_for db "gfx.lvl") (off_point :: gpu) t.(gx_levels) ∧
      Forall2 (level_for db "cx.lvl") (off_point :: gmu) t.(cx_levels)) (build_power_table db gpu gmu).
Proof.
  intros Hdb Hgpu Hgmu. unfold build_power_table. apply ensures_bind.
  eapply ensures_mono; [by apply build_hfi_levels_spec|]. intros gx Hgx. apply ensures_bind, ensures_ok_or.
  intros i Hi. apply bind_Some in Hi as (k & Hk & Hi). apply checked_sub_Some in Hk as [-> _].
  destruct (Z.eqb_spec (len gx - 1) 0) as [|Hne]; [done|]. injection Hi as <-. apply ensures_bind.
  eapply ensures_mono; [by apply build_hfi_levels_spec|]. intros cx Hcx. cbn.
  destruct (levels_valid _ _ _ _ _ Hgpu Hgx) as [Hvg Hlg]. destruct (levels_valid _ _ _ _ _ Hgmu Hcx) as [Hvc _].
  split; [|done]. constructor; cbn; [done|done| |].
  - split; [by eapply (levels_ok _ _ _ gpu)|by eapply (levels_ok _ _ _ gmu)].
  - split; [done|]. pose proof (fp_count _ _ Hgpu). lia.
Qed.

(** operating points reach the firmware.  From any two accepted lists of
    operating points and any command database, building the power table never
    panics, and a table that is built has one level per point after the off
    level, each with its frequency and with a vote for the first entry of the
    database that reaches its voltage; the firmware interface accepts it, the
    message holds exactly these levels, and the initial level is the fastest. *)
Theorem power_table_accepted (db : option CommandDb) (gpu gmu : list OperatingPoint) :
  db_ok db → finalized MAX_GPU_LEVELS gpu → finalized MAX_GMU_LEVELS gmu →
  ensures (λ t,
    Forall2 (level_for db "gfx.lvl") (off_point :: gpu) t.(gx_levels) ∧
    Forall2 (level_for db "cx.lvl") (off_point :: gmu) t.(cx_levels) ∧
    (∃ message, performance_table t.(gx_levels) t.(cx_levels) = Ok message ∧
       message_for t.(gx_levels) t.(cx_levels) message) ∧
    ∃ fastest l, last gpu = Some fastest ∧ t.(gx_levels) !! Z.to_nat t.(initial_gpu_index) = Some l ∧
      l.(frequency_khz) = fastest.(point_khz)) (build_power_table db gpu gmu).
Proof.
  intros Hdb Hgpu Hgmu. eapply ensures_mono; [by apply build_power_table_spec|]. intros t ([] & Hgx & Hcx).
  split_and!; [done|done|by apply performance_table_spec; naive_solver|].
  destruct to_initial0 as [-> Hpos]. pose proof (Forall2_length _ _ _ Hgx) as Hlen. cbn in Hlen.
  destruct (last gpu) as [fastest|] eqn:Hlast.
  2:{ apply last_None in Hlast as ->. pose proof (fp_count _ _ Hgpu) as Hc. unfold len in Hc. cbn in Hc. lia. }
  rewrite last_lookup in Hlast. unfold len in *.
  replace (Z.to_nat (Z.of_nat (length (gx_levels t)) - 1)) with (S (pred (length gpu))) by lia.
  destruct (Forall2_lookup_l _ _ _ (S (pred (length gpu))) fastest Hgx) as (l & Hl & Hk & _); [done|]. by exists fastest, l.
Qed.
End GmuTables.
