(* ===== verification/GmuFacts.v ===== *)
(** * Properties of the GMU

    Register sequences touch nothing but the registers and the queues; the
    flags, the power table and the acknowledged level of the GMU keep an
    invariant over every sequence of operations; no operation panics; and the
    forced shutdown ends and reports success only when every power domain was
    seen to be off. *)
From S2P Require Import Prelude Registers Hardware HardwareFacts Hfi HfiFacts CmdDb HfiSample.
From S2P Require Import Opp Gmu GmuTables.

Module GmuFacts.
Import Hw HwFacts GmuReg Hfi HfiFacts CmdDb Opp OppFacts Gmu GmuTables.

Definition hfi_ok (h : LegacyHfi) : Prop := memory_ok h.(hfi_words) ∧ 0 ≤ h.(hfi_sequence) ≤ 0xfff.

(** ** Quiet computations

    They change only the log of register writes, which grows, and the queues,
    which stay well formed; and they do not panic. *)
Record kept (g g' : A618Gmu) : Prop := {
  ke_power : g'.(power) = g.(power);
  ke_index : g'.(current_gpu_index) = g.(current_gpu_index);
  ke_ready : g'.(ready) = g.(ready);
  ke_active : g'.(active) = g.(active);
  ke_asleep : g'.(rsc_asleep) = g.(rsc_asleep);
  ke_points : g'.(gmu_operating_points) = g.(gmu_operating_points);
  ke_writes : g.(writes) `prefix_of` g'.(writes);
  ke_hfi : hfi_ok g.(hfi) → hfi_ok g'.(hfi);
}.

#[export] Instance kept_refl : Reflexive kept.
Proof. by constructor. Qed.
#[export] Instance kept_trans : Transitive kept.
Proof. intros g1 g2 g3 [] []. constructor; try congruence; [by etrans|auto]. Qed.

Definition ends {A} (Q : outcome string A → A618Gmu → Prop) (r : option (outcome string A * A618Gmu)) : Prop :=
  match r with Some (o, g) => o ≠ Panic ∧ Q o g | None => True end.

Definition quiet {A} (m : gm A) : Prop := ∀ g, hfi_ok g.(hfi) → ends (λ _, kept g) (m g).

Lemma quiet_ret {A} (a : A) : quiet (ret a).
Proof. by intros g. Qed.
Lemma quiet_fail {A} e : quiet (fail (A:=A) e).
Proof. by intros g. Qed.
Lemma quiet_lift {A} (m : outcome string A) : m ≠ Panic → quiet (lift m).
Proof. by intros Hm g. Qed.

Lemma quiet_bind {A B} (m : gm A) (f : A → gm B) : quiet m → (∀ a, quiet (f a)) → quiet (andThen m f).
Proof.
  intros Hm Hf g Hg. specialize (Hm g Hg). unfold andThen.
  destruct (m g) as [[[a|e|] g']|]; [|by destruct Hm|by destruct Hm|done].
  destruct Hm as [_ Hk]. specialize (Hf a g' (ke_hfi _ _ Hk Hg)). destruct (f a g') as [[r g'']|]; [|done].
  destruct Hf as [Hr Hk']. split; [done|]. by etrans.
Qed.

Lemma quiet_attempt {A} (m : gm A) : quiet m → quiet (attempt m).
Proof.
  intros Hm g Hg. specialize (Hm g Hg). unfold attempt.
  by destruct (m g) as [[[a|e|] g']|]; [destruct Hm..|].
Qed.

Lemma quiet_succeeds {A} (m : gm A) : quiet m → quiet (succeeds m).
Proof. intros Hm. apply quiet_bind; [by apply quiet_attempt|]. intros r. apply quiet_ret. Qed.

Lemma quiet_log w register value : quiet (log w register value).
Proof. intros g Hg. split; [done|]. constructor; try done. cbn. by apply prefix_app_r. Qed.

(** ** Registers *)
Definition mapped (register : Z) : bool :=
  (GMU_GPU_DWORD_BASE <=? register) && (register <? GMU_GPU_DWORD_BASE + GMU_RESOURCE_SIZE / 4).

Lemma mapped_register {E} register :
  mapped register = true → gmu_resource_register (E:=E) register = Ok (register - GMU_GPU_DWORD_BASE).
Proof.
  unfold mapped, gmu_resource_register, checked_sub. intros H. bool_to_prop.
  destruct (Z.leb_spec GMU_GPU_DWORD_BASE register); [|lia].
  by destruct (Z.ltb_spec (register - GMU_GPU_DWORD_BASE) (GMU_RESOURCE_SIZE / 4)); [|lia].
Qed.

Lemma quiet_read register value : mapped register = true → quiet (gmu_read register value).
Proof. intros H. apply quiet_bind; [apply quiet_lift; by rewrite mapped_register|]. intros _. apply quiet_ret. Qed.

Lemma quiet_write register value : mapped register = true → quiet (gmu_write register value).
Proof. intros H. apply quiet_bind; [apply quiet_lift; by rewrite mapped_register|]. intros _. apply quiet_log. Qed.

Lemma quiet_update register clear set old : mapped register = true → quiet (gmu_update register clear set old).
Proof. intros H. apply quiet_bind; [by apply quiet_read|]. intros v. by apply quiet_write. Qed.

Lemma quiet_write_words words register :
  mapped register = true → words = [] ∨ mapped (register + len words - 1) = true → quiet (write_words register words).
Proof.
  revert register. induction words as [|w words IH]; intros register Hr Hl; [apply quiet_ret|].
  apply quiet_bind; [by apply quiet_write|]. intros _. destruct Hl as [|Hl]; [done|].
  destruct words as [|w' words]; [apply quiet_ret|].
  unfold mapped, len in *. cbn [length] in *. bool_to_prop.
  apply IH; [|right]; apply andb_true_iff; split; (apply Z.leb_le || apply Z.ltb_lt); lia.
Qed.

Definition target_ok (w : Window) (p : Z * Z) : bool := match w with Gmu => mapped p.1 | _ => true end.

Lemma quiet_write_all w l : forallb (target_ok w) l = true → quiet (write_all w l).
Proof.
  induction l as [|[register value] l IH]; intros Hl; [apply quiet_ret|]. cbn in Hl. bool_to_prop.
  apply quiet_bind; [|by auto]. destruct w; [by apply quiet_write|apply quiet_log..].
Qed.

Lemma quiet_poll_or {A} timeout fuel p predicate error (k : gm A) :
  quiet k → quiet (poll_or timeout fuel p predicate error k).
Proof.
  intros Hk g Hg. unfold poll_or. destruct (poll_until timeout fuel 0 p predicate) as [[]|]; [by apply Hk|done|done].
Qed.

Lemma quiet_poll_register fuel p register predicate error :
  mapped register = true → quiet (poll_register fuel p register predicate error).
Proof. intros H. apply quiet_bind; [by apply quiet_read|]. intros _. apply quiet_poll_or, quiet_ret. Qed.

Lemma quiet_poll_dword fuel p predicate : quiet (poll_dword_register fuel p predicate).
Proof. apply quiet_poll_or, quiet_ret. Qed.

Create HintDb gmu.
#[export] Hint Resolve quiet_ret quiet_fail quiet_attempt quiet_succeeds quiet_read quiet_write quiet_update
  quiet_poll_or quiet_poll_register quiet_poll_dword : gmu.
#[export] Hint Resolve quiet_write_all | 1 : gmu.
#[export] Hint Extern 1 (mapped _ = true) => (vm_compute; reflexivity) : gmu.
#[export] Hint Extern 1 (forallb _ _ = true) => reflexivity : gmu.
#[export] Hint Extern 2 (quiet (andThen _ _)) => (apply quiet_bind; [|intros ?]) : gmu.
#[export] Hint Extern 1 (quiet (if ?b then _ else _)) => destruct b : gmu.

Lemma quiet_set_oob fuel p request acknowledgement : quiet (set_oob fuel p request acknowledgement).
Proof. unfold set_oob. auto with gmu. Qed.
Lemma quiet_clear_oob acknowledgement : quiet (clear_oob acknowledgement).
Proof. unfold clear_oob. auto with gmu. Qed.
#[export] Hint Resolve quiet_set_oob quiet_clear_oob : gmu.

Lemma quiet_initialize_rpmh : quiet initialize_rpmh.
Proof. unfold initialize_rpmh. auto with gmu. Qed.

Lemma quiet_hfi_stop fw : firmware_ok fw → quiet (hfi_stop fw).
Proof.
  intros Hfw g [Hm Hs]. unfold hfi_stop, stop.
  destruct (stores_ok (E:=string) (fw g.(hfi).(hfi_words))
    [(COMMAND_HEADER_WORD + Q_READ_INDEX, 0); (COMMAND_HEADER_WORD + Q_WRITE_INDEX, 0);
     (RESPONSE_HEADER_WORD + Q_READ_INDEX, 0); (RESPONSE_HEADER_WORD + Q_WRITE_INDEX, 0)]) as (words & -> & Hw);
    [by apply Hfw|by repeat constructor|]. cbn. split; [done|]. by constructor.
Qed.
(** ** The boot messages *)
Lemma send_all_safe fuel envs messages h r h' :
  hfi_ok h → Forall send_env_ok envs →
  Forall (λ '(id, m), u8 id ∧ ensures (Forall u32) m) messages →
  send_all fuel envs messages h = Some (r, h') → r ≠ Panic ∧ hfi_ok h'.
Proof.
  intros Hh He Hm. revert envs h Hh He. induction Hm as [|[id m] messages [Hid Hm] _ IH]; intros envs h Hh He H.
  { cbn in H. by injection H as <- <-. }
  cbn [send_all] in H. destruct m as [m|e|]; [|by injection H as <- <-|done]. destruct envs as [|env envs]; [done|].
  apply Forall_cons in He as [Henv He]. destruct (send fuel env id m h) as [[o h1]|] eqn:Hs; [|done].
  destruct Hh as [Hmem Hseq]. apply send_safe in Hs as [Hp Hm1 Hq _]; [|done..].
  assert (hfi_ok h1) as Hh1 by (split; [done|]; rewrite Hq; pose proof (advance_range _ Hseq); lia).
  destruct o; [by eapply IH|by injection H as <- <-|done].
Qed.

Lemma as_u32_range x : u32 (as_u32 x).
Proof. apply Z.mod_pos_bound. done. Qed.

Lemma boot_messages_ok debug_iova debug_size power :
  u32 debug_iova → u32 debug_size → table_ok power →
  Forall (λ '(id, m), u8 id ∧ ensures (Forall u32) m) (boot_messages debug_iova debug_size power).
Proof.
  intros Hi Hs [Hgx Hcx [Hog Hoc] _]. unfold boot_messages. destruct (performance_table_spec _ _ Hgx Hcx Hog Hoc) as (m & -> & [_ Hu _ _ _]).
  repeat (apply Forall_cons; split); try done; split; try done; cbn [ensures].
  - by repeat (apply Forall_cons; split).
  - by repeat (apply Forall_cons; split).
  - destruct bandwidth_table as [t|e|] eqn:Hb; vm_compute in Hb; [|done|done]. injection Hb as <-. cbn [ensures].
    by repeat (apply Forall_cons; split).
  - by repeat (apply Forall_cons; split).
Qed.

Lemma quiet_start_hfi fuel envs power : table_ok power → Forall send_env_ok envs → quiet (start_hfi fuel envs power).
Proof.
  intros Hp He g Hg. unfold start_hfi, start_legacy_sequence. destruct (send_all _ _ _ _) as [[r h]|] eqn:Hs; [|done].
  apply send_all_safe in Hs as [Hr Hh]; [|done|done|by apply boot_messages_ok; try apply as_u32_range].
  split; [done|]. constructor; try done. cbn. by apply prefix_app_r.
Qed.

(** ** The firmware image *)
Lemma load_loop_spec fuel file size offset bytes r :
  load_loop fuel file size offset bytes = Some r → ensures (λ b, length b = length bytes) r.
Proof.
  revert offset bytes. induction fuel as [|fuel IH]; intros offset bytes H; [done|]. cbn in H.
  destruct (offset <? size); [|by injection H as <-]. destruct (file_read file offset) as [data|]; [|by injection H as <-].
  destruct (len data =? 0); [by injection H as <-|]. destruct (checked_add _ _ _); [|by injection H as <-].
  apply IH in H. by rewrite length_inserts in H.
Qed.

Lemma load_spec fuel file max r : 0 ≤ max → load fuel file max = Some r → ensures (λ b, len b ≤ max) r.
Proof.
  intros Hmax. unfold load. destruct (negb _); [by intros [= <-]|]. destruct (is_file file) as [[]|]; [|by intros [= <-]..].
  destruct (file_size file) as [size|]; [|by intros [= <-]].
  destruct (_ || _) eqn:Hs; [by intros [= <-]|]. intros H%load_loop_spec. bool_to_prop. rewrite length_replicate in H.
  eapply ensures_mono; [exact H|]. cbn. intros b Hb. unfold len. rewrite Hb. lia.
Qed.

Lemma bulk_words_length fuel bytes : (4 * length (bulk_words fuel bytes) ≤ length bytes + 3)%nat.
Proof.
  revert bytes. induction fuel as [|fuel IH]; intros [|b bytes]; cbn [bulk_words length]; [lia..|].
  specialize (IH (drop 4 (b :: bytes))). rewrite length_drop in IH. cbn [length] in IH.
  destruct (decide (3 ≤ length bytes)%nat); [lia|]. rewrite drop_ge by (cbn; lia). destruct fuel; cbn; lia.
Qed.

Lemma quiet_write_bulk bytes : len bytes ≤ GMU_FIRMWARE_MAX_SIZE → quiet (write_bulk GMU_CM3_ITCM_START bytes).
Proof.
  intros Hb. unfold write_bulk. pose proof (bulk_words_length (length bytes) bytes) as Hl.
  destruct (decide (bulk_words (length bytes) bytes = [])) as [->|Hne]; [apply quiet_ret|].
  apply quiet_write_words; [done|]. right. set (words := bulk_words _ _) in *.
  assert (1 ≤ len words ≤ 0x2000).
  { unfold len, GMU_FIRMWARE_MAX_SIZE in *. destruct words; [done|]. cbn [length] in *. lia. }
  unfold mapped, GMU_CM3_ITCM_START, GMU_GPU_DWORD_BASE, GMU_RESOURCE_SIZE. change (0x31000 / 4) with 0xc400.
  apply andb_true_iff; split; (apply Z.leb_le || apply Z.ltb_lt); lia.
Qed.
(** ** Sequencing *)
Lemma ends_mono {A} (P Q : outcome string A → A618Gmu → Prop) r : ends P r → (∀ o g, P o g → Q o g) → ends Q r.
Proof. destruct r as [[o g]|]; [|done]. intros [Ho HP] H. split; [done|]. auto. Qed.

Lemma ends_bind {A B} (Q : outcome string B → A618Gmu → Prop) (m : gm A) (f : A → gm B) g :
  ends (λ o g', match o with Ok a => ends Q (f a g') | Err e => Q (Err e) g' | Panic => True end) (m g) →
  ends Q (andThen m f g).
Proof. unfold andThen. destruct (m g) as [[[a|e|] g']|]; [by intros [_ ?]|by intros [_ ?]|by intros [? _]|done]. Qed.

Lemma ends_quiet {A B} (Q : outcome string B → A618Gmu → Prop) (m : gm A) (f : A → gm B) g :
  quiet m → hfi_ok g.(hfi) → (∀ e g', kept g g' → Q (Err e) g') → (∀ a g', kept g g' → ends Q (f a g')) →
  ends Q (andThen m f g).
Proof.
  intros Hm Hg He Ha. apply ends_bind. eapply ends_mono; [by apply Hm|]. intros [a|e|] g' Hk; cbn; auto.
Qed.

Lemma ends_lift {A B} (Q : outcome string B → A618Gmu → Prop) (m : outcome string A) (f : A → gm B) g :
  m ≠ Panic → (∀ e, Q (Err e) g) → (∀ a, m = Ok a → ends Q (f a g)) → ends Q (andThen (lift m) f g).
Proof. intros Hm He Ha. apply ends_bind. split; [done|]. destruct m; [by apply Ha|by apply He|done]. Qed.

Lemma kept_set_power g g' p i : kept g g' → kept (set_power p i g) (set_power p i g').
Proof. intros []. by constructor. Qed.
Lemma kept_set_flags g g' r a s : kept g g' → kept (set_flags r a s g) (set_flags r a s g').
Proof. intros []. by constructor. Qed.

(** ** Frequency changes *)
Definition voted (index : Z) (g : A618Gmu) (o : outcome string ()) (g' : A618Gmu) : Prop :=
  match o with
  | Ok _ => kept (set_power g.(power) (Some index) g) g' ∧ g.(active) = true ∧
      ∃ p, g.(power) = Some p ∧ 1 ≤ index < len p.(gx_levels)
  | _ => kept g g'
  end.

Lemma set_performance_index_spec fuel env index g :
  hfi_ok g.(hfi) → 0 ≤ index → ends (voted index g) (set_performance_index fuel env index g).
Proof.
  intros Hg Hi. unfold set_performance_index. apply ends_lift; [by destruct (power g)|done|].
  intros count Hc. apply ok_or_Ok, fmap_Some in Hc as (p & Hp & ->).
  destruct (Z.eqb_spec index 0); [done|]. destruct (Z.leb_spec (len (gx_levels p)) index); [done|]. cbn [orb].
  destruct (active g) eqn:Ha; [|done]. cbn [negb]. destruct (Z.ltb_spec U32_MAX index); [done|].
  apply ends_quiet; [auto with gmu|done|done|]. intros _ g1 H1.
  apply ends_quiet; [auto with gmu|by apply H1|intros e g2 H2; exact (kept_trans _ _ _ H1 H2)|]. intros _ g2 H2.
  assert (kept g g2) as H12 by by etrans.
  apply ends_quiet; [auto with gmu|by apply H12|intros e g3 H3; exact (kept_trans _ _ _ H12 H3)|]. intros _ g3 H3.
  assert (kept g g3) as H13 by by etrans.
  apply ends_quiet; [auto with gmu|by apply H13|intros e g4 H4; exact (kept_trans _ _ _ H13 H4)|]. intros v g4 H4.
  assert (kept g g4) as H14 by by etrans.
  destruct (negb (v =? 0)); [done|]. split; [done|]. split_and!; [|done|exists p; split; [done|lia]].
  rewrite (ke_power _ _ H14). by apply kept_set_power.
Qed.

Lemma position_spec {A} (p : A → bool) l i :
  position p l = Some i → 0 ≤ i ∧ ∃ x, l !! Z.to_nat i = Some x ∧ p x = true.
Proof.
  revert i. induction l as [|x l IH]; intros i H; [done|]. cbn in H. destruct (p x) eqn:Hp.
  - injection H as <-. split; [done|]. by exists x.
  - apply fmap_Some in H as (k & (Hk & y & Hy & Hpy)%IH & ->). split; [lia|]. exists y.
    by replace (Z.to_nat (Z.succ k)) with (S (Z.to_nat k)) by lia.
Qed.

Lemma set_frequency_spec fuel env frequency g :
  hfi_ok g.(hfi) →
  ends (λ o g', (∃ i l p, voted i g o g' ∧ g.(power) = Some p ∧ p.(gx_levels) !! Z.to_nat i = Some l ∧
                   l.(frequency_khz) = frequency) ∨ kept g g' ∧ o ≠ Ok ()) (set_frequency_khz fuel env frequency g).
Proof.
  intros Hg. unfold set_frequency_khz. apply ends_lift; [by destruct (_ ≫= _)|by right|].
  intros i Hi. apply ok_or_Ok, bind_Some in Hi as (p & Hp & (Hi & l & Hl & Hf)%position_spec). bool_to_prop.
  eapply ends_mono; [by apply set_performance_index_spec|]. intros o g' Hv. left. by exists i, l, p.
Qed.

(** ** Shutdown *)
Definition stopped (g : A618Gmu) (o : outcome string ()) (g' : A618Gmu) : Prop :=
  match o with
  | Ok _ => kept (set_flags false false (g.(active) || g.(rsc_asleep)) g) g'
  | _ => g.(active) = true ∧ kept (set_flags false true g.(rsc_asleep) g) g'
  end.
Record shutdown_env_ok (env : ShutdownEnv) : Prop := { sv_fw : firmware_ok env.(sd_fw) }.

(** The steps of the sequence cannot fail: what they return depends only on
    what is polled. *)
Definition settled {A} (m : gm A) (v : option A) : Prop := ∀ g, hfi_ok g.(hfi) →
  match v with Some a => ∃ g', m g = Some (Ok a, g') ∧ kept g g' | None => m g = None end.

Lemma settled_bind {A B} (m : gm A) (f : A → gm B) v w :
  settled m v → (∀ a, settled (f a) (w a)) → settled (andThen m f) (v ≫= w).
Proof.
  intros Hm Hf g Hg. specialize (Hm g Hg). unfold andThen. destruct v as [a|]; cbn; [|by rewrite Hm].
  destruct Hm as (g' & -> & Hk). specialize (Hf a g' (ke_hfi _ _ Hk Hg)). destruct (w a) as [b|]; [|done].
  destruct Hf as (g'' & -> & Hk'). exists g''. split; [done|]. by etrans.
Qed.

Lemma settled_then {A B} (m : gm A) (k : gm B) a w :
  settled m (Some a) → settled k w → settled (andThen m (λ _, k)) w.
Proof. intros Hm Hk. by apply (settled_bind m (λ _, k) (Some a) (λ _, w)). Qed.

Lemma settled_ret {A} (a : A) : settled (ret a) (Some a).
Proof. intros g _. by exists g. Qed.

Lemma settled_write register value : mapped register = true → settled (gmu_write register value) (Some tt).
Proof.
  intros H g Hg. pose proof (quiet_write register value H g Hg) as Hq. unfold gmu_write, andThen, lift in *.
  rewrite mapped_register in * by done. eexists. split; [done|]. apply Hq.
Qed.

Lemma settled_update register clear set old : mapped register = true → settled (gmu_update register clear set old) (Some tt).
Proof.
  intros H g Hg. pose proof (quiet_update register clear set old H g Hg) as Hq. unfold gmu_update, gmu_write, gmu_read, andThen, lift in *.
  rewrite mapped_register in * by done. eexists. split; [done|]. apply Hq.
Qed.

Lemma settled_write_all l : forallb (target_ok Gmu) l = true → settled (write_all Gmu l) (Some tt).
Proof.
  induction l as [|[register value] l IH]; intros Hl; [apply settled_ret|]. cbn in Hl. bool_to_prop.
  eapply settled_then; [by apply settled_write|auto].
Qed.

Lemma settled_hfi_stop fw : firmware_ok fw → settled (hfi_stop fw) (Some tt).
Proof.
  intros Hfw g Hg. pose proof (quiet_hfi_stop fw Hfw g Hg) as Hq. unfold hfi_stop, stop in *.
  destruct (stores _ _) as [w|e|] eqn:Hs; [|by apply stores_no_error in Hs|by destruct Hq]. eexists. split; [done|]. apply Hq.
Qed.

Lemma settled_poll fuel p predicate error :
  settled (succeeds (poll_or REGISTER_TIMEOUT_US fuel p predicate error (ret tt))) (poll_until REGISTER_TIMEOUT_US fuel 0 p predicate).
Proof.
  intros g Hg. unfold succeeds, attempt, andThen, poll_or. by destruct (poll_until _ _ _ _ _) as [[]|]; [exists g..|].
Qed.

Lemma settled_poll_register fuel p register predicate error :
  mapped register = true →
  settled (succeeds (poll_register fuel p register predicate error)) (poll_until REGISTER_TIMEOUT_US fuel 0 p predicate).
Proof.
  intros Hr g Hg. pose proof (settled_poll fuel p predicate error g Hg) as H.
  unfold succeeds, attempt, poll_register, gmu_read, andThen, lift, ret in *. by rewrite mapped_register.
Qed.

(** What the polls of a shutdown see. *)
Definition observed (fuel : nat) (p : Poll) (mask : Z) : option bool :=
  poll_until REGISTER_TIMEOUT_US fuel 0 p (λ value, negb (value .& mask =? 0)).

Definition domains (fuel : nat) (env : ShutdownEnv) : option (bool * bool) :=
  observed fuel env.(sd_sptp) 4 ≫= λ sptp, observed fuel env.(sd_tcs0) 1 ≫= λ tcs0,
  observed fuel env.(sd_tcs1) 1 ≫= λ tcs1, observed fuel env.(sd_tcs2) 1 ≫= λ tcs2,
  observed fuel env.(sd_tcs3) 1 ≫= λ tcs3, observed fuel env.(sd_rsc) (1 << 16) ≫= λ asleep,
  Some (sptp && tcs0 && tcs1 && tcs2 && tcs3, asleep).

Lemma settled_shutdown fuel env : shutdown_env_ok env → settled (shutdown_sequence fuel env) (domains fuel env).
Proof.
  intros [Hfw]. unfold shutdown_sequence, domains.
  eapply settled_then; [by apply settled_write|]. eapply settled_then; [by apply settled_hfi_stop|].
  eapply settled_then; [by apply settled_write_all|]. eapply settled_then; [by apply settled_update|].
  eapply settled_then; [by apply settled_write|]. eapply settled_bind; [by apply settled_poll_register|]. intros sptp.
  do 4 (eapply settled_bind; [apply settled_poll|]; intros ?).
  eapply settled_then; [by apply settled_write_all|]. do 2 (eapply settled_then; [by apply settled_write|]).
  eapply settled_then; [by apply settled_write_all|]. eapply settled_bind; [apply settled_poll|]. intros asleep.
  eapply settled_then; [by apply settled_write|]. apply settled_ret.
Qed.

(** The result of a forced shutdown. *)
Lemma force_shutdown_result fuel env g :
  hfi_ok g.(hfi) → shutdown_env_ok env →
  if negb g.(active) then force_shutdown fuel env g = Some (Ok (), set_flags false false g.(rsc_asleep) g)
  else match domains fuel env with
       | None => force_shutdown fuel env g = None
       | Some (idle, asleep) => ∃ o g', force_shutdown fuel env g = Some (o, g') ∧ o ≠ Panic ∧
           (o = Ok () ↔ idle && asleep = true) ∧ stopped g o g'
       end.
Proof.
  intros Hg He. unfold force_shutdown. destruct (active g) eqn:Ha; cbn [negb]; [|by rewrite <- Ha at 2].
  pose proof (settled_shutdown fuel env He g Hg) as Hs. unfold andThen.
  destruct (domains fuel env) as [[idle asleep]|]; [|by rewrite Hs]. destruct Hs as (g1 & -> & Hk). cbn.
  destruct (idle && asleep) eqn:Hb; eexists _, _; (split; [done|]); split_and!; try done.
  - bool_to_prop. subst. unfold stopped. rewrite Ha. cbn. by apply (kept_set_flags g g1).
  - split; [done|]. pose proof (ke_active _ _ Hk) as Hka. pose proof (ke_asleep _ _ Hk) as Hks. rewrite Ha in Hka.
    rewrite Hka, Hks. by apply kept_set_flags.
Qed.

Lemma force_shutdown_spec fuel env g :
  hfi_ok g.(hfi) → shutdown_env_ok env → ends (stopped g) (force_shutdown fuel env g).
Proof.
  intros Hg He. pose proof (force_shutdown_result fuel env g Hg He) as H. destruct (active g) eqn:Ha; cbn [negb] in H.
  - destruct (domains fuel env) as [[]|]; [|by rewrite H]. destruct H as (o & g' & -> & Hp & _ & Hs). done.
  - rewrite H. split; [done|]. unfold stopped. rewrite Ha. done.
Qed.
(** ** Bring-up *)
Record bring_up_env_ok (env : BringUpEnv) : Prop := {
  bo_sends : Forall send_env_ok env.(bu_sends);
  bo_stop : shutdown_env_ok env.(bu_stop);
}.

Lemma ends_settled {A B} (Q : outcome string B → A618Gmu → Prop) (m : gm A) (f : A → gm B) g a :
  settled m (Some a) → hfi_ok g.(hfi) → (∀ g', kept g g' → ends Q (f a g')) → ends Q (andThen m f g).
Proof. intros Hm Hg Hf. apply ends_bind. destruct (Hm g Hg) as (g' & -> & Hk). split; [done|]. by apply Hf. Qed.

Lemma ends_succeeds {A} (P : outcome string A → A618Gmu → Prop) (m : gm A) g :
  ends P (m g) →
  ends (λ o g', match o with
                | Ok true => ∃ a, P (Ok a) g'
                | Ok false => ∃ e, P (Err e) g'
                | _ => False
                end) (succeeds m g).
Proof.
  unfold succeeds, andThen, attempt, ret. destruct (m g) as [[[a|e|] g']|]; [| |by intros []|done]; intros [_ H]; (split; [done|]); eauto.
Qed.

Definition woken (g : A618Gmu) (o : outcome string ()) (g' : A618Gmu) : Prop :=
  match o with Ok _ => kept (set_flags g.(ready) g.(active) false g) g' | _ => kept g g' end.

Lemma wake_rsc_spec fuel env g : hfi_ok g.(hfi) → ends (woken g) (wake_rsc fuel env g).
Proof.
  intros Hg. unfold wake_rsc. destruct (rsc_asleep g) eqn:Ha; cbn [negb].
  2:{ split; [done|]. cbn. by constructor. }
  eapply ends_settled; [by apply settled_write|done|]. intros g1 H1.
  apply ends_quiet; [auto 10 with gmu|by apply H1|intros e g2 H2; exact (kept_trans _ _ _ H1 H2)|]. intros r g2 H2.
  assert (kept g g2) as H12 by by etrans.
  eapply ends_settled; [by apply settled_write|by apply H12|]. intros g3 H3. assert (kept g g3) as H13 by by etrans.
  destruct r as [e|[]]; [done|]. split; [done|]. cbn. rewrite (ke_ready _ _ H13), (ke_active _ _ H13). by apply kept_set_flags.
Qed.

(** What the closure of the bring-up does. *)
Definition booted (power : HfiPowerTable) (g : A618Gmu) (o : outcome string ()) (g' : A618Gmu) : Prop :=
  match o with Ok _ => kept (set_power (Some power) (Some power.(initial_gpu_index)) g) g' | _ => kept g g' end.

Lemma boot_gmu_spec fuel env p firmware initial g :
  hfi_ok g.(hfi) → g.(power) = Some p → table_ok p → len firmware ≤ GMU_FIRMWARE_MAX_SIZE → bring_up_env_ok env →
  ends (booted p g) (boot_gmu fuel env p firmware initial g).
Proof.
  intros Hg Hp Ht Hf [Hsends _]. unfold boot_gmu.
  assert (∀ {B} (m : gm ()) (f : () → gm B) Q g1, quiet m → kept g g1 → (∀ e g', kept g g' → Q (Err e) g') →
    (∀ g', kept g g' → ends Q (f tt g')) → ends Q (andThen m f g1)) as step.
  { intros B m f Q g1 Hm H1 He Hk. apply ends_quiet; [done|by apply H1|intros e g' H'; apply He; by etrans|].
    intros [] g' H'. apply Hk. by etrans. }
  apply step; [auto with gmu|done|done|]. intros g1 H1.
  apply step; [by apply quiet_write_bulk|done|done|]. intros g2 H2.
  apply step; [auto with gmu|done|done|]. intros g3 H3.
  apply step; [unfold configure_power; auto with gmu|done|done|]. intros g4 H4.
  apply step; [unfold start_cm3; apply quiet_bind; [auto with gmu|intros v; destruct (v <=? _); auto with gmu]|done|done|]. intros g5 H5.
  apply step; [unfold enable_gfx_rail; auto with gmu|done|done|]. intros g6 H6.
  apply step; [unfold enable_sptprac; auto with gmu|done|done|]. intros g7 H7.
  apply step; [unfold start_hfi_transport; auto with gmu|done|done|]. intros g8 H8.
  apply step; [by apply quiet_start_hfi|done|done|]. intros g9 H9.
  apply ends_bind. eapply ends_mono; [apply set_performance_index_spec; [by apply H9|destruct Ht; lia]|].
  intros [[]|e|] g10 H10; [|exact (kept_trans _ _ _ H9 H10)|done]. destruct H10 as (H10 & _ & _).
  assert (kept (set_power (Some p) (Some (initial_gpu_index p)) g) g10) as Hk.
  { etrans; [by apply (kept_set_power g g9)|]. by rewrite (ke_power _ _ H9), Hp in H10. }
  eapply ends_settled; [by apply settled_update|by apply Hk|]. intros g11 H11.
  destruct (settled_write GMU_POWER_COUNTER_ENABLE 1 eq_refl g11) as (g12 & -> & H12); [by apply H11, Hk|].
  split; [done|]. cbn. by do 2 (etrans; [done|]).
Qed.

(** The result of [ensure_ready]. *)
Definition quiesce_error : string := "qcom-adreno-a618: failed to quiesce GMU after bring-up error".

Definition brought_up (g : A618Gmu) (o : outcome string ()) (g' : A618Gmu) : Prop :=
  match o with
  | Ok _ => g.(ready) = true ∧ g' = g ∨
      ∃ p, g.(power) = Some p ∧ g.(active) = false ∧
        kept (set_flags true true false (set_power (Some p) (Some p.(initial_gpu_index)) g)) g'
  | Err e => g.(ready) = false ∧
      (g.(active) = true ∧ g' = g ∨
       g.(active) = false ∧ ∃ a s, kept (set_flags false a s g) g' ∧
         (a = true → e = quiesce_error ∧ s = false ∧ g.(power) ≠ None))
  | Panic => False
  end.

Lemma ensure_ready_spec fuel env g :
  hfi_ok g.(hfi) → (∀ p, g.(power) = Some p → table_ok p) → bring_up_env_ok env →
  ends (brought_up g) (ensure_ready fuel env g).
Proof.
  intros Hg Ht He. unfold ensure_ready. destruct (ready g) eqn:Hr; [by split; [|left]|].
  destruct (active g) eqn:Ha; [split; [done|]; split; [done|by left]|].
  assert (∀ g1 e s, kept (set_flags false false s g) g1 → brought_up g (Err e) g1) as Hearly.
  { intros g1 e s Hk. split; [done|]. right. split; [done|]. by exists false, s. }
  apply ends_bind. eapply ends_mono; [by apply wake_rsc_spec|]. intros [[]|e|] g1 H1; cbn in H1; rewrite ?Hr, ?Ha in H1; [| |done].
  2:{ apply (Hearly _ _ (rsc_asleep g)). etrans; [|done]. by constructor. }
  apply ends_lift; [by destruct (bu_iommu env)|intros e; by eapply Hearly|]. intros _ _.
  apply ends_lift; [by destruct (power g)|intros e; by eapply Hearly|]. intros p Hp%ok_or_Ok.
  apply ends_bind. destruct (load fuel (bu_file env) GMU_FIRMWARE_MAX_SIZE) as [r|] eqn:Hl; [|done].
  apply load_spec in Hl; [|done]. change (wait (Some r) g1) with (Some (r, g1)). destruct r as [firmware|e|]; [split; [done|]|split; [done|by eapply Hearly]|done].
  apply ends_lift; [by destruct (_ !! _)|intros e; by eapply Hearly|]. intros initial _.
  apply ends_bind. split; [done|]. set (g2 := set_flags _ true _ g1).
  assert (kept (set_flags false true false g) g2) as H2 by by destruct H1; constructor.
  assert (hfi_ok g2.(hfi)) as Hg2 by (by apply (ke_hfi _ _ H2)).
  pose proof (boot_gmu_spec fuel env p firmware initial g2 Hg2) as Hboot.
  rewrite (ke_power _ _ H2) in Hboot. specialize (Hboot Hp (Ht _ Hp) Hl He).
  apply ends_bind. unfold attempt. destruct (boot_gmu _ _ _ _ _ _) as [[[[]|e|] g3]|]; [| |by destruct Hboot|done].
  - destruct Hboot as [_ H3]. split; [done|]. split; [done|]. right. exists p. split_and!; [done..|].
    cbn in H3. assert (kept (set_flags false true false (set_power (Some p) (Some (initial_gpu_index p)) g)) g3) as H23.
    { etrans; [|exact H3]. by apply (kept_set_power _ _ (Some p) (Some (initial_gpu_index p))) in H2. }
    cbn. rewrite (ke_active _ _ H23), (ke_asleep _ _ H23). by apply (kept_set_flags _ _ true true false) in H23.
  - destruct Hboot as [_ H3]. split; [done|]. assert (kept (set_flags false true false g) g3) as H23 by by etrans.
    apply ends_bind. eapply ends_mono; [apply ends_succeeds, force_shutdown_spec; [by apply (ke_hfi _ _ H23)|apply He]|].
    intros [[]|e'|] g4 H4; [| |done|done]; destruct H4 as [x Hs]; (split; [done|]).
    + apply (Hearly _ _ true). etrans; [|exact Hs]. rewrite (ke_active _ _ H23).
      by apply (kept_set_flags _ _ false false true) in H23.
    + split; [done|]. right. split; [done|]. exists true, false.
      split; [|intros _; split_and!; [done..|by rewrite Hp]]. destruct Hs as [_ Hs]. etrans; [|exact Hs].
      rewrite (ke_asleep _ _ H23). by apply (kept_set_flags _ _ false true false) in H23.
Qed.
(** ** Configuration *)
Lemma configure_spec db points g :
  db_ok db → finalized MAX_GPU_LEVELS points → finalized MAX_GMU_LEVELS g.(gmu_operating_points) →
  ends (λ o g', match o with
                | Ok _ => g.(active) = false ∧ g.(ready) = false ∧ ∃ p, table_ok p ∧ g' = set_power (Some p) None g
                | _ => g' = g
                end) (configure_gpu_operating_points db points g).
Proof.
  intros Hdb Hp Hg. unfold configure_gpu_operating_points. destruct (active g), (ready g); [done..|]. cbn [orb].
  pose proof (build_power_table_spec db points _ Hdb Hp Hg) as Hb.
  apply ends_lift; [by eapply ensures_no_panic|done|]. intros p Hok. rewrite Hok in Hb. destruct Hb as [Ht _].
  apply ends_lift; [by destruct (_ !! _)|done|]. intros _ _. apply ends_lift; [by destruct (last _)|done|]. intros _ _.
  split; [done|]. split_and!; [done..|]. by exists p.
Qed.

(** ** The invariant *)
Record gmu_ok (g : A618Gmu) : Prop := {
  go_hfi : hfi_ok g.(hfi);
  go_points : finalized MAX_GMU_LEVELS g.(gmu_operating_points);
  go_power p : g.(power) = Some p → table_ok p;
  go_index i : g.(current_gpu_index) = Some i → ∃ p, g.(power) = Some p ∧ 1 ≤ i < len p.(gx_levels);
  go_active : g.(active) = true → g.(power) ≠ None ∧ g.(rsc_asleep) = false;
  go_ready : g.(ready) = true → g.(active) = true ∧ g.(current_gpu_index) ≠ None;
}.

Lemma gmu_ok_kept g g' : kept g g' → gmu_ok g → gmu_ok g'.
Proof.
  intros [Hp Hi Hr Ha Hs Hpt _ Hh] []. constructor; rewrite ?Hp, ?Hi, ?Hr, ?Ha, ?Hs, ?Hpt; auto.
Qed.

Lemma gmu_ok_voted i g o g' : voted i g o g' → gmu_ok g → gmu_ok g'.
Proof.
  destruct o; cbn; [|apply gmu_ok_kept..]. intros (Hk & Ha & p & Hp & Hi) []. apply (gmu_ok_kept _ _ Hk).
  constructor; cbn; try done; naive_solver.
Qed.

Lemma gmu_ok_stopped g o g' : stopped g o g' → gmu_ok g → gmu_ok g'.
Proof.
  destruct o; cbn; [intros Hk|intros [Ha Hk]..]; intros []; apply (gmu_ok_kept _ _ Hk); constructor; cbn; auto; done.
Qed.

Lemma gmu_ok_brought_up g o g' : brought_up g o g' → gmu_ok g → gmu_ok g'.
Proof.
  destruct o as [[]|e|]; cbn; [| |done].
  - intros [[_ ->]|(p & Hp & Ha & Hk)]; [done|]. intros []. apply (gmu_ok_kept _ _ Hk).
    destruct (go_power0 _ Hp) as [_ _ _ [Hi Hpos]]. constructor; cbn; try done; [intros ? [= <-]; auto|].
    intros i [= <-]. exists p. split; [done|]. lia.
  - intros [Hr [[_ ->]|(Ha & a & s & Hk & Hact)]]; [done|]. intros []. apply (gmu_ok_kept _ _ Hk).
    constructor; cbn; try done. intros ->. destruct (Hact eq_refl) as (_ & -> & Hp). done.
Qed.

(** The operations of the GMU: [step g o g'] when one of them, in some
    environment, returns [o] and leaves [g']. *)
Inductive step (g : A618Gmu) : outcome string () → A618Gmu → Prop :=
| step_configure db points o g' : db_ok db → finalized MAX_GPU_LEVELS points →
    configure_gpu_operating_points db points g = Some (o, g') → step g o g'
| step_ready fuel env o g' : bring_up_env_ok env → ensure_ready fuel env g = Some (o, g') → step g o g'
| step_begin fuel p o g' : begin_gpu_boot fuel p g = Some (o, g') → step g o g'
| step_finish o g' : finish_gpu_boot g = Some (o, g') → step g o g'
| step_finish_initial o g' : finish_initial_boot_keep_gpu_on g = Some (o, g') → step g o g'
| step_release o g' : release_gpu g = Some (o, g') → step g o g'
| step_frequency fuel env frequency o g' : set_frequency_khz fuel env frequency g = Some (o, g') → step g o g'
| step_shutdown fuel env o g' : shutdown_env_ok env → force_shutdown fuel env g = Some (o, g') → step g o g'.

Inductive reachable : A618Gmu → Prop :=
| reach_new dummy debug log hfi points g : finalized MAX_GMU_LEVELS points →
    gmu_new dummy debug log hfi points = Some (Ok (), g) → reachable g
| reach_step g o g' : reachable g → step g o g' → reachable g'.

Lemma ends_Some {A} (Q : outcome string A → A618Gmu → Prop) r o g : ends Q r → r = Some (o, g) → o ≠ Panic ∧ Q o g.
Proof. by intros H ->. Qed.

Lemma step_ok g o g' : gmu_ok g → step g o g' → o ≠ Panic ∧ gmu_ok g'.
Proof.
  intros Hok Hstep. pose proof (go_hfi _ Hok) as Hg.
  assert (∀ m : gm (), quiet m → m g = Some (o, g') → o ≠ Panic ∧ gmu_ok g') as Hquiet.
  { intros m Hm H. eapply ends_Some in H; [|by apply Hm]. destruct H as [Ho Hk]. split; [done|]. by eapply gmu_ok_kept. }
  destruct Hstep as [db points o g' Hdb Hp H|fuel env o g' He H|fuel p o g' H|o g' H|o g' H|o g' H|fuel env f o g' H|fuel env o g' He H].
  - eapply ends_Some in H; [|apply configure_spec; [done|done|apply Hok]]. destruct H as [Ho H]. split; [done|].
    destruct o as [[]|e|]; [|by subst..]. destruct H as (Ha & Hr & p & Ht & ->). destruct Hok.
    constructor; cbn; try done; rewrite ?Ha, ?Hr; try done. by intros ? [= <-].
  - eapply ends_Some in H; [|apply ensure_ready_spec; [done|apply Hok|done]]. destruct H as [Ho H]. split; [done|].
    by eapply gmu_ok_brought_up.
  - eapply Hquiet; [|exact H]. unfold begin_gpu_boot. auto with gmu.
  - eapply Hquiet; [|exact H]. unfold finish_gpu_boot. auto with gmu.
  - eapply Hquiet; [|exact H]. unfold finish_initial_boot_keep_gpu_on. auto with gmu.
  - eapply Hquiet; [|exact H]. unfold release_gpu. auto with gmu.
  - eapply ends_Some in H; [|by apply set_frequency_spec]. destruct H as [Ho H]. split; [done|].
    destruct H as [(i & l & p & Hv & _)|[Hk _]]; [by eapply gmu_ok_voted|by eapply gmu_ok_kept].
  - eapply ends_Some in H; [|by apply force_shutdown_spec]. destruct H as [Ho H]. split; [done|]. by eapply gmu_ok_stopped.
Qed.

Lemma gmu_new_ok dummy debug log hfi points g :
  finalized MAX_GMU_LEVELS points → gmu_new dummy debug log hfi points = Some (Ok (), g) → gmu_ok g.
Proof.
  intros Hp. unfold gmu_new. destruct (hfi_new hfi) as [h|e|] eqn:Hh; [|done..]. destruct (_ || _ || _ || _) eqn:Hb; [done|].
  bool_to_prop. subst. intros H. destruct (hfi_new_ok 0x60009000) as (h' & Hh' & Hm & Hs); [done|done|].
  rewrite Hh' in Hh. injection Hh as ->. assert (hfi_ok h) as Hh by (split; [done|rewrite Hs; lia]).
  eapply ends_Some in H; [|apply quiet_initialize_rpmh; exact Hh]. destruct H as [_ Hk]. apply (gmu_ok_kept _ _ Hk).
  by constructor.
Qed.

Lemma gmu_reachable_ok g : reachable g → gmu_ok g.
Proof.
  induction 1 as [dummy debug log hfi points g Hp H|g o g' _ IH Hs]; [by eapply gmu_new_ok|]. by eapply step_ok in Hs as [].
Qed.
(** ** Theorems *)
Lemma ascending_positive l levels i x :
  ascending (l :: levels) = true → 0 ≤ l.(frequency_khz) → levels !! i = Some x → l.(frequency_khz) < x.(frequency_khz).
Proof.
  revert l i. induction levels as [|m levels IH]; intros l i Ha Hl Hi; [done|].
  cbn [ascending] in Ha. apply andb_true_iff in Ha as [Hlt%Z.ltb_lt Ha]. destruct i as [|i]; [by injection Hi as <-|].
  assert (frequency_khz m < frequency_khz x) by (eapply IH; [done|lia|done]). lia.
Qed.

Lemma active_levels p i l :
  table_ok p → 1 ≤ i → p.(gx_levels) !! Z.to_nat i = Some l → 0 < l.(frequency_khz) ∧ l ∈ drop 1 p.(gx_levels).
Proof.
  intros [Hgx _ _ _] Hi Hl. unfold levels_are_valid in Hgx. destruct (gx_levels p) as [|first levels]; [done|].
  bool_to_prop. replace (Z.to_nat i) with (S (Z.to_nat i - 1)) in Hl by lia. cbn in Hl.
  split; [|by eapply list_elem_of_lookup_2]. assert (frequency_khz first < frequency_khz l); [|lia].
  eapply ascending_positive; [done|lia|done].
Qed.

(** C26: the GMU keeps its books.  Over any sequence of configurations, boots,
    votes, frequency changes and shutdowns, in any environment, no operation
    panics (in particular every register lies in the mapped resource, and the
    firmware queues are never left); a ready GMU is active and awake; and the
    frequency it reports is then one of those it offers, and is not zero. *)
Theorem gmu_invariant (g : A618Gmu) :
  reachable g →
  (∀ o g', step g o g' → o ≠ Panic) ∧
  (g.(ready) = true → g.(active) = true ∧ g.(rsc_asleep) = false ∧
     ∃ f offered, current_frequency_khz g = Ok f ∧ frequencies_khz g = Ok offered ∧ f ∈ offered ∧ 0 < f).
Proof.
  intros Hg%gmu_reachable_ok. split; [intros o g' Hs; by eapply step_ok in Hs as []|]. intros Hr.
  destruct (go_ready _ Hg Hr) as [Ha Hi]. destruct (go_active _ Hg Ha) as [_ Hs]. split_and!; [done..|].
  unfold current_frequency_khz, frequencies_khz, current_level. rewrite Hr, Ha. cbn [negb orb].
  destruct (current_gpu_index g) as [i|] eqn:Hcur; [|done]. destruct (go_index _ Hg i Hcur) as (p & Hp & Hlo & Hhi).
  rewrite Hp. cbn. destruct (lookup_lt_is_Some_2 (gx_levels p) (Z.to_nat i)) as [l Hl]; [unfold len in Hhi; lia|].
  rewrite Hl. cbn. destruct (active_levels p i l (go_power _ Hg p Hp) Hlo Hl) as [Hpos Hin].
  exists (frequency_khz l), (frequency_khz <$> drop 1 (gx_levels p)). split_and!; try done. by apply list_elem_of_fmap_2.
Qed.

(** C27: bringing the GMU up.  In every reachable state, a bring-up that succeeds
    leaves a ready GMU, which a second one leaves alone, and, if it was not
    ready before, at the fastest level of its table; one that fails leaves a
    GMU that is not ready, and that is off unless its shutdown failed as well,
    which is the error it then reports; a GMU in that state is not touched. *)
Theorem bring_up_outcome (fuel : nat) (env : BringUpEnv) (g g' : A618Gmu) (o : outcome string ()) :
  reachable g → bring_up_env_ok env → ensure_ready fuel env g = Some (o, g') →
  match o with
  | Ok _ => g'.(ready) = true ∧ (g.(ready) = true → g' = g) ∧
      (g.(ready) = false → ∃ p l, g.(power) = Some p ∧ last p.(gx_levels) = Some l ∧
         current_frequency_khz g' = Ok l.(frequency_khz))
  | Err e => g'.(ready) = false ∧ (g.(active) = true → g' = g) ∧
      (g.(active) = false → g'.(active) = true → e = quiesce_error)
  | Panic => False
  end.
Proof.
  intros Hg%gmu_reachable_ok He H. eapply ends_Some in H; [|by apply ensure_ready_spec; [apply Hg|apply Hg|]].
  destruct H as [Ho H]. pose proof (gmu_ok_brought_up _ _ _ H Hg) as Hg'. destruct o as [[]|e|]; [| |done].
  - destruct H as [[Hr ->]|(p & Hp & Ha & Hk)]; [split_and!; [done..|by rewrite Hr]|].
    assert (ready g' = true ∧ active g' = true) as [Hr' Ha'] by (by rewrite (ke_ready _ _ Hk), (ke_active _ _ Hk)).
    split_and!; [done|intros Hr; by destruct (go_ready _ Hg Hr); congruence|]. intros _.
    destruct (go_power _ Hg p Hp) as [Hgx _ _ [Hi Hpos]]. apply levels_valid_length in Hgx as Hlen.
    destruct (last (gx_levels p)) as [l|] eqn:Hl; [|apply last_None in Hl; rewrite Hl in Hlen; unfold len in Hlen; cbn in Hlen; lia].
    exists p, l. split_and!; [done..|]. unfold current_frequency_khz, current_level. rewrite Hr', Ha'.
    rewrite (ke_index _ _ Hk), (ke_power _ _ Hk). cbn. rewrite last_lookup in Hl. unfold len in *.
    replace (Z.to_nat (initial_gpu_index p)) with (pred (length (gx_levels p))) by lia. by rewrite Hl.
  - destruct H as [Hr [[Ha ->]|(Ha & a & s & Hk & Hact)]]; [split_and!; congruence|].
    rewrite (ke_ready _ _ Hk), (ke_active _ _ Hk). cbn. split_and!; [done|congruence|]. intros _ ->. by apply Hact.
Qed.

(** The clocks of the polls of a shutdown pass their timeout. *)
Definition shutdown_expires (fuel : nat) (env : ShutdownEnv) : Prop :=
  Forall (expires REGISTER_TIMEOUT_US fuel)
    [env.(sd_sptp); env.(sd_tcs0); env.(sd_tcs1); env.(sd_tcs2); env.(sd_tcs3); env.(sd_rsc)].

Lemma poll_until_total timeout fuel i p predicate :
  0 < timeout → (∃ j, (i ≤ j < i + fuel)%nat ∧ timeout ≤ (p.(poll_read) j).2 - p.(poll_start)) →
  ∃ b, poll_until timeout fuel i p predicate = Some b.
Proof.
  intros Ht. revert i. induction fuel as [|fuel IH]; intros i (j & Hj & Hx); [lia|]. cbn [poll_until].
  destruct (poll_read p i) as [v now] eqn:E. destruct (predicate v); [eauto|].
  destruct (decide (j = i)) as [->|Hne]; [rewrite E in Hx; rewrite expired by done; eauto|].
  case_match; [eauto|]. apply IH. exists j. split; [lia|done].
Qed.

Lemma observed_total fuel p mask : expires REGISTER_TIMEOUT_US fuel p → ∃ b, observed fuel p mask = Some b.
Proof. intros (j & Hj & Hx). apply poll_until_total; [done|]. exists j. split; [lia|done]. Qed.

(** Every power domain was seen to be off in time. *)
Definition all_off (fuel : nat) (env : ShutdownEnv) : Prop :=
  observed fuel env.(sd_sptp) 4 = Some true ∧ observed fuel env.(sd_tcs0) 1 = Some true ∧
  observed fuel env.(sd_tcs1) 1 = Some true ∧ observed fuel env.(sd_tcs2) 1 = Some true ∧
  observed fuel env.(sd_tcs3) 1 = Some true ∧ observed fuel env.(sd_rsc) (1 << 16) = Some true.

Lemma domains_total fuel env :
  shutdown_expires fuel env → ∃ idle asleep, domains fuel env = Some (idle, asleep) ∧ (idle && asleep = true ↔ all_off fuel env).
Proof.
  unfold shutdown_expires. rewrite !Forall_cons. intros (H1 & H2 & H3 & H4 & H5 & H6 & _). unfold domains, all_off.
  destruct (observed_total fuel (sd_sptp env) 4 H1) as [b1 ->]. destruct (observed_total fuel (sd_tcs0 env) 1 H2) as [b2 ->].
  destruct (observed_total fuel (sd_tcs1 env) 1 H3) as [b3 ->]. destruct (observed_total fuel (sd_tcs2 env) 1 H4) as [b4 ->].
  destruct (observed_total fuel (sd_tcs3 env) 1 H5) as [b5 ->]. destruct (observed_total fuel (sd_rsc env) (1 << 16) H6) as [b6 ->].
  cbn. eexists _, _. split; [done|]. destruct b1, b2, b3, b4, b5, b6; cbn; naive_solver.
Qed.

(** C28: the forced shutdown ends and tells the truth.  When the clock advances,
    it returns; the GMU is then not ready, its memory still well formed; it
    reports success exactly if the GMU was off already, in which case no
    register is written, or every power domain was seen off in time, and then
    the GMU is off; otherwise it stays marked active, so that it is not
    started over. *)
Theorem shutdown_outcome (fuel : nat) (env : ShutdownEnv) (g : A618Gmu) :
  hfi_ok g.(hfi) → shutdown_env_ok env → shutdown_expires fuel env →
  ∃ o g', force_shutdown fuel env g = Some (o, g') ∧ o ≠ Panic ∧ g'.(ready) = false ∧ hfi_ok g'.(hfi) ∧
    (o = Ok () ↔ g.(active) = false ∨ all_off fuel env) ∧
    (o = Ok () → g'.(active) = false) ∧ (o ≠ Ok () → g'.(active) = true) ∧
    (g.(active) = false → g'.(writes) = g.(writes)).
Proof.
  intros Hg He Hx. pose proof (force_shutdown_result fuel env g Hg He) as H. destruct (active g) eqn:Ha; cbn [negb] in H.
  - destruct (domains_total fuel env Hx) as (idle & asleep & Hd & Hiff). rewrite Hd in H.
    destruct H as (o & g' & Hf & Hp & Hok & Hs). exists o, g'. rewrite Hf, Hok, Hiff.
    assert (ready g' = false ∧ hfi_ok (hfi g') ∧ (o = Ok () → active g' = false) ∧ (o ≠ Ok () → active g' = true)) as Hrest.
    { destruct o as [[]|e|]; [| |done]; [|destruct Hs as [_ Hs]]; rewrite (ke_ready _ _ Hs), (ke_active _ _ Hs);
        (split_and!; [done|by apply Hs|done..]). }
    rewrite Hok, Hiff in Hrest. naive_solver.
  - rewrite H. eexists _, _. split; [done|]. split_and!; try done; naive_solver.
Qed.
End GmuFacts.

(** * A sample GMU

    A small device tree with two tables of operating points, the power table
    they give with the database of [HfiSample.v], a firmware that answers every
    message of the bring-up, and a shutdown: concrete inputs of the theorems of
    [OppFacts.v], [GmuTables.v] and [GmuFacts.v]. *)

(** ** A device tree *)
Inductive tree := Node (properties : list (string * list Z)) (kids : list tree).

Fixpoint tree_weight (t : tree) : nat :=
  match t with Node _ kids => S (sum_list_with tree_weight kids) end.

Definition tree_property (t : tree) (name : string) : option (list Z) :=
  match t with
  | Node properties _ =>
    (λ p : string * list Z, (λ b, b mod 256) <$> p.2) <$> List.find (λ p, bool_decide (p.1 = name)) properties
  end.

Definition tree_children (t : tree) : list tree := match t with Node _ kids => kids end.

#[export] Instance tree_DeviceTree : DeviceTree tree := { property := tree_property; children := tree_children }.

Lemma tree_property_bytes (t : tree) (name : string) (value : list Z) :
  property t name = Some value → Forall u8 value.
Proof.
  destruct t as [properties kids]. intros (p & _ & ->)%fmap_Some. apply Forall_fmap, Forall_true. intros b.
  apply Z.mod_pos_bound. done.
Qed.

Lemma tree_weight_children (t : tree) : (sum_list_with tree_weight (children t) < tree_weight t)%nat.
Proof. destruct t as [properties kids]. cbn. lia. Qed.

#[export] Instance tree_laws : DeviceTreeLaws tree :=
  { property_bytes := tree_property_bytes; weight := tree_weight; weight_children := tree_weight_children }.

Module GmuSample.
Import Hw HwFacts GmuReg Hfi HfiFacts CmdDb Opp OppFacts Gmu GmuTables GmuFacts HfiSample CmdDbSample.

Definition be32 (v : Z) : list Z := [v / 0x1000000; v / 0x10000 mod 256; v / 256 mod 256; v mod 256].

Definition opp_node (hz level : Z) : tree :=
  Node [("opp-hz"%string, be32 0 ++ be32 hz); ("opp-level"%string, be32 level)] [].

Definition sample_tree : tree :=
  Node []
    [Node [("phandle"%string, be32 7)] [opp_node 430000000 100; opp_node 180000000 48];
     Node [("phandle"%string, be32 8)] [opp_node 200000000 64]].

Definition sample_device (phandle : Z) : PlatformDevice :=
  mk_device (λ name, if bool_decide (name = "operating-points-v2"%string) then Some (be32 phandle) else None) Panic.

Definition gpu_points : list OperatingPoint := [mk_point 180000 48 None; mk_point 430000 100 None].
Definition gmu_points : list OperatingPoint := [mk_point 200000 64 None].

Lemma gpu_points_read : read_gpu_operating_points 10 (Some (Some sample_tree)) (sample_device 7) = Ok gpu_points.
Proof. vm_compute. reflexivity. Qed.
Lemma gmu_points_read : read_gmu_operating_points 10 (Some (Some sample_tree)) (sample_device 8) = Ok gmu_points.
Proof. vm_compute. reflexivity. Qed.

Lemma operating_points_sound_witness :
  ensures (λ points, finalized MAX_GPU_LEVELS points ∧
      ∃ table value phandle, (sample_device 7).(device_property) "operating-points-v2" = Some value ∧
        be_u32 value = Some phandle ∧ phandle ≠ 0 ∧ node_phandle table = Some phandle ∧ reaches sample_tree table ∧
        points ≡ₚ omap (offered 1) (children table))
    (read_operating_points 10 (Some (Some sample_tree)) (sample_device 7) 1 MAX_GPU_LEVELS).
Proof. apply (operating_points_sound 10 sample_tree (sample_device 7) 1 MAX_GPU_LEVELS). cbn. lia. Defined.

(** ** A power table *)
Lemma gpu_points_finalized : finalized MAX_GPU_LEVELS gpu_points.
Proof.
  constructor; [done| |].
  - repeat constructor; cbn; lia.
  - repeat (apply Forall_cons; split); [split; cbn; unfold U32_MAX; lia..|done].
Qed.

Lemma gmu_points_finalized : finalized MAX_GMU_LEVELS gmu_points.
Proof.
  constructor; [done|repeat constructor|].
  repeat (apply Forall_cons; split); [split; cbn; unfold U32_MAX; lia..|done].
Qed.

Lemma sample_db_ok : db_ok (Some sample_db).
Proof.
  intros d [= <-]. assert (forallb (λ b, (0 <=? b) && (b <? 256)) (bytes sample_db) = true) as H by (vm_compute; reflexivity).
  rewrite forallb_forall in H. apply Forall_forall. intros b Hb%list_elem_of_In%H. unfold u8. lia.
Qed.

Definition sample_power : HfiPowerTable :=
  match build_power_table (Some sample_db) gpu_points gmu_points with Ok t => t | _ => mk_power [] [] 0 None end.

Lemma sample_power_built : build_power_table (Some sample_db) gpu_points gmu_points = Ok sample_power.
Proof. vm_compute. reflexivity. Qed.
Lemma power_table_accepted_witness :
  ensures (λ t,
    Forall2 (level_for (Some sample_db) "gfx.lvl") (off_point :: gpu_points) t.(gx_levels) ∧
    Forall2 (level_for (Some sample_db) "cx.lvl") (off_point :: gmu_points) t.(cx_levels) ∧
    (∃ message, performance_table t.(gx_levels) t.(cx_levels) = Ok message ∧
       message_for t.(gx_levels) t.(cx_levels) message) ∧
    ∃ fastest l, last gpu_points = Some fastest ∧ t.(gx_levels) !! Z.to_nat t.(initial_gpu_index) = Some l ∧
      l.(frequency_khz) = fastest.(point_khz)) (build_power_table (Some sample_db) gpu_points gmu_points).
Proof.
  exact (power_table_accepted (Some sample_db) gpu_points gmu_points sample_db_ok gpu_points_finalized gmu_points_finalized).
Defined.

(** ** A bring-up *)

(** A register that reads [value], polled every ten milliseconds. *)
Definition sees (value : Z) : Poll := mk_poll 0 (λ i, (value, 10000 * Z.of_nat i)).

(** The firmware acknowledges message [i] of the bring-up. *)
Definition acknowledge (id : Z) (i : nat) : Firmware := λ words,
  poke 29 (3 * Z.of_nat i + 3) (poke_all (2048 + 3 * i) (ack id (Z.of_nat i + 1)) words).

Lemma acknowledge_ok id i : 0 ≤ id < 256 → (i < 100)%nat → firmware_ok (acknowledge id i).
Proof.
  intros Hid Hi words [Hl Hu]. unfold acknowledge, poke_all. constructor.
  - unfold poke, len in *. rewrite length_insert, length_inserts. done.
  - apply Forall_insert; [|unfold u32; lia]. apply Forall_lookup. intros j x Hx.
    rewrite list_lookup_inserts_Some in Hx. rewrite Forall_lookup in Hu. destruct Hx as [[_ Hx]|(_ & _ & Hx)]; [by eapply Hu|].
    assert (Forall u32 (ack id (Z.of_nat i + 1))) as Ha.
    { repeat (apply Forall_cons; split); try done. apply lor_u32; [|unfold u32; lia].
      rewrite Z.shiftl_mul_pow2 by done. unfold u32. change (2 ^ 20) with 1048576. lia. }
    rewrite Forall_lookup in Ha. exact (Ha _ _ Hx).
Qed.

Definition exchange_with (id : Z) (i : nat) : SendEnv :=
  mk_send_env Datatypes.id [mk_round (sees MESSAGE_INTERRUPT) (λ k, if decide (k = O) then acknowledge id i else Datatypes.id)].

Lemma exchange_with_ok id i : 0 ≤ id < 256 → (i < 100)%nat → send_env_ok (exchange_with id i).
Proof.
  intros Hid Hi. split; [apply idle_ok|]. apply Forall_cons. split; [|done]. intros k. cbn.
  destruct (decide _); [by apply acknowledge_ok|apply idle_ok].
Qed.

Definition sample_shutdown : ShutdownEnv :=
  mk_shutdown 0 (sees U32_MAX) (sees U32_MAX) (sees U32_MAX) (sees U32_MAX) (sees U32_MAX) (sees U32_MAX) Datatypes.id.

Definition sample_bring_up : BringUpEnv :=
  mk_bring_up (sees U32_MAX) (sees 0) true
    (mk_file true (Some true) (Some 8) (λ offset, if offset =? 0 then Some [1; 2; 3; 4; 5] else Some [6; 7; 8]))
    0 0x20010004 (sees 0xbabeface) (sees U32_MAX) (sees 0x28) (sees 1)
    [exchange_with HFI_H2F_MSG_INIT 0; exchange_with HFI_H2F_MSG_FW_VERSION 1; exchange_with HFI_H2F_MSG_PERF_TABLE 2;
     exchange_with HFI_H2F_MSG_BW_TABLE 3; exchange_with HFI_H2F_MSG_TEST 4]
    (mk_dcvs (sees U32_MAX) 0) 0 sample_shutdown.

Lemma sample_shutdown_ok : shutdown_env_ok sample_shutdown.
Proof. split. apply idle_ok. Qed.

Lemma sample_bring_up_ok : bring_up_env_ok sample_bring_up.
Proof.
  split; [|apply sample_shutdown_ok]. repeat (apply Forall_cons; split); try done; (apply exchange_with_ok; [done|lia]).
Qed.

Definition state_of (r : option (outcome string () * A618Gmu)) : A618Gmu :=
  match r with Some (_, g) => g | None => mk_gmu (mk_hfi [] 0 0 []) 0 0 [] None None false false false [] end.

Definition new_gmu : A618Gmu := state_of (gmu_new 0x60000000 0x60001000 0x60005000 0x60009000 gmu_points).
Definition configured_gmu : A618Gmu := state_of (configure_gpu_operating_points (Some sample_db) gpu_points new_gmu).
Definition ready_gmu : A618Gmu := state_of (ensure_ready 20 sample_bring_up configured_gmu).

Lemma new_gmu_run : gmu_new 0x60000000 0x60001000 0x60005000 0x60009000 gmu_points = Some (Ok (), new_gmu).
Proof. vm_compute. reflexivity. Qed.
Lemma configured_gmu_run : configure_gpu_operating_points (Some sample_db) gpu_points new_gmu = Some (Ok (), configured_gmu).
Proof. vm_compute. reflexivity. Qed.
Lemma ready_gmu_run : ensure_ready 20 sample_bring_up configured_gmu = Some (Ok (), ready_gmu).
Proof. vm_compute. reflexivity. Qed.

Lemma configured_gmu_reachable : reachable configured_gmu.
Proof.
  apply (reach_step new_gmu (Ok ())); [eapply reach_new; [apply gmu_points_finalized|apply new_gmu_run]|].
  eapply step_configure; [apply sample_db_ok|apply gpu_points_finalized|apply configured_gmu_run].
Qed.

Lemma ready_gmu_reachable : reachable ready_gmu.
Proof.
  apply (reach_step configured_gmu (Ok ())); [apply configured_gmu_reachable|].
  eapply step_ready; [apply sample_bring_up_ok|apply ready_gmu_run].
Qed.

Lemma gmu_invariant_witness :
  (∀ o g', step ready_gmu o g' → o ≠ Panic) ∧
  (ready_gmu.(ready) = true → ready_gmu.(active) = true ∧ ready_gmu.(rsc_asleep) = false ∧
     ∃ f offered, current_frequency_khz ready_gmu = Ok f ∧ frequencies_khz ready_gmu = Ok offered ∧ f ∈ offered ∧ 0 < f).
Proof. exact (gmu_invariant ready_gmu ready_gmu_reachable). Defined.

(** The sample GMU is ready, at its fastest level. *)
Lemma ready_gmu_frequency : ready_gmu.(ready) = true ∧ current_frequency_khz ready_gmu = Ok 430000.
Proof. split; vm_compute; reflexivity. Qed.

Lemma bring_up_outcome_witness :
  ready_gmu.(ready) = true ∧ (configured_gmu.(ready) = true → ready_gmu = configured_gmu) ∧
  (configured_gmu.(ready) = false → ∃ p l, configured_gmu.(power) = Some p ∧ last p.(gx_levels) = Some l ∧
     current_frequency_khz ready_gmu = Ok l.(frequency_khz)).
Proof.
  exact (bring_up_outcome 20 sample_bring_up configured_gmu ready_gmu (Ok ()) configured_gmu_reachable sample_bring_up_ok ready_gmu_run).
Defined.

(** ** A shutdown *)
Lemma sees_expires value : expires REGISTER_TIMEOUT_US 20 (sees value).
Proof. exists 1%nat. split; [lia|]. cbn. unfold REGISTER_TIMEOUT_US. lia. Qed.

Lemma sample_shutdown_expires : shutdown_expires 20 sample_shutdown.
Proof. repeat (apply Forall_cons; split); try apply sees_expires. done. Qed.

Lemma ready_gmu_hfi : hfi_ok ready_gmu.(hfi).
Proof. apply go_hfi, gmu_reachable_ok, ready_gmu_reachable. Qed.

Lemma shutdown_outcome_witness :
  ∃ o g', force_shutdown 20 sample_shutdown ready_gmu = Some (o, g') ∧ o ≠ Panic ∧ g'.(ready) = false ∧ hfi_ok g'.(hfi) ∧
    (o = Ok () ↔ ready_gmu.(active) = false ∨ all_off 20 sample_shutdown) ∧
    (o = Ok () → g'.(active) = false) ∧ (o ≠ Ok () → g'.(active) = true) ∧
    (ready_gmu.(active) = false → g'.(writes) = ready_gmu.(writes)).
Proof. exact (shutdown_outcome 20 sample_shutdown ready_gmu ready_gmu_hfi sample_shutdown_ok sample_shutdown_expires). Defined.
End GmuSample.
