(* ===== verification/Scheduler.v ===== *)
(** * The logical submission scheduler of the SGFX Adreno backend

    [scheduler.rs]: a bounded queue of logical submissions, each a vector of
    native chunks, dispatched in order to a transport that may be busy, may
    retire work in any order and may fail.  The transport is the trait of the
    source, here the class [Transport]: its methods act on a [World] because
    the implementations keep interior state.  A ghost [log] records the calls
    that took effect, so the ordering promises of the comments become
    statements about logs. *)
From S2P Require Import Prelude.

Module Sched.

Definition MAX_SUBMISSIONS : Z := 16.
Definition MAX_PENDING_BYTES : Z := 64 * 1024 * 1024.
Definition MAX_NATIVE_IN_FLIGHT : Z := 16.

Inductive DispatchError (E : Type) :=
| DispatchBusy
| DispatchFailed (error : E).
Arguments DispatchBusy {E}.
Arguments DispatchFailed {E}.

Inductive AdmissionError (E : Type) :=
| Busy
| TooLarge
| OutOfMemory
| Failed (error : E).
Arguments Busy {E}.
Arguments TooLarge {E}.
Arguments OutOfMemory {E}.
Arguments Failed {E}.

(** The transport: what the scheduler asks of the layer below.  A result
    [inl error] is Rust's [Err], [inr] its [Ok]. *)
Class Transport (Chunk Owner Receipt Signal Error World : Type) := {
  size : Chunk → Z;
  requires_idle : Chunk → bool;
  ready : World → Chunk → (Error + bool) * World;
  submit : World → Owner → Chunk → (DispatchError Error + Receipt) * World;
  poll : World → Receipt → (Error + bool) * World;
  complete : World → Signal → Error + () → World;
}.

Section Scheduler.
Context {Chunk Owner Receipt Signal Error World : Type}.
Context `{T : !Transport Chunk Owner Receipt Signal Error World}.

Record Job := mk_job {
  chunks : list Chunk;
  owner : Owner;
  signal : Signal;
  next : nat;
  receipts : list Receipt;
  job_bytes : Z;
}.

Record Scheduler := mk_scheduler {
  jobs : list Job;
  bytes : Z;
  failure : option Error;
}.

(** The calls of the transport that took effect, oldest first, with the
    admissions between them. *)
Inductive Event :=
| Enqueued (cs : list Chunk) (o : Owner) (sig : Signal)
| Accepted (o : Owner) (c : Chunk) (r : Receipt)
| Retired (r : Receipt)
| Completed (sig : Signal) (result : Error + ()).

Record Env := mk_env { world : World; log : list Event }.

Definition note (x : Env) (w : World) (e : Event) : Env := mk_env w (log x ++ [e]).
Definition unnoted (x : Env) (w : World) : Env := mk_env w (log x).

Definition new : Scheduler := mk_scheduler [] 0 None.

Definition is_empty (s : Scheduler) : bool :=
  match jobs s with [] => true | _ => false end.

Definition all_receipts (js : list Job) : list Receipt := js ≫= receipts.

Definition last_signal (s : Scheduler) : option Signal := signal <$> last (jobs s).

(** ** Admission *)

Fixpoint total_size (acc : Z) (cs : list Chunk) : option Z :=
  match cs with
  | [] => Some acc
  | c :: cs =>
      match checked_add U64_MAX acc (size c) with
      | Some acc => total_size acc cs
      | None => None
      end
  end.

(** [receipts_fit] and [jobs_fit] are the allocator's two answers. *)
Definition enqueue (s : Scheduler) (cs : list Chunk) (o : Owner) (sig : Signal)
    (receipts_fit jobs_fit : bool) : outcome (AdmissionError Error) Scheduler :=
  match failure s with
  | Some error => Err (Failed error)
  | None =>
      match total_size 0 cs with
      | Some b =>
          if b <=? MAX_PENDING_BYTES then
            if (len (jobs s) =? MAX_SUBMISSIONS)
               || (MAX_PENDING_BYTES <? saturating_add U64_MAX (bytes s) b)
            then Err Busy
            else
              let? _ := require receipts_fit OutOfMemory in
              let? _ := require jobs_fit OutOfMemory in
              let? total := add_or_panic U64_MAX (bytes s) b in
              Ok (mk_scheduler (jobs s ++ [mk_job cs o sig 0 [] b]) total None)
          else Err TooLarge
      | None => Err TooLarge
      end
  end.

(** ** Failure *)

Definition complete_all (x : Env) (js : list Job) (error : Error) : Env :=
  foldl (λ x j, note x (complete (world x) (signal j) (inl error))
                  (Completed (signal j) (inl error))) x js.

Definition fail (s : Scheduler) (x : Env) (error : Error) : Scheduler * Env :=
  (mk_scheduler [] 0 (Some error), complete_all x (jobs s) error).

(** ** Polling every receipt *)

Fixpoint poll_receipts (x : Env) (rs : list Receipt) :
    Env * list Receipt * bool * option Error :=
  match rs with
  | [] => (x, [], false, None)
  | r :: rs' =>
      match poll (world x) r with
      | (inl error, w) => (unnoted x w, rs, false, Some error)
      | (inr true, w) =>
          let '(x', kept, _, err) := poll_receipts (note x w (Retired r)) rs' in
          (x', kept, true, err)
      | (inr false, w) =>
          let '(x', kept, progressed, err) := poll_receipts (unnoted x w) rs' in
          (x', r :: kept, progressed, err)
      end
  end.

Definition with_receipts (j : Job) (rs : list Receipt) : Job :=
  mk_job (chunks j) (owner j) (signal j) (next j) rs (job_bytes j).

Fixpoint poll_jobs (x : Env) (js : list Job) : Env * list Job * bool * option Error :=
  match js with
  | [] => (x, [], false, None)
  | j :: js' =>
      match poll_receipts x (receipts j) with
      | (x', kept, progressed, Some error) =>
          (x', with_receipts j kept :: js', progressed, Some error)
      | (x', kept, progressed, None) =>
          let '(x'', js'', progressed', err) := poll_jobs x' js' in
          (x'', with_receipts j kept :: js'', progressed || progressed', err)
      end
  end.

(** ** Retiring finished submissions from the front *)

Definition finished (j : Job) : bool :=
  (next j =? length (chunks j))%nat && match receipts j with [] => true | _ => false end.

Fixpoint pop_finished (x : Env) (js : list Job) (total : Z) :
    outcome Empty_set (Env * list Job * Z * bool) :=
  match js with
  | j :: js' =>
      if finished j then
        match checked_sub total (job_bytes j) with
        | None => Panic
        | Some total =>
            let? (x', js'', total', _) :=
              pop_finished (note x (complete (world x) (signal j) (inr ()))
                              (Completed (signal j) (inr ()))) js' total in
            Ok (x', js'', total', true)
        end
      else Ok (x, js, total, false)
  | [] => Ok (x, [], total, false)
  end.

(** ** Dispatch in queue order *)

(** How a pass over chunks ends: it ran out of chunks, it returned with the
    queue as it stands, or the transport failed. *)
Inductive Ending := Exhausted | Returned | Broken (error : Error).

Definition accept (j : Job) (r : Receipt) : Job :=
  mk_job (chunks j) (owner j) (signal j) (S (next j)) (receipts j ++ [r]) (job_bytes j).

(** [todo] is [drop (next j) (chunks j)], the chunks the loop has yet to see. *)
Fixpoint dispatch_chunks (x : Env) (j : Job) (in_flight : Z) (todo : list Chunk) :
    Env * Job * Z * bool * Ending :=
  match todo with
  | [] => (x, j, in_flight, false, Exhausted)
  | c :: todo' =>
      if (in_flight =? MAX_NATIVE_IN_FLIGHT) || (negb (in_flight =? 0) && requires_idle c)
      then (x, j, in_flight, false, Returned)
      else
        match ready (world x) c with
        | (inl error, w) => (unnoted x w, j, in_flight, false, Broken error)
        | (inr false, w) => (unnoted x w, j, in_flight, false, Returned)
        | (inr true, w) =>
            match submit w (owner j) c with
            | (inr r, w') =>
                let '(x', j', in_flight', _, e) :=
                  dispatch_chunks (note x w' (Accepted (owner j) c r)) (accept j r)
                    (in_flight + 1) todo' in
                (x', j', in_flight', true, e)
            | (inl DispatchBusy, w') => (unnoted x w', j, in_flight, false, Returned)
            | (inl (DispatchFailed error), w') =>
                (unnoted x w', j, in_flight, false, Broken error)
            end
        end
  end.

Fixpoint dispatch_jobs (x : Env) (in_flight : Z) (js : list Job) :
    Env * list Job * bool * Ending :=
  match js with
  | [] => (x, [], false, Exhausted)
  | j :: js' =>
      match dispatch_chunks x j in_flight (drop (next j) (chunks j)) with
      | (x', j', in_flight', progressed, Exhausted) =>
          let '(x'', js'', progressed', e) := dispatch_jobs x' in_flight' js' in
          (x'', j' :: js'', progressed || progressed', e)
      | (x', j', _, progressed, e) => (x', j' :: js', progressed, e)
      end
  end.

Definition advance (s : Scheduler) (x : Env) : outcome Empty_set (Scheduler * Env * bool) :=
  let '(x1, js1, polled, err) := poll_jobs x (jobs s) in
  match err with
  | Some error =>
      let '(s', x') := fail (mk_scheduler js1 (bytes s) (failure s)) x1 error in
      Ok (s', x', true)
  | None =>
      let? (x2, js2, total, popped) := pop_finished x1 js1 (bytes s) in
      let '(x3, js3, sent, ending) := dispatch_jobs x2 (len (all_receipts js2)) js2 in
      match ending with
      | Broken error =>
          let '(s', x') := fail (mk_scheduler js3 total (failure s)) x3 error in
          Ok (s', x', true)
      | _ => Ok (mk_scheduler js3 total (failure s), x3, polled || popped || sent)
      end
  end.

(** ** Histories

    The queue's owner may enqueue, run the worker's [advance] or declare the
    queue failed, in any order; between calls the world may change in any
    way. *)
Definition start (w : World) : Scheduler * Env := (new, mk_env w []).

Inductive step : Scheduler * Env → Scheduler * Env → Prop :=
| step_world s x w : step (s, x) (s, unnoted x w)
| step_enqueue s x s' cs o sig a b :
    enqueue s cs o sig a b = Ok s' →
    step (s, x) (s', note x (world x) (Enqueued cs o sig))
| step_advance s x s' x' progressed :
    advance s x = Ok (s', x', progressed) → step (s, x) (s', x')
| step_fail s x error : step (s, x) (fail s x error).

Definition reachable (sx : Scheduler * Env) : Prop := ∃ w, rtc step (start w) sx.

End Scheduler.
End Sched.
