(* ===== verification/SchedulerFacts.v ===== *)
(** * What the scheduler promises about the order of native work

    [legal] is the contract as a language of logs: admissions are bounded,
    chunks are accepted in exactly the order in which they were admitted, with
    at most sixteen in flight and none in flight before a chunk that needs an
    idle device, a submission completes only when everything up to and including
    it has been retired, and a failure completes all that is pending and ends
    the log.  The step lemmas below show that each single call keeps the queue
    coupled to a legal log; the phases of [advance] are inductions over them. *)
From S2P Require Import Prelude Scheduler.

Module SchedFacts.
Import Sched.

(** Chunk sizes are unsigned. *)
Class TransportLaws {Chunk Owner Receipt Signal Error World}
    (T : Transport Chunk Owner Receipt Signal Error World) : Prop := {
  size_nonneg c : 0 ≤ size c;
}.

Section Facts.
Context {Chunk Owner Receipt Signal Error World : Type}.
Context `{T : !Transport Chunk Owner Receipt Signal Error World}.
Abbreviation Job := (@Job Chunk Owner Receipt Signal).
Abbreviation Event := (@Event Chunk Owner Receipt Signal Error).
Abbreviation Env := (@Env Chunk Owner Receipt Signal Error World).
Abbreviation Scheduler := (@Scheduler Chunk Owner Receipt Signal Error).
Abbreviation Submission := (list Chunk * Owner * Signal)%type.
Implicit Types (l : list Event) (j : Job) (js : list Job) (x : Env) (s : Scheduler).

(** ** Reading a log *)

Definition admitted l : list Submission :=
  omap (λ e, match e with Enqueued cs o sig => Some (cs, o, sig) | _ => None end) l.
Definition accepted l : list (Owner * Chunk) :=
  omap (λ e, match e with Accepted o c _ => Some (o, c) | _ => None end) l.
Definition accepted_receipts l : list Receipt :=
  omap (λ e, match e with Accepted _ _ r => Some r | _ => None end) l.
Definition retired l : list Receipt :=
  omap (λ e, match e with Retired r => Some r | _ => None end) l.
Definition completed l : list (Signal * (Error + ())) :=
  omap (λ e, match e with Completed sig res => Some (sig, res) | _ => None end) l.

(** The native work of a submission, and its size in bytes. *)
Definition work (b : Submission) : list (Owner * Chunk) := pair b.1.2 <$> b.1.1.
Definition sum_sizes (cs : list Chunk) : Z := foldr Z.add 0 (size <$> cs).
Definition pending l : list Submission := drop (length (completed l)) (admitted l).
Definition pending_bytes l : Z := foldr Z.add 0 ((λ b, sum_sizes b.1.1) <$> pending l).
Definition unbroken l : Prop := Forall (λ p, p.2 = inr ()) (completed l).

Inductive legal : list Event → Prop :=
| legal_nil : legal []
| legal_admit l cs o sig :
    legal l → unbroken l →
    len (pending l) < MAX_SUBMISSIONS →
    pending_bytes l + sum_sizes cs ≤ MAX_PENDING_BYTES →
    legal (l ++ [Enqueued cs o sig])
| legal_accept l o c r :
    legal l → unbroken l →
    (accepted l ++ [(o, c)]) `prefix_of` (admitted l ≫= work) →
    len (accepted l) - len (retired l) < MAX_NATIVE_IN_FLIGHT →
    (requires_idle c = true → retired l ≡ₚ accepted_receipts l) →
    legal (l ++ [Accepted o c r])
| legal_retire l r :
    legal l → unbroken l →
    retired l ++ [r] ⊆+ accepted_receipts l →
    legal (l ++ [Retired r])
| legal_complete l cs o sig n :
    legal l → unbroken l →
    admitted l !! length (completed l) = Some (cs, o, sig) →
    n = length (take (S (length (completed l))) (admitted l) ≫= work) →
    (n ≤ length (accepted l))%nat →
    take n (accepted_receipts l) ⊆+ retired l →
    legal (l ++ [Completed sig (inr ())])
| legal_fail l error :
    legal l → unbroken l →
    legal (l ++ ((λ b, Completed b.2 (inl error)) <$> pending l)).

Lemma admitted_app l k : admitted (l ++ k) = admitted l ++ admitted k.
Proof. apply omap_app. Qed.
Lemma accepted_app l k : accepted (l ++ k) = accepted l ++ accepted k.
Proof. apply omap_app. Qed.
Lemma accepted_receipts_app l k :
  accepted_receipts (l ++ k) = accepted_receipts l ++ accepted_receipts k.
Proof. apply omap_app. Qed.
Lemma retired_app l k : retired (l ++ k) = retired l ++ retired k.
Proof. apply omap_app. Qed.
Lemma completed_app l k : completed (l ++ k) = completed l ++ completed k.
Proof. apply omap_app. Qed.

Lemma length_accepted l : length (accepted_receipts l) = length (accepted l).
Proof. induction l as [|[] l IH]; csimpl; auto. Qed.

(** ** The queue beside its log

    [done] are the submissions completed so far, [rd] the receipts of their
    chunks, and for each queued job a pair of the receipts it was given and
    those of them already retired. *)
Definition submission_of j : Submission := (chunks j, owner j, signal j).
Definition sent j : list (Owner * Chunk) := take (next j) (work (submission_of j)).
Definition full j : Prop := next j = length (chunks j).
Definition fresh j : Prop := next j = 0%nat.

Fixpoint in_order js : Prop :=
  match js with
  | [] => True
  | j :: js => (full j ∨ Forall fresh js) ∧ in_order js
  end.

Record job_ok j (g : list Receipt * list Receipt) : Prop := {
  ok_given : length g.1 = next j;
  ok_next : (next j ≤ length (chunks j))%nat;
  ok_receipts : g.1 ≡ₚ g.2 ++ receipts j;
  ok_bytes : job_bytes j = sum_sizes (chunks j);
}.

Record coupled js l done rd gs : Prop := {
  cp_admitted : admitted l = done ++ (submission_of <$> js);
  cp_completed : completed l = (λ b, (b.2, inr ())) <$> done;
  cp_accepted : accepted l = (done ≫= work) ++ (js ≫= sent);
  cp_receipts : accepted_receipts l = rd ++ (gs ≫= fst);
  cp_done : length rd = length (done ≫= work);
  cp_retired : retired l ≡ₚ rd ++ (gs ≫= snd);
  cp_jobs : Forall2 job_ok js gs;
  cp_order : in_order js;
  cp_legal : legal l;
}.
Definition live js l : Prop := ∃ done rd gs, coupled js l done rd gs.

Lemma coupled_unbroken js l done rd gs : coupled js l done rd gs → unbroken l.
Proof. intros H. unfold unbroken. rewrite (cp_completed _ _ _ _ _ H), Forall_fmap. by apply Forall_true. Qed.

Lemma coupled_pending js l done rd gs :
  coupled js l done rd gs → pending l = submission_of <$> js.
Proof.
  intros H. unfold pending.
  rewrite (cp_completed _ _ _ _ _ H), (cp_admitted _ _ _ _ _ H), length_fmap.
  apply drop_app_length.
Qed.

Lemma jobs_balance js (gs : list (list Receipt * list Receipt)) :
  Forall2 job_ok js gs → gs ≫= fst ≡ₚ (gs ≫= snd) ++ all_receipts js.
Proof.
  induction 1 as [|j g js gs [_ _ R _] _ IH]; [done|].
  unfold all_receipts. csimpl. rewrite R, IH. unfold all_receipts. solve_Permutation.
Qed.

(** What was accepted is what was retired and what is in flight. *)
Lemma coupled_balance js l done rd gs :
  coupled js l done rd gs → accepted_receipts l ≡ₚ retired l ++ all_receipts js.
Proof.
  intros H. rewrite (cp_receipts _ _ _ _ _ H), (cp_retired _ _ _ _ _ H).
  rewrite (jobs_balance _ _ (cp_jobs _ _ _ _ _ H)). by rewrite (assoc_L (++)).
Qed.

Lemma coupled_in_flight js l done rd gs :
  coupled js l done rd gs → len (accepted l) - len (retired l) = len (all_receipts js).
Proof.
  intros H%coupled_balance%Permutation_length. unfold len.
  rewrite length_app, length_accepted in H. lia.
Qed.

Lemma live_unbroken js l : live js l → unbroken l.
Proof. intros (done & rd & gs & H). by eapply coupled_unbroken. Qed.
Lemma live_legal js l : live js l → legal l.
Proof. intros (done & rd & gs & []). done. Qed.
Lemma live_pending js l : live js l → pending l = submission_of <$> js.
Proof. intros (done & rd & gs & H). by eapply coupled_pending. Qed.
Lemma live_in_flight js l :
  live js l → len (accepted l) - len (retired l) = len (all_receipts js).
Proof. intros (done & rd & gs & H). by eapply coupled_in_flight. Qed.

(** ** One call at a time *)

Lemma in_order_replace js1 j j' js2 :
  (full j → full j') → (fresh j → fresh j') →
  in_order (js1 ++ j :: js2) → in_order (js1 ++ j' :: js2).
Proof.
  intros F R. induction js1 as [|k js1 IH]; simpl.
  - intuition.
  - intros [[?|Hf] ?]; split; auto. right.
    apply Forall_app in Hf as [? [? ?]%Forall_cons]. apply Forall_app; split; [done|].
    constructor; auto.
Qed.

(** A chunk about to be sent follows every chunk already sent. *)
Lemma in_order_next js1 j js2 :
  in_order (js1 ++ j :: js2) → (next j < length (chunks j))%nat →
  Forall full js1 → Forall fresh js2.
Proof.
  intros H Hn. induction js1 as [|k js1 IH]; simpl in H.
  - destruct H as [[E|?] _]; [unfold full in E; lia|done].
  - intros [_ ?]%Forall_cons. apply IH; [by destruct H|done].
Qed.

Lemma sent_fresh js : Forall fresh js → js ≫= sent = [].
Proof. induction 1 as [|j js E _ IH]; csimpl; [done|]. unfold sent at 1. by rewrite E, IH. Qed.

Lemma sent_full j : full j → sent j = work (submission_of j).
Proof. intros E. unfold sent. rewrite E. apply take_ge. unfold work. by rewrite length_fmap. Qed.

Lemma live_retire js1 j a r b js2 l :
  live (js1 ++ with_receipts j (a ++ r :: b) :: js2) l →
  live (js1 ++ with_receipts j (a ++ b) :: js2) (l ++ [Retired r]).
Proof.
  intros (done & rd & gs & H).
  pose proof (coupled_unbroken _ _ _ _ _ H) as HU.
  pose proof (coupled_balance _ _ _ _ _ H) as BAL.
  destruct H as [A C S R D RT J O L].
  apply Forall2_app_inv_l in J as (gs1 & gs2 & J1 & J2 & ->).
  apply Forall2_cons_inv_l in J2 as ([gv dn] & gs2' & [G N P B] & J2 & ->).
  simpl in G, N, P, B.
  assert (RT' : retired l ++ [r] ≡ₚ rd ++ ((gs1 ++ (gv, dn ++ [r]) :: gs2') ≫= snd)).
  { rewrite RT, !bind_app, !bind_cons. simpl. rewrite <-!(assoc_L (++)). do 3 f_equiv.
    by rewrite (Permutation_app_comm (gs2' ≫= snd)). }
  exists done, rd, (gs1 ++ (gv, dn ++ [r]) :: gs2').
  split; rewrite ?admitted_app, ?completed_app, ?accepted_app, ?accepted_receipts_app,
    ?retired_app; csimpl; rewrite ?app_nil_r; auto.
  - by rewrite A, !fmap_app.
  - by rewrite S, !bind_app, !bind_cons.
  - by rewrite R, !bind_app, !bind_cons.
  - apply Forall2_app; [done|]. constructor; [|done]. split; simpl; auto.
    rewrite P. solve_Permutation.
  - eapply in_order_replace; [..|exact O]; auto.
  - constructor; [done..|]. rewrite BAL. apply submseteq_app; [done|].
    apply singleton_submseteq_l. unfold all_receipts. rewrite bind_app, bind_cons.
    simpl. set_solver.
Qed.

Lemma live_admit js l cs o sig :
  live js l → len js < MAX_SUBMISSIONS →
  pending_bytes l + sum_sizes cs ≤ MAX_PENDING_BYTES →
  live (js ++ [mk_job cs o sig 0 [] (sum_sizes cs)]) (l ++ [Enqueued cs o sig]).
Proof.
  intros (done & rd & gs & H) HN HB.
  pose proof (coupled_unbroken _ _ _ _ _ H) as HU.
  pose proof (coupled_pending _ _ _ _ _ H) as HP.
  destruct H as [A C S R D RT J O L].
  exists done, rd, (gs ++ [([], [])]).
  split; rewrite ?admitted_app, ?completed_app, ?accepted_app, ?accepted_receipts_app,
    ?retired_app; csimpl; rewrite ?app_nil_r; auto.
  - by rewrite A, fmap_app, (assoc_L (++)).
  - rewrite S, bind_app. csimpl. by rewrite !app_nil_r.
  - rewrite R, bind_app. csimpl. by rewrite !app_nil_r.
  - rewrite RT, bind_app. csimpl. by rewrite !app_nil_r.
  - apply Forall2_app; [done|]. constructor; [|done]. split; simpl; auto; lia.
  - clear -O. induction js as [|j js IH]; simpl in *; [by auto|].
    destruct O as [HO ?]; split; [|by apply IH]. destruct HO as [?|HO]; [by left|right].
    apply Forall_app. by repeat constructor.
  - constructor; auto. rewrite HP. unfold len in *. by rewrite length_fmap.
Qed.

Lemma live_accept js1 j js2 l c r :
  live (js1 ++ j :: js2) l → chunks j !! next j = Some c →
  Forall full js1 →
  len (all_receipts (js1 ++ j :: js2)) < MAX_NATIVE_IN_FLIGHT →
  (requires_idle c = true → all_receipts (js1 ++ j :: js2) = []) →
  live (js1 ++ accept j r :: js2) (l ++ [Accepted (owner j) c r]).
Proof.
  intros (done & rd & gs & H) HC HF HM HI.
  pose proof (coupled_unbroken _ _ _ _ _ H) as HU.
  pose proof (coupled_balance _ _ _ _ _ H) as BAL.
  pose proof (coupled_in_flight _ _ _ _ _ H) as IFL.
  destruct H as [A C S R D RT J O L].
  pose proof (lookup_lt_Some _ _ _ HC) as HN.
  pose proof (in_order_next _ _ _ O HN HF) as HR.
  assert (HW : sent (accept j r) = sent j ++ [(owner j, c)]).
  { unfold sent, work. simpl. erewrite take_S_r; [done|]. by rewrite list_lookup_fmap, HC. }
  apply Forall2_app_inv_l in J as (gs1 & gs2 & J1 & J2 & ->).
  apply Forall2_cons_inv_l in J2 as ([gv dn] & gs2' & [G N P B] & J2 & ->).
  simpl in G, N, P, B.
  assert (HG : gs2' ≫= fst = ([] : list Receipt)).
  { clear -J2 HR. induction J2 as [|k g js gs [E _ _ _] _ IH]; [done|].
    apply Forall_cons in HR as [Z ?]. csimpl. rewrite IH by done. rewrite Z in E.
    by destruct g.1. }
  assert (HS : accepted l ++ [(owner j, c)] =
    (done ≫= work) ++ ((js1 ++ accept j r :: js2) ≫= sent)).
  { rewrite S, !bind_app, !bind_cons, HW, (sent_fresh js2 HR), !app_nil_r.
    by rewrite <-!(assoc_L (++)). }
  exists done, rd, (gs1 ++ (gv ++ [r], dn) :: gs2').
  split; rewrite ?admitted_app, ?completed_app, ?accepted_app, ?accepted_receipts_app,
    ?retired_app; csimpl; rewrite ?app_nil_r; auto.
  - by rewrite A, !fmap_app.
  - rewrite R, !bind_app, !bind_cons, HG. simpl. by rewrite !app_nil_r, <-!(assoc_L (++)).
  - by rewrite RT, !bind_app, !bind_cons.
  - apply Forall2_app; [done|]. constructor; [|done]. split; simpl; auto.
    + rewrite length_app. simpl. lia.
    + rewrite P. by rewrite (assoc_L (++)).
  - clear -O HF HR HN. induction HF as [|k js1 Hk _ IH]; simpl in *.
    + split; [by right|tauto].
    + split; [by left|tauto].
  - constructor; auto.
    + rewrite HS, A, fmap_app, fmap_cons, !bind_app, !bind_cons, (sent_fresh js2 HR), app_nil_r.
      assert (js1 ≫= sent = (submission_of <$> js1) ≫= work) as ->.
      { clear -HF. induction HF as [|k js1 Hk _ IH]; csimpl; [done|]. by rewrite IH, sent_full. }
      apply prefix_app, prefix_app, prefix_app_r, prefix_take.
    + lia.
    + intros HB. by rewrite BAL, HI, app_nil_r.
Qed.

Lemma live_complete j js l :
  live (j :: js) l → finished j = true →
  live js (l ++ [Completed (signal j) (inr ())]).
Proof.
  intros (done & rd & gs & H) HF.
  pose proof (coupled_unbroken _ _ _ _ _ H) as HU.
  destruct H as [A C S R D RT J O L].
  apply Forall2_cons_inv_l in J as ([gv dn] & gs' & [G N P B] & J & ->).
  simpl in G, N, P, B. unfold finished in HF. apply andb_prop in HF as [HF HE].
  apply Nat.eqb_eq in HF. destruct (receipts j) eqn:ER; [|done]. rewrite app_nil_r in P.
  csimpl in A. csimpl in R. csimpl in S. csimpl in RT. rewrite (sent_full j HF) in S.
  exists (done ++ [submission_of j]), (rd ++ gv), gs'.
  split; rewrite ?admitted_app, ?completed_app, ?accepted_app, ?accepted_receipts_app,
    ?retired_app; csimpl; rewrite ?app_nil_r; auto.
  - by rewrite A, <-!(assoc_L (++)).
  - by rewrite C, fmap_app.
  - rewrite S, bind_app. csimpl. by rewrite app_nil_r, <-!(assoc_L (++)).
  - by rewrite R, <-!(assoc_L (++)).
  - rewrite !length_app, bind_app, length_app, D. csimpl. rewrite app_nil_r. unfold work at 3.
    rewrite length_fmap. simpl. lia.
  - rewrite RT, P. by rewrite (assoc_L (++)).
  - by destruct O.
  - assert (HL : length (completed l) = length done) by by rewrite C, length_fmap.
    assert (HT : take (Datatypes.S (length (completed l))) (admitted l) = done ++ [submission_of j]).
    { rewrite HL, A. rewrite take_app_ge by lia.
      by replace (Datatypes.S (length done) - length done)%nat with 1%nat by lia. }
    assert (HW : length ((done ++ [submission_of j]) ≫= work) = length (rd ++ gv)).
    { rewrite bind_app, !length_app, D. csimpl. rewrite app_nil_r. unfold work at 2.
      rewrite length_fmap. simpl. lia. }
    eapply legal_complete with (cs := chunks j) (o := owner j); [done..| | reflexivity| |].
    + rewrite HL, A. by apply list_lookup_middle.
    + rewrite HT, HW, <-length_accepted, R, !length_app. lia.
    + rewrite HT, HW, R, (assoc_L (++)), take_app_length, RT, P.
      apply submseteq_app; [done|]. apply submseteq_inserts_r. done.
Qed.

(** ** The phases of [advance] *)

Lemma poll_receipts_live js1 j js2 rs : ∀ x a x' kept p err,
  poll_receipts x rs = (x', kept, p, err) →
  live (js1 ++ with_receipts j (a ++ rs) :: js2) (log x) →
  live (js1 ++ with_receipts j (a ++ kept) :: js2) (log x') ∧ kept `sublist_of` rs.
Proof.
  induction rs as [|r rs IH]; intros x a x' kept p err; simpl; intros HP HL.
  { by simplify_eq. }
  destruct (poll (world x) r) as [[e|[]] w]; [by simplify_eq| |].
  - destruct (poll_receipts _ rs) as [[[y k] q] er] eqn:E. simplify_eq.
    eapply live_retire in HL.
    edestruct IH as [? ?]; [exact E|exact HL|]. split; [done|by constructor].
  - destruct (poll_receipts _ rs) as [[[y k] q] er] eqn:E. simplify_eq.
    rewrite (cons_middle r a rs), (assoc_L (++)) in HL.
    edestruct IH as [HL' ?]; [exact E|exact HL|].
    rewrite <-(assoc_L (++)) in HL'. split; [done|by constructor].
Qed.

(** [j'] is [j] with some of its receipts dropped. *)
Definition polled j j' : Prop := ∃ rs, j' = with_receipts j rs ∧ rs `sublist_of` receipts j.

Lemma polled_refl j : polled j j.
Proof. exists (receipts j). by destruct j. Qed.

Lemma poll_jobs_live js : ∀ js1 x x' js' p err,
  poll_jobs x js = (x', js', p, err) →
  live (js1 ++ js) (log x) → live (js1 ++ js') (log x') ∧ Forall2 polled js js'.
Proof.
  induction js as [|j js IH]; intros js1 x x' js' p err; simpl; intros HP HL.
  { by simplify_eq. }
  destruct (poll_receipts x (receipts j)) as [[[y k] q] er] eqn:E.
  destruct (poll_receipts_live js1 j js (receipts j) x [] y k q er E) as [HL' HS].
  { by destruct j. }
  simpl in HL'.
  assert (HPj : polled j (with_receipts j k)) by by exists k.
  destruct er as [error|]; simplify_eq.
  - split; [done|]. constructor; [done|]. apply Forall2_same_length_lookup_2; [done|].
    intros i a b Ha Hb. simplify_eq. apply polled_refl.
  - destruct (poll_jobs y js) as [[[z k'] q'] er'] eqn:E'. simplify_eq.
    rewrite cons_middle, (assoc_L (++)) in HL'.
    destruct (IH _ _ _ _ _ _ E' HL') as [HL'' HF].
    rewrite <-(assoc_L (++)) in HL''. split; [done|by constructor].
Qed.

Definition sum_bytes js : Z := foldr Z.add 0 (job_bytes <$> js).

Lemma sum_bytes_app js1 js2 : sum_bytes (js1 ++ js2) = sum_bytes js1 + sum_bytes js2.
Proof. unfold sum_bytes. induction js1 as [|j js1 IH]; csimpl; [|rewrite IH]; lia. Qed.

Lemma sum_bytes_polled js js' : Forall2 polled js js' → sum_bytes js' = sum_bytes js.
Proof.
  unfold sum_bytes. induction 1 as [|j j' js js' (rs & -> & _) _ IH]; csimpl; [done|].
  by rewrite IH.
Qed.

Lemma in_flight_polled js js' :
  Forall2 polled js js' → len (all_receipts js') ≤ len (all_receipts js).
Proof.
  unfold all_receipts, len. induction 1 as [|j j' js js' (rs & -> & S) _ IH]; csimpl; [done|].
  rewrite !length_app. apply sublist_length in S. lia.
Qed.

Lemma live_bytes js l : live js l → pending_bytes l = sum_bytes js.
Proof.
  intros H. unfold pending_bytes. rewrite (live_pending _ _ H).
  destruct H as (done & rd & gs & []). clear - cp_jobs0.
  unfold sum_bytes. induction cp_jobs0 as [|j g js gs [_ _ _ B] _ IH]; csimpl; [done|].
  by rewrite IH, B.
Qed.

Lemma pop_finished_live js : ∀ x total,
  live js (log x) → total = sum_bytes js → Forall (λ j, 0 ≤ job_bytes j) js →
  ∃ x' js' total' b,
    pop_finished x js total = Ok (x', js', total', b) ∧ live js' (log x') ∧
    total' = sum_bytes js' ∧ js' `suffix_of` js ∧
    match js' with [] => True | j :: _ => finished j = false end.
Proof.
  induction js as [|j js IH]; intros x total HL HT HB; simpl.
  { by eexists _, _, _, _. }
  apply Forall_cons in HB as [H0 HB].
  destruct (finished j) eqn:F; [|by eexists _, _, _, _].
  assert (0 ≤ sum_bytes js).
  { clear -HB. unfold sum_bytes. induction HB; csimpl; lia. }
  assert (sum_bytes (j :: js) = job_bytes j + sum_bytes js) by done.
  unfold checked_sub. destruct (Z.leb_spec (job_bytes j) total); [simpl|lia].
  edestruct (IH (note x (complete (world x) (signal j) (inr ())) (Completed (signal j) (inr ()))))
    as (x' & js' & total' & b & E & HL' & HT' & HS & HF);
    [by apply live_complete| |done|].
  2: { rewrite E. simpl. eexists _, _, _, _. split; [done|].
       repeat (split; [done|]). split; [by apply suffix_cons_r|done]. }
  lia.
Qed.

(** [j'] is [j] with more of its chunks dispatched. *)
Definition advanced j j' : Prop :=
  chunks j' = chunks j ∧ owner j' = owner j ∧ signal j' = signal j ∧
  job_bytes j' = job_bytes j ∧ (next j ≤ next j')%nat.

Lemma advanced_refl j : advanced j j.
Proof. by repeat split. Qed.

Lemma in_flight_accept js1 j js2 r :
  len (all_receipts (js1 ++ accept j r :: js2)) = len (all_receipts (js1 ++ j :: js2)) + 1.
Proof.
  unfold all_receipts, len. rewrite !bind_app, !bind_cons, !length_app. simpl.
  rewrite length_app. simpl. lia.
Qed.

Lemma dispatch_chunks_live js1 js2 todo : ∀ x j n x' j' n' p e,
  dispatch_chunks x j n todo = (x', j', n', p, e) →
  todo = drop (next j) (chunks j) → Forall full js1 →
  live (js1 ++ j :: js2) (log x) →
  n = len (all_receipts (js1 ++ j :: js2)) → n ≤ MAX_NATIVE_IN_FLIGHT →
  live (js1 ++ j' :: js2) (log x') ∧ n' = len (all_receipts (js1 ++ j' :: js2)) ∧
  n' ≤ MAX_NATIVE_IN_FLIGHT ∧ advanced j j' ∧ (e = Exhausted → full j').
Proof.
  induction todo as [|c todo IH]; intros x j n x' j' n' p e HD HT HF HL HN HM; simpl in HD.
  - simplify_eq. split_and!; auto using advanced_refl. intros _. symmetry in HT.
    destruct HL as (done & rd & gs & []).
    apply Forall2_app_inv_l in cp_jobs0 as (gs1 & gs2 & _ & J & _).
    apply Forall2_cons_inv_l in J as (g & gs2' & [_ N _ _] & _ & _).
    apply (f_equal length) in HT. rewrite length_drop in HT. simpl in HT. unfold full. lia.
  - assert (HC : chunks j !! next j = Some c).
    { rewrite <-(Nat.add_0_r (next j)), <-lookup_drop, <-HT. done. }
    assert (HT' : todo = drop (S (next j)) (chunks j)).
    { rewrite <-Nat.add_1_r, <-drop_drop, <-HT. done. }
    assert (HS : ∀ w, live (js1 ++ j :: js2) (log (unnoted x w))) by done.
    destruct ((n =? MAX_NATIVE_IN_FLIGHT) || (negb (n =? 0) && requires_idle c)) eqn:G;
      [simplify_eq; split_and!; auto using advanced_refl; done|].
    apply orb_false_iff in G as [G1 G2]. apply Z.eqb_neq in G1.
    destruct (ready (world x) c) as [[er|[]] w];
      [simplify_eq; split_and!; auto using advanced_refl; done| |
       simplify_eq; split_and!; auto using advanced_refl; done].
    destruct (submit w (owner j) c) as [[[|er]|r] w'];
      [simplify_eq; split_and!; auto using advanced_refl; done..|].
    destruct (dispatch_chunks _ _ _ todo) as [[[[y k] m] q] en] eqn:E. simplify_eq.
    apply (live_accept _ _ _ _ c r) in HL; [|done|done|lia|].
    + eapply IH in E as (? & ? & ? & (? & ? & ? & ? & ?) & ?); [|done|done|exact HL| |].
      * split_and!; auto. split_and!; auto. simpl in *. lia.
      * by rewrite in_flight_accept.
      * lia.
    + intros RI. rewrite RI, andb_true_r in G2. apply negb_false_iff, Z.eqb_eq in G2.
      unfold len in G2. by apply length_zero_iff_nil; lia.
Qed.

Lemma dispatch_jobs_live js : ∀ js1 x n x' js' p e,
  dispatch_jobs x n js = (x', js', p, e) → Forall full js1 →
  live (js1 ++ js) (log x) → n = len (all_receipts (js1 ++ js)) →
  n ≤ MAX_NATIVE_IN_FLIGHT →
  live (js1 ++ js') (log x') ∧ len (all_receipts (js1 ++ js')) ≤ MAX_NATIVE_IN_FLIGHT ∧
  Forall2 advanced js js'.
Proof.
  induction js as [|j js IH]; intros js1 x n x' js' p e HD HF HL HN HM; simpl in HD.
  { simplify_eq. auto. }
  destruct (dispatch_chunks x j n _) as [[[[y k] m] q] en] eqn:E.
  eapply dispatch_chunks_live in E as (HL' & Hm & HM' & HA & HE); [|done..].
  assert (HR : Forall2 advanced js js).
  { apply Forall2_same_length_lookup_2; [done|]. intros. simplify_eq. apply advanced_refl. }
  destruct en; [|simplify_eq; split_and!; [done|lia|by constructor]..].
  destruct (dispatch_jobs y m js) as [[[z k'] q'] er'] eqn:E'. simplify_eq.
  rewrite cons_middle, (assoc_L (++)) in HL'.
  eapply IH in E' as (HL'' & HM'' & HF'); [| |exact HL'| |exact HM'].
  - rewrite <-(assoc_L (++)) in HL'', HM''. split_and!; [done..|by constructor].
  - apply Forall_app. auto.
  - by rewrite cons_middle, (assoc_L (++)).
Qed.

Lemma sum_bytes_advanced js js' : Forall2 advanced js js' → sum_bytes js' = sum_bytes js.
Proof.
  unfold sum_bytes. induction 1 as [|j j' js js' (_ & _ & _ & E & _) _ IH]; csimpl; [done|].
  by rewrite IH, E.
Qed.

(** What a legal log says of one accepted chunk. *)
Lemma legal_accepted l1 o c r l2 :
  legal (l1 ++ Accepted o c r :: l2) →
  (accepted l1 ++ [(o, c)]) `prefix_of` (admitted l1 ≫= work) ∧
  len (accepted l1) - len (retired l1) < MAX_NATIVE_IN_FLIGHT ∧
  (requires_idle c = true → retired l1 ≡ₚ accepted_receipts l1).
Proof.
  assert (HA : ∀ l k e, l ++ [e] = l1 ++ k → k ≠ [] → ∃ k', k = k' ++ [e] ∧ l = l1 ++ k').
  { intros l k e E Hk. destruct k as [|k0 e0 _] using rev_ind; [done|].
    rewrite (assoc_L (++)) in E. apply app_inj_tail in E as [-> ->]. eauto. }
  intros H. remember (l1 ++ Accepted o c r :: l2) as l eqn:E. revert l2 E.
  induction H as [|l cs o' sig _ IH|l o' c' r' _ IH ? HP HB HI|l r' _ IH|l cs o' sig n _ IH|l error _ IH HU];
    intros l2 E.
  { by destruct l1. }
  1-4: apply HA in E as (k & Ek & ->); [|done]; destruct k as [|e k];
    [simplify_list_eq|injection Ek as <- ->; eapply IH; reflexivity].
  - auto.
  - remember (pending l) as p eqn:Hp. clear Hp. revert l2 E.
    induction p as [|b p IHp] using rev_ind; intros l2 E; csimpl in E.
    { rewrite app_nil_r in E. by eapply IH. }
    rewrite fmap_app, (assoc_L (++)) in E. csimpl in E.
    apply HA in E as (k & Ek & E); [|done]. destruct k as [|e k]; [done|].
    injection Ek as <- _. by eapply IHp.
Qed.

(** ** The invariant of the queue *)

Record queue_inv s l : Prop := {
  qi_live : failure s = None → live (jobs s) l;
  qi_failed error : failure s = Some error →
    jobs s = [] ∧ legal l ∧ (completed l).*1 = (admitted l).*2;
  qi_bytes : bytes s = sum_bytes (jobs s);
  qi_limit : bytes s ≤ MAX_PENDING_BYTES;
  qi_sizes : Forall (λ j, 0 ≤ job_bytes j) (jobs s);
  qi_count : len (jobs s) ≤ MAX_SUBMISSIONS;
  qi_in_flight : len (all_receipts (jobs s)) ≤ MAX_NATIVE_IN_FLIGHT;
}.

Lemma complete_all_log js error : ∀ x,
  log (complete_all x js error) =
  log x ++ ((λ b, Completed b.2 (inl error)) <$> (submission_of <$> js)).
Proof.
  induction js as [|j js IH]; intros x; csimpl; [by rewrite app_nil_r|].
  unfold complete_all in *. simpl. rewrite IH. simpl. by rewrite <-(assoc_L (++)).
Qed.

Lemma completed_failures (k : list Submission) error :
  completed ((λ b, Completed b.2 (inl error)) <$> k) = (λ b, (b.2, inl error)) <$> k.
Proof. unfold completed. induction k as [|b k IH]; csimpl; [done|]. by rewrite IH. Qed.

Lemma admitted_failures (k : list Submission) error :
  admitted ((λ b, Completed b.2 (inl error)) <$> k) = [].
Proof. unfold admitted. induction k; csimpl; done. Qed.

Lemma fail_inv js total f x error :
  live js (log x) →
  queue_inv (fail (mk_scheduler js total f) x error).1
            (log (fail (mk_scheduler js total f) x error).2).
Proof.
  intros HL. unfold fail. simpl. split; simpl; try done.
  intros _ _. rewrite complete_all_log, <-(live_pending _ _ HL). split_and!; [done| |].
  - apply legal_fail; [by eapply live_legal|by eapply live_unbroken].
  - rewrite completed_app, admitted_app, admitted_failures, completed_failures, app_nil_r.
    rewrite (live_pending _ _ HL). destruct HL as (done & rd & gs & []).
    rewrite cp_admitted0, cp_completed0, !fmap_app, <-!list_fmap_compose. done.
Qed.

Lemma fail_again_inv s l x error :
  queue_inv s l → l = log x →
  queue_inv (fail s x error).1 (log (fail s x error).2).
Proof.
  intros [L F B M S C I] ->. destruct s as [js total [e|]]; simpl in *.
  - destruct (F e eq_refl) as (-> & HL & E). split; simpl; try done.
  - exact (fail_inv js total None x error (L eq_refl)).
Qed.

(** A failed scheduler has no jobs left, so [advance] does nothing. *)
Lemma advance_failed s x error :
  failure s = Some error → jobs s = [] → advance s x = Ok (s, x, false).
Proof. destruct s as [js b f]. unfold advance. simpl. by intros -> ->. Qed.

Lemma advance_live s x :
  failure s = None → queue_inv s (log x) →
  ∃ s' x' p, advance s x = Ok (s', x', p) ∧ queue_inv s' (log x').
Proof.
  intros HN [L _ B M S C I]. specialize (L HN). unfold advance.
  destruct (poll_jobs x (jobs s)) as [[[x1 js1] p1] err] eqn:E1.
  destruct (poll_jobs_live _ [] _ _ _ _ _ E1 L) as [L1 P1]. simpl in L1.
  destruct err as [error|].
  { exists (fail (mk_scheduler js1 (bytes s) (failure s)) x1 error).1, (fail
      (mk_scheduler js1 (bytes s) (failure s)) x1 error).2, true.
    split; [done|by apply fail_inv]. }
  assert (S1 : Forall (λ j, 0 ≤ job_bytes j) js1).
  { clear -P1 S. induction P1 as [|j j' js js' (rs & -> & _) _ IH]; [done|].
    apply Forall_cons in S as [? ?]. constructor; auto. }
  destruct (pop_finished_live js1 x1 (bytes s)) as (x2 & js2 & t2 & p2 & -> & L2 & T2 & [js0 U2] & _);
    [done|by rewrite B, (sum_bytes_polled _ _ P1)|done|].
  simpl. rewrite U2 in S1. apply Forall_app in S1 as [S0 S2].
  assert (H0 : 0 ≤ sum_bytes js0).
  { clear -S0. unfold sum_bytes. induction S0; csimpl; lia. }
  pose proof (sum_bytes_polled _ _ P1) as B1. rewrite U2, sum_bytes_app in B1.
  assert (I2 : len (all_receipts js2) ≤ MAX_NATIVE_IN_FLIGHT).
  { pose proof (in_flight_polled _ _ P1) as HI. rewrite U2 in HI.
    unfold all_receipts, len in *. rewrite bind_app, length_app in HI. lia. }
  assert (C2 : len js2 ≤ MAX_SUBMISSIONS).
  { apply Forall2_length in P1. rewrite U2, length_app in P1. unfold len in *. lia. }
  destruct (dispatch_jobs x2 _ js2) as [[[x3 js3] p3] e] eqn:E3.
  destruct (dispatch_jobs_live _ [] _ _ _ _ _ _ E3) as (L3 & I3 & A3); [done..|].
  simpl in L3, I3.
  assert (HQ : queue_inv (mk_scheduler js3 t2 (failure s)) (log x3)).
  { split; simpl; [done|by rewrite HN|by rewrite T2, (sum_bytes_advanced _ _ A3)|lia| | |done].
    - clear -A3 S2. induction A3 as [|j j' js js' (_ & _ & _ & E & _) _ IH]; [done|].
      apply Forall_cons in S2 as [? ?]. constructor; [by rewrite E|auto].
    - apply Forall2_length in A3. unfold len in *. by rewrite <-A3. }
  destruct e as [| |error]; [by eexists _, _, _..|].
  exists (fail (mk_scheduler js3 t2 (failure s)) x3 error).1,
    (fail (mk_scheduler js3 t2 (failure s)) x3 error).2, true.
  split; [done|by apply fail_inv].
Qed.

Lemma total_size_sum cs : ∀ acc b, total_size acc cs = Some b → b = acc + sum_sizes cs.
Proof.
  unfold sum_sizes. induction cs as [|c cs IH]; intros acc b; csimpl; [intros [= ->]; lia|].
  unfold checked_add. destruct (Z.leb_spec (acc + size c) U64_MAX); [|done].
  intros ->%IH. lia.
Qed.

Lemma enqueue_ok s cs o sig a b s' :
  enqueue s cs o sig a b = Ok s' →
  failure s = None ∧ len (jobs s) ≠ MAX_SUBMISSIONS ∧
  bytes s + sum_sizes cs ≤ MAX_PENDING_BYTES ∧
  s' = mk_scheduler (jobs s ++ [mk_job cs o sig 0 [] (sum_sizes cs)])
         (bytes s + sum_sizes cs) None.
Proof.
  unfold enqueue. destruct (failure s); [done|].
  destruct (total_size 0 cs) as [n|] eqn:E; [|done]. apply total_size_sum in E.
  destruct (Z.leb_spec n MAX_PENDING_BYTES); [|done].
  destruct ((len (jobs s) =? _) || _) eqn:G; [done|].
  apply orb_false_iff in G as [G1%Z.eqb_neq G2%Z.ltb_ge].
  destruct a, b; try done. simpl. unfold add_or_panic, checked_add, saturating_add in *.
  destruct (Z.leb_spec (bytes s + n) U64_MAX); [|done]. intros [= <-].
  unfold MAX_PENDING_BYTES, U64_MAX in *. rewrite Z.add_0_l in E. subst n.
  split_and!; [done..|lia|done].
Qed.

Lemma sum_sizes_nonneg `{!TransportLaws T} cs : 0 ≤ sum_sizes cs.
Proof.
  unfold sum_sizes. induction cs as [|c cs IH]; csimpl; [lia|].
  pose proof (size_nonneg c). lia.
Qed.

Lemma sched_enqueue_inv `{!TransportLaws T} s x cs o sig a b s' :
  queue_inv s (log x) → enqueue s cs o sig a b = Ok s' →
  queue_inv s' (log x ++ [Enqueued cs o sig]).
Proof.
  intros [L F B M S C I] (HN & HC & HB & ->)%enqueue_ok. specialize (L HN).
  assert (H0 : 0 ≤ sum_sizes cs).
  { apply sum_sizes_nonneg. }
  split; simpl; [|done| |done| | |].
  - intros _. apply live_admit; [done|unfold len in *; lia|]. by rewrite (live_bytes _ _ L), <-B.
  - rewrite sum_bytes_app, <-B. unfold sum_bytes. csimpl. lia.
  - apply Forall_app; split; [done|]. by constructor.
  - unfold len in *. rewrite length_app. simpl. lia.
  - unfold all_receipts. rewrite bind_app. csimpl. by rewrite app_nil_r.
Qed.

Lemma new_inv : queue_inv new [].
Proof.
  split; simpl; try done. intros _. exists [], [], []. split; try done. constructor.
Qed.

Lemma sched_step_inv `{!TransportLaws T} sx sx' :
  step sx sx' → queue_inv sx.1 (log sx.2) → queue_inv sx'.1 (log sx'.2).
Proof.
  intros HS HQ. destruct HS as [s x w|s x s' cs o sig a b E|s x s' x' p E|s x error].
  - done.
  - by eapply sched_enqueue_inv.
  - destruct (failure s) as [error|] eqn:F.
    + destruct (qi_failed _ _ HQ _ F) as [J _]. rewrite (advance_failed _ _ _ F J) in E.
      by injection E as <- <- <-.
    + destruct (advance_live s x F HQ) as (s'' & x'' & p' & E' & HQ').
      rewrite E in E'. by injection E' as -> -> ->.
  - by eapply fail_again_inv.
Qed.

Lemma sched_reachable_inv `{!TransportLaws T} s x : reachable (s, x) → queue_inv s (log x).
Proof.
  intros [w H]. change (queue_inv (s, x).1 (log (s, x).2)).
  assert (H0 : queue_inv (start w).1 (log (start w).2)) by apply new_inv.
  revert H0. induction H; eauto using sched_step_inv.
Qed.

Lemma reachable_legal `{!TransportLaws T} s x : reachable (s, x) → legal (log x).
Proof.
  intros H%sched_reachable_inv. destruct (failure s) as [error|] eqn:F.
  - by destruct (qi_failed _ _ H _ F) as (_ & ? & _).
  - exact (live_legal _ _ (qi_live _ _ H F)).
Qed.

(** C15: the scheduler implements its contract.  In every history of admissions,
    worker passes and declared failures, whatever the transport answers, the
    calls it made form a legal log; the queue never holds more than sixteen
    submissions, 64 MiB of pending chunks or sixteen native submissions in
    flight; and the next worker pass returns without an arithmetic panic. *)
Theorem scheduler_contract `{!TransportLaws T} s x :
  reachable (s, x) →
  legal (log x) ∧ len (jobs s) ≤ MAX_SUBMISSIONS ∧
  bytes s = sum_bytes (jobs s) ∧ bytes s ≤ MAX_PENDING_BYTES ∧
  len (all_receipts (jobs s)) ≤ MAX_NATIVE_IN_FLIGHT ∧
  ∃ s' x' progressed, advance s x = Ok (s', x', progressed).
Proof.
  intros H%sched_reachable_inv. destruct (failure s) as [error|] eqn:F.
  - destruct (qi_failed _ _ H _ F) as (J & HL & _). destruct H. split_and!; try done.
    exists s, x, false. by apply (advance_failed _ _ error).
  - destruct (advance_live s x F H) as (s' & x' & p & E & _).
    pose proof (live_legal _ _ (qi_live _ _ H F)). destruct H. split_and!; try done. eauto.
Qed.

(** Every signal is completed exactly once, in the order of admission: while
    the queue is healthy the completed signals are those admitted before the
    queued ones, all with success; after a failure every admitted signal has
    been completed, the queue is empty and stays failed, and nothing is admitted
    or dispatched any more. *)
Theorem scheduler_completes_once `{!TransportLaws T} s x :
  reachable (s, x) →
  match failure s with
  | None =>
      ∃ done, (admitted (log x)).*2 = done ++ (signal <$> jobs s) ∧
              completed (log x) = (λ sig, (sig, inr ())) <$> done
  | Some error =>
      (completed (log x)).*1 = (admitted (log x)).*2 ∧
      advance s x = Ok (s, x, false) ∧
      ∀ cs o sig a b, enqueue s cs o sig a b = Err (Failed error)
  end.
Proof.
  intros H%sched_reachable_inv. destruct (failure s) as [error|] eqn:F.
  - destruct (qi_failed _ _ H _ F) as (J & _ & E).
    split_and!; [done|by apply (advance_failed _ _ error)|].
    intros. unfold enqueue. by rewrite F.
  - destruct (qi_live _ _ H F) as (done & rd & gs & []).
    exists done.*2. rewrite cp_admitted0, cp_completed0, fmap_app, <-!list_fmap_compose. done.
Qed.

(** ** Progress with a cooperative transport *)

(** Every receipt polls as complete and every chunk is ready and accepted. *)
Class Cooperative : Prop := {
  polls_done w r : ∃ w', poll w r = (inr true, w');
  always_ready w c : ∃ w', ready w c = (inr true, w');
  submits w o c : ∃ r w', submit w o c = (inr r, w');
}.

Fixpoint advances (n : nat) (s : Scheduler) x : outcome Empty_set (Scheduler * Env) :=
  match n with
  | O => Ok (s, x)
  | S n => let? (s', x', _) := advance s x in advances n s' x'
  end.

(** The chunks of the queue that are still to be dispatched. *)
Definition remaining js : nat := sum_list_with (λ j, length (chunks j) - next j)%nat js.

Section Progress.
Context `{C : !Cooperative}.

Lemma poll_receipts_done rs : ∀ x, ∃ x' p, poll_receipts x rs = (x', [], p, None).
Proof.
  induction rs as [|r rs IH]; intros x; simpl; [eauto|].
  destruct (polls_done (world x) r) as [w' ->].
  destruct (IH (note x w' (Retired r))) as (x' & p & ->). eauto.
Qed.

Lemma poll_jobs_done js : ∀ x, ∃ x' p,
  poll_jobs x js = (x', (λ j, with_receipts j []) <$> js, p, None).
Proof.
  induction js as [|j js IH]; intros x; csimpl; [eauto|].
  destruct (poll_receipts_done (receipts j) x) as (x1 & p1 & ->).
  destruct (IH x1) as (x2 & p2 & ->). eauto.
Qed.

Lemma dispatch_chunks_ok todo : ∀ x j n,
  ∃ x' j' n' p e, dispatch_chunks x j n todo = (x', j', n', p, e) ∧
    (∀ error, e ≠ Broken error) ∧ chunks j' = chunks j ∧ (next j ≤ next j')%nat ∧
    (n = 0 → todo ≠ [] → (next j < next j')%nat).
Proof.
  induction todo as [|c todo IH]; intros x j n; simpl.
  { eexists _, _, _, _, _. split; [done|]. by split_and!. }
  destruct ((n =? MAX_NATIVE_IN_FLIGHT) || (negb (n =? 0) && requires_idle c)) eqn:G.
  { eexists _, _, _, _, _. split; [done|]. split_and!; try done. intros ->. done. }
  destruct (always_ready (world x) c) as [w ->].
  destruct (submits w (owner j) c) as (r & w' & ->).
  destruct (IH (note x w' (Accepted (owner j) c r)) (accept j r) (n + 1))
    as (x' & j' & n' & p & e & -> & He & Hc & Hn & _).
  simpl in *. eexists _, _, _, _, _. split; [done|]. split_and!; try done; lia.
Qed.

Lemma dispatch_jobs_ok js : ∀ x n,
  ∃ x' js' p e, dispatch_jobs x n js = (x', js', p, e) ∧ (∀ error, e ≠ Broken error) ∧
    (remaining js' ≤ remaining js)%nat ∧
    match js with
    | [] => True
    | j :: _ =>
        n = 0 → (next j < length (chunks j))%nat → (remaining js' < remaining js)%nat
    end.
Proof.
  induction js as [|j js IH]; intros x n; simpl.
  { eexists _, _, _, _. by split_and!. }
  destruct (dispatch_chunks_ok (drop (next j) (chunks j)) x j n)
    as (x1 & j1 & n1 & p1 & e1 & -> & H1 & C1 & N1 & S1).
  assert (HS : n = 0 → (next j < length (chunks j))%nat → (next j < next j1)%nat).
  { intros. apply S1; [done|]. intros E%(f_equal length).
    rewrite length_drop in E. simpl in E. lia. }
  destruct e1 as [| |error]; [| |by destruct (H1 error)].
  2: { eexists _, _, _, _; split; [done|]; unfold remaining; simpl; rewrite C1.
    split_and!; [done|lia|]; intros; specialize (HS ltac:(done) ltac:(done)); lia. }
  destruct (IH x1 n1) as (x2 & js2 & p2 & e2 & -> & H2 & R2 & _).
  eexists _, _, _, _; split; [done|]. unfold remaining in *; simpl; rewrite C1.
  split_and!; [done|lia|]. intros. specialize (HS ltac:(done) ltac:(done)). lia.
Qed.

Lemma remaining_suffix js js' : js' `suffix_of` js → (remaining js' ≤ remaining js)%nat.
Proof. intros [k ->]. unfold remaining. rewrite sum_list_with_app. lia. Qed.

Lemma advance_remaining s x :
  failure s = None → queue_inv s (log x) →
  ∃ s' x' p, advance s x = Ok (s', x', p) ∧ failure s' = None ∧ queue_inv s' (log x') ∧
    (remaining (jobs s') < remaining (jobs s) ∨ jobs s' = [])%nat.
Proof.
  intros F HQ. destruct (advance_live s x F HQ) as (s' & x' & p & E & HQ').
  eexists _, _, _. split; [done|].
  unfold advance in E.
  destruct (poll_jobs_done (jobs s) x) as (x1 & p1 & E1). rewrite E1 in E.
  destruct HQ as [L _ B _ S _ _].
  destruct (poll_jobs_live _ [] _ _ _ _ _ E1 (L F)) as [L1 P1]. simpl in L1.
  set (js1 := (λ j, with_receipts j []) <$> jobs s) in *.
  destruct (pop_finished_live js1 x1 (bytes s)) as (x2 & js2 & t2 & p2 & E2 & L2 & _ & U2 & H2);
    [done|by rewrite B, (sum_bytes_polled _ _ P1)| |].
  { unfold js1. rewrite Forall_fmap. done. }
  rewrite E2 in E. simpl in E.
  assert (R1 : remaining js1 = remaining (jobs s)).
  { unfold remaining, js1. clear. induction (jobs s) as [|j js IH]; csimpl; [done|]. by rewrite IH. }
  assert (HR : Forall (λ j, receipts j = []) js2).
  { destruct U2 as [k U2]. assert (HJ : Forall (λ j, receipts j = []) js1).
    { unfold js1. rewrite Forall_fmap. by apply Forall_true. }
    rewrite U2 in HJ. by apply Forall_app in HJ as [_ ?]. }
  assert (H0 : len (all_receipts js2) = 0).
  { clear -HR. unfold all_receipts, len. induction HR as [|j js E _ IH]; csimpl; [done|].
    by rewrite E. }
  destruct (dispatch_jobs_ok js2 x2 (len (all_receipts js2)))
    as (x3 & js3 & p3 & e & E3 & H3 & R3 & S3). rewrite E3 in E.
  assert (HE : s' = mk_scheduler js3 t2 (failure s)) by (destruct e as [| |error]; [by simplify_eq..|by destruct (H3 error)]).
  subst s'. simpl. split_and!; [done..|]. apply remaining_suffix in U2.
  destruct js2 as [|j js2]; [right; simpl in E3; by simplify_eq|left].
  apply Forall_cons in HR as [RJ _]. unfold finished in H2. rewrite RJ, andb_true_r in H2.
  apply Nat.eqb_neq in H2.
  destruct L2 as (? & ? & ? & [_ _ _ _ _ _ J _ _]).
  apply Forall2_cons_inv_l in J as (g & ? & [_ N _ _] & _).
  specialize (S3 H0 ltac:(lia)). lia.
Qed.

Lemma advances_drain n : ∀ s x,
  failure s = None → queue_inv s (log x) → (remaining (jobs s) < n)%nat →
  ∃ s' x', advances n s x = Ok (s', x') ∧ failure s' = None ∧ jobs s' = [] ∧
           queue_inv s' (log x').
Proof.
  induction n as [|n IH]; intros s x F HQ HR; [lia|]. simpl.
  destruct (advance_remaining s x F HQ) as (s1 & x1 & p & -> & F1 & HQ1 & H1). simpl.
  assert (∀ m s x, failure s = None → queue_inv s (log x) → jobs s = [] →
    ∃ s' x', advances m s x = Ok (s', x') ∧ failure s' = None ∧ jobs s' = [] ∧
             queue_inv s' (log x')) as HE.
  { clear -C. induction m as [|m IH]; intros s x F HQ HJ; simpl; [eauto 10|].
    destruct (advance_remaining s x F HQ) as (s1 & x1 & p & -> & F1 & HQ1 & H1). simpl.
    apply IH; [done..|]. destruct H1 as [H1|H1]; [|done].
    rewrite HJ in H1. unfold remaining in H1. simpl in H1. lia. }
  destruct H1 as [H1|H1]; [apply IH; [done..|lia]|by apply HE].
Qed.
End Progress.

(** C16: with a transport that accepts and finishes what it is given, a healthy
    queue drains: after one worker pass more than there are chunks still to
    dispatch, the queue is empty, has not failed, and every submission ever
    admitted has completed with success. *)
Theorem scheduler_drains `{!TransportLaws T, !Cooperative} s x n :
  reachable (s, x) → failure s = None → (remaining (jobs s) < n)%nat →
  ∃ s' x', advances n s x = Ok (s', x') ∧ failure s' = None ∧ jobs s' = [] ∧
    bytes s' = 0 ∧ completed (log x') = (λ b, (b.2, inr ())) <$> admitted (log x').
Proof.
  intros HI%sched_reachable_inv F HR.
  destruct (advances_drain n s x F HI HR) as (s' & x' & E & F' & J & HQ).
  exists s', x'. split_and!; [done..| |].
  - by rewrite (qi_bytes _ _ HQ), J.
  - destruct (qi_live _ _ HQ F') as (done & rd & gs & []).
    rewrite J in cp_admitted0. rewrite cp_completed0, cp_admitted0. csimpl.
    by rewrite app_nil_r.
Qed.

End Facts.
End SchedFacts.
