(* ===== verification/NativeQueue.v ===== *)
(** * The native transport of the SGFX Adreno backend

    [completion.rs] and [dispatch.rs]: completion signals and deadlines, the
    native chunks and the [Transport] instance through which the scheduler
    reaches the kernel queue, and the bodies of admission, idle checks and one
    turn of the worker.  The kernel's answers (completion queries, buffer
    writes, submissions, pipe writes) are functions of a clock that advances
    with every call, so they may change at any time.  The constants of the
    [gpu_raw] interface crate are parameters. *)
From stdpp Require Import gmap.
From S2P Require Import Prelude Scheduler SchedulerFacts.

Module Native.
Import Sched.

Inductive CompletionStatus := Pending | Complete.

#[global] Instance CompletionStatus_eq_dec : EqDecision CompletionStatus.
Proof. solve_decision. Defined.

(** The part of [IrSubmitError] these files produce. *)
Inductive IrSubmitError (HandleError : Type) :=
| Backend (error : HandleError)
| CompletionFailed (reason : Z)
| CompletionUnavailable.
Arguments Backend {HandleError}.
Arguments CompletionFailed {HandleError}.
Arguments CompletionUnavailable {HandleError}.

Record GpuCompletionInfo := mk_info {
  abi_version : Z;
  info_result : Z;
  state : Z;
  info_failure : Z;
  reserved : Z;
  reserved2 : Z;
}.

(** The constants of the interface crate. *)
Record GpuRaw := mk_gpu_raw {
  GPU_ABI_VERSION : Z;
  GPU_RESULT_SUCCESS : Z;
  GPU_COMPLETION_PENDING : Z;
  GPU_COMPLETION_COMPLETE : Z;
  GPU_COMPLETION_FAILED : Z;
  GPU_COMPLETION_FAILURE_NONE : Z;
  GPU_COMPLETION_FAILURE_DEVICE_LOST : Z;
  GPU_COMPLETION_FAILURE_ABANDONED : Z;
  GPU_COMPLETION_FAILURE_EXECUTION : Z;
}.

Section Status.
Context {HandleError : Type} (raw : GpuRaw).

Definition completion_status (info : GpuCompletionInfo) :
    outcome (IrSubmitError HandleError) CompletionStatus :=
  if negb (abi_version info =? GPU_ABI_VERSION raw)
     || negb (info_result info =? GPU_RESULT_SUCCESS raw)
     || negb (reserved info =? 0) || negb (reserved2 info =? 0)
  then Err CompletionUnavailable
  else if (state info =? GPU_COMPLETION_PENDING raw)
          && (info_failure info =? GPU_COMPLETION_FAILURE_NONE raw) then Ok Pending
  else if (state info =? GPU_COMPLETION_COMPLETE raw)
          && (info_failure info =? GPU_COMPLETION_FAILURE_NONE raw) then Ok Complete
  else if (state info =? GPU_COMPLETION_FAILED raw)
          && ((info_failure info =? GPU_COMPLETION_FAILURE_DEVICE_LOST raw)
              || (info_failure info =? GPU_COMPLETION_FAILURE_ABANDONED raw)
              || (info_failure info =? GPU_COMPLETION_FAILURE_EXECUTION raw))
  then Err (CompletionFailed (info_failure info))
  else Err CompletionUnavailable.
End Status.

Definition I64_MAX : Z := 0x7fffffffffffffff.

(** A [Duration] is its number of nanoseconds. *)
Definition remaining_timeout_ns (timeout : option Z) (started now : Z) : Z :=
  match timeout with
  | None => -1
  | Some t => Z.min (saturating_sub t (saturating_sub now started)) I64_MAX
  end.

(** ** Failures *)

Inductive Failure (HandleError : Type) :=
| FBackend (error : HandleError)
| FCompletion (reason : Z)
| FUnavailable.
Arguments FBackend {HandleError}.
Arguments FCompletion {HandleError}.
Arguments FUnavailable {HandleError}.

Definition into_error {HandleError} (f : Failure HandleError) : IrSubmitError HandleError :=
  match f with
  | FBackend error => Backend error
  | FCompletion reason => CompletionFailed reason
  | FUnavailable => CompletionUnavailable
  end.

(** [native_status]: [None] is a failed query. *)
Definition native_status {HandleError} (raw : GpuRaw) (query : option GpuCompletionInfo) :
    Failure HandleError + bool :=
  match query with
  | None => inl FUnavailable
  | Some info =>
      match completion_status (HandleError := HandleError) raw info with
      | Ok status => inr (bool_decide (status = Complete))
      | Err (CompletionFailed reason) => inl (FCompletion reason)
      | _ => inl FUnavailable
      end
  end.

(** ** Wake-up events and completion signals *)

(** [written] counts the bytes waiting in the pipe. *)
Record Event := mk_event { signalled : bool; written : Z }.

(** [accepts] is whether the pipe took the byte. *)
Definition notify (e : Event) (accepts : bool) : Event :=
  if signalled e then e
  else if accepts then mk_event true (written e + 1)
  else mk_event false (written e).

(** [consume] finds the pipe readable exactly when a byte waits in it. *)
Definition consume (e : Event) : Event :=
  if written e =? 0 then e else mk_event false (written e - 1).

Record Signal (HandleError : Type) := mk_signal {
  sig_result : option (Failure HandleError + ());
  sig_event : Event;
}.
Arguments mk_signal {HandleError}.
Arguments sig_result {HandleError}.
Arguments sig_event {HandleError}.

Definition signal_new {HandleError} : Signal HandleError := mk_signal None (mk_event false 0).

Definition signal_poll {HandleError} (result : option (Failure HandleError + ())) :
    outcome (IrSubmitError HandleError) CompletionStatus :=
  match result with
  | None => Ok Pending
  | Some (inr _) => Ok Complete
  | Some (inl error) => Err (into_error error)
  end.

Definition signal_complete {HandleError} (s : Signal HandleError)
    (result : Failure HandleError + ()) (accepts : bool) : Signal HandleError :=
  mk_signal (Some result) (notify (sig_event s) accepts).

(** [Signal::wait].  In turn [k] of the loop the result mutex holds [seen k],
    the clock reads [now k], and [interrupted k] is the answer of the pipe
    poll.  [None] when the fuel is spent. *)
Section Wait.
Context {HandleError : Type}.
Variable seen : nat → option (Failure HandleError + ()).
Variable now : nat → Z.
Variable interrupted : nat → option HandleError.

Fixpoint wait_from (fuel k : nat) (timeout : option Z) (started : Z) :
    option (outcome (IrSubmitError HandleError) CompletionStatus) :=
  match fuel with
  | O => None
  | S fuel =>
      match signal_poll (seen k) with
      | Ok Pending =>
          if remaining_timeout_ns timeout started (now k) =? 0 then Some (Ok Pending)
          else match interrupted k with
               | Some error => Some (Err (Backend error))
               | None => wait_from fuel (S k) timeout started
               end
      | m => Some m
      end
  end.

(** [Submission::wait]: a zero timeout polls. *)
Definition submission_wait (fuel : nat) (timeout : option Z) (started : Z) :
    option (outcome (IrSubmitError HandleError) CompletionStatus) :=
  match timeout with
  | Some 0 => Some (signal_poll (seen 0%nat))
  | _ => wait_from fuel 0 timeout started
  end.
End Wait.

(** The pipe poll of one turn never sleeps past the deadline. *)
Definition wait_duration (remaining : Z) : Z :=
  if remaining <? 0 then 100000000 else Z.min remaining 100000000.

(** ** Native chunks *)

Record UploadArena := mk_arena { arena_id : Z; arena_buffer : Z }.

Inductive Chunk :=
| Commands (commands : list Z) (arena : UploadArena) (uploads : list (Z * list Z))
| WriteBuffer (buffer offset : Z) (data : list Z)
| Barrier.

Inductive Receipt :=
| NativeReceipt (completion : Z)
| Cpu.

Definition chunk_size (c : Chunk) : Z :=
  match c with
  | Commands commands _ uploads =>
      foldl (λ size u, saturating_add U64_MAX size (len u.2)) (len commands) uploads
  | WriteBuffer _ _ data => len data
  | Barrier => 0
  end.

Definition chunk_requires_idle (c : Chunk) : bool :=
  match c with Commands _ _ _ => false | _ => true end.

(** What the kernel answers a submission. *)
Inductive GpuSubmitAnswer (HandleError : Type) :=
| GAccepted (completion : Z)
| GBusy
| GRejected (error : HandleError)
| GFailed (error : HandleError)
| GOther.
Arguments GAccepted {HandleError}.
Arguments GBusy {HandleError}.
Arguments GRejected {HandleError}.
Arguments GFailed {HandleError}.
Arguments GOther {HandleError}.

(** The interior state of arenas and signals, the writes made so far, newest
    first, and the clock. *)
Record World (HandleError : Type) := mk_world {
  clock : nat;
  arenas : gmap Z Z;
  signals : gmap Z (Signal HandleError);
  writes : list (Z * Z * list Z);
}.
Arguments mk_world {HandleError}.
Arguments clock {HandleError}.
Arguments arenas {HandleError}.
Arguments signals {HandleError}.
Arguments writes {HandleError}.

Section Queue.
Context {HandleError : Type} (raw : GpuRaw).
Variable query : nat → Z → option GpuCompletionInfo.
Variable buffer_write : nat → Z → Z → list Z → option HandleError.
Variable submit_async : nat → Z → list Z → GpuSubmitAnswer HandleError.
Variable pipe_accepts : nat → bool.
Abbreviation world := (World HandleError).
Abbreviation queue_state := (@Scheduler Chunk Z Receipt Z (Failure HandleError)).
Abbreviation queue_env := (@Env Chunk Z Receipt Z (Failure HandleError) world).

Definition tick (w : world) : world :=
  mk_world (S (clock w)) (arenas w) (signals w) (writes w).
Definition wrote (w : world) (buffer offset : Z) (data : list Z) : world :=
  mk_world (S (clock w)) (arenas w) (signals w) ((buffer, offset, data) :: writes w).

Definition native_ready (w : world) (c : Chunk) : (Failure HandleError + bool) * world :=
  match c with
  | Commands _ arena _ =>
      match arenas w !! arena_id arena with
      | None => (inr true, w)
      | Some completion => (native_status raw (query (clock w) completion), tick w)
      end
  | _ => (inr true, w)
  end.

Fixpoint write_uploads (w : world) (buffer : Z) (uploads : list (Z * list Z)) :
    option HandleError * world :=
  match uploads with
  | [] => (None, w)
  | (offset, bytes) :: uploads =>
      match buffer_write (clock w) buffer offset bytes with
      | Some error => (Some error, tick w)
      | None => write_uploads (wrote w buffer offset bytes) buffer uploads
      end
  end.

Definition native_submit (w : world) (queue : Z) (c : Chunk) :
    (DispatchError (Failure HandleError) + Receipt) * world :=
  match c with
  | Barrier => (inr Cpu, w)
  | WriteBuffer buffer offset data =>
      match buffer_write (clock w) buffer offset data with
      | Some error => (inl (DispatchFailed (FBackend error)), tick w)
      | None => (inr Cpu, wrote w buffer offset data)
      end
  | Commands commands arena uploads =>
      match write_uploads w (arena_buffer arena) uploads with
      | (Some error, w) => (inl (DispatchFailed (FBackend error)), w)
      | (None, w) =>
          match submit_async (clock w) queue commands with
          | GAccepted completion =>
              (inr (NativeReceipt completion),
               mk_world (S (clock w)) (<[arena_id arena := completion]> (arenas w))
                 (signals w) (writes w))
          | GBusy => (inl DispatchBusy, tick w)
          | GRejected error | GFailed error =>
              (inl (DispatchFailed (FBackend error)), tick w)
          | GOther => (inl (DispatchFailed FUnavailable), tick w)
          end
      end
  end.

Definition native_poll (w : world) (r : Receipt) : (Failure HandleError + bool) * world :=
  match r with
  | NativeReceipt completion => (native_status raw (query (clock w) completion), tick w)
  | Cpu => (inr true, w)
  end.

Definition native_complete (w : world) (sig : Z) (result : Failure HandleError + ()) : world :=
  mk_world (S (clock w)) (arenas w)
    (alter (λ s, signal_complete s result (pipe_accepts (clock w))) sig (signals w)) (writes w).

#[export] Instance native : Transport Chunk Z Receipt Z (Failure HandleError) world := {|
  size := chunk_size;
  requires_idle := chunk_requires_idle;
  ready := native_ready;
  submit := native_submit;
  poll := native_poll;
  complete := native_complete;
|}.

(** ** Admission and observation *)

(** [NativeScheduler::enqueue] once the signal [sig] exists; [unlocked] is the
    answer of [try_lock]. *)
Definition native_enqueue (unlocked receipts_fit jobs_fit : bool)
    (s : queue_state) (owner : Z) (chunks : list Chunk) (sig : Z) :
    outcome (AdmissionError (Failure HandleError)) queue_state :=
  let? _ := require unlocked Busy in
  enqueue s chunks owner sig receipts_fit jobs_fit.

Variable SystemError : HandleError.

(** [is_idle]. *)
Definition is_idle (unlocked : bool) (s : queue_state) (w : world) : outcome HandleError bool :=
  if negb unlocked then Ok false
  else match failure s with
       | Some _ => Err SystemError
       | None =>
           match last_signal s with
           | None => Ok true
           | Some sig =>
               match signal_poll (signals w !! sig ≫= sig_result) with
               | Ok status => Ok (bool_decide (status = Complete))
               | _ => Err SystemError
               end
           end
       end.

(** One turn of [run] under the scheduler lock: [None] when the worker
    returns, otherwise whether it made progress and whether work is left. *)
Definition worker_turn (closing : bool) (s : queue_state) (x : queue_env) :
    outcome Empty_set (queue_state * queue_env * option (bool * bool)) :=
  let? (s', x', progressed) := advance s x in
  Ok (s', x',
      match failure s' with
      | Some _ => None
      | None => if is_empty s' && closing then None
                else Some (progressed, negb (is_empty s'))
      end).

(** The worker's guard fails whatever it leaves behind. *)
Definition worker_exit (s : queue_state) (x : queue_env) : queue_state * queue_env :=
  if is_empty s then (s, x) else fail s x FUnavailable.

(** The poll timeout of a turn without progress, given the number of handles. *)
Definition worker_timeout (pending : bool) (handles : Z) : Z :=
  if pending && (handles =? 1) then 1000000 else 100000000.

End Queue.
End Native.

(** * What the native transport adds to the scheduler's contract

    Waiting on a completion signal, CPU writes behind the scheduler, arenas,
    and a run of the native queue on which the theorems of the scheduler are
    instantiated. *)

Module NativeFacts.
Import Sched SchedFacts Native.

(** ** Waiting *)

Lemma remaining_zero_iff timeout started now :
  remaining_timeout_ns timeout started now = 0 ↔
  ∃ t, timeout = Some t ∧ t ≤ Z.max 0 (now - started).
Proof.
  unfold remaining_timeout_ns, saturating_sub, I64_MAX. destruct timeout as [t|].
  - split; [intros; exists t; split; [done|lia]|]. intros (t' & [= <-] & ?). lia.
  - split; [done|]. by intros (t & ? & _).
Qed.

Section Wait.
Context {HandleError : Type}.
Variable seen : nat → option (Failure HandleError + ()).
Variable now : nat → Z.
Variable interrupted : nat → option HandleError.
Abbreviation wait := (wait_from seen now interrupted).

(** What one call of [wait] answers in its turn [j]. *)
Definition answer (timeout : option Z) (started : Z) (j : nat)
    (m : outcome (IrSubmitError HandleError) CompletionStatus) : Prop :=
  match seen j with
  | Some (inr _) => m = Ok Complete
  | Some (inl error) => m = Err (into_error error)
  | None =>
      if remaining_timeout_ns timeout started (now j) =? 0 then m = Ok Pending
      else ∃ error, interrupted j = Some error ∧ m = Err (Backend error)
  end.

(** The loop goes round in turn [j]. *)
Definition idle_turn (timeout : option Z) (started : Z) (j : nat) : Prop :=
  seen j = None ∧ remaining_timeout_ns timeout started (now j) ≠ 0 ∧ interrupted j = None.

Lemma wait_from_spec fuel : ∀ k timeout started m,
  wait fuel k timeout started = Some m ↔
  ∃ j, (k ≤ j < k + fuel)%nat ∧ (∀ i, (k ≤ i < j)%nat → idle_turn timeout started i) ∧
       answer timeout started j m.
Proof.
  induction fuel as [|fuel IH]; intros k timeout started m; simpl.
  { split; [done|]. intros (j & ? & _). lia. }
  assert (HA : ∀ m', answer timeout started k m' → ¬ idle_turn timeout started k →
    (Some m' = Some m) ↔ ∃ j, (k ≤ j < k + S fuel)%nat ∧
      (∀ i, (k ≤ i < j)%nat → idle_turn timeout started i) ∧ answer timeout started j m).
  { intros m' H1 H2. split.
    - intros [= <-]. exists k. split; [lia|]. split; [intros; lia|done].
    - intros (j & Hj & Hi & HA). destruct (decide (j = k)) as [->|].
      + f_equal. clear -H1 HA. unfold answer in *. destruct (seen k) as [[]|]; [congruence..|].
        destruct (_ =? _); [congruence|].
        destruct H1 as (? & ? & ?), HA as (? & ? & ?). congruence.
      + exfalso. apply H2, Hi. lia. }
  unfold signal_poll. unfold answer, idle_turn in HA.
  destruct (seen k) as [[error|[]]|] eqn:S; [apply HA; [done|by intros [? _]]..|].
  destruct (Z.eqb_spec (remaining_timeout_ns timeout started (now k)) 0) as [R|R].
  { apply HA; [done|by intros (_ & ? & _)]. }
  destruct (interrupted k) as [error|] eqn:I.
  { apply HA; [eauto|by intros (_ & _ & ?)]. }
  rewrite IH. clear HA. split.
  - intros (j & Hj & Hi & HA). exists j. split; [lia|]. split; [|done].
    intros i Hk. destruct (decide (i = k)) as [->|]; [done|]. apply Hi. lia.
  - intros (j & Hj & Hi & HA). exists j. split; [|split; [|done]].
    + destruct (decide (j = k)) as [->|]; [|lia]. exfalso. unfold answer in HA.
      rewrite S, I in HA. apply Z.eqb_neq in R. rewrite R in HA.
      by destruct HA as (? & ? & _).
    + intros i Hk. apply Hi. lia.
Qed.

(** Either the first [n] turns go round, or one of them is the first to answer. *)
Lemma first_answer timeout started n :
  (∀ i, (i < n)%nat → idle_turn timeout started i) ∨
  ∃ i m, (i < n)%nat ∧ (∀ i', (i' < i)%nat → idle_turn timeout started i') ∧
         answer timeout started i m.
Proof.
  induction n as [|n [IH|(i & m & ? & ?)]]; [left; lia| |right; exists i, m; split; [lia|done]].
  assert (idle_turn timeout started n ∨ ∃ m, answer timeout started n m) as [H|[m H]].
  - unfold idle_turn, answer. destruct (seen n) as [[]|]; [right; eauto..|].
    destruct (Z.eqb_spec (remaining_timeout_ns timeout started (now n)) 0); [right; eauto|].
    destruct (interrupted n); [right; eauto|by left].
  - left. intros i Hi. destruct (decide (i = n)) as [->|]; [done|]. apply IH. lia.
  - right. exists n, m. auto.
Qed.

(** waiting for a submission.  The loop answers within [j + 1] turns as
    soon as, in turn [j], the signal is terminal, the pipe poll fails or the
    deadline has passed; it answers Complete only for a signal completed with
    success, and Pending only when the caller's timeout has elapsed. *)
Theorem signal_wait timeout started j :
  seen j ≠ None ∨ interrupted j ≠ None ∨
    (∃ t, timeout = Some t ∧ t ≤ now j - started) ∧ 0 ≤ now j - started →
  ∃ m, wait (S j) 0 timeout started = Some m ∧
    (m = Ok Complete → ∃ i, seen i = Some (inr ())) ∧
    (m = Ok Pending → ∃ i t, seen i = None ∧ timeout = Some t ∧ t ≤ Z.max 0 (now i - started)).
Proof.
  intros H.
  assert (HJ : ¬ idle_turn timeout started j).
  { intros (H1 & H2 & H3). destruct H as [?|[?|[(t & -> & ?) ?]]]; [done..|].
    apply H2, remaining_zero_iff. exists t. split; [done|lia]. }
  destruct (first_answer timeout started (S j)) as [HI|(i & m & Hi & HI & HA)].
  { destruct HJ. apply HI. lia. }
  exists m. split.
  { apply wait_from_spec. exists i. split; [lia|]. split; [|done]. intros. apply HI. lia. }
  unfold answer in HA.
  destruct (seen i) as [[error|[]]|] eqn:S.
  - subst m. split; by destruct error.
  - subst m. split; [eauto|done].
  - destruct (Z.eqb_spec (remaining_timeout_ns timeout started (now i)) 0) as [R|R].
    + subst m. split; [done|]. intros _. apply remaining_zero_iff in R as (t & ? & ?). eauto.
    + destruct HA as (? & ? & ->). done.
Qed.
End Wait.

(** ** The native queue *)

#[export] Instance native_laws {HandleError} raw query buffer_write submit_async pipe_accepts :
  TransportLaws (native (HandleError := HandleError) raw query buffer_write submit_async
    pipe_accepts).
Proof.
  split. intros [commands arena uploads|buffer offset data|]; simpl; unfold chunk_size, len; try lia.
  assert (∀ acc, 0 ≤ acc →
    0 ≤ foldl (λ size u, saturating_add U64_MAX size (len u.2)) acc uploads) as H; [|apply H; lia].
  induction uploads as [|u uploads IH]; intros acc H; simpl; [done|].
  apply IH. unfold saturating_add, U64_MAX, len. lia.
Qed.

Section Native.
Context {HandleError : Type} (raw : GpuRaw).
Variable query : nat → Z → option GpuCompletionInfo.
Variable buffer_write : nat → Z → Z → list Z → option HandleError.
Variable submit_async : nat → Z → list Z → GpuSubmitAnswer HandleError.
Variable pipe_accepts : nat → bool.
Existing Instance native_laws.

(** C17: a CPU write through the queue never overlaps GPU work.  Whenever the
    worker has carried out a queued buffer write, every native submission it had
    made before was retired, and everything admitted earlier had been
    dispatched. *)
Theorem buffer_writes_are_serialised s x l1 o buffer offset data r l2 :
  reachable (T := native raw query buffer_write submit_async pipe_accepts) (s, x) →
  log x = l1 ++ Accepted o (WriteBuffer buffer offset data) r :: l2 →
  retired l1 ≡ₚ accepted_receipts l1 ∧
  accepted l1 ++ [(o, WriteBuffer buffer offset data)] `prefix_of` (admitted l1 ≫= work).
Proof.
  intros HL%reachable_legal E.
  rewrite E in HL. apply legal_accepted in HL as (HP & _ & HI). auto.
Qed.
End Native.

(** ** A run

    Two submissions, [A] of a command chunk and a buffer write, [B] of a
    command chunk, on a kernel that finishes everything at once. *)
Definition sample_raw : GpuRaw := mk_gpu_raw 1 0 0 1 2 0 1 2 3.
Definition sample_query (_ : nat) (_ : Z) : option GpuCompletionInfo :=
  Some (mk_info 1 0 1 0 0 0).
Definition sample_write (_ : nat) (_ _ : Z) (_ : list Z) : option () := None.
Definition sample_submit (n : nat) (_ : Z) (_ : list Z) : GpuSubmitAnswer () :=
  GAccepted (Z.of_nat n).
#[export] Instance sample_transport : Transport Chunk Z Receipt Z (Failure ()) (World ()) :=
  native sample_raw sample_query sample_write sample_submit (λ _, true).
Definition sample_world : World () :=
  mk_world 0 ∅ {[ 1 := signal_new; 2 := signal_new ]} [].
Definition chunk_a : Chunk := Commands [1; 2] (mk_arena 0 5) [(0, [7; 7])].
Definition chunk_b : Chunk := Commands [3] (mk_arena 1 6) [].
Definition sample_job_a := [chunk_a; WriteBuffer 9 4 [8; 8; 8; 8]].

Definition sample_state (n : nat) :
    option (@Scheduler Chunk Z Receipt Z (Failure ()) *
            @Env Chunk Z Receipt Z (Failure ()) (World ())) :=
  let s0 := start sample_world in
  match enqueue s0.1 sample_job_a 3 1 true true with
  | Ok s1 =>
      let x1 := note s0.2 (world s0.2) (Enqueued sample_job_a 3 1) in
      match enqueue s1 [chunk_b] 3 2 true true with
      | Ok s2 =>
          let x2 := note x1 (world x1) (Enqueued [chunk_b] 3 2) in
          match advances n s2 x2 with Ok sx => Some sx | _ => None end
      | _ => None
      end
  | _ => None
  end.

Lemma advances_reachable n : ∀ s x s' x',
  advances n s x = Ok (s', x') → reachable (s, x) → reachable (s', x').
Proof.
  induction n as [|n IH]; intros s x s' x'; simpl; [by intros [= -> ->]|].
  destruct (advance s x) as [[[s1 x1] p]| |] eqn:E; [|done..].
  simpl. intros HA [w H]. eapply IH; [exact HA|]. exists w. eapply rtc_r; [exact H|].
  by eapply step_advance.
Qed.

Lemma sample_reachable n s x : sample_state n = Some (s, x) → reachable (s, x).
Proof.
  unfold sample_state. destruct (enqueue _ _ _ _ _ _) as [s1| |] eqn:E1; [|done..].
  destruct (enqueue s1 _ _ _ _ _) as [s2| |] eqn:E2; [|done..].
  destruct (advances n s2 _) as [[s' x']| |] eqn:E3; [|done..]. intros [= -> ->].
  eapply advances_reachable; [exact E3|]. exists sample_world.
  eapply rtc_r; [|by eapply step_enqueue]. eapply rtc_r; [|by eapply step_enqueue].
  apply rtc_refl.
Qed.

#[export] Instance sample_laws : TransportLaws sample_transport.
Proof. apply native_laws. Qed.

#[export] Instance sample_cooperative : Cooperative (T := sample_transport).
Proof.
  split.
  - intros w [c|]; eexists; reflexivity.
  - intros w [commands arena uploads|buffer offset data|]; [|eexists; reflexivity..].
    simpl. unfold native_ready. destruct (arenas w !! arena_id arena); eexists; reflexivity.
  - intros w o [commands arena uploads|buffer offset data|]; [|eexists _, _; reflexivity..].
    simpl. unfold native_submit.
    assert (∀ b w, ∃ w', write_uploads sample_write w b uploads = (None, w')) as H.
    { intros b. induction uploads as [|[off bytes] uploads IH]; intros w0; simpl; eauto. }
    destruct (H (arena_buffer arena) w) as [w' ->]. eexists _, _. reflexivity.
Qed.

Definition sample_sx (n : nat) :=
  match sample_state n with Some sx => sx | None => start sample_world end.

Lemma sample_sx_reachable n : reachable ((sample_sx n).1, (sample_sx n).2).
Proof.
  unfold sample_sx. destruct (sample_state n) as [[s x]|] eqn:E; [by eapply sample_reachable|].
  exists sample_world. apply rtc_refl.
Qed.

(** After one turn, the first chunk is in flight and everything else waits. *)
Example sample_first_turn :
  log (sample_sx 1).2 =
    [Enqueued sample_job_a 3 1; Enqueued [chunk_b] 3 2;
     Accepted 3 chunk_a (NativeReceipt 1)] ∧
  writes (world (sample_sx 1).2) = [(5, 0, [7; 7])].
Proof. split; reflexivity. Qed.

Lemma sample_second_log :
  log (sample_sx 2).2 =
    [Enqueued sample_job_a 3 1; Enqueued [chunk_b] 3 2;
     Accepted 3 chunk_a (NativeReceipt 1); Retired (NativeReceipt 1)]
    ++ Accepted 3 (WriteBuffer 9 4 [8; 8; 8; 8]) Cpu :: [Accepted 3 chunk_b (NativeReceipt 4)].
Proof. reflexivity. Qed.

Lemma scheduler_contract_witness :
  legal (log (sample_sx 1).2) ∧ len (jobs (sample_sx 1).1) ≤ MAX_SUBMISSIONS ∧
  bytes (sample_sx 1).1 = sum_bytes (jobs (sample_sx 1).1) ∧
  bytes (sample_sx 1).1 ≤ MAX_PENDING_BYTES ∧
  len (all_receipts (jobs (sample_sx 1).1)) ≤ MAX_NATIVE_IN_FLIGHT ∧
  ∃ s' x' progressed, advance (sample_sx 1).1 (sample_sx 1).2 = Ok (s', x', progressed).
Proof. exact (scheduler_contract _ _ (sample_sx_reachable 1)). Defined.

Lemma scheduler_completes_once_witness :
  match failure (sample_sx 4).1 with
  | None =>
      ∃ done, (admitted (log (sample_sx 4).2)).*2 = done ++ (signal <$> jobs (sample_sx 4).1) ∧
              completed (log (sample_sx 4).2) = (λ sig, (sig, inr ())) <$> done
  | Some error =>
      (completed (log (sample_sx 4).2)).*1 = (admitted (log (sample_sx 4).2)).*2 ∧
      advance (sample_sx 4).1 (sample_sx 4).2 = Ok ((sample_sx 4).1, (sample_sx 4).2, false) ∧
      ∀ cs o sig a b, enqueue (sample_sx 4).1 cs o sig a b = Err (Failed error)
  end.
Proof. exact (scheduler_completes_once _ _ (sample_sx_reachable 4)). Defined.

Lemma scheduler_drains_witness :
  ∃ s' x', advances 4 (sample_sx 0).1 (sample_sx 0).2 = Ok (s', x') ∧ failure s' = None ∧
    jobs s' = [] ∧ bytes s' = 0 ∧
    completed (log x') = (λ b, (b.2, inr ())) <$> admitted (log x').
Proof.
  apply (scheduler_drains _ _ 4 (sample_sx_reachable 0)); [reflexivity|vm_compute; lia].
Defined.

Lemma buffer_writes_are_serialised_witness :
  let l1 := [Enqueued sample_job_a 3 1; Enqueued [chunk_b] 3 2;
             Accepted 3 chunk_a (NativeReceipt 1); Retired (NativeReceipt 1)] in
  retired (Error := Failure ()) l1 ≡ₚ accepted_receipts l1 ∧
  accepted l1 ++ [(3, WriteBuffer 9 4 [8; 8; 8; 8])] `prefix_of` (admitted l1 ≫= work).
Proof.
  exact (buffer_writes_are_serialised sample_raw sample_query sample_write sample_submit
    (λ _, true) _ _ _ _ _ _ _ _ _ (sample_sx_reachable 2) sample_second_log).
Defined.

Lemma signal_wait_witness :
  ∃ m, wait_from (HandleError := ()) (λ _, None) (λ k, 100 * Z.of_nat k) (λ _, None) 3 0
         (Some 150) 0 = Some m ∧
    (m = Ok Complete → ∃ i : nat, (None : option (Failure () + ())) = Some (inr ())) ∧
    (m = Ok Pending → ∃ (i : nat) t, (None : option (Failure () + ())) = None ∧
       Some 150 = Some t ∧ t ≤ Z.max 0 (100 * Z.of_nat i - 0)).
Proof.
  apply (signal_wait (λ _, None) (λ k, 100 * Z.of_nat k) (λ _, None) (Some 150) 0 2).
  right; right. split; [exists 150; split; [reflexivity|lia]|lia].
Defined.
End NativeFacts.
