(* ===== verification/CodegenModel.v ===== *)
(** * Input and output of the SGFX code generator

    [model.rs] of the A6xx code generator, with the values of the graphics
    interface crate it is built on.  That crate is not part of the repository:
    its descriptors are records of the fields that the generator reads, its
    enumerations have the constructors the generator names and one more for the
    rest, and floats are their bit patterns. *)
From S2P Require Import Prelude F32 ImageLayout ShaderPack.

Module Ir.

Inductive TextureFormat := Bgra8Unorm | Rgba8Unorm | R8Unorm | Depth32Float | Nv12 | OtherFormat.

Inductive CompareFunction :=
| Never | Less | Equal | LessEqual | Greater | NotEqual | GreaterEqual | Always.
Inductive FilterMode := Nearest | Linear.
Inductive AddressMode := ClampToEdge | OtherAddress.
Inductive CullMode := CullNone | CullFront | CullBack.
Inductive FrontFace := CounterClockwise | Clockwise.
Inductive IndexFormat := Uint16 | Uint32.
Inductive PrimitiveTopology := TriangleList | OtherTopology.
Inductive VertexFormat := Float32x2 | Float32x3 | Float32x4 | OtherVertexFormat.
Inductive BlendState := SOURCE_OVER_STRAIGHT_ALPHA | REPLACE | OtherBlend.
Inductive TextureSampleMode := Rgba | RgbIgnoreAlpha | AlphaMask.
Inductive FragmentProgram :=
| Solid | VertexColor | Texture (mode : TextureSampleMode)
| TextureVertexColor (mode : TextureSampleMode).
Inductive YcbcrMatrix := Bt601 | Bt709.
Inductive YcbcrRange := Limited | Full.
Inductive ChromaLocation := Cosited | Midpoint.

Record YcbcrConversion := mk_conversion {
  ycbcr_matrix : YcbcrMatrix;
  ycbcr_range : YcbcrRange;
  chroma_x : ChromaLocation;
  chroma_y : ChromaLocation;
}.

Record TextureUsage := mk_texture_usage {
  copy_src : bool;
  copy_dst : bool;
  sampled : bool;
  render_attachment : bool;
  other_usage : bool;
}.

Record BufferUsage := mk_buffer_usage {
  buffer_copy_dst : bool;
  buffer_vertex : bool;
  buffer_index : bool;
}.

(** [TextureUsage::SAMPLED] alone. *)
Definition SAMPLED_ONLY : TextureUsage := mk_texture_usage false false true false false.

Record Extent2D := mk_extent { extent_width : Z; extent_height : Z }.

Record PixelRect := mk_rect { rect_x : Z; rect_y : Z; rect_width : Z; rect_height : Z }.

(** What the crate's constructors promise of a rectangle. *)
Definition valid_rect (r : PixelRect) : Prop :=
  u32 (rect_x r) ∧ u32 (rect_y r) ∧ 0 < rect_width r ∧ 0 < rect_height r ∧
  rect_x r + rect_width r ≤ U32_MAX ∧ rect_y r + rect_height r ≤ U32_MAX.

(** Components as bit patterns. *)
Record Color := mk_color { red : Z; green : Z; blue : Z; alpha : Z }.

Record Viewport := mk_viewport {
  vp_x : Z; vp_y : Z; vp_width : Z; vp_height : Z; vp_min_depth : Z; vp_max_depth : Z;
}.

Record SamplerDesc := mk_sampler {
  min_filter : FilterMode;
  mag_filter : FilterMode;
  mip_filter : FilterMode;
  address_u : AddressMode;
  address_v : AddressMode;
  has_compare : bool;
  min_lod : Z;
  max_lod : Z;
}.

(** Sixteen transform columns and four colour components. *)
Record DrawUniforms := mk_uniforms { transform : list Z; uniform_color : Color }.

Inductive LoadOp := Load | Clear (color : Color) | DontCare.
Inductive DepthLoadOp := DepthLoad | DepthClear (value : Z) | DepthDontCare.
Inductive StoreOp := Store | Discard.

Record VertexAttribute := mk_attribute {
  location : Z;
  attribute_format : VertexFormat;
  attribute_offset : Z;
}.

Record VertexBufferLayout := mk_vertex_layout { stride : Z; attributes : list VertexAttribute }.

Record DepthState := mk_depth_state {
  depth_format : TextureFormat;
  compare : CompareFunction;
  write_enabled : bool;
}.

Record RenderPipelineDesc := mk_pipeline_desc {
  target_format : TextureFormat;
  topology : PrimitiveTopology;
  depth_state : option DepthState;
  vertex_buffer : VertexBufferLayout;
  fragment : FragmentProgram;
  blend : BlendState;
  cull_mode : CullMode;
  front_face : FrontFace;
}.

#[export] Instance valid_rect_dec r : Decision (valid_rect r).
Proof. unfold valid_rect, u32. apply _. Defined.

#[export] Instance TextureFormat_eq_dec : EqDecision TextureFormat. Proof. solve_decision. Defined.
#[export] Instance CompareFunction_eq_dec : EqDecision CompareFunction. Proof. solve_decision. Defined.
#[export] Instance FilterMode_eq_dec : EqDecision FilterMode. Proof. solve_decision. Defined.
#[export] Instance AddressMode_eq_dec : EqDecision AddressMode. Proof. solve_decision. Defined.
#[export] Instance CullMode_eq_dec : EqDecision CullMode. Proof. solve_decision. Defined.
#[export] Instance FrontFace_eq_dec : EqDecision FrontFace. Proof. solve_decision. Defined.
#[export] Instance PrimitiveTopology_eq_dec : EqDecision PrimitiveTopology. Proof. solve_decision. Defined.
#[export] Instance VertexFormat_eq_dec : EqDecision VertexFormat. Proof. solve_decision. Defined.
#[export] Instance BlendState_eq_dec : EqDecision BlendState. Proof. solve_decision. Defined.
#[export] Instance TextureSampleMode_eq_dec : EqDecision TextureSampleMode. Proof. solve_decision. Defined.
#[export] Instance FragmentProgram_eq_dec : EqDecision FragmentProgram. Proof. solve_decision. Defined.
#[export] Instance ChromaLocation_eq_dec : EqDecision ChromaLocation. Proof. solve_decision. Defined.
#[export] Instance YcbcrMatrix_eq_dec : EqDecision YcbcrMatrix. Proof. solve_decision. Defined.
#[export] Instance YcbcrRange_eq_dec : EqDecision YcbcrRange. Proof. solve_decision. Defined.
#[export] Instance YcbcrConversion_eq_dec : EqDecision YcbcrConversion. Proof. solve_decision. Defined.
#[export] Instance TextureUsage_eq_dec : EqDecision TextureUsage. Proof. solve_decision. Defined.
#[export] Instance PixelRect_eq_dec : EqDecision PixelRect. Proof. solve_decision. Defined.
#[export] Instance Viewport_eq_dec : EqDecision Viewport. Proof. solve_decision. Defined.

(** ** The methods of the crate that the generator calls *)
Class SgfxCore := {
  bytes_per_pixel : TextureFormat → option Z;
  byte_size : IndexFormat → Z;
  same_extent : PixelRect → PixelRect → bool;
  is_within : Viewport → Extent2D → bool;
  rect_new : Z → Z → Z → Z → option PixelRect;
  extent_new : Z → Z → option Extent2D;
  viewport_new : Z → Z → Z → Z → Z → Z → option Viewport;
}.

(** Their documented behaviour, as far as the theorems rely on it. *)
Class SgfxCoreLaws (S : SgfxCore) : Prop := {
  bytes_bgra : bytes_per_pixel Bgra8Unorm = Some 4;
  bytes_rgba : bytes_per_pixel Rgba8Unorm = Some 4;
  bytes_r8 : bytes_per_pixel R8Unorm = Some 1;
  bytes_range f n : bytes_per_pixel f = Some n → 0 < n ≤ 16;
  byte_size_16 : byte_size Uint16 = 2;
  byte_size_32 : byte_size Uint32 = 4;
  same_extent_iff a b :
    same_extent a b = true ↔ rect_width a = rect_width b ∧ rect_height a = rect_height b;
  rect_new_valid x y w h : valid_rect (mk_rect x y w h) → rect_new x y w h = Some (mk_rect x y w h);
  viewport_new_sound x y w h a b v : viewport_new x y w h a b = Some v → v = mk_viewport x y w h a b;
  rect_new_sound x y w h r : rect_new x y w h = Some r → r = mk_rect x y w h ∧ valid_rect r;
}.

(** A concrete crate, for the samples. *)
Definition sample_core : SgfxCore := {|
  bytes_per_pixel f :=
    match f with
    | Bgra8Unorm | Rgba8Unorm | Depth32Float => Some 4
    | R8Unorm => Some 1
    | Nv12 | OtherFormat => None
    end;
  byte_size f := match f with Uint16 => 2 | Uint32 => 4 end;
  same_extent a b := (rect_width a =? rect_width b) && (rect_height a =? rect_height b);
  is_within v e :=
    f32_le F32_ZERO (f32_from_bits (vp_x v)) && f32_le F32_ZERO (f32_from_bits (vp_y v))
    && f32_le (f32_add (f32_from_bits (vp_x v)) (f32_from_bits (vp_width v)))
         (f32_of_u32 (extent_width e))
    && f32_le (f32_add (f32_from_bits (vp_y v)) (f32_from_bits (vp_height v)))
         (f32_of_u32 (extent_height e));
  rect_new x y w h :=
    if bool_decide (valid_rect (mk_rect x y w h)) then Some (mk_rect x y w h) else None;
  extent_new w h := if (w =? 0) || (h =? 0) then None else Some (mk_extent w h);
  viewport_new x y w h a b := Some (mk_viewport x y w h a b);
|}.

Lemma sample_core_laws : SgfxCoreLaws sample_core.
Proof.
  split; try reflexivity.
  - intros [] n; simpl; intros [= <-]; lia.
  - intros a b. simpl. rewrite andb_true_iff, !Z.eqb_eq. done.
  - intros x y w h H. simpl. by rewrite bool_decide_true.
  - by intros x y w h a b v [= <-].
  - intros x y w h r. simpl. case_bool_decide; [by intros [= <-]|done].
Qed.
End Ir.

Module Codegen.
Import Ir.

Inductive Chip := A618.

Record Capabilities := mk_capabilities {
  chip : Chip;
  gmem_size : Z;
  max_pm4_words : Z;
  max_linear_pitch : Z;
}.

Definition a618 (gmem_size max_pm4_words : Z) : Capabilities :=
  mk_capabilities A618 gmem_size max_pm4_words 0x003fffc0.

Inductive ImageModifier := LinearModifier | A6xxTile6_3Depth | A6xxTile6_3Color.

Record PlaneLayout := mk_plane { plane_offset : Z; plane_stride : Z; plane_size : Z }.

Record ImageMeta := mk_image {
  conversion : option YcbcrConversion;
  texture : option LinearTextureLayout;
  format : TextureFormat;
  storage_format : TextureFormat;
  extent : Extent2D;
  usage : TextureUsage;
  modifier : ImageModifier;
  planes : list PlaneLayout;
}.

Inductive ResourceKind :=
| Buffer (usage : BufferUsage)
| Image (meta : ImageMeta).

(** Object, pipeline and generated-object identities are their raw numbers. *)
Record ResourceMeta := mk_resource { res_id : Z; res_size : Z; res_kind : ResourceKind }.

Record PipelineMeta := mk_pipeline { pipe_id : Z; descriptor : RenderPipelineDesc }.

Record DepthAttachment := mk_depth_attachment {
  depth_target : Z;
  depth_load : DepthLoadOp;
  depth_store : StoreOp;
}.

Record RenderPass := mk_pass {
  pass_target : Z;
  pass_area : PixelRect;
  pass_load : LoadOp;
  pass_store : StoreOp;
  pass_depth : option DepthAttachment;
}.

Inductive Operation :=
| WriteBuffer (destination offset : Z) (data : list Z)
| WriteTexture (destination : Z) (area : PixelRect) (bytes_per_row : Z) (data : list Z)
| CopyTextureToTexture (source : Z) (source_rect : PixelRect)
    (destination : Z) (destination_rect : PixelRect)
| BlitTexture (source : Z) (source_rect : PixelRect) (destination : Z)
    (destination_rect : PixelRect) (filter : FilterMode) (flips : bool * bool)
| BeginRenderPass (pass : RenderPass)
| EndRenderPass
| SetPipeline (pipeline : Z)
| SetVertexBuffer (buffer offset : Z)
| SetIndexBuffer (buffer offset : Z) (format : IndexFormat)
| SetTexture (texture : Z)
| SetSampler (sampler : SamplerDesc)
| SetUniforms (uniforms : DrawUniforms)
| SetScissor (scissor : option PixelRect)
| SetViewport (viewport : Viewport)
| Draw (vertex_count first_vertex : Z)
| DrawIndexed (index_count first_index base_vertex : Z).

Record CompileInput := mk_input {
  capabilities : Capabilities;
  resources : list ResourceMeta;
  pipelines : list PipelineMeta;
  operations : list Operation;
}.

(** ** Output *)

Definition READ : Z := 1 << 0.
Definition WRITE : Z := 1 << 1.
Definition access_contains (self other : Z) : bool := self .& other =? other.
Definition access_union (self other : Z) : Z := self .| other.

Inductive ObjectRef :=
| External (id : Z)
| Generated (id : Z)
| CanonicalShader (variant : ShaderVariant).

Inductive AddressEncoding := GpuVa64 | GpuVa49TexDescriptor.

#[global] Instance ObjectRef_eq_dec : EqDecision ObjectRef. Proof. solve_decision. Defined.
#[global] Instance AddressEncoding_eq_dec : EqDecision AddressEncoding. Proof. solve_decision. Defined.

Definition word_count (e : AddressEncoding) : Z :=
  match e with GpuVa64 | GpuVa49TexDescriptor => 2 end.

Definition placeholder_is_valid (e : AddressEncoding) (words : list Z) : bool :=
  match e, words with
  | GpuVa64, [w0; w1] => (w0 =? 0) && (w1 =? 0)
  | GpuVa49TexDescriptor, [w0; w1] => (w0 =? 0) && (w1 .& 0x1ffff =? 0)
  | _, _ => false
  end.

Record SymbolicAddress := mk_fixup {
  word_offset : Z;
  object : ObjectRef;
  object_offset : Z;
  required_size : Z;
  fix_access : Z;
  encoding : AddressEncoding;
}.

Record ResourceAccess := mk_access {
  acc_object : ObjectRef;
  acc_offset : Z;
  acc_size : Z;
  access : Z;
}.

Inductive GeneratedObjectKind := Upload | CcuSequence | TextureState.

Record GeneratedObject := mk_generated {
  gen_id : Z;
  alignment : Z;
  gen_bytes : list Z;
  gen_access : Z;
  kind : GeneratedObjectKind;
}.

Record RelocatablePm4 := mk_relocatable {
  words : list Z;
  fixups : list SymbolicAddress;
  accesses : list ResourceAccess;
  generated_objects : list GeneratedObject;
}.

Inductive CompileError :=
| InvalidIdentity | InvalidResource | OutOfBounds | Overflow | InvalidState
| UnsupportedFeature | CommandBudgetExceeded | OutOfMemory | InvalidPm4.
End Codegen.
