(* ===== verification/CodegenEmit.v ===== *)
(** * PM4 emission with symbolic addresses

    The core of [emit.rs]: the emitter's state, words and packets, the access
    table, uploads, cache events and [finish].  An emitter method is a function
    of a state monad with errors; [memory], which the source does not have, is
    the number of allocations that still succeed ([None]: all of them), so that
    every [try_reserve] can fail. *)
From S2P Require Import Prelude F32 Pm4 ImageLayout ShaderPack CodegenModel.

Module Emit.
Import Ir Codegen.

Definition CP_MEMCPY : Z := 0x75.
Definition CP_MEM_WRITE : Z := 0x3d.
Definition CP_MEMCPY_MAX_DWORDS : Z := 128.
Definition EVENT_CCU_INVALIDATE_DEPTH : Z := 0x18.
Definition EVENT_CCU_FLUSH_COLOR_TS : Z := 0x1d.
Definition EVENT_CCU_FLUSH_DEPTH_TS : Z := 0x1c.
Definition EVENT_CCU_INVALIDATE_COLOR : Z := 0x19.
Definition EVENT_CACHE_INVALIDATE : Z := 0x31.
Definition EVENT_WRITE_TIMESTAMP : Z := 1 << 30.

Record Nv12Surface := mk_nv12 { nv12_conversion : YcbcrConversion; uv_offset : Z; uv_size : Z }.

Record Surface := mk_surface {
  nv12 : option Nv12Surface;
  mip_levels : Z;
  array_pitch : Z;
  surf_object : Z;
  surf_offset : Z;
  surf_size : Z;
  width : Z;
  height : Z;
  surf_stride : Z;
  tile_mode : Z;
  alpha_mask : bool;
}.

Record DepthDrawState := mk_depth_draw {
  dd_target : Surface;
  dd_compare : CompareFunction;
  dd_write_enabled : bool;
}.

Record IndexedDraw := mk_indexed {
  index : Z;
  index_offset : Z;
  index_size : Z;
  index_format : IndexFormat;
  index_count : Z;
  first_index : Z;
  base_vertex : Z;
  max_indices : Z;
  indexed_vertex_size : Z;
}.

Inductive DrawCall :=
| NonIndexed (first_vertex vertex_count : Z)
| Indexed (draw : IndexedDraw).

Record DrawState := mk_draw {
  variant : PipelineVariant;
  target : Surface;
  area : PixelRect;
  scissor : PixelRect;
  viewport : Viewport;
  vertex : Z;
  vertex_offset : Z;
  vertex_size : Z;
  draw_stride : Z;
  draw_attributes : list (Z * Z);
  uniforms : list Z;
  draw_texture : option Surface;
  sampler : list Z;
  source_over : bool;
  cull : Z;
  depth : option DepthDrawState;
  draw_call : DrawCall;
}.

#[export] Instance Nv12Surface_eq_dec : EqDecision Nv12Surface. Proof. solve_decision. Defined.
#[export] Instance Surface_eq_dec : EqDecision Surface. Proof. solve_decision. Defined.
#[export] Instance DepthDrawState_eq_dec : EqDecision DepthDrawState. Proof. solve_decision. Defined.

Record Emitter := mk_emitter {
  words : list Z;
  fixups : list SymbolicAddress;
  texture_words : list Z;
  texture_fixups : list SymbolicAddress;
  texture_states : list (Surface * list Z * Z);
  accesses : list ResourceAccess;
  generated_objects : list GeneratedObject;
  ccu_sequence : option Z;
  event_sequence : Z;
  draw_batch_active : bool;
  last_draw : option DrawState;
  max_words : Z;
  memory : option nat;
}.

Definition new (max_words : Z) (memory : option nat) : Emitter :=
  mk_emitter [] [] [] [] [] [] [] None 0 false None max_words memory.

Definition set_words ws e :=
  mk_emitter ws (fixups e) (texture_words e) (texture_fixups e) (texture_states e) (accesses e)
    (generated_objects e) (ccu_sequence e) (event_sequence e) (draw_batch_active e) (last_draw e)
    (max_words e) (memory e).
Definition set_fixups fs e :=
  mk_emitter (words e) fs (texture_words e) (texture_fixups e) (texture_states e) (accesses e)
    (generated_objects e) (ccu_sequence e) (event_sequence e) (draw_batch_active e) (last_draw e)
    (max_words e) (memory e).
Definition swap_texture e :=
  mk_emitter (texture_words e) (texture_fixups e) (words e) (fixups e) (texture_states e)
    (accesses e) (generated_objects e) (ccu_sequence e) (event_sequence e) (draw_batch_active e)
    (last_draw e) (max_words e) (memory e).
Definition set_texture_states ts e :=
  mk_emitter (words e) (fixups e) (texture_words e) (texture_fixups e) ts (accesses e)
    (generated_objects e) (ccu_sequence e) (event_sequence e) (draw_batch_active e) (last_draw e)
    (max_words e) (memory e).
Definition set_accesses l e :=
  mk_emitter (words e) (fixups e) (texture_words e) (texture_fixups e) (texture_states e) l
    (generated_objects e) (ccu_sequence e) (event_sequence e) (draw_batch_active e) (last_draw e)
    (max_words e) (memory e).
Definition set_generated l e :=
  mk_emitter (words e) (fixups e) (texture_words e) (texture_fixups e) (texture_states e)
    (accesses e) l (ccu_sequence e) (event_sequence e) (draw_batch_active e) (last_draw e)
    (max_words e) (memory e).
Definition set_sequence ccu n e :=
  mk_emitter (words e) (fixups e) (texture_words e) (texture_fixups e) (texture_states e)
    (accesses e) (generated_objects e) ccu n (draw_batch_active e) (last_draw e)
    (max_words e) (memory e).
Definition set_batch active last e :=
  mk_emitter (words e) (fixups e) (texture_words e) (texture_fixups e) (texture_states e)
    (accesses e) (generated_objects e) (ccu_sequence e) (event_sequence e) active last
    (max_words e) (memory e).
Definition set_memory m e :=
  mk_emitter (words e) (fixups e) (texture_words e) (texture_fixups e) (texture_states e)
    (accesses e) (generated_objects e) (ccu_sequence e) (event_sequence e) (draw_batch_active e)
    (last_draw e) (max_words e) m.

(** ** Methods *)

Definition em (A : Type) : Type := Emitter → outcome CompileError (A * Emitter).

Definition ret {A} (a : A) : em A := λ e, Ok (a, e).
Definition fail {A} (error : CompileError) : em A := λ _, Err error.
Definition lift {A} (m : outcome CompileError A) : em A := λ e, let? a := m in Ok (a, e).
Definition get {A} (f : Emitter → A) : em A := λ e, Ok (f e, e).
Definition modify (f : Emitter → Emitter) : em () := λ e, Ok ((), f e).
Definition and_then {A B} (m : em A) (k : A → em B) : em B := λ e, let? (a, e') := m e in k a e'.

Notation "'do!' x ':=' m 'in' k" := (and_then m (λ x, k))
  (at level 10, x pattern, m at level 200, k at level 200,
   format "'[v' 'do!'  x  ':='  m  'in' '/' k ']'") : rust_scope.
Notation "m ';;' k" := (and_then m (λ _, k))
  (at level 100, k at level 200, right associativity, format "'[v' m ';;' '/' k ']'") : rust_scope.

Fixpoint for_each {A} (f : A → em ()) (l : list A) : em () :=
  match l with [] => ret () | a :: l => f a;; for_each f l end.

Definition sub_or_panic {E} (a b : Z) : outcome E Z := if b <=? a then Ok (a - b) else Panic.

(** [u32::try_from], [u16::try_from]. *)
Definition to_u32 {E} (error : E) (x : Z) : outcome E Z := ok_or (if x <=? U32_MAX then Some x else None) error.
Definition to_u16 {E} (error : E) (x : Z) : outcome E Z := ok_or (if x <=? 0xffff then Some x else None) error.

Definition try_reserve : em () := λ e,
  match memory e with
  | None => Ok ((), e)
  | Some (S n) => Ok ((), set_memory (Some n) e)
  | Some O => Err OutOfMemory
  end.

Definition reserve_words (additional : Z) : em () := λ e,
  if len (words e) + len (texture_words e) + additional <=? max_words e
  then try_reserve e else Err CommandBudgetExceeded.

Definition push_word (word : Z) : em () :=
  reserve_words 1;; modify (λ e, set_words (words e ++ [word]) e).

Definition extend_words (ws : list Z) : em () :=
  reserve_words (len ws);; modify (λ e, set_words (words e ++ ws) e).

Definition type4_word (register count : Z) : em Z := lift (map_err (type4 register count) InvalidPm4).
Definition type7_word (op count : Z) : em Z := lift (map_err (type7 op count) InvalidPm4).

Definition packet4 (register : Z) (values : list Z) : em () :=
  do! count := lift (to_u16 InvalidPm4 (len values)) in
  do! w := type4_word register count in
  push_word w;; extend_words values.

Definition packet7 (op : Z) (values : list Z) : em () :=
  do! count := lift (to_u16 InvalidPm4 (len values)) in
  do! w := type7_word op count in
  push_word w;; extend_words values.

Definition wait_for_idle : em () := packet7 opcode.WAIT_FOR_IDLE [].

(** ** The access table *)

(** The scan of [record_access]: touching entries of the same object and access
    are removed and absorbed into [merged_offset, merged_end). *)
Fixpoint absorb (object : ObjectRef) (acc : Z) (l : list ResourceAccess) (merged_offset merged_end : Z) :
    outcome CompileError (list ResourceAccess * Z * Z) :=
  match l with
  | [] => Ok ([], merged_offset, merged_end)
  | existing :: l =>
      let? existing_end :=
        ok_or (checked_add U64_MAX (acc_offset existing) (acc_size existing)) Overflow in
      if bool_decide (acc_object existing = object) && (access existing =? acc)
         && (acc_offset existing <=? merged_end) && (merged_offset <=? existing_end)
      then absorb object acc l (Z.min merged_offset (acc_offset existing))
             (Z.max merged_end existing_end)
      else
        let? (l', o, n) := absorb object acc l merged_offset merged_end in
        Ok (existing :: l', o, n)
  end.

Definition record_access (object : ObjectRef) (offset size acc : Z) : em () :=
  match object with
  | CanonicalShader _ => ret ()
  | _ =>
      do! merged_end := lift (ok_or (checked_add U64_MAX offset size) Overflow) in
      do! current := get accesses in
      do! (kept, o, n) := lift (absorb object acc current offset merged_end) in
      try_reserve;;
      do! merged_size := lift (ok_or (checked_sub n o) Overflow) in
      modify (set_accesses (kept ++ [mk_access object o merged_size acc]))
  end.

Definition push_fixup (f : SymbolicAddress) : em () :=
  try_reserve;; modify (λ e, set_fixups (fixups e ++ [f]) e).

Definition address_words (object : ObjectRef) (object_offset required_size acc : Z) : em () :=
  do! ws := get words in
  do! word_offset := lift (to_u32 Overflow (len ws)) in
  extend_words [0; 0];;
  push_fixup (mk_fixup word_offset object object_offset required_size acc GpuVa64);;
  record_access object object_offset required_size acc.

Definition address_register (register : Z) (object : ObjectRef)
    (object_offset required_size acc : Z) : em () :=
  do! w := type4_word register 2 in
  push_word w;; address_words object object_offset required_size acc.

(** ** Generated objects and uploads *)

(** [generated_objects.len()] as the next identity. *)
Definition next_generated : em Z :=
  do! l := get generated_objects in lift (to_u32 Overflow (len l)).

Definition push_generated (o : GeneratedObject) : em () :=
  try_reserve;; modify (λ e, set_generated (generated_objects e ++ [o]) e).

Definition add_generated (bytes : list Z) (alignment acc : Z) (kind : GeneratedObjectKind) : em Z :=
  do! id := next_generated in
  try_reserve;;
  push_generated (mk_generated id alignment bytes acc kind);;
  ret id.

(** The loop of [copy_upload]: each turn copies at most
    [CP_MEMCPY_MAX_DWORDS], so [total] turns are enough. *)
Fixpoint copy_chunks (fuel : nat) (generated source_offset destination destination_offset : Z)
    (total copied : Z) : em () :=
  match fuel with
  | O => ret ()
  | S fuel =>
      if copied <? total then
        let chunk_dwords := Z.min (total - copied) CP_MEMCPY_MAX_DWORDS in
        do! chunk_offset := lift (ok_or (checked_mul U64_MAX copied 4) Overflow) in
        do! chunk_size := lift (ok_or (checked_mul U64_MAX chunk_dwords 4) Overflow) in
        do! chunk_destination :=
          lift (ok_or (checked_add U64_MAX destination_offset chunk_offset) Overflow) in
        do! w := type7_word CP_MEMCPY 5 in
        push_word w;;
        push_word chunk_dwords;;
        do! chunk_source := lift (ok_or (checked_add U64_MAX source_offset chunk_offset) Overflow) in
        address_words (Generated generated) chunk_source chunk_size READ;;
        address_words (External destination) chunk_destination chunk_size WRITE;;
        packet7 opcode.WAIT_MEM_WRITES [];;
        do! copied' := lift (ok_or (checked_add U32_MAX copied chunk_dwords) Overflow) in
        copy_chunks fuel generated source_offset destination destination_offset total copied'
      else ret ()
  end.

Definition copy_upload (generated source_offset size destination destination_offset
    destination_required_size : Z) : em () :=
  if destination_required_size <? size then fail OutOfBounds
  else
    do! total := lift (to_u32 Overflow (size / 4)) in
    copy_chunks (Z.to_nat total) generated source_offset destination destination_offset total 0.

Definition upload_buffer (destination destination_offset destination_required_size : Z)
    (bytes : list Z) : em () :=
  if (len bytes =? 0) || negb (len bytes .& 3 =? 0) || negb (destination_offset .& 3 =? 0)
  then fail UnsupportedFeature
  else
    do! generated := add_generated bytes 64 READ Upload in
    copy_upload generated 0 (len bytes) destination destination_offset destination_required_size.

Definition upload_row (id destination destination_offset destination_stride row_bytes row : Z) :
    em () :=
  do! skipped := lift (ok_or (checked_mul U64_MAX row destination_stride) Overflow) in
  do! offset := lift (ok_or (checked_add U64_MAX destination_offset skipped) Overflow) in
  copy_upload id (row * row_bytes) row_bytes destination offset row_bytes.

Definition upload_rows (destination destination_offset destination_stride row_bytes : Z)
    (bytes : list Z) : em () :=
  if (row_bytes =? 0) || negb (row_bytes mod 4 =? 0) || negb (len bytes mod row_bytes =? 0)
  then fail InvalidResource
  else
    do! id := next_generated in
    push_generated (mk_generated id 64 bytes READ Upload);;
    for_each (upload_row id destination destination_offset destination_stride row_bytes)
      (range (len bytes / row_bytes)).

(** ** Cache events *)

Definition ensure_sequence : em Z :=
  do! ccu := get ccu_sequence in
  match ccu with
  | Some sequence => ret sequence
  | None =>
      do! sequence := add_generated [0; 0; 0; 0] 64 WRITE CcuSequence in
      modify (λ e, set_sequence (Some sequence) (event_sequence e) e);;
      ret sequence
  end.

Definition addressed_cache_event (event : Z) : em () :=
  do! sequence := ensure_sequence in
  modify (λ e, set_sequence (ccu_sequence e) (Z.max (as_u32 (event_sequence e + 1)) 1) e);;
  do! w := type7_word opcode.EVENT_WRITE 4 in
  push_word w;;
  push_word (event .| EVENT_WRITE_TIMESTAMP);;
  address_words (Generated sequence) 0 4 WRITE;;
  do! n := get event_sequence in
  push_word n.

Definition clean_color_cache : em () := addressed_cache_event EVENT_CCU_FLUSH_COLOR_TS.

Definition invalidate_submission_caches : em () :=
  clean_color_cache;;
  packet7 opcode.EVENT_WRITE [EVENT_CCU_INVALIDATE_COLOR];;
  packet7 opcode.EVENT_WRITE [EVENT_CACHE_INVALIDATE].

Definition submission_end : em () :=
  addressed_cache_event EVENT_CCU_FLUSH_COLOR_TS;;
  addressed_cache_event EVENT_CCU_FLUSH_DEPTH_TS;;
  packet7 opcode.EVENT_WRITE [EVENT_CCU_INVALIDATE_COLOR];;
  packet7 opcode.EVENT_WRITE [EVENT_CCU_INVALIDATE_DEPTH];;
  wait_for_idle.

(** ** The finished stream *)

Fixpoint shift_fixups (prefix : Z) (fs : list SymbolicAddress) :
    outcome CompileError (list SymbolicAddress) :=
  match fs with
  | [] => Ok []
  | f :: fs =>
      let? offset := ok_or (checked_add U32_MAX (word_offset f) prefix) Overflow in
      let? fs' := shift_fixups prefix fs in
      Ok (mk_fixup offset (object f) (object_offset f) (required_size f) (fix_access f)
            (encoding f) :: fs')
  end.

(** Move the texture prologue in front of the main stream. *)
Definition prepend_textures : em () :=
  do! prologue := get texture_words in
  match prologue with
  | [] => ret ()
  | _ =>
      modify swap_texture;;
      packet7 opcode.EVENT_WRITE [EVENT_CACHE_INVALIDATE];;
      wait_for_idle;;
      do! ws := get words in
      do! prefix := lift (to_u32 Overflow (len ws)) in
      try_reserve;;
      modify (λ e, mk_emitter (words e ++ texture_words e) (fixups e) [] (texture_fixups e)
        (texture_states e) (accesses e) (generated_objects e) (ccu_sequence e) (event_sequence e)
        (draw_batch_active e) (last_draw e) (max_words e) (memory e));;
      try_reserve;;
      do! fs := get texture_fixups in
      do! shifted := lift (shift_fixups prefix fs) in
      modify (λ e, mk_emitter (words e) (fixups e ++ shifted) (texture_words e) []
        (texture_states e) (accesses e) (generated_objects e) (ccu_sequence e) (event_sequence e)
        (draw_batch_active e) (last_draw e) (max_words e) (memory e))
  end.

Definition check_fixup (ws : list Z) (previous_end : option Z) (f : SymbolicAddress) :
    outcome CompileError (option Z) :=
  let? fixup_end := ok_or (checked_add U32_MAX (word_offset f) (word_count (encoding f))) Overflow in
  if match previous_end with Some offset => word_offset f <? offset | None => false end
  then Err InvalidPm4
  else if (len ws <? fixup_end)
          || negb (placeholder_is_valid (encoding f) (slice ws (word_offset f) fixup_end))
  then Err InvalidPm4
  else Ok (Some fixup_end).

Definition finish : em RelocatablePm4 :=
  do! active := get draw_batch_active in
  if (active : bool) then fail InvalidState
  else
    prepend_textures;;
    do! ws := get words in
    do! fs := get fixups in
    do! _ := lift (foldM (check_fixup ws) None fs) in
    do! acc := get accesses in
    do! gen := get generated_objects in
    ret (mk_relocatable ws fs acc gen).

(** ** Coordinates and floats *)

Definition pack_xy (x y : Z) : Z := x .| as_u32 (y << 16).

(** The last pixel of a rectangle. *)
Definition bottom_right (r : PixelRect) : outcome CompileError Z :=
  let? x := add_or_panic U32_MAX (rect_x r) (rect_width r) in
  let? x := sub_or_panic x 1 in
  let? y := add_or_panic U32_MAX (rect_y r) (rect_height r) in
  let? y := sub_or_panic y 1 in
  Ok (pack_xy x y).

Definition F32_HALF := f32_div F32_ONE (f32_of_u32 2).

Definition viewport_transform (v : Viewport) : list Z :=
  let x := f32_from_bits (vp_x v) in
  let y := f32_from_bits (vp_y v) in
  let x_scale := f32_mul (f32_from_bits (vp_width v)) F32_HALF in
  let y_scale := f32_mul (f32_from_bits (vp_height v)) F32_HALF in
  let min_depth := f32_from_bits (vp_min_depth v) in
  let max_depth := f32_from_bits (vp_max_depth v) in
  [f32_to_bits (f32_add x x_scale); f32_to_bits x_scale;
   f32_to_bits (f32_add y y_scale); f32_to_bits (f32_neg y_scale);
   f32_to_bits (f32_mul (f32_add max_depth min_depth) F32_HALF);
   f32_to_bits (f32_mul (f32_sub max_depth min_depth) F32_HALF)].

Definition MAX_GUARDBAND : Z := 0x1ff.

Definition guardband_axis (offset scale : SpecFloat.spec_float) : Z :=
  let scale := f32_abs scale in
  let minimum := f32_div (f32_sub (f32_neg (f32_of_u32 32768)) offset) scale in
  let maximum := f32_div (f32_sub (f32_of_u32 32767) offset) scale in
  let adjustment := f32_min (f32_neg minimum) maximum in
  if f32_lt adjustment F32_ONE || negb (f32_is_finite adjustment) then MAX_GUARDBAND
  else
    let bits := f32_to_bits adjustment in
    let exponent := ((bits >> 23) .& 0xff) - 127 in
    if (0 <=? exponent) && (exponent <=? 7)
    then (exponent << 6) .| ((bits >> 17) .& 0x3f)
    else MAX_GUARDBAND.

Definition guardband_clip_adj (v : Viewport) : Z :=
  let x := f32_from_bits (vp_x v) in
  let y := f32_from_bits (vp_y v) in
  let x_scale := f32_mul (f32_from_bits (vp_width v)) F32_HALF in
  let y_scale := f32_mul (f32_from_bits (vp_height v)) F32_HALF in
  guardband_axis (f32_add x x_scale) x_scale
  .| (guardband_axis (f32_add y y_scale) y_scale << 10).

Definition unorm8 (bits : Z) : Z :=
  let value := f32_clamp (f32_from_bits bits) F32_ZERO F32_ONE in
  f32_as_u32 (f32_add (f32_mul value (f32_of_u32 255)) F32_HALF).

(** The unit tests of the source. *)
Example guardband_1080 : guardband_axis (f32_of_u32 1080) (f32_of_u32 1080) = 0x135.
Proof. vm_compute. reflexivity. Qed.
Example guardband_panel :
  guardband_clip_adj (mk_viewport 0 0 (f32_to_bits (f32_of_u32 2160))
    (f32_to_bits (f32_of_u32 1440)) 0 F32_ONE_BITS) = 0x00056535.
Proof. vm_compute. reflexivity. Qed.
Example viewport_area :
  viewport_transform (mk_viewport (f32_to_bits (f32_of_u32 32)) (f32_to_bits (f32_of_u32 48))
    (f32_to_bits (f32_of_u32 640)) (f32_to_bits (f32_of_u32 480)) 0 F32_ONE_BITS)
  = [f32_to_bits (f32_of_u32 352); f32_to_bits (f32_of_u32 320); f32_to_bits (f32_of_u32 288);
     f32_to_bits (f32_neg (f32_of_u32 240)); 0x3f000000; 0x3f000000].
Proof. vm_compute. reflexivity. Qed.
End Emit.
