(* ===== verification/CodegenDraw.v ===== *)
(** * PM4 for draws, clears and blits

    The rest of [emit.rs]: descriptors in the texture prologue, draw batches
    with complete and retained draws, and the two-dimensional engine.  The
    helpers [emit_vertex_range], [emit_uniforms], [emit_texture] and
    [emit_draw_call] are the code that [draw] and
    [draw_with_retained_fixed_state] both contain. *)
From S2P Require Import Prelude F32 Pm4 ImageLayout ShaderPack CodegenModel CodegenEmit.

Module Emit3d.
Import Ir Codegen Emit.

Definition CP_DRAW_INDX_OFFSET : Z := 0x38.
Definition CP_LOAD_STATE6_GEOM : Z := 0x32.
Definition CP_LOAD_STATE6_FRAG : Z := 0x34.
Definition CP_SET_VISIBILITY_OVERRIDE : Z := 0x64.
Definition CP_REG_WRITE : Z := 0x6d.
Definition CP_SKIP_IB2_ENABLE_GLOBAL : Z := 0x1d.
Definition CP_SKIP_IB2_ENABLE_LOCAL : Z := 0x23.
Definition FORMAT_8_8_8_8_UNORM : Z := 0x30.
Definition FORMAT_32_FLOAT : Z := 0x4a.
Definition DEPTH_FORMAT_32 : Z := 4.
Definition A2D_IFMT_FLOAT32 : Z := 4.
Definition A2D_BGRA_COLOR_SWAP : Z := 1 << 10.
Definition MRT_BGRA_COLOR_SWAP : Z := 1 << 13.
Definition BLIT_CHANNEL_MASK : Z := 0xf << 20.
Definition BLIT_SOLID_COLOR : Z := 1 << 7.
Definition BLIT_SCISSOR : Z := 1 << 16.
Definition SOURCE_TEXTURE_REQUIRED : Z := (1 << 20) .| (1 << 22).
Definition RB_A2D_BLT_CNTL : Z := 0x8c00.
Definition RB_A2D_PIXEL_CNTL : Z := 0x8c01.
Definition RB_A2D_DEST_BUFFER_INFO : Z := 0x8c17.
Definition RB_A2D_DEST_BUFFER_BASE : Z := 0x8c18.
Definition RB_A2D_DEST_BUFFER_PITCH : Z := 0x8c1a.
Definition RB_A2D_CLEAR_COLOR_DW0 : Z := 0x8c2c.
Definition GRAS_A2D_BLT_CNTL : Z := 0x8400.
Definition GRAS_A2D_SRC_XMIN : Z := 0x8401.
Definition GRAS_A2D_DEST_TL : Z := 0x8405.
Definition GRAS_A2D_SCISSOR_TL : Z := 0x840a.
Definition RB_DBG_ECO_CNTL : Z := 0x8e04.
Definition RB_CCU_CNTL : Z := 0x8e07.
Definition SP_A2D_OUTPUT_INFO : Z := 0xacc0.
Definition TPL1_A2D_SRC_TEXTURE_INFO : Z := 0xb4c0.
Definition TPL1_A2D_SRC_TEXTURE_SIZE : Z := 0xb4c1.
Definition TPL1_A2D_SRC_TEXTURE_BASE : Z := 0xb4c2.
Definition TPL1_A2D_SRC_TEXTURE_PITCH : Z := 0xb4c4.
Definition GRAS_CL_CNTL : Z := 0x8000.
Definition GRAS_CL_VS_CLIP_CULL_DISTANCE : Z := 0x8001.
Definition GRAS_CL_ARRAY_SIZE : Z := 0x8004.
Definition GRAS_CL_INTERP_CNTL : Z := 0x8005.
Definition GRAS_CL_GUARDBAND_CLIP_ADJ : Z := 0x8006.
Definition GRAS_CL_VIEWPORT_XOFFSET : Z := 0x8010.
Definition GRAS_SU_POINT_MINMAX : Z := 0x8091.
Definition GRAS_SU_POINT_SIZE : Z := 0x8092.
Definition GRAS_SU_POLY_OFFSET_SCALE : Z := 0x8095.
Definition GRAS_SU_DEPTH_BUFFER_INFO : Z := 0x8098.
Definition GRAS_SC_CNTL : Z := 0x80a0.
Definition GRAS_SC_RAS_MSAA_CNTL : Z := 0x80a2.
Definition GRAS_SC_SCREEN_SCISSOR_CNTL : Z := 0x80af.
Definition GRAS_SC_SCREEN_SCISSOR_TL : Z := 0x80b0.
Definition GRAS_SC_VIEWPORT_SCISSOR_TL : Z := 0x80d0.
Definition GRAS_SC_WINDOW_SCISSOR_TL : Z := 0x80f0.
Definition GRAS_SC_BIN_CNTL : Z := 0x80a1.
Definition GRAS_LRZ_CNTL : Z := 0x8100.
Definition GRAS_LRZ_MRT_BUFFER_INFO_0 : Z := 0x8102.
Definition GRAS_SU_CNTL : Z := 0x8090.
Definition GRAS_SU_DEPTH_PLANE_CNTL : Z := 0x8094.
Definition GRAS_SU_VS_SIV_CNTL : Z := 0x809b.
Definition GRAS_LRZ_PS_INPUT_CNTL : Z := 0x8101.
Definition GRAS_LRZ_PS_SAMPLEFREQ_CNTL : Z := 0x8109.
Definition GRAS_SU_DEPTH_CNTL : Z := 0x8114.
Definition GRAS_SU_STENCIL_CNTL : Z := 0x8115.
Definition RB_CNTL : Z := 0x8800.
Definition RB_RENDER_CNTL : Z := 0x8801.
Definition RB_RAS_MSAA_CNTL : Z := 0x8802.
Definition RB_INTERP_CNTL : Z := 0x8809.
Definition RB_PS_INPUT_CNTL : Z := 0x880a.
Definition RB_PS_OUTPUT_CNTL : Z := 0x880b.
Definition RB_PS_MRT_CNTL : Z := 0x880c.
Definition RB_PS_OUTPUT_MASK : Z := 0x880d.
Definition RB_DITHER_CNTL : Z := 0x880e.
Definition RB_SRGB_CNTL : Z := 0x880f.
Definition RB_MRT_CONTROL : Z := 0x8820.
Definition RB_MRT_BUF_INFO : Z := 0x8822.
Definition RB_MRT_PITCH : Z := 0x8823.
Definition RB_MRT_BASE : Z := 0x8825.
Definition RB_MRT_BASE_GMEM : Z := 0x8827.
Definition RB_ALPHA_TEST_CNTL : Z := 0x8864.
Definition RB_BLEND_CNTL : Z := 0x8865.
Definition RB_DEPTH_PLANE_CNTL : Z := 0x8870.
Definition RB_DEPTH_CNTL : Z := 0x8871.
Definition RB_DEPTH_BUFFER_INFO : Z := 0x8872.
Definition RB_DEPTH_BOUND_MIN : Z := 0x8878.
Definition RB_STENCIL_CNTL : Z := 0x8880.
Definition RB_STENCIL_BUFFER_INFO : Z := 0x8881.
Definition RB_STENCIL_REF_CNTL : Z := 0x8887.
Definition RB_STENCIL_MASK : Z := 0x8888.
Definition RB_MODE_CNTL : Z := 0x8811.
Definition RB_PS_SAMPLEFREQ_CNTL : Z := 0x8810.
Definition RB_WINDOW_OFFSET : Z := 0x8890.
Definition RB_LRZ_CNTL : Z := 0x8898.
Definition RB_BIN_CONTROL2 : Z := 0x88d3.
Definition RB_WINDOW_OFFSET2 : Z := 0x88d4.
Definition RB_RESOLVE_GMEM_BUFFER_INFO : Z := 0x88d5.
Definition RB_COLOR_FLAG_BUFFER_ADDR : Z := 0x8903.
Definition RB_DEPTH_FLAG_BUFFER_BASE : Z := 0x8900.
Definition VPC_RAST_CNTL : Z := 0x9108.
Definition VPC_VARYING_INTERP_MODE : Z := 0x9200.
Definition VPC_VARYING_REPLACE_MODE : Z := 0x9208.
Definition VPC_VARYING_LM_TRANSFER_CNTL_DISABLE : Z := 0x9212.
Definition VPC_VS_CLIP_CULL_CNTL : Z := 0x9101.
Definition VPC_VS_SIV_CNTL : Z := 0x9104.
Definition VPC_VS_CNTL : Z := 0x9301.
Definition VPC_PS_CNTL : Z := 0x9304.
Definition VPC_SO_OVERRIDE : Z := 0x9306.
Definition VPC_VS_CLIP_CULL_CNTL_V2 : Z := 0x9311.
Definition VPC_VS_SIV_CNTL_V2 : Z := 0x9314.
Definition PC_MODE_CNTL : Z := 0x9804.
Definition PC_PS_CNTL : Z := 0x9806.
Definition PC_DGEN_RAST_CNTL : Z := 0x9981.
Definition PC_CNTL : Z := 0x9b00.
Definition PC_VS_CNTL : Z := 0x9b01.
Definition PC_STEREO_RENDERING_CNTL : Z := 0x9b07.
Definition VFD_CNTL_0 : Z := 0xa000.
Definition VFD_CNTL_1 : Z := 0xa001.
Definition VFD_RENDER_MODE : Z := 0xa007.
Definition VFD_MODE_CNTL : Z := 0xa009.
Definition VFD_INDEX_OFFSET : Z := 0xa00e.
Definition VFD_VERTEX_BUFFER_BASE : Z := 0xa010.
Definition VFD_VERTEX_BUFFER_SIZE : Z := 0xa012.
Definition VFD_FETCH_INSTR : Z := 0xa090.
Definition VFD_DEST_CNTL : Z := 0xa0d0.
Definition SP_VS_CNTL_0 : Z := 0xa800.
Definition SP_VS_OUTPUT_CNTL : Z := 0xa802.
Definition SP_VS_OUTPUT_REG : Z := 0xa803.
Definition SP_VS_VPC_DEST_REG : Z := 0xa813.
Definition SP_VS_PROGRAM_COUNTER_OFFSET : Z := 0xa81b.
Definition SP_VS_PVT_MEM_STACK_OFFSET : Z := 0xa825.
Definition SP_VS_CONFIG : Z := 0xa823.
Definition SP_VS_INSTR_SIZE : Z := 0xa824.
Definition SP_HS_CONFIG : Z := 0xa83b.
Definition SP_DS_CONFIG : Z := 0xa863.
Definition SP_GS_CONFIG : Z := 0xa894.
Definition SP_PS_CNTL_0 : Z := 0xa980.
Definition SP_PS_PROGRAM_COUNTER_OFFSET : Z := 0xa982.
Definition SP_PS_PVT_MEM_STACK_OFFSET : Z := 0xa9a9.
Definition SP_BLEND_CNTL : Z := 0xa989.
Definition SP_SRGB_CNTL : Z := 0xa98a.
Definition SP_PS_OUTPUT_MASK : Z := 0xa98b.
Definition SP_PS_OUTPUT_CNTL : Z := 0xa98c.
Definition SP_PS_MRT_CNTL : Z := 0xa98d.
Definition SP_PS_OUTPUT_REG : Z := 0xa98e.
Definition SP_PS_MRT_REG : Z := 0xa996.
Definition SP_PS_INITIAL_TEX_LOAD_CNTL : Z := 0xa99e.
Definition SP_PS_INITIAL_TEX_INDEX_CMD : Z := 0xa9a3.
Definition SP_PS_TSIZE : Z := 0xa9a7.
Definition SP_PS_SAMPLER_BASE : Z := 0xa9e0.
Definition SP_PS_TEXMEMOBJ_BASE : Z := 0xa9e4.
Definition SP_PS_CONFIG : Z := 0xab04.
Definition SP_PS_INSTR_SIZE : Z := 0xab05.
Definition SP_MODE_CNTL : Z := 0xab00.
Definition SP_GFX_USIZE : Z := 0xab20.
Definition SP_VS_CONST_CONFIG : Z := 0xb800.
Definition SP_PS_WAVE_CNTL : Z := 0xb980.
Definition SP_LB_PARAM_LIMIT : Z := 0xb982.
Definition SP_REG_PROG_ID_0 : Z := 0xb983.
Definition TPL1_RAS_MSAA_CNTL : Z := 0xb300.
Definition TPL1_MSAA_SAMPLE_POS_CNTL : Z := 0xb304.
Definition TPL1_WINDOW_OFFSET : Z := 0xb307.
Definition TPL1_MODE_CNTL : Z := 0xb309.
Definition SP_WINDOW_OFFSET : Z := 0xb4d1.
Definition SP_UPDATE_CNTL : Z := 0xbb08.
Definition SP_PS_CONST_CONFIG : Z := 0xbb10.

Definition load_direct (op block state_type units : Z) (values : list Z) : em () :=
  try_reserve;;
  packet7 op ([(state_type << 14) .| (block << 18) .| (units << 22); 0; 0] ++ values).

Definition preload_shader (op block units : Z) (variant : ShaderVariant) : em () :=
  do! w := type7_word op 3 in
  push_word w;;
  push_word ((2 << 16) .| (block << 18) .| (units << 22));;
  address_words (CanonicalShader variant) 0 (shader_size variant) READ.

Definition load_indirect (op block state_type units : Z) (object : ObjectRef)
    (object_offset required_size : Z) : em () :=
  do! w := type7_word op 3 in
  push_word w;;
  push_word ((state_type << 14) .| (2 << 16) .| (block << 18) .| (units << 22));;
  address_words object object_offset required_size READ.

(** ** Texture state *)

Definition texture_descriptor_prefix (texture : Surface) : outcome CompileError (list Z) :=
  match nv12 texture with
  | Some n =>
      let? rounded := add_or_panic U64_MAX (surf_size texture) 4095 in
      Ok [ (0x8e << 22) .| 0x6880
             .| (if bool_decide (chroma_x (nv12_conversion n) = Midpoint) then 1 << 16 else 0)
             .| (if bool_decide (chroma_y (nv12_conversion n) = Midpoint) then 1 << 18 else 0);
           width texture .| as_u32 (height texture << 15);
           as_u32 (surf_stride texture << 7) .| (1 << 29);
           as_u32 (rounded >> 12)]
  | None =>
      let? levels := sub_or_panic (mip_levels texture) 1 in
      let? rounded := ok_or (checked_add U64_MAX (array_pitch texture) 0xfff) Overflow in
      let? pitch := to_u32 Overflow (rounded >> 12) in
      Ok [ ((if alpha_mask texture then 0x4c0076d0 else 0x4c006880)
              .& (if tile_mode texture =? 0 then U32_MAX else U32_MAX .&~ (3 << 30)))
             .| tile_mode texture .| as_u32 (levels << 16);
           width texture .| as_u32 (height texture << 15);
           as_u32 (surf_stride texture << 7) .| (1 << 29)
             .| (if tile_mode texture =? 0 then 0 else 2);
           pitch]
  end.

Definition texture_descriptor_address (texture : Surface) : em () :=
  do! ws := get words in
  do! word_offset := lift (to_u32 Overflow (len ws)) in
  extend_words [0; 1 << 17];;
  push_fixup (mk_fixup word_offset (External (surf_object texture)) (surf_offset texture)
                (surf_size texture) READ GpuVa49TexDescriptor);;
  record_access (External (surf_object texture)) (surf_offset texture) (surf_size texture) READ.

(** The words that initialise one descriptor, in the prologue buffer. *)
Definition initialize_texture_state (texture : Surface) (sampler : list Z) (state : Z) : em () :=
  do! descriptor := lift (texture_descriptor_prefix texture) in
  do! w := type7_word CP_MEM_WRITE 22 in
  push_word w;;
  address_words (Generated state) 0 80 WRITE;;
  extend_words descriptor;;
  texture_descriptor_address texture;;
  match nv12 texture with
  | Some n =>
      push_word (as_u32 (surf_stride texture << 8));;
      address_words (External (surf_object texture)) (uv_offset n) (uv_size n) READ;;
      extend_words (replicate 7 0)
  | None => extend_words (replicate 10 0)
  end;;
  extend_words sampler;;
  packet7 opcode.WAIT_MEM_WRITES [].

(** Run [m] on the prologue buffers; they are swapped back before an error
    leaves, but an error ends the compilation. *)
Definition in_prologue (m : em ()) : em () :=
  modify swap_texture;; m;; modify swap_texture.

Definition find_texture_state (texture : Surface) (sampler : list Z)
    (l : list (Surface * list Z * Z)) : option Z :=
  snd <$> List.find (λ s, bool_decide (s.1.1 = texture) && bool_decide (s.1.2 = sampler)) l.

Definition texture_state_backing (texture : Surface) (sampler : list Z) : em Z :=
  do! states := get texture_states in
  do! state :=
    match find_texture_state texture sampler states with
    | Some state => ret state
    | None =>
        do! state := add_generated (replicate 80 0) 64 (access_union READ WRITE) TextureState in
        in_prologue (initialize_texture_state texture sampler state);;
        try_reserve;;
        modify (λ e, set_texture_states (texture_states e ++ [(texture, sampler, state)]) e);;
        ret state
    end in
  address_register SP_PS_SAMPLER_BASE (Generated state) 64 16 READ;;
  address_register SP_PS_TEXMEMOBJ_BASE (Generated state) 0 64 READ;;
  ret state.

(** ** Draw batches *)

Definition restore_3d_baseline : em () :=
  packet4 SP_UPDATE_CNTL [0xff];;
  wait_for_idle;;
  packet4 RB_DBG_ECO_CNTL [0x04100000];;
  packet4 GRAS_SC_CNTL [2];;
  packet4 GRAS_LRZ_CNTL [0];;
  packet4 RB_LRZ_CNTL [0];;
  packet4 VFD_RENDER_MODE [0];;
  packet4 VFD_MODE_CNTL [3];;
  packet4 PC_MODE_CNTL [0x1f];;
  packet4 PC_STEREO_RENDERING_CNTL [0];;
  packet4 SP_MODE_CNTL [5];;
  packet4 TPL1_MODE_CNTL [0xa2];;
  packet4 RB_MODE_CNTL [0x10];;
  packet4 GRAS_SC_BIN_CNTL [0x00c00000];;
  packet4 RB_CNTL [0x00c00000];;
  packet4 RB_BIN_CONTROL2 [0];;
  packet4 RB_WINDOW_OFFSET [0];;
  packet4 RB_WINDOW_OFFSET2 [0];;
  packet4 SP_WINDOW_OFFSET [0];;
  packet4 TPL1_WINDOW_OFFSET [0];;
  packet4 GRAS_SC_SCREEN_SCISSOR_CNTL [0];;
  packet4 VPC_SO_OVERRIDE [0];;
  packet7 opcode.SET_MARKER [1];;
  packet7 CP_SKIP_IB2_ENABLE_GLOBAL [0];;
  packet7 CP_SKIP_IB2_ENABLE_LOCAL [1];;
  packet7 CP_SET_VISIBILITY_OVERRIDE [1];;
  packet4 RB_CCU_CNTL [0x08000000].

Definition submission_begin_3d : em () := invalidate_submission_caches;; restore_3d_baseline.

Definition begin_draw_batch : em () :=
  do! active := get draw_batch_active in
  if (active : bool) then fail InvalidState
  else submission_begin_3d;; modify (set_batch true None).

Definition end_draw_batch : em () :=
  do! active := get draw_batch_active in
  if (active : bool) then submission_end;; modify (set_batch false None)
  else fail InvalidState.

Definition continue_draw_batch : em () :=
  do! active := get draw_batch_active in
  if (active : bool) then ret () else fail InvalidState.

(** ** Draws *)

Definition emit_program_config (vs : VertexMeta) (fs : FragmentMeta) : em () :=
  packet4 SP_VS_CONST_CONFIG [sp_vs_const_config vs; 0; 0; 0];;
  packet4 SP_PS_CONST_CONFIG [sp_ps_const_config fs];;
  packet4 SP_VS_CONFIG [sp_vs_config vs];;
  packet4 SP_HS_CONFIG [0];;
  packet4 SP_DS_CONFIG [0];;
  packet4 SP_GS_CONFIG [0];;
  packet4 SP_PS_CONFIG [sp_ps_config fs];;
  packet4 SP_GFX_USIZE [0].

Definition emit_vs (vs : VertexMeta) (link : LinkMeta) : em () :=
  packet4 SP_VS_CNTL_0 [sp_vs_cntl_0 vs];;
  packet4 SP_VS_OUTPUT_CNTL [sp_vs_output_cntl link];;
  packet4 SP_VS_OUTPUT_REG (sp_vs_output_reg link);;
  packet4 SP_VS_VPC_DEST_REG (sp_vs_vpc_dest_reg link);;
  packet4 SP_VS_INSTR_SIZE [sp_vs_instr_size vs];;
  packet4 VPC_VARYING_LM_TRANSFER_CNTL_DISABLE (lm_transfer_disable link);;
  packet4 VPC_VS_CNTL [vpc_vs_cntl link];;
  packet4 VPC_VS_CLIP_CULL_CNTL [0x00ffff00];;
  packet4 VPC_VS_CLIP_CULL_CNTL_V2 [0x00ffff00];;
  packet4 GRAS_CL_VS_CLIP_CULL_DISTANCE [0];;
  packet4 VPC_PS_CNTL [vpc_ps_cntl link];;
  packet4 PC_VS_CNTL [pc_vs_cntl link];;
  packet4 VPC_VS_SIV_CNTL [0x0000ffff];;
  packet4 VPC_VS_SIV_CNTL_V2 [0x0000ffff];;
  packet4 GRAS_SU_VS_SIV_CNTL [0];;
  packet4 PC_PS_CNTL [0].

Definition emit_fs (fs : FragmentMeta) : em () :=
  packet4 SP_PS_CNTL_0 [sp_ps_cntl_0 fs];;
  packet4 SP_PS_INITIAL_TEX_LOAD_CNTL (initial_tex_load_cntl fs :: initial_tex_load_cmd fs);;
  match initial_tex_load_cmd fs with
  | [] => packet4 SP_PS_TSIZE [0]
  | _ => packet4 SP_PS_INITIAL_TEX_INDEX_CMD [0];; packet4 SP_PS_TSIZE [1]
  end;;
  packet4 SP_REG_PROG_ID_0 (sp_reg_prog_id fs);;
  packet4 SP_PS_OUTPUT_CNTL [sp_ps_output_cntl fs];;
  packet4 SP_PS_OUTPUT_REG (sp_ps_output_reg fs);;
  packet4 SP_PS_OUTPUT_MASK [sp_ps_output_mask fs];;
  packet4 RB_PS_OUTPUT_CNTL [rb_ps_output_cntl fs];;
  packet4 RB_PS_OUTPUT_MASK [rb_ps_output_mask fs];;
  packet4 SP_PS_INSTR_SIZE [sp_ps_instr_size fs];;
  packet4 SP_PS_WAVE_CNTL [sp_ps_wave_cntl fs];;
  packet4 SP_LB_PARAM_LIMIT [7];;
  packet4 GRAS_CL_INTERP_CNTL [gras_cl_interp_cntl fs];;
  packet4 RB_INTERP_CNTL [rb_interp_cntl fs];;
  packet4 RB_PS_INPUT_CNTL [rb_ps_input_cntl fs];;
  packet4 VPC_VARYING_INTERP_MODE (replicate 8 0);;
  packet4 VPC_VARYING_REPLACE_MODE (replicate 8 0);;
  packet4 RB_PS_SAMPLEFREQ_CNTL [0];;
  packet4 GRAS_LRZ_PS_INPUT_CNTL [0];;
  packet4 GRAS_LRZ_PS_SAMPLEFREQ_CNTL [0].

Definition compare_code (c : CompareFunction) : Z :=
  match c with
  | Never => 0 | Less => 1 | Equal => 2 | LessEqual => 3
  | Greater => 4 | NotEqual => 5 | GreaterEqual => 6 | Always => 7
  end.

Definition flag (b : bool) : Z := if b then 1 else 0.

Definition emit_depth_state (depth : option DepthDrawState) : em () :=
  packet4 RB_ALPHA_TEST_CNTL [0];;
  packet4 RB_STENCIL_CNTL [0];;
  packet4 GRAS_SU_STENCIL_CNTL [0];;
  packet4 RB_STENCIL_REF_CNTL [0];;
  packet4 RB_STENCIL_MASK [0; 0];;
  packet4 RB_DEPTH_PLANE_CNTL [0];;
  packet4 GRAS_SU_DEPTH_PLANE_CNTL [0];;
  packet4 RB_DEPTH_BOUND_MIN [0; F32_ONE_BITS];;
  packet4 RB_STENCIL_BUFFER_INFO [0];;
  match depth with
  | None =>
      packet4 RB_DEPTH_CNTL [0];;
      packet4 GRAS_SU_DEPTH_CNTL [0];;
      packet4 RB_DEPTH_BUFFER_INFO (replicate 6 0);;
      packet4 GRAS_SU_DEPTH_BUFFER_INFO [0]
  | Some depth =>
      let reads_depth :=
        match dd_compare depth with Never | Always => false | _ => true end in
      packet4 RB_DEPTH_CNTL
        [1 .| (flag (dd_write_enabled depth) << 1) .| (compare_code (dd_compare depth) << 2)
           .| (flag reads_depth << 6)];;
      packet4 GRAS_SU_DEPTH_CNTL [1];;
      packet4 RB_DEPTH_FLAG_BUFFER_BASE [0; 0; 0];;
      do! w := type4_word RB_DEPTH_BUFFER_INFO 6 in
      push_word w;;
      do! layer := lift (to_u32 Overflow (surf_size (dd_target depth) >> 6)) in
      extend_words [DEPTH_FORMAT_32; surf_stride (dd_target depth) >> 6; layer];;
      address_words (External (surf_object (dd_target depth))) (surf_offset (dd_target depth))
        (surf_size (dd_target depth)) (access_union READ WRITE);;
      push_word 0;;
      packet4 GRAS_SU_DEPTH_BUFFER_INFO [DEPTH_FORMAT_32]
  end.

Definition emit_single_sample_state : em () :=
  packet4 TPL1_RAS_MSAA_CNTL [0; 4];;
  packet4 GRAS_SC_RAS_MSAA_CNTL [0; 4; 0];;
  packet4 RB_RAS_MSAA_CNTL [0; 4; 0];;
  packet4 TPL1_MSAA_SAMPLE_POS_CNTL [0];;
  packet4 RB_RESOLVE_GMEM_BUFFER_INFO [0].

Definition emit_shader_program_layout (first_exec_register : Z) (variant : ShaderVariant) : em () :=
  do! w := type4_word first_exec_register 7 in
  push_word w;;
  push_word 0;;
  address_words (CanonicalShader variant) 0 (shader_size variant) READ;;
  extend_words [0; 0; 0; 0].

Definition emit_vs_program (vs : VertexMeta) (variant : ShaderVariant) : em () :=
  emit_shader_program_layout SP_VS_PROGRAM_COUNTER_OFFSET variant;;
  packet4 SP_VS_PVT_MEM_STACK_OFFSET [0];;
  preload_shader CP_LOAD_STATE6_GEOM 8 (sp_vs_instr_size vs) variant.

Definition emit_fs_program (fs : FragmentMeta) (variant : ShaderVariant) : em () :=
  emit_shader_program_layout SP_PS_PROGRAM_COUNTER_OFFSET variant;;
  packet4 SP_PS_PVT_MEM_STACK_OFFSET [0];;
  preload_shader CP_LOAD_STATE6_FRAG 12 (sp_ps_instr_size fs) variant.

(** The vertex range, shared by complete and retained draws. *)
Definition emit_vertex_range (draw : DrawState) : em () :=
  let vertex_offset_word :=
    match draw_call draw with
    | NonIndexed first_vertex _ => first_vertex
    | Indexed indexed => base_vertex indexed
    end in
  packet4 VFD_INDEX_OFFSET [vertex_offset_word; 0];;
  address_register VFD_VERTEX_BUFFER_BASE (External (vertex draw)) (vertex_offset draw)
    (vertex_size draw) READ;;
  do! size := lift (to_u32 Overflow (vertex_size draw)) in
  packet4 VFD_VERTEX_BUFFER_SIZE [size; draw_stride draw].

Definition is_nv12 (t : option Surface) : bool :=
  match t with Some t => match nv12 t with Some _ => true | None => false end | None => false end.

Definition emit_uniforms (draw : DrawState) : em () :=
  load_direct CP_LOAD_STATE6_GEOM 8 1 5 (take 20 (uniforms draw));;
  let count := if is_nv12 (draw_texture draw) then 8 else 5 in
  load_direct CP_LOAD_STATE6_FRAG 12 1 count (take (Z.to_nat (count * 4)) (uniforms draw)).

Definition emit_texture (texture : Surface) (sampler : list Z) : em () :=
  do! state := texture_state_backing texture sampler in
  load_indirect CP_LOAD_STATE6_FRAG 4 0 1 (Generated state) 64 16;;
  load_indirect CP_LOAD_STATE6_FRAG 4 1 1 (Generated state) 0 64.

Definition emit_draw_call (call : DrawCall) : em () :=
  match call with
  | NonIndexed _ vertex_count => packet7 CP_DRAW_INDX_OFFSET [0x84; 1; vertex_count]
  | Indexed indexed =>
      let initiator := match index_format indexed with Uint16 => 0x404 | Uint32 => 0x804 end in
      do! w := type7_word CP_DRAW_INDX_OFFSET 7 in
      push_word w;;
      extend_words [initiator; 1; index_count indexed; first_index indexed];;
      address_words (External (index indexed)) (index_offset indexed) (index_size indexed) READ;;
      push_word (max_indices indexed)
  end.

Definition fixed_draw_state_matches (previous next : DrawState) : bool :=
  bool_decide (variant previous = variant next)
  && bool_decide (target previous = target next)
  && bool_decide (area previous = area next)
  && bool_decide (viewport previous = viewport next)
  && (draw_stride previous =? draw_stride next)
  && bool_decide (draw_attributes previous = draw_attributes next)
  && Bool.eqb (source_over previous) (source_over next)
  && (cull previous =? cull next)
  && bool_decide (depth previous = depth next).

Definition window_scissor (r : PixelRect) : em () :=
  do! br := lift (bottom_right r) in
  packet4 GRAS_SC_WINDOW_SCISSOR_TL [pack_xy (rect_x r) (rect_y r); br].

Definition texture_changed (last : option DrawState) (draw : DrawState) : bool :=
  match last with
  | None => true
  | Some previous =>
      negb (bool_decide (draw_texture previous = draw_texture draw))
      || negb (bool_decide (sampler previous = sampler draw))
  end.

Definition draw_with_retained_fixed_state (draw : DrawState) : em () :=
  window_scissor (scissor draw);;
  emit_vertex_range draw;;
  emit_uniforms draw;;
  do! last := get last_draw in
  match draw_texture draw with
  | Some texture =>
      if texture_changed last draw then emit_texture texture (sampler draw) else ret ()
  | None => ret ()
  end;;
  emit_draw_call (draw_call draw).

(** The fetch instructions of the vertex attributes. *)
Definition fetch_words (attributes : list (Z * Z)) : list Z :=
  attributes ≫= λ a, [0xc0000000 .| as_u32 (a.1 << 20) .| as_u32 (a.2 << 5); 1].

(** The render target and blend state of a complete draw. *)
Definition emit_target (draw : DrawState) : em () :=
  packet7 CP_REG_WRITE [2; RB_RENDER_CNTL; 0x10];;
  packet4 RB_MRT_CONTROL
    [if source_over draw then 0x7e3 else 0x7e0;
     if source_over draw then 0x07010706 else 0x00010001];;
  packet4 RB_MRT_BUF_INFO
    [FORMAT_8_8_8_8_UNORM .| as_u32 (tile_mode (target draw) << 8)
       .| (if tile_mode (target draw) =? 0 then MRT_BGRA_COLOR_SWAP else 0)];;
  do! layer := lift (to_u32 Overflow (surf_size (target draw) >> 6)) in
  packet4 RB_MRT_PITCH [surf_stride (target draw) >> 6; layer];;
  address_register RB_MRT_BASE (External (surf_object (target draw))) (surf_offset (target draw))
    (surf_size (target draw)) WRITE;;
  packet4 RB_MRT_BASE_GMEM [0];;
  packet4 RB_COLOR_FLAG_BUFFER_ADDR [0; 0; 0];;
  packet4 GRAS_LRZ_MRT_BUFFER_INFO_0 [FORMAT_8_8_8_8_UNORM];;
  packet4 RB_SRGB_CNTL [0];;
  packet4 SP_SRGB_CNTL [0];;
  packet4 GRAS_CL_ARRAY_SIZE [0];;
  packet4 RB_BLEND_CNTL [if source_over draw then 0xffff0001 else 0xffff0000];;
  packet4 SP_BLEND_CNTL [flag (source_over draw)];;
  packet4 RB_DITHER_CNTL [0];;
  packet4 SP_PS_MRT_CNTL [1];;
  packet4 RB_PS_MRT_CNTL [1];;
  packet4 SP_PS_MRT_REG [FORMAT_8_8_8_8_UNORM].

(** Viewport, scissors and rasterisation of a complete draw. *)
Definition emit_raster (draw : DrawState) : em () :=
  do! x_max := lift (sub_or_panic (width (target draw)) 1) in
  do! y_max := lift (sub_or_panic (height (target draw)) 1) in
  let target_br := pack_xy x_max y_max in
  do! area_br := lift (bottom_right (area draw)) in
  do! scissor_br := lift (bottom_right (scissor draw)) in
  packet4 GRAS_CL_VIEWPORT_XOFFSET (viewport_transform (viewport draw));;
  packet4 GRAS_CL_GUARDBAND_CLIP_ADJ [guardband_clip_adj (viewport draw)];;
  packet4 GRAS_SC_SCREEN_SCISSOR_TL [pack_xy (rect_x (area draw)) (rect_y (area draw)); area_br];;
  packet4 GRAS_SC_VIEWPORT_SCISSOR_TL [pack_xy 0 0; target_br];;
  packet4 GRAS_SC_WINDOW_SCISSOR_TL
    [pack_xy (rect_x (scissor draw)) (rect_y (scissor draw)); scissor_br];;
  packet4 GRAS_CL_CNTL [0x80];;
  packet4 GRAS_SU_CNTL [0x2010 .| cull draw];;
  packet4 GRAS_SU_POINT_MINMAX [0x00100010];;
  packet4 GRAS_SU_POINT_SIZE [0x10];;
  packet4 GRAS_SU_POLY_OFFSET_SCALE [0; 0; 0];;
  packet4 PC_CNTL [0];;
  packet4 VPC_RAST_CNTL [3];;
  packet4 PC_DGEN_RAST_CNTL [3].

Definition draw_complete (draw : DrawState) : em () :=
  let link := link_meta (variant draw) in
  match shader_meta (ShaderPack.vs link), shader_meta (ShaderPack.fs link) with
  | Vertex vs, Fragment fs =>
      emit_program_config vs fs;;
      emit_target draw;;
      emit_depth_state (depth draw);;
      emit_single_sample_state;;
      emit_raster draw;;
      let count := len (draw_attributes draw) in
      packet4 VFD_CNTL_0 [as_u32 count .| as_u32 (as_u32 count << 8)];;
      packet4 VFD_CNTL_1 (vfd_cntl_1_6 vs);;
      emit_vertex_range draw;;
      packet4 VFD_FETCH_INSTR (fetch_words (draw_attributes draw));;
      packet4 VFD_DEST_CNTL (vfd_dest_cntl vs);;
      emit_vs vs link;;
      emit_fs fs;;
      emit_vs_program vs (ShaderPack.vs link);;
      emit_fs_program fs (ShaderPack.fs link);;
      emit_uniforms draw;;
      match draw_texture draw with
      | Some texture => emit_texture texture (sampler draw)
      | None => ret ()
      end;;
      emit_draw_call (draw_call draw)
  | _, _ => fail InvalidPm4
  end.

Definition draw (d : DrawState) : em () :=
  do! active := get draw_batch_active in
  if negb active then fail InvalidState
  else
    do! last := get last_draw in
    match last with
    | Some previous =>
        if fixed_draw_state_matches previous d then draw_with_retained_fixed_state d
        else draw_complete d
    | None => draw_complete d
    end;;
    modify (λ e, set_batch (draw_batch_active e) (Some d) e).

(** ** A2D clears and blits *)

Definition submission_begin_2d : em () :=
  do! active := get draw_batch_active in
  if (active : bool) then fail InvalidState
  else
    invalidate_submission_caches;;
    wait_for_idle;;
    packet4 RB_CCU_CNTL [0x08000000];;
    packet4 RB_DBG_ECO_CNTL [0x04100000];;
    packet7 opcode.SET_MARKER [12].

Definition emit_coordinates (destination : PixelRect) (scissor : option PixelRect) : em () :=
  do! br := lift (bottom_right destination) in
  packet4 GRAS_A2D_DEST_TL [pack_xy (rect_x destination) (rect_y destination); br];;
  let scissor := default destination scissor in
  do! br := lift (bottom_right scissor) in
  packet4 GRAS_A2D_SCISSOR_TL [pack_xy (rect_x scissor) (rect_y scissor); br].

Definition emit_a2d_common (format ifmt : Z) (solid scissor : bool) : em () :=
  let control := (format << 8) .| BLIT_CHANNEL_MASK .| (if solid then BLIT_SOLID_COLOR else 0)
                 .| (if scissor then BLIT_SCISSOR else 0) .| (ifmt << 24) in
  packet4 RB_A2D_BLT_CNTL [control];;
  packet4 GRAS_A2D_BLT_CNTL [control];;
  packet4 SP_A2D_OUTPUT_INFO [(format << 3) .| (0xf << 12)];;
  packet4 RB_A2D_PIXEL_CNTL [0].

Definition emit_destination (target : Surface) (format color_swap : Z) : em () :=
  packet4 RB_A2D_DEST_BUFFER_INFO
    [format .| as_u32 (tile_mode target << 8) .| (if tile_mode target =? 0 then color_swap else 0)];;
  address_register RB_A2D_DEST_BUFFER_BASE (External (surf_object target)) (surf_offset target)
    (surf_size target) WRITE;;
  packet4 RB_A2D_DEST_BUFFER_PITCH [surf_stride target >> 6].

Definition emit_blit : em () :=
  wait_for_idle;; packet7 opcode.BLIT [3];; wait_for_idle.

Definition color_words (c : Color) : list Z :=
  [unorm8 (red c); unorm8 (green c); unorm8 (blue c); unorm8 (alpha c)].

Definition clear_color_body (target : Surface) (area : PixelRect) (color : Color) : em () :=
  emit_coordinates area None;;
  packet4 RB_A2D_CLEAR_COLOR_DW0 (color_words color);;
  emit_a2d_common FORMAT_8_8_8_8_UNORM 0 true true;;
  emit_destination target FORMAT_8_8_8_8_UNORM A2D_BGRA_COLOR_SWAP;;
  emit_blit.

Definition clear_depth_body (target : Surface) (area : PixelRect) (depth : Z) : em () :=
  emit_coordinates area None;;
  packet4 RB_A2D_CLEAR_COLOR_DW0 [depth; 0; 0; 0];;
  emit_a2d_common FORMAT_32_FLOAT A2D_IFMT_FLOAT32 true true;;
  emit_destination target FORMAT_32_FLOAT 0;;
  emit_blit.

Definition valid_depth (depth : Z) : bool :=
  let d := f32_from_bits depth in
  f32_is_finite d && f32_le F32_ZERO d && f32_le d F32_ONE.

Definition clear (target : Surface) (area : PixelRect) (color : Color) : em () :=
  submission_begin_2d;;
  wait_for_idle;;
  clear_color_body target area color;;
  submission_end.

Definition clear_depth (target : Surface) (area : PixelRect) (depth : Z) : em () :=
  if negb (valid_depth depth) then fail InvalidResource
  else
    submission_begin_2d;;
    wait_for_idle;;
    clear_depth_body target area depth;;
    submission_end.

Definition clear_color_and_depth (target depth_target : Surface) (area : PixelRect)
    (color : Color) (depth : Z) : em () :=
  if negb (valid_depth depth) then fail InvalidResource
  else
    submission_begin_2d;;
    clear_depth_body depth_target area depth;;
    clear_color_body target area color;;
    submission_end.

(** [flips] is horizontal, vertical. *)
Definition rotation (flips : bool * bool) : Z :=
  match flips with
  | (false, false) => 0
  | (true, false) => 4
  | (false, true) => 5
  | (true, true) => 2
  end.

Definition blit (source : Surface) (source_rect : PixelRect) (destination : Surface)
    (destination_rect : PixelRect) (filter : FilterMode) (flips : bool * bool) : em () :=
  if negb (tile_mode source =? 0) then fail UnsupportedFeature
  else
    submission_begin_2d;;
    wait_for_idle;;
    do! x_max := lift (add_or_panic U32_MAX (rect_x source_rect) (rect_width source_rect)) in
    do! x_max := lift (sub_or_panic x_max 1) in
    do! y_max := lift (add_or_panic U32_MAX (rect_y source_rect) (rect_height source_rect)) in
    do! y_max := lift (sub_or_panic y_max 1) in
    packet4 GRAS_A2D_SRC_XMIN
      [as_u32 (rect_x source_rect << 8); as_u32 (x_max << 8);
       as_u32 (rect_y source_rect << 8); as_u32 (y_max << 8)];;
    emit_coordinates destination_rect None;;
    emit_a2d_common FORMAT_8_8_8_8_UNORM 0 false true;;
    (if rotation flips =? 0 then ret ()
     else
       let control := (FORMAT_8_8_8_8_UNORM << 8) .| BLIT_CHANNEL_MASK .| BLIT_SCISSOR
                      .| rotation flips in
       packet4 RB_A2D_BLT_CNTL [control];; packet4 GRAS_A2D_BLT_CNTL [control]);;
    packet4 TPL1_A2D_SRC_TEXTURE_INFO
      [FORMAT_8_8_8_8_UNORM .| A2D_BGRA_COLOR_SWAP .| SOURCE_TEXTURE_REQUIRED
         .| (if bool_decide (filter = Linear) then 1 << 16 else 0)];;
    packet4 TPL1_A2D_SRC_TEXTURE_SIZE [width source .| as_u32 (height source << 15)];;
    address_register TPL1_A2D_SRC_TEXTURE_BASE (External (surf_object source))
      (surf_offset source) (surf_size source) READ;;
    packet4 TPL1_A2D_SRC_TEXTURE_PITCH [as_u32 ((surf_stride source >> 6) << 9)];;
    emit_destination destination FORMAT_8_8_8_8_UNORM A2D_BGRA_COLOR_SWAP;;
    emit_blit;;
    submission_end.

Definition copy (source : Surface) (source_rect : PixelRect) (destination : Surface)
    (destination_rect : PixelRect) : em () :=
  blit source source_rect destination destination_rect Nearest (false, false).
End Emit3d.
