(* ===== verification/CodegenCompile.v ===== *)
(** * Validation and lowering of SGFX operations

    [compiler.rs]: the tables a compilation is given, the surfaces it derives
    from them, the state that operations set up inside a render pass, and the
    loop that turns operations into emitter calls. *)
From S2P Require Import Prelude F32 Pm4 ImageLayout ShaderPack CodegenModel CodegenEmit CodegenDraw.

Module Compile.
Import Ir Codegen Emit Emit3d.

Record BufferBinding := mk_binding { bb_object : Z; bb_offset : Z }.
Record IndexBinding := mk_index_binding { ib_object : Z; ib_offset : Z; ib_format : IndexFormat }.
Record PassState := mk_pass_state { ps_target : Z; ps_area : PixelRect; ps_depth : option Z }.

Record State := mk_state {
  pass : option PassState;
  draw_batch_started : bool;
  st_pipeline : option PipelineMeta;
  st_vertex : option BufferBinding;
  st_index : option IndexBinding;
  st_texture : option Z;
  st_sampler : option SamplerDesc;
  st_uniforms : option DrawUniforms;
  st_scissor : option PixelRect;
  st_viewport : option Viewport;
}.

Definition State_new : State := mk_state None false None None None None None None None None.

(** The state at the start of a pass: everything but the pass is reset. *)
Definition pass_reset (p : option PassState) : State :=
  mk_state p false None None None None None None None None.

Section Compiler.
Context `{S : !SgfxCore}.

(** ** Tables *)

Definition find_resource (l : list ResourceMeta) (id : Z) : outcome CompileError ResourceMeta :=
  ok_or (List.find (λ r, res_id r =? id) l) InvalidIdentity.

Definition find_pipeline (l : list PipelineMeta) (id : Z) : outcome CompileError PipelineMeta :=
  ok_or (List.find (λ p, pipe_id p =? id) l) InvalidIdentity.

Definition require_buffer_usage (resource : ResourceMeta) (required : BufferUsage → bool) :
    outcome CompileError () :=
  match res_kind resource with
  | Buffer usage => require (required usage) InvalidResource
  | Image _ => Err InvalidResource
  end.

(** One plane of an NV12 image. *)
Definition nv12_plane_ok (allocation_size : Z) (image : ImageMeta) (max_pitch : Z)
    (i : Z) (p : PlaneLayout) : bool :=
  let rows := if i =? 0 then extent_height (extent image) else extent_height (extent image) / 2 in
  (extent_width (extent image) <=? plane_stride p) && (plane_stride p <=? max_pitch)
  && (plane_stride p mod 64 =? 0) && (plane_size p =? plane_stride p * rows)
  && match checked_add U64_MAX (plane_offset p) (plane_size p) with
     | Some e => e <=? allocation_size
     | None => false
     end.

Definition validate_nv12 (allocation_size : Z) (image : ImageMeta) (max_pitch : Z) :
    outcome CompileError () :=
  match planes image with
  | [p0; p1] =>
      let? _ := require
        (bool_decide (storage_format image = Nv12)
         && match modifier image with LinearModifier => true | _ => false end
         && match texture image with None => true | Some _ => false end
         && match conversion image with Some _ => true | None => false end
         && bool_decide (usage image = SAMPLED_ONLY)
         && (extent_width (extent image) mod 2 =? 0)
         && (extent_height (extent image) mod 2 =? 0)) InvalidResource in
      let? _ := require (nv12_plane_ok allocation_size image max_pitch 0 p0
                         && nv12_plane_ok allocation_size image max_pitch 1 p1) InvalidResource in
      require ((plane_offset p0 =? 0) && (plane_size p0 <=? plane_offset p1)
               && (plane_offset p1 mod 4096 =? 0) && (plane_stride p1 =? plane_stride p0))
        InvalidResource
  | _ => Err InvalidResource
  end.

(** The mip and layer layout, when the image has one. *)
Definition validate_texture_layout (allocation_size : Z) (image : ImageMeta) (plane : PlaneLayout) :
    outcome CompileError () :=
  match texture image with
  | None => Ok ()
  | Some t =>
      let? layout := map_err
        (LinearTextureLayout_new (extent_width (extent image)) (extent_height (extent image))
           (ImageLayout.mip_levels t) (array_layers t)) InvalidResource in
      require
        (bool_decide (layout = t)
         && match modifier image with LinearModifier => true | _ => false end
         && (plane_offset plane =? 0) && (plane_stride plane =? row_pitch t)
         && (plane_size plane =? total_size t) && (total_size t <=? allocation_size))
        InvalidResource
  end.

Definition required_bytes (image : ImageMeta) (plane : PlaneLayout) (row_bytes max_pitch : Z) :
    outcome CompileError Z :=
  match modifier image with
  | LinearModifier =>
      if bool_decide (storage_format image = Depth32Float) then Err UnsupportedFeature
      else if (plane_stride plane <? row_bytes) || (max_pitch <? plane_stride plane)
              || negb (plane_stride plane .& 63 =? 0)
      then Err InvalidResource
      else
        let? rows := sub_or_panic (extent_height (extent image)) 1 in
        ok_or (match checked_mul U64_MAX (plane_stride plane) rows with
               | Some bytes => checked_add U64_MAX bytes row_bytes
               | None => None
               end) Overflow
  | m =>
      let expected := match m with A6xxTile6_3Depth => Depth32Float | _ => Bgra8Unorm end in
      if negb (bool_decide (storage_format image = expected))
         || negb (plane_offset plane .& (DEPTH32_LAYER_ALIGNMENT - 1) =? 0)
      then Err InvalidResource
      else
        let? layout := ok_or (depth32_tile6_3_layout (extent_width (extent image))
                                (extent_height (extent image))) Overflow in
        if negb (plane_stride plane =? d32_row_pitch layout)
           || negb (plane_size plane =? d32_layer_size layout)
        then Err InvalidResource
        else Ok (d32_layer_size layout)
  end.

Definition validate_image_layout (allocation_size : Z) (image : ImageMeta) (max_pitch : Z) :
    outcome CompileError () :=
  if bool_decide (format image = Nv12) then validate_nv12 allocation_size image max_pitch
  else
    match planes image with
    | [plane] =>
        let? _ := validate_texture_layout allocation_size image plane in
        let? pixel := ok_or (bytes_per_pixel (storage_format image)) UnsupportedFeature in
        let? row_bytes := ok_or (checked_mul U32_MAX (extent_width (extent image)) pixel) Overflow in
        let? required := required_bytes image plane row_bytes max_pitch in
        let? plane_end := ok_or (checked_add U64_MAX (plane_offset plane) (plane_size plane)) Overflow in
        if (plane_size plane <? required) || (allocation_size <? plane_end) then Err OutOfBounds
        else Ok ()
    | _ => Err UnsupportedFeature
    end.

(** ** Surfaces *)

Definition is_color_modifier (m : ImageModifier) : bool :=
  match m with LinearModifier | A6xxTile6_3Color => true | A6xxTile6_3Depth => false end.
Definition is_tiled_color (m : ImageModifier) : bool :=
  match m with A6xxTile6_3Color => true | _ => false end.

(** [required] reads one usage flag; [for_sampling] is whether it is
    [TextureUsage::SAMPLED]. *)
Definition require_image_surface (resource : ResourceMeta) (required : TextureUsage → bool)
    (for_sampling : bool) (max_pitch : Z) : outcome CompileError Surface :=
  match res_kind resource with
  | Buffer _ => Err InvalidResource
  | Image image =>
      if negb (required (usage image))
         || negb (bool_decide (storage_format image = Bgra8Unorm)
                  || bool_decide (storage_format image = Nv12) && for_sampling)
         || negb (is_color_modifier (modifier image))
         || is_tiled_color (modifier image)
            && (negb (bool_decide (format image = Bgra8Unorm)) || (extent_width (extent image) <? 64))
      then Err InvalidResource
      else
        let? _ := validate_image_layout (res_size resource) image max_pitch in
        let? plane := Prelude.index (planes image) 0 in
        let? nv12 :=
          match conversion image with
          | None => Ok None
          | Some c =>
              let? uv := Prelude.index (planes image) 1 in
              Ok (Some (mk_nv12 c (plane_offset uv) (plane_size uv)))
          end in
        Ok {|
          nv12 := nv12;
          mip_levels := match texture image with Some t => ImageLayout.mip_levels t | None => 1 end;
          array_pitch := match texture image with Some t => layer_stride t | None => plane_size plane end;
          surf_object := res_id resource;
          surf_offset := plane_offset plane;
          surf_size := plane_size plane;
          width := extent_width (extent image);
          height := extent_height (extent image);
          surf_stride := plane_stride plane;
          tile_mode := if is_tiled_color (modifier image) then TILE_MODE_3 else 0;
          alpha_mask := bool_decide (format image = R8Unorm);
        |}
  end.

Definition require_target_surface (resource : ResourceMeta) (required : TextureUsage → bool)
    (max_pitch : Z) : outcome CompileError Surface :=
  match res_kind resource with
  | Buffer _ => Err InvalidResource
  | Image image =>
      if negb (bool_decide (format image = Bgra8Unorm)) then Err InvalidResource
      else require_image_surface resource required false max_pitch
  end.

Definition require_depth_surface (resource : ResourceMeta) (w h max_pitch : Z) :
    outcome CompileError Surface :=
  match res_kind resource with
  | Buffer _ => Err InvalidResource
  | Image image =>
      if negb (bool_decide (format image = Depth32Float))
         || negb match modifier image with A6xxTile6_3Depth => true | _ => false end
         || negb (render_attachment (usage image))
         || negb (extent_width (extent image) =? w) || negb (extent_height (extent image) =? h)
      then Err InvalidResource
      else
        let? _ := validate_image_layout (res_size resource) image max_pitch in
        let? plane := Prelude.index (planes image) 0 in
        Ok {|
          nv12 := None;
          mip_levels := 1;
          array_pitch := plane_size plane;
          surf_object := res_id resource;
          surf_offset := plane_offset plane;
          surf_size := plane_size plane;
          width := w;
          height := h;
          surf_stride := plane_stride plane;
          tile_mode := TILE_MODE_3;
          alpha_mask := false;
        |}
  end.

Definition validate_rect (rect : PixelRect) (surface : Surface) : outcome CompileError () :=
  let too_far origin extent limit :=
    match checked_add U32_MAX origin extent with Some e => limit <? e | None => true end in
  if too_far (rect_x rect) (rect_width rect) (width surface)
     || too_far (rect_y rect) (rect_height rect) (height surface)
     || (0x7fff <? rect_x rect) || (0x7fff <? rect_y rect)
  then Err OutOfBounds
  else
    let? x_end := sub_or_panic (rect_x rect + rect_width rect) 1 in
    if 0x7fff <? x_end then Err OutOfBounds
    else
      let? y_end := sub_or_panic (rect_y rect + rect_height rect) 1 in
      if 0x7fff <? y_end then Err OutOfBounds else Ok ().

Definition validate_range (size offset length : Z) : outcome CompileError () :=
  if (length =? 0)
     || match checked_add U64_MAX offset length with Some e => size <? e | None => true end
  then Err OutOfBounds else Ok ().

Definition rect_within (inner outer : PixelRect) : bool :=
  (rect_x outer <=? rect_x inner) && (rect_y outer <=? rect_y inner)
  && (rect_x inner + rect_width inner <=? rect_x outer + rect_width outer)
  && (rect_y inner + rect_height inner <=? rect_y outer + rect_height outer).

Definition require_inside_pass (st : State) : outcome CompileError PassState :=
  ok_or (pass st) InvalidState.

Definition require_outside_pass (st : State) : outcome CompileError () :=
  match pass st with Some _ => Err InvalidState | None => Ok () end.

Definition require_draw_state (st : State) :
    outcome CompileError (PassState * PipelineMeta * BufferBinding * DrawUniforms) :=
  let? p := ok_or (pass st) InvalidState in
  let? pl := ok_or (st_pipeline st) InvalidState in
  let? v := ok_or (st_vertex st) InvalidState in
  let? u := ok_or (st_uniforms st) InvalidState in
  Ok (p, pl, v, u).

(** ** Pipelines *)

Definition pipeline_variant (d : RenderPipelineDesc) : outcome CompileError PipelineVariant :=
  match stride (vertex_buffer d), fragment d with
  | 16, Solid => Ok Stride16Solid
  | 16, Texture Rgba => Ok Stride16TextureRgba
  | 16, Texture AlphaMask => Ok Stride16TextureAlphaMask
  | 40, Solid => Ok Stride40Solid
  | 40, VertexColor => Ok Stride40VertexColor
  | 40, TextureVertexColor (Rgba | AlphaMask) => Ok Stride40TextureVertexColorRgba
  | 24, Solid => Ok Stride24Solid
  | 24, Texture Rgba => Ok Stride24TextureRgba
  | 24, Texture RgbIgnoreAlpha => Ok Stride24TextureRgbIgnoreAlpha
  | 24, Texture AlphaMask => Ok Stride24TextureAlphaMask
  | 28, VertexColor => Ok Stride28VertexColor
  | 32, Solid => Ok Stride32Solid
  | 32, VertexColor => Ok Stride32VertexColor
  | _, _ => Err UnsupportedFeature
  end.

Definition POS2 : list (Z * Z) := [(0x67, 0)].
Definition POS2_UV2 : list (Z * Z) := [(0x67, 0); (0x67, 8)].
Definition POS4 : list (Z * Z) := [(0x82, 0)].
Definition POS4_UV2 : list (Z * Z) := [(0x82, 0); (0x67, 16)].
Definition POS4_COLOR3 : list (Z * Z) := [(0x82, 0); (0x74, 16)].
Definition POS4_COLOR4 : list (Z * Z) := [(0x82, 0); (0x82, 16)].
Definition POS4_COLOR4_UV2 : list (Z * Z) := [(0x82, 0); (0x82, 16); (0x67, 32)].

Definition draw_fixed_state (d : RenderPipelineDesc) : outcome CompileError (list (Z * Z) * bool) :=
  let? attributes :=
    match stride (vertex_buffer d), fragment d with
    | 16, Solid => Ok POS2
    | 16, _ => Ok POS2_UV2
    | (24 | 32 | 40), Solid => Ok POS4
    | 24, _ => Ok POS4_UV2
    | 28, _ => Ok POS4_COLOR3
    | 32, VertexColor => Ok POS4_COLOR4
    | 40, VertexColor => Ok POS4_COLOR4
    | 40, _ => Ok POS4_COLOR4_UV2
    | _, _ => Err UnsupportedFeature
    end in
  Ok (attributes, bool_decide (blend d = SOURCE_OVER_STRAIGHT_ALPHA)).

Definition validate_sample_state (resources : list ResourceMeta) (st : State)
    (pipeline : PipelineMeta) : outcome CompileError bool :=
  let with_texture mode :=
    let? texture := ok_or (st_texture st) InvalidState in
    let? sampler := ok_or (st_sampler st) InvalidState in
    if has_compare sampler || negb (bool_decide (min_filter sampler = mag_filter sampler))
       || negb (bool_decide (address_u sampler = ClampToEdge))
       || negb (bool_decide (address_v sampler = ClampToEdge))
    then Err UnsupportedFeature
    else
      let? resource := find_resource resources texture in
      match res_kind resource with
      | Buffer _ => Err InvalidResource
      | Image image =>
          let format_matches :=
            match mode with
            | Rgba | RgbIgnoreAlpha =>
                match format image with Bgra8Unorm | Rgba8Unorm | Nv12 => true | _ => false end
            | AlphaMask => bool_decide (format image = R8Unorm)
            end in
          if negb format_matches
             || negb match storage_format image with Bgra8Unorm | Nv12 => true | _ => false end
             || negb (sampled (usage image))
          then Err InvalidResource
          else Ok (bool_decide (min_filter sampler = Linear))
      end in
  match fragment (descriptor pipeline) with
  | Solid | VertexColor => Ok false
  | Texture mode | TextureVertexColor mode => with_texture mode
  end.

(** [find(location) == Some((format, offset))]. *)
Definition has_attribute (d : RenderPipelineDesc) (loc : Z) (f : VertexFormat) (offset : Z) : bool :=
  match List.find (λ a, location a =? loc) (attributes (vertex_buffer d)) with
  | Some a => bool_decide (attribute_format a = f) && (attribute_offset a =? offset)
  | None => false
  end.

Definition validate_pipeline_descriptor (pipeline : PipelineMeta) : outcome CompileError () :=
  let d := descriptor pipeline in
  let s := stride (vertex_buffer d) in
  if negb (bool_decide (target_format d = Bgra8Unorm))
     || negb (bool_decide (topology d = TriangleList))
     || match depth_state d with
        | Some depth => negb (bool_decide (depth_format depth = Depth32Float))
        | None => false
        end
     || negb match s with 16 | 24 | 28 | 32 | 40 => true | _ => false end
  then Err UnsupportedFeature
  else
    let layout_ok :=
      match s, fragment d with
      | 16, Solid => has_attribute d 0 Float32x2 0
      | 16, Texture (Rgba | AlphaMask) => has_attribute d 0 Float32x2 0 && has_attribute d 1 Float32x2 8
      | 40, Solid => has_attribute d 0 Float32x4 0
      | 40, VertexColor => has_attribute d 0 Float32x4 0 && has_attribute d 1 Float32x4 16
      | 40, TextureVertexColor (Rgba | AlphaMask) =>
          has_attribute d 0 Float32x4 0 && has_attribute d 1 Float32x4 16
          && has_attribute d 2 Float32x2 32
      | 24, Solid => has_attribute d 0 Float32x4 0
      | 24, Texture (Rgba | RgbIgnoreAlpha | AlphaMask) =>
          has_attribute d 0 Float32x4 0 && has_attribute d 1 Float32x2 16
      | 28, VertexColor => has_attribute d 0 Float32x4 0 && has_attribute d 1 Float32x3 16
      | 32, Solid => has_attribute d 0 Float32x4 0
      | 32, VertexColor => has_attribute d 0 Float32x4 0 && has_attribute d 1 Float32x4 16
      | _, _ => false
      end in
    let fixed_state_ok :=
      match s with
      | 16 | 24 | 32 =>
          bool_decide (blend d = SOURCE_OVER_STRAIGHT_ALPHA)
          && bool_decide (cull_mode d = CullNone) && bool_decide (front_face d = CounterClockwise)
      | 40 =>
          bool_decide (blend d = SOURCE_OVER_STRAIGHT_ALPHA)
          && match cull_mode d with CullNone | CullBack => true | CullFront => false end
          && bool_decide (front_face d = CounterClockwise)
      | 28 => bool_decide (blend d = REPLACE)
      | _ => false
      end in
    require (layout_ok && fixed_state_ok) UnsupportedFeature.

(** The checks of one table entry against the entries before it. *)
Fixpoint validate_resources (before l : list ResourceMeta) (max_pitch : Z) :
    outcome CompileError () :=
  match l with
  | [] => Ok ()
  | r :: l =>
      if (res_size r =? 0) || existsb (λ other, res_id other =? res_id r) before
      then Err InvalidIdentity
      else
        let? _ :=
          match res_kind r with
          | Image image => validate_image_layout (res_size r) image max_pitch
          | Buffer _ => Ok ()
          end in
        validate_resources (before ++ [r]) l max_pitch
  end.

Fixpoint validate_pipelines (before l : list PipelineMeta) : outcome CompileError () :=
  match l with
  | [] => Ok ()
  | p :: l =>
      if existsb (λ other, pipe_id other =? pipe_id p) before then Err InvalidIdentity
      else
        let? _ := validate_pipeline_descriptor p in
        validate_pipelines (before ++ [p]) l
  end.

Definition validate_tables (input : CompileInput) : outcome CompileError () :=
  let c := capabilities input in
  if (gmem_size c =? 0) || (max_pm4_words c =? 0) || (max_linear_pitch c =? 0)
  then Err InvalidResource
  else
    let? _ := validate_resources [] (resources input) (max_linear_pitch c) in
    validate_pipelines [] (pipelines input).

(** ** Texture uploads *)

(** Four bytes of storage per pixel of one source row. *)
Fixpoint swizzle_rgba (source : list Z) : list Z :=
  match source with
  | r :: g :: b :: a :: source => b :: g :: r :: a :: swizzle_rgba source
  | _ => []
  end.

Definition convert_row (format : TextureFormat) (source : list Z) : outcome CompileError (list Z) :=
  match format with
  | Bgra8Unorm => Ok source
  | Rgba8Unorm => Ok (swizzle_rgba source)
  | R8Unorm => Ok (source ≫= λ alpha, [0; 0; 0; alpha])
  | _ => Err UnsupportedFeature
  end.

Definition upload_pixels (format : TextureFormat) (bytes_per_row logical_row_size : Z)
    (data : list Z) (pixels : list Z) (row : Z) : outcome CompileError (list Z) :=
  let start := row * bytes_per_row in
  match get_range data start (start + logical_row_size) with
  | None => Panic
  | Some source =>
      let? converted := convert_row format source in
      Ok (pixels ++ converted)
  end.

Definition emit_texture_upload (resources : list ResourceMeta) (destination : Z) (area : PixelRect)
    (bytes_per_row : Z) (data : list Z) (max_pitch : Z) : em () :=
  do! resource := lift (find_resource resources destination) in
  do! surface := lift (require_image_surface resource copy_dst false max_pitch) in
  lift (validate_rect area surface);;
  match res_kind resource with
  | Buffer _ => fail InvalidResource
  | Image image =>
      do! pixel := lift (ok_or (bytes_per_pixel (format image)) UnsupportedFeature) in
      do! logical_row_size := lift (ok_or (checked_mul U32_MAX (rect_width area) pixel) Overflow) in
      if bytes_per_row <? logical_row_size then fail OutOfBounds
      else
        do! rows := lift (sub_or_panic (rect_height area) 1) in
        do! required_data :=
          lift (ok_or (match checked_mul U64_MAX bytes_per_row rows with
                       | Some bytes => checked_add U64_MAX bytes logical_row_size
                       | None => None
                       end) Overflow) in
        if len data <? required_data then fail OutOfBounds
        else
          do! row_bytes := lift (ok_or (checked_mul U64_MAX (rect_width area) 4) Overflow) in
          do! total := lift (ok_or (checked_mul U64_MAX row_bytes (rect_height area)) Overflow) in
          if negb (bool_decide (storage_format image = Bgra8Unorm)) then fail UnsupportedFeature
          else
            try_reserve;;
            do! pixels :=
              lift (foldM (upload_pixels (format image) bytes_per_row logical_row_size data) []
                      (range (rect_height area))) in
            do! destination_offset :=
              lift (ok_or (match checked_add U64_MAX (surf_offset surface)
                                   (rect_y area * surf_stride surface) with
                           | Some offset => checked_add U64_MAX offset (rect_x area * 4)
                           | None => None
                           end) Overflow) in
            upload_rows destination destination_offset (surf_stride surface) row_bytes pixels
  end.

(** ** Draws *)

Definition f32_const (bits : Z) : SpecFloat.spec_float := f32_from_bits bits.

(** [ycbcr_coefficients], as bit patterns. *)
Definition ycbcr_coefficients (c : YcbcrConversion) : list Z :=
  let one := F32_ONE in
  let n k := f32_of_u32 k in
  let kr := match ycbcr_matrix c with Bt601 => f32_const 0x3e991687 | Bt709 => f32_const 0x3e59b3d0 end in
  let kb := match ycbcr_matrix c with Bt601 => f32_const 0x3de978d5 | Bt709 => f32_const 0x3d93dd98 end in
  let ys := match ycbcr_range c with Limited => f32_div (n 255) (n 219) | Full => one end in
  let cs := match ycbcr_range c with Limited => f32_div (n 255) (n 224) | Full => one end in
  let yo := match ycbcr_range c with Limited => f32_div (n 16) (n 255) | Full => F32_ZERO end in
  let rv := f32_mul (f32_mul (n 2) (f32_sub one kr)) cs in
  let bu := f32_mul (f32_mul (n 2) (f32_sub one kb)) cs in
  let rest := f32_sub (f32_sub one kr) kb in
  let gu := f32_mul (f32_div (f32_mul (f32_mul (f32_neg (n 2)) kb) (f32_sub one kb)) rest) cs in
  let gv := f32_mul (f32_div (f32_mul (f32_mul (f32_neg (n 2)) kr) (f32_sub one kr)) rest) cs in
  let co := f32_div (n 128) (n 255) in
  let base := f32_mul (f32_neg ys) yo in
  f32_to_bits <$>
    [ys; F32_ZERO; rv; f32_sub base (f32_mul rv co);
     ys; gu; gv; f32_sub base (f32_mul (f32_add gu gv) co);
     ys; bu; F32_ZERO; f32_sub base (f32_mul bu co)].

(** The 32 uniform words of a draw. *)
Definition uniform_words (u : DrawUniforms) (nv12 : option Nv12Surface) : list Z :=
  take 16 (transform u ++ replicate 16 0)
  ++ [red (uniform_color u); green (uniform_color u); blue (uniform_color u); alpha (uniform_color u)]
  ++ match nv12 with
     | Some n => ycbcr_coefficients (nv12_conversion n)
     | None => replicate 12 0
     end.

(** The four words of the sampler descriptor. *)
Definition sampler_words (linear : bool) (sampler : option SamplerDesc) (texture : option Surface) :
    outcome CompileError (list Z) :=
  let base := if linear then SAMPLER_CLAMP_LINEAR else SAMPLER_CLAMP_NEAREST in
  match sampler with
  | None => Ok base
  | Some s =>
      let? levels := match texture with
                     | Some t => sub_or_panic (mip_levels t) 1
                     | None => Ok 0
                     end in
      let max := f32_of_u32 levels in
      let lod bits :=
        f32_as_u32 (f32_mul (f32_clamp (f32_from_bits bits) F32_ZERO max) (f32_of_u32 256)) in
      let w0 := base.[0] .| (if bool_decide (mip_filter s = Linear) then 1 else 0) in
      let w1 := if 0 <? lod (max_lod s) then base.[1] .&~ 0x40 else base.[1] in
      Ok [w0; w1 .| (as_u32 (lod (min_lod s) << 20) .| as_u32 (lod (max_lod s) << 8));
          base.[2]; base.[3]]
  end.

Definition cull_word (d : RenderPipelineDesc) : Z :=
  (match cull_mode d with CullNone => 0 | CullFront => 1 | CullBack => 2 end)
  .| (if bool_decide (front_face d = Clockwise) then 4 else 0).

(** The NV12 replacement of a pipeline variant. *)
Definition nv12_variant (d : RenderPipelineDesc) : outcome CompileError PipelineVariant :=
  match stride (vertex_buffer d), fragment d with
  | 16, Texture _ => Ok Stride16Nv12
  | 24, Texture _ => Ok Stride24Nv12
  | 40, TextureVertexColor _ => Ok Stride40Nv12VertexColor
  | _, _ => Err UnsupportedFeature
  end.

Definition draw_extent (d : RenderPipelineDesc) (call : DrawCall) : outcome CompileError (Z * Z) :=
  match call with
  | NonIndexed first_vertex vertex_count =>
      let? end_vertex := ok_or (checked_add U32_MAX first_vertex vertex_count) Overflow in
      let? size := ok_or (checked_mul U64_MAX end_vertex (stride (vertex_buffer d))) Overflow in
      Ok (size, vertex_count)
  | Indexed indexed => Ok (indexed_vertex_size indexed, index_count indexed)
  end.

(** The texture a draw samples. *)
Definition sampled_surface (input : CompileInput) (st : State) (d : RenderPipelineDesc) :
    outcome CompileError (option Surface) :=
  match fragment d with
  | Texture _ | TextureVertexColor _ =>
      let? id := ok_or (st_texture st) InvalidState in
      let? resource := find_resource (resources input) id in
      let? t := require_image_surface resource sampled true (max_linear_pitch (capabilities input)) in
      Ok (Some t)
  | Solid | VertexColor => Ok None
  end.

Definition draw_depth (input : CompileInput) (p : PassState) (target : Surface)
    (d : RenderPipelineDesc) : outcome CompileError (option DepthDrawState) :=
  match ps_depth p, depth_state d with
  | Some id, Some ds =>
      if negb (bool_decide (depth_format ds = Depth32Float)) then Err InvalidResource
      else
        let? resource := find_resource (resources input) id in
        let? surface := require_depth_surface resource (width target) (height target)
                          (max_linear_pitch (capabilities input)) in
        Ok (Some (mk_depth_draw surface (compare ds) (write_enabled ds)))
  | None, Some _ => Err InvalidState
  | _, None => Ok None
  end.

(** Everything of [emit_draw] before the emitter is called. *)
Definition prepare_draw (input : CompileInput) (st : State) (call : DrawCall) :
    outcome CompileError DrawState :=
  let? (p, pl, v, u) := require_draw_state st in
  let d := descriptor pl in
  let? (vertex_bytes, count) := draw_extent d call in
  if (count =? 0) || negb (count mod 3 =? 0) then Err UnsupportedFeature
  else
    let max_pitch := max_linear_pitch (capabilities input) in
    let? target_resource := find_resource (resources input) (ps_target p) in
    let? target := require_target_surface target_resource render_attachment max_pitch in
    if negb (bool_decide (target_format d = Bgra8Unorm)) then Err InvalidResource
    else
      let? linear := validate_sample_state (resources input) st pl in
      let? vertex_resource := find_resource (resources input) (bb_object v) in
      let? _ := require_buffer_usage vertex_resource buffer_vertex in
      let? _ := validate_range (res_size vertex_resource) (bb_offset v) vertex_bytes in
      let? _ := to_u32 OutOfBounds vertex_bytes in
      if match st_scissor st with Some r => negb (rect_within r (ps_area p)) | None => false end
      then Err OutOfBounds
      else
        let? plain := pipeline_variant d in
        let? (attributes, source_over) := draw_fixed_state d in
        let? texture := sampled_surface input st d in
        let? variant := if is_nv12 texture then nv12_variant d else Ok plain in
        let? depth := draw_depth input p target d in
        let? full := ok_or (viewport_new 0 0 (f32_to_bits (f32_of_u32 (width target)))
                              (f32_to_bits (f32_of_u32 (height target))) 0 F32_ONE_BITS)
                       InvalidResource in
        let? sampler := sampler_words linear (st_sampler st) texture in
        Ok {|
          variant := variant;
          target := target;
          area := ps_area p;
          scissor := default (ps_area p) (st_scissor st);
          viewport := default full (st_viewport st);
          vertex := bb_object v;
          vertex_offset := bb_offset v;
          vertex_size := vertex_bytes;
          draw_stride := stride (vertex_buffer d);
          draw_attributes := attributes;
          uniforms := uniform_words u (texture ≫= nv12);
          draw_texture := texture;
          sampler := sampler;
          source_over := source_over;
          cull := cull_word d;
          depth := depth;
          draw_call := call;
        |}.

Definition emit_draw (input : CompileInput) (st : State) (call : DrawCall) : em () :=
  do! d := lift (prepare_draw input st call) in draw d.

(** The bounds of an indexed draw. *)
Definition prepare_indexed (input : CompileInput) (st : State)
    (index_count first_index base_vertex : Z) : outcome CompileError DrawCall :=
  let? (_, pl, v, _) := require_draw_state st in
  let? i := ok_or (st_index st) InvalidState in
  if base_vertex <? 0 then Err UnsupportedFeature
  else
    let? index_resource := find_resource (resources input) (ib_object i) in
    let? _ := require_buffer_usage index_resource buffer_index in
    let element := byte_size (ib_format i) in
    let? available := ok_or (checked_sub (res_size index_resource) (ib_offset i)) OutOfBounds in
    let? max_indices := to_u32 OutOfBounds (available / element) in
    let? end_index := ok_or (checked_add U32_MAX first_index index_count) Overflow in
    if (index_count =? 0) || (max_indices <? end_index) then Err OutOfBounds
    else
      let? index_size := ok_or (checked_mul U64_MAX max_indices element) Overflow in
      let? vertex_resource := find_resource (resources input) (bb_object v) in
      let? _ := require_buffer_usage vertex_resource buffer_vertex in
      let? vertex_size := ok_or (checked_sub (res_size vertex_resource) (bb_offset v)) OutOfBounds in
      let? minimum :=
        ok_or (match checked_add U64_MAX base_vertex 1 with
               | Some count => checked_mul U64_MAX count (stride (vertex_buffer (descriptor pl)))
               | None => None
               end) Overflow in
      if vertex_size <? minimum then Err OutOfBounds
      else Ok (Indexed (mk_indexed (ib_object i) (ib_offset i) index_size (ib_format i) index_count
                          first_index base_vertex max_indices vertex_size)).

Definition emit_draw_indexed (input : CompileInput) (st : State)
    (index_count first_index base_vertex : Z) : em () :=
  do! call := lift (prepare_indexed input st index_count first_index base_vertex) in
  emit_draw input st call.

Definition begin_draw_batch_if_needed (st : State) : em State :=
  lift (require_inside_pass st);;
  if draw_batch_started st then continue_draw_batch;; ret st
  else
    begin_draw_batch;;
    ret (mk_state (pass st) true (st_pipeline st) (st_vertex st) (st_index st) (st_texture st)
           (st_sampler st) (st_uniforms st) (st_scissor st) (st_viewport st)).

(** ** Operations *)

Definition begin_render_pass (input : CompileInput) (st : State) (rp : RenderPass) : em State :=
  match pass st with
  | Some _ => fail InvalidState
  | None =>
      let max_pitch := max_linear_pitch (capabilities input) in
      do! target_resource := lift (find_resource (resources input) (pass_target rp)) in
      do! target := lift (require_target_surface target_resource render_attachment max_pitch) in
      lift (validate_rect (pass_area rp) target);;
      do! (depth, depth_clear) :=
        match pass_depth rp with
        | Some d =>
            do! resource := lift (find_resource (resources input) (depth_target d)) in
            do! surface := lift (require_depth_surface resource (width target) (height target)
                                   max_pitch) in
            ret (Some (depth_target d),
                 match depth_load d with
                 | DepthClear value => Some (surface, value)
                 | _ => None
                 end)
        | None => ret (None, None)
        end in
      match pass_load rp, depth_clear with
      | Clear color, Some (depth_surface, value) =>
          clear_color_and_depth target depth_surface (pass_area rp) color value
      | Clear color, None => clear target (pass_area rp) color
      | _, Some (depth_surface, value) => clear_depth depth_surface (pass_area rp) value
      | _, None => ret ()
      end;;
      ret (pass_reset (Some (mk_pass_state (pass_target rp) (pass_area rp) depth)))
  end.

Definition end_render_pass (st : State) : em State :=
  match pass st with
  | None => fail InvalidState
  | Some _ => (if draw_batch_started st then end_draw_batch else ret ());; ret (pass_reset None)
  end.

Definition emit_copy (input : CompileInput) (source : Z) (source_rect : PixelRect)
    (destination : Z) (destination_rect : PixelRect) : em () :=
  let max_pitch := max_linear_pitch (capabilities input) in
  if negb (same_extent source_rect destination_rect) || (source =? destination)
  then fail InvalidResource
  else
    do! source_resource := lift (find_resource (resources input) source) in
    do! destination_resource := lift (find_resource (resources input) destination) in
    do! src := lift (require_target_surface source_resource copy_src max_pitch) in
    do! dst := lift (require_target_surface destination_resource copy_dst max_pitch) in
    lift (validate_rect source_rect src);;
    lift (validate_rect destination_rect dst);;
    copy src source_rect dst destination_rect.

Definition emit_blit_texture (input : CompileInput) (source : Z) (source_rect : PixelRect)
    (destination : Z) (destination_rect : PixelRect) (filter : FilterMode)
    (flips : bool * bool) : em () :=
  let max_pitch := max_linear_pitch (capabilities input) in
  if source =? destination then fail InvalidResource
  else
    do! src_meta := lift (find_resource (resources input) source) in
    do! src := lift (require_image_surface src_meta copy_src false max_pitch) in
    do! dst_meta := lift (find_resource (resources input) destination) in
    do! dst := lift (require_image_surface dst_meta copy_dst false max_pitch) in
    match res_kind src_meta, res_kind dst_meta with
    | Image src_image, Image dst_image =>
        if negb (bool_decide (format src_image = format dst_image)) then fail InvalidResource
        else
          lift (validate_rect source_rect src);;
          lift (validate_rect destination_rect dst);;
          blit src source_rect dst destination_rect filter flips
    | _, _ => fail InvalidResource
    end.

Definition step (input : CompileInput) (st : State) (op : Operation) : em State :=
  let max_pitch := max_linear_pitch (capabilities input) in
  match op with
  | WriteBuffer destination offset data =>
      lift (require_outside_pass st);;
      do! resource := lift (find_resource (resources input) destination) in
      lift (require_buffer_usage resource buffer_copy_dst);;
      lift (validate_range (res_size resource) offset (len data));;
      upload_buffer destination offset (len data) data;;
      ret st
  | WriteTexture destination area bytes_per_row data =>
      lift (require_outside_pass st);;
      emit_texture_upload (resources input) destination area bytes_per_row data max_pitch;;
      ret st
  | CopyTextureToTexture source source_rect destination destination_rect =>
      lift (require_outside_pass st);;
      emit_copy input source source_rect destination destination_rect;;
      ret st
  | BlitTexture source source_rect destination destination_rect filter flips =>
      lift (require_outside_pass st);;
      emit_blit_texture input source source_rect destination destination_rect filter flips;;
      ret st
  | BeginRenderPass rp => begin_render_pass input st rp
  | EndRenderPass => end_render_pass st
  | SetPipeline id =>
      lift (require_inside_pass st);;
      do! p := lift (find_pipeline (pipelines input) id) in
      ret (mk_state (pass st) (draw_batch_started st) (Some p) (st_vertex st) (st_index st)
             (st_texture st) (st_sampler st) (st_uniforms st) (st_scissor st) (st_viewport st))
  | SetVertexBuffer buffer offset =>
      lift (require_inside_pass st);;
      do! resource := lift (find_resource (resources input) buffer) in
      lift (require_buffer_usage resource buffer_vertex);;
      if res_size resource <=? offset then fail OutOfBounds
      else
        ret (mk_state (pass st) (draw_batch_started st) (st_pipeline st)
               (Some (mk_binding buffer offset)) (st_index st) (st_texture st) (st_sampler st)
               (st_uniforms st) (st_scissor st) (st_viewport st))
  | SetIndexBuffer buffer offset format =>
      lift (require_inside_pass st);;
      do! resource := lift (find_resource (resources input) buffer) in
      lift (require_buffer_usage resource buffer_index);;
      if (res_size resource <=? offset) || negb (offset mod byte_size format =? 0)
      then fail OutOfBounds
      else
        ret (mk_state (pass st) (draw_batch_started st) (st_pipeline st) (st_vertex st)
               (Some (mk_index_binding buffer offset format)) (st_texture st) (st_sampler st)
               (st_uniforms st) (st_scissor st) (st_viewport st))
  | SetTexture id =>
      lift (require_inside_pass st);;
      do! resource := lift (find_resource (resources input) id) in
      lift (require_image_surface resource sampled true max_pitch);;
      ret (mk_state (pass st) (draw_batch_started st) (st_pipeline st) (st_vertex st)
             (st_index st) (Some id) (st_sampler st) (st_uniforms st) (st_scissor st)
             (st_viewport st))
  | SetSampler sampler =>
      lift (require_inside_pass st);;
      ret (mk_state (pass st) (draw_batch_started st) (st_pipeline st) (st_vertex st)
             (st_index st) (st_texture st) (Some sampler) (st_uniforms st) (st_scissor st)
             (st_viewport st))
  | SetUniforms u =>
      lift (require_inside_pass st);;
      ret (mk_state (pass st) (draw_batch_started st) (st_pipeline st) (st_vertex st)
             (st_index st) (st_texture st) (st_sampler st) (Some u) (st_scissor st)
             (st_viewport st))
  | SetViewport v =>
      do! p := lift (require_inside_pass st) in
      do! resource := lift (find_resource (resources input) (ps_target p)) in
      do! target := lift (require_target_surface resource render_attachment max_pitch) in
      do! extent := lift (ok_or (extent_new (width target) (height target)) InvalidResource) in
      if negb (is_within v extent) then fail OutOfBounds
      else
        ret (mk_state (pass st) (draw_batch_started st) (st_pipeline st) (st_vertex st)
               (st_index st) (st_texture st) (st_sampler st) (st_uniforms st) (st_scissor st)
               (Some v))
  | SetScissor r =>
      do! p := lift (require_inside_pass st) in
      if match r with Some r => negb (rect_within r (ps_area p)) | None => false end
      then fail OutOfBounds
      else
        ret (mk_state (pass st) (draw_batch_started st) (st_pipeline st) (st_vertex st)
               (st_index st) (st_texture st) (st_sampler st) (st_uniforms st) r (st_viewport st))
  | Draw vertex_count first_vertex =>
      do! st' := begin_draw_batch_if_needed st in
      emit_draw input st' (NonIndexed first_vertex vertex_count);;
      ret st'
  | DrawIndexed index_count first_index base_vertex =>
      do! st' := begin_draw_batch_if_needed st in
      emit_draw_indexed input st' index_count first_index base_vertex;;
      ret st'
  end.

Fixpoint run_operations (input : CompileInput) (st : State) (ops : list Operation) : em State :=
  match ops with
  | [] => ret st
  | op :: ops => do! st' := step input st op in run_operations input st' ops
  end.

(** [memory] is the allocator's patience. *)
Definition compile (memory : option nat) (input : CompileInput) :
    outcome CompileError RelocatablePm4 :=
  let? _ := validate_tables input in
  let? (r, _) :=
    (do! st := run_operations input State_new (operations input) in
     match pass st with
     | Some _ => fail InvalidState
     | None => finish
     end) (new (max_pm4_words (capabilities input)) memory) in
  Ok r.
End Compiler.
End Compile.
