(* ===== verification/CodegenFacts.v ===== *)
(** * The emitter's invariant

    What every emitter method preserves: both word buffers are streams of whole
    packets with at most one open packet, every symbolic address has a blank
    placeholder of its own, names bytes inside its object, and is covered by an
    entry of the access table, and the budget is respected.  [triple] is the
    Hoare triple of emitter methods: a method started in the invariant either
    keeps it or refuses. *)
From S2P Require Import Prelude F32 Pm4 ImageLayout ShaderPack CodegenModel CodegenEmit.

Module EmitFacts.
Import Ir Codegen Emit.

(** ** Streams under construction *)

(** [partial ws n]: whole packets, then one that still lacks [n] words. *)
Inductive partial : list Z → nat → Prop :=
| partial_nil : partial [] 0
| partial_header ws w h c :
    partial ws 0 → u32 w → decode_header w = Ok h → header_count h = Z.of_nat c →
    partial (ws ++ [w]) c
| partial_word ws v n : partial ws (S n) → u32 v → partial (ws ++ [v]) n.

Lemma stream_app off ws ps ws' ps' :
  stream off ws ps → stream (off + len ws) ws' ps' → stream off (ws ++ ws') (ps ++ ps').
Proof.
  induction 1 as [off|off w h body rest ps Hd Hl _ IH]; simpl; intros H.
  - replace (off + len []) with off in H by (unfold len; simpl; lia). done.
  - rewrite <-(assoc_L (++)). constructor; [done..|]. apply IH.
    replace (off + 1 + header_count h + len rest) with (off + len (w :: body ++ rest)); [done|].
    unfold len in *. simpl. rewrite length_app. lia.
Qed.

Lemma partial_split ws n :
  partial ws n →
  ∃ pre ps, stream 0 pre ps ∧
    (n = 0%nat ∧ ws = pre ∨
     ∃ w h body, ws = pre ++ w :: body ∧ decode_header w = Ok h ∧
       header_count h = len body + Z.of_nat n ∧ (0 < n)%nat).
Proof.
  induction 1 as [|ws w h c H IH Hw Hd Hc|ws v n H IH Hv].
  - exists [], []. split; [constructor|by left].
  - destruct IH as (pre & ps & Hs & [[_ ->]|(?&?&?&?&?&?&?)]); [|lia].
    destruct c as [|c].
    + exists (pre ++ [w]), (ps ++ [MkPacket h [] (len pre)]). split; [|by left].
      apply stream_app; [done|]. apply (stream_cons _ w h [] [] []); [done| |constructor].
      rewrite Hc. done.
    + exists pre, ps. split; [done|]. right. exists w, h, []. split_and!; [done|done| |lia].
      rewrite Hc. unfold len. simpl. lia.
  - destruct IH as (pre & ps & Hs & [[? _]|(w & h & body & -> & Hd & Hc & _)]); [lia|].
    destruct n as [|n].
    + exists (pre ++ w :: body ++ [v]), (ps ++ [MkPacket h (body ++ [v]) (len pre)]).
      split; [|left; split; [done|by rewrite <-(assoc_L (++))]].
      apply stream_app; [done|]. rewrite Z.add_0_l, <-(app_nil_r (body ++ [v])) at 1.
      constructor; [done| |constructor]. rewrite Hc. unfold len. rewrite length_app. simpl. lia.
    + exists pre, ps. split; [done|]. right. exists w, h, (body ++ [v]).
      split_and!; [by rewrite <-(assoc_L (++))|done| |lia].
      rewrite Hc. unfold len. rewrite length_app. simpl. lia.
Qed.

(** A finished buffer is a stream of whole packets. *)
Lemma partial_stream ws : partial ws 0 → ∃ ps, stream 0 ws ps.
Proof.
  intros (pre & ps & Hs & [[_ ->]|(?&?&?&?&?&?&?)])%partial_split; [eauto|lia].
Qed.

Lemma partial_u32 ws n : partial ws n → Forall u32 ws.
Proof. induction 1; [constructor| |]; apply Forall_app; auto. Qed.

Lemma partial_words ws vs n :
  partial ws (length vs + n) → Forall u32 vs → partial (ws ++ vs) n.
Proof.
  intros H HV. revert ws H. induction HV as [|v vs Hv _ IH]; intros ws H; [by rewrite app_nil_r|].
  rewrite cons_middle, (assoc_L (++)). apply IH. by apply partial_word.
Qed.

Lemma partial_app ws ws' n : partial ws 0 → partial ws' n → partial (ws ++ ws') n.
Proof.
  intros H. induction 1 as [|ws' w h c _ IH ? Hd Hc|ws' v n _ IH ?]; [by rewrite app_nil_r|..];
    rewrite (assoc_L (++)); [by eapply partial_header|by apply partial_word].
Qed.

(** ** Placeholders *)

(** The two words an address will be written to, blank where it goes. *)
Definition blank (ws : list Z) (f : SymbolicAddress) : Prop :=
  0 ≤ word_offset f ∧
  ∃ w1, ws !! Z.to_nat (word_offset f) = Some 0 ∧
        ws !! Z.to_nat (word_offset f + 1) = Some w1 ∧
        match encoding f with GpuVa64 => w1 = 0 | GpuVa49TexDescriptor => w1 .& 0x1ffff = 0 end.

Fixpoint ordered_from (k : Z) (fs : list SymbolicAddress) : Prop :=
  match fs with
  | [] => True
  | f :: fs => k ≤ word_offset f ∧ ordered_from (word_offset f + 2) fs
  end.

Record buffer_ok (ws : list Z) (fs : list SymbolicAddress) (n : nat) : Prop := {
  buf_partial : partial ws n;
  buf_blank : Forall (blank ws) fs;
  buf_ordered : ordered_from 0 fs;
}.

Lemma blank_app ws vs f : blank ws f → blank (ws ++ vs) f.
Proof.
  intros (H0 & w1 & Ha & Hb & Hc). split; [done|]. exists w1.
  split_and!; [by apply lookup_app_l_Some..|done].
Qed.

Lemma blank_end ws f : blank ws f → word_offset f + 2 ≤ len ws.
Proof. intros (H0 & w1 & _ & Hb%lookup_lt_Some & _). unfold len. lia. Qed.

Lemma ordered_snoc fs f k :
  ordered_from k fs → k ≤ word_offset f → Forall (λ g, word_offset g + 2 ≤ word_offset f) fs →
  ordered_from k (fs ++ [f]).
Proof.
  intros H Hk HF. revert k H Hk. induction HF as [|g fs Hg _ IH]; intros k; simpl; [auto|].
  intros [? ?] ?. split; [done|]. by apply IH.
Qed.

Lemma ordered_mono fs k k' : k' ≤ k → ordered_from k fs → ordered_from k' fs.
Proof. destruct fs; simpl; [done|]. intros ? [? ?]. split; [lia|done]. Qed.

Lemma ordered_app fs fs' k m :
  ordered_from k fs → Forall (λ g, word_offset g + 2 ≤ m) fs → k ≤ m → ordered_from m fs' →
  ordered_from k (fs ++ fs').
Proof.
  intros H HF Hk Hm. revert k H Hk. induction HF as [|g fs Hg _ IH]; intros k; simpl; intros H Hk.
  - by eapply ordered_mono.
  - destruct H as [? ?]. split; [done|]. by apply IH.
Qed.

Lemma buffer_words ws fs n vs :
  buffer_ok ws fs (length vs + n) → Forall u32 vs → buffer_ok (ws ++ vs) fs n.
Proof.
  intros [P B O] HV. split; [by apply partial_words| |done].
  eapply Forall_impl; [exact B|]. intros f. apply blank_app.
Qed.

Lemma buffer_fixup ws fs n f :
  buffer_ok ws fs n → blank ws f → Forall (λ g, word_offset g + 2 ≤ word_offset f) fs →
  buffer_ok ws (fs ++ [f]) n.
Proof.
  intros [P B O] HB HF. split; [done|apply Forall_app; auto|].
  apply ordered_snoc; [done|by destruct HB|done].
Qed.

(** ** Objects and the access table *)

Definition access_ok (a : Z) : Prop := a = READ ∨ a = WRITE ∨ a = access_union READ WRITE.

(** The scan of the access table keeps entries of one object and access apart. *)
Definition apart (a b : ResourceAccess) : Prop :=
  acc_object a = acc_object b → access a = access b →
  acc_offset a + acc_size a < acc_offset b ∨ acc_offset b + acc_size b < acc_offset a.

Definition covered (l : list ResourceAccess) (o : ObjectRef) (offset size acc : Z) : Prop :=
  ∃ a, a ∈ l ∧ acc_object a = o ∧ access a = acc ∧ acc_offset a ≤ offset ∧
       offset + size ≤ acc_offset a + acc_size a.

Section Objects.
Context (sizes : Z → option Z) (budget : Z).

Definition generated_size (gen : list GeneratedObject) (id : Z) : option Z :=
  if id <? 0 then None else (λ g, len (gen_bytes g)) <$> gen !! Z.to_nat id.

Definition object_size (gen : list GeneratedObject) (o : ObjectRef) : option Z :=
  match o with
  | External id => sizes id
  | Generated id => generated_size gen id
  | CanonicalShader v => Some (shader_size v)
  end.

(** [size] bytes at [offset] of [o] exist. *)
Definition within (gen : list GeneratedObject) (o : ObjectRef) (offset size : Z) : Prop :=
  ∃ n, object_size gen o = Some n ∧ 0 ≤ offset ∧ 0 < size ∧ offset + size ≤ n.

Definition authorised (gen : list GeneratedObject) (l : list ResourceAccess)
    (f : SymbolicAddress) : Prop :=
  within gen (object f) (object_offset f) (required_size f) ∧ access_ok (fix_access f) ∧
  match object f with
  | CanonicalShader v =>
      object_offset f = 0 ∧ required_size f = shader_size v ∧ fix_access f = READ ∧
      encoding f = GpuVa64
  | o => covered l o (object_offset f) (required_size f) (fix_access f)
  end.

Definition access_good (gen : list GeneratedObject) (a : ResourceAccess) : Prop :=
  within gen (acc_object a) (acc_offset a) (acc_size a) ∧ access_ok (access a) ∧
  match acc_object a with CanonicalShader _ => False | _ => True end.

Definition generated_good (i : nat) (g : GeneratedObject) : Prop :=
  gen_id g = Z.of_nat i ∧ u32 (gen_id g) ∧ alignment g = 64 ∧ 0 < len (gen_bytes g) ∧ Forall u8 (gen_bytes g) ∧
  access_ok (gen_access g).

(** [known]: sizes of generated objects that the caller relies on; [n]: words
    missing from the open packet; [active]: a draw batch is open. *)
Record inv (known : list (Z * Z)) (n : nat) (active : bool) (e : Emitter) : Prop := {
  inv_main : buffer_ok (words e) (fixups e) n;
  inv_texture : buffer_ok (texture_words e) (texture_fixups e) 0;
  inv_budget : len (words e) + len (texture_words e) ≤ max_words e;
  inv_max : max_words e = budget;
  inv_fixups : Forall (authorised (generated_objects e) (accesses e)) (fixups e ++ texture_fixups e);
  inv_accesses : Forall (access_good (generated_objects e)) (accesses e);
  inv_apart : ForallOrdPairs apart (accesses e);
  inv_generated : ∀ i g, generated_objects e !! i = Some g → generated_good i g;
  inv_states : Forall (λ s, generated_size (generated_objects e) s.2 = Some 80) (texture_states e);
  inv_ccu : ∀ id, ccu_sequence e = Some id → generated_size (generated_objects e) id = Some 4;
  inv_sequence : u32 (event_sequence e);
  inv_active : draw_batch_active e = active;
  inv_known : Forall (λ k, generated_size (generated_objects e) k.1 = Some k.2) known;
}.

(** ** Triples *)

(** Errors of the emitter are refusals; [InvalidPm4] would be a mistake of its own. *)
Definition refusal (x : CompileError) : Prop := x ≠ InvalidPm4.

Definition triple {A} (P : Emitter → Prop) (m : em A) (Q : A → Emitter → Prop) : Prop :=
  ∀ e, P e →
    match m e with Ok (a, e') => Q a e' | Err x => refusal x | Panic => False end.

Lemma triple_bind {A B} P (m : em A) (k : A → em B) Q R :
  triple P m Q → (∀ a, triple (Q a) (k a) R) → triple P (and_then m k) R.
Proof.
  intros H1 H2 e HP. unfold and_then. specialize (H1 e HP).
  destruct (m e) as [[a e']| |]; simpl; [by apply H2|done..].
Qed.

Lemma triple_seq {B} P (m : em ()) (k : em B) Q R :
  triple P m (λ _, Q) → triple Q k R → triple P (m;; k) R.
Proof. intros H1 H2. eapply triple_bind; [exact H1|]. by intros []. Qed.

Lemma triple_ret {A} (P : Emitter → Prop) (a : A) (Q : A → Emitter → Prop) :
  (∀ e, P e → Q a e) → triple P (ret a) Q.
Proof. intros H e HP. by apply H. Qed.

Lemma triple_post {A} P (m : em A) Q R :
  triple P m Q → (∀ a e, Q a e → R a e) → triple P m R.
Proof. intros H HI e HP. specialize (H e HP). destruct (m e) as [[a e']| |]; auto. Qed.

Lemma triple_pre {A} P P' (m : em A) Q : (∀ e, P e → P' e) → triple P' m Q → triple P m Q.
Proof. intros HI H e HP. apply H, HI, HP. Qed.

(** A computation outside the emitter that may refuse. *)
Definition yields {A} (m : outcome CompileError A) (Q : A → Prop) : Prop :=
  match m with Ok a => Q a | Err x => refusal x | Panic => False end.

Lemma triple_lift {A} P (m : outcome CompileError A) (Q : A → Prop) :
  yields m Q → triple P (lift m) (λ a e, P e ∧ Q a).
Proof. intros H e HP. unfold lift, yields in *. by destruct m. Qed.

Lemma triple_lift_then {A B} P (m : outcome CompileError A) (k : A → em B) (Q : A → Prop) R :
  yields m Q → (∀ a, Q a → triple P (k a) R) → triple P (and_then (lift m) k) R.
Proof.
  intros H HK. eapply triple_bind; [by apply triple_lift|]. intros a e [HP HQ]. by apply HK.
Qed.

Lemma triple_get_then {A B} P (f : Emitter → A) (k : A → em B) R :
  (∀ a, triple (λ e, P e ∧ f e = a) (k a) R) → triple P (and_then (get f) k) R.
Proof. intros H e HP. by apply (H (f e)). Qed.

Lemma triple_modify P f (Q : Emitter → Prop) : (∀ e, P e → Q (f e)) → triple P (modify f) (λ _, Q).
Proof. intros H e HP. by apply H. Qed.

Lemma yields_checked_add max a b Q :
  (a + b ≤ max → Q (a + b)) → yields (ok_or (checked_add max a b) Overflow) Q.
Proof. intros H. unfold checked_add. destruct (Z.leb_spec (a + b) max); simpl; [auto|done]. Qed.

Lemma yields_checked_mul max a b Q :
  (a * b ≤ max → Q (a * b)) → yields (ok_or (checked_mul max a b) Overflow) Q.
Proof. intros H. unfold checked_mul. destruct (Z.leb_spec (a * b) max); simpl; [auto|done]. Qed.

Lemma yields_checked_sub a b (Q : Z → Prop) :
  b ≤ a → Q (a - b) → yields (ok_or (checked_sub a b) Overflow) Q.
Proof. intros H HQ. unfold checked_sub. destruct (Z.leb_spec b a); simpl; [done|lia]. Qed.

Lemma yields_to_u32 x (Q : Z → Prop) : (x ≤ U32_MAX → Q x) → yields (to_u32 Overflow x) Q.
Proof.
  intros H. unfold to_u32. destruct (Z.leb_spec x U32_MAX); simpl; [auto|done].
Qed.

(** ** Words and packets *)

(** What an update of the words alone has to preserve. *)
Lemma inv_set_words known n n' active e ws :
  inv known n active e → buffer_ok ws (fixups e) n' →
  len ws + len (texture_words e) ≤ max_words e →
  inv known n' active (set_words ws e).
Proof. intros [] HB HL. by split. Qed.

Lemma inv_memory known n active e m : inv known n active e → inv known n active (set_memory m e).
Proof. intros []. by split. Qed.

Lemma try_reserve_ok known n active :
  triple (inv known n active) try_reserve (λ _, inv known n active).
Proof.
  intros e H. unfold try_reserve. destruct (memory e) as [[|m]|]; [done|..|done].
  by apply inv_memory.
Qed.

Lemma extend_words_ok known n active vs :
  Forall u32 vs →
  triple (inv known (length vs + n) active) (extend_words vs) (λ _, inv known n active).
Proof.
  intros HV. unfold extend_words. eapply triple_seq with
    (Q := λ e, inv known (length vs + n) active e ∧
               len (words e) + len (texture_words e) + len vs ≤ max_words e).
  - intros e H. unfold reserve_words.
    destruct (Z.leb_spec (len (words e) + len (texture_words e) + len vs) (max_words e));
      [|done].
    unfold try_reserve. destruct (memory e) as [[|m]|]; [done|..|done].
    split; [by apply inv_memory|done].
  - apply triple_modify. intros e [H HL]. apply (inv_set_words known (length vs + n)); [done| |].
    + apply buffer_words; [by destruct H|done].
    + unfold len in *. rewrite length_app. lia.
Qed.

Lemma push_word_ok known n active v :
  u32 v → triple (inv known (S n) active) (push_word v) (λ _, inv known n active).
Proof.
  intros HV. apply (extend_words_ok known n active [v]). by constructor.
Qed.

(** A header opens a packet. *)
Lemma push_header_ok known active w h c :
  u32 w → decode_header w = Ok h → header_count h = Z.of_nat c →
  triple (inv known 0 active) (push_word w) (λ _, inv known c active).
Proof.
  intros Hw Hd Hc. unfold push_word. eapply triple_seq with
    (Q := λ e, inv known 0 active e ∧ len (words e) + len (texture_words e) + 1 ≤ max_words e).
  - intros e H. unfold reserve_words.
    destruct (Z.leb_spec (len (words e) + len (texture_words e) + 1) (max_words e)); [|done].
    unfold try_reserve. destruct (memory e) as [[|m]|]; [done|..|done].
    split; [by apply inv_memory|done].
  - apply triple_modify. intros e [H HL]. apply (inv_set_words known 0); [done| |].
    + destruct (inv_main _ _ _ _ H) as [P B O]. split; [by eapply partial_header| |done].
      eapply Forall_impl; [exact B|]. intros f. apply blank_app.
    + unfold len in *. rewrite length_app. simpl. lia.
Qed.

Lemma type4_value_u32 r c : 0 < r ≤ 0x3ffff → 0 < c ≤ 0x7e → u32 (type4_value r c).
Proof.
  intros. unfold type4_value, u32.
  pose proof (odd_parity_bit_bound c). pose proof (odd_parity_bit_bound r). lia.
Qed.

Lemma type7_value_u32 o c : 0 ≤ o ≤ 0x7f → 0 ≤ c ≤ 0x3fff → u32 (type7_value o c).
Proof.
  intros. unfold type7_value, u32.
  pose proof (odd_parity_bit_bound c). pose proof (odd_parity_bit_bound o). lia.
Qed.

Lemma open4 {B} known active r c (k : em B) R :
  0 < r ≤ 0x3ffff → 0 < Z.of_nat c ≤ 0x7e →
  triple (inv known c active) k R →
  triple (inv known 0 active) (do! w := type4_word r (Z.of_nat c) in push_word w;; k) R.
Proof.
  intros Hr Hc HK. assert (HT : type4 r (Z.of_nat c) = Ok (type4_value r (Z.of_nat c))).
  { apply type4_Ok; [lia..|]. unfold TYPE4_MAX_REGISTER, TYPE4_MAX_COUNT. split_and!; lia. }
  unfold type4_word. rewrite HT. simpl.
  apply (triple_lift_then _ _ _ (λ a, a = type4_value r (Z.of_nat c))); [done|]. intros a ->.
  eapply triple_seq; [|exact HK].
  apply (push_header_ok _ _ _ (Type4 r (Z.of_nat c))); [by apply type4_value_u32| |done].
  apply decode_type4_iff; [by apply type4_value_u32|lia..|done].
Qed.

Lemma open7 {B} known active o c (k : em B) R :
  0 ≤ o ≤ 0x7f → 0 ≤ Z.of_nat c ≤ 0x3fff →
  triple (inv known c active) k R →
  triple (inv known 0 active) (do! w := type7_word o (Z.of_nat c) in push_word w;; k) R.
Proof.
  intros Hr Hc HK. assert (HT : type7 o (Z.of_nat c) = Ok (type7_value o (Z.of_nat c))).
  { apply type7_Ok; [lia..|]. unfold TYPE7_MAX_COUNT. split_and!; lia. }
  unfold type7_word. rewrite HT. simpl.
  apply (triple_lift_then _ _ _ (λ a, a = type7_value o (Z.of_nat c))); [done|]. intros a ->.
  eapply triple_seq; [|exact HK].
  apply (push_header_ok _ _ _ (Type7 o (Z.of_nat c))); [by apply type7_value_u32| |done].
  apply decode_type7_iff; [by apply type7_value_u32|lia..|]. eauto.
Qed.

Lemma packet4_ok known active r vs :
  0 < r ≤ 0x3ffff → 0 < len vs ≤ 0x7e → Forall u32 vs →
  triple (inv known 0 active) (packet4 r vs) (λ _, inv known 0 active).
Proof.
  intros Hr Hc HV. unfold packet4.
  apply (triple_lift_then _ _ _ (λ a, a = len vs)).
  { unfold to_u16, yields. destruct (Z.leb_spec (len vs) 0xffff); [done|lia]. }
  intros ? ->. apply (open4 _ _ r (length vs)); [done|unfold len in Hc; lia|].
  pose proof (extend_words_ok known 0 active vs HV) as HE. by rewrite Nat.add_0_r in HE.
Qed.

Lemma packet7_ok known active o vs :
  0 ≤ o ≤ 0x7f → len vs ≤ 0x3fff → Forall u32 vs →
  triple (inv known 0 active) (packet7 o vs) (λ _, inv known 0 active).
Proof.
  intros Hr Hc HV. unfold packet7.
  apply (triple_lift_then _ _ _ (λ a, a = len vs)).
  { unfold to_u16, yields. destruct (Z.leb_spec (len vs) 0xffff); [done|lia]. }
  intros ? ->. apply (open7 _ _ o (length vs)); [done|unfold len in Hc; lia|].
  pose proof (extend_words_ok known 0 active vs HV) as HE. by rewrite Nat.add_0_r in HE.
Qed.

(** ** The access table *)

(** [a] does not touch the interval [m, n) under the key [o], [acc]. *)
Definition clear_of (o : ObjectRef) (acc m n : Z) (a : ResourceAccess) : Prop :=
  acc_object a = o → access a = acc → acc_offset a + acc_size a < m ∨ n < acc_offset a.

Lemma absorb_clear o acc x l : ∀ m n l' m' n',
  absorb o acc l m n = Ok (l', m', n') →
  0 ≤ acc_size x → m ≤ n → Forall (λ a, 0 ≤ acc_size a) l →
  clear_of o acc m n x → Forall (apart x) l → clear_of o acc m' n' x.
Proof.
  induction l as [|a l IH]; intros m n l' m' n' H Hx Hm HS HC HA; simpl in H.
  { by injection H as <- <- <-. }
  apply Forall_cons in HS as [Ha HS]. apply Forall_cons in HA as [Hxa HA].
  apply bind_Ok in H as (e & He%ok_or_Ok & H). unfold checked_add in He.
  destruct (Z.leb_spec (acc_offset a + acc_size a) U64_MAX); [|done]. injection He as <-.
  destruct (bool_decide _ && _ && _ && _) eqn:G.
  - bool_to_prop. eapply (IH _ _ _ _ _ H); [done|lia|done| |done].
    intros Ho Hacc. specialize (HC Ho Hacc).
    specialize (Hxa ltac:(congruence) ltac:(congruence)). lia.
  - apply bind_Ok in H as ([[l0 m0] n0] & H & [= <- <- <-]). by eapply IH.
Qed.

Record absorbed o acc l (m n : Z) l' (m' n' : Z) : Prop := {
  ab_sub : l' `sublist_of` l;
  ab_wide : m' ≤ m ∧ n ≤ n';
  ab_covers : ∀ a, a ∈ l → a ∈ l' ∨
    acc_object a = o ∧ access a = acc ∧ m' ≤ acc_offset a ∧ acc_offset a + acc_size a ≤ n';
  ab_apart : Forall (clear_of o acc m' n') l';
  ab_tight : ∀ lo hi, lo ≤ m → n ≤ hi →
    (∀ a, a ∈ l → acc_object a = o → lo ≤ acc_offset a ∧ acc_offset a + acc_size a ≤ hi) →
    lo ≤ m' ∧ n' ≤ hi;
}.

Lemma absorb_ok o acc l : ∀ m n,
  m ≤ n → Forall (λ a, 0 ≤ acc_size a) l → ForallOrdPairs apart l →
  yields (absorb o acc l m n) (λ '(l', m', n'), absorbed o acc l m n l' m' n').
Proof.
  induction l as [|a l IH]; intros m n Hm HS HP; simpl.
  { split; [done|lia|set_solver|done|lia]. }
  apply Forall_cons in HS as [Ha HS]. inversion HP as [|? ? HA HP']; subst.
  unfold checked_add. destruct (Z.leb_spec (acc_offset a + acc_size a) U64_MAX); [|done].
  simpl. destruct (bool_decide _ && _ && _ && _) eqn:G.
  - bool_to_prop. specialize (IH (Z.min m (acc_offset a)) (Z.max n (acc_offset a + acc_size a))).
    specialize (IH ltac:(lia) HS HP').
    destruct (absorb _ _ l _ _) as [[[l' m'] n']| |]; [|done..].
    destruct IH as [IS IW IC IA IT]. split; [by constructor|lia| |done|].
    { intros b [->|Hb]%elem_of_cons; [right; split_and!; [congruence|congruence|lia|lia]|by apply IC]. }
    intros lo hi ?? HB. pose proof (HB a ltac:(set_solver) ltac:(congruence)).
    apply IT; [lia..|]. intros b Hb. apply HB. set_solver.
  - assert (HC : clear_of o acc m n a).
    { intros Ho Hacc. rewrite bool_decide_true in G by done. apply Z.eqb_eq in Hacc.
      rewrite Hacc in G. simpl in G. apply andb_false_iff in G. bool_to_prop. lia. }
    specialize (IH m n Hm HS HP'). pose proof (absorb_clear o acc a l m n) as HX.
    destruct (absorb o acc l m n) as [[[l' m'] n']| |]; [|done..]. simpl.
    specialize (HX _ _ _ eq_refl Ha Hm HS HC HA). destruct IH as [IS IW IC IA IT].
    split; [by constructor|done| |by constructor|].
    + intros b [->|Hb]%elem_of_cons; [left; by left|].
      destruct (IC b Hb); [left; by right|by right].
    + intros lo hi ?? HB. apply IT; [done..|]. intros b Hb. apply HB. set_solver.
Qed.

Lemma covered_absorbed o acc l m n l' m' n' o0 offset size acc0 :
  absorbed o acc l m n l' m' n' → covered l o0 offset size acc0 →
  covered (l' ++ [mk_access o m' (n' - m') acc]) o0 offset size acc0.
Proof.
  intros [_ _ HC _ _] (a & Ha & <- & <- & ? & ?). destruct (HC a Ha) as [?|(Ho & Hacc & ? & ?)].
  - exists a. split_and!; try done. apply elem_of_app. by left.
  - exists (mk_access o m' (n' - m') acc). simpl. split_and!; [set_solver|done..|lia|lia].
Qed.

Lemma apart_snoc l a : ForallOrdPairs apart l → Forall (λ b, apart b a) l → ForallOrdPairs apart (l ++ [a]).
Proof.
  induction 1 as [|b l HB HP IH]; simpl; intros H; [by repeat constructor|].
  apply Forall_cons in H as [? ?]. constructor; [|by apply IH].
  apply Forall_app. split; [done|by constructor].
Qed.

Lemma Forall_sublist {A} (P : A → Prop) l l' : l' `sublist_of` l → Forall P l → Forall P l'.
Proof.
  induction 1 as [|x l l' HS IH|x l l' HS IH]; [done| |]; intros [? ?]%Forall_cons; [|auto].
  constructor; auto.
Qed.

Lemma apart_sublist l l' : l' `sublist_of` l → ForallOrdPairs apart l → ForallOrdPairs apart l'.
Proof.
  induction 1 as [|x l l' HS IH|x l l' HS IH]; intros H; [done| |]; inversion H; subst; [|by apply IH].
  constructor; [|by apply IH]. by eapply Forall_sublist.
Qed.

(** What a method may address: an external object, a generated object whose size
    it knows, or a whole canonical program. *)
Definition target (known : list (Z * Z)) (o : ObjectRef) (offset size acc : Z) : Prop :=
  0 < size ∧ access_ok acc ∧
  match o with
  | External id => ∃ n, sizes id = Some n ∧ 0 ≤ offset ∧ offset + size ≤ n
  | Generated id => ∃ n, (id, n) ∈ known ∧ 0 ≤ offset ∧ offset + size ≤ n
  | CanonicalShader v => offset = 0 ∧ size = shader_size v ∧ acc = READ
  end.

Lemma target_within known n active e o offset size acc :
  inv known n active e → target known o offset size acc →
  within (generated_objects e) o offset size.
Proof.
  intros H (Hs & _ & HT). destruct o as [id|id|v]; simpl in *.
  - destruct HT as (k & Hk & ? & ?). by exists k.
  - destruct HT as (k & Hk & ? & ?). exists k.
    apply (proj1 (Forall_forall _ _) (inv_known _ _ _ _ H)) in Hk. done.
  - destruct HT as (-> & -> & _). exists (shader_size v). split_and!; [done|lia|done|lia].
Qed.

Definition is_shader (o : ObjectRef) : bool :=
  match o with CanonicalShader _ => true | _ => false end.

Lemma authorised_accesses gen l l' f :
  (∀ o offset size acc, covered l o offset size acc → covered l' o offset size acc) →
  authorised gen l f → authorised gen l' f.
Proof.
  intros HL (HW & HA & H). split_and!; [done..|]. destruct (object f); auto.
Qed.

(** A new access table that still covers everything. *)
Lemma inv_set_accesses known n active e l :
  inv known n active e →
  (∀ o offset size acc,
     covered (accesses e) o offset size acc → covered l o offset size acc) →
  Forall (access_good (generated_objects e)) l → ForallOrdPairs apart l →
  inv known n active (set_accesses l e).
Proof.
  intros [] HC HG HA. split; try done. simpl. eapply Forall_impl; [eassumption|].
  intros f. by apply authorised_accesses.
Qed.

Lemma record_access_ok known n active o offset size acc :
  target known o offset size acc →
  triple (inv known n active) (record_access o offset size acc)
    (λ _ e, inv known n active e ∧
            (is_shader o = false → covered (accesses e) o offset size acc)).
Proof.
  intros HT. destruct (is_shader o) eqn:ES.
  { by destruct o. }
  assert (record_access o offset size acc =
    (do! merged_end := lift (ok_or (checked_add U64_MAX offset size) Overflow) in
     do! current := get accesses in
     do! (kept, m, n) := lift (absorb o acc current offset merged_end) in
     try_reserve;;
     do! merged_size := lift (ok_or (checked_sub n m) Overflow) in
     modify (set_accesses (kept ++ [mk_access o m merged_size acc])))) as -> by by destruct o.
  apply (triple_lift_then _ _ _ (λ a, a = offset + size)); [by apply yields_checked_add|]. intros ? ->.
  apply triple_get_then. intros l e [H <-].
  pose proof (target_within _ _ _ _ _ _ _ _ H HT) as (sz & Hsz & H0 & Hp & Hle).
  pose proof (inv_accesses _ _ _ _ H) as HG.
  assert (HS : Forall (λ a, 0 ≤ acc_size a) (accesses e)).
  { eapply Forall_impl; [exact HG|]. intros a ((? & _ & _ & ? & _) & _). lia. }
  pose proof (absorb_ok o acc (accesses e) offset (offset + size) ltac:(lia) HS (inv_apart _ _ _ _ H)) as HA.
  unfold and_then, lift. destruct (absorb _ _ _ _ _) as [[[kept m] k]| |]; simpl; [|exact HA|done].
  simpl in HA. pose proof HA as [IS IW IC IA IT].
  destruct (IT 0 sz) as [Hm Hk]; [lia..| |].
  { intros a Ha Ho. apply (proj1 (Forall_forall _ _) HG) in Ha as ((s & Hs & ? & ? & ?) & _).
    rewrite Ho in Hs. simplify_eq. lia. }
  enough (HF : ∀ e', inv known n active e' → accesses e' = accesses e →
    generated_objects e' = generated_objects e →
    inv known n active (set_accesses (kept ++ [mk_access o m (k - m) acc]) e') ∧
    (false = false → covered (kept ++ [mk_access o m (k - m) acc]) o offset size acc)).
  { unfold try_reserve, checked_sub. destruct (Z.leb_spec m k); [|lia].
    destruct (memory e) as [[|mem]|]; simpl; [done| |by apply HF].
    apply HF; [by apply inv_memory|done..]. }
  intros e' H' EA EG. split.
  - apply inv_set_accesses; [done| | |].
    + rewrite EA. intros *. by eapply covered_absorbed.
    + rewrite EG. apply Forall_app. split; [by eapply Forall_sublist|]. constructor; [|done].
      split_and!; [exists sz; simpl; split_and!; [done|lia..]|by destruct HT as (_ & ? & _)|by destruct o].
    + apply apart_snoc; [by eapply apart_sublist, inv_apart|]. eapply Forall_impl; [exact IA|].
      intros a Ha Ho Hacc. simpl. specialize (Ha Ho Hacc). lia.
  - intros _. exists (mk_access o m (k - m) acc). simpl. split_and!; [set_solver|done..|lia|lia].
Qed.

Lemma record_access_frame o offset size acc fs e :
  record_access o offset size acc (set_fixups fs e) =
  (let? (_, e') := record_access o offset size acc e in Ok ((), set_fixups fs e')).
Proof.
  destruct o; [| |done]; unfold record_access, and_then, lift, get, modify, try_reserve; simpl;
    (destruct (ok_or (checked_add _ _ _) _); simpl; [|done..]);
    (destruct (absorb _ _ _ _ _) as [[[? ?] ?]| |]; simpl; [|done..]);
    destruct (memory e) as [[|?]|]; simpl; try done; by destruct (ok_or (checked_sub _ _) _).
Qed.

Lemma record_access_run o offset size acc e e' :
  record_access o offset size acc e = Ok ((), e') → words e' = words e ∧ fixups e' = fixups e.
Proof.
  destruct o; [| |by intros [= <-]]; unfold record_access, and_then, lift, get, modify, try_reserve;
    simpl; (destruct (ok_or (checked_add _ _ _) _); simpl; [|done..]);
    (destruct (absorb _ _ _ _ _) as [[[? ?] ?]| |]; simpl; [|done..]);
    destruct (memory e) as [[|?]|]; simpl; try done;
    destruct (ok_or (checked_sub _ _) _); simpl; try done; by intros [= <-].
Qed.

(** ** Addresses *)

Lemma target_authorised known n active e f :
  inv known n active e →
  target known (object f) (object_offset f) (required_size f) (fix_access f) →
  encoding f = GpuVa64 ∨ is_shader (object f) = false →
  (is_shader (object f) = false →
   covered (accesses e) (object f) (object_offset f) (required_size f) (fix_access f)) →
  authorised (generated_objects e) (accesses e) f.
Proof.
  intros H HT HE HC. split_and!; [by eapply target_within|by destruct HT as (_ & ? & _)|].
  destruct HT as (_ & _ & HT). destruct (object f); [by apply HC..|].
  destruct HT as (? & ? & ?). destruct HE; [done|done].
Qed.

Lemma inv_push_fixup known n active e f :
  inv known n active e → blank (words e) f →
  Forall (λ g, word_offset g + 2 ≤ word_offset f) (fixups e) →
  authorised (generated_objects e) (accesses e) f →
  inv known n active (set_fixups (fixups e ++ [f]) e).
Proof.
  intros [] HB HF HA. split; try done; simpl.
  - by apply buffer_fixup.
  - apply Forall_app in inv_fixups0 as [? ?]. by rewrite !Forall_app, Forall_singleton.
Qed.

(** The placeholder words, the fixup and the access entry of one address. *)
Lemma place_fixup known n active f :
  target known (object f) (object_offset f) (required_size f) (fix_access f) →
  encoding f = GpuVa64 ∨ is_shader (object f) = false →
  triple (λ e, inv known n active e ∧ blank (words e) f ∧
               Forall (λ g, word_offset g + 2 ≤ word_offset f) (fixups e))
    (push_fixup f;; record_access (object f) (object_offset f) (required_size f) (fix_access f))
    (λ _, inv known n active).
Proof.
  intros HT HE e (H & HB & HF). unfold push_fixup.
  assert (HX : ∀ e1, inv known n active e1 → words e1 = words e → fixups e1 = fixups e →
    match record_access (object f) (object_offset f) (required_size f) (fix_access f)
            (set_fixups (fixups e1 ++ [f]) e1) with
    | Ok (_, e') => inv known n active e' | Err x => refusal x | Panic => False end).
  { intros e1 H1 EW EF. rewrite record_access_frame.
    pose proof (record_access_ok known n active _ _ _ _ HT e1 H1) as HR.
    pose proof (record_access_run (object f) (object_offset f) (required_size f) (fix_access f) e1) as HE1.
    destruct (record_access _ _ _ _ e1) as [[[] e']| |]; simpl; [|done..].
    destruct (HE1 e' eq_refl) as [HW HF']. destruct HR as [HI HC]. rewrite <-HF'.
    apply inv_push_fixup; [done|congruence|congruence|]. by eapply target_authorised. }
  unfold and_then, try_reserve, modify. destruct (memory e) as [[|m]|]; simpl; [done| |].
  - apply (HX (set_memory (Some m) e)); [by apply inv_memory|done..].
  - by apply HX.
Qed.

Lemma buffer_ends ws fs n : buffer_ok ws fs n → Forall (λ g, word_offset g + 2 ≤ len ws) fs.
Proof. intros [_ B _]. eapply Forall_impl; [exact B|]. intros f. apply blank_end. Qed.

Lemma extend_words_run vs known n active :
  Forall u32 vs →
  ∀ ws fs, triple (λ e, inv known (length vs + n) active e ∧ words e = ws ∧ fixups e = fs)
    (extend_words vs)
    (λ _ e, inv known n active e ∧ words e = ws ++ vs ∧ fixups e = fs).
Proof.
  intros HV ws fs e (H & <- & <-). pose proof (extend_words_ok known n active vs HV e H) as HX.
  revert HX. unfold extend_words, and_then, reserve_words, try_reserve, modify.
  destruct (_ <=? _); [|done]. by destruct (memory e) as [[|m]|].
Qed.

Lemma placeholder_ok known n active o offset size acc enc w1 :
  target known o offset size acc → u32 w1 → enc = GpuVa64 ∨ is_shader o = false →
  match enc with GpuVa64 => w1 = 0 | GpuVa49TexDescriptor => w1 .& 0x1ffff = 0 end →
  triple (inv known (S (S n)) active)
    (do! ws := get words in
     do! word_offset := lift (to_u32 Overflow (len ws)) in
     extend_words [0; w1];;
     push_fixup (mk_fixup word_offset o offset size acc enc);;
     record_access o offset size acc) (λ _, inv known n active).
Proof.
  intros HT HU HE Hw. apply triple_get_then. intros ws.
  eapply triple_lift_then; [apply (yields_to_u32 _ (λ a, a = len ws)); auto|]. intros a ->.
  intros e [H EW]. pose proof (buffer_ends _ _ _ (inv_main _ _ _ _ H)) as HL. rewrite EW in HL.
  enough (HX : ∀ fs, Forall (λ g, word_offset g + 2 ≤ len ws) fs → triple
    (λ e, inv known (length [0; w1] + n) active e ∧ words e = ws ∧ fixups e = fs)
    (extend_words [0; w1];; push_fixup (mk_fixup (len ws) o offset size acc enc);;
     record_access o offset size acc) (λ _, inv known n active)) by by apply (HX (fixups e)).
  clear dependent e. intros fs HL.
  eapply triple_seq; [apply extend_words_run; by repeat apply Forall_cons_2; [..|apply Forall_nil_2]|].
  eapply triple_pre; [|by apply (place_fixup known n active (mk_fixup (len ws) o offset size acc enc))].
  intros e (H & -> & ->). simpl. split_and!; [done| |done].
  unfold blank, len. simpl. split; [lia|]. exists w1. split_and!; [| |done].
  - rewrite lookup_app_r by lia. by replace (_ - _)%nat with 0%nat by lia.
  - rewrite lookup_app_r by lia. by replace (_ - _)%nat with 1%nat by lia.
Qed.

Lemma address_words_ok known n active o offset size acc :
  target known o offset size acc →
  triple (inv known (S (S n)) active) (address_words o offset size acc) (λ _, inv known n active).
Proof. intros HT. by apply placeholder_ok; [..|left|]. Qed.

Lemma address_register_ok known active r o offset size acc :
  0 < r ≤ 0x3ffff → target known o offset size acc →
  triple (inv known 0 active) (address_register r o offset size acc) (λ _, inv known 0 active).
Proof.
  intros Hr HT. unfold address_register. apply (open4 _ _ r 2%nat); [done|lia|].
  by apply address_words_ok.
Qed.

(** ** Generated objects *)

Lemma generated_size_app gen g id n :
  generated_size gen id = Some n → generated_size (gen ++ [g]) id = Some n.
Proof.
  unfold generated_size. destruct (id <? 0); [done|]. intros H.
  destruct (gen !! Z.to_nat id) eqn:E; [|done]. by rewrite (lookup_app_l_Some _ _ _ _ E).
Qed.

Lemma within_app gen g o offset size : within gen o offset size → within (gen ++ [g]) o offset size.
Proof.
  intros (n & Hn & H). exists n. split; [|done]. destruct o; [done|by apply generated_size_app|done].
Qed.

Lemma inv_push_generated known n active e bytes acc kind :
  inv known n active e → u32 (len (generated_objects e)) →
  0 < len bytes → Forall u8 bytes → access_ok acc →
  inv ((len (generated_objects e), len bytes) :: known) n active
    (set_generated (generated_objects e ++
       [mk_generated (len (generated_objects e)) 64 bytes acc kind]) e).
Proof.
  intros [] HU HL HB HA. split; try done; simpl.
  - eapply Forall_impl; [eassumption|]. intros f (? & ? & ?). split_and!; [by apply within_app|done..].
  - eapply Forall_impl; [eassumption|]. intros f (? & ? & ?). split_and!; [by apply within_app|done..].
  - intros i g. destruct (decide (i < length (generated_objects e))%nat).
    + rewrite lookup_app_l by done. apply inv_generated0.
    + rewrite lookup_app_r by lia. intros Hg. pose proof (lookup_lt_Some _ _ _ Hg) as Hi. simpl in Hi.
      replace (i - _)%nat with 0%nat in Hg by lia. injection Hg as <-.
      split_and!; [simpl; unfold len; lia|done..].
  - eapply Forall_impl; [eassumption|]. intros s. apply generated_size_app.
  - intros id Hid. by apply generated_size_app, inv_ccu0.
  - constructor.
    + simpl. unfold generated_size, len. destruct (Z.ltb_spec (Z.of_nat (length (generated_objects e))) 0); [lia|].
      rewrite Nat2Z.id, lookup_app_r, Nat.sub_diag by lia. done.
    + eapply Forall_impl; [eassumption|]. intros k. apply generated_size_app.
Qed.

Lemma next_generated_run {B} P (k : Z → em B) R :
  (∀ id, triple (λ e, P e ∧ len (generated_objects e) = id ∧ u32 id) (k id) R) →
  triple P (and_then next_generated k) R.
Proof.
  intros HK e HP. unfold next_generated, and_then, get, lift, to_u32. simpl.
  destruct (Z.leb_spec (len (generated_objects e)) U32_MAX); simpl; [|done]. apply HK.
  split_and!; [done..|]. pose proof (len_nonneg (generated_objects e)). unfold u32, U32_MAX in *. lia.
Qed.

Lemma push_generated_ok known n active id bytes acc kind :
  0 < len bytes → Forall u8 bytes → access_ok acc →
  triple (λ e, inv known n active e ∧ len (generated_objects e) = id ∧ u32 id)
    (push_generated (mk_generated id 64 bytes acc kind))
    (λ _, inv ((id, len bytes) :: known) n active).
Proof.
  intros HL HB HA e (H & <- & HU). unfold push_generated, and_then, try_reserve, modify.
  destruct (memory e) as [[|m]|] eqn:EM; [done| |]; simpl.
  - by apply (inv_push_generated known n active (set_memory (Some m) e)); [apply inv_memory|..].
  - by apply inv_push_generated.
Qed.

Lemma add_generated_ok known n active bytes acc kind :
  0 < len bytes → Forall u8 bytes → access_ok acc →
  triple (inv known n active) (add_generated bytes 64 acc kind)
    (λ id, inv ((id, len bytes) :: known) n active).
Proof.
  intros HL HB HA. unfold add_generated. apply next_generated_run. intros id.
  eapply triple_seq with (Q := λ e, inv known n active e ∧ len (generated_objects e) = id ∧ u32 id).
  { intros e (H & <- & HU). unfold try_reserve. destruct (memory e) as [[|m]|]; [done| |done].
    split; [by apply inv_memory|done]. }
  eapply triple_seq; [by apply push_generated_ok|]. by apply triple_ret.
Qed.

Lemma inv_weaken known known' n active e :
  (∀ k, k ∈ known' → k ∈ known) → inv known n active e → inv known' n active e.
Proof.
  intros HK []. split; try done. rewrite Forall_forall in *. auto.
Qed.

Lemma triple_forget {A} P known known' n active (m : em A) :
  (∀ k, k ∈ known' → k ∈ known) →
  triple P m (λ _, inv known n active) → triple P m (λ _, inv known' n active).
Proof. intros HK H. eapply triple_post; [exact H|]. intros a e. by apply inv_weaken. Qed.
End Objects.
End EmitFacts.
