(* ===== verification/CodegenUploadFacts.v ===== *)
(** * Uploads, cache events and the finished stream

    The emitter's invariant through uploads, cache events and [finish]; the
    tactics that walk through a method ([em_step], [em_auto]) are shared with
    [CodegenDrawFacts.v]. *)
From S2P Require Import Prelude F32 Pm4 ImageLayout ShaderPack CodegenModel CodegenEmit CodegenFacts.

Module UploadFacts.
Import Ir Codegen Emit EmitFacts.

(** ** Words that fit *)

Lemma u32_log2 x : 0 ≤ x → Z.log2 x < 32 ↔ u32 x.
Proof.
  unfold u32, U32_MAX. intros H. destruct (decide (x = 0)) as [->|]; [by vm_compute|].
  rewrite <-Z.log2_lt_pow2 by lia. lia.
Qed.

Lemma u32_lor a b : u32 a → u32 b → u32 (a .| b).
Proof.
  intros Ha Hb. pose proof (proj1 Ha). pose proof (proj1 Hb).
  apply u32_log2; [apply Z.lor_nonneg; lia|]. rewrite Z.log2_lor by lia.
  apply u32_log2 in Ha, Hb; lia.
Qed.

Lemma u32_land_l a b : u32 a → 0 ≤ b → u32 (a .& b).
Proof.
  intros Ha Hb. pose proof (proj1 Ha). apply u32_log2; [apply Z.land_nonneg; lia|].
  pose proof (Z.log2_land a b). apply u32_log2 in Ha; lia.
Qed.

Lemma u32_as_u32 x : u32 (as_u32 x).
Proof. unfold u32, as_u32. zlia. Qed.

Lemma u32_shiftr a n : 0 ≤ n → u32 a → u32 (a >> n).
Proof. unfold u32. intros ? ?. pose proof (shiftr_bounds a n). lia. Qed.

Lemma u32_min a b : u32 a → 0 ≤ b → u32 (Z.min a b).
Proof. unfold u32. lia. Qed.

Lemma u32_pack_xy x y : u32 x → u32 (pack_xy x y).
Proof. intros. apply u32_lor; [done|apply u32_as_u32]. Qed.

(** Fails when [x] mentions a variable. *)
Ltac closed_term x := match x with context [?v] => is_var v; fail 1 | _ => idtac end.

Create HintDb words.
#[export] Hint Resolve u32_lor u32_as_u32 u32_pack_xy : words.
#[export] Hint Extern 4 (u32 ?x) => (closed_term x; vm_compute; split; (reflexivity || discriminate)) : words.
#[export] Hint Extern 3 (_ ≤ _) => lia : words.

Ltac solve_words :=
  repeat first [apply Forall_nil_2 | apply Forall_cons_2 | apply Forall_app_2 | apply Forall_replicate];
  solve [eauto 8 with words].

(** Register numbers, opcodes and packet lengths, which are constants. *)
Ltac constant := first [by (vm_compute; split; (reflexivity || discriminate)) | by vm_compute | lia].

(** One statement of a method; [hint] proves what it cannot. *)
Create HintDb emit.
#[export] Hint Extern 1 (triple _ (packet4 _ _) _) =>
  (eapply packet4_ok; [constant|constant|solve_words]) : emit.
#[export] Hint Extern 1 (triple _ (packet7 _ _) _) =>
  (eapply packet7_ok; [constant|constant|solve_words]) : emit.
#[export] Hint Extern 1 (triple _ (push_word _) _) =>
  (eapply push_word_ok; solve_words) : emit.
#[export] Hint Extern 1 (triple _ (address_words _ _ _ _) _) =>
  (eapply address_words_ok; solve [eauto]) : emit.
#[export] Hint Extern 1 (triple _ (address_register _ _ _ _ _) _) =>
  (eapply address_register_ok; [constant|solve [eauto]]) : emit.
#[export] Hint Extern 1 (triple _ try_reserve _) => (eapply try_reserve_ok) : emit.
#[export] Hint Extern 1 (triple _ (ret _) _) => (eapply triple_ret; intros ? HP; exact HP) : emit.

Ltac em_step :=
  first [ eapply triple_seq; [solve [eauto 2 with emit]|]
        | solve [eauto 2 with emit] ].
Ltac em_auto := repeat em_step.

Section Uploads.
Context (sizes : Z → option Z) (budget : Z).

#[local] Abbreviation inv := (inv sizes budget).
#[local] Abbreviation target := (target sizes).

Lemma wait_for_idle_ok known active :
  triple (inv known 0 active) wait_for_idle (λ _, inv known 0 active).
Proof. unfold wait_for_idle. em_auto. Qed.

(** ** Uploads *)

Lemma target_generated known id n offset size acc :
  (id, n) ∈ known → 0 ≤ offset → 0 < size → offset + size ≤ n → access_ok acc →
  target known (Generated id) offset size acc.
Proof. intros. split_and!; [done..|]. by exists n. Qed.

Lemma target_external known id n offset size acc :
  sizes id = Some n → 0 ≤ offset → 0 < size → offset + size ≤ n → access_ok acc →
  target known (External id) offset size acc.
Proof. intros. split_and!; [done..|]. by exists n. Qed.

Lemma access_ok_READ : access_ok READ. Proof. by left. Qed.
Lemma access_ok_WRITE : access_ok WRITE. Proof. by right; left. Qed.
Lemma access_ok_RW : access_ok (access_union READ WRITE). Proof. by right; right. Qed.

Lemma copy_chunks_ok known active fuel id src dst off total : ∀ copied n m,
  (id, n) ∈ known → sizes dst = Some m → 0 ≤ src → 0 ≤ off → 0 ≤ copied → u32 total →
  src + total * 4 ≤ n → off + total * 4 ≤ m →
  triple (inv known 0 active) (copy_chunks fuel id src dst off total copied)
    (λ _, inv known 0 active).
Proof.
  induction fuel as [|fuel IH]; intros copied n m HK HS Hs Ho Hc Ht Hn Hm; simpl; [em_auto|].
  destruct (Z.ltb_spec copied total) as [Hlt|]; [|em_auto].
  pose proof (proj2 Ht) as HT. unfold CP_MEMCPY_MAX_DWORDS.
  eapply triple_lift_then; [apply (yields_checked_mul _ _ _ (λ a, a = copied * 4)); auto|intros ? ->].
  eapply triple_lift_then; [apply (yields_checked_mul _ _ _ (λ a, a = Z.min (total - copied) 128 * 4)); auto|intros ? ->].
  eapply triple_lift_then; [apply (yields_checked_add _ _ _ (λ a, a = off + copied * 4)); auto|intros ? ->].
  apply (open7 _ _ _ _ CP_MEMCPY 5%nat); [constant..|].
  eapply triple_seq; [apply push_word_ok; unfold u32 in *; lia|].
  eapply triple_lift_then; [apply (yields_checked_add _ _ _ (λ a, a = src + copied * 4)); auto|intros ? ->].
  eapply triple_seq; [apply address_words_ok, (target_generated _ _ n); [done|lia..|apply access_ok_READ]|].
  eapply triple_seq; [apply address_words_ok, (target_external _ _ m); [done|lia..|apply access_ok_WRITE]|].
  em_step.
  eapply triple_lift_then; [apply (yields_checked_add _ _ _ (λ a, a = copied + Z.min (total - copied) 128)); auto|intros ? ->].
  eapply IH; eauto; lia.
Qed.

Lemma triple_fail {A} P x (Q : A → Emitter → Prop) : x ≠ InvalidPm4 → triple P (fail x) Q.
Proof. by intros H e _. Qed.

Lemma copy_upload_ok known active id src size dst off required n m :
  (id, n) ∈ known → sizes dst = Some m → 0 ≤ src → 0 ≤ off → 0 ≤ size → size mod 4 = 0 →
  src + size ≤ n → off + required ≤ m →
  triple (inv known 0 active) (copy_upload id src size dst off required) (λ _, inv known 0 active).
Proof.
  intros HK HS Hs Ho Hz H4 Hn Hm. unfold copy_upload.
  destruct (Z.ltb_spec required size); [by apply triple_fail|].
  eapply triple_lift_then; [apply (yields_to_u32 _ (λ a, a = size / 4 ∧ size / 4 ≤ U32_MAX)); auto|].
  intros ? [-> ?]. eapply copy_chunks_ok; eauto; unfold u32, U32_MAX in *; zlia.
Qed.

Lemma upload_buffer_ok known active dst off required bytes m :
  sizes dst = Some m → 0 ≤ off → off + required ≤ m → Forall u8 bytes →
  triple (inv known 0 active) (upload_buffer dst off required bytes) (λ _, inv known 0 active).
Proof.
  intros HS Ho Hm HB. unfold upload_buffer. destruct (_ || _) eqn:E; [by apply triple_fail|].
  apply orb_false_iff in E as [E _]. apply orb_false_iff in E as [E1 E2].
  apply Z.eqb_neq in E1. apply negb_false_iff, Z.eqb_eq in E2.
  change 3 with (Z.ones 2) in E2. rewrite Z.land_ones in E2 by done.
  pose proof (len_nonneg bytes).
  eapply triple_bind; [by apply add_generated_ok; [lia|done|apply access_ok_READ]|]. intros id. simpl.
  eapply triple_forget with (known := (id, len bytes) :: known); [set_solver|].
  eapply copy_upload_ok; eauto with lia; set_solver.
Qed.

Lemma for_each_ok {A} (P : Emitter → Prop) (f : A → em ()) l :
  (∀ a, a ∈ l → triple P (f a) (λ _, P)) → triple P (for_each f l) (λ _, P).
Proof.
  induction l as [|a l IH]; intros H; simpl; [em_auto|].
  eapply triple_seq; [apply H; set_solver|]. apply IH. set_solver.
Qed.

Lemma upload_rows_ok known active dst off stride row bytes m :
  sizes dst = Some m → 0 ≤ off → 0 ≤ stride → 0 < row →
  (∀ i, 0 ≤ i < len bytes / row → off + i * stride + row ≤ m) →
  Forall u8 bytes → 0 < len bytes →
  triple (inv known 0 active) (upload_rows dst off stride row bytes) (λ _, inv known 0 active).
Proof.
  intros HS Ho Hst Hr Hm HB HL. unfold upload_rows. destruct (_ || _) eqn:E; [by apply triple_fail|].
  bool_to_prop. apply next_generated_run. intros id.
  eapply triple_seq; [by apply push_generated_ok; [|done|apply access_ok_READ]|].
  eapply triple_forget with (known := (id, len bytes) :: known); [set_solver|].
  apply for_each_ok. intros i Hi%elem_of_range. specialize (Hm i Hi). unfold upload_row.
  assert (i * row + row ≤ len bytes) by (pose proof (Z.mul_div_le (len bytes) row Hr); nia).
  eapply triple_lift_then; [apply (yields_checked_mul _ _ _ (λ a, a = i * stride)); auto|intros ? ->].
  eapply triple_lift_then; [apply (yields_checked_add _ _ _ (λ a, a = off + i * stride)); auto|intros ? ->].
  eapply copy_upload_ok; [by left|done|nia|nia|lia|zlia|lia|lia].
Qed.

(** ** Cache events *)

Lemma inv_set_sequence known n active e ccu k :
  inv known n active e → u32 k →
  (∀ id, ccu = Some id → generated_size (generated_objects e) id = Some 4) →
  inv known n active (set_sequence ccu k e).
Proof. intros [] Hk Hc. by split. Qed.

Lemma ensure_sequence_ok known n active :
  triple (inv known n active) ensure_sequence (λ id, inv ((id, 4) :: known) n active).
Proof.
  unfold ensure_sequence. apply triple_get_then. intros [id|].
  - apply triple_ret. intros e [H HE]. pose proof (inv_ccu _ _ _ _ _ _ H id HE) as HS.
    destruct H. split; try done. by constructor.
  - eapply triple_pre with (P' := inv known n active); [by intros e [? _]|].
    eapply triple_bind.
    { apply (add_generated_ok _ _ _ _ _ [0; 0; 0; 0] WRITE CcuSequence); [done| |apply access_ok_WRITE].
      by repeat apply Forall_cons_2; [..|apply Forall_nil_2]. }
    intros id. simpl. eapply triple_seq; [|apply triple_ret; intros e HP; exact HP].
    apply triple_modify. intros e H. apply inv_set_sequence; [done|by destruct H|].
    intros ? [= <-]. pose proof (inv_known _ _ _ _ _ _ H) as [HS _]%Forall_cons. exact HS.
Qed.

Lemma addressed_cache_event_ok known active event :
  u32 event →
  triple (inv known 0 active) (addressed_cache_event event) (λ _, inv known 0 active).
Proof.
  intros HE. unfold addressed_cache_event.
  eapply triple_bind; [apply ensure_sequence_ok|]. intros id. simpl.
  eapply triple_forget with (known := (id, 4) :: known); [set_solver|].
  eapply triple_seq with (Q := inv ((id, 4) :: known) 0 active).
  { apply triple_modify. intros e H. apply inv_set_sequence; [done| |by destruct H].
    pose proof (u32_as_u32 (event_sequence e + 1)). unfold u32 in *. lia. }
  apply (open7 _ _ _ _ opcode.EVENT_WRITE 4%nat); [constant..|]. em_step.
  eapply triple_seq; [apply address_words_ok, (target_generated _ _ 4)|].
  { by left. } { done. } { done. } { done. } { apply access_ok_WRITE. }
  apply triple_get_then. intros k. intros e [H HK].
  apply push_word_ok; [|done]. rewrite <-HK. by destruct H.
Qed.

#[local] Hint Resolve wait_for_idle_ok : emit.
#[local] Hint Extern 1 (triple _ (addressed_cache_event _) _) =>
  (eapply addressed_cache_event_ok; solve [eauto with words]) : emit.

Lemma clean_color_cache_ok known active :
  triple (inv known 0 active) clean_color_cache (λ _, inv known 0 active).
Proof. unfold clean_color_cache. em_auto. Qed.

#[local] Hint Resolve clean_color_cache_ok : emit.

Lemma invalidate_submission_caches_ok known active :
  triple (inv known 0 active) invalidate_submission_caches (λ _, inv known 0 active).
Proof. unfold invalidate_submission_caches. em_auto. Qed.

Lemma submission_end_ok known active :
  triple (inv known 0 active) submission_end (λ _, inv known 0 active).
Proof. unfold submission_end. em_auto. Qed.

(** ** The finished stream *)

(** What a compilation hands out. *)
Record output_ok (r : RelocatablePm4) : Prop := {
  out_packets : ∃ ps, stream 0 (Codegen.words r) ps;
  out_words : Forall u32 (Codegen.words r);
  out_budget : len (Codegen.words r) ≤ budget;
  out_blank : Forall (blank (Codegen.words r)) (Codegen.fixups r);
  out_ordered : ordered_from 0 (Codegen.fixups r);
  out_fixups : Forall (authorised sizes (Codegen.generated_objects r) (Codegen.accesses r)) (Codegen.fixups r);
  out_accesses : Forall (access_good sizes (Codegen.generated_objects r)) (Codegen.accesses r);
  out_apart : ForallOrdPairs apart (Codegen.accesses r);
  out_generated : ∀ i g, Codegen.generated_objects r !! i = Some g → generated_good i g;
}.

Lemma inv_swap known active e : inv known 0 active e → inv known 0 active (swap_texture e).
Proof.
  intros []. split; try done; simpl; [lia|]. rewrite Forall_app in *. tauto.
Qed.

Definition shifted (prefix : Z) (f : SymbolicAddress) : SymbolicAddress :=
  mk_fixup (word_offset f + prefix) (object f) (object_offset f) (required_size f) (fix_access f)
    (encoding f).

Lemma shift_fixups_ok prefix fs :
  yields (shift_fixups prefix fs) (λ l, l = shifted prefix <$> fs).
Proof.
  induction fs as [|f fs IH]; simpl; [done|]. unfold checked_add.
  destruct (_ <=? _); simpl; [|done]. destruct (shift_fixups prefix fs); simpl in *; [|done..].
  by subst.
Qed.

Lemma blank_shifted ws ws' f : blank ws' f → blank (ws ++ ws') (shifted (len ws) f).
Proof.
  intros (H0 & w1 & Ha & Hb & Hc). split; [simpl; unfold len; lia|]. exists w1. simpl.
  rewrite !lookup_app_r by (unfold len; lia). split_and!; [| |done].
  - replace (_ - length ws)%nat with (Z.to_nat (word_offset f)) by (unfold len; lia). done.
  - replace (_ - length ws)%nat with (Z.to_nat (word_offset f + 1)) by (unfold len; lia). done.
Qed.

Lemma ordered_shifted p k fs :
  ordered_from k fs → ordered_from (k + p) (shifted p <$> fs).
Proof.
  revert k. induction fs as [|f fs IH]; intros k; simpl; [done|]. intros [? H]. split; [lia|].
  specialize (IH _ H). by replace (word_offset f + p + 2) with (word_offset f + 2 + p) by lia.
Qed.

Lemma buffer_app ws fs ws' fs' n :
  buffer_ok ws fs 0 → buffer_ok ws' fs' n →
  buffer_ok (ws ++ ws') (fs ++ (shifted (len ws) <$> fs')) n.
Proof.
  intros HB [P' B' O']. pose proof HB as [P B O]. split; [by apply partial_app| |].
  - apply Forall_app. split; [eapply Forall_impl; [exact B|]; intros f; apply blank_app|].
    apply Forall_fmap. eapply Forall_impl; [exact B'|]. intros f. apply blank_shifted.
  - eapply ordered_app; [done|by eapply buffer_ends|apply len_nonneg|].
    by apply (ordered_shifted _ 0).
Qed.

Lemma authorised_shifted gen l p f :
  authorised sizes gen l f → authorised sizes gen l (shifted p f).
Proof. done. Qed.

(** The texture prologue goes first; the fixups of the main stream move with it. *)
Lemma prepend_textures_ok active :
  triple (inv [] 0 active) prepend_textures (λ _, inv [] 0 active).
Proof.
  unfold prepend_textures. apply triple_get_then. intros [|w0 ws0].
  { apply triple_ret. by intros e [? _]. }
  eapply triple_seq with (Q := inv [] 0 active).
  { apply triple_modify. intros e [H _]. by apply inv_swap. }
  em_step. em_step. apply triple_get_then. intros ws.
  eapply triple_lift_then; [apply (yields_to_u32 _ (λ a, a = len ws)); auto|]. intros ? ->.
  intros e [H HW]. unfold and_then, try_reserve, modify, get, lift.
  assert (HX : ∀ m, match (let? fs := shift_fixups (len ws) (texture_fixups e) in
    Ok ((), mk_emitter (words e ++ texture_words e) (fixups e ++ fs) [] []
        (texture_states e) (accesses e) (generated_objects e) (ccu_sequence e) (event_sequence e)
        (draw_batch_active e) (last_draw e) (max_words e) m)) with
    | Ok (_, e') => inv [] 0 active e' | Err x => refusal x | Panic => False end).
  { intros m. pose proof (shift_fixups_ok (len ws) (texture_fixups e)) as HS.
    destruct (shift_fixups _ _) as [fs| |]; simpl; [|done..]. simpl in HS. subst fs ws.
    destruct H. split; try done; simpl.
    - by apply buffer_app.
    - split; constructor.
    - rewrite len_app. unfold len at 3. simpl. lia.
    - rewrite app_nil_r, Forall_app in *. destruct inv_fixups0 as [? ?]. split; [done|].
      by apply Forall_fmap. }
  destruct (memory e) as [[|[|m]]|] eqn:EM; simpl; rewrite ?EM; simpl; [done|done| |].
  - specialize (HX (Some m)). by destruct (shift_fixups _ _).
  - specialize (HX None). by destruct (shift_fixups _ _).
Qed.

Lemma check_fixups_ok ws fs k prev :
  Forall (blank ws) fs → ordered_from k fs →
  (∀ p, prev = Some p → p ≤ k) →
  yields (foldM (check_fixup ws) prev fs) (λ _, True).
Proof.
  intros HB. revert k prev. induction HB as [|f fs Hf _ IH]; intros k prev HO Hp; [done|].
  destruct HO as [Hk HO]. simpl. unfold check_fixup at 1. unfold checked_add.
  destruct (_ <=? _); simpl; [|done].
  assert (match prev with Some offset => word_offset f <? offset | None => false end = false) as ->.
  { destruct prev as [p|]; [|done]. specialize (Hp p eq_refl). apply Z.ltb_ge. lia. }
  assert (word_count (encoding f) = 2) as -> by by destruct (encoding f).
  pose proof (blank_end _ _ Hf) as HE. destruct (Z.ltb_spec (len ws) (word_offset f + 2)); [lia|].
  destruct Hf as (H0 & w1 & Ha & Hb & Hc). simpl.
  destruct (slice_two ws (word_offset f)) as (a & b & -> & Ha' & Hb'); [lia..|]. simplify_eq.
  assert (placeholder_is_valid (encoding f) [0; w1] = true) as ->.
  { destruct (encoding f); simpl; by apply Z.eqb_eq. }
  simpl. apply (IH (word_offset f + 2)); [done|]. by intros ? [= <-].
Qed.

Lemma finish_ok : triple (inv [] 0 false) finish (λ r _, output_ok r).
Proof.
  unfold finish. apply triple_get_then. intros b.
  eapply triple_pre with (P' := λ e, inv [] 0 false e ∧ b = false).
  { intros e [H <-]. split; [done|by destruct H]. }
  destruct b; [by intros e [_ ?]|].
  eapply triple_seq; [eapply triple_pre; [|apply (prepend_textures_ok false)]; by intros e [? _]|].
  intros e H. unfold and_then, get, lift. simpl.
  pose proof (check_fixups_ok (words e) (fixups e) 0 None) as HC.
  destruct (inv_main _ _ _ _ _ _ H) as [P B O].
  specialize (HC B O ltac:(done)). destruct (foldM _ _ _); simpl; [|done..].
  pose proof (len_nonneg (texture_words e)). pose proof (inv_budget _ _ _ _ _ _ H) as HL.
  rewrite (inv_max _ _ _ _ _ _ H) in HL.
  pose proof (inv_fixups _ _ _ _ _ _ H) as [? _]%Forall_app.
  split; simpl; [by apply partial_stream|by eapply partial_u32|lia|done|done|done|by destruct H..].
Qed.
End Uploads.
End UploadFacts.
