(* ===== verification/CodegenDrawFacts.v ===== *)
(** * Draws, clears and blits keep the emitter's invariant

    [surface_ok] and [draw_ok] say what the emitter expects of its arguments;
    [CodegenCompileFacts.v] shows that validation establishes them. *)
From S2P Require Import Prelude F32 Pm4 ImageLayout ShaderPack CodegenModel CodegenEmit CodegenDraw CodegenFacts CodegenUploadFacts.

Module DrawFacts.
Import Ir Codegen Emit Emit3d EmitFacts UploadFacts.

(** ** Words *)

Lemma f32_to_bits_u32 x : u32 (f32_to_bits x).
Proof. destruct x as [[]|[]| |]; [by vm_compute..|apply u32_as_u32]. Qed.

Lemma f32_as_u32_u32 x : u32 (f32_as_u32 x).
Proof.
  unfold f32_as_u32. destruct x as [|[]| |[] m e]; [by vm_compute..|].
  pose proof (Z.shiftl_nonneg (Z.pos m) e). unfold u32, U32_MAX. lia.
Qed.

Lemma lor_below a b n : 0 ≤ n → 0 ≤ a < 2 ^ n → 0 ≤ b < 2 ^ n → 0 ≤ a .| b < 2 ^ n.
Proof.
  intros Hn Ha Hb. split; [apply Z.lor_nonneg; lia|].
  destruct (decide (a .| b = 0)) as [->|]; [lia|]. pose proof (Z.lor_nonneg a b).
  apply Z.log2_lt_pow2; [lia|]. rewrite Z.log2_lor by lia.
  assert (∀ x, 0 ≤ x < 2 ^ n → x = 0 ∨ Z.log2 x < n) as H'.
  { intros x Hx. destruct (decide (x = 0)); [by left|right]. apply Z.log2_lt_pow2; lia. }
  pose proof (Z.log2_nonneg a). pose proof (Z.log2_nonneg b).
  destruct (H' a Ha) as [->|], (H' b Hb) as [->|]; [done|change (Z.log2 0) with 0; lia..|lia].
Qed.

Lemma guardband_axis_bound offset scale : 0 ≤ guardband_axis offset scale < 2 ^ 9.
Proof.
  unfold guardband_axis. set (adjustment := f32_min _ _). destruct (_ || _); [by vm_compute|].
  set (bits := f32_to_bits adjustment). destruct (_ && _) eqn:E; [|by vm_compute]. bool_to_prop.
  apply lor_below; [done| |].
  - rewrite Z.shiftl_mul_pow2 by done. lia.
  - change 0x3f with (Z.ones 6). rewrite Z.land_ones by done. zlia.
Qed.

Lemma guardband_clip_adj_u32 v : u32 (guardband_clip_adj v).
Proof.
  unfold guardband_clip_adj. apply u32_lor.
  - pose proof guardband_axis_bound as H. unfold u32.
    match goal with |- context [guardband_axis ?a ?b] => specialize (H a b) end. lia.
  - rewrite Z.shiftl_mul_pow2 by done. unfold u32. pose proof guardband_axis_bound as H.
    match goal with |- context [guardband_axis ?a ?b] => specialize (H a b) end. lia.
Qed.

Lemma viewport_transform_u32 v : Forall u32 (viewport_transform v).
Proof. unfold viewport_transform. repeat (apply Forall_cons_2; [apply f32_to_bits_u32|]). by apply Forall_nil. Qed.

Lemma unorm8_u32 c : u32 (unorm8 c).
Proof. apply f32_as_u32_u32. Qed.

Lemma bottom_right_ok r : valid_rect r → yields (bottom_right r) u32.
Proof.
  intros ((? & _) & (? & _) & ? & ? & ? & ?). unfold bottom_right, add_or_panic, sub_or_panic, U32_MAX in *.
  destruct (Z.leb_spec (rect_x r + rect_width r) 4294967295); simpl; [|lia].
  destruct (Z.leb_spec 1 (rect_x r + rect_width r)); simpl; [|lia].
  destruct (Z.leb_spec (rect_y r + rect_height r) 4294967295); simpl; [|lia].
  destruct (Z.leb_spec 1 (rect_y r + rect_height r)); simpl; [|lia].
  apply u32_pack_xy. unfold u32. lia.
Qed.

(** A packet's worth of words. *)
Definition payload (l : list Z) : Prop := 0 < len l ≤ 0x7e ∧ Forall u32 l.

Record vertex_ok (v : VertexMeta) : Prop := {
  vo_cntl : u32 (sp_vs_cntl_0 v);
  vo_size : u32 (sp_vs_instr_size v);
  vo_units : u32 (sp_vs_instr_size v << 22);
  vo_const : u32 (sp_vs_const_config v);
  vo_config : u32 (sp_vs_config v);
  vo_dest : payload (vfd_dest_cntl v);
  vo_cntl_1 : payload (vfd_cntl_1_6 v);
}.

Record fragment_ok (f : FragmentMeta) : Prop := {
  fo_cntl : u32 (sp_ps_cntl_0 f);
  fo_size : u32 (sp_ps_instr_size f);
  fo_units : u32 (sp_ps_instr_size f << 22);
  fo_const : u32 (sp_ps_const_config f);
  fo_config : u32 (sp_ps_config f);
  fo_wave : u32 (sp_ps_wave_cntl f);
  fo_gras : u32 (gras_cl_interp_cntl f);
  fo_interp : u32 (rb_interp_cntl f);
  fo_input : u32 (rb_ps_input_cntl f);
  fo_tex : payload (initial_tex_load_cntl f :: initial_tex_load_cmd f);
  fo_prog : payload (sp_reg_prog_id f);
  fo_out_cntl : u32 (sp_ps_output_cntl f);
  fo_out_reg : payload (sp_ps_output_reg f);
  fo_out_mask : u32 (sp_ps_output_mask f);
  fo_rb_cntl : u32 (rb_ps_output_cntl f);
  fo_rb_mask : u32 (rb_ps_output_mask f);
}.

Record link_ok (l : LinkMeta) : Prop := {
  lo_reg : payload (sp_vs_output_reg l);
  lo_dest : payload (sp_vs_vpc_dest_reg l);
  lo_vpc : u32 (vpc_vs_cntl l);
  lo_pc : u32 (pc_vs_cntl l);
  lo_out : u32 (sp_vs_output_cntl l);
  lo_lm : payload (lm_transfer_disable l);
  lo_ps : u32 (vpc_ps_cntl l);
}.

#[export] Instance u32_dec x : Decision (u32 x). Proof. unfold u32. apply _. Defined.
#[export] Instance payload_dec l : Decision (payload l). Proof. unfold payload. apply _. Defined.

Ltac compute_decision :=
  match goal with |- ?P => apply (bool_decide_eq_true_1 P); by vm_compute end.

(** The canonical programs of every pipeline can be emitted. *)
Lemma pipeline_ok variant :
  link_ok (link_meta variant) ∧
  ∃ vs fs, shader_meta (ShaderPack.vs (link_meta variant)) = Vertex vs ∧
    shader_meta (ShaderPack.fs (link_meta variant)) = Fragment fs ∧ vertex_ok vs ∧ fragment_ok fs.
Proof.
  destruct variant; (split; [split; compute_decision|]);
    (eexists _, _; split_and!; [done|done|split; compute_decision..]).
Qed.

#[export] Hint Resolve f32_to_bits_u32 f32_as_u32_u32 unorm8_u32 guardband_clip_adj_u32 : words.
#[export] Hint Extern 2 (u32 (_ >> _)) => (apply u32_shiftr; [lia|]) : words.
#[export] Hint Extern 2 (u32 (if _ then _ else _)) => case_match : words.

Section Draws.
Context (sizes : Z → option Z) (budget : Z).

#[local] Abbreviation inv := (inv sizes budget).
#[local] Abbreviation target := (target sizes).

Lemma packet4_payload known active r vs :
  0 < r ≤ 0x3ffff → payload vs → triple (inv known 0 active) (packet4 r vs) (λ _, inv known 0 active).
Proof. intros Hr [? ?]. by apply packet4_ok. Qed.

#[local] Hint Extern 2 (triple _ (packet4 _ _) _) =>
  (eapply packet4_payload; [constant|assumption]) : emit.
#[local] Hint Resolve wait_for_idle_ok submission_end_ok invalidate_submission_caches_ok : emit.

(** ** What the emitter expects *)

Definition object_within (id offset size : Z) : Prop :=
  ∃ n, sizes id = Some n ∧ 0 ≤ offset ∧ 0 < size ∧ offset + size ≤ n.

Record surface_ok (s : Surface) : Prop := {
  so_object : object_within (surf_object s) (surf_offset s) (surf_size s);
  so_width : u32 (width s) ∧ 0 < width s;
  so_height : u32 (height s) ∧ 0 < height s;
  so_stride : u32 (surf_stride s);
  so_tile : tile_mode s = 0 ∨ tile_mode s = 3;
  so_levels : 1 ≤ mip_levels s;
  so_pitch : 0 ≤ array_pitch s;
  so_nv12 : ∀ n, nv12 s = Some n →
    object_within (surf_object s) (uv_offset n) (uv_size n) ∧ surf_size s + 4095 ≤ U64_MAX;
}.

Record draw_ok (d : DrawState) : Prop := {
  do_target : surface_ok (Emit.target d);
  do_area : valid_rect (area d);
  do_scissor : valid_rect (scissor d);
  do_vertex : object_within (vertex d) (vertex_offset d) (vertex_size d);
  do_stride : u32 (draw_stride d);
  do_fetch : payload (fetch_words (draw_attributes d));
  do_uniforms : len (uniforms d) = 32 ∧ Forall u32 (uniforms d);
  do_texture : ∀ t, draw_texture d = Some t → surface_ok t;
  do_sampler : len (sampler d) = 4 ∧ Forall u32 (sampler d);
  do_cull : u32 (cull d);
  do_depth : ∀ s, depth d = Some s → surface_ok (dd_target s);
  do_call : match draw_call d with
            | NonIndexed first count => u32 first ∧ u32 count
            | Indexed i => u32 (base_vertex i) ∧ u32 (index_count i) ∧ u32 (first_index i) ∧
                u32 (max_indices i) ∧ object_within (index i) (index_offset i) (index_size i)
            end;
}.

Lemma target_object known id offset size acc :
  object_within id offset size → access_ok acc → target known (External id) offset size acc.
Proof. intros (n & ? & ? & ? & ?) ?. by apply (target_external _ _ _ n). Qed.

Lemma target_shader known v : target known (CanonicalShader v) 0 (shader_size v) READ.
Proof. split_and!; [by destruct v|by left|done..]. Qed.

#[local] Hint Resolve target_shader target_object access_ok_READ access_ok_WRITE access_ok_RW so_object : core.

(** ** Shader state *)

Lemma load_direct_ok known active op block state_type units values :
  0 ≤ op ≤ 0x7f → len values ≤ 1000 → Forall u32 values →
  u32 ((state_type << 14) .| (block << 18) .| (units << 22)) →
  triple (inv known 0 active) (load_direct op block state_type units values)
    (λ _, inv known 0 active).
Proof.
  intros Ho Hl HV HW. unfold load_direct. em_step. apply packet7_ok; [done| |].
  - rewrite len_app. change (len [_; 0; 0]) with 3. lia.
  - apply Forall_app. split; [|done]. apply Forall_cons_2; [done|]. repeat constructor; done.
Qed.

Lemma preload_shader_ok known active op block units variant :
  0 ≤ op ≤ 0x7f → u32 ((2 << 16) .| (block << 18)) → u32 (units << 22) →
  triple (inv known 0 active) (preload_shader op block units variant) (λ _, inv known 0 active).
Proof.
  intros Ho Hb Hu. unfold preload_shader. apply (open7 _ _ _ _ op 3%nat); [done|lia|]. em_auto.
Qed.

Lemma load_indirect_ok known active op block state_type units o offset size :
  0 ≤ op ≤ 0x7f → u32 ((state_type << 14) .| (2 << 16) .| (block << 18) .| (units << 22)) →
  target known o offset size READ →
  triple (inv known 0 active) (load_indirect op block state_type units o offset size)
    (λ _, inv known 0 active).
Proof.
  intros Ho Hb HT. unfold load_indirect. apply (open7 _ _ _ _ op 3%nat); [done|lia|]. em_auto.
Qed.

(** ** Texture state *)

Lemma extend_words_in known k n active vs :
  k = (length vs + n)%nat → Forall u32 vs →
  triple (inv known k active) (extend_words vs) (λ _, inv known n active).
Proof. intros -> HV. by apply extend_words_ok. Qed.

#[local] Hint Extern 1 (triple _ (extend_words _) _) =>
  (eapply extend_words_in; [done|solve_words]) : emit.

Lemma triple_if {A} P (b : bool) (m m' : em A) Q :
  triple P m Q → triple P m' Q → triple P (if b then m else m') Q.
Proof. by destruct b. Qed.

Lemma texture_descriptor_prefix_ok t :
  surface_ok t →
  yields (texture_descriptor_prefix t) (λ l, length l = 4%nat ∧ Forall u32 l).
Proof.
  intros [? ? ? ? ? ? ? HN]. unfold texture_descriptor_prefix. destruct (nv12 t) as [n|] eqn:EN.
  - destruct (HN n eq_refl) as [_ HM]. unfold add_or_panic.
    destruct (Z.leb_spec (surf_size t + 4095) U64_MAX); simpl; [|lia]. split; [done|].
    destruct so_width0, so_height0. solve_words.
  - unfold sub_or_panic. destruct (Z.leb_spec 1 (mip_levels t)); simpl; [|lia].
    unfold checked_add. destruct (Z.leb_spec (array_pitch t + 4095) U64_MAX); simpl; [|done].
    unfold to_u32. destruct (Z.leb_spec ((array_pitch t + 4095) >> 12) U32_MAX) as [HP|]; simpl; [|done].
    split; [done|]. destruct so_width0, so_height0.
    assert (u32 ((array_pitch t + 4095) >> 12)).
    { pose proof (Z.shiftr_nonneg (array_pitch t + 4095) 12). unfold u32, U32_MAX in *. lia. }
    assert (u32 (tile_mode t)) by (destruct so_tile0 as [->| ->]; by vm_compute).
    destruct (alpha_mask t), (tile_mode t =? 0); solve_words.
Qed.

Lemma texture_descriptor_address_ok known n active t :
  surface_ok t →
  triple (inv known (S (S n)) active) (texture_descriptor_address t) (λ _, inv known n active).
Proof.
  intros HT. apply placeholder_ok; [eauto|by vm_compute|by right|done].
Qed.

Lemma initialize_texture_state_ok known active t sampler state :
  surface_ok t → (state, 80) ∈ known → len sampler = 4 → Forall u32 sampler →
  triple (inv known 0 active) (initialize_texture_state t sampler state) (λ _, inv known 0 active).
Proof.
  intros HT HK HL HS. unfold initialize_texture_state.
  eapply triple_lift_then; [by apply texture_descriptor_prefix_ok|]. intros l [HLl HUl].
  apply (open7 _ _ _ _ CP_MEM_WRITE 22%nat); [constant..|].
  eapply triple_seq; [apply address_words_ok, (target_generated _ _ _ 80); done || by right; left|].
  eapply triple_seq; [by apply (extend_words_in _ _ 16)%nat; [rewrite HLl|]|].
  eapply triple_seq; [by apply texture_descriptor_address_ok|].
  eapply triple_seq with (Q := inv known 4 active).
  { destruct (nv12 t) as [n|] eqn:EN; [|em_auto].
    destruct (so_nv12 _ HT n EN) as [HN _]. em_auto. }
  eapply triple_seq; [apply (extend_words_in _ _ 0); [unfold len in HL; lia|done]|]. em_auto.
Qed.

Lemma in_prologue_ok known active m :
  triple (inv known 0 active) m (λ _, inv known 0 active) →
  triple (inv known 0 active) (in_prologue m) (λ _, inv known 0 active).
Proof.
  intros Hm. unfold in_prologue.
  eapply triple_seq; [apply triple_modify; intros e; apply inv_swap|].
  eapply triple_seq; [exact Hm|]. apply triple_modify. intros e. apply inv_swap.
Qed.

Lemma find_texture_state_elem t sampler l state :
  find_texture_state t sampler l = Some state → ∃ s, s ∈ l ∧ s.2 = state.
Proof.
  unfold find_texture_state. intros (s & [Hs _]%List.find_some & ->)%fmap_Some.
  exists s. split; [|done]. by apply list_elem_of_In.
Qed.

Lemma texture_state_backing_ok known active t sampler :
  surface_ok t → len sampler = 4 → Forall u32 sampler →
  triple (inv known 0 active) (texture_state_backing t sampler)
    (λ state, inv ((state, 80) :: known) 0 active).
Proof.
  intros HT HL HS. unfold texture_state_backing. apply triple_get_then. intros states.
  eapply triple_bind with (Q := λ state, inv ((state, 80) :: known) 0 active).
  - destruct (find_texture_state t sampler states) as [state|] eqn:EF.
    + apply triple_ret. intros e [H <-].
      apply find_texture_state_elem in EF as (s & Hs & <-).
      pose proof (proj1 (Forall_forall _ _) (inv_states _ _ _ _ _ _ H) s Hs) as HZ.
      destruct H. split; try done. by constructor.
    + eapply triple_pre with (P' := inv known 0 active); [by intros e [? _]|].
      eapply triple_bind.
      { apply (add_generated_ok _ _ _ _ _ (replicate 80 0)); [done| |apply access_ok_RW].
        by apply Forall_replicate. }
      intros state. change (len (replicate 80 0)) with 80.
      eapply triple_seq; [apply in_prologue_ok, initialize_texture_state_ok; [done|by left|done..]|].
      em_step. eapply triple_seq; [|apply triple_ret; intros e HP; exact HP].
      apply triple_modify. intros e []. split; try done. simpl. apply Forall_app.
      split; [done|]. apply Forall_singleton. by apply Forall_cons in inv_known0 as [? _].
  - intros state.
    assert (HA : target ((state, 80) :: known) (Generated state) 64 16 READ)
      by (apply (target_generated _ _ _ 80); [by left|done..|by left]).
    assert (HB : target ((state, 80) :: known) (Generated state) 0 64 READ)
      by (apply (target_generated _ _ _ 80); [by left|done..|by left]).
    em_auto.
Qed.

(** ** Draw batches *)

Lemma restore_3d_baseline_ok known active :
  triple (inv known 0 active) restore_3d_baseline (λ _, inv known 0 active).
Proof. unfold restore_3d_baseline. em_auto. Qed.

Lemma inv_set_batch known n active active' last e :
  inv known n active e → inv known n active' (set_batch active' last e).
Proof. intros []. by split. Qed.

Lemma begin_draw_batch_ok known :
  triple (inv known 0 false) begin_draw_batch (λ _, inv known 0 true).
Proof.
  unfold begin_draw_batch, submission_begin_3d. apply triple_get_then. intros b.
  destruct b; [by apply triple_fail|].
  eapply triple_pre with (P' := inv known 0 false); [by intros e [? _]|].
  eapply triple_seq; [eapply triple_seq; [apply invalidate_submission_caches_ok|apply restore_3d_baseline_ok]|].
  apply triple_modify. intros e. apply inv_set_batch.
Qed.

Lemma end_draw_batch_ok known :
  triple (inv known 0 true) end_draw_batch (λ _, inv known 0 false).
Proof.
  unfold end_draw_batch. apply triple_get_then. intros b.
  destruct b; [|by apply triple_fail].
  eapply triple_pre with (P' := inv known 0 true); [by intros e [? _]|].
  em_step. apply triple_modify. intros e. apply inv_set_batch.
Qed.

Lemma continue_draw_batch_ok known active :
  triple (inv known 0 active) continue_draw_batch (λ _, inv known 0 active).
Proof.
  unfold continue_draw_batch. apply triple_get_then. intros [].
  - by apply triple_ret; intros e [? _].
  - by apply triple_fail.
Qed.

(** ** Draws *)

Lemma emit_program_config_ok known active vs fs :
  vertex_ok vs → fragment_ok fs →
  triple (inv known 0 active) (emit_program_config vs fs) (λ _, inv known 0 active).
Proof. intros [] []. unfold emit_program_config. em_auto. Qed.

Lemma emit_vs_ok known active vs link :
  vertex_ok vs → link_ok link →
  triple (inv known 0 active) (emit_vs vs link) (λ _, inv known 0 active).
Proof. intros [] []. unfold emit_vs. em_auto. Qed.

Lemma emit_fs_ok known active fs :
  fragment_ok fs → triple (inv known 0 active) (emit_fs fs) (λ _, inv known 0 active).
Proof.
  intros []. unfold emit_fs. em_step. em_step.
  eapply triple_seq with (Q := inv known 0 active); [destruct (initial_tex_load_cmd fs); em_auto|].
  em_auto.
Qed.

Lemma layer_words s :
  surface_ok s → yields (to_u32 Overflow (surf_size s >> 6)) u32.
Proof.
  intros HS. apply yields_to_u32. destruct (so_object s HS) as (n & _ & _ & ? & _).
  pose proof (Z.shiftr_nonneg (surf_size s) 6). unfold u32, U32_MAX. lia.
Qed.

Lemma emit_depth_state_ok known active d :
  (∀ s, d = Some s → surface_ok (dd_target s)) →
  triple (inv known 0 active) (emit_depth_state d) (λ _, inv known 0 active).
Proof.
  intros HD. unfold emit_depth_state. do 9 em_step. destruct d as [d|]; [|em_auto].
  specialize (HD d eq_refl). pose proof (so_stride _ HD).
  eapply triple_seq.
  { apply packet4_ok; [constant|constant|]. apply Forall_cons_2, Forall_nil_2.
    by destruct (dd_write_enabled d), (dd_compare d). }
  em_step. em_step. apply (open4 _ _ _ _ RB_DEPTH_BUFFER_INFO 6%nat); [constant|lia|].
  eapply triple_lift_then; [by apply layer_words|]. intros layer HL. em_auto.
Qed.

Lemma emit_single_sample_state_ok known active :
  triple (inv known 0 active) emit_single_sample_state (λ _, inv known 0 active).
Proof. unfold emit_single_sample_state. em_auto. Qed.

Lemma emit_shader_program_layout_ok known active r variant :
  0 < r ≤ 0x3ffff →
  triple (inv known 0 active) (emit_shader_program_layout r variant) (λ _, inv known 0 active).
Proof.
  intros Hr. unfold emit_shader_program_layout. apply (open4 _ _ _ _ r 7%nat); [done|lia|]. em_auto.
Qed.

Lemma emit_vs_program_ok known active vs variant :
  vertex_ok vs → triple (inv known 0 active) (emit_vs_program vs variant) (λ _, inv known 0 active).
Proof.
  intros []. unfold emit_vs_program. eapply triple_seq; [by apply emit_shader_program_layout_ok|].
  em_step. by apply preload_shader_ok.
Qed.

Lemma emit_fs_program_ok known active fs variant :
  fragment_ok fs → triple (inv known 0 active) (emit_fs_program fs variant) (λ _, inv known 0 active).
Proof.
  intros []. unfold emit_fs_program. eapply triple_seq; [by apply emit_shader_program_layout_ok|].
  em_step. by apply preload_shader_ok.
Qed.

Lemma emit_vertex_range_ok known active d :
  draw_ok d → triple (inv known 0 active) (emit_vertex_range d) (λ _, inv known 0 active).
Proof.
  intros HD. unfold emit_vertex_range. pose proof (do_stride d HD).
  eapply triple_seq.
  { apply packet4_ok; [constant|constant|]. pose proof (do_call d HD) as HC.
    repeat first [apply Forall_nil_2 | apply Forall_cons_2]; [|by vm_compute].
    by destruct (draw_call d) as [? ?|i]; destruct HC. }
  pose proof (do_vertex d HD) as HV. em_step.
  eapply triple_lift_then; [apply (yields_to_u32 _ u32)|].
  { destruct HV as (n & _ & _ & ? & _). unfold u32, U32_MAX. lia. }
  intros size Hs. em_auto.
Qed.

Lemma emit_uniforms_ok known active d :
  draw_ok d → triple (inv known 0 active) (emit_uniforms d) (λ _, inv known 0 active).
Proof.
  intros HD. unfold emit_uniforms. destruct (do_uniforms d HD) as [HL HU].
  assert (∀ k, len (take k (uniforms d)) ≤ 1000).
  { intros k. unfold len in *. rewrite length_take. lia. }
  eapply triple_seq; [apply load_direct_ok; [done|done|by apply Forall_take|done]|].
  apply load_direct_ok; [done|done|by apply Forall_take|by destruct (is_nv12 _)].
Qed.

Lemma emit_texture_ok known active t sampler :
  surface_ok t → len sampler = 4 → Forall u32 sampler →
  triple (inv known 0 active) (emit_texture t sampler) (λ _, inv known 0 active).
Proof.
  intros HT HL HS. unfold emit_texture.
  eapply triple_bind; [by apply texture_state_backing_ok|]. intros state. simpl.
  eapply triple_forget with (known := (state, 80) :: known); [set_solver|].
  eapply triple_seq; apply load_indirect_ok; [done|done|..].
  - apply (target_generated _ _ _ 80); [by left|done..|by left].
  - done.
  - done.
  - apply (target_generated _ _ _ 80); [by left|done..|by left].
Qed.

Lemma emit_draw_call_ok known active d :
  draw_ok d → triple (inv known 0 active) (emit_draw_call (draw_call d)) (λ _, inv known 0 active).
Proof.
  intros HD. pose proof (do_call d HD) as HC. destruct (draw_call d) as [first count|i]; simpl.
  - destruct HC. em_auto.
  - destruct HC as (? & ? & ? & ? & ?).
    apply (open7 _ _ _ _ CP_DRAW_INDX_OFFSET 7%nat); [constant..|].
    destruct (index_format i); em_auto.
Qed.

Lemma window_scissor_ok known active r :
  valid_rect r → triple (inv known 0 active) (window_scissor r) (λ _, inv known 0 active).
Proof.
  intros HR. unfold window_scissor. pose proof (proj1 HR).
  eapply triple_lift_then; [by apply bottom_right_ok|]. intros br Hbr. em_auto.
Qed.

Lemma draw_with_retained_fixed_state_ok known active d :
  draw_ok d →
  triple (inv known 0 active) (draw_with_retained_fixed_state d) (λ _, inv known 0 active).
Proof.
  intros HD. unfold draw_with_retained_fixed_state.
  eapply triple_seq; [by apply window_scissor_ok, do_scissor|].
  eapply triple_seq; [by apply emit_vertex_range_ok|].
  eapply triple_seq; [by apply emit_uniforms_ok|].
  apply triple_get_then. intros last. eapply triple_pre with (P' := inv known 0 active).
  { by intros e [? _]. }
  eapply triple_seq; [|by apply emit_draw_call_ok].
  pose proof (do_texture d HD) as HT. destruct (do_sampler d HD).
  destruct (draw_texture d) as [t|]; [|em_auto].
  destruct (texture_changed last d); [|em_auto]. apply emit_texture_ok; auto.
Qed.

Lemma emit_target_ok known active d :
  draw_ok d → triple (inv known 0 active) (emit_target d) (λ _, inv known 0 active).
Proof.
  intros HD. unfold emit_target. destruct (do_target d HD).
  assert (HL := layer_words _ (do_target d HD)).
  assert (u32 (as_u32 (tile_mode (Emit.target d) << 8))) by apply u32_as_u32.
  em_step. em_step. em_step.
  eapply triple_lift_then; [exact HL|]. intros layer Hl.
  destruct (source_over d); em_auto.
Qed.

Lemma emit_raster_ok known active d :
  draw_ok d → triple (inv known 0 active) (emit_raster d) (λ _, inv known 0 active).
Proof.
  intros HD. unfold emit_raster. destruct (do_target d HD) as [_ [? ?] [? ?] _ _ _ _].
  assert (HS : ∀ x, u32 x → 0 < x → yields (sub_or_panic x 1) (λ y, u32 y)).
  { intros x ??. unfold sub_or_panic. destruct (Z.leb_spec 1 x); simpl; [unfold u32 in *; lia|lia]. }
  eapply triple_lift_then; [by apply HS|]. intros x Hx.
  eapply triple_lift_then; [by apply HS|]. intros y Hy.
  eapply triple_lift_then; [by apply bottom_right_ok, do_area|]. intros abr Ha.
  eapply triple_lift_then; [by apply bottom_right_ok, do_scissor|]. intros sbr Hs.
  eapply triple_seq; [apply packet4_ok; [constant|done|apply viewport_transform_u32]|].
  pose proof (proj1 (do_area d HD)). pose proof (proj1 (do_scissor d HD)). pose proof (do_cull d HD).
  em_auto.
Qed.

Lemma draw_complete_ok known active d :
  draw_ok d → triple (inv known 0 active) (draw_complete d) (λ _, inv known 0 active).
Proof.
  intros HD. unfold draw_complete.
  destruct (pipeline_ok (variant d)) as (HL & vs & fs & -> & -> & HV & HF).
  eapply triple_seq; [by apply emit_program_config_ok|].
  eapply triple_seq; [by apply emit_target_ok|].
  eapply triple_seq; [by apply emit_depth_state_ok, do_depth|].
  eapply triple_seq; [by apply emit_single_sample_state_ok|].
  eapply triple_seq; [by apply emit_raster_ok|].
  em_step. destruct (vo_cntl_1 _ HV), (vo_dest _ HV), (do_fetch d HD).
  eapply triple_seq; [by apply packet4_ok|].
  eapply triple_seq; [by apply emit_vertex_range_ok|].
  eapply triple_seq; [by apply packet4_ok|].
  eapply triple_seq; [by apply packet4_ok|].
  eapply triple_seq; [by apply emit_vs_ok|].
  eapply triple_seq; [by apply emit_fs_ok|].
  eapply triple_seq; [by apply emit_vs_program_ok|].
  eapply triple_seq; [by apply emit_fs_program_ok|].
  eapply triple_seq; [by apply emit_uniforms_ok|].
  eapply triple_seq; [|by apply emit_draw_call_ok].
  pose proof (do_texture d HD) as HT. destruct (do_sampler d HD).
  destruct (draw_texture d) as [t|]; [|em_auto]. apply emit_texture_ok; auto.
Qed.

(** A draw of a batch, complete or retained. *)
Lemma draw_batch_ok known d :
  draw_ok d → triple (inv known 0 true) (draw d) (λ _, inv known 0 true).
Proof.
  intros HD. unfold draw. apply triple_get_then. intros b.
  eapply triple_pre with (P' := λ e, inv known 0 true e ∧ b = true).
  { intros e [H <-]. split; [done|by destruct H]. }
  destruct b; [|by intros e [_ ?]]. simpl.
  eapply triple_pre with (P' := inv known 0 true); [by intros e [? _]|].
  apply triple_get_then. intros last.
  eapply triple_pre with (P' := inv known 0 true); [by intros e [? _]|].
  eapply triple_seq with (Q := inv known 0 true).
  - destruct last as [previous|]; [|by apply draw_complete_ok].
    destruct (fixed_draw_state_matches _ _);
      [by apply draw_with_retained_fixed_state_ok|by apply draw_complete_ok].
  - apply triple_modify. intros e H. rewrite (inv_active _ _ _ _ _ _ H). by eapply inv_set_batch.
Qed.

(** ** Clears and blits *)

Lemma submission_begin_2d_ok known :
  triple (inv known 0 false) submission_begin_2d (λ _, inv known 0 false).
Proof.
  unfold submission_begin_2d. apply triple_get_then. intros [].
  { by apply triple_fail. }
  eapply triple_pre with (P' := inv known 0 false); [by intros e [? _]|]. em_auto.
Qed.

Lemma emit_coordinates_ok known active r :
  valid_rect r → triple (inv known 0 active) (emit_coordinates r None) (λ _, inv known 0 active).
Proof.
  intros HR. unfold emit_coordinates. pose proof (proj1 HR). simpl.
  eapply triple_lift_then; [by apply bottom_right_ok|]. intros br Hbr. em_step.
  eapply triple_lift_then; [by apply bottom_right_ok|]. intros br' Hbr'. em_auto.
Qed.

Lemma emit_a2d_common_ok known active format ifmt solid scissor :
  u32 (format << 8) → u32 (format << 3) → u32 (ifmt << 24) →
  triple (inv known 0 active) (emit_a2d_common format ifmt solid scissor) (λ _, inv known 0 active).
Proof.
  intros Hf Hf' Hi. unfold emit_a2d_common.
  assert (u32 ((format << 8) .| BLIT_CHANNEL_MASK .| (if solid then BLIT_SOLID_COLOR else 0)
               .| (if scissor then BLIT_SCISSOR else 0) .| (ifmt << 24))).
  { apply u32_lor; [|done]. repeat apply u32_lor; [done|done|by destruct solid|by destruct scissor]. }
  em_auto.
Qed.

Lemma emit_destination_ok known active s format swap :
  surface_ok s → u32 format → u32 swap →
  triple (inv known 0 active) (emit_destination s format swap) (λ _, inv known 0 active).
Proof.
  intros HS Hf Hw. unfold emit_destination. pose proof (so_stride s HS).
  destruct (tile_mode s =? 0); em_auto.
Qed.

Lemma emit_blit_ok known active : triple (inv known 0 active) emit_blit (λ _, inv known 0 active).
Proof. unfold emit_blit. em_auto. Qed.

Lemma clear_color_body_ok known active s r c :
  surface_ok s → valid_rect r →
  triple (inv known 0 active) (clear_color_body s r c) (λ _, inv known 0 active).
Proof.
  intros HS HR. unfold clear_color_body.
  eapply triple_seq; [by apply emit_coordinates_ok|].
  eapply triple_seq; [apply packet4_ok; [constant|done|unfold color_words; solve_words]|].
  eapply triple_seq; [by apply emit_a2d_common_ok|].
  eapply triple_seq; [by apply emit_destination_ok|]. apply emit_blit_ok.
Qed.

Lemma clear_depth_body_ok known active s r depth :
  surface_ok s → valid_rect r → u32 depth →
  triple (inv known 0 active) (clear_depth_body s r depth) (λ _, inv known 0 active).
Proof.
  intros HS HR HD. unfold clear_depth_body.
  eapply triple_seq; [by apply emit_coordinates_ok|]. em_step.
  eapply triple_seq; [by apply emit_a2d_common_ok|].
  eapply triple_seq; [by apply emit_destination_ok|]. apply emit_blit_ok.
Qed.

Lemma clear_ok known s r c :
  surface_ok s → valid_rect r →
  triple (inv known 0 false) (clear s r c) (λ _, inv known 0 false).
Proof.
  intros HS HR. unfold clear. eapply triple_seq; [apply submission_begin_2d_ok|]. em_step.
  eapply triple_seq; [by apply clear_color_body_ok|]. em_auto.
Qed.

Lemma clear_depth_ok known s r depth :
  surface_ok s → valid_rect r → u32 depth →
  triple (inv known 0 false) (clear_depth s r depth) (λ _, inv known 0 false).
Proof.
  intros HS HR HD. unfold clear_depth. apply triple_if; [by apply triple_fail|].
  eapply triple_seq; [apply submission_begin_2d_ok|]. em_step.
  eapply triple_seq; [by apply clear_depth_body_ok|]. em_auto.
Qed.

Lemma clear_color_and_depth_ok known s t r c depth :
  surface_ok s → surface_ok t → valid_rect r → u32 depth →
  triple (inv known 0 false) (clear_color_and_depth s t r c depth) (λ _, inv known 0 false).
Proof.
  intros HS HT HR HD. unfold clear_color_and_depth. apply triple_if; [by apply triple_fail|].
  eapply triple_seq; [apply submission_begin_2d_ok|].
  eapply triple_seq; [by apply clear_depth_body_ok|].
  eapply triple_seq; [by apply clear_color_body_ok|]. em_auto.
Qed.

Lemma blit_ok known src sr dst dr filter flips :
  surface_ok src → surface_ok dst → valid_rect sr → valid_rect dr →
  triple (inv known 0 false) (blit src sr dst dr filter flips) (λ _, inv known 0 false).
Proof.
  intros HS HD HR HE. unfold blit. apply triple_if; [by apply triple_fail|].
  eapply triple_seq; [apply submission_begin_2d_ok|]. em_step.
  assert (HX : ∀ a b, 0 ≤ a → 0 < b → a + b ≤ U32_MAX →
    yields (@add_or_panic CompileError U32_MAX a b) (λ x, x = a + b) ∧
    yields (@sub_or_panic CompileError (a + b) 1) (λ _, True)).
  { intros a b ???. unfold add_or_panic, sub_or_panic.
    destruct (Z.leb_spec (a + b) U32_MAX); [|lia]. by destruct (Z.leb_spec 1 (a + b)); [|lia]. }
  pose proof HR as ((? & _) & (? & _) & ? & ? & ? & ?).
  eapply triple_lift_then; [by apply HX|]. intros ? ->.
  eapply triple_lift_then; [by apply HX|]. intros x _.
  eapply triple_lift_then; [by apply HX|]. intros ? ->.
  eapply triple_lift_then; [by apply HX|]. intros y _.
  em_step. eapply triple_seq; [by apply emit_coordinates_ok|].
  eapply triple_seq; [by apply emit_a2d_common_ok|].
  eapply triple_seq with (Q := inv known 0 false).
  { apply triple_if; [em_auto|]. destruct flips as [[] []]; em_auto. }
  destruct HS as [? [? _] _ ? _ _ _ _]. destruct filter.
  all: em_step; em_step; em_step; em_step.
  all: eapply triple_seq; [by apply emit_destination_ok|].
  all: eapply triple_seq; [apply emit_blit_ok|]; em_auto.
Qed.
End Draws.
End DrawFacts.
