(* ===== verification/CodegenCompileFacts.v ===== *)
(** * What a compilation hands out

    Validation establishes what the emitter expects ([surface_ok], [draw_ok]),
    every operation keeps the emitter's invariant, and so [compile] never
    panics, never builds a malformed packet and returns a stream that the
    kernel can take apart and relocate. *)
From S2P Require Import Prelude F32 Pm4 ImageLayout ShaderPack CodegenModel CodegenEmit CodegenDraw CodegenCompile CodegenFacts CodegenUploadFacts CodegenDrawFacts.

Module CompileFacts.
Import Ir Codegen Emit Emit3d Compile EmitFacts UploadFacts DrawFacts.

(** ** Fallible computations *)

Lemma yields_bind {A B} (m : outcome CompileError A) (f : A → outcome CompileError B) P Q :
  yields m P → (∀ a, P a → yields (f a) Q) → yields (bind m f) Q.
Proof. intros Hm Hf. destruct m; simpl in *; auto. Qed.

Lemma yields_ret {A} (a : A) (Q : A → Prop) : Q a → yields (Ok a) Q.
Proof. done. Qed.

Lemma yields_err {A} x (Q : A → Prop) : x ≠ InvalidPm4 → yields (Err x) Q.
Proof. done. Qed.

Lemma yields_ok_or {A} (o : option A) x (Q : A → Prop) :
  x ≠ InvalidPm4 → (∀ a, o = Some a → Q a) → yields (ok_or o x) Q.
Proof. destruct o; simpl; auto. Qed.

Lemma yields_require b x (Q : () → Prop) :
  x ≠ InvalidPm4 → (b = true → Q ()) → yields (require b x) Q.
Proof. destruct b; simpl; auto. Qed.

Lemma yields_require_bind {B} b x (f : () → outcome CompileError B) Q :
  x ≠ InvalidPm4 → (b = true → yields (f ()) Q) → yields (bind (require b x) f) Q.
Proof. destruct b; simpl; auto. Qed.

Lemma yields_ok_or_bind {A B} (o : option A) x (f : A → outcome CompileError B) Q :
  x ≠ InvalidPm4 → (∀ a, o = Some a → yields (f a) Q) → yields (bind (ok_or o x) f) Q.
Proof. destruct o; simpl; auto. Qed.

Lemma yields_map_err {E A} (m : outcome E A) x (Q : A → Prop) :
  x ≠ InvalidPm4 → ensures Q m → yields (map_err m x) Q.
Proof. destruct m; simpl; auto. Qed.

Lemma yields_mono {A} (m : outcome CompileError A) (P Q : A → Prop) :
  yields m P → (∀ a, P a → Q a) → yields m Q.
Proof. destruct m; simpl; auto. Qed.

Lemma yields_if {A} (b : bool) (m m' : outcome CompileError A) Q :
  (b = true → yields m Q) → (b = false → yields m' Q) → yields (if b then m else m') Q.
Proof. destruct b; auto. Qed.

Lemma yields_sub_or_panic a b (Q : Z → Prop) : b ≤ a → Q (a - b) → yields (sub_or_panic a b) Q.
Proof. intros H HQ. unfold sub_or_panic. by destruct (Z.leb_spec b a); [|lia]. Qed.

Lemma yields_to_u32_or x y (Q : Z → Prop) :
  x ≠ InvalidPm4 → (y ≤ U32_MAX → Q y) → yields (to_u32 x y) Q.
Proof. intros Hx H. unfold to_u32. destruct (Z.leb_spec y U32_MAX); simpl; auto. Qed.

(** ** Images *)

Record plane_typed (p : PlaneLayout) : Prop := {
  pt_offset : u64 (plane_offset p);
  pt_stride : u32 (plane_stride p);
  pt_size : u64 (plane_size p);
}.

(** The types of an image's fields, an extent that is not empty, and a
    conversion only where there are two planes. *)
Record image_typed (i : ImageMeta) : Prop := {
  it_width : 0 < extent_width (extent i) ∧ u32 (extent_width (extent i));
  it_height : 0 < extent_height (extent i) ∧ u32 (extent_height (extent i));
  it_planes : Forall plane_typed (planes i);
  it_conversion : conversion i ≠ None → format i = Nv12;
  it_texture : ∀ t, texture i = Some t → u32 (ImageLayout.mip_levels t) ∧ u32 (array_layers t);
}.

Definition plane_in (size : Z) (p : PlaneLayout) : Prop :=
  0 ≤ plane_offset p ∧ 0 < plane_size p ∧ plane_offset p + plane_size p ≤ size.

Record image_valid (size : Z) (i : ImageMeta) : Prop := {
  iv_plane : ∃ p rest, planes i = p :: rest ∧ plane_in size p ∧ u32 (plane_stride p) ∧
    (format i = Nv12 → plane_size p + 4095 ≤ U64_MAX ∧ ∃ q, rest = [q] ∧ plane_in size q) ∧
    (storage_format i = Bgra8Unorm →
     plane_stride p * (extent_height (extent i) - 1) + 4 * extent_width (extent i) ≤ plane_size p);
  iv_texture : ∀ t, texture i = Some t → 1 ≤ ImageLayout.mip_levels t ∧ 0 ≤ layer_stride t;
}.

Lemma new_ensures w h m n :
  u32 w → u32 h → u32 m → u32 n →
  ensures (λ l, layout_ok l ∧ ImageLayout.mip_levels l = m) (LinearTextureLayout_new w h m n).
Proof.
  intros [? _] [? _] [? _] [? _]. apply ensures_eq.
  - unfold LinearTextureLayout_new. destruct (_ || _); [done|].
    apply (ensures_no_panic (λ _, True)). repeat (apply ensures_bind, ensures_ok_or; intros ? _).
    apply ensures_bind. eapply ensures_mono; [apply (ensures_foldM (λ _ _, True)); [done|]|].
    + intros _ l _ s _ _. unfold chain_step. apply ensures_bind, ensures_ok_or. intros ? _.
      apply ensures_bind. apply (ensures_mono (λ _, True)); [by case_match; [apply ensures_ok_or|]|].
      intros r _. by apply ensures_ok_or.
    + intros chain _. apply ensures_bind, ensures_ok_or. intros aligned _. apply ensures_bind.
      apply (ensures_mono (λ _, True)); [by case_match|]. intros st _.
      apply ensures_bind, ensures_ok_or. by intros.
  - intros l Hl. apply new_ok in Hl; naive_solver.
Qed.

Lemma validate_nv12_ok size i max_pitch :
  image_typed i → u32 max_pitch → yields (validate_nv12 size i max_pitch) (λ _, image_valid size i).
Proof.
  intros [[? Hw] [? Hh] HP _ _] [_ Hm]. unfold validate_nv12.
  destruct (planes i) as [|p0 [|p1 [|]]] eqn:EP; try done.
  apply Forall_cons in HP as [[? Hs0 ?] [[? Hs1 ?] _]%Forall_cons].
  apply yields_require_bind; [done|]. intros E. bool_to_prop.
  apply yields_require_bind; [done|]. unfold nv12_plane_ok. simpl. intros E1. bool_to_prop.
  apply yields_require; [done|]. intros E2. bool_to_prop.
  destruct (checked_add U64_MAX (plane_offset p0) _) eqn:C0; [|done].
  destruct (checked_add U64_MAX (plane_offset p1) _) eqn:C1; [|done].
  apply checked_add_Some in C0 as [-> ?], C1 as [-> ?]. bool_to_prop. unfold u32, u64, U64_MAX in *.
  assert (0 < plane_size p0) by nia. assert (0 < extent_height (extent i) / 2) by zlia.
  assert (0 < plane_size p1) by nia.
  split.
  - exists p0, [p1]. split_and!; [done|unfold plane_in; lia|unfold u32; lia..| |].
    + intros _. split; [unfold U64_MAX; nia|]. exists p1. split; [done|]. unfold plane_in. lia.
    + intros HB. rewrite HB in *. done.
  - intros t Ht. by rewrite Ht in *.
Qed.

Lemma depth32_layout_size w h l :
  u32 w → u32 h → depth32_tile6_3_layout w h = Some l →
  4 * w ≤ d32_row_pitch l ∧ 0 < d32_layer_size l ∧
  d32_row_pitch l * (h - 1) + 4 * w ≤ d32_layer_size l.
Proof.
  unfold u32. intros Hw Hh. unfold depth32_tile6_3_layout.
  destruct ((w =? 0) || (h =? 0)) eqn:E; [done|]. bool_to_prop.
  unfold checked_mul at 1. destruct (Z.leb_spec (w * 4) U32_MAX); [|done].
  unfold DEPTH32_PITCH_ALIGNMENT, DEPTH32_HEIGHT_ALIGNMENT, DEPTH32_LAYER_ALIGNMENT.
  destruct (align_up_u32 (w * 4) 256) as [p|] eqn:E1; [|done].
  destruct (align_up_u32 h 16) as [q|] eqn:E2; [|done].
  unfold checked_mul. destruct (Z.leb_spec (p * q) U64_MAX); [|done].
  destruct (align_up_u64 (p * q) 4096) as [n|] eqn:E3; [|done]. intros [= <-]. simpl.
  apply (align_up_u32_Some _ 256 8) in E1 as [_ ->]; [|lia|done].
  apply (align_up_u32_Some _ 16 4) in E2 as [_ ->]; [|lia|done].
  apply (align_up_u64_Some _ 4096 12) in E3 as [_ ->]; [|lia|done].
  pose proof (round_up_bounds (w * 4) 256 ltac:(lia)). pose proof (round_up_bounds h 16 ltac:(lia)).
  pose proof (round_up_bounds (round_up (w * 4) 256 * round_up h 16) 4096 ltac:(lia)). nia.
Qed.

Section Input.
Context `{S : !SgfxCore} {L : SgfxCoreLaws S}.

Lemma required_bytes_ok i p row max_pitch :
  image_typed i → plane_typed p → 0 < row →
  (storage_format i = Bgra8Unorm → row = 4 * extent_width (extent i)) →
  yields (required_bytes i p row max_pitch) (λ n, 0 < n ∧
    (storage_format i = Bgra8Unorm →
     plane_stride p * (extent_height (extent i) - 1) + 4 * extent_width (extent i) ≤ n)).
Proof.
  intros [[? Hw] [? Hh] _ _ _] [? [Hs _] ?] Hr HB. unfold required_bytes.
  assert (HT : ∀ m, yields (let? layout := ok_or (depth32_tile6_3_layout (extent_width (extent i))
                                (extent_height (extent i))) Overflow in
        if negb (plane_stride p =? d32_row_pitch layout)
           || negb (plane_size p =? d32_layer_size layout)
        then Err InvalidResource
        else Ok (d32_layer_size layout)) (λ n, 0 < n ∧ (storage_format i = m →
     plane_stride p * (extent_height (extent i) - 1) + 4 * extent_width (extent i) ≤ n))).
  { intros m. apply yields_ok_or_bind; [done|]. intros l (? & ? & ?)%depth32_layout_size; [|done..].
    apply yields_if; intros E; [done|]. bool_to_prop. split; [done|]. intros _. by rewrite H4. }
  destruct (modifier i); [|by apply yields_if; intros _; [|apply HT]..].
  apply yields_if; intros E; [done|]. apply yields_if; intros E'; [done|].
  eapply yields_bind; [by apply (yields_sub_or_panic _ _ (λ a, a = extent_height (extent i) - 1)); [lia|]|].
  intros ? ->. apply yields_ok_or; [done|]. intros n Hn.
  destruct (checked_mul _ _ _) as [b|] eqn:Eb; [|done].
  apply checked_mul_Some in Eb as [-> _]. apply checked_add_Some in Hn as [-> _].
  split; [nia|]. intros HF. rewrite (HB HF). lia.
Qed.

Lemma texture_layout_ok size i p :
  image_typed i → yields (validate_texture_layout size i p)
    (λ _, ∀ t, texture i = Some t → 1 ≤ ImageLayout.mip_levels t ∧ 0 ≤ layer_stride t).
Proof.
  intros [[_ Hw] [_ Hh] _ _ HT]. unfold validate_texture_layout.
  destruct (texture i) as [t|]; [|done]. destruct (HT t eq_refl). clear HT.
  eapply yields_bind; [by apply yields_map_err, new_ensures|]. intros l [HL _].
  apply yields_require; [done|]. intros E. bool_to_prop. subst.
  intros ? [= <-]. pose proof (ok_mips t HL). destruct (ok_stride t HL) as [_ ?]. lia.
Qed.

Lemma validate_image_layout_ok size i max_pitch :
  image_typed i → u32 max_pitch →
  yields (validate_image_layout size i max_pitch) (λ _, image_valid size i).
Proof.
  intros HI Hm. unfold validate_image_layout. apply yields_if; intros EF.
  { by apply validate_nv12_ok. }
  bool_to_prop. destruct (planes i) as [|p [|]] eqn:EP; [done| |done].
  pose proof (it_planes i HI) as HP. rewrite EP in HP. apply Forall_cons in HP as [HP _].
  eapply yields_bind; [by apply texture_layout_ok|]. intros [] HT.
  apply yields_ok_or_bind; [done|]. intros pixel Hpx.
  apply yields_ok_or_bind; [done|]. intros row [-> ?]%checked_mul_Some.
  pose proof (bytes_range _ _ Hpx). destruct (it_width i HI).
  eapply yields_bind; [apply required_bytes_ok; [done|done|nia|]|].
  { intros HB. rewrite HB, bytes_bgra in Hpx. injection Hpx as <-. lia. }
  intros n [Hn HB]. apply yields_ok_or_bind; [done|]. intros e [-> ?]%checked_add_Some.
  apply yields_if; intros E; [done|]. bool_to_prop. destruct HP as [[? _] ? [? _]].
  split; [|done]. exists p, []. split_and!; [done|unfold plane_in; lia|done| |].
  - intros HF. rewrite HF in EF. done.
  - intros HF. specialize (HB HF). lia.
Qed.

(** ** Tables and surfaces *)

Definition resource_typed (r : ResourceMeta) : Prop :=
  u32 (res_id r) ∧ u64 (res_size r) ∧
  match res_kind r with Image i => image_typed i | Buffer _ => True end.

Context (table : list ResourceMeta) (Htable : Forall resource_typed table).
Context (max_pitch : Z) (Hpitch : u32 max_pitch).

Definition sizes_of (id : Z) : option Z := res_size <$> List.find (λ r, res_id r =? id) table.

#[local] Abbreviation surface_ok := (surface_ok sizes_of).
#[local] Abbreviation object_within := (object_within sizes_of).

(** A resource the table has under its own identity. *)
Definition listed (r : ResourceMeta) : Prop :=
  resource_typed r ∧ sizes_of (res_id r) = Some (res_size r).

Lemma find_resource_ok id : yields (find_resource table id) (λ r, listed r ∧ res_id r = id).
Proof using Htable.
  unfold find_resource. apply yields_ok_or; [done|]. intros r Hr.
  pose proof (List.find_some _ _ Hr) as [Hin Hid%Z.eqb_eq]. split; [|done].
  split; [by eapply Forall_forall, list_elem_of_In|]. unfold sizes_of. by rewrite Hid, Hr.
Qed.

(** What the surface of an image is. *)
Record surface_of (r : ResourceMeta) (s : Surface) : Prop := {
  sf_ok : surface_ok s;
  sf_object : surf_object s = res_id r;
  sf_rows : ∀ i, res_kind r = Image i → storage_format i = Bgra8Unorm →
    surf_stride s * (height s - 1) + 4 * width s ≤ surf_size s;
}.

Lemma plane_object r p : listed r → plane_in (res_size r) p → object_within (res_id r) (plane_offset p) (plane_size p).
Proof. intros [_ HS] (? & ? & ?). by exists (res_size r). Qed.

Lemma require_image_surface_ok r required sampling :
  listed r → yields (require_image_surface r required sampling max_pitch) (surface_of r).
Proof using L Hpitch.
  intros HL. unfold require_image_surface. pose proof HL as [(_ & _ & HT) _].
  destruct (res_kind r) as [|i] eqn:EK; [done|]. apply yields_if; intros E; [done|].
  eapply yields_bind; [by apply validate_image_layout_ok|].
  intros [] [(p & rest & EP & HP & Hs & HN & HB) HX]. rewrite EP.
  unfold Prelude.index at 1. simpl.
  eapply (yields_bind _ _ (λ o, ∀ n, o = Some n → conversion i ≠ None ∧
    ∃ q, rest = [q] ∧ uv_offset n = plane_offset q ∧ uv_size n = plane_size q)).
  { destruct (conversion i) as [c|] eqn:EC; [|done].
    destruct (HN (it_conversion i HT ltac:(by rewrite EC))) as (_ & q & -> & _). simpl.
    intros n [= <-]. split; [done|]. by exists q. }
  intros nv HNV. simpl. split; simpl; [|done|].
  - destruct (it_width i HT), (it_height i HT).
    split; simpl; [by apply plane_object|done|done|done|by case_match; [right|left]| | |].
    + destruct (texture i) as [t|] eqn:ET; [|done]. by apply HX.
    + destruct (texture i) as [t|] eqn:ET; [by apply HX|]. destruct HP as (_ & ? & _). lia.
    + intros n Hn. destruct (HNV n Hn) as (HC & q & -> & -> & ->).
      destruct (HN (it_conversion i HT HC)) as (? & ? & [= <-] & ?). split; [|done].
      by apply plane_object.
  - rewrite EK. intros ? [= <-] HF. by apply HB.
Qed.

Lemma require_target_surface_ok r required :
  listed r → yields (require_target_surface r required max_pitch) (surface_of r).
Proof using L Hpitch.
  intros HL. unfold require_target_surface. destruct (res_kind r) eqn:EK; [done|].
  apply yields_if; intros E; [done|]. by apply require_image_surface_ok.
Qed.

Lemma require_depth_surface_ok r w h :
  listed r → u32 w → u32 h → yields (require_depth_surface r w h max_pitch) surface_ok.
Proof using L Hpitch.
  intros HL Hw Hh. unfold require_depth_surface. pose proof HL as [(_ & _ & HT) _].
  destruct (res_kind r) as [|i] eqn:EK; [done|]. apply yields_if; intros E; [done|].
  eapply yields_bind; [by apply validate_image_layout_ok|].
  intros [] [(p & rest & EP & HP & Hs & _ & _) _]. rewrite EP. simpl.
  bool_to_prop. destruct (it_width i HT), (it_height i HT). destruct HP as (? & ? & ?) eqn:EHP.
  split; simpl; [by apply plane_object|split; [done|lia]..|done|by right|done|lia|done].
Qed.

Lemma validate_rect_ok r s :
  valid_rect r → yields (validate_rect r s) (λ _,
    rect_x r + rect_width r ≤ width s ∧ rect_y r + rect_height r ≤ height s).
Proof.
  intros (? & ? & ? & ? & ? & ?). unfold validate_rect. apply yields_if; intros E; [done|]. bool_to_prop.
  destruct (checked_add U32_MAX (rect_x r) _) eqn:EX; [|done].
  destruct (checked_add U32_MAX (rect_y r) _) eqn:EY; [|done].
  apply checked_add_Some in EX as [-> _], EY as [-> _]. bool_to_prop. unfold u32 in *.
  eapply yields_bind; [by apply (yields_sub_or_panic _ _ (λ _, True)); [lia|]|]. intros x _.
  apply yields_if; intros _; [done|].
  eapply yields_bind; [by apply (yields_sub_or_panic _ _ (λ _, True)); [lia|]|]. intros y _.
  apply yields_if; intros _; [done|]. simpl. lia.
Qed.

Lemma validate_range_ok size offset length :
  yields (validate_range size offset length) (λ _, length ≠ 0 ∧ offset + length ≤ size).
Proof.
  unfold validate_range. apply yields_if; intros E; [done|]. bool_to_prop.
  destruct (checked_add _ _ _) eqn:EC; [|done]. apply checked_add_Some in EC as [-> _].
  bool_to_prop. done.
Qed.

(** ** Texture uploads *)

Lemma yields_foldM {St X} (P : nat → St → Prop) (f : St → X → outcome CompileError St) l s :
  P 0%nat s → (∀ k x s, l !! k = Some x → P k s → yields (f s x) (P (Datatypes.S k))) →
  yields (foldM f s l) (P (length l)).
Proof.
  revert P s. induction l as [|x l IH]; intros P s H0 HS; simpl; [done|].
  eapply yields_bind; [by apply (HS 0%nat)|]. intros s' Hs'.
  apply (IH (λ k, P (Datatypes.S k))); [done|]. intros k y s'' Hk. by apply (HS (Datatypes.S k)).
Qed.

Lemma swizzle_ok n source :
  length source = (4 * n)%nat → Forall u8 source →
  length (swizzle_rgba source) = (4 * n)%nat ∧ Forall u8 (swizzle_rgba source).
Proof.
  revert source. induction n as [|n IH]; intros source HL HU.
  { by destruct source. }
  destruct source as [|r [|g [|b [|a source]]]]; simpl in HL; try lia.
  do 4 (apply Forall_cons in HU as [? HU]). destruct (IH source) as [IL IU]; [lia|done|].
  split; [simpl; rewrite IL; lia|]. simpl. by repeat apply Forall_cons_2.
Qed.

Lemma alpha_row_ok source :
  Forall u8 source →
  length (source ≫= λ alpha, [0; 0; 0; alpha]) = (4 * length source)%nat ∧
  Forall u8 (source ≫= λ alpha, [0; 0; 0; alpha]).
Proof.
  induction 1 as [|a source Ha HU [IL IU]]; [done|]. rewrite bind_cons, length_app, IL.
  split; [cbn [length]; lia|]. apply Forall_app_2; [|done]. by repeat apply Forall_cons_2.
Qed.

Lemma convert_row_ok f source n pixel :
  Forall u8 source → bytes_per_pixel f = Some pixel → len source = n * pixel → 0 ≤ n →
  yields (convert_row f source) (λ l, len l = n * 4 ∧ Forall u8 l).
Proof using L.
  intros HU HP HL Hn. destruct f; try done; simpl.
  - rewrite bytes_bgra in HP. injection HP as <-. done.
  - rewrite bytes_rgba in HP. injection HP as <-. unfold len in *.
    destruct (swizzle_ok (Z.to_nat n) source) as [-> ?]; [lia|done|]. split; [lia|done].
  - rewrite bytes_r8 in HP. injection HP as <-. unfold len in *.
    destruct (alpha_row_ok source HU) as [-> ?]. split; [lia|done].
Qed.

Lemma range_lookup n k x : range n !! k = Some x → x = Z.of_nat k ∧ x < n.
Proof.
  unfold range. rewrite list_lookup_fmap. intros (j & [-> Hj]%lookup_seq & ->)%fmap_Some. simpl. lia.
Qed.

Lemma upload_pixels_ok f bpr w pixel data h :
  Forall u8 data → bytes_per_pixel f = Some pixel → 0 ≤ w → 0 ≤ bpr → 0 ≤ h →
  bpr * (h - 1) + w * pixel ≤ len data →
  yields (foldM (upload_pixels f bpr (w * pixel) data) [] (range h))
    (λ l, len l = h * (w * 4) ∧ Forall u8 l).
Proof using L.
  intros HU HP Hw Hb Hh HL. pose proof (bytes_range _ _ HP).
  eapply yields_mono.
  { apply (yields_foldM (λ k l, len l = Z.of_nat k * (w * 4) ∧ Forall u8 l)); [by split; [|constructor]|].
    intros k x l [-> Hx]%range_lookup [Hlen HF]. unfold upload_pixels, get_range.
    rewrite (proj2 (Z.leb_le _ _)) by nia. rewrite (proj2 (Z.leb_le _ (Z.of_nat (length data)))).
    2: { unfold len in HL. nia. }
    simpl. eapply yields_bind.
    { apply (convert_row_ok _ _ w pixel); [by apply Forall_slice|done| |done].
      rewrite length_slice; unfold len in *; nia. }
    intros row [Hr HR]. apply yields_ret. rewrite len_app, Hlen, Hr.
    split; [lia|by apply Forall_app_2]. }
  intros l. rewrite length_range. intros [-> ?]. split; [lia|done].
Qed.

(** ** Draws *)

Record uniforms_typed (u : DrawUniforms) : Prop := {
  ut_transform : len (transform u) = 16 ∧ Forall u32 (transform u);
  ut_color : u32 (red (uniform_color u)) ∧ u32 (green (uniform_color u)) ∧
             u32 (blue (uniform_color u)) ∧ u32 (alpha (uniform_color u));
}.

Lemma uniform_words_ok u n :
  uniforms_typed u → len (uniform_words u n) = 32 ∧ Forall u32 (uniform_words u n).
Proof.
  intros [[HL HU] (? & ? & ? & ?)]. unfold uniform_words.
  rewrite take_app_le by (unfold len in HL; lia).
  assert (∀ l, length l = 12%nat → Forall u32 l →
    len (take 16 (transform u) ++ [red (uniform_color u); green (uniform_color u);
      blue (uniform_color u); alpha (uniform_color u)] ++ l) = 32 ∧
    Forall u32 (take 16 (transform u) ++ [red (uniform_color u); green (uniform_color u);
      blue (uniform_color u); alpha (uniform_color u)] ++ l)) as HX.
  { intros l Hl Hu. split; [unfold len in *; rewrite !length_app, length_take, Hl; cbn [length]; lia|].
    apply Forall_app_2; [by apply Forall_take|]. by repeat apply Forall_cons_2. }
  destruct n as [n|]; apply HX; [done| |done|by apply Forall_replicate].
  apply Forall_fmap, Forall_true. intros x. apply f32_to_bits_u32.
Qed.

Lemma sampler_words_ok linear sampler texture :
  (∀ t, texture = Some t → 1 ≤ mip_levels t) →
  yields (sampler_words linear sampler texture) (λ l, len l = 4 ∧ Forall u32 l).
Proof.
  intros HT. unfold sampler_words. set (base := if linear then _ else _).
  assert (len base = 4 ∧ Forall u32 base ∧ u32 (base.[1] .&~ 0x40)) as (HB & HU & HW).
  { subst base. destruct linear; split_and!; compute_decision. }
  destruct sampler as [s|]; [|done].
  eapply (yields_bind _ _ (λ _, True)).
  { destruct texture as [t|]; [|done]. apply yields_sub_or_panic; [by apply HT|done]. }
  intros levels _. apply yields_ret. split; [reflexivity|].
  assert (∀ i, u32 (base.[i])) as HN.
  { intros i. destruct (nth_in_or_default i base 0) as [Hi| ->]; [|by vm_compute].
    by eapply Forall_forall, list_elem_of_In. }
  generalize (f32_of_u32 levels). intros top. clearbody base. clear HB HU.
  repeat apply Forall_cons_2; [..|apply HN|apply HN|apply Forall_nil_2].
  - apply u32_lor; [apply HN|]. by destruct (bool_decide _).
  - apply u32_lor; [destruct (0 <? _); [exact HW|apply HN]|]. apply u32_lor; apply u32_as_u32.
Qed.

Lemma draw_fixed_state_ok d :
  yields (draw_fixed_state d) (λ a, payload (fetch_words a.1)).
Proof.
  unfold draw_fixed_state. eapply (yields_bind _ _ (λ l, payload (fetch_words l))); [|done].
  repeat case_match; try done; compute_decision.
Qed.

Lemma pipeline_variant_ok d :
  yields (pipeline_variant d) (λ _, u32 (stride (vertex_buffer d))).
Proof. unfold pipeline_variant. repeat case_match; try done; by vm_compute. Qed.

Lemma sampled_surface_ok i st d :
  resources i = table → max_linear_pitch (capabilities i) = max_pitch →
  yields (sampled_surface i st d) (λ o, ∀ t, o = Some t → surface_ok t).
Proof using L Htable Hpitch.
  intros HR HP. unfold sampled_surface. rewrite HR, HP.
  assert (yields (let? id := ok_or (st_texture st) InvalidState in
      let? resource := find_resource table id in
      let? t := require_image_surface resource sampled true max_pitch in Ok (Some t))
    (λ o, ∀ t, o = Some t → surface_ok t)) as HY.
  { apply yields_ok_or_bind; [done|]. intros id _.
    eapply yields_bind; [apply find_resource_ok|]. intros r [Hr _].
    eapply yields_bind; [by apply require_image_surface_ok|]. intros s Hs. simpl.
    intros ? [= <-]. by apply sf_ok in Hs. }
  by destruct (fragment d).
Qed.

Lemma draw_depth_ok i p target d :
  resources i = table → max_linear_pitch (capabilities i) = max_pitch → surface_ok target →
  yields (draw_depth i p target d) (λ o, ∀ s, o = Some s → surface_ok (dd_target s)).
Proof using L Htable Hpitch.
  intros HR HP HT. unfold draw_depth. rewrite HR, HP.
  destruct (ps_depth p) as [id|], (depth_state d) as [ds|]; try done.
  apply yields_if; intros _; [done|].
  eapply yields_bind; [apply find_resource_ok|]. intros r [Hr _].
  destruct (so_width _ _ HT), (so_height _ _ HT).
  eapply yields_bind; [by apply require_depth_surface_ok|]. intros s Hs. simpl. by intros ? [= <-].
Qed.

(** The operands of a draw call. *)
Definition call_ok (call : DrawCall) : Prop :=
  match call with
  | NonIndexed first count => u32 first ∧ u32 count
  | Indexed i => 0 ≤ indexed_vertex_size i ∧ u32 (base_vertex i) ∧ u32 (index_count i) ∧
      u32 (first_index i) ∧ u32 (max_indices i) ∧
      object_within (index i) (index_offset i) (index_size i)
  end.

Record state_typed (st : State) : Prop := {
  st_batch : pass st = None → draw_batch_started st = false;
  st_area : ∀ p, pass st = Some p → valid_rect (ps_area p);
  st_vertices : ∀ b, st_vertex st = Some b → 0 ≤ bb_offset b;
  st_indices : ∀ b, st_index st = Some b → 0 ≤ ib_offset b;
  st_uniform : ∀ u, st_uniforms st = Some u → uniforms_typed u;
  st_scissors : ∀ r, st_scissor st = Some r → valid_rect r;
}.

Lemma validate_sample_state_ok st pl : yields (validate_sample_state table st pl) (λ _, True).
Proof using Htable.
  unfold validate_sample_state.
  assert (HY : ∀ mode, yields (let? texture := ok_or (st_texture st) InvalidState in
    let? sampler := ok_or (st_sampler st) InvalidState in
    if has_compare sampler || negb (bool_decide (min_filter sampler = mag_filter sampler))
       || negb (bool_decide (address_u sampler = ClampToEdge))
       || negb (bool_decide (address_v sampler = ClampToEdge))
    then Err UnsupportedFeature
    else
      let? resource := find_resource table texture in
      match res_kind resource with
      | Buffer _ => Err InvalidResource
      | Image image =>
          let format_matches :=
            match mode with
            | Rgba | RgbIgnoreAlpha =>
                match format image with Bgra8Unorm | Rgba8Unorm | Ir.Nv12 => true | _ => false end
            | AlphaMask => bool_decide (format image = R8Unorm)
            end in
          if negb format_matches
             || negb match storage_format image with Bgra8Unorm | Ir.Nv12 => true | _ => false end
             || negb (sampled (usage image))
          then Err InvalidResource
          else Ok (bool_decide (min_filter sampler = Linear))
      end) (λ _, True)).
  { intros mode. apply yields_ok_or_bind; [done|]. intros id _. apply yields_ok_or_bind; [done|].
    intros s _. apply yields_if; intros _; [done|].
    eapply yields_bind; [apply find_resource_ok|]. intros r _. destruct (res_kind r); [done|].
    by apply yields_if. }
  by destruct (fragment (descriptor pl)).
Qed.

Lemma require_buffer_usage_ok r required : yields (require_buffer_usage r required) (λ _, True).
Proof. unfold require_buffer_usage. destruct (res_kind r); [by apply yields_require|done]. Qed.

Lemma require_draw_state_ok st :
  yields (require_draw_state st) (λ '(p, pl, v, u),
    pass st = Some p ∧ st_pipeline st = Some pl ∧ st_vertex st = Some v ∧ st_uniforms st = Some u).
Proof. unfold require_draw_state. repeat (apply yields_ok_or_bind; [done|]; intros ? ?). done. Qed.

Lemma draw_extent_ok d call :
  call_ok call → yields (draw_extent d call) (λ x, u32 (stride (vertex_buffer d)) → 0 ≤ x.1).
Proof.
  destruct call as [first count|i]; simpl; [|by intros (? & _)]. intros [[? _] [? _]].
  apply yields_ok_or_bind; [done|]. intros n [-> _]%checked_add_Some.
  apply yields_ok_or_bind; [done|]. intros b [-> _]%checked_mul_Some. simpl. unfold u32. nia.
Qed.

Section Operations.
Context (i : CompileInput) (Hresources : resources i = table)
        (Hmax : max_linear_pitch (capabilities i) = max_pitch).

Lemma prepare_draw_ok st call :
  state_typed st → call_ok call → yields (prepare_draw i st call) (draw_ok sizes_of).
Proof using L Htable Hpitch Hresources Hmax.
  intros HS HC. unfold prepare_draw.
  eapply yields_bind; [apply require_draw_state_ok|]. intros [[[p pl] v] u] (HP & Hpl & HV & HU).
  eapply yields_bind; [by apply draw_extent_ok|]. intros [bytes count] HB. simpl in HB.
  apply yields_if; intros _; [done|]. rewrite Hresources, Hmax.
  eapply yields_bind; [apply find_resource_ok|]. intros tr [Htr _].
  eapply yields_bind; [by apply require_target_surface_ok|]. intros target [Htarget _ _].
  apply yields_if; intros _; [done|].
  eapply yields_bind; [apply validate_sample_state_ok|]. intros linear _.
  eapply yields_bind; [apply find_resource_ok|]. intros vr [Hvr Hid].
  eapply yields_bind; [apply require_buffer_usage_ok|]. intros _ _.
  eapply yields_bind; [apply validate_range_ok|]. intros [] [Hne Hle].
  eapply yields_bind; [by apply (yields_to_u32_or _ _ (λ _, True))|]. intros _ _.
  apply yields_if; intros _; [done|].
  eapply yields_bind; [apply pipeline_variant_ok|]. intros plain Hst. simpl in Hst.
  eapply yields_bind; [apply draw_fixed_state_ok|]. intros [attributes so] Hattr.
  eapply yields_bind; [by apply sampled_surface_ok|]. intros texture Htex.
  eapply (yields_bind _ _ (λ _, True)).
  { destruct (is_nv12 texture); [|done]. unfold nv12_variant. by repeat case_match. }
  intros variant _.
  eapply yields_bind; [by apply draw_depth_ok|]. intros depth Hdepth.
  apply yields_ok_or_bind; [done|]. intros full _.
  eapply yields_bind; [apply sampler_words_ok|].
  { intros t Ht. by apply (so_levels sizes_of t), Htex. }
  intros sampler [Hs1 Hs2]. apply yields_ret.
  pose proof (st_area st HS p HP). specialize (HB Hst).
  split; simpl; try done.
  - destruct (st_scissor st) as [r|] eqn:ER; [by apply (st_scissors st HS)|done].
  - exists (res_size vr). rewrite <-Hid. pose proof (st_vertices st HS v HV).
    split_and!; [by destruct Hvr|done|lia|done].
  - by apply uniform_words_ok, (st_uniform st HS).
  - unfold cull_word. destruct (cull_mode _), (bool_decide _); by vm_compute.
  - destruct call; [done|]. by destruct HC as (_ & ? & ? & ? & ? & ?).
Qed.

Lemma prepare_indexed_ok st count first base :
  state_typed st → u32 count → u32 first → base < 0x80000000 →
  yields (prepare_indexed i st count first base) call_ok.
Proof using L Htable Hresources.
  intros HS Hcount Hfirst Hbase. unfold prepare_indexed.
  eapply yields_bind; [apply require_draw_state_ok|]. intros [[[p pl] v] u] (HP & Hpl & HV & HU).
  apply yields_ok_or_bind; [done|]. intros ib HI.
  apply yields_if; intros Eb; [done|]. bool_to_prop. rewrite Hresources.
  eapply yields_bind; [apply find_resource_ok|]. intros ir [[Hir Hsz] Hid].
  eapply yields_bind; [apply require_buffer_usage_ok|]. intros _ _.
  assert (0 < byte_size (ib_format ib)) as He.
  { destruct (ib_format ib); [rewrite byte_size_16|rewrite byte_size_32]; done. }
  apply yields_ok_or_bind; [done|]. intros available Hav.
  eapply yields_bind; [by apply (yields_to_u32_or _ _ (λ a, a = available / byte_size (ib_format ib) ∧ a ≤ U32_MAX))|].
  intros ? [-> Hm].
  apply yields_ok_or_bind; [done|]. intros n [-> _]%checked_add_Some.
  apply yields_if; intros E; [done|]. bool_to_prop.
  apply yields_ok_or_bind; [done|]. intros isz [-> _]%checked_mul_Some.
  eapply yields_bind; [apply find_resource_ok|]. intros vr _.
  eapply yields_bind; [apply require_buffer_usage_ok|]. intros _ _.
  unfold checked_sub in *. destruct (Z.leb_spec (ib_offset ib) (res_size ir)); [|done].
  injection Hav as <-.
  apply yields_ok_or_bind; [done|]. intros vsz Hvsz.
  destruct (Z.leb_spec (bb_offset v) (res_size vr)); [|done]. injection Hvsz as <-.
  apply yields_ok_or_bind; [done|]. intros minimum _. apply yields_if; intros _; [done|].
  apply yields_ret. simpl. unfold u32, U32_MAX in *.
  pose proof (st_indices st HS ib HI).
  pose proof (Z.mul_div_le (res_size ir - ib_offset ib) (byte_size (ib_format ib)) He).
  split_and!; try lia. exists (res_size ir). rewrite <-Hid. split_and!; [done|lia|nia|lia].
Qed.

#[local] Abbreviation inv := (inv sizes_of (max_pm4_words (capabilities i))).

Lemma try_reserve_then {A} known active (k : em A) Q :
  triple (inv known 0 active) k Q → triple (inv known 0 active) (try_reserve;; k) Q.
Proof. intros HK. eapply triple_seq; [apply try_reserve_ok|done]. Qed.

Lemma emit_texture_upload_ok known active id area bpr data :
  valid_rect area → 0 ≤ bpr → Forall u8 data →
  triple (inv known 0 active) (emit_texture_upload table id area bpr data max_pitch)
    (λ _, inv known 0 active).
Proof using L Htable Hpitch.
  intros HR Hb HU. unfold emit_texture_upload.
  eapply triple_lift_then; [apply find_resource_ok|]. intros r [Hr Hid].
  eapply triple_lift_then; [by apply require_image_surface_ok|]. intros s [Hs Ho Hrows].
  eapply triple_lift_then; [by apply validate_rect_ok|]. intros _ [Hx Hy].
  destruct (res_kind r) as [|image] eqn:EK; [by apply triple_fail|].
  eapply triple_lift_then; [by apply (yields_ok_or _ _ (λ p, bytes_per_pixel (format image) = Some p))|].
  intros pixel Hp. pose proof (bytes_range _ _ Hp).
  eapply triple_lift_then; [by apply (yields_checked_mul _ _ _ (λ a, a = rect_width area * pixel))|].
  intros ? ->. apply triple_if; [by apply triple_fail|].
  pose proof HR as ((? & _) & (? & _) & ? & ? & _).
  eapply triple_lift_then; [by apply (yields_sub_or_panic _ _ (λ a, a = rect_height area - 1)); [lia|]|].
  intros ? ->.
  eapply triple_lift_then; [apply (yields_ok_or _ _ (λ a, a = bpr * (rect_height area - 1) + rect_width area * pixel)); [done|]|].
  { intros a Ha. destruct (checked_mul _ _ _) eqn:E; [|done].
    apply checked_mul_Some in E as [-> _]. by apply checked_add_Some in Ha as [-> _]. }
  intros ? ->. destruct (Z.ltb_spec (len data) (bpr * (rect_height area - 1) + rect_width area * pixel));
    [by apply triple_fail|].
  eapply triple_lift_then; [by apply (yields_checked_mul _ _ _ (λ a, a = rect_width area * 4))|]. intros ? ->.
  eapply triple_lift_then; [by apply (yields_checked_mul _ _ _ (λ a, True))|]. intros ? _.
  destruct (bool_decide_reflect (storage_format image = Bgra8Unorm)) as [HB|]; [|by apply triple_fail].
  simpl. apply try_reserve_then.
  eapply triple_lift_then; [apply upload_pixels_ok; [done|done|lia..]|]. intros pixels [HL HP].
  specialize (Hrows image eq_refl HB). destruct (so_object _ s Hs) as (sz & Hsz & ? & ? & ?).
  destruct (so_stride _ s Hs).
  eapply triple_lift_then; [apply (yields_ok_or _ _ (λ b, b = surf_offset s + rect_y area * surf_stride s + rect_x area * 4)); [done|]|].
  { intros b Hbb. destruct (checked_add _ _ _) eqn:E; [|done].
    apply checked_add_Some in E as [-> _]. by apply checked_add_Some in Hbb as [-> _]. }
  intros ? ->. apply (upload_rows_ok _ _ _ _ _ _ _ _ _ sz); [by rewrite <-Hid, <-Ho|nia|done|lia| |done|nia].
  intros k Hk. rewrite HL, Z.div_mul in Hk by lia.
  assert ((rect_y area + k) * surf_stride s ≤ (height s - 1) * surf_stride s) by nia. nia.
Qed.

(** What the types of the operations promise. *)
Definition operation_typed (op : Operation) : Prop :=
  match op with
  | WriteBuffer _ offset data => 0 ≤ offset ∧ Forall u8 data
  | WriteTexture _ area bpr data => valid_rect area ∧ 0 ≤ bpr ∧ Forall u8 data
  | CopyTextureToTexture _ sr _ dr | BlitTexture _ sr _ dr _ _ => valid_rect sr ∧ valid_rect dr
  | BeginRenderPass rp => valid_rect (pass_area rp) ∧
      match pass_depth rp with
      | Some d => match depth_load d with DepthClear v => u32 v | _ => True end
      | None => True
      end
  | SetVertexBuffer _ offset | SetIndexBuffer _ offset _ => 0 ≤ offset
  | SetUniforms u => uniforms_typed u
  | SetScissor (Some r) => valid_rect r
  | Draw count first => u32 count ∧ u32 first
  | DrawIndexed count first base => u32 count ∧ u32 first ∧ base < 0x80000000
  | _ => True
  end.

(** The batch the state remembers is the batch the emitter has open. *)
Definition running (st : State) (e : Emitter) : Prop :=
  inv [] 0 (draw_batch_started st) e ∧ state_typed st.

Lemma keep_state (m : em ()) st :
  state_typed st →
  triple (inv [] 0 (draw_batch_started st)) m (λ _, inv [] 0 (draw_batch_started st)) →
  triple (inv [] 0 (draw_batch_started st)) (m;; ret st) running.
Proof. intros HS Hm. eapply triple_seq; [exact Hm|]. by apply triple_ret. Qed.

Lemma begin_batch_ok st :
  triple (running st) (begin_draw_batch_if_needed st) (λ st' e, running st' e ∧ draw_batch_started st' = true).
Proof.
  intros e [H HS]. revert e H. unfold begin_draw_batch_if_needed.
  eapply triple_lift_then; [apply (yields_ok_or _ _ (λ p, pass st = Some p)); done|]. intros p Hp.
  destruct (draw_batch_started st) eqn:EB.
  - eapply triple_seq; [apply continue_draw_batch_ok|]. apply triple_ret. intros e H.
    split; [|done]. split; [by rewrite EB|done].
  - eapply triple_seq; [apply begin_draw_batch_ok|]. apply triple_ret. intros e H.
    split; [|done]. split; [done|]. destruct HS. split; try done. simpl. by rewrite Hp.
Qed.

Lemma emit_draw_ok st call :
  state_typed st → call_ok call →
  triple (inv [] 0 true) (emit_draw i st call) (λ _, inv [] 0 true).
Proof using L Htable Hpitch Hresources Hmax.
  intros HS HC. unfold emit_draw.
  eapply triple_lift_then; [by apply prepare_draw_ok|]. intros d Hd. by apply draw_batch_ok.
Qed.

Lemma emit_copy_ok known src sr dst dr :
  valid_rect sr → valid_rect dr →
  triple (inv known 0 false) (emit_copy i src sr dst dr) (λ _, inv known 0 false).
Proof using L Htable Hpitch Hresources Hmax.
  intros Hsr Hdr. unfold emit_copy. rewrite Hresources, Hmax. apply triple_if; [by apply triple_fail|].
  eapply triple_lift_then; [apply find_resource_ok|]. intros r [Hr _].
  eapply triple_lift_then; [apply find_resource_ok|]. intros r' [Hr' _].
  eapply triple_lift_then; [by apply require_target_surface_ok|]. intros s [Hs _ _].
  eapply triple_lift_then; [by apply require_target_surface_ok|]. intros d [Hd _ _].
  eapply triple_lift_then; [by apply validate_rect_ok|]. intros _ _.
  eapply triple_lift_then; [by apply validate_rect_ok|]. intros _ _.
  by apply blit_ok.
Qed.

Lemma emit_blit_texture_ok known src sr dst dr filter flips :
  valid_rect sr → valid_rect dr →
  triple (inv known 0 false) (emit_blit_texture i src sr dst dr filter flips) (λ _, inv known 0 false).
Proof using L Htable Hpitch Hresources Hmax.
  intros Hsr Hdr. unfold emit_blit_texture. rewrite Hresources, Hmax.
  apply triple_if; [by apply triple_fail|].
  eapply triple_lift_then; [apply find_resource_ok|]. intros r [Hr _].
  eapply triple_lift_then; [by apply require_image_surface_ok|]. intros s [Hs _ _].
  eapply triple_lift_then; [apply find_resource_ok|]. intros r' [Hr' _].
  eapply triple_lift_then; [by apply require_image_surface_ok|]. intros d [Hd _ _].
  destruct (res_kind r), (res_kind r'); try by apply triple_fail.
  apply triple_if; [by apply triple_fail|].
  eapply triple_lift_then; [by apply validate_rect_ok|]. intros _ _.
  eapply triple_lift_then; [by apply validate_rect_ok|]. intros _ _.
  by apply blit_ok.
Qed.

Lemma state_reset p : (∀ q, p = Some q → valid_rect (ps_area q)) → state_typed (pass_reset p).
Proof. intros HP. by split. Qed.

Lemma begin_render_pass_ok st rp :
  operation_typed (BeginRenderPass rp) →
  triple (running st) (begin_render_pass i st rp) running.
Proof using L Htable Hpitch Hresources Hmax.
  intros [HA HD]. unfold begin_render_pass. destruct (pass st) as [p|] eqn:EP; [by apply triple_fail|].
  eapply triple_pre with (P' := inv [] 0 false).
  { intros e [H HS]. by rewrite (st_batch st HS EP) in H. }
  rewrite Hresources, Hmax.
  eapply triple_lift_then; [apply find_resource_ok|]. intros r [Hr _].
  eapply triple_lift_then; [by apply require_target_surface_ok|]. intros s [Hs _ _].
  eapply triple_lift_then; [by apply validate_rect_ok|]. intros _ _.
  eapply triple_bind with (Q := λ x e, inv [] 0 false e ∧
    ∀ ds v, x.2 = Some (ds, v) → surface_ok ds ∧ u32 v).
  { destruct (pass_depth rp) as [d|]; [|by apply triple_ret].
    eapply triple_lift_then; [apply find_resource_ok|]. intros r' [Hr' _].
    destruct (so_width _ s Hs), (so_height _ s Hs).
    eapply triple_lift_then; [by apply require_depth_surface_ok|]. intros ds Hds.
    apply triple_ret. intros e He. split; [done|]. intros ds' v. simpl.
    destruct (depth_load d); [done| |done]. by intros [= <- <-]. }
  intros [depth clear_value]. simpl. intros e [He HC]. revert e He.
  eapply triple_seq with (Q := inv [] 0 false).
  - destruct clear_value as [[ds v]|].
    + destruct (HC ds v eq_refl) as [? ?].
      destruct (pass_load rp); [by apply clear_depth_ok|by apply clear_color_and_depth_ok|by apply clear_depth_ok].
    + destruct (pass_load rp); [by apply triple_ret|by apply clear_ok|by apply triple_ret].
  - apply triple_ret. intros e He. split; [done|]. apply state_reset. by intros ? [= <-].
Qed.

Lemma end_render_pass_ok st : triple (running st) (end_render_pass st) running.
Proof.
  unfold end_render_pass. destruct (pass st) as [p|]; [|by apply triple_fail].
  eapply triple_pre with (P' := inv [] 0 (draw_batch_started st)); [by intros e [? _]|].
  eapply triple_seq with (Q := inv [] 0 false).
  - destruct (draw_batch_started st); [apply end_draw_batch_ok|by apply triple_ret].
  - apply triple_ret. intros e H. split; [done|]. by apply state_reset.
Qed.

Lemma outside_pass st :
  yields (require_outside_pass st) (λ _, pass st = None).
Proof. unfold require_outside_pass. by destruct (pass st). Qed.

Lemma inside_pass st : yields (require_inside_pass st) (λ p, pass st = Some p).
Proof. by apply yields_ok_or. Qed.

(** One operation. *)
Lemma operation_ok st op :
  operation_typed op → triple (running st) (step i st op) running.
Proof using L Htable Hpitch Hresources Hmax.
  intros HO e0 [H0 HS]. revert e0 H0. unfold step. rewrite Hresources, Hmax.
  pose proof (λ m, keep_state m st HS) as HR.
  assert (HB : pass st = None → draw_batch_started st = false) by apply (st_batch st HS).
  destruct op; simpl in HO.
  - eapply triple_lift_then; [apply outside_pass|]. intros _ _. destruct HO as [? ?].
    eapply triple_lift_then; [apply find_resource_ok|]. intros r [[_ Hr] Hid].
    eapply triple_lift_then; [apply require_buffer_usage_ok|]. intros _ _.
    eapply triple_lift_then; [apply validate_range_ok|]. intros _ [_ Hle].
    apply HR, (upload_buffer_ok _ _ _ _ _ _ _ _ (res_size r)); [by rewrite <-Hid|done..].
  - eapply triple_lift_then; [apply outside_pass|]. intros _ _. destruct HO as (? & ? & ?).
    by apply HR, emit_texture_upload_ok.
  - eapply triple_lift_then; [apply outside_pass|]. intros [] Hp. destruct HO as [? ?].
    apply HR. rewrite (HB Hp). by apply emit_copy_ok.
  - eapply triple_lift_then; [apply outside_pass|]. intros [] Hp. destruct HO as [? ?].
    apply HR. rewrite (HB Hp). by apply emit_blit_texture_ok.
  - intros e He. by apply begin_render_pass_ok.
  - intros e He. by apply end_render_pass_ok.
  - eapply triple_lift_then; [apply inside_pass|]. intros p Hp.
    eapply triple_lift_then; [by apply (yields_ok_or _ _ (λ _, True))|]. intros pl _.
    apply triple_ret. intros e He. split; [done|]. destruct HS. by split.
  - eapply triple_lift_then; [apply inside_pass|]. intros p Hp.
    eapply triple_lift_then; [apply find_resource_ok|]. intros r _.
    eapply triple_lift_then; [apply require_buffer_usage_ok|]. intros _ _.
    apply triple_if; [by apply triple_fail|].
    apply triple_ret. intros e He. split; [done|]. destruct HS. split; try done. by intros ? [= <-].
  - eapply triple_lift_then; [apply inside_pass|]. intros p Hp.
    eapply triple_lift_then; [apply find_resource_ok|]. intros r _.
    eapply triple_lift_then; [apply require_buffer_usage_ok|]. intros _ _.
    apply triple_if; [by apply triple_fail|].
    apply triple_ret. intros e He. split; [done|]. destruct HS. split; try done. by intros ? [= <-].
  - eapply triple_lift_then; [apply inside_pass|]. intros p Hp.
    eapply triple_lift_then; [apply find_resource_ok|]. intros r [Hr _].
    eapply triple_lift_then; [by apply require_image_surface_ok|]. intros s _.
    apply triple_ret. intros e He. split; [done|]. destruct HS. by split.
  - eapply triple_lift_then; [apply inside_pass|]. intros p Hp.
    apply triple_ret. intros e He. split; [done|]. destruct HS. by split.
  - eapply triple_lift_then; [apply inside_pass|]. intros p Hp.
    apply triple_ret. intros e He. split; [done|]. destruct HS. split; try done. by intros ? [= <-].
  - eapply triple_lift_then; [apply inside_pass|]. intros p Hp. apply triple_if; [by apply triple_fail|].
    apply triple_ret. intros e He. split; [done|]. destruct HS. split; try done.
    simpl. by intros ? ->.
  - eapply triple_lift_then; [apply inside_pass|]. intros p Hp.
    eapply triple_lift_then; [apply find_resource_ok|]. intros r [Hr _].
    eapply triple_lift_then; [by apply require_target_surface_ok|]. intros s _.
    eapply triple_lift_then; [by apply (yields_ok_or _ _ (λ _, True))|]. intros ext _.
    apply triple_if; [by apply triple_fail|].
    apply triple_ret. intros e He. split; [done|]. destruct HS. by split.
  - intros e He. destruct HO. eapply triple_bind; [apply begin_batch_ok| |by split].
    intros st'. eapply triple_pre with (P' := λ e, running st' e ∧ draw_batch_started st' = true); [done|].
    intros e' [[He' HS'] HB']. rewrite HB' in He'. revert e' He'.
    eapply triple_seq; [by apply emit_draw_ok|]. apply triple_ret. intros e' He'.
    split; [by rewrite HB'|done].
  - intros e He. destruct HO as (? & ? & ?). eapply triple_bind; [apply begin_batch_ok| |by split].
    intros st'. eapply triple_pre with (P' := λ e, running st' e ∧ draw_batch_started st' = true); [done|].
    intros e' [[He' HS'] HB']. rewrite HB' in He'. revert e' He'.
    eapply triple_seq with (Q := inv [] 0 true).
    + unfold emit_draw_indexed. eapply triple_lift_then; [by apply prepare_indexed_ok|].
      intros call Hc. by apply emit_draw_ok.
    + apply triple_ret. intros e' He'. split; [by rewrite HB'|done].
Qed.

Lemma run_operations_ok ops st :
  Forall operation_typed ops → triple (running st) (run_operations i st ops) running.
Proof using L Htable Hpitch Hresources Hmax.
  intros HO. revert st. induction HO as [|op ops Hop _ IH]; intros st; simpl; [by apply triple_ret|].
  eapply triple_bind; [by apply operation_ok|]. intros st'. apply IH.
Qed.
End Operations.

(** ** Tables *)

Lemma validate_resources_ok before l :
  Forall resource_typed l → yields (validate_resources before l max_pitch) (λ _, True).
Proof using L Hpitch.
  intros HL. revert before. induction HL as [|r l (_ & _ & Hr) _ IH]; intros before; simpl; [done|].
  apply yields_if; intros _; [done|]. eapply (yields_bind _ _ (λ _, True)); [|intros _ _; apply IH].
  destruct (res_kind r); [done|]. eapply yields_mono; [by apply validate_image_layout_ok|done].
Qed.
End Input.

Lemma validate_pipelines_ok before l : yields (validate_pipelines before l) (λ _, True).
Proof.
  revert before. induction l as [|p l IH]; intros before; simpl; [done|].
  apply yields_if; intros _; [done|].
  eapply (yields_bind _ _ (λ _, True)); [|intros _ _; apply IH].
  unfold validate_pipeline_descriptor. apply yields_if; intros _; [done|]. by apply yields_require.
Qed.

(** The types of an input, and what the interface crate's constructors promise. *)
Record input_typed (i : CompileInput) : Prop := {
  in_resources : Forall resource_typed (resources i);
  in_pitch : u32 (max_linear_pitch (capabilities i));
  in_budget : u32 (max_pm4_words (capabilities i));
  in_operations : Forall operation_typed (operations i);
}.

Section Compile.
Context `{S : !SgfxCore} {L : SgfxCoreLaws S}.

Lemma compile_ok memory i :
  input_typed i →
  yields (compile memory i)
    (output_ok (sizes_of (resources i)) (max_pm4_words (capabilities i))).
Proof using L.
  intros [HR HP HM HO]. unfold compile. eapply (yields_bind _ _ (λ _, True)).
  { unfold validate_tables. apply yields_if; intros _; [done|].
    eapply yields_bind; [by apply validate_resources_ok|]. intros _ _. apply validate_pipelines_ok. }
  intros _ _. set (budget := max_pm4_words (capabilities i)).
  assert (HT : triple (running (resources i) i State_new)
    (do! st := run_operations i State_new (operations i) in
     match pass st with Some _ => fail InvalidState | None => finish end)
    (λ r _, output_ok (sizes_of (resources i)) budget r)).
  { eapply triple_bind; [by apply (run_operations_ok (resources i) HR _ HP)|]. intros st.
    destruct (pass st) as [p|] eqn:EP; [by apply triple_fail|].
    eapply triple_pre; [|apply finish_ok]. intros e [H HS]. by rewrite (st_batch st HS EP) in H. }
  specialize (HT (Emit.new budget memory)). unfold yields, bind at 1.
  assert (HN : running (resources i) i State_new (Emit.new budget memory)).
  { split; [|by split]. split; try done; simpl; try by constructor.
    - by split; [apply partial_nil|apply Forall_nil|].
    - by split; [apply partial_nil|apply Forall_nil|].
    - change (len [] + len []) with 0. apply HM. }
  specialize (HT HN). by destruct (and_then _ _ _) as [[r e]| |].
Qed.

(** C11: A compilation is well formed.  For every input of the right types in
    which only NV12 images carry a colour conversion ([it_conversion]; the
    constructors of resource.rs make no other image, and without the condition
    [lone_conversion_panics] shows a panic), with any allocator behaviour,
    [compile] does not panic and does not report a packet of its own as
    malformed; what it returns is a stream of whole
    packets of [u32] words within the command budget, whose symbolic addresses
    are blank, ordered and disjoint, stay inside their objects and are covered
    by the access table, which names no canonical program, holds no two entries
    that could be merged, and grants nothing outside an object. *)
Theorem compile_sound (memory : option nat) (i : CompileInput) (Htyped : input_typed i) :
  compile memory i ≠ Panic ∧ compile memory i ≠ Err InvalidPm4 ∧
  ∀ r, compile memory i = Ok r →
    output_ok (sizes_of (resources i)) (max_pm4_words (capabilities i)) r.
Proof using L.
  pose proof (compile_ok memory i Htyped) as H. unfold yields, refusal in H.
  destruct (compile memory i); simpl in H; split_and!; try congruence; done.
Qed.
End Compile.
End CompileFacts.
