(* ===== verification/SgfxWire.v ===== *)
(** * From compiled objects to the kernel's submit wire

    [wire.rs] of the SGFX Adreno backend: symbolic objects become attachment
    ranges and relocations, and the result is written in the kernel's wire
    format. *)
From S2P Require Import Prelude ShaderPack SubmitWire SubmitWireFacts CodegenModel CodegenEmit CodegenCompile CodegenFacts CodegenUploadFacts.
From S2P Require Import CodegenCompileFacts.

Module SgfxWire.

Inductive UnsupportedIrFeature :=
| ResourceState | TextureUpload | ProgrammableExecution | TargetUsage.

Inductive IrSubmitError :=
| Unsupported (feature : UnsupportedIrFeature)
| OutOfMemory
| SubmissionTooLarge
| ResourceTableMismatch
| CodegenError (error : Codegen.CompileError)
| SubmitWireError (error : SubmitWire.Error)
| IrError.

Record BoundObject := mk_bound {
  bound_object : Codegen.ObjectRef;
  attachment_token : Z;
  allocation_offset : Z;
  bound_size : Z;
}.

(** ** Order *)

(** The derived order on [ObjectRef]: by constructor, then by identity. *)
Definition object_key (o : Codegen.ObjectRef) : Z :=
  match o with
  | Codegen.External id => id
  | Codegen.Generated id => 0x100000000 + id
  | Codegen.CanonicalShader v => 0x200000000 + shader_raw v
  end.

(** A stable sort; [before] is the order on keys, not strict. *)
Section Sort.
Context {A : Type} (before : A → A → bool).

Fixpoint insert_sorted (x : A) (l : list A) : list A :=
  match l with
  | [] => [x]
  | y :: l' => if before x y then x :: l else y :: insert_sorted x l'
  end.

Definition sort (l : list A) : list A := foldr insert_sorted [] l.
End Sort.

Definition binding_before (a b : BoundObject) : bool :=
  object_key (bound_object a) <=? object_key (bound_object b).

Definition position_le (k1 o1 k2 o2 : Z) : bool := (k1 <? k2) || ((k1 =? k2) && (o1 <=? o2)).

Definition access_before (a b : Z * Codegen.ResourceAccess) : bool :=
  position_le (object_key (Codegen.acc_object a.2)) (Codegen.acc_offset a.2)
    (object_key (Codegen.acc_object b.2)) (Codegen.acc_offset b.2).

(** ** Translation *)

Definition unsupported {A} : outcome IrSubmitError A := Err (Unsupported ResourceState).

Definition binding (bindings : list BoundObject) (object : Codegen.ObjectRef) :
    outcome IrSubmitError BoundObject :=
  let i := partition_point (λ b, object_key (bound_object b) <? object_key object) bindings in
  match bindings !! i with
  | Some b => if bool_decide (bound_object b = object) then Ok b else unsupported
  | None => unsupported
  end.

Definition wire_access (access : Z) : outcome IrSubmitError Z :=
  let result :=
    (if Codegen.access_contains access Codegen.READ then ACCESS_READ else 0)
    .| (if Codegen.access_contains access Codegen.WRITE then ACCESS_WRITE else 0) in
  if result =? 0 then unsupported else Ok result.

Definition encode_access (bindings : list BoundObject) (a : Codegen.ResourceAccess) :
    outcome IrSubmitError Resource :=
  let? bound := binding bindings (Codegen.acc_object a) in
  let? access_end := ok_or (checked_add U64_MAX (Codegen.acc_offset a) (Codegen.acc_size a))
                       (Unsupported ResourceState) in
  if (Codegen.acc_size a =? 0) || (bound_size bound <? access_end) then unsupported
  else
    let? range_offset := ok_or (checked_add U64_MAX (allocation_offset bound) (Codegen.acc_offset a))
                           (Unsupported ResourceState) in
    let? access := wire_access (Codegen.access a) in
    Ok (MkResource (attachment_token bound) range_offset (Codegen.acc_size a) access).

Definition wire_encoding (e : Codegen.AddressEncoding) : AddressEncoding :=
  match e with
  | Codegen.GpuVa64 => GpuVa64
  | Codegen.GpuVa49TexDescriptor => GpuVa49TexDescriptor
  end.

(** The accesses of [object] that start no later than [offset], from the last. *)
Definition candidates (indexed : list (Z * Codegen.ResourceAccess)) (object : Codegen.ObjectRef)
    (offset : Z) : list (Z * Codegen.ResourceAccess) :=
  let first := partition_point (λ a, object_key (Codegen.acc_object a.2) <? object_key object) indexed in
  let last := partition_point
    (λ a, position_le (object_key (Codegen.acc_object a.2)) (Codegen.acc_offset a.2)
            (object_key object) offset) indexed in
  rev (take (last - first) (drop first indexed)).

Definition covers (required_end access : Z) (a : Z * Codegen.ResourceAccess) : bool :=
  Codegen.access_contains (Codegen.access a.2) access
  && match checked_add U64_MAX (Codegen.acc_offset a.2) (Codegen.acc_size a.2) with
     | Some access_end => required_end <=? access_end
     | None => false
     end.

Definition encode_fixup (bindings : list BoundObject) (indexed : list (Z * Codegen.ResourceAccess))
    (resources : list Resource) (f : Codegen.SymbolicAddress) : outcome IrSubmitError Relocation :=
  match Codegen.object f with
  | Codegen.CanonicalShader variant =>
      let? access := wire_access (Codegen.fix_access f) in
      let? encoding :=
        match Codegen.encoding f with
        | Codegen.GpuVa64 => Ok GpuVa64
        | Codegen.GpuVa49TexDescriptor => unsupported
        end in
      Ok (MkRelocation (Codegen.word_offset f) (CanonicalShader variant) (Codegen.object_offset f)
            (Codegen.required_size f) access encoding)
  | object =>
      let? bound := binding bindings object in
      let? required_end :=
        ok_or (checked_add U64_MAX (Codegen.object_offset f) (Codegen.required_size f))
          (Unsupported ResourceState) in
      if (Codegen.required_size f =? 0) || (bound_size bound <? required_end) then unsupported
      else
        let? access := wire_access (Codegen.fix_access f) in
        let? (i, _) :=
          ok_or (List.find (covers required_end (Codegen.fix_access f))
                   (candidates indexed object (Codegen.object_offset f)))
            (Unsupported ResourceState) in
        let? resource := ok_or (resources !! Z.to_nat i) (Unsupported ResourceState) in
        let? absolute :=
          ok_or (checked_add U64_MAX (allocation_offset bound) (Codegen.object_offset f))
            (Unsupported ResourceState) in
        let? resource_offset :=
          ok_or (checked_sub absolute (range_offset resource)) (Unsupported ResourceState) in
        let? index := ok_or (if i <=? U32_MAX then Some i else None) (Unsupported ResourceState) in
        Ok (MkRelocation (Codegen.word_offset f) (Attachment index) resource_offset
              (Codegen.required_size f) access (wire_encoding (Codegen.encoding f)))
  end.

Definition to_submit (compiled : Codegen.RelocatablePm4) (bindings : list BoundObject)
    (resources_fit relocations_fit : bool) : outcome IrSubmitError Submit :=
  let bindings := sort binding_before bindings in
  let indexed := sort access_before (enumerate (Codegen.accesses compiled)) in
  let? _ := require resources_fit OutOfMemory in
  let? resources := mapM (encode_access bindings) (Codegen.accesses compiled) in
  let? _ := require relocations_fit OutOfMemory in
  let? relocations := mapM (encode_fixup bindings indexed resources) (Codegen.fixups compiled) in
  Ok (MkSubmit (Codegen.words compiled) resources relocations).

Definition submit_wire_error {A} (m : outcome SubmitWire.Error A) : outcome IrSubmitError A :=
  match m with Ok a => Ok a | Err e => Err (SubmitWireError e) | Panic => Panic end.

Definition encode (compiled : Codegen.RelocatablePm4) (bindings : list BoundObject)
    (resources_fit relocations_fit : bool) : outcome IrSubmitError (list Z) :=
  let? submit := to_submit compiled bindings resources_fit relocations_fit in
  let? n := submit_wire_error (encoded_len submit) in
  submit_wire_error (SubmitWire.encode submit (replicate (Z.to_nat n) 0)).
End SgfxWire.

(** * A compiled submission reaches the kernel unchanged

    The wire encoder against the emitter's output: with a binding for every
    object, [encode] succeeds, the kernel's decoder accepts the bytes, and each
    symbolic address becomes a relocation to the very bytes it named. *)

Module WireFacts.
Import SgfxWire EmitFacts UploadFacts.

(** ** Sorting and searching *)

Section Sorted.
Context {A : Type} (before : A → A → bool).
Context (Htotal : ∀ a b, before a b = true ∨ before b a = true).
Context (Htrans : ∀ a b c, before a b = true → before b c = true → before a c = true).

Lemma insert_sorted_perm x l : insert_sorted before x l ≡ₚ x :: l.
Proof.
  induction l as [|y l IH]; simpl; [done|]. destruct (before x y); [done|].
  rewrite IH. by constructor.
Qed.

Lemma sort_perm l : sort before l ≡ₚ l.
Proof. induction l as [|x l IH]; simpl; [done|]. rewrite insert_sorted_perm. by rewrite IH. Qed.

Inductive ordered : list A → Prop :=
| ordered_nil : ordered []
| ordered_cons x l : Forall (λ y, before x y = true) l → ordered l → ordered (x :: l).

Lemma insert_sorted_ordered x l : ordered l → ordered (insert_sorted before x l).
Proof using Htotal Htrans.
  induction 1 as [|y l HF HO IH]; simpl; [by repeat constructor|].
  destruct (before x y) eqn:E.
  - constructor; [|by constructor]. constructor; [done|].
    eapply Forall_impl; [exact HF|]. intros z. by apply Htrans.
  - constructor; [|done]. destruct (Htotal x y) as [?|Hyx]; [congruence|].
    rewrite insert_sorted_perm. by constructor.
Qed.

Lemma sort_ordered l : ordered (sort before l).
Proof using Htotal Htrans.
  induction l as [|x l IH]; simpl; [constructor|]. by apply insert_sorted_ordered.
Qed.

(** A downward closed condition splits an ordered list at its partition point. *)
Lemma partition_split (f : A → bool) l :
  (∀ a b, before a b = true → f b = true → f a = true) → ordered l →
  Forall (λ a, f a = true) (take (partition_point f l) l) ∧
  Forall (λ a, f a = false) (drop (partition_point f l) l).
Proof.
  intros Hf. induction 1 as [|x l HF HO [IT ID]]; simpl; [done|].
  destruct (f x) eqn:E; simpl; [by split; [constructor|]|]. split; [done|]. constructor; [done|].
  eapply Forall_impl; [exact HF|]. intros y Hxy. destruct (f y) eqn:Ey; [|done].
  rewrite (Hf x y Hxy Ey) in E. done.
Qed.
End Sorted.

Lemma partition_lookup {A} (f : A → bool) l x :
  l !! partition_point f l = Some x → f x = false.
Proof.
  induction l as [|y l IH]; simpl; [done|]. destruct (f y) eqn:E; simpl; [done|]. by intros [= <-].
Qed.

(** ** Keys *)

Definition id_ok (o : Codegen.ObjectRef) : Prop :=
  match o with
  | Codegen.External id | Codegen.Generated id => u32 id
  | Codegen.CanonicalShader _ => True
  end.

Lemma object_key_inj o o' : id_ok o → id_ok o' → object_key o = object_key o' → o = o'.
Proof.
  unfold id_ok, u32. destruct o as [a|a|a], o' as [b|b|b]; simpl; intros Ha Hb H;
    try (f_equal; lia); try (pose proof (shader_raw_u16 a)); try (pose proof (shader_raw_u16 b));
    try (exfalso; lia).
  f_equal. assert (shader_raw a = shader_raw b) as HR by lia.
  apply (f_equal shader_from_raw) in HR. rewrite !shader_from_raw_raw in HR. congruence.
Qed.

Lemma binding_before_ok :
  (∀ a b, binding_before a b = true ∨ binding_before b a = true) ∧
  (∀ a b c, binding_before a b = true → binding_before b c = true → binding_before a c = true).
Proof. unfold binding_before. setoid_rewrite Z.leb_le. split; lia. Qed.

Lemma access_before_ok :
  (∀ a b, access_before a b = true ∨ access_before b a = true) ∧
  (∀ a b c, access_before a b = true → access_before b c = true → access_before a c = true).
Proof.
  unfold access_before, position_le.
  setoid_rewrite orb_true_iff. setoid_rewrite andb_true_iff.
  setoid_rewrite Z.ltb_lt. setoid_rewrite Z.leb_le. setoid_rewrite Z.eqb_eq. split; lia.
Qed.

(** ** Bindings *)

Section Bindings.
Context (bindings : list BoundObject) (Hids : Forall (λ b, id_ok (bound_object b)) bindings).

(** The search finds a binding of the object when there is one. *)
Lemma binding_ok o :
  id_ok o → (∃ b, b ∈ bindings ∧ bound_object b = o) →
  ∃ b, binding (sort binding_before bindings) o = Ok b ∧ b ∈ bindings ∧ bound_object b = o.
Proof using Hids.
  intros Ho (b & Hb & Hbo). destruct binding_before_ok as [Htot Htr].
  set (l := sort binding_before bindings). assert (Hp : l ≡ₚ bindings) by apply sort_perm.
  pose proof (sort_ordered binding_before Htot Htr bindings) as Hord. fold l in Hord.
  unfold binding. set (f := λ b, object_key (bound_object b) <? object_key o).
  destruct (partition_split binding_before f l) as [HT HD]; [|done|].
  { intros a c. unfold binding_before, f. rewrite Z.leb_le, !Z.ltb_lt. lia. }
  assert (Hbl : b ∈ l) by (by rewrite Hp).
  assert (b ∈ drop (partition_point f l) l) as Hbd.
  { rewrite <-(take_drop (partition_point f l) l) in Hbl. apply elem_of_app in Hbl as [Hbl|]; [|done].
    eapply Forall_forall in HT; [|exact Hbl]. unfold f in HT. rewrite Hbo, Z.ltb_irrefl in HT. done. }
  destruct (l !! partition_point f l) as [x|] eqn:Ex.
  2: { apply lookup_ge_None in Ex. rewrite drop_ge in Hbd by done. by apply elem_of_nil in Hbd. }
  assert (Hx : x ∈ bindings) by (rewrite <-Hp; by eapply list_elem_of_lookup_2).
  assert (object_key (bound_object x) ≤ object_key o) as Hle.
  { rewrite <-Hbo. rewrite (drop_S _ x) in Hbd by done.
    rewrite <-(take_drop (partition_point f l) l) in Hord. rewrite (drop_S _ x) in Hord by done.
    apply elem_of_cons in Hbd as [->|Hbd]; [done|].
    clear -Hord Hbd. induction (take (partition_point f l) l) as [|y t IH]; simpl in Hord.
    - inversion Hord as [|? ? HF _]; subst. eapply Forall_forall in HF; [|exact Hbd].
      unfold binding_before in HF. by apply Z.leb_le in HF.
    - inversion Hord; subst. by apply IH. }
  pose proof (partition_lookup f l x Ex) as Hfx. unfold f in Hfx. apply Z.ltb_ge in Hfx.
  assert (bound_object x = o) as Hxo.
  { apply object_key_inj; [by eapply Forall_forall in Hids|done|lia]. }
  exists x. rewrite bool_decide_true by done. done.
Qed.
End Bindings.

(** ** The access index *)

Section Index.
Context (accesses : list Codegen.ResourceAccess)
        (Hids : Forall (λ a, id_ok (Codegen.acc_object a)) accesses).

#[local] Abbreviation indexed := (sort access_before (enumerate accesses)).

Lemma elem_of_enumerate {A} (l : list A) x :
  x ∈ enumerate l ↔ 0 ≤ x.1 ∧ l !! Z.to_nat x.1 = Some x.2.
Proof.
  unfold enumerate. rewrite list_elem_of_lookup. destruct x as [i a]. simpl. split.
  - intros (k & (j & y & [= -> ->] & Hj & Hy)%lookup_zip_with_Some).
    unfold range in Hj. rewrite list_lookup_fmap in Hj.
    apply fmap_Some in Hj as (j' & [-> _]%lookup_seq & ->). simpl. split; [lia|].
    by rewrite Nat2Z.id.
  - intros [H0 Ha]. exists (Z.to_nat i). apply lookup_zip_with_Some. exists i, a. split_and!; [done| |done].
    unfold range. rewrite list_lookup_fmap. apply fmap_Some. exists (Z.to_nat i).
    split; [|lia]. apply lookup_seq. apply lookup_lt_Some in Ha. unfold len. lia.
Qed.

Lemma candidates_elem o offset x :
  id_ok o →
  x ∈ candidates indexed o offset ↔
  x ∈ enumerate accesses ∧ Codegen.acc_object x.2 = o ∧ Codegen.acc_offset x.2 ≤ offset.
Proof using Hids.
  intros Ho. destruct access_before_ok as [Htot Htr].
  set (l := indexed). assert (Hp : l ≡ₚ enumerate accesses) by apply sort_perm.
  pose proof (sort_ordered access_before Htot Htr (enumerate accesses)) as Hord. fold l in Hord.
  unfold candidates.
  set (f1 := λ a : Z * Codegen.ResourceAccess, object_key (Codegen.acc_object a.2) <? object_key o).
  set (f2 := λ a : Z * Codegen.ResourceAccess,
    position_le (object_key (Codegen.acc_object a.2)) (Codegen.acc_offset a.2) (object_key o) offset).
  set (first := partition_point f1 l). set (last := partition_point f2 l).
  destruct (partition_split access_before f1 l) as [HT1 HD1]; [|done|].
  { intros a b. unfold access_before, position_le, f1.
    rewrite orb_true_iff, andb_true_iff, !Z.ltb_lt, Z.leb_le, Z.eqb_eq. lia. }
  destruct (partition_split access_before f2 l) as [HT2 HD2]; [|done|].
  { intros a b. unfold access_before, f2, position_le.
    rewrite !orb_true_iff, !andb_true_iff, !Z.ltb_lt, !Z.leb_le, !Z.eqb_eq. lia. }
  fold first in HT1, HD1. fold last in HT2, HD2.
  assert (Hkey : ∀ y, y ∈ l → f1 y = false ∧ f2 y = true ↔
    Codegen.acc_object y.2 = o ∧ Codegen.acc_offset y.2 ≤ offset).
  { intros y Hy. unfold f1, f2, position_le. rewrite Z.ltb_ge, orb_true_iff, andb_true_iff, Z.ltb_lt, Z.leb_le, Z.eqb_eq.
    rewrite Hp in Hy. apply elem_of_enumerate in Hy as [_ Hy].
    assert (id_ok (Codegen.acc_object y.2)) as Hy'
      by (eapply (Forall_lookup_1 (λ a, id_ok (Codegen.acc_object a))); eauto).
    split; [|intros [-> ?]; split; [lia|right; done]].
    intros [? H]. assert (object_key (Codegen.acc_object y.2) = object_key o) by lia.
    split; [by apply object_key_inj|lia]. }
  rewrite <-Permutation_rev, <-Hp. split.
  - intros Hx. assert (x ∈ drop first l) as Hd.
    { apply list_elem_of_lookup in Hx as (k & Hk). apply lookup_take_Some in Hk as [Hk _].
      by eapply list_elem_of_lookup_2. }
    assert (x ∈ take last l) as Ht.
    { destruct (decide (first ≤ last)%nat).
      - rewrite take_drop_commute in Hx. replace (first + (last - first))%nat with last in Hx by lia.
        apply list_elem_of_lookup in Hx as (k & Hk). rewrite lookup_drop in Hk.
        by eapply list_elem_of_lookup_2.
      - replace (last - first)%nat with 0%nat in Hx by lia. by apply elem_of_nil in Hx. }
    assert (x ∈ l) as Hxl by (rewrite <-(take_drop last l); apply elem_of_app; by left).
    split; [done|]. apply Hkey; [done|].
    eapply Forall_forall in HD1; [|exact Hd]. eapply Forall_forall in HT2; [|exact Ht]. done.
  - intros [Hxl [H1 H2]%Hkey]; [|done].
    assert (x ∈ drop first l) as Hd.
    { rewrite <-(take_drop first l) in Hxl. apply elem_of_app in Hxl as [Hxl|]; [|done].
      eapply Forall_forall in HT1; [|exact Hxl]. simpl in HT1. congruence. }
    rewrite <-(take_drop (last - first) (drop first l)) in Hd.
    apply elem_of_app in Hd as [|Hd]; [done|]. rewrite drop_drop in Hd.
    assert (x ∈ drop last l) as Hd'.
    { apply list_elem_of_lookup in Hd as (k & Hk). rewrite lookup_drop in Hk.
      apply list_elem_of_lookup. exists (first + (last - first) + k - last)%nat.
      rewrite lookup_drop. rewrite <-Hk. f_equal. lia. }
    eapply Forall_forall in HD2; [|exact Hd']. simpl in HD2. congruence.
Qed.
End Index.

(** ** A submission *)

Lemma Forall2_impl_elem {A B} (P Q : A → B → Prop) l l' :
  Forall2 P l l' → (∀ x y, x ∈ l → P x y → Q x y) → Forall2 Q l l'.
Proof.
  induction 1 as [|x y l l' Hxy _ IH]; intros H; constructor; [apply H; [by left|done]|].
  apply IH. intros a b Ha. apply H. by right.
Qed.

Lemma contains_ldiff a c : a .& c = c → c .&~ a = 0.
Proof.
  intros H. rewrite <-H. apply Z.bits_inj'. intros n Hn.
  rewrite Z.ldiff_spec, Z.land_spec, Z.bits_0. by destruct (Z.testbit a n), (Z.testbit c n).
Qed.

Lemma checked_add_fits max a b : a + b ≤ max → checked_add max a b = Some (a + b).
Proof. intros H. by apply checked_add_Some. Qed.

Section Submission.
Context (sizes : Z → option Z) (budget : Z) (r : Codegen.RelocatablePm4).
Context (Hout : output_ok sizes budget r).
Context (Hsizes : ∀ id n, sizes id = Some n → u32 id).
Context (bindings : list BoundObject).

#[local] Abbreviation generated := (Codegen.generated_objects r).
#[local] Abbreviation sorted := (sort binding_before bindings).

(** What the backend binds: every object that has bytes, in a region of an
    attachment that is large enough. *)
Record bindings_ok : Prop := {
  bo_ids : Forall (λ b, id_ok (bound_object b)) bindings;
  bo_region : ∀ b, b ∈ bindings →
    0 < attachment_token b ∧ u64 (attachment_token b) ∧ 0 ≤ allocation_offset b ∧
    allocation_offset b + bound_size b ≤ U64_MAX;
  bo_size : ∀ b n, b ∈ bindings → object_size sizes generated (bound_object b) = Some n → n ≤ bound_size b;
  bo_all : ∀ o n, object_size sizes generated o = Some n → is_shader o = false →
    ∃ b, b ∈ bindings ∧ bound_object b = o;
}.

Context (Hbindings : bindings_ok).

(** The byte [offset] of [o], as the kernel will find it. *)
Definition located (o : Codegen.ObjectRef) (offset : Z) (res : Resource) (within : Z) : Prop :=
  ∃ b, binding sorted o = Ok b ∧ bound_object b = o ∧ SubmitWire.attachment_token res = attachment_token b ∧
       range_offset res + within = allocation_offset b + offset.

Definition resource_for (a : Codegen.ResourceAccess) (res : Resource) : Prop :=
  located (Codegen.acc_object a) (Codegen.acc_offset a) res 0 ∧
  range_size res = Codegen.acc_size a ∧ res_access res = Codegen.access a.

Definition relocation_for (table : list Resource) (f : Codegen.SymbolicAddress) (rel : Relocation) : Prop :=
  pm4_word_offset rel = Codegen.word_offset f ∧ required_size rel = Codegen.required_size f ∧
  rel_access rel = Codegen.fix_access f ∧ encoding rel = wire_encoding (Codegen.encoding f) ∧
  match Codegen.object f with
  | Codegen.CanonicalShader v => source rel = CanonicalShader v ∧ resource_offset rel = 0
  | o => ∃ index res, source rel = Attachment index ∧ 0 ≤ index ∧
      table !! Z.to_nat index = Some res ∧
      located o (Codegen.object_offset f) res (resource_offset rel) ∧ 0 ≤ resource_offset rel ∧
      resource_offset rel + required_size rel ≤ range_size res ∧
      rel_access rel .&~ res_access res = 0
  end.

Lemma wire_access_ok a : EmitFacts.access_ok a → wire_access a = Ok a ∧ validate_access a = Ok () ∧ u32 a.
Proof. by intros [->|[->| ->]]. Qed.

Lemma object_id_ok o n : object_size sizes generated o = Some n → id_ok o.
Proof using Hsizes Hout.
  destruct o as [id|id|v]; simpl; [by apply Hsizes| |done].
  unfold generated_size. destruct (Z.ltb_spec id 0); [done|]. intros (g & Hg & _)%fmap_Some.
  pose proof (out_generated _ _ _ Hout _ _ Hg) as (Hi & HU & _). rewrite Hi in HU.
  by rewrite Z2Nat.id in HU by lia.
Qed.

Lemma find_binding o n :
  object_size sizes generated o = Some n → is_shader o = false →
  ∃ b, binding sorted o = Ok b ∧ b ∈ bindings ∧ bound_object b = o ∧ n ≤ bound_size b.
Proof using Hbindings Hsizes Hout.
  intros Hn Hs. destruct (binding_ok bindings (bo_ids Hbindings) o) as (b & Hb & Hin & Ho).
  - by eapply object_id_ok.
  - by eapply bo_all.
  - exists b. split_and!; [done..|]. eapply bo_size; [done..|]. by rewrite Ho.
Qed.

Lemma within_fits o n : object_size sizes generated o = Some n → is_shader o = false → n ≤ U64_MAX.
Proof using Hbindings Hsizes Hout.
  intros Hn Hs. destruct (find_binding o n Hn Hs) as (b & _ & Hin & _ & ?).
  destruct (bo_region Hbindings b Hin) as (_ & _ & ? & ?). lia.
Qed.

Lemma encode_access_ok a :
  a ∈ Codegen.accesses r →
  ∃ res, encode_access sorted a = Ok res ∧ resource_for a res ∧ wf_resource res ∧
    validate_resource res = Ok ().
Proof using Hbindings Hsizes Hout.
  intros Ha. eapply Forall_forall in Ha; [|apply (out_accesses _ _ _ Hout)].
  destruct Ha as ((n & Hn & H0 & Hp & Hle) & Hacc & Hshader).
  assert (is_shader (Codegen.acc_object a) = false) as Hns by by destruct (Codegen.acc_object a).
  destruct (find_binding _ n Hn Hns) as (b & Hb & Hin & Ho & Hsz).
  destruct (bo_region Hbindings b Hin) as (Ht & HT & Hal & Hend).
  destruct (wire_access_ok _ Hacc) as (Hw & Hv & HU).
  exists (MkResource (attachment_token b) (allocation_offset b + Codegen.acc_offset a)
           (Codegen.acc_size a) (Codegen.access a)).
  split_and!.
  - unfold encode_access. rewrite Hb. cbn [bind]. rewrite checked_add_fits by lia. cbn [bind ok_or].
    destruct (Z.eqb_spec (Codegen.acc_size a) 0); [lia|].
    destruct (Z.ltb_spec (bound_size b) (Codegen.acc_offset a + Codegen.acc_size a)); [lia|].
    cbn [orb]. rewrite checked_add_fits by lia. cbn [bind ok_or].
    by rewrite Hw.
  - split; [|done]. exists b. split_and!; [done..|simpl; lia].
  - unfold wf_resource, u64 in *. simpl. unfold U64_MAX in *. split_and!; try lia; apply HU.
  - unfold validate_resource. simpl. rewrite Hv. cbn [bind].
    destruct (Z.eqb_spec (attachment_token b) 0); [lia|].
    destruct (Z.eqb_spec (Codegen.acc_size a) 0); [lia|]. cbn [orb].
    rewrite bool_decide_false; [done|].
    rewrite checked_add_fits by lia. done.
Qed.

Section Relocations.
Context (table : list Resource) (Htable : Forall2 resource_for (Codegen.accesses r) table).
Context (Hcount : len (Codegen.accesses r) ≤ U32_MAX).

#[local] Abbreviation indexed := (sort access_before (enumerate (Codegen.accesses r))).

Lemma access_ids : Forall (λ a, id_ok (Codegen.acc_object a)) (Codegen.accesses r).
Proof using Hsizes Hout.
  eapply Forall_impl; [apply (out_accesses _ _ _ Hout)|]. intros a ((n & Hn & _) & _).
  by eapply object_id_ok.
Qed.

(** The entry the search returns covers the address. *)
Lemma find_access o offset size acc :
  id_ok o → offset + size ≤ U64_MAX → EmitFacts.access_ok acc →
  covered (Codegen.accesses r) o offset size acc →
  ∃ i a, List.find (covers (offset + size) acc) (candidates indexed o offset) = Some (i, a) ∧
    0 ≤ i ∧ Codegen.accesses r !! Z.to_nat i = Some a ∧ Codegen.acc_object a = o ∧
    Codegen.acc_offset a ≤ offset ∧ offset + size ≤ Codegen.acc_offset a + Codegen.acc_size a ∧
    Codegen.access_contains (Codegen.access a) acc = true.
Proof using Hbindings Hsizes Hout.
  intros Ho Hmax Hacc (a & Ha & Hao & Haa & Hle & Hend).
  assert (Hfit : ∀ b, b ∈ Codegen.accesses r →
    Codegen.acc_offset b + Codegen.acc_size b ≤ U64_MAX).
  { intros b Hb. eapply Forall_forall in Hb; [|apply (out_accesses _ _ _ Hout)].
    destruct Hb as ((n & Hn & H0 & _ & Hbn) & _ & Hs).
    eapply within_fits in Hn; [lia|by destruct (Codegen.acc_object b)]. }
  destruct (List.find _ _) as [[i x]|] eqn:EF.
  - apply List.find_some in EF as [Hin Hcov]. apply list_elem_of_In in Hin.
    apply candidates_elem in Hin as (Hin & Hxo & Hxle); [|apply access_ids|done].
    apply elem_of_enumerate in Hin as [Hi Hx]. simpl in *. exists i, x.
    unfold covers in Hcov. simpl in Hcov. apply andb_true_iff in Hcov as [? Hcov].
    destruct (checked_add _ _ _) eqn:EC; [|done]. apply checked_add_Some in EC as [-> _].
    apply Z.leb_le in Hcov. split_and!; done.
  - exfalso. apply list_elem_of_lookup in Ha as (k & Hk).
    assert ((Z.of_nat k, a) ∈ candidates indexed o offset) as Hin.
    { apply candidates_elem; [apply access_ids|done|]. simpl. split; [|done].
      apply elem_of_enumerate. simpl. split; [lia|by rewrite Nat2Z.id]. }
    apply list_elem_of_In, (List.find_none _ _ EF) in Hin.
    unfold covers in Hin. simpl in Hin. apply andb_false_iff in Hin as [Hin|Hin].
    + rewrite Haa in Hin. destruct Hacc as [->|[->| ->]]; done.
    + rewrite checked_add_fits in Hin by (apply Hfit; by eapply list_elem_of_lookup_2).
      apply Z.leb_gt in Hin. lia.
Qed.

Lemma resource_size i res : table !! i = Some res → range_size res ≤ U64_MAX.
Proof using Hbindings Hsizes Hout Htable.
  intros Hres. destruct (Forall2_lookup_r _ _ _ _ _ Htable Hres) as (a & Ha & _ & -> & _).
  pose proof (Forall_lookup_1 _ _ _ _ (out_accesses _ _ _ Hout) Ha) as ((n & Hn & ? & _ & ?) & _ & Hs).
  eapply within_fits in Hn; [lia|by destruct (Codegen.acc_object a)].
Qed.

Lemma encode_fixup_ok f :
  f ∈ Codegen.fixups r →
  ∃ rel, encode_fixup sorted indexed table f = Ok rel ∧ relocation_for table f rel ∧
    (len (Codegen.words r) ≤ U32_MAX → wf_relocation rel).
Proof using Hbindings Hsizes Hout Htable Hcount.
  intros Hf. pose proof (proj1 (Forall_forall _ _) (out_fixups _ _ _ Hout) f Hf) as ((n & Hn & H0 & Hp & Hle) & Hacc & HO).
  pose proof (proj1 (Forall_forall _ _) (out_blank _ _ _ Hout) f Hf) as HB.
  pose proof (blank_end _ _ HB) as HE. destruct HB as [HB _].
  destruct (wire_access_ok _ Hacc) as (Hw & _ & HU).
  destruct (is_shader (Codegen.object f)) eqn:ES.
  - destruct (Codegen.object f) as [| |v] eqn:EO; [done..|].
    destruct HO as (Ho & Hsz & HR & Henc). unfold encode_fixup, relocation_for.
    rewrite EO, Hw, Henc, Ho, Hsz. cbn [bind]. eexists. split; [done|]. simpl.
    split_and!; try done. intros Hlen. unfold wf_relocation, wf_source. simpl.
    unfold u32, u64, U32_MAX in *. split_and!; try lia; by destruct v.
  - destruct (find_binding _ n Hn ES) as (b & Hb & Hin & Ho & Hbn).
    destruct (bo_region Hbindings b Hin) as (_ & _ & Hal & Hend).
    destruct (find_access (Codegen.object f) (Codegen.object_offset f) (Codegen.required_size f)
                (Codegen.fix_access f)) as (i & a & Hfind & Hi & Ha & Hao & Hal' & Hae & Hcon);
      [by eapply object_id_ok|lia|done|by destruct (Codegen.object f)|].
    destruct (Forall2_lookup_l _ _ _ _ _ Htable Ha) as (res & Hres & (b' & Hb' & _ & Htok & Hro) & Hrs & Hra).
    rewrite Hao, Hb in Hb'. injection Hb' as <-.
    pose proof (lookup_lt_Some _ _ _ Ha) as Hlt. unfold len in Hcount.
    pose proof (Forall_lookup_1 _ _ _ _ (out_accesses _ _ _ Hout) Ha) as ((? & _ & Ha0 & _) & _).
    set (rel := MkRelocation (Codegen.word_offset f) (Attachment i)
      (allocation_offset b + Codegen.object_offset f - range_offset res) (Codegen.required_size f)
      (Codegen.fix_access f) (wire_encoding (Codegen.encoding f))).
    assert (HE' : encode_fixup sorted indexed table f = Ok rel).
    { unfold encode_fixup. destruct (Codegen.object f) eqn:EO; [| |done]; rewrite <-EO in *.
      all: rewrite Hb; cbn [bind]; rewrite checked_add_fits by lia; cbn [bind ok_or].
      all: destruct (Z.eqb_spec (Codegen.required_size f) 0); [lia|].
      all: destruct (Z.ltb_spec (bound_size b) (Codegen.object_offset f + Codegen.required_size f)); [lia|].
      all: cbn [orb]; rewrite Hw, Hfind; cbn [bind ok_or]; rewrite Hres; cbn [bind ok_or].
      all: rewrite checked_add_fits by lia; cbn [bind ok_or].
      all: unfold checked_sub; destruct (Z.leb_spec (range_offset res) (allocation_offset b + Codegen.object_offset f)); [|lia].
      all: cbn [bind ok_or]; destruct (Z.leb_spec i U32_MAX); [done|lia]. }
    exists rel. split_and!; [done| |].
    + unfold relocation_for. split_and!; [done..|].
      assert (∃ index res, source rel = Attachment index ∧ 0 ≤ index ∧
        table !! Z.to_nat index = Some res ∧
        located (Codegen.object f) (Codegen.object_offset f) res (resource_offset rel) ∧
        0 ≤ resource_offset rel ∧ resource_offset rel + required_size rel ≤ range_size res ∧
        rel_access rel .&~ res_access res = 0) as HX.
      { exists i, res. simpl. split_and!; [done|done|done| |lia|lia|].
        - exists b. split_and!; [done..|lia].
        - rewrite Hra. apply contains_ldiff. by apply Z.eqb_eq. }
      by destruct (Codegen.object f).
    + intros Hlen. unfold wf_relocation, wf_source. simpl. unfold u32, u64, U32_MAX, U64_MAX in *.
      split_and!; lia || apply HU.
Qed.

(** The kernel's own check of one relocation. *)
Lemma relocation_checked f rel pm4 previous :
  f ∈ Codegen.fixups r → relocation_for table f rel → pm4 = Codegen.words r →
  len pm4 ≤ U32_MAX →
  (∀ p, previous = Some p → p ≤ Codegen.word_offset f) →
  validate_relocation rel previous pm4 table = Ok ().
Proof using Hbindings Hsizes Hout Htable.
  intros Hf (Ho & Hs & Ha & He & HT) -> Hlen Hprev.
  pose proof (proj1 (Forall_forall _ _) (out_fixups _ _ _ Hout) f Hf) as (HW & Hacc & HO).
  pose proof (proj1 (Forall_forall _ _) (out_blank _ _ _ Hout) f Hf) as HB.
  pose proof (blank_end _ _ HB) as HE. destruct HB as (HB & w1 & Hw0 & Hw1 & Hw).
  destruct (wire_access_ok _ Hacc) as (_ & Hv & _).
  unfold validate_relocation. rewrite Ha, Hv, Ho, He. cbn [bind].
  assert (overlaps_previous previous (Codegen.word_offset f) = false) as ->.
  { destruct previous as [p|]; [|done]. simpl. specialize (Hprev p eq_refl). apply Z.ltb_ge. lia. }
  match goal with |- (let? _ := ?m in _) = _ => assert (m = Ok ()) as -> end.
  { rewrite Hs. destruct HW as (n & Hn & _ & Hp & _). destruct (is_shader (Codegen.object f)) eqn:ES.
    - destruct (Codegen.object f); [done..|]. destruct HT as [-> ->].
      destruct HO as (_ & -> & -> & ->). simpl. by rewrite Z.eqb_refl.
    - assert (∃ index res, source rel = Attachment index ∧
        table !! Z.to_nat index = Some res ∧ 0 ≤ resource_offset rel ∧
        resource_offset rel + required_size rel ≤ range_size res ∧
        rel_access rel .&~ res_access res = 0) as (index & res & -> & Hres & H0 & Hend & Hc).
      { destruct (Codegen.object f); [| |done]; naive_solver. }
      rewrite Hres. cbn [ok_or bind]. rewrite Ha in Hc. rewrite Hc, Z.eqb_refl. rewrite Hs in Hend.
      destruct (Z.eqb_spec (Codegen.required_size f) 0); [lia|]. cbn [negb orb].
      rewrite checked_add_fits by (pose proof (resource_size _ _ Hres); lia).
      cbn [ok_or bind]. by destruct (Z.ltb_spec (range_size res) (resource_offset rel + Codegen.required_size f)); [lia|]. }
  cbn [bind]. assert (word_count (wire_encoding (Codegen.encoding f)) = 2) as -> by by destruct (Codegen.encoding f).
  rewrite checked_add_fits by lia. cbn [ok_or bind].
  destruct (Z.ltb_spec (len (Codegen.words r)) (Codegen.word_offset f + 2)); [lia|].
  destruct (slice_two (Codegen.words r) (Codegen.word_offset f)) as (x & y & -> & Hx & Hy); [lia..|].
  simplify_eq. destruct (Codegen.encoding f); simpl in *; subst; [done|]. by rewrite Hw.
Qed.

Lemma relocations_checked s fs rels k previous :
  Forall (λ f, f ∈ Codegen.fixups r) fs → Forall2 (relocation_for table) fs rels →
  pm4 s = Codegen.words r → resources s = table → len (Codegen.words r) ≤ U32_MAX →
  ordered_from k fs → (∀ p, previous = Some p → p ≤ k) →
  ∃ e, foldM (encode_relocation_check s) previous rels = Ok e.
Proof using Hbindings Hsizes Hout Htable.
  intros HF H2 Hp Hr Hlen. revert k previous.
  induction H2 as [|f rel fs rels Hrel _ IH]; intros k previous HO Hprev; [by eexists|].
  apply Forall_cons in HF as [Hf HF]. destruct HO as [Hk HO]. simpl.
  unfold encode_relocation_check at 1. rewrite Hp, Hr.
  rewrite (relocation_checked f rel) by (done || (intros p HP; specialize (Hprev p HP); lia)).
  cbn [bind]. apply (IH HF (Codegen.word_offset f + 2)); [done|].
  destruct Hrel as (-> & _ & _ & -> & _). intros p [-> _]%checked_add_Some.
  by destruct (Codegen.encoding f).
Qed.
End Relocations.

(** The submission the kernel reads. *)
Definition delivered (s : Submit) : Prop :=
  pm4 s = Codegen.words r ∧
  Forall2 resource_for (Codegen.accesses r) (resources s) ∧
  Forall2 (relocation_for (resources s)) (Codegen.fixups r) (relocations s).

Lemma to_submit_ok :
  counts_ok (len (Codegen.words r)) (len (Codegen.accesses r)) (len (Codegen.fixups r)) →
  ∃ s, to_submit r bindings true true = Ok s ∧ delivered s ∧ wf_submit s ∧
    validate_submit s = Ok ().
Proof using Hbindings Hsizes Hout.
  intros (Hw & [_ Ha] & [_ Hf] & Ht). unfold to_submit. cbn [require bind].
  pose proof (resources_start_bounds (len (Codegen.words r))) as Hstart.
  pose proof (len_nonneg (Codegen.accesses r)). pose proof (len_nonneg (Codegen.fixups r)).
  unfold layout_of, MAX_SUBMIT_SIZE, RESOURCE_SIZE, RELOCATION_SIZE, HEADER_SIZE in *. cbn [total] in Ht.
  assert (len (Codegen.words r) ≤ U32_MAX) as Hlen by (unfold U32_MAX; lia).
  destruct (mapM_total (encode_access sorted) (Codegen.accesses r)) as [table Htab].
  { intros a Hin. destruct (encode_access_ok a Hin) as (res & ? & _). by exists res. }
  rewrite Htab. cbn [bind]. apply mapM_Ok in Htab.
  assert (Forall2 (λ a res, resource_for a res ∧ wf_resource res ∧ validate_resource res = Ok ())
            (Codegen.accesses r) table) as Htable.
  { eapply Forall2_impl_elem; [exact Htab|]. intros a res Hin Henc.
    destruct (encode_access_ok a Hin) as (res' & Henc' & H'). congruence. }
  assert (Forall2 resource_for (Codegen.accesses r) table) as Hres.
  { eapply Forall2_impl; [exact Htable|]. by intros ?? (? & _). }
  assert (len (Codegen.accesses r) ≤ U32_MAX) as Hcount by (unfold MAX_RESOURCES, U32_MAX in *; lia).
  destruct (mapM_total (encode_fixup sorted (sort access_before (enumerate (Codegen.accesses r))) table)
              (Codegen.fixups r)) as [rels Hrels].
  { intros f Hin. destruct (encode_fixup_ok table Hres Hcount f Hin) as (rel & ? & _). by exists rel. }
  rewrite Hrels. cbn [bind]. apply mapM_Ok in Hrels.
  assert (Forall2 (λ f rel, relocation_for table f rel ∧ wf_relocation rel) (Codegen.fixups r) rels) as HR.
  { eapply Forall2_impl_elem; [exact Hrels|]. intros f rel Hin Henc.
    destruct (encode_fixup_ok table Hres Hcount f Hin) as (rel' & Henc' & Hrel & Hwf).
    rewrite Henc in Henc'. injection Henc' as <-. split; [done|by apply Hwf]. }
  eexists. split; [done|]. split_and!.
  - split_and!; [done..|]. simpl. eapply Forall2_impl; [exact HR|]. by intros ?? (? & _).
  - split_and!; simpl; [apply (out_words _ _ _ Hout)| |].
    + eapply Forall2_Forall_r; [exact Htable|]. apply Forall_true. by intros ?? (_ & ? & _).
    + eapply Forall2_Forall_r; [exact HR|]. apply Forall_true. by intros ?? (_ & ?).
  - unfold validate_submit. cbn [resources relocations].
    assert (forM validate_resource table = Ok ()) as ->.
    { apply forM_Ok. eapply Forall2_Forall_r; [exact Htable|]. apply Forall_true. by intros ?? (_ & _ & ?). }
    cbn [bind].
    destruct (relocations_checked table Hres (MkSubmit (Codegen.words r) table rels)
                (Codegen.fixups r) rels 0 None) as [e ->]; [by apply Forall_forall| |done..| |done|done].
    + eapply Forall2_impl; [exact HR|]. by intros ?? (? & _).
    + apply (out_ordered _ _ _ Hout).
Qed.

Lemma encode_delivered :
  counts_ok (len (Codegen.words r)) (len (Codegen.accesses r)) (len (Codegen.fixups r)) →
  ∃ bytes d s, SgfxWire.encode r bindings true true = Ok bytes ∧ decode bytes = Ok d ∧
    submit_of d = Ok s ∧ delivered s.
Proof using Hbindings Hsizes Hout.
  intros Hc. destruct (to_submit_ok Hc) as (s & Hs & HD & Hwf & Hv).
  pose proof HD as (Hp & Hr & Hf). apply Forall2_length in Hr as Hlr. apply Forall2_length in Hf as Hlf.
  assert (counts_ok (len (pm4 s)) (len (resources s)) (len (relocations s))) as Hc'.
  { unfold len in *. by rewrite Hp, <-Hlr, <-Hlf. }
  exists (wire_image VERSION_MINOR s), (decoded VERSION_MINOR s), s. split_and!; [| | |done].
  - unfold SgfxWire.encode. rewrite Hs. cbn [bind].
    assert (encoded_len s = Ok (total (submit_layout s))) as HE.
    { unfold encoded_len.
      by rewrite (proj2 (layout_Ok _ _ _ (submit_layout s) ltac:(auto) ltac:(auto) ltac:(auto)) (conj Hc' eq_refl)). }
    rewrite HE. cbn [submit_wire_error bind]. rewrite encode_image; [by rewrite Hv|done|].
    rewrite len_replicate, Z2Nat.id; [done|]. rewrite <-(len_wire_image VERSION_MINOR). auto.
  - rewrite decode_image, Hv by (done || by left). done.
  - apply submit_of_decoded; [done..|by left].
Qed.
End Submission.

Lemma sizes_of_u32 table id n :
  Forall CompileFacts.resource_typed table → CompileFacts.sizes_of table id = Some n → u32 id.
Proof.
  unfold CompileFacts.sizes_of. intros HT (res & [Hin Hid%Z.eqb_eq]%List.find_some & _)%fmap_Some.
  apply list_elem_of_In in Hin. eapply Forall_forall in HT as [? _]; [|exact Hin]. by rewrite <-Hid.
Qed.

End WireFacts.
