(* ===== verification/CodegenSample.v ===== *)
(** * A frame, compiled and submitted

    A concrete interface crate and device: uploads, a copy, a clear, draws of
    two pipelines.  The compilation, the backend's encoder and the kernel's
    validator are run on it, and the theorems about compilations are applied
    to it. *)
From S2P Require Import Prelude F32 ShaderPack SubmitWire SubmitWireFacts SubmitTypes SubmitRelocate SubmitSample.
From S2P Require Import CodegenModel CodegenEmit CodegenDraw CodegenCompile SgfxWire.
From S2P Require Import CodegenFacts CodegenUploadFacts CodegenDrawFacts CodegenCompileFacts SgfxWire.

Module CodegenSample.
Import Ir Codegen DrawFacts CompileFacts.

#[local] Existing Instance sample_core.
#[local] Existing Instance sample_core_laws.

Definition every_usage : TextureUsage := mk_texture_usage true true true true true.

Definition image (id : Z) : ResourceMeta :=
  mk_resource id 16384 (Image (mk_image None None Ir.Bgra8Unorm Ir.Bgra8Unorm (mk_extent 64 64)
    every_usage LinearModifier [mk_plane 0 256 16384])).

Definition buffer (id size : Z) : ResourceMeta :=
  mk_resource id size (Buffer (mk_buffer_usage true true true)).

Definition pipeline (id : Z) (attributes : list VertexAttribute) (f : FragmentProgram) : PipelineMeta :=
  mk_pipeline id (mk_pipeline_desc Ir.Bgra8Unorm TriangleList None (mk_vertex_layout 16 attributes) f
    SOURCE_OVER_STRAIGHT_ALPHA CullNone CounterClockwise).

Definition solid : PipelineMeta := pipeline 7 [mk_attribute 0 Float32x2 0] Solid.
Definition textured : PipelineMeta :=
  pipeline 8 [mk_attribute 0 Float32x2 0; mk_attribute 1 Float32x2 8] (Texture Rgba).

Definition sampler : SamplerDesc :=
  mk_sampler Ir.Linear Ir.Linear Nearest ClampToEdge ClampToEdge false 0 0.

Definition frame : list Operation :=
  [WriteBuffer 3 0 (replicate 96 1);
   WriteTexture 2 (mk_rect 0 0 4 2) 16 (replicate 32 9);
   CopyTextureToTexture 2 (mk_rect 0 0 8 8) 1 (mk_rect 8 8 8 8);
   BeginRenderPass (mk_pass 1 (mk_rect 0 0 64 64) (Clear (mk_color 0 0 0 F32_ONE_BITS)) Store None);
   SetPipeline 7; SetVertexBuffer 3 0;
   SetUniforms (mk_uniforms (replicate 16 0) (mk_color 0 0 0 0));
   Draw 3 0; Draw 3 3;
   SetPipeline 8; SetTexture 2; SetSampler sampler; Draw 3 0;
   EndRenderPass].

Definition input (operations : list Operation) : CompileInput :=
  mk_input (a618 (512 * 1024) 65536) [image 1; image 2; buffer 3 96] [solid; textured] operations.

Lemma input_typed_frame : input_typed (input frame).
Proof.
  split; [|by vm_compute..|].
  - repeat apply Forall_cons_2; try apply Forall_nil_2; (split_and!; [by vm_compute..|]); try done.
    all: split; simpl; try done; repeat apply Forall_cons_2; try apply Forall_nil_2; by split.
  - unfold input, frame, Codegen.operations.
    repeat apply Forall_cons_2; [..|apply Forall_nil_2]; cbn [operation_typed]; try exact I.
    + split; [done|]. by apply Forall_replicate.
    + split_and!; [compute_decision|done|by apply Forall_replicate].
    + split; compute_decision.
    + split; [compute_decision|done].
    + done.
    + split; [split; [done|by apply Forall_replicate]|]. split_and!; compute_decision.
    + split; compute_decision.
    + split; compute_decision.
    + split; compute_decision.
Qed.

(** ** The frame *)

Definition empty : RelocatablePm4 := mk_relocatable [] [] [] [].
Definition compiled (operations : list Operation) : RelocatablePm4 :=
  match Compile.compile None (input operations) with Ok r => r | _ => empty end.

Definition bindings (r : RelocatablePm4) : list SgfxWire.BoundObject :=
  [SgfxWire.mk_bound (External 1) 11 0 16384; SgfxWire.mk_bound (External 2) 12 0 16384;
   SgfxWire.mk_bound (External 3) 13 0 96]
  ++ ((λ g, SgfxWire.mk_bound (Generated (gen_id g)) 20 (1024 * gen_id g) (len (gen_bytes g)))
        <$> generated_objects r).

#[local] Opaque compiled.

Lemma frame_compiles : Compile.compile None (input frame) = Ok (compiled frame).
Proof. by vm_compute. Qed.

(** The generated objects: two uploads, the timestamp, one texture state. *)
Lemma frame_generated :
  (λ g, (gen_id g, len (gen_bytes g))) <$> generated_objects (compiled frame)
  = [(0, 96); (1, 32); (2, 4); (3, 80)].
Proof. by vm_compute. Qed.

Lemma frame_bindings : bindings (compiled frame) =
  [SgfxWire.mk_bound (External 1) 11 0 16384; SgfxWire.mk_bound (External 2) 12 0 16384;
   SgfxWire.mk_bound (External 3) 13 0 96; SgfxWire.mk_bound (Generated 0) 20 0 96;
   SgfxWire.mk_bound (Generated 1) 20 1024 32; SgfxWire.mk_bound (Generated 2) 20 2048 4;
   SgfxWire.mk_bound (Generated 3) 20 3072 80].
Proof. by vm_compute. Qed.

Lemma frame_generated_size id n :
  EmitFacts.generated_size (generated_objects (compiled frame)) id = Some n →
  (id, n) ∈ [(0, 96); (1, 32); (2, 4); (3, 80)].
Proof.
  rewrite <-frame_generated. unfold EmitFacts.generated_size. destruct (Z.ltb_spec id 0); [done|].
  intros (g & Hg & ->)%fmap_Some. apply list_elem_of_fmap. exists g.
  split; [|by eapply list_elem_of_lookup_2]. f_equal.
  assert (Forall (λ x, gen_id x.2 = x.1) (enumerate (generated_objects (compiled frame)))) as HF
    by (by apply (bool_decide_eq_true_1 _); vm_compute).
  symmetry. apply (proj1 (Forall_forall _ _) HF (id, g)).
  apply WireFacts.elem_of_enumerate. split; [exact H|exact Hg].
Qed.

Ltac find_bound :=
  eexists (SgfxWire.mk_bound _ _ _ _); split; [|reflexivity];
  repeat first [apply list_elem_of_here | apply list_elem_of_further].

Lemma frame_bound : WireFacts.bindings_ok (sizes_of (resources (input frame))) (compiled frame)
  (bindings (compiled frame)).
Proof.
  rewrite frame_bindings. split.
  - repeat apply Forall_cons_2; try apply Forall_nil_2; by vm_compute.
  - intros b Hb. repeat (apply elem_of_cons in Hb as [->|Hb]; [by vm_compute|]). by apply elem_of_nil in Hb.
  - intros b n Hb. repeat (apply elem_of_cons in Hb as [->|Hb]; [by vm_compute; intros [= <-]|]).
    by apply elem_of_nil in Hb.
  - intros [id|id|v] n Hn HS; [| |done]; simpl in Hn.
    + unfold sizes_of in Hn. apply fmap_Some in Hn as (r & [Hr Hid]%List.find_some & _).
      apply Z.eqb_eq in Hid. simpl in Hr.
      destruct Hr as [<-|[<-|[<-|[]]]]; simpl in Hid; subst id; find_bound.
    + apply frame_generated_size in Hn.
      repeat (apply elem_of_cons in Hn as [[= -> ->]|Hn]; [find_bound|]).
      by apply elem_of_nil in Hn.
Qed.

Lemma frame_counts :
  counts_ok (len (words (compiled frame))) (len (accesses (compiled frame))) (len (fixups (compiled frame))).
Proof. by vm_compute. Qed.

(** ** The theorems, applied *)

Lemma compile_sound_witness :
  Compile.compile None (input frame) ≠ Panic ∧
  Compile.compile None (input frame) ≠ Err InvalidPm4 ∧
  ∀ r, Compile.compile None (input frame) = Ok r →
    UploadFacts.output_ok (sizes_of (resources (input frame)))
      (max_pm4_words (capabilities (input frame))) r.
Proof. exact (compile_sound None (input frame) input_typed_frame). Defined.


(** ** The kernel *)

Definition kernel_image : LinearImage :=
  MkLinearImage None SubmitTypes.Bgra8Unorm SubmitTypes.Linear 64 64 256 16384.

Definition resolve (token : Z) : option ResolvedResource :=
  if token =? 11 then Some (MkResolvedResource 11 0x100000000 16384 3 (Some kernel_image))
  else if token =? 12 then Some (MkResolvedResource 12 0x110000000 16384 3 (Some kernel_image))
  else if token =? 13 then Some (MkResolvedResource 13 0x120000000 4096 3 None)
  else if token =? 20 then Some (MkResolvedResource 20 0x130000000 65536 3 None)
  else None.

(** What the kernel says about a list of operations. *)
Definition verdict (strict : bool) (operations : list Operation) : option (outcome string Z) :=
  let r := compiled operations in
  match SgfxWire.encode r (bindings r) true true with
  | Ok bytes => Some (let? words := validate_and_relocate resolve sample_resolve_shader strict bytes in Ok (len words))
  | _ => None
  end.

Example frame_accepted : verdict false frame = Some (Ok 1020).
Proof. by vm_compute. Qed.

Definition pass_of (draws : list Operation) : list Operation :=
  [BeginRenderPass (mk_pass 1 (mk_rect 0 0 64 64) Load Store None);
   SetPipeline 7; SetVertexBuffer 3 0; SetUniforms (mk_uniforms (replicate 16 0) (mk_color 0 0 0 0))]
  ++ draws ++ [EndRenderPass].

(** The stricter diagnostic mode accepts passes of one pipeline. *)
Example strict_single : verdict true (pass_of [Draw 3 0; Draw 3 3]) = Some (Ok 480).
Proof. by vm_compute. Qed.

(** It wants the state that opens a batch before every complete draw, which the
    emitter writes once for each batch. *)
Example strict_switch :
  verdict true (pass_of [Draw 3 0; SetPipeline 8; SetTexture 2; SetSampler sampler; Draw 3 0])
  = Some (Err "qcom-adreno-a618: incomplete canonical 3D pipeline state"%string).
Proof. by vm_compute. Qed.

(** A colour conversion on an image that is not NV12 passes validation, and the
    surface then asks for a second plane the image does not have. *)
Definition lone_conversion (id : Z) : ResourceMeta :=
  mk_resource id 16384 (Image (mk_image (Some (mk_conversion Bt601 Limited Cosited Cosited)) None
    Ir.Bgra8Unorm Ir.Bgra8Unorm (mk_extent 64 64) every_usage LinearModifier
    [mk_plane 0 256 16384])).

Example lone_conversion_panics :
  Compile.compile None (mk_input (a618 (512 * 1024) 65536) [image 1; lone_conversion 2] []
    [CopyTextureToTexture 2 (mk_rect 0 0 8 8) 1 (mk_rect 8 8 8 8)]) = Panic.
Proof. by vm_compute. Qed.
End CodegenSample.
