(* ===== verification/Preparation.v ===== *)
(** * Preparing a submission

    [preparation.rs] and the parts of [asynchronous.rs] between the operations
    of a submission and the chunks of the queue: splitting render passes and
    transfers, placing generated objects in an upload arena, compiling and
    measuring each chunk and retrying chunks that are too large.  The resource
    tables and bindings that [ensure_buffer] and its relatives collect are
    arguments. *)
From S2P Require Import Prelude SubmitWire CodegenModel CodegenCompile SgfxWire.

Module Prep.
Import Ir Codegen SgfxWire.

Definition MAX_TEXTURED_DRAWS_PER_SUBMIT : Z := 512.
Definition UPLOAD_ARENA_BYTES : Z := 8 * 1024 * 1024.
Definition UPLOAD_CHUNK_BYTES : Z := 256 * 1024.
Definition MAX_LOGICAL_BYTES : Z := 64 * 1024 * 1024.

(** ** Fallible code that allocates

    The state is the number of reservations the allocator will still grant,
    [None] when it always does. *)
Definition am (A : Type) : Type := option nat → outcome IrSubmitError (A * option nat).

Definition ret {A} (a : A) : am A := λ p, Ok (a, p).
Definition fail {A} (e : IrSubmitError) : am A := λ _, Err e.
Definition lift {A} (m : outcome IrSubmitError A) : am A := λ p, let? a := m in Ok (a, p).
Definition and_then {A B} (m : am A) (k : A → am B) : am B := λ p, let? (a, p') := m p in k a p'.
Definition reserve : am () := λ p,
  match p with
  | None => Ok ((), None)
  | Some (S n) => Ok ((), Some n)
  | Some O => Err OutOfMemory
  end.

Notation "'do?' x ':=' m 'in' k" := (and_then m (λ x, k))
  (at level 10, x pattern, m at level 200, k at level 200,
   format "'[v' 'do?'  x  ':='  m  'in' '/' k ']'") : rust_scope.

Fixpoint fold {S X} (f : S → X → am S) (s : S) (l : list X) : am S :=
  match l with
  | [] => ret s
  | x :: l => do? s' := f s x in fold f s' l
  end.

Definition unsupported {A} (feature : UnsupportedIrFeature) : outcome IrSubmitError A :=
  Err (Unsupported feature).

(** ** Splitting render passes *)

(** The bindings a pass has set so far. *)
Record RenderReplayState := mk_replay {
  replay_pipeline : option Z;
  replay_vertex : option (Z * Z);
  replay_index : option (Z * Z * IndexFormat);
  replay_texture : option Z;
  replay_sampler : option SamplerDesc;
  replay_uniforms : option DrawUniforms;
  replay_scissor : option PixelRect;
  replay_viewport : option Viewport;
}.

Definition default_replay : RenderReplayState := mk_replay None None None None None None None None.

Definition append (r : RenderReplayState) (operations : list Operation) : list Operation :=
  operations
  ++ match replay_pipeline r with Some p => [SetPipeline p] | None => [] end
  ++ match replay_vertex r with Some (b, o) => [SetVertexBuffer b o] | None => [] end
  ++ match replay_index r with Some (b, o, f) => [SetIndexBuffer b o f] | None => [] end
  ++ match replay_texture r with Some t => [SetTexture t] | None => [] end
  ++ match replay_sampler r with Some s => [SetSampler s] | None => [] end
  ++ match replay_uniforms r with Some u => [SetUniforms u] | None => [] end
  ++ match replay_viewport r with Some v => [SetViewport v] | None => [] end
  ++ match replay_scissor r with Some s => [SetScissor (Some s)] | None => [] end.

(** What an operation of a pass leaves in the replay state. *)
Definition record_replay (r : RenderReplayState) (op : Operation) : RenderReplayState :=
  let '(mk_replay p v i t s u c w) := r in
  match op with
  | SetPipeline p => mk_replay (Some p) v i t s u c w
  | SetVertexBuffer b o => mk_replay p (Some (b, o)) i t s u c w
  | SetIndexBuffer b o f => mk_replay p v (Some (b, o, f)) t s u c w
  | SetTexture t => mk_replay p v i (Some t) s u c w
  | SetSampler s => mk_replay p v i t (Some s) u c w
  | SetUniforms u => mk_replay p v i t s (Some u) c w
  | SetScissor c => mk_replay p v i t s u c w
  | SetViewport w => mk_replay p v i t s u c (Some w)
  | _ => r
  end.

Definition is_draw (op : Operation) : bool :=
  match op with Draw _ _ | DrawIndexed _ _ _ => true | _ => false end.

Definition stored_pass (p : RenderPass) : RenderPass :=
  mk_pass (pass_target p) (pass_area p) (pass_load p) Store
    ((λ d, mk_depth_attachment (depth_target d) (depth_load d) Store) <$> pass_depth p).

Definition loaded_pass (p : RenderPass) : RenderPass :=
  mk_pass (pass_target p) (pass_area p) Load (pass_store p)
    ((λ d, mk_depth_attachment (depth_target d) DepthLoad (depth_store d)) <$> pass_depth p).

(** The last pass that was begun; [None] when there is none. *)
Fixpoint store_last_pass (operations : list Operation) : option (list Operation) :=
  match operations with
  | [] => None
  | op :: rest =>
      match store_last_pass rest with
      | Some rest => Some (op :: rest)
      | None => match op with
                | BeginRenderPass p => Some (BeginRenderPass (stored_pass p) :: rest)
                | _ => None
                end
      end
  end.

Definition force_active_pass_store (operations : list Operation) :
    outcome IrSubmitError (list Operation) :=
  ok_or (store_last_pass operations) (Unsupported ResourceState).

Record Split := mk_split {
  chunks : list (list Operation);
  current : list Operation;
  active : option RenderPass;
  replay : RenderReplayState;
  chunk_draws : Z;
}.

(** A chunk that has reached its limit ends in the middle of the pass; the next
    one begins the pass again and replays its bindings. *)
Definition break_pass (s : Split) : am Split :=
  do? pass := lift (ok_or (active s) (Unsupported ResourceState)) in
  do? stored := lift (force_active_pass_store (current s)) in
  do? _ := reserve in
  ret (mk_split (chunks s ++ [stored ++ [EndRenderPass]])
         (append (replay s) [BeginRenderPass (loaded_pass pass)]) (active s) (replay s) 0).

Definition split_draw (max_draws : Z) (s : Split) (op : Operation) : am Split :=
  let draw_limit :=
    match replay_texture (replay s) with
    | Some _ => Z.min max_draws MAX_TEXTURED_DRAWS_PER_SUBMIT
    | None => max_draws
    end in
  do? s := if draw_limit <=? chunk_draws s then break_pass s else ret s in
  do? n := lift (ok_or (checked_add U64_MAX (chunk_draws s) 1) OutOfMemory) in
  ret (mk_split (chunks s) (current s ++ [op]) (active s) (replay s) n).

Definition split_begin (max_draws : Z) (s : Split) (pass : RenderPass) : am Split :=
  do? s :=
    if (max_draws <=? chunk_draws s) && match current s with [] => false | _ => true end then
      do? _ := reserve in
      ret (mk_split (chunks s ++ [current s]) [] (active s) (replay s) 0)
    else ret s in
  ret (mk_split (chunks s) (current s ++ [BeginRenderPass pass]) (Some pass) default_replay
         (chunk_draws s)).

Definition split_step (max_draws : Z) (s : Split) (op : Operation) : am Split :=
  match op with
  | BeginRenderPass pass => split_begin max_draws s pass
  | EndRenderPass =>
      ret (mk_split (chunks s) (current s ++ [EndRenderPass]) None default_replay (chunk_draws s))
  | Draw _ _ | DrawIndexed _ _ _ => split_draw max_draws s op
  | _ =>
      ret (mk_split (chunks s) (current s ++ [op]) (active s) (record_replay (replay s) op)
             (chunk_draws s))
  end.

Definition split_submission_operations (source : list Operation) (max_draws : Z) :
    am (list (list Operation)) :=
  if max_draws =? 0 then fail (Unsupported ResourceState)
  else
    do? s := fold (split_step max_draws) (mk_split [] [] None default_replay 0) source in
    match current s with
    | [] => ret (chunks s)
    | _ => do? _ := reserve in ret (chunks s ++ [current s])
    end.

(** ** Splitting transfers *)

(** [slice.chunks(n)]; the length of the slice is enough fuel. *)
Fixpoint chunks_of {A} (fuel n : nat) (l : list A) : list (list A) :=
  match fuel, l with
  | S fuel, _ :: _ => take n l :: chunks_of fuel n (drop n l)
  | _, _ => []
  end.

Fixpoint write_pieces (destination offset index : Z) (pieces : list (list Z))
    (chunks : list (list Operation)) : am (list (list Operation)) :=
  match pieces with
  | [] => ret chunks
  | data :: pieces =>
      do? at_ := lift (ok_or (checked_add U64_MAX offset (index * UPLOAD_CHUNK_BYTES))
                         SubmissionTooLarge) in
      do? _ := reserve in
      write_pieces destination offset (index + 1) pieces
        (chunks ++ [[WriteBuffer destination at_ data]])
  end.

Section Core.
Context `{S : !SgfxCore}.

(** The loop over the rows of a texture write takes at least one row a turn. *)
Fixpoint write_rows (fuel : nat) (destination : Z) (area : PixelRect) (bytes_per_row : Z)
    (data : list Z) (max_rows row : Z) (chunks : list (list Operation)) :
    am (list (list Operation)) :=
  match fuel with
  | O => ret chunks
  | Datatypes.S fuel =>
      if row <? rect_height area then
        let height := Z.min max_rows (rect_height area - row) in
        let first := row * bytes_per_row in
        let last := Z.min ((row + height) * bytes_per_row) (len data) in
        do? pixels := lift (ok_or (get_range data first last) (Unsupported TextureUpload)) in
        do? y := lift (add_or_panic U32_MAX (rect_y area) row) in
        do? part := lift (ok_or (rect_new (rect_x area) y (rect_width area) height) IrError) in
        do? _ := reserve in
        write_rows fuel destination area bytes_per_row data max_rows (row + height)
          (chunks ++ [[WriteTexture destination part bytes_per_row pixels]])
      else ret chunks
  end.

Definition rows_per_chunk (area : PixelRect) (bytes_per_row : Z) : Z :=
  let physical_row := rect_width area * 4 in
  let row_budget := Z.max bytes_per_row physical_row in
  let resource_rows := MAX_RESOURCES / 2 in
  as_u32 (Z.min (Z.max (UPLOAD_CHUNK_BYTES / row_budget) 1) resource_rows).

Definition is_transfer (op : Operation) : bool :=
  match op with
  | WriteBuffer _ _ _ | WriteTexture _ _ _ _ | CopyTextureToTexture _ _ _ _
  | BlitTexture _ _ _ _ _ _ => true
  | _ => false
  end.

Definition split_transfer (op : Operation) (chunks : list (list Operation)) :
    am (list (list Operation)) :=
  match op with
  | WriteBuffer destination offset data =>
      write_pieces destination offset 0
        (chunks_of (length data) (Z.to_nat UPLOAD_CHUNK_BYTES) data) chunks
  | WriteTexture destination area bytes_per_row data =>
      if bytes_per_row =? 0 then lift (unsupported TextureUpload)
      else write_rows (Z.to_nat (rect_height area)) destination area bytes_per_row data
             (rows_per_chunk area bytes_per_row) 0 chunks
  | _ => do? _ := reserve in ret (chunks ++ [[op]])
  end.

Definition extend (chunks more : list (list Operation)) : am (list (list Operation)) :=
  match more with
  | [] => ret chunks
  | _ => do? _ := reserve in ret (chunks ++ more)
  end.

Definition split_graphics (chunks : list (list Operation)) (graphics : list Operation) :
    am (list (list Operation)) :=
  do? preceding := split_submission_operations graphics 512 in extend chunks preceding.

Definition async_step (s : list (list Operation) * list Operation) (op : Operation) :
    am (list (list Operation) * list Operation) :=
  let '(chunks, graphics) := s in
  if is_transfer op then
    do? chunks := split_graphics chunks graphics in
    do? chunks := split_transfer op chunks in
    ret (chunks, [])
  else do? _ := reserve in ret (chunks, graphics ++ [op]).

Definition split_async_operations (source : list Operation) : am (list (list Operation)) :=
  do? (chunks, graphics) := fold async_step ([], []) source in split_graphics chunks graphics.

(** ** Placing generated objects *)

Definition Placement : Type := Z * Z * Z.

Record PreparedChunk := mk_chunk {
  compiled : RelocatablePm4;
  placements : list Placement;
}.

Definition is_power_of_two (x : Z) : bool := count_ones x =? 1.

Definition place (s : list Placement * Z) (g : GeneratedObject) :
    outcome IrSubmitError (list Placement * Z) :=
  let '(placements, end_) := s in
  if (len (gen_bytes g) =? 0) || negb (is_power_of_two (alignment g)) then unsupported ResourceState
  else
    let? sum := ok_or (checked_add U64_MAX end_ (alignment g - 1)) SubmissionTooLarge in
    let start := sum .&~ (alignment g - 1) in
    let size := len (gen_bytes g) in
    let? next := ok_or (checked_add U64_MAX start size) SubmissionTooLarge in
    if next <=? UPLOAD_ARENA_BYTES then Ok (placements ++ [(gen_id g, start, size)], next)
    else Err SubmissionTooLarge.

Definition generated_placements (compiled : RelocatablePm4) (end_ : Z) (fits : bool) :
    outcome IrSubmitError (list Placement * Z) :=
  let? _ := require fits OutOfMemory in
  foldM place ([], end_) (generated_objects compiled).

(** ** Compiling a chunk *)

(** What the allocator does during one call: its patience with the compiler, and
    whether the placements fit. *)
Record Allocation := mk_allocation { patience : option nat; placements_fit : bool }.

Definition codegen_error {A} (m : outcome CompileError A) : outcome IrSubmitError A :=
  match m with Ok a => Ok a | Err e => Err (CodegenError e) | Panic => Panic end.

Section Tables.
Context (capabilities : Capabilities) (resources : list ResourceMeta)
        (pipelines : list PipelineMeta) (external : list BoundObject) (native_limit : Z).

Definition prepare_chunk (a : Allocation) (operations : list Operation) (arena_end : Z) :
    outcome IrSubmitError (PreparedChunk * Z) :=
  let? compiled :=
    codegen_error (Compile.compile (patience a) (mk_input capabilities resources pipelines operations)) in
  let? (placements, end_) := generated_placements compiled arena_end (placements_fit a) in
  match encoded_len_for_counts (len (words compiled)) (len (accesses compiled))
          (len (fixups compiled)) with
  | Ok size =>
      if size <=? native_limit then Ok (mk_chunk compiled placements, end_)
      else Err SubmissionTooLarge
  | Err InvalidSize => Err SubmissionTooLarge
  | Err e => Err (SubmitWireError e)
  | Panic => Panic
  end.

(** ** Preparing every chunk *)

(** A buffer of the session, as far as this code looks at it. *)
Record RawBuffer := mk_raw_buffer { raw_buffer : Z; raw_token : Z }.

Inductive PreparedWork :=
| Commands (chunk : PreparedChunk)
| CpuWrite (buffer : RawBuffer) (offset : Z) (data : list Z).

Definition own_buffer_write (resource : ResourceMeta) (offset : Z) (data : list Z) : am (list Z) :=
  match res_kind resource with
  | Buffer usage =>
      if negb (buffer_copy_dst usage) then fail (CodegenError InvalidResource)
      else if (len data =? 0) || negb (len data mod 4 =? 0) || negb (offset mod 4 =? 0)
      then fail (CodegenError UnsupportedFeature)
      else if match checked_add U64_MAX offset (len data) with
              | Some end_ => res_size resource <? end_
              | None => true
              end
      then fail (CodegenError OutOfBounds)
      else do? _ := reserve in ret data
  | _ => fail (CodegenError InvalidResource)
  end.

Definition own_bytes (owned : Z) (more : list Z) : outcome IrSubmitError Z :=
  let? total := ok_or (foldl (λ total n, total ≫= λ t, checked_add U64_MAX t n) (Some owned) more)
                  SubmissionTooLarge in
  if total <=? MAX_LOGICAL_BYTES then Ok total else Err SubmissionTooLarge.

Context (buffers : list RawBuffer) (allocations : nat → Allocation).

Definition prepare_write (destination offset : Z) (data : list Z) : am PreparedWork :=
  do? resource := lift (ok_or (List.find (λ r, res_id r =? destination) resources)
                          ResourceTableMismatch) in
  do? binding := lift (ok_or (List.find (λ b, bool_decide (bound_object b = External destination))
                                external) ResourceTableMismatch) in
  do? buffer := lift (ok_or (List.find (λ b, raw_token b =? attachment_token binding) buffers)
                        ResourceTableMismatch) in
  do? data := own_buffer_write resource offset data in
  ret (CpuWrite buffer offset data).

Definition too_large (e : IrSubmitError) : bool :=
  match e with SubmissionTooLarge | CodegenError CommandBudgetExceeded => true | _ => false end.

Definition count_draws (operations : list Operation) : Z := len (filter is_draw operations).

(** A chunk that was too large is cut in halves of its draws. *)
Definition retry_chunk (e : IrSubmitError) (operations : list Operation) :
    am (list (list Operation)) :=
  let draws := count_draws operations in
  if draws <=? 1 then fail e
  else
    do? retry := split_submission_operations operations (Z.max (draws / 2) 1) in
    if len retry <=? 1 then fail e else do? _ := reserve in ret retry.

(** The chunks that the CPU carries out. *)
Definition single_write (operations : list Operation) : option (Z * Z * list Z) :=
  match operations with
  | [WriteBuffer destination offset data] => Some (destination, offset, data)
  | _ => None
  end.

(** The loop over the stack [pending], whose top comes first here; [k] counts
    the compilations. *)
Fixpoint prepare_pending (fuel k : nat) (pending : list (list Operation))
    (works : list PreparedWork) (owned : Z) : am (option (list PreparedWork)) :=
  match fuel with
  | O => ret None
  | Datatypes.S fuel =>
      match pending with
      | [] => ret (Some works)
      | operations :: pending =>
          match single_write operations with
          | Some (destination, offset, data) =>
              do? work := prepare_write destination offset data in
              do? owned := lift (own_bytes owned [len data]) in
              do? _ := reserve in
              prepare_pending fuel k pending (works ++ [work]) owned
          | None =>
              match prepare_chunk (allocations k) operations 0 with
              | Ok (chunk, end_) =>
                  do? owned := lift (own_bytes owned [end_; len (words (compiled chunk)) * 4]) in
                  do? _ := reserve in
                  prepare_pending fuel (Datatypes.S k) pending (works ++ [Commands chunk]) owned
              | Err e =>
                  if too_large e then
                    do? retry := retry_chunk e operations in
                    prepare_pending fuel (Datatypes.S k) (retry ++ pending) works owned
                  else fail e
              | Panic => lift Panic
              end
          end
      end
  end.

Definition prepare_operations (fuel : nat) (operations : list Operation) :
    am (option (list PreparedWork)) :=
  do? pending := split_async_operations operations in prepare_pending fuel 0 pending [] 0.
End Tables.
End Core.
End Prep.
