(* ===== verification/PreparationFacts.v ===== *)
(** * Splitting a submission changes nothing it does

    [effects] is what a list of operations does to buffers and images, with the
    draws and the bindings each one sees: in every slot what the last operation
    that set it in the pass has set.  The splits of [Preparation.v] give
    chunks that have the same effects, one after the other, as the operations
    they came from, and that keep the discipline of render passes. *)
From S2P Require Import Prelude SubmitWire CodegenModel CodegenCompile CodegenCompileFacts SgfxWire Preparation.

Module PrepFacts.
Import Ir Codegen SgfxWire Prep.

(** ** What a draw sees *)

(** The slot an operation sets. *)
Definition sets_pipeline (op : Operation) : option Z :=
  match op with SetPipeline p => Some p | _ => None end.
Definition sets_vertex (op : Operation) : option (Z * Z) :=
  match op with SetVertexBuffer b o => Some (b, o) | _ => None end.
Definition sets_index (op : Operation) : option (Z * Z * IndexFormat) :=
  match op with SetIndexBuffer b o f => Some (b, o, f) | _ => None end.
Definition sets_texture (op : Operation) : option Z :=
  match op with SetTexture t => Some t | _ => None end.
Definition sets_sampler (op : Operation) : option SamplerDesc :=
  match op with SetSampler s => Some s | _ => None end.
Definition sets_uniforms (op : Operation) : option DrawUniforms :=
  match op with SetUniforms u => Some u | _ => None end.
Definition sets_scissor (op : Operation) : option (option PixelRect) :=
  match op with SetScissor c => Some c | _ => None end.
Definition sets_viewport (op : Operation) : option Viewport :=
  match op with SetViewport w => Some w | _ => None end.

(** The bindings of a draw. *)
Record Bindings := mk_bindings {
  bound_pipeline : option Z;
  bound_vertex : option (Z * Z);
  bound_index : option (Z * Z * IndexFormat);
  bound_texture : option Z;
  bound_sampler : option SamplerDesc;
  bound_uniforms : option DrawUniforms;
  bound_scissor : option PixelRect;
  bound_viewport : option Viewport;
}.

Definition unbound : Bindings := mk_bindings None None None None None None None None.

(** An operation replaces what it sets and keeps the rest. *)
Definition rebind (b : Bindings) (op : Operation) : Bindings :=
  mk_bindings (sets_pipeline op ∪ bound_pipeline b) (sets_vertex op ∪ bound_vertex b)
    (sets_index op ∪ bound_index b) (sets_texture op ∪ bound_texture b) (sets_sampler op ∪ bound_sampler b)
    (sets_uniforms op ∪ bound_uniforms b) (default (bound_scissor b) (sets_scissor op))
    (sets_viewport op ∪ bound_viewport b).

(** Each slot holds what the last operation that set it has set. *)
Lemma bound_last ops :
  foldl rebind unbound ops =
  mk_bindings (last (omap sets_pipeline ops)) (last (omap sets_vertex ops)) (last (omap sets_index ops))
    (last (omap sets_texture ops)) (last (omap sets_sampler ops)) (last (omap sets_uniforms ops))
    (mjoin (last (omap sets_scissor ops))) (last (omap sets_viewport ops)).
Proof.
  assert (∀ A (f : Operation → option A) op l, last (omap f (l ++ [op])) = f op ∪ last (omap f l)) as Hs.
  { intros A f op l. rewrite omap_app, last_app. simpl.
    destruct (f op), (last (omap f l)); done. }
  induction ops as [|op ops IH] using rev_ind; [done|]. rewrite foldl_app, IH, !Hs. unfold rebind. simpl.
  f_equal. by destruct (sets_scissor op), (last (omap sets_scissor ops)).
Qed.

(** ** What operations do *)

Inductive Effect :=
| ByteWritten (destination offset byte : Z)
| RowWritten (destination x y width : Z) (bytes : list Z)
| Transferred (op : Operation)
| ColorCleared (target : Z) (area : PixelRect) (color : Color)
| ColorUndefined (target : Z) (area : PixelRect)
| DepthCleared (target : Z) (area : PixelRect) (value : Z)
| DepthUndefined (target : Z) (area : PixelRect)
| Drawn (attachments : option (Z * PixelRect * option Z)) (bound : Bindings) (op : Operation).

Definition depth_begin (area : PixelRect) (d : DepthAttachment) : list Effect :=
  match depth_load d with
  | DepthLoad => []
  | DepthClear v => [DepthCleared (depth_target d) area v]
  | DepthDontCare => [DepthUndefined (depth_target d) area]
  end.

Definition begin_effects (p : RenderPass) : list Effect :=
  match pass_load p with
  | Load => []
  | Clear c => [ColorCleared (pass_target p) (pass_area p) c]
  | DontCare => [ColorUndefined (pass_target p) (pass_area p)]
  end
  ++ match pass_depth p with Some d => depth_begin (pass_area p) d | None => [] end.

Definition depth_end (area : PixelRect) (d : DepthAttachment) : list Effect :=
  match depth_store d with Store => [] | Discard => [DepthUndefined (depth_target d) area] end.

Definition end_effects (p : RenderPass) : list Effect :=
  match pass_store p with
  | Store => []
  | Discard => [ColorUndefined (pass_target p) (pass_area p)]
  end
  ++ match pass_depth p with Some d => depth_end (pass_area p) d | None => [] end.

Definition attachments (p : RenderPass) : Z * PixelRect * option Z :=
  (pass_target p, pass_area p, depth_target <$> pass_depth p).

Definition row_of (bytes_per_row : Z) (data : list Z) (i : Z) : list Z :=
  slice data (i * bytes_per_row) (Z.min ((i + 1) * bytes_per_row) (len data)).

Definition row_effects (destination : Z) (area : PixelRect) (bytes_per_row : Z) (data : list Z) :
    list Effect :=
  (λ i, RowWritten destination (rect_x area) (rect_y area + i) (rect_width area)
          (row_of bytes_per_row data i)) <$> range (rect_height area).

Definition byte_effects (destination offset : Z) (data : list Z) : list Effect :=
  imap (λ i b, ByteWritten destination (offset + Z.of_nat i) b) data.

Definition transfer_effects (op : Operation) : list Effect :=
  match op with
  | WriteBuffer destination offset data => byte_effects destination offset data
  | WriteTexture destination area bytes_per_row data =>
      row_effects destination area bytes_per_row data
  | _ => [Transferred op]
  end.

(** The pass in progress and its bindings. *)
Definition state : Type := option RenderPass * Bindings.
Definition closed : state := (None, unbound).

Definition next_state (st : state) (op : Operation) : state :=
  match op with
  | BeginRenderPass p => (Some p, unbound)
  | EndRenderPass => closed
  | _ => (st.1, rebind st.2 op)
  end.

Definition effect (st : state) (op : Operation) : list Effect :=
  match op with
  | BeginRenderPass p => begin_effects p
  | EndRenderPass => match st.1 with Some p => end_effects p | None => [] end
  | _ => if is_draw op then [Drawn (attachments <$> st.1) st.2 op]
         else if is_transfer op then transfer_effects op else []
  end.

Fixpoint effects (st : state) (ops : list Operation) : list Effect :=
  match ops with
  | [] => []
  | op :: ops => effect st op ++ effects (next_state st op) ops
  end.

Definition run (st : state) (ops : list Operation) : state := foldl next_state st ops.

(** ** The discipline of passes *)

Definition bracket (open : option bool) (op : Operation) : option bool :=
  match open with
  | None => None
  | Some open =>
      match op with
      | BeginRenderPass _ => if open then None else Some true
      | EndRenderPass => if open then Some false else None
      | _ => if eqb (is_transfer op) open then None else Some open
      end
  end.

Definition brackets (open : bool) (ops : list Operation) : option bool :=
  foldl bracket (Some open) ops.

(** Every pass that begins ends, passes do not nest, their operations are inside
    and transfers outside. *)
Definition bracketed (ops : list Operation) : Prop := brackets false ops = Some false.

Lemma effects_app st l1 l2 : effects st (l1 ++ l2) = effects st l1 ++ effects (run st l1) l2.
Proof.
  revert st. induction l1 as [|op l1 IH]; intros st; simpl; [done|]. by rewrite IH, app_assoc.
Qed.

Lemma run_app st l1 l2 : run st (l1 ++ l2) = run (run st l1) l2.
Proof. apply foldl_app. Qed.

Lemma bracket_stuck l : foldl bracket None l = None.
Proof. by induction l. Qed.

Lemma brackets_app b l1 l2 :
  brackets b (l1 ++ l2) = match brackets b l1 with Some b' => brackets b' l2 | None => None end.
Proof.
  unfold brackets. rewrite foldl_app. destruct (foldl bracket (Some b) l1); [done|].
  apply bracket_stuck.
Qed.

Lemma bracketed_step before op after :
  bracketed (before ++ op :: after) →
  ∃ open, brackets false before = Some open ∧ bracket (Some open) op ≠ None.
Proof.
  unfold bracketed. rewrite brackets_app. destruct (brackets false before) as [open|]; [|done].
  change (brackets open (op :: after)) with (foldl bracket (bracket (Some open) op) after).
  intros H. exists open. split; [done|]. intros Hn. by rewrite Hn, bracket_stuck in H.
Qed.

Lemma count_draws_app l1 l2 : count_draws (l1 ++ l2) = count_draws l1 + count_draws l2.
Proof. unfold count_draws. by rewrite filter_app, len_app. Qed.

Lemma count_draws_nonneg l : 0 ≤ count_draws l.
Proof. apply len_nonneg. Qed.

(** ** Fallible code *)

Definition spec {A} (E : IrSubmitError → Prop) (m : am A) (Q : A → Prop) : Prop :=
  ∀ p, match m p with Ok (a, _) => Q a | Err e => E e | Panic => False end.

Section Spec.
Context (E : IrSubmitError → Prop).

Lemma spec_ret {A} (a : A) (Q : A → Prop) : Q a → spec E (ret a) Q.
Proof. by intros H p. Qed.

Lemma spec_fail {A} e (Q : A → Prop) : E e → spec E (fail e) Q.
Proof. by intros H p. Qed.

Lemma spec_bind {A B} (m : am A) (k : A → am B) P Q :
  spec E m P → (∀ a, P a → spec E (k a) Q) → spec E (and_then m k) Q.
Proof.
  intros Hm Hk p. specialize (Hm p). unfold and_then.
  destruct (m p) as [[a p']| |]; simpl; [by apply Hk|done..].
Qed.

Lemma spec_mono {A} (m : am A) (P Q : A → Prop) : spec E m P → (∀ a, P a → Q a) → spec E m Q.
Proof. intros Hm HPQ p. specialize (Hm p). destruct (m p) as [[a p']| |]; auto. Qed.

Lemma spec_reserve (Q : () → Prop) : E OutOfMemory → Q () → spec E reserve Q.
Proof. by intros HE HQ [[|n]|]. Qed.

Lemma spec_lift {A} (m : outcome IrSubmitError A) Q :
  match m with Ok a => Q a | Err e => E e | Panic => False end → spec E (lift m) Q.
Proof. intros H p. unfold lift. by destruct m. Qed.

Lemma spec_ok_or {A} (o : option A) e (Q : A → Prop) :
  match o with Some a => Q a | None => E e end → spec E (lift (ok_or o e)) Q.
Proof. intros H. apply spec_lift. by destruct o. Qed.

(** [P done s]: what holds of the state once the operations [done] are consumed. *)
Lemma spec_fold {S X} (P : list X → S → Prop) (f : S → X → am S) s0 (l : list X) :
  P [] s0 →
  (∀ before x after s, l = before ++ x :: after → P before s → spec E (f s x) (P (before ++ [x]))) →
  spec E (fold f s0 l) (P l).
Proof.
  intros H0 Hstep.
  assert (∀ before after s, l = before ++ after → P before s → spec E (fold f s after) (P l)) as G.
  { intros before after. revert before. induction after as [|x after IH]; intros before s Hl Hs; simpl.
    - apply spec_ret. by rewrite Hl, app_nil_r.
    - eapply spec_bind; [by eapply Hstep|]. intros s' Hs'.
      apply (IH (before ++ [x])); [by rewrite <-app_assoc|done]. }
  by apply (G []).
Qed.
End Spec.

Lemma spec_weaken {A} (E E' : IrSubmitError → Prop) (m : am A) Q :
  spec E m Q → (∀ e, E e → E' e) → spec E' m Q.
Proof. intros Hm HE p. specialize (Hm p). destruct (m p) as [[a p']| |]; auto. Qed.

(** ** Breaking a pass *)

Definition no_begin (op : Operation) : Prop :=
  match op with BeginRenderPass _ => False | _ => True end.

Lemma store_last_pass_spec ops :
  match store_last_pass ops with
  | Some ops' => ∃ pre p post, ops = pre ++ BeginRenderPass p :: post ∧
      ops' = pre ++ BeginRenderPass (stored_pass p) :: post ∧ Forall no_begin post
  | None => Forall no_begin ops
  end.
Proof.
  induction ops as [|op ops IH]; simpl; [done|]. destruct (store_last_pass ops).
  - destruct IH as (pre & p & post & -> & -> & ?). by exists (op :: pre), p, post.
  - destruct op; try (by constructor). by exists [], pass, ops.
Qed.

Lemma run_closed r post : Forall no_begin post → (run (None, r) post).1 = None.
Proof.
  intros H. revert r. induction H as [|op post Hop _ IH]; intros r; [done|].
  destruct op; simpl; try apply IH. done.
Qed.

(** Until it ends, a pass is known by its attachments. *)
Lemma same_pass p p' r post q :
  Forall no_begin post → attachments p' = attachments p → (run (Some p, r) post).1 = Some q →
  q = p ∧ effects (Some p', r) post = effects (Some p, r) post ∧
  run (Some p', r) post = (Some p', (run (Some p, r) post).2).
Proof.
  intros H HA. revert r. induction H as [|op post Hop HF IH]; intros r Hq.
  { by injection Hq as <-. }
  destruct op; try done; simpl in Hq |- *;
    try (destruct (IH _ Hq) as (-> & -> & ->); repeat split; by rewrite ?HA).
  pose proof (run_closed unbound post ltac:(done)) as HC. unfold run, closed in *.
  by rewrite HC in Hq.
Qed.

Lemma stored_end p : end_effects (stored_pass p) = [].
Proof. destruct p as [? ? ? ? [[]|]]; reflexivity. Qed.

Lemma loaded_begin p : begin_effects (loaded_pass p) = [].
Proof. destruct p as [? ? ? ? [[]|]]; reflexivity. Qed.

Lemma stored_begin p : begin_effects (stored_pass p) = begin_effects p.
Proof. destruct p as [? ? ? ? [[]|]]; reflexivity. Qed.

Lemma loaded_end p : end_effects (loaded_pass p) = end_effects p.
Proof. destruct p as [? ? ? ? [[]|]]; reflexivity. Qed.

Lemma stored_attachments p : attachments (stored_pass p) = attachments p.
Proof. destruct p as [? ? ? ? [[]|]]; reflexivity. Qed.

Lemma loaded_attachments p : attachments (loaded_pass p) = attachments p.
Proof. destruct p as [? ? ? ? [[]|]]; reflexivity. Qed.

Lemma stored_typed p :
  CompileFacts.operation_typed (BeginRenderPass p) →
  CompileFacts.operation_typed (BeginRenderPass (stored_pass p)).
Proof. by destruct p as [? ? ? ? [[]|]]. Qed.

Lemma loaded_typed p :
  CompileFacts.operation_typed (BeginRenderPass p) →
  CompileFacts.operation_typed (BeginRenderPass (loaded_pass p)).
Proof. destruct p as [? ? ? ? [[]|]]; by intros []. Qed.

(** Operations that a stored pass does not change for the checks. *)
Record alike (ops ops' : list Operation) : Prop := {
  al_brackets b : brackets b ops' = brackets b ops;
  al_draws : count_draws ops' = count_draws ops;
  al_typed : Forall CompileFacts.operation_typed ops → Forall CompileFacts.operation_typed ops';
}.

Lemma store_last_ok ops q r :
  run closed ops = (Some q, r) →
  ∃ ops', store_last_pass ops = Some ops' ∧ alike ops ops' ∧
    effects closed (ops' ++ [EndRenderPass]) = effects closed ops.
Proof.
  intros HR. pose proof (store_last_pass_spec ops) as HS.
  destruct (store_last_pass ops) as [ops'|].
  2: { apply (run_closed unbound) in HS. unfold closed in HR. by rewrite HR in HS. }
  destruct HS as (pre & p & post & -> & -> & HN). eexists. split; [done|]. split.
  - split.
    + intros b. rewrite !brackets_app. by destruct (brackets b pre).
    + by rewrite !count_draws_app.
    + rewrite !Forall_app, !Forall_cons. intros (? & ? & ?). split_and!; try done. by apply stored_typed.
  - rewrite run_app in HR. simpl in HR.
    destruct (same_pass p (stored_pass p) unbound post q HN (stored_attachments p)) as (_ & E1 & E2).
    { unfold run in *. by rewrite HR. }
    rewrite <-app_assoc, <-app_comm_cons, (effects_app _ pre (_ :: _ ++ _)), (effects_app _ pre (_ :: post)).
    cbn [effects effect next_state].
    rewrite stored_begin, effects_app, E1, E2. cbn [effects effect fst].
    by rewrite stored_end, !app_nil_r.
Qed.

(** ** Replaying the bindings *)

Lemma append_app r ops : append r ops = ops ++ append r [].
Proof. done. Qed.

(** What the replay state stands for. *)
Definition replayed (r : RenderReplayState) : Bindings :=
  mk_bindings (replay_pipeline r) (replay_vertex r) (replay_index r) (replay_texture r) (replay_sampler r)
    (replay_uniforms r) (replay_scissor r) (replay_viewport r).

Lemma record_binds r op : replayed (record_replay r op) = rebind (replayed r) op.
Proof. destruct r as [[] [] [] [] [] [] [] []]; by destruct op. Qed.

Lemma append_replays p r :
  effects (Some p, unbound) (append r []) = [] ∧
  run (Some p, unbound) (append r []) = (Some p, replayed r) ∧
  brackets true (append r []) = Some true ∧ count_draws (append r []) = 0.
Proof.
  by destruct r as [[] [[]|] [[[]]|] [] [] [] [] []].
Qed.

Definition replay_typed (r : RenderReplayState) : Prop :=
  Forall CompileFacts.operation_typed (append r []).

Lemma record_replay_typed r op :
  replay_typed r → CompileFacts.operation_typed op → replay_typed (record_replay r op).
Proof.
  unfold replay_typed, append. destruct r as [p v i t s u c w].
  cbn [replay_pipeline replay_vertex replay_index replay_texture replay_sampler replay_uniforms
       replay_scissor replay_viewport app].
  rewrite !Forall_app. intros H Hop. destruct op; cbn [record_replay]; try done;
    cbn [replay_pipeline replay_vertex replay_index replay_texture replay_sampler replay_uniforms
       replay_scissor replay_viewport app]; rewrite ?Forall_app;
    destruct_and?; split_and?; try done; try (by constructor).
  destruct scissor; by constructor.
Qed.

(** ** The split of render passes *)

(** Two passes that end alike on the same attachments. *)
Definition same_end (active q : option RenderPass) : Prop :=
  match active, q with
  | Some p, Some q => attachments q = attachments p ∧ end_effects q = end_effects p
  | None, None => True
  | _, _ => False
  end.

Definition well_formed (max_draws : Z) (c : list Operation) : Prop :=
  bracketed c ∧ Forall CompileFacts.operation_typed c ∧ count_draws c ≤ max_draws.

Definition total_draws (cs : list (list Operation)) : Z := foldr Z.add 0 (count_draws <$> cs).

Lemma total_draws_app l1 l2 : total_draws (l1 ++ l2) = total_draws l1 + total_draws l2.
Proof.
  unfold total_draws. rewrite fmap_app. induction (count_draws <$> l1) as [|? ? IH]; csimpl; [done|].
  rewrite IH. lia.
Qed.

Record split_inv (max_draws : Z) (before : list Operation) (s : Split) : Prop := {
  si_effects : concat (effects closed <$> chunks s) ++ effects closed (current s) = effects closed before;
  si_state : run closed before = (active s, replayed (replay s));
  si_current : ∃ q, run closed (current s) = (q, replayed (replay s)) ∧ same_end (active s) q;
  si_brackets : brackets false (current s) = brackets false before;
  si_chunks : Forall (λ c, well_formed max_draws c ∧ 0 < count_draws c) (chunks s);
  si_typed : Forall CompileFacts.operation_typed (current s);
  si_draws : count_draws (current s) = chunk_draws s;
  si_max : chunk_draws s ≤ max_draws;
  si_total : total_draws (chunks s) + chunk_draws s = count_draws before;
  si_active : match active s with
              | Some p => CompileFacts.operation_typed (BeginRenderPass p) | None => True end;
  si_replay : replay_typed (replay s);
}.

(** The state that a check with [open] allows. *)
Definition agrees (open : bool) (st : state) : Prop := if open then is_Some st.1 else st = closed.

Lemma brackets_run b b' st ops : agrees b st → brackets b ops = Some b' → agrees b' (run st ops).
Proof.
  revert b st. induction ops as [|op ops IH]; intros b st Hb.
  { by intros [= <-]. }
  change (brackets b (op :: ops)) with (foldl bracket (bracket (Some b) op) ops).
  intros H. destruct (bracket (Some b) op) as [c|] eqn:Ec; [|by rewrite bracket_stuck in H].
  apply (IH c); [|done]. simpl in Ec.
  destruct op, b; simplify_eq/=; try done.
Qed.

Lemma concat_effects_snoc st cs c :
  concat (effects st <$> cs ++ [c]) = concat (effects st <$> cs) ++ effects st c.
Proof. rewrite fmap_app, concat_app. csimpl. by rewrite app_nil_r. Qed.

Section Split.
Context (E : IrSubmitError → Prop) (HE : E OutOfMemory) (max_draws : Z).
Context (Hmax : 0 < max_draws ≤ U64_MAX).

Lemma append_current s op q :
  run closed (current s) = (q, replayed (replay s)) →
  effects closed (current s ++ [op]) = effects closed (current s) ++ effect (q, replayed (replay s)) op ∧
  run closed (current s ++ [op]) = next_state (q, replayed (replay s)) op.
Proof. intros HR. rewrite effects_app, run_app, HR. simpl. by rewrite app_nil_r. Qed.

(** An operation that only joins the current chunk. *)
Lemma push_inv before s op p r n :
  split_inv max_draws before s → CompileFacts.operation_typed op →
  next_state (active s, replayed (replay s)) op = (p, replayed r) →
  (∀ q, same_end (active s) q → ∃ q', next_state (q, replayed (replay s)) op = (q', replayed r) ∧ same_end p q' ∧
          effect (q, replayed (replay s)) op = effect (active s, replayed (replay s)) op) →
  n = chunk_draws s + count_draws [op] → n ≤ max_draws →
  match p with Some p => CompileFacts.operation_typed (BeginRenderPass p) | None => True end →
  replay_typed r →
  split_inv max_draws (before ++ [op]) (mk_split (chunks s) (current s ++ [op]) p r n).
Proof.
  intros [] Hop Hp Hq Hn Hle Ht Hr. destruct si_current0 as (q & HR & HS).
  destruct (append_current s op q HR) as [E1 E2]. destruct (Hq q HS) as (q' & N1 & N2 & N3).
  split; try done; cbn [chunks current active replay chunk_draws].
  - rewrite E1, effects_app, app_assoc, si_effects0, si_state0. simpl. by rewrite N3, app_nil_r.
  - rewrite run_app, si_state0. done.
  - exists q'. by rewrite E2, N1.
  - rewrite !brackets_app. by rewrite si_brackets0.
  - apply Forall_app. by repeat constructor.
  - rewrite count_draws_app. lia.
  - rewrite count_draws_app. lia.
Qed.

Lemma same_end_attachments p q : same_end p q → attachments <$> q = attachments <$> p.
Proof. destruct p, q; simpl; try done. by intros [-> _]. Qed.


(** A chunk may end where no pass is open. *)
Lemma close_inv before s :
  split_inv max_draws before s → brackets false before = Some false → 0 < chunk_draws s →
  split_inv max_draws before (mk_split (chunks s ++ [current s]) [] (active s) (replay s) 0).
Proof using Hmax.
  intros HI HB Hn. pose proof (brackets_run false _ closed _ eq_refl HB) as HA.
  destruct HI. rewrite si_state0 in HA. apply pair_eq in HA as [HA1 HA2].
  split; try done; cbn [chunks current active replay chunk_draws].
  - by rewrite concat_effects_snoc, app_nil_r.
  - exists None. by rewrite HA1, HA2.
  - apply Forall_app. split; [done|]. constructor; [|constructor].
    split; [|lia]. split_and!; [|done|lia]. unfold bracketed. by rewrite si_brackets0.
  - lia.
  - rewrite total_draws_app. unfold total_draws at 2. simpl. lia.
Qed.

(** A pass that is broken goes on in the next chunk. *)
Lemma break_inv before s :
  split_inv max_draws before s → brackets false before = Some true → 0 < chunk_draws s →
  spec E (break_pass s) (λ s', split_inv max_draws before s' ∧ chunk_draws s' = 0 ∧
                               active s' = active s ∧ replay s' = replay s).
Proof using HE Hmax.
  intros HI HB Hn. pose proof (brackets_run false _ closed _ eq_refl HB) as HA.
  destruct HI. rewrite si_state0 in HA. destruct HA as [p Hp]. simpl in Hp.
  destruct si_current0 as (q & HR & HS). rewrite Hp in *. destruct q as [q|]; [|done].
  destruct (store_last_ok _ _ _ HR) as (stored & Hst & [] & HF). unfold break_pass. rewrite Hp.
  destruct (append_replays (loaded_pass p) (replay s)) as (A1 & A2 & A3 & A4).
  eapply spec_bind; [by apply (spec_ok_or _ _ _ (λ q, q = p))|]. intros ? ->.
  unfold force_active_pass_store. rewrite Hst.
  eapply spec_bind; [by apply (spec_ok_or _ _ _ (λ q, q = stored))|]. intros ? ->.
  eapply spec_bind; [by apply (spec_reserve _ (λ _, True))|]. intros _ _.
  assert (count_draws (stored ++ [EndRenderPass]) = chunk_draws s) as HC.
  { rewrite count_draws_app, al_draws0, si_draws0. by rewrite Z.add_0_r. }
  apply spec_ret. split; [|done]. rewrite (append_app _ [_]).
  split; try done; cbn [chunks current active replay chunk_draws].
  - rewrite concat_effects_snoc, HF. cbn [app effects effect next_state fst].
    by rewrite loaded_begin, A1, !app_nil_r.
  - exists (Some (loaded_pass p)). rewrite run_app. cbn [run foldl next_state]. split; [done|].
    cbn [same_end]. rewrite ?Hp. cbn [same_end]. by rewrite loaded_attachments, loaded_end.
  - rewrite brackets_app. cbn [brackets foldl bracket]. by rewrite HB.
  - apply Forall_app. split; [done|]. constructor; [|constructor]. rewrite HC.
    split; [|done]. split_and!; [|by apply Forall_app; split; [auto|repeat constructor]|lia].
    unfold bracketed. by rewrite brackets_app, al_brackets0, si_brackets0, HB.
  - apply Forall_app. split; [|done]. constructor; [by apply loaded_typed|done].
  - lia.
  - rewrite total_draws_app. unfold total_draws at 2. csimpl. lia.
Qed.

Lemma split_draw_inv before op s open :
  split_inv max_draws before s → is_draw op = true → CompileFacts.operation_typed op →
  brackets false before = Some open → bracket (Some open) op ≠ None →
  spec E (split_draw max_draws s op) (split_inv max_draws (before ++ [op])).
Proof using HE Hmax.
  intros HI Hd Hop HB Hbr. unfold split_draw.
  assert (open = true) as -> by (destruct op, open; done).
  set (draw_limit := match replay_texture (replay s) with Some _ => _ | None => _ end).
  assert (0 < draw_limit ≤ max_draws) as Hlim.
  { unfold draw_limit, MAX_TEXTURED_DRAWS_PER_SUBMIT. case_match; lia. }
  eapply (spec_bind _ _ _ (λ s', split_inv max_draws before s' ∧ chunk_draws s' < max_draws)).
  { destruct (Z.leb_spec draw_limit (chunk_draws s)).
    - eapply spec_mono; [apply break_inv; [done..|lia]|]. intros s' (? & -> & _). split; [done|lia].
    - apply spec_ret. split; [done|lia]. }
  intros s' [HI' Hn]. unfold checked_add.
  destruct (Z.leb_spec (chunk_draws s' + 1) U64_MAX); [|lia].
  eapply spec_bind; [by apply (spec_ok_or _ _ _ (λ n, n = chunk_draws s' + 1))|].
  intros n ->. apply spec_ret.
  assert (∀ q, next_state (q, replayed (replay s')) op = (q, replayed (replay s'))) as HN.
  { intros q. destruct op; try done; by destruct (replay s') as [[] [] [] [] [] [] [] []]. }
  eapply push_inv; try done.
  - intros q Hq. exists q. rewrite HN. split_and!; [done..|].
    pose proof (same_end_attachments _ _ Hq) as Ha. destruct op; try done; simpl; by rewrite Ha.
  - by destruct op.
  - lia.
  - apply (si_active _ _ _ HI').
  - apply (si_replay _ _ _ HI').
Qed.

Lemma split_step_inv before op s open :
  split_inv max_draws before s → CompileFacts.operation_typed op →
  brackets false before = Some open → bracket (Some open) op ≠ None →
  spec E (split_step max_draws s op) (split_inv max_draws (before ++ [op])).
Proof using HE Hmax.
  intros HI Hop HB Hbr.
  pose proof (brackets_run false _ closed _ eq_refl HB) as HA. rewrite (si_state _ _ _ HI) in HA.
  pose proof (si_max _ _ _ HI) as Hle. pose proof (si_active _ _ _ HI) as Hact.
  pose proof (si_replay _ _ _ HI) as Hrep.
  assert (is_draw op = false →
          (match op with BeginRenderPass _ | EndRenderPass => False | _ => True end) →
          split_inv max_draws (before ++ [op])
            (mk_split (chunks s) (current s ++ [op]) (active s) (record_replay (replay s) op) (chunk_draws s)))
    as Hset.
  { intros Hd Hk. eapply push_inv; try done.
    - rewrite record_binds. by destruct op.
    - intros q Hq. exists q. rewrite record_binds. destruct op; try done.
    - unfold count_draws. destruct op; try done; simpl; unfold len; simpl; lia.
    - by apply record_replay_typed. }
  destruct op; try (by apply spec_ret, Hset); cbn [split_step].
  - (* BeginRenderPass *)
    unfold split_begin. simpl in Hbr. destruct open; [done|].
    eapply (spec_bind _ _ _ (λ s', split_inv max_draws before s' ∧ active s' = active s)).
    { destruct (Z.leb_spec max_draws (chunk_draws s)); [|by apply spec_ret]. simpl.
      destruct (current s) eqn:Ec; [by apply spec_ret|].
      eapply spec_bind; [by apply (spec_reserve _ (λ _, True))|]. intros _ _. apply spec_ret.
      rewrite <-Ec. split; [|done]. apply close_inv; [done..|lia]. }
    intros s' [HI' HA']. apply spec_ret. injection HA as HA _. rewrite HA in HA'.
    pose proof (si_max _ _ _ HI').
    eapply push_inv; try done; try exact Hop; try (by constructor); try (unfold count_draws, len; simpl; lia).
    intros q Hq. exists (Some pass). done.
  - (* EndRenderPass *)
    simpl in Hbr. destruct open; [|done]. destruct HA as [p Hp]. simpl in Hp. apply spec_ret.
    eapply push_inv; try done; try exact Hop; try (by constructor); try (unfold count_draws, len; simpl; lia).
    rewrite Hp. intros [q|] Hq; [|done]. exists None. split_and!; [done..|]. apply Hq.
  - by eapply split_draw_inv.
  - by eapply split_draw_inv.
Qed.

Lemma split_ok source :
  bracketed source → Forall CompileFacts.operation_typed source →
  spec E (split_submission_operations source max_draws) (λ cs,
    concat (effects closed <$> cs) = effects closed source ∧
    Forall (well_formed max_draws) cs ∧ total_draws cs = count_draws source ∧
    len cs ≤ count_draws source + 1).
Proof using HE Hmax.
  intros HB HT. unfold split_submission_operations.
  destruct (Z.eqb_spec max_draws 0); [lia|].
  eapply spec_bind.
  { apply (spec_fold _ (split_inv max_draws)).
    - split; try done; cbn [chunk_draws]; try lia; [|by constructor]. by exists None.
    - intros before op after s Hs HI.
      rewrite Hs in HB, HT. apply Forall_app in HT as [_ [Hop _]%Forall_cons].
      destruct (bracketed_step _ _ _ HB) as (open & ? & ?). by eapply split_step_inv. }
  intros s []. assert (len (chunks s) ≤ total_draws (chunks s)) as HL.
  { clear -si_chunks0. unfold total_draws. induction si_chunks0 as [|c cs [_ Hc] _ IH]; csimpl; [done|].
    unfold len in *. simpl. lia. }
  assert (Forall (well_formed max_draws) (chunks s)) as HW.
  { eapply Forall_impl; [exact si_chunks0|]. by intros c []. }
  pose proof (count_draws_nonneg (current s)).
  destruct (current s) eqn:Ec.
  - apply spec_ret. simpl in si_effects0. rewrite app_nil_r in si_effects0.
    change (count_draws []) with 0 in *. split_and!; try done; lia.
  - eapply spec_bind; [by apply (spec_reserve _ (λ _, True))|]. intros _ _. rewrite <-Ec in *.
    apply spec_ret. split_and!.
    + by rewrite concat_effects_snoc.
    + apply Forall_app. split; [done|]. constructor; [|constructor]. split_and!; [|done|lia].
      unfold bracketed. by rewrite si_brackets0.
    + rewrite total_draws_app. unfold total_draws at 2. csimpl. lia.
    + rewrite len_app. unfold len at 2. simpl. lia.
Qed.
End Split.

(** ** The split of transfers *)

Lemma range_app a b : 0 ≤ a → 0 ≤ b → range (a + b) = range a ++ (Z.add a <$> range b).
Proof.
  intros Ha Hb. unfold range. rewrite Z2Nat.inj_add, seq_app, fmap_app by done. f_equal.
  rewrite <-list_fmap_compose. apply list_eq. intros i. rewrite !list_lookup_fmap.
  destruct (decide (i < Z.to_nat b)%nat).
  - rewrite !lookup_seq_lt by done. simpl. f_equal. lia.
  - rewrite !lookup_seq_ge by lia. done.
Qed.

Lemma byte_effects_app d o l1 l2 :
  byte_effects d o (l1 ++ l2) = byte_effects d o l1 ++ byte_effects d (o + len l1) l2.
Proof.
  unfold byte_effects. rewrite imap_app. f_equal. apply imap_ext. intros i b _. unfold len.
  f_equal. simpl. lia.
Qed.

Lemma single_transfer max_draws op :
  CompileFacts.operation_typed op → 0 ≤ max_draws → is_transfer op = true →
  well_formed max_draws [op] ∧ effects closed [op] = transfer_effects op.
Proof.
  intros Hop Hm Ht. split.
  - split_and!; [by destruct op|by repeat constructor|by destruct op].
  - destruct op; try done; simpl; by rewrite app_nil_r.
Qed.

(** [more] is appended and does what [es] says. *)
Definition appended (cs : list (list Operation)) (es : list Effect) (cs' : list (list Operation)) : Prop :=
  ∃ more, cs' = cs ++ more ∧ concat (effects closed <$> more) = es ∧ Forall (well_formed 512) more ∧
          total_draws more = 0.

Lemma appended_cons cs c es es' cs' :
  well_formed 512 c → count_draws c = 0 → effects closed c = es →
  appended (cs ++ [c]) es' cs' → appended cs (es ++ es') cs'.
Proof.
  intros Hw Hc <- (more & -> & <- & HF & HD). exists (c :: more). split_and!.
  - by rewrite <-app_assoc.
  - done.
  - by constructor.
  - unfold total_draws in *. csimpl. lia.
Qed.

Section Transfers.
Context (E : IrSubmitError → Prop) (HE : E OutOfMemory).
Context (HE2 : E SubmissionTooLarge) (HE3 : E (Unsupported TextureUpload)).

Lemma write_pieces_ok d o n fuel l index cs :
  (0 < n)%nat → Z.of_nat n = UPLOAD_CHUNK_BYTES →
  (length l ≤ fuel)%nat → 0 ≤ o → 0 ≤ index → Forall u8 l →
  spec E (write_pieces d o index (chunks_of fuel n l) cs)
    (appended cs (byte_effects d (o + index * UPLOAD_CHUNK_BYTES) l)).
Proof using HE HE2.
  intros Hpos Hn. revert l index cs. induction fuel as [|fuel IH]; intros l index cs Hl Ho Hi HF.
  { destruct l; [|simpl in Hl; lia]. apply spec_ret. exists []. by rewrite app_nil_r. }
  destruct l as [|b l]; [apply spec_ret; exists []; by rewrite app_nil_r|].
  set (l' := b :: l) in *.
  change (chunks_of (S fuel) n l') with (take n l' :: chunks_of fuel n (drop n l')).
  rewrite <-(take_drop n l'), byte_effects_app, take_drop. cbn [write_pieces]. unfold checked_add.
  destruct (_ <=? _); [|apply spec_bind with (λ _, False); [by apply spec_ok_or|done]].
  eapply spec_bind; [by apply (spec_ok_or _ _ _ (λ a, a = o + index * UPLOAD_CHUNK_BYTES))|]. intros ? ->.
  eapply spec_bind; [by apply (spec_reserve _ (λ _, True))|]. intros _ _.
  assert (CompileFacts.operation_typed (WriteBuffer d (o + index * UPLOAD_CHUNK_BYTES) (take n l'))) as Hty.
  { split; [unfold UPLOAD_CHUNK_BYTES; lia|by apply Forall_take]. }
  destruct (single_transfer 512 _ Hty ltac:(lia) eq_refl) as [Hw He].
  eapply spec_mono.
  - apply IH; [|done|lia|by apply Forall_drop]. rewrite length_drop. simpl in *. lia.
  - intros cs' H. eapply appended_cons; [done|done|exact He|].
    destruct (decide (length l' ≤ n)%nat) as [Hle|Hgt].
    + by rewrite drop_ge in * by done.
    + replace (o + index * UPLOAD_CHUNK_BYTES + len (take n l'))
        with (o + (index + 1) * UPLOAD_CHUNK_BYTES); [done|].
      unfold len. rewrite length_take. lia.
Qed.

Lemma row_of_part bpr data row h j :
  0 ≤ bpr → 0 ≤ row → 0 ≤ j < h →
  row * bpr ≤ Z.min ((row + h) * bpr) (len data) →
  row_of bpr (slice data (row * bpr) (Z.min ((row + h) * bpr) (len data))) j = row_of bpr data (row + j).
Proof.
  intros Hb Hr Hj Hle. unfold row_of at 1. set (last := Z.min ((row + h) * bpr) (len data)) in *.
  assert (len (slice data (row * bpr) last) = last - row * bpr) as ->.
  { rewrite length_slice; unfold len in *; nia. }
  assert ((j + 1) * bpr ≤ h * bpr) by nia.
  destruct (Z.le_gt_cases (j * bpr) (Z.min ((j + 1) * bpr) (last - row * bpr))).
  - rewrite slice_slice by nia. unfold row_of. f_equal; nia.
  - unfold row_of, slice. replace (Z.to_nat (_ - j * bpr)) with 0%nat by lia.
    replace (Z.to_nat (_ - (row + j) * bpr)) with 0%nat by nia. done.
Qed.

Context `{S : !SgfxCore} {L : SgfxCoreLaws S}.

Definition rows_from (d : Z) (area : PixelRect) (bpr : Z) (data : list Z) (row n : Z) : list Effect :=
  (λ i, RowWritten d (rect_x area) (rect_y area + i) (rect_width area) (row_of bpr data i))
    <$> (Z.add row <$> range n).

Lemma rows_from_app d area bpr data row a b :
  0 ≤ a → 0 ≤ b →
  rows_from d area bpr data row (a + b)
  = rows_from d area bpr data row a ++ rows_from d area bpr data (row + a) b.
Proof.
  intros Ha Hb. unfold rows_from. rewrite range_app, !fmap_app by done. f_equal.
  rewrite <-!list_fmap_compose. apply list_fmap_ext. intros i x _. simpl. f_equal; [lia|f_equal; lia].
Qed.

Lemma part_effects d area bpr data row h :
  0 ≤ bpr → 0 ≤ row → row * bpr ≤ Z.min ((row + h) * bpr) (len data) →
  row_effects d (mk_rect (rect_x area) (rect_y area + row) (rect_width area) h) bpr
    (slice data (row * bpr) (Z.min ((row + h) * bpr) (len data)))
  = rows_from d area bpr data row h.
Proof.
  intros Hb Hr Hle. unfold row_effects, rows_from. cbn [rect_x rect_y rect_width rect_height].
  rewrite <-list_fmap_compose. apply list_fmap_ext. intros i x Hx.
  assert (0 ≤ x < h) as Hxh by (apply elem_of_range; by eapply list_elem_of_lookup_2).
  simpl. rewrite row_of_part by done. f_equal. lia.
Qed.

Lemma write_rows_ok fuel d area bpr data max_rows row cs :
  valid_rect area → 0 ≤ bpr → Forall u8 data → 0 < max_rows → 0 ≤ row ≤ rect_height area →
  (Z.to_nat (rect_height area - row) ≤ fuel)%nat →
  spec E (write_rows fuel d area bpr data max_rows row cs)
    (appended cs (rows_from d area bpr data row (rect_height area - row))).
Proof using HE HE3 L.
  intros Hv Hb HF Hm. revert row cs.
  assert (∀ cs row, appended cs (rows_from d area bpr data row (rect_height area - row)) cs
            ∨ row < rect_height area) as Hdone.
  { intros cs row. destruct (Z.le_gt_cases (rect_height area) row); [|by right]. left. exists [].
    unfold rows_from, range. replace (Z.to_nat _) with 0%nat by lia. by rewrite app_nil_r. }
  induction fuel as [|fuel IH]; intros row cs Hrow Hf; cbn [write_rows].
  { apply spec_ret. destruct (Hdone cs row); [done|lia]. }
  destruct (Z.ltb_spec row (rect_height area)); [|apply spec_ret; destruct (Hdone cs row); [done|lia]].
  set (h := Z.min max_rows (rect_height area - row)). assert (0 < h ≤ rect_height area - row) as Hh by lia.
  set (last := Z.min ((row + h) * bpr) (len data)).
  eapply (spec_bind _ _ _ (λ px, px = slice data (row * bpr) last ∧ row * bpr ≤ last)).
  { apply spec_ok_or. unfold get_range. destruct (Z.leb_spec (row * bpr) last); [|done].
    destruct (Z.leb_spec last (Z.of_nat (length data))); [done|]. simpl. unfold len in *. lia. }
  intros px [-> Hle]. destruct Hv as (Hx & Hy & Hw & Hh0 & Hxw & Hyh).
  eapply (spec_bind _ _ _ (λ y, y = rect_y area + row)).
  { apply spec_lift. unfold add_or_panic. destruct (Z.leb_spec (rect_y area + row) U32_MAX); [done|lia]. }
  intros ? ->.
  set (part := mk_rect (rect_x area) (rect_y area + row) (rect_width area) h).
  assert (valid_rect part) as Hpart.
  { unfold valid_rect, part, u32, U32_MAX in *. simpl. lia. }
  rewrite (rect_new_valid _ _ _ _ Hpart). fold part.
  eapply spec_bind; [by apply (spec_ok_or _ _ _ (λ r, r = part))|]. intros ? ->.
  eapply spec_bind; [by apply (spec_reserve _ (λ _, True))|]. intros _ _.
  assert (CompileFacts.operation_typed (WriteTexture d part bpr (slice data (row * bpr) last))) as Hty.
  { split_and!; [done..|]. by apply Forall_slice. }
  destruct (single_transfer 512 _ Hty ltac:(lia) eq_refl) as [Hwf He].
  eapply spec_mono; [apply IH; lia|]. intros cs' H'.
  replace (rect_height area - row) with (h + (rect_height area - (row + h))) by lia.
  rewrite rows_from_app by lia. eapply appended_cons; [done|done| |exact H'].
  rewrite He. cbn [transfer_effects]. apply part_effects; [done|lia|exact Hle].
Qed.

Lemma split_transfer_ok op cs :
  is_transfer op = true → CompileFacts.operation_typed op →
  spec E (split_transfer op cs) (appended cs (transfer_effects op)).
Proof using HE HE2 HE3 L.
  intros Ht Hop. assert (0 ≤ 512) as H512 by lia.
  assert (spec E (do? _ := reserve in ret (cs ++ [[op]])) (appended cs (transfer_effects op))) as Hsame.
  { destruct (single_transfer 512 op Hop H512 Ht) as [Hw He].
    eapply spec_bind; [by apply (spec_reserve _ (λ _, True))|]. intros _ _. apply spec_ret.
    rewrite <-(app_nil_r (transfer_effects op)). eapply appended_cons; [done|by destruct op|done|].
    exists []. by rewrite app_nil_r. }
  destruct op; try done; cbn [split_transfer transfer_effects].
  - destruct Hop as [Ho HF].
    replace offset with (offset + 0 * UPLOAD_CHUNK_BYTES) at 2 by lia.
    apply write_pieces_ok; [|apply Z2Nat.id|..]; done || (unfold UPLOAD_CHUNK_BYTES; lia).
  - destruct Hop as (Hv & Hb & HF). case_match; [by apply spec_lift|].
    assert (row_effects destination area bytes_per_row data
            = rows_from destination area bytes_per_row data 0 (rect_height area - 0)) as ->.
    { unfold row_effects, rows_from. rewrite Z.sub_0_r.
      by rewrite (list_fmap_ext (Z.add 0) id), list_fmap_id by done. }
    pose proof Hv as (? & ? & ? & ? & ?). apply write_rows_ok; try done; [|lia..].
    unfold rows_per_chunk, as_u32, MAX_RESOURCES.
    change (1024 / 2) with 512. set (x := UPLOAD_CHUNK_BYTES / _). rewrite Z.mod_small by lia. lia.
Qed.
End Transfers.

(** ** The whole split *)

Record async_inv (before : list Operation) (s : list (list Operation) * list Operation) : Prop := {
  ai_effects : concat (effects closed <$> s.1) ++ effects closed s.2 = effects closed before;
  ai_run : run closed s.2 = run closed before;
  ai_brackets : brackets false s.2 = brackets false before;
  ai_chunks : Forall (well_formed 512) s.1;
  ai_typed : Forall CompileFacts.operation_typed s.2;
  ai_draws : total_draws s.1 + count_draws s.2 = count_draws before;
}.

Definition split_refusal (e : IrSubmitError) : Prop :=
  e = OutOfMemory ∨ e = SubmissionTooLarge ∨ e = Unsupported TextureUpload.

Section Async.
Context `{S : !SgfxCore} {L : SgfxCoreLaws S}.

Lemma split_graphics_ok before s :
  async_inv before s → brackets false before = Some false →
  spec split_refusal (split_graphics s.1 s.2) (λ cs, async_inv before (cs, [])).
Proof.
  intros [] HB. unfold split_graphics.
  assert (split_refusal OutOfMemory) as HO by by left.
  eapply spec_bind; [apply split_ok; [done|done| |done]|].
  { unfold bracketed. by rewrite ai_brackets0. }
  intros more (H1 & H2 & H3 & _).
  assert (async_inv before (s.1 ++ more, [])) as HI.
  { split; cbn [fst snd effects].
    - by rewrite fmap_app, concat_app, H1, app_nil_r.
    - by rewrite (brackets_run false _ closed _ eq_refl HB).
    - by rewrite HB.
    - by apply Forall_app.
    - done.
    - rewrite total_draws_app, H3. change (count_draws []) with 0. lia. }
  unfold extend. destruct more.
  - apply spec_ret. by rewrite app_nil_r in HI.
  - eapply spec_bind; [by apply (spec_reserve _ (λ _, True))|]. intros _ _. by apply spec_ret.
Qed.

Lemma async_step_ok before op s open :
  async_inv before s → CompileFacts.operation_typed op →
  brackets false before = Some open → bracket (Some open) op ≠ None →
  spec split_refusal (async_step s op) (async_inv (before ++ [op])).
Proof using L.
  intros HI Hop HB Hbr. destruct s as [cs g]. unfold async_step.
  pose proof (brackets_run false _ closed _ eq_refl HB) as HA.
  destruct (is_transfer op) eqn:Et.
  - assert (open = false) as -> by (destruct op, open; done). simpl in HA.
    eapply spec_bind; [by apply (split_graphics_ok before (cs, g))|]. intros cs1 [].
    eapply spec_bind.
    { eapply split_transfer_ok; [by left|by right; left|by right; right|done..]. }
    intros cs2 (more & -> & HE & HF & HD). apply spec_ret. cbn [fst snd] in *.
    split; cbn [fst snd effects].
    + rewrite app_nil_r in *. rewrite fmap_app, concat_app, HE, ai_effects0, effects_app, HA.
      f_equal. destruct op; try done; simpl; by rewrite app_nil_r.
    + rewrite run_app, HA. by destruct op.
    + rewrite brackets_app, HB. by destruct op.
    + by apply Forall_app.
    + done.
    + rewrite total_draws_app, HD, count_draws_app, <-ai_draws0.
      assert (count_draws [op] = 0) as -> by by destruct op. lia.
  - eapply spec_bind; [by apply (spec_reserve _ (λ _, True)); [left|]|]. intros _ _. apply spec_ret.
    destruct HI. cbn [fst snd] in *.
    assert (brackets false g = Some open) as Hg by by rewrite ai_brackets0.
    split; cbn [fst snd].
    + by rewrite effects_app, app_assoc, ai_effects0, effects_app, ai_run0.
    + by rewrite !run_app, ai_run0.
    + rewrite !brackets_app. by rewrite Hg, HB.
    + done.
    + apply Forall_app. by repeat constructor.
    + rewrite !count_draws_app. lia.
Qed.

Lemma split_async_ok source :
  bracketed source → Forall CompileFacts.operation_typed source →
  spec split_refusal (split_async_operations source) (λ cs,
    concat (effects closed <$> cs) = effects closed source ∧ Forall (well_formed 512) cs ∧
    total_draws cs = count_draws source).
Proof using L.
  intros HB HT. unfold split_async_operations. eapply spec_bind.
  { apply (spec_fold _ async_inv).
    - by split.
    - intros before op after s Hs HI.
      rewrite Hs in HB, HT. apply Forall_app in HT as [_ [Hop _]%Forall_cons].
      destruct (bracketed_step _ _ _ HB) as (open & ? & ?). by eapply async_step_ok. }
  intros [cs g] HI. eapply spec_mono; [by apply (split_graphics_ok source (cs, g))|].
  intros cs' []. cbn [fst snd effects] in *. rewrite app_nil_r in ai_effects0.
  change (count_draws []) with 0 in *. split_and!; try done. lia.
Qed.
End Async.

(** C14: Splitting a submission at a number of draws changes nothing it does.  For
    operations that keep the discipline of passes, whatever the allocator does,
    the split either runs out of memory or gives chunks that have, one after the
    other, exactly the effects of the operations: every draw with the same
    attachments and, in each of its eight slots, what the last operation of the
    pass that set the slot has set, every clear, and every discard, once.  Each chunk
    keeps the discipline by itself and has no more draws than allowed. *)
Theorem split_preserves (max_draws : Z) (source : list Operation) (p : option nat) :
  0 < max_draws ≤ U64_MAX → bracketed source → Forall CompileFacts.operation_typed source →
  match split_submission_operations source max_draws p with
  | Ok (cs, _) => concat (effects closed <$> cs) = effects closed source ∧
                  Forall (well_formed max_draws) cs ∧ total_draws cs = count_draws source
  | Err e => e = OutOfMemory
  | Panic => False
  end.
Proof.
  intros Hm HB HT.
  pose proof (split_ok (λ e, e = OutOfMemory) eq_refl max_draws Hm source HB HT p) as H.
  destruct (split_submission_operations _ _ _) as [[cs p']| |]; naive_solver.
Qed.
End PrepFacts.
