(* ===== verification/ChunkFacts.v ===== *)
(** * A submission is prepared in chunks

    Preparation ends and never panics, its works do what the operations do,
    generated objects get disjoint places in an arena, and a chunk that is too
    large is cut until it fits. *)
From S2P Require Import Prelude SubmitWire SubmitWireFacts CodegenModel CodegenEmit CodegenCompile CodegenFacts CodegenUploadFacts CodegenCompileFacts.
From S2P Require Import SgfxWire Preparation PreparationFacts.

Module ChunkFacts.
Import Ir Codegen SgfxWire Prep PrepFacts.

(** ** Placement *)

(** [ps] places [gs] one after the other between [lo] and [hi]. *)
Inductive placed : Z → list GeneratedObject → list Placement → Z → Prop :=
| placed_nil lo : placed lo [] [] lo
| placed_cons lo g start gs ps hi :
    lo ≤ start → start mod 64 = 0 → placed (start + len (gen_bytes g)) gs ps hi →
    placed lo (g :: gs) ((gen_id g, start, len (gen_bytes g)) :: ps) hi.

Definition generated_all (from : nat) (gs : list GeneratedObject) : Prop :=
  ∀ i g, gs !! i = Some g → EmitFacts.generated_good (from + i) g.

Lemma generated_all_cons n g gs :
  generated_all n (g :: gs) → EmitFacts.generated_good n g ∧ generated_all (S n) gs.
Proof.
  intros H. split.
  - specialize (H 0%nat g eq_refl). by rewrite Nat.add_0_r in H.
  - intros i x Hx. specialize (H (S i) x Hx). by rewrite Nat.add_succ_r in H.
Qed.

Lemma place_ok n acc lo gs :
  generated_all n gs → 0 ≤ lo ≤ UPLOAD_ARENA_BYTES →
  match foldM place (acc, lo) gs with
  | Ok (ps', hi) => ∃ ps, ps' = acc ++ ps ∧ placed lo gs ps hi ∧ lo ≤ hi ≤ UPLOAD_ARENA_BYTES
  | Err e => e = SubmissionTooLarge
  | Panic => False
  end.
Proof.
  revert n acc lo. induction gs as [|g gs IH]; intros n acc lo HG Hlo; cbn [foldM place].
  { exists []. rewrite app_nil_r. split_and!; [done|constructor|lia..]. }
  apply generated_all_cons in HG as [(_ & _ & HA & Hlen & _) HG].
  rewrite HA. change (is_power_of_two 64) with true.
  destruct (Z.eqb_spec (len (gen_bytes g)) 0); [lia|]. cbn [orb negb].
  unfold checked_add. assert (UPLOAD_ARENA_BYTES = 8388608) as HU by done.
  rewrite (proj2 (Z.leb_le (lo + _) _)) by (unfold U64_MAX; lia). cbn [bind ok_or].
  rewrite (ldiff_align _ 64 6) by done.
  change (64 * ((lo + (64 - 1)) / 64)) with (round_up lo 64).
  pose proof (round_up_bounds lo 64 ltac:(lia)). pose proof (round_up_mod lo 64 ltac:(lia)).
  destruct (_ + _ <=? U64_MAX) eqn:E1; cbn [bind ok_or]; [|done].
  destruct (Z.leb_spec (round_up lo 64 + len (gen_bytes g)) UPLOAD_ARENA_BYTES); cbn [bind]; [|done].
  specialize (IH (S n) (acc ++ [(gen_id g, round_up lo 64, len (gen_bytes g))])
                (round_up lo 64 + len (gen_bytes g)) HG ltac:(lia)).
  destruct (foldM _ _ gs) as [[ps' hi]| |]; [|done..].
  destruct IH as (ps & -> & HP & ?). eexists. rewrite <-app_assoc. split_and!; [done| |lia..].
  by constructor; [lia|done|].
Qed.

Lemma placed_bounds lo gs ps hi :
  placed lo gs ps hi →
  lo ≤ hi ∧ Forall2 (λ g (p : Placement), p.1.1 = gen_id g ∧ p.2 = len (gen_bytes g) ∧
    lo ≤ p.1.2 ∧ p.1.2 + p.2 ≤ hi ∧ p.1.2 mod 64 = 0) gs ps.
Proof.
  induction 1 as [lo|lo g start gs ps hi Hlo Hal _ [Hle IH]]; [by split; [lia|constructor]|].
  pose proof (len_nonneg (gen_bytes g)). split; [lia|]. constructor; [simpl; repeat split; lia|].
  eapply Forall2_impl; [exact IH|]. intros g' p (-> & -> & ? & ? & ?). repeat split; lia.
Qed.

(** ** Compiling a chunk *)

Lemma counts_len w a f :
  0 ≤ w ≤ U32_MAX → 0 ≤ a → 0 ≤ f →
  match encoded_len_for_counts w a f with
  | Ok _ => counts_ok w a f
  | Err e => e = InvalidSize
  | Panic => False
  end.
Proof.
  intros Hw Ha Hf. unfold encoded_len_for_counts.
  assert (match layout w a f with Ok _ => True | Err e => e = InvalidSize | Panic => False end) as HL.
  { unfold layout, ok_or. destruct (_ || _) eqn:Eg; [done|]. bool_to_prop.
    unfold MAX_RESOURCES, MAX_RELOCATIONS, RESOURCE_SIZE, RELOCATION_SIZE, HEADER_SIZE, align_up,
      checked_mul, checked_add, U64_MAX, U32_MAX in *.
    rewrite (proj2 (Z.leb_le (w * 4) _)), (proj2 (Z.leb_le (a * 32) _)), (proj2 (Z.leb_le (f * 32) _)) by lia.
    cbn [bind]. rewrite (proj2 (Z.leb_le (64 + w * 4) _)) by lia. cbn [bind].
    rewrite (proj2 (Z.leb_le (64 + w * 4 + (8 - 1)) _)) by lia. cbn [bind].
    set (r := (64 + w * 4 + (8 - 1)) .&~ (8 - 1)).
    assert (r ≤ 64 + w * 4 + 7).
    { unfold r. rewrite (ldiff_align _ 8 3) by done. zlia. }
    rewrite (proj2 (Z.leb_le (r + a * 32) _)) by lia. cbn [bind].
    rewrite (proj2 (Z.leb_le (r + a * 32 + f * 32) _)) by lia. cbn [bind].
    by destruct (_ || _). }
  destruct (layout w a f) as [l|e|] eqn:El; simpl; [|done..].
  by apply (layout_Ok w a f l) in El as [? _]; [|lia..].
Qed.

(** ** Preparing every chunk *)

(** How a preparation may be refused: never for a wire format or a rectangle of
    its own making. *)
Definition refusal (e : IrSubmitError) : Prop :=
  match e with
  | OutOfMemory | SubmissionTooLarge | ResourceTableMismatch | CodegenError _
  | Unsupported TextureUpload => True
  | _ => False
  end.

Lemma split_refusal_refusal e : split_refusal e → refusal e.
Proof. by intros [->|[->| ->]]. Qed.

Section Prepare.
Context `{S : !SgfxCore} {L : SgfxCoreLaws S}.
Context (capabilities : Capabilities) (resources : list ResourceMeta)
        (pipelines : list PipelineMeta) (external : list BoundObject) (native_limit : Z)
        (buffers : list RawBuffer) (allocations : nat → Allocation).

Definition tables_typed : Prop :=
  Forall CompileFacts.resource_typed resources ∧ u32 (max_linear_pitch capabilities) ∧
  u32 (max_pm4_words capabilities).

Context (Htables : tables_typed).

Abbreviation sizes := (CompileFacts.sizes_of resources).

(** A chunk for the command processor and the operations it was compiled from. *)
Record chunk_ready (ops : list Operation) (c : PreparedChunk) : Prop := {
  cr_compiled : ∃ m, Compile.compile m (mk_input capabilities resources pipelines ops) = Ok (compiled c);
  cr_output : UploadFacts.output_ok sizes (max_pm4_words capabilities) (compiled c);
  cr_placed : ∃ hi, placed 0 (generated_objects (compiled c)) (placements c) hi ∧ hi ≤ UPLOAD_ARENA_BYTES;
  cr_counts : counts_ok (len (words (compiled c))) (len (accesses (compiled c))) (len (fixups (compiled c)));
}.

(** A CPU write stays inside the buffer that the resource is bound to. *)
Definition write_ready (ops : list Operation) (b : RawBuffer) (offset : Z) (data : list Z) : Prop :=
  ∃ resource binding usage, ops = [WriteBuffer (res_id resource) offset data] ∧
    resource ∈ resources ∧ res_kind resource = Buffer usage ∧ buffer_copy_dst usage = true ∧
    0 < len data ∧ offset + len data ≤ res_size resource ∧
    binding ∈ external ∧ bound_object binding = External (res_id resource) ∧
    b ∈ buffers ∧ raw_token b = attachment_token binding.

Definition carries (ops : list Operation) (w : PreparedWork) : Prop :=
  match w with
  | Commands c => chunk_ready ops c
  | CpuWrite b offset data => write_ready ops b offset data
  end.

Lemma prepare_chunk_ok a ops :
  Forall CompileFacts.operation_typed ops →
  match prepare_chunk capabilities resources pipelines native_limit a ops 0 with
  | Ok (c, hi) => chunk_ready ops c
  | Err e => refusal e
  | Panic => False
  end.
Proof using Htables L.
  intros Hops. destruct Htables as (HR & HP & HW). unfold prepare_chunk.
  pose proof (CompileFacts.compile_ok (patience a) (mk_input capabilities resources pipelines ops)) as HC.
  specialize (HC ltac:(by split)). cbn [Codegen.resources Codegen.capabilities] in HC.
  destruct (Compile.compile _ _) as [r|e|] eqn:Ec; cbn [codegen_error bind]; [|done|done].
  unfold generated_placements. destruct (placements_fit a); [|done]. cbn [require bind].
  pose proof (place_ok 0 [] 0 (generated_objects r)) as HPl.
  specialize (HPl ltac:(intros i g; apply (UploadFacts.out_generated _ _ _ HC)) ltac:(done)).
  destruct (foldM place _ _) as [[ps hi]|e|]; cbn [bind]; [|by subst|done].
  destruct HPl as (ps' & -> & HPl & _ & Hhi). cbn [app].
  pose proof (counts_len (len (words r)) (len (accesses r)) (len (fixups r))) as HL.
  specialize (HL ltac:(split; [apply len_nonneg|]; pose proof (UploadFacts.out_budget _ _ _ HC);
                       unfold u32, U32_MAX in *; simpl in *; lia)
                 (len_nonneg _) (len_nonneg _)).
  destruct (encoded_len_for_counts _ _ _) as [size|e|]; [|by subst|done].
  destruct (size <=? native_limit); [|done]. split; eauto.
Qed.

Lemma spec_find {A} (f : A → bool) (l : list A) e (Q : A → Prop) :
  refusal e → (∀ a, a ∈ l → f a = true → Q a) → spec refusal (lift (ok_or (List.find f l) e)) Q.
Proof.
  intros He H. apply spec_ok_or. destruct (List.find f l) eqn:E; [|done].
  apply List.find_some in E as [Hin Hf]. apply H; [by apply list_elem_of_In|done].
Qed.

Lemma prepare_write_ok d offset data :
  spec refusal (prepare_write resources external buffers d offset data)
    (carries [WriteBuffer d offset data]).
Proof.
  unfold prepare_write.
  eapply spec_bind; [apply (spec_find _ _ _ (λ r, r ∈ resources ∧ res_id r = d));
                     [done|by intros r ? ?%Z.eqb_eq]|]. intros r [Hr <-].
  eapply spec_bind; [apply (spec_find _ _ _ (λ b, b ∈ external ∧ bound_object b = External (res_id r)));
                     [done|by intros b ? ?%bool_decide_eq_true]|]. intros b [Hb Hbo].
  eapply spec_bind; [apply (spec_find _ _ _ (λ x, x ∈ buffers ∧ raw_token x = attachment_token b));
                     [done|by intros x ? ?%Z.eqb_eq]|]. intros x [Hx Hxt].
  eapply (spec_bind _ _ _ (λ data', data' = data ∧ 0 < len data ∧ offset + len data ≤ res_size r ∧
            ∃ usage, res_kind r = Buffer usage ∧ buffer_copy_dst usage = true)).
  - unfold own_buffer_write. destruct (res_kind r) as [usage|] eqn:Ek; [|by apply spec_fail].
    destruct (buffer_copy_dst usage) eqn:Eu; [|by apply spec_fail]. cbn [negb].
    destruct (_ || _) eqn:E1; [by apply spec_fail|]. bool_to_prop.
    unfold checked_add. destruct (Z.leb_spec (offset + len data) U64_MAX); [|by apply spec_fail].
    destruct (Z.ltb_spec (res_size r) (offset + len data)); [by apply spec_fail|].
    eapply spec_bind; [by apply (spec_reserve _ (λ _, True))|]. intros _ _. apply spec_ret.
    pose proof (len_nonneg data). split_and!; [done|lia|lia|eauto].
  - intros ? (-> & ? & ? & usage & ? & ?). apply spec_ret. exists r, b, usage. split_and!; done.
Qed.

Lemma own_bytes_ok owned more : spec refusal (lift (own_bytes owned more)) (λ _, True).
Proof.
  apply spec_lift. unfold own_bytes. destruct (foldl _ _ _); simpl; [|done]. by destruct (_ <=? _).
Qed.

(** ** Enough fuel *)

(** A bound on the turns that a stack of chunks can take. *)
Definition weight (cs : list (list Operation)) : Z :=
  foldr (λ c n, 3 * (count_draws c * count_draws c) + 2 + n) 0 cs.

Lemma weight_nonneg cs : 0 ≤ weight cs.
Proof. induction cs as [|c cs IH]; simpl; [done|]. nia. Qed.

Lemma weight_app cs cs' : weight (cs ++ cs') = weight cs + weight cs'.
Proof. induction cs as [|c cs IH]; simpl; [done|]. lia. Qed.

Lemma weight_bounded h cs :
  Forall (λ c, count_draws c ≤ h) cs → weight cs ≤ 3 * h * total_draws cs + 2 * len cs.
Proof.
  unfold total_draws, len. induction 1 as [|c cs Hc _ IH]; csimpl; [lia|].
  pose proof (count_draws_nonneg c). nia.
Qed.

Lemma retry_ok e ops :
  refusal e → well_formed 512 ops →
  spec refusal (retry_chunk e ops) (λ cs, concat (effects closed <$> cs) = effects closed ops ∧
    Forall (well_formed 512) cs ∧ weight cs < weight [ops]).
Proof.
  intros He (HB & HT & Hd). unfold retry_chunk.
  destruct (Z.leb_spec (count_draws ops) 1); [by apply spec_fail|].
  set (d := count_draws ops) in *. assert (Z.max (d / 2) 1 = d / 2) as -> by zlia.
  assert (0 < d / 2 ≤ U64_MAX) as Hh by (unfold U64_MAX; zlia).
  eapply spec_bind; [by apply (split_ok refusal I (d / 2) Hh ops HB HT)|].
  intros cs (H1 & H2 & H3 & H4). fold d in H3, H4.
  destruct (len cs <=? 1); [by apply spec_fail|].
  eapply spec_bind; [by apply (spec_reserve _ (λ _, True))|]. intros _ _. apply spec_ret.
  split_and!; [done| |].
  - eapply Forall_impl; [exact H2|]. intros c (? & ? & ?). split_and!; [done..|zlia].
  - eapply Z.le_lt_trans; [apply (weight_bounded (d / 2))|].
    { eapply Forall_impl; [exact H2|]. by intros c (? & ? & ?). }
    rewrite H3. unfold weight. simpl. fold d. assert (2 * (d / 2) ≤ d) by zlia. nia.
Qed.

Lemma prepare_pending_ok fuel k pending works owned opss :
  Forall (well_formed 512) pending → Forall2 carries opss works →
  spec refusal
    (prepare_pending capabilities resources pipelines external native_limit buffers allocations
       fuel k pending works owned)
    (λ r, match r with
          | None => Z.of_nat fuel ≤ weight pending
          | Some works' => ∃ opss', Forall2 carries opss' works' ∧
              concat (effects closed <$> opss')
              = concat (effects closed <$> opss) ++ concat (effects closed <$> pending)
          end).
Proof using Htables L.
  revert k pending works owned opss.
  induction fuel as [|fuel IH]; intros k pending works owned opss HP HW; cbn [prepare_pending].
  { apply spec_ret. apply weight_nonneg. }
  destruct pending as [|ops pending].
  { apply spec_ret. exists opss. split; [done|]. by rewrite app_nil_r. }
  apply Forall_cons in HP as [Hops HP].
  (* A work that carries [ops] goes to the end. *)
  assert (∀ k w owned, carries ops w →
    spec refusal (prepare_pending capabilities resources pipelines external native_limit buffers
                    allocations fuel k pending (works ++ [w]) owned)
      (λ r, match r with
            | None => Z.of_nat (Datatypes.S fuel) ≤ weight (ops :: pending)
            | Some works' => ∃ opss', Forall2 carries opss' works' ∧
                concat (effects closed <$> opss')
                = concat (effects closed <$> opss) ++ concat (effects closed <$> ops :: pending)
            end)) as Hpush.
  { intros k' w owned' Hw. eapply spec_mono.
    - apply (IH k' pending (works ++ [w]) owned' (opss ++ [ops])); [done|].
      apply Forall2_app; [done|]. by repeat constructor.
    - intros [works'|].
      + intros (opss' & H1 & H2). exists opss'. split; [done|].
        by rewrite H2, concat_effects_snoc, <-app_assoc.
      + intros H. cbn [weight foldr]. fold (weight pending). nia. }
  destruct (single_write ops) as [[[d o] data]|] eqn:Es.
  - assert (ops = [WriteBuffer d o data]) as -> by (destruct ops as [|[] []]; simplify_eq/=; done).
    eapply spec_bind; [apply prepare_write_ok|]. intros w Hw.
    eapply spec_bind; [apply own_bytes_ok|]. intros owned' _.
    eapply spec_bind; [by apply (spec_reserve _ (λ _, True))|]. intros _ _. by apply Hpush.
  - destruct Hops as (HB & HT & Hd).
    pose proof (prepare_chunk_ok (allocations k) ops HT) as HC.
    destruct (prepare_chunk _ _ _ _ _ _ _) as [[c hi]|e|]; [| |done].
    + eapply spec_bind; [apply own_bytes_ok|]. intros owned' _.
      eapply spec_bind; [by apply (spec_reserve _ (λ _, True))|]. intros _ _. by apply Hpush.
    + destruct (too_large e); [|by apply spec_fail].
      eapply spec_bind; [by apply retry_ok|]. intros retry (H1 & H2 & H3).
      eapply spec_mono; [apply (IH _ (retry ++ pending) works owned opss)|]; [by apply Forall_app|done|].
      intros [works'|].
      * intros (opss' & H4 & H5). exists opss'. split; [done|].
        rewrite H5. f_equal. rewrite fmap_app, concat_app, H1. done.
      * rewrite weight_app. change (ops :: pending) with ([ops] ++ pending). rewrite weight_app. lia.
Qed.

(** Preparation ends, and its works do what the operations do. *)
Lemma prepare_operations_ok fuel operations :
  bracketed operations → Forall CompileFacts.operation_typed operations →
  spec refusal
    (prepare_operations capabilities resources pipelines external native_limit buffers allocations
       fuel operations)
    (λ r, match r with
          | None => ∃ cs, total_draws cs = count_draws operations ∧ Z.of_nat fuel ≤ weight cs
          | Some works => ∃ opss, Forall2 carries opss works ∧
              concat (effects closed <$> opss) = effects closed operations
          end).
Proof using Htables L.
  intros HB HT. unfold prepare_operations.
  eapply spec_bind; [eapply spec_weaken; [by apply split_async_ok|apply split_refusal_refusal]|].
  intros cs (H1 & H2 & H3).
  eapply spec_mono; [by apply (prepare_pending_ok fuel 0 cs [] 0 [])|].
  intros [works|] H; [|by exists cs]. by rewrite H1 in H.
Qed.
End Prepare.

(** ** More fuel changes nothing *)

Lemma and_then_mono {A B} (m : am A) (k k' : A → am (option B)) p r :
  (∀ a p', k a p' = r → k' a p' = r) → and_then m k p = r → and_then m k' p = r.
Proof. unfold and_then. intros H. destruct (m p) as [[a p']| |]; simpl; [apply H|done..]. Qed.

Section Fuel.
Context `{S : !SgfxCore} (capabilities : Capabilities) (resources : list ResourceMeta)
        (pipelines : list PipelineMeta) (external : list BoundObject) (native_limit : Z)
        (buffers : list RawBuffer) (allocations : nat → Allocation).

Abbreviation pending_loop :=
  (prepare_pending capabilities resources pipelines external native_limit buffers allocations).

Lemma prepare_pending_mono fuel fuel' k pending works owned p r :
  (fuel ≤ fuel')%nat → (∀ p', r ≠ Ok (None, p')) →
  pending_loop fuel k pending works owned p = r → pending_loop fuel' k pending works owned p = r.
Proof.
  intros Hle Hr. revert fuel' Hle k pending works owned p.
  induction fuel as [|fuel IH]; intros [|fuel'] Hle k pending works owned p; cbn [prepare_pending];
    try lia; try (intros <-; by destruct (Hr p)); try done.
  destruct pending as [|ops pending]; [done|]. destruct (single_write ops) as [[[d o] data]|].
  - apply and_then_mono. intros w p1. apply and_then_mono. intros n p2. apply and_then_mono.
    intros _ p3. apply IH. lia.
  - destruct (prepare_chunk _ _ _ _ _ _ _) as [[c hi]|e|]; [| |done].
    + apply and_then_mono. intros n p2. apply and_then_mono. intros _ p3. apply IH. lia.
    + destruct (too_large e); [|done]. apply and_then_mono. intros retry p2. apply IH. lia.
Qed.

(** Preparing a submission ends.  Every chunk that is too large is cut into
    chunks of at most half its draws, so whatever fits, fails or is retried, some
    fuel is enough, and more fuel gives the same answer: chunks, or an error
    that is neither one of the wire format nor a panic. *)
Lemma preparation_ends {L : SgfxCoreLaws S} operations p :
  tables_typed capabilities resources → bracketed operations →
  Forall CompileFacts.operation_typed operations →
  ∃ n r, (∀ p', r ≠ Ok (None, p')) ∧ (∀ e, r = Err e → refusal e) ∧ r ≠ Panic ∧
    ∀ fuel, (n ≤ fuel)%nat →
      prepare_operations capabilities resources pipelines external native_limit buffers allocations
        fuel operations p = r.
Proof.
  intros HT HB HO. unfold prepare_operations, and_then.
  pose proof (split_async_ok operations HB HO p) as Hs.
  destruct (split_async_operations operations p) as [[cs p1]|e|] eqn:Es; simpl; [| |done].
  2: { exists 0%nat, (Err e). split_and!; try done. intros ? [= <-]. by apply split_refusal_refusal. }
  destruct Hs as (_ & HW & _).
  set (n := Datatypes.S (Z.to_nat (weight cs))). exists n, (pending_loop n 0 cs [] 0 p1).
  pose proof (prepare_pending_ok capabilities resources pipelines external native_limit buffers
                allocations HT n 0 cs [] 0 [] HW ltac:(constructor) p1) as HP.
  pose proof (weight_nonneg cs) as Hnn.
  destruct (pending_loop n 0 cs [] 0 p1) as [[[works|] p2]|e|] eqn:Ep; [| |split_and!; try done|done].
  - split_and!; try done. intros fuel Hf. by apply (prepare_pending_mono n).
  - exfalso. unfold n in HP. lia.
  - by intros ? [= <-].
  - intros fuel Hf. by apply (prepare_pending_mono n).
Qed.
End Fuel.
End ChunkFacts.
