(* ===== verification/AsyncSubmit.v ===== *)
(** * Submitting without waiting

    The rest of [asynchronous.rs]: the upload arenas of a session, the assembly
    of the native chunks and [submit_async].  What the kernel answers when an
    arena is created, and the translation of portable commands to operations
    and tables ([prepare_async] up to its loop), are arguments. *)
From S2P Require Import Prelude SubmitWire CodegenModel SgfxWire Scheduler NativeQueue Preparation.

Module AsyncSubmit.
Import Ir Codegen SgfxWire Prep.

Definition UPLOAD_ARENAS : Z := 4.

(** ** Upload arenas *)

Record Arena := mk_arena { arena : Native.UploadArena; arena_token : Z; logical_size : Z }.

Definition checked_next_power_of_two (x : Z) : option Z :=
  if x <=? 0x8000000000000000 then Some (2 ^ Z.log2_up x) else None.

(** [None] is [SubmissionTooLarge]. *)
Definition upload_arena_size (required : Z) : option Z :=
  match checked_next_power_of_two (Z.max required (64 * 1024)) with
  | Some size => if size <=? UPLOAD_ARENA_BYTES then Some size else None
  | None => None
  end.

Definition commands (w : PreparedWork) : option PreparedChunk :=
  match w with Commands chunk => Some chunk | _ => None end.

Definition chunk_end (c : PreparedChunk) : outcome IrSubmitError Z :=
  foldM (λ m p, let? e := add_or_panic U64_MAX p.1.2 p.2 in Ok (Z.max m e)) 0 (placements c).

(** The bytes each arena must hold, the chunks taking the arenas in turn. *)
Definition required_sizes (works : list PreparedWork) : outcome IrSubmitError (list Z) :=
  foldM (λ required ic,
           let? end_ := chunk_end ic.2 in
           let slot := Z.to_nat (ic.1 mod UPLOAD_ARENAS) in
           Ok (<[slot := Z.max (nth slot required 0) end_]> required))
    (replicate (Z.to_nat UPLOAD_ARENAS) 0) (enumerate (omap commands works)).

Section Session.
Context {HandleError : Type}.

Inductive Rejection :=
| Refused (error : IrSubmitError)
| Observed (error : Native.IrSubmitError HandleError)
| AsyncUnsupported
| ContextMismatch.

Inductive SubmitError := SubmitBusy | Rejected (why : Rejection).

(** The kernel's answer to the creation of a buffer: an error, or the arena and
    the token of its attachment. *)
Variable create : nat → Z → HandleError + (Native.UploadArena * Z).

Fixpoint grow_arenas (slot : nat) (required : list Z) (arenas : list Arena) :
    list Arena * option Rejection :=
  match required with
  | [] => (arenas, None)
  | n :: required =>
      match upload_arena_size n with
      | Some size =>
          if match arenas !! slot with Some a => size <=? logical_size a | None => false end
          then grow_arenas (S slot) required arenas
          else
            match create slot size with
            | inl error => (arenas, Some (Observed (Native.Backend error)))
            | inr (a, token) =>
                let a := mk_arena a token size in
                grow_arenas (S slot) required
                  (if (slot <? length arenas)%nat then <[slot := a]> arenas else arenas ++ [a])
            end
      | None => (arenas, Some (Refused SubmissionTooLarge))
      end
  end.

(** [arenas_fit] is the allocator's answer. *)
Definition prepare_upload_arenas (works : list PreparedWork) (arenas_fit : bool)
    (arenas : list Arena) : outcome Rejection (list Arena * option Rejection) :=
  match required_sizes works with
  | Ok required =>
      let count := Nat.min (length (omap commands works)) (Z.to_nat UPLOAD_ARENAS) in
      if arenas_fit then Ok (grow_arenas 0 (take count required) arenas)
      else Ok (arenas, Some (Refused OutOfMemory))
  | Err e => Ok (arenas, Some (Refused e))
  | Panic => Panic
  end.

(** ** Assembly *)

(** What the allocator answers while one chunk is assembled. *)
Record Assembly := mk_assembly {
  bindings_fit : bool;
  resources_fit : bool;
  relocations_fit : bool;
  uploads_fit : bool;
}.

Definition chunk_bindings (external : list BoundObject) (a : Arena) (c : PreparedChunk) :
    list BoundObject :=
  external
  ++ ((λ p : Placement, mk_bound (Generated p.1.1) (arena_token a) p.1.2 p.2) <$> placements c).

Definition chunk_uploads (c : PreparedChunk) : list (Z * list Z) :=
  zip_with (λ g (p : Placement), (p.1.2, gen_bytes g)) (generated_objects (compiled c)) (placements c).

Definition assemble_chunk (external : list BoundObject) (m : Assembly) (a : Arena)
    (c : PreparedChunk) : outcome IrSubmitError Native.Chunk :=
  let? _ := require (bindings_fit m) OutOfMemory in
  let? bytes := SgfxWire.encode (compiled c) (chunk_bindings external a c) (resources_fit m)
                  (relocations_fit m) in
  let? _ := require (uploads_fit m) OutOfMemory in
  Ok (Native.Commands bytes (arena a) (chunk_uploads c)).

Fixpoint assemble (external : list BoundObject) (assembly : nat → Assembly) (arenas : list Arena)
    (k : nat) (works : list PreparedWork) : outcome IrSubmitError (list Native.Chunk) :=
  match works with
  | [] => Ok []
  | Commands c :: works =>
      let? a := index arenas (Z.of_nat k mod UPLOAD_ARENAS) in
      let? chunk := assemble_chunk external (assembly k) a c in
      let? chunks := assemble external assembly arenas (S k) works in
      Ok (chunk :: chunks)
  | CpuWrite buffer offset data :: works =>
      let? chunks := assemble external assembly arenas k works in
      Ok (Native.WriteBuffer (raw_buffer buffer) offset data :: chunks)
  end.

(** ** Submission *)

(** The answer of the queue to [query_async]. *)
Record AsyncLimits := mk_limits {
  limits_abi_version : Z;
  limits_result : Z;
  limits_reserved : Z;
  limits_reserved2 : Z;
  max_pending_submissions : Z;
  max_opaque_command_size : Z;
}.

Definition limits_ok (raw : Native.GpuRaw) (l : AsyncLimits) : bool :=
  (limits_abi_version l =? Native.GPU_ABI_VERSION raw)
  && (limits_result l =? Native.GPU_RESULT_SUCCESS raw)
  && (limits_reserved l =? 0) && (limits_reserved2 l =? 0)
  && negb (max_pending_submissions l =? 0) && negb (max_opaque_command_size l =? 0).

(** What a command buffer becomes before its chunks are prepared. *)
Record Translation := mk_translation {
  tr_resources : list ResourceMeta;
  tr_pipelines : list PipelineMeta;
  tr_bindings : list BoundObject;
  tr_buffers : list RawBuffer;
  tr_operations : list Operation;
}.

(** What the allocator and the locks answer during one submission. *)
Record Weather := mk_weather {
  memory : option nat;
  allocations : nat → Allocation;
  arenas_fit : bool;
  chunks_fit : bool;
  assembly : nat → Assembly;
  owner_fits : bool;
  unlocked : bool;
  receipts_fit : bool;
  jobs_fit : bool;
}.

Abbreviation queue_state := (@Sched.Scheduler Native.Chunk Z Native.Receipt Z (Native.Failure HandleError)).

Context `{S : !SgfxCore} (raw : Native.GpuRaw).

(** The queue's transport only matters for the sizes of chunks here. *)
Context `{T : !Sched.Transport Native.Chunk Z Native.Receipt Z (Native.Failure HandleError) World}.

Definition refuse {A} (m : outcome IrSubmitError A) : outcome SubmitError A :=
  match m with Ok a => Ok a | Err e => Err (Rejected (Refused e)) | Panic => Panic end.

Definition admission_error (e : Sched.AdmissionError (Native.Failure HandleError)) : SubmitError :=
  match e with
  | Sched.Busy => SubmitBusy
  | Sched.TooLarge => Rejected (Refused SubmissionTooLarge)
  | Sched.OutOfMemory => Rejected (Refused OutOfMemory)
  | Sched.Failed error => Rejected (Observed (Native.into_error error))
  end.

(** [NativeScheduler::enqueue]; [sig] is the signal that was created. *)
Definition enqueue_chunks (w : Weather) (queue : queue_state) (owner : Z)
    (chunks : list Native.Chunk) (sig : option Z) : outcome SubmitError queue_state :=
  match sig with
  | None => Err (admission_error Sched.OutOfMemory)
  | Some sig =>
      if negb (unlocked w) then Err (admission_error Sched.Busy)
      else match Sched.enqueue queue chunks owner sig (receipts_fit w) (jobs_fit w) with
           | Ok queue => Ok queue
           | Err e => Err (admission_error e)
           | Panic => Panic
           end
  end.

(** The chunks of a prepared submission; an empty one is a barrier. *)
Definition finish_chunks (w : Weather) (external : list BoundObject) (arenas : list Arena)
    (works : list PreparedWork) : outcome IrSubmitError (list Native.Chunk) :=
  let? _ := require (chunks_fit w) OutOfMemory in
  let? chunks := assemble external (assembly w) arenas 0 works in
  let? _ := require (owner_fits w) OutOfMemory in
  Ok (match chunks with [] => [Native.Barrier] | _ => chunks end).

(** [submit_async] once the command buffer is accepted: the arenas of the
    session afterwards and the queue, or [None] when the fuel is spent. *)
Definition submit_async (fuel : nat) (w : Weather) (same_context same_table : bool)
    (limits : option AsyncLimits) (capabilities : Capabilities)
    (translated : outcome SubmitError Translation)
    (arenas : list Arena) (queue : queue_state) (owner : Z) (sig : option Z) :
    list Arena * option (outcome SubmitError queue_state) :=
  if negb same_context then (arenas, Some (Err (Rejected ContextMismatch)))
  else if negb same_table then (arenas, Some (Err (Rejected (Refused ResourceTableMismatch))))
  else
    match limits with
    | None => (arenas, Some (Err (Rejected AsyncUnsupported)))
    | Some l =>
        if negb (limits_ok raw l) then (arenas, Some (Err (Rejected AsyncUnsupported)))
        else
          match translated with
          | Err e => (arenas, Some (Err e))
          | Panic => (arenas, Some Panic)
          | Ok t =>
              match prepare_operations capabilities (tr_resources t) (tr_pipelines t)
                      (tr_bindings t) (max_opaque_command_size l) (tr_buffers t) (allocations w)
                      fuel (tr_operations t) (memory w) with
              | Err e => (arenas, Some (Err (Rejected (Refused e))))
              | Panic => (arenas, Some Panic)
              | Ok (None, _) => (arenas, None)
              | Ok (Some works, _) =>
                  match prepare_upload_arenas works (arenas_fit w) arenas with
                  | Ok (arenas, Some why) => (arenas, Some (Err (Rejected why)))
                  | Ok (arenas, None) =>
                      (arenas, Some (let? chunks := refuse (finish_chunks w (tr_bindings t) arenas works) in
                                     enqueue_chunks w queue owner chunks sig))
                  | Err why => (arenas, Some (Err (Rejected why)))
                  | Panic => (arenas, Some Panic)
                  end
              end
          end
    end.
End Session.
End AsyncSubmit.
