(* ===== verification/SubmissionFacts.v ===== *)
(** * A submission is assembled and queued

    From the prepared works to the job the queue takes: the arenas are large
    enough, every chunk is read by the kernel as the compilation it came from,
    and [submit_async] as a whole. *)
From S2P Require Import Prelude SubmitWire SubmitWireFacts SubmitSample Scheduler NativeQueue CodegenModel CodegenEmit.
From S2P Require Import CodegenCompile SgfxWire CodegenFacts CodegenUploadFacts CodegenCompileFacts CodegenSample Preparation PreparationFacts.
From S2P Require Import ChunkFacts AsyncSubmit.

Module SubmissionFacts.
Import Ir Codegen SgfxWire Prep PrepFacts ChunkFacts AsyncSubmit.

(** ** Arenas *)

Definition arena_ok (a : Arena) : Prop := 0 < arena_token a ∧ u64 (arena_token a).

Lemma upload_arena_size_ok n size :
  upload_arena_size n = Some size → n ≤ size ≤ UPLOAD_ARENA_BYTES.
Proof.
  unfold upload_arena_size, checked_next_power_of_two. set (x := Z.max n (64 * 1024)).
  destruct (x <=? _); [|done]. destruct (Z.leb_spec (2 ^ Z.log2_up x) UPLOAD_ARENA_BYTES); [|done].
  intros [= <-]. pose proof (Z.log2_log2_up_spec x ltac:(lia)). lia.
Qed.

Section Arenas.
Context {HandleError : Type} (create : nat → Z → HandleError + (Native.UploadArena * Z)).
Context (Hcreate : ∀ slot size a token, create slot size = inr (a, token) → 0 < token ∧ u64 token).

(** After a success the arenas from [slot] on are large enough, and those before
    have not changed. *)
Lemma grow_arenas_ok slot required arenas :
  Forall arena_ok arenas → (slot ≤ length arenas)%nat →
  let '(arenas', err) := grow_arenas create slot required arenas in
  Forall arena_ok arenas' ∧
  (∀ i, (i < slot)%nat → arenas' !! i = arenas !! i) ∧
  (err = None → ∀ j n, required !! j = Some n →
     ∃ a, arenas' !! (slot + j)%nat = Some a ∧ n ≤ logical_size a).
Proof using Hcreate.
  revert slot arenas. induction required as [|n required IH]; intros slot arenas HA Hs; simpl.
  { done. }
  destruct (upload_arena_size n) as [size|] eqn:En; [|done].
  apply upload_arena_size_ok in En as [Hn _].
  assert (∀ arenas1 a, Forall arena_ok arenas1 → (Datatypes.S slot ≤ length arenas1)%nat →
    (∀ i, (i < slot)%nat → arenas1 !! i = arenas !! i) → arenas1 !! slot = Some a → n ≤ logical_size a →
    let '(arenas', err) := grow_arenas create (Datatypes.S slot) required arenas1 in
    Forall arena_ok arenas' ∧ (∀ i, (i < slot)%nat → arenas' !! i = arenas !! i) ∧
    (err = None → ∀ j m, (n :: required) !! j = Some m →
       ∃ a, arenas' !! (slot + j)%nat = Some a ∧ m ≤ logical_size a)) as Hnext.
  { intros arenas1 a H1 H2 H3 H4 H5. specialize (IH _ _ H1 H2).
    destruct (grow_arenas _ _ _ _) as [arenas' err]. destruct IH as (I1 & I2 & I3).
    split_and!; [done| |].
    - intros i Hi. rewrite I2 by lia. by apply H3.
    - intros He [|j] m Hm; simpl in Hm.
      + injection Hm as <-. exists a. rewrite Nat.add_0_r, I2 by lia. done.
      + destruct (I3 He j m Hm) as (b & ? & ?). exists b. by rewrite Nat.add_succ_r. }
  destruct (match arenas !! slot with Some a => size <=? logical_size a | None => false end) eqn:Eb.
  - destruct (arenas !! slot) as [a|] eqn:Ea; [|done]. bool_to_prop.
    apply (Hnext arenas a); try done; [|lia]. by apply lookup_lt_Some in Ea.
  - destruct (create slot size) as [error|[a token]] eqn:Ec; [done|].
    assert (arena_ok (mk_arena a token size)) as Hok by exact (Hcreate _ _ _ _ Ec).
    destruct (Nat.ltb_spec slot (length arenas)) as [Hlt|Hge].
    + apply (Hnext _ (mk_arena a token size)); [|by rewrite length_insert| | |done].
      * by apply Forall_insert.
      * intros i Hi. rewrite list_lookup_insert_ne; [done|lia].
      * by apply list_lookup_insert_eq.
    + assert (slot = length arenas) as -> by lia.
      apply (Hnext _ (mk_arena a token size)); [|rewrite length_app; simpl; lia| | |done].
      * apply Forall_app. split; [done|]. by constructor.
      * intros i Hi. by rewrite lookup_app_l.
      * by rewrite lookup_app_r, Nat.sub_diag by lia.
Qed.
End Arenas.

(** ** What the arenas must hold *)

Section Assembly.
Context `{S : !SgfxCore} {L : SgfxCoreLaws S} {HandleError : Type}.
Context (capabilities : Capabilities) (resources : list ResourceMeta)
        (pipelines : list PipelineMeta) (external : list BoundObject) (buffers : list RawBuffer).

Abbreviation sizes := (CompileFacts.sizes_of resources).
Abbreviation ready := (chunk_ready capabilities resources pipelines).
Abbreviation carried := (carries capabilities resources pipelines external buffers).

Definition ends_by (c : PreparedChunk) (e : Z) : Prop :=
  Forall (λ p : Placement, 0 ≤ p.1.2 ∧ p.1.2 + p.2 ≤ e) (placements c).

Lemma chunk_end_ok ops c :
  ready ops c → ∃ e, chunk_end c = Ok e ∧ ends_by c e.
Proof.
  intros [_ _ (hi & HP & Hhi) _]. apply placed_bounds in HP as [_ HP].
  assert (Forall (λ p : Placement, 0 ≤ p.1.2 ∧ p.1.2 + p.2 ≤ UPLOAD_ARENA_BYTES) (placements c)) as HF.
  { eapply Forall2_Forall_r; [exact HP|]. apply Forall_true. intros g p (_ & _ & ? & ? & _). lia. }
  clear HP. unfold chunk_end, ends_by.
  assert (∀ m, ∃ e, foldM (λ m p, let? e := add_or_panic U64_MAX p.1.2 p.2 in Ok (Z.max m e)) m
                      (placements c) = Ok e (E := IrSubmitError) ∧ m ≤ e ∧
            Forall (λ p : Placement, 0 ≤ p.1.2 ∧ p.1.2 + p.2 ≤ e) (placements c)) as H.
  { induction HF as [|p ps [H0 H1] _ IH]; intros m; cbn [foldM]; [exists m; split_and!; done|].
    unfold add_or_panic at 1. unfold UPLOAD_ARENA_BYTES in H1.
    rewrite (proj2 (Z.leb_le _ _)) by (unfold U64_MAX; lia). cbn [bind].
    destruct (IH (Z.max m (p.1.2 + p.2))) as (e & -> & ? & ?). exists e.
    split_and!; [done|lia|]. constructor; [lia|done]. }
  destruct (H 0) as (e & ? & _ & ?). by exists e.
Qed.

Lemma required_sizes_ok works :
  Forall (λ c, ∃ ops, ready ops c) (omap commands works) →
  ∃ required, required_sizes works = Ok required ∧ length required = 4%nat ∧
    ∀ k c, omap commands works !! k = Some c →
      ∃ n, required !! (k mod 4)%nat = Some n ∧ ends_by c n.
Proof.
  intros HF. unfold required_sizes.
  assert (∀ (cs : list PreparedChunk) from required,
    Forall (λ c, ∃ ops, ready ops c) cs → length required = 4%nat →
    ∃ required', foldM (λ required ic, let? end_ := chunk_end ic.2 in
                        let slot := Z.to_nat (ic.1 mod UPLOAD_ARENAS) in
                        Ok (<[slot := Z.max (nth slot required 0) end_]> required))
                   required (zip (Z.of_nat <$> seq from (length cs)) cs) = Ok required' (E := IrSubmitError) ∧
      length required' = 4%nat ∧
      (∀ i n, required !! i = Some n → ∃ n', required' !! i = Some n' ∧ n ≤ n') ∧
      ∀ k c, cs !! k = Some c → ∃ n, required' !! ((from + k) mod 4)%nat = Some n ∧ ends_by c n) as G.
  { induction cs as [|c cs IH]; intros from required HC Hlen.
    { exists required. split_and!; [done|done|eauto with lia|done]. }
    cbn [length seq]. rewrite fmap_cons. unfold zip in *. cbn [zip_with foldM].
    apply Forall_cons in HC as [[ops Hc] HC]. destruct (chunk_end_ok ops c Hc) as (e & He & Hends).
    cbn [fst snd]. rewrite He. cbn [bind].
    set (slot := Z.to_nat (Z.of_nat from mod UPLOAD_ARENAS)).
    assert (slot = (from mod 4)%nat) as Hslot.
    { unfold slot, UPLOAD_ARENAS. rewrite <-(Nat2Z.id (from mod 4)), Nat2Z.inj_mod. done. }
    assert (slot < 4)%nat as Hs4 by (rewrite Hslot; by apply Nat.mod_upper_bound).
    destruct (IH (Datatypes.S from) (<[slot := Z.max (nth slot required 0) e]> required) HC)
      as (required' & -> & Hl & Hmono & Hk); [by rewrite length_insert|].
    exists required'. split_and!; [done|done| |].
    - intros i n Hi. destruct (decide (i = slot)) as [->|Hne].
      + destruct (Hmono slot (Z.max (nth slot required 0) e)) as (n' & ? & ?).
        { apply list_lookup_insert_eq. lia. }
        exists n'. split; [done|]. match goal with H : _ ≤ n' |- _ => rewrite (nth_lookup_Some _ _ _ _ Hi) in H; lia end.
      + apply Hmono. rewrite list_lookup_insert_ne by done. done.
    - intros [|k] x Hx; simpl in Hx.
      + injection Hx as <-. rewrite Nat.add_0_r, <-Hslot.
        destruct (Hmono slot (Z.max (nth slot required 0) e)) as (n' & ? & ?).
        { apply list_lookup_insert_eq. lia. }
        exists n'. split; [done|]. eapply Forall_impl; [exact Hends|]. intros p [? ?]. simpl in *. split; lia.
      + destruct (Hk k x Hx) as (n & Hn & ?). exists n. by rewrite Nat.add_succ_r. }
  destruct (G (omap commands works) 0%nat (replicate (Z.to_nat UPLOAD_ARENAS) 0) HF eq_refl)
    as (required & HR & Hl & _ & Hk).
  exists required. split_and!; [|done|done].
  unfold enumerate, range. unfold len. by rewrite Nat2Z.id.
Qed.

(** ** The bindings of a chunk *)

(** What the session binds to the resources of a submission. *)
Record session_ok : Prop := {
  so_external : Forall (λ b, ∃ id, bound_object b = External id ∧ u32 id) external;
  so_region : ∀ b, b ∈ external →
    0 < attachment_token b ∧ u64 (attachment_token b) ∧ 0 ≤ allocation_offset b ∧
    allocation_offset b + bound_size b ≤ U64_MAX;
  so_size : ∀ b id n, b ∈ external → bound_object b = External id → sizes id = Some n → n ≤ bound_size b;
  so_all : ∀ id n, sizes id = Some n → ∃ b, b ∈ external ∧ bound_object b = External id;
}.

Definition placement_binding (token : Z) (p : Placement) : BoundObject :=
  mk_bound (Generated p.1.1) token p.1.2 p.2.

Lemma chunk_bindings_ok ops c a :
  ready ops c → session_ok → arena_ok a →
  WireFacts.bindings_ok sizes (compiled c) (chunk_bindings external a c).
Proof.
  intros HR HS [Ht Ht64]. destruct HR as [_ HO (hi & HP & Hhi) _].
  apply placed_bounds in HP as [_ HP]. pose proof (UploadFacts.out_generated _ _ _ HO) as HG.
  change (λ p : Placement, mk_bound (Generated p.1.1) (arena_token a) p.1.2 p.2)
    with (placement_binding (arena_token a)).
  assert (∀ b, b ∈ placement_binding (arena_token a) <$> placements c →
    ∃ i g p, generated_objects (compiled c) !! i = Some g ∧ placements c !! i = Some p ∧
      EmitFacts.generated_good i g ∧ p.1.1 = gen_id g ∧ p.2 = len (gen_bytes g) ∧ 0 ≤ p.1.2 ∧
      p.1.2 + p.2 ≤ hi ∧ b = placement_binding (arena_token a) p) as Hgen.
  { intros b (p & -> & Hp)%list_elem_of_fmap. apply list_elem_of_lookup_1 in Hp as [i Hi].
    destruct (Forall2_lookup_r _ _ _ _ _ HP Hi) as (g & Hg & H1 & H2 & H3 & H4 & _).
    exists i, g, p. split_and!; auto. }
  destruct HS. split.
  - apply Forall_app. split.
    + eapply Forall_impl; [exact so_external0|]. intros b (id & -> & ?). done.
    + apply Forall_forall. intros b (i & g & p & _ & _ & HGg & Hid & _ & _ & _ & ->)%Hgen.
      simpl. rewrite Hid. apply HGg.
  - intros b [Hb|Hb]%elem_of_app; [by apply so_region0|].
    apply Hgen in Hb as (i & g & p & _ & _ & _ & _ & Hlen & ? & ? & ->). simpl.
    unfold UPLOAD_ARENA_BYTES, U64_MAX in *. split_and!; try done; lia.
  - intros b n [Hb|Hb]%elem_of_app Hn.
    + destruct (proj1 (Forall_forall _ _) so_external0 b Hb) as (id & Hid & _).
      rewrite Hid in Hn. by eapply so_size0.
    + apply Hgen in Hb as (i & g & p & Hg & _ & HGg & Hid & Hlen & _ & _ & ->). simpl in *.
      destruct HGg as (Hgi & _). rewrite Hid, Hgi in Hn. unfold EmitFacts.generated_size in Hn.
      destruct (Z.ltb_spec (Z.of_nat i) 0); [lia|]. rewrite Nat2Z.id, Hg in Hn. simpl in Hn.
      injection Hn as <-. lia.
  - intros o n Hn Hsh. destruct o as [id|id|v]; simpl in *; [| |done].
    + destruct (so_all0 id n Hn) as (b & ? & ?). exists b. split; [|done]. apply elem_of_app. by left.
    + unfold EmitFacts.generated_size in Hn. destruct (Z.ltb_spec id 0); [done|].
      apply fmap_Some in Hn as (g & Hg & _).
      destruct (Forall2_lookup_l _ _ _ _ _ HP Hg) as (p & Hp & Hid & _).
      exists (placement_binding (arena_token a) p). split.
      * apply elem_of_app. right. apply list_elem_of_fmap. exists p. split; [done|].
        by eapply list_elem_of_lookup_2.
      * simpl. rewrite Hid. destruct (HG _ _ Hg) as (-> & _). f_equal. lia.
Qed.
End Assembly.

(** ** Assembling the chunks *)

Lemma encode_fits r bs bytes b1 b2 :
  SgfxWire.encode r bs true true = Ok bytes →
  SgfxWire.encode r bs b1 b2 = Ok bytes ∨ SgfxWire.encode r bs b1 b2 = Err OutOfMemory.
Proof.
  unfold SgfxWire.encode, to_submit. destruct b1, b2; cbn [require bind]; auto.
  destruct (mapM (encode_access _) _); cbn [bind]; auto; done.
Qed.

(** Uploads that follow each other. *)
Inductive in_order : Z → list (Z * list Z) → Prop :=
| in_order_nil lo : in_order lo []
| in_order_cons lo u us : lo ≤ u.1 → in_order (u.1 + len u.2) us → in_order lo (u :: us).

Lemma placed_in_order lo gs ps hi :
  placed lo gs ps hi → in_order lo (zip_with (λ g (p : Placement), (p.1.2, gen_bytes g)) gs ps).
Proof. induction 1; simpl; by constructor. Qed.

Section Queueing.
Context `{S : !SgfxCore} {L : SgfxCoreLaws S}.
Context (capabilities : Capabilities) (resources : list ResourceMeta)
        (pipelines : list PipelineMeta) (external : list BoundObject) (buffers : list RawBuffer).

Abbreviation ready := (chunk_ready capabilities resources pipelines).
Abbreviation carried := (carries capabilities resources pipelines external buffers).

(** [u] puts the bytes of [g] where the chunk's binding of [g] points. *)
Definition uploaded (a : Arena) (c : PreparedChunk) (g : GeneratedObject) (u : Z * list Z) : Prop :=
  u.2 = gen_bytes g ∧ 0 ≤ u.1 ∧ u.1 + len u.2 ≤ logical_size a ∧ u.1 mod 64 = 0 ∧
  mk_bound (Generated (gen_id g)) (arena_token a) u.1 (len u.2) ∈ chunk_bindings external a c.

(** What the queue holds for a list of operations: for commands, bytes that the
    kernel reads as the compiled words with every address resolved, and uploads
    of every generated object to its place in an arena of the session. *)
Definition carried_by (arenas : list Arena) (ops : list Operation) (chunk : Native.Chunk) : Prop :=
  match chunk with
  | Native.Commands bytes buf uploads => ∃ c a d s,
      ready ops c ∧ a ∈ arenas ∧ buf = arena a ∧
      decode bytes = Ok d ∧ submit_of d = Ok s ∧
      WireFacts.delivered (compiled c) (chunk_bindings external a c) s ∧
      Forall2 (uploaded a c) (generated_objects (compiled c)) uploads ∧ in_order 0 uploads
  | Native.WriteBuffer b offset data => ∃ raw, b = raw_buffer raw ∧
      write_ready resources external buffers ops raw offset data
  | Native.Barrier => ops = []
  end.

Context (Htables : tables_typed capabilities resources) (Hsession : session_ok resources external).

Lemma uploads_ok a c lo hi gs ps :
  Forall2 (λ g (p : Placement), p.1.1 = gen_id g ∧ p.2 = len (gen_bytes g) ∧
    lo ≤ p.1.2 ∧ p.1.2 + p.2 ≤ hi ∧ p.1.2 mod 64 = 0) gs ps →
  Forall (λ p : Placement, 0 ≤ p.1.2 ∧ p.1.2 + p.2 ≤ logical_size a) ps →
  (∀ p, p ∈ ps → placement_binding (arena_token a) p ∈ chunk_bindings external a c) →
  Forall2 (uploaded a c) gs (zip_with (λ g (p : Placement), (p.1.2, gen_bytes g)) gs ps).
Proof.
  induction 1 as [|g p gs ps (H1 & H2 & _ & _ & H3) _ IH]; intros HF Hb; simpl; constructor.
  - apply Forall_cons in HF as [[H4 H5] _]. rewrite H2 in H5. split_and!; try done.
    specialize (Hb p (list_elem_of_here _ _)). unfold placement_binding in Hb.
    by rewrite H1, H2 in Hb.
  - apply Forall_cons in HF as [_ HF]. apply IH; [done|]. intros q Hq. apply Hb. by right.
Qed.

Lemma assemble_chunk_ok arenas m a ops c :
  a ∈ arenas → arena_ok a → ends_by c (logical_size a) → ready ops c →
  match assemble_chunk external m a c with
  | Ok chunk => carried_by arenas ops chunk
  | Err e => e = OutOfMemory
  | Panic => False
  end.
Proof using Htables Hsession.
  intros Hin Ha He HR. unfold assemble_chunk. destruct (bindings_fit m); [|done]. cbn [require bind].
  pose proof (chunk_bindings_ok capabilities resources pipelines external ops c a HR Hsession Ha) as HB.
  destruct (WireFacts.encode_delivered (CompileFacts.sizes_of resources) (max_pm4_words capabilities)
              (compiled c) (cr_output _ _ _ _ _ HR) (λ id n, WireFacts.sizes_of_u32 _ _ _ (proj1 Htables))
              (chunk_bindings external a c) HB (cr_counts _ _ _ _ _ HR)) as (bytes & d & s & Henc & Hd & Hs & HD).
  destruct (encode_fits _ _ _ (resources_fit m) (relocations_fit m) Henc) as [-> | ->];
    cbn [bind]; [|done].
  destruct (uploads_fit m); [|done]. cbn [require bind carried_by].
  destruct (cr_placed _ _ _ _ _ HR) as (hi & HP & _). exists c, a, d, s. split_and!; try done.
  - eapply uploads_ok; [apply placed_bounds, HP|exact He|]. intros p Hp. apply elem_of_app. right.
    apply list_elem_of_fmap. by exists p.
  - by eapply placed_in_order.
Qed.

Lemma assemble_ok ms arenas works opss k :
  Forall2 carried opss works → Forall arena_ok arenas →
  (∀ j c, omap commands works !! j = Some c →
     ∃ a, arenas !! ((k + j) mod 4)%nat = Some a ∧ ends_by c (logical_size a)) →
  match assemble external ms arenas k works with
  | Ok chunks => Forall2 (carried_by arenas) opss chunks
  | Err e => e = OutOfMemory
  | Panic => False
  end.
Proof using Htables Hsession.
  intros H2 HA. revert k. induction H2 as [|ops [c|b offset data] opss works Hw _ IH]; intros k Hk;
    cbn [assemble].
  - constructor.
  - destruct (Hk 0%nat c eq_refl) as (a & Ha & He). rewrite Nat.add_0_r in Ha.
    unfold index, UPLOAD_ARENAS.
    assert (Z.to_nat (Z.of_nat k mod 4) = (k mod 4)%nat) as ->.
    { rewrite <-(Nat2Z.id (k mod 4)), Nat2Z.inj_mod. done. }
    rewrite Ha. cbn [bind]. apply list_elem_of_lookup_2 in Ha as Hin.
    pose proof (assemble_chunk_ok arenas (ms k) a ops c Hin) as HC.
    specialize (HC (proj1 (Forall_forall _ _) HA a Hin) He Hw).
    destruct (assemble_chunk _ _ _ _) as [chunk|e|]; cbn [bind]; [|done..].
    specialize (IH (Datatypes.S k)). destruct (assemble _ _ _ _ _) as [chunks|e|]; cbn [bind].
    + constructor; [done|]. apply IH. intros j x Hj. rewrite Nat.add_succ_comm. by apply (Hk (Datatypes.S j)).
    + apply IH. intros j x Hj. rewrite Nat.add_succ_comm. by apply (Hk (Datatypes.S j)).
    + apply IH. intros j x Hj. rewrite Nat.add_succ_comm. by apply (Hk (Datatypes.S j)).
  - specialize (IH k Hk). destruct (assemble _ _ _ _ _) as [chunks|e|]; cbn [bind]; [|done..].
    constructor; [|done]. by exists b.
Qed.

(** ** The arenas of a submission *)

Context {HandleError : Type} (create : nat → Z → HandleError + (Native.UploadArena * Z)).
Context (Hcreate : ∀ slot size a token, create slot size = inr (a, token) → 0 < token ∧ u64 token).

Lemma prepare_upload_arenas_ok works opss fit arenas :
  Forall2 carried opss works → Forall arena_ok arenas →
  match prepare_upload_arenas create works fit arenas with
  | Ok (arenas', None) => Forall arena_ok arenas' ∧
      ∀ k c, omap commands works !! k = Some c →
        ∃ a, arenas' !! (k mod 4)%nat = Some a ∧ ends_by c (logical_size a)
  | Ok (arenas', Some why) => Forall arena_ok arenas' ∧ (∀ e, why = Refused e → refusal e)
  | Err _ | Panic => False
  end.
Proof using Hcreate.
  intros HW HA. unfold prepare_upload_arenas.
  assert (Forall (λ c, ∃ ops, ready ops c) (omap commands works)) as HR.
  { clear -HW. induction HW as [|ops [c|b o d] opss works Hw _ IH]; csimpl; [constructor| |done].
    constructor; [by exists ops|done]. }
  destruct (required_sizes_ok capabilities resources pipelines works HR) as (required & -> & Hl & Hk).
  destruct fit; [|by split; [|intros ? [= <-]]].
  set (count := Nat.min (length (omap commands works)) (Z.to_nat UPLOAD_ARENAS)).
  pose proof (grow_arenas_ok create Hcreate 0 (take count required) arenas HA ltac:(lia)) as HG.
  destruct (grow_arenas _ _ _ _) as [arenas' [why|]] eqn:Eg; destruct HG as (H1 & _ & H3).
  - split; [done|]. intros e ->. clear -Eg. revert Eg. generalize 0%nat arenas.
    induction (take count required) as [|n l IH]; intros slot ars; simpl; [done|].
    destruct (upload_arena_size n); [|by intros [= _ <-]].
    destruct (match _ with Some _ => _ | None => _ end); [apply IH|].
    destruct (create slot _) as [|[]]; [done|apply IH].
  - split; [done|]. intros k c Hc. destruct (Hk k c Hc) as (n & Hn & He).
    destruct (H3 eq_refl (k mod 4)%nat n) as (a & Ha & Hle).
    + apply lookup_take_Some. split; [done|]. apply lookup_lt_Some in Hc.
      pose proof (Nat.mod_upper_bound k 4 ltac:(lia)). pose proof (Nat.Div0.mod_le k 4).
      unfold count. change (Z.to_nat UPLOAD_ARENAS) with 4%nat. lia.
    + exists a. split; [done|]. eapply Forall_impl; [exact He|]. intros p [? ?]. simpl in *. split; lia.
Qed.
End Queueing.

(** ** Submission *)

Section Submit.
Context `{S : !SgfxCore} {L : SgfxCoreLaws S} {HandleError World : Type} (raw : Native.GpuRaw).
Context `{T : !Sched.Transport Native.Chunk Z Native.Receipt Z (Native.Failure HandleError) World}.
Context (capabilities : Capabilities).

Abbreviation queue_state := (@Sched.Scheduler Native.Chunk Z Native.Receipt Z (Native.Failure HandleError)).

(** What the checks of a command buffer establish before its translation: typed
    tables and operations, passes that are opened and closed in turn, and a
    large enough buffer bound to every resource. *)
Record translation_ok (t : Translation) : Prop := {
  to_tables : tables_typed capabilities (tr_resources t);
  to_bracketed : bracketed (tr_operations t);
  to_operations : Forall CompileFacts.operation_typed (tr_operations t);
  to_session : session_ok (tr_resources t) (tr_bindings t);
}.

(** The queue after it took a submission: one more job, whose chunks carry the
    operations, in order. *)
Definition accepted (t : Translation) (arenas : list Arena) (queue queue' : queue_state)
    (owner sig : Z) : Prop :=
  ∃ job opss,
    Sched.jobs queue' = Sched.jobs queue ++ [job] ∧
    Sched.owner job = owner ∧ Sched.signal job = sig ∧ Sched.next job = 0%nat ∧
    Sched.receipts job = [] ∧ Sched.chunks job ≠ [] ∧
    Forall2 (carried_by capabilities (tr_resources t) (tr_pipelines t) (tr_bindings t) (tr_buffers t) arenas)
      opss (Sched.chunks job) ∧
    concat (effects closed <$> opss) = effects closed (tr_operations t).

Lemma finish_chunks_ok w t arenas works opss :
  translation_ok t → Forall arena_ok arenas →
  Forall2 (carries capabilities (tr_resources t) (tr_pipelines t) (tr_bindings t) (tr_buffers t)) opss works →
  (∀ k c, omap commands works !! k = Some c →
     ∃ a, arenas !! (k mod 4)%nat = Some a ∧ ends_by c (logical_size a)) →
  match finish_chunks w (tr_bindings t) arenas works with
  | Ok chunks => chunks ≠ [] ∧ ∃ opss',
      Forall2 (carried_by capabilities (tr_resources t) (tr_pipelines t) (tr_bindings t) (tr_buffers t) arenas)
        opss' chunks ∧
      concat (effects closed <$> opss') = concat (effects closed <$> opss)
  | Err e => e = OutOfMemory
  | Panic => False
  end.
Proof.
  intros [HT _ _ HS] HA HW Hk. unfold finish_chunks. destruct (chunks_fit w); [|done]. cbn [require bind].
  pose proof (assemble_ok capabilities (tr_resources t) (tr_pipelines t) (tr_bindings t) (tr_buffers t)
                HT HS (assembly w) arenas works opss 0 HW HA Hk) as H.
  destruct (assemble _ _ _ _ _) as [chunks|e|]; cbn [bind]; [|done..].
  destruct (owner_fits w); [|done]. cbn [require bind].
  destruct H as [|ops chunk opss chunks]; (split; [done|]).
  - exists [[]]. split; [|done]. by repeat constructor.
  - exists (ops :: opss). split; [|done]. by constructor.
Qed.

Lemma enqueue_chunks_ok w (queue : queue_state) owner chunks sig :
  match enqueue_chunks w queue owner chunks sig with
  | Ok queue' => ∃ job s, sig = Some s ∧ Sched.jobs queue' = Sched.jobs queue ++ [job] ∧
      Sched.owner job = owner ∧ Sched.signal job = s ∧ Sched.next job = 0%nat ∧
      Sched.receipts job = [] ∧ Sched.chunks job = chunks
  | Err e => ∀ er, e = Rejected (Refused er) → refusal er
  | Panic => False
  end.
Proof.
  unfold enqueue_chunks. destruct sig as [sig|]; [|by intros ? [= <-]].
  destruct (unlocked w); [|done]. cbn [negb]. unfold Sched.enqueue.
  destruct (Sched.failure queue); [done|].
  destruct (Sched.total_size _ _) as [b|]; [|by intros ? [= <-]].
  destruct (b <=? _); [|by intros ? [= <-]]. destruct (_ || _) eqn:E; [done|].
  destruct (receipts_fit w); [|by intros ? [= <-]]. destruct (jobs_fit w); [|by intros ? [= <-]].
  cbn [require bind]. bool_to_prop. unfold saturating_add, Sched.MAX_PENDING_BYTES in *.
  unfold add_or_panic. rewrite (proj2 (Z.leb_le _ _)) by (unfold U64_MAX in *; lia). cbn [bind].
  by exists (Sched.mk_job chunks owner sig 0 [] b), sig.
Qed.

(** C13: Submitting without waiting.  For every command buffer that passed its
    checks and whatever the allocator, the kernel and the locks answer,
    [submit_async] ends, never panics, and leaves usable arenas; more fuel gives
    the same answer.  When it accepts, the queue has gained one job, whose
    chunks, one after the other, have the effects of the operations; each chunk
    for the command processor is read by the kernel as a compilation of its
    operations with every symbolic address resolved, its generated objects are
    uploaded to disjoint aligned places inside the arena it is given, and each
    CPU write stays inside its buffer.  When it refuses, the backend's own
    output is never the reason. *)
Theorem submission_accepted (create : nat → Z → HandleError + (Native.UploadArena * Z))
    (w : Weather) same_context same_table limits translated (arenas : list Arena) (queue : queue_state)
    owner sig
    (Hcreate : ∀ slot size a token, create slot size = inr (a, token) → 0 < token ∧ u64 token)
    (Htranslated : ∀ t, translated = Ok t → translation_ok t)
    (Hpanic : translated ≠ Panic)
    (Harenas : Forall arena_ok arenas) :
  ∃ n arenas' r, Forall arena_ok arenas' ∧
    (∀ fuel, (n ≤ fuel)%nat →
       submit_async create raw fuel w same_context same_table limits capabilities translated arenas
         queue owner sig = (arenas', Some r)) ∧
    match r with
    | Ok queue' => ∃ t s, translated = Ok t ∧ sig = Some s ∧ accepted t arenas' queue queue' owner s
    | Err e => translated = Err e ∨ ∀ er, e = Rejected (Refused er) → refusal er
    | Panic => False
    end.
Proof.
  unfold submit_async.
  destruct same_context; cbn [negb]; [|by exists 0%nat, arenas, (Err (Rejected ContextMismatch)); split_and!; [| |right]].
  destruct same_table; cbn [negb];
    [|exists 0%nat, arenas, (Err (Rejected (Refused ResourceTableMismatch))); split_and!; [done..|right; by intros ? [= <-]]].
  destruct limits as [l|]; [|by exists 0%nat, arenas, (Err (Rejected AsyncUnsupported)); split_and!; [| |right]].
  destruct (limits_ok raw l); cbn [negb];
    [|by exists 0%nat, arenas, (Err (Rejected AsyncUnsupported)); split_and!; [| |right]].
  destruct translated as [t|e|]; [|by exists 0%nat, arenas, (Err e); split_and!; [| |left]|done].
  specialize (Htranslated t eq_refl) as Ht. destruct Ht as [HT HB HO HS].
  destruct (preparation_ends capabilities (tr_resources t) (tr_pipelines t) (tr_bindings t)
              (max_opaque_command_size l) (tr_buffers t) (allocations w) (tr_operations t) (memory w) HT HB HO)
    as (n & pr & Hsome & Hr & Hp & Hn).
  assert (match pr with Ok (Some works, _) => ∃ opss,
    Forall2 (carries capabilities (tr_resources t) (tr_pipelines t) (tr_bindings t) (tr_buffers t)) opss works ∧
    concat (effects closed <$> opss) = effects closed (tr_operations t) | _ => True end) as Hworks.
  { pose proof (prepare_operations_ok capabilities (tr_resources t) (tr_pipelines t) (tr_bindings t)
      (max_opaque_command_size l) (tr_buffers t) (allocations w) HT n _ HB HO (memory w)) as H.
    rewrite (Hn n (Nat.le_refl n)) in H. by destruct pr as [[[works|] p]|e|]. }
  exists n.
  destruct pr as [[[works|] p]|e|].
  - destruct Hworks as (opss & HW & Heff).
    pose proof (prepare_upload_arenas_ok capabilities (tr_resources t) (tr_pipelines t) (tr_bindings t)
                  (tr_buffers t) create Hcreate works opss (arenas_fit w) arenas HW Harenas) as HU.
    destruct (prepare_upload_arenas create works (arenas_fit w) arenas) as [[arenas' [why|]]| |] eqn:EU;
      [| |done..].
    + exists arenas', (Err (Rejected why)). split_and!; [apply HU|by intros fuel Hf; rewrite Hn, EU|].
      right. intros er [= ->]. by apply HU.
    + destruct HU as [HA HK]. eexists arenas', _. split_and!; [done|by intros fuel Hf; rewrite Hn, EU|].
      pose proof (finish_chunks_ok w t arenas' works opss (Htranslated t eq_refl) HA HW HK) as HF.
      destruct (finish_chunks _ _ _ _) as [chunks|e|]; cbn [refuse bind]; [| |done].
      2: { right. subst. by intros ? [= <-]. }
      destruct HF as (Hne & opss' & HC & Hc).
      pose proof (enqueue_chunks_ok w queue owner chunks sig) as HE.
      destruct (enqueue_chunks _ _ _ _ _) as [queue'|e|]; [|by right|done].
      destruct HE as (job & s & -> & HJ & H1 & H2 & H3 & H4 & H5). exists t, s. split_and!; [done..|].
      exists job, opss'. rewrite H5. split_and!; try done. congruence.
  - by destruct (Hsome p).
  - exists arenas, (Err (Rejected (Refused e))). split_and!; [done|by intros fuel Hf; rewrite Hn|].
    right. intros er [= <-]. by apply Hr.
  - done.
Qed.
End Submit.
End SubmissionFacts.

(** * A frame, submitted

    The frame of the compiler's sample through the whole of [submit_async]: the
    theorems about preparation and submission applied to it, and the chunks the
    queue takes. *)

Module SubmissionSample.
Import Ir Codegen SgfxWire Prep PrepFacts ChunkFacts AsyncSubmit SubmissionFacts CodegenSample.

#[local] Existing Instance sample_core.
#[local] Existing Instance sample_core_laws.
#[local] Existing Instance NativeFacts.sample_transport.

Lemma frame_bracketed : bracketed frame.
Proof. by vm_compute. Qed.

Lemma frame_typed : Forall CompileFacts.operation_typed frame.
Proof. exact (CompileFacts.in_operations _ input_typed_frame). Qed.

(** Two draws in each chunk: the pass is cut once. *)
Example frame_split :
  match split_submission_operations frame 2 None with
  | Ok (cs, _) => (λ c, (len c, count_draws c)) <$> cs
  | _ => []
  end = [(13, 2); (8, 1)].
Proof. by vm_compute. Qed.

Lemma split_preserves_witness :
  match split_submission_operations frame 2 None with
  | Ok (cs, _) => concat (effects closed <$> cs) = effects closed frame ∧
                  Forall (well_formed 2) cs ∧ total_draws cs = count_draws frame
  | Err e => e = OutOfMemory
  | Panic => False
  end.
Proof. exact (split_preserves 2 frame None ltac:(by split) frame_bracketed frame_typed). Defined.

(** ** The session *)

Definition external : list BoundObject :=
  [mk_bound (External 1) 11 0 16384; mk_bound (External 2) 12 0 16384; mk_bound (External 3) 13 0 96].

Definition translation : Translation :=
  mk_translation [image 1; image 2; buffer 3 96] [solid; textured] external
    [mk_raw_buffer 103 13] frame.

Definition limits : AsyncLimits := mk_limits 1 0 0 0 16 (512 * 1024).

Definition create (slot : nat) (_ : Z) : () + (Native.UploadArena * Z) :=
  inr (Native.mk_arena (Z.of_nat slot) (200 + Z.of_nat slot), 20 + Z.of_nat (slot mod 4)).

Definition weather : Weather :=
  mk_weather None (λ _, mk_allocation None true) true true (λ _, mk_assembly true true true true)
    true true true true.

Definition submitted : list Arena * option (outcome (SubmitError (HandleError := ())) _) :=
  submit_async create NativeFacts.sample_raw 100 weather true true (Some limits)
    (Codegen.capabilities (input frame)) (Ok translation) [] Sched.new 3 (Some 1).

Definition shape (c : Native.Chunk) : Z * list (Z * Z) :=
  match c with
  | Native.Commands bytes a uploads => (Native.arena_id a, (λ u, (u.1, len u.2)) <$> uploads)
  | Native.WriteBuffer b offset data => (-1, [(offset, len data)])
  | Native.Barrier => (-2, [])
  end.

(** A write that the CPU carries out, then one chunk for each transfer and one
    for the pass, each with an arena of its own. *)
Example frame_queued :
  match submitted.2 with
  | Some (Ok q) => (λ j, shape <$> Sched.chunks j) <$> Sched.jobs q
  | _ => []
  end = [[(-1, [(0, 96)]); (0, [(0, 32)]); (1, [(0, 4)]); (2, [(0, 4); (64, 80)])]].
Proof. by vm_compute. Qed.

(** With room for a few words only, the chunk of the pass is cut draw by draw. *)
Example frame_small_budget :
  match (submit_async create NativeFacts.sample_raw 100 weather true true
           (Some (mk_limits 1 0 0 0 16 4096)) (Codegen.capabilities (input frame)) (Ok translation) []
           (Sched.new : Sched.Scheduler) 3 (Some 1)).2 with
  | Some (Ok q) => (λ j, shape <$> Sched.chunks j) <$> Sched.jobs q
  | _ => []
  end = [[(-1, [(0, 96)]); (0, [(0, 32)]); (1, [(0, 4)]); (2, [(0, 4)]); (3, [(0, 4)]);
          (0, [(0, 4); (64, 80)])]].
Proof. by vm_compute. Qed.

Lemma translation_sound : translation_ok (Codegen.capabilities (input frame)) translation.
Proof.
  split.
  - split_and!; [exact (CompileFacts.in_resources _ input_typed_frame)|by vm_compute..].
  - exact frame_bracketed.
  - exact frame_typed.
  - split; unfold translation, tr_bindings, tr_resources, external.
    + repeat apply Forall_cons_2; try apply Forall_nil_2; by eexists.
    + intros b Hb. repeat (apply elem_of_cons in Hb as [->|Hb]; [by vm_compute|]). by apply elem_of_nil in Hb.
    + intros b id n Hb. repeat (apply elem_of_cons in Hb as [->|Hb]; [by intros [= <-] [= <-]|]).
      by apply elem_of_nil in Hb.
    + intros id n (r & [Hr Hid]%List.find_some & _)%fmap_Some. apply Z.eqb_eq in Hid. simpl in Hr.
      destruct Hr as [<-|[<-|[<-|[]]]]; simpl in Hid; subst id; find_bound.
Qed.

Lemma create_tokens slot size a token : create slot size = inr (a, token) → 0 < token ∧ u64 token.
Proof.
  intros [= <- <-]. pose proof (Nat.mod_upper_bound slot 4 ltac:(lia)). unfold u64, U64_MAX. lia.
Qed.

Lemma submission_accepted_witness :
  ∃ n arenas' r, Forall arena_ok arenas' ∧
    (∀ fuel, (n ≤ fuel)%nat →
       submit_async create NativeFacts.sample_raw fuel weather true true (Some limits)
         (Codegen.capabilities (input frame)) (Ok translation) [] Sched.new 3 (Some 1) = (arenas', Some r)) ∧
    match r with
    | Ok queue' => ∃ t s, Ok (E := SubmitError (HandleError := ())) translation = Ok t ∧ Some 1 = Some s ∧
        accepted (Codegen.capabilities (input frame)) t arenas' Sched.new queue' 3 s
    | Err e => Ok translation = Err e ∨ ∀ er, e = Rejected (Refused er) → refusal er
    | Panic => False
    end.
Proof.
  apply (submission_accepted NativeFacts.sample_raw (Codegen.capabilities (input frame)) create weather true true
    (Some limits) (Ok translation) [] Sched.new 3 (Some 1) create_tokens).
  - intros t [= <-]. exact translation_sound.
  - done.
  - constructor.
Defined.
End SubmissionSample.
