(* ===== verification/HidTouch.v ===== *)
(** * The touchscreen: HID reports and touch slots

    [hid.rs] of the Goodix touchscreen: the report descriptor parser, the
    decoder of input reports and the slot tracker; and from its [lib.rs] the
    checks of an input report, the events that a touch frame becomes, and the
    ranges of the axes.  Errors are the messages of the source.  [i32] values
    are integers between [-2^31] and [2^31 - 1]. *)
From S2P Require Import Prelude.

Module Hid.

Definition MAX_REPORT_FIELD_BITS : Z := 32.
Definition MAX_INPUT_REPORT_BITS : Z := 4096.
Definition MAX_INPUT_REPORT_FIELDS : Z := 4096.

Definition I32_MAX : Z := 0x7fffffff.
Definition i32 (x : Z) : Prop := - 0x80000000 ≤ x ≤ I32_MAX.

(** [x as i32], [as i16 as i32] and [as i8 as i32] of an unsigned value. *)
Definition as_signed (bits x : Z) : Z :=
  let low := x mod 2 ^ bits in if low <? 2 ^ (bits - 1) then low else low - 2 ^ bits.

(** [i32::try_from] of an unsigned value. *)
Definition i32_try_from (x : Z) : option Z := if x <=? I32_MAX then Some x else None.

Definition encode_simple_command (command_register opcode : Z) : list Z :=
  [command_register mod 256; command_register / 256; 0; opcode].

Definition decode_input_length (buffer : list Z) : option Z :=
  low ← buffer !! 0%nat; high ← buffer !! 1%nat; Some (low + 256 * high).

(** ** Layouts *)

Record HidField := mk_field {
  report_id : Z;
  bit_offset : Z;
  bit_size : Z;
  logical_minimum : Z;
  logical_maximum : Z;
}.

Record HidTouchLayout := mk_layout {
  layout_report_id : Z;
  tips : list HidField;
  contact_ids : list HidField;
  xs : list HidField;
  ys : list HidField;
  pressures : list HidField;
  touch_majors : list HidField;
  contact_count : option HidField;
}.

Definition contact_capacity (l : HidTouchLayout) : Z :=
  Z.min (Z.min (len (tips l)) (len (xs l))) (len (ys l)).

(** ** The descriptor parser *)

Record HidGlobals := mk_globals {
  usage_page : Z;
  g_logical_minimum : Z;
  logical_maximum_raw : Z;
  logical_maximum_size : Z;
  report_size : Z;
  report_count : Z;
  g_report_id : Z;
}.

Definition new_globals : HidGlobals := mk_globals 0 0 0 0 0 0 0.

(** Reaching [unreachable!] panics. *)
Definition sign_extend_item (value size : Z) : outcome string Z :=
  if size =? 0 then Ok 0
  else if size =? 1 then Ok (as_signed 8 value)
  else if size =? 2 then Ok (as_signed 16 value)
  else if size =? 4 then Ok (as_signed 32 value)
  else Panic.

Definition maximum_of (g : HidGlobals) : outcome string Z :=
  if g_logical_minimum g <? 0
  then sign_extend_item (logical_maximum_raw g) (logical_maximum_size g)
  else ok_or (i32_try_from (logical_maximum_raw g)) "goodix: HID logical maximum exceeds i32"%string.

Fixpoint little_endian (shift : Z) (data : list Z) : Z :=
  match data with
  | [] => 0
  | byte :: data => (byte << shift) .| little_endian (shift + 8) data
  end.

Definition little_endian_item (data : list Z) : Z := little_endian 0 data.

(** The lists of fields that the parser fills, one for each known usage. *)
Record Fields := mk_fields {
  f_tips : list HidField;
  f_contact_ids : list HidField;
  f_x : list HidField;
  f_y : list HidField;
  f_pressure : list HidField;
  f_touch_major : list HidField;
  f_contact_counts : list HidField;
}.

Definition no_fields : Fields := mk_fields [] [] [] [] [] [] [].

(** The usages a touchscreen reports, as pairs of page and usage. *)
Inductive TouchUsage := Tip | ContactId | AxisX | AxisY | Pressure | Major | ContactCount.

Definition touch_usage (page usage : Z) : option TouchUsage :=
  if page =? 0x0d then
    if usage =? 0x42 then Some Tip
    else if usage =? 0x51 then Some ContactId
    else if usage =? 0x30 then Some Pressure
    else if usage =? 0x48 then Some Major
    else if usage =? 0x54 then Some ContactCount
    else None
  else if page =? 0x01 then
    if usage =? 0x30 then Some AxisX
    else if usage =? 0x31 then Some AxisY
    else None
  else None.

Definition push_field (u : TouchUsage) (f : HidField) (s : Fields) : Fields :=
  let '(mk_fields t c x y p m n) := s in
  match u with
  | Tip => mk_fields (t ++ [f]) c x y p m n
  | ContactId => mk_fields t (c ++ [f]) x y p m n
  | AxisX => mk_fields t c (x ++ [f]) y p m n
  | AxisY => mk_fields t c x (y ++ [f]) p m n
  | Pressure => mk_fields t c x y (p ++ [f]) m n
  | Major => mk_fields t c x y p (m ++ [f]) n
  | ContactCount => mk_fields t c x y p m (n ++ [f])
  end.

Record Parser := mk_parser {
  globals : HidGlobals;
  global_stack : list HidGlobals;
  usages : list Z;
  usage_minimum : option Z;
  usage_maximum : option Z;
  input_offsets : list Z;
  fields : Fields;
  touch_collections : list bool;
}.

Definition new_parser : Parser :=
  mk_parser new_globals [] [] None None (replicate 256 0) no_fields [].

Definition set_globals (p : Parser) (g : HidGlobals) : Parser :=
  mk_parser g (global_stack p) (usages p) (usage_minimum p) (usage_maximum p) (input_offsets p)
    (fields p) (touch_collections p).

Definition clear_usages (p : Parser) : Parser :=
  mk_parser (globals p) (global_stack p) [] None None (input_offsets p) (fields p)
    (touch_collections p).

(** The usage of the field [i] of an item: listed, or from the range. *)
Definition usage_of (p : Parser) (i : Z) : option Z :=
  match usages p !! Z.to_nat i with
  | Some usage => Some usage
  | None =>
      minimum ← usage_minimum p;
      maximum ← usage_maximum p;
      usage ← checked_add U32_MAX minimum i;
      if usage <=? maximum then Some usage else None
  end.

(** One field of an input item; the state is the fields and the bit offset. *)
Definition input_field (p : Parser) (variable : bool) (s : Fields * Z) (i : Z) :
    outcome string (Fields * Z) :=
  let g := globals p in
  let '(found, offset) := s in
  let? found :=
    match (if variable then usage_of p i ≫= touch_usage (usage_page g) else None) with
    | None => Ok found
    | Some u =>
        if negb ((1 <=? report_size g) && (report_size g <=? MAX_REPORT_FIELD_BITS))
        then Err "goodix: HID touch field size exceeds limit"%string
        else
          let? maximum := maximum_of g in
          Ok (push_field u
                (mk_field (g_report_id g) offset (report_size g) (g_logical_minimum g) maximum) found)
    end in
  let? offset := ok_or (checked_add U64_MAX offset (report_size g))
                   "goodix: HID input report is too large"%string in
  Ok (found, offset).

Definition in_touch (p : Parser) : bool :=
  match touch_collections p with b :: _ => b | [] => false end.

(** A main item [Input]. *)
Definition input_item (p : Parser) (value : Z) : outcome string Parser :=
  let g := globals p in
  let id := Z.to_nat (g_report_id g) in
  let? offset := index (input_offsets p) (g_report_id g) in
  if MAX_INPUT_REPORT_FIELDS <? report_count g
  then Err "goodix: HID input field count exceeds limit"%string
  else
    let? _ := ok_or (bits ← checked_mul U64_MAX (report_size g) (report_count g);
                     end_ ← checked_add U64_MAX offset bits;
                     if end_ <=? MAX_INPUT_REPORT_BITS then Some end_ else None)
                "goodix: HID input report exceeds limit"%string in
    let variable := in_touch p && ((value .& 0x03) =? 0x02) in
    let? (found, offset) := foldM (input_field p variable) (fields p, offset) (range (report_count g)) in
    Ok (clear_usages
          (mk_parser g (global_stack p) (usages p) (usage_minimum p) (usage_maximum p)
             (<[id := offset]> (input_offsets p)) found (touch_collections p))).

(** The stacks have their top first. *)
Definition begin_collection (p : Parser) : Parser :=
  let touch := in_touch p
               || ((usage_page (globals p) =? 0x0d) && bool_decide (head (usages p) = Some 0x04)) in
  clear_usages
    (mk_parser (globals p) (global_stack p) (usages p) (usage_minimum p) (usage_maximum p)
       (input_offsets p) (fields p) (touch :: touch_collections p)).

Definition end_collection (p : Parser) : outcome string Parser :=
  match touch_collections p with
  | [] => Err "goodix: unbalanced HID collection"%string
  | _ :: rest =>
      Ok (clear_usages
            (mk_parser (globals p) (global_stack p) (usages p) (usage_minimum p) (usage_maximum p)
               (input_offsets p) (fields p) rest))
  end.

Definition global_item (tag value size : Z) (p : Parser) : outcome string Parser :=
  let '(mk_globals page minimum raw raw_size rsize count id) := globals p in
  if tag =? 0 then Ok (set_globals p (mk_globals value minimum raw raw_size rsize count id))
  else if tag =? 1 then
    let? minimum := sign_extend_item value size in
    Ok (set_globals p (mk_globals page minimum raw raw_size rsize count id))
  else if tag =? 2 then Ok (set_globals p (mk_globals page minimum value size rsize count id))
  else if tag =? 7 then Ok (set_globals p (mk_globals page minimum raw raw_size value count id))
  else if (tag =? 8) && (value <=? 0xff) then
    let? offset := index (input_offsets p) value in
    Ok (mk_parser (mk_globals page minimum raw raw_size rsize count value) (global_stack p)
          (usages p) (usage_minimum p) (usage_maximum p)
          (<[Z.to_nat value := Z.max offset 8]> (input_offsets p)) (fields p) (touch_collections p))
  else if tag =? 9 then Ok (set_globals p (mk_globals page minimum raw raw_size rsize value id))
  else if tag =? 10 then
    Ok (mk_parser (globals p) (globals p :: global_stack p) (usages p) (usage_minimum p)
          (usage_maximum p) (input_offsets p) (fields p) (touch_collections p))
  else if tag =? 11 then
    match global_stack p with
    | [] => Err "goodix: unbalanced HID global pop"%string
    | g :: rest =>
        Ok (mk_parser g rest (usages p) (usage_minimum p) (usage_maximum p) (input_offsets p)
              (fields p) (touch_collections p))
    end
  else Ok p.

Definition local_item (tag value : Z) (p : Parser) : Parser :=
  let '(mk_parser g stack us lo hi offsets found touch) := p in
  if tag =? 0 then mk_parser g stack (us ++ [value]) lo hi offsets found touch
  else if tag =? 1 then mk_parser g stack us (Some value) hi offsets found touch
  else if tag =? 2 then mk_parser g stack us lo (Some value) offsets found touch
  else p.

Definition item_step (item_type tag value size : Z) (p : Parser) : outcome string Parser :=
  if item_type =? 1 then global_item tag value size p
  else if item_type =? 2 then Ok (local_item tag value p)
  else if item_type =? 0 then
    if tag =? 10 then Ok (begin_collection p)
    else if tag =? 12 then end_collection p
    else if tag =? 8 then input_item p value
    else Ok (clear_usages p)
  else Ok p.

(** The loop; every turn moves the cursor. *)
Fixpoint parse_items (fuel : nat) (descriptor : list Z) (cursor : Z) (p : Parser) :
    outcome string Parser :=
  match fuel with
  | O => Panic
  | S fuel =>
      if cursor <? len descriptor then
        let? prefix := index descriptor cursor in
        let cursor := cursor + 1 in
        if prefix =? 0xfe then
          let? length := ok_or (descriptor !! Z.to_nat cursor)
                           "goodix: truncated HID long item"%string in
          let? cursor :=
            ok_or (end_ ← checked_add U64_MAX cursor (2 + length);
                   if end_ <=? len descriptor then Some end_ else None)
              "goodix: malformed HID long item"%string in
          parse_items fuel descriptor cursor p
        else
          let size := if (prefix .& 0x03) =? 3 then 4 else prefix .& 0x03 in
          let? data := ok_or (get_range descriptor cursor (cursor + size))
                         "goodix: truncated HID item"%string in
          let? p := item_step ((prefix >> 2) .& 0x03) (prefix >> 4) (little_endian_item data) size p in
          parse_items fuel descriptor (cursor + size) p
      else Ok p
  end.

Definition of_report (id : Z) (l : list HidField) : list HidField :=
  List.filter (λ f, report_id f =? id) l.

(** The lists of the first report that has both axes. *)
Definition finish_layout (s : Fields) : outcome string HidTouchLayout :=
  let? id := ok_or (List.find (λ id, existsb (λ f, report_id f =? id) (f_y s)) (report_id <$> f_x s))
               "goodix: HID descriptor has no touchscreen X/Y report"%string in
  let layout := mk_layout id (of_report id (f_tips s)) (of_report id (f_contact_ids s))
    (of_report id (f_x s)) (of_report id (f_y s)) (of_report id (f_pressure s))
    (of_report id (f_touch_major s)) (List.find (λ f, report_id f =? id) (f_contact_counts s)) in
  match tips layout, xs layout, ys layout with
  | _ :: _, _ :: _, _ :: _ => Ok layout
  | _, _, _ => Err "goodix: incomplete HID touchscreen report"%string
  end.

Definition parse_touch_layout (descriptor : list Z) : outcome string HidTouchLayout :=
  let? p := parse_items (S (length descriptor)) descriptor 0 new_parser in
  finish_layout (fields p).

(** ** Input reports *)

Definition sign_extend_bits (value bits : Z) : Z := as_signed 32 (value << (32 - bits)) >> (32 - bits).

Definition extract_bit (report : list Z) (f : HidField) (value bit : Z) : option Z :=
  source ← checked_add U64_MAX (bit_offset f) bit;
  byte ← report !! Z.to_nat (source / 8);
  Some (value .| (((byte >> (source mod 8)) .& 1) << bit)).

Definition extract_bits (report : list Z) (f : HidField) : option Z :=
  if (bit_size f =? 0) || (32 <? bit_size f) then None
  else foldl (λ value bit, value ≫= λ v, extract_bit report f v bit) (Some 0) (range (bit_size f)).

Definition extract_logical_value (report : list Z) (f : HidField) : option Z :=
  raw ← extract_bits report f;
  if logical_minimum f <? 0 then Some (sign_extend_bits raw (bit_size f)) else i32_try_from raw.

Record HidContact := mk_contact {
  descriptor_slot : Z;
  hardware_id : option Z;
  contact_x : Z;
  contact_y : Z;
  pressure : option Z;
  touch_major : option Z;
}.

(** A field that the descriptor may leave out. *)
Definition extract_optional (report : list Z) (l : list HidField) (i : Z) (e : string) :
    outcome string (option Z) :=
  match l !! Z.to_nat i with
  | Some f => let? v := ok_or (extract_logical_value report f) e in Ok (Some v)
  | None => Ok None
  end.

Definition decode_contact (report : list Z) (l : HidTouchLayout) (i : Z) :
    outcome string (option HidContact) :=
  let? tip_field := index (tips l) i in
  let? tip := ok_or (extract_bits report tip_field) "goodix: malformed HID tip field"%string in
  if tip =? 0 then Ok None
  else
    let? x_field := index (xs l) i in
    let? x := ok_or (extract_logical_value report x_field) "goodix: malformed HID X field"%string in
    let? y_field := index (ys l) i in
    let? y := ok_or (extract_logical_value report y_field) "goodix: malformed HID Y field"%string in
    let? hardware_id := extract_optional report (contact_ids l) i
                          "goodix: malformed HID contact identifier"%string in
    let? pressure := extract_optional report (pressures l) i
                       "goodix: malformed HID pressure field"%string in
    let? touch_major := extract_optional report (touch_majors l) i
                          "goodix: malformed HID touch-major field"%string in
    Ok (Some (mk_contact i hardware_id x y pressure touch_major)).

Definition decode_contacts (report : list Z) (l : HidTouchLayout) : outcome string (list HidContact) :=
  let capacity := contact_capacity l in
  let? reported :=
    match contact_count l with
    | Some f => ok_or (extract_bits report f) "goodix: malformed HID contact count"%string
    | None => Ok capacity
    end in
  foldM (λ contacts i,
           let? c := decode_contact report l i in
           Ok (match c with Some c => contacts ++ [c] | None => contacts end))
    [] (range (Z.min reported capacity)).

(** ** Touch slots *)

Inductive ContactIdentity :=
| Hardware (id : Z)
| Descriptor (slot : Z).

#[export] Instance ContactIdentity_eq_dec : EqDecision ContactIdentity.
Proof. solve_decision. Defined.

Record TouchSlot := mk_slot {
  identity : ContactIdentity;
  tracking_id : Z;
  seen : bool;
}.

Record SlotUpdate := mk_update {
  update_slot : nat;
  update_tracking_id : Z;
  began : bool;
  contact : HidContact;
}.

Record TouchFrame := mk_frame {
  updates : list SlotUpdate;
  releases : list nat;
  primary : option HidContact;
  any_contact : bool;
}.

Record SlotTracker := mk_tracker {
  slots : list (option TouchSlot);
  next_tracking_id : Z;
}.

Definition new_tracker (slot_count : nat) : SlotTracker := mk_tracker (replicate slot_count None) 1.

Definition contact_identity (c : HidContact) : ContactIdentity :=
  match hardware_id c with
  | Some id => Hardware id
  | None => Descriptor (descriptor_slot c)
  end.

Definition allocate_tracking_id (t : SlotTracker) : Z * SlotTracker :=
  (next_tracking_id t,
   mk_tracker (slots t)
     (if next_tracking_id t =? I32_MAX then 1 else next_tracking_id t + 1)).

(** [slots.iter().position(..)] *)
Fixpoint find_slot (p : option TouchSlot → bool) (l : list (option TouchSlot)) : option nat :=
  match l with
  | [] => None
  | s :: l => if p s then Some O else S <$> find_slot p l
  end.

Definition holds (id : ContactIdentity) (was_seen : bool) (s : option TouchSlot) : bool :=
  match s with
  | Some s => bool_decide (identity s = id) && Bool.eqb (seen s) was_seen
  | None => false
  end.

Definition is_free (s : option TouchSlot) : bool := match s with None => true | _ => false end.

Definition see (s : TouchSlot) : TouchSlot := mk_slot (identity s) (tracking_id s) true.
Definition unsee (s : TouchSlot) : TouchSlot := mk_slot (identity s) (tracking_id s) false.

(** One contact of a report. *)
Definition apply_contact (s : SlotTracker * list SlotUpdate) (c : HidContact) :
    SlotTracker * list SlotUpdate :=
  let '(t, updates) := s in
  let existing := find_slot (holds (contact_identity c) false) (slots t) in
  let id :=
    match existing with
    | None => if existsb (holds (contact_identity c) true) (slots t)
              then Descriptor (descriptor_slot c) else contact_identity c
    | Some _ => contact_identity c
    end in
  match (match existing with Some i => Some i | None => find_slot is_free (slots t) end) with
  | None => (t, updates)
  | Some i =>
      match slots t !! i with
      | Some (Some slot) =>
          (mk_tracker (<[i := Some (see slot)]> (slots t)) (next_tracking_id t),
           updates ++ [mk_update i (tracking_id slot) false c])
      | _ =>
          let '(tracking, t) := allocate_tracking_id t in
          (mk_tracker (<[i := Some (mk_slot id tracking true)]> (slots t)) (next_tracking_id t),
           updates ++ [mk_update i tracking true c])
      end
  end.

(** The slots that a report did not mention. *)
Fixpoint release_unseen (from : nat) (l : list (option TouchSlot)) : list (option TouchSlot) * list nat :=
  match l with
  | [] => ([], [])
  | s :: l =>
      let '(l', releases) := release_unseen (S from) l in
      match s with
      | Some slot => if seen slot then (s :: l', releases) else (None :: l', from :: releases)
      | None => (None :: l', releases)
      end
  end.

Definition apply (t : SlotTracker) (contacts : list HidContact) : SlotTracker * TouchFrame :=
  let t := mk_tracker ((λ s : option TouchSlot, unsee <$> s) <$> slots t) (next_tracking_id t) in
  let '(t, updates) := foldl apply_contact (t, []) contacts in
  let '(slots', releases) := release_unseen 0 (slots t) in
  (mk_tracker slots' (next_tracking_id t),
   mk_frame updates releases (head contacts) (match contacts with [] => false | _ => true end)).

(** ** The driver *)

(** The input event codes of [lib.rs] and of the interface crate. *)
Inductive EventCode :=
| AbsMtSlot | AbsMtTrackingId | AbsMtPositionX | AbsMtPositionY | AbsMtPressure | AbsMtTouchMajor
| AbsX | AbsY | AbsPressure | BtnTouch | SynReport.

Definition event_if (code : EventCode) (v : option Z) : list (EventCode * Z) :=
  match v with Some v => [(code, v)] | None => [] end.

Definition update_events (u : SlotUpdate) : list (EventCode * Z) :=
  [(AbsMtSlot, Z.of_nat (update_slot u))]
  ++ (if began u then [(AbsMtTrackingId, update_tracking_id u)] else [])
  ++ [(AbsMtPositionX, contact_x (contact u)); (AbsMtPositionY, contact_y (contact u))]
  ++ event_if AbsMtPressure (pressure (contact u))
  ++ event_if AbsMtTouchMajor (touch_major (contact u)).

Definition release_events (slot : nat) : list (EventCode * Z) :=
  [(AbsMtSlot, Z.of_nat slot); (AbsMtTrackingId, -1)].

Definition primary_events (c : HidContact) : list (EventCode * Z) :=
  [(AbsX, contact_x c); (AbsY, contact_y c)] ++ event_if AbsPressure (pressure c).

Definition emit_touch_frame (f : TouchFrame) : list (EventCode * Z) :=
  (updates f ≫= update_events) ++ (releases f ≫= release_events)
  ++ match primary f with Some c => primary_events c | None => [] end
  ++ [(BtnTouch, if any_contact f then 1 else 0); (SynReport, 0)].

Definition MAX_TOUCH_SLOTS : nat := 5.
Definition MAX_INPUT_LENGTH : Z := 512.
Definition MAX_REPORT_DESCRIPTOR_LENGTH : Z := 4096.

Inductive I2cError := BusError | Transfer.

(** [process_report_inner]; [message] is what the bus read, [None] when the
    transfer failed.  The result has the tracker and the events. *)
Definition process_report (l : HidTouchLayout) (t : SlotTracker) (message : option (list Z)) :
    outcome I2cError (SlotTracker * list (EventCode * Z)) :=
  match message with
  | None => Err Transfer
  | Some data =>
      let? declared := ok_or (decode_input_length data) BusError in
      if declared =? 0 then Ok (t, [])
      else if (declared <? 2) || (len data <? declared) then Err BusError
      else
        let report := slice data 2 declared in
        if negb (layout_report_id l =? 0) && negb (bool_decide (head report = Some (layout_report_id l)))
        then Ok (t, [])
        else
          let? contacts := map_err (decode_contacts report l) BusError in
          let '(t, frame) := apply t contacts in
          Ok (t, emit_touch_frame frame)
  end.

Definition axis_range (l : list HidField) : option (Z * Z) :=
  match l with
  | [] => None
  | f :: l =>
      Some (foldl (λ r f, (Z.min r.1 (logical_minimum f), Z.max r.2 (logical_maximum f)))
              (logical_minimum f, logical_maximum f) l)
  end.

(** The checks of the I2C-HID descriptor in [read_identity]. *)
Record HidIdentity := mk_identity {
  report_descriptor_length : Z;
  report_descriptor_register : Z;
  max_input_length : Z;
  command_register : Z;
}.

Definition word (descriptor : list Z) (offset : Z) : option Z :=
  bytes ← get_range descriptor offset (offset + 2); Some (bytes.[0] + 256 * bytes.[1]).

Definition check_identity (descriptor : list Z) : outcome string HidIdentity :=
  if negb (bool_decide (word descriptor 0 = Some 30)) || negb (bool_decide (word descriptor 2 = Some 0x0100))
  then Err "goodix-gt7375p: invalid I2C-HID descriptor"%string
  else
    let? vendor := ok_or (word descriptor 20) "goodix: missing HID vendor ID"%string in
    let? product := ok_or (word descriptor 22) "goodix: missing HID product ID"%string in
    if negb (vendor =? 0x27c6) || negb (existsb (Z.eqb product) [0x0e51; 0x0e94])
    then Err "goodix-gt7375p: unsupported I2C-HID identity"%string
    else
      let? length := ok_or (word descriptor 4) "goodix: missing report length"%string in
      let? register := ok_or (word descriptor 6) "goodix: missing report register"%string in
      let? input := ok_or (word descriptor 10) "goodix: missing input length"%string in
      let? command := ok_or (word descriptor 16) "goodix: missing command register"%string in
      if (length =? 0) || (MAX_REPORT_DESCRIPTOR_LENGTH <? length) || (input <? 3) || (MAX_INPUT_LENGTH <? input)
      then Err "goodix-gt7375p: invalid I2C-HID buffer lengths"%string
      else Ok (mk_identity length register input command).
End Hid.
