(* ===== verification/HidFacts.v ===== *)
(** * The report descriptor and the reports it describes

    The parser never panics and lays out fields that are inside one report,
    small enough and apart from each other; decoding a report reads, for each
    field, the bits of the report as one little-endian number. *)
From S2P Require Import Prelude HidTouch.

Module HidFacts.
Import Hid.

(** ** Numbers *)

Lemma as_signed_range bits x :
  1 ≤ bits → - 2 ^ (bits - 1) ≤ as_signed bits x < 2 ^ (bits - 1).
Proof.
  intros Hb. unfold as_signed. assert (2 ^ bits = 2 * 2 ^ (bits - 1)) as E.
  { rewrite <-Z.pow_succ_r by lia. f_equal. lia. }
  pose proof (Z.mod_pos_bound x (2 ^ bits) ltac:(lia)).
  destruct (Z.ltb_spec (x mod 2 ^ bits) (2 ^ (bits - 1))); lia.
Qed.

Lemma as_signed_i32 bits x : 1 ≤ bits ≤ 32 → i32 (as_signed bits x).
Proof.
  intros Hb. pose proof (as_signed_range bits x ltac:(lia)).
  pose proof (Z.pow_le_mono_r 2 (bits - 1) 31 ltac:(lia) ltac:(lia)). unfold i32, I32_MAX. lia.
Qed.

(** The little-endian number of some bytes. *)
Fixpoint le_value (data : list Z) : Z :=
  match data with [] => 0 | byte :: data => byte + 256 * le_value data end.

Lemma le_value_bound data : Forall u8 data → 0 ≤ le_value data < 2 ^ (8 * len data).
Proof.
  unfold len. induction 1 as [|b data Hb _ IH]; cbn [le_value length]; [done|].
  rewrite Nat2Z.inj_succ, <-Z.add_1_r, Z.mul_add_distr_l, Z.pow_add_r by lia.
  unfold u8 in Hb. change (2 ^ (8 * 1)) with 256. lia.
Qed.

Lemma little_endian_value s data :
  0 ≤ s → Forall u8 data → little_endian s data = 2 ^ s * le_value data.
Proof.
  intros Hs HD. revert s Hs. induction HD as [|b data Hb _ IH]; intros s Hs; cbn [little_endian le_value].
  { lia. }
  unfold u8 in Hb. rewrite IH by lia.
  assert (2 ^ (s + 8) * le_value data = le_value data << (s + 8)) as ->
    by (rewrite Z.shiftl_mul_pow2 by lia; lia).
  rewrite (Z.shiftl_mul_pow2 b) by lia.
  assert (2 ^ (s + 8) = 2 ^ s * 256) as E by (rewrite Z.pow_add_r by lia; done).
  rewrite lor_add_low; [rewrite E; lia|lia|]. rewrite E. nia.
Qed.

Lemma little_endian_item_bound data :
  Forall u8 data → len data ≤ 4 → u32 (little_endian_item data).
Proof.
  intros HD Hl. unfold little_endian_item. rewrite little_endian_value by done.
  pose proof (le_value_bound data HD). pose proof (Z.pow_le_mono_r 2 (8 * len data) 32 ltac:(lia) ltac:(lia)).
  unfold u32. change (2 ^ 0) with 1. lia.
Qed.

(** ** Fields that are apart *)

Definition apart (f g : HidField) : Prop :=
  report_id f ≠ report_id g ∨ bit_offset f + bit_size f ≤ bit_offset g ∨
  bit_offset g + bit_size g ≤ bit_offset f.

Inductive all_apart : list HidField → Prop :=
| all_apart_nil : all_apart []
| all_apart_cons f l : Forall (apart f) l → all_apart l → all_apart (f :: l).

Lemma apart_sym f g : apart f g → apart g f.
Proof. unfold apart. naive_solver. Qed.

Lemma all_apart_perm l l' : l ≡ₚ l' → all_apart l → all_apart l'.
Proof.
  induction 1 as [|f l l' HP IH|f g l|l1 l2 l3 _ IH1 _ IH2]; intros H; [done| | |auto].
  - inversion H; subst. constructor; [by rewrite <-HP|auto].
  - inversion H as [|? ? HF Hl]; subst. inversion Hl; subst. apply Forall_cons in HF as [Hgf HF].
    constructor; [|by constructor]. constructor; [by apply apart_sym|done].
Qed.

Lemma all_apart_sublist l l' : l `sublist_of` l' → all_apart l' → all_apart l.
Proof.
  induction 1 as [|f l l' HS IH|f l l' HS IH]; intros H; inversion H; subst; auto.
  constructor; [|auto].
  apply Forall_forall. intros g Hg. eapply Forall_forall; [done|]. by eapply elem_of_sublist.
Qed.

(** ** The parser *)

Definition all_fields (s : Fields) : list HidField :=
  f_tips s ++ f_contact_ids s ++ f_x s ++ f_y s ++ f_pressure s ++ f_touch_major s ++ f_contact_counts s.

Lemma push_field_perm u f s : all_fields (push_field u f s) ≡ₚ f :: all_fields s.
Proof.
  destruct s as [t c x y p m n], u; unfold all_fields; simpl; rewrite <-?app_assoc; simpl; symmetry;
    repeat first [reflexivity | apply Permutation_cons_append | etrans; [apply Permutation_middle|]; apply Permutation_app_head].
Qed.

(** A field inside the first [bound] bits of its report. *)
Definition field_ok (bound : Z) (f : HidField) : Prop :=
  0 ≤ bit_offset f ∧ 1 ≤ bit_size f ≤ 32 ∧ bit_offset f + bit_size f ≤ bound ∧
  i32 (logical_minimum f) ∧ i32 (logical_maximum f).

Definition fields_ok (offsets : list Z) (s : Fields) : Prop :=
  Forall (λ f, 0 ≤ report_id f ∧ ∃ o, offsets !! Z.to_nat (report_id f) = Some o ∧ field_ok o f)
    (all_fields s) ∧
  all_apart (all_fields s).

Definition item_size (size : Z) : Prop := size ∈ [0; 1; 2; 4].

Record globals_ok (g : HidGlobals) : Prop := {
  gk_minimum : i32 (g_logical_minimum g);
  gk_raw : u32 (logical_maximum_raw g);
  gk_raw_size : item_size (logical_maximum_size g);
  gk_size : 0 ≤ report_size g;
  gk_count : 0 ≤ report_count g;
  gk_id : u8 (g_report_id g);
}.

Record parser_ok (p : Parser) : Prop := {
  pk_globals : globals_ok (globals p);
  pk_stack : Forall globals_ok (global_stack p);
  pk_length : length (input_offsets p) = 256%nat;
  pk_offsets : Forall (λ o, 0 ≤ o ≤ MAX_INPUT_REPORT_BITS) (input_offsets p);
  pk_fields : fields_ok (input_offsets p) (fields p);
}.

Lemma sign_extend_item_ok value size :
  item_size size → u32 value → ensures i32 (sign_extend_item value size).
Proof.
  intros Hs Hv. unfold item_size in Hs. rewrite !elem_of_cons, elem_of_nil in Hs. unfold sign_extend_item.
  destruct Hs as [->|[->|[->|[->|[]]]]];
    repeat match goal with |- context [?a =? ?b] =>
      let v := eval vm_compute in (a =? b) in change (a =? b) with v end; cbv iota; cbn [ensures].
  1: by split. all: apply as_signed_i32; lia.
Qed.

Lemma maximum_of_ok g : globals_ok g → ensures i32 (maximum_of g).
Proof.
  intros [H1 H2 H3 _ _ _]. unfold maximum_of. destruct (_ <? 0); [by apply sign_extend_item_ok|].
  unfold i32_try_from. destruct (Z.leb_spec (logical_maximum_raw g) I32_MAX); simpl; [|done].
  unfold i32, u32 in *. lia.
Qed.

Lemma offset_lookup p id : parser_ok p → u8 id → ∃ o, input_offsets p !! Z.to_nat id = Some o ∧
  0 ≤ o ≤ MAX_INPUT_REPORT_BITS.
Proof.
  intros HP Hid. destruct (lookup_lt_is_Some_2 (input_offsets p) (Z.to_nat id)) as [o Ho].
  { rewrite (pk_length _ HP). unfold u8 in Hid. lia. }
  exists o. split; [done|]. eapply Forall_lookup in Ho; [|exact (pk_offsets _ HP)]. exact Ho.
Qed.

(** Larger offsets keep the fields inside. *)
Lemma fields_ok_grow offsets i o o' s :
  offsets !! i = Some o → o ≤ o' → fields_ok offsets s → fields_ok (<[i := o']> offsets) s.
Proof.
  intros Hi Ho [HF HA]. split; [|done]. eapply Forall_impl; [exact HF|].
  intros f (Hid & o1 & Ho1 & H1 & H2 & H3 & H4). split; [done|].
  destruct (decide (i = Z.to_nat (report_id f))) as [->|Hne].
  - exists o'. rewrite list_lookup_insert_eq by (by eapply lookup_lt_Some). split; [done|].
    assert (o1 = o) as -> by congruence. repeat split; try done; try lia; apply H4.
  - exists o1. rewrite list_lookup_insert_ne by done. by split.
Qed.

Lemma parser_ok_offset p i o o' g :
  parser_ok p → input_offsets p !! i = Some o → o ≤ o' ≤ MAX_INPUT_REPORT_BITS → 0 ≤ o' →
  globals_ok g →
  parser_ok (mk_parser g (global_stack p) (usages p) (usage_minimum p) (usage_maximum p)
               (<[i := o']> (input_offsets p)) (fields p) (touch_collections p)).
Proof.
  intros [H1 H2 H3 H4 H5] Hi Ho Ho' Hg. split; simpl; [done..| | |].
  - by rewrite length_insert.
  - apply Forall_insert; [done|lia].
  - apply (fields_ok_grow _ _ o); [done|lia|done].
Qed.

(** A new field at the end of what its report has so far. *)
Lemma fields_ok_push offsets u f o o' s :
  fields_ok offsets s → offsets !! Z.to_nat (report_id f) = Some o → 0 ≤ report_id f →
  bit_offset f = o → bit_offset f + bit_size f = o' → field_ok o' f →
  fields_ok (<[Z.to_nat (report_id f) := o']> offsets) (push_field u f s).
Proof.
  intros HS Ho Hid Hoff Hend Hf. pose proof Hf as (_ & [Hs _] & _).
  assert (fields_ok (<[Z.to_nat (report_id f) := o']> offsets) s) as [HF HA].
  { apply (fields_ok_grow _ _ o); [done|lia|done]. }
  split.
  - rewrite push_field_perm. constructor; [|done]. split; [done|]. exists o'.
    rewrite list_lookup_insert_eq by (by eapply lookup_lt_Some). done.
  - eapply all_apart_perm; [symmetry; apply push_field_perm|]. constructor; [|done].
    eapply Forall_impl; [exact (proj1 HS)|]. intros g (Hg & o1 & Ho1 & Hg1 & Hg2 & Hg3 & _).
    destruct (decide (report_id f = report_id g)) as [He|Hne]; [|by left].
    right. right. rewrite He in Ho. assert (o1 = o) by congruence. lia.
Qed.

Lemma input_field_ok p variable offsets found offset i :
  globals_ok (globals p) → 0 ≤ offset → offset + report_size (globals p) ≤ MAX_INPUT_REPORT_BITS →
  offsets !! Z.to_nat (g_report_id (globals p)) = Some offset → fields_ok offsets found →
  ensures (λ r, r.2 = offset + report_size (globals p) ∧
                fields_ok (<[Z.to_nat (g_report_id (globals p)) := r.2]> offsets) r.1)
    (input_field p variable (found, offset) i).
Proof.
  intros HG H0 Hmax Ho HF. unfold input_field. pose proof (gk_size _ HG). pose proof (gk_id _ HG) as Hid.
  set (g := globals p) in *. set (id := Z.to_nat (g_report_id g)) in *.
  apply ensures_bind. eapply (ensures_mono (λ found', fields_ok (<[id := offset + report_size g]> offsets) found')).
  - destruct (if variable then _ else _) as [u|]; simpl.
    2: { apply (fields_ok_grow _ _ offset); [done|lia|done]. }
    destruct (negb _) eqn:E; [done|]. bool_to_prop. unfold MAX_REPORT_FIELD_BITS in *.
    apply ensures_bind. eapply ensures_mono; [by apply maximum_of_ok|]. intros maximum Hm. simpl.
    set (f := mk_field (g_report_id g) offset (report_size g) (g_logical_minimum g) maximum).
    change id with (Z.to_nat (report_id f)).
    apply (fields_ok_push offsets u f offset); simpl; try done; [unfold u8 in Hid; lia|].
    split_and!; simpl; try lia; [|exact Hm]. apply HG.
  - intros found' HF'. apply ensures_bind, ensures_ok_or. intros o [-> _]%checked_add_Some. simpl. done.
Qed.

Lemma input_item_ok p value : parser_ok p → ensures parser_ok (input_item p value).
Proof.
  intros HP. pose proof HP as [HG HS HL HO HF]. unfold input_item. remember (globals p) as g eqn:Eg.
  destruct (offset_lookup p (g_report_id g) HP (gk_id _ HG)) as (o & Ho & Hob).
  unfold index. rewrite Ho. cbn [bind]. destruct (Z.ltb_spec MAX_INPUT_REPORT_FIELDS (report_count g)); [done|].
  apply ensures_bind, ensures_ok_or. intros end_ Hend. unfold mbind in Hend. simpl in Hend.
  destruct (checked_mul _ _ _) as [bits|] eqn:E1; [|done]. simpl in Hend. apply checked_mul_Some in E1 as [-> _].
  destruct (checked_add _ _ _) as [e|] eqn:E2; [|done]. simpl in Hend. apply checked_add_Some in E2 as [-> _].
  destruct (Z.leb_spec (o + report_size g * report_count g) MAX_INPUT_REPORT_BITS) as [Hmax|]; [|done].
  pose proof (gk_size _ HG). pose proof (gk_count _ HG).
  set (id := Z.to_nat (g_report_id g)) in *. set (variable := in_touch p && _).
  apply ensures_bind.
  pose proof (ensures_foldM (E := string)
    (λ pre s, s.2 = o + report_size g * len pre ∧ fields_ok (<[id := s.2]> (input_offsets p)) s.1)
    (input_field p variable) (fields p, o) (range (report_count g))) as HI.
  eapply ensures_mono; [apply HI|].
  - simpl. unfold len; simpl. split; [lia|]. by rewrite list_insert_id.
  - intros pre x suf [found offset] Hr [Hoff HFs]. simpl in Hoff, HFs.
    assert (len pre + 1 ≤ report_count g) as Hpre.
    { apply (f_equal len) in Hr. unfold len, range in *. rewrite length_fmap, length_seq, length_app in Hr.
      simpl in Hr. lia. }
    eapply ensures_mono; [eapply (input_field_ok p variable (<[id := offset]> (input_offsets p)))|].
    + by rewrite <-Eg.
    + unfold len in *. nia.
    + rewrite <-Eg. unfold len in *. nia.
    + rewrite <-Eg. fold id.
      apply list_lookup_insert_eq. by eapply lookup_lt_Some.
    + exact HFs.
    + intros [found' offset'] [He HF']. simpl in He, HF' |- *. rewrite <-Eg in He, HF'.
      fold id in HF'. rewrite list_insert_insert_eq in HF'. split; [|done].
      rewrite He, Hoff. unfold len. rewrite length_app. simpl. lia.
  - intros [found offset] [Hoff HFs]. simpl in Hoff, HFs. unfold clear_usages. simpl.
    assert (len (range (report_count g)) = report_count g) as Hlen.
    { unfold len, range. rewrite length_fmap, length_seq. lia. }
    rewrite Hlen in Hoff. split; simpl; [done..| | |done].
    + by rewrite length_insert.
    + apply Forall_insert; [done|nia].
Qed.

(** The other items only touch the globals, the stacks and the usages. *)
Lemma parser_ok_same p p' :
  parser_ok p → globals_ok (globals p') → Forall globals_ok (global_stack p') →
  input_offsets p' = input_offsets p → fields p' = fields p → parser_ok p'.
Proof. intros [] ? ? Ho Hf. split; try done; by rewrite ?Ho, ?Hf. Qed.

Lemma global_item_ok tag value size p :
  parser_ok p → u32 value → item_size size → ensures parser_ok (global_item tag value size p).
Proof.
  intros HP Hv Hs. unfold global_item. destruct HP as [HG HS HL HO HF] eqn:EP. clear EP.
  destruct (globals p) as [page minimum raw raw_size rsize count id] eqn:EG. pose proof HG as [G1 G2 G3 G4 G5 G6].
  simpl in *. assert (parser_ok p) as HP0 by (by split; rewrite ?EG).
  assert (∀ g', globals_ok g' → parser_ok (set_globals p g')) as Hset.
  { intros g' Hg'. by apply (parser_ok_same p). }
  destruct (tag =? 0); [by apply Hset|].
  destruct (tag =? 1).
  { apply ensures_bind. eapply ensures_mono; [by apply sign_extend_item_ok|]. intros m Hm. by apply Hset. }
  destruct (tag =? 2); [by apply Hset|].
  destruct (tag =? 7); [apply Hset; split; simpl; try done; unfold u32 in Hv; lia|].
  destruct ((tag =? 8) && (value <=? 0xff)) eqn:E8.
  { bool_to_prop. assert (u8 value) as Hv8 by (unfold u8, u32 in *; lia).
    destruct (offset_lookup p value HP0 Hv8) as (o & Ho & Hob). unfold index. rewrite Ho. cbn [bind ensures].
    apply (parser_ok_offset p _ o); try done; unfold MAX_INPUT_REPORT_BITS in *; try lia. }
  destruct (tag =? 9); [apply Hset; split; simpl; try done; unfold u32 in Hv; lia|].
  destruct (tag =? 10); [apply (parser_ok_same p); simpl; try done; by constructor|].
  destruct (tag =? 11); [|done].
  destruct (global_stack p) as [|g rest] eqn:ES; [done|]. apply Forall_cons in HS as [? ?].
  by apply (parser_ok_same p).
Qed.

Lemma local_item_ok tag value p : parser_ok p → parser_ok (local_item tag value p).
Proof.
  intros HP. destruct p as [g st us lo hi os fs tc]. unfold local_item. destruct HP.
  repeat (match goal with |- context [if ?b then _ else _] => destruct b end); by split.
Qed.

Lemma clear_usages_ok p : parser_ok p → parser_ok (clear_usages p).
Proof. intros HP. apply (parser_ok_same p); try done; apply HP. Qed.

Lemma item_step_ok item_type tag value size p :
  parser_ok p → u32 value → item_size size → ensures parser_ok (item_step item_type tag value size p).
Proof.
  intros HP Hv Hs. unfold item_step. destruct (item_type =? 1); [by apply global_item_ok|].
  destruct (item_type =? 2); [by apply local_item_ok|]. destruct (item_type =? 0); [|done].
  destruct (tag =? 10); [apply clear_usages_ok, (parser_ok_same p); try done; apply HP|].
  destruct (tag =? 12).
  { unfold end_collection. destruct (touch_collections p); [done|].
    apply clear_usages_ok, (parser_ok_same p); try done; apply HP. }
  destruct (tag =? 8); [by apply input_item_ok|]. by apply clear_usages_ok.
Qed.

Lemma prefix_size prefix :
  item_size (if (prefix .& 0x03) =? 3 then 4 else prefix .& 0x03).
Proof.
  rewrite (land_mask prefix 3 2) by done. pose proof (Z.mod_pos_bound prefix (2 ^ 2) ltac:(done)) as H.
  change (2 ^ 2) with 4 in *. destruct (Z.eqb_spec (prefix mod 4) 3); [unfold item_size; set_solver|].
  assert (prefix mod 4 = 0 ∨ prefix mod 4 = 1 ∨ prefix mod 4 = 2) as [->|[-> | ->]] by lia;
    unfold item_size; set_solver.
Qed.

Lemma item_size_bounds size : item_size size → 0 ≤ size ≤ 4.
Proof. unfold item_size. rewrite !elem_of_cons, elem_of_nil. lia. Qed.

Lemma parse_items_ok fuel descriptor cursor p :
  Forall u8 descriptor → parser_ok p → 0 ≤ cursor ≤ len descriptor →
  len descriptor - cursor < Z.of_nat fuel → ensures parser_ok (parse_items fuel descriptor cursor p).
Proof.
  intros HD. revert cursor p. induction fuel as [|fuel IH]; intros cursor p HP Hc Hf; cbn [parse_items]; [lia|].
  destruct (Z.ltb_spec cursor (len descriptor)) as [Hlt|]; [|done].
  apply ensures_bind, ensures_index; [unfold len in *; lia|]. intros prefix _.
  destruct (prefix =? 0xfe).
  - apply ensures_bind, ensures_ok_or. intros length Hlength.
    assert (u8 length) as Hu by (by eapply Forall_lookup_1).
    apply ensures_bind, ensures_ok_or. intros cursor' He.
    destruct (checked_add _ _ _) as [e|] eqn:E; simpl in He; [|done]. apply checked_add_Some in E as [-> _].
    destruct (Z.leb_spec (cursor + 1 + (2 + length)) (len descriptor)); [|done]. injection He as <-.
    unfold u8 in Hu. apply IH; [done|lia|lia].
  - set (size := if _ =? _ then _ else _). pose proof (prefix_size prefix : item_size size) as Hsize.
    pose proof (item_size_bounds _ Hsize).
    apply ensures_bind, ensures_ok_or. intros data Hdata. unfold get_range in Hdata.
    destruct (_ && _) eqn:E; [|done]. bool_to_prop. injection Hdata as <-.
    apply ensures_bind. eapply ensures_mono; [apply item_step_ok; [done| |done]|].
    + apply little_endian_item_bound; unfold slice; [by apply Forall_take, Forall_drop|].
      unfold len. rewrite length_take. lia.
    + intros p' HP'. apply IH; [done|unfold len in *; lia|lia].
Qed.

Lemma new_parser_ok : parser_ok new_parser.
Proof.
  split.
  - split; simpl; try done. unfold item_size. set_solver.
  - constructor.
  - done.
  - by apply Forall_replicate.
  - split; constructor.
Qed.

(** ** The layout *)

Definition layout_fields (l : HidTouchLayout) : list HidField :=
  tips l ++ contact_ids l ++ xs l ++ ys l ++ pressures l ++ touch_majors l
  ++ option_list (contact_count l).

(** Fields of one report that fit it and are apart from each other. *)
Record layout_ok (l : HidTouchLayout) : Prop := {
  lk_fields : Forall (λ f, report_id f = layout_report_id l ∧ field_ok MAX_INPUT_REPORT_BITS f)
                (layout_fields l);
  lk_apart : all_apart (layout_fields l);
  lk_capacity : 0 < contact_capacity l;
}.

Lemma of_report_sublist id l : of_report id l `sublist_of` l.
Proof.
  unfold of_report. induction l as [|f l IH]; simpl; [done|].
  destruct (report_id f =? id); by constructor.
Qed.

Lemma find_sublist {A} (f : A → bool) l : option_list (List.find f l) `sublist_of` l.
Proof.
  induction l as [|x l IH]; simpl; [constructor|]. destruct (f x); simpl.
  - constructor. apply sublist_nil_l.
  - by constructor.
Qed.

Lemma of_report_id id f l : f ∈ of_report id l → report_id f = id.
Proof. unfold of_report. intros [_ Hf%Z.eqb_eq]%list_elem_of_In%filter_In. done. Qed.

Lemma len_cons_pos {A} (x : A) l : 1 ≤ len (x :: l).
Proof. unfold len. simpl. lia. Qed.

Lemma finish_layout_ok offsets s :
  Forall (λ o, 0 ≤ o ≤ MAX_INPUT_REPORT_BITS) offsets → fields_ok offsets s →
  ensures layout_ok (finish_layout s).
Proof.
  intros HO [HF HA]. unfold finish_layout. apply ensures_bind, ensures_ok_or. intros id _.
  set (l := mk_layout _ _ _ _ _ _ _ _).
  assert (layout_fields l `sublist_of` all_fields s) as Hsub.
  { unfold layout_fields, all_fields; simpl.
    repeat apply sublist_app; try apply of_report_sublist. apply find_sublist. }
  assert (∀ f, f ∈ layout_fields l → report_id f = id) as Hid.
  { intros f. unfold layout_fields. rewrite !elem_of_app. simpl.
    intros [Hf|[Hf|[Hf|[Hf|[Hf|[Hf|Hf]]]]]]; try (by apply of_report_id in Hf).
    destruct (List.find _ _) eqn:E; simpl in Hf; [|by apply elem_of_nil in Hf].
    apply List.find_some in E as [_ Hid%Z.eqb_eq]. apply list_elem_of_singleton in Hf as ->. done. }
  assert (0 < contact_capacity l → layout_ok l) as Hok.
  { intros Hc. split; [|by eapply all_apart_sublist|done]. apply Forall_forall. intros f Hf.
    split; [by rewrite Hid|].
    eapply elem_of_sublist in Hf; [|exact Hsub]. pose proof (proj1 (Forall_forall _ _) HF f Hf) as H.
    destruct H as (_ & o & Ho & H1 & H2 & H3 & H4). eapply Forall_lookup in Ho; [|exact HO].
    cbn beta in Ho. repeat split; try done; try lia; apply H4. }
  unfold contact_capacity in Hok.
  destruct (tips l) as [|t ts]; [done|]. destruct (xs l) as [|x xs']; [done|].
  destruct (ys l) as [|y ys']; [done|]. simpl. apply Hok.
  pose proof (len_cons_pos t ts). pose proof (len_cons_pos x xs'). pose proof (len_cons_pos y ys'). lia.
Qed.

Lemma parse_touch_layout_ok descriptor :
  Forall u8 descriptor → ensures layout_ok (parse_touch_layout descriptor).
Proof.
  intros HD. unfold parse_touch_layout. apply ensures_bind.
  eapply ensures_mono; [apply parse_items_ok; [done|apply new_parser_ok| |]|].
  - split; [done|apply Zle_0_nat].
  - unfold len. lia.
  - intros p HP. by eapply finish_layout_ok; [apply (pk_offsets _ HP)|apply (pk_fields _ HP)].
Qed.

(** C37: The report descriptor of the touchscreen is parsed without a panic,
    whatever bytes the device sends; and a layout that is accepted is sound: its
    fields belong to one report, are 1 to 32 bits wide, end within the 4096 bits
    an input report may have, have [i32] ranges, and no two of them share a bit;
    there is room for a contact. *)
Theorem touch_layout_sound (descriptor : list Z) (Hbytes : Forall u8 descriptor) :
  parse_touch_layout descriptor ≠ Panic ∧
  ∀ l, parse_touch_layout descriptor = Ok l → layout_ok l.
Proof.
  pose proof (parse_touch_layout_ok descriptor Hbytes) as H.
  split; [by eapply ensures_no_panic|]. intros l Hl. by eapply ensures_Ok.
Qed.
End HidFacts.

(** * Input reports

    Extracting a field is reading bits of the report as one little-endian
    number, and decoding a report gives the touched contacts. *)

Module HidReportFacts.
Import Hid HidFacts.

(** ** Bits *)

Lemma le_value_lookup data k byte :
  Forall u8 data → data !! k = Some byte → le_value data / 2 ^ (8 * Z.of_nat k) mod 256 = byte.
Proof.
  intros HD. revert k. induction HD as [|b data Hb HD IH]; intros k Hk; [done|].
  unfold u8 in Hb. destruct k as [|k]; cbn [le_value lookup list_lookup] in *.
  - injection Hk as <-. change (8 * Z.of_nat 0) with 0. rewrite Z.pow_0_r, Z.div_1_r. zlia.
  - rewrite <-(IH k Hk). f_equal.
    replace (8 * Z.of_nat (S k)) with (8 + 8 * Z.of_nat k) by lia.
    rewrite Z.pow_add_r, <-Z.div_div by lia. f_equal. change (2 ^ 8) with 256. zlia.
Qed.

(** Bit [i] of the number is bit [i mod 8] of byte [i / 8]. *)
Lemma report_bit report i byte :
  Forall u8 report → 0 ≤ i → report !! Z.to_nat (i / 8) = Some byte →
  (byte >> (i mod 8)) .& 1 = le_value report / 2 ^ i mod 2.
Proof.
  intros HD Hi Hb. rewrite <-(le_value_lookup _ _ _ HD Hb).
  rewrite Z2Nat.id by (apply Z.div_pos; lia).
  assert (0 ≤ i / 8) by (apply Z.div_pos; lia). assert (0 ≤ i mod 8 < 8) by (apply Z.mod_pos_bound; lia).
  assert (2 ^ i = 2 ^ (8 * (i / 8)) * 2 ^ (i mod 8)) as ->.
  { rewrite <-Z.pow_add_r by lia. f_equal. apply Z.div_mod. lia. }
  generalize dependent (i mod 8). generalize dependent (i / 8). intros q _ Hq m Hm.
  assert (0 < 2 ^ (8 * q)) by (apply Z.pow_pos_nonneg; lia).
  assert (0 < 2 ^ m) by (apply Z.pow_pos_nonneg; lia).
  rewrite (land_mask _ 1 1), Z.shiftr_div_pow2, <-Z.div_div by lia. change (2 ^ 1) with 2.
  generalize (le_value report / 2 ^ (8 * q)). intros w.
  (* (w mod 256) / 2^m mod 2 = w / 2^m mod 2 for m < 8 *)
  rewrite <-!(Z.land_ones _ 1), <-!Z.shiftr_div_pow2 by lia.
  change 256 with (2 ^ 8). rewrite <-Z.land_ones by lia.
  apply Z.bits_inj'. intros n Hn. rewrite !Z.land_spec, !Z.shiftr_spec, Z.land_spec by lia.
  rewrite !Z.testbit_ones_nonneg by lia.
  destruct (Z.ltb_spec n 1); [|by rewrite !andb_false_r].
  rewrite (proj2 (Z.ltb_lt (n + m) 8)) by lia. by rewrite andb_true_r.
Qed.

(** ** Fields *)

(** The bits of a field, when the report has them. *)
Definition raw_value (report : list Z) (f : HidField) : option Z :=
  if bit_offset f + bit_size f <=? 8 * len report
  then Some (le_value report / 2 ^ bit_offset f mod 2 ^ bit_size f) else None.

(** The value of a field: signed when its range says so. *)
Definition field_value (report : list Z) (f : HidField) : option Z :=
  raw ← raw_value report f;
  if logical_minimum f <? 0 then Some (as_signed (bit_size f) raw) else i32_try_from raw.

Lemma range_succ n : 0 ≤ n → range (n + 1) = range n ++ [n].
Proof.
  intros Hn. unfold range. rewrite Z2Nat.inj_add by lia. change (Z.to_nat 1) with 1%nat.
  rewrite seq_app, fmap_app. simpl. by rewrite Z2Nat.id.
Qed.

Lemma extract_bits_prefix report f n :
  Forall u8 report → field_ok MAX_INPUT_REPORT_BITS f → 0 ≤ n → n ≤ bit_size f →
  foldl (λ value bit, value ≫= λ v, extract_bit report f v bit) (Some 0) (range n) =
  if (n =? 0) || (bit_offset f + n <=? 8 * len report)
  then Some (le_value report / 2 ^ bit_offset f mod 2 ^ n) else None.
Proof.
  intros HD (Hoff & Hs & Hend & _). unfold MAX_INPUT_REPORT_BITS in *.
  intros Hn. revert n Hn. apply (natlike_ind (λ n, n ≤ bit_size f → _)).
  - intros _. change (range 0) with (@nil Z). simpl. by rewrite Z.mod_1_r.
  - intros n Hn0 IH Hn. rewrite <-Z.add_1_r in *. rewrite range_succ, foldl_app by lia.
    rewrite IH by lia. simpl. clear IH.
    assert (n + 1 =? 0 = false) as -> by lia.
    destruct (Z.leb_spec (bit_offset f + (n + 1)) (8 * len report)) as [Hle|Hgt].
    + assert ((n =? 0) || (bit_offset f + n <=? 8 * len report) = true) as -> by lia. simpl.
      unfold extract_bit. unfold checked_add. rewrite (proj2 (Z.leb_le _ _)) by (unfold U64_MAX; lia).
      simpl. destruct (lookup_lt_is_Some_2 report (Z.to_nat ((bit_offset f + n) / 8))) as [byte Hb].
      { unfold len in *. zlia. }
      rewrite Hb. simpl. rewrite (report_bit report _ byte) by (done || lia).
      set (v := le_value report). f_equal.
      assert (0 < 2 ^ n) by (apply Z.pow_pos_nonneg; lia).
      assert (0 < 2 ^ bit_offset f) by (apply Z.pow_pos_nonneg; lia).
      rewrite (Z.pow_add_r 2 (bit_offset f) n), <-Z.div_div by lia.
      generalize (v / 2 ^ bit_offset f). intros w.
      rewrite (lor_add_low _ _ n); [|lia|apply Z.mod_pos_bound; lia].
      rewrite (Z.pow_add_r 2 n 1), Z.rem_mul_r by lia. change (2 ^ 1) with 2. lia.
    + destruct ((n =? 0) || (bit_offset f + n <=? 8 * len report)) eqn:E; [|done]. simpl.
      unfold extract_bit, checked_add. rewrite (proj2 (Z.leb_le _ _)) by (unfold U64_MAX; lia). simpl.
      destruct (report !! _) eqn:Hb; [|done]. apply lookup_lt_Some in Hb. unfold len in *.
      pose proof (Z.div_pos (bit_offset f + n) 8 ltac:(lia) ltac:(lia)).
      assert ((bit_offset f + n) / 8 < Z.of_nat (length report)) by lia. zlia.
Qed.

Lemma extract_bits_ok report f :
  Forall u8 report → field_ok MAX_INPUT_REPORT_BITS f → extract_bits report f = raw_value report f.
Proof.
  intros HD Hf. pose proof Hf as (_ & Hs & _). unfold extract_bits, raw_value.
  assert ((bit_size f =? 0) || (32 <? bit_size f) = false) as -> by lia.
  rewrite extract_bits_prefix by (done || lia). by assert (bit_size f =? 0 = false) as -> by lia.
Qed.

Lemma raw_value_bound report f raw :
  1 ≤ bit_size f → raw_value report f = Some raw → 0 ≤ raw < 2 ^ bit_size f.
Proof.
  intros Hs. unfold raw_value. destruct (_ <=? _); [|done]. intros [= <-].
  apply Z.mod_pos_bound. apply Z.pow_pos_nonneg; lia.
Qed.

Lemma sign_extend_bits_ok raw bits :
  1 ≤ bits ≤ 32 → 0 ≤ raw < 2 ^ bits → sign_extend_bits raw bits = as_signed bits raw.
Proof.
  intros Hb Hr. unfold sign_extend_bits, as_signed. set (s := 32 - bits).
  assert (0 < 2 ^ s) by (apply Z.pow_pos_nonneg; lia).
  assert (2 ^ 32 = 2 ^ bits * 2 ^ s) as E by (rewrite <-Z.pow_add_r by lia; f_equal; lia).
  assert (2 ^ (32 - 1) = 2 ^ (bits - 1) * 2 ^ s) as E' by (rewrite <-Z.pow_add_r by lia; f_equal; lia).
  rewrite Z.shiftl_mul_pow2 by lia. rewrite (Z.mod_small (raw * 2 ^ s)) by nia. rewrite (Z.mod_small raw) by done.
  rewrite Z.shiftr_div_pow2 by lia.
  destruct (Z.ltb_spec raw (2 ^ (bits - 1))).
  - rewrite (proj2 (Z.ltb_lt _ _)) by nia. by apply Z.div_mul; lia.
  - rewrite (proj2 (Z.ltb_ge _ _)) by nia. rewrite E.
    replace (raw * 2 ^ s - 2 ^ bits * 2 ^ s) with ((raw - 2 ^ bits) * 2 ^ s) by lia. by apply Z.div_mul; lia.
Qed.

Lemma extract_logical_value_ok report f :
  Forall u8 report → field_ok MAX_INPUT_REPORT_BITS f →
  extract_logical_value report f = field_value report f.
Proof.
  intros HD Hf. pose proof Hf as (_ & Hs & _). unfold extract_logical_value, field_value.
  rewrite extract_bits_ok by done. destruct (raw_value report f) as [raw|] eqn:E; simpl; [|done].
  apply raw_value_bound in E; [|lia]. by rewrite sign_extend_bits_ok.
Qed.

(** ** Contacts *)

Definition reported_count (report : list Z) (l : HidTouchLayout) : option Z :=
  match contact_count l with Some f => raw_value report f | None => Some (contact_capacity l) end.

(** The tip switch of contact [i] is on. *)
Definition tip_down (report : list Z) (l : HidTouchLayout) (i : Z) : bool :=
  match tips l !! Z.to_nat i ≫= raw_value report with Some raw => negb (raw =? 0) | None => false end.

(** An optional field has its value exactly when the layout has the field. *)
Definition optional_value (report : list Z) (fields : list HidField) (i : Z) (v : option Z) : Prop :=
  match fields !! Z.to_nat i with
  | Some f => is_Some v ∧ field_value report f = v
  | None => v = None
  end.

Definition contact_at (report : list Z) (l : HidTouchLayout) (i : Z) (c : HidContact) : Prop :=
  descriptor_slot c = i ∧
  (xs l !! Z.to_nat i) ≫= field_value report = Some (contact_x c) ∧
  (ys l !! Z.to_nat i) ≫= field_value report = Some (contact_y c) ∧
  optional_value report (contact_ids l) i (hardware_id c) ∧
  optional_value report (pressures l) i (pressure c) ∧
  optional_value report (touch_majors l) i (touch_major c).

(** The report has the bits of [f], and they are a value of [f]. *)
Definition readable (report : list Z) (f : HidField) : Prop :=
  is_Some (raw_value report f) ∧ is_Some (field_value report f).

Section Decode.
Context (report : list Z) (l : HidTouchLayout) (HD : Forall u8 report) (HL : layout_ok l).

Lemma layout_field_ok f : f ∈ layout_fields l → field_ok MAX_INPUT_REPORT_BITS f.
Proof using HL. intros Hf. by apply (proj1 (Forall_forall _ _) (lk_fields _ HL)). Qed.

Lemma in_layout f :
  f ∈ tips l ∨ f ∈ contact_ids l ∨ f ∈ xs l ∨ f ∈ ys l ∨ f ∈ pressures l ∨ f ∈ touch_majors l ∨
  contact_count l = Some f → f ∈ layout_fields l.
Proof.
  unfold layout_fields. rewrite !elem_of_app. intros [|[|[|[|[|[|Hc]]]]]]; auto 10.
  rewrite Hc. simpl. rewrite list_elem_of_singleton. auto 10.
Qed.

Lemma extract_optional_ok (fields : list HidField) i e :
  (∀ f, f ∈ fields → f ∈ layout_fields l) →
  match extract_optional report fields i e with
  | Ok v => optional_value report fields i v
  | Err _ => ¬ Forall (readable report) fields
  | Panic => False
  end.
Proof using HD HL.
  intros Hin. unfold extract_optional, optional_value. destruct (fields !! _) as [f|] eqn:E; [|done].
  apply list_elem_of_lookup_2 in E as Hf.
  rewrite extract_logical_value_ok by (done || by apply layout_field_ok, Hin).
  destruct (field_value report f) as [v|] eqn:Ev; simpl; [done|].
  intros HF. destruct (proj1 (Forall_forall _ _) HF f Hf) as [_ [? ?]]. congruence.
Qed.

(** All fields of the layout can be read. *)
Definition all_readable : Prop := Forall (readable report) (layout_fields l).

Lemma readable_in (fields : list HidField) : (∀ f, f ∈ fields → f ∈ layout_fields l) → all_readable → Forall (readable report) fields.
Proof. intros Hin H. apply Forall_forall. intros f Hf. by apply (proj1 (Forall_forall _ _) H), Hin. Qed.

Lemma required_value (fields : list HidField) i f e :
  (∀ f, f ∈ fields → f ∈ layout_fields l) → fields !! Z.to_nat i = Some f →
  match ok_or (extract_logical_value report f) e : outcome string Z with
  | Ok v => (fields !! Z.to_nat i) ≫= field_value report = Some v
  | Err _ => ¬ all_readable
  | Panic => False
  end.
Proof using HD HL.
  intros Hin Hf. apply list_elem_of_lookup_2 in Hf as Hel.
  rewrite extract_logical_value_ok by (done || by apply layout_field_ok, Hin). rewrite Hf. simpl.
  destruct (field_value report f) eqn:Ev; simpl; [done|]. intros HR.
  destruct (proj1 (Forall_forall _ _) HR f (Hin f Hel)) as [_ [? ?]]. congruence.
Qed.

Lemma decode_contact_ok i :
  0 ≤ i < contact_capacity l →
  match decode_contact report l i with
  | Ok (Some c) => tip_down report l i = true ∧ contact_at report l i c
  | Ok None => tip_down report l i = false
  | Err _ => ¬ all_readable
  | Panic => False
  end.
Proof using HD HL.
  unfold contact_capacity, len. intros Hi. unfold decode_contact, tip_down, index.
  destruct (lookup_lt_is_Some_2 (tips l) (Z.to_nat i) ltac:(lia)) as [t Ht].
  destruct (lookup_lt_is_Some_2 (xs l) (Z.to_nat i) ltac:(lia)) as [x Hx].
  destruct (lookup_lt_is_Some_2 (ys l) (Z.to_nat i) ltac:(lia)) as [y Hy].
  rewrite Ht, Hx, Hy. cbn [bind mbind option_bind].
  assert (t ∈ layout_fields l) as Htl by (apply in_layout; left; by eapply list_elem_of_lookup_2).
  rewrite extract_bits_ok by (done || by apply layout_field_ok).
  destruct (raw_value report t) as [raw|] eqn:Er; cbn [ok_or bind].
  2: { intros HR. destruct (proj1 (Forall_forall _ _) HR t Htl) as [[? ?] _]. congruence. }
  destruct (raw =? 0); [done|].
  pose proof (required_value (xs l) i x "goodix: malformed HID X field"%string) as Hxv.
  specialize (Hxv ltac:(intros f Hf; apply in_layout; tauto) Hx).
  destruct (ok_or (extract_logical_value report x) _) as [vx| |]; cbn [bind]; [|done..].
  pose proof (required_value (ys l) i y "goodix: malformed HID Y field"%string) as Hyv.
  specialize (Hyv ltac:(intros f Hf; apply in_layout; tauto) Hy).
  destruct (ok_or (extract_logical_value report y) _) as [vy| |]; cbn [bind]; [|done..].
  pose proof (λ fs e, extract_optional_ok fs i e) as Ho.
  assert (∀ fs, (∀ f, f ∈ fs → f ∈ layout_fields l) → ¬ Forall (readable report) fs → ¬ all_readable) as Hn.
  { intros fs Hfs Hnot HR. by apply Hnot, readable_in. }
  assert (∀ f, f ∈ contact_ids l → f ∈ layout_fields l) as H1 by (intros; apply in_layout; tauto).
  assert (∀ f, f ∈ pressures l → f ∈ layout_fields l) as H2 by (intros; apply in_layout; tauto).
  assert (∀ f, f ∈ touch_majors l → f ∈ layout_fields l) as H3 by (intros; apply in_layout; tauto).
  pose proof (Ho (contact_ids l) "goodix: malformed HID contact identifier"%string H1) as Hid.
  destruct (extract_optional _ (contact_ids l) _ _) as [hid| |]; cbn [bind]; [|exact (Hn _ H1 Hid)|done].
  pose proof (Ho (pressures l) "goodix: malformed HID pressure field"%string H2) as Hp.
  destruct (extract_optional _ (pressures l) _ _) as [p| |]; cbn [bind]; [|exact (Hn _ H2 Hp)|done].
  pose proof (Ho (touch_majors l) "goodix: malformed HID touch-major field"%string H3) as Hm.
  destruct (extract_optional _ (touch_majors l) _ _) as [m| |]; cbn [bind]; [|exact (Hn _ H3 Hm)|done].
  split; [done|]. rewrite Hx in Hxv. rewrite Hy in Hyv. unfold contact_at. rewrite Hx, Hy.
  split_and!; done.
Qed.

Lemma decode_loop_ok is_ cs0 pre :
  (∀ i, i ∈ is_ → 0 ≤ i < contact_capacity l) →
  Forall2 (contact_at report l) (List.filter (tip_down report l) pre) cs0 →
  match foldM (λ contacts i, let? c := decode_contact report l i in
                 Ok (match c with Some c => contacts ++ [c] | None => contacts end)) cs0 is_ with
  | Ok cs => Forall2 (contact_at report l) (List.filter (tip_down report l) (pre ++ is_)) cs
  | Err _ => ¬ all_readable
  | Panic => False
  end.
Proof using HD HL.
  revert cs0 pre. induction is_ as [|i is_ IH]; intros cs0 pre Hi HF; cbn [foldM]; [by rewrite app_nil_r|].
  pose proof (decode_contact_ok i (Hi i (list_elem_of_here _ _))) as Hc.
  destruct (decode_contact report l i) as [[c|]|e|]; cbn [bind]; [| |done..].
  - destruct Hc as [Ht Hc]. rewrite (cons_middle i pre is_), app_assoc. apply IH; [set_solver|].
    rewrite List.filter_app. simpl. rewrite Ht. by apply Forall2_app; [|constructor].
  - rewrite (cons_middle i pre is_), app_assoc. apply IH; [set_solver|].
    rewrite List.filter_app. simpl. by rewrite Hc, app_nil_r.
Qed.
End Decode.

Lemma decode_contacts_ok (report : list Z) (l : HidTouchLayout)
    (Hbytes : Forall u8 report) (Hlayout : layout_ok l) :
  match decode_contacts report l with
  | Ok cs => ∃ n, reported_count report l = Some n ∧
      Forall2 (contact_at report l)
        (List.filter (tip_down report l) (range (Z.min n (contact_capacity l)))) cs
  | Err _ => ¬ all_readable report l
  | Panic => False
  end.
Proof.
  unfold decode_contacts, reported_count. destruct (contact_count l) as [f|] eqn:Ec.
  - assert (f ∈ layout_fields l) as Hf by (apply in_layout; tauto).
    rewrite extract_bits_ok by (done || by apply (layout_field_ok l Hlayout)).
    destruct (raw_value report f) as [n|] eqn:Er; cbn [ok_or bind].
    2: { intros HR. destruct (proj1 (Forall_forall _ _) HR f Hf) as [[? ?] _]. congruence. }
    pose proof (decode_loop_ok report l Hbytes Hlayout (range (Z.min n (contact_capacity l))) [] []) as H.
    specialize (H ltac:(intros i Hi%elem_of_range; lia) ltac:(constructor)).
    destruct (foldM _ _ _); [|done..]. by exists n.
  - cbn [bind].
    pose proof (decode_loop_ok report l Hbytes Hlayout
                  (range (Z.min (contact_capacity l) (contact_capacity l))) [] []) as H.
    specialize (H ltac:(intros i Hi%elem_of_range; lia) ltac:(constructor)).
    destruct (foldM _ _ _); [|done..]. by exists (contact_capacity l).
Qed.
(** Decoding an input report reads numbers.  For a layout the parser accepts
    and any bytes, decoding never panics.  When it answers, the contacts are, in
    the order of the descriptor, those of the first [min(count, capacity)] whose
    tip switch is on, and each position, identifier, pressure and size is the
    field's slice of the whole report read as one little-endian number, taken as
    signed exactly when the field's range starts below zero.  A report that has
    every field of the layout is always decoded. *)
Theorem decode_contacts_reads (report : list Z) (l : HidTouchLayout)
    (Hbytes : Forall u8 report) (Hlayout : layout_ok l) :
  match decode_contacts report l with
  | Ok cs => ∃ n, reported_count report l = Some n ∧
      Forall2 (contact_at report l)
        (List.filter (tip_down report l) (range (Z.min n (contact_capacity l)))) cs
  | Err _ => ¬ all_readable report l
  | Panic => False
  end.
Proof. exact (decode_contacts_ok report l Hbytes Hlayout). Qed.
End HidReportFacts.
