(* ===== verification/TouchFacts.v ===== *)
(** * What a client of the touchscreen sees

    The slot tracker against an abstract client of the multitouch protocol: a
    program that follows the slot, tracking and position events has, after each
    frame, exactly the contacts the tracker has. *)
From stdpp Require Import gmap.
From S2P Require Import Prelude HidTouch HidFacts.

Module TouchFacts.
Import Hid HidFacts.

(** ** The client *)

Record Touch := mk_touch { touch_id : Z; touch_x : option Z; touch_y : option Z }.
Record Client := mk_client { current : nat; view : gmap nat Touch }.

Definition set_x (v : Z) (t : Touch) : Touch := mk_touch (touch_id t) (Some v) (touch_y t).
Definition set_y (v : Z) (t : Touch) : Touch := mk_touch (touch_id t) (touch_x t) (Some v).

Definition consume (c : Client) (e : EventCode * Z) : Client :=
  match e.1 with
  | AbsMtSlot => mk_client (Z.to_nat e.2) (view c)
  | AbsMtTrackingId =>
      if e.2 =? -1 then mk_client (current c) (delete (current c) (view c))
      else mk_client (current c) (<[current c := mk_touch e.2 None None]> (view c))
  | AbsMtPositionX => mk_client (current c) (alter (set_x e.2) (current c) (view c))
  | AbsMtPositionY => mk_client (current c) (alter (set_y e.2) (current c) (view c))
  | _ => c
  end.

Definition consume_all (c : Client) (es : list (EventCode * Z)) : Client := foldl consume c es.

Definition shown_contact (u : SlotUpdate) : Touch :=
  mk_touch (update_tracking_id u) (Some (contact_x (contact u))) (Some (contact_y (contact u))).

(** The contacts of a frame, by slot. *)
Definition shown (us : list SlotUpdate) : gmap nat Touch :=
  list_to_map ((λ u, (update_slot u, shown_contact u)) <$> us).

(** ** The tracker *)

Definition slot_at (t : SlotTracker) (i : nat) : option TouchSlot := mjoin (slots t !! i).

Record tracker_ok (n : nat) (t : SlotTracker) : Prop := {
  tk_length : length (slots t) = n;
  tk_next : 1 ≤ next_tracking_id t ≤ I32_MAX;
  tk_ids : ∀ i s, slot_at t i = Some s → 1 ≤ tracking_id s ≤ I32_MAX;
}.

(** Identifiers are in use once, and new ones are larger. *)
Record fresh_ids (t : SlotTracker) : Prop := {
  fr_below : ∀ i s, slot_at t i = Some s → tracking_id s < next_tracking_id t;
  fr_distinct : ∀ i j s s', slot_at t i = Some s → slot_at t j = Some s' →
    tracking_id s = tracking_id s' → i = j;
}.

(** The client has the contacts of the tracker. *)
Definition agrees (c : Client) (t : SlotTracker) : Prop :=
  ∀ i, touch_id <$> view c !! i = tracking_id <$> slot_at t i.

Lemma find_slot_Some p l i : find_slot p l = Some i → ∃ s, l !! i = Some s ∧ p s = true.
Proof.
  revert i. induction l as [|s l IH]; intros i; simpl; [done|]. destruct (p s) eqn:E.
  - intros [= <-]. by exists s.
  - intros (j & Hj & ->)%fmap_Some. simpl. by apply IH.
Qed.

Lemma find_slot_None p l i s : find_slot p l = None → l !! i = Some s → p s = false.
Proof.
  revert i. induction l as [|x l IH]; intros i; simpl; [done|]. destruct (p x) eqn:E; [done|].
  intros Hn%fmap_None. destruct i as [|i]; simpl; [by intros [= <-]|]. by apply IH.
Qed.

(** ** A frame in progress

    [t0] is the tracker before the frame with its slots not yet seen. *)
Definition continues (t0 : SlotTracker) (u : SlotUpdate) : Prop :=
  if began u then slots t0 !! update_slot u = Some None
  else ∃ s, slot_at t0 (update_slot u) = Some s ∧ tracking_id s = update_tracking_id u ∧
            identity s = contact_identity (contact u).

Record progress (n : nat) (t0 t : SlotTracker) (us : list SlotUpdate) (cs : list HidContact) : Prop := {
  pg_ok : tracker_ok n t;
  pg_distinct : NoDup (update_slot <$> us);
  pg_contacts : (contact <$> us) `sublist_of` cs;
  pg_updates : ∀ u, u ∈ us → continues t0 u ∧
    ∃ s, slot_at t (update_slot u) = Some s ∧ seen s = true ∧ tracking_id s = update_tracking_id u;
  pg_rest : ∀ i, i ∉ (update_slot <$> us) → slots t !! i = slots t0 !! i;
  pg_full : (length us < length cs)%nat → ∀ i, slots t !! i ≠ Some None;
}.

Definition all_unseen (t : SlotTracker) : Prop := ∀ i s, slot_at t i = Some s → seen s = false.

Lemma slot_at_insert t i s next j :
  (i < length (slots t))%nat →
  slot_at (mk_tracker (<[i := Some s]> (slots t)) next) j = if decide (i = j) then Some s else slot_at t j.
Proof.
  intros Hi. unfold slot_at. simpl. case_decide as E; [subst|].
  - by rewrite list_lookup_insert_eq.
  - by rewrite list_lookup_insert_ne.
Qed.

(** A contact takes the slot [i] that no earlier contact of the frame took. *)
Lemma progress_take n t0 t us cs c i s began next :
  progress n t0 t us cs → all_unseen t0 → i ∉ (update_slot <$> us) → (i < n)%nat →
  (length us < length cs → ∃ s', slots t !! i = Some (Some s'))%nat →
  seen s = true → 1 ≤ tracking_id s ≤ I32_MAX → 1 ≤ next ≤ I32_MAX →
  continues t0 (mk_update i (tracking_id s) began c) →
  progress n t0 (mk_tracker (<[i := Some s]> (slots t)) next)
    (us ++ [mk_update i (tracking_id s) began c]) (cs ++ [c]).
Proof.
  intros [[K1 K2 K3] P2 P3 P4 P5 P6] HU Hi Hn Hfull Hs Hid Hnext Hc.
  assert (i < length (slots t))%nat as Hlt by lia.
  split.
  - split; simpl; [by rewrite length_insert|done|]. intros j s'. rewrite slot_at_insert by done.
    case_decide; [by intros [= <-]|apply K3].
  - rewrite fmap_app. simpl. apply NoDup_app. split_and!; [done| |apply NoDup_singleton].
    intros j Hj ->%list_elem_of_singleton. done.
  - rewrite fmap_app. by apply sublist_app.
  - intros u [Hu| ->%list_elem_of_singleton]%elem_of_app.
    + destruct (P4 u Hu) as [? (s' & Hs' & ?)]. split; [done|]. exists s'. rewrite slot_at_insert by done.
      case_decide as E; [|done]. destruct Hi. apply list_elem_of_fmap. by exists u.
    + split; [done|]. exists s. simpl. rewrite slot_at_insert by done. by rewrite decide_True.
  - intros j. rewrite fmap_app, not_elem_of_app. simpl. rewrite list_elem_of_singleton. intros [Hj Hne].
    rewrite list_lookup_insert_ne by done. by apply P5.
  - rewrite !length_app. simpl. intros Hlt' j Hj.
    destruct (decide (i = j)) as [->|Hne]; [by rewrite list_lookup_insert_eq in Hj|].
    rewrite list_lookup_insert_ne in Hj by done. revert Hj. apply P6. lia.
Qed.

Lemma apply_contact_progress n t0 t us cs c :
  progress n t0 t us cs → all_unseen t0 →
  let '(t', us') := apply_contact (t, us) c in progress n t0 t' us' (cs ++ [c]).
Proof.
  intros HP HU. pose proof HP as [[K1 K2 K3] P2 P3 P4 P5 P6]. unfold apply_contact.
  assert (∀ i x, slots t !! i = Some x → (∀ s, x = Some s → seen s = false) → i ∉ update_slot <$> us) as Hfree.
  { intros i x Hx Hseen (u & -> & Hu)%list_elem_of_fmap. destruct (P4 u Hu) as (_ & s & Hs & Hs' & _).
    unfold slot_at in Hs. rewrite Hx in Hs. simpl in Hs. subst. rewrite (Hseen s eq_refl) in Hs'. done. }
  destruct (find_slot (holds _ false) (slots t)) as [i|] eqn:Ee.
  - apply find_slot_Some in Ee as (x & Hx & Hh). rewrite Hx.
    destruct x as [slot|]; [|done]. unfold holds in Hh. bool_to_prop.
    assert (seen slot = false) as Hseen by (by destruct (seen slot)).
    assert (i ∉ update_slot <$> us) as Hi by (eapply Hfree; [exact Hx|]; by intros s [= <-]).
    change (tracking_id slot) with (tracking_id (see slot)).
    assert (slot_at t i = Some slot) as Hat by (unfold slot_at; by rewrite Hx).
    apply progress_take; try done.
    + rewrite <-K1. by eapply lookup_lt_Some.
    + intros _. by exists slot.
    + simpl. by apply (K3 i).
    + exists slot. simpl. split_and!; try done. rewrite P5 in Hx by done. unfold slot_at. by rewrite Hx.
  - destruct (find_slot is_free (slots t)) as [i|] eqn:Ef.
    + apply find_slot_Some in Ef as (x & Hx & Hh). rewrite Hx. destruct x; [done|].
      assert (i ∉ update_slot <$> us) as Hi by (by eapply Hfree).
      unfold allocate_tracking_id. simpl.
      change (next_tracking_id t) with (tracking_id (mk_slot
        (if existsb (holds (contact_identity c) true) (slots t) then Descriptor (descriptor_slot c)
         else contact_identity c) (next_tracking_id t) true)) at 2.
      apply progress_take; try done.
      * rewrite <-K1. by eapply lookup_lt_Some.
      * intros Hlt. by destruct (P6 Hlt i).
      * simpl. destruct (Z.eqb_spec (next_tracking_id t) I32_MAX); unfold I32_MAX in *; lia.
      * unfold continues. simpl. by rewrite <-P5.
    + split; try done; [by apply sublist_inserts_r|].
      intros _ i Hi. by apply (find_slot_None _ _ _ _ Ef) in Hi.
Qed.

Lemma apply_contacts_progress n t0 cs :
  tracker_ok n t0 → all_unseen t0 →
  let '(t, us) := foldl apply_contact (t0, []) cs in progress n t0 t us cs.
Proof.
  intros HT HU. induction cs as [|c cs IH] using rev_ind.
  - simpl. split; simpl; try done; [constructor| |lia]. intros u Hu. by apply elem_of_nil in Hu.
  - rewrite foldl_app. simpl. destruct (foldl apply_contact (t0, []) cs) as [t us].
    by apply apply_contact_progress.
Qed.

(** ** The end of a frame *)

Definition kept (s : option TouchSlot) : option TouchSlot :=
  match s with Some slot => if seen slot then Some slot else None | None => None end.

Lemma release_unseen_ok from l :
  (release_unseen from l).1 = kept <$> l ∧
  ∀ i, i ∈ (release_unseen from l).2 ↔ ∃ j slot, i = (from + j)%nat ∧ l !! j = Some (Some slot) ∧ seen slot = false.
Proof.
  revert from. induction l as [|s l IH]; intros from; simpl.
  { split; [done|]. intros i. rewrite elem_of_nil. naive_solver. }
  destruct (IH (S from)) as [IH1 IH2]. destruct (release_unseen (S from) l) as [l' rel]. simpl in *.
  assert (∀ i, (∃ j slot, i = (from + j)%nat ∧ (s :: l) !! j = Some (Some slot) ∧ seen slot = false) ↔
    (∃ slot, i = from ∧ s = Some slot ∧ seen slot = false) ∨ i ∈ rel) as Hi.
  { intros i. rewrite IH2. split.
    - intros ([|j] & slot & -> & Hj & Hs); simpl in Hj.
      + left. exists slot. split_and!; [lia|congruence|done].
      + right. exists j, slot. split_and!; [lia|done..].
    - intros [(slot & -> & -> & ?)|(j & slot & -> & ? & ?)].
      + exists 0%nat, slot. split_and!; [lia|done..].
      + exists (S j), slot. split_and!; [lia|done..]. }
  subst l'. destruct s as [slot|]; simpl; [destruct (seen slot) eqn:E|]; simpl; (split; [done|]); intros i;
    rewrite Hi; clear Hi IH2.
  - split; [tauto|]. intros [(slot' & _ & [= <-] & ?)|?]; [congruence|done].
  - rewrite elem_of_cons. split.
    + intros [->|?]; [left; by exists slot|by right].
    + intros [(slot' & -> & _)|?]; [by left|by right].
  - split; [tauto|]. intros [(slot' & _ & [=] & _)|?]. done.
Qed.

Lemma unsee_all_ok n t :
  tracker_ok n t →
  let t0 := mk_tracker ((λ s : option TouchSlot, unsee <$> s) <$> slots t) (next_tracking_id t) in
  tracker_ok n t0 ∧ all_unseen t0 ∧ (∀ i, slot_at t0 i = unsee <$> slot_at t i).
Proof.
  intros [K1 K2 K3] t0.
  assert (∀ i, slot_at t0 i = unsee <$> slot_at t i) as H.
  { intros i. unfold slot_at, t0. simpl. rewrite list_lookup_fmap. by destruct (slots t !! i) as [[]|]. }
  split_and!; [split|..|done].
  - unfold t0. simpl. by rewrite length_fmap.
  - done.
  - intros i s. rewrite H. intros (s' & Hs' & ->)%fmap_Some. simpl. by apply (K3 i).
  - intros i s. rewrite H. by intros (s' & Hs' & ->)%fmap_Some.
Qed.

(** ** What a frame does *)

(** An update began in a free slot, or goes on with the contact that had the
    same identity there. *)
Definition update_ok (t : SlotTracker) (u : SlotUpdate) : Prop :=
  if began u then slot_at t (update_slot u) = None
  else ∃ s, slot_at t (update_slot u) = Some s ∧ tracking_id s = update_tracking_id u ∧
            identity s = contact_identity (contact u).

Record frame_ok (n : nat) (t t' : SlotTracker) (f : TouchFrame) (cs : list HidContact) : Prop := {
  fk_ok : tracker_ok n t';
  fk_distinct : NoDup (update_slot <$> updates f);
  fk_slots : ∀ u, u ∈ updates f → (update_slot u < n)%nat ∧ 1 ≤ update_tracking_id u ≤ I32_MAX;
  fk_contacts : (contact <$> updates f) `sublist_of` cs;
  fk_updates : ∀ u, u ∈ updates f → update_ok t u;
  fk_live : ∀ i, tracking_id <$> slot_at t' i = touch_id <$> shown (updates f) !! i;
  fk_releases : ∀ i, i ∈ releases f ↔ is_Some (slot_at t i) ∧ i ∉ (update_slot <$> updates f);
  fk_full : (length (updates f) < length cs)%nat →
    ∀ i, (i < n)%nat → is_Some (slot_at t i) ∨ i ∈ (update_slot <$> updates f);
}.

Lemma shown_lookup us u : NoDup (update_slot <$> us) → u ∈ us → shown us !! update_slot u = Some (shown_contact u).
Proof.
  intros HN Hu. unfold shown. apply elem_of_list_to_map_1.
  - rewrite <-list_fmap_compose. exact HN.
  - apply list_elem_of_fmap. by exists u.
Qed.

Lemma shown_None us i : i ∉ (update_slot <$> us) → shown us !! i = None.
Proof.
  intros Hi. unfold shown. apply not_elem_of_list_to_map_1. by rewrite <-list_fmap_compose.
Qed.

Lemma apply_frame_ok n t cs :
  tracker_ok n t → frame_ok n t (apply t cs).1 (apply t cs).2 cs.
Proof.
  intros HT. unfold apply. destruct (unsee_all_ok n t HT) as (HT0 & HU & Hat). cbv zeta in *.
  set (t0 := mk_tracker _ (next_tracking_id t)) in *.
  pose proof (apply_contacts_progress n t0 cs HT0 HU) as HP.
  destruct (foldl apply_contact (t0, []) cs) as [t1 us]. destruct HP as [[K1 K2 K3] P2 P3 P4 P5 P6].
  destruct (release_unseen_ok 0 (slots t1)) as [R1 R2].
  destruct (release_unseen 0 (slots t1)) as [l' rel]. simpl in *. subst l'.
  set (t' := mk_tracker (kept <$> slots t1) (next_tracking_id t1)).
  assert (∀ i, slot_at t' i = slot_at t1 i ≫= (λ s, if seen s then Some s else None)) as Hkept.
  { intros i. unfold slot_at, t'. simpl. rewrite list_lookup_fmap. by destruct (slots t1 !! i) as [[]|]. }
  assert (∀ i, i ∉ update_slot <$> us → slot_at t1 i = slot_at t0 i) as Hrest.
  { intros i Hi. unfold slot_at. by rewrite P5. }
  split; simpl.
  - split; simpl; [by rewrite length_fmap|done|]. intros i s. rewrite Hkept.
    destruct (slot_at t1 i) as [s1|] eqn:E; simpl; [|done]. destruct (seen s1); [|done].
    intros [= <-]. by apply (K3 i).
  - done.
  - intros u Hu. destruct (P4 u Hu) as (_ & s & Hs & _ & Hid). split.
    + rewrite <-K1. unfold slot_at in Hs. destruct (slots t1 !! _) eqn:E; [by eapply lookup_lt_Some|done].
    + rewrite <-Hid. by apply (K3 (update_slot u)).
  - done.
  - intros u Hu. destruct (P4 u Hu) as [Hc _]. unfold continues in Hc. unfold update_ok. destruct (began u).
    + assert (slot_at t0 (update_slot u) = None) as Hn by (unfold slot_at; by rewrite Hc).
      rewrite Hat in Hn. by apply fmap_None in Hn.
    + destruct Hc as (s & Hs & H1 & H2). rewrite Hat in Hs. apply fmap_Some in Hs as (s' & Hs' & ->). by exists s'.
  - intros i. rewrite Hkept. destruct (decide (i ∈ update_slot <$> us)) as [Hi|Hi].
    + apply list_elem_of_fmap in Hi as (u & -> & Hu). rewrite shown_lookup by done.
      destruct (P4 u Hu) as (_ & s & -> & Hseen & Hid). simpl. rewrite Hseen. simpl. by rewrite Hid.
    + rewrite shown_None, Hrest by done. simpl. destruct (slot_at t0 i) as [s|] eqn:E; [|done]. simpl.
      by rewrite (HU i s E).
  - intros i. rewrite R2. split.
    + intros (j & s & -> & Hj & Hs). simpl. assert (slot_at t1 j = Some s) as H1 by (unfold slot_at; by rewrite Hj).
      assert (j ∉ update_slot <$> us) as Hn.
      { intros (u & -> & Hu)%list_elem_of_fmap. destruct (P4 u Hu) as (_ & s' & Hs' & ? & _). congruence. }
      split; [|done]. rewrite Hrest, Hat in H1 by done. destruct (slot_at t j); [by eexists|done].
    + intros [[s Hs] Hn]. exists i, (unsee s). split_and!; [done| |done].
      rewrite P5 by done. pose proof (Hat i) as H. rewrite Hs in H. change (mjoin (slots t0 !! i) = Some (unsee s)) in H.
      change (slots t0 !! i = Some (Some (unsee s))).
      destruct (slots t0 !! i) as [[x|]|]; cbn in H; congruence.
  - intros Hlt i Hi. destruct (decide (i ∈ update_slot <$> us)) as [|Hn]; [by right|left].
    destruct (lookup_lt_is_Some_2 (slots t1) i) as [x Hx]; [by rewrite K1|].
    destruct x as [s|]; [|by destruct (P6 Hlt i)].
    assert (slot_at t1 i = Some s) as H1 by (unfold slot_at; by rewrite Hx).
    rewrite Hrest, Hat in H1 by done. destruct (slot_at t i); [by eexists|done].
Qed.

(** ** Following the events *)

Lemma consume_all_app c l1 l2 : consume_all c (l1 ++ l2) = consume_all (consume_all c l1) l2.
Proof. apply foldl_app. Qed.

Lemma consume_event_if c code v :
  (∀ v c, consume c (code, v) = c) → consume_all c (event_if code v) = c.
Proof. intros H. destruct v; [apply H|done]. Qed.

Lemma consume_update c u :
  1 ≤ update_tracking_id u →
  (began u = false → touch_id <$> view c !! update_slot u = Some (update_tracking_id u)) →
  view (consume_all c (update_events u)) = <[update_slot u := shown_contact u]> (view c).
Proof.
  intros Hid Hc. unfold update_events.
  rewrite !consume_all_app, !consume_event_if by done.
  apply map_eq. intros i. destruct (began u); unfold consume_all; cbn [foldl]; unfold consume;
    cbn [fst snd view current]; rewrite Nat2Z.id.
  - destruct (Z.eqb_spec (update_tracking_id u) (-1)); [lia|]. cbn [view current].
    destruct (decide (update_slot u = i)) as [<-|Hne].
    + by rewrite !lookup_alter_eq, !lookup_insert_eq.
    + by rewrite !lookup_alter_ne, !lookup_insert_ne by done.
  - destruct (decide (update_slot u = i)) as [<-|Hne].
    + rewrite !lookup_alter_eq, lookup_insert_eq. specialize (Hc eq_refl).
      destruct (view c !! update_slot u) as [x|]; [|done]. injection Hc as Hx. simpl.
      unfold set_x, set_y, shown_contact. simpl. by rewrite Hx.
    + by rewrite !lookup_alter_ne, !lookup_insert_ne by done.
Qed.

Lemma consume_updates c us :
  NoDup (update_slot <$> us) → (∀ u, u ∈ us → 1 ≤ update_tracking_id u) →
  (∀ u, u ∈ us → began u = false → touch_id <$> view c !! update_slot u = Some (update_tracking_id u)) →
  view (consume_all c (us ≫= update_events)) = shown us ∪ view c.
Proof.
  revert c. induction us as [|u us IH]; intros c HN Hid Hc; cbn [mbind list_bind].
  { unfold shown. simpl. by rewrite (left_id_L ∅ (∪)). }
  rewrite fmap_cons, NoDup_cons in HN. destruct HN as [Hn HN].
  rewrite consume_all_app. pose proof (consume_update c u) as Hu.
  specialize (Hu ltac:(apply Hid; set_solver) ltac:(apply Hc; set_solver)).
  rewrite IH; [|done|intros; apply Hid; set_solver|].
  - rewrite Hu. unfold shown at 2. rewrite fmap_cons. cbn [list_to_map foldr]. fold (shown us).
    change (shown us ∪ <[update_slot u := shown_contact u]> (view c)
            = <[update_slot u := shown_contact u]> (shown us) ∪ view c).
    rewrite <-insert_union_r by (by apply shown_None). by rewrite insert_union_l.
  - intros u' Hu' Hb. rewrite Hu, lookup_insert_ne; [apply Hc; [set_solver|done]|].
    intros E. apply Hn. rewrite E. apply list_elem_of_fmap. by exists u'.
Qed.

Lemma consume_releases c rel i :
  view (consume_all c (rel ≫= release_events)) !! i = if decide (i ∈ rel) then None else view c !! i.
Proof.
  revert c. induction rel as [|j rel IH]; intros c; cbn [mbind list_bind].
  { by rewrite decide_False by apply not_elem_of_nil. }
  rewrite consume_all_app, IH. cbn [release_events consume_all foldl].
  unfold consume; cbn [fst snd view current]. change (-1 =? -1) with true. cbn [view current].
  rewrite Nat2Z.id. destruct (decide (i ∈ rel)) as [Hi|Hi].
  - by rewrite decide_True by (by right).
  - destruct (decide (i = j)) as [->|Hne].
    + by rewrite lookup_delete_eq, decide_True by (by left).
    + rewrite lookup_delete_ne, decide_False by (by rewrite ?elem_of_cons; naive_solver). done.
Qed.

Lemma consume_tail c p any :
  view (consume_all c (match p with Some x => primary_events x | None => [] end
                       ++ [(BtnTouch, if any : bool then 1 else 0); (SynReport, 0)])) = view c.
Proof.
  rewrite consume_all_app. destruct p as [x|]; [|done]. unfold primary_events.
  rewrite consume_all_app, consume_event_if by done. done.
Qed.

Lemma frame_shown n c t t' f cs :
  frame_ok n t t' f cs → agrees c t → view (consume_all c (emit_touch_frame f)) = shown (updates f).
Proof.
  intros [F1 F2 F3 F4 F5 F6 F7 F8] HA. unfold emit_touch_frame.
  rewrite !consume_all_app, <-consume_all_app, consume_tail. apply map_eq. intros i.
  rewrite consume_releases, consume_updates; [|done| |].
  - case_decide as Hr.
    + apply F7 in Hr as [_ Hn]. by rewrite shown_None.
    + destruct (decide (i ∈ update_slot <$> updates f)) as [Hi|Hi].
      * apply list_elem_of_fmap in Hi as (u & -> & Hu). rewrite lookup_union, shown_lookup by done.
        by rewrite union_Some_l.
      * rewrite lookup_union, shown_None by done. rewrite (left_id_L None (∪)).
        specialize (HA i). destruct (slot_at t i) eqn:E.
        -- destruct Hr. apply F7. by split; [rewrite E; eexists|].
        -- simpl in HA. by apply fmap_None in HA.
  - intros u Hu. destruct (F3 u Hu). lia.
  - intros u Hu Hb. specialize (F5 u Hu). unfold update_ok in F5. rewrite Hb in F5.
    destruct F5 as (s & Hs & Hid & _). rewrite HA, Hs. simpl. by rewrite Hid.
Qed.

(** ** Tracking identifiers *)

Definition begins (us : list SlotUpdate) : Z := len (List.filter began us).
Definition is_begin (e : EventCode * Z) : bool :=
  match e.1 with AbsMtTrackingId => negb (e.2 =? -1) | _ => false end.

(** The contacts that began in some events. *)
Definition begun (es : list (EventCode * Z)) : Z := len (List.filter is_begin es).

Lemma begun_app l1 l2 : begun (l1 ++ l2) = begun l1 + begun l2.
Proof. unfold begun, len. rewrite List.filter_app, length_app. lia. Qed.

Lemma begins_snoc us u : begins (us ++ [u]) = begins us + (if began u then 1 else 0).
Proof. unfold begins, len. rewrite List.filter_app, length_app. simpl. destruct (began u); simpl; lia. Qed.

Lemma begun_event_if code v : code ≠ AbsMtTrackingId → begun (event_if code v) = 0.
Proof. destruct v, code; done. Qed.

Lemma begun_updates us :
  (∀ u, u ∈ us → 1 ≤ update_tracking_id u) → begun (us ≫= update_events) = begins us.
Proof.
  induction us as [|u us IH] using rev_ind; intros Hid; [done|].
  rewrite bind_app, begun_app, IH, begins_snoc by (intros; apply Hid; set_solver). f_equal.
  cbn [mbind list_bind]. rewrite app_nil_r. unfold update_events.
  rewrite !begun_app, !begun_event_if by done. assert (1 ≤ update_tracking_id u) by (apply Hid; set_solver).
  unfold begun, len. destruct (began u); simpl; [|done]. unfold is_begin. cbn [fst snd].
  by destruct (Z.eqb_spec (update_tracking_id u) (-1)); [lia|].
Qed.

Lemma begun_releases rel : begun (rel ≫= release_events) = 0.
Proof. induction rel as [|i rel IH]; [done|]. cbn [mbind list_bind]. by rewrite begun_app, IH. Qed.

Lemma begun_frame n t t' f cs : frame_ok n t t' f cs → begun (emit_touch_frame f) = begins (updates f).
Proof.
  intros HF. unfold emit_touch_frame. rewrite !begun_app, begun_releases, begun_updates.
  - destruct (primary f) as [x|]; [unfold primary_events; rewrite begun_app, begun_event_if by done|];
      unfold begun; destruct (any_contact f); simpl; unfold len; simpl; lia.
  - intros u Hu. destruct (fk_slots _ _ _ _ _ HF u Hu). lia.
Qed.

Lemma fresh_ids_sub t t' :
  next_tracking_id t' = next_tracking_id t →
  (∀ i s, slot_at t' i = Some s → ∃ s', slot_at t i = Some s' ∧ tracking_id s' = tracking_id s) →
  fresh_ids t → fresh_ids t'.
Proof.
  intros Hn Hs [F1 F2]. split.
  - intros i s Hi. destruct (Hs i s Hi) as (s' & Hs' & <-). rewrite Hn. by apply (F1 i).
  - intros i j s s' Hi Hj E. destruct (Hs i s Hi) as (s1 & H1 & E1). destruct (Hs j s' Hj) as (s2 & H2 & E2).
    apply (F2 i j s1 s2); congruence.
Qed.

Definition fresh_since (next : Z) (t : SlotTracker) (us : list SlotUpdate) : Prop :=
  next + begins us ≤ I32_MAX → fresh_ids t ∧ next_tracking_id t = next + begins us.

Lemma apply_contact_fresh next t us c :
  fresh_since next t us → let '(t', us') := apply_contact (t, us) c in fresh_since next t' us'.
Proof.
  intros HF. unfold apply_contact.
  destruct (match find_slot (holds _ false) _ with Some i => Some i | None => find_slot is_free _ end)
    as [i|] eqn:Ei; [|done].
  assert (i < length (slots t))%nat as Hi.
  { destruct (find_slot (holds _ false) _) eqn:E1.
    - injection Ei as <-. apply find_slot_Some in E1 as (? & ? & _). by eapply lookup_lt_Some.
    - apply find_slot_Some in Ei as (? & ? & _). by eapply lookup_lt_Some. }
  destruct (slots t !! i) as [[slot|]|] eqn:Es.
  - cbv beta iota. intros Hle. rewrite begins_snoc in Hle |- *. cbn [began] in *. destruct (HF ltac:(lia)) as [HF1 HF2].
    split; [|simpl; lia]. apply (fresh_ids_sub t); [done| |done].
    intros j s. rewrite slot_at_insert by done. case_decide as E; [|by exists s].
    intros [= <-]. subst j. exists slot. unfold slot_at. by rewrite Es.
  - unfold allocate_tracking_id. cbn [slots next_tracking_id]. intros Hle. rewrite begins_snoc in Hle |- *.
    cbn [began] in *. destruct (HF ltac:(lia)) as [[F1 F2] HF2].
    destruct (Z.eqb_spec (next_tracking_id t) I32_MAX); [lia|]. split; [|simpl; lia]. split; simpl.
    + intros j s. rewrite slot_at_insert by done. case_decide; [intros [= <-]; simpl; lia|].
      intros Hj. specialize (F1 j s Hj). lia.
    + intros j k s s'. rewrite !slot_at_insert by done.
      case_decide as E1; case_decide as E2; [congruence|..|by apply F2].
      * intros [= <-] Hk. specialize (F1 k s' Hk). simpl. lia.
      * intros Hj [= <-]. specialize (F1 j s Hj). simpl. lia.
  - apply lookup_ge_None in Es. lia.
Qed.

Lemma apply_fresh n t cs :
  tracker_ok n t → fresh_ids t →
  next_tracking_id t + begins (updates (apply t cs).2) ≤ I32_MAX →
  fresh_ids (apply t cs).1 ∧
  next_tracking_id (apply t cs).1 = next_tracking_id t + begins (updates (apply t cs).2).
Proof.
  intros HT HF. unfold apply. destruct (unsee_all_ok n t HT) as (HT0 & HU & Hat). cbv zeta in *.
  set (t0 := mk_tracker _ (next_tracking_id t)) in *.
  assert (let '(t1, us) := foldl apply_contact (t0, []) cs in fresh_since (next_tracking_id t) t1 us) as HS.
  { induction cs as [|c cs IH] using rev_ind.
    - intros _. split; [|unfold t0, begins, len; simpl; lia]. apply (fresh_ids_sub t); [done| |done].
      intros i s. rewrite Hat. intros (s' & Hs' & ->)%fmap_Some. by exists s'.
    - rewrite foldl_app. simpl. destruct (foldl apply_contact (t0, []) cs) as [t1 us].
      by apply apply_contact_fresh. }
  destruct (foldl apply_contact (t0, []) cs) as [t1 us]. destruct (release_unseen_ok 0 (slots t1)) as [R1 _].
  destruct (release_unseen 0 (slots t1)) as [l' rel]. simpl in *. subst l'.
  intros Hle. destruct (HS Hle) as [HF1 HF2]. split; [|done]. apply (fresh_ids_sub t1); [done| |done].
  intros i s. unfold slot_at. simpl. rewrite list_lookup_fmap.
  destruct (slots t1 !! i) as [[s1|]|]; simpl; [|done..]. destruct (seen s1); [|done].
  intros [= <-]. by exists s1.
Qed.

(** What a frame shows.  From any state of the tracker, and for a client that
    has its contacts, the events of a frame leave the client with exactly the
    contacts of the frame's updates, at their positions: new contacts began in
    free slots, the others kept their slot, tracking identifier and identity,
    and every slot that no update names is released.  The updates are contacts
    of the report in order; one is left out only when no slot was free. *)
Theorem touch_frame_shown (n : nat) (c : Client) (t : SlotTracker) (cs : list HidContact)
    (Htracker : tracker_ok n t) (Hagrees : agrees c t) :
  let '(t', f) := apply t cs in
  frame_ok n t t' f cs ∧ view (consume_all c (emit_touch_frame f)) = shown (updates f) ∧
  agrees (consume_all c (emit_touch_frame f)) t'.
Proof.
  pose proof (apply_frame_ok n t cs Htracker) as HF. destruct (apply t cs) as [t' f]. simpl in HF.
  pose proof (frame_shown n c t t' f cs HF Hagrees) as Hv. split_and!; [done..|].
  intros i. by rewrite Hv, (fk_live _ _ _ _ _ HF).
Qed.

(** ** A history of reports *)

Definition report_step (l : HidTouchLayout) (s : SlotTracker * list (EventCode * Z))
    (message : option (list Z)) : SlotTracker * list (EventCode * Z) :=
  match process_report l s.1 message with Ok (t, es) => (t, s.2 ++ es) | _ => s end.

Definition start (n : nat) : SlotTracker * list (EventCode * Z) := (new_tracker n, []).

(** What the client has seen after the events [es]. *)
Definition client (es : list (EventCode * Z)) : Client := consume_all (mk_client 0 ∅) es.

(** The contacts of a message that counts: a transfer of the length it declares,
    with the report the layout is about, that can be decoded. *)
Definition report_contacts (l : HidTouchLayout) (message : option (list Z)) : option (list HidContact) :=
  match message with
  | None => None
  | Some data =>
    match decode_input_length data with
    | None => None
    | Some declared =>
      let report := slice data 2 declared in
      if bool_decide (2 ≤ declared ≤ len data ∧
           (layout_report_id l = 0 ∨ head report = Some (layout_report_id l)))
      then match decode_contacts report l with Ok cs => Some cs | _ => None end
      else None
    end
  end.

(** A message that does not count changes nothing; one that counts is applied to
    the tracker, and leaves the client with the contacts of the frame's updates
    and no others, each at the position that the report gives. *)
Definition report_shown (n : nat) (l : HidTouchLayout) (s s' : SlotTracker * list (EventCode * Z))
    (message : option (list Z)) : Prop :=
  match report_contacts l message with
  | None => s' = s
  | Some cs =>
    frame_ok n s.1 s'.1 (apply s.1 cs).2 cs ∧ view (client s'.2) = shown (updates (apply s.1 cs).2)
  end.

Record history_ok (n : nat) (s : SlotTracker * list (EventCode * Z)) : Prop := {
  hy_tracker : tracker_ok n s.1;
  hy_agrees : agrees (client s.2) s.1;
  hy_fresh : begun s.2 < I32_MAX → fresh_ids s.1 ∧ next_tracking_id s.1 = 1 + begun s.2;
}.

Lemma process_report_cases l t m :
  layout_ok l → (∀ bytes, m = Some bytes → Forall u8 bytes) →
  match report_contacts l m with
  | None => process_report l t m = Ok (t, []) ∨ ∃ e, process_report l t m = Err e
  | Some cs => process_report l t m = Ok ((apply t cs).1, emit_touch_frame (apply t cs).2)
  end.
Proof.
  intros HL HB. unfold process_report, report_contacts. destruct m as [data|]; [|right; by eexists].
  specialize (HB data eq_refl). destruct (decode_input_length data) as [declared|]; cbn [ok_or bind]; [|right; by eexists].
  case_bool_decide as Hc.
  2: { destruct (Z.eqb_spec declared 0); [by left|].
       destruct (_ || _) eqn:E; [right; by eexists|]. destruct (_ && _) eqn:E'; [by left|]. exfalso. apply Hc.
       bool_to_prop. split; [lia|]. destruct (Z.eqb_spec (layout_report_id l) 0); [by left|]. right.
       simpl in E'. apply negb_false_iff in E'. by apply bool_decide_eq_true in E'. }
  destruct Hc as [Hd Hid]. rewrite (proj2 (Z.eqb_neq declared 0)) by lia.
  rewrite (proj2 (Z.ltb_ge declared 2)), (proj2 (Z.ltb_ge (len data) declared)) by lia. cbn [orb].
  assert (negb (layout_report_id l =? 0)
    && negb (bool_decide (head (slice data 2 declared) = Some (layout_report_id l))) = false) as ->.
  { destruct Hid as [->|Hid]; [done|]. rewrite (bool_decide_true _ Hid). apply andb_false_r. }
  pose proof (HidReportFacts.decode_contacts_ok (slice data 2 declared) l) as H.
  specialize (H ltac:(by apply Forall_take, Forall_drop) HL).
  destruct (decode_contacts _ _) as [cs|e|]; cbn [map_err bind]; [|right; by eexists|done].
  by destruct (apply t cs) as [t' f].
Qed.

Lemma report_step_ok n l s m :
  layout_ok l → (∀ bytes, m = Some bytes → Forall u8 bytes) → history_ok n s →
  history_ok n (report_step l s m) ∧ report_shown n l s (report_step l s m) m.
Proof.
  intros HL HB HH. pose proof HH as [H1 H2 H4]. unfold report_step, report_shown.
  pose proof (process_report_cases l s.1 m HL HB) as HP.
  destruct (report_contacts l m) as [cs|].
  2: { destruct HP as [->|[e ->]]; [|done]. destruct s. by rewrite app_nil_r. }
  rewrite HP. clear HP.
  pose proof (apply_frame_ok n s.1 cs H1) as HF.
  pose proof (frame_shown n _ _ _ _ cs HF H2) as Hv. pose proof (begun_frame _ _ _ _ _ HF) as Hb.
  assert (view (client (s.2 ++ emit_touch_frame (apply s.1 cs).2)) = shown (updates (apply s.1 cs).2)) as Hc
    by (unfold client; by rewrite consume_all_app).
  split; [|by split]. split; cbn [fst snd].
  - apply HF.
  - intros i. by rewrite Hc, (fk_live _ _ _ _ _ HF).
  - rewrite begun_app, Hb. intros Hlt.
    assert (0 ≤ begins (updates (apply s.1 cs).2)) by apply Zle_0_nat.
    destruct (H4 ltac:(lia)) as [HF1 HF2].
    destruct (apply_fresh n s.1 cs H1 HF1) as [A1 A2]; [lia|]. split; [done|lia].
Qed.

Lemma history_reached (n : nat) (l : HidTouchLayout) (messages : list (option (list Z))) :
  layout_ok l → Forall (λ m, ∀ bytes, m = Some bytes → Forall u8 bytes) messages →
  history_ok n (foldl (report_step l) (start n) messages).
Proof.
  intros Hlayout Hbytes. induction messages as [|m messages IH] using rev_ind.
  - assert (∀ i, slot_at (new_tracker n) i = None) as Hnone.
    { intros i. change (mjoin (replicate n (@None TouchSlot) !! i) = None).
      destruct (replicate n _ !! i) eqn:E; [|done]. by apply lookup_replicate in E as [-> _]. }
    split; simpl.
    + split; simpl; [by rewrite length_replicate|done|]. intros i s. by rewrite Hnone.
    + intros i. by rewrite Hnone.
    + intros _. split; [|done]. split; intros *; by rewrite Hnone.
  - rewrite foldl_app. apply Forall_app in Hbytes as [HB1 HB2]. simpl.
    apply report_step_ok; [done| |by apply IH]. exact (Forall_inv HB2).
Qed.

(** C36: The touchscreen over any history.  Whatever the bus delivers (failures,
    malformed reports, any bytes), no report makes the driver panic; and a
    client that follows the events has the tracker's contacts: the same slots
    with the same tracking identifiers.  After each message that counts it has
    exactly the contacts of the frame, each at the horizontal and vertical
    position that this report gives for it; other messages change nothing.
    Identifiers are positive, and distinct as long as the counter of contacts
    has not run through all of [i32]. *)
Theorem touch_history (n : nat) (l : HidTouchLayout) (messages : list (option (list Z)))
    (Hlayout : layout_ok l) (Hbytes : Forall (λ m, ∀ bytes, m = Some bytes → Forall u8 bytes) messages) :
  history_ok n (foldl (report_step l) (start n) messages) ∧
  (∀ before m after, messages = before ++ m :: after →
     report_shown n l (foldl (report_step l) (start n) before) (foldl (report_step l) (start n) (before ++ [m])) m) ∧
  ∀ t m, m ∈ messages → process_report l t m ≠ Panic.
Proof.
  split_and!.
  - by apply history_reached.
  - intros before m after ->. apply Forall_app in Hbytes as [HB1 HB2]. rewrite foldl_app. cbn [foldl].
    apply report_step_ok; [done|exact (Forall_inv HB2)|by apply history_reached].
  - intros t m Hm E. pose proof (process_report_cases l t m Hlayout) as HP.
    specialize (HP (proj1 (Forall_forall _ _) Hbytes m Hm)). rewrite E in HP.
    destruct (report_contacts l m); [done|]. by destruct HP as [|[]].
Qed.
End TouchFacts.

(** * A touchscreen descriptor and its reports

    The descriptor of the driver's tests (two contacts with identifiers,
    positions, pressure and size), a report and two frames: the definitions
    evaluated and the theorems applied. *)

Module HidSample.
Import Hid HidFacts HidReportFacts TouchFacts.

Definition finger : list Z :=
  [0x09; 0x22; 0xa1; 0x02; 0x09; 0x42; 0x15; 0x00; 0x25; 0x01; 0x75; 0x01; 0x95; 0x01; 0x81; 0x02; 0x75; 0x07;
   0x95; 0x01; 0x81; 0x03;
   0x09; 0x51; 0x15; 0x00; 0x25; 0x7f; 0x75; 0x08; 0x95; 0x01; 0x81; 0x02; 0x05; 0x01;
   0x09; 0x30; 0x09; 0x31; 0x16; 0x00; 0x00; 0x26; 0xff; 0x0f; 0x75; 0x10; 0x95; 0x02; 0x81; 0x02;
   0x05; 0x0d; 0x09; 0x30; 0x15; 0x00; 0x26; 0xff; 0x00; 0x75; 0x08; 0x95; 0x01; 0x81; 0x02;
   0x09; 0x48; 0x15; 0x00; 0x25; 0xff; 0x75; 0x08; 0x95; 0x01; 0x81; 0x02; 0xc0].

Definition sample_descriptor : list Z :=
  [0x05; 0x0d; 0x09; 0x04; 0xa1; 0x01] ++ finger ++ finger
  ++ [0x09; 0x54; 0x15; 0x00; 0x25; 0x02; 0x75; 0x08; 0x95; 0x01; 0x81; 0x02; 0xc0].

Definition sample_layout : HidTouchLayout :=
  match parse_touch_layout sample_descriptor with
  | Ok l => l
  | _ => mk_layout 0 [] [] [] [] [] [] None
  end.

Lemma sample_bytes_ok : Forall u8 sample_descriptor.
Proof. repeat (apply Forall_cons; split; [by vm_compute|]). constructor. Qed.

Lemma sample_layout_parsed : parse_touch_layout sample_descriptor = Ok sample_layout.
Proof. by vm_compute. Qed.

Example sample_layout_shape :
  ((λ f, (bit_offset f, bit_size f)) <$> xs sample_layout, (λ f, (bit_offset f, bit_size f)) <$> ys sample_layout)
  = ([(16, 16); (80, 16)], [(32, 16); (96, 16)]).
Proof. by vm_compute. Qed.

Lemma touch_layout_sound_witness :
  parse_touch_layout sample_descriptor ≠ Panic ∧
  ∀ l, parse_touch_layout sample_descriptor = Ok l → layout_ok l.
Proof. exact (touch_layout_sound sample_descriptor sample_bytes_ok). Defined.

Lemma sample_layout_ok : layout_ok sample_layout.
Proof. eapply ensures_Ok; [apply parse_touch_layout_ok, sample_bytes_ok|apply sample_layout_parsed]. Qed.

Definition sample_report : list Z :=
  [0x01; 0x0b; 0x34; 0x02; 0x78; 0x01; 0x1e; 0x06; 0x01; 0x15; 0xcd; 0x03; 0x56; 0x04; 0x2a; 0x08; 0x02].

Lemma sample_report_ok : Forall u8 sample_report.
Proof. repeat (apply Forall_cons; split; [by vm_compute|]). constructor. Qed.

Example sample_report_decoded :
  decode_contacts sample_report sample_layout =
  Ok [mk_contact 0 (Some 11) 0x234 0x178 (Some 30) (Some 6);
      mk_contact 1 (Some 21) 0x3cd 0x456 (Some 42) (Some 8)].
Proof. by vm_compute. Qed.

Lemma decode_contacts_reads_witness :
  match decode_contacts sample_report sample_layout with
  | Ok cs => ∃ n, reported_count sample_report sample_layout = Some n ∧
      Forall2 (contact_at sample_report sample_layout)
        (List.filter (tip_down sample_report sample_layout)
           (range (Z.min n (contact_capacity sample_layout)))) cs
  | Err _ => ¬ all_readable sample_report sample_layout
  | Panic => False
  end.
Proof. exact (decode_contacts_reads sample_report sample_layout sample_report_ok sample_layout_ok). Defined.

(** ** Frames *)

Definition two (x y : Z) : list HidContact :=
  [mk_contact 0 (Some 11) x 1 None None; mk_contact 1 (Some 21) y 2 None None].

Lemma sample_tracker_ok : tracker_ok 5 (new_tracker 5).
Proof.
  split; [done..|]. intros i s. unfold slot_at. do 5 (destruct i as [|i]; [done|]). done.
Qed.

Lemma touch_frame_shown_witness :
  let '(t', f) := apply (new_tracker 5) (two 10 20) in
  frame_ok 5 (new_tracker 5) t' f (two 10 20) ∧
  view (consume_all (mk_client 0 ∅) (emit_touch_frame f)) = shown (updates f) ∧
  agrees (consume_all (mk_client 0 ∅) (emit_touch_frame f)) t'.
Proof.
  apply (touch_frame_shown 5 (mk_client 0 ∅) (new_tracker 5) (two 10 20) sample_tracker_ok).
  intros i. unfold slot_at. do 5 (destruct i as [|i]; [done|]). done.
Defined.

Definition message (report : list Z) : list Z := [len report + 2; 0] ++ report.

Definition sample_messages : list (option (list Z)) :=
  [Some (message sample_report); None; Some [1]; Some (message (take 5 sample_report)); Some [0; 0]].

(** A good report, a failed transfer and three reports that leave no trace. *)
Example sample_touches :
  (λ e, e.2) <$> (foldl (report_step sample_layout) (start 5) sample_messages).2
  = [0; 1; 0x234; 0x178; 30; 6; 1; 2; 0x3cd; 0x456; 42; 8; 0x234; 0x178; 30; 1; 0].
Proof. by vm_compute. Qed.

Lemma touch_history_witness :
  history_ok 5 (foldl (report_step sample_layout) (start 5) sample_messages) ∧
  (∀ before m after, sample_messages = before ++ m :: after →
     report_shown 5 sample_layout (foldl (report_step sample_layout) (start 5) before)
       (foldl (report_step sample_layout) (start 5) (before ++ [m])) m) ∧
  ∀ t m, m ∈ sample_messages → process_report sample_layout t m ≠ Panic.
Proof.
  apply (touch_history 5 sample_layout sample_messages sample_layout_ok).
  repeat (apply Forall_cons; split; [intros bytes [= <-]; repeat (apply Forall_cons; split; [by vm_compute|]);
    constructor|]). constructor.
Defined.

(** Two records with one identifier, twice: the second record is looked up under
    its identifier only, so it loses its slot and begins again at each report. *)
Definition twins : list HidContact :=
  [mk_contact 0 (Some 5) 1 1 None None; mk_contact 1 (Some 5) 2 2 None None].

Example twins_flicker :
  let '(t, _) := apply (new_tracker 5) twins in
  let '(_, f) := apply t twins in
  ((λ u, (update_slot u, update_tracking_id u, began u)) <$> updates f, releases f)
  = ([(0%nat, 1, false); (2%nat, 3, true)], [1%nat]).
Proof. by vm_compute. Qed.
End HidSample.
