(* ===== verification/EcSpi.v ===== *)
(** * The ChromeOS embedded controller over SPI

    [lib.rs] and [event_drain.rs] of [cros-ec-spi]: host-command framing, the
    commands (features, backlight, motion sensors) and the reader of events; its
    worker and interrupt handler are [EcWorker.v].  What the EC answers on the wire is
    an argument: a bus is a function from the number of the transfer and the
    request to the bytes that were clocked in, or an error of the controller. *)
From S2P Require Import Prelude.

Module Ec.

Definition HOST_REQUEST_VERSION : Z := 3.
Definition HOST_RESPONSE_VERSION : Z := 3.
Definition HOST_HEADER_BYTES : Z := 8.
Definition SPI_FRAME_START : Z := 0xec.
Definition SPI_RX_BAD_DATA : Z := 0xfb.
Definition SPI_NOT_READY : Z := 0xfc.
Definition COMMAND_PWM_SET_DUTY : Z := 0x0025.
Definition COMMAND_PWM_GET_DUTY : Z := 0x0026.
Definition COMMAND_GET_FEATURES : Z := 0x000d.
Definition PWM_DISPLAY_LIGHT : Z := 2.
Definition PWM_FULL_SCALE : Z := 0xffff.
Definition COMMAND_MOTION_SENSE : Z := 0x002b.
Definition MOTION_SENSE_VERSION_LEGACY : Z := 1.
Definition MOTION_SENSE_VERSION_FIFO : Z := 2.
Definition MOTION_SENSE_VERSION_INFO_EXTENDED : Z := 3.
Definition MOTION_SENSE_COMMAND_DUMP : Z := 0.
Definition MOTION_SENSE_COMMAND_INFO : Z := 1.
Definition MOTION_SENSE_COMMAND_SENSOR_ODR : Z := 3.
Definition MOTION_SENSE_COMMAND_SENSOR_RANGE : Z := 4.
Definition MOTION_SENSE_COMMAND_DATA : Z := 6.
Definition MOTION_SENSE_COMMAND_FIFO_INFO : Z := 7.
Definition MOTION_SENSE_COMMAND_FIFO_READ : Z := 9.
Definition MOTION_SENSE_COMMAND_FIFO_INT_ENABLE : Z := 15.
Definition MOTION_SENSE_REQUEST_BYTES : Z := 13.
Definition MOTION_SENSOR_DATA_BYTES : Z := 8.
Definition MOTION_FIFO_INFO_FIXED_BYTES : Z := 10.
Definition MOTION_FIFO_READ_FIXED_BYTES : Z := 4.
Definition MKBP_SENSOR_FIFO_ALIGNMENT_BYTES : Z := 3.
Definition MKBP_SENSOR_FIFO_EVENT_BYTES : Z :=
  MKBP_SENSOR_FIFO_ALIGNMENT_BYTES + MOTION_FIFO_INFO_FIXED_BYTES.
Definition MOTION_FIFO_INT_QUERY : Z := -1.
Definition MOTION_SENSE_QUERY_VALUE : Z := -1.
Definition EC_RESULT_INVALID_VERSION : Z := 6.
Definition EC_FEATURE_MOTION_SENSE : Z := 6.
Definition EC_FEATURE_MOTION_SENSE_FIFO : Z := 24.
Definition EC_FEATURE_MOTION_SENSE_TIGHT_TIMESTAMPS : Z := 36.
Definition CROS_EC_MOTION_SENSOR_FLAG_FLUSH : Z := 1 << 0.
Definition CROS_EC_MOTION_SENSOR_FLAG_TIMESTAMP : Z := 1 << 1.
Definition CROS_EC_MOTION_SENSOR_FLAG_WAKEUP : Z := 1 << 2.
Definition CROS_EC_MOTION_SENSOR_FLAG_TABLET_MODE : Z := 1 << 3.
Definition CROS_EC_MOTION_SENSOR_FLAG_ODR : Z := 1 << 4.
Definition RESPONSE_CLOCK_BYTES : Z := 4096.
Definition CROS_EC_MAX_MOTION_FIFO_VECTORS : Z := 256.
Definition COMMAND_GET_NEXT_EVENT : Z := 0x0067.
Definition GET_NEXT_EVENT_VERSION : Z := 2.
Definition EC_RESULT_UNAVAILABLE : Z := 9.
Definition MKBP_MORE_EVENTS : Z := 1 << 7.
Definition MKBP_EVENT_TYPE_MASK : Z := MKBP_MORE_EVENTS - 1.
Definition MAX_EVENTS_PER_DRAIN : Z := 64.
Definition EVENT_RETRY_INITIAL_NS : Z := 250000000.
Definition EVENT_RETRY_MAX_NS : Z := 8000000000.

Inductive CrosEcError :=
| Spi
| BadRequest
| NotReady
| NoResponse
| InvalidResponse
| EcResult (result : Z)
| InvalidArgument.

#[export] Instance CrosEcError_eq_dec : EqDecision CrosEcError.
Proof. solve_decision. Defined.

(** Little-endian words, and the two's complement of a value in [n] bytes. *)
Fixpoint from_le (bytes : list Z) : Z :=
  match bytes with [] => 0 | b :: bytes => b + 256 * from_le bytes end.
Fixpoint to_le (n : nat) (x : Z) : list Z :=
  match n with O => [] | S n => x mod 256 :: to_le n (x / 256) end.
Definition signed (bits x : Z) : Z := if x <? 2 ^ (bits - 1) then x else x - 2 ^ bits.

(** [response[a..b]] as a number, once the length is known. *)
Definition field (bytes : list Z) (a b : Z) : Z := from_le (slice bytes a b).

(** ** Framing *)

(** [fold(0u8, wrapping_add)] *)
Definition checksum (bytes : list Z) : Z := foldl (λ sum byte, (sum + byte) mod 256) 0 bytes.

Definition build_request (command version : Z) (payload : list Z) : list Z :=
  let data_len := len payload mod 65536 in
  let packet := [HOST_REQUEST_VERSION; 0; command mod 256; command >> 8; version; 0; data_len mod 256;
                 data_len >> 8] ++ payload in
  <[1%nat := (- checksum packet) mod 256]> packet.

(** The bytes after the start of the frame. *)
Fixpoint find_frame (wire : list Z) : outcome CrosEcError (list Z) :=
  match wire with
  | [] => Err NoResponse
  | byte :: wire =>
      if byte =? SPI_FRAME_START then Ok wire
      else if byte =? SPI_RX_BAD_DATA then Err BadRequest
      else if byte =? SPI_NOT_READY then Err NotReady
      else find_frame wire
  end.

Definition decode_response (wire : list Z) : outcome CrosEcError (list Z) :=
  let? frame := find_frame wire in
  let? header := ok_or (get_range frame 0 HOST_HEADER_BYTES) InvalidResponse in
  if negb (header.[0] =? HOST_RESPONSE_VERSION) || negb (header.[6] =? 0) || negb (header.[7] =? 0)
  then Err InvalidResponse
  else
    let result := field header 2 4 in
    if negb (result =? 0) then Err (EcResult result)
    else
      let data_len := field header 4 6 in
      let? packet := ok_or (get_range frame 0 (HOST_HEADER_BYTES + data_len)) InvalidResponse in
      if negb (checksum packet =? 0) then Err InvalidResponse
      else Ok (slice packet HOST_HEADER_BYTES (len packet)).

(** ** Parsing responses *)

Definition pwm_duty_from_percent (percent : Z) : outcome CrosEcError Z :=
  if 100 <? percent then Err InvalidArgument
  else
    let? scaled := ok_or (checked_mul U32_MAX percent PWM_FULL_SCALE) InvalidArgument in
    let? rounded := add_or_panic U32_MAX scaled 50 in
    let duty := rounded / 100 in
    if duty <=? 0xffff then Ok duty else Err InvalidArgument.

Definition pwm_percent_from_duty (duty : Z) : Z :=
  let scaled := saturating_add U32_MAX (Z.min U32_MAX (duty * 100)) (PWM_FULL_SCALE / 2) / PWM_FULL_SCALE in
  Z.min scaled 100.

Definition CrosEcFeatures : Type := Z * Z.

Definition parse_features (response : list Z) : outcome CrosEcError CrosEcFeatures :=
  if negb (len response =? 8) then Err InvalidResponse
  else Ok (field response 0 4, field response 4 8).

Definition has_feature (f : CrosEcFeatures) (feature : Z) : bool :=
  if 64 <=? feature then false
  else
    let word := if feature / 32 =? 0 then f.1 else f.2 in
    negb ((word .& (1 << (feature mod 32))) =? 0).

Definition build_motion_sense_payload (subcommand : Z) (parameters : list Z) :
    outcome CrosEcError (list Z) :=
  if MOTION_SENSE_REQUEST_BYTES <=? len parameters then Err InvalidArgument
  else Ok (subcommand :: parameters ++ replicate (12 - length parameters) 0).

Record CrosEcMotionSensorSummary := mk_summary { module_flags : Z; sensor_count : Z }.

Definition parse_motion_sensor_summary (response : list Z) : outcome CrosEcError CrosEcMotionSensorSummary :=
  match response with
  | [flags; count] => Ok (mk_summary flags count)
  | _ => Err InvalidResponse
  end.

Record CrosEcMotionSensorInfo := mk_info {
  sensor_type : Z;
  location : Z;
  chip : Z;
  min_frequency_millihz : option Z;
  max_frequency_millihz : option Z;
  fifo_max_event_count : option Z;
}.

Definition parse_motion_sensor_info_v1 (response : list Z) : outcome CrosEcError CrosEcMotionSensorInfo :=
  match response with
  | [sensor_type; location; chip] => Ok (mk_info sensor_type location chip None None None)
  | _ => Err InvalidResponse
  end.

Definition parse_motion_sensor_info_v3 (response : list Z) : outcome CrosEcError CrosEcMotionSensorInfo :=
  if negb (len response =? 16) then Err InvalidResponse
  else Ok (mk_info (response.[0]) (response.[1]) (response.[2]) (Some (field response 4 8))
             (Some (field response 8 12)) (Some (field response 12 16))).

Record CrosEcMotionSensorData := mk_data {
  data_flags : Z;
  sensor_num : Z;
  data_x : Z;
  data_y : Z;
  data_z : Z;
}.

Definition parse_motion_sensor_data (response : list Z) : outcome CrosEcError CrosEcMotionSensorData :=
  if negb (len response =? MOTION_SENSOR_DATA_BYTES) then Err InvalidResponse
  else Ok (mk_data (response.[0]) (response.[1]) (signed 16 (field response 2 4))
             (signed 16 (field response 4 6)) (signed 16 (field response 6 8))).

Definition timestamp_us (d : CrosEcMotionSensorData) : option Z :=
  if (data_flags d .& CROS_EC_MOTION_SENSOR_FLAG_TIMESTAMP) =? 0 then None
  else Some ((data_y d mod 65536) .| ((data_z d mod 65536) << 16)).

Definition is_vector_sample (d : CrosEcMotionSensorData) : bool :=
  (data_flags d .& (CROS_EC_MOTION_SENSOR_FLAG_TIMESTAMP .| CROS_EC_MOTION_SENSOR_FLAG_FLUSH
                    .| CROS_EC_MOTION_SENSOR_FLAG_ODR .| CROS_EC_MOTION_SENSOR_FLAG_TABLET_MODE)) =? 0.

(** [chunks_exact(n)]; the length of the slice is enough fuel. *)
Fixpoint chunks_exact (fuel n : nat) (l : list Z) : list (list Z) :=
  match fuel with
  | O => []
  | S fuel => if (length l <? n)%nat then [] else take n l :: chunks_exact fuel n (drop n l)
  end.

Record CrosEcMotionFifoInfo := mk_fifo_info {
  fifo_size : Z;
  fifo_count : Z;
  fifo_timestamp_us : Z;
  total_lost : Z;
  lost_per_sensor : list Z;
}.

Definition parse_motion_fifo_info (response : list Z) (sensor_count : Z) :
    outcome CrosEcError CrosEcMotionFifoInfo :=
  if negb (len response =? MOTION_FIFO_INFO_FIXED_BYTES + sensor_count * 2) then Err InvalidResponse
  else
    let lost := slice response MOTION_FIFO_INFO_FIXED_BYTES (len response) in
    Ok (mk_fifo_info (field response 0 2) (field response 2 4) (field response 4 8)
          (field response 8 10) (from_le <$> chunks_exact (length lost) 2 lost)).

Definition parse_motion_fifo_event (data : list Z) : outcome CrosEcError CrosEcMotionFifoInfo :=
  if negb (len data =? MKBP_SENSOR_FIFO_EVENT_BYTES) then Err InvalidResponse
  else parse_motion_fifo_info (slice data MKBP_SENSOR_FIFO_ALIGNMENT_BYTES (len data)) 0.

Definition parse_motion_fifo_data (response : list Z) (requested_vectors : Z) :
    outcome CrosEcError (list CrosEcMotionSensorData) :=
  if len response <? MOTION_FIFO_READ_FIXED_BYTES then Err InvalidResponse
  else
    let count := field response 0 4 in
    if (requested_vectors <? count) || (CROS_EC_MAX_MOTION_FIFO_VECTORS <? count) then Err InvalidResponse
    else if negb (len response =? MOTION_FIFO_READ_FIXED_BYTES + count * MOTION_SENSOR_DATA_BYTES)
    then Err InvalidResponse
    else
      let samples := slice response MOTION_FIFO_READ_FIXED_BYTES (len response) in
      mapM parse_motion_sensor_data (chunks_exact (length samples) 8 samples).

Definition parse_motion_i32_response (response : list Z) : outcome CrosEcError Z :=
  if negb (len response =? 4) then Err InvalidResponse else Ok (signed 32 (field response 0 4)).

Definition parse_motion_fifo_interrupt_enabled (response : list Z) : outcome CrosEcError bool :=
  if negb (len response =? 4) then Err InvalidResponse
  else
    let v := signed 32 (field response 0 4) in
    if v =? 0 then Ok false else if v =? 1 then Ok true else Err InvalidResponse.

Record MkbpEvent := mk_event { event_type : Z; more : bool; event_data : list Z }.

Definition parse_mkbp_event (response : list Z) : outcome CrosEcError MkbpEvent :=
  match response with
  | [] => Err InvalidResponse
  | event :: data =>
      Ok (mk_event (event .& MKBP_EVENT_TYPE_MASK) (negb ((event .& MKBP_MORE_EVENTS) =? 0)) data)
  end.

(** ** Listeners *)

(** A registration; [alive] says whether the weak reference still upgrades. *)
Record EventListenerEntry := mk_entry { entry_id : Z; listener : Z }.

Definition unregister_event_listener (id : Z) (listeners : list EventListenerEntry) :
    list EventListenerEntry * bool :=
  let rest := List.filter (λ e, negb (entry_id e =? id)) listeners in
  (rest, negb (len rest =? len listeners)).

(** [dispatch_event]: the registrations that are left, and the listeners called,
    in order, as long as the controller is [active]. *)
Definition dispatch_event (alive : Z → bool) (active : nat → bool) (listeners : list EventListenerEntry) :
    list EventListenerEntry * list Z :=
  let live := List.filter (λ e, alive (listener e)) listeners in
  let fix call (k : nat) (l : list EventListenerEntry) : list Z :=
    match l with
    | [] => []
    | e :: l => if active k then listener e :: call (S k) l else []
    end in
  (live, call O live).

(** ** Commands

    A command takes the number of the transfer it makes and gives the number of
    the next one. *)
Section Commands.
(** What the bus clocks in after a request; [None] when the transfer fails. *)
Variable transfer : nat → list Z → option (list Z).

Definition ec (A : Type) : Type := nat → outcome CrosEcError A * nat.
Definition ret {A} (m : outcome CrosEcError A) : ec A := λ n, (m, n).
Definition and_then {A B} (m : ec A) (k : A → ec B) : ec B := λ n,
  let '(r, n) := m n in
  match r with Ok a => k a n | Err e => (Err e, n) | Panic => (Panic, n) end.

Definition command (command version : Z) (payload : list Z) : ec (list Z) := λ n,
  if 0xffff <? len payload then (Err InvalidArgument, n)
  else
    let request := build_request command version payload in
    (match transfer n request with Some wire => decode_response wire | None => Err Spi end, S n).

Definition motion_sense_command (version subcommand : Z) (parameters : list Z) : ec (list Z) :=
  and_then (ret (build_motion_sense_payload subcommand parameters))
    (λ payload, command COMMAND_MOTION_SENSE version payload).

Definition features : ec CrosEcFeatures :=
  and_then (command COMMAND_GET_FEATURES 0 []) (λ response, ret (parse_features response)).

Definition supports_motion_sense : ec bool :=
  and_then features (λ f, ret (Ok (has_feature f EC_FEATURE_MOTION_SENSE))).
Definition supports_motion_sense_fifo : ec bool :=
  and_then features (λ f, ret (Ok (has_feature f EC_FEATURE_MOTION_SENSE_FIFO))).
Definition supports_motion_sense_tight_timestamps : ec bool :=
  and_then features (λ f, ret (Ok (has_feature f EC_FEATURE_MOTION_SENSE_TIGHT_TIMESTAMPS))).

Definition get_display_backlight_percent : ec Z :=
  and_then (command COMMAND_PWM_GET_DUTY 0 [PWM_DISPLAY_LIGHT; 0]) (λ response,
    ret (if negb (len response =? 2) then Err InvalidResponse
         else Ok (pwm_percent_from_duty (field response 0 2)))).

Definition set_display_backlight_percent (percent : Z) : ec () :=
  and_then (ret (pwm_duty_from_percent percent)) (λ duty,
  and_then (command COMMAND_PWM_SET_DUTY 0 (to_le 2 duty ++ [PWM_DISPLAY_LIGHT; 0])) (λ response,
    ret (match response with [] => Ok () | _ => Err InvalidResponse end))).

Definition motion_sensor_summary : ec CrosEcMotionSensorSummary :=
  and_then (motion_sense_command MOTION_SENSE_VERSION_LEGACY MOTION_SENSE_COMMAND_DUMP [0])
    (λ response, ret (parse_motion_sensor_summary response)).

Definition motion_sensor_info (sensor_num : Z) : ec CrosEcMotionSensorInfo := λ n,
  match motion_sense_command MOTION_SENSE_VERSION_INFO_EXTENDED MOTION_SENSE_COMMAND_INFO [sensor_num] n with
  | (Ok response, n) => (parse_motion_sensor_info_v3 response, n)
  | (Err (EcResult result), n) =>
      if result =? EC_RESULT_INVALID_VERSION then
        and_then (motion_sense_command MOTION_SENSE_VERSION_LEGACY MOTION_SENSE_COMMAND_INFO [sensor_num])
          (λ response, ret (parse_motion_sensor_info_v1 response)) n
      else (Err (EcResult result), n)
  | (Err error, n) => (Err error, n)
  | (Panic, n) => (Panic, n)
  end.

Definition motion_sensor_parameter_query (subcommand sensor_num : Z) : ec Z :=
  and_then (motion_sense_command MOTION_SENSE_VERSION_LEGACY subcommand
              ([sensor_num; 0; 0; 0] ++ to_le 4 (MOTION_SENSE_QUERY_VALUE mod 2 ^ 32)))
    (λ response, ret (parse_motion_i32_response response)).

Definition motion_sensor_odr_millihz (sensor_num : Z) : ec Z :=
  motion_sensor_parameter_query MOTION_SENSE_COMMAND_SENSOR_ODR sensor_num.
Definition motion_sensor_range (sensor_num : Z) : ec Z :=
  motion_sensor_parameter_query MOTION_SENSE_COMMAND_SENSOR_RANGE sensor_num.

Definition motion_sensor_data (sensor_num : Z) : ec CrosEcMotionSensorData :=
  and_then (motion_sense_command MOTION_SENSE_VERSION_LEGACY MOTION_SENSE_COMMAND_DATA [sensor_num])
    (λ response, ret (parse_motion_sensor_data response)).

Definition motion_fifo_interrupt_enabled_raw (value : Z) : ec bool :=
  and_then (motion_sense_command MOTION_SENSE_VERSION_FIFO MOTION_SENSE_COMMAND_FIFO_INT_ENABLE
              [value mod 256])
    (λ response, ret (parse_motion_fifo_interrupt_enabled response)).

Definition motion_fifo_interrupt_enabled : ec bool :=
  motion_fifo_interrupt_enabled_raw MOTION_FIFO_INT_QUERY.
Definition set_motion_fifo_interrupt_enabled (enabled : bool) : ec bool :=
  motion_fifo_interrupt_enabled_raw (if enabled then 1 else 0).

Definition motion_fifo_info_for_sensor_count (sensor_count : Z) : ec CrosEcMotionFifoInfo :=
  and_then (command COMMAND_MOTION_SENSE MOTION_SENSE_VERSION_FIFO [MOTION_SENSE_COMMAND_FIFO_INFO])
    (λ response, ret (parse_motion_fifo_info response sensor_count)).

Definition motion_fifo_info : ec CrosEcMotionFifoInfo :=
  and_then motion_sensor_summary (λ summary, motion_fifo_info_for_sensor_count (sensor_count summary)).

Definition motion_fifo_read (max_vectors : Z) : ec (list CrosEcMotionSensorData) :=
  if CROS_EC_MAX_MOTION_FIFO_VECTORS <? max_vectors then ret (Err InvalidArgument)
  else
    and_then (motion_sense_command MOTION_SENSE_VERSION_FIFO MOTION_SENSE_COMMAND_FIFO_READ
                (to_le 4 max_vectors))
      (λ response, ret (parse_motion_fifo_data response max_vectors)).

(** ** Draining events *)

(** [event_drain::drain_batch]: [read] gives an event and whether more follow,
    [dispatch] what the listeners make of it.  The state they share is threaded
    through. *)
Section Drain.
Context {T W : Type}.
Variable read : W → outcome CrosEcError (option (T * bool)) * W.
Variable dispatch : W → T → outcome CrosEcError W.

Fixpoint drain_batch (budget : nat) (w : W) : outcome CrosEcError bool * W :=
  match budget with
  | O => (Ok false, w)
  | S budget =>
      match read w with
      | (Ok None, w) => (Ok true, w)
      | (Ok (Some (event, more)), w) =>
          match dispatch w event with
          | Ok w => if more then drain_batch budget w else (Ok true, w)
          | Err e => (Err e, w)
          | Panic => (Panic, w)
          end
      | (Err e, w) => (Err e, w)
      | (Panic, w) => (Panic, w)
      end
  end.
End Drain.

(** The reader of [drain_events]. *)
Definition read_event : ec (option (list Z * bool)) := λ n,
  match command COMMAND_GET_NEXT_EVENT GET_NEXT_EVENT_VERSION [] n with
  | (Ok response, n) => (let? event := parse_mkbp_event response in Ok (Some (response, more event)), n)
  | (Err (EcResult result), n) =>
      (if result =? EC_RESULT_UNAVAILABLE then Ok None else Err (EcResult result), n)
  | (Err error, n) => (Err error, n)
  | (Panic, n) => (Panic, n)
  end.

(** Who still listens, and whether the controller is active, may change between
    transfers and between calls: both are functions of time. *)
Variable alive : nat → Z → bool.
Variable active_at : nat → nat → bool.

(** The number of transfers so far, the registrations and the calls of
    [on_cros_ec_event], with the type and data they were given. *)
Record Draining := mk_draining {
  transfers : nat;
  listeners : list EventListenerEntry;
  calls : list (Z * (Z * list Z));
}.

Definition dispatch_response (w : Draining) (response : list Z) : outcome CrosEcError Draining :=
  match parse_mkbp_event response with
  | Ok event =>
      let '(live, called) :=
        dispatch_event (alive (transfers w)) (active_at (transfers w)) (listeners w) in
      Ok (mk_draining (transfers w) live
            (calls w ++ ((λ l, (l, (event_type event, event_data event))) <$> called)))
  | _ => Panic
  end.

Definition read_response (w : Draining) : outcome CrosEcError (option (list Z * bool)) * Draining :=
  let '(r, n) := read_event (transfers w) in (r, mk_draining n (listeners w) (calls w)).

Definition drain_events (w : Draining) : outcome CrosEcError bool * Draining :=
  drain_batch read_response dispatch_response (Z.to_nat MAX_EVENTS_PER_DRAIN) w.
End Commands.

(** ** Retries *)

Definition event_retry_delay_ns (error_count : Z) : Z :=
  let shift := Z.min (saturating_sub error_count 1) 5 in
  Z.min (Z.min U64_MAX (EVENT_RETRY_INITIAL_NS * (1 << shift))) EVENT_RETRY_MAX_NS.
End Ec.
