(* ===== verification/EcFacts.v ===== *)
(** * The ChromeOS embedded controller: framing, commands and events

    What a host command means on the wire: the bytes the EC parses out of a
    request, and the answers a response can decode to.  On top of it, a command
    is a call of the EC, the backlight level survives its conversion, and a
    batch of events is delivered without losing one. *)
From S2P Require Import Prelude EcSpi.

Module EcFacts.
Import Ec.

(** ** Bytes *)

Definition sum (l : list Z) : Z := foldr Z.add 0 l.

Lemma sum_app l1 l2 : sum (l1 ++ l2) = sum l1 + sum l2.
Proof. induction l1; simpl; [done|unfold sum in *; simpl; lia]. Qed.

Lemma checksum_sum l : checksum l = sum l mod 256.
Proof.
  unfold checksum. rewrite <-(Z.add_0_l (sum l)).
  enough (∀ s, foldl (λ a b, (a + b) mod 256) (s mod 256) l = (s + sum l) mod 256) as H by apply (H 0).
  induction l as [|b l IH]; intros s; simpl; [by rewrite Z.add_0_r|].
  rewrite Zplus_mod_idemp_l, IH. f_equal. unfold sum. simpl. lia.
Qed.

Lemma from_le_two a b : from_le [a; b] = a + 256 * b.
Proof. simpl. lia. Qed.

Lemma take_len_app {A} (l rest : list A) : take (Z.to_nat (len l)) (l ++ rest) = l.
Proof. unfold len. by rewrite Nat2Z.id, take_app_length. Qed.

(** A header of eight bytes, spelled out. *)
Lemma eight_bytes (l : list Z) :
  8 ≤ len l → ∃ a b c d e f g h t, l = a :: b :: c :: d :: e :: f :: g :: h :: t.
Proof.
  unfold len. intros H.
  do 8 (destruct l as [|? l]; [simpl in H; lia|]). by do 9 eexists.
Qed.

Lemma get_range_header (a b c d e f g h : Z) t :
  get_range (a :: b :: c :: d :: e :: f :: g :: h :: t) 0 8 = Some [a; b; c; d; e; f; g; h].
Proof.
  unfold get_range. rewrite (proj2 (Z.leb_le 8 _)) by (cbn [length]; lia). reflexivity.
Qed.

Lemma get_range_packet (header t : list Z) n :
  len header = 8 → 0 ≤ n →
  get_range (header ++ t) 0 (8 + n) =
  if n <=? len t then Some (header ++ take (Z.to_nat n) t) else None.
Proof.
  intros Hh Hn. unfold get_range. rewrite (proj2 (Z.leb_le 0 (8 + n))) by lia. simpl.
  change (Z.of_nat (length (header ++ t))) with (len (header ++ t)). rewrite len_app, Hh.
  destruct (Z.leb_spec n (len t)).
  - rewrite (proj2 (Z.leb_le _ _)) by lia. f_equal. unfold slice.
    rewrite drop_0, Z.sub_0_r.
    assert (Z.to_nat (8 + n) = length header + Z.to_nat n)%nat as -> by (unfold len in Hh; lia).
    by rewrite take_app_add.
  - by rewrite (proj2 (Z.leb_gt _ _)) by lia.
Qed.

(** A checksum byte makes the sum of a packet zero, and only one byte does. *)
Definition seal (version : Z) (rest : list Z) : list Z :=
  version :: (- (version + sum rest)) mod 256 :: rest.

Lemma seal_sum version rest : sum (seal version rest) mod 256 = 0.
Proof. unfold seal, sum. simpl. fold (sum rest). zlia. Qed.

Lemma seal_unique version c rest :
  u8 c → sum (version :: c :: rest) mod 256 = 0 → version :: c :: rest = seal version rest.
Proof.
  unfold seal, u8, sum. simpl. fold (sum rest). intros Hc Hs. do 2 f_equal. zlia.
Qed.

(** ** Requests *)

(** What the EC does with a request: the header, the declared length and the
    checksum are tested, bytes after the packet are ignored. *)
Definition parse_request (bytes : list Z) : option (Z * Z * list Z) :=
  header ← get_range bytes 0 HOST_HEADER_BYTES;
  packet ← get_range bytes 0 (HOST_HEADER_BYTES + field header 6 8);
  if (header.[0] =? HOST_REQUEST_VERSION) && (header.[5] =? 0) && (sum packet mod 256 =? 0)
  then Some (field header 2 4, header.[4], slice packet HOST_HEADER_BYTES (len packet))
  else None.

Lemma build_request_seal command version payload :
  len payload < 65536 →
  build_request command version payload =
  seal HOST_REQUEST_VERSION
    ([command mod 256; command >> 8; version; 0; len payload mod 256; len payload >> 8] ++ payload).
Proof.
  intros Hl. unfold build_request. cbv zeta. rewrite (Z.mod_small (len payload)) by (unfold len in *; lia).
  unfold seal. simpl. do 2 f_equal. rewrite checksum_sum. unfold sum. simpl. fold (sum payload).
  Z.to_euclidean_division_equations; lia.
Qed.

Lemma build_request_parsed command version payload rest :
  u16 command → u8 version → len payload < 65536 →
  parse_request (build_request command version payload ++ rest) = Some (command, version, payload).
Proof.
  intros Hc Hv Hl. rewrite build_request_seal by done.
  pose proof (seal_sum HOST_REQUEST_VERSION
    ([command mod 256; command >> 8; version; 0; len payload mod 256; len payload >> 8] ++ payload)) as Hsum.
  unfold seal in *. set (c := (- _) mod 256) in *. clearbody c.
  unfold parse_request. simpl app. rewrite get_range_header. simpl mbind.
  assert (field [HOST_REQUEST_VERSION; c; command mod 256; command >> 8; version; 0; len payload mod 256;
                 len payload >> 8] 6 8 = len payload) as ->.
  { unfold field, slice. simpl. rewrite Z.shiftr_div_pow2 by lia. pose proof (len_nonneg payload). zlia. }
  change (?a :: ?b :: ?c :: ?d :: ?e :: ?f :: ?g :: ?h :: payload ++ rest)
    with ([a; b; c; d; e; f; g; h] ++ payload ++ rest).
  rewrite get_range_packet by (done || apply len_nonneg).
  rewrite (proj2 (Z.leb_le _ _)) by (rewrite len_app; pose proof (len_nonneg rest); lia).
  simpl mbind. rewrite take_len_app.
  simpl app in Hsum |- *. match goal with |- context [?x =? 0] => replace (x =? 0) with true
    by (symmetry; apply Z.eqb_eq; exact Hsum) end.
  do 2 f_equal.
  - f_equal. unfold field, slice. simpl. rewrite Z.shiftr_div_pow2 by lia. unfold u16 in Hc. clear Hsum. change (2 ^ 8) with 256. zlia.
  - unfold slice. simpl drop. rewrite drop_0. apply take_ge. unfold len, HOST_HEADER_BYTES. simpl. lia.
Qed.

(** ** Responses *)

Definition quiet (byte : Z) : Prop :=
  byte ≠ SPI_FRAME_START ∧ byte ≠ SPI_RX_BAD_DATA ∧ byte ≠ SPI_NOT_READY.

(** The packet of an answer. *)
Definition answer (result : Z) (payload : list Z) : list Z :=
  seal HOST_RESPONSE_VERSION
    ([result mod 256; result / 256; len payload mod 256; len payload / 256; 0; 0] ++ payload).

(** What the EC clocks out while an answer is read: bytes of a busy bus, the
    start of the frame, the packet and whatever follows. *)
Definition clocked_out (result : Z) (payload wire : list Z) : Prop :=
  ∃ pre rest, Forall quiet pre ∧ wire = pre ++ SPI_FRAME_START :: answer result payload ++ rest.

Lemma find_frame_quiet pre wire :
  Forall quiet pre → find_frame (pre ++ SPI_FRAME_START :: wire) = Ok wire.
Proof.
  induction 1 as [|b pre [H1 [H2 H3]] _ IH]; [done|].
  simpl. apply Z.eqb_neq in H1 as ->, H2 as ->, H3 as ->. done.
Qed.

Lemma find_frame_Ok wire frame :
  find_frame wire = Ok frame → ∃ pre, Forall quiet pre ∧ wire = pre ++ SPI_FRAME_START :: frame.
Proof.
  induction wire as [|b wire IH]; simpl; [done|].
  destruct (Z.eqb_spec b SPI_FRAME_START) as [->|H1]; [intros [= ->]; by exists []|].
  destruct (Z.eqb_spec b SPI_RX_BAD_DATA) as [->|H2]; [done|].
  destruct (Z.eqb_spec b SPI_NOT_READY) as [->|H3]; [done|].
  intros H. destruct (IH H) as (pre & Hq & ->). exists (b :: pre). split; [|done]. by constructor.
Qed.

Lemma answer_header result payload rest :
  u16 result → len payload < 65536 →
  ∃ c, let header := [HOST_RESPONSE_VERSION; c; result mod 256; result / 256; len payload mod 256;
                      len payload / 256; 0; 0] in
  answer result payload ++ rest = header ++ payload ++ rest ∧
  sum (header ++ payload) mod 256 = 0 ∧
  field header 2 4 = result ∧ field header 4 6 = len payload.
Proof.
  intros Hr Hl. pose proof (len_nonneg payload).
  pose proof (seal_sum HOST_RESPONSE_VERSION
    ([result mod 256; result / 256; len payload mod 256; len payload / 256; 0; 0] ++ payload)) as Hsum.
  unfold answer, seal in *. eexists. split_and!; [done|exact Hsum| |].
  - unfold field, slice. simpl. unfold u16 in Hr. zlia.
  - unfold field, slice. simpl. zlia.
Qed.

Lemma decode_response_answer result payload wire :
  u16 result → len payload < 65536 → clocked_out result payload wire →
  decode_response wire = if result =? 0 then Ok payload else Err (EcResult result).
Proof.
  intros Hr Hl (pre & rest & Hq & ->). unfold decode_response. rewrite find_frame_quiet by done.
  destruct (answer_header result payload rest Hr Hl) as (c & Hw & Hsum & Hres & Hlen).
  cbn [bind]. rewrite Hw. change ([?a; ?b; ?c; ?d; ?e; ?f; ?g; ?h] ++ ?t)
    with (a :: b :: c :: d :: e :: f :: g :: h :: t) at 1.
  rewrite get_range_header. cbn [bind ok_or]. cbn [nth]. change (_ || _) with false. cbv iota.
  rewrite Hres, Hlen. destruct (result =? 0); [|done]. cbn [negb].
  rewrite get_range_packet by (done || apply len_nonneg).
  rewrite (proj2 (Z.leb_le _ _)) by (rewrite len_app; pose proof (len_nonneg rest); lia).
  cbn [bind ok_or]. rewrite take_len_app, checksum_sum, Hsum. cbn [negb Z.eqb].
  f_equal. unfold slice. simpl drop. rewrite drop_0. apply take_ge. unfold len, HOST_HEADER_BYTES. simpl. lia.
Qed.

(** Decoding takes a response apart or rejects it; it never panics. *)
Lemma decode_response_Ok wire payload :
  Forall u8 wire → decode_response wire = Ok payload →
  len payload < 65536 ∧ clocked_out 0 payload wire.
Proof.
  intros Hw H. unfold decode_response in H.
  destruct (find_frame wire) as [frame| |] eqn:Ef; [|done..]. cbn [bind] in H.
  apply find_frame_Ok in Ef as (pre & Hq & ->).
  apply Forall_app in Hw as [_ Hw]. apply Forall_cons in Hw as [_ Hw].
  destruct (get_range frame 0 HOST_HEADER_BYTES) as [header|] eqn:Eh; [|done].
  assert (8 ≤ len frame) as Hf.
  { unfold get_range, HOST_HEADER_BYTES in Eh. destruct (_ && _) eqn:E; [|done]. bool_to_prop. done. }
  destruct (eight_bytes _ Hf) as (v & c & r0 & r1 & l0 & l1 & z0 & z1 & t & ->).
  unfold HOST_HEADER_BYTES in *. rewrite get_range_header in Eh. injection Eh as <-.
  cbn [bind ok_or nth] in H. destruct (_ || _) eqn:E in H; [done|]. bool_to_prop.
  destruct (negb (field _ 2 4 =? 0)) eqn:E2 in H; [done|]. bool_to_prop.
  repeat (apply Forall_cons in Hw as [? Hw]).
  unfold field, slice in *. simpl in E2.
  change (from_le (take (Z.to_nat (6 - 4)) (drop (Z.to_nat 4) [v; c; r0; r1; l0; l1; z0; z1])))
    with (l0 + 256 * (l1 + 256 * 0)) in H.
  change (v :: c :: r0 :: r1 :: l0 :: l1 :: z0 :: z1 :: t)
    with ([v; c; r0; r1; l0; l1; z0; z1] ++ t) in H.
  unfold u8 in *. rewrite get_range_packet in H by (done || lia).
  destruct (Z.leb_spec (l0 + 256 * (l1 + 256 * 0)) (len t)) as [Hle|]; [|done].
  cbn [bind ok_or] in H. destruct (negb _) eqn:E3 in H; [done|]. bool_to_prop.
  rewrite checksum_sum in E3. injection H as <-.
  set (n := l0 + 256 * (l1 + 256 * 0)) in *.
  assert (len (take (Z.to_nat n) t) = n) as Hn by (unfold len in *; rewrite length_take; lia).
  match goal with |- len (take ?k (drop ?m ?l)) < _ ∧ _ =>
    assert (take k (drop m l) = take (Z.to_nat n) t) as -> end.
  { simpl drop. rewrite drop_0. apply take_ge. unfold len, HOST_HEADER_BYTES. simpl. lia. }
  split; [lia|]. exists pre, (drop (Z.to_nat n) t). split; [done|]. f_equal. f_equal.
  unfold answer. rewrite Hn. simpl app in E3. apply seal_unique in E3; [|done].
  assert (r0 = 0 ∧ r1 = 0) as [-> ->] by lia.
  assert (n mod 256 = l0 ∧ n / 256 = l1) as [-> ->] by (subst n; zlia).
  simpl in *. subst. rewrite <-(take_drop (Z.to_nat n) t) at 1.
  unfold seal in *. simpl in *. change (0 mod 256) with 0. change (0 / 256) with 0.
  injection E3 as E3. by rewrite <-E3.
Qed.

Lemma find_frame_no_panic wire : find_frame wire ≠ Panic.
Proof.
  induction wire as [|b wire IH]; simpl; [done|]. by repeat (case_match; try done).
Qed.

Lemma decode_response_no_panic wire : decode_response wire ≠ Panic.
Proof.
  unfold decode_response. pose proof (find_frame_no_panic wire).
  destruct (find_frame wire) as [frame| |]; [|done..]. cbn [bind].
  destruct (get_range frame 0 _); [|done]. cbn [bind ok_or].
  do 2 (case_match; [done|]). destruct (get_range frame 0 _); [|done]. cbn [bind ok_or].
  by case_match.
Qed.

(** ** Commands *)

(** An EC on the bus: whatever request it can parse it answers, with a result
    code and data, after as many quiet bytes as it needs. *)
Definition serves (server : Z → Z → list Z → Z * list Z) (transfer : nat → list Z → option (list Z)) : Prop :=
  (∀ c v p, u16 (server c v p).1 ∧ len (server c v p).2 < 65536) ∧
  ∀ n request c v p, parse_request request = Some (c, v, p) →
    ∃ wire, transfer n request = Some wire ∧ clocked_out (server c v p).1 (server c v p).2 wire.

Definition reply (a : Z * list Z) : outcome CrosEcError (list Z) :=
  if a.1 =? 0 then Ok a.2 else Err (EcResult a.1).

Lemma command_serves server transfer c v p n :
  serves server transfer → u16 c → u8 v → len p < 65536 →
  command transfer c v p n = (reply (server c v p), S n).
Proof.
  intros [Hs HT] Hc Hv Hl. unfold command, reply. rewrite (proj2 (Z.ltb_ge _ _)) by lia.
  pose proof (build_request_parsed c v p [] Hc Hv Hl) as Hp. rewrite app_nil_r in Hp.
  destruct (HT n _ _ _ _ Hp) as (wire & -> & Hw). f_equal. apply decode_response_answer; [..|done]; apply Hs.
Qed.

Definition wire_bytes (transfer : nat → list Z → option (list Z)) : Prop :=
  ∀ n request wire, transfer n request = Some wire → Forall u8 wire.

(** C30: A host command is a call of the EC.  The bytes of a request are parsed
    by the EC to the command, version and data given, and to nothing else; from
    a bus with an EC behind it the command returns the EC's data, or its result
    code as an error, at whatever position the answer starts.  And whatever a
    bus delivers, a command that succeeds returns the data of exactly one sealed
    answer in the bytes received, and none panics. *)
Theorem command_delivered (server : Z → Z → list Z → Z * list Z)
    (transfer : nat → list Z → option (list Z)) (c v : Z) (p : list Z) (n : nat)
    (Hbytes : wire_bytes transfer) (Hc : u16 c) (Hv : u8 v) (Hp : len p < 65536) :
  parse_request (build_request c v p) = Some (c, v, p) ∧
  (serves server transfer →
   command transfer c v p n = (if (server c v p).1 =? 0 then Ok (server c v p).2
                               else Err (EcResult (server c v p).1), S n)) ∧
  (∀ data, (command transfer c v p n).1 = Ok data ↔
     len data < 65536 ∧
     ∃ wire, transfer n (build_request c v p) = Some wire ∧ clocked_out 0 data wire) ∧
  (command transfer c v p n).1 ≠ Panic.
Proof.
  split_and!.
  - rewrite <-(build_request_parsed c v p [] Hc Hv Hp). by rewrite app_nil_r.
  - intros Hs. by apply command_serves.
  - intros data. unfold command. rewrite (proj2 (Z.ltb_ge _ _)) by lia. simpl. split.
    + destruct (transfer _ _) as [wire|] eqn:E; [|done]. intros H.
      apply decode_response_Ok in H as [??]; [eauto|]. by eapply Hbytes.
    + intros (Hl & wire & -> & Hw). by apply (decode_response_answer 0).
  - unfold command. case_match; [done|]. simpl. destruct (transfer _ _); [|done].
    apply decode_response_no_panic.
Qed.

(** ** Conversions *)

(** Every backlight level survives its conversion to a duty cycle. *)
Lemma pwm_round_trip percent :
  0 ≤ percent ≤ 100 →
  ∃ duty, pwm_duty_from_percent percent = Ok duty ∧ u16 duty ∧ pwm_percent_from_duty duty = percent.
Proof.
  intros H. exists ((percent * 65535 + 50) / 100).
  unfold pwm_duty_from_percent, pwm_percent_from_duty, checked_mul, add_or_panic, saturating_add,
    PWM_FULL_SCALE, U32_MAX, u16.
  rewrite (proj2 (Z.ltb_ge 100 percent)) by lia.
  rewrite (proj2 (Z.leb_le (percent * 65535) _)) by lia. cbn [bind ok_or].
  rewrite (proj2 (Z.leb_le (percent * 65535 + 50) _)) by lia. cbn [bind].
  assert (0 ≤ (percent * 65535 + 50) / 100 ≤ 65535) by zlia.
  rewrite (proj2 (Z.leb_le _ 65535)) by lia.
  split_and!; [done|lia..|]. change (65535 / 2) with 32767. rewrite !Z.min_l by zlia. zlia.
Qed.

(** The delay doubles from a quarter of a second up to eight seconds. *)
Lemma event_retry_delay_bounds count :
  0 ≤ count →
  EVENT_RETRY_INITIAL_NS ≤ event_retry_delay_ns count ≤ EVENT_RETRY_MAX_NS ∧
  (1 ≤ count ≤ 6 → event_retry_delay_ns count = EVENT_RETRY_INITIAL_NS * 2 ^ (count - 1)) ∧
  event_retry_delay_ns count ≤ event_retry_delay_ns (count + 1).
Proof.
  intros H.
  assert (∀ c, 6 ≤ c → event_retry_delay_ns c = EVENT_RETRY_MAX_NS) as Hbig.
  { intros c Hc. unfold event_retry_delay_ns, saturating_sub. by rewrite (Z.min_r _ 5) by lia. }
  destruct (Z.le_gt_cases 6 count) as [Hc|Hc].
  - rewrite !Hbig by lia. split_and!; [done..| |done].
    intros [_ ?]. assert (count = 6) as -> by lia. done.
  - assert (count = 0 ∨ count = 1 ∨ count = 2 ∨ count = 3 ∨ count = 4 ∨ count = 5) as E by lia.
    destruct E as [->|[->|[->|[->|[->| ->]]]]]; split_and!; try (vm_compute; congruence); intros; lia || by vm_compute.
Qed.

(** ** Events *)

Section Drain.
Variable transfer : nat → list Z → option (list Z).

(** What the transfer [k] reads. *)
Definition reading (k : nat) : outcome CrosEcError (option (list Z * bool)) := (read_event transfer k).1.

(** The calls an event makes: every listener once, in order of registration. *)
Definition deliver (ls : list EventListenerEntry) (response : list Z) : list (Z * (Z * list Z)) :=
  match parse_mkbp_event response with
  | Ok event => (λ l, (listener l, (event_type event, event_data event))) <$> ls
  | _ => []
  end.

Lemma read_event_next k : (read_event transfer k).2 = S k.
Proof.
  unfold read_event, command. simpl.
  destruct (match transfer k _ with Some wire => decode_response wire | None => _ end) as [|[]|]; done.
Qed.

Lemma reading_no_panic k : reading k ≠ Panic.
Proof.
  unfold reading, read_event, command. simpl.
  destruct (match transfer k _ with Some wire => decode_response wire | None => _ end) as [response|[]|] eqn:E;
    simpl; try done.
  - by destruct response.
  - by destruct (result =? EC_RESULT_UNAVAILABLE).
  - destruct (transfer k _); [|done]. by apply decode_response_no_panic in E.
Qed.

Lemma reading_event k response more' :
  reading k = Ok (Some (response, more')) →
  ∃ event, parse_mkbp_event response = Ok event ∧ more event = more'.
Proof.
  unfold reading, read_event, command. simpl.
  destruct (match transfer k _ with Some wire => decode_response wire | None => _ end) as [r|[]|];
    simpl; try done; [|by destruct (result =? EC_RESULT_UNAVAILABLE)].
  destruct (parse_mkbp_event r) eqn:E; [|done..]. simpl. intros [= <- <-]. eauto.
Qed.

Variable alive : nat → Z → bool.
Variable active_at : nat → nat → bool.
Hypothesis Halive : ∀ n l, alive n l = true.
Hypothesis Hactive : ∀ n k, active_at n k = true.

Lemma dispatch_event_all n ls :
  dispatch_event (alive n) (active_at n) ls = (ls, listener <$> ls).
Proof.
  unfold dispatch_event.
  assert (List.filter (λ e, alive n (listener e)) ls = ls) as ->.
  { induction ls as [|e ls IH]; simpl; [done|]. by rewrite Halive, IH. }
  f_equal. generalize O. induction ls as [|e ls IH]; intros k; simpl; [done|]. by rewrite Hactive, IH.
Qed.

Lemma dispatch_response_ok w response event :
  parse_mkbp_event response = Ok event →
  dispatch_response alive active_at w response =
  Ok (mk_draining (transfers w) (listeners w) (calls w ++ deliver (listeners w) response)).
Proof.
  intros E. unfold dispatch_response, deliver. rewrite E, dispatch_event_all.
  do 2 f_equal. by rewrite <-list_fmap_compose.
Qed.

(** What a batch did: it read the events [es] from transfer [n] on, each but the
    last announcing another one, and ended with the answer [r]. *)
Record drained (budget n n' : nat) (es : list (list Z)) (r : outcome CrosEcError bool) : Prop := {
  dr_budget : (length es ≤ budget)%nat;
  dr_read : ∀ i response, es !! i = Some response →
    ∃ more', reading (n + i) = Ok (Some (response, more')) ∧ ((S i < length es)%nat → more' = true);
  dr_end :
    match r with
    | Ok true =>
        (n' = n + S (length es) ∧ reading (n + length es) = Ok None)%nat ∨
        ∃ i response, length es = S i ∧ (n' = n + length es)%nat ∧
          reading (n + i) = Ok (Some (response, false))
    | Ok false => length es = budget ∧ (n' = n + budget)%nat ∧
        ∀ i, (i < budget)%nat → ∃ response, reading (n + i) = Ok (Some (response, true))
    | Err e => (n' = n + S (length es))%nat ∧ reading (n + length es) = Err e
    | Panic => False
    end;
}.

Lemma drained_none budget n : reading n = Ok None → drained (S budget) n (S n) [] (Ok true).
Proof. intros H. split; simpl; [lia|done|]. left. rewrite Nat.add_0_r, Nat.add_1_r. done. Qed.

Lemma drained_error budget n e : reading n = Err e → drained (S budget) n (S n) [] (Err e).
Proof. intros H. split; simpl; [lia|done|]. rewrite Nat.add_0_r, Nat.add_1_r. done. Qed.

Lemma drained_last budget n response :
  reading n = Ok (Some (response, false)) → drained (S budget) n (S n) [response] (Ok true).
Proof.
  intros H. split; simpl; [lia| |].
  - intros [|i] r; [|done]. intros [= <-]. rewrite Nat.add_0_r. exists false. split; [done|lia].
  - right. exists O, response. rewrite Nat.add_0_r, Nat.add_1_r. done.
Qed.

Lemma drained_more budget n n' response es r :
  reading n = Ok (Some (response, true)) → drained budget (S n) n' es r →
  drained (S budget) n n' (response :: es) r.
Proof.
  intros H [HB HR HE]. split; simpl; [lia| |].
  - intros [|i] r'; simpl.
    + intros [= <-]. rewrite Nat.add_0_r. eauto.
    + intros Hi. destruct (HR i r' Hi) as (m & Hm & Hlast). exists m.
      rewrite Nat.add_succ_r. split; [done|]. intros. apply Hlast. lia.
  - destruct r as [[]|e|].
    + destruct HE as [[-> E]|(i & r' & Hi & -> & E)].
      * left. rewrite !Nat.add_succ_r in *. done.
      * right. exists (S i), r'. rewrite !Nat.add_succ_r in *. split_and!; [lia|done|done].
    + destruct HE as (-> & -> & E). split_and!; [done|lia|]. intros [|i] Hi.
      * rewrite Nat.add_0_r. eauto.
      * rewrite Nat.add_succ_r. apply E. lia.
    + destruct HE as [-> E]. rewrite !Nat.add_succ_r in *. done.
    + done.
Qed.

Lemma drain_batch_drained budget w :
  let '(r, w') := drain_batch (read_response transfer) (dispatch_response alive active_at) budget w in
  listeners w' = listeners w ∧
  ∃ es, calls w' = calls w ++ concat (deliver (listeners w) <$> es) ∧
    drained budget (transfers w) (transfers w') es r.
Proof.
  revert w. induction budget as [|budget IH]; intros w; simpl.
  { split; [done|]. exists []. rewrite app_nil_r. split; [done|].
    split; simpl; [lia|done|]. split_and!; [done|lia|lia]. }
  unfold read_response. pose proof (read_event_next (transfers w)) as Hn.
  pose proof (reading_no_panic (transfers w)) as Hp.
  destruct (read_event transfer (transfers w)) as [m n'] eqn:E. simpl in Hn. subst n'.
  assert (reading (transfers w) = m) as Hr by (unfold reading; by rewrite E).
  destruct m as [[[response more']|]|e|]; [| | |congruence].
  - destruct (reading_event _ _ _ Hr) as (event & Hparse & _).
    rewrite (dispatch_response_ok _ _ _ Hparse). simpl. destruct more'.
    + specialize (IH (mk_draining (S (transfers w)) (listeners w)
                        (calls w ++ deliver (listeners w) response))).
      simpl in IH. destruct (drain_batch _ _ _ _) as [r w']. destruct IH as [Hl (es & Hc & Hd)].
      split; [done|]. exists (response :: es). simpl. rewrite Hc, app_assoc. split; [done|].
      by apply drained_more.
    + split; [done|]. exists [response]. simpl. rewrite app_nil_r. split; [done|]. by apply drained_last.
  - simpl. split; [done|]. exists []. simpl. rewrite app_nil_r. split; [done|]. by apply drained_none.
  - simpl. split; [done|]. exists []. simpl. rewrite app_nil_r. split; [done|]. by apply drained_error.
Qed.
End Drain.

(** Draining loses no event.  A batch reads at most 64 events, and every
    event it takes out of the EC is given to every registered listener, once, in
    the order of reading and with its type and data, even if a later read fails.
    It says that the queue is empty only after an event that announced no other
    or an answer that there is none, that it is not only after 64 events which
    all announced another, and fails only with the error of its last transfer;
    the validated event never fails to parse again. *)
Theorem drain_events_lossless (transfer : nat → list Z → option (list Z))
    (alive : nat → Z → bool) (active_at : nat → nat → bool) (w : Draining)
    (Halive : ∀ n l, alive n l = true) (Hactive : ∀ n k, active_at n k = true) :
  let '(r, w') := drain_events transfer alive active_at w in
  listeners w' = listeners w ∧
  ∃ es, calls w' = calls w ++ concat (deliver (listeners w) <$> es) ∧
    drained transfer 64 (transfers w) (transfers w') es r.
Proof. exact (drain_batch_drained transfer alive active_at Halive Hactive 64 w). Qed.
End EcFacts.
