(* ===== verification/Tlmm.v ===== *)
(** * The GPIO controller of the SC7180

    [lib.rs] of [qcom-sc7180-tlmm]: the registers of a pin in its tile, pin
    configuration by name, and the delivery of GPIO interrupts with registration
    generations.  The state is the table of handlers and the register file: the
    value at each address, which reads give back and writes replace. *)
From S2P Require Import Prelude.

Module Tlmm.

Definition PIN_COUNT : Z := 119.
Definition PIN_STRIDE : Z := 0x1000.
Definition SDC1_CONFIG : Z := 0x7a000.
Definition SDC2_CONFIG : Z := 0x7b000.
Definition SDC_PULL_MASK : Z := 0x3.
Definition SDC_DRIVE_STRENGTH_MASK : Z := 0x7.
Definition CONFIG : Z := 0x0.
Definition INPUT_OUTPUT : Z := 0x4.
Definition INTERRUPT_CONFIG : Z := 0x8.
Definition INTERRUPT_STATUS : Z := 0xc.
Definition CONFIG_PULL_MASK : Z := 0x3.
Definition CONFIG_FUNCTION_MASK : Z := 0xf << 2.
Definition CONFIG_DRIVE_STRENGTH_MASK : Z := 0x7 << 6.
Definition CONFIG_OUTPUT_ENABLE : Z := 1 << 9.
Definition INPUT_VALUE : Z := 1.
Definition OUTPUT_VALUE : Z := 1 << 1.
Definition INTERRUPT_ENABLE : Z := 1.
Definition INTERRUPT_POLARITY_HIGH : Z := 1 << 1.
Definition INTERRUPT_DETECT_MASK : Z := 0x3 << 2.
Definition INTERRUPT_RAW_STATUS_ENABLE : Z := 1 << 4.
Definition INTERRUPT_TARGET_MASK : Z := 0x7 << 5.
Definition INTERRUPT_TARGET_KPSS : Z := 3 << 5.
Definition INTERRUPT_STATUS_PENDING : Z := 1.

Inductive GpioIrqTrigger := HighLevel | LowLevel | RisingEdge | FallingEdge.
Inductive GpioPull := PullNone | PullDown | PullUp.

#[export] Instance GpioIrqTrigger_eq_dec : EqDecision GpioIrqTrigger.
Proof. solve_decision. Defined.

(** A device is the identity of its [Arc]. *)
Record GpioIrqHandler := mk_handler { h_trigger : GpioIrqTrigger; h_device : Z }.

#[export] Instance GpioIrqHandler_eq_dec : EqDecision GpioIrqHandler.
Proof. solve_decision. Defined.

Inductive InterruptClaim := Handled | NotMine | Reschedule | Deferred.

#[export] Instance InterruptClaim_eq_dec : EqDecision InterruptClaim.
Proof. solve_decision. Defined.

Record GpioIrqSlot := mk_slot {
  generation : Z;
  enabled : bool;
  handler : option GpioIrqHandler;
}.

Record PendingGpioIrq := mk_pending {
  p_pin : Z;
  p_generation : Z;
  p_trigger : GpioIrqTrigger;
  p_device : Z;
}.

#[export] Instance PendingGpioIrq_eq_dec : EqDecision PendingGpioIrq.
Proof. solve_decision. Defined.

Inductive Tile := West | North | South.
Definition tile_index (t : Tile) : nat := match t with West => 0 | North => 1 | South => 2 end.

Definition PIN_TILES : list Tile := [
  South; South; South; South; North; North; North; North; North; North; North; North; South;
  South; South; South; South; South; South; South; South; North; North; South; South; South;
  South; South; South; North; South; North; North; North; South; South; South; South; South;
  South; South; South; North; North; North; North; North; North; North; West; West; West; West;
  West; West; West; West; West; West; North; North; North; North; North; North; North; North;
  North; North; West; North; North; North; West; West; West; West; West; West; West; West; West;
  West; West; West; West; North; North; North; North; North; North; North; North; South; West;
  West; West; West; West; West; North; North; North; West; North; North; West; South; South;
  North; North; North; North; North; West; West; West; West].

Inductive SdcPin := Rclk | Clk1 | Clk2 | Cmd | Data.
Inductive PinctrlPin := Gpio (pin : Z) | Sdc1 (pin : SdcPin) | Sdc2 (pin : SdcPin).

#[export] Instance SdcPin_eq_dec : EqDecision SdcPin.
Proof. solve_decision. Defined.
#[export] Instance PinctrlPin_eq_dec : EqDecision PinctrlPin.
Proof. solve_decision. Defined.

Definition pull_shift (p : SdcPin) : Z :=
  match p with Rclk => 15 | Clk1 => 13 | Clk2 => 14 | Cmd => 11 | Data => 9 end.
Definition drive_strength_shift (p : SdcPin) : Z :=
  match p with Rclk | Data => 0 | Clk1 | Clk2 => 6 | Cmd => 3 end.

(** [irq_handlers] and the registers. *)
Record Sc7180Tlmm := mk_tlmm { irq_handlers : list GpioIrqSlot; registers : Z → Z }.

Definition with_handlers (s : Sc7180Tlmm) (l : list GpioIrqSlot) : Sc7180Tlmm := mk_tlmm l (registers s).
Definition poke (s : Sc7180Tlmm) (address value : Z) : Sc7180Tlmm :=
  mk_tlmm (irq_handlers s) (λ a, if a =? address then value else registers s a).

Definition new (regs : Z → Z) : Sc7180Tlmm :=
  mk_tlmm (replicate (Z.to_nat PIN_COUNT) (mk_slot 0 false None)) regs.

Section Device.
(** The bases at which the tiles are mapped. *)
Variable tiles : list Z.

(** ** Registers *)

Definition register (pin offset : Z) : option Z :=
  tile ← PIN_TILES !! Z.to_nat pin;
  base ← tiles !! tile_index tile;
  window ← checked_mul U64_MAX pin PIN_STRIDE;
  address ← checked_add U64_MAX base window;
  checked_add U64_MAX address offset.

Definition read (s : Sc7180Tlmm) (pin offset : Z) : option Z :=
  address ← register pin offset; Some (registers s address).

Definition write (s : Sc7180Tlmm) (pin offset value : Z) : bool * Sc7180Tlmm :=
  match register pin offset with
  | None => (false, s)
  | Some address => (true, poke s address value)
  end.

(** On words of 32 bits. *)
Definition updated_register_value (value clear set : Z) : Z := (value .& (U32_MAX - clear)) .| set.

Definition update (s : Sc7180Tlmm) (pin offset clear set : Z) : Sc7180Tlmm :=
  match read s pin offset with
  | None => s
  | Some value => (write s pin offset (updated_register_value value clear set)).2
  end.

Definition sdc_config_register (offset : Z) : option Z :=
  base ← tiles !! tile_index West; checked_add U64_MAX base offset.

Definition update_sdc (s : Sc7180Tlmm) (offset clear set : Z) : Sc7180Tlmm :=
  match sdc_config_register offset with
  | None => s
  | Some address => poke s address (updated_register_value (registers s address) clear set)
  end.

Definition configure_gpio (s : Sc7180Tlmm) (pin : Z) (output : bool) : Sc7180Tlmm :=
  update s pin CONFIG (CONFIG_FUNCTION_MASK .| CONFIG_OUTPUT_ENABLE)
    (if output then CONFIG_OUTPUT_ENABLE else 0).

(** ** Pin configuration by name *)

Definition named_function (pin : Z) (function : string) : option Z :=
  if bool_decide (function = "gpio"%string) && (pin <? PIN_COUNT) then Some 0
  else if bool_decide (function = "qup04_i2c"%string) && ((pin =? 115) || (pin =? 116)) then Some 1
  else if bool_decide (function = "qup11_i2c"%string) && ((pin =? 6) || (pin =? 7)) then Some 1
  else None.

(** [str::parse::<u32>]: an optional plus sign, then one digit or more. *)
Definition digit (c : Ascii.ascii) : option Z :=
  let v := Z.of_nat (Ascii.nat_of_ascii c) - 48 in
  if (0 <=? v) && (v <=? 9) then Some v else None.

Fixpoint parse_digits (value : Z) (s : string) : option Z :=
  match s with
  | EmptyString => Some value
  | String c s =>
      d ← digit c;
      value ← checked_mul U32_MAX value 10;
      value ← checked_add U32_MAX value d;
      parse_digits value s
  end.

Definition parse_u32 (s : string) : option Z :=
  match s with
  | EmptyString => None
  | String c rest =>
      if (Ascii.nat_of_ascii c =? 43)%nat
      then match rest with EmptyString => None | _ => parse_digits 0 rest end
      else parse_digits 0 s
  end.

Definition strip_prefix (prefix s : string) : option string :=
  if String.prefix prefix s
  then Some (String.substring (String.length prefix) (String.length s - String.length prefix) s)
  else None.

Definition named_pin (pin : string) : option PinctrlPin :=
  if bool_decide (pin = "sdc1_rclk"%string) then Some (Sdc1 Rclk)
  else if bool_decide (pin = "sdc1_clk"%string) then Some (Sdc1 Clk1)
  else if bool_decide (pin = "sdc1_cmd"%string) then Some (Sdc1 Cmd)
  else if bool_decide (pin = "sdc1_data"%string) then Some (Sdc1 Data)
  else if bool_decide (pin = "sdc2_clk"%string) then Some (Sdc2 Clk2)
  else if bool_decide (pin = "sdc2_cmd"%string) then Some (Sdc2 Cmd)
  else if bool_decide (pin = "sdc2_data"%string) then Some (Sdc2 Data)
  else
    rest ← strip_prefix "gpio" pin;
    pin ← parse_u32 rest;
    if pin <? PIN_COUNT then Some (Gpio pin) else None.

Definition drive_strength_selector (milliamps : Z) : option Z :=
  if (2 <=? milliamps) && (milliamps <=? 16) && (milliamps mod 2 =? 0)
  then Some (milliamps / 2 - 1) else None.

Definition configure_drive_strength (s : Sc7180Tlmm) (pin selector : Z) : Sc7180Tlmm :=
  update s pin CONFIG CONFIG_DRIVE_STRENGTH_MASK (selector << 6).

Definition pull_value (p : GpioPull) : Z := match p with PullNone => 0 | PullDown => 1 | PullUp => 3 end.

Definition configure_sdc_pull (s : Sc7180Tlmm) (offset : Z) (pin : SdcPin) (pull : GpioPull) : Sc7180Tlmm :=
  update_sdc s offset (SDC_PULL_MASK << pull_shift pin) (pull_value pull << pull_shift pin).

Definition configure_sdc_drive_strength (s : Sc7180Tlmm) (offset : Z) (pin : SdcPin) (selector : Z) :
    Sc7180Tlmm :=
  update_sdc s offset (SDC_DRIVE_STRENGTH_MASK << drive_strength_shift pin)
    (selector << drive_strength_shift pin).

Inductive PinctrlBias := BiasDisable | BiasPullDown | BiasPullUp.
Inductive PinctrlError := Invalid | Unsupported.

Definition bias_pull (b : PinctrlBias) : GpioPull :=
  match b with BiasDisable => PullNone | BiasPullDown => PullDown | BiasPullUp => PullUp end.

(** The state of a group of pins, as the pin-control interface gives it. *)
Record PinctrlState := mk_state {
  pins : list string;
  function : option string;
  bias : option PinctrlBias;
  drive_strength_ma : option Z;
  input_enable : bool;
  output : option bool;
}.

(** [if let Some(x) = o { s = f(s, x) }] *)
Definition when {A S} (o : option A) (f : S → A → S) (s : S) : S :=
  match o with None => s | Some x => f s x end.

Definition apply_sdc_state (s : Sc7180Tlmm) (offset : Z) (pin : SdcPin) (bias : option PinctrlBias)
    (drive_strength : option Z) : Sc7180Tlmm :=
  when drive_strength (λ s selector, configure_sdc_drive_strength s offset pin selector)
    (when bias (λ s b, configure_sdc_pull s offset pin (bias_pull b)) s).

Definition is_sdc (p : PinctrlPin) : bool := match p with Gpio _ => false | _ => true end.
Definition is_some {A} (o : option A) : bool := match o with None => false | _ => true end.

(** The function of one named pin. *)
Definition pin_function (pin : PinctrlPin) (function : option string) :
    outcome PinctrlError (option Z) :=
  match pin, function with
  | Gpio pin, Some function =>
      let? f := ok_or (named_function pin function) Unsupported in Ok (Some f)
  | _, Some _ => Err Unsupported
  | _, None => Ok None
  end.

Definition validate_pin (st : PinctrlState) (name : string) : outcome PinctrlError unit :=
  let? pin := ok_or (named_pin name) Invalid in
  let? _ := pin_function pin (function st) in
  if is_sdc pin && (is_some (output st) || input_enable st) then Err Unsupported else Ok ().

Definition validate_pinctrl_state (st : PinctrlState) : outcome PinctrlError unit :=
  if input_enable st && is_some (output st) then Err Invalid
  else
    let? _ := match drive_strength_ma st with
              | Some ma => let? _ := ok_or (drive_strength_selector ma) Invalid in Ok ()
              | None => Ok () end in
    forM (validate_pin st) (pins st).

Definition set_value (s : Sc7180Tlmm) (pin : Z) (value : bool) : Sc7180Tlmm :=
  (write s pin INPUT_OUTPUT (if value then OUTPUT_VALUE else 0)).2.

Definition get_value (s : Sc7180Tlmm) (pin : Z) : bool :=
  match read s pin INPUT_OUTPUT with Some v => negb ((v .& INPUT_VALUE) =? 0) | None => false end.

Definition set_direction_output (s : Sc7180Tlmm) (pin : Z) (value : bool) : Sc7180Tlmm :=
  configure_gpio (set_value s pin value) pin true.
Definition set_direction_input (s : Sc7180Tlmm) (pin : Z) : Sc7180Tlmm := configure_gpio s pin false.

Definition set_pull (s : Sc7180Tlmm) (pin : Z) (pull : GpioPull) : Sc7180Tlmm :=
  update s pin CONFIG CONFIG_PULL_MASK (pull_value pull).

Definition set_function (s : Sc7180Tlmm) (pin function : Z) : Sc7180Tlmm :=
  update s pin CONFIG CONFIG_FUNCTION_MASK ((function << 2) .& CONFIG_FUNCTION_MASK).

Definition configure_input (s : Sc7180Tlmm) (pin : Z) : Sc7180Tlmm :=
  update s pin CONFIG CONFIG_OUTPUT_ENABLE 0.
Definition configure_output (s : Sc7180Tlmm) (pin : Z) (value : bool) : Sc7180Tlmm :=
  update (set_value s pin value) pin CONFIG CONFIG_OUTPUT_ENABLE CONFIG_OUTPUT_ENABLE.

Definition resolve_pin (st : PinctrlState) (name : string) :
    outcome PinctrlError (PinctrlPin * option Z) :=
  let? pin := ok_or (named_pin name) Invalid in
  let? f := pin_function pin (function st) in
  Ok (pin, f).

Definition apply_pin (st : PinctrlState) (drive_strength : option Z) (s : Sc7180Tlmm)
    (p : PinctrlPin * option Z) : Sc7180Tlmm :=
  match p.1 with
  | Gpio pin =>
      let s := when p.2 (λ s f, set_function s pin f) s in
      let s := when (bias st) (λ s b, set_pull s pin (bias_pull b)) s in
      let s := when drive_strength (λ s selector, configure_drive_strength s pin selector) s in
      match output st with
      | Some value => configure_output s pin value
      | None => if input_enable st then configure_input s pin else s
      end
  | Sdc1 pin => apply_sdc_state s SDC1_CONFIG pin (bias st) drive_strength
  | Sdc2 pin => apply_sdc_state s SDC2_CONFIG pin (bias st) drive_strength
  end.

(** The answer and the state it leaves. *)
Definition apply_state (s : Sc7180Tlmm) (st : PinctrlState) : outcome PinctrlError Z * Sc7180Tlmm :=
  let plan :=
    let? _ := validate_pinctrl_state st in
    let? drive_strength :=
      match drive_strength_ma st with
      | Some ma => let? d := ok_or (drive_strength_selector ma) Invalid in Ok (Some d)
      | None => Ok None end in
    let? resolved := mapM (resolve_pin st) (pins st) in
    Ok (drive_strength, resolved) in
  match plan with
  | Ok (drive_strength, resolved) =>
      (Ok (len (pins st)), foldl (apply_pin st drive_strength) s resolved)
  | Err e => (Err e, s)
  | Panic => (Panic, s)
  end.

(** ** Interrupts *)

Definition IRQ_MASK : Z := INTERRUPT_ENABLE .| INTERRUPT_RAW_STATUS_ENABLE.

Definition trigger_bits (t : GpioIrqTrigger) : Z :=
  match t with
  | HighLevel => 0 .| INTERRUPT_POLARITY_HIGH
  | LowLevel => 0 .| 0
  | RisingEdge => (1 << 2) .| INTERRUPT_POLARITY_HIGH
  | FallingEdge => (2 << 2) .| INTERRUPT_POLARITY_HIGH
  end.

Definition configure_irq (s : Sc7180Tlmm) (pin : Z) (t : GpioIrqTrigger) (enabled : bool) : Sc7180Tlmm :=
  update s pin INTERRUPT_CONFIG
    (INTERRUPT_DETECT_MASK .| INTERRUPT_POLARITY_HIGH .| INTERRUPT_TARGET_MASK
     .| INTERRUPT_RAW_STATUS_ENABLE .| INTERRUPT_ENABLE)
    (trigger_bits t .| INTERRUPT_TARGET_KPSS
     .| (if enabled then INTERRUPT_RAW_STATUS_ENABLE .| INTERRUPT_ENABLE else 0)).

Definition pin_pending (s : Sc7180Tlmm) (pin : Z) : bool :=
  match read s pin INTERRUPT_STATUS with
  | Some status => negb ((status .& INTERRUPT_STATUS_PENDING) =? 0)
  | None => false
  end.

Definition mask_irq_for_delivery (s : Sc7180Tlmm) (pin : Z) (t : GpioIrqTrigger) : Sc7180Tlmm :=
  update s pin INTERRUPT_CONFIG
    (match t with
     | HighLevel | LowLevel => INTERRUPT_ENABLE .| INTERRUPT_RAW_STATUS_ENABLE
     | RisingEdge | FallingEdge => INTERRUPT_ENABLE
     end) 0.

Definition mask_irq (s : Sc7180Tlmm) (pin : Z) : Sc7180Tlmm := update s pin INTERRUPT_CONFIG IRQ_MASK 0.
Definition ack_irq (s : Sc7180Tlmm) (pin : Z) : Sc7180Tlmm := (write s pin INTERRUPT_STATUS 0).2.

Definition slot_matches (slot : GpioIrqSlot) (irq : PendingGpioIrq) : bool :=
  (generation slot =? p_generation irq) && enabled slot &&
  match handler slot with
  | Some h => bool_decide (h_trigger h = p_trigger irq) && (h_device h =? p_device irq)
  | None => false
  end.

Definition registration_matches (s : Sc7180Tlmm) (irq : PendingGpioIrq) : bool :=
  match irq_handlers s !! Z.to_nat (p_pin irq) with
  | Some slot => slot_matches slot irq
  | None => false
  end.

(** One pin of the snapshot: quiesce it, and remember it when it has a handler. *)
Definition snapshot_pin (acc : Sc7180Tlmm * list PendingGpioIrq * bool) (p : nat * GpioIrqSlot) :
    Sc7180Tlmm * list PendingGpioIrq * bool :=
  let '(s, pending, cleared_stale) := acc in
  let pin := Z.of_nat p.1 in
  if negb (pin_pending s pin) then acc
  else
    match (if enabled p.2 then handler p.2 else None) with
    | Some h =>
        (ack_irq (mask_irq_for_delivery s pin (h_trigger h)) pin,
         pending ++ [mk_pending pin (generation p.2) (h_trigger h) (h_device h)], cleared_stale)
    | None => (ack_irq (mask_irq s pin) pin, pending, true)
    end.

(** The first critical section of [service_pending_irqs]. *)
Definition snapshot (s : Sc7180Tlmm) : Sc7180Tlmm * list PendingGpioIrq * bool :=
  foldl snapshot_pin (s, [], false) (zip (seq 0 (length (irq_handlers s))) (irq_handlers s)).


(** Whether the source is unmasked after the callback; [None] is an error. *)
Definition reenable (claim : option InterruptClaim) : bool :=
  match claim with
  | Some (Reschedule | Handled | NotMine) => true
  | Some Deferred | None => false
  end.

(** The critical section after the callback. *)
Definition finish_delivery (s : Sc7180Tlmm) (irq : PendingGpioIrq) (claim : option InterruptClaim) :
    Sc7180Tlmm :=
  if reenable claim && registration_matches s irq then configure_irq s (p_pin irq) (p_trigger irq) true
  else s.

Definition next_generation (g : Z) : Z := (g + 1) mod 2 ^ 64.

Definition enable_irq (s : Sc7180Tlmm) (pin : Z) (t : GpioIrqTrigger) : Sc7180Tlmm :=
  match irq_handlers s !! Z.to_nat pin with
  | Some (mk_slot g _ (Some h)) =>
      let s := with_handlers s
        (<[Z.to_nat pin := mk_slot (next_generation g) true (Some (mk_handler t (h_device h)))]>
           (irq_handlers s)) in
      configure_irq (ack_irq s pin) pin t true
  | _ => s
  end.

Definition disable_irq (s : Sc7180Tlmm) (pin : Z) : Sc7180Tlmm :=
  match irq_handlers s !! Z.to_nat pin with
  | Some (mk_slot g _ h) =>
      mask_irq (with_handlers s (<[Z.to_nat pin := mk_slot (next_generation g) false h]> (irq_handlers s))) pin
  | None => s
  end.

Definition request_irq (s : Sc7180Tlmm) (pin : Z) (t : GpioIrqTrigger) (device : Z) : bool * Sc7180Tlmm :=
  match irq_handlers s !! Z.to_nat pin with
  | Some (mk_slot g _ None) =>
      let s := ack_irq (mask_irq (configure_gpio s pin false) pin) pin in
      let s := with_handlers s
        (<[Z.to_nat pin := mk_slot (next_generation g) true (Some (mk_handler t device))]> (irq_handlers s)) in
      (true, configure_irq s pin t true)
  | _ => (false, s)
  end.

Definition free_irq (s : Sc7180Tlmm) (pin : Z) : Sc7180Tlmm :=
  match irq_handlers s !! Z.to_nat pin with
  | Some (mk_slot g _ _) =>
      let s := ack_irq (mask_irq s pin) pin in
      with_handlers s (<[Z.to_nat pin := mk_slot (next_generation g) false None]> (irq_handlers s))
  | None => s
  end.

(** The probe takes every pin from the firmware before the summary interrupt is
    enabled. *)
Definition quiesce (s : Sc7180Tlmm) (pin : Z) : Sc7180Tlmm := ack_irq (mask_irq s pin) pin.
Definition take_ownership (s : Sc7180Tlmm) : Sc7180Tlmm := foldl quiesce s (range PIN_COUNT).
End Device.
End Tlmm.
