(* ===== verification/TlmmFacts.v ===== *)
(** * The GPIO controller: registers of a pin, pin configuration

    The registers of different pins are different, so every operation is
    described by what it does to the words of a pin.  Applying a pin
    configuration is all or nothing. *)
From S2P Require Import Prelude Tlmm.

Module TlmmFacts.
Import Tlmm.

Definition WINDOW : Z := 0x7c000.

(** The tiles are disjoint mappings of at least a window. *)
Record tiles_ok (tiles : list Z) : Prop := {
  tl_length : length tiles = 3%nat;
  tl_range : ∀ i b, tiles !! i = Some b → 0 ≤ b ∧ b + WINDOW ≤ U64_MAX;
  tl_disjoint : ∀ i j b c, tiles !! i = Some b → tiles !! j = Some c → i ≠ j →
    b + WINDOW ≤ c ∨ c + WINDOW ≤ b;
}.

Definition pin_ok (pin : Z) : Prop := 0 ≤ pin < PIN_COUNT.
Definition offset_ok (offset : Z) : Prop := 0 ≤ offset < PIN_STRIDE.

Section Facts.
Context (tiles : list Z) (Htiles : tiles_ok tiles).

Lemma pin_tile pin : pin_ok pin → ∃ t b, PIN_TILES !! Z.to_nat pin = Some t ∧ tiles !! tile_index t = Some b.
Proof.
  intros Hp. destruct (lookup_lt_is_Some_2 PIN_TILES (Z.to_nat pin)) as [t Ht].
  { unfold pin_ok, PIN_COUNT in Hp. change (length PIN_TILES) with 119%nat. lia. }
  destruct (lookup_lt_is_Some_2 tiles (tile_index t)) as [b Hb].
  { rewrite (tl_length _ Htiles). destruct t; simpl; lia. }
  eauto.
Qed.

Lemma register_Some pin offset :
  pin_ok pin → offset_ok offset →
  ∃ t b, PIN_TILES !! Z.to_nat pin = Some t ∧ tiles !! tile_index t = Some b ∧
    register tiles pin offset = Some (b + pin * PIN_STRIDE + offset).
Proof.
  intros Hp Ho. destruct (pin_tile pin Hp) as (t & b & Ht & Hb). exists t, b. split_and!; [done..|].
  pose proof (tl_range _ Htiles _ _ Hb). unfold register. rewrite Ht. simpl. rewrite Hb. simpl.
  unfold checked_mul, checked_add, pin_ok, offset_ok, PIN_COUNT, PIN_STRIDE, WINDOW, U64_MAX in *.
  rewrite (proj2 (Z.leb_le (pin * _) _)) by lia. simpl.
  rewrite (proj2 (Z.leb_le (b + _) _)) by lia. simpl.
  by rewrite (proj2 (Z.leb_le (_ + offset) _)) by lia.
Qed.

Lemma register_inj p o p' o' a :
  pin_ok p → offset_ok o → pin_ok p' → offset_ok o' →
  register tiles p o = Some a → register tiles p' o' = Some a → p = p' ∧ o = o'.
Proof.
  intros Hp Ho Hp' Ho' H H'.
  destruct (register_Some p o Hp Ho) as (t & b & Ht & Hb & E).
  destruct (register_Some p' o' Hp' Ho') as (t' & b' & Ht' & Hb' & E').
  rewrite H in E. rewrite H' in E'. injection E as E. injection E' as E'.
  unfold pin_ok, offset_ok, PIN_COUNT, PIN_STRIDE in *.
  destruct (decide (tile_index t = tile_index t')) as [Heq|Hne].
  - rewrite Heq in Hb. simplify_eq. lia.
  - pose proof (tl_disjoint _ Htiles _ _ _ _ Hb Hb' Hne). unfold WINDOW in *. lia.
Qed.

(** The word of a pin. *)
Definition word (s : Sc7180Tlmm) (pin offset : Z) : Z :=
  match register tiles pin offset with Some a => registers s a | None => 0 end.

Lemma word_poke s a v pin offset :
  pin_ok pin → offset_ok offset →
  word (poke s a v) pin offset = if bool_decide (register tiles pin offset = Some a) then v else word s pin offset.
Proof.
  intros Hp Ho. unfold word, poke. destruct (register_Some pin offset Hp Ho) as (? & ? & _ & _ & ->). simpl.
  case_bool_decide as H; [injection H as ->; by rewrite Z.eqb_refl|].
  rewrite (proj2 (Z.eqb_neq _ _)); [done|congruence].
Qed.

Lemma write_word s p o v q o' :
  pin_ok p → offset_ok o → pin_ok q → offset_ok o' →
  word (write tiles s p o v).2 q o' = if (q =? p) && (o' =? o) then v else word s q o'.
Proof.
  intros Hp Ho Hq Ho'. unfold write. destruct (register_Some p o Hp Ho) as (? & ? & _ & _ & E).
  rewrite E. simpl. rewrite word_poke by done. case_bool_decide as H.
  - destruct (register_inj q o' p o _ Hq Ho' Hp Ho H E) as [-> ->]. by rewrite !Z.eqb_refl.
  - destruct (Z.eqb_spec q p) as [->|]; [|done]. destruct (Z.eqb_spec o' o) as [->|]; [|done]. congruence.
Qed.

Lemma write_handlers s p o v : irq_handlers (write tiles s p o v).2 = irq_handlers s.
Proof. unfold write. by destruct (register _ _ _). Qed.

Lemma update_handlers s p o c e : irq_handlers (update tiles s p o c e) = irq_handlers s.
Proof. unfold update. destruct (read _ _ _ _); [apply write_handlers|done]. Qed.

Lemma update_word s p o c e q o' :
  pin_ok p → offset_ok o → pin_ok q → offset_ok o' →
  word (update tiles s p o c e) q o' =
  if (q =? p) && (o' =? o) then updated_register_value (word s p o) c e else word s q o'.
Proof.
  intros Hp Ho Hq Ho'. unfold update, read.
  destruct (register_Some p o Hp Ho) as (? & ? & _ & _ & E). rewrite E. simpl.
  rewrite write_word by done. unfold word at 2. by rewrite E.
Qed.

(** A pin outside the table has no register. *)
Lemma register_None pin offset : PIN_COUNT ≤ pin → register tiles pin offset = None.
Proof.
  intros H. unfold register. rewrite lookup_ge_None_2; [done|].
  change (length PIN_TILES) with 119%nat. unfold PIN_COUNT in H. lia.
Qed.

Lemma write_None s pin o v : PIN_COUNT ≤ pin → (write tiles s pin o v).2 = s.
Proof. intros H. unfold write. by rewrite register_None. Qed.
Lemma update_None s pin o c e : PIN_COUNT ≤ pin → update tiles s pin o c e = s.
Proof. intros H. unfold update, read. by rewrite register_None. Qed.

(** Every pin number, in the table or not. *)
Lemma update_other s p o c e q o' :
  0 ≤ p → offset_ok o → pin_ok q → offset_ok o' → q ≠ p ∨ o' ≠ o →
  word (update tiles s p o c e) q o' = word s q o'.
Proof.
  intros Hp Ho Hq Ho' Hne. destruct (Z.le_gt_cases PIN_COUNT p); [by rewrite update_None|].
  rewrite update_word by done.
  destruct (Z.eqb_spec q p) as [->|]; [|done]. destruct (Z.eqb_spec o' o) as [->|]; [|done]. by destruct Hne.
Qed.

Lemma write_other s p o v q o' :
  0 ≤ p → offset_ok o → pin_ok q → offset_ok o' → q ≠ p ∨ o' ≠ o →
  word (write tiles s p o v).2 q o' = word s q o'.
Proof.
  intros Hp Ho Hq Ho' Hne. destruct (Z.le_gt_cases PIN_COUNT p); [by rewrite write_None|].
  rewrite write_word by done.
  destruct (Z.eqb_spec q p) as [->|]; [|done]. destruct (Z.eqb_spec o' o) as [->|]; [|done]. by destruct Hne.
Qed.
End Facts.

(** ** Fields of a word *)

Lemma updated_land v clear set m :
  updated_register_value v clear set .& m = (v .& ((U32_MAX - clear) .& m)) .| (set .& m).
Proof. unfold updated_register_value. by rewrite Z.land_lor_distr_l, Z.land_assoc. Qed.

(** A field that is wholly replaced, and one that is left alone. *)
Lemma updated_set v clear set m :
  (U32_MAX - clear) .& m = 0 → updated_register_value v clear set .& m = set .& m.
Proof. intros H. by rewrite updated_land, H, Z.land_0_r. Qed.

Lemma updated_keep v clear set m :
  (U32_MAX - clear) .& m = m → set .& m = 0 → updated_register_value v clear set .& m = v .& m.
Proof. intros H1 H2. by rewrite updated_land, H1, H2, Z.lor_0_r. Qed.
End TlmmFacts.

(** * Applying a pin configuration

    [apply_state] of [qcom-sc7180-tlmm]: a configuration that is refused touches
    no register, one that is accepted leaves every named pin with the fields it
    asks for and everything else as it was. *)

Module PinctrlFacts.
Import Tlmm TlmmFacts.

Section Facts.
Context (tiles : list Z) (Htiles : tiles_ok tiles).

(** ** The SDC pads *)

Definition sdc_word (s : Sc7180Tlmm) (offset : Z) : Z :=
  match sdc_config_register tiles offset with Some a => registers s a | None => 0 end.

Definition sdc_offset (offset : Z) : Prop := offset = SDC1_CONFIG ∨ offset = SDC2_CONFIG.

Lemma sdc_register_Some offset :
  sdc_offset offset →
  ∃ b, tiles !! tile_index West = Some b ∧ sdc_config_register tiles offset = Some (b + offset).
Proof.
  intros Ho. destruct (lookup_lt_is_Some_2 tiles (tile_index West)) as [b Hb].
  { rewrite (tl_length _ Htiles). simpl. lia. }
  exists b. split; [done|]. pose proof (tl_range _ Htiles _ _ Hb).
  unfold sdc_config_register. rewrite Hb. simpl. unfold checked_add, WINDOW, U64_MAX in *.
  rewrite (proj2 (Z.leb_le _ _)); [done|]. destruct Ho as [-> | ->]; unfold SDC1_CONFIG, SDC2_CONFIG; lia.
Qed.

Lemma sdc_register_not_pin offset p o a :
  sdc_offset offset → pin_ok p → offset_ok o →
  sdc_config_register tiles offset = Some a → register tiles p o ≠ Some a.
Proof.
  intros Hs Hp Ho H H'.
  destruct (sdc_register_Some offset Hs) as (b & Hb & E).
  destruct (register_Some tiles Htiles p o Hp Ho) as (t & b' & _ & Hb' & E').
  rewrite H in E. rewrite H' in E'. injection E as E. injection E' as E'.
  assert (SDC1_CONFIG ≤ offset < WINDOW) as Hoff.
  { unfold SDC1_CONFIG, WINDOW. destruct Hs as [-> | ->]; unfold SDC1_CONFIG, SDC2_CONFIG; lia. }
  unfold pin_ok, offset_ok, PIN_COUNT, PIN_STRIDE, SDC1_CONFIG, WINDOW in *.
  destruct (decide (tile_index West = tile_index t)) as [Heq|Hne].
  - rewrite Heq in Hb. simplify_eq. lia.
  - pose proof (tl_disjoint _ Htiles _ _ _ _ Hb Hb' Hne). unfold WINDOW in *. lia.
Qed.

Lemma update_sdc_handlers s offset c e : irq_handlers (update_sdc tiles s offset c e) = irq_handlers s.
Proof. unfold update_sdc. by destruct (sdc_config_register _ _). Qed.

Lemma update_sdc_pin s offset c e p o :
  sdc_offset offset → pin_ok p → offset_ok o → word tiles (update_sdc tiles s offset c e) p o = word tiles s p o.
Proof.
  intros Hs Hp Ho. unfold update_sdc. destruct (sdc_config_register tiles offset) as [a|] eqn:E; [|done].
  rewrite word_poke by done. rewrite bool_decide_false; [done|]. by eapply sdc_register_not_pin.
Qed.

Lemma update_sdc_word s offset c e offset' :
  sdc_offset offset → sdc_offset offset' →
  sdc_word (update_sdc tiles s offset c e) offset' =
  if offset' =? offset then updated_register_value (sdc_word s offset) c e else sdc_word s offset'.
Proof.
  intros Hs Hs'. unfold update_sdc, sdc_word.
  destruct (sdc_register_Some offset Hs) as (b & Hb & ->).
  destruct (sdc_register_Some offset' Hs') as (b' & Hb' & ->). simplify_eq. simpl.
  destruct (Z.eqb_spec offset' offset) as [->|]; [by rewrite Z.eqb_refl|].
  by rewrite (proj2 (Z.eqb_neq _ _)) by lia.
Qed.

Lemma sdc_word_write s p o v offset :
  pin_ok p → offset_ok o → sdc_offset offset → sdc_word (write tiles s p o v).2 offset = sdc_word s offset.
Proof.
  intros Hp Ho Hs. unfold write, sdc_word. destruct (register tiles p o) as [a|] eqn:E; [|done]. simpl.
  destruct (sdc_config_register tiles offset) as [a'|] eqn:E'; [|done].
  rewrite (proj2 (Z.eqb_neq _ _)); [done|]. intros ->. by apply (sdc_register_not_pin _ _ _ _ Hs Hp Ho E').
Qed.

Lemma sdc_word_update s p o c e offset :
  pin_ok p → offset_ok o → sdc_offset offset → sdc_word (update tiles s p o c e) offset = sdc_word s offset.
Proof. intros Hp Ho Hs. unfold update. destruct (read _ _ _ _); [by apply sdc_word_write|done]. Qed.

(** ** One pin, as a function on its words *)

Definition set_field (clear : Z) (set : option Z) (v : Z) : Z :=
  match set with Some e => updated_register_value v clear e | None => v end.

(** The direction a configuration asks for. *)
Definition direction (st : PinctrlState) : option Z :=
  match output st with
  | Some _ => Some CONFIG_OUTPUT_ENABLE
  | None => if input_enable st then Some 0 else None
  end.

Definition configured (st : PinctrlState) (d f : option Z) (v : Z) : Z :=
  set_field CONFIG_OUTPUT_ENABLE (direction st)
    (set_field CONFIG_DRIVE_STRENGTH_MASK ((λ x, x << 6) <$> d)
       (set_field CONFIG_PULL_MASK ((λ b, pull_value (bias_pull b)) <$> bias st)
          (set_field CONFIG_FUNCTION_MASK ((λ f, (f << 2) .& CONFIG_FUNCTION_MASK) <$> f) v))).

Definition driven (st : PinctrlState) (v : Z) : Z :=
  match output st with Some x => if x then OUTPUT_VALUE else 0 | None => v end.

Lemma offsets_ok : offset_ok CONFIG ∧ offset_ok INPUT_OUTPUT ∧ offset_ok INTERRUPT_CONFIG ∧ offset_ok INTERRUPT_STATUS.
Proof. done. Qed.

(** An operation that acts on the pin [p] only, through its two words. *)
Definition acts (p : Z) (F G : Z → Z) (s s' : Sc7180Tlmm) : Prop :=
  irq_handlers s' = irq_handlers s ∧
  (∀ q o, pin_ok q → offset_ok o →
     word tiles s' q o =
     if q =? p then
       if o =? CONFIG then F (word tiles s p CONFIG)
       else if o =? INPUT_OUTPUT then G (word tiles s p INPUT_OUTPUT) else word tiles s q o
     else word tiles s q o) ∧
  ∀ o, sdc_offset o → sdc_word s' o = sdc_word s o.

Lemma acts_id p s : acts p (λ v, v) (λ v, v) s s.
Proof.
  split_and!; [done| |done]. intros q o _ _.
  destruct (Z.eqb_spec q p) as [->|]; [|done]. destruct (Z.eqb_spec o CONFIG) as [->|]; [done|].
  by destruct (Z.eqb_spec o INPUT_OUTPUT) as [->|].
Qed.

Lemma acts_trans p F G F' G' s s' s'' :
  pin_ok p → acts p F G s s' → acts p F' G' s' s'' → acts p (λ v, F' (F v)) (λ v, G' (G v)) s s''.
Proof.
  intros Hp (Hh & Hw & Hs) (Hh' & Hw' & Hs'). destruct offsets_ok as (Hc & Hio & _).
  split_and!; [congruence| |].
  - intros q o Hq Ho. rewrite Hw' by done. rewrite !Hw by done. rewrite !Z.eqb_refl. simpl.
    destruct (Z.eqb_spec q p) as [->|]; [|done]. destruct (Z.eqb_spec o CONFIG); [done|].
    by destruct (Z.eqb_spec o INPUT_OUTPUT).
  - intros o Ho. by rewrite Hs', Hs.
Qed.

Lemma acts_update p s c e :
  pin_ok p → acts p (λ v, updated_register_value v c e) (λ v, v) s (update tiles s p CONFIG c e).
Proof.
  intros Hp. destruct offsets_ok as (Hc & Hio & _).
  split_and!; [apply update_handlers| |intros; by apply sdc_word_update].
  intros q o Hq Ho. rewrite (update_word tiles Htiles) by done.
  destruct (Z.eqb_spec q p) as [->|]; [|done]. simpl. destruct (Z.eqb_spec o CONFIG); [done|].
  by destruct (Z.eqb_spec o INPUT_OUTPUT) as [->|].
Qed.

Lemma acts_value p s (x : bool) :
  pin_ok p → acts p (λ v, v) (λ _, if x then OUTPUT_VALUE else 0) s (set_value tiles s p x).
Proof.
  intros Hp. destruct offsets_ok as (Hc & Hio & _).
  split_and!; [apply write_handlers| |intros; by apply sdc_word_write].
  intros q o Hq Ho. unfold set_value. rewrite (write_word tiles Htiles) by done.
  destruct (Z.eqb_spec q p) as [->|]; [|done]. simpl. destruct (Z.eqb_spec o CONFIG) as [->|]; [done|].
  by destruct (Z.eqb_spec o INPUT_OUTPUT) as [->|].
Qed.

Lemma acts_when {A} p (x : option A) (op : Sc7180Tlmm → A → Sc7180Tlmm) clear (set : A → Z) s :
  pin_ok p → (∀ s x, op s x = update tiles s p CONFIG clear (set x)) →
  acts p (set_field clear (set <$> x)) (λ v, v) s (when x op s).
Proof.
  intros Hp Hop. destruct x as [x|]; simpl; [|apply acts_id].
  rewrite Hop. by apply acts_update.
Qed.

Lemma acts_pin st d s p (f : option Z) :
  pin_ok p → acts p (configured st d f) (driven st) s (apply_pin tiles st d s (Gpio p, f)).
Proof.
  intros Hp. unfold apply_pin. cbn [fst snd].
  set (s3 := when d (λ s selector, configure_drive_strength tiles s p selector)
    (when (bias st) (λ s b, set_pull tiles s p (bias_pull b)) (when f (λ s f, set_function tiles s p f) s))).
  assert (acts p (λ v, set_field CONFIG_DRIVE_STRENGTH_MASK ((λ x, x << 6) <$> d)
       (set_field CONFIG_PULL_MASK ((λ b, pull_value (bias_pull b)) <$> bias st)
          (set_field CONFIG_FUNCTION_MASK ((λ f, (f << 2) .& CONFIG_FUNCTION_MASK) <$> f) v)))
       (λ v, v) s s3) as H3.
  { eapply (acts_trans p _ (λ v, v) _ (λ v, v)); [done| |by apply acts_when].
    eapply (acts_trans p _ (λ v, v) _ (λ v, v)); [done|by apply acts_when|].
    by apply (acts_when p (bias st) _ CONFIG_PULL_MASK (λ b, pull_value (bias_pull b))). }
  unfold configured, driven, direction. destruct (output st) as [x|]; [|destruct (input_enable st)].
  - eapply (acts_trans p _ (λ v, v) _ (λ _, if x then OUTPUT_VALUE else 0)); [done|exact H3|].
    eapply (acts_trans p (λ v, v) _ _ (λ v, v)); [done|by apply acts_value|by apply acts_update].
  - eapply (acts_trans p _ (λ v, v) _ (λ v, v)); [done|exact H3|by apply acts_update].
  - exact H3.
Qed.

Definition configured_sdc (st : PinctrlState) (d : option Z) (p : SdcPin) (v : Z) : Z :=
  set_field (SDC_DRIVE_STRENGTH_MASK << drive_strength_shift p) ((λ x, x << drive_strength_shift p) <$> d)
    (set_field (SDC_PULL_MASK << pull_shift p) ((λ b, pull_value (bias_pull b) << pull_shift p) <$> bias st) v).

(** An operation that acts on one pad register only. *)
Definition acts_sdc (offset : Z) (F : Z → Z) (s s' : Sc7180Tlmm) : Prop :=
  irq_handlers s' = irq_handlers s ∧
  (∀ q o, pin_ok q → offset_ok o → word tiles s' q o = word tiles s q o) ∧
  ∀ o, sdc_offset o → sdc_word s' o = if o =? offset then F (sdc_word s offset) else sdc_word s o.

Lemma acts_sdc_pin st d s p offset :
  sdc_offset offset → acts_sdc offset (configured_sdc st d p) s (apply_sdc_state tiles s offset p (bias st) d).
Proof.
  intros Ho. unfold apply_sdc_state, configured_sdc.
  assert (∀ (x : option Z) clear s, acts_sdc offset (set_field clear x) s
            (when x (λ s e, update_sdc tiles s offset clear e) s)) as H.
  { intros x clear s'. destruct x as [e|]; simpl; split_and!; try done.
    - apply update_sdc_handlers.
    - intros. by apply update_sdc_pin.
    - intros o Ho'. by apply update_sdc_word.
    - intros o _. by destruct (Z.eqb_spec o offset) as [->|]. }
  pose proof (H ((λ b, pull_value (bias_pull b) << pull_shift p) <$> bias st)
                (SDC_PULL_MASK << pull_shift p) s) as (Hh & Hw & Hs).
  set (s1 := when (bias st) _ s).
  assert (when ((λ b, pull_value (bias_pull b) << pull_shift p) <$> bias st)
            (λ s e, update_sdc tiles s offset (SDC_PULL_MASK << pull_shift p) e) s = s1) as E1
    by (subst s1; by destruct (bias st)).
  rewrite E1 in Hh, Hw, Hs.
  pose proof (H ((λ x, x << drive_strength_shift p) <$> d)
                (SDC_DRIVE_STRENGTH_MASK << drive_strength_shift p) s1) as (Hh' & Hw' & Hs').
  set (s2 := when d _ s1).
  assert (when ((λ x, x << drive_strength_shift p) <$> d)
            (λ s e, update_sdc tiles s offset (SDC_DRIVE_STRENGTH_MASK << drive_strength_shift p) e) s1 = s2)
    as E2 by (subst s2; by destruct d).
  rewrite E2 in Hh', Hw', Hs'. split_and!; [congruence| |].
  - intros. by rewrite Hw', Hw.
  - intros o Ho'. rewrite Hs', !Hs, !Z.eqb_refl by done. by destruct (o =? offset).
Qed.
End Facts.

(** ** Fields *)

Lemma keep_mask clear m :
  0 ≤ clear ≤ U32_MAX → 0 ≤ m ≤ U32_MAX → m .& clear = 0 → (U32_MAX - clear) .& m = m.
Proof.
  intros Hc Hm Hd. change U32_MAX with (Z.ones 32) in *.
  assert (∀ x, 0 ≤ x ≤ Z.ones 32 → x .& Z.ones 32 = x) as Hones.
  { intros x Hx. rewrite Z.land_ones by lia. apply Z.mod_small. change (2 ^ 32) with (Z.ones 32 + 1). lia. }
  rewrite Z.sub_nocarry_ldiff.
  - apply Z.bits_inj'. intros n Hn. rewrite Z.land_spec, Z.ldiff_spec.
    apply (f_equal (λ x, Z.testbit x n)) in Hd. rewrite Z.land_spec, Z.bits_0 in Hd.
    pose proof (f_equal (λ x, Z.testbit x n) (Hones m Hm)) as H1. cbv beta in H1. rewrite Z.land_spec in H1.
    destruct (Z.testbit m n), (Z.testbit clear n), (Z.testbit (Z.ones 32) n); done.
  - apply Z.bits_inj'. intros n Hn. rewrite Z.ldiff_spec, Z.bits_0.
    pose proof (f_equal (λ x, Z.testbit x n) (Hones clear Hc)) as H1. cbv beta in H1. rewrite Z.land_spec in H1.
    by destruct (Z.testbit clear n), (Z.testbit (Z.ones 32) n).
Qed.

Lemma set_field_other clear set v m :
  0 ≤ clear ≤ U32_MAX → 0 ≤ m ≤ U32_MAX → (set ≠ None → m .& clear = 0) →
  (∀ e, set = Some e → e .& clear = e) → set_field clear set v .& m = v .& m.
Proof.
  intros Hc Hm Hd He. destruct set as [e|]; simpl; [|done]. apply updated_keep.
  - apply keep_mask; auto.
  - rewrite <-(He e eq_refl), <-Z.land_assoc, (Z.land_comm clear), Hd by done. apply Z.land_0_r.
Qed.

Lemma set_field_own clear e v :
  0 ≤ clear ≤ U32_MAX → e .& clear = e → set_field clear (Some e) v .& clear = e.
Proof.
  intros Hc He. simpl. rewrite updated_land, He.
  assert ((U32_MAX - clear) .& clear = 0) as ->; [|by rewrite Z.land_0_r].
  assert (0 ≤ U32_MAX - clear ≤ U32_MAX) as H by lia.
  apply Z.bits_inj'. intros n Hn. rewrite Z.land_spec, Z.bits_0.
  change U32_MAX with (Z.ones 32) in *. rewrite Z.sub_nocarry_ldiff.
  - rewrite Z.ldiff_spec. by destruct (Z.testbit clear n), (Z.testbit (Z.ones 32) n).
  - apply Z.bits_inj'. intros k Hk. rewrite Z.ldiff_spec, Z.bits_0.
    assert (clear .& Z.ones 32 = clear) as H1.
    { rewrite Z.land_ones by lia. apply Z.mod_small. change (2 ^ 32) with (Z.ones 32 + 1). lia. }
    apply (f_equal (λ x, Z.testbit x k)) in H1. rewrite Z.land_spec in H1.
    by destruct (Z.testbit clear k), (Z.testbit (Z.ones 32) k).
Qed.

(** What a configuration means for the words of a pin: [d] is the drive strength
    and [f] the function, as encoded in the register. *)
Record gpio_fields (st : PinctrlState) (d f : option Z) (config io : Z) : Prop := {
  gf_function : ∀ n, f = Some n → config .& CONFIG_FUNCTION_MASK = n << 2;
  gf_pull : ∀ b, bias st = Some b → config .& CONFIG_PULL_MASK = pull_value (bias_pull b);
  gf_drive : ∀ x, d = Some x → config .& CONFIG_DRIVE_STRENGTH_MASK = x << 6;
  gf_direction : ∀ e, direction st = Some e → config .& CONFIG_OUTPUT_ENABLE = e;
  gf_level : ∀ x : bool, output st = Some x → io = if x then OUTPUT_VALUE else 0;
}.

Record sdc_fields (st : PinctrlState) (d : option Z) (p : SdcPin) (v : Z) : Prop := {
  sf_pull : ∀ b, bias st = Some b →
    v .& (SDC_PULL_MASK << pull_shift p) = pull_value (bias_pull b) << pull_shift p;
  sf_drive : ∀ x, d = Some x →
    v .& (SDC_DRIVE_STRENGTH_MASK << drive_strength_shift p) = x << drive_strength_shift p;
}.

(** The bits of a configuration word that [st] does not ask for. *)
Definition untouched (st : PinctrlState) (d f : option Z) (m : Z) : Prop :=
  0 ≤ m ≤ U32_MAX ∧ (f ≠ None → m .& CONFIG_FUNCTION_MASK = 0) ∧
  (bias st ≠ None → m .& CONFIG_PULL_MASK = 0) ∧ (d ≠ None → m .& CONFIG_DRIVE_STRENGTH_MASK = 0) ∧
  (direction st ≠ None → m .& CONFIG_OUTPUT_ENABLE = 0).

Definition codes_ok (d f : option Z) : Prop :=
  (∀ x, d = Some x → 0 ≤ x < 8) ∧ (∀ n, f = Some n → n = 0 ∨ n = 1).

Lemma drive_codes x : 0 ≤ x < 8 → x = 0 ∨ x = 1 ∨ x = 2 ∨ x = 3 ∨ x = 4 ∨ x = 5 ∨ x = 6 ∨ x = 7.
Proof. lia. Qed.

(** Every value written lies inside its field. *)
Section Codes.
Context (st : PinctrlState) (d f : option Z) (Hcodes : codes_ok d f).

Lemma function_in e :
  ((λ f, (f << 2) .& CONFIG_FUNCTION_MASK) <$> f) = Some e → e .& CONFIG_FUNCTION_MASK = e.
Proof. destruct f as [n|]; simpl; [|done]. intros [= <-]. by rewrite <-Z.land_assoc. Qed.

Lemma pull_in b : pull_value (bias_pull b) .& CONFIG_PULL_MASK = pull_value (bias_pull b).
Proof. by destruct b. Qed.

Lemma bias_in e :
  ((λ b, pull_value (bias_pull b)) <$> bias st) = Some e → e .& CONFIG_PULL_MASK = e.
Proof. destruct (bias st); simpl; [|done]. intros [= <-]. apply pull_in. Qed.

Lemma drive_in e : ((λ x, x << 6) <$> d) = Some e → e .& CONFIG_DRIVE_STRENGTH_MASK = e.
Proof.
  destruct Hcodes as [Hd _]. destruct d as [x|]; simpl; [|done]. intros [= <-].
  destruct (drive_codes x (Hd x eq_refl)) as [->|[->|[->|[->|[->|[->|[->| ->]]]]]]]; done.
Qed.

Lemma direction_in e : direction st = Some e → e .& CONFIG_OUTPUT_ENABLE = e.
Proof.
  unfold direction. destruct (output st); [by intros [= <-]|]. destruct (input_enable st); [|done].
  by intros [= <-].
Qed.

Ltac other := rewrite set_field_other by first [done | apply function_in | apply bias_in | apply drive_in
  | apply direction_in | intros _; done | assumption
  | let H := fresh in intros H; match goal with Hm : _ ≠ None → _ |- _ =>
      apply Hm; let E := fresh in intros E; by rewrite E in H end].

Lemma configured_untouched v m : untouched st d f m → configured st d f v .& m = v .& m.
Proof. intros (Hm & Hf & Hp & Hd & He). unfold configured. by do 4 other. Qed.

Lemma configured_fields v io : gpio_fields st d f (configured st d f v) (driven st io).
Proof.
  unfold configured. split.
  - intros n En. do 3 other. destruct Hcodes as [_ Hf].
    assert ((n << 2) .& CONFIG_FUNCTION_MASK = n << 2) as E by (by destruct (Hf n En) as [-> | ->]).
    rewrite En. simpl fmap. rewrite set_field_own, E; [done..|]. by rewrite <-Z.land_assoc.
  - intros b Eb. do 2 other. rewrite Eb. simpl fmap. rewrite set_field_own; [done..|]. apply pull_in.
  - intros x Ex. other. assert (((λ x, x << 6) <$> d) = Some (x << 6)) as E by (by rewrite Ex).
    rewrite E, set_field_own; [done..|]. by apply drive_in.
  - intros e Ee. rewrite Ee, set_field_own; [done..|]. by apply direction_in.
  - intros x Ex. unfold driven. by rewrite Ex.
Qed.
End Codes.

(** The fields of the pads in one register are equal or disjoint. *)
Lemma pads_apart p q :
  p ≠ Clk2 ∧ q ≠ Clk2 ∨ p ∈ [Clk2; Cmd; Data] ∧ q ∈ [Clk2; Cmd; Data] →
  (SDC_PULL_MASK << pull_shift p) .& (SDC_DRIVE_STRENGTH_MASK << drive_strength_shift q) = 0 ∧
  (p = q ∨ (SDC_PULL_MASK << pull_shift p) .& (SDC_PULL_MASK << pull_shift q) = 0) ∧
  (drive_strength_shift p = drive_strength_shift q ∨
   (SDC_DRIVE_STRENGTH_MASK << drive_strength_shift p) .&
   (SDC_DRIVE_STRENGTH_MASK << drive_strength_shift q) = 0).
Proof.
  intros H.
  assert (∀ x : Z, (x =? 0) = true → x = 0) as HE by (intros; by apply Z.eqb_eq).
  destruct H as [[Hp Hq]|[Hp Hq]].
  - destruct p, q; try done; split_and!; first [by apply HE | by left | right; by apply HE].
  - rewrite !elem_of_cons, !elem_of_nil in *.
    destruct Hp as [->|[->|[->|[]]]], Hq as [->|[->|[->|[]]]]; split_and!;
      first [by apply HE | by left | right; by apply HE].
Qed.

Definition same_register (p q : SdcPin) : Prop :=
  p ≠ Clk2 ∧ q ≠ Clk2 ∨ p ∈ [Clk2; Cmd; Data] ∧ q ∈ [Clk2; Cmd; Data].

Lemma shift_in x m n : 0 ≤ n → x .& m = x → (x << n) .& (m << n) = x << n.
Proof. intros Hn H. by rewrite <-Z.shiftl_land, H. Qed.

Lemma pad_masks p :
  0 ≤ SDC_PULL_MASK << pull_shift p ≤ U32_MAX ∧ 0 ≤ SDC_DRIVE_STRENGTH_MASK << drive_strength_shift p ≤ U32_MAX.
Proof. by destruct p. Qed.

Section Pads.
Context (st : PinctrlState) (d : option Z) (Hd : ∀ x, d = Some x → 0 ≤ x < 8).

Lemma pad_pull_in p e :
  ((λ b, pull_value (bias_pull b) << pull_shift p) <$> bias st) = Some e → e .& (SDC_PULL_MASK << pull_shift p) = e.
Proof.
  destruct (bias st) as [b|]; simpl; [|done]. intros [= <-].
  apply shift_in; [by destruct p|]. by destruct b.
Qed.

Lemma pad_drive_in p e :
  ((λ x, x << drive_strength_shift p) <$> d) = Some e → e .& (SDC_DRIVE_STRENGTH_MASK << drive_strength_shift p) = e.
Proof.
  destruct d as [x|]; simpl; [|done]. intros [= <-]. apply shift_in; [by destruct p|].
  destruct (drive_codes x (Hd x eq_refl)) as [->|[->|[->|[->|[->|[->|[->| ->]]]]]]]; done.
Qed.

Lemma configured_sdc_fields p q v :
  same_register p q → p = q ∨ sdc_fields st d q v → sdc_fields st d q (configured_sdc st d p v).
Proof.
  intros Hs Hor. destruct (pads_apart q p) as (Hpd & Hpp & Hdd).
  { destruct Hs as [[]|[]]; [left|right]; done. }
  destruct (pads_apart p q Hs) as (Hpd' & _ & _).
  destruct (pad_masks p) as [Hmp Hmd], (pad_masks q) as [Hmp' Hmd'].
  assert (p = q ∨ (p ≠ q ∧ sdc_fields st d q v)) as Hor'.
  { destruct (decide (p = q)) as [|]; [by left|]. right. destruct Hor; [done|]. done. }
  unfold configured_sdc. split.
  - intros b Eb. rewrite set_field_other by (done || apply pad_drive_in || intros _; assumption).
    destruct Hor' as [->|[Hne Hq]].
    + rewrite Eb. simpl fmap. rewrite set_field_own; [done..|].
      apply pad_pull_in. by rewrite Eb.
    + destruct Hpp as [->|Hpp]; [done|].
      rewrite set_field_other by (done || apply pad_pull_in || intros _; assumption). by apply (sf_pull _ _ _ _ Hq).
  - intros x Ex. destruct Hdd as [Hsame|Hdd].
    + rewrite Hsame. assert (((λ x, x << drive_strength_shift p) <$> d) = Some (x << drive_strength_shift p)) as E
        by (by rewrite Ex).
      rewrite E, set_field_own; [done..|]. by apply pad_drive_in.
    + rewrite set_field_other by (done || apply pad_drive_in || intros _; assumption).
      destruct Hor' as [->|[Hne Hq]]; [by destruct q|].
      rewrite set_field_other by
        (done || apply pad_pull_in || (intros _; rewrite Z.land_comm; assumption)).
      by apply (sf_drive _ _ _ _ Hq).
Qed.
End Pads.

(** ** A group of pins *)

(** What [validate] has established of a resolved pin. *)
Definition resolved_ok (st : PinctrlState) (p : PinctrlPin * option Z) : Prop :=
  pin_function p.1 (function st) = Ok p.2 ∧
  match p.1 with
  | Gpio pin => pin_ok pin
  | Sdc1 pin => pin ≠ Clk2
  | Sdc2 pin => pin ∈ [Clk2; Cmd; Data]
  end.

Section Group.
Context (tiles : list Z) (Htiles : tiles_ok tiles).
Context (st : PinctrlState) (d : option Z) (Hd : ∀ x, d = Some x → 0 ≤ x < 8).

(** What applying the pins [ps] to [s0] has brought about. *)
Record applied (s0 s : Sc7180Tlmm) (ps : list (PinctrlPin * option Z)) : Prop := {
  ap_handlers : irq_handlers s = irq_handlers s0;
  ap_interrupts : ∀ q o, pin_ok q → offset_ok o → o ≠ CONFIG → o ≠ INPUT_OUTPUT →
    word tiles s q o = word tiles s0 q o;
  ap_unnamed : ∀ q o, pin_ok q → offset_ok o → (∀ f, (Gpio q, f) ∉ ps) → word tiles s q o = word tiles s0 q o;
  ap_rest : ∀ q f m, (Gpio q, f) ∈ ps → untouched st d f m →
    word tiles s q CONFIG .& m = word tiles s0 q CONFIG .& m;
  ap_fields : ∀ q f, (Gpio q, f) ∈ ps → gpio_fields st d f (word tiles s q CONFIG) (word tiles s q INPUT_OUTPUT);
  ap_sdc1 : ∀ p f, (Sdc1 p, f) ∈ ps → sdc_fields st d p (sdc_word tiles s SDC1_CONFIG);
  ap_sdc2 : ∀ p f, (Sdc2 p, f) ∈ ps → sdc_fields st d p (sdc_word tiles s SDC2_CONFIG);
}.

Lemma function_code pin f : resolved_ok st (Gpio pin, f) → codes_ok d f.
Proof.
  intros [Hf _]. split; [done|]. intros n ->. simpl in Hf.
  destruct (function st) as [fn|]; [|done]. unfold named_function in Hf.
  repeat (case_match; simpl in Hf; [naive_solver|]). done.
Qed.

Lemma applied_gpio s0 s ps pin f :
  Forall (resolved_ok st) ps → resolved_ok st (Gpio pin, f) → applied s0 s ps →
  applied s0 (apply_pin tiles st d s (Gpio pin, f)) (ps ++ [(Gpio pin, f)]).
Proof.
  intros Hps Hok [H1 H2 H3 H4 H5 H6 H7]. pose proof (function_code _ _ Hok) as Hcodes.
  destruct Hok as [Hfun Hpin]. simpl in Hpin.
  destruct (acts_pin tiles Htiles st d s pin f Hpin) as (Hh & Hw & Hs). destruct offsets_ok as (Hc & Hio & _).
  assert (∀ q f', pin_ok q → (Gpio q, f') ∈ ps ++ [(Gpio pin, f)] → (q = pin ∧ f' = f) ∨ (q ≠ pin ∧ (Gpio q, f') ∈ ps))
    as Hcase.
  { intros q f' Hq Hin. destruct (decide (q = pin)) as [->|Hne].
    - left. split; [done|]. apply elem_of_app in Hin as [Hin|Hin].
      + apply (proj1 (Forall_forall _ _)) with (x := (Gpio pin, f')) in Hps as [E _]; [|done].
        simpl in E. simpl in Hfun. congruence.
      + apply list_elem_of_singleton in Hin. congruence.
    - right. split; [done|]. apply elem_of_app in Hin as [|Hin]; [done|].
      apply list_elem_of_singleton in Hin. congruence. }
  assert (∀ q f', (Gpio q, f') ∈ ps ++ [(Gpio pin, f)] → pin_ok q) as Hpins.
  { intros q f' Hin. apply elem_of_app in Hin as [Hin|Hin].
    - by apply (proj1 (Forall_forall _ _)) with (x := (Gpio q, f')) in Hps as [_ E].
    - apply list_elem_of_singleton in Hin. congruence. }
  split.
  - congruence.
  - intros q o Hq Ho Ho1 Ho2. rewrite Hw by done. rewrite <-H2 by done.
    apply Z.eqb_neq in Ho1 as ->, Ho2 as ->. by destruct (q =? pin).
  - intros q o Hq Ho Hnone. rewrite Hw by done. destruct (Z.eqb_spec q pin) as [->|Hne].
    + destruct (Hnone f). apply elem_of_app. right. by apply list_elem_of_singleton.
    + apply H3; [done..|]. intros f' Hin. apply (Hnone f'), elem_of_app. by left.
  - intros q f' m Hin Hm. pose proof (Hpins _ _ Hin) as Hq. rewrite Hw by done.
    destruct (Hcase q f' Hq Hin) as [[-> ->]|[Hne Hin']].
    + rewrite !Z.eqb_refl. rewrite configured_untouched by done.
      destruct (decide ((Gpio pin, f) ∈ ps)) as [Hin'|Hnone]; [by apply (H4 pin f m)|].
      f_equal. apply H3; [done..|]. intros f' Hin'.
      destruct (Hcase pin f' Hq) as [[_ ->]|[? _]]; [apply elem_of_app; by left|done..].
    + apply Z.eqb_neq in Hne as ->. by eapply H4.
  - intros q f' Hin. pose proof (Hpins _ _ Hin) as Hq. rewrite !Hw by done.
    destruct (Hcase q f' Hq Hin) as [[-> ->]|[Hne Hin']].
    + rewrite !Z.eqb_refl. simpl. by apply configured_fields.
    + apply Z.eqb_neq in Hne as ->. by apply H5.
  - intros p f' Hin. rewrite Hs by by left. apply (H6 p f').
    apply elem_of_app in Hin as [|Hin]; [done|]. by apply list_elem_of_singleton in Hin.
  - intros p f' Hin. rewrite Hs by by right. apply (H7 p f').
    apply elem_of_app in Hin as [|Hin]; [done|]. by apply list_elem_of_singleton in Hin.
Qed.

Lemma applied_sdc s0 s ps p (f : option Z) (sd1 : bool) :
  Forall (resolved_ok st) ps →
  resolved_ok st ((if sd1 then Sdc1 p else Sdc2 p), f) → applied s0 s ps →
  applied s0 (apply_pin tiles st d s ((if sd1 then Sdc1 p else Sdc2 p), f))
    (ps ++ [((if sd1 then Sdc1 p else Sdc2 p), f)]).
Proof.
  intros Hps [_ Hp] [H1 H2 H3 H4 H5 H6 H7]. destruct offsets_ok as (Hc & Hio & _).
  set (offset := if sd1 then SDC1_CONFIG else SDC2_CONFIG).
  assert (sdc_offset offset) as Ho by (subst offset; destruct sd1; [by left|by right]).
  destruct (acts_sdc_pin tiles Htiles st d s p offset Ho) as (Hh & Hw & Hs).
  assert (apply_pin tiles st d s ((if sd1 then Sdc1 p else Sdc2 p), f)
          = apply_sdc_state tiles s offset p (bias st) d) as -> by (subst offset; by destruct sd1).
  assert (∀ q f', (Gpio q, f') ∈ ps ++ [((if sd1 then Sdc1 p else Sdc2 p), f)] → (Gpio q, f') ∈ ps) as Hold.
  { intros q f' Hin. apply elem_of_app in Hin as [|Hin]; [done|].
    apply list_elem_of_singleton in Hin. by destruct sd1. }
  assert (∀ q f', (Gpio q, f') ∈ ps → pin_ok q) as Hpins.
  { intros q f' Hin. by apply (proj1 (Forall_forall _ _)) with (x := (Gpio q, f')) in Hps as [_ E]. }
  split.
  - congruence.
  - intros. rewrite Hw by done. by apply H2.
  - intros q o Hq Hoo Hnone. rewrite Hw by done. apply H3; [done..|].
    intros f' Hin. apply (Hnone f'), elem_of_app. by left.
  - intros q f' m Hin Hm. apply Hold in Hin. rewrite Hw by eauto. by eapply H4.
  - intros q f' Hin. apply Hold in Hin. rewrite !Hw by eauto. by apply H5.
  - intros q f' Hin. rewrite Hs by by left. subst offset. destruct sd1.
    + simpl. apply configured_sdc_fields; [done| |].
      * left. simpl in Hp. split; [done|]. apply elem_of_app in Hin as [Hin|Hin].
        -- by apply (proj1 (Forall_forall _ _)) with (x := (Sdc1 q, f')) in Hps as [_ E].
        -- apply list_elem_of_singleton in Hin. congruence.
      * apply elem_of_app in Hin as [Hin|Hin]; [right; by eapply H6|].
        apply list_elem_of_singleton in Hin. left. congruence.
    + simpl. apply (H6 q f'). apply elem_of_app in Hin as [|Hin]; [done|]. by apply list_elem_of_singleton in Hin.
  - intros q f' Hin. rewrite Hs by by right. subst offset. destruct sd1.
    + simpl. apply (H7 q f'). apply elem_of_app in Hin as [|Hin]; [done|]. by apply list_elem_of_singleton in Hin.
    + simpl. apply configured_sdc_fields; [done| |].
      * right. simpl in Hp. split; [done|]. apply elem_of_app in Hin as [Hin|Hin].
        -- by apply (proj1 (Forall_forall _ _)) with (x := (Sdc2 q, f')) in Hps as [_ E].
        -- apply list_elem_of_singleton in Hin. congruence.
      * apply elem_of_app in Hin as [Hin|Hin]; [right; by eapply H7|].
        apply list_elem_of_singleton in Hin. left. congruence.
Qed.

Lemma applied_all s0 ps :
  Forall (resolved_ok st) ps → applied s0 (foldl (apply_pin tiles st d) s0 ps) ps.
Proof.
  induction ps as [|[p f] ps IH] using rev_ind; intros Hps; simpl.
  { split; (done || intros *; by rewrite elem_of_nil). }
  apply Forall_app in Hps as [Hps Hp]. apply Forall_cons in Hp as [Hp _]. rewrite foldl_app. simpl.
  destruct p as [pin|p|p].
  - by apply applied_gpio; [| |apply IH].
  - by apply (applied_sdc _ _ _ p f true); [| |apply IH].
  - by apply (applied_sdc _ _ _ p f false); [| |apply IH].
Qed.
(** ** What a configuration leaves alone *)

(** The registers through which a pin is configured. *)
Definition pin_register (p : PinctrlPin) (a : Z) : Prop :=
  match p with
  | Gpio pin => register tiles pin CONFIG = Some a ∨ register tiles pin INPUT_OUTPUT = Some a
  | Sdc1 _ => sdc_config_register tiles SDC1_CONFIG = Some a
  | Sdc2 _ => sdc_config_register tiles SDC2_CONFIG = Some a
  end.

Lemma write_elsewhere s p o v a : register tiles p o ≠ Some a → registers (write tiles s p o v).2 a = registers s a.
Proof.
  intros Hne. unfold write. destruct (register tiles p o) as [b|]; [|done]. simpl.
  by rewrite (proj2 (Z.eqb_neq a b)) by congruence.
Qed.

Lemma update_elsewhere s p o c e a : register tiles p o ≠ Some a → registers (update tiles s p o c e) a = registers s a.
Proof. intros Hne. unfold update. destruct (read _ _ _ _); [by apply write_elsewhere|done]. Qed.

Lemma update_sdc_elsewhere s o c e a :
  sdc_config_register tiles o ≠ Some a → registers (update_sdc tiles s o c e) a = registers s a.
Proof.
  intros Hne. unfold update_sdc. destruct (sdc_config_register tiles o) as [b|]; [|done]. simpl.
  by rewrite (proj2 (Z.eqb_neq a b)) by congruence.
Qed.

Lemma apply_pin_elsewhere s p a : ¬ pin_register p.1 a → registers (apply_pin tiles st d s p) a = registers s a.
Proof.
  intros Hp. unfold apply_pin. destruct p as [[pin|p|p] f]; simpl in *.
  - apply Decidable.not_or in Hp as [Hc Hio].
    assert (∀ s (x : bool), registers (set_value tiles s pin x) a = registers s a) as Hv
      by (intros; by apply write_elsewhere).
    destruct (output st); [|destruct (input_enable st)]; unfold configure_output, configure_input;
      rewrite ?update_elsewhere, ?Hv by done;
      destruct d, (bias st), f; cbn [when]; unfold set_function, set_pull, configure_drive_strength;
      rewrite ?update_elsewhere by done; done.
  - unfold apply_sdc_state, configure_sdc_drive_strength, configure_sdc_pull.
    destruct d, (bias st); cbn [when]; by rewrite ?update_sdc_elsewhere by done.
  - unfold apply_sdc_state, configure_sdc_drive_strength, configure_sdc_pull.
    destruct d, (bias st); cbn [when]; by rewrite ?update_sdc_elsewhere by done.
Qed.

Lemma apply_elsewhere s ps a :
  (∀ p, p ∈ ps → ¬ pin_register p.1 a) → registers (foldl (apply_pin tiles st d) s ps) a = registers s a.
Proof.
  revert s. induction ps as [|p ps IH]; intros s Hps; [done|]. simpl.
  rewrite IH by (intros; apply Hps; by right). apply apply_pin_elsewhere, Hps. by left.
Qed.

(** The level of a pin stays when none is asked for. *)
Lemma apply_level s ps q :
  output st = None → Forall (resolved_ok st) ps → pin_ok q →
  word tiles (foldl (apply_pin tiles st d) s ps) q INPUT_OUTPUT = word tiles s q INPUT_OUTPUT.
Proof.
  intros Hout Hps Hq. destruct offsets_ok as (_ & Hio & _). revert s.
  induction Hps as [|[p f] ps [_ Hp] _ IH]; intros s; [done|]. cbn [foldl]. rewrite IH. destruct p as [pin|p|p]; simpl in Hp.
  - destruct (acts_pin tiles Htiles st d s pin f Hp) as (_ & Hw & _). rewrite Hw by done. unfold driven. rewrite Hout.
    simpl. by destruct (Z.eqb_spec q pin) as [->|].
  - by apply (acts_sdc_pin tiles Htiles st d s p SDC1_CONFIG (or_introl eq_refl)).
  - by apply (acts_sdc_pin tiles Htiles st d s p SDC2_CONFIG (or_intror eq_refl)).
Qed.

(** The bits of a pad register that the configuration of the pad [p] does not
    ask for: those of other pads, and the fields that [st] does not name. *)
Definition untouched_sdc (p : SdcPin) (m : Z) : Prop :=
  (bias st ≠ None → m .& (SDC_PULL_MASK << pull_shift p) = 0) ∧
  (d ≠ None → m .& (SDC_DRIVE_STRENGTH_MASK << drive_strength_shift p) = 0).

Lemma configured_sdc_untouched p v m :
  0 ≤ m ≤ U32_MAX → untouched_sdc p m → configured_sdc st d p v .& m = v .& m.
Proof.
  intros Hm [Hp Hs]. destruct (pad_masks p) as [Hmp Hmd]. unfold configured_sdc.
  assert (∀ {A} (o : option A) (f : A → Z), f <$> o ≠ None → o ≠ None) as Hsome by (by intros A []).
  rewrite !set_field_other; try done.
  - intros H. by apply Hp, (Hsome _ _ _ H).
  - intros e He. by apply (pad_pull_in st).
  - intros H. by apply Hs, (Hsome _ _ _ H).
  - intros e He. by apply (pad_drive_in d Hd).
Qed.

Lemma apply_sdc_rest s ps m :
  Forall (resolved_ok st) ps → 0 ≤ m ≤ U32_MAX →
  ((∀ p f, (Sdc1 p, f) ∈ ps → untouched_sdc p m) →
   sdc_word tiles (foldl (apply_pin tiles st d) s ps) SDC1_CONFIG .& m = sdc_word tiles s SDC1_CONFIG .& m) ∧
  ((∀ p f, (Sdc2 p, f) ∈ ps → untouched_sdc p m) →
   sdc_word tiles (foldl (apply_pin tiles st d) s ps) SDC2_CONFIG .& m = sdc_word tiles s SDC2_CONFIG .& m).
Proof.
  intros Hps Hm. revert s. induction Hps as [|[p f] ps [_ Hp] _ IH]; intros s; [done|]. cbn [foldl].
  assert (sdc_offset SDC1_CONFIG ∧ sdc_offset SDC2_CONFIG) as [Ho1 Ho2] by (by split; [left|right]).
  destruct p as [pin|p|p]; simpl in Hp.
  - destruct (acts_pin tiles Htiles st d s pin f Hp) as (_ & _ & Hs).
    rewrite <- (Hs SDC1_CONFIG Ho1), <- (Hs SDC2_CONFIG Ho2).
    split; intros Hun; apply IH; intros; eapply Hun; by right.
  - destruct (acts_sdc_pin tiles Htiles st d s p SDC1_CONFIG Ho1) as (_ & _ & Hs). split; intros Hun.
    + rewrite (proj1 (IH _)) by (intros; eapply Hun; by right). unfold apply_pin. cbn [fst].
      rewrite Hs, Z.eqb_refl by done. apply configured_sdc_untouched; [done|]. eapply Hun. by left.
    + rewrite (proj2 (IH _)) by (intros; eapply Hun; by right). unfold apply_pin. cbn [fst]. by rewrite Hs.
  - destruct (acts_sdc_pin tiles Htiles st d s p SDC2_CONFIG Ho2) as (_ & _ & Hs). split; intros Hun.
    + rewrite (proj1 (IH _)) by (intros; eapply Hun; by right). unfold apply_pin. cbn [fst]. by rewrite Hs.
    + rewrite (proj2 (IH _)) by (intros; eapply Hun; by right). unfold apply_pin. cbn [fst].
      rewrite Hs, Z.eqb_refl by done. apply configured_sdc_untouched; [done|]. eapply Hun. by left.
Qed.
End Group.

(** ** The names *)

Lemma parse_digits_nonneg s v x : 0 ≤ v → parse_digits v s = Some x → 0 ≤ x.
Proof.
  revert v. induction s as [|c s IH]; intros v Hv; simpl; [by intros [= <-]|].
  unfold digit, checked_mul, checked_add.
  destruct (_ && _) eqn:E; [|done]. bool_to_prop. simpl. repeat (case_match; simpl; [|done]).
  intros Hx. eapply IH; [|done]. lia.
Qed.

Lemma parse_u32_nonneg s x : parse_u32 s = Some x → 0 ≤ x.
Proof.
  unfold parse_u32. destruct s as [|c s]; [done|]. case_match.
  - destruct s; [done|]. by apply parse_digits_nonneg.
  - by apply parse_digits_nonneg.
Qed.

Lemma named_pin_ok name p :
  named_pin name = Some p →
  match p with
  | Gpio pin => pin_ok pin
  | Sdc1 pin => pin ≠ Clk2
  | Sdc2 pin => pin ∈ [Clk2; Cmd; Data]
  end.
Proof.
  unfold named_pin.
  repeat (case_bool_decide; [intros [= <-]; rewrite ?elem_of_cons; naive_solver|]).
  destruct (strip_prefix _ _) as [rest|]; [|done]. simpl.
  destruct (parse_u32 rest) as [pin|] eqn:E; [|done]. simpl.
  destruct (Z.ltb_spec pin PIN_COUNT); [|done]. intros [= <-].
  split; [by eapply parse_u32_nonneg|done].
Qed.

Lemma drive_strength_selector_bounds ma x :
  drive_strength_selector ma = Some x → 0 ≤ x < 8 ∧ ma = 2 * (x + 1).
Proof.
  unfold drive_strength_selector. destruct (_ && _) eqn:E; [|done]. bool_to_prop. intros [= <-]. zlia.
Qed.

Lemma resolve_validated st name :
  validate_pin st name = Ok () →
  ∃ p, resolve_pin st name = Ok p ∧ resolved_ok st p ∧ named_pin name = Some p.1.
Proof.
  unfold validate_pin, resolve_pin. destruct (named_pin name) as [p|] eqn:En; [|done]. cbn [ok_or bind].
  destruct (pin_function p (function st)) as [f| |] eqn:Ef; [|done..]. cbn [bind]. intros _.
  exists (p, f). split_and!; [done| |done]. split; [done|]. simpl. by apply named_pin_ok in En.
Qed.

Lemma resolve_all st names :
  forM (validate_pin st) names = Ok () →
  ∃ ps, mapM (resolve_pin st) names = Ok ps ∧ Forall (resolved_ok st) ps ∧
    Forall2 (λ name p, named_pin name = Some p.1) names ps.
Proof.
  intros H. apply forM_Ok in H. induction H as [|name names Hn _ IH]; [by exists []|].
  destruct IH as (ps & Hm & Hok & Hnames). destruct (resolve_validated _ _ Hn) as (p & Hp & Hpok & Hname).
  exists (p :: ps). simpl. rewrite Hp. cbn [bind]. rewrite Hm. cbn [bind]. split_and!; [done|by constructor..].
Qed.

Definition names_pin (st : PinctrlState) (p : PinctrlPin) : Prop :=
  ∃ name, name ∈ pins st ∧ named_pin name = Some p.

(** The drive strength as it is encoded. *)
Definition drive_code (st : PinctrlState) : option Z := (λ ma, ma / 2 - 1) <$> drive_strength_ma st.

Lemma validate_no_panic st : validate_pinctrl_state st ≠ Panic.
Proof.
  unfold validate_pinctrl_state. case_match; [done|].
  assert (∀ names, forM (validate_pin st) names ≠ Panic) as HF.
  { intros names. eapply (ensures_no_panic (λ _, Forall (λ _, True) names)). apply ensures_forM.
    intros name _. unfold validate_pin. destruct (named_pin name) as [p|]; [|done]. cbn [ok_or bind].
    assert (pin_function p (function st) ≠ Panic) as Hf.
    { unfold pin_function. destruct p as [pin|p|p], (function st) as [fn|]; try done.
      by destruct (named_function pin fn). }
    destruct (pin_function p (function st)); [|done..]. cbn [bind]. by case_match. }
  destruct (drive_strength_ma st) as [ma|]; cbn [bind]; [|apply HF].
  destruct (drive_strength_selector ma); [apply HF|done].
Qed.

Lemma validated st :
  validate_pinctrl_state st = Ok () →
  (match drive_strength_ma st with
   | Some ma => let? d := ok_or (drive_strength_selector ma) Invalid in Ok (Some d)
   | None => Ok None end : outcome PinctrlError (option Z)) = Ok (drive_code st) ∧
  (∀ x, drive_code st = Some x → 0 ≤ x < 8) ∧ forM (validate_pin st) (pins st) = Ok ().
Proof.
  unfold validate_pinctrl_state, drive_code. case_match; [done|].
  destruct (drive_strength_ma st) as [ma|]; cbn [bind]; [|done].
  destruct (drive_strength_selector ma) as [x|] eqn:E; cbn [ok_or bind fmap option_fmap option_map]; [|done].
  pose proof (drive_strength_selector_bounds _ _ E) as [? ->]. intros Hf.
  replace (2 * (x + 1) / 2 - 1) with x by zlia. split_and!; [done| |done]. by intros ? [= <-].
Qed.

(** The pins of a configuration are those its names resolve to. *)
Lemma names_resolved st (ps : list (PinctrlPin * option Z)) :
  Forall2 (λ name p, named_pin name = Some p.1) (pins st) ps →
  ∀ p, names_pin st p ↔ ∃ f, (p, f) ∈ ps.
Proof.
  intros Hnames p. split.
  - intros (name & Hn & Hp). apply list_elem_of_lookup in Hn as [i Hi].
    destruct (Forall2_lookup_l _ _ _ _ _ Hnames Hi) as ([p' f] & Hlook & Hp'). simpl in Hp'.
    exists f. apply list_elem_of_lookup. exists i. congruence.
  - intros (f & Hp). apply list_elem_of_lookup in Hp as [i Hi].
    destruct (Forall2_lookup_r _ _ _ _ _ Hnames Hi) as (name & Hlook & Hp').
    exists name. split; [|done]. apply list_elem_of_lookup. eauto.
Qed.

Lemma apply_state_spec (tiles : list Z) (s : Sc7180Tlmm) (st : PinctrlState) (Htiles : tiles_ok tiles) :
  match apply_state tiles s st with
  | (Ok n, s') =>
      validate_pinctrl_state st = Ok () ∧ n = len (pins st) ∧ irq_handlers s' = irq_handlers s ∧
      (∀ q o, pin_ok q → offset_ok o → ¬ names_pin st (Gpio q) ∨ o ∈ [INTERRUPT_CONFIG; INTERRUPT_STATUS] →
         word tiles s' q o = word tiles s q o) ∧
      (∀ q, names_pin st (Gpio q) → ∃ f, pin_function (Gpio q) (function st) = Ok f ∧
         gpio_fields st (drive_code st) f (word tiles s' q CONFIG) (word tiles s' q INPUT_OUTPUT) ∧
         ∀ m, untouched st (drive_code st) f m → word tiles s' q CONFIG .& m = word tiles s q CONFIG .& m) ∧
      (∀ p, names_pin st (Sdc1 p) → sdc_fields st (drive_code st) p (sdc_word tiles s' SDC1_CONFIG)) ∧
      (∀ p, names_pin st (Sdc2 p) → sdc_fields st (drive_code st) p (sdc_word tiles s' SDC2_CONFIG)) ∧
      (∀ m, 0 ≤ m ≤ U32_MAX →
         ((∀ p, names_pin st (Sdc1 p) → untouched_sdc st (drive_code st) p m) →
          sdc_word tiles s' SDC1_CONFIG .& m = sdc_word tiles s SDC1_CONFIG .& m) ∧
         ((∀ p, names_pin st (Sdc2 p) → untouched_sdc st (drive_code st) p m) →
          sdc_word tiles s' SDC2_CONFIG .& m = sdc_word tiles s SDC2_CONFIG .& m)) ∧
      (output st = None → ∀ q, pin_ok q → word tiles s' q INPUT_OUTPUT = word tiles s q INPUT_OUTPUT) ∧
      (∀ a, (∀ p, names_pin st p → ¬ pin_register tiles p a) → registers s' a = registers s a)
  | (Err e, s') => validate_pinctrl_state st = Err e ∧ s' = s
  | (Panic, _) => False
  end.
Proof.
  unfold apply_state.
  destruct (validate_pinctrl_state st) as [[]|e|] eqn:Ev; cbn [bind]; [|done|].
  2:{ by apply validate_no_panic in Ev. }
  destruct (validated _ Ev) as (Edrive & Hd & Hpins).
  rewrite Edrive. cbn [bind]. destruct (resolve_all _ _ Hpins) as (ps & -> & Hok & Hnames). cbn [bind].
  pose proof (applied_all tiles Htiles st (drive_code st) Hd s ps Hok) as Happ.
  set (s' := foldl _ s ps) in *.
  pose proof (names_resolved _ _ Hnames) as Hin.
  split_and!; [done|done|by destruct Happ|..].
  - intros q o Hq Ho [Hn|Hint].
    + apply (ap_unnamed _ _ _ _ _ _ Happ); [done..|]. intros f Hf. apply Hn, Hin. eauto.
    + apply (ap_interrupts _ _ _ _ _ _ Happ); [done..| |]; intros ->;
        rewrite !elem_of_cons, elem_of_nil in Hint; by destruct Hint as [|[|]].
  - intros q Hq. destruct (proj1 (Hin _) Hq) as [f Hf]. exists f.
    split; [by apply (proj1 (Forall_forall _ _)) with (x := (Gpio q, f)) in Hok as [? _]|].
    split; [by apply (ap_fields _ _ _ _ _ _ Happ)|]. intros m. by apply (ap_rest _ _ _ _ _ _ Happ).
  - intros p Hp. destruct (proj1 (Hin _) Hp) as [f Hf]. by eapply (ap_sdc1 _ _ _ _ _ _ Happ).
  - intros p Hp. destruct (proj1 (Hin _) Hp) as [f Hf]. by eapply (ap_sdc2 _ _ _ _ _ _ Happ).
  - intros m Hm. destruct (apply_sdc_rest tiles Htiles st (drive_code st) Hd s ps m Hok Hm) as [H1 H2].
    split; intros Hun; [apply H1|apply H2]; intros p f Hf; apply Hun, Hin; eauto.
  - intros Hout q Hq. by apply (apply_level tiles Htiles).
  - intros a Hno. apply apply_elsewhere; [done|]. intros [p f] Hp. apply Hno, Hin. eauto.
Qed.

(** The interrupt words and the handlers in particular. *)
Lemma apply_state_interrupts tiles s st q :
  tiles_ok tiles → pin_ok q →
  irq_handlers (apply_state tiles s st).2 = irq_handlers s ∧
  word tiles (apply_state tiles s st).2 q INTERRUPT_CONFIG = word tiles s q INTERRUPT_CONFIG.
Proof.
  intros Htiles Hq. pose proof (apply_state_spec tiles s st Htiles) as H.
  destruct (apply_state tiles s st) as [[n|e|] s']; [|by destruct H as [_ ->]|done].
  destruct H as (_ & _ & Hh & Hw & _). split; [done|]. apply Hw; [done..|]. right. by left.
Qed.

(** C35: Applying a pin configuration is all or nothing.  It answers what
    validation answers.  A refusal changes no register.  Acceptance leaves every
    named GPIO with the function, pull, drive strength, direction and level asked
    for, and the other bits of its configuration word as they were (the level too
    when none is asked for); every named SDC pad with its pull and strength, and
    all bits of the two pad registers outside the fields asked for of the named
    pads as they were; the handlers, the interrupt words of all pins, and every
    register that is not the configuration or level word of a named GPIO or the
    word of a named pad do not change. *)
Theorem pin_configuration_atomic (tiles : list Z) (s : Sc7180Tlmm) (st : PinctrlState) (Htiles : tiles_ok tiles) :
  match apply_state tiles s st with
  | (Ok n, s') =>
      validate_pinctrl_state st = Ok () ∧ n = len (pins st) ∧ irq_handlers s' = irq_handlers s ∧
      (∀ q o, pin_ok q → offset_ok o → ¬ names_pin st (Gpio q) ∨ o ∈ [INTERRUPT_CONFIG; INTERRUPT_STATUS] →
         word tiles s' q o = word tiles s q o) ∧
      (∀ q, names_pin st (Gpio q) → ∃ f, pin_function (Gpio q) (function st) = Ok f ∧
         gpio_fields st (drive_code st) f (word tiles s' q CONFIG) (word tiles s' q INPUT_OUTPUT) ∧
         ∀ m, untouched st (drive_code st) f m → word tiles s' q CONFIG .& m = word tiles s q CONFIG .& m) ∧
      (∀ p, names_pin st (Sdc1 p) → sdc_fields st (drive_code st) p (sdc_word tiles s' SDC1_CONFIG)) ∧
      (∀ p, names_pin st (Sdc2 p) → sdc_fields st (drive_code st) p (sdc_word tiles s' SDC2_CONFIG)) ∧
      (∀ m, 0 ≤ m ≤ U32_MAX →
         ((∀ p, names_pin st (Sdc1 p) → untouched_sdc st (drive_code st) p m) →
          sdc_word tiles s' SDC1_CONFIG .& m = sdc_word tiles s SDC1_CONFIG .& m) ∧
         ((∀ p, names_pin st (Sdc2 p) → untouched_sdc st (drive_code st) p m) →
          sdc_word tiles s' SDC2_CONFIG .& m = sdc_word tiles s SDC2_CONFIG .& m)) ∧
      (output st = None → ∀ q, pin_ok q → word tiles s' q INPUT_OUTPUT = word tiles s q INPUT_OUTPUT) ∧
      (∀ a, (∀ p, names_pin st p → ¬ pin_register tiles p a) → registers s' a = registers s a)
  | (Err e, s') => validate_pinctrl_state st = Err e ∧ s' = s
  | (Panic, _) => False
  end.
Proof. exact (apply_state_spec tiles s st Htiles). Qed.
End PinctrlFacts.

(** * The GPIO controller: interrupt lines

    What each operation does to the line of a pin: its registration and its
    interrupt-configuration word.  No operation touches the line of another pin. *)

Module TlmmIrqFacts.
Import Tlmm TlmmFacts PinctrlFacts.

Definition IRQ_FIELDS : Z :=
  INTERRUPT_DETECT_MASK .| INTERRUPT_POLARITY_HIGH .| INTERRUPT_TARGET_MASK
  .| INTERRUPT_RAW_STATUS_ENABLE .| INTERRUPT_ENABLE.

(** The line raises the summary interrupt, on its trigger; or it does not. *)
Definition armed (t : GpioIrqTrigger) (config : Z) : Prop :=
  config .& IRQ_FIELDS = trigger_bits t .| INTERRUPT_TARGET_KPSS .| IRQ_MASK.
Definition masked (config : Z) : Prop := config .& INTERRUPT_ENABLE = 0.

Lemma armed_not_masked t config : armed t config → ¬ masked config.
Proof.
  unfold armed, masked. intros Ha Hm.
  apply (f_equal (λ x, x .& INTERRUPT_ENABLE)) in Ha. rewrite <-Z.land_assoc in Ha.
  change (IRQ_FIELDS .& INTERRUPT_ENABLE) with INTERRUPT_ENABLE in Ha. rewrite Hm in Ha.
  by destruct t.
Qed.

Section Facts.
Context (tiles : list Z) (Htiles : tiles_ok tiles).

Definition config (s : Sc7180Tlmm) (pin : Z) : Z := word tiles s pin INTERRUPT_CONFIG.
Definition slot (s : Sc7180Tlmm) (pin : Z) : option GpioIrqSlot := irq_handlers s !! Z.to_nat pin.

(** The line of [q] did not change. *)
Definition same_line (s s' : Sc7180Tlmm) (q : Z) : Prop := slot s' q = slot s q ∧ config s' q = config s q.

Lemma same_line_refl s q : same_line s s q.
Proof. done. Qed.
Lemma same_line_trans s1 s2 s3 q : same_line s1 s2 q → same_line s2 s3 q → same_line s1 s3 q.
Proof. intros [??] [??]. split; congruence. Qed.

Definition same_table (s s' : Sc7180Tlmm) : Prop := length (irq_handlers s') = length (irq_handlers s).

(** An operation on the register words of [pin] leaves registrations alone. *)
Lemma config_update s pin c e q :
  0 ≤ pin → pin_ok q →
  config (update tiles s pin INTERRUPT_CONFIG c e) q =
  if q =? pin then updated_register_value (config s q) c e else config s q.
Proof.
  intros Hpin Hq. unfold config. destruct (Z.le_gt_cases PIN_COUNT pin).
  - rewrite update_None by done. rewrite (proj2 (Z.eqb_neq _ _)); [done|]. unfold pin_ok in Hq. lia.
  - rewrite (update_word tiles Htiles) by done. destruct (Z.eqb_spec q pin) as [->|]; done.
Qed.

Lemma config_update_other s pin o c e q :
  0 ≤ pin → pin_ok q → offset_ok o → o ≠ INTERRUPT_CONFIG → config (update tiles s pin o c e) q = config s q.
Proof. intros. unfold config. apply (update_other tiles Htiles); try done. by right. Qed.

Lemma config_write_other s pin o v q :
  0 ≤ pin → pin_ok q → offset_ok o → o ≠ INTERRUPT_CONFIG → config (write tiles s pin o v).2 q = config s q.
Proof. intros. unfold config. apply (write_other tiles Htiles); try done. by right. Qed.

Lemma ack_line s pin q : 0 ≤ pin → pin_ok q → same_line s (ack_irq tiles s pin) q.
Proof.
  intros Hpin Hq. unfold ack_irq. split; [unfold slot; by rewrite write_handlers|]. by apply config_write_other.
Qed.

Lemma ack_handlers s pin : irq_handlers (ack_irq tiles s pin) = irq_handlers s.
Proof. apply write_handlers. Qed.

Lemma mask_handlers s pin : irq_handlers (mask_irq tiles s pin) = irq_handlers s.
Proof. apply update_handlers. Qed.

Lemma mask_irq_masked v : masked (updated_register_value v IRQ_MASK 0).
Proof. apply (updated_set v IRQ_MASK 0 INTERRUPT_ENABLE). done. Qed.

Lemma mask_line s pin q :
  0 ≤ pin → pin_ok q →
  slot (mask_irq tiles s pin) q = slot s q ∧
  (if q =? pin then masked (config (mask_irq tiles s pin) q) else config (mask_irq tiles s pin) q = config s q).
Proof.
  intros Hpin Hq. split; [unfold slot; by rewrite mask_handlers|].
  unfold mask_irq. rewrite config_update by done. destruct (q =? pin); [apply mask_irq_masked|done].
Qed.

Lemma delivery_mask_line s pin t q :
  0 ≤ pin → pin_ok q →
  slot (mask_irq_for_delivery tiles s pin t) q = slot s q ∧
  (if q =? pin then masked (config (mask_irq_for_delivery tiles s pin t) q)
   else config (mask_irq_for_delivery tiles s pin t) q = config s q).
Proof.
  intros Hpin Hq. split; [unfold slot, mask_irq_for_delivery; by rewrite update_handlers|].
  unfold mask_irq_for_delivery. rewrite config_update by done. destruct (q =? pin); [|done].
  destruct t; by apply (updated_set _ _ 0 INTERRUPT_ENABLE).
Qed.

Lemma configure_handlers s pin t e : irq_handlers (configure_irq tiles s pin t e) = irq_handlers s.
Proof. apply update_handlers. Qed.

Lemma configure_line s pin t q :
  0 ≤ pin → pin_ok q →
  slot (configure_irq tiles s pin t true) q = slot s q ∧
  (if q =? pin then armed t (config (configure_irq tiles s pin t true) q)
   else config (configure_irq tiles s pin t true) q = config s q).
Proof.
  intros Hpin Hq. split; [unfold slot; by rewrite configure_handlers|].
  unfold configure_irq. rewrite config_update by done. destruct (q =? pin); [|done].
  unfold armed. rewrite updated_set by done. by destruct t.
Qed.

Lemma configure_gpio_line s pin output q :
  0 ≤ pin → pin_ok q → same_line s (configure_gpio tiles s pin output) q.
Proof.
  intros Hpin Hq. unfold configure_gpio. split; [unfold slot; by rewrite update_handlers|].
  by apply config_update_other.
Qed.

(** ** Registrations *)

Lemma slot_insert s pin sl q :
  0 ≤ pin → pin_ok q → slot s pin ≠ None →
  slot (with_handlers s (<[Z.to_nat pin := sl]> (irq_handlers s))) q =
  if q =? pin then Some sl else slot s q.
Proof.
  intros Hpin Hq Hs. unfold slot, with_handlers in *. simpl.
  destruct (Z.eqb_spec q pin) as [->|Hne].
  - apply list_lookup_insert_eq. destruct (irq_handlers s !! Z.to_nat pin) eqn:E; [|done].
    by apply lookup_lt_Some in E.
  - apply list_lookup_insert_ne. unfold pin_ok in Hq. lia.
Qed.

Lemma config_with_handlers s l q : config (with_handlers s l) q = config s q.
Proof. done. Qed.

Lemma enable_line s pin t q :
  0 ≤ pin → pin_ok q →
  match slot s pin with
  | Some (mk_slot g e (Some h)) =>
      if q =? pin then
        slot (enable_irq tiles s pin t) q =
          Some (mk_slot (next_generation g) true (Some (mk_handler t (h_device h)))) ∧
        armed t (config (enable_irq tiles s pin t) q)
      else same_line s (enable_irq tiles s pin t) q
  | _ => enable_irq tiles s pin t = s
  end.
Proof.
  intros Hpin Hq. destruct (slot s pin) as [[g e [h|]]|] eqn:E; unfold slot in E;
    unfold enable_irq; rewrite E; [|done..].
  set (s1 := with_handlers s _).
  destruct (configure_line (ack_irq tiles s1 pin) pin t q Hpin Hq) as [Hslot Hconf].
  destruct (ack_line s1 pin q Hpin Hq) as [Hslot1 Hconf1].
  assert (slot s1 q = if q =? pin then Some (mk_slot (next_generation g) true (Some (mk_handler t (h_device h))))
                      else slot s q) as Hs1.
  { apply slot_insert; [done..|]. unfold slot. congruence. }
  destruct (q =? pin); [split; [congruence|done]|]. split; [congruence|].
  rewrite Hconf, Hconf1. apply config_with_handlers.
Qed.

Lemma disable_line s pin q :
  0 ≤ pin → pin_ok q →
  match slot s pin with
  | Some (mk_slot g e h) =>
      if q =? pin then
        slot (disable_irq tiles s pin) q = Some (mk_slot (next_generation g) false h) ∧
        masked (config (disable_irq tiles s pin) q)
      else same_line s (disable_irq tiles s pin) q
  | None => disable_irq tiles s pin = s
  end.
Proof.
  intros Hpin Hq. destruct (slot s pin) as [[g e h]|] eqn:E; unfold slot in E;
    unfold disable_irq; rewrite E; [|done].
  set (s1 := with_handlers s _).
  destruct (mask_line s1 pin q Hpin Hq) as [Hslot Hconf].
  assert (slot s1 q = if q =? pin then Some (mk_slot (next_generation g) false h) else slot s q) as Hs1.
  { apply slot_insert; [done..|]. unfold slot. congruence. }
  destruct (q =? pin); [split; [congruence|done]|]. split; [congruence|].
  rewrite Hconf. apply config_with_handlers.
Qed.

Lemma free_line s pin q :
  0 ≤ pin → pin_ok q →
  match slot s pin with
  | Some (mk_slot g e h) =>
      if q =? pin then
        slot (free_irq tiles s pin) q = Some (mk_slot (next_generation g) false None) ∧
        masked (config (free_irq tiles s pin) q)
      else same_line s (free_irq tiles s pin) q
  | None => free_irq tiles s pin = s
  end.
Proof.
  intros Hpin Hq. destruct (slot s pin) as [[g e h]|] eqn:E; unfold slot in E;
    unfold free_irq; rewrite E; [|done].
  destruct (mask_line s pin q Hpin Hq) as [Hslot Hconf].
  destruct (ack_line (mask_irq tiles s pin) pin q Hpin Hq) as [Hslot1 Hconf1].
  set (s1 := ack_irq tiles (mask_irq tiles s pin) pin) in *.
  assert (slot (with_handlers s1 (<[Z.to_nat pin := mk_slot (next_generation g) false None]> (irq_handlers s1))) q
          = if q =? pin then Some (mk_slot (next_generation g) false None) else slot s1 q) as Hs1.
  { apply slot_insert; [done..|]. unfold slot, s1. rewrite ack_handlers, mask_handlers. congruence. }
  destruct (q =? pin); [split; [done|]|split; [congruence|]]; rewrite config_with_handlers, Hconf1; done.
Qed.

Lemma request_line s pin t device q :
  0 ≤ pin → pin_ok q →
  match slot s pin with
  | Some (mk_slot g e None) =>
      (request_irq tiles s pin t device).1 = true ∧
      if q =? pin then
        slot (request_irq tiles s pin t device).2 q =
          Some (mk_slot (next_generation g) true (Some (mk_handler t device))) ∧
        armed t (config (request_irq tiles s pin t device).2 q)
      else same_line s (request_irq tiles s pin t device).2 q
  | _ => request_irq tiles s pin t device = (false, s)
  end.
Proof.
  intros Hpin Hq. destruct (slot s pin) as [[g e [h|]]|] eqn:E; unfold slot in E;
    unfold request_irq; rewrite E; [done| |done].
  split; [done|]. cbn [snd].
  set (s1 := ack_irq tiles _ pin). set (s2 := with_handlers s1 _).
  assert (irq_handlers s1 = irq_handlers s) as Hh.
  { unfold s1. rewrite ack_handlers, mask_handlers. apply update_handlers. }
  assert (slot s2 q = if q =? pin then Some (mk_slot (next_generation g) true (Some (mk_handler t device)))
                      else slot s1 q) as Hs2.
  { apply slot_insert; [done..|]. unfold slot. congruence. }
  destruct (configure_line s2 pin t q Hpin Hq) as [Hslot Hconf].
  destruct (Z.eqb_spec q pin) as [->|Hne]; [split; [congruence|done]|].
  split; [rewrite Hslot, Hs2; unfold slot; by rewrite Hh|].
  rewrite Hconf. unfold s2. rewrite config_with_handlers. unfold s1.
  rewrite (proj2 (ack_line _ pin q Hpin Hq)).
  pose proof (proj2 (mask_line (configure_gpio tiles s pin false) pin q Hpin Hq)) as Hm.
  apply Z.eqb_neq in Hne. rewrite Hne in Hm. rewrite Hm.
  by apply configure_gpio_line.
Qed.

(** ** Delivery *)

Lemma snapshot_pin_handlers acc p : irq_handlers (snapshot_pin tiles acc p).1.1 = irq_handlers acc.1.1.
Proof.
  destruct acc as [[s pending] stale]. unfold snapshot_pin. case_match; [done|].
  destruct (if enabled p.2 then handler p.2 else None); simpl.
  - rewrite ack_handlers. apply update_handlers.
  - by rewrite ack_handlers, mask_handlers.
Qed.

Lemma snapshot_handlers_of acc l : irq_handlers (foldl (snapshot_pin tiles) acc l).1.1 = irq_handlers acc.1.1.
Proof.
  revert acc. induction l as [|p l IH]; intros acc; simpl; [done|]. by rewrite IH, snapshot_pin_handlers.
Qed.

(** The line of a pin is left alone, or masked; a pin with an enabled handler is
    masked only together with a delivery for its registration. *)
Definition snapped (sl : option GpioIrqSlot) (q before after : Z) (new : list PendingGpioIrq) : Prop :=
  after = before ∨
  masked after ∧ ∀ g h, sl = Some (mk_slot g true (Some h)) →
    mk_pending q g (h_trigger h) (h_device h) ∈ new.

Lemma snapshot_pin_spec acc p sl q :
  Z.of_nat p < PIN_COUNT → pin_ok q →
  let '(s, pending, stale) := acc in
  let '(s', pending', stale') := snapshot_pin tiles acc (p, sl) in
  ∃ new, pending' = pending ++ new ∧
    (∀ irq, irq ∈ new → p_pin irq = Z.of_nat p ∧ slot_matches sl irq = true) ∧
    (q ≠ Z.of_nat p → config s' q = config s q) ∧
    (q = Z.of_nat p → snapped (Some sl) q (config s q) (config s' q) new).
Proof.
  intros Hp Hq. destruct acc as [[s pending] stale]. unfold snapshot_pin. cbn [fst snd].
  assert (0 ≤ Z.of_nat p) as Hp0 by lia.
  destruct (negb (pin_pending tiles s (Z.of_nat p))).
  { exists []. rewrite app_nil_r. split_and!; [done| |done|by left]. intros irq. by rewrite elem_of_nil. }
  destruct sl as [g [] h]; cbn [enabled handler generation]; [destruct h as [h|]|].
  - exists [mk_pending (Z.of_nat p) g (h_trigger h) (h_device h)].
    destruct (ack_line (mask_irq_for_delivery tiles s (Z.of_nat p) (h_trigger h)) (Z.of_nat p) q Hp0 Hq) as [_ ->].
    destruct (delivery_mask_line s (Z.of_nat p) (h_trigger h) q Hp0 Hq) as [_ Hm].
    split_and!; [done| | |].
    + intros irq Hirq. apply list_elem_of_singleton in Hirq as ->. split; [done|].
      unfold slot_matches. simpl. by rewrite Z.eqb_refl, bool_decide_true, Z.eqb_refl by done.
    + intros Hne. by apply Z.eqb_neq in Hne; rewrite Hne in Hm.
    + intros ->. rewrite Z.eqb_refl in Hm. right. split; [done|]. intros g' h' [= <- <-].
      by apply list_elem_of_singleton.
  - exists []. rewrite app_nil_r. split_and!; [done|intros irq; by rewrite elem_of_nil| |];
      rewrite (proj2 (ack_line _ _ _ Hp0 Hq)); destruct (mask_line s (Z.of_nat p) q Hp0 Hq) as [_ Hm].
    + intros Hne. by apply Z.eqb_neq in Hne; rewrite Hne in Hm.
    + intros ->. rewrite Z.eqb_refl in Hm. right. split; [done|]. intros ?? [=].
  - exists []. rewrite app_nil_r. split_and!; [done|intros irq; by rewrite elem_of_nil| |];
      rewrite (proj2 (ack_line _ _ _ Hp0 Hq)); destruct (mask_line s (Z.of_nat p) q Hp0 Hq) as [_ Hm].
    + intros Hne. by apply Z.eqb_neq in Hne; rewrite Hne in Hm.
    + intros ->. rewrite Z.eqb_refl in Hm. right. split; [done|]. intros ?? [=].
Qed.

#[local] Arguments snapshot_pin : simpl never.

Lemma snapshot_fold l from acc q :
  Z.of_nat (from + length l) ≤ PIN_COUNT → pin_ok q →
  let '(s, pending, _) := acc in
  let '(s', pending', _) := foldl (snapshot_pin tiles) acc (zip (seq from (length l)) l) in
  ∃ new, pending' = pending ++ new ∧
    (∀ irq, irq ∈ new → ∃ i sl, l !! i = Some sl ∧ p_pin irq = Z.of_nat (from + i) ∧ slot_matches sl irq = true) ∧
    (Z.of_nat from ≤ q → snapped (l !! (Z.to_nat q - from)%nat) q (config s q) (config s' q) new) ∧
    (q < Z.of_nat from → config s' q = config s q).
Proof.
  revert from acc. induction l as [|sl l IH]; intros from [[s pending] stale] Hlen Hq; simpl.
  { exists []. rewrite app_nil_r. split_and!; [done| |by left|done]. intros irq. by rewrite elem_of_nil. }
  simpl in Hlen.
  pose proof (snapshot_pin_spec (s, pending, stale) from sl q ltac:(lia) Hq) as Hstep. simpl in Hstep.
  destruct (snapshot_pin tiles (s, pending, stale) (from, sl)) as [[s1 pending1] stale1] eqn:E1.
  destruct Hstep as (new1 & -> & Hnew1 & Hother & Hown).
  specialize (IH (S from) (s1, pending ++ new1, stale1) ltac:(lia) Hq). simpl in IH.
  destruct (foldl _ _ _) as [[s2 pending2] stale2].
  destruct IH as (new2 & -> & Hnew2 & Hge & Hlt).
  exists (new1 ++ new2). split_and!.
  - by rewrite app_assoc.
  - intros irq Hin. apply elem_of_app in Hin as [Hin|Hin].
    + destruct (Hnew1 _ Hin) as [Hp Hm]. exists O, sl. split_and!; [done| |done]. rewrite Hp. lia.
    + destruct (Hnew2 _ Hin) as (i & sl' & Hl & Hp & Hm). exists (S i), sl'. split_and!; [done| |done].
      rewrite Hp. lia.
  - intros Hfrom. destruct (decide (q = Z.of_nat from)) as [->|Hne].
    + rewrite Nat2Z.id, Nat.sub_diag. simpl. rewrite Hlt by lia. destruct (Hown eq_refl) as [|[Hm Hin]]; [by left|].
      right. split; [done|]. intros g h Hsl. apply elem_of_app. left. by apply Hin.
    + rewrite <-(Hother Hne). replace (Z.to_nat q - from)%nat with (S (Z.to_nat q - S from)) by lia. simpl.
      destruct (Hge ltac:(lia)) as [|[Hm Hin]]; [by left|]. right. split; [done|].
      intros g h Hsl. apply elem_of_app. right. by apply Hin.
  - intros Hfrom. rewrite Hlt by lia. apply Hother. lia.
Qed.

Lemma snapshot_line s q :
  length (irq_handlers s) = Z.to_nat PIN_COUNT → pin_ok q →
  let '(s', new, _) := snapshot tiles s in
  irq_handlers s' = irq_handlers s ∧ snapped (slot s q) q (config s q) (config s' q) new ∧
  ∀ irq, irq ∈ new → pin_ok (p_pin irq) ∧ ∃ sl, slot s (p_pin irq) = Some sl ∧ slot_matches sl irq = true.
Proof.
  intros Hlen Hq. pose proof (snapshot_fold (irq_handlers s) 0 (s, [], false) q) as H. simpl in H.
  pose proof (snapshot_handlers_of (s, [], false) (zip (seq 0 (length (irq_handlers s))) (irq_handlers s))) as Hh.
  unfold snapshot. destruct (foldl _ _ _) as [[s' new] stale]. simpl in Hh.
  destruct H as (new' & -> & Hnew & Hge & _); [rewrite Hlen; done|done|].
  split_and!; [done| |].
  - unfold pin_ok in Hq. specialize (Hge ltac:(lia)). by rewrite Nat.sub_0_r in Hge.
  - intros irq Hin. destruct (Hnew _ Hin) as (i & sl & Hl & Hp & Hm).
    assert (i < length (irq_handlers s))%nat by (by eapply lookup_lt_Some).
    rewrite Hp. split; [unfold pin_ok, PIN_COUNT in *; lia|]. exists sl. split; [|done].
    unfold slot. rewrite Nat2Z.id. done.
Qed.

Lemma finish_line s irq claim q :
  0 ≤ p_pin irq → pin_ok q →
  irq_handlers (finish_delivery tiles s irq claim) = irq_handlers s ∧
  (config (finish_delivery tiles s irq claim) q = config s q ∨
   q = p_pin irq ∧ armed (p_trigger irq) (config (finish_delivery tiles s irq claim) q)) ∧
  (reenable claim = true → registration_matches s irq = true → q = p_pin irq →
   armed (p_trigger irq) (config (finish_delivery tiles s irq claim) q)) ∧
  (registration_matches s irq = false → finish_delivery tiles s irq claim = s).
Proof.
  intros Hp Hq. unfold finish_delivery.
  destruct (configure_line s (p_pin irq) (p_trigger irq) q Hp Hq) as [_ Hc].
  destruct (reenable claim), (registration_matches s irq); simpl; split_and!; try done; try (by left).
  - apply configure_handlers.
  - destruct (Z.eqb_spec q (p_pin irq)); [by right|by left].
  - intros _ _ ->. by rewrite Z.eqb_refl in Hc.
Qed.

(** ** What other drivers do to their pins *)

Lemma set_value_line s pin x q : 0 ≤ pin → pin_ok q → same_line s (set_value tiles s pin x) q.
Proof.
  intros Hp Hq. unfold set_value. split; [unfold slot; by rewrite write_handlers|]. by apply config_write_other.
Qed.

Lemma poke_line s a v pin offset q :
  pin_ok pin → pin_ok q → offset_ok offset → offset ≠ INTERRUPT_CONFIG → register tiles pin offset = Some a →
  same_line s (poke s a v) q.
Proof.
  intros Hp Hq Ho Hne Ha. split; [done|]. unfold config. rewrite (word_poke tiles Htiles) by done.
  rewrite bool_decide_false; [done|]. intros H.
  assert (offset_ok INTERRUPT_CONFIG) as Hi by done.
  by destruct (register_inj tiles Htiles _ _ _ _ _ Hq Hi Hp Ho H Ha) as [_ <-].
Qed.

(** ** The probe *)

Lemma quiesce_line s pin q :
  0 ≤ pin → pin_ok q →
  slot (quiesce tiles s pin) q = slot s q ∧
  (if q =? pin then masked (config (quiesce tiles s pin) q) else config (quiesce tiles s pin) q = config s q).
Proof.
  intros Hp Hq. unfold quiesce. destruct (ack_line (mask_irq tiles s pin) pin q Hp Hq) as [-> ->].
  by apply mask_line.
Qed.

Lemma take_ownership_spec regs q :
  pin_ok q →
  irq_handlers (take_ownership tiles (new regs)) = irq_handlers (new regs) ∧
  masked (config (take_ownership tiles (new regs)) q).
Proof.
  intros Hq. unfold take_ownership.
  assert (∀ n s, irq_handlers (foldl (quiesce tiles) s (range (Z.of_nat n))) = irq_handlers s ∧
    (q < Z.of_nat n → masked (config (foldl (quiesce tiles) s (range (Z.of_nat n))) q))) as H.
  { intros n s. induction n as [|n [IH1 IH2]]; [split; [done|]; unfold pin_ok in Hq; lia|].
    rewrite range_S, foldl_app. simpl. set (s1 := foldl _ s _) in *.
    destruct (quiesce_line s1 (Z.of_nat n) q ltac:(lia) Hq) as [_ Hm]. split.
    - unfold quiesce. by rewrite ack_handlers, mask_handlers.
    - intros Hlt. destruct (Z.eqb_spec q (Z.of_nat n)); [done|]. rewrite Hm. apply IH2. lia. }
  change PIN_COUNT with (Z.of_nat 119). destruct (H 119%nat (new regs)) as [H1 H2].
  split; [done|]. apply H2. apply Hq.
Qed.
End Facts.
End TlmmIrqFacts.
