(* ===== verification/EcWorker.v ===== *)
(** * The EC event worker and its interrupt

    The threads around one EC controller, as one system: the worker of
    [event_worker_entry], the interrupt handler below the GPIO controller's
    [service_pending_irqs], probe and removal, the drivers of other pins and the
    hardware.  A label names one atomic step: an access to the flags of the
    controller that the threads race on, one critical section of the GPIO
    controller, or a call of the worker's waker.  The worker serves every EC:
    what it does for the others is in the time that passes, in the timer they may
    ask for, and in the wake-ups they may cause at any moment.  The listeners,
    which removal clears at its end, are not part of it. *)
From S2P Require Import Prelude EcSpi Tlmm.

Module EcWorker.
Import Ec Tlmm.

(** The atomics of one controller. *)
Record Controller := mk_controller {
  active : bool;
  event_work_pending : bool;
  event_drain_errors : Z;
  event_retry_not_before_ns : Z;
}.

Definition set_active (b : bool) (c : Controller) : Controller :=
  mk_controller b (event_work_pending c) (event_drain_errors c) (event_retry_not_before_ns c).
Definition set_pending (b : bool) (c : Controller) : Controller :=
  mk_controller (active c) b (event_drain_errors c) (event_retry_not_before_ns c).
Definition set_errors (n : Z) (c : Controller) : Controller :=
  mk_controller (active c) (event_work_pending c) n (event_retry_not_before_ns c).
Definition set_retry (t : Z) (c : Controller) : Controller :=
  mk_controller (active c) (event_work_pending c) (event_drain_errors c) t.

(** Where an interrupt being delivered is: in the snapshot, in the callback, in
    [handle_interrupt] after its test of [active], after [disable_irq] and before
    [wake_one], or back with a claim. *)
Inductive Phase :=
| Snapped
| Entered
| Checked
| Disabled
| Flagged (claim : option InterruptClaim)
| Returned (claim : option InterruptClaim).

#[export] Instance Phase_eq_dec : EqDecision Phase.
Proof. solve_decision. Defined.

(** The worker: not spawned, at the head of its loop, in [wait_with_timeout] with
    the moment its timer runs out, or in a pass.  There [now] is the time of the
    pass; behind this controller ([Visited]) only its part of [next_wait_ns] is
    left. *)
Inductive Worker :=
| Unstarted
| Ready
| Waiting (deadline : option Z)
| Passing (now : Z)
| SawActive (now : Z)
| Looked (now : Z)
| Taking
| Draining
| Drained
| Failed (error_count : Z)
| Repending (wait : Z)
| Acking
| Enabling
| Visited (next_wait_ns : option Z).

Inductive DrainResult := Complete | More | Error.

Inductive Prober := Absent | Requested | Published | Started | LevelFlagged | Probed.
Inductive Remover := Present | Inactive | Cleared | Rewound | Freed.

(** What the drivers of other pins do. *)
Inductive GpioOp :=
| EnableIrq (pin : Z) (t : GpioIrqTrigger)
| DisableIrq (pin : Z)
| FreeIrq (pin : Z)
| RequestIrq (pin : Z) (t : GpioIrqTrigger) (device : Z)
| AckIrq (pin : Z)
| SetValue (pin : Z) (value : bool)
| SetDirectionOutput (pin : Z) (value : bool)
| SetDirectionInput (pin : Z)
| ApplyState (st : PinctrlState).

Inductive Label :=
| Driver (op : GpioOp)
| Hardware (pin offset value : Z)
| Tick (ns : Z)
| Summary
| Deliver (i : nat)
| HandlerLoad (i : nat) (claim : option InterruptClaim)
| HandlerDisable (i : nat)
| HandlerPend (i : nat) (claim : option InterruptClaim)
| HandlerWake (i : nat)
| OtherReturn (i : nat) (claim : option InterruptClaim)
| Finish (i : nat)
| WorkerStart
| WorkerWait (others : option Z)
| WorkerActive
| WorkerPending
| WorkerRetry
| WorkerTake
| WorkerDrain (r : DrainResult)
| WorkerSettle
| WorkerRepend
| WorkerAck
| WorkerEnable
| Probe
| OtherProbe
| Publish
| EnsureStarted
| ProbeLevel
| ProbeWake
| Remove.

Record System := mk_system {
  gpio : Sc7180Tlmm;
  flights : list (PendingGpioIrq * Phase);
  controller : Controller;
  clock : Z;
  worker : Worker;
  (** The waker holds a wake-up that no wait has returned for. *)
  woken : bool;
  prober : Prober;
  remover : Remover;
}.

Definition set_gpio (g : Sc7180Tlmm) (s : System) : System :=
  mk_system g (flights s) (controller s) (clock s) (worker s) (woken s) (prober s) (remover s).
Definition set_flights (l : list (PendingGpioIrq * Phase)) (s : System) : System :=
  mk_system (gpio s) l (controller s) (clock s) (worker s) (woken s) (prober s) (remover s).
Definition set_controller (c : Controller) (s : System) : System :=
  mk_system (gpio s) (flights s) c (clock s) (worker s) (woken s) (prober s) (remover s).
Definition set_clock (t : Z) (s : System) : System :=
  mk_system (gpio s) (flights s) (controller s) t (worker s) (woken s) (prober s) (remover s).
Definition set_worker (w : Worker) (s : System) : System :=
  mk_system (gpio s) (flights s) (controller s) (clock s) w (woken s) (prober s) (remover s).
Definition set_prober (p : Prober) (s : System) : System :=
  mk_system (gpio s) (flights s) (controller s) (clock s) (worker s) (woken s) p (remover s).
Definition set_remover (r : Remover) (s : System) : System :=
  mk_system (gpio s) (flights s) (controller s) (clock s) (worker s) (woken s) (prober s) r.

Definition set_woken (b : bool) (s : System) : System :=
  mk_system (gpio s) (flights s) (controller s) (clock s) (worker s) b (prober s) (remover s).

Definition published (s : System) : bool :=
  match prober s with Published | Started | LevelFlagged | Probed => true | _ => false end.

Section System.
Variable tiles : list Z.
(** The pin of the EC's interrupt and the identity of its controller. *)
Variables irq_pin ec_device : Z.
(** Whether the kernel's [Waker], which is not part of the repository, keeps a
    wake-up that finds nobody waiting, for the next wait to return at once.  Its
    users say that it does ([venus_worker_entry] relies on it). *)
Variable latches : bool.

(** [EVENT_WORKER_WAKER.wake_one()]. *)
Definition wake_one (s : System) : System :=
  match worker s with
  | Waiting _ => set_woken true s
  | _ => set_woken (woken s || latches) s
  end.

Definition slot_device (g : Sc7180Tlmm) (pin : Z) : option Z :=
  slot ← irq_handlers g !! Z.to_nat pin; h ← handler slot; Some (h_device h).

(** A driver only touches the interrupt of a pin it may own: one the EC does not
    hold; it registers itself. *)
Definition driver_op (op : GpioOp) (g : Sc7180Tlmm) : option Sc7180Tlmm :=
  let foreign pin := (0 <=? pin) && negb (bool_decide (slot_device g pin = Some ec_device)) in
  match op with
  | EnableIrq pin t => if foreign pin then Some (enable_irq tiles g pin t) else None
  | DisableIrq pin => if foreign pin then Some (disable_irq tiles g pin) else None
  | FreeIrq pin => if foreign pin then Some (free_irq tiles g pin) else None
  | RequestIrq pin t device =>
      if (0 <=? pin) && negb (device =? ec_device) then Some (request_irq tiles g pin t device).2 else None
  | AckIrq pin => if 0 <=? pin then Some (ack_irq tiles g pin) else None
  | SetValue pin v => if 0 <=? pin then Some (set_value tiles g pin v) else None
  | SetDirectionOutput pin v => if 0 <=? pin then Some (set_direction_output tiles g pin v) else None
  | SetDirectionInput pin => if 0 <=? pin then Some (set_direction_input tiles g pin) else None
  | ApplyState st => Some (apply_state tiles g st).2
  end.

(** A status or level bit changes. *)
Definition hardware (pin offset value : Z) (g : Sc7180Tlmm) : option Sc7180Tlmm :=
  if (0 <=? pin) && (pin <? PIN_COUNT) && ((offset =? INPUT_OUTPUT) || (offset =? INTERRUPT_STATUS)) then
    match register tiles pin offset with Some address => Some (poke g address value) | None => None end
  else None.

(** The step of a delivery. *)
Definition flight (s : System) (i : nat)
    (f : PendingGpioIrq → Phase → option (option Phase * System)) : option System :=
  match flights s !! i with
  | Some (irq, phase) =>
      match f irq phase with
      | Some (Some phase', s') => Some (set_flights (<[i := (irq, phase')]> (flights s)) s')
      | Some (None, s') => Some (set_flights (delete i (flights s)) s')
      | None => None
      end
  | None => None
  end.

Definition deliver (s : System) (irq : PendingGpioIrq) (phase : Phase) : option (option Phase * System) :=
  match phase with
  | Snapped => Some (if registration_matches (gpio s) irq then Some Entered else None, s)
  | _ => None
  end.

(** [handle_interrupt] of the EC, below the default [claim_interrupt]. *)
Definition handler_load (claim : option InterruptClaim) (s : System) (irq : PendingGpioIrq) (phase : Phase) :
    option (option Phase * System) :=
  match phase with
  | Entered =>
      if p_device irq =? ec_device
      then Some (Some (if active (controller s) then Checked else Returned claim), s) else None
  | _ => None
  end.

Definition handler_disable (s : System) (irq : PendingGpioIrq) (phase : Phase) :
    option (option Phase * System) :=
  match phase with
  | Checked => Some (Some Disabled, set_gpio (disable_irq tiles (gpio s) irq_pin) s)
  | _ => None
  end.

Definition handler_pend (claim : option InterruptClaim) (s : System) (irq : PendingGpioIrq) (phase : Phase) :
    option (option Phase * System) :=
  match phase with
  | Disabled =>
      Some (Some (if event_work_pending (controller s) then Returned claim else Flagged claim),
            set_controller (set_pending true (controller s)) s)
  | _ => None
  end.

Definition handler_wake (s : System) (irq : PendingGpioIrq) (phase : Phase) :
    option (option Phase * System) :=
  match phase with
  | Flagged claim => Some (Some (Returned claim), wake_one s)
  | _ => None
  end.

Definition other_return (claim : option InterruptClaim) (s : System) (irq : PendingGpioIrq) (phase : Phase) :
    option (option Phase * System) :=
  match phase with
  | Entered => if p_device irq =? ec_device then None else Some (Some (Returned claim), s)
  | _ => None
  end.

Definition finish (s : System) (irq : PendingGpioIrq) (phase : Phase) : option (option Phase * System) :=
  match phase with
  | Returned claim => Some (None, set_gpio (finish_delivery tiles (gpio s) irq claim) s)
  | _ => None
  end.

(** The head of the loop of [event_worker_entry], which a wait reaches for a
    wake-up, for its timer or unprompted. *)
Definition worker_start (s : System) : option System :=
  match worker s with
  | Ready | Waiting _ =>
      Some (set_woken false (set_worker (if published s then Passing (clock s) else Visited None) s))
  | _ => None
  end.

(** The pass over this controller. *)
Definition worker_active (s : System) : option System :=
  match worker s with
  | Passing now => Some (set_worker (if active (controller s) then SawActive now else Visited None) s)
  | _ => None
  end.

Definition worker_pending (s : System) : option System :=
  match worker s with
  | SawActive now => Some (set_worker (if event_work_pending (controller s) then Looked now else Visited None) s)
  | _ => None
  end.

Definition worker_retry (s : System) : option System :=
  match worker s with
  | Looked now =>
      let retry_not_before_ns := event_retry_not_before_ns (controller s) in
      Some (set_worker (if now <? retry_not_before_ns then Visited (Some (retry_not_before_ns - now)) else Taking) s)
  | _ => None
  end.

Definition worker_take (s : System) : option System :=
  match worker s with
  | Taking =>
      Some (if event_work_pending (controller s)
            then set_worker Draining (set_controller (set_pending false (controller s)) s)
            else set_worker (Visited None) s)
  | _ => None
  end.

(** [next_wait_ns.map_or(wait, |next| next.min(wait))]. *)
Definition sooner (a b : option Z) : option Z :=
  match a, b with
  | Some x, Some y => Some (Z.min x y)
  | Some x, None | None, Some x => Some x
  | None, None => None
  end.

(** [wait_with_timeout], with what the other controllers ask for. *)
Definition worker_wait (others : option Z) (s : System) : option System :=
  match worker s with
  | Visited next_wait_ns =>
      if from_option (Z.leb 0) true others
      then Some (set_worker (Waiting (Z.add (clock s) <$> sooner next_wait_ns others)) s) else None
  | _ => None
  end.

Definition worker_drain (r : DrainResult) (s : System) : option System :=
  match worker s with
  | Draining =>
      Some
        match r with
        | Complete => set_worker Drained (set_controller (set_retry 0 (set_errors 0 (controller s))) s)
        | More => set_worker (Repending 1000000) (set_controller (set_retry 0 (set_errors 0 (controller s))) s)
        | Error =>
            let count := event_drain_errors (controller s) + 1 in
            set_worker (Failed count) (set_controller (set_errors (count mod 2 ^ 64) (controller s)) s)
        end
  | _ => None
  end.

Definition worker_settle (s : System) : option System :=
  match worker s with
  | Drained => Some (set_worker (if active (controller s) then Acking else Visited None) s)
  | Failed count =>
      let retry_delay_ns := event_retry_delay_ns count in
      Some (if active (controller s)
            then set_worker (Repending retry_delay_ns)
                   (set_controller (set_retry (saturating_add U64_MAX (clock s) retry_delay_ns) (controller s)) s)
            else set_worker (Visited None) s)
  | _ => None
  end.

Definition worker_repend (s : System) : option System :=
  match worker s with
  | Repending wait =>
      Some (set_worker (Visited (Some wait)) (set_controller (set_pending true (controller s)) s))
  | _ => None
  end.

(** [finish_event_drain], once the controller was active. *)
Definition worker_ack (s : System) : option System :=
  match worker s with
  | Acking => Some (set_worker Enabling (set_gpio (ack_irq tiles (gpio s) irq_pin) s))
  | _ => None
  end.
Definition worker_enable (s : System) : option System :=
  match worker s with
  | Enabling => Some (set_worker (Visited None) (set_gpio (enable_irq tiles (gpio s) irq_pin LowLevel) s))
  | _ => None
  end.

Definition probe (s : System) : option System :=
  match prober s with
  | Absent =>
      let '(ok, g) := request_irq tiles (set_direction_input tiles (gpio s) irq_pin) irq_pin LowLevel ec_device in
      Some (set_prober (if ok then Requested else Absent) (set_gpio g s))
  | _ => None
  end.

(** [ensure_event_worker_started]. *)
Definition ensure_event_worker_started (s : System) : System :=
  match worker s with Unstarted => set_worker Ready s | _ => s end.

(** The line is low when the controller is published. *)
Definition probe_level (s : System) : option System :=
  match prober s with
  | Started =>
      Some (if get_value tiles (gpio s) irq_pin then set_prober Probed s
            else set_prober LevelFlagged (set_controller (set_pending true (controller s)) s))
  | _ => None
  end.

Definition probe_wake (s : System) : option System :=
  match prober s with LevelFlagged => Some (set_prober Probed (wake_one s)) | _ => None end.

(** [remove_fn], store by store; its [wake_one] at the end is one of the
    unprompted ones. *)
Definition remove_step (s : System) : option System :=
  match remover s with
  | Present =>
      if published s then Some (set_remover Inactive (set_controller (set_active false (controller s)) s)) else None
  | Inactive => Some (set_remover Cleared (set_controller (set_pending false (controller s)) s))
  | Cleared => Some (set_remover Rewound (set_controller (set_retry 0 (controller s)) s))
  | Rewound => Some (set_remover Freed (set_gpio (free_irq tiles (gpio s) irq_pin) s))
  | Freed => None
  end.

Definition step (s : System) (l : Label) : option System :=
  match l with
  | Driver op => g ← driver_op op (gpio s); Some (set_gpio g s)
  | Hardware pin offset value => g ← hardware pin offset value (gpio s); Some (set_gpio g s)
  | Tick ns => if 0 <=? ns then Some (set_clock (clock s + ns) s) else None
  | Summary =>
      let '(g, new, _) := snapshot tiles (gpio s) in
      Some (set_flights (flights s ++ ((λ irq, (irq, Snapped)) <$> new)) (set_gpio g s))
  | Deliver i => flight s i (deliver s)
  | HandlerLoad i claim => flight s i (handler_load claim s)
  | HandlerDisable i => flight s i (handler_disable s)
  | HandlerPend i claim => flight s i (handler_pend claim s)
  | OtherReturn i claim => flight s i (other_return claim s)
  | Finish i => flight s i (finish s)
  | HandlerWake i => flight s i (handler_wake s)
  | WorkerStart => worker_start s
  | WorkerWait others => worker_wait others s
  | WorkerActive => worker_active s
  | WorkerPending => worker_pending s
  | WorkerRetry => worker_retry s
  | WorkerTake => worker_take s
  | WorkerDrain r => worker_drain r s
  | WorkerSettle => worker_settle s
  | WorkerRepend => worker_repend s
  | WorkerAck => worker_ack s
  | WorkerEnable => worker_enable s
  | Probe => probe s
  | OtherProbe => Some (ensure_event_worker_started s)
  | Publish =>
      match prober s with Requested => Some (set_prober Published s) | _ => None end
  | EnsureStarted =>
      match prober s with Published => Some (set_prober Started (ensure_event_worker_started s)) | _ => None end
  | ProbeLevel => probe_level s
  | ProbeWake => probe_wake s
  | Remove => remove_step s
  end.

(** The GPIO controller has taken its pins from the firmware; the EC is not
    probed yet. *)
Definition initial (regs : Z → Z) : System :=
  mk_system (take_ownership tiles (new regs)) [] (mk_controller true false 0 0) 0 Unstarted false Absent Present.

Definition run (s : System) (ls : list Label) : option System :=
  foldl (λ s l, s ≫= λ s, step s l) (Some s) ls.
End System.
End EcWorker.
