(* ===== verification/EcWorkerFacts.v ===== *)
(** * No event of the EC is lost

    In every interleaving of worker, interrupts, removal, other drivers and
    hardware: while the controller is active its interrupt line is armed, or a
    delivery, a pending flag or the worker stands for the event; behind a pending
    flag stands a visit of the worker, its timer or a wake-up; and a pass that
    begins eight seconds after the flag, or later, takes the event. *)
From S2P Require Import Prelude EcSpi EcFacts Tlmm TlmmFacts EcWorker.

Module EcWorkerFacts.
Import Ec EcFacts Tlmm TlmmFacts PinctrlFacts TlmmIrqFacts EcWorker.

Section Facts.
Context (tiles : list Z) (irq_pin ec_device : Z) (latches : bool) (Htiles : tiles_ok tiles) (Hpin : pin_ok irq_pin).

Notation config := (config tiles).
Notation slot := TlmmIrqFacts.slot.
Notation same_line := (same_line tiles).

(** A pin without an enabled handler never raises the interrupt. *)
Definition quiet_lines (g : Sc7180Tlmm) : Prop :=
  ∀ q sl, pin_ok q → slot g q = Some sl → enabled sl = false ∨ handler sl = None → masked (config g q).

Definition table_ok (g : Sc7180Tlmm) : Prop := length (irq_handlers g) = Z.to_nat PIN_COUNT.

Lemma slot_Some g q : table_ok g → pin_ok q → ∃ sl, slot g q = Some sl.
Proof.
  intros Ht Hq. destruct (lookup_lt_is_Some_2 (irq_handlers g) (Z.to_nat q)) as [sl Hsl]; [|by exists sl].
  unfold table_ok, pin_ok in *. lia.
Qed.

(** ** The operations, from the point of view of all lines *)

Record op_ok (g g' : Sc7180Tlmm) : Prop := {
  oo_table : table_ok g → table_ok g';
  oo_quiet : table_ok g → quiet_lines g → quiet_lines g';
}.

Lemma op_ok_refl g : op_ok g g.
Proof. done. Qed.

Lemma op_ok_trans g1 g2 g3 : op_ok g1 g2 → op_ok g2 g3 → op_ok g1 g3.
Proof. intros [] []. split; eauto. Qed.

(** Registers of other kinds. *)
Lemma op_ok_same g g' :
  irq_handlers g' = irq_handlers g → (∀ q, pin_ok q → config g' q = config g q) → op_ok g g'.
Proof.
  intros Hh Hc. split.
  - unfold table_ok. by rewrite Hh.
  - intros _ HQ q sl Hq Hsl Hor. rewrite Hc by done. apply (HQ q sl Hq); [|done]. unfold slot in *. by rewrite <-Hh.
Qed.

(** The line of one pin changes. *)
Lemma op_ok_line g g' pin :
  length (irq_handlers g') = length (irq_handlers g) →
  (∀ q, pin_ok q → q ≠ pin → same_line g g' q) →
  (pin_ok pin → ∀ sl, slot g' pin = Some sl → enabled sl = false ∨ handler sl = None → masked (config g' pin)) →
  op_ok g g'.
Proof.
  intros Hl Hother Hown. split.
  - unfold table_ok. by rewrite Hl.
  - intros _ HQ q sl Hq Hsl Hor. destruct (decide (q = pin)) as [->|Hne]; [by eapply Hown|].
    destruct (Hother q Hq Hne) as [Hs Hc]. rewrite Hc. apply (HQ q sl Hq); [congruence|done].
Qed.

Lemma enable_length g pin t : length (irq_handlers (enable_irq tiles g pin t)) = length (irq_handlers g).
Proof.
  unfold enable_irq. repeat case_match; try done.
  rewrite configure_handlers, ack_handlers. simpl. apply length_insert.
Qed.
Lemma disable_length g pin : length (irq_handlers (disable_irq tiles g pin)) = length (irq_handlers g).
Proof. unfold disable_irq. repeat case_match; try done. rewrite mask_handlers. apply length_insert. Qed.
Lemma free_length g pin : length (irq_handlers (free_irq tiles g pin)) = length (irq_handlers g).
Proof.
  unfold free_irq. repeat case_match; try done. simpl. by rewrite length_insert, ack_handlers, mask_handlers.
Qed.
Lemma request_length g pin t d : length (irq_handlers (request_irq tiles g pin t d).2) = length (irq_handlers g).
Proof.
  unfold request_irq. repeat case_match; try done. simpl. rewrite configure_handlers. simpl.
  unfold configure_gpio. by rewrite length_insert, ack_handlers, mask_handlers, update_handlers.
Qed.

Lemma eqb_false q pin : q ≠ pin → (q =? pin) = false.
Proof. apply Z.eqb_neq. Qed.

Lemma enable_op_ok g pin t : 0 ≤ pin → op_ok g (enable_irq tiles g pin t).
Proof.
  intros Hp. destruct (slot g pin) as [[gn e [h|]]|] eqn:E.
  2-3: pose proof (enable_line tiles Htiles g pin t irq_pin Hp Hpin) as H; rewrite E in H; rewrite H; apply op_ok_refl.
  apply (op_ok_line _ _ pin); [apply enable_length| |].
  - intros q Hq Hqp. pose proof (enable_line tiles Htiles g pin t q Hp Hq) as H.
    by rewrite E, (eqb_false _ _ Hqp) in H.
  - intros Hq sl Hsl Hor. pose proof (enable_line tiles Htiles g pin t pin Hp Hq) as H.
    rewrite E, Z.eqb_refl in H. destruct H as [H _]. rewrite H in Hsl. simplify_eq. by destruct Hor.
Qed.

Lemma disable_op_ok g pin : 0 ≤ pin → op_ok g (disable_irq tiles g pin).
Proof.
  intros Hp. destruct (slot g pin) as [[gn e h]|] eqn:E.
  - apply (op_ok_line _ _ pin); [apply disable_length| |].
    + intros q Hq Hqp. pose proof (disable_line tiles Htiles g pin q Hp Hq) as H.
      by rewrite E, (eqb_false _ _ Hqp) in H.
    + intros Hq sl _ _. pose proof (disable_line tiles Htiles g pin pin Hp Hq) as H.
      rewrite E, Z.eqb_refl in H. apply H.
  - assert (disable_irq tiles g pin = g) as ->; [|apply op_ok_refl]. unfold disable_irq. unfold slot in E. by rewrite E.
Qed.

Lemma free_op_ok g pin : 0 ≤ pin → op_ok g (free_irq tiles g pin).
Proof.
  intros Hp. destruct (slot g pin) as [[gn e h]|] eqn:E.
  - apply (op_ok_line _ _ pin); [apply free_length| |].
    + intros q Hq Hqp. pose proof (free_line tiles Htiles g pin q Hp Hq) as H.
      by rewrite E, (eqb_false _ _ Hqp) in H.
    + intros Hq sl _ _. pose proof (free_line tiles Htiles g pin pin Hp Hq) as H.
      rewrite E, Z.eqb_refl in H. apply H.
  - assert (free_irq tiles g pin = g) as ->; [|apply op_ok_refl]. unfold free_irq. unfold slot in E. by rewrite E.
Qed.

Lemma request_op_ok g pin t d : 0 ≤ pin → op_ok g (request_irq tiles g pin t d).2.
Proof.
  intros Hp. destruct (slot g pin) as [[gn e [h|]]|] eqn:E.
  - pose proof (request_line tiles Htiles g pin t d irq_pin Hp Hpin) as H. rewrite E in H. by rewrite H.
  - apply (op_ok_line _ _ pin); [apply request_length| |].
    + intros q Hq Hqp. pose proof (request_line tiles Htiles g pin t d q Hp Hq) as H.
      rewrite E, (eqb_false _ _ Hqp) in H. apply H.
    + intros Hq sl Hsl Hor. pose proof (request_line tiles Htiles g pin t d pin Hp Hq) as H.
      rewrite E, Z.eqb_refl in H. destruct H as (_ & H & _). rewrite H in Hsl. simplify_eq. by destruct Hor.
  - pose proof (request_line tiles Htiles g pin t d irq_pin Hp Hpin) as H. rewrite E in H. by rewrite H.
Qed.

Lemma ack_op_ok g pin : 0 ≤ pin → op_ok g (ack_irq tiles g pin).
Proof. intros Hp. apply op_ok_same; [apply ack_handlers|]. intros q Hq. by apply ack_line. Qed.

Lemma finish_op_ok g irq claim : 0 ≤ p_pin irq → op_ok g (finish_delivery tiles g irq claim).
Proof.
  intros Hp. destruct (registration_matches g irq) eqn:E.
  - assert (irq_handlers (finish_delivery tiles g irq claim) = irq_handlers g) as Hh
      by apply (finish_line tiles Htiles g irq claim irq_pin Hp Hpin).
    apply (op_ok_line _ _ (p_pin irq)); [by rewrite Hh| |].
    + intros q Hq Hne. split; [unfold slot; by rewrite Hh|].
      destruct (finish_line tiles Htiles g irq claim q Hp Hq) as (_ & [|[? _]] & _); done.
    + intros Hq sl Hsl Hor. exfalso. unfold slot in Hsl. rewrite Hh in Hsl. revert E.
      unfold registration_matches, slot_matches. rewrite Hsl.
      destruct Hor as [-> | ->]; by rewrite ?andb_false_r.
  - destruct (finish_line tiles Htiles g irq claim irq_pin Hp Hpin) as (_ & _ & _ & H). rewrite H by done.
    apply op_ok_refl.
Qed.

Lemma snapshot_op_ok g : table_ok g → op_ok g (snapshot tiles g).1.1.
Proof.
  intros Ht. split.
  - intros _. pose proof (snapshot_line tiles Htiles g irq_pin Ht Hpin) as H. destruct (snapshot tiles g) as [[g' new] st].
    simpl. unfold table_ok. by destruct H as (-> & _).
  - intros _ HQ q sl Hq Hsl Hor. pose proof (snapshot_line tiles Htiles g q Ht Hq) as H.
    destruct (snapshot tiles g) as [[g' new] st]. simpl in *. destruct H as (Hh & [-> | [Hm _]] & _); [|done].
    apply (HQ q sl Hq); [|done]. unfold slot in *. by rewrite <-Hh.
Qed.

(** ** The drivers of other pins and the hardware *)

Lemma slot_device_slot g q d :
  slot_device g q = Some d ↔ ∃ gn e h, slot g q = Some (mk_slot gn e (Some h)) ∧ h_device h = d.
Proof.
  unfold slot_device, slot. destruct (irq_handlers g !! Z.to_nat q) as [[gn e [h|]]|]; simpl; naive_solver.
Qed.

(** What an operation promises the EC: it keeps the line of a pin the EC holds,
    and does not give the EC's identity to a pin. *)
Record foreign_ok (g g' : Sc7180Tlmm) : Prop := {
  fo_op : op_ok g g';
  fo_held : slot_device g irq_pin = Some ec_device → same_line g g' irq_pin;
  fo_free : slot_device g irq_pin ≠ Some ec_device → slot_device g' irq_pin ≠ Some ec_device;
}.

Lemma same_line_device g g' q : same_line g g' q → slot_device g' q = slot_device g q.
Proof. intros [H _]. unfold slot_device, slot in *. by rewrite H. Qed.

Lemma foreign_same g g' : op_ok g g' → same_line g g' irq_pin → foreign_ok g g'.
Proof. intros H Hl. split; [done|done|]. by rewrite (same_line_device _ _ _ Hl). Qed.

Lemma foreign_trans g1 g2 g3 : foreign_ok g1 g2 → foreign_ok g2 g3 → foreign_ok g1 g3.
Proof.
  intros [Ho Hh Hf] [Ho' Hh' Hf']. split; [by eapply op_ok_trans| |by eauto].
  intros H. pose proof (Hh H) as Hl. eapply same_line_trans; [done|]. apply Hh'.
  by rewrite (same_line_device _ _ _ Hl).
Qed.

Lemma set_value_foreign g pin v : 0 ≤ pin → foreign_ok g (set_value tiles g pin v).
Proof.
  intros Hp. apply foreign_same; [apply op_ok_same|by apply set_value_line].
  - unfold set_value. apply write_handlers.
  - intros q Hq. by apply set_value_line.
Qed.

Lemma configure_gpio_foreign g pin b : 0 ≤ pin → foreign_ok g (configure_gpio tiles g pin b).
Proof.
  intros Hp. apply foreign_same; [apply op_ok_same|by apply configure_gpio_line].
  - unfold configure_gpio. apply update_handlers.
  - intros q Hq. by apply configure_gpio_line.
Qed.

Lemma apply_state_foreign g st : foreign_ok g (apply_state tiles g st).2.
Proof.
  apply foreign_same.
  - apply op_ok_same; [by apply (apply_state_interrupts tiles g st irq_pin)|].
    intros q Hq. by apply apply_state_interrupts.
  - destruct (apply_state_interrupts tiles g st irq_pin Htiles Hpin) as [Hh Hw]. split; [|done].
    unfold slot. by rewrite Hh.
Qed.

(** An operation on the interrupt of a pin that the EC does not hold. *)
Lemma foreign_pin g g' pin :
  slot_device g pin ≠ Some ec_device → op_ok g g' →
  (irq_pin ≠ pin → same_line g g' irq_pin) →
  (irq_pin = pin → slot_device g' irq_pin ≠ Some ec_device) → foreign_ok g g'.
Proof.
  intros Hne Hop Hother Hown. split; [done| |].
  - intros H. apply Hother. by intros ->.
  - intros H. destruct (decide (irq_pin = pin)) as [E|E]; [by apply Hown|].
    by rewrite (same_line_device _ _ _ (Hother E)).
Qed.

Lemma no_device_line g' pin gn e h :
  slot g' pin = Some (mk_slot gn e h) → (∀ x, h = Some x → h_device x ≠ ec_device) →
  slot_device g' pin ≠ Some ec_device.
Proof.
  intros Hs Hh H. apply slot_device_slot in H as (? & ? & x & Hs' & Hx). simplify_eq. by eapply Hh.
Qed.

Lemma device_of_slot g pin gn e h :
  slot g pin = Some (mk_slot gn e h) → slot_device g pin ≠ Some ec_device → ∀ x, h = Some x → h_device x ≠ ec_device.
Proof. intros Hs Hd x -> Hx. apply Hd, slot_device_slot. eauto 10. Qed.

Lemma enable_foreign g pin t :
  0 ≤ pin → slot_device g pin ≠ Some ec_device → foreign_ok g (enable_irq tiles g pin t).
Proof.
  intros Hp Hd. apply (foreign_pin _ _ pin); [done|by apply enable_op_ok| |];
    pose proof (enable_line tiles Htiles g pin t irq_pin Hp Hpin) as H.
  - intros Hne. rewrite (eqb_false _ _ Hne) in H. destruct (slot g pin) as [[? ? [h|]]|]; [done|by rewrite H..].
  - intros ->. rewrite Z.eqb_refl in H. destruct (slot g pin) as [[gn e [h|]]|] eqn:E; [|by rewrite H..].
    destruct H as [H _]. eapply no_device_line; [exact H|]. intros x [= <-]. simpl.
    by apply (device_of_slot _ _ _ _ _ E Hd).
Qed.

Lemma disable_foreign g pin :
  0 ≤ pin → slot_device g pin ≠ Some ec_device → foreign_ok g (disable_irq tiles g pin).
Proof.
  intros Hp Hd. apply (foreign_pin _ _ pin); [done|by apply disable_op_ok| |];
    pose proof (disable_line tiles Htiles g pin irq_pin Hp Hpin) as H.
  - intros Hne. rewrite (eqb_false _ _ Hne) in H. destruct (slot g pin) as [[? ? h]|]; [done|by rewrite H].
  - intros ->. rewrite Z.eqb_refl in H. destruct (slot g pin) as [[gn e h]|] eqn:E; [|by rewrite H].
    destruct H as [H _]. eapply no_device_line; [exact H|]. by apply (device_of_slot _ _ _ _ _ E Hd).
Qed.

Lemma free_foreign g pin :
  0 ≤ pin → slot_device g pin ≠ Some ec_device → foreign_ok g (free_irq tiles g pin).
Proof.
  intros Hp Hd. apply (foreign_pin _ _ pin); [done|by apply free_op_ok| |];
    pose proof (free_line tiles Htiles g pin irq_pin Hp Hpin) as H.
  - intros Hne. rewrite (eqb_false _ _ Hne) in H. destruct (slot g pin) as [[? ? h]|]; [done|by rewrite H].
  - intros ->. rewrite Z.eqb_refl in H. destruct (slot g pin) as [[gn e h]|] eqn:E; [|by rewrite H].
    destruct H as [H _]. by eapply no_device_line.
Qed.

Lemma request_foreign g pin t d :
  0 ≤ pin → d ≠ ec_device → foreign_ok g (request_irq tiles g pin t d).2.
Proof.
  intros Hp Hd. pose proof (request_line tiles Htiles g pin t d irq_pin Hp Hpin) as H.
  destruct (slot g pin) as [[gn e [h|]]|] eqn:E; [by rewrite H| |by rewrite H].
  destruct H as [_ H]. apply (foreign_pin _ _ pin).
  - intros Hdev. apply slot_device_slot in Hdev as (? & ? & ? & Hs & _). simplify_eq.
  - by apply request_op_ok.
  - intros Hne. by rewrite (eqb_false _ _ Hne) in H.
  - intros ->. rewrite Z.eqb_refl in H. destruct H as [H _]. eapply no_device_line; [exact H|]. by intros x [= <-].
Qed.

Lemma ack_foreign g pin : 0 ≤ pin → foreign_ok g (ack_irq tiles g pin).
Proof. intros Hp. apply foreign_same; [by apply ack_op_ok|by apply ack_line]. Qed.

Lemma driver_op_foreign op g g' :
  driver_op tiles ec_device op g = Some g' → foreign_ok g g'.
Proof.
  unfold driver_op. destruct op; intros H; repeat (case_match; [|done]); bool_to_prop;
    repeat match goal with H : _ ∧ _ |- _ => destruct H end; injection H as <-.
  - by apply enable_foreign.
  - by apply disable_foreign.
  - by apply free_foreign.
  - by apply request_foreign.
  - by apply ack_foreign.
  - by apply set_value_foreign.
  - unfold set_direction_output. eapply foreign_trans; [by apply set_value_foreign|by apply configure_gpio_foreign].
  - by apply configure_gpio_foreign.
  - apply apply_state_foreign.
Qed.

Lemma hardware_foreign pin offset v g g' :
  hardware tiles pin offset v g = Some g' → foreign_ok g g'.
Proof.
  unfold hardware. destruct (_ && _) eqn:Eb; [|done].
  destruct (register tiles pin offset) as [a|] eqn:E; [|done]. intros [= <-].
  apply andb_prop in Eb as [Eb Ho]. apply andb_prop in Eb as [Hp1 Hp2].
  apply Z.leb_le in Hp1. apply Z.ltb_lt in Hp2. assert (pin_ok pin) as Hp by done.
  assert (offset_ok offset ∧ offset ≠ INTERRUPT_CONFIG) as [Hoff Hne].
  { apply orb_prop in Ho as [Ho|Ho]; apply Z.eqb_eq in Ho as ->; done. }
  assert (∀ q, pin_ok q → same_line g (poke g a v) q) as Hl.
  { intros q Hq. by apply (poke_line tiles Htiles g a v pin offset q). }
  apply foreign_same; [apply op_ok_same|by apply Hl]; [done|]. intros q Hq. by apply Hl.
Qed.

(** ** The invariant *)

(** A delivery that still runs, or will run, the EC's handler to [disable_irq]. *)
Definition under_way (ph : Phase) : Prop := ph = Snapped ∨ ph = Entered ∨ ph = Checked.

(** The line raises an interrupt, or is masked for a delivery under way. *)
Definition listening (s : System) : Prop :=
  ∃ gn, slot (gpio s) irq_pin = Some (mk_slot gn true (Some (mk_handler LowLevel ec_device))) ∧
    (armed LowLevel (config (gpio s) irq_pin) ∨
     ∃ irq ph, (irq, ph) ∈ flights s ∧ under_way ph ∧ p_pin irq = irq_pin ∧ registration_matches (gpio s) irq = true).

(** The worker has taken the event, and will enable the line or flag it again. *)
Definition busy (w : Worker) : Prop :=
  match w with
  | Draining | Drained | Failed _ | Repending _ | Acking | Enabling => True
  | _ => False
  end.

(** The event of the EC is accounted for. *)
Definition safe (s : System) : Prop :=
  listening s ∨ event_work_pending (controller s) = true ∨ busy (worker s) ∨
  ∃ irq, (irq, Disabled) ∈ flights s.

(** The worker is not at this controller. *)
Definition idle (w : Worker) : Prop :=
  match w with
  | Unstarted | Ready | Waiting _ | Visited _ => True
  | _ => False
  end.

Definition worker_times (s : System) : Prop :=
  match worker s with
  | Passing now | SawActive now | Looked now =>
      0 ≤ now ≤ clock s ∧ event_retry_not_before_ns (controller s) ≤ now + EVENT_RETRY_MAX_NS
  | Failed count => 0 ≤ count
  | Repending wait | Visited (Some wait) => wait ≤ EVENT_RETRY_MAX_NS
  | _ => True
  end.

Record ok (s : System) : Prop := {
  ok_table : table_ok (gpio s);
  ok_quiet : quiet_lines (gpio s);
  ok_flights : ∀ irq ph, (irq, ph) ∈ flights s → 0 ≤ p_pin irq;
  ok_held : prober s ≠ Absent → remover s ≠ Freed →
    ∃ gn e, slot (gpio s) irq_pin = Some (mk_slot gn e (Some (mk_handler LowLevel ec_device)));
  ok_unheld : prober s = Absent ∨ remover s = Freed → slot_device (gpio s) irq_pin ≠ Some ec_device;
  ok_active : active (controller s) = true → remover s = Present;
  ok_removed : prober s = Absent → remover s = Present;
  ok_worker : prober s = Absent → idle (worker s);
  ok_clock : 0 ≤ clock s;
  ok_errors : 0 ≤ event_drain_errors (controller s);
  ok_retry : event_retry_not_before_ns (controller s) ≤ clock s + EVENT_RETRY_MAX_NS;
  ok_times : worker_times s;
  ok_safe : prober s ≠ Absent → active (controller s) = true → safe s;
}.

Lemma ok_initial regs : ok (initial tiles regs).
Proof.
  assert (irq_handlers (take_ownership tiles (new regs)) = irq_handlers (new regs)) as Hh
    by apply (take_ownership_spec tiles Htiles regs irq_pin Hpin).
  split; simpl; try done.
  - unfold table_ok. by rewrite Hh.
  - intros q sl Hq _ _. by apply take_ownership_spec.
  - intros irq ph. by rewrite elem_of_nil.
  - intros _ H. apply slot_device_slot in H as (gn & e & h & Hs & _). unfold slot in Hs. rewrite Hh in Hs.
    unfold new in Hs. cbn [irq_handlers] in Hs. by apply lookup_replicate in Hs as [? _].
Qed.

(** The handlers' flights when one changes or ends. *)
Lemma elem_of_insert_other {A} (x y z : A) (l : list A) i : x ∈ l → l !! i = Some y → x ≠ y → x ∈ <[i := z]> l.
Proof.
  intros Hx Hi Hne. apply list_elem_of_lookup in Hx as [j Hj]. apply list_elem_of_lookup. exists j.
  rewrite list_lookup_insert_ne; [done|]. intros ->. congruence.
Qed.

Lemma elem_of_insert_new {A} (y z : A) (l : list A) i : l !! i = Some y → z ∈ <[i := z]> l.
Proof.
  intros Hi. apply list_elem_of_lookup. exists i. apply list_lookup_insert_eq. by eapply lookup_lt_Some.
Qed.

Lemma elem_of_delete_other {A} (x y : A) (l : list A) i : x ∈ l → l !! i = Some y → x ≠ y → x ∈ delete i l.
Proof.
  intros Hx Hi Hne. rewrite (delete_Permutation _ _ _ Hi) in Hx. by apply elem_of_cons in Hx as [|].
Qed.

Lemma elem_of_insert_inv {A} (x z : A) (l : list A) i : x ∈ <[i := z]> l → x ∈ l ∨ x = z.
Proof.
  intros H. apply list_elem_of_lookup in H as [j Hj]. apply list_lookup_insert_Some in Hj as [(_ & <- & _)|[_ Hj]]; [by right|].
  left. apply list_elem_of_lookup. eauto.
Qed.

Lemma elem_of_delete_inv {A} (x : A) (l : list A) i : x ∈ delete i l → x ∈ l.
Proof. apply list_elem_of_delete_inv. Qed.

Lemma held_device s : ok s → prober s ≠ Absent → remover s ≠ Freed → slot_device (gpio s) irq_pin = Some ec_device.
Proof.
  intros Hok Hp Hr. destruct (ok_held _ Hok Hp Hr) as (gn & e & Hs). apply slot_device_slot. by do 3 eexists.
Qed.

Lemma matches_same g g' irq q : same_line g g' q → p_pin irq = q → registration_matches g' irq = registration_matches g irq.
Proof. intros [Hs _] <-. unfold registration_matches, slot in *. by rewrite Hs. Qed.

Lemma listening_same s s' :
  same_line (gpio s) (gpio s') irq_pin →
  (∀ irq ph, (irq, ph) ∈ flights s → under_way ph → p_pin irq = irq_pin →
     registration_matches (gpio s) irq = true → ∃ ph', (irq, ph') ∈ flights s' ∧ under_way ph') →
  listening s → listening s'.
Proof.
  intros Hl Hf (gn & Hs & Hor). pose proof Hl as [Hls Hlc]. exists gn. split; [congruence|].
  destruct Hor as [Ha|(irq & ph & Hin & Hu & Hp & Hm)]; [left; by rewrite Hlc|right].
  destruct (Hf _ _ Hin Hu Hp Hm) as (ph' & Hin' & Hu'). exists irq, ph'. split_and!; [done..|].
  by rewrite (matches_same _ _ _ _ Hl Hp).
Qed.

(** A step that only touches lines the EC does not hold. *)
Lemma ok_foreign s g : ok s → foreign_ok (gpio s) g → ok (set_gpio g s).
Proof.
  intros Hok Hf. pose proof (held_device s Hok) as Hdev. destruct Hok. destruct Hf as [[Ht Hq] Hheld Hfree].
  split; simpl; try done.
  - by apply Ht.
  - by apply Hq.
  - intros Hp Hr. destruct (ok_held0 Hp Hr) as (gn & e & Hs). exists gn, e.
    destruct (Hheld (Hdev Hp Hr)) as [Hl _]. congruence.
  - intros Hor. by apply Hfree, ok_unheld0.
  - intros Hp Ha. destruct (ok_safe0 Hp Ha) as [Hl|Hrest]; [left|by right].
    assert (remover s ≠ Freed) as Hr by (by rewrite (ok_active0 Ha)).
    eapply (listening_same s); [apply (Hheld (Hdev Hp Hr))|eauto|done].
Qed.

Lemma ok_clock_step s ns : ok s → 0 ≤ ns → ok (set_clock (clock s + ns) s).
Proof.
  intros [] Hns. split; simpl; try done; [lia..|].
  unfold worker_times in *. simpl. destruct (worker s); try done; lia.
Qed.

(** New deliveries from the snapshot. *)
Lemma ok_summary s :
  ok s →
  let '(g, new, _) := snapshot tiles (gpio s) in
  ok (set_flights (flights s ++ ((λ irq, (irq, Snapped)) <$> new)) (set_gpio g s)).
Proof.
  intros Hok. pose proof (snapshot_op_ok (gpio s) (ok_table _ Hok)) as [Ht Hq].
  pose proof (snapshot_line tiles Htiles (gpio s) irq_pin (ok_table _ Hok) Hpin) as Hs.
  destruct (snapshot tiles (gpio s)) as [[g new] stale]. simpl in Ht, Hq.
  destruct Hs as (Hh & Hsnap & Hnew). destruct Hok.
  assert (∀ q, slot g q = slot (gpio s) q) as Hslots by (intros q; unfold slot; by rewrite Hh).
  split; simpl; try done.
  - by apply Ht.
  - by apply Hq.
  - intros irq ph Hin. apply elem_of_app in Hin as [Hin|Hin]; [by eapply ok_flights0|].
    apply list_elem_of_fmap in Hin as (irq' & [= -> ->] & Hin). destruct (Hnew _ Hin) as [[? _] _]. done.
  - intros Hp Hr. rewrite Hslots. by apply ok_held0.
  - intros Hor. unfold slot_device. rewrite Hh. by apply ok_unheld0.
  - intros Hp Ha. destruct (ok_safe0 Hp Ha) as [(gn & Hs & Hor)|[|[|(irq & Hin)]]].
    + left. exists gn. simpl. rewrite Hslots. split; [done|].
      assert (∀ irq, p_pin irq = irq_pin → registration_matches g irq = registration_matches (gpio s) irq) as Hm.
      { intros irq _. unfold registration_matches. by rewrite Hh. }
      destruct Hsnap as [Hc|[_ Hin]].
      * rewrite Hc. destruct Hor as [|(irq & ph & Hin & Hu & Hpp & Hmm)]; [by left|right].
        exists irq, ph. rewrite Hm by done. split_and!; try done. apply elem_of_app. by left.
      * right. eexists _, Snapped. split_and!.
        -- apply elem_of_app. right. apply list_elem_of_fmap. eexists. split; [done|]. by apply (Hin gn).
        -- by left.
        -- done.
        -- simpl. unfold registration_matches. rewrite Hh. simpl. unfold slot in Hs. rewrite Hs.
           unfold slot_matches. simpl. by rewrite !Z.eqb_refl.
    + right. by left.
    + right. right. by left.
    + right. right. right. exists irq. apply elem_of_app. by left.
Qed.

(** ** Deliveries *)

Lemma ok_set_flights s l :
  ok s → (∀ irq ph, (irq, ph) ∈ l → 0 ≤ p_pin irq) →
  (prober s ≠ Absent → active (controller s) = true → safe (set_flights l s)) → ok (set_flights l s).
Proof. intros [] Hl Hs. by split. Qed.

(** The deliveries the EC relies on are kept. *)
Definition keeps (s : System) (l : list (PendingGpioIrq * Phase)) : Prop :=
  (∀ irq ph, (irq, ph) ∈ flights s → under_way ph → p_pin irq = irq_pin →
     registration_matches (gpio s) irq = true → ∃ ph', (irq, ph') ∈ l ∧ under_way ph') ∧
  ∀ irq, (irq, Disabled) ∈ flights s → (irq, Disabled) ∈ l.

Lemma safe_flights s l : safe s → keeps s l → safe (set_flights l s).
Proof.
  intros [Hl|[Hp|[Hw|(irq & Hin)]]] [H1 H2].
  - left. eapply (listening_same s); [done| |done]. simpl. eauto.
  - right. by left.
  - right. right. by left.
  - right. right. right. exists irq. by apply H2.
Qed.

(** One delivery moves to another phase. *)
Lemma keeps_insert s i irq ph ph' :
  flights s !! i = Some (irq, ph) → ph ≠ Disabled →
  (under_way ph → p_pin irq = irq_pin → registration_matches (gpio s) irq = true → under_way ph') →
  keeps s (<[i := (irq, ph')]> (flights s)).
Proof.
  intros Hi Hph Hu. split.
  - intros irq2 ph2 Hin Hu2 Hp2 Hm2. destruct (decide (irq2 = irq ∧ ph2 = ph)) as [[-> ->]|Hne].
    + exists ph'. split; [by eapply elem_of_insert_new|auto].
    + exists ph2. split; [|done]. eapply elem_of_insert_other; [done..|]. naive_solver.
  - intros irq2 Hin. eapply elem_of_insert_other; [done..|]. naive_solver.
Qed.

Lemma keeps_delete s i irq ph :
  flights s !! i = Some (irq, ph) → ph ≠ Disabled →
  (under_way ph → p_pin irq = irq_pin → registration_matches (gpio s) irq = false) →
  keeps s (delete i (flights s)).
Proof.
  intros Hi Hph Hu. split.
  - intros irq2 ph2 Hin Hu2 Hp2 Hm2. exists ph2. split; [|done]. eapply elem_of_delete_other; [done..|].
    intros [= -> ->]. rewrite Hu in Hm2; done.
  - intros irq2 Hin. eapply elem_of_delete_other; [done..|]. naive_solver.
Qed.

Lemma flights_insert s i irq ph ph' :
  ok s → flights s !! i = Some (irq, ph) →
  ∀ irq2 ph2, (irq2, ph2) ∈ <[i := (irq, ph')]> (flights s) → 0 ≤ p_pin irq2.
Proof.
  intros Hok Hi irq2 ph2 Hin. apply elem_of_insert_inv in Hin as [Hin|[= -> ->]]; [by eapply ok_flights|].
  eapply ok_flights; [done|]. by eapply list_elem_of_lookup_2.
Qed.

Lemma flights_delete s i :
  ok s → ∀ irq2 ph2, (irq2, ph2) ∈ delete i (flights s) → 0 ≤ p_pin irq2.
Proof. intros Hok irq2 ph2 Hin. apply elem_of_delete_inv in Hin. by eapply ok_flights. Qed.

Lemma ok_phase s i irq ph ph' :
  ok s → flights s !! i = Some (irq, ph) → ph ≠ Disabled →
  (active (controller s) = true → under_way ph → p_pin irq = irq_pin →
   registration_matches (gpio s) irq = true → under_way ph') →
  ok (set_flights (<[i := (irq, ph')]> (flights s)) s).
Proof.
  intros Hok Hi Hph Hu. apply ok_set_flights; [done|by eapply flights_insert|].
  intros Hp Ha. apply safe_flights; [by apply (ok_safe _ Hok)|]. eapply keeps_insert; eauto.
Qed.

Lemma flight_inv s i f s' :
  flight s i f = Some s' →
  ∃ irq ph, flights s !! i = Some (irq, ph) ∧
    ((∃ ph' s1, f irq ph = Some (Some ph', s1) ∧ s' = set_flights (<[i := (irq, ph')]> (flights s)) s1) ∨
     (∃ s1, f irq ph = Some (None, s1) ∧ s' = set_flights (delete i (flights s)) s1)).
Proof.
  unfold flight. destruct (flights s !! i) as [[irq ph]|] eqn:Hi; [|done].
  destruct (f irq ph) as [[[ph'|] s1]|] eqn:Ef; [|intros [= <-]..|done].
  - intros [= <-]. exists irq, ph. split; [done|]. left. eauto.
  - exists irq, ph. split; [done|]. right. eauto.
Qed.

Lemma ok_deliver s i s' : ok s → flight s i (deliver s) = Some s' → ok s'.
Proof.
  intros Hok H. apply flight_inv in H as (irq & ph & Hi & [(ph' & s1 & Hf & ->)|(s1 & Hf & ->)]);
    unfold deliver in Hf; destruct ph; try done; destruct (registration_matches (gpio s) irq) eqn:E; try done.
  - injection Hf as <- <-. apply (ok_phase s i irq Snapped Entered); [done..|]. intros _ _ _ _. right. by left.
  - injection Hf as <-. apply ok_set_flights; [done|by eapply flights_delete|]. intros Hp Ha.
    apply safe_flights; [by apply (ok_safe _ Hok)|]. by eapply keeps_delete.
Qed.

Lemma ok_handler_load s i claim s' : ok s → flight s i (handler_load ec_device claim s) = Some s' → ok s'.
Proof.
  intros Hok H. apply flight_inv in H as (irq & ph & Hi & [(ph' & s1 & Hf & ->)|(s1 & Hf & ->)]);
    unfold handler_load in Hf; destruct ph; try done; destruct (p_device irq =? ec_device); try done.
  injection Hf as <- <-. apply (ok_phase s i irq Entered); [done..|]. intros -> _ _ _. right. by right.
Qed.

(** A delivery whose handler is another device's is none of the EC's. *)
Lemma ok_other_return s i claim s' : ok s → flight s i (other_return ec_device claim s) = Some s' → ok s'.
Proof.
  intros Hok H. apply flight_inv in H as (irq & ph & Hi & [(ph' & s1 & Hf & ->)|(s1 & Hf & ->)]);
    unfold other_return in Hf; destruct ph; try done; destruct (Z.eqb_spec (p_device irq) ec_device) as [|Hne];
    try done.
  injection Hf as <- <-. apply ok_set_flights; [done|by eapply flights_insert|]. intros Hp Ha.
  assert (remover s ≠ Freed) as Hr by (by rewrite (ok_active _ Hok Ha)).
  destruct (ok_held _ Hok Hp Hr) as (gn & e & Hs).
  apply safe_flights; [by apply (ok_safe _ Hok)|]. eapply keeps_insert; [done..|].
  intros _ Hpp Hm. exfalso. revert Hm. unfold registration_matches. rewrite Hpp. unfold slot in Hs. rewrite Hs.
  unfold slot_matches. simpl. rewrite (proj2 (Z.eqb_neq ec_device (p_device irq))) by congruence.
  by rewrite !andb_false_r.
Qed.

Lemma ok_handler_disable s i s' : ok s → flight s i (handler_disable tiles irq_pin s) = Some s' → ok s'.
Proof.
  intros Hok H. apply flight_inv in H as (irq & ph & Hi & [(ph' & s1 & Hf & ->)|(s1 & Hf & ->)]);
    unfold handler_disable in Hf; destruct ph; try done. injection Hf as <- <-.
  pose proof (disable_op_ok (gpio s) irq_pin (proj1 Hpin)) as [Ht Hq].
  pose proof (disable_line tiles Htiles (gpio s) irq_pin irq_pin (proj1 Hpin) Hpin) as Hl. rewrite Z.eqb_refl in Hl.
  pose proof Hok as []. split; simpl; try done.
  - by apply Ht.
  - by apply Hq.
  - by eapply flights_insert.
  - intros Hp Hr. destruct (ok_held0 Hp Hr) as (gn & e & Hs). rewrite Hs in Hl. destruct Hl as [Hl _]. eauto.
  - intros Hor Hd. apply slot_device_slot in Hd as (gn & e & h & Hs & Hh). apply (ok_unheld0 Hor).
    destruct (slot (gpio s) irq_pin) as [[gn' e' h']|] eqn:E; [|by rewrite Hl in Hs; simplify_eq].
    destruct Hl as [Hl _]. rewrite Hl in Hs. simplify_eq. apply slot_device_slot. by do 3 eexists.
  - intros Hp Ha. right. right. right. exists irq. simpl. by eapply elem_of_insert_new.
Qed.

Lemma ok_handler_pend s i claim s' : ok s → flight s i (handler_pend claim s) = Some s' → ok s'.
Proof.
  intros Hok H. apply flight_inv in H as (irq & ph & Hi & [(ph' & s1 & Hf & ->)|(s1 & Hf & ->)]);
    unfold handler_pend in Hf; destruct ph; try done. injection Hf as <- <-.
  pose proof Hok as []. split; simpl; try done.
  - by eapply flights_insert.
  - intros _ _. right. by left.
Qed.

(** Waking the worker changes nothing but the waker. *)
Lemma ok_woken s b : ok s → ok (set_woken b s).
Proof. by intros []. Qed.

Lemma ok_wake s : ok s → ok (wake_one latches s).
Proof. unfold wake_one. destruct (worker s); apply ok_woken. Qed.

Lemma wake_fields s :
  gpio (wake_one latches s) = gpio s ∧ flights (wake_one latches s) = flights s ∧
  controller (wake_one latches s) = controller s ∧ clock (wake_one latches s) = clock s ∧
  worker (wake_one latches s) = worker s ∧ prober (wake_one latches s) = prober s.
Proof. unfold wake_one. destruct (worker s) eqn:E; by split_and!. Qed.

Lemma ok_handler_wake s i s' : ok s → flight s i (handler_wake latches s) = Some s' → ok s'.
Proof.
  intros Hok H. apply flight_inv in H as (irq & ph & Hi & [(ph' & s1 & Hf & ->)|(s1 & Hf & ->)]);
    unfold handler_wake in Hf; destruct ph; try done. injection Hf as <- <-.
  pose proof (wake_fields s) as (_ & Hfl & _). rewrite <-Hfl.
  apply (ok_phase (wake_one latches s) i irq (Flagged claim)); [by apply ok_wake|by rewrite Hfl|done|].
  intros _ Hu. by destruct Hu as [|[|]].
Qed.

Lemma ok_finish s i s' : ok s → flight s i (finish tiles s) = Some s' → ok s'.
Proof.
  intros Hok H. apply flight_inv in H as (irq & ph & Hi & [(ph' & s1 & Hf & ->)|(s1 & Hf & ->)]);
    unfold finish in Hf; destruct ph as [| | | | |claim]; try done. injection Hf as <-.
  assert (0 ≤ p_pin irq) as Hpp by (eapply ok_flights; [done|by eapply list_elem_of_lookup_2]).
  pose proof (finish_op_ok (gpio s) irq claim Hpp) as [Ht Hq].
  destruct (finish_line tiles Htiles (gpio s) irq claim irq_pin Hpp Hpin) as (Hh & Hc & _ & Hno).
  set (g' := finish_delivery tiles (gpio s) irq claim) in *.
  assert (∀ q, slot g' q = slot (gpio s) q) as Hslots by (intros q; unfold slot; by rewrite Hh).
  assert (keeps s (delete i (flights s))) as [Hk1 Hk2].
  { eapply keeps_delete; [done..|]. by intros [|[|]]. }
  pose proof Hok as []. split; simpl; try done.
  - by apply Ht.
  - by apply Hq.
  - by eapply flights_delete.
  - intros Hp Hr. rewrite Hslots. by apply ok_held0.
  - intros Hor. unfold slot_device. rewrite Hh. by apply ok_unheld0.
  - intros Hp Ha. destruct (ok_safe0 Hp Ha) as [(gn & Hs & Hor)|[|[|(irq2 & Hin)]]].
    + left. exists gn. simpl. rewrite Hslots. split; [done|].
      destruct Hor as [Harm|(irq2 & ph2 & Hin & Hu & Hp2 & Hm)].
      * left. destruct Hc as [->|[Hpin' Harm']]; [done|].
        destruct (registration_matches (gpio s) irq) eqn:E; [|by rewrite Hno].
        revert E. unfold registration_matches. rewrite <-Hpin'. unfold slot in Hs. rewrite Hs.
        unfold slot_matches. simpl. intros E. repeat (apply andb_prop in E as [E ?]). bool_to_prop.
        rename select (LowLevel = _) into Ht'. by rewrite Ht'.
      * right. destruct (Hk1 irq2 ph2 Hin Hu Hp2 Hm) as (ph3 & Hin3 & Hu3). exists irq2, ph3.
        split_and!; [done..|]. unfold registration_matches in *. by rewrite Hh.
    + right. by left.
    + right. right. by left.
    + right. right. right. exists irq2. by apply Hk2.
Qed.

(** ** The worker *)

(** The worker is at work only on a published controller. *)
Lemma worker_probed s : ok s → ¬ idle (worker s) → prober s ≠ Absent.
Proof. intros Hok Hw Hp. by apply Hw, (ok_worker _ Hok). Qed.

(** A step that changes the worker, and perhaps the controller. *)
Lemma ok_set_worker s c w :
  ok s → active c = active (controller s) → prober s ≠ Absent →
  0 ≤ event_drain_errors c → event_retry_not_before_ns c ≤ clock s + EVENT_RETRY_MAX_NS →
  worker_times (set_worker w (set_controller c s)) →
  (active c = true → safe s → safe (set_worker w (set_controller c s))) →
  ok (set_worker w (set_controller c s)).
Proof.
  intros Hok Ha Hp He Hr Ht Hs. pose proof Hok as []. split; simpl; try done.
  - by rewrite Ha.
  - intros _ Hact. apply Hs; [done|]. apply ok_safe0; congruence.
Qed.

Lemma set_controller_same s : set_controller (controller s) s = s.
Proof. by destruct s. Qed.

Lemma ok_set_phase s w :
  ok s → prober s ≠ Absent → worker_times (set_worker w s) →
  (active (controller s) = true → safe s → safe (set_worker w s)) → ok (set_worker w s).
Proof.
  intros Hok Hp. pose proof (ok_set_worker s (controller s) w Hok eq_refl Hp (ok_errors _ Hok) (ok_retry _ Hok)) as H.
  by rewrite set_controller_same in H.
Qed.

(** Steps of the worker that leave the event where it was. *)
Lemma safe_idle s w : ¬ busy (worker s) → safe s → safe (set_worker w s).
Proof.
  intros Hb [Hl|[Hp|[Hw|Hf]]]; [by left|right; by left|done|right; right; by right].
Qed.

Lemma ok_idle s w :
  ok s → (prober s = Absent → idle w) → ¬ busy (worker s) → worker_times (set_worker w s) → ok (set_worker w s).
Proof.
  intros Hok Hp Hb Ht. pose proof Hok as []. split; simpl; try done.
  intros Hp' Ha. by apply safe_idle, ok_safe0.
Qed.

Lemma ok_start s s' : ok s → worker_start s = Some s' → ok s'.
Proof.
  intros Hok. pose proof (ok_retry _ Hok) as Hr. pose proof (ok_clock _ Hok) as Hc. unfold worker_start, published.
  destruct (worker s) eqn:Ew; try done; intros [= <-]; apply ok_woken; apply ok_idle; try done;
    try (by rewrite Ew; intros []); try (by intros ->); unfold worker_times; simpl; destruct (prober s); simpl; done || lia.
Qed.

Lemma ok_visit s s' :
  ok s → worker_active s = Some s' ∨ worker_pending s = Some s' ∨ worker_retry s = Some s' → ok s'.
Proof.
  intros Hok H. pose proof (ok_times _ Hok) as Ht. unfold worker_times in Ht.
  unfold worker_active, worker_pending, worker_retry in H.
  destruct (worker s) eqn:Ew; destruct H as [H|[H|H]]; simplify_eq.
  all: apply ok_idle; [done|intros Hp; exfalso; revert Hp; apply worker_probed; [done|by rewrite Ew; intros []]
                      |by rewrite Ew; intros []|].
  - by destruct (active (controller s)).
  - by destruct (event_work_pending (controller s)).
  - unfold worker_times. simpl. destruct (Z.ltb_spec now (event_retry_not_before_ns (controller s))); [lia|done].
Qed.

Lemma ok_take s s' : ok s → worker_take s = Some s' → ok s'.
Proof.
  intros Hok. unfold worker_take. destruct (worker s) eqn:Ew; try done. intros [= <-].
  assert (prober s ≠ Absent) by (apply worker_probed; [done|by rewrite Ew; intros []]).
  destruct (event_work_pending (controller s)).
  - apply ok_set_worker; try done; [apply Hok..|]. intros _ _. right. right. by left.
  - apply ok_idle; [done..|by rewrite Ew; intros []|done].
Qed.

Lemma ok_wait s others s' : ok s → worker_wait others s = Some s' → ok s'.
Proof.
  intros Hok. unfold worker_wait. destruct (worker s) eqn:Ew; try done. destruct (from_option _ _ others); [|done].
  intros [= <-]. apply ok_idle; [done..|by rewrite Ew; intros []|done].
Qed.

Lemma ok_drain s r s' : ok s → worker_drain r s = Some s' → ok s'.
Proof.
  intros Hok. unfold worker_drain. destruct (worker s) eqn:Ew; try done. intros [= <-].
  assert (prober s ≠ Absent) by (apply worker_probed; [done|by rewrite Ew; intros []]).
  pose proof (ok_clock _ Hok). pose proof (ok_errors _ Hok).
  destruct r; apply ok_set_worker; simpl; try done; try (intros _ _; right; right; by left).
  - unfold EVENT_RETRY_MAX_NS. lia.
  - unfold EVENT_RETRY_MAX_NS. lia.
  - by apply Z.mod_pos_bound.
  - apply Hok.
  - unfold worker_times. simpl. lia.
Qed.

Lemma ok_settle s s' : ok s → worker_settle s = Some s' → ok s'.
Proof.
  intros Hok. unfold worker_settle. pose proof (ok_times _ Hok) as Ht. unfold worker_times in Ht.
  destruct (worker s) as [| | | | | | | | |count| | | |] eqn:Ew; try done; intros [= <-];
    assert (prober s ≠ Absent) by (apply worker_probed; [done|by rewrite Ew; intros []]).
  - apply ok_set_phase; try done.
    + by destruct (active (controller s)).
    + intros -> _. right. right. by left.
  - destruct (active (controller s)) eqn:Ea.
    + apply ok_set_worker; simpl; try done; [apply Hok| | |].
      * pose proof (event_retry_delay_bounds count Ht) as [[_ Hd] _]. unfold saturating_add. lia.
      * unfold worker_times. simpl. pose proof (event_retry_delay_bounds count Ht) as [[_ Hd] _]. lia.
      * intros _ _. right. right. by left.
    + apply ok_set_phase; try done. congruence.
Qed.

Lemma ok_repend s s' : ok s → worker_repend s = Some s' → ok s'.
Proof.
  intros Hok. pose proof (ok_times _ Hok) as Ht. unfold worker_times in Ht.
  unfold worker_repend. destruct (worker s) eqn:Ew; try done. intros [= <-].
  apply ok_set_worker; simpl; try done.
  - apply worker_probed; [done|by rewrite Ew; intros []].
  - apply Hok.
  - apply Hok.
  - intros _ _. right. by left.
Qed.

Lemma ok_ack s s' : ok s → worker_ack tiles irq_pin s = Some s' → ok s'.
Proof.
  intros Hok. unfold worker_ack. destruct (worker s) eqn:Ew; try done. intros [= <-].
  assert (prober s ≠ Absent) by (apply worker_probed; [done|by rewrite Ew; intros []]).
  apply (ok_set_phase (set_gpio _ s)); try done.
  - apply ok_foreign; [done|]. apply ack_foreign, Hpin.
  - intros _ _. right. right. by left.
Qed.

(** Enabling the line of the controller; of a freed line it does nothing. *)
Lemma ok_enable s s' : ok s → worker_enable tiles irq_pin s = Some s' → ok s'.
Proof.
  intros Hok. unfold worker_enable. destruct (worker s) eqn:Ew; try done. intros [= <-].
  assert (prober s ≠ Absent) as Hp by (apply worker_probed; [done|by rewrite Ew; intros []]).
  pose proof (enable_op_ok (gpio s) irq_pin LowLevel (proj1 Hpin)) as [Ht Hq].
  pose proof (enable_line tiles Htiles (gpio s) irq_pin LowLevel irq_pin (proj1 Hpin) Hpin) as Hl.
  rewrite Z.eqb_refl in Hl. pose proof Hok as []. split; simpl; try done.
  - by apply Ht.
  - by apply Hq.
  - intros _ Hr. destruct (ok_held0 Hp Hr) as (gn & e & Hs). rewrite Hs in Hl. destruct Hl as [Hl _]. eauto.
  - intros Hor Hd. destruct (slot (gpio s) irq_pin) as [[gn e [h|]]|] eqn:E; [|by apply (ok_unheld0 Hor); rewrite Hl in Hd..].
    destruct Hl as [Hl _]. apply slot_device_slot in Hd as (gn' & e' & h' & Hs & Hh). rewrite Hl in Hs. simplify_eq.
    apply (ok_unheld0 Hor). apply slot_device_slot. by do 3 eexists.
  - intros _ Ha. left. assert (remover s ≠ Freed) as Hr by (by rewrite (ok_active0 Ha)).
    destruct (ok_held0 Hp Hr) as (gn & e & Hs). rewrite Hs in Hl. destruct Hl as [Hl Harm].
    eexists. split; [exact Hl|]. by left.
Qed.

(** ** Probe and removal *)

Lemma ok_probe s s' : ok s → probe tiles irq_pin ec_device s = Some s' → ok s'.
Proof.
  intros Hok. unfold probe. destruct (prober s) eqn:Ep; try done.
  assert (ok (set_gpio (set_direction_input tiles (gpio s) irq_pin) s)) as Hok'.
  { apply ok_foreign; [done|]. apply configure_gpio_foreign, Hpin. }
  set (g := set_direction_input tiles (gpio s) irq_pin) in *.
  pose proof (request_op_ok g irq_pin LowLevel ec_device (proj1 Hpin)) as [Ht Hq].
  pose proof (request_line tiles Htiles g irq_pin LowLevel ec_device irq_pin (proj1 Hpin) Hpin) as Hl.
  rewrite Z.eqb_refl in Hl.
  destruct (request_irq tiles g irq_pin LowLevel ec_device) as [ok' g'] eqn:E. simpl in *. intros [= <-].
  assert (ok' = false ∧ g' = g ∨ ok' = true ∧ ∃ gn,
            slot g' irq_pin = Some (mk_slot gn true (Some (mk_handler LowLevel ec_device))) ∧
            armed LowLevel (config g' irq_pin)) as Hcase.
  { destruct (slot g irq_pin) as [[gn e [h|]]|]; [left; by simplify_eq|right|left; by simplify_eq].
    destruct Hl as [-> [Hl Ha]]. eauto. }
  destruct Hcase as [[-> ->]|[-> (gn & Hs & Ha)]].
  - destruct Hok'. split; simpl in *; try done; rewrite ?Ep in *; done.
  - destruct Hok'. split; simpl in *; rewrite ?Ep in *; try done.
    + by apply Ht.
    + by apply Hq.
    + eauto.
    + intros [|Hr]; [done|]. by rewrite ok_removed0 in Hr.
    + intros _ _. left. exists gn. split; [done|]. by left.
Qed.

Lemma ok_set_prober s p :
  ok s → prober s ≠ Absent → p ≠ Absent → ok (set_prober p s).
Proof.
  intros [] Hp Hp'. split; simpl; try done.
  - auto.
  - intros [|]; [done|]. auto.
  - auto.
Qed.

Lemma ok_ensure s : ok s → ok (ensure_event_worker_started s).
Proof.
  intros Hok. unfold ensure_event_worker_started. destruct (worker s) eqn:Ew; try done.
  apply ok_idle; [done..|by rewrite Ew; intros []|done].
Qed.

Lemma ok_probe_level s s' : ok s → probe_level tiles irq_pin s = Some s' → ok s'.
Proof.
  intros Hok. unfold probe_level. destruct (prober s) eqn:Ep; try done. intros [= <-].
  assert (prober s ≠ Absent) as Hp by congruence.
  destruct (get_value tiles (gpio s) irq_pin); [by apply ok_set_prober|].
  apply ok_set_prober; simpl; [|done..]. pose proof Hok as []. split; simpl; try done.
  intros _ _. right. by left.
Qed.

Lemma ok_probe_wake s s' : ok s → probe_wake latches s = Some s' → ok s'.
Proof.
  intros Hok. unfold probe_wake. destruct (prober s) eqn:Ep; try done. intros [= <-].
  apply ok_set_prober; [by apply ok_wake| |done]. pose proof (wake_fields s) as (_ & _ & _ & _ & _ & ->). congruence.
Qed.

Lemma ok_remove s s' : ok s → remove_step tiles irq_pin s = Some s' → ok s'.
Proof.
  intros Hok. unfold remove_step. pose proof Hok as [].
  destruct (remover s) eqn:Er; [destruct (published s) eqn:Epub; [|done]|..|done]; intros [= <-].
  - assert (prober s ≠ Absent) as Hp by (intros E; unfold published in Epub; by rewrite E in Epub).
    split; simpl; try done.
    + intros _ _. by apply ok_held0.
    + by intros [|].
  - assert (prober s ≠ Absent) as Hp by (intros E; by apply ok_removed0 in E).
    split; simpl; try done.
    + intros _ _. by apply ok_held0.
    + by intros [|].
    + intros Ha. by apply ok_active0 in Ha.
    + intros _ Ha. by apply ok_active0 in Ha.
  - assert (prober s ≠ Absent) as Hp by (intros E; by apply ok_removed0 in E).
    split; simpl; try done.
    + intros _ _. by apply ok_held0.
    + by intros [|].
    + intros Ha. by apply ok_active0 in Ha.
    + unfold EVENT_RETRY_MAX_NS. lia.
    + unfold worker_times in *. simpl. unfold EVENT_RETRY_MAX_NS in *. destruct (worker s); done || lia.
  - assert (prober s ≠ Absent) as Hp by (intros E; by apply ok_removed0 in E).
    pose proof (free_op_ok (gpio s) irq_pin (proj1 Hpin)) as [Ht Hq].
    pose proof (free_line tiles Htiles (gpio s) irq_pin irq_pin (proj1 Hpin) Hpin) as Hl. rewrite Z.eqb_refl in Hl.
    split; simpl; try done.
    + by apply Ht.
    + by apply Hq.
    + intros _ Hd. apply slot_device_slot in Hd as (gn' & e' & h' & Hs & Hh).
      destruct (slot_Some _ _ ok_table0 Hpin) as [[gn e h] E]. rewrite E in Hl. destruct Hl as [Hl _].
      rewrite Hl in Hs. simplify_eq.
    + intros Ha. by apply ok_active0 in Ha.
    + intros _ Ha. by apply ok_active0 in Ha.
Qed.

Lemma ok_step s l s' : ok s → step tiles irq_pin ec_device latches s l = Some s' → ok s'.
Proof.
  intros Hok H. destruct l; simpl in H.
  - destruct (driver_op tiles ec_device op (gpio s)) as [g|] eqn:E; [|done]. injection H as <-.
    apply ok_foreign; [done|]. by eapply driver_op_foreign.
  - destruct (hardware tiles pin offset value (gpio s)) as [g|] eqn:E; [|done]. injection H as <-.
    apply ok_foreign; [done|]. by eapply hardware_foreign.
  - destruct (Z.leb_spec 0 ns); [|done]. injection H as <-. by apply ok_clock_step.
  - pose proof (ok_summary s Hok) as Hs. destruct (snapshot tiles (gpio s)) as [[g new] st]. by injection H as <-.
  - by eapply ok_deliver.
  - by eapply ok_handler_load.
  - by eapply ok_handler_disable.
  - by eapply ok_handler_pend.
  - by eapply ok_handler_wake.
  - by eapply ok_other_return.
  - by eapply ok_finish.
  - by eapply ok_start.
  - by eapply ok_wait.
  - eapply ok_visit; [done|]. by left.
  - eapply ok_visit; [done|]. right. by left.
  - eapply ok_visit; [done|]. right. by right.
  - by eapply ok_take.
  - by eapply ok_drain.
  - by eapply ok_settle.
  - by eapply ok_repend.
  - by eapply ok_ack.
  - by eapply ok_enable.
  - by eapply ok_probe.
  - injection H as <-. by apply ok_ensure.
  - destruct (prober s) eqn:Ep; try done. injection H as <-. apply ok_set_prober; congruence.
  - destruct (prober s) eqn:Ep; try done. injection H as <-. apply ok_set_prober; [by apply ok_ensure| |done].
    unfold ensure_event_worker_started. destruct (worker s); simpl; congruence.
  - by eapply ok_probe_level.
  - by eapply ok_probe_wake.
  - by eapply ok_remove.
Qed.

Notation run := (run tiles irq_pin ec_device latches).
Notation step := (step tiles irq_pin ec_device latches).

Lemma run_cons s l ls : run s (l :: ls) = step s l ≫= λ s1, run s1 ls.
Proof.
  unfold EcWorker.run. cbn [foldl mbind option_bind]. destruct (step s l) as [s1|]; [done|]. cbn.
  induction ls as [|l' ls IH]; [done|]. by cbn.
Qed.

(** What every step keeps, runs keep. *)
Lemma run_ind (P : System → Prop) s ls s' :
  (∀ s l s', P s → step s l = Some s' → P s') → P s → run s ls = Some s' → P s'.
Proof.
  intros Hstep. revert s. induction ls as [|l ls IH]; intros s Hs; [by intros [= <-]|].
  rewrite run_cons. destruct (step s l) as [s1|] eqn:E; [|done]. simpl. apply IH. by eapply Hstep.
Qed.

Lemma ok_run s ls s' : ok s → run s ls = Some s' → ok s'.
Proof. apply run_ind. intros. by eapply ok_step. Qed.

(** ** The flag of an event is followed by a visit of the worker *)

(** The worker will look at the flag in the visit it is on. *)
Definition visiting (w : Worker) : Prop :=
  match w with Passing _ | SawActive _ | Looked _ | Taking => True | _ => False end.

(** The worker has a timer, or is about to set one. *)
Definition timed (s : System) : Prop :=
  match worker s with
  | Visited (Some _) => True
  | Waiting (Some deadline) => deadline ≤ clock s + EVENT_RETRY_MAX_NS
  | _ => False
  end.

(** The worker will look at the flag, now or when its timer runs out. *)
Definition soon (s : System) : Prop := worker s = Ready ∨ visiting (worker s) ∨ timed s.

(** Someone wakes it, or has woken it. *)
Definition called (s : System) : Prop :=
  woken s = true ∨ prober s ≠ Probed ∨ ∃ irq claim, (irq, Flagged claim) ∈ flights s.

Record tended (s : System) : Prop := {
  tn_started : prober s = Started ∨ prober s = LevelFlagged ∨ prober s = Probed → worker s ≠ Unstarted;
  tn_flag : active (controller s) = true → event_work_pending (controller s) = true → soon s ∨ called s;
}.

Lemma soon_keep s s' : worker s' = worker s → clock s ≤ clock s' → soon s → soon s'.
Proof.
  intros Hw Hc [H|[H|H]]; unfold soon; rewrite Hw; [tauto..|]. do 2 right. unfold timed in *. rewrite Hw.
  destruct (worker s) as [| |[d|]| | | | | | | | | | |]; done || lia.
Qed.

Lemma called_keep s s' :
  (woken s = true → woken s' = true) → (prober s' = Probed → prober s = Probed) →
  (∀ irq claim, (irq, Flagged claim) ∈ flights s → ∃ irq' claim', (irq', Flagged claim') ∈ flights s') →
  called s → called s'.
Proof.
  intros Hk Hp Hf [H|[H|(irq & claim & H)]]; [left; auto|right; left; auto|do 2 right; eauto].
Qed.

(** A step of something other than the worker. *)
Lemma tended_keep s s' :
  tended s → worker s' = worker s → clock s ≤ clock s' → woken s' = woken s → prober s' = prober s →
  active (controller s') = active (controller s) →
  event_work_pending (controller s') = event_work_pending (controller s) →
  (∀ irq claim, (irq, Flagged claim) ∈ flights s → (irq, Flagged claim) ∈ flights s') → tended s'.
Proof.
  intros [Hs Ha] Hw Hc Hk Hp Hac Hpe Hf. split.
  - by rewrite Hp, Hw.
  - rewrite Hac, Hpe. intros Hact He. destruct (Ha Hact He) as [H|H].
    + left. by apply (soon_keep s).
    + right. apply (called_keep s); [by rewrite Hk|by rewrite Hp|eauto|done].
Qed.

Lemma wake_woken s : latches = true → woken (wake_one latches s) = true.
Proof. intros ->. unfold wake_one. destruct (worker s); simpl; by rewrite ?orb_true_r. Qed.

(** ** Deliveries *)

(** A delivery moves on from a phase that owes no wake-up, or ends. *)
Lemma tended_flights s l i irq ph :
  tended s → flights s !! i = Some (irq, ph) → (∀ claim, ph ≠ Flagged claim) →
  (∃ ph', l = <[i := (irq, ph')]> (flights s)) ∨ l = delete i (flights s) → tended (set_flights l s).
Proof.
  intros Ht Hi Hne Hl. eapply tended_keep; try done. simpl. intros irq2 claim Hin.
  destruct Hl as [[ph' ->]| ->]; [eapply elem_of_insert_other|eapply elem_of_delete_other]; try done; by intros [= _ <-]; eapply Hne.
Qed.

Lemma tended_gpio s g : tended s → tended (set_gpio g s).
Proof. intros Ht. by eapply tended_keep. Qed.

Ltac in_flight H irq ph Hi ph' s1 Hf :=
  apply flight_inv in H as (irq & ph & Hi & [(ph' & s1 & Hf & ->)|(s1 & Hf & ->)]).

Lemma tended_deliver s i s' : tended s → flight s i (deliver s) = Some s' → tended s'.
Proof.
  intros Ht H. in_flight H irq ph Hi ph' s1 Hf; unfold deliver in Hf; destruct ph; try done;
    destruct (registration_matches _ _); simplify_eq; eapply tended_flights; eauto; done.
Qed.

Lemma tended_returns s i s' :
  tended s → (∃ claim, flight s i (handler_load ec_device claim s) = Some s') ∨
    (∃ claim, flight s i (other_return ec_device claim s) = Some s') → tended s'.
Proof.
  intros Ht [[claim H]|[claim H]]; in_flight H irq ph Hi ph' s1 Hf; unfold handler_load, other_return in Hf;
    destruct ph; try done; destruct (_ =? _); simplify_eq; eapply tended_flights; eauto; done.
Qed.

Lemma tended_disable s i s' : tended s → flight s i (handler_disable tiles irq_pin s) = Some s' → tended s'.
Proof.
  intros Ht H. in_flight H irq ph Hi ph' s1 Hf; unfold handler_disable in Hf; destruct ph; simplify_eq.
  eapply (tended_flights (set_gpio _ s)); [by apply tended_gpio|done|done|left; eauto].
Qed.

Lemma tended_finish s i s' : tended s → flight s i (finish tiles s) = Some s' → tended s'.
Proof.
  intros Ht H. in_flight H irq ph Hi ph' s1 Hf; unfold finish in Hf; destruct ph; simplify_eq.
  eapply (tended_flights (set_gpio _ s)); [by apply tended_gpio|done|done|by right].
Qed.

(** The first to flag the event owes the wake-up. *)
Lemma tended_pend s i claim s' : tended s → flight s i (handler_pend claim s) = Some s' → tended s'.
Proof.
  intros Ht H. in_flight H irq ph Hi ph' s1 Hf; unfold handler_pend in Hf; destruct ph; simplify_eq.
  destruct (event_work_pending (controller s)) eqn:He.
  - apply (tended_keep (set_flights (<[i := (irq, Returned claim)]> (flights s)) s)); try done.
    eapply tended_flights; eauto; done.
  - split; [apply Ht|]. intros _ _. right. do 2 right. exists irq, claim. simpl. by eapply elem_of_insert_new.
Qed.

Lemma tended_woken s s' :
  tended s → woken s' = true → worker s' = worker s →
  (prober s' = Started ∨ prober s' = LevelFlagged ∨ prober s' = Probed →
   prober s = Started ∨ prober s = LevelFlagged ∨ prober s = Probed) → tended s'.
Proof.
  intros [Hs _] Hk Hw Hp. split; [rewrite Hw; tauto|]. intros _ _. right. by left.
Qed.

Lemma tended_handler_wake s i s' :
  tended s → latches = true → flight s i (handler_wake latches s) = Some s' → tended s'.
Proof.
  intros Ht Hl H. pose proof (wake_fields s) as (_ & _ & _ & _ & Hw & Hp). pose proof (wake_woken s Hl) as Hk.
  in_flight H irq ph Hi ph' s1 Hf; unfold handler_wake in Hf; destruct ph; simplify_eq.
  apply (tended_woken s); simpl; rewrite ?Hp; done.
Qed.

(** ** The worker *)

Lemma tended_worker_step s c w :
  tended s → w ≠ Unstarted → active c = active (controller s) →
  (active c = true → event_work_pending c = true →
   soon (set_worker w s) ∨ event_work_pending (controller s) = true ∧ ¬ soon s) →
  tended (set_worker w (set_controller c s)).
Proof.
  intros [Hs Ha] Hw Hac Hstep. split; [done|]. simpl. intros Hact He.
  destruct (Hstep Hact He) as [H|[He' Hno]]; [by left|right]. destruct Ha as [|H]; [congruence|done..].
Qed.

Lemma tended_set_worker s w :
  tended s → w ≠ Unstarted →
  (active (controller s) = true → event_work_pending (controller s) = true → soon (set_worker w s) ∨ ¬ soon s) →
  tended (set_worker w s).
Proof.
  intros Ht Hw Hstep. rewrite <-(set_controller_same s). apply tended_worker_step; [done..|].
  intros Ha He. destruct (Hstep Ha He); tauto.
Qed.

Lemma tended_start s s' : tended s → worker_start s = Some s' → tended s'.
Proof.
  intros [Hs Ha] H. unfold worker_start in H.
  assert (s' = set_woken false (set_worker (if published s then Passing (clock s) else Visited None) s)) as ->.
  { by destruct (worker s); simplify_eq. }
  split; simpl; [by destruct (published s)|]. intros _ _. unfold published. unfold soon, called. simpl.
  destruct (prober s) eqn:Ep; try (right; right; left; done); left; right; by left.
Qed.

(** Away from the controller, the flag does not depend on the worker. *)
Lemma busy_not_soon s : busy (worker s) → ¬ soon s.
Proof. unfold soon, timed. destruct (worker s); simpl; intros [] [?|[[]|[]]]; done. Qed.

Lemma tended_visit s s' :
  tended s → worker_active s = Some s' ∨ worker_pending s = Some s' ∨ worker_retry s = Some s' ∨ worker_take s = Some s' →
  tended s'.
Proof.
  intros Ht H. unfold worker_active, worker_pending, worker_retry, worker_take in H.
  destruct (worker s) eqn:Ew; destruct H as [H|[H|[H|H]]]; simplify_eq.
  - apply tended_set_worker; [done|by case_match|]. intros -> _. left. right. by left.
  - apply tended_set_worker; [done|by case_match|]. intros _ ->. left. right. by left.
  - apply tended_set_worker; [done|by case_match|]. intros _ _. left. right. case_match; [by right|by left].
  - destruct (event_work_pending (controller s)) eqn:He.
    + by apply tended_worker_step.
    + apply tended_set_worker; [done..|]. congruence.
Qed.

Lemma tended_settle s s' : tended s → worker_settle s = Some s' → tended s'.
Proof.
  intros Ht H. unfold worker_settle in H. pose proof (busy_not_soon s) as Hb.
  destruct (worker s) eqn:Ew; simplify_eq; destruct (active (controller s)) eqn:Ea.
  1-2: apply tended_set_worker; [done..|]; intros _ _; right; by apply Hb.
  - apply tended_worker_step; [done..|]. simpl. intros _ He. right. split; [done|by apply Hb].
  - apply tended_set_worker; [done..|]. congruence.
Qed.

Lemma tended_drain s r s' : tended s → worker_drain r s = Some s' → tended s'.
Proof.
  intros Ht H. unfold worker_drain in H. pose proof (busy_not_soon s) as Hb.
  destruct (worker s) eqn:Ew; simplify_eq.
  destruct r; (apply tended_worker_step; [done..|]; simpl; intros _ He; right; split; [done|by apply Hb]).
Qed.

Lemma tended_repend s s' : tended s → worker_repend s = Some s' → tended s'.
Proof.
  intros Ht H. unfold worker_repend in H. destruct (worker s) eqn:Ew; simplify_eq.
  apply tended_worker_step; [done..|]. intros _ _. left. right. by right.
Qed.

Lemma tended_line s s' : tended s → worker_ack tiles irq_pin s = Some s' ∨ worker_enable tiles irq_pin s = Some s' → tended s'.
Proof.
  intros Ht H. unfold worker_ack, worker_enable in H. pose proof (busy_not_soon s) as Hb.
  destruct (worker s) eqn:Ew; destruct H as [H|H]; simplify_eq;
    (apply (tended_set_worker (set_gpio _ s)); [by apply tended_gpio|done|]; intros _ _; right; by apply Hb).
Qed.

Lemma tended_wait s others s' : ok s → tended s → worker_wait others s = Some s' → tended s'.
Proof.
  intros Hok Ht H. pose proof (ok_times _ Hok) as Hw. unfold worker_times in Hw.
  unfold worker_wait in H. destruct (worker s) as [| | | | | | | | | | | | |n] eqn:Ew; simplify_eq.
  destruct (from_option _ _ others); [|done]. simplify_eq. apply tended_set_worker; [done..|]. intros _ _.
  destruct n as [w|].
  - left. do 2 right. unfold timed. simpl. destruct others as [o|]; simpl; lia.
  - right. unfold soon, timed. rewrite Ew. by intros [?|[[]|[]]].
Qed.

(** ** Probe and removal *)

Lemma tended_ensure s : tended s → tended (ensure_event_worker_started s).
Proof.
  intros Ht. unfold ensure_event_worker_started. destruct (worker s) eqn:Ew; try done.
  apply tended_set_worker; [done..|]. intros _ _. left. by left.
Qed.

Lemma ensure_started s : worker (ensure_event_worker_started s) ≠ Unstarted.
Proof. unfold ensure_event_worker_started. destruct (worker s) eqn:Ew; simpl; congruence. Qed.

(** While the probe is not over the controller is called. *)
Lemma tended_probing s s' :
  tended s → prober s' ≠ Probed →
  (prober s' = Started ∨ prober s' = LevelFlagged → worker s' ≠ Unstarted) → tended s'.
Proof.
  intros _ Hp Hs. split; [tauto|]. intros _ _. right. right. by left.
Qed.

Lemma tended_probe_level s s' :
  tended s → (event_work_pending (controller s) = true → get_value tiles (gpio s) irq_pin = false) →
  probe_level tiles irq_pin s = Some s' → tended s'.
Proof.
  intros Ht Hlow H. pose proof (tn_started s Ht) as Hs. unfold probe_level in H.
  destruct (prober s) eqn:Ep; simplify_eq. destruct (get_value tiles (gpio s) irq_pin).
  - split; [intros _; tauto|]. simpl. intros _ He. by apply Hlow in He.
  - apply (tended_probing s); simpl; [done..|tauto].
Qed.

Lemma tended_probe_wake s s' : tended s → latches = true → probe_wake latches s = Some s' → tended s'.
Proof.
  intros Ht Hl H. pose proof (wake_fields s) as (_ & _ & _ & _ & Hw & _). pose proof (wake_woken s Hl) as Hk.
  unfold probe_wake in H. destruct (prober s) eqn:Ep; simplify_eq. apply (tended_woken s); simpl; try done.
  rewrite Ep. tauto.
Qed.

Lemma tended_remove s s' : tended s → remove_step tiles irq_pin s = Some s' → tended s'.
Proof.
  intros Ht H. pose proof Ht as [Hs Ha]. unfold remove_step in H.
  destruct (remover s); [destruct (published s); [|done]|..|done]; simplify_eq.
  - split; simpl; [done..|]. done.
  - split; simpl; [done..|]. done.
  - by apply (tended_keep s).
  - by apply (tended_keep s).
Qed.

(** At the probe's look at the level, the line is low if the event is flagged: the
    EC has not taken the event back.  ([flag_left_behind] below shows what happens
    otherwise.) *)
Definition kept_low (s : System) (l : Label) : bool :=
  match l with
  | ProbeLevel => negb (event_work_pending (controller s)) || negb (get_value tiles (gpio s) irq_pin)
  | _ => true
  end.

Lemma tended_step s l s' :
  ok s → tended s → latches = true → kept_low s l = true → step s l = Some s' → tended s'.
Proof.
  intros Hok Ht Hl Hlow H. destruct l; simpl in H.
  - destruct (driver_op tiles ec_device op (gpio s)); simplify_eq/=. by apply tended_gpio.
  - destruct (hardware tiles pin offset value (gpio s)); simplify_eq/=. by apply tended_gpio.
  - destruct (Z.leb_spec 0 ns); simplify_eq. apply (tended_keep s); simpl; done || lia.
  - destruct (snapshot tiles (gpio s)) as [[g new] st]. simplify_eq. apply (tended_keep s); try done.
    intros irq claim Hin. simpl. apply elem_of_app. by left.
  - by eapply tended_deliver.
  - eapply tended_returns; eauto.
  - by eapply tended_disable.
  - by eapply tended_pend.
  - by eapply tended_handler_wake.
  - eapply tended_returns; eauto.
  - by eapply tended_finish.
  - by eapply tended_start.
  - by eapply tended_wait.
  - eapply tended_visit; eauto.
  - eapply tended_visit; eauto.
  - eapply tended_visit; eauto 6.
  - eapply tended_visit; eauto 6.
  - by eapply tended_drain.
  - by eapply tended_settle.
  - by eapply tended_repend.
  - eapply tended_line; eauto.
  - eapply tended_line; eauto.
  - unfold probe in H. destruct (prober s) eqn:Ep; try done. destruct (request_irq _ _ _ _ _) as [granted g].
    simplify_eq. apply (tended_probing s); [done|by destruct granted|]. simpl. destruct granted; by intros [|].
  - simplify_eq. by apply tended_ensure.
  - destruct (prober s) eqn:Ep; simplify_eq. apply (tended_probing s); [done..|]. simpl. by intros [|].
  - destruct (prober s) eqn:Ep; simplify_eq. apply (tended_probing s); [done..|]. simpl. intros _. apply ensure_started.
  - eapply tended_probe_level; [done| |done]. intros He. simpl in Hlow. rewrite He in Hlow. by apply negb_true_iff.
  - by eapply tended_probe_wake.
  - by eapply tended_remove.
Qed.

(** The level is low when the probe looks at it, if the event is flagged by then. *)
Fixpoint low_at_probe (s : System) (ls : list Label) : bool :=
  match ls with
  | [] => true
  | l :: ls => kept_low s l && match step s l with Some s1 => low_at_probe s1 ls | None => true end
  end.

Lemma tended_run s ls s' :
  ok s → tended s → latches = true → low_at_probe s ls = true → run s ls = Some s' → tended s'.
Proof.
  intros Hok Ht Hl. revert s Hok Ht. induction ls as [|l ls IH]; intros s Hok Ht Hlow; [by intros [= <-]|].
  rewrite run_cons. simpl in Hlow. apply andb_prop in Hlow as [Hk Hlow].
  destruct (step s l) as [s1|] eqn:E; [|done]. simpl. apply IH; [by eapply ok_step|by eapply tended_step|done].
Qed.

Lemma tended_initial regs : tended (initial tiles regs).
Proof. by split; simpl; [intros [|[|]]|]. Qed.

(** ** A visit takes the event *)

(** The worker is on a visit of time [now], which the flag does not let go. *)
Definition on_visit (now : Z) (s : System) : Prop :=
  active (controller s) = true →
  event_work_pending (controller s) = true ∧ event_retry_not_before_ns (controller s) ≤ now ∧
  match worker s with Passing t | SawActive t | Looked t => t = now | Taking => True | _ => False end.

(** The event is flagged and the worker has not taken it. *)
Definition flagged (retry : Z) (s : System) : Prop :=
  published s = true ∧
  (active (controller s) = true →
   event_work_pending (controller s) = true ∧ event_retry_not_before_ns (controller s) ≤ retry ∧
   (idle (worker s) ∨ visiting (worker s))).

(** The outcomes of one step. *)
Ltac step_cases l H :=
  destruct l; simpl in H;
  try (apply bind_Some in H as (? & _ & [= <-]));
  try (let irq := fresh "irq" in let ph := fresh "ph" in let Hi := fresh "Hi" in let Hf := fresh "Hf" in
       apply flight_inv in H as (irq & ph & Hi & [(? & ? & Hf & ->)|(? & Hf & ->)]); simpl);
  unfold deliver, handler_load, handler_disable, handler_pend, handler_wake, other_return, finish,
    worker_start, worker_wait, worker_active, worker_pending, worker_retry, worker_take, worker_drain,
    worker_settle, worker_repend, worker_ack, worker_enable, probe, probe_level, probe_wake, remove_step,
    ensure_event_worker_started in *;
  repeat (case_match; simplify_eq/=); try done.

Lemma published_stays s l s' : step s l = Some s' → published s = true → published s' = true.
Proof.
  intros H Hp. assert (prober s ≠ Absent ∧ prober s ≠ Requested) as Hs.
  { unfold published in Hp. by destruct (prober s). }
  enough (prober s' = prober s ∨ prober s' ≠ Absent ∧ prober s' ≠ Requested) as [E|[H1 H2]].
  { unfold published in *. by rewrite E. }
  { unfold published. by destruct (prober s'). }
  clear Hp. pose proof (wake_fields s) as (_ & _ & _ & _ & _ & Hw).
  step_cases l H; first [by left|by right|tauto].
Qed.

(** Until it is taken, a flag stays and its retry time with it. *)
Lemma flag_stays s l s' :
  ok s → idle (worker s) ∨ visiting (worker s) → l ≠ WorkerTake → step s l = Some s' →
  active (controller s') = true →
  active (controller s) = true ∧
  (event_work_pending (controller s) = true → event_work_pending (controller s') = true) ∧
  event_retry_not_before_ns (controller s') = event_retry_not_before_ns (controller s).
Proof.
  intros Hok Hw Hl H. pose proof (wake_fields s) as (_ & _ & Hwc & _). pose proof (ok_active _ Hok) as Hact.
  step_cases l H; rewrite ?Hwc; try done; try (by destruct Hw).
  all: try (intros Ha; specialize (Hact Ha); congruence).
Qed.

Lemma worker_moves s l s' :
  step s l = Some s' → l ≠ WorkerTake → idle (worker s) ∨ visiting (worker s) →
  worker s' = worker s ∨ idle (worker s) ∧ (idle (worker s') ∨ worker s' = Passing (clock s)) ∨
  ∃ now, worker s = Passing now ∧ worker s' = (if active (controller s) then SawActive now else Visited None) ∨
         worker s = SawActive now ∧ worker s' = (if event_work_pending (controller s) then Looked now else Visited None) ∨
         worker s = Looked now ∧
           worker s' = (let t := event_retry_not_before_ns (controller s) in
                        if now <? t then Visited (Some (t - now)) else Taking).
Proof.
  intros H Hl Hw. pose proof (wake_fields s) as (_ & _ & _ & _ & Hww & _).
  step_cases l H; rewrite ?Hww; try (by left); try (by destruct Hw); right; try (by left; eauto).
  all: try (right; eexists; eauto 6; done).
  all: right; eexists; do 2 right; split; [done|]; match goal with H : (_ <? _) = _ |- _ => by rewrite H end.
Qed.

Lemma never_active_again s l s' :
  active (controller s) = false → step s l = Some s' → active (controller s') = true → False.
Proof.
  intros Ha H Ha'. pose proof (wake_fields s) as (_ & _ & Hwc & _).
  revert Ha Ha'. step_cases l H; rewrite ?Hwc; simpl; congruence.
Qed.

Lemma flagged_step retry s l s' :
  ok s → l ≠ WorkerTake → step s l = Some s' → flagged retry s → flagged retry s'.
Proof.
  intros Hok Hl H [Hp Hf]. split; [by eapply published_stays|]. intros Ha'.
  destruct (active (controller s)) eqn:Ha.
  - destruct (Hf eq_refl) as (He & Hr & Hw). destruct (flag_stays s l s' Hok Hw Hl H Ha') as (_ & He' & Hr').
    split_and!; [auto|lia|].
    destruct (worker_moves s l s' H Hl Hw) as [->|[[_ [Hi | ->]]|(now & [[_ ->]|[[_ ->]|[_ ->]]])]]; [done|by left|by right|..].
    + case_match; [by right|by left].
    + case_match; [by right|by left].
    + simpl. case_match; [by left|by right].
  - exfalso. by eapply never_active_again.
Qed.

Lemma on_visit_step now s l s' :
  ok s → l ≠ WorkerTake → step s l = Some s' → on_visit now s → on_visit now s'.
Proof.
  intros Hok Hl H Hv Ha'. destruct (active (controller s)) eqn:Ha; [|exfalso; by eapply never_active_again].
  destruct (Hv Ha) as (He & Hr & Hw). assert (visiting (worker s)) as Hvis by (by destruct (worker s)).
  destruct (flag_stays s l s' Hok (or_intror Hvis) Hl H Ha') as (_ & He' & Hr').
  split_and!; [auto|lia|].
  destruct (worker_moves s l s' H Hl (or_intror Hvis)) as [->|[[Hi _]|(t & [[Ew ->]|[[Ew ->]|[Ew ->]]])]].
  - done.
  - by destruct (worker s).
  - rewrite Ew in Hw. by rewrite Ha.
  - rewrite Ew in Hw. by rewrite He.
  - rewrite Ew in Hw. subst t. simpl. by rewrite (proj2 (Z.ltb_ge _ _)).
Qed.

(** The next step of a visit, up to the one that takes the event. *)
Definition next_of_visit (w : Worker) : option Label :=
  match w with
  | Passing _ => Some WorkerActive
  | SawActive _ => Some WorkerPending
  | Looked _ => Some WorkerRetry
  | Taking => Some WorkerTake
  | _ => None
  end.

(** The worker is about to take the event. *)
Definition will_take (s : System) : Prop :=
  ∃ l s', next_of_visit (worker s) = Some l ∧ step s l = Some s' ∧ (l = WorkerTake → worker s' = Draining).

Lemma on_visit_takes now s : on_visit now s → active (controller s) = true → will_take s.
Proof.
  intros Hv Ha. destruct (Hv Ha) as (He & _ & Hw). unfold will_take.
  destruct (worker s) eqn:Ew; try done; eexists _, _; (split; [done|]); simpl;
    unfold worker_active, worker_pending, worker_retry, worker_take; rewrite Ew; (split; [done|]); try done.
  by rewrite He.
Qed.

Lemma run_keeps (P : System → Prop) s ls s' :
  (∀ s l s', ok s → l ≠ WorkerTake → step s l = Some s' → P s → P s') →
  ok s → WorkerTake ∉ ls → run s ls = Some s' → P s → P s' ∧ ok s'.
Proof.
  intros Hstep. revert s. induction ls as [|l ls IH]; intros s Hok Hn; [by intros [= <-]|].
  rewrite not_elem_of_cons in Hn. destruct Hn as [Hne Hn].
  rewrite run_cons. destruct (step s l) as [s1|] eqn:E; [|done]. simpl. intros Hrun HP.
  apply (IH s1); [by eapply ok_step|done..|]. by eapply Hstep.
Qed.

(** A visit that begins when the delay is over takes the event. *)
Lemma late_visit_takes s ls1 s1 ls2 s2 :
  ok s → published s = true → event_work_pending (controller s) = true →
  idle (worker s) ∨ visiting (worker s) →
  run s ls1 = Some s1 → clock s + EVENT_RETRY_MAX_NS ≤ clock s1 → run s1 (WorkerStart :: ls2) = Some s2 →
  WorkerTake ∉ ls1 ++ ls2 → active (controller s2) = true → will_take s2.
Proof.
  intros Hok Hp He Hw Hrun1 Hlate Hrun2 Hn Ha. rewrite not_elem_of_app in Hn. destruct Hn as [Hn1 Hn2].
  pose proof (ok_retry _ Hok) as Hr.
  destruct (run_keeps (flagged (clock s + EVENT_RETRY_MAX_NS)) s ls1 s1 (flagged_step _) Hok Hn1 Hrun1) as [[Hp1 Hf1] Hok1].
  { by split. }
  rewrite run_cons in Hrun2. simpl in Hrun2. unfold worker_start in Hrun2. rewrite Hp1 in Hrun2.
  assert (run (set_woken false (set_worker (Passing (clock s1)) s1)) ls2 = Some s2) as Hrun3
    by (by destruct (worker s1)).
  assert (ok (set_woken false (set_worker (Passing (clock s1)) s1))) as Hok2.
  { apply (ok_start s1); [done|]. unfold worker_start. rewrite Hp1. by destruct (worker s1). }
  destruct (run_keeps (on_visit (clock s1)) _ ls2 s2 (on_visit_step _) Hok2 Hn2 Hrun3) as [Hv _].
  - intros Ha1. destruct (Hf1 Ha1) as (He1 & Hr1 & _). simpl. split_and!; [done|lia|done].
  - by eapply on_visit_takes.
Qed.

(** A flagged event is taken up when the longest delay has passed. *)
Definition take_up : list Label :=
  [Tick EVENT_RETRY_MAX_NS; WorkerStart; WorkerActive; WorkerPending; WorkerRetry; WorkerTake].

Lemma pending_taken s deadline :
  ok s → published s = true → active (controller s) = true → event_work_pending (controller s) = true →
  worker s = Waiting deadline → ∃ s', run s take_up = Some s' ∧ worker s' = Draining.
Proof.
  intros Hok Hp Ha He Hw. pose proof (ok_retry _ Hok) as Hr.
  destruct s as [g fl [act pend errs retry] t w wk p r]. simpl in *. subst w act pend.
  unfold EcWorker.run, take_up. cbn [foldl mbind option_bind EcWorker.step].
  change (0 <=? EVENT_RETRY_MAX_NS) with true. cbn [set_clock mbind option_bind].
  unfold worker_start, published in *. simpl in Hp |- *. rewrite Hp. simpl.
  unfold worker_active, worker_pending, worker_retry. simpl. rewrite (proj2 (Z.ltb_ge _ _)) by lia. simpl.
  eexists. split; [done|done].
Qed.

(** At rest, the waker or a timer stands for the flag. *)
Lemma flag_at_rest s deadline :
  tended s → flights s = [] → prober s = Probed → worker s = Waiting deadline → active (controller s) = true →
  event_work_pending (controller s) = true →
  woken s = true ∨ ∃ t, deadline = Some t ∧ t ≤ clock s + EVENT_RETRY_MAX_NS.
Proof.
  intros Ht Hf Hp Hw Ha He. destruct (tn_flag s Ht Ha He) as [[H|[H|H]]|[H|[H|(irq & claim & Hin)]]].
  - congruence.
  - by rewrite Hw in H.
  - right. unfold timed in H. rewrite Hw in H. destruct deadline as [t|]; [by exists t|done].
  - by left.
  - done.
  - rewrite Hf in Hin. by apply elem_of_nil in Hin.
Qed.

Lemma quiescent s :
  active (controller s) = true → safe s → flights s = [] → idle (worker s) →
  event_work_pending (controller s) = false → armed LowLevel (config (gpio s) irq_pin).
Proof.
  intros _ [(gn & _ & [Ha|(irq & ph & Hin & _)])|[H|[H|(irq & Hin)]]] Hf Hw He; [done|..].
  - rewrite Hf in Hin. by apply elem_of_nil in Hin.
  - congruence.
  - by destruct (worker s).
  - rewrite Hf in Hin. by apply elem_of_nil in Hin.
Qed.
End Facts.

(** C29: No event of the EC is lost, in any interleaving of worker, interrupt
    deliveries, probe, removal, other drivers, other controllers and hardware.  A
    pin without an enabled handler never raises the interrupt.  While the
    controller is active its line is armed, or masked for a delivery that will
    reach its handler, or the event is flagged, or the worker holds it and will
    arm the line or flag it again; in particular the line is armed whenever
    everything is at rest.  If the kernel's waker latches, and the line is still
    low when the probe looks at it with an event flagged before, then behind every
    flagged event stands the worker's visit, its timer, a wake-up or one about to
    come: when the probe is over and no delivery is under way, a waiting worker has
    been woken or its timer runs out within eight seconds.  And every pass that
    begins eight seconds or more after the flag goes on to take the event: it does
    not wait again before.  Once the pin is freed it never belongs to the
    controller again, even if the worker was about to enable it. *)
Theorem no_event_lost (tiles : list Z) (irq_pin ec_device : Z) (latches : bool) (regs : Z → Z) (ls : list Label)
    (s : System)
    (Htiles : tiles_ok tiles) (Hpin : pin_ok irq_pin)
    (Hrun : run tiles irq_pin ec_device latches (initial tiles regs) ls = Some s) :
  let run := run tiles irq_pin ec_device latches in
  quiet_lines tiles (gpio s) ∧
  (prober s ≠ Absent → active (controller s) = true →
   safe tiles irq_pin ec_device s ∧
   (flights s = [] → idle (worker s) → event_work_pending (controller s) = false →
    armed LowLevel (TlmmIrqFacts.config tiles (gpio s) irq_pin))) ∧
  (latches = true → low_at_probe tiles irq_pin ec_device latches (initial tiles regs) ls = true →
   tended s ∧
   (∀ deadline, flights s = [] → prober s = Probed → worker s = Waiting deadline → active (controller s) = true →
    event_work_pending (controller s) = true →
    woken s = true ∨ ∃ t, deadline = Some t ∧ t ≤ clock s + EVENT_RETRY_MAX_NS)) ∧
  (published s = true → event_work_pending (controller s) = true → idle (worker s) ∨ visiting (worker s) →
   (∀ ls1 s1 ls2 s2,
     run s ls1 = Some s1 → clock s + EVENT_RETRY_MAX_NS ≤ clock s1 → run s1 (WorkerStart :: ls2) = Some s2 →
     WorkerTake ∉ ls1 ++ ls2 → active (controller s2) = true → will_take tiles irq_pin ec_device latches s2) ∧
   (∀ deadline, active (controller s) = true → worker s = Waiting deadline →
    ∃ s', run s take_up = Some s' ∧ worker s' = Draining)) ∧
  (remover s = Freed → slot_device (gpio s) irq_pin ≠ Some ec_device).
Proof.
  simpl. assert (ok tiles irq_pin ec_device (initial tiles regs)) as Hinit by (by apply ok_initial).
  assert (ok tiles irq_pin ec_device s) as Hok by (by eapply ok_run).
  split_and!.
  - apply Hok.
  - intros Hp Ha. pose proof (ok_safe _ _ _ _ Hok Hp Ha). split; [done|]. by apply (quiescent tiles irq_pin ec_device).
  - intros Hl Hlow. assert (tended s) as Ht.
    { by apply (tended_run tiles irq_pin ec_device latches Htiles Hpin (initial tiles regs) ls); [|apply tended_initial|..]. }
    split; [done|]. intros deadline. by apply flag_at_rest.
  - intros Hp He Hw. split.
    + intros ls1 s1 ls2 s2. by apply (late_visit_takes tiles irq_pin ec_device latches).
    + intros deadline Ha. by eapply (pending_taken tiles irq_pin ec_device).
  - intros Hr. apply (ok_unheld _ _ _ _ Hok). by right.
Qed.
End EcWorkerFacts.

(** * The embedded controller and the GPIO controller at work

    An EC that answers one command, a batch of events, a pin configuration and an
    interrupt from the pin to the worker and back. *)

Module EcSample.
Import Ec EcFacts.

Definition byteb (l : list Z) : bool := forallb (λ x, (0 <=? x) && (x <? 256)) l.

Lemma byteb_ok l : byteb l = true → Forall u8 l.
Proof.
  intros H. apply Forall_forall. intros x Hx. unfold byteb in H. rewrite forallb_forall in H.
  apply list_elem_of_In in Hx. specialize (H x Hx). unfold u8. lia.
Qed.

(** ** A command *)

Definition sample_server (c v : Z) (p : list Z) : Z * list Z :=
  if c =? COMMAND_GET_FEATURES then (0, [64; 0; 0; 1; 16; 0; 0; 0]) else (1, []).

Definition sample_transfer (n : nat) (request : list Z) : option (list Z) :=
  match parse_request request with
  | Some (c, v, p) =>
      let '(result, data) := sample_server c v p in
      Some ([0xff; 0xfa] ++ SPI_FRAME_START :: answer result data ++ [0; 0])
  | None => None
  end.

Lemma sample_serves : serves sample_server sample_transfer.
Proof.
  split.
  - intros c v p. unfold sample_server, u16. destruct (c =? COMMAND_GET_FEATURES); by split.
  - intros n request c v p H. unfold sample_transfer. rewrite H.
    destruct (sample_server c v p) as [result data]. eexists. split; [done|].
    exists [0xff; 0xfa], [0; 0]. split; [|done]. by repeat constructor.
Qed.

Lemma sample_bytes : wire_bytes sample_transfer.
Proof.
  intros n request wire. unfold sample_transfer. destruct (parse_request request) as [[[c v] p]|]; [|done].
  unfold sample_server. destruct (c =? COMMAND_GET_FEATURES); intros [= <-]; apply byteb_ok; vm_compute; reflexivity.
Qed.

Example features_read :
  supports_motion_sense_fifo sample_transfer 0%nat = (Ok true, 1%nat) ∧
  set_display_backlight_percent sample_transfer 50 0%nat = (Err (EcResult 1), 1%nat).
Proof. by vm_compute. Qed.

Lemma command_delivered_witness :
  wire_bytes sample_transfer ∧ serves sample_server sample_transfer ∧
  command sample_transfer COMMAND_GET_FEATURES 0 [] 0%nat = (Ok [64; 0; 0; 1; 16; 0; 0; 0], 1%nat).
Proof.
  split; [exact sample_bytes|]. split; [exact sample_serves|].
  destruct (command_delivered sample_server sample_transfer COMMAND_GET_FEATURES 0 [] 0%nat) as (_ & H & _).
  - exact sample_bytes.
  - unfold COMMAND_GET_FEATURES, u16. lia.
  - unfold u8. lia.
  - done.
  - rewrite (H sample_serves). done.
Defined.

(** ** Events *)

(** A button event, announcing another, then a switch event, then none. *)
Definition event_server (n : nat) : Z * list Z :=
  match n with
  | O => (0, [0x83; 1; 2])
  | S O => (0, [0x04; 7])
  | _ => (EC_RESULT_UNAVAILABLE, [])
  end.

Definition event_transfer (n : nat) (request : list Z) : option (list Z) :=
  let '(result, data) := event_server n in Some (SPI_FRAME_START :: answer result data).

Definition start_draining : Draining := mk_draining 0%nat [mk_entry 1 10; mk_entry 2 20] [].

Example events_drained :
  drain_events event_transfer (λ _ _, true) (λ _ _, true) start_draining =
  (Ok true, mk_draining 2%nat [mk_entry 1 10; mk_entry 2 20]
     [(10, (3, [1; 2])); (20, (3, [1; 2])); (10, (4, [7])); (20, (4, [7]))]).
Proof. by vm_compute. Qed.

Lemma drain_events_lossless_witness :
  ∃ es, drained event_transfer 64%nat 0%nat 2%nat es (Ok true).
Proof.
  pose proof (drain_events_lossless event_transfer (λ _ _, true) (λ _ _, true) start_draining
    (λ _ _, eq_refl) (λ _ _, eq_refl)) as H.
  rewrite events_drained in H. destruct H as (_ & es & _ & Hd). exists es. exact Hd.
Defined.

(** ** A pin configuration *)

Import Tlmm TlmmFacts PinctrlFacts.

(** The tiles at their physical addresses. *)
Definition sample_tiles : list Z := [0x3500000; 0x3900000; 0x3d00000].

Lemma sample_tiles_ok : tiles_ok sample_tiles.
Proof.
  split; [done| |].
  - intros [|[|[|i]]] b; simpl; intros [= <-] || intros H; done || (unfold WINDOW, U64_MAX; lia).
  - intros [|[|[|i]]] [|[|[|j]]] b c; simpl; intros Hb Hc Hne; simplify_eq; unfold WINDOW; lia.
Qed.

Definition sample_pins : PinctrlState :=
  mk_state ["gpio115"; "gpio116"] (Some "qup04_i2c"%string) (Some BiasPullUp) (Some 2) false None.

Definition sample_gpio : Sc7180Tlmm := new (λ _, 0x203).

Example pins_configured :
  (apply_state sample_tiles sample_gpio sample_pins).1 = Ok 2 ∧
  word sample_tiles (apply_state sample_tiles sample_gpio sample_pins).2 115 CONFIG = 0x207 ∧
  (apply_state sample_tiles sample_gpio (mk_state ["sdc1_clk"] None None None true None)).1 = Err Unsupported.
Proof. by vm_compute. Qed.

Lemma pin_configuration_atomic_witness :
  word sample_tiles (apply_state sample_tiles sample_gpio sample_pins).2 116 CONFIG .& CONFIG_FUNCTION_MASK = 1 << 2.
Proof.
  pose proof (pin_configuration_atomic sample_tiles sample_gpio sample_pins sample_tiles_ok) as H.
  destruct (apply_state sample_tiles sample_gpio sample_pins) as [[n|e|] s'] eqn:E.
  - destruct H as (_ & _ & _ & _ & H & _). destruct (H 116) as (f & Hf & Hg & _).
    + exists "gpio116"%string. split; [by right; left|by vm_compute].
    + apply (gf_function _ _ _ _ _ Hg). vm_compute in Hf. by injection Hf as <-.
  - assert ((apply_state sample_tiles sample_gpio sample_pins).1 = Ok 2) as E1 by (by vm_compute).
    rewrite E in E1. done.
  - done.
Defined.

(** ** An interrupt, from the pin to the worker and back *)

Import TlmmIrqFacts EcWorker EcWorkerFacts.

(** Probe; the line goes low; the handler flags the event, masks the line and
    wakes the worker; that fails once, waits for its timer, drains and arms the
    line again. *)
Definition sample_start : list Label :=
  [Probe; Publish; EnsureStarted; WorkerStart; WorkerActive; WorkerPending; WorkerWait None;
   Hardware 94 INPUT_OUTPUT 1; ProbeLevel; Hardware 94 INTERRUPT_STATUS 1; Summary; Deliver 0%nat;
   HandlerLoad 0%nat None; HandlerDisable 0%nat; HandlerPend 0%nat (Some Handled); HandlerWake 0%nat; Finish 0%nat].
Definition sample_labels : list Label :=
  sample_start ++
  [WorkerStart; WorkerActive; WorkerPending; WorkerRetry; WorkerTake; WorkerDrain Error; WorkerSettle; WorkerRepend;
   WorkerWait (Some 400000000); Tick 250000000;
   WorkerStart; WorkerActive; WorkerPending; WorkerRetry; WorkerTake; WorkerDrain Complete; WorkerSettle;
   WorkerAck; WorkerEnable; WorkerWait None].

Definition sample_run (latches : bool) (ls : list Label) : option System :=
  run sample_tiles 94 7 latches (initial sample_tiles (λ _, 0)) ls.

(** What the flag stands at. *)
Definition flag_of (s : System) : Controller * Worker * bool * Prober := (controller s, worker s, woken s, prober s).

Example worker_sleeps_for_the_retry :
  flag_of <$> sample_run true (take 26 sample_labels) =
  Some (mk_controller true true 1 250000000, Waiting (Some 250000000), false, Probed).
Proof. by vm_compute. Qed.

(** A waker that does not latch loses the wake-up between the worker's look at
    the flag and its wait. *)
Example wake_lost_without_latch :
  let ls := take 6 sample_start ++ drop 7 sample_start ++ [WorkerWait None] in
  flag_of <$> sample_run false ls = Some (mk_controller true true 0 0, Waiting None, false, Probed) ∧
  flag_of <$> sample_run true ls = Some (mk_controller true true 0 0, Waiting None, true, Probed).
Proof. by vm_compute. Qed.

(** An event flagged before the controller is published, its wake-up spent on a
    pass that did not find the controller: if the line is high again when the
    probe looks, the flag stays, with the line masked, and nothing is due. *)
Definition flagged_before_published : list Label :=
  [OtherProbe; Probe; Hardware 94 INTERRUPT_STATUS 1; Summary; Deliver 0%nat;
   HandlerLoad 0%nat None; HandlerDisable 0%nat; HandlerPend 0%nat (Some Handled); HandlerWake 0%nat; Finish 0%nat;
   WorkerStart; WorkerWait None; Publish; EnsureStarted; Hardware 94 INPUT_OUTPUT 1; ProbeLevel].

Example flag_left_behind :
  flag_of <$> sample_run true flagged_before_published =
    Some (mk_controller true true 0 0, Waiting None, false, Probed) ∧
  flag_of <$> sample_run true (take 14 flagged_before_published ++ [ProbeLevel; ProbeWake]) =
    Some (mk_controller true true 0 0, Waiting None, true, Probed).
Proof. by vm_compute. Qed.

Lemma no_event_lost_witness :
  (∃ s, run sample_tiles 94 7 true (initial sample_tiles (λ _, 0)) sample_labels = Some s ∧
    active (controller s) = true ∧ flights s = [] ∧
    armed LowLevel (TlmmIrqFacts.config sample_tiles (gpio s) 94)) ∧
  (∃ s, run sample_tiles 94 7 true (initial sample_tiles (λ _, 0)) sample_start = Some s ∧ event_work_pending (controller s) = true ∧ woken s = true ∧
    ∃ s', run sample_tiles 94 7 true s take_up = Some s' ∧ worker s' = Draining).
Proof.
  assert (pin_ok 94) as Hpin by (unfold pin_ok, PIN_COUNT; lia).
  split.
  - destruct
      (run sample_tiles 94 7 true (initial sample_tiles (λ _, 0)) sample_labels) as [s|] eqn:E; [|exfalso; revert E; vm_compute; discriminate].
    exists s. split; [done|].
    assert ((λ s, (controller s, flights s, worker s, prober s)) <$>
            run sample_tiles 94 7 true (initial sample_tiles (λ _, 0)) sample_labels =
            Some (mk_controller true false 0 0, [], Waiting None, Probed)) as E1 by (by vm_compute).
    rewrite E in E1. injection E1 as Ec Ef Ew Ep.
    destruct (no_event_lost sample_tiles 94 7 true (λ _, 0) sample_labels s sample_tiles_ok Hpin E) as (_ & H & _).
    rewrite Ep, Ec, Ew in H. destruct H as [_ Harm]; [discriminate|reflexivity|].
    split; [by rewrite Ec|]. split; [exact Ef|]. by apply Harm.
  - destruct
      (run sample_tiles 94 7 true (initial sample_tiles (λ _, 0)) sample_start) as [s|] eqn:E; [|exfalso; revert E; vm_compute; discriminate].
    exists s. split; [done|].
    assert ((λ s, (controller s, flights s, worker s, prober s, clock s)) <$>
            run sample_tiles 94 7 true (initial sample_tiles (λ _, 0)) sample_start =
            Some (mk_controller true true 0 0, [], Waiting None, Probed, 0)) as E1 by (by vm_compute).
    rewrite E in E1. injection E1 as Ec Ef Ew Ep Et.
    destruct (no_event_lost sample_tiles 94 7 true (λ _, 0) sample_start s sample_tiles_ok Hpin E)
      as (_ & _ & Hdue & Htake & _).
    assert (published s = true) as Hp by (unfold published; by rewrite Ep).
    rewrite Ec, Ew in Htake. rewrite Ec in Hdue. split; [by rewrite Ec|].
    destruct Htake as [_ Htake]; [done|reflexivity|by left|].
    destruct Hdue as [_ Hdue]; [reflexivity|by vm_compute|].
    destruct (Hdue None Ef Ep Ew eq_refl eq_refl) as [Hk|(t & Ht & _)]; [|discriminate].
    split; [exact Hk|]. by apply (Htake None).
Defined.
End EcSample.
