(* ===== verification/Rsc.v ===== *)
(** * The RPMh resource state coordinator

    [lib.rs] of [qcom-rpmh-rsc]: the geometry the probe accepts, and the
    synchronous active transfers of a command batch through one TCS.  A program
    is a function on the history of register accesses; what a read returns and
    what time it is are functions of that history, given by the environment. *)
From S2P Require Import Prelude Opp.

Module Rsc.
Import Opp.

Definition RSC_DRV_ID : Z := 0.
Definition DRV_PRNT_CHLD_CONFIG : Z := 0x0c.
Definition VERSION_MAJOR_SHIFT : Z := 16.
Definition VERSION_MASK : Z := 0xff.
Definition DRV_NUM_TCS_MASK : Z := 0x3f.
Definition DRV_NUM_TCS_SHIFT : Z := 6.
Definition DRV_NCPT_MASK : Z := 0x1f.
Definition DRV_NCPT_SHIFT : Z := 27.
Definition SLEEP_TCS : Z := 0.
Definition WAKE_TCS : Z := 1.
Definition ACTIVE_TCS : Z := 2.
Definition CONTROL_TCS : Z := 3.
Definition TCS_TYPE_COUNT : Z := 4.
Definition MAX_COMMANDS_PER_TCS : Z := 16.
Definition TCS_AMC_MODE_ENABLE : Z := 1 << 16.
Definition TCS_AMC_MODE_TRIGGER : Z := 1 << 24.
Definition CMD_MSGID_LEN : Z := 8.
Definition CMD_MSGID_RESP_REQ : Z := 1 << 8.
Definition CMD_MSGID_WRITE : Z := 1 << 16.
Definition CMD_STATUS_ISSUED : Z := 1 << 8.
Definition CMD_STATUS_COMPLETE : Z := 1 << 16.
Definition REGISTER_TIMEOUT_US : Z := 1000000.
Definition TRANSFER_TIMEOUT_US : Z := 1000000.

Record RegisterLayout := mk_layout {
  tcs_stride : Z;
  command_stride : Z;
  irq_enable : Z;
  irq_status : Z;
  irq_clear : Z;
  command_wait_for_completion : Z;
  control : Z;
  status : Z;
  command_enable : Z;
  command_msgid : Z;
  command_address : Z;
  command_data : Z;
  command_status : Z;
}.

Definition REGISTERS_V2_7 : RegisterLayout :=
  mk_layout 672 20 0x00 0x04 0x08 0x10 0x14 0x18 0x1c 0x30 0x34 0x38 0x3c.
Definition REGISTERS_V3_0 : RegisterLayout :=
  mk_layout 672 24 0x00 0x04 0x08 0x20 0x24 0x28 0x2c 0x34 0x38 0x3c 0x40.

Record RpmhRsc := mk_rsc {
  tcs_base : Z;
  registers : RegisterLayout;
  active_tcs_offset : Z;
  active_tcs_count : Z;
  commands_per_tcs : Z;
}.

Record ActiveCommand := mk_command { address : Z; data : Z; wait_for_completion : bool }.

#[export] Instance ActiveCommand_eq_dec : EqDecision ActiveCommand.
Proof. solve_decision. Defined.

(** ** Register programs *)

Inductive Access :=
| Write (a v : Z)
| Read (a v : Z)
| Barrier
| Delay (us : Z).

(** The hardware and the clock, in microseconds. *)
Record Env := mk_env { answer : list Access → Z → Z; clock : list Access → Z }.

Definition rs (A : Type) : Type := list Access → outcome string A * list Access.

#[export] Instance rs_ret : MRet rs := λ A a h, (Ok a, h).
#[export] Instance rs_bind : MBind rs := λ A B k m h,
  match m h with
  | (Ok a, h) => k a h
  | (Err e, h) => (Err e, h)
  | (Panic, h) => (Panic, h)
  end.

Definition lift {A} (m : outcome string A) : rs A := λ h, (m, h).
(** [let _ = m] *)
Definition ignore {A} (m : rs A) : rs () := λ h,
  match m h with (Panic, h) => (Panic, h) | (_, h) => (Ok (), h) end.
Definition barrier : rs () := λ h, (Ok (), h ++ [Barrier]).
Definition udelay (us : Z) : rs () := λ h, (Ok (), h ++ [Delay us]).

Section Program.
Variable E : Env.
Variable r : RpmhRsc.

Definition current_time : rs Z := λ h, (Ok (clock E h), h).
Definition read32 (a : Z) : rs Z := λ h, (Ok (answer E h a), h ++ [Read a (answer E h a)]).
Definition write32 (a v : Z) : rs () := λ h, (Ok (), h ++ [Write a v]).

Definition tcs_register_address (tcs_id offset : Z) : outcome string Z :=
  let? window := mul_or_panic U64_MAX (tcs_stride (registers r)) tcs_id in
  let? base := add_or_panic U64_MAX (tcs_base r) window in
  add_or_panic U64_MAX base offset.

Definition tcs_command_address (tcs_id command_id offset : Z) : outcome string Z :=
  let? base := tcs_register_address tcs_id offset in
  let? command := mul_or_panic U64_MAX (command_stride (registers r)) command_id in
  add_or_panic U64_MAX base command.

Definition read_tcs_register (tcs_id offset : Z) : rs Z :=
  a ← lift (tcs_register_address tcs_id offset); read32 a.
Definition write_tcs_register (tcs_id offset value : Z) : rs () :=
  a ← lift (tcs_register_address tcs_id offset); write32 a value.
Definition read_tcs_command (tcs_id command_id offset : Z) : rs Z :=
  a ← lift (tcs_command_address tcs_id command_id offset); read32 a.
Definition write_tcs_command (tcs_id command_id offset value : Z) : rs () :=
  a ← lift (tcs_command_address tcs_id command_id offset); write32 a value.
Definition read_irq_register (offset : Z) : rs Z :=
  a ← lift (add_or_panic U64_MAX (tcs_base r) offset); read32 a.
Definition write_irq_register (offset value : Z) : rs () :=
  a ← lift (add_or_panic U64_MAX (tcs_base r) offset); write32 a value.

(** A polling loop: test, give up after the timeout, wait a microsecond. *)
Fixpoint poll (fuel : nat) (test : rs bool) (start timeout : Z) (expired : rs ()) : rs () :=
  match fuel with
  | O => λ h, (Panic, h)
  | S fuel =>
      done_ ← test;
      if done_ : bool then mret ()
      else
        now ← current_time;
        if timeout <=? saturating_sub now start then expired
        else udelay 1 ;; poll fuel test start timeout expired
  end.

(** One turn more than there are microseconds. *)
Definition poll_fuel (timeout : Z) : nat := S (Z.to_nat timeout).

Definition write_tcs_register_sync (tcs_id offset value : Z) : rs () :=
  write_tcs_register tcs_id offset value ;;
  barrier ;;
  start ← current_time;
  poll (poll_fuel REGISTER_TIMEOUT_US)
    (v ← read_tcs_register tcs_id offset; mret (v =? value))
    start REGISTER_TIMEOUT_US (lift (Err "qcom-rpmh-rsc: register write did not become visible"%string)).

Definition clear_irq_status (irq_mask : Z) : rs () :=
  v ← read_irq_register (irq_status (registers r));
  if (v .& irq_mask) =? 0 then mret ()
  else
    write_irq_register (irq_clear (registers r)) irq_mask ;;
    barrier ;;
    start ← current_time;
    poll (poll_fuel REGISTER_TIMEOUT_US)
      (v ← read_irq_register (irq_status (registers r)); mret ((v .& irq_mask) =? 0))
      start REGISTER_TIMEOUT_US (lift (Err "qcom-rpmh-rsc: stale completion IRQ did not clear"%string)).

Definition clear_trigger (tcs_id : Z) : rs () :=
  v ← read_tcs_register tcs_id (control (registers r));
  let cleared := v .&~ TCS_AMC_MODE_TRIGGER in
  write_tcs_register_sync tcs_id (control (registers r)) cleared ;;
  write_tcs_register_sync tcs_id (control (registers r)) (cleared .&~ TCS_AMC_MODE_ENABLE).

Definition trigger (tcs_id : Z) : rs () :=
  write_tcs_register_sync tcs_id (control (registers r)) TCS_AMC_MODE_ENABLE ;;
  write_tcs_register tcs_id (control (registers r)) (TCS_AMC_MODE_ENABLE .| TCS_AMC_MODE_TRIGGER) ;;
  barrier.

(** Commands with their index. *)
Definition numbered (commands : list ActiveCommand) : list (Z * ActiveCommand) :=
  zip (range (len commands)) commands.

Definition wait_mask_of (commands : list ActiveCommand) : Z :=
  foldl (λ m p, if wait_for_completion p.2 then m .| (1 << p.1) else m) 0 (numbered commands).

Definition message_id (c : ActiveCommand) : Z :=
  let id := CMD_MSGID_LEN .| CMD_MSGID_WRITE in
  if wait_for_completion c then id .| CMD_MSGID_RESP_REQ else id.

Definition write_command (tcs_id : Z) (p : Z * ActiveCommand) : rs () :=
  write_tcs_command tcs_id p.1 (command_msgid (registers r)) (message_id p.2) ;;
  write_tcs_command tcs_id p.1 (command_address (registers r)) (address p.2) ;;
  write_tcs_command tcs_id p.1 (command_data (registers r)) (data p.2).

Fixpoint for_each {X} (f : X → rs ()) (l : list X) : rs () :=
  match l with [] => mret () | x :: l => f x ;; for_each f l end.

(** Whether every command that was to be waited for is issued and complete. *)
Fixpoint acknowledgements (tcs_id wait_mask : Z) (indices : list Z) : rs bool :=
  match indices with
  | [] => mret true
  | i :: indices =>
      if (wait_mask .& (1 << i)) =? 0 then acknowledgements tcs_id wait_mask indices
      else
        v ← read_tcs_command tcs_id i (command_status (registers r));
        rest ← acknowledgements tcs_id wait_mask indices;
        mret (((v .& (CMD_STATUS_ISSUED .| CMD_STATUS_COMPLETE))
               =? (CMD_STATUS_ISSUED .| CMD_STATUS_COMPLETE)) && rest)
  end.

(** The wait for completion; on a timeout the TCS is disarmed as far as it
    answers. *)
Definition await_completion (tcs_id irq_mask : Z) : rs () :=
  start ← current_time;
  poll (poll_fuel TRANSFER_TIMEOUT_US)
    (v ← read_irq_register (irq_status (registers r)); mret (negb ((v .& irq_mask) =? 0)))
    start TRANSFER_TIMEOUT_US
    (ignore (clear_trigger tcs_id) ;;
     ignore (write_tcs_register_sync tcs_id (command_enable (registers r)) 0) ;;
     lift (Err "qcom-rpmh-rsc: active request timed out"%string)).

(** The transfer once the request has been checked: up to the trigger, and from
    the trigger on. *)
Definition prepare (commands : list ActiveCommand) (tcs_id irq_mask command_mask wait_mask : Z) : rs () :=
  clear_trigger tcs_id ;;
  write_tcs_register_sync tcs_id (command_enable (registers r)) 0 ;;
  clear_irq_status irq_mask ;;
  for_each (write_command tcs_id) (numbered commands) ;;
  write_tcs_register_sync tcs_id (command_enable (registers r)) command_mask ;;
  write_tcs_register_sync tcs_id (command_wait_for_completion (registers r)) wait_mask.

Definition complete (commands : list ActiveCommand) (tcs_id irq_mask wait_mask : Z) : rs () :=
  await_completion tcs_id irq_mask ;;
  acknowledged ← acknowledgements tcs_id wait_mask (range (len commands));
  clear_trigger tcs_id ;;
  write_tcs_register_sync tcs_id (command_enable (registers r)) 0 ;;
  write_tcs_register_sync tcs_id (command_wait_for_completion (registers r)) 0 ;;
  clear_irq_status irq_mask ;;
  if acknowledged : bool then mret ()
  else lift (Err "qcom-rpmh-rsc: request completed without command acknowledgement"%string).

Definition transfer (commands : list ActiveCommand) (tcs_id irq_mask command_mask wait_mask : Z) : rs () :=
  prepare commands tcs_id irq_mask command_mask wait_mask ;;
  trigger tcs_id ;;
  complete commands tcs_id irq_mask wait_mask.

Definition write_active_batch (commands : list ActiveCommand) : rs () :=
  if (active_tcs_count r =? 0) || (commands_per_tcs r =? 0)
  then lift (Err "qcom-rpmh-rsc: no active TCS available"%string)
  else if len commands =? 0 then lift (Err "qcom-rpmh-rsc: active request has no commands"%string)
  else if commands_per_tcs r <? len commands
  then lift (Err "qcom-rpmh-rsc: active request exceeds TCS command capacity"%string)
  else
    let tcs_id := active_tcs_offset r in
    if 32 <=? tcs_id then lift (Err "qcom-rpmh-rsc: active TCS id is out of range"%string)
    else
      let irq_mask := 1 << tcs_id in
      v ← read_tcs_register tcs_id (status (registers r));
      if v =? 0 then lift (Err "qcom-rpmh-rsc: active TCS is busy"%string)
      else if 32 <=? len commands then λ h, (Panic, h)
      else
        let command_mask := (1 << len commands) - 1 in
        let wait_mask := wait_mask_of commands in
        if wait_mask =? 0
        then lift (Err "qcom-rpmh-rsc: synchronous request has no completion command"%string)
        else transfer commands tcs_id irq_mask command_mask wait_mask.

Definition write_active (a d : Z) : rs () := write_active_batch [mk_command a d true].
End Program.

(** ** The probe *)

(** The groups of [qcom,tcs-config]: which types were seen, the TCSs so far and
    the active group. *)
Record Groups := mk_groups { seen : list Z; offset : Z; active_group : option (Z * Z) }.

Definition add_group (g : Groups) (entry : Z * Z) : outcome string Groups :=
  let '(kind, count) := entry in
  if (TCS_TYPE_COUNT <=? kind) || bool_decide (kind ∈ seen g)
  then Err "qcom-rpmh-rsc: invalid or duplicate TCS type"%string
  else
    let seen' := kind :: seen g in
    if 3 <? count then Err "qcom-rpmh-rsc: TCS group is too large"%string
    else if (kind =? CONTROL_TCS) || (count =? 0) then Ok (mk_groups seen' (offset g) (active_group g))
    else
      let? active :=
        if kind =? ACTIVE_TCS then Ok (Some (offset g, count))
        else if negb (kind =? SLEEP_TCS) && negb (kind =? WAKE_TCS)
        then Err "qcom-rpmh-rsc: unsupported TCS type"%string
        else Ok (active_group g) in
      let? next := ok_or (checked_add U32_MAX (offset g) count) "qcom-rpmh-rsc: TCS count overflow"%string in
      Ok (mk_groups seen' next active).

Fixpoint pairs (l : list Z) : list (Z * Z) :=
  match l with a :: b :: l => (a, b) :: pairs l | _ => [] end.

(** [chunks_exact(4)] of big-endian words *)
Fixpoint be_cells (bytes : list Z) : list Z :=
  match bytes with
  | a :: b :: c :: d :: bytes => from_be_bytes [a; b; c; d] :: be_cells bytes
  | _ => []
  end.

Definition read_be_cells (property : list Z) : outcome string (list Z) :=
  if negb (len property mod 4 =? 0) then Err "qcom-rpmh-rsc: malformed cell property"%string
  else Ok (be_cells property).

Definition parse_active_tcs (property : option (list Z)) (max_tcs : Z) : outcome string (Z * Z) :=
  let? property := ok_or property "qcom-rpmh-rsc: missing TCS configuration"%string in
  let? config := read_be_cells property in
  if negb (len config =? TCS_TYPE_COUNT * 2) then Err "qcom-rpmh-rsc: invalid TCS configuration length"%string
  else
    let? g := foldM add_group (mk_groups [] 0 None) (pairs config) in
    if (max_tcs <? offset g) || (32 <=? offset g)
    then Err "qcom-rpmh-rsc: TCS configuration exceeds hardware"%string
    else ok_or (active_group g) "qcom-rpmh-rsc: active TCS group is missing"%string.

(** What the probe makes of the two identification registers, the properties of
    the node and its mapping. *)
Definition geometry (driver_id tcs_offset rsc_id hardware_config : Z) (config : option (list Z)) (base size : Z) :
    outcome string RpmhRsc :=
  let major := (rsc_id >> VERSION_MAJOR_SHIFT) .& VERSION_MASK in
  let regs := if 3 <=? major then REGISTERS_V3_0 else REGISTERS_V2_7 in
  let? shift := ok_or (checked_mul U32_MAX DRV_NUM_TCS_SHIFT driver_id)
                  "qcom-rpmh-rsc: driver id shift overflow"%string in
  let max_tcs := (if shift <? 32 then hardware_config >> shift else 0) .& DRV_NUM_TCS_MASK in
  let ncpt := (hardware_config >> DRV_NCPT_SHIFT) .& DRV_NCPT_MASK in
  if max_tcs =? 0 then Err "qcom-rpmh-rsc: hardware reports no TCS blocks"%string
  else if (ncpt =? 0) || (MAX_COMMANDS_PER_TCS <? ncpt)
  then Err "qcom-rpmh-rsc: invalid commands-per-TCS value"%string
  else
    let? (active_offset, active_count) := parse_active_tcs config max_tcs in
    let? window := ok_or (checked_mul U64_MAX (tcs_stride regs) (max_tcs - 1))
                     "qcom-rpmh-rsc: TCS window overflow"%string in
    let? required :=
      ok_or (o ← checked_add U64_MAX tcs_offset window;
             c ← checked_mul U64_MAX (command_stride regs) (ncpt - 1);
             o ← checked_add U64_MAX o c;
             o ← checked_add U64_MAX o (command_status regs);
             checked_add U64_MAX o 4)
        "qcom-rpmh-rsc: register window overflow"%string in
    if size <? required then Err "qcom-rpmh-rsc: MMIO resource is smaller than TCS geometry"%string
    else
      let? tcs := ok_or (checked_add U64_MAX base tcs_offset) "qcom-rpmh-rsc: TCS base overflow"%string in
      Ok (mk_rsc tcs regs active_offset active_count ncpt).

(** The interrupts the probe enables. *)
Definition active_mask (r : RpmhRsc) : Z :=
  (((1 << active_tcs_count r) - 1) << active_tcs_offset r) mod 2 ^ 32.

(** [names.iter().position(..)] *)
Fixpoint position_of (name : string) (names : list string) : option Z :=
  match names with
  | [] => None
  | n :: names => if bool_decide (n = name) then Some 0 else Z.succ <$> position_of name names
  end.

(** The driver's window among the memory resources, each with its start and, if
    it is valid, its size. *)
Definition resource_for_driver (reg_names : option (list string)) (resources : list (Z * option Z))
    (driver_id : Z) : outcome string (Z * option Z) :=
  let? target_name :=
    if driver_id =? 0 then Ok "drv-0"%string else if driver_id =? 1 then Ok "drv-1"%string
    else if driver_id =? 2 then Ok "drv-2"%string else Err "qcom-rpmh-rsc: unsupported driver id"%string in
  let? names := ok_or reg_names "qcom-rpmh-rsc: missing reg-names"%string in
  let? index := ok_or (position_of target_name names) "qcom-rpmh-rsc: driver register window is missing"%string in
  ok_or (resources !! Z.to_nat index) "qcom-rpmh-rsc: driver MMIO resource is missing"%string.

(** The registered controllers, by phandle. *)
Definition Controllers : Type := list (Z * RpmhRsc).

Definition controller (controllers : Controllers) (phandle : Z) : option RpmhRsc :=
  snd <$> List.find (λ c : Z * RpmhRsc, c.1 =? phandle) controllers.

(** Replace the first entry with the key, or append; remove the first entry. *)
Fixpoint register {A} (key : A → Z) (a : A) (l : list A) : list A :=
  match l with
  | [] => [a]
  | b :: l => if key b =? key a then a :: l else b :: register key a l
  end.
Fixpoint unregister {A} (key : A → Z) (k : Z) (l : list A) : list A :=
  match l with
  | [] => []
  | b :: l => if key b =? k then l else b :: unregister key k l
  end.

Section Probe.
Context (property : string → option (list Z)).

Definition read_u32_property (name : string) : outcome string Z :=
  let? value := ok_or (property name) "qcom-rpmh-rsc: required property is missing"%string in
  let? cells := read_be_cells value in
  match cells with
  | [value] => Ok value
  | _ => Err "qcom-rpmh-rsc: property must contain one cell"%string
  end.

Definition read_phandle : outcome string Z :=
  match read_u32_property "phandle" with Err _ => read_u32_property "linux,phandle" | r => r end.

Definition probe (E : Env) (reg_names : option (list string)) (resources : list (Z * option Z))
    (ioremap : Z → Z → option Z) (controllers : Controllers) : rs Controllers :=
  driver_id ← lift (read_u32_property "qcom,drv-id");
  tcs_offset ← lift (read_u32_property "qcom,tcs-offset");
  phandle ← lift read_phandle;
  resource ← lift (resource_for_driver reg_names resources driver_id);
  size ← lift (ok_or resource.2 "qcom-rpmh-rsc: invalid MMIO resource"%string);
  base ← lift (ok_or (ioremap resource.1 size) "qcom-rpmh-rsc: ioremap failed"%string);
  rsc_id ← read32 E (base + RSC_DRV_ID);
  hardware_config ← read32 E (base + DRV_PRNT_CHLD_CONFIG);
  r ← lift (geometry driver_id tcs_offset rsc_id hardware_config (property "qcom,tcs-config") base size);
  write_irq_register r (irq_enable (registers r)) (active_mask r) ;;
  barrier ;;
  mret (register fst (phandle, r) controllers).

Definition remove (controllers : Controllers) : outcome string Controllers :=
  let? phandle := read_phandle in Ok (unregister fst phandle controllers).
End Probe.
End Rsc.
