(* ===== verification/RscFacts.v ===== *)
(** * Transfers of the resource state coordinator

    Whatever the hardware answers, a transfer ends, touches only the mapping of
    the coordinator, and triggers a batch at most once, with all its commands in
    place.  It succeeds only when the batch completed and was acknowledged. *)
From S2P Require Import Prelude Opp Rsc.

Module RscFacts.
Import Opp Rsc.

(** ** The geometry *)

Record rsc_ok (base size : Z) (r : RpmhRsc) : Prop := {
  ro_layout : registers r = REGISTERS_V2_7 ∨ registers r = REGISTERS_V3_0;
  ro_base : 0 ≤ base ≤ tcs_base r;
  ro_tcs : 0 ≤ active_tcs_offset r < 32;
  ro_count : 1 ≤ active_tcs_count r ≤ 3;
  ro_commands : 1 ≤ commands_per_tcs r ≤ 16;
  ro_window : tcs_base r + 672 * active_tcs_offset r + command_stride (registers r) * (commands_per_tcs r - 1)
    + command_status (registers r) + 4 ≤ base + size;
  ro_size : base + size ≤ U64_MAX;
}.

Definition groups_ok (g : Groups) : Prop :=
  0 ≤ offset g ∧ match active_group g with
                 | Some (o, c) => 0 ≤ o ∧ 1 ≤ c ≤ 3 ∧ o + c ≤ offset g
                 | None => True end.

Lemma add_group_ok g entry :
  0 ≤ entry.2 → groups_ok g → ensures groups_ok (add_group g entry).
Proof.
  destruct entry as [kind count]. simpl. intros Hc [Ho Ha]. unfold add_group.
  destruct (_ || _); [done|]. destruct (Z.ltb_spec 3 count); [done|].
  destruct (_ || _) eqn:Ez; [done|]. apply orb_false_elim in Ez as [_ Hz]. apply Z.eqb_neq in Hz.
  unfold checked_add.
  destruct (kind =? ACTIVE_TCS); cbn [bind].
  - destruct (_ <=? _); [|done]. cbn [bind ok_or]. split; simpl; lia.
  - destruct (negb _ && negb _); [done|]. cbn [bind]. destruct (_ <=? _); [|done]. cbn [bind ok_or].
    split; simpl; [lia|]. destruct (active_group g) as [[o c]|]; [lia|done].
Qed.

Lemma pairs_nonneg l : Forall u32 l → Forall (λ e : Z * Z, 0 ≤ e.2) (pairs l).
Proof.
  enough (∀ n l, (length l ≤ n)%nat → Forall u32 l → Forall (λ e : Z * Z, 0 ≤ e.2) (pairs l)) by eauto.
  intros n. induction n as [|n IH]; intros l' Hl Hu.
  - destruct l'; [constructor|simpl in Hl; lia].
  - destruct l' as [|a [|b l']]; [constructor..|]. simpl. inv Hu. inv H2. simpl in Hl.
    constructor; [unfold u32 in *; simpl; lia|]. apply IH; [lia|done].
Qed.

Lemma from_le_bound (l : list Z) n : Forall u8 l → length l = n → 0 ≤ from_le_bytes l < 2 ^ (8 * Z.of_nat n).
Proof.
  intros Hl <-. unfold from_le_bytes, from_be_bytes.
  rewrite <- (fold_left_rev_right (λ b acc, acc * 256 + b)), rev_involutive.
  induction Hl as [|b l Hb Hl IH]; simpl; [lia|]. unfold u8 in Hb.
  replace (8 * Z.of_nat (S (length l))) with (8 + 8 * Z.of_nat (length l)) by lia.
  rewrite Z.pow_add_r by lia. lia.
Qed.

Lemma be_cells_u32 l : Forall u8 l → Forall u32 (be_cells l).
Proof.
  enough (∀ n l, (length l ≤ n)%nat → Forall u8 l → Forall u32 (be_cells l)) by eauto.
  intros n. induction n as [|n IH]; intros l' Hl Hu.
  - destruct l'; [constructor|simpl in Hl; lia].
  - destruct l' as [|a [|b [|c [|d l']]]]; [constructor..|]. rewrite !Forall_cons in Hu.
    destruct Hu as (Ha & Hb & Hc & Hd & Hu). simpl in Hl. simpl. constructor; [|apply IH; [lia|done]].
    unfold u8, u32, from_be_bytes in *. simpl. lia.
Qed.

Lemma parse_active_tcs_ok property max_tcs :
  (∀ bytes, property = Some bytes → Forall u8 bytes) → ensures (λ p, 0 ≤ p.1 ∧ 1 ≤ p.2 ≤ 3 ∧ p.1 + p.2 ≤ max_tcs ∧ p.1 + p.2 < 32)
    (parse_active_tcs property max_tcs).
Proof.
  intros Hbytes. unfold parse_active_tcs. apply ensures_bind, ensures_ok_or. intros bytes Hb.
  unfold read_be_cells. destruct (negb _); [done|]. cbn [bind].
  pose proof (be_cells_u32 bytes (Hbytes bytes Hb)) as Hu. set (config := be_cells bytes) in *. clearbody config.
  destruct (negb _); [done|]. apply ensures_bind. eapply ensures_mono.
  - apply (ensures_foldM (λ _, groups_ok) add_group _ (pairs config)); [by split; simpl|].
    intros pre e s post Hpre Hs. apply add_group_ok; [|done].
    pose proof (pairs_nonneg config Hu) as HF. rewrite Hpre in HF. apply Forall_app in HF as [_ HF].
    by apply Forall_cons in HF as [? _].
  - intros g [Ho Ha]. destruct (_ || _) eqn:E; [done|]. apply orb_false_elim in E as [E1 E2].
    apply Z.ltb_ge in E1. apply Z.leb_gt in E2. destruct (active_group g) as [[o c]|]; simpl; [lia|done].
Qed.

Lemma geometry_ok driver_id tcs_offset rsc_id hardware_config config base size :
  (∀ bytes, config = Some bytes → Forall u8 bytes) → 0 ≤ base → 0 ≤ tcs_offset → base + size ≤ U64_MAX →
  0 ≤ hardware_config →
  ensures (rsc_ok base size) (geometry driver_id tcs_offset rsc_id hardware_config config base size).
Proof.
  intros Hu Hb Ho Hs Hh. unfold geometry.
  set (regs := if 3 <=? _ then REGISTERS_V3_0 else REGISTERS_V2_7).
  assert (regs = REGISTERS_V2_7 ∨ regs = REGISTERS_V3_0) as Hregs by (subst regs; case_match; auto).
  clearbody regs. destruct (ok_or _ _) as [shift| |] eqn:Eshift; [|done|by destruct (checked_mul _ _ _)].
  cbn [bind]. set (max_tcs := _ .& DRV_NUM_TCS_MASK). set (ncpt := _ .& DRV_NCPT_MASK).
  destruct (max_tcs =? 0); [done|]. destruct (_ || _) eqn:En; [done|].
  apply orb_false_elim in En as [En1 En2]. apply Z.eqb_neq in En1. apply Z.ltb_ge in En2.
  assert (0 ≤ ncpt) as Hn by (apply Z.land_nonneg; by right).
  apply ensures_bind. eapply ensures_mono; [by apply parse_active_tcs_ok|].
  intros [o c] (Ho1 & Hc & Hoc & Ho32). simpl in *. unfold checked_mul, checked_add.
  destruct (Z.leb_spec (tcs_stride regs * (max_tcs - 1)) U64_MAX); [|done]. cbn [bind ok_or].
  destruct (Z.leb_spec (tcs_offset + tcs_stride regs * (max_tcs - 1)) U64_MAX); [|done].
  cbn [mbind option_bind].
  destruct (Z.leb_spec (command_stride regs * (ncpt - 1)) U64_MAX); [|done]. cbn [mbind option_bind].
  set (o1 := tcs_offset + tcs_stride regs * (max_tcs - 1)) in *.
  destruct (Z.leb_spec (o1 + command_stride regs * (ncpt - 1)) U64_MAX); [|done]. cbn [mbind option_bind].
  set (o2 := o1 + command_stride regs * (ncpt - 1)) in *.
  destruct (Z.leb_spec (o2 + command_status regs) U64_MAX); [|done]. cbn [mbind option_bind].
  destruct (Z.leb_spec (o2 + command_status regs + 4) U64_MAX); [|done]. cbn [mbind option_bind bind ok_or].
  unfold MAX_COMMANDS_PER_TCS in *.
  destruct (Z.ltb_spec size (o2 + command_status regs + 4)); [done|].
  destruct (Z.leb_spec (base + tcs_offset) U64_MAX); [|done]. cbn [bind ok_or].
  assert (tcs_stride regs = 672) as Hstride by (by destruct Hregs as [-> | ->]).
  subst o1 o2. rewrite Hstride in *. split; simpl; try done; lia.
Qed.

(** ** Register programs *)

Definition writes (h : list Access) : list (Z * Z) :=
  omap (λ x, match x with Write a v => Some (a, v) | _ => None end) h.

Lemma writes_app h1 h2 : writes (h1 ++ h2) = writes h1 ++ writes h2.
Proof. apply omap_app. Qed.

(** The value a sequence of writes leaves in a register. *)
Definition image (ws : list (Z * Z)) (a : Z) : option Z :=
  foldl (λ o w, if w.1 =? a then Some w.2 else o) None ws.

Lemma image_app ws1 ws2 a :
  image (ws1 ++ ws2) a = match image ws2 a with Some v => Some v | None => image ws1 a end.
Proof.
  unfold image. rewrite foldl_app. generalize (foldl (λ o w, if w.1 =? a then Some w.2 else o) None ws1).
  intros o. induction ws2 as [|w ws2 IH] using rev_ind; simpl; [done|].
  rewrite !foldl_app. simpl. by destruct (w.1 =? a).
Qed.

Lemma image_snoc ws b v a : image (ws ++ [(b, v)]) a = if b =? a then Some v else image ws a.
Proof. rewrite image_app. unfold image at 1. simpl. by destruct (b =? a). Qed.

Lemma image_unique ws a v :
  (a, v) ∈ ws → (∀ v', (a, v') ∈ ws → v' = v) → image ws a = Some v.
Proof.
  induction ws as [|[b w] ws IH] using rev_ind; intros Hin Hu; [by apply not_elem_of_nil in Hin|].
  rewrite image_snoc. destruct (Z.eqb_spec b a) as [-> |Hne].
  - f_equal. apply Hu. apply elem_of_app. right. by apply list_elem_of_singleton.
  - apply IH.
    + apply elem_of_app in Hin as [Hin|Hin]; [done|]. apply list_elem_of_singleton in Hin. congruence.
    + intros v' Hv'. apply Hu. apply elem_of_app. by left.
Qed.

(** ** Commands with their index *)

Lemma numbered_snoc l c : numbered (l ++ [c]) = numbered l ++ [(len l, c)].
Proof.
  unfold numbered. replace (len (l ++ [c])) with (Z.of_nat (S (length l))) by (unfold len; rewrite length_app; simpl; lia).
  rewrite range_S, zip_with_app; [done|]. rewrite length_range. unfold len. lia.
Qed.

Lemma numbered_elem l p : p ∈ numbered l ↔ ∃ i : nat, p.1 = Z.of_nat i ∧ l !! i = Some p.2.
Proof.
  induction l as [|c l IH] using rev_ind.
  { split; [by intros ?%not_elem_of_nil|]. by intros (i & _ & ?). }
  rewrite numbered_snoc, elem_of_app, IH, list_elem_of_singleton. split.
  - intros [(i & Hi & Hl)| ->].
    + exists i. split; [done|]. rewrite lookup_app_l; [done|by eapply lookup_lt_Some].
    + exists (length l). by rewrite lookup_app_r, Nat.sub_diag.
  - intros (i & Hi & Hl). apply lookup_app_Some in Hl as [Hl|[Hge Hl]]; [left; eauto|]. right.
    apply list_lookup_singleton_Some in Hl as [Hz Hc]. destruct p as [a b]. simpl in *. subst. f_equal.
    unfold len. lia.
Qed.

Lemma wait_mask_testbit l (i : nat) :
  Z.testbit (wait_mask_of l) (Z.of_nat i) = match l !! i with Some c => wait_for_completion c | None => false end.
Proof.
  induction l as [|c l IH] using rev_ind; [by rewrite Z.bits_0|].
  unfold wait_mask_of. rewrite numbered_snoc, foldl_app. simpl. fold (wait_mask_of l).
  assert (Z.testbit (1 << len l) (Z.of_nat i) = bool_decide (i = length l)) as Hbit.
  { rewrite Z.shiftl_1_l, Z.pow2_bits_eqb by apply len_nonneg. unfold len.
    case_bool_decide; [apply Z.eqb_eq; lia|apply Z.eqb_neq; lia]. }
  destruct (decide (i < length l)%nat).
  - rewrite lookup_app_l by done. rewrite bool_decide_eq_false_2 in Hbit by lia.
    destruct (wait_for_completion c); rewrite ?Z.lor_spec, ?Hbit, ?orb_false_r; apply IH.
  - rewrite lookup_app_r by lia. rewrite lookup_ge_None_2 in IH by lia.
    destruct (decide (i = length l)) as [-> |].
    + rewrite Nat.sub_diag. simpl. rewrite bool_decide_eq_true_2 in Hbit by done.
      destruct (wait_for_completion c); [by rewrite Z.lor_spec, Hbit, orb_true_r|apply IH].
    + rewrite bool_decide_eq_false_2 in Hbit by done.
      destruct (i - length l)%nat eqn:Ei; [lia|]. simpl.
      destruct (wait_for_completion c); rewrite ?Z.lor_spec, ?Hbit, ?orb_false_r; apply IH.
Qed.

Lemma testbit_mask m i : Z.testbit m i = true → m .& (1 << i) ≠ 0.
Proof.
  intros Hb Hz. assert (0 ≤ i) by (destruct (decide (0 ≤ i)); [done|by rewrite Z.testbit_neg_r in Hb by lia]).
  apply (f_equal (λ z, Z.testbit z i)) in Hz.
  by rewrite Z.land_spec, Z.shiftl_1_l, Z.pow2_bits_true, Hb, Z.bits_0 in Hz.
Qed.

(** A clock that does not run backwards, and waits as long as it is told. *)
Record clock_ok (E : Env) : Prop := {
  ck_mono : ∀ h x, clock E h ≤ clock E (h ++ [x]);
  ck_delay : ∀ h us, clock E h + us ≤ clock E (h ++ [Delay us]);
}.

Section Transfer.
Context (E : Env) (base size : Z) (r : RpmhRsc) (Hclock : clock_ok E) (Hrsc : rsc_ok base size r).

Notation tcs := (active_tcs_offset r).
Notation L := (registers r).

(** The addresses of a register of the TCS, of a command, and of an interrupt register. *)
Definition reg (o : Z) : Z := tcs_base r + 672 * tcs + o.
Definition cmd (i o : Z) : Z := reg o + command_stride L * i.
Definition irq (o : Z) : Z := tcs_base r + o.

Definition inside (x : Access) : Prop :=
  match x with Write a _ | Read a _ => base ≤ a ∧ a + 4 ≤ base + size | _ => True end.

(** Every write but the trigger. *)
Definition calm (x : Access) : Prop :=
  match x with Write a v => a = reg (control L) → v .& TCS_AMC_MODE_TRIGGER = 0 | _ => True end.

(** A program that ends, stays inside the mapping and does not trigger; a
    result satisfies [Q], with the accesses made. *)
Definition runs {A} (m : rs A) (Q : A → list Access → Prop) : Prop :=
  ∀ h, ∃ res new, m h = (res, h ++ new) ∧ res ≠ Panic ∧ Forall inside new ∧ Forall calm new ∧
    ∀ a, res = Ok a → Q a new.

Lemma runs_ret {A} (a : A) (Q : A → list Access → Prop) : Q a [] → runs (mret a) Q.
Proof.
  intros H h. exists (Ok a), []. rewrite app_nil_r. split_and!; [done..|]. by intros ? [= <-].
Qed.

Lemma runs_mono {A} (m : rs A) (Q Q' : A → list Access → Prop) :
  runs m Q → (∀ a new, Q a new → Q' a new) → runs m Q'.
Proof.
  intros H HQ h. destruct (H h) as (res & new & ? & ? & ? & ? & ?). exists res, new. split_and!; auto.
Qed.

Lemma runs_bind {A B} (m : rs A) (k : A → rs B) Q1 Q2 :
  runs m Q1 → (∀ a n1, Q1 a n1 → runs (k a) (λ b n2, Q2 b (n1 ++ n2))) → runs (m ≫= k) Q2.
Proof.
  intros Hm Hk h. destruct (Hm h) as (res & n1 & E1 & Hp & Hi & Hc & HQ).
  unfold mbind, rs_bind. rewrite E1. destruct res as [a|e|]; [|exists (Err e), n1; split_and!; done|done].
  destruct (Hk a n1 (HQ a eq_refl) (h ++ n1)) as (res2 & n2 & E2 & Hp2 & Hi2 & Hc2 & HQ2).
  exists res2, (n1 ++ n2). rewrite E2, app_assoc. split_and!; try done; by apply Forall_app.
Qed.

Lemma runs_err {A} e (Q : A → list Access → Prop) : runs (lift (Err e)) Q.
Proof. intros h. exists (Err e), []. rewrite app_nil_r. by split_and!. Qed.

Lemma runs_ignore {A} (m : rs A) (Q : A → list Access → Prop) : runs m Q → runs (ignore m) (λ _ _, True).
Proof.
  intros Hm h. destruct (Hm h) as (res & new & E1 & Hp & Hi & Hc & _). unfold ignore. rewrite E1.
  destruct res; [| |done]; exists (Ok ()), new; by split_and!.
Qed.

Lemma runs_barrier : runs barrier (λ _ new, new = [Barrier]).
Proof. intros h. exists (Ok ()), [Barrier]. split_and!; [done..|by constructor|by constructor|done]. Qed.

(** Reading and writing, once the address is known. *)
Lemma runs_read m a :
  m = Ok a → inside (Read a 0) →
  runs (a' ← lift m; read32 E a') (λ v new, new = [Read a v]).
Proof.
  intros -> Hin h. eexists (Ok _), [_]. unfold lift, mbind, rs_bind, read32. simpl.
  split_and!; [done|done|by constructor|by constructor|]. by intros v [= <-].
Qed.

Lemma runs_write m a v :
  m = Ok a → inside (Write a v) → calm (Write a v) →
  runs (a' ← lift m; write32 a' v) (λ _ new, new = [Write a v]).
Proof.
  intros -> Hin Hc h. eexists (Ok _), [_]. unfold lift, mbind, rs_bind, write32. simpl.
  split_and!; [done|done|by constructor|by constructor|]. by intros [] _.
Qed.

(** ** Addresses *)

Lemma layout_cases : L = REGISTERS_V2_7 ∨ L = REGISTERS_V3_0.
Proof. apply Hrsc. Qed.

Lemma reg_address o :
  0 ≤ o ≤ command_status L →
  tcs_register_address r tcs o = Ok (reg o) ∧ base ≤ reg o ∧ reg o + 4 ≤ base + size.
Proof.
  intros Ho. destruct Hrsc as [Hl Hb Ht Hn Hc Hw Hs]. unfold tcs_register_address, reg.
  assert (tcs_stride L = 672) as -> by (by destruct Hl as [-> | ->]).
  assert (0 ≤ command_stride L) by (destruct Hl as [-> | ->]; simpl; lia).
  assert (0 ≤ command_stride L * (commands_per_tcs r - 1)) by nia.
  unfold mul_or_panic, add_or_panic.
  destruct (Z.leb_spec (672 * tcs) U64_MAX); [|lia]. cbn [bind].
  destruct (Z.leb_spec (tcs_base r + 672 * tcs) U64_MAX); [|lia]. cbn [bind].
  destruct (Z.leb_spec (tcs_base r + 672 * tcs + o) U64_MAX); [|lia]. split; [done|lia].
Qed.

Lemma cmd_address i o :
  0 ≤ i < commands_per_tcs r → 0 ≤ o ≤ command_status L →
  tcs_command_address r tcs i o = Ok (cmd i o) ∧ base ≤ cmd i o ∧ cmd i o + 4 ≤ base + size.
Proof.
  intros Hi Ho. unfold tcs_command_address. destruct (reg_address o Ho) as (-> & Hlow & _). cbn [bind].
  destruct Hrsc as [Hl Hb Ht Hn Hc Hw Hs]. unfold cmd, mul_or_panic, add_or_panic.
  assert (0 ≤ command_stride L) by (destruct Hl as [-> | ->]; simpl; lia).
  assert (0 ≤ command_stride L * i ≤ command_stride L * (commands_per_tcs r - 1)) by nia.
  assert (reg o = tcs_base r + 672 * tcs + o) as Er by done.
  destruct (Z.leb_spec (command_stride L * i) U64_MAX); [|lia]. cbn [bind].
  destruct (Z.leb_spec (reg o + command_stride L * i) U64_MAX); [|lia]. split; [done|lia].
Qed.

Lemma irq_address o :
  0 ≤ o ≤ command_status L →
  add_or_panic U64_MAX (tcs_base r) o = (Ok (irq o) : outcome string Z) ∧ base ≤ irq o ∧ irq o + 4 ≤ base + size.
Proof.
  intros Ho. destruct (reg_address o Ho) as (_ & Hlow & Hhigh). unfold reg, irq in *.
  destruct Hrsc as [Hl Hb Ht Hn Hc Hw Hs]. unfold add_or_panic.
  destruct (Z.leb_spec (tcs_base r + o) U64_MAX); [|lia]. split; [done|lia].
Qed.

Lemma runs_read_reg o :
  0 ≤ o ≤ command_status L →
  runs (read_tcs_register E r tcs o) (λ v new, new = [Read (reg o) v]).
Proof. intros Ho. destruct (reg_address o Ho) as (Ha & ? & ?). by apply runs_read. Qed.

Lemma runs_write_reg o v :
  0 ≤ o ≤ command_status L → (o = control L → v .& TCS_AMC_MODE_TRIGGER = 0) →
  runs (write_tcs_register r tcs o v) (λ _ new, new = [Write (reg o) v]).
Proof.
  intros Ho Hc. destruct (reg_address o Ho) as (Ha & ? & ?). apply runs_write; [done|done|].
  simpl. unfold reg. intros ?. apply Hc. lia.
Qed.

Lemma runs_read_irq o :
  0 ≤ o ≤ command_status L →
  runs (read_irq_register E r o) (λ v new, new = [Read (irq o) v]).
Proof. intros Ho. destruct (irq_address o Ho) as (Ha & ? & ?). by apply runs_read. Qed.

Lemma runs_read_cmd i o :
  0 ≤ i < commands_per_tcs r → 0 ≤ o ≤ command_status L →
  runs (read_tcs_command E r tcs i o) (λ v new, new = [Read (cmd i o) v]).
Proof. intros Hi Ho. destruct (cmd_address i o Hi Ho) as (Ha & ? & ?). by apply runs_read. Qed.

Lemma runs_write_cmd i o v :
  0 ≤ i < commands_per_tcs r → command_msgid L ≤ o ≤ command_status L →
  runs (write_tcs_command r tcs i o v) (λ _ new, new = [Write (cmd i o) v]).
Proof.
  intros Hi Ho. assert (0 ≤ control L < command_msgid L ∧ 0 ≤ command_stride L) as [? ?]
    by (destruct layout_cases as [-> | ->]; simpl; lia).
  destruct (cmd_address i o Hi ltac:(lia)) as (Ha & ? & ?). apply runs_write; [done|done|].
  simpl. unfold cmd, reg. intros ?. nia.
Qed.

(** ** Waiting *)

Lemma clock_app h l : clock E h ≤ clock E (h ++ l).
Proof.
  induction l as [|x l IH] using rev_ind; [by rewrite app_nil_r|].
  rewrite app_assoc. pose proof (ck_mono E Hclock (h ++ l) x). lia.
Qed.

Section Poll.
Context (test : rs bool) (Qt : bool → list Access → Prop) (expired : rs ()).
Context (Htest : runs test Qt) (Hsilent : ∀ b n, Qt b n → writes n = []).
Context (Hexpired : runs expired (λ _ _, False)).

(** Between two tests a microsecond passes, so the turns are enough. *)
Lemma poll_ends fuel start timeout h :
  0 < timeout → Z.max 0 (timeout - (clock E h - start)) < Z.of_nat fuel →
  ∃ res new, poll E fuel test start timeout expired h = (res, h ++ new) ∧ res ≠ Panic ∧
    Forall inside new ∧ Forall calm new ∧
    ∀ a, res = Ok a → ∃ pre n, new = pre ++ n ∧ writes pre = [] ∧ Qt true n.
Proof.
  intros Ht. revert h. induction fuel as [|fuel IH]; intros h Hf; [lia|]. cbn [poll].
  destruct (Htest h) as (res & n1 & E1 & Hp & Hi & Hc & HQ). unfold mbind, rs_bind at 1. rewrite E1.
  destruct res as [b|e|]; [|by exists (Err e), n1|done]. specialize (HQ b eq_refl).
  destruct b.
  { exists (Ok ()), n1. split_and!; [done..|]. intros _ _. by exists [], n1. }
  unfold current_time at 1. unfold rs_bind at 1. pose proof (clock_app h n1) as Hck. unfold saturating_sub.
  destruct (Z.leb_spec timeout (Z.max 0 (clock E (h ++ n1) - start))).
  { destruct (Hexpired (h ++ n1)) as (res & n2 & E2 & ? & ? & ? & Hno).
    exists res, (n1 ++ n2). rewrite E2, app_assoc. split_and!; [done|done|by apply Forall_app|by apply Forall_app|].
    intros a Ha. by destruct (Hno a Ha). }
  unfold udelay, rs_bind at 1.
  destruct (IH ((h ++ n1) ++ [Delay 1])) as (res & n2 & E2 & Hp2 & Hi2 & Hc2 & HQ2).
  { pose proof (ck_delay E Hclock (h ++ n1) 1). lia. }
  exists res, (n1 ++ [Delay 1] ++ n2). rewrite E2, !app_assoc. split_and!; [done|done|..].
  - apply Forall_app; split; [apply Forall_app; split; [done|by repeat constructor]|done].
  - apply Forall_app; split; [apply Forall_app; split; [done|by repeat constructor]|done].
  - intros a Ha. destruct (HQ2 a Ha) as (pre & n & -> & Hw & Hn).
    exists (n1 ++ [Delay 1] ++ pre), n. rewrite <- !app_assoc. split_and!; [done| |done].
    by rewrite !writes_app, Hw, (Hsilent _ _ HQ).
Qed.

Lemma runs_wait timeout :
  0 < timeout →
  runs (start ← current_time E; poll E (poll_fuel timeout) test start timeout expired)
    (λ _ new, ∃ pre n, new = pre ++ n ∧ writes pre = [] ∧ Qt true n).
Proof.
  intros Ht h. unfold current_time, mbind, rs_bind at 1. apply poll_ends; [done|]. unfold poll_fuel. lia.
Qed.
End Poll.

(** ** The steps of a transfer *)

Lemma offsets :
  0 ≤ irq_status L ∧ irq_status L < irq_clear L ∧ irq_clear L < command_wait_for_completion L ∧
  command_wait_for_completion L < control L ∧ control L < status L ∧
  status L < command_enable L ∧ command_enable L < command_msgid L ∧
  command_address L = command_msgid L + 4 ∧ command_data L = command_msgid L + 8 ∧
  command_status L = command_msgid L + 12 ∧ 20 ≤ command_stride L.
Proof. destruct layout_cases as [-> | ->]; simpl; lia. Qed.

Lemma runs_sync o v :
  0 ≤ o ≤ command_status L → (o = control L → v .& TCS_AMC_MODE_TRIGGER = 0) →
  runs (write_tcs_register_sync E r tcs o v) (λ _ new, writes new = [(reg o, v)]).
Proof.
  intros Ho Hc. unfold write_tcs_register_sync.
  eapply runs_bind; [by apply runs_write_reg|]. intros [] n1 ->.
  eapply runs_bind; [apply runs_barrier|]. intros [] n2 ->.
  eapply runs_mono.
  - apply (runs_wait _ (λ b new, ∃ w, new = [Read (reg o) w])); [| |apply runs_err|done].
    + eapply runs_bind; [by apply runs_read_reg|]. intros w n ->. apply runs_ret. eauto.
    + by intros b n [w ->].
  - intros [] n (pre & m & -> & Hpre & [w ->]). by rewrite !writes_app, Hpre.
Qed.

Definition irq_mask_ : Z := 1 << tcs.

(** The last look at the interrupt status. *)
Definition status_seen (P : Z → Prop) (new : list Access) : Prop :=
  ∃ p v, new = p ++ [Read (irq (irq_status L)) v] ∧ P (v .& irq_mask_).

Lemma runs_status_test (b : Z → bool) :
  runs (v ← read_irq_register E r (irq_status L); mret (b (v .& irq_mask_)))
    (λ res new, ∃ v, new = [Read (irq (irq_status L)) v] ∧ res = b (v .& irq_mask_)).
Proof.
  pose proof offsets. eapply runs_bind; [apply runs_read_irq; lia|]. intros v n ->. apply runs_ret. eauto.
Qed.

Lemma runs_clear_irq :
  runs (clear_irq_status E r irq_mask_)
    (λ _ new, (writes new = [] ∨ writes new = [(irq (irq_clear L), irq_mask_)]) ∧ status_seen (λ x, x = 0) new).
Proof.
  pose proof offsets as Ho. unfold clear_irq_status.
  eapply runs_bind; [apply runs_read_irq; lia|]. intros v n ->.
  destruct (Z.eqb_spec (v .& irq_mask_) 0) as [Hv|Hv].
  { apply runs_ret. split; [by left|]. by exists [], v. }
  eapply runs_bind.
  { destruct (irq_address (irq_clear L) ltac:(lia)) as (Ha & ? & ?). apply runs_write; [done|done|].
    simpl. unfold irq, reg. destruct Hrsc. intros ?. lia. }
  intros [] n1 ->.
  eapply runs_bind; [apply runs_barrier|]. intros [] n2 ->.
  eapply runs_mono.
  - apply (runs_wait _ (λ b new, ∃ v, new = [Read (irq (irq_status L)) v] ∧ b = (v .& irq_mask_ =? 0)));
      [| |apply runs_err|done].
    + apply (runs_status_test (λ x, x =? 0)).
    + by intros b n (w & -> & _).
  - intros [] n (pre & m & -> & Hpre & w & -> & Hw). split.
    + right. by rewrite !writes_app, Hpre.
    + eexists _, w. split; [by rewrite !app_assoc|]. by apply symmetry, Z.eqb_eq in Hw.
Qed.

Lemma runs_clear_trigger :
  runs (clear_trigger E r tcs)
    (λ _ new, ∃ x y, writes new = [(reg (control L), x); (reg (control L), y)] ∧
       y .& TCS_AMC_MODE_TRIGGER = 0 ∧ y .& TCS_AMC_MODE_ENABLE = 0).
Proof.
  pose proof offsets as Ho. unfold clear_trigger.
  eapply runs_bind; [apply runs_read_reg; lia|]. intros v n ->. cbv zeta.
  set (x := v .&~ TCS_AMC_MODE_TRIGGER).
  assert (x .& TCS_AMC_MODE_TRIGGER = 0) as Hx.
  { apply Z.bits_inj'. intros k _. unfold x. rewrite Z.land_spec, Z.ldiff_spec, Z.bits_0.
    destruct (Z.testbit v k), (Z.testbit TCS_AMC_MODE_TRIGGER k); done. }
  eapply runs_bind; [apply runs_sync; [lia|done]|]. intros [] n1 H1.
  assert ((x .&~ TCS_AMC_MODE_ENABLE) .& TCS_AMC_MODE_TRIGGER = 0) as Hy.
  { apply Z.bits_inj'. intros k Hk. apply (f_equal (λ z, Z.testbit z k)) in Hx.
    rewrite Z.land_spec, Z.bits_0 in *. rewrite Z.ldiff_spec. destruct (Z.testbit x k); [|done]. simpl in *.
    rewrite Hx. by destruct (negb _). }
  eapply runs_mono; [apply runs_sync; [lia|done]|]. intros [] n2 H2. exists x, (x .&~ TCS_AMC_MODE_ENABLE).
  rewrite !writes_app, H1, H2. split_and!; [done|done|].
  apply Z.bits_inj'. intros k _. rewrite Z.land_spec, Z.ldiff_spec, Z.bits_0.
  destruct (Z.testbit x k), (Z.testbit TCS_AMC_MODE_ENABLE k); done.
Qed.

Definition command_writes (p : Z * ActiveCommand) : list (Z * Z) :=
  [(cmd p.1 (command_msgid L), message_id p.2); (cmd p.1 (command_address L), address p.2);
   (cmd p.1 (command_data L), data p.2)].

Lemma runs_write_command p :
  0 ≤ p.1 < commands_per_tcs r →
  runs (write_command r tcs p) (λ _ new, writes new = command_writes p).
Proof.
  intros Hp. pose proof offsets as Ho. unfold write_command.
  eapply runs_bind; [apply runs_write_cmd; [done|lia]|]. intros [] n1 ->.
  eapply runs_bind; [apply runs_write_cmd; [done|lia]|]. intros [] n2 ->.
  eapply runs_mono; [apply runs_write_cmd; [done|lia]|]. by intros [] n3 ->.
Qed.

Lemma runs_for_each l :
  Forall (λ p : Z * ActiveCommand, 0 ≤ p.1 < commands_per_tcs r) l →
  runs (for_each (write_command r tcs) l) (λ _ new, writes new = l ≫= command_writes).
Proof.
  induction 1 as [|p l Hp Hl IH]; [by apply runs_ret|]. cbn [for_each].
  eapply runs_bind; [by apply runs_write_command|]. intros [] n1 H1.
  eapply runs_mono; [apply IH|]. intros [] n2 H2. by rewrite writes_app, H1, H2.
Qed.

Lemma runs_acknowledgements mask l :
  Forall (λ i, 0 ≤ i < commands_per_tcs r) l →
  runs (acknowledgements E r tcs mask l)
    (λ b new, writes new = [] ∧ (b = true → ∀ i, i ∈ l → mask .& (1 << i) ≠ 0 →
       ∃ v, Read (cmd i (command_status L)) v ∈ new ∧
         v .& (CMD_STATUS_ISSUED .| CMD_STATUS_COMPLETE) = CMD_STATUS_ISSUED .| CMD_STATUS_COMPLETE)).
Proof.
  pose proof offsets as Ho. induction 1 as [|i l Hi Hl IH].
  { apply runs_ret. split; [done|]. intros _ i Hi. by apply not_elem_of_nil in Hi. }
  cbn [acknowledgements]. destruct (Z.eqb_spec (mask .& (1 << i)) 0) as [Hz|Hz].
  { eapply runs_mono; [apply IH|]. intros b n [Hw Hb]. split; [done|]. intros Ht j Hj Hm.
    apply elem_of_cons in Hj as [-> |Hj]; [done|by apply Hb]. }
  eapply runs_bind; [apply runs_read_cmd; [done|lia]|]. intros v n ->.
  eapply runs_bind; [apply IH|]. intros b n [Hw Hb]. apply runs_ret. rewrite app_nil_r. split.
  - by rewrite writes_app, Hw.
  - intros Ht j Hj Hm. apply andb_true_iff in Ht as [Hv Ht]. apply Z.eqb_eq in Hv.
    apply elem_of_cons in Hj as [-> |Hj].
    + exists v. split; [|done]. apply elem_of_app. left. by apply list_elem_of_singleton.
    + destruct (Hb Ht j Hj Hm) as (w & Hin & Hbits). exists w. split; [|done]. apply elem_of_app. by right.
Qed.

(** ** A batch *)

(** The registers of the TCS hold the batch. *)
Definition latched (commands : list ActiveCommand) (ws : list (Z * Z)) : Prop :=
  image ws (reg (command_enable L)) = Some (2 ^ len commands - 1) ∧
  (∃ w, image ws (reg (command_wait_for_completion L)) = Some w ∧
     ∀ i c, commands !! i = Some c → Z.testbit w (Z.of_nat i) = wait_for_completion c) ∧
  ∀ (i : nat) c, commands !! i = Some c →
    image ws (cmd (Z.of_nat i) (command_msgid L)) = Some (message_id c) ∧
    image ws (cmd (Z.of_nat i) (command_address L)) = Some (address c) ∧
    image ws (cmd (Z.of_nat i) (command_data L)) = Some (data c).

(** The hardware reported completion, and then the commands their acknowledgement. *)
Definition acknowledged (commands : list ActiveCommand) (new : list Access) : Prop :=
  ∃ p v q, new = p ++ Read (irq (irq_status L)) v :: q ∧ v .& irq_mask_ ≠ 0 ∧
    ∀ i c, commands !! i = Some c → wait_for_completion c = true →
      ∃ s, Read (cmd (Z.of_nat i) (command_status L)) s ∈ q ∧
        s .& (CMD_STATUS_ISSUED .| CMD_STATUS_COMPLETE) = CMD_STATUS_ISSUED .| CMD_STATUS_COMPLETE.

(** The TCS is left without trigger, mode and commands. *)
Definition disarmed (ws : list (Z * Z)) : Prop :=
  (∃ x, image ws (reg (control L)) = Some x ∧ x .& TCS_AMC_MODE_TRIGGER = 0 ∧ x .& TCS_AMC_MODE_ENABLE = 0) ∧
  image ws (reg (command_enable L)) = Some 0 ∧ image ws (reg (command_wait_for_completion L)) = Some 0.

Lemma elem_of_command_writes commands a v :
  (a, v) ∈ numbered commands ≫= command_writes →
  ∃ (j : nat) c, commands !! j = Some c ∧
    (a = cmd (Z.of_nat j) (command_msgid L) ∧ v = message_id c ∨
     a = cmd (Z.of_nat j) (command_address L) ∧ v = address c ∨
     a = cmd (Z.of_nat j) (command_data L) ∧ v = data c).
Proof.
  intros (p & Hw & Hp)%list_elem_of_bind. apply numbered_elem in Hp as (j & Hj & Hc). exists j, p.2.
  split; [done|]. unfold command_writes in Hw. rewrite Hj in Hw. rewrite !elem_of_cons in Hw.
  destruct Hw as [[= -> ->] | [[= -> ->] | [[= -> ->] | []%not_elem_of_nil]]]; auto.
Qed.

Lemma commands_latched commands (i : nat) c :
  commands !! i = Some c →
  let ws := numbered commands ≫= command_writes in
  image ws (cmd (Z.of_nat i) (command_msgid L)) = Some (message_id c) ∧
  image ws (cmd (Z.of_nat i) (command_address L)) = Some (address c) ∧
  image ws (cmd (Z.of_nat i) (command_data L)) = Some (data c).
Proof.
  intros Hi ws. pose proof offsets as Ho.
  assert (∀ o v, (cmd (Z.of_nat i) o, v) ∈ command_writes (Z.of_nat i, c) →
    (cmd (Z.of_nat i) o, v) ∈ ws) as Hin.
  { intros o v Hv. apply list_elem_of_bind. exists (Z.of_nat i, c). split; [done|]. apply numbered_elem. by exists i. }
  split_and!; (apply image_unique; [apply Hin; unfold command_writes; simpl; rewrite !elem_of_cons; tauto|]);
    intros v (j & c' & Hj & Hcases)%elem_of_command_writes;
    assert (i = j) as <- by (unfold cmd, reg in *; destruct Hcases as [[? ?] | [[? ?] | [? ?]]]; nia);
    rewrite Hi in Hj; injection Hj as <-;
    destruct Hcases as [[? ?] | [[? ?] | [? ?]]]; unfold cmd, reg in *; solve [done | lia].
Qed.

Lemma runs_prepare commands :
  len commands ≤ commands_per_tcs r →
  runs (prepare E r commands tcs irq_mask_ (2 ^ len commands - 1) (wait_mask_of commands))
    (λ _ new, latched commands (writes new) ∧ ∃ v, Read (irq (irq_status L)) v ∈ new ∧ v .& irq_mask_ = 0).
Proof.
  intros Hlen. pose proof offsets as Ho. unfold prepare.
  eapply runs_bind; [apply runs_clear_trigger|]. intros [] n1 _.
  eapply runs_bind; [apply runs_sync; [lia|lia]|]. intros [] n2 _.
  eapply runs_bind; [apply runs_clear_irq|]. intros [] n3 [_ (p3 & v3 & E3 & Hv3)].
  eapply runs_bind; [apply runs_for_each|].
  { apply Forall_forall. intros p (j & Hj & Hc)%numbered_elem. apply lookup_lt_Some in Hc. unfold len in *. lia. }
  intros [] n4 H4.
  eapply runs_bind; [apply runs_sync; [lia|lia]|]. intros [] n5 H5.
  eapply runs_mono; [apply runs_sync; [lia|lia]|]. intros [] n6 H6. split.
  - rewrite !writes_app, H4, H5, H6. set (ws := numbered commands ≫= command_writes).
    rewrite !app_assoc. set (w0 := (writes n1 ++ writes n2) ++ writes n3). split_and!.
    + rewrite !image_snoc. destruct (Z.eqb_spec (reg (command_wait_for_completion L)) (reg (command_enable L)));
        [unfold reg in *; lia|]. by rewrite Z.eqb_refl.
    + exists (wait_mask_of commands). rewrite image_snoc, Z.eqb_refl. split; [done|].
      intros i c Hi. by rewrite wait_mask_testbit, Hi.
    + intros i c Hi. rewrite !image_snoc. unfold cmd, reg.
      assert (0 ≤ command_stride L * Z.of_nat i) by nia.
      repeat match goal with |- context [?a =? ?b] => destruct (Z.eqb_spec a b); [lia|] end.
      rewrite !image_app. destruct (commands_latched commands i c Hi) as (E1 & E2 & E4).
      unfold cmd, reg in *. fold ws in E1, E2, E4. by rewrite E1, E2, E4.
  - exists v3. split; [|done]. rewrite E3, !elem_of_app. rewrite list_elem_of_singleton. tauto.
Qed.

Lemma runs_complete commands :
  len commands ≤ commands_per_tcs r →
  runs (complete E r commands tcs irq_mask_ (wait_mask_of commands))
    (λ _ new, acknowledged commands new ∧ disarmed (writes new)).
Proof.
  intros Hlen. pose proof offsets as Ho. unfold complete.
  eapply runs_bind.
  { unfold await_completion.
    apply (runs_wait _ (λ b new, ∃ v, new = [Read (irq (irq_status L)) v] ∧ b = negb (v .& irq_mask_ =? 0)));
      [| | |done].
    - apply (runs_status_test (λ x, negb (x =? 0))).
    - by intros b n (w & -> & _).
    - eapply runs_bind; [eapply runs_ignore, runs_clear_trigger|]. intros [] n _.
      eapply runs_bind; [eapply runs_ignore, runs_sync; [lia|lia]|]. intros [] n' _. apply runs_err. }
  intros [] n1 (pre & m & -> & Hpre & v & -> & Hv). apply symmetry, negb_true_iff, Z.eqb_neq in Hv.
  eapply runs_bind; [apply runs_acknowledgements|].
  { apply Forall_forall. intros i Hi. apply elem_of_range in Hi. lia. }
  intros b n2 [Hw2 Hack].
  eapply runs_bind; [apply runs_clear_trigger|]. intros [] n3 (x & y & H3 & Hy1 & Hy2).
  eapply runs_bind; [apply runs_sync; [lia|lia]|]. intros [] n4 H4.
  eapply runs_bind; [apply runs_sync; [lia|lia]|]. intros [] n5 H5.
  eapply runs_bind; [apply runs_clear_irq|]. intros [] n6 [H6 _].
  destruct b; [|apply runs_err]. apply runs_ret. split.
  - exists pre, v. eexists. split_and!; [by rewrite <- !app_assoc|done|].
    intros i c Hi Hwait. pose proof (lookup_lt_Some _ _ _ Hi).
    destruct (Hack eq_refl (Z.of_nat i)) as (s & Hs & Hbits).
    + apply elem_of_range. unfold len. lia.
    + apply testbit_mask. by rewrite wait_mask_testbit, Hi.
    + exists s. split; [|done]. rewrite !elem_of_app. tauto.
  - rewrite !writes_app, Hpre, Hw2, H3, H4, H5. rewrite ?app_nil_r. simpl. unfold disarmed.
    assert (∀ o, reg o ≠ irq (irq_clear L) → ∀ ws, image (ws ++ writes n6) (reg o) = image ws (reg o)) as Hirq.
    { intros o Hne ws. rewrite image_app. destruct H6 as [-> | ->]; [done|]. unfold image at 1. simpl.
      by destruct (Z.eqb_spec (irq (irq_clear L)) (reg o)) as [e|]; [rewrite e in Hne|]. }
    assert (0 ≤ tcs) by apply Hrsc.
    set (ws := [(reg (control L), x); (reg (control L), y); (reg (command_enable L), 0);
                (reg (command_wait_for_completion L), 0)]).
    change (_ :: _ :: _ :: _ :: writes n6) with (ws ++ writes n6).
    rewrite !Hirq by (unfold reg, irq; lia). unfold ws, image. simpl. unfold reg.
    repeat match goal with |- context [?a =? ?b] => destruct (Z.eqb_spec a b); [try lia|try lia] end.
    split_and!; eauto.
Qed.

Definition TRIGGER : Access := Write (reg (control L)) (TCS_AMC_MODE_ENABLE .| TCS_AMC_MODE_TRIGGER).

Lemma trigger_accesses h :
  ∃ res pre, Forall inside pre ∧ Forall calm pre ∧ res ≠ Panic ∧
    ((trigger E r tcs h = (res, h ++ pre) ∧ res ≠ Ok ()) ∨
     (trigger E r tcs h = (Ok (), h ++ pre ++ [TRIGGER; Barrier]) ∧
      writes pre = [(reg (control L), TCS_AMC_MODE_ENABLE)])).
Proof.
  pose proof offsets as Ho. unfold trigger.
  destruct (runs_sync (control L) TCS_AMC_MODE_ENABLE ltac:(lia) ltac:(done) h)
    as (res & pre & E1 & Hp & Hi & Hc & HQ).
  exists res, pre. split_and!; [done|done|done|].
  unfold write_tcs_register, mbind, rs_bind, lift, write32, barrier, TRIGGER. rewrite E1.
  destruct res as [[]|e|]; [right|by left|done]. split; [|by apply (HQ ())].
  destruct (reg_address (control L) ltac:(lia)) as (-> & _ & _). simpl. by rewrite <- !app_assoc.
Qed.

(** What a transfer has done when it ends. *)
Definition transfer_outcome (commands : list ActiveCommand) (res : outcome string ()) (new : list Access) : Prop :=
  res ≠ Panic ∧ Forall inside new ∧
  ((Forall calm new ∧ res ≠ Ok ()) ∨
   ∃ pre post, new = pre ++ TRIGGER :: post ∧ Forall calm pre ∧ Forall calm post ∧
     latched commands (writes pre) ∧ (∃ v, Read (irq (irq_status L)) v ∈ pre ∧ v .& irq_mask_ = 0) ∧
     (res = Ok () → acknowledged commands post ∧ disarmed (writes post))).

Lemma transfer_ends commands h :
  len commands ≤ commands_per_tcs r →
  ∃ res new, transfer E r commands tcs irq_mask_ (2 ^ len commands - 1) (wait_mask_of commands) h = (res, h ++ new) ∧
    transfer_outcome commands res new.
Proof.
  intros Hlen. pose proof offsets as Ho. unfold transfer.
  destruct (runs_prepare commands Hlen h) as (r1 & n1 & E1 & Hp1 & Hi1 & Hc1 & HQ1).
  unfold mbind, rs_bind at 1. rewrite E1.
  destruct r1 as [[]|e|]; [| |done].
  2: { exists (Err e), n1. split; [done|]. split_and!; [done|done|by left]. }
  destruct (HQ1 () eq_refl) as [(Hen & Hwait & Hcmds) (v & Hv & Hclear)].
  destruct (trigger_accesses (h ++ n1)) as (r2 & n2 & Hi2 & Hc2 & Hp2 & [[E2 Herr]|[E2 Hw2]]);
    unfold rs_bind at 1; rewrite E2.
  { exists r2, (n1 ++ n2). rewrite app_assoc. split; [by destruct r2 as [[]|e|]|].
    split_and!; [done|by apply Forall_app|left]. split; [by apply Forall_app|done]. }
  destruct (runs_complete commands Hlen ((h ++ n1) ++ n2 ++ [TRIGGER; Barrier])) as (r3 & n3 & E3 & Hp3 & Hi3 & Hc3 & HQ3).
  exists r3, ((n1 ++ n2) ++ TRIGGER :: Barrier :: n3). split.
  { rewrite E3. f_equal. rewrite <- !app_assoc. done. }
  assert (inside TRIGGER) as Hin by (destruct (reg_address (control L) ltac:(lia)); done).
  split; [done|split; [rewrite Forall_app, !Forall_cons, Forall_app; by split_and!|right]].
  exists (n1 ++ n2), (Barrier :: n3). split_and!; [done|by apply Forall_app|by constructor| | |].
  - rewrite writes_app, Hw2. unfold latched.
    assert (∀ o, o ≠ control L → ∀ ws w, image (ws ++ [(reg (control L), w)]) (reg o) = image ws (reg o)) as Hreg.
    { intros o Hne ws w. rewrite image_snoc. destruct (Z.eqb_spec (reg (control L)) (reg o)); [unfold reg in *; lia|done]. }
    rewrite !Hreg by lia. split_and!; [done|done|]. intros i c Hi. unfold cmd. rewrite !image_snoc. unfold cmd in Hcmds.
    repeat match goal with |- context [?a =? ?b] => destruct (Z.eqb_spec a b); [unfold reg in *; nia|] end.
    by apply Hcmds.
  - exists v. split; [|done]. apply elem_of_app. by left.
  - intros Hok. destruct (HQ3 () Hok) as [(p & w & q & -> & Hrest) Hdis]. split; [|done].
    exists (Barrier :: p), w, q. by split.
Qed.

Lemma write_active_batch_ends commands h :
  ∃ res new, write_active_batch E r commands h = (res, h ++ new) ∧ transfer_outcome commands res new.
Proof.
  pose proof offsets as Ho. destruct Hrsc as [Hl Hb Ht Hn Hc Hw Hs]. unfold write_active_batch.
  assert (∀ e, ∃ res new, (lift (Err e) : rs ()) h = (res, h ++ new) ∧ transfer_outcome commands res new) as Hrefuse.
  { intros e. exists (Err e), []. rewrite app_nil_r. split; [done|]. split_and!; [done|done|]. by left. }
  destruct (_ || _); [apply Hrefuse|]. destruct (_ =? 0); [apply Hrefuse|].
  destruct (Z.ltb_spec (commands_per_tcs r) (len commands)); [apply Hrefuse|].
  cbv zeta. destruct (Z.leb_spec 32 tcs); [lia|].
  destruct (runs_read_reg (status L) ltac:(lia) h) as (r1 & n1 & E1 & Hp1 & Hi1 & Hc1 & HQ1).
  unfold mbind, rs_bind. rewrite E1. destruct r1 as [v|e|]; [|exists (Err e), n1; split; [done|split_and!; [done|done|by left]]|done].
  assert (∀ e, ∃ res new, (lift (Err e) : rs ()) (h ++ n1) = (res, h ++ new) ∧ transfer_outcome commands res new) as Hrefuse1.
  { intros e. exists (Err e), n1. split; [done|]. split_and!; [done|done|]. by left. }
  destruct (v =? 0); [apply Hrefuse1|]. destruct (Z.leb_spec 32 (len commands)); [lia|].
  destruct (_ =? 0); [apply Hrefuse1|].
  replace ((1 << len commands) - 1) with (2 ^ len commands - 1) by (by rewrite Z.shiftl_1_l).
  fold irq_mask_.
  destruct (transfer_ends commands (h ++ n1) ltac:(lia)) as (res & n2 & -> & Hp & Hi & Hout).
  exists res, (n1 ++ n2). rewrite app_assoc. split; [done|]. split; [done|]. split; [by apply Forall_app|].
  destruct Hout as [[Hcalm Hne]|(pre & post & -> & Hpre & Hpost & Hlat & (w & Hin & Hz) & Hdone)].
  - left. split; [by apply Forall_app|done].
  - right. exists (n1 ++ pre), post. split_and!; [by rewrite app_assoc|by apply Forall_app|done| | |done].
    + assert (writes n1 = []) as Hw1 by (by rewrite (HQ1 v eq_refl)). by rewrite writes_app, Hw1.
    + exists w. split; [|done]. apply elem_of_app. by right.
Qed.
End Transfer.

(** C23: For every geometry the probe accepts, any hardware and a clock that
    advances, an active batch ends without a panic and touches only registers
    inside the mapping.  It triggers the TCS at most once, and only when every
    command with its message identifier, the command mask and the mask of the
    commands to wait for are in their registers and the interrupt status has
    been seen clear.  It succeeds only if the hardware then reported completion,
    every command to be waited for was acknowledged after that, and the TCS was
    left without trigger, mode and commands. *)
Theorem batch_transferred (E : Env) (driver_id tcs_offset rsc_id hardware_config : Z) (config : option (list Z))
    (base size : Z) (r : RpmhRsc) (commands : list ActiveCommand) (h : list Access) :
  clock_ok E → (∀ bytes, config = Some bytes → Forall u8 bytes) → 0 ≤ base → 0 ≤ tcs_offset → 0 ≤ hardware_config → base + size ≤ U64_MAX →
  geometry driver_id tcs_offset rsc_id hardware_config config base size = Ok r →
  ∃ res new, write_active_batch E r commands h = (res, h ++ new) ∧
    transfer_outcome base size r commands res new.
Proof.
  intros Hclock Hu Hb Ho Hh Hs Hg. eapply write_active_batch_ends; [exact Hclock|].
  eapply ensures_Ok; [|exact Hg]. by apply geometry_ok.
Qed.
End RscFacts.

(** * A coordinator at work *)
Module RscSample.
Import Rsc RscFacts.

(** Time passes by the delays asked for, and much longer. *)
Definition passes (x : Access) : Z := match x with Delay us => Z.max 0 us + 400000 | _ => 0 end.
Fixpoint sample_clock (h : list Access) : Z :=
  match h with [] => 0 | x :: h => passes x + sample_clock h end.

(** Registers hold what was written; the interrupt of the TCS follows the
    trigger unless the hardware is [stuck], until it is cleared. *)
Definition sample_irq (r : RpmhRsc) (stuck : bool) (h : list Access) : Z :=
  foldl (λ v x, match x with
                | Write a w =>
                    if (a =? reg r (control (registers r))) && negb (w .& TCS_AMC_MODE_TRIGGER =? 0)
                    then (if stuck then v else irq_mask_ r)
                    else if a =? irq r (irq_clear (registers r)) then v .&~ w else v
                | _ => v end) 0 h.

Definition sample_env (r : RpmhRsc) (stuck : bool) : Env :=
  mk_env (λ h a,
    if a =? reg r (status (registers r)) then 1
    else if a =? irq r (irq_status (registers r)) then sample_irq r stuck h
    else match image (writes h) a with Some v => v | None => CMD_STATUS_ISSUED .| CMD_STATUS_COMPLETE end)
    sample_clock.

Lemma sample_clock_ok r stuck : clock_ok (sample_env r stuck).
Proof.
  assert (∀ h x, sample_clock (h ++ [x]) = sample_clock h + passes x) as Hs.
  { intros h x. induction h as [|y h IH]; simpl; lia. }
  split; intros h x; cbn [clock sample_env]; rewrite Hs; [destruct x|]; simpl; lia.
Qed.

Definition sample_config : list Z := [ACTIVE_TCS; 2; SLEEP_TCS; 3; WAKE_TCS; 3; CONTROL_TCS; 1] ≫= λ x, [0; 0; 0; x].
Definition sample_rsc : RpmhRsc :=
  mk_rsc 0x1000d00 REGISTERS_V2_7 0 2 16.
Definition sample_commands : list ActiveCommand :=
  [mk_command 0x30080 0x2000 false; mk_command 0x30010 0x60000001 true].

Example sample_geometry :
  geometry 0 0xd00 0x20700 ((16 << 27) .| 8) (Some sample_config) 0x1000000 0x10000 = Ok sample_rsc.
Proof. reflexivity. Qed.

Example sample_batch :
  (write_active_batch (sample_env sample_rsc false) sample_rsc sample_commands []).1 = Ok ().
Proof. vm_compute. reflexivity. Qed.

Lemma batch_transferred_witness :
  ∃ new, write_active_batch (sample_env sample_rsc false) sample_rsc sample_commands [] = (Ok (), [] ++ new) ∧
    transfer_outcome 0x1000000 0x10000 sample_rsc sample_commands (Ok ()) new.
Proof.
  destruct (batch_transferred (sample_env sample_rsc false) 0 0xd00 0x20700 ((16 << 27) .| 8) (Some sample_config)
    0x1000000 0x10000 sample_rsc sample_commands []) as (res & new & Hrun & Hout).
  - apply sample_clock_ok.
  - intros bytes [= <-]. by repeat constructor.
  - lia.
  - lia.
  - by vm_compute.
  - by vm_compute.
  - exact sample_geometry.
  - exists new. pose proof sample_batch as Hok. rewrite Hrun in Hok. simpl in Hok. subst res. by split.
Defined.
End RscSample.
