(* ===== verification/Icc.v ===== *)
(** * Interconnect votes

    [lib.rs] of [qcom-sc7180-icc]: named paths resolved through the registered
    providers, and the bandwidth votes of a path sent as one batch to the
    resource state coordinator. *)
From S2P Require Import Prelude CmdDb Opp Rsc.

Module Icc.
Import Opp Rsc.

Definition MASTER_GFX3D : Z := 8.
Definition MASTER_APPSS_PROC : Z := 0.
Definition MASTER_VIDEO_P0 : Z := 6.
Definition SLAVE_EBI1 : Z := 1.
Definition SLAVE_VENUS_CFG : Z := 49.
Definition QCOM_ICC_TAG_ALWAYS : Z := 0.
Definition BCM_VOTE_MASK : Z := 0x3fff.
Definition BCM_COMMIT : Z := 1 << 30.
Definition BCM_VALID : Z := 1 << 29.
Definition BCM_VOTE_X_SHIFT : Z := 14.
Definition DEFAULT_VOTE_SCALE : Z := 1000.
Definition UNSET_PEAK_KBPS : Z := U32_MAX.

Record BcmAuxData := mk_aux { unit : Z; width : Z; vcd : Z }.

Inductive BcmKind :=
| Bandwidth (node_buswidth : Z) (keepalive boot_floor : bool)
| EnableMask (mask : Z).

Record Bcm := mk_bcm { name : string; bcm_address : Z; aux : BcmAuxData; kind : BcmKind }.

Record PreparedCommand := mk_prepared {
  prepared_vcd : Z;
  vote_x : Z;
  vote_y : Z;
  command : ActiveCommand;
}.

(** A path with its voter's coordinator. *)
Record BcmPath := mk_path { voter : RpmhRsc; bcms : list Bcm; last_peak_kbps : Z }.

(** ** Votes *)

(** Division by zero panics. *)
Definition bcm_div (value divisor : Z) : outcome string Z :=
  if negb (value =? 0) && (value <? divisor) then Ok 1
  else if divisor =? 0 then Panic else Ok (value / divisor).

Definition encode_bcm_vote (vote_x vote_y : Z) (commit : bool) : Z :=
  let x := Z.min vote_x BCM_VOTE_MASK in
  let y := Z.min vote_y BCM_VOTE_MASK in
  let data := (x << BCM_VOTE_X_SHIFT) .| y in
  let data := if negb (x =? 0) || negb (y =? 0) then data .| BCM_VALID else data in
  if commit then data .| BCM_COMMIT else data.

Definition votes (self : Bcm) (peak_kbps : Z) : outcome string (Z * Z) :=
  match kind self with
  | EnableMask mask => if peak_kbps =? 0 then Ok (0, 0) else Ok (0, mask)
  | Bandwidth node_buswidth keepalive boot_floor =>
      if node_buswidth =? 0 then Err "qcom-sc7180-icc: BCM node has zero bus width"%string
      else if peak_kbps =? 0 then Ok (if keepalive then (1, 1) else (0, 0))
      else
        let? scaled := ok_or (checked_mul U64_MAX peak_kbps (width (aux self)))
                         "qcom-sc7180-icc: peak bandwidth overflow"%string in
        let? normalized := bcm_div scaled node_buswidth in
        let? scaled := ok_or (checked_mul U64_MAX normalized DEFAULT_VOTE_SCALE)
                         "qcom-sc7180-icc: scaled bandwidth overflow"%string in
        let? vote_y := bcm_div scaled (unit (aux self)) in
        Ok (0, if boot_floor then Z.max vote_y BCM_VOTE_MASK else vote_y)
  end.

Definition prepare_command (peak_kbps : Z) (bcm : Bcm) : outcome string PreparedCommand :=
  let? (vote_x, vote_y) := votes bcm peak_kbps in
  Ok (mk_prepared (vcd (aux bcm)) (Z.min vote_x BCM_VOTE_MASK) (Z.min vote_y BCM_VOTE_MASK)
        (mk_command (bcm_address bcm) 0 false)).

(** The last command of each virtual clock domain commits it. *)
Fixpoint commit_last (prepared : list PreparedCommand) : list PreparedCommand :=
  match prepared with
  | [] => []
  | p :: rest =>
      let commit := match rest with [] => true | q :: _ => negb (prepared_vcd p =? prepared_vcd q) end in
      mk_prepared (prepared_vcd p) (vote_x p) (vote_y p)
        (mk_command (address (command p)) (encode_bcm_vote (vote_x p) (vote_y p) commit) commit)
      :: commit_last rest
  end.

Section Voting.
(** [sort_unstable_by_key] on the domain: the order of equal keys is open. *)
Context (sort_by_vcd : list PreparedCommand → list PreparedCommand).
Context (E : Env).

Definition batch (path : BcmPath) (peak_kbps : Z) : outcome string (list ActiveCommand) :=
  let? prepared := mapM (prepare_command peak_kbps) (bcms path) in
  Ok (command <$> commit_last (sort_by_vcd prepared)).

(** The result, the path and the accesses so far. *)
Definition set_peak_kbps (path : BcmPath) (peak_kbps : Z) (h : list Access) :
    outcome string () * BcmPath * list Access :=
  if last_peak_kbps path =? peak_kbps then (Ok (), path, h)
  else
    match batch path peak_kbps with
    | Ok commands =>
        match write_active_batch E (voter path) commands h with
        | (Ok (), h) => (Ok (), mk_path (voter path) (bcms path) peak_kbps, h)
        | (Err e, h) => (Err e, path, h)
        | (Panic, h) => (Panic, path, h)
        end
    | Err e => (Err e, path, h)
    | Panic => (Panic, path, h)
    end.

Record VenusInterconnectPaths := mk_venus { video_memory : BcmPath; cpu_config : BcmPath }.

Definition enable_firmware_boot (paths : VenusInterconnectPaths) (h : list Access) :
    outcome string () * VenusInterconnectPaths * list Access :=
  match set_peak_kbps (video_memory paths) 20000 h with
  | (Ok (), v, h) =>
      let '(res, c, h) := set_peak_kbps (cpu_config paths) 1000 h in (res, mk_venus v c, h)
  | (res, v, h) => (res, mk_venus v (cpu_config paths), h)
  end.
End Voting.

(** ** Loading *)

Definition parse_bcm_aux (bytes : list Z) : outcome string BcmAuxData :=
  let? unit := ok_or (get_range bytes 0 4) "qcom-sc7180-icc: truncated BCM unit"%string in
  let? width := ok_or (get_range bytes 4 6) "qcom-sc7180-icc: truncated BCM width"%string in
  let? vcd := ok_or (bytes !! 6%nat) "qcom-sc7180-icc: truncated BCM VCD"%string in
  Ok (mk_aux (from_le_bytes unit) (from_le_bytes width) vcd).

Definition is_bandwidth (k : BcmKind) : bool :=
  match k with Bandwidth _ _ _ => true | EnableMask _ => false end.

(** [db] is the command database, once registered. *)
Definition load (db : option CmdDb.CommandDb) (name : string) (kind : BcmKind) : outcome string Bcm :=
  let? address := ok_or (db ≫= λ d, CmdDb.read_address d (str name))
                    "qcom-sc7180-icc: Command DB BCM address is missing"%string in
  let? bytes := ok_or (db ≫= λ d, CmdDb.read_aux_data d (str name))
                  "qcom-sc7180-icc: Command DB BCM auxiliary data is missing"%string in
  let? aux := parse_bcm_aux bytes in
  if is_bandwidth kind && ((unit aux =? 0) || (width aux =? 0))
  then Err "qcom-sc7180-icc: bandwidth BCM has invalid unit or width"%string
  else Ok (mk_bcm name address aux kind).

(** ** Providers and paths *)

Inductive NoCProviderKind := Config | Gem | McVirtual | Multimedia.

#[export] Instance NoCProviderKind_eq_dec : EqDecision NoCProviderKind.
Proof. solve_decision. Defined.

Record NoCProvider := mk_provider { phandle : Z; voter_phandle : Z; provider_kind : NoCProviderKind }.

Record PathEndpoints := mk_endpoints {
  source : NoCProvider;
  source_id : Z;
  source_tag : Z;
  destination : NoCProvider;
  destination_id : Z;
  destination_tag : Z;
}.

(** What the driver asks of a platform device. *)
Record PlatformDeviceInfo := mk_device {
  property : string → option (list Z);
  as_string_list : list Z → option (list string);
  compatible : list string;
  parent_phandle : option Z;
}.

(** The registered voters and providers. *)
Record Registry := mk_registry { voters : list (Z * RpmhRsc); noc_providers : list NoCProvider }.

Section Devices.
Context (PROBE_DEFER : string) (controllers : Controllers).

Fixpoint first_phandle (device : PlatformDeviceInfo) (names : list string) : outcome string Z :=
  match names with
  | [] => Err "qcom-sc7180-icc: voter phandle is missing"%string
  | name :: names =>
      match property device name with
      | None => first_phandle device names
      | Some value =>
          if negb (len value =? 4) then Err "qcom-sc7180-icc: malformed voter phandle"%string
          else
            let phandle := from_be_bytes value in
            if negb (phandle =? 0) then Ok phandle else first_phandle device names
      end
  end.

Definition own_phandle (device : PlatformDeviceInfo) : outcome string Z :=
  first_phandle device ["phandle"; "linux,phandle"]%string.

Definition probe_voter (reg : Registry) (device : PlatformDeviceInfo) : outcome string Registry :=
  let? parent := ok_or (parent_phandle device) "qcom-sc7180-icc: BCM voter parent RSC is missing"%string in
  let? rsc := ok_or (controller controllers parent) PROBE_DEFER in
  let? phandle := own_phandle device in
  Ok (mk_registry (register fst (phandle, rsc) (voters reg)) (noc_providers reg)).

Definition remove_voter (reg : Registry) (device : PlatformDeviceInfo) : outcome string Registry :=
  let? phandle := own_phandle device in
  Ok (mk_registry (unregister fst phandle (voters reg)) (noc_providers reg)).

Definition noc_provider_kind (device : PlatformDeviceInfo) : outcome string NoCProviderKind :=
  if bool_decide ("qcom,sc7180-config-noc"%string ∈ compatible device) then Ok Config
  else if bool_decide ("qcom,sc7180-gem-noc"%string ∈ compatible device) then Ok Gem
  else if bool_decide ("qcom,sc7180-mc-virt"%string ∈ compatible device) then Ok McVirtual
  else if bool_decide ("qcom,sc7180-mmss-noc"%string ∈ compatible device) then Ok Multimedia
  else Err "qcom-sc7180-icc: unsupported NoC provider"%string.

Definition probe_noc_provider (reg : Registry) (device : PlatformDeviceInfo) : outcome string Registry :=
  let? own := own_phandle device in
  let? voter := ok_or ((property device "qcom,bcm-voters" ≫= be_u32) ≫= λ p, if p =? 0 then None else Some p)
                  "qcom-sc7180-icc: NoC provider BCM voter is missing"%string in
  let? kind := noc_provider_kind device in
  Ok (mk_registry (voters reg) (register phandle (mk_provider own voter kind) (noc_providers reg))).

Definition remove_noc_provider (reg : Registry) (device : PlatformDeviceInfo) : outcome string Registry :=
  let? own := own_phandle device in
  Ok (mk_registry (voters reg) (unregister phandle own (noc_providers reg))).

Definition noc_provider (reg : Registry) (p : Z) : outcome string NoCProvider :=
  ok_or (List.find (λ provider, phandle provider =? p) (noc_providers reg)) PROBE_DEFER.

Definition CELLS_PER_PATH : Z := 6.
Definition BYTES_PER_PATH : Z := CELLS_PER_PATH * 4.

Definition named_path (reg : Registry) (device : PlatformDeviceInfo) (name : string) : outcome string PathEndpoints :=
  let? names := ok_or (property device "interconnect-names" ≫= as_string_list device)
                  "qcom-sc7180-icc: interconnect names are missing"%string in
  let? index := ok_or (position_of name names) "qcom-sc7180-icc: named interconnect path is missing"%string in
  let? bytes := ok_or (property device "interconnects")
                  "qcom-sc7180-icc: interconnect endpoints are missing"%string in
  if negb (len bytes =? len names * BYTES_PER_PATH)
  then Err "qcom-sc7180-icc: interconnect paths have invalid cell counts"%string
  else
    let? path := ok_or (get_range bytes (index * BYTES_PER_PATH) ((index + 1) * BYTES_PER_PATH))
                   "qcom-sc7180-icc: named interconnect path is truncated"%string in
    match be_cells path with
    | [source_phandle; source_id; source_tag; destination_phandle; destination_id; destination_tag] =>
        let? source := noc_provider reg source_phandle in
        let? destination := noc_provider reg destination_phandle in
        if negb (voter_phandle source =? voter_phandle destination)
        then Err "qcom-sc7180-icc: path endpoints use different BCM voters"%string
        else Ok (mk_endpoints source source_id source_tag destination destination_id destination_tag)
    | _ => Err "qcom-sc7180-icc: named interconnect path is malformed"%string
    end.

Definition voter_for_path (reg : Registry) (path : PathEndpoints) : outcome string RpmhRsc :=
  ok_or (snd <$> List.find (λ v : Z * RpmhRsc, v.1 =? voter_phandle (source path)) (voters reg)) PROBE_DEFER.

(** The endpoints are what the chip has. *)
Definition endpoints_are (path : PathEndpoints) (from : NoCProviderKind) (from_id : Z) (to : NoCProviderKind)
    (to_id : Z) : bool :=
  bool_decide (provider_kind (source path) = from) && bool_decide (provider_kind (destination path) = to) &&
  (source_id path =? from_id) && (destination_id path =? to_id) &&
  (source_tag path =? QCOM_ICC_TAG_ALWAYS) && (destination_tag path =? QCOM_ICC_TAG_ALWAYS).

Context (db : option CmdDb.CommandDb).

Definition gpu_memory_path (reg : Registry) (device : PlatformDeviceInfo) : outcome string BcmPath :=
  let? path := named_path reg device "gfx-mem" in
  if negb (endpoints_are path Gem MASTER_GFX3D McVirtual SLAVE_EBI1)
  then Err "qcom-sc7180-icc: gfx-mem endpoints do not match SC7180"%string
  else
    let? voter := voter_for_path reg path in
    let? sh0 := load db "SH0" (Bandwidth 16 true true) in
    let? mc0 := load db "MC0" (Bandwidth 4 true true) in
    let? acv := load db "ACV" (EnableMask (1 << 3)) in
    Ok (mk_path voter [sh0; mc0; acv] UNSET_PEAK_KBPS).

Definition venus_interconnect_paths (reg : Registry) (device : PlatformDeviceInfo) :
    outcome string VenusInterconnectPaths :=
  let? video := named_path reg device "video-mem" in
  if negb (endpoints_are video Multimedia MASTER_VIDEO_P0 McVirtual SLAVE_EBI1)
  then Err "qcom-sc7180-icc: video-mem endpoints do not match SC7180"%string
  else
    let? cpu := named_path reg device "cpu-cfg" in
    if negb (endpoints_are cpu Gem MASTER_APPSS_PROC Config SLAVE_VENUS_CFG)
    then Err "qcom-sc7180-icc: cpu-cfg endpoints do not match SC7180"%string
    else
      let? video_voter := voter_for_path reg video in
      let? cpu_voter := voter_for_path reg cpu in
      let? mm1 := load db "MM1" (Bandwidth 32 false true) in
      let? mm2 := load db "MM2" (Bandwidth 32 false true) in
      let? sh0 := load db "SH0" (Bandwidth 16 true true) in
      let? mc0 := load db "MC0" (Bandwidth 4 true true) in
      let? acv := load db "ACV" (EnableMask (1 << 3)) in
      let? sh4 := load db "SH4" (Bandwidth 16 false true) in
      let? sn12 := load db "SN12" (Bandwidth 8 false true) in
      let? cn0 := load db "CN0" (Bandwidth 4 true true) in
      Ok (mk_venus (mk_path video_voter [mm1; mm2; sh0; mc0; acv] UNSET_PEAK_KBPS)
                   (mk_path cpu_voter [sh4; sn12; cn0] UNSET_PEAK_KBPS)).
End Devices.
End Icc.
