(* ===== verification/IccFacts.v ===== *)
(** * What a bandwidth vote sends

    The batch of a path holds one command for each of its bus clock managers,
    ordered by domain, with the votes of the requested bandwidth and one commit
    for each domain, at its end; and the coordinator either applies it or the
    caller learns that it failed. *)
From S2P Require Import Prelude CmdDb HfiSample Opp Rsc RscFacts Icc.

Module IccFacts.
Import Opp OppFacts Rsc RscFacts Icc.

(** ** Well-formed paths *)

Definition bcm_ok (b : Bcm) : Prop :=
  u32 (unit (aux b)) ∧ u16 (width (aux b)) ∧
  match kind b with
  | Bandwidth node_buswidth _ _ => u16 node_buswidth ∧ 0 < node_buswidth ∧ 0 < unit (aux b) ∧ 0 < width (aux b)
  | EnableMask mask => 0 ≤ mask ≤ BCM_VOTE_MASK
  end.

Definition path_ok (p : BcmPath) : Prop := Forall bcm_ok (bcms p) ∧ 1 ≤ len (bcms p).

(** A quotient, but never zero for something. *)
Definition quotient (v d : Z) : Z := if v =? 0 then 0 else Z.max 1 (v / d).

(** The two votes of a manager for a bandwidth, within 14 bits. *)
Definition levels (b : Bcm) (peak : Z) : Z * Z :=
  match kind b with
  | EnableMask mask => (0, if peak =? 0 then 0 else mask)
  | Bandwidth node_buswidth keepalive boot_floor =>
      if peak =? 0 then (if keepalive then (1, 1) else (0, 0))
      else if boot_floor then (0, BCM_VOTE_MASK)
      else (0, Z.min BCM_VOTE_MASK
                 (quotient (quotient (peak * width (aux b)) node_buswidth * DEFAULT_VOTE_SCALE) (unit (aux b))))
  end.

Lemma bcm_div_quotient v d : 0 ≤ v → 0 < d → bcm_div v d = Ok (quotient v d).
Proof.
  intros Hv Hd. unfold bcm_div, quotient.
  destruct (Z.eqb_spec v 0) as [-> |Hne]; simpl.
  - destruct (Z.eqb_spec d 0); [lia|]. by rewrite Z.div_0_l by lia.
  - destruct (Z.ltb_spec v d); [by rewrite Z.div_small by lia|]. destruct (Z.eqb_spec d 0); [lia|].
    f_equal. assert (1 ≤ v / d) by (apply Z.div_le_lower_bound; lia). lia.
Qed.

Lemma quotient_bound v d : 0 ≤ v → 0 < d → 0 ≤ quotient v d ≤ v.
Proof.
  intros Hv Hd. unfold quotient. destruct (Z.eqb_spec v 0); [lia|].
  assert (v / d ≤ v) by (apply Z.div_le_upper_bound; nia). lia.
Qed.

Definition prepared_of (peak : Z) (b : Bcm) : PreparedCommand :=
  mk_prepared (vcd (aux b)) (levels b peak).1 (levels b peak).2 (mk_command (bcm_address b) 0 false).

(** No vote is refused and none overflows. *)
Lemma prepare_command_ok peak b : bcm_ok b → u32 peak → prepare_command peak b = Ok (prepared_of peak b).
Proof.
  intros (Hu & Hw & Hk) Hp. unfold prepare_command, votes, prepared_of, levels, u32, u16, BCM_VOTE_MASK in *.
  destruct (kind b) as [nb keep floor|mask].
  - destruct Hk as (Hnb & Hnb0 & Hu0 & Hw0). destruct (Z.eqb_spec nb 0); [lia|].
    destruct (Z.eqb_spec peak 0); [by destruct keep|]. unfold checked_mul, U64_MAX.
    set (w := width (aux b)) in *. assert (0 ≤ peak * w ≤ 0xffffffff * 0xffff) as Hpw by nia.
    destruct (Z.leb_spec (peak * w) 0xffffffffffffffff); [|lia]. cbn [bind ok_or].
    rewrite bcm_div_quotient by lia. cbn [bind]. unfold DEFAULT_VOTE_SCALE.
    pose proof (quotient_bound (peak * w) nb ltac:(lia) ltac:(lia)).
    destruct (Z.leb_spec (quotient (peak * w) nb * 1000) 0xffffffffffffffff); [|lia]. cbn [bind ok_or].
    rewrite bcm_div_quotient by lia. cbn [bind].
    pose proof (quotient_bound (quotient (peak * w) nb * 1000) (unit (aux b)) ltac:(lia) ltac:(lia)).
    destruct floor; simpl; do 2 f_equal; lia.
  - destruct (Z.eqb_spec peak 0); simpl; do 2 f_equal; lia.
Qed.

Lemma prepare_ok peak l :
  Forall bcm_ok l → u32 peak → mapM (prepare_command peak) l = Ok (prepared_of peak <$> l).
Proof.
  intros Hl Hp. apply mapM_Ok, Forall2_fmap_r, Forall_Forall2_diag.
  eapply Forall_impl; [exact Hl|]. intros b Hb. by apply prepare_command_ok.
Qed.

Lemma levels_range b peak : bcm_ok b → u32 peak → 0 ≤ (levels b peak).1 ≤ BCM_VOTE_MASK ∧ 0 ≤ (levels b peak).2 ≤ BCM_VOTE_MASK.
Proof.
  intros (Hu & Hw & Hk) Hp. unfold levels, BCM_VOTE_MASK, u32, u16, DEFAULT_VOTE_SCALE in *.
  destruct (kind b) as [nb keep floor|mask]; destruct (peak =? 0); simpl; try lia; destruct keep || destruct floor; simpl; try lia.
  all: destruct floor; simpl; try lia.
  all: pose proof (quotient_bound (peak * width (aux b)) nb ltac:(nia) ltac:(lia));
    pose proof (quotient_bound (quotient (peak * width (aux b)) nb * 1000) (unit (aux b)) ltac:(lia) ltac:(lia)); lia.
Qed.

(** ** The encoding *)

(** What the hardware takes from a vote: valid, committing, and the two levels. *)
Definition decode (data : Z) : bool * bool * Z * Z :=
  (Z.testbit data 29, Z.testbit data 30, (data >> 14) mod 2 ^ 14, data mod 2 ^ 14).

Lemma encode_value x y commit :
  0 ≤ x ≤ BCM_VOTE_MASK → 0 ≤ y ≤ BCM_VOTE_MASK →
  encode_bcm_vote x y commit =
    y + x * 2 ^ 14 + (if (x =? 0) && (y =? 0) then 0 else 2 ^ 29) + (if commit then 2 ^ 30 else 0).
Proof.
  unfold BCM_VOTE_MASK. intros Hx Hy. unfold encode_bcm_vote, BCM_VOTE_MASK, BCM_VOTE_X_SHIFT, BCM_VALID, BCM_COMMIT.
  rewrite !Z.min_l by lia. cbv zeta.
  replace ((x << 14) .| y) with (y + x * 2 ^ 14) by (rewrite Z.lor_comm, lor_add_low by lia; lia).
  set (d := y + x * 2 ^ 14). assert (0 ≤ d < 2 ^ 28) as Hd by (subst d; lia). clearbody d.
  rewrite <- negb_andb. destruct (_ && _); cbn [negb].
  - destruct commit; [rewrite lor_add_low by lia|]; lia.
  - rewrite (lor_add_low d 1 29) by lia. destruct commit; [rewrite lor_add_low by lia|]; lia.
Qed.

Lemma decode_encode x y commit :
  0 ≤ x ≤ BCM_VOTE_MASK → 0 ≤ y ≤ BCM_VOTE_MASK →
  decode (encode_bcm_vote x y commit) = (negb ((x =? 0) && (y =? 0)), commit, x, y) ∧ u32 (encode_bcm_vote x y commit).
Proof.
  intros Hx Hy. rewrite encode_value by done. unfold BCM_VOTE_MASK, decode, u32 in *.
  set (v := if _ && _ then 0 else 2 ^ 29). set (c := if commit then 2 ^ 30 else 0).
  assert (v = if (x =? 0) && (y =? 0) then 0 else 2 ^ 29) as Hv by done.
  assert (c = if commit then 2 ^ 30 else 0) as Hc by done.
  clearbody v c.
  split; [|destruct (_ && _), commit; lia].
  rewrite Z.shiftr_div_pow2, !testbit_mod by lia.
  change (2 ^ 14) with 16384. change (2 ^ 29) with 536870912 in *. change (2 ^ 30) with 1073741824 in *.
  f_equal; [f_equal; [f_equal|]|]; destruct (_ && _), commit; simpl; rewrite ?Z.eqb_eq, ?Z.eqb_neq; zlia.
Qed.

(** ** The order and the commits *)

Definition vcd_le (p q : PreparedCommand) : Prop := prepared_vcd p ≤ prepared_vcd q.

(** [sort_unstable_by_key] sorts. *)
Definition sorts (sort : list PreparedCommand → list PreparedCommand) : Prop :=
  ∀ l, sort l ≡ₚ l ∧ StronglySorted vcd_le (sort l).

Lemma sorted_lookup_le l (i j : nat) p q :
  StronglySorted vcd_le l → l !! i = Some p → l !! j = Some q → (i < j)%nat → vcd_le p q.
Proof.
  intros Hs Hi Hj Hlt. rewrite <- (take_drop_middle _ _ _ Hi) in Hs.
  apply StronglySorted_app_1_r, StronglySorted_inv in Hs as [_ Hs]. rewrite Forall_forall in Hs.
  apply Hs, list_elem_of_lookup. exists (j - S i)%nat. rewrite lookup_drop. rewrite <- Hj. f_equal. lia.
Qed.

Definition commits (l : list PreparedCommand) (i : nat) (p : PreparedCommand) : bool :=
  match l !! S i with None => true | Some q => negb (prepared_vcd p =? prepared_vcd q) end.

Definition sealed (commit : bool) (p : PreparedCommand) : PreparedCommand :=
  mk_prepared (prepared_vcd p) (vote_x p) (vote_y p)
    (mk_command (address (command p)) (encode_bcm_vote (vote_x p) (vote_y p) commit) commit).

Lemma commit_last_lookup l (i : nat) :
  commit_last l !! i = (λ p, sealed (commits l i p) p) <$> l !! i.
Proof.
  revert i. induction l as [|p l IH]; intros i; [done|]. destruct i as [|i]; simpl.
  - unfold commits, sealed. simpl. by destruct l.
  - rewrite IH. by destruct (l !! i).
Qed.

Lemma length_commit_last l : length (commit_last l) = length l.
Proof. induction l as [|p l IH]; [done|]. simpl. by rewrite IH. Qed.

Lemma sorted_prepared peak bs :
  StronglySorted vcd_le (prepared_of peak <$> bs) → StronglySorted (λ b b', vcd (aux b) ≤ vcd (aux b')) bs.
Proof.
  induction bs as [|b bs IH]; intros Hs; [constructor|]. apply StronglySorted_inv in Hs as [Hs Hf].
  constructor; [by apply IH|]. by apply (Forall_fmap (prepared_of peak)) in Hf.
Qed.

(** In a sorted list the last command of a domain is the one that no other of the
    domain follows. *)
Lemma commits_iff l (i : nat) p :
  StronglySorted vcd_le l → l !! i = Some p →
  commits l i p = true ↔ ∀ j q, (i < j)%nat → l !! j = Some q → prepared_vcd q ≠ prepared_vcd p.
Proof.
  intros Hs Hi. unfold commits. split.
  - intros Hc j q Hj Hq He.
    assert (∃ n, l !! S i = Some n) as [n Hn].
    { apply lookup_lt_is_Some_2. apply lookup_lt_Some in Hq. lia. }
    rewrite Hn in Hc. apply negb_true_iff, Z.eqb_neq in Hc.
    pose proof (sorted_lookup_le l i (S i) p n Hs Hi Hn ltac:(lia)) as H1. unfold vcd_le in H1.
    destruct (decide (j = S i)) as [-> |Hne]; [congruence|].
    pose proof (sorted_lookup_le l (S i) j n q Hs Hn Hq ltac:(lia)) as H2. unfold vcd_le in H2. lia.
  - intros H. destruct (l !! S i) as [n|] eqn:Hn; [|done]. apply negb_true_iff, Z.eqb_neq.
    specialize (H (S i) n ltac:(lia) Hn). congruence.
Qed.

(** ** The batch of a path *)

(** The commands carry the votes of the managers [bs], in this order. *)
Definition carries (peak : Z) (bs : list Bcm) (commands : list ActiveCommand) : Prop :=
  length commands = length bs ∧
  ∀ (i : nat) b, bs !! i = Some b → ∃ c, commands !! i = Some c ∧
    address c = bcm_address b ∧ u32 (data c) ∧
    decode (data c) = (negb (((levels b peak).1 =? 0) && ((levels b peak).2 =? 0)), wait_for_completion c,
                       (levels b peak).1, (levels b peak).2) ∧
    (wait_for_completion c = true ↔
       ∀ (j : nat) b', (i < j)%nat → bs !! j = Some b' → vcd (aux b') ≠ vcd (aux b)).

Section Batch.
Context (sort : list PreparedCommand → list PreparedCommand) (Hsort : sorts sort).

Lemma batch_carries p peak :
  path_ok p → u32 peak →
  ∃ bs commands, batch sort p peak = Ok commands ∧ bs ≡ₚ bcms p ∧
    StronglySorted (λ b b', vcd (aux b) ≤ vcd (aux b')) bs ∧ carries peak bs commands.
Proof.
  intros [Hb _] Hp. unfold batch. rewrite prepare_ok by done. cbn [bind].
  destruct (Hsort (prepared_of peak <$> bcms p)) as [Hperm Hs]. set (l := sort _) in *. clearbody l.
  destruct (Permutation_map_inv (prepared_of peak) _ Hperm) as (bs & -> & Hbs).
  change (map (prepared_of peak) bs) with (prepared_of peak <$> bs) in *.
  eexists bs, _. split_and!; [done|by symmetry| |].
  - by apply (sorted_prepared peak).
  - split.
    + by rewrite length_fmap, length_commit_last, length_fmap.
    + intros i b Hi. rewrite list_lookup_fmap, commit_last_lookup, list_lookup_fmap, Hi. simpl.
      eexists. split; [done|]. assert (bcm_ok b) as Hok.
      { rewrite Forall_forall in Hb. apply Hb. rewrite Hbs. by eapply list_elem_of_lookup_2. }
      destruct (levels_range b peak Hok Hp) as [Hx Hy]. simpl.
      set (commit := commits _ _ _). destruct (decode_encode _ _ commit Hx Hy) as [-> Hu].
      split_and!; [done|done|done|]. unfold commit.
      rewrite (commits_iff _ i) by (done || by rewrite list_lookup_fmap, Hi). split.
      * intros H j b' Hj Hb'. apply (H j (prepared_of peak b') Hj). by rewrite list_lookup_fmap, Hb'.
      * intros H j q Hj Hq. apply list_lookup_fmap_Some in Hq as (b' & -> & Hb'). by apply (H j).
Qed.

(** ** Sending it *)

(** What a request for a bandwidth does, with the accesses [new]. *)
Definition vote_outcome (base size : Z) (p : BcmPath) (peak : Z) (res : outcome string ()) (p' : BcmPath)
    (new : list Access) : Prop :=
  (last_peak_kbps p = peak ∧ res = Ok () ∧ p' = p ∧ new = []) ∨
  (last_peak_kbps p ≠ peak ∧
   (res = Ok () ∧ p' = mk_path (voter p) (bcms p) peak ∨ res ≠ Ok () ∧ p' = p) ∧
   ∃ bs commands, bs ≡ₚ bcms p ∧ StronglySorted (λ b b', vcd (aux b) ≤ vcd (aux b')) bs ∧
     carries peak bs commands ∧ transfer_outcome base size (voter p) commands res new).

Lemma set_peak_outcome E base size p peak h :
  clock_ok E → rsc_ok base size (voter p) → path_ok p → u32 peak →
  ∃ res p' new, set_peak_kbps sort E p peak h = (res, p', h ++ new) ∧ vote_outcome base size p peak res p' new.
Proof.
  intros Hc Hr Hp Hk. unfold set_peak_kbps, vote_outcome.
  destruct (Z.eqb_spec (last_peak_kbps p) peak) as [He|Hne].
  { exists (Ok ()), p, []. rewrite app_nil_r. split; [done|]. by left. }
  destruct (batch_carries p peak Hp Hk) as (bs & commands & -> & Hperm & Hs & Hcar).
  destruct (write_active_batch_ends E base size (voter p) Hc Hr commands h) as (res & new & -> & Hout).
  destruct res as [[]|e|]; [| |by destruct Hout].
  - eexists (Ok ()), _, new. split; [done|]. right. split; [done|]. split; [by left|]. by exists bs, commands.
  - eexists (Err e), p, new. split; [done|]. right. split; [done|]. split; [by right|]. by exists bs, commands.
Qed.
End Batch.

(** ** Paths as they are resolved *)

Lemma read_u8_bytes d o v : CmdDb.read_u8 d o = Some v → v ∈ CmdDb.bytes d.
Proof. unfold CmdDb.read_u8. intros (_ & _ & H)%bind_Some. by eapply list_elem_of_lookup_2. Qed.

Lemma read_each_bytes d start l bs : CmdDb.read_each (CmdDb.read_u8 d) start l = Some bs → Forall (.∈ CmdDb.bytes d) bs.
Proof.
  revert bs. induction l as [|o l IH]; intros bs H; simpl in H; [by injection H as <-|].
  apply bind_Some in H as (a & _ & H). apply bind_Some in H as (x & Hx & H). apply bind_Some in H as (xs & Hxs & H).
  injection H as <-. constructor; [by eapply read_u8_bytes|by apply IH].
Qed.

Definition db_ok (db : option CmdDb.CommandDb) : Prop := ∀ d, db = Some d → Forall u8 (CmdDb.bytes d).

Lemma get_range_bytes (l : list Z) a b r : Forall u8 l → get_range l a b = Some r → 0 ≤ a → Forall u8 r ∧ length r = Z.to_nat (b - a).
Proof.
  intros Hl Hr Ha. unfold get_range, slice in Hr. destruct (_ && _) eqn:Eb; [|done]. injection Hr as <-.
  apply andb_true_iff in Eb as [? ?]. split; [by apply Forall_take, Forall_drop|].
  rewrite length_take, length_drop. lia.
Qed.

Lemma load_ok db name kind b :
  db_ok db → load db name kind = Ok b →
  (match kind with Bandwidth w _ _ => u16 w ∧ 0 < w | EnableMask m => 0 ≤ m ≤ BCM_VOTE_MASK end) → bcm_ok b.
Proof.
  intros Hdb Hl Hk. unfold load in Hl.
  destruct (db ≫= _) as [a|] eqn:Ea in Hl; [|done]. cbn [bind ok_or] in Hl.
  destruct (db ≫= _) as [bytes|] eqn:Eb in Hl; [|done]. cbn [bind ok_or] in Hl.
  assert (Forall u8 bytes) as Hbytes.
  { apply bind_Some in Eb as (d & Hd & Hb). unfold CmdDb.read_aux_data in Hb. apply bind_Some in Hb as (entry & _ & Hb).
    apply read_each_bytes in Hb. specialize (Hdb d Hd). rewrite Forall_forall in Hdb.
    eapply Forall_impl; [exact Hb|]. intros x Hx. by apply Hdb. }
  unfold parse_bcm_aux in Hl. destruct (get_range bytes 0 4) as [ub|] eqn:Eu; [|done]. cbn [bind ok_or] in Hl.
  destruct (get_range bytes 4 6) as [wb|] eqn:Ew; [|done]. cbn [bind ok_or] in Hl.
  destruct (bytes !! 6%nat) as [v|]; [|done]. cbn [bind ok_or] in Hl.
  destruct (get_range_bytes _ _ _ _ Hbytes Eu ltac:(lia)) as [Hu1 Hu2].
  destruct (get_range_bytes _ _ _ _ Hbytes Ew ltac:(lia)) as [Hw1 Hw2].
  pose proof (from_le_bound ub 4 Hu1 Hu2) as Hu. pose proof (from_le_bound wb 2 Hw1 Hw2) as Hw.
  destruct (_ && _) eqn:Ez in Hl; [done|]. injection Hl as <-. unfold bcm_ok. cbn.
  split; [unfold u32; lia|]. split; [unfold u16; lia|]. destruct kind; simpl in Ez; [|done].
  apply orb_false_elim in Ez as [E1 E2]. cbn in E1, E2. split_and!; [apply Hk|apply Hk|lia|lia].
Qed.

(** All voters are coordinators mapped at [base]. *)
Definition registry_ok (base size : Z) (reg : Registry) : Prop :=
  Forall (λ v : Z * RpmhRsc, rsc_ok base size v.2) (voters reg).

Lemma voter_ok base size DEFER reg path r :
  registry_ok base size reg → voter_for_path DEFER reg path = Ok r → rsc_ok base size r.
Proof.
  intros Hr Hv. unfold voter_for_path in Hv. apply ok_or_Ok in Hv. apply fmap_Some in Hv as ([k v] & Hf & ->).
  apply find_some in Hf as [Hin _]. apply list_elem_of_In in Hin. unfold registry_ok in Hr. rewrite Forall_forall in Hr.
  by apply (Hr _ Hin).
Qed.


Section Resolved.
Context (PROBE_DEFER : string) (db : option CmdDb.CommandDb) (reg : Registry) (device : PlatformDeviceInfo).

(** A path some client holds. *)
Definition resolved (p : BcmPath) : Prop :=
  gpu_memory_path PROBE_DEFER db reg device = Ok p ∨
  ∃ v, venus_interconnect_paths PROBE_DEFER db reg device = Ok v ∧ (p = video_memory v ∨ p = cpu_config v).

Context (base size : Z) (Hdb : db_ok db) (Hreg : registry_ok base size reg).

Ltac next_ok H :=
  match type of H with
  | bind ?m _ = Ok _ => let x := fresh "x" in let Hx := fresh "Hx" in
      destruct m as [x| |] eqn:Hx; [cbn [bind] in H|done|done]
  | (if ?c then _ else _) = Ok _ => destruct c; [done|]
  end.

Lemma resolved_ok p : resolved p → path_ok p ∧ rsc_ok base size (voter p).
Proof.
  intros [Hp|(v & Hv & Hp)].
  - unfold gpu_memory_path in Hp. repeat next_ok Hp. injection Hp as <-. split; [|by eapply voter_ok].
    split; [|done]. simpl. repeat apply Forall_cons_2; try apply Forall_nil_2; (eapply load_ok; [exact Hdb|eassumption|]); repeat split; by vm_compute.
  - unfold venus_interconnect_paths in Hv. repeat next_ok Hv. injection Hv as <-.
    destruct Hp as [-> | ->]; (split; [|by eapply voter_ok]); (split; [|done]); simpl;
      repeat apply Forall_cons_2; try apply Forall_nil_2; (eapply load_ok; [exact Hdb|eassumption|]); repeat split; by vm_compute.
Qed.
End Resolved.

(** The path after earlier requests, in any environments. *)
Inductive requested (sort : list PreparedCommand → list PreparedCommand) (p0 : BcmPath) : BcmPath → Prop :=
| Fresh : requested sort p0 p0
| After E peak h p res p' h' :
    requested sort p0 p → set_peak_kbps sort E p peak h = (res, p', h') → requested sort p0 p'.

Lemma requested_same sort p0 p : requested sort p0 p → voter p = voter p0 ∧ bcms p = bcms p0.
Proof.
  induction 1 as [|E peak h p res p' h' _ IH Hs]; [done|]. unfold set_peak_kbps in Hs.
  destruct (_ =? _); [by injection Hs as _ <- _|]. destruct (batch sort p peak); [|by injection Hs as _ <- _..].
  destruct (write_active_batch _ _ _ _) as [[[]|e|] h2]; by injection Hs as _ <- _.
Qed.

(** C24: Whatever the command database and the device tree hold, and after any
    earlier requests, asking a resolved GPU or video path for a bandwidth never
    panics or overflows.  If it is the bandwidth last granted nothing happens.
    Otherwise one batch is sent: a command for each manager of the path, in the
    order of their domains, with its two votes in 14 bits, valid exactly if one
    is not zero, and a commit that is waited for on the last command of every
    domain and on no other.  The batch is transferred as a whole or the request
    fails, and only a transfer that succeeds changes the bandwidth recorded. *)
Theorem vote_sent (sort : list PreparedCommand → list PreparedCommand) (E : Env) (PROBE_DEFER : string)
    (db : option CmdDb.CommandDb) (reg : Registry) (device : PlatformDeviceInfo) (base size : Z)
    (p0 p : BcmPath) (peak : Z) (h : list Access) :
  sorts sort → clock_ok E → db_ok db → registry_ok base size reg →
  resolved PROBE_DEFER db reg device p0 → requested sort p0 p → u32 peak →
  ∃ res p' new, set_peak_kbps sort E p peak h = (res, p', h ++ new) ∧ vote_outcome base size p peak res p' new.
Proof.
  intros Hsort Hc Hdb Hreg Hp0 Hp Hk. destruct (requested_same _ _ _ Hp) as [Hv Hb].
  destruct (resolved_ok _ _ _ _ _ _ Hdb Hreg _ Hp0) as [[Hok Hlen] Hr].
  apply set_peak_outcome; [done|done|by rewrite Hv|split; by rewrite Hb|done].
Qed.
End IccFacts.

(** * A path at work *)
Module IccSample.
Import Opp Rsc RscFacts RscSample Icc IccFacts CmdDbSample.

#[local] Instance vcd_le_dec p q : Decision (vcd_le p q).
Proof. unfold vcd_le. apply _. Defined.

Definition sample_sort : list PreparedCommand → list PreparedCommand := merge_sort vcd_le.

Lemma sample_sorts : sorts sample_sort.
Proof.
  intros l. unfold sample_sort. split; [apply merge_sort_Permutation|]. apply StronglySorted_merge_sort.
  - intros x y z. unfold vcd_le. lia.
  - intros x y. unfold vcd_le. lia.
Qed.

(** A database with the three managers of the GPU. *)
Definition aux_entry (id : string) (address unit width vcd : Z) : CmdDbFacts.Entry :=
  CmdDbFacts.mk_abstract (str id) address (CmdDbFacts.le32 unit ++ CmdDbFacts.le16 width ++ [vcd; 0]).
Definition sh0 : CmdDbFacts.Entry := aux_entry "SH0" 0x50000 1000000 16 1.
Definition mc0 : CmdDbFacts.Entry := aux_entry "MC0" 0x50040 1000000 4 0.
Definition acv : CmdDbFacts.Entry := aux_entry "ACV" 0x50080 0 0 0.

Definition icc_db : CmdDb.CommandDb :=
  CmdDb.mk_db 0x80820000
    (replicate 4 0 ++ CmdDb.MAGIC
     ++ (CmdDbFacts.le16 5 ++ CmdDbFacts.le16 0 ++ CmdDbFacts.le16 72 ++ CmdDbFacts.le16 3 ++ replicate 8 0)
     ++ replicate (7 * 16) 0 ++ replicate 8 0
     ++ entry_bytes sh0 0 ++ entry_bytes mc0 8 ++ entry_bytes acv 16
     ++ CmdDbFacts.en_data sh0 ++ CmdDbFacts.en_data mc0 ++ CmdDbFacts.en_data acv).

Definition be32 (v : Z) : list Z := [v / 0x1000000; v / 0x10000 mod 256; v / 256 mod 256; v mod 256].

Definition sample_device : PlatformDeviceInfo :=
  mk_device (λ n, if bool_decide (n = "interconnect-names"%string) then Some []
                  else if bool_decide (n = "interconnects"%string)
                       then Some (be32 1 ++ be32 8 ++ be32 0 ++ be32 2 ++ be32 1 ++ be32 0) else None)
    (λ _, Some ["gfx-mem"%string]) [] None.

Definition sample_registry : Registry :=
  mk_registry [(9, sample_rsc)] [mk_provider 1 9 Gem; mk_provider 2 9 McVirtual].

Definition sample_path : BcmPath :=
  mk_path sample_rsc
    [mk_bcm "SH0" 0x50000 (mk_aux 1000000 16 1) (Bandwidth 16 true true);
     mk_bcm "MC0" 0x50040 (mk_aux 1000000 4 0) (Bandwidth 4 true true);
     mk_bcm "ACV" 0x50080 (mk_aux 0 0 0) (EnableMask 8)] UNSET_PEAK_KBPS.

Example sample_path_resolved :
  gpu_memory_path "defer" (Some icc_db) sample_registry sample_device = Ok sample_path.
Proof. vm_compute. reflexivity. Qed.

Example sample_batch_sent :
  batch sample_sort sample_path 1804000 =
    Ok [mk_command 0x50080 (0x20000000 + 8) false; mk_command 0x50040 (0x60000000 + 0x3fff) true;
        mk_command 0x50000 (0x60000000 + 0x3fff) true].
Proof. vm_compute. reflexivity. Qed.

Definition sample_request (stuck : bool) (p : BcmPath) (peak : Z) (h : list Access) :=
  set_peak_kbps sample_sort (sample_env sample_rsc stuck) p peak h.

Example sample_request_granted :
  (sample_request false sample_path 1804000 []).1 = (Ok (), mk_path sample_rsc (bcms sample_path) 1804000).
Proof. vm_compute. reflexivity. Qed.

Lemma vote_sent_witness :
  ∃ res p' new, sample_request false sample_path 1804000 [] = (res, p', [] ++ new) ∧
    vote_outcome 0x1000000 0x10000 sample_path 1804000 res p' new.
Proof.
  apply (vote_sent sample_sort (sample_env sample_rsc false) "defer" (Some icc_db) sample_registry sample_device
    0x1000000 0x10000 sample_path sample_path 1804000 []).
  - exact sample_sorts.
  - apply sample_clock_ok.
  - intros d [= <-]. apply (bool_decide_unpack _). by vm_compute.
  - constructor; [|constructor]. eapply ensures_Ok; [|exact sample_geometry]. apply geometry_ok; [intros bytes [= <-]|..]; by repeat constructor.
  - left. exact sample_path_resolved.
  - apply Fresh.
  - by vm_compute.
Defined.

Definition granted : BcmPath := mk_path sample_rsc (bcms sample_path) 1804000.
Definition stuck_log : list Access := Eval vm_compute in (sample_request true granted 0 []).2.

Lemma stuck_request :
  sample_request true granted 0 [] = (Err "qcom-rpmh-rsc: active request timed out"%string, granted, stuck_log).
Proof. vm_compute. reflexivity. Qed.

(** A request that times out after its batch was triggered leaves the recorded
    bandwidth, so asking for that bandwidth again does nothing: the vote of the
    failed request is not taken back. *)
Example failed_vote_not_restored :
  sample_request true granted 0 [] = (Err "qcom-rpmh-rsc: active request timed out"%string, granted, stuck_log) ∧
  stuck_log !! 30%nat = Some (TRIGGER sample_rsc) ∧
  latched sample_rsc
    [mk_command 0x50080 0 false; mk_command 0x50040 (0x60000000 + 0x4001) true;
     mk_command 0x50000 (0x60000000 + 0x4001) true] (writes (take 30 stuck_log)) ∧
  sample_request true granted 1804000 stuck_log = (Ok (), granted, stuck_log).
Proof.
  split; [exact stuck_request|]. split; [reflexivity|]. split; [|reflexivity]. split; [reflexivity|]. split.
  - exists 6. split; [reflexivity|]. intros [|[|[|i]]] c; [by intros [= <-]..|done].
  - intros [|[|[|i]]] c; [by intros [= <-]..|done].
Qed.
End IccSample.
