(* ===== verification/RpmhPower.v ===== *)
(** * Clocks and power domains voted through the coordinator

    [lib.rs] of [qcom-sc7180-rpmhcc] (the two clocks of the crystal oscillator)
    and [lib.rs] of [qcom-sc7180-rpmhpd] (the power domains), against the
    interface [ActiveWriter] of [RpmhRsc::write_active], and the votes that the
    hardware has after any history of requests. *)
From S2P Require Import Prelude CmdDb HfiSample Opp Rsc RscFacts.

(** ** What the drivers use of the coordinator *)
Class ActiveWriter (S : Type) := write_active : Z → Z → S → outcome string () * S.

(** The coordinator itself, with the accesses so far. *)
#[export] Instance coordinator (E : Rsc.Env) (r : Rsc.RpmhRsc) : ActiveWriter (list Rsc.Access) :=
  λ address data h, Rsc.write_active E r address data h.

Module RpmhClk.

Definition RPMH_CXO_CLK : Z := 0.
Definition RPMH_CXO_CLK_A : Z := 1.
Definition CXO_CLOCK_COUNT : nat := 2.
Definition XO_RESOURCE_NAME : string := "xo.lvl".
Definition XO_ENABLE_LEVEL : Z := 0x3.
Definition XO_DIVIDER : Z := 2.

Inductive ClkError := ClockNotFound | HardwareError | InvalidRate.

Record CxoResource := mk_cxo { address : Z; enabled : list bool }.

(** What the probe makes: the address comes from the command database. *)
Definition resource (db : option CmdDb.CommandDb) : outcome string CxoResource :=
  let? address := ok_or (db ≫= λ d, CmdDb.read_address d (Opp.str XO_RESOURCE_NAME))
                    "qcom-sc7180-rpmhcc: xo.lvl is missing from Command DB"%string in
  Ok (mk_cxo address (replicate CXO_CLOCK_COUNT false)).

Section Clocks.
Context {S : Type} `{ActiveWriter S}.

Definition set_enabled (self : CxoResource) (index : nat) (enable : bool) (s : S) :
    outcome string () * CxoResource * S :=
  match enabled self !! index with
  | None => (Panic, self, s)
  | Some was =>
      if eqb was enable then (Ok (), self, s)
      else
        let aggregate_before := existsb id (enabled self) in
        let self' := mk_cxo (address self) (<[index := enable]> (enabled self)) in
        let aggregate_after := existsb id (enabled self') in
        if eqb aggregate_before aggregate_after then (Ok (), self', s)
        else
          let level := if aggregate_after then XO_ENABLE_LEVEL else 0 in
          match write_active (address self) level s with
          | (Ok _, s) => (Ok (), self', s)
          | (Err e, s) => (Err e, mk_cxo (address self) (<[index := negb enable]> (enabled self')), s)
          | (Panic, s) => (Panic, self', s)
          end
  end.

(** The clock [id] of the resource. *)
Definition index (id : Z) : nat := Z.to_nat id.

Definition clk_enable (self : CxoResource) (id : Z) (s : S) : outcome ClkError () * CxoResource * S :=
  let '(res, self, s) := set_enabled self (index id) true s in (map_err res HardwareError, self, s).

(** [disable] reports a failure on the console only. *)
Definition clk_disable (self : CxoResource) (id : Z) (s : S) : outcome ClkError () * CxoResource * S :=
  let '(res, self, s) := set_enabled self (index id) false s in
  (match res with Panic => Panic | _ => Ok () end, self, s).
End Clocks.

Definition clk_is_enabled (self : CxoResource) (id : Z) : option bool := enabled self !! index id.

Definition recalc_rate (parent_rate : Z) : Z := parent_rate / XO_DIVIDER.

Definition round_rate (rate parent_rate : Z) : outcome ClkError Z :=
  let fixed_rate := recalc_rate parent_rate in
  if rate =? fixed_rate then Ok fixed_rate else Err InvalidRate.

(** The clock a specifier names. *)
Definition get_clk (spec : list Z) : outcome ClkError Z :=
  match spec with
  | [id] => if (id =? RPMH_CXO_CLK) || (id =? RPMH_CXO_CLK_A) then Ok id else Err ClockNotFound
  | _ => Err ClockNotFound
  end.
End RpmhClk.

Module RpmhPd.

Definition SC7180_CX : Z := 0.
Definition SC7180_CX_AO : Z := 1.
Definition SC7180_GFX : Z := 2.
Definition SC7180_MX : Z := 3.
Definition SC7180_MX_AO : Z := 4.
Definition SC7180_LMX : Z := 5.
Definition SC7180_LCX : Z := 6.
Definition SC7180_MSS : Z := 7.
Definition SC7180_DOMAIN_COUNT : Z := 8.
Definition RPMH_ARC_MAX_LEVELS : Z := 32.

(** A domain; a parent is a domain created before, shared by reference: its
    place in the list of domains. *)
Record RpmhPowerDomain := mk_domain {
  label : string;
  address : Z;
  corner : Z;
  parent : option nat;
  enabled : bool;
}.

(** The first index from 1 on with a zero. *)
Fixpoint first_zero (levels : list Z) (index : Z) : option Z :=
  match levels with
  | [] => None
  | level :: levels => if level =? 0 then Some index else first_zero levels (index + 1)
  end.

Definition maximum_corner (levels : list Z) : outcome string Z :=
  if (len levels =? 0) || (RPMH_ARC_MAX_LEVELS <? len levels)
  then Err "qcom-sc7180-rpmhpd: invalid ARC level count"%string
  else
    let level_count := default (len levels) (first_zero (skipn 1 levels) 1) in
    if level_count =? 0 then Err "qcom-sc7180-rpmhpd: ARC level table is empty"%string
    else if U32_MAX <? level_count - 1 then Err "qcom-sc7180-rpmhpd: ARC corner overflow"%string
    else Ok (level_count - 1).

(** [RpmhPowerDomain::new] *)
Definition new (db : option CmdDb.CommandDb) (label resource_name : string) (parent : option nat) :
    outcome string RpmhPowerDomain :=
  let? address := ok_or (db ≫= λ d, CmdDb.read_address d (Opp.str resource_name))
                    "qcom-sc7180-rpmhpd: Command DB resource is missing"%string in
  let? levels := ok_or (db ≫= λ d, CmdDb.read_aux_u16 d (Opp.str resource_name))
                   "qcom-sc7180-rpmhpd: Command DB ARC levels are missing"%string in
  let? corner := maximum_corner levels in
  Ok (mk_domain label address corner parent false).

(** The domains in the order they are created, and the table of identifiers. *)
Definition MX : nat := 0.
Definition MX_AO : nat := 1.

Definition provider_new (db : option CmdDb.CommandDb) : outcome string (list RpmhPowerDomain) :=
  let? mx := new db "mx" "mx.lvl" None in
  let? mx_ao := new db "mx_ao" "mx.lvl" None in
  let? cx := new db "cx" "cx.lvl" (Some MX) in
  let? cx_ao := new db "cx_ao" "cx.lvl" (Some MX_AO) in
  let? gfx := new db "gfx" "gfx.lvl" None in
  let? lmx := new db "lmx" "lmx.lvl" None in
  let? lcx := new db "lcx" "lcx.lvl" None in
  let? mss := new db "mss" "mss.lvl" None in
  Ok [mx; mx_ao; cx; cx_ao; gfx; lmx; lcx; mss].

Definition domains : list nat := [2; 3; 4; 0; 1; 5; 6; 7]%nat.

Definition get_domain (specifier : list Z) : outcome string nat :=
  match specifier with
  | [domain_id] => ok_or (domains !! Z.to_nat domain_id) "qcom-sc7180-rpmhpd: unsupported domain id"%string
  | _ => Err "qcom-sc7180-rpmhpd: expected one domain cell"%string
  end.

Definition set (d : RpmhPowerDomain) (on : bool) : RpmhPowerDomain :=
  mk_domain (label d) (address d) (corner d) (parent d) on.

Section Votes.
Context {S : Type} `{ActiveWriter S}.

(** A call for the parent, one turn of fuel deeper. *)
Fixpoint enable (fuel : nat) (ds : list RpmhPowerDomain) (i : nat) (s : S) :
    outcome string () * list RpmhPowerDomain * S :=
  match fuel, ds !! i with
  | Datatypes.S fuel, Some d =>
      if enabled d then (Ok (), ds, s)
      else
        let '(res, ds, s) := match parent d with Some p => enable fuel ds p s | None => (Ok (), ds, s) end in
        match res with
        | Ok _ =>
            match ds !! i with
            | None => (Panic, ds, s)
            | Some d =>
                if enabled d then (Ok (), ds, s)
                else
                  match write_active (address d) (corner d) s with
                  | (Ok _, s) => (Ok (), <[i := set d true]> ds, s)
                  | (res, s) => (res, ds, s)
                  end
            end
        | _ => (res, ds, s)
        end
  | _, _ => (Panic, ds, s)
  end.

Definition disable (ds : list RpmhPowerDomain) (i : nat) (s : S) : outcome string () * list RpmhPowerDomain * S :=
  match ds !! i with
  | None => (Panic, ds, s)
  | Some d =>
      if negb (enabled d) then (Ok (), ds, s)
      else
        match write_active (address d) 0 s with
        | (Ok _, s) => (Ok (), <[i := set d false]> ds, s)
        | (res, s) => (res, ds, s)
        end
  end.
End Votes.

Definition is_enabled (ds : list RpmhPowerDomain) (i : nat) : option bool := enabled <$> ds !! i.
End RpmhPd.

(** ** The contract of a vote

    What [write_active] promises to its clients: a call ends, and is one request
    for the resource, answered or not.  An answered request is the vote that
    the hardware has.  Of an unanswered one nobody knows: the hardware has
    what it had or what was asked for. *)
Record Request := mk_request { rq_address : Z; rq_level : Z; rq_answered : bool }.

(** The levels that the hardware may have for the resource [a]; it has none to
    begin with. *)
Definition possible (requests : list Request) (a : Z) : list Z :=
  foldl (λ levels q,
    if rq_address q =? a then (if rq_answered q then [rq_level q] else levels ++ [rq_level q]) else levels)
    [0] requests.

(** The last request for [a], if there was one, was answered. *)
Definition settled (requests : list Request) (a : Z) : bool :=
  foldl (λ known q, if rq_address q =? a then rq_answered q else known) true requests.

Class VoteLaws (S : Type) `{ActiveWriter S} := {
  requests : S → list Request;
  granted_vote a level s s' :
    write_active a level s = (Ok (), s') → requests s' = requests s ++ [mk_request a level true];
  refused_vote a level s e s' :
    write_active a level s = (Err e, s') → requests s' = requests s ++ [mk_request a level false];
  vote_ends a level s : (write_active a level s).1 ≠ Panic;
}.

Module RpmhPowerFacts.

(** The vote of [a] is [level], known if the last request was answered; all
    that was ever asked for since then is [high] or nothing. *)
Definition votes {S} `{VoteLaws S} (s : S) (a high level : Z) : Prop :=
  (settled (requests s) a = true → possible (requests s) a = [level]) ∧
  ∀ v, v ∈ possible (requests s) a → v = 0 ∨ v = high.

Lemma settled_snoc l q a :
  settled (l ++ [q]) a = if rq_address q =? a then rq_answered q else settled l a.
Proof. unfold settled. by rewrite foldl_app. Qed.

Lemma possible_snoc l q a :
  possible (l ++ [q]) a =
    if rq_address q =? a then (if rq_answered q then [rq_level q] else possible l a ++ [rq_level q]) else possible l a.
Proof. unfold possible. by rewrite foldl_app. Qed.

Lemma no_requests {S} `{VoteLaws S} s a high : requests s = [] → votes s a high 0.
Proof. unfold votes. intros ->. split; [done|]. intros v ->%list_elem_of_singleton. by left. Qed.

(** A vote for the level [0] or [high] of a resource. *)
Lemma write_cases {S} `{VoteLaws S} a level s :
  ∃ s', (∀ b high l, b ≠ a → votes s b high l → votes s' b high l) ∧
    ((write_active a level s = (Ok (), s') ∧ ∀ high, level = 0 ∨ level = high → votes s' a high level) ∨
     (∃ e, write_active a level s = (Err e, s') ∧
        ∀ high l, level = 0 ∨ level = high → votes s a high l → votes s' a high l)).
Proof.
  assert (∀ s' q, requests s' = requests s ++ [q] → rq_address q = a →
    ∀ b high l, b ≠ a → votes s b high l → votes s' b high l) as Hother.
  { intros s' q Hq Ha b high l Hb. unfold votes. rewrite Hq, settled_snoc, possible_snoc, Ha.
    by rewrite (proj2 (Z.eqb_neq a b)) by done. }
  destruct (write_active a level s) as [[[]|e|] s'] eqn:E.
  - pose proof (granted_vote _ _ _ _ E) as Hq. exists s'. split; [by eapply Hother|]. left. split; [done|].
    intros high Hl. unfold votes. rewrite Hq, possible_snoc. simpl. rewrite Z.eqb_refl. split; [done|].
    by intros v ->%list_elem_of_singleton.
  - pose proof (refused_vote _ _ _ _ _ E) as Hq. exists s'. split; [by eapply Hother|]. right. exists e. split; [done|].
    intros high l Hl [_ Hv]. unfold votes. rewrite Hq, settled_snoc, possible_snoc. simpl. rewrite Z.eqb_refl.
    split; [done|]. intros v [?| ->%list_elem_of_singleton]%elem_of_app; auto.
  - exfalso. apply (vote_ends a level s). by rewrite E.
Qed.

(** ** The coordinator keeps the contract

    With the requests beside the accesses. *)
Section Coordinator.
Context (E : Rsc.Env) (r : Rsc.RpmhRsc).

Definition Voted : Type := list Rsc.Access * list Request.

#[export] Instance voted_writer : ActiveWriter Voted := λ a level s,
  match Rsc.write_active E r a level s.1 with
  | (Ok _, h) => (Ok (), (h, s.2 ++ [mk_request a level true]))
  | (Err e, h) => (Err e, (h, s.2 ++ [mk_request a level false]))
  | (Panic, h) => (Panic, (h, s.2))
  end.

Lemma voted_laws (base size : Z) :
  RscFacts.clock_ok E → RscFacts.rsc_ok base size r → VoteLaws Voted.
Proof.
  intros Hc Hr. refine {| requests := snd |}.
  - intros a level [h v] s' Hw. unfold write_active, voted_writer in Hw. simpl in Hw.
    destruct (Rsc.write_active E r a level h) as [[?|?|] h']; [|done..]. by injection Hw as <-.
  - intros a level [h v] e s' Hw. unfold write_active, voted_writer in Hw. simpl in Hw.
    destruct (Rsc.write_active E r a level h) as [[?|?|] h']; [done| |done]. by injection Hw as <- <-.
  - intros a level [h v]. unfold write_active, voted_writer. simpl. unfold Rsc.write_active.
    destruct (RscFacts.write_active_batch_ends E base size r Hc Hr [Rsc.mk_command a level true] h)
      as (res & new & -> & Hp & _). by destruct res.
Defined.
End Coordinator.

(** ** The oscillator clocks *)
Section Clk.
Context {S : Type} `{VoteLaws S}.
Import RpmhClk.

Definition cxo_level (flags : list bool) : Z := if existsb id flags then XO_ENABLE_LEVEL else 0.

Definition cxo_votes_for (s : S) (a : Z) (flags : list bool) : Prop := votes s a XO_ENABLE_LEVEL (cxo_level flags).

(** A client's call. *)
Inductive call := Enable (clock : Z) | Disable (clock : Z).

Definition clock_of (c : call) : Z := match c with Enable i | Disable i => i end.

Definition perform (c : call) (self : CxoResource) (s : S) : outcome ClkError () * CxoResource * S :=
  match c with Enable i => clk_enable self i s | Disable i => clk_disable self i s end.

Inductive cxo_history (self0 : CxoResource) (s0 : S) : CxoResource → S → Prop :=
| cxo_fresh : cxo_history self0 s0 self0 s0
| cxo_call self s c spec res self' s' :
    cxo_history self0 s0 self s → get_clk spec = Ok (clock_of c) → perform c self s = (res, self', s') →
    cxo_history self0 s0 self' s'.

Lemma set_enabled_spec self x y (i : nat) e s :
  enabled self = [x; y] → (i < 2)%nat →
  ∃ res x' y' s', set_enabled self i e s = (res, mk_cxo (address self) [x'; y'], s') ∧ res ≠ Panic ∧
    (cxo_votes_for s (address self) [x; y] → cxo_votes_for s' (address self) [x'; y']) ∧
    (res = Ok () → [x'; y'] = <[i := e]> [x; y]) ∧ (res ≠ Ok () → [x'; y'] = [x; y]) ∧
    (existsb id [x; y] = existsb id (<[i := e]> [x; y]) → res = Ok () ∧ s' = s).
Proof.
  intros Hen Hi. destruct self as [a flags]. simpl in *. subst flags. unfold set_enabled. simpl.
  destruct (write_cases a XO_ENABLE_LEVEL s) as (s1 & _ & [(E1 & H1)|(e1 & E1 & H1)]);
  destruct (write_cases a 0 s) as (s2 & _ & [(E2 & H2)|(e2 & E2 & H2)]);
  destruct i as [|[|i]]; [| |lia| | |lia| | |lia| | |lia]; destruct x, y, e; simpl; rewrite ?E1, ?E2;
    eexists _, _, _, _; (split; [reflexivity|]); split_and!; try done; unfold cxo_votes_for, cxo_level; simpl; auto.
Qed.

Definition clock_ok (c : Z) : Prop := c = RPMH_CXO_CLK ∨ c = RPMH_CXO_CLK_A.

Lemma get_clk_ok spec c : get_clk spec = Ok c → clock_ok c.
Proof.
  unfold get_clk. destruct spec as [|i [|? ?]]; [done| |done]. destruct (_ || _) eqn:Eo; [|done]. intros [= <-].
  apply orb_true_iff in Eo. unfold clock_ok. lia.
Qed.

(** What a call does. *)
Definition call_outcome (c : call) (self : CxoResource) (s : S) (res : outcome ClkError ())
    (self' : CxoResource) (s' : S) : Prop :=
  res ≠ Panic ∧ address self' = address self ∧
  (∀ i, clock_ok i → i ≠ clock_of c → clk_is_enabled self' i = clk_is_enabled self i) ∧
  match c with
  | Enable i => res = Ok () ∧ clk_is_enabled self' i = Some true ∨ res = Err HardwareError ∧ self' = self
  | Disable i => res = Ok ()
  end ∧
  (existsb id (enabled self) = existsb id (<[index (clock_of c) :=
     match c with Enable _ => true | Disable _ => false end]> (enabled self)) → s' = s).

Definition cxo_ok (self : CxoResource) (s : S) : Prop :=
  length (enabled self) = 2%nat ∧ cxo_votes_for s (address self) (enabled self).

Lemma perform_spec c self s :
  clock_ok (clock_of c) → cxo_ok self s →
  ∃ res self' s', perform c self s = (res, self', s') ∧ call_outcome c self s res self' s' ∧ cxo_ok self' s'.
Proof.
  intros Hc [Hlen Hst]. destruct (enabled self) as [|x [|y [|? ?]]] eqn:Hen; try done.
  assert (index (clock_of c) < 2)%nat as Hi by (destruct Hc as [-> | ->]; vm_compute; lia).
  assert (∀ i v x' y', clock_ok i → i ≠ clock_of c →
    [x'; y'] = <[index (clock_of c) := v]> [x; y] ∨ [x'; y'] = [x; y] → [x'; y'] !! index i = [x; y] !! index i) as Hother.
  { intros i v x' y' Hoi Hne [He|He]; rewrite He; [|done].
    by destruct Hc as [Hc|Hc], Hoi as [Hoi|Hoi]; rewrite Hc, Hoi in *. }
  destruct c as [c|c]; simpl in *; unfold clk_enable, clk_disable.
  - destruct (set_enabled_spec self x y (index c) true s Hen Hi) as (res & x' & y' & s' & -> & Hp & Hs & Hok & Herr & Hsame).
    eexists _, _, s'. split; [reflexivity|]. unfold call_outcome, cxo_ok, clk_is_enabled. simpl. rewrite !Hen.
    split; [|split; [done|by apply Hs]]. split_and!.
    + by destruct res.
    + done.
    + intros i Hoi Hne. apply (Hother i true); [done|done|]. destruct res as [[]|e|]; [left; by apply Hok|right; by apply Herr|done].
    + destruct res as [[]|e|]; [left|right|done].
      * split; [done|]. rewrite Hok by done. by destruct Hc as [-> | ->].
      * split; [done|]. rewrite Herr by done. by destruct self; simpl in *; subst.
    + intros He. by apply Hsame.
  - destruct (set_enabled_spec self x y (index c) false s Hen Hi) as (res & x' & y' & s' & -> & Hp & Hs & Hok & Herr & Hsame).
    eexists _, _, s'. split; [reflexivity|]. unfold call_outcome, cxo_ok, clk_is_enabled. simpl. rewrite !Hen.
    split; [|split; [done|by apply Hs]]. split_and!.
    + by destruct res.
    + done.
    + intros i Hoi Hne. apply (Hother i false); [done|done|]. destruct res as [[]|e|]; [left; by apply Hok|right; by apply Herr|done].
    + by destruct res.
    + intros He. by apply Hsame.
Qed.

(** After any history of enabling and disabling the two oscillator clocks, with
    any requests unanswered, the vote that the hardware has for [xo.lvl] is the
    enable level if some clock is enabled and zero if none is, provided that the
    last request was answered; otherwise it is one of the two levels.  No call panics or touches
    the other clock; an enable succeeds with its clock on or fails and changes
    nothing; and a call that leaves the aggregate as it is sends no vote. *)
Theorem cxo_votes (db : option CmdDb.CommandDb) (self0 self : CxoResource) (s0 s : S) (c : call) (spec : list Z) :
  resource db = Ok self0 → requests s0 = [] → cxo_history self0 s0 self s →
  get_clk spec = Ok (clock_of c) →
  cxo_votes_for s (address self0) (enabled self) ∧
  ∃ res self' s', perform c self s = (res, self', s') ∧ call_outcome c self s res self' s' ∧
    cxo_votes_for s' (address self0) (enabled self').
Proof.
  intros Hnew Hzero Hh Hc. assert (cxo_ok self s ∧ address self = address self0) as [Hok Ha].
  { induction Hh as [|self s c' spec' res self' s' _ [IH Ha] Hc' Hr].
    - unfold resource in Hnew. destruct (_ ≫= _); [|done]. injection Hnew as <-.
      split; [|done]. split; [done|]. by apply no_requests.
    - destruct (perform_spec c' self s (get_clk_ok _ _ Hc') IH) as (? & ? & ? & Hr' & Hout & Hok).
      rewrite Hr in Hr'. injection Hr' as <- <- <-. split; [done|]. rewrite <- Ha. apply Hout. }
  split; [rewrite <- Ha; apply Hok|].
  destruct (perform_spec c self s (get_clk_ok _ _ Hc) Hok) as (res & self' & s' & Hr & Hout & Hok').
  exists res, self', s'. split; [done|]. split; [done|]. rewrite <- Ha. replace (address self) with (address self'); [apply Hok'|apply Hout].
Qed.
End Clk.

(** ** The power domains *)

(** The highest corner below the zero padding. *)
Lemma first_zero_spec levels i :
  0 ≤ i →
  match RpmhPd.first_zero levels i with
  | Some z => i ≤ z < i + len levels ∧ levels !! Z.to_nat (z - i) = Some 0 ∧
      ∀ j v, i ≤ j < z → levels !! Z.to_nat (j - i) = Some v → v ≠ 0
  | None => Forall (λ v, v ≠ 0) levels
  end.
Proof.
  revert i. induction levels as [|v levels IH]; intros i Hi; simpl; [constructor|].
  destruct (Z.eqb_spec v 0) as [-> |Hv].
  - unfold len. simpl. split_and!; [lia|lia|by rewrite Z.sub_diag|]. intros; lia.
  - specialize (IH (i + 1) ltac:(lia)). destruct (RpmhPd.first_zero levels (i + 1)) as [z|]; [|by constructor].
    destruct IH as (Hr & Hz & Hn). unfold len in *. simpl.
    assert (∀ j, i + 1 ≤ j → Z.to_nat (j - i) = Datatypes.S (Z.to_nat (j - (i + 1)))) as Hs by lia.
    split_and!; [lia|lia|rewrite Hs by lia; done|]. intros j w Hj Hw.
    destruct (decide (j = i)) as [-> |]; [rewrite Z.sub_diag in Hw; simpl in Hw; congruence|].
    rewrite Hs in Hw by lia. apply (Hn j w); [lia|done].
Qed.

Definition highest (levels : list Z) (c : Z) : Prop :=
  0 ≤ c < len levels ∧ c < RpmhPd.RPMH_ARC_MAX_LEVELS ∧
  (∀ j v, 1 ≤ j ≤ c → levels !! Z.to_nat j = Some v → v ≠ 0) ∧
  (c + 1 = len levels ∨ levels !! Z.to_nat (c + 1) = Some 0).

Lemma maximum_corner_highest levels : ensures (highest levels) (RpmhPd.maximum_corner levels).
Proof.
  unfold RpmhPd.maximum_corner, highest, RpmhPd.RPMH_ARC_MAX_LEVELS. destruct (_ || _) eqn:Eo; [done|].
  apply orb_false_elim in Eo as [_ Eo]. apply Z.ltb_ge in Eo.
  destruct levels as [|v levels]; [done|].
  assert (len (v :: levels) = 1 + len levels) as Hl by (unfold len; simpl; lia). rewrite Hl in *.
  simpl. rewrite drop_0. pose proof (first_zero_spec levels 1 ltac:(lia)) as Hz. pose proof (len_nonneg levels).
  assert (∀ j, 1 ≤ j → Z.to_nat j = Datatypes.S (Z.to_nat (j - 1))) as Hs by lia.
  destruct (RpmhPd.first_zero levels 1) as [z|]; simpl.
  - destruct Hz as (Hr & Hz & Hn). destruct (Z.eqb_spec z 0); [done|].
    destruct (Z.ltb_spec U32_MAX (z - 1)); [done|]. simpl.
    split_and!; [lia|lia|lia| |].
    + intros j w Hj. rewrite Hs by lia. apply Hn. lia.
    + right. replace (z - 1 + 1) with z by lia. by rewrite Hs by lia.
  - destruct (Z.eqb_spec (1 + len levels) 0); [done|].
    destruct (Z.ltb_spec U32_MAX (1 + len levels - 1)); [done|]. simpl.
    split_and!; [lia|lia|lia| |left; lia].
    intros j w Hj. rewrite Hs by lia. simpl. intros Hw. rewrite Forall_forall in Hz. apply Hz. by eapply list_elem_of_lookup_2.
Qed.

Section Pd.
Context {S : Type} `{VoteLaws S}.
Import RpmhPd.

(** Parents exist and have no parents. *)
Definition domains_ok (ds : list RpmhPowerDomain) : Prop :=
  ∀ i d p, ds !! i = Some d → parent d = Some p → ∃ d', ds !! p = Some d' ∧ parent d' = None.

(** Everything but the flags. *)
Definition shape (ds : list RpmhPowerDomain) : list RpmhPowerDomain := (λ d, set d false) <$> ds.

(** No other domain votes for the resource of this one. *)
Definition alone (ds : list RpmhPowerDomain) (i : nat) : Prop :=
  ∀ j d d', i ≠ j → ds !! i = Some d → ds !! j = Some d' → address d ≠ address d'.

Definition votes_stand (ds : list RpmhPowerDomain) (s : S) : Prop :=
  ∀ i d, ds !! i = Some d → alone ds i → votes s (address d) (corner d) (if enabled d then corner d else 0).

Definition is_on (ds : list RpmhPowerDomain) (i : nat) : Prop := RpmhPd.is_enabled ds i = Some true.

Lemma shape_set ds (i : nat) d on : ds !! i = Some d → shape (<[i := set d on]> ds) = shape ds.
Proof.
  intros Hi. unfold shape. rewrite list_fmap_insert. apply list_insert_id. by rewrite list_lookup_fmap, Hi.
Qed.

Lemma shape_lookup ds ds' (i : nat) d : shape ds' = shape ds → ds !! i = Some d → ∃ on, ds' !! i = Some (set d on).
Proof.
  intros Hs Hi. apply (f_equal (λ l : list RpmhPowerDomain, l !! i)) in Hs. unfold shape in Hs.
  rewrite !list_lookup_fmap, Hi in Hs. destruct (ds' !! i) as [d'|]; [|done]. exists (enabled d').
  destruct d, d'. unfold set in *. simpl in *. by injection Hs as -> -> -> ->.
Qed.

Lemma shape_domains_ok ds ds' : shape ds' = shape ds → domains_ok ds → domains_ok ds'.
Proof.
  intros Hs Hok i d p Hi Hp. destruct (shape_lookup ds' ds i d (eq_sym Hs) Hi) as [on Hd].
  destruct (Hok i _ p Hd Hp) as (d' & Hd' & Hn). destruct (shape_lookup ds ds' p d' Hs Hd') as [on' ?].
  by eexists.
Qed.

Lemma shape_alone ds ds' i : shape ds' = shape ds → alone ds' i → alone ds i.
Proof.
  intros Hs Ha j d d' Hne Hi Hj. destruct (shape_lookup _ _ _ _ Hs Hi) as [o Hi'].
  destruct (shape_lookup _ _ _ _ Hs Hj) as [o' Hj']. by apply (Ha j _ _ Hne Hi' Hj').
Qed.

Lemma lookup_set (ds : list RpmhPowerDomain) (i : nat) d on j d' :
  ds !! i = Some d → <[i := set d on]> ds !! j = Some d' →
  (j = i ∧ d' = set d on) ∨ (j ≠ i ∧ ds !! j = Some d').
Proof.
  intros Hi Hj. destruct (decide (j = i)) as [-> |Hne].
  - left. rewrite list_lookup_insert_eq in Hj by (by eapply lookup_lt_Some). by injection Hj as <-.
  - right. by rewrite list_lookup_insert_ne in Hj by done.
Qed.

(** A domain votes for itself. *)
Definition level_of (d : RpmhPowerDomain) (on : bool) : Z := if on then corner d else 0.

Lemma vote_spec (ds : list RpmhPowerDomain) (i : nat) d on s :
  ds !! i = Some d → votes_stand ds s →
  ∃ s', (write_active (address d) (level_of d on) s = (Ok (), s') ∧ votes_stand (<[i := set d on]> ds) s') ∨
    (∃ e, write_active (address d) (level_of d on) s = (Err e, s') ∧ votes_stand ds s').
Proof.
  intros Hi Hv. assert (level_of d on = 0 ∨ level_of d on = corner d) as Hlevel by (destruct on; auto).
  destruct (write_cases (address d) (level_of d on) s) as (s' & Ho & [(E & Hl)|(e & E & Hl)]); exists s'.
  - left. split; [done|]. intros j d' Hj Ha. destruct (lookup_set _ _ _ _ _ _ Hi Hj) as [[-> ->]|[Hne Hj']].
    + simpl. by apply Hl.
    + assert (alone ds j) as Ha' by (apply (shape_alone ds (<[i := set d on]> ds)); [by apply shape_set|done]).
      apply Ho; [by apply (Ha' i)|by apply (Hv j)].
  - right. exists e. split; [done|]. intros j d' Hj Ha. destruct (decide (j = i)) as [-> |Hne].
    + rewrite Hi in Hj. injection Hj as <-. apply Hl; [done|by apply (Hv i)].
    + apply Ho; [by apply (Ha i)|by apply (Hv j)].
Qed.

(** What enabling the domain [i] does. *)
Definition enable_outcome (ds : list RpmhPowerDomain) (i : nat) (res : outcome string ())
    (ds' : list RpmhPowerDomain) (s' : S) : Prop :=
  res ≠ Panic ∧ shape ds' = shape ds ∧ votes_stand ds' s' ∧
  (∀ j, is_on ds j → is_on ds' j) ∧
  (∀ j d, ds !! i = Some d → j ≠ i → parent d ≠ Some j → is_on ds' j → is_on ds j) ∧
  (res = Ok () → is_on ds' i ∧
     ∀ d p, ds !! i = Some d → enabled d = false → parent d = Some p → is_on ds' p).

Lemma is_on_set (ds : list RpmhPowerDomain) (i : nat) d j : ds !! i = Some d → is_on (<[i := set d true]> ds) j ↔ j = i ∨ is_on ds j.
Proof.
  intros Hi. unfold is_on, RpmhPd.is_enabled. destruct (decide (j = i)) as [-> |Hne].
  - rewrite list_lookup_insert_eq by (by eapply lookup_lt_Some). naive_solver.
  - rewrite list_lookup_insert_ne by done. naive_solver.
Qed.

(** The last step of enabling: the domain's own vote. *)
Lemma own_vote (ds : list RpmhPowerDomain) (i : nat) d s :
  ds !! i = Some d → votes_stand ds s →
  ∃ res ds' s', match write_active (address d) (corner d) s with
                | (Ok _, s) => (Ok (), <[i := set d true]> ds, s)
                | (res, s) => (res, ds, s)
                end = (res, ds', s') ∧ res ≠ Panic ∧ shape ds' = shape ds ∧ votes_stand ds' s' ∧
    (res = Ok () ∧ ds' = <[i := set d true]> ds ∨ res ≠ Ok () ∧ ds' = ds).
Proof.
  intros Hi Hv. destruct (vote_spec ds i d true s Hi Hv) as (s' & [[E Hs]|(e & E & Hs)]); simpl in E; rewrite E.
  - exists (Ok ()), (<[i := set d true]> ds), s'. split_and!; [done|done|by apply shape_set|done|by left].
  - exists (Err e), ds, s'. split_and!; [done..|by right].
Qed.

Lemma enable_root fuel (ds : list RpmhPowerDomain) (i : nat) d s :
  ds !! i = Some d → parent d = None → votes_stand ds s →
  ∃ res ds' s', enable (Datatypes.S fuel) ds i s = (res, ds', s') ∧ enable_outcome ds i res ds' s'.
Proof.
  intros Hi Hp Hv. cbn [enable]. rewrite Hi. destruct (enabled d) eqn:He.
  - exists (Ok ()), ds, s. split; [done|]. split_and!; try done. intros _. split; [|naive_solver].
    unfold is_on, RpmhPd.is_enabled. by rewrite Hi, <- He.
  - rewrite Hp, Hi, He. destruct (own_vote ds i d s Hi Hv) as (res & ds' & s' & -> & Hr & Hsh & Hst & Hcase).
    exists res, ds', s'. split; [done|]. unfold enable_outcome. split_and!; [done|done|done| | |].
    + intros j Hj. destruct Hcase as [[_ ->]|[_ ->]]; [|done]. apply is_on_set; auto.
    + intros j d' _ Hne _ Hj. destruct Hcase as [[_ ->]|[_ ->]]; [|done].
      apply is_on_set in Hj as [?|?]; done.
    + intros Hok. destruct Hcase as [[_ ->]|[Hno _]]; [|done]. split; [apply is_on_set; auto|].
      intros d' p Hd' _ Hp'. rewrite Hi in Hd'. injection Hd' as <-. congruence.
Qed.

Lemma enable_spec (ds : list RpmhPowerDomain) (i : nat) d s :
  domains_ok ds → ds !! i = Some d → votes_stand ds s →
  ∃ res ds' s', enable 2 ds i s = (res, ds', s') ∧ enable_outcome ds i res ds' s'.
Proof.
  intros Hok Hi Hv. destruct (parent d) as [p|] eqn:Hp; [|by eapply enable_root].
  destruct (Hok i d p Hi Hp) as (dp & Hdp & Hroot).
  remember 1%nat as f eqn:Hf. replace 2%nat with (Datatypes.S f) by lia. cbn [enable]. rewrite Hi.
  destruct (enabled d) eqn:He.
  { exists (Ok ()), ds, s. split; [done|]. split_and!; try done. intros _. split; [|intros d' p' Hd' Hoff; rewrite Hi in Hd'; injection Hd' as <-; congruence].
    unfold is_on, RpmhPd.is_enabled. by rewrite Hi, <- He. }
  rewrite Hp, Hf. destruct (enable_root 0 ds p dp s Hdp Hroot Hv) as (r1 & ds1 & s1 & -> & Hp1 & Hsh1 & Hv1 & Hup1 & Hoth1 & Hon1).
  assert (i ≠ p) as Hip by (intros ->; rewrite Hi in Hdp; injection Hdp as ->; congruence).
  assert (∀ j d', ds !! i = Some d' → j ≠ i → parent d' ≠ Some j → is_on ds1 j → is_on ds j) as Hoth.
  { intros j d' Hd' Hji Hpj. rewrite Hi in Hd'. injection Hd' as <-. apply (Hoth1 j dp Hdp); [congruence|].
    by rewrite Hroot. }
  destruct r1 as [[]|e|]; [| |done].
  2: { exists (Err e), ds1, s1. split; [done|]. by split_and!. }
  destruct (shape_lookup ds ds1 i d Hsh1 Hi) as [on Hi1]. rewrite Hi1.
  destruct (Hon1 eq_refl) as [Hpon _].
  destruct on; simpl.
  { exists (Ok ()), ds1, s1. split; [done|]. split_and!; try done. intros _. split.
    - unfold is_on, RpmhPd.is_enabled. by rewrite Hi1.
    - intros d' p' Hd' _ Hp'. rewrite Hi in Hd'. injection Hd' as <-. rewrite Hp in Hp'. by injection Hp' as <-. }
  destruct (own_vote ds1 i _ s1 Hi1 Hv1) as (res & ds' & s' & E & Hr & Hsh & Hst & Hcase). simpl in E. rewrite E.
  exists res, ds', s'. split; [done|]. unfold enable_outcome. split_and!; [done|by rewrite Hsh|done| | |].
  - intros j Hj. destruct Hcase as [[_ ->]|[_ ->]]; [|by apply Hup1]. apply (is_on_set _ _ _ _ Hi1); auto.
  - intros j d' Hd' Hji Hpj Hj. apply (Hoth j d'); try done. destruct Hcase as [[_ ->]|[_ ->]]; [|done].
    by apply (is_on_set _ _ _ _ Hi1) in Hj as [?|?].
  - intros Hres. destruct Hcase as [[_ ->]|[Hno _]]; [|done]. split; [apply (is_on_set _ _ _ _ Hi1); auto|].
    intros d' p' Hd' _ Hp'. rewrite Hi in Hd'. injection Hd' as <-. rewrite Hp in Hp'. injection Hp' as <-.
    apply (is_on_set _ _ _ _ Hi1). auto.
Qed.

Definition disable_outcome (ds : list RpmhPowerDomain) (i : nat) (res : outcome string ())
    (ds' : list RpmhPowerDomain) (s' : S) : Prop :=
  res ≠ Panic ∧ shape ds' = shape ds ∧ votes_stand ds' s' ∧
  (∀ j, j ≠ i → is_on ds' j ↔ is_on ds j) ∧ (res = Ok () → ¬ is_on ds' i) ∧ (res ≠ Ok () → ds' = ds).

Lemma disable_spec (ds : list RpmhPowerDomain) (i : nat) d s :
  ds !! i = Some d → votes_stand ds s →
  ∃ res ds' s', disable ds i s = (res, ds', s') ∧ disable_outcome ds i res ds' s'.
Proof.
  intros Hi Hv. unfold disable. rewrite Hi. unfold disable_outcome, is_on, RpmhPd.is_enabled.
  destruct (enabled d) eqn:He; cbn [negb].
  - destruct (vote_spec ds i d false s Hi Hv) as (s' & [[E Hs]|(e & E & Hs)]); simpl in E; rewrite E.
    + exists (Ok ()), (<[i := set d false]> ds), s'. split; [done|].
      split_and!; [done|by apply shape_set|done| | |done].
      * intros j Hne. by rewrite list_lookup_insert_ne.
      * intros _. rewrite list_lookup_insert_eq by (by eapply lookup_lt_Some). done.
    + exists (Err e), ds, s'. by split_and!.
  - exists (Ok ()), ds, s. split; [done|]. split_and!; try done. intros _. by rewrite Hi; simpl; rewrite He.
Qed.

(** The resource that each domain votes for. *)
Definition RESOURCES : list string :=
  ["mx.lvl"; "mx.lvl"; "cx.lvl"; "cx.lvl"; "gfx.lvl"; "lmx.lvl"; "lcx.lvl"; "mss.lvl"]%string.

(** The domain votes for the resource [name]: the database has its address,
    and levels of which the domain's corner is the highest. *)
Definition votes_highest (db : option CmdDb.CommandDb) (name : string) (d : RpmhPowerDomain) : Prop :=
  ∃ database levels, db = Some database ∧
    CmdDb.read_address database (Opp.str name) = Some (address d) ∧
    CmdDb.read_aux_u16 database (Opp.str name) = Some levels ∧ highest levels (corner d).

Lemma new_fields db l n p d : new db l n p = Ok d → parent d = p ∧ enabled d = false ∧ votes_highest db n d.
Proof.
  unfold new. destruct db as [database|]; [|done]. cbn [mbind option_bind].
  destruct (CmdDb.read_address _ _) as [a|] eqn:Ha; [|done]. cbn [bind ok_or].
  destruct (CmdDb.read_aux_u16 _ _) as [levels|] eqn:Hl; [|done]. cbn [bind ok_or].
  pose proof (maximum_corner_highest levels) as Hm.
  destruct (maximum_corner levels); [|done..]. cbn [bind]. intros [= <-]. split_and!; [done..|].
  by exists database, levels.
Qed.

Lemma provider_ok db ds :
  provider_new db = Ok ds →
  domains_ok ds ∧ Forall2 (votes_highest db) RESOURCES ds ∧ Forall (λ d, enabled d = false) ds.
Proof.
  unfold provider_new. intros H1.
  repeat match type of H1 with bind ?m _ = Ok _ =>
    let d := fresh "d" in let Hd := fresh "Hd" in
    destruct m as [d| |] eqn:Hd; [cbn [bind] in H1; apply new_fields in Hd as (? & ? & ?)|done|done] end.
  injection H1 as <-. split; [|split; by repeat constructor].
  intros i d' p Hi Hp. destruct i as [|[|[|[|[|[|[|[|i]]]]]]]]; [injection Hi as <-..|done]; try congruence.
  - exists d. split; [|done]. by replace p with MX by congruence.
  - exists d0. split; [|done]. by replace p with MX_AO by congruence.
Qed.

Lemma get_domain_ok spec i : get_domain spec = Ok i → (i < 8)%nat.
Proof.
  unfold get_domain. destruct spec as [|x [|? ?]]; [done| |done]. intros Hd%ok_or_Ok.
  assert (Forall (λ j, j < 8)%nat domains) as Hf by (repeat constructor). rewrite Forall_forall in Hf.
  apply Hf. by eapply list_elem_of_lookup_2.
Qed.

(** Any history of enabling and disabling domains of the provider. *)
Inductive pd_history (ds0 : list RpmhPowerDomain) (s0 : S) : list RpmhPowerDomain → S → Prop :=
| pd_fresh : pd_history ds0 s0 ds0 s0
| pd_enable ds s spec i res ds' s' :
    pd_history ds0 s0 ds s → get_domain spec = Ok i → enable 2 ds i s = (res, ds', s') → pd_history ds0 s0 ds' s'
| pd_disable ds s spec i res ds' s' :
    pd_history ds0 s0 ds s → get_domain spec = Ok i → disable ds i s = (res, ds', s') → pd_history ds0 s0 ds' s'.

Lemma pd_history_ok ds0 s0 ds s :
  domains_ok ds0 → length ds0 = 8%nat → votes_stand ds0 s0 → pd_history ds0 s0 ds s →
  shape ds = shape ds0 ∧ votes_stand ds s.
Proof.
  intros Hok Hlen Hv. induction 1 as [|ds s spec i res ds' s' _ [Hs Hst] Hg Hr|ds s spec i res ds' s' _ [Hs Hst] Hg Hr];
    [done| |]; apply get_domain_ok in Hg.
  all: assert (length ds = 8%nat) as Hl by (apply (f_equal length) in Hs; unfold shape in Hs; rewrite !length_fmap in Hs; lia).
  all: destruct (lookup_lt_is_Some_2 ds i ltac:(lia)) as [d Hi].
  - destruct (enable_spec ds i d s (shape_domains_ok _ _ Hs Hok) Hi Hst) as (? & ? & ? & Hr' & _ & Hsh & Hst' & _).
    rewrite Hr in Hr'. injection Hr' as <- <- <-. by rewrite Hsh.
  - destruct (disable_spec ds i d s Hi Hst) as (? & ? & ? & Hr' & _ & Hsh & Hst' & _).
    rewrite Hr in Hr'. injection Hr' as <- <- <-. by rewrite Hsh.
Qed.

(** The domains of a history vote for the resources of the provider. *)
Lemma shape_votes db ds0 ds :
  shape ds = shape ds0 → Forall2 (votes_highest db) RESOURCES ds0 → Forall2 (votes_highest db) RESOURCES ds.
Proof.
  intros Hs Hv. apply Forall2_same_length_lookup in Hv as [Hlen Hv]. apply Forall2_same_length_lookup.
  assert (length ds = length ds0) as Hl by (apply (f_equal length) in Hs; unfold shape in Hs; by rewrite !length_fmap in Hs).
  split; [by rewrite Hl|]. intros i name d Hn Hd. destruct (shape_lookup ds ds0 i d (eq_sym Hs) Hd) as [on Hi].
  by apply (Hv i name _ Hn Hi).
Qed.

End Pd.
End RpmhPowerFacts.

(** * Clocks and domains on a coordinator *)
Module RpmhPowerSample.
Import Rsc RscFacts RscSample RpmhPowerFacts CmdDbSample.

(** A database with the seven resources, of three levels or four. *)
Definition level_entry (id : string) (address : Z) (levels : list Z) : CmdDbFacts.Entry :=
  CmdDbFacts.mk_abstract (Opp.str id) address (levels ≫= CmdDbFacts.le16).

Definition level_entries : list CmdDbFacts.Entry :=
  [level_entry "xo.lvl" 0x30080 [0; 1; 2; 3]; level_entry "mx.lvl" 0x30090 [0; 16; 48; 64];
   level_entry "cx.lvl" 0x30000 [0; 16; 48; 0]; level_entry "gfx.lvl" 0x30010 [0; 48; 0; 0];
   level_entry "lmx.lvl" 0x30020 [0; 16; 0; 0]; level_entry "lcx.lvl" 0x30030 [0; 16; 0; 0];
   level_entry "mss.lvl" 0x30040 [0; 16; 64; 0]].

Definition level_db : CmdDb.CommandDb :=
  CmdDb.mk_db 0x80820000
    (replicate 4 0 ++ CmdDb.MAGIC
     ++ (CmdDbFacts.le16 4 ++ CmdDbFacts.le16 0 ++ CmdDbFacts.le16 168 ++ CmdDbFacts.le16 7 ++ replicate 8 0)
     ++ replicate (7 * 16) 0 ++ replicate 8 0
     ++ concat (imap (λ i e, entry_bytes e (8 * Z.of_nat i)) level_entries)
     ++ (level_entries ≫= CmdDbFacts.en_data)).

#[local] Instance sample_writer : ActiveWriter Voted := voted_writer (sample_env sample_rsc false) sample_rsc.
#[local] Instance sample_laws : VoteLaws Voted.
Proof.
  apply (voted_laws _ _ 0x1000000 0x10000); [apply sample_clock_ok|].
  eapply ensures_Ok; [|exact sample_geometry]. apply geometry_ok; [intros bytes [= <-]|..]; by repeat constructor.
Defined.

Definition cxo : RpmhClk.CxoResource := RpmhClk.mk_cxo 0x30080 [false; false].
Definition quiet : Voted := ([], []).

(** Both clocks, then one of them. *)
Definition first_call := Eval vm_compute in perform (Enable RpmhClk.RPMH_CXO_CLK) cxo quiet.

Lemma cxo_votes_witness :
  cxo_votes_for first_call.2 0x30080 [true; false] ∧
  ∃ res self' s', perform (Disable RpmhClk.RPMH_CXO_CLK) first_call.1.2 first_call.2 = (res, self', s') ∧
    call_outcome (Disable RpmhClk.RPMH_CXO_CLK) first_call.1.2 first_call.2 res self' s' ∧
    cxo_votes_for s' 0x30080 (RpmhClk.enabled self').
Proof.
  apply (cxo_votes (Some level_db) cxo first_call.1.2 quiet first_call.2 (Disable RpmhClk.RPMH_CXO_CLK)
    [RpmhClk.RPMH_CXO_CLK]).
  - vm_compute. reflexivity.
  - reflexivity.
  - eapply (cxo_call _ _ _ _ (Enable RpmhClk.RPMH_CXO_CLK) [RpmhClk.RPMH_CXO_CLK]);
      [apply cxo_fresh|reflexivity|]. vm_compute. reflexivity.
  - reflexivity.
Defined.

Definition sample_domains : list RpmhPd.RpmhPowerDomain :=
  Eval vm_compute in match RpmhPd.provider_new (Some level_db) with Ok ds => ds | _ => [] end.

Lemma sample_provider : RpmhPd.provider_new (Some level_db) = Ok sample_domains.
Proof. vm_compute. reflexivity. Qed.

(** The graphics domain is enabled first. *)
Definition graphics_on := Eval vm_compute in RpmhPd.enable 2 sample_domains 4 quiet.


(** Two domains of one resource, one of them disabled: the other still reports
    that it is enabled, and the vote that the hardware has for it is zero. *)
Definition both_on := Eval vm_compute in
  let '(_, ds, s) := RpmhPd.enable 2 sample_domains 2 quiet in
  let '(_, ds, s) := RpmhPd.enable 2 ds 3 s in (ds, s).

Example shared_level_dropped :
  possible (requests both_on.2) 0x30000 = [2] ∧
  let '(res, ds, s) := RpmhPd.disable both_on.1 2 both_on.2 in
  res = Ok () ∧ RpmhPd.is_enabled ds 3 = Some true ∧ RpmhPd.address <$> ds !! 3%nat = Some 0x30000 ∧
  possible (requests s) 0x30000 = [0].
Proof. split; [reflexivity|]. vm_compute. by split_and!. Qed.
End RpmhPowerSample.
