(* ===== verification/Motion.v ===== *)
(** * The motion sensors of the EC

    [lib.rs] of [chrome-ec-motion-sense]: vectors of the EC's FIFO, the processor
    that dates and attributes the samples of each sensor, the loop that drains
    the FIFO, and the sensors found at start-up.  An index out of range panics. *)
From S2P Require Import Prelude EcSpi.

Module Motion.
Import Ec.

Definition EC_MKBP_EVENT_SENSOR_FIFO : Z := 2.
Definition MAX_SENSOR_COUNT : Z := 32.
Definition FLAG_FLUSH : Z := 1 << 0.
Definition FLAG_TIMESTAMP : Z := 1 << 1.
Definition FLAG_WAKEUP : Z := 1 << 2.
Definition FLAG_TABLET_MODE : Z := 1 << 3.
Definition FLAG_ODR : Z := 1 << 4.
Definition FLAG_BYPASS_FIFO : Z := 1 << 7.
Definition KNOWN_FLAGS : Z :=
  FLAG_FLUSH .| FLAG_TIMESTAMP .| FLAG_WAKEUP .| FLAG_TABLET_MODE .| FLAG_ODR .| FLAG_BYPASS_FIFO.
Definition FLAG_WAKEUP_EVENT : Z := 1 << 2.
Definition FLAG_TIMESTAMP_APPROXIMATE_EVENT : Z := 1 << 3.

Definition Values : Type := Z * Z * Z.
Record Vector := mk_vector { flags : Z; sensor : Z; values : Values }.

(** The second and third value as [u16] halves. *)
Definition vector_timestamp_us (v : Vector) : Z :=
  let '(_, low, high) := values v in (low mod 65536) .| ((high mod 65536) << 16).

Inductive VectorKind := Sample | Timestamp | Flush | Odr | TabletMode | Invalid.

#[export] Instance VectorKind_eq_dec : EqDecision VectorKind.
Proof. solve_decision. Defined.

Definition classify (flags : Z) : VectorKind :=
  if negb (flags .&~ KNOWN_FLAGS =? 0) then Invalid
  else
    let annotations := flags .& (FLAG_WAKEUP .| FLAG_BYPASS_FIFO) in
    let metadata := flags .&~ (FLAG_WAKEUP .| FLAG_BYPASS_FIFO) in
    if negb (metadata =? 0) && negb (annotations =? 0) then Invalid
    else if metadata =? 0 then Sample
    else if metadata =? FLAG_TIMESTAMP then Timestamp
    else if metadata =? FLAG_FLUSH then Flush
    else if metadata =? FLAG_ODR then Odr
    else if metadata =? FLAG_TABLET_MODE then TabletMode
    else Invalid.

(** [a.wrapping_sub(b) as i32] *)
Definition wrapping_delta_us (sample_us anchor_us : Z) : Z := signed 32 ((sample_us - anchor_us) mod 2 ^ 32).

Definition I64_MAX : Z := 2 ^ 63 - 1.
Definition saturating_mul_i64 (a b : Z) : Z := Z.max (- I64_MAX - 1) (Z.min I64_MAX (a * b)).
Definition saturating_mul (a b : Z) : Z := Z.min U64_MAX (a * b).

Definition anchored_timestamp_ns (arrival_ns anchor_us sample_us : Z) : Z :=
  let delta_ns := saturating_mul_i64 (wrapping_delta_us sample_us anchor_us) 1000 in
  let timestamp :=
    if 0 <=? delta_ns then saturating_add U64_MAX arrival_ns delta_ns
    else saturating_sub arrival_ns (Z.abs delta_ns) in
  Z.min timestamp arrival_ns.

Definition fifo_remaining_after_progress (remaining requested progress : Z) : outcome () Z :=
  if (progress =? 0) || (requested <? progress) || (remaining <? progress) then Err ()
  else Ok (remaining - progress).

(** ** The processor *)

Record PendingSample := mk_pending { sample_values : Values; sample_flags : Z }.

Record OutputEvent := mk_output {
  event_sensor : nat;
  timestamp_ns : Z;
  event_values : Values;
  event_flags : Z;
  lost : Z;
  flush : bool;
}.

Record SensorState := mk_state {
  odr_millihz : Z;
  last_timestamp_ns : option Z;
  pending_lost : Z;
}.

Record Processor := mk_processor {
  states : list SensorState;
  present : list bool;
  tight_timestamps : bool;
  next_timestamp_ns : list (option Z);
}.

Inductive ProcessError := LostCountMismatch | LostSensorCountMismatch.

Record ProcessResult := mk_result {
  events : list OutputEvent;
  discarded : Z;
  unattributed_lost : Z;
}.

Definition new (odrs : list Z) (present : list bool) (tight : bool) : Processor :=
  mk_processor ((λ odr, mk_state odr None 0) <$> odrs) present tight (replicate (length odrs) None).

(** The processor with the buffers of one call. *)
Record Work := mk_work {
  processor : Processor;
  pending : list (list PendingSample);
  produced : list OutputEvent;
  dropped : Z;
}.

Definition set_states (p : Processor) (l : list SensorState) : Processor :=
  mk_processor l (present p) (tight_timestamps p) (next_timestamp_ns p).
Definition set_next (p : Processor) (l : list (option Z)) : Processor :=
  mk_processor (states p) (present p) (tight_timestamps p) l.
Definition set_processor (w : Work) (p : Processor) : Work := mk_work p (pending w) (produced w) (dropped w).
Definition set_pending (w : Work) (l : list (list PendingSample)) : Work :=
  mk_work (processor w) l (produced w) (dropped w).
Definition push_event (w : Work) (e : OutputEvent) : Work :=
  mk_work (processor w) (pending w) (produced w ++ [e]) (dropped w).
Definition discard (w : Work) : Work :=
  mk_work (processor w) (pending w) (produced w) (saturating_add U32_MAX (dropped w) 1).

Notation run := (outcome ProcessError).

(** [l[i]] *)
Definition at_ {A} (l : list A) (i : nat) : run A := match l !! i with Some a => Ok a | None => Panic end.

Definition normalize_timestamp (w : Work) (sensor : nat) (timestamp_ns : Z) : run (Z * Work) :=
  let p := processor w in
  let? state := at_ (states p) sensor in
  let timestamp_ns := match last_timestamp_ns state with None => timestamp_ns | Some previous => Z.max previous timestamp_ns end in
  Ok (timestamp_ns,
      set_processor w (set_states p (<[sensor := mk_state (odr_millihz state) (Some timestamp_ns) (pending_lost state)]> (states p)))).

Definition take_lost (w : Work) (sensor : nat) : run (Z * Work) :=
  let p := processor w in
  let? state := at_ (states p) sensor in
  Ok (pending_lost state,
      set_processor w (set_states p (<[sensor := mk_state (odr_millihz state) (last_timestamp_ns state) 0]> (states p)))).

(** An event of the sensor: its time, then the losses it reports. *)
Definition output (w : Work) (sensor : nat) (timestamp_ns : Z) (values : Values) (flags : Z) (flush : bool) : run Work :=
  let? (timestamp_ns, w) := normalize_timestamp w sensor timestamp_ns in
  let? (lost, w) := take_lost w sensor in
  Ok (push_event w (mk_output sensor timestamp_ns values flags lost flush)).

Definition PS_PER_SECOND : Z := 1000000000000.
Definition period_ns (odr : Z) : Z := if odr =? 0 then 0 else PS_PER_SECOND / odr.

(** The time of the sample at [index] of [count] before the marker. *)
Definition sample_time (approximate : bool) (previous : option Z) (marker_ns period count index : Z) : Z :=
  if approximate then marker_ns
  else
    match previous with
    | Some previous =>
        saturating_add U64_MAX previous (saturating_mul (saturating_sub marker_ns previous) (index + 1) / count)
    | None => saturating_sub marker_ns (saturating_mul period (saturating_sub count (index + 1)))
    end.

Definition approximate_flag (b : bool) : Z := if b then FLAG_TIMESTAMP_APPROXIMATE_EVENT else 0.

Fixpoint emit_samples (w : Work) (sensor : nat) (time : Z → Z) (flag : Z) (index : Z) (samples : list PendingSample) :
    run Work :=
  match samples with
  | [] => Ok w
  | s :: samples =>
      let? w := output w sensor (time index) (sample_values s) (sample_flags s .| flag) false in
      emit_samples w sensor time flag (index + 1) samples
  end.

Definition emit_pending (w : Work) (sensor : nat) (marker_ns : Z) (approximate force_approximate : bool) : run Work :=
  let? samples := at_ (pending w) sensor in
  if len samples =? 0 then
    if negb approximate then let? (_, w) := normalize_timestamp w sensor marker_ns in Ok w else Ok w
  else
    let? state := at_ (states (processor w)) sensor in
    let time := sample_time approximate (last_timestamp_ns state) marker_ns (period_ns (odr_millihz state)) (len samples) in
    emit_samples (set_pending w (<[sensor := []]> (pending w))) sensor time
      (approximate_flag (approximate || force_approximate)) 0 samples.

(** [for index in 0..n { if present[index] { .. } }] *)
Definition for_present (f : Work → nat → run Work) (w : Work) : run Work :=
  foldM (λ w i, let? here := at_ (present (processor w)) i in if here : bool then f w i else Ok w) w
    (seq 0 (length (states (processor w)))).

(** [sensor >= states.len() || !present[sensor]], negated. *)
Definition is_present (w : Work) (sensor : Z) : bool :=
  (sensor <? len (states (processor w))) && default false (present (processor w) !! Z.to_nat sensor).

Definition wakeup_flag (flags : Z) : Z := if negb (flags .& FLAG_WAKEUP =? 0) then FLAG_WAKEUP_EVENT else 0.

(** [last_timestamp_ns = None; next_timestamp_ns[sensor] = None] *)
Definition forget_times (w : Work) (sensor : nat) : run Work :=
  let p := processor w in
  let? state := at_ (states p) sensor in
  let? _ := at_ (next_timestamp_ns p) sensor in
  Ok (set_processor w
        (set_next (set_states p (<[sensor := mk_state (odr_millihz state) None (pending_lost state)]> (states p)))
           (<[sensor := None]> (next_timestamp_ns p)))).

Section Vectors.
Context (arrival_ns anchor_us : Z) (unattributed : bool).

Definition push_pending (w : Work) (sensor : nat) (s : PendingSample) : run Work :=
  let? l := at_ (pending w) sensor in
  Ok (set_pending w (<[sensor := l ++ [s]]> (pending w))).

Definition on_timestamp (w : Work) (v : Vector) : run Work :=
  let marker_ns := anchored_timestamp_ns arrival_ns anchor_us (vector_timestamp_us v) in
  let i := Z.to_nat (sensor v) in
  if tight_timestamps (processor w) && is_present w (sensor v) then
    let? w := emit_pending w i arrival_ns true unattributed in
    let p := processor w in
    let? _ := at_ (next_timestamp_ns p) i in
    Ok (set_processor w (set_next p (<[i := Some marker_ns]> (next_timestamp_ns p))))
  else for_present (λ w i, emit_pending w i marker_ns false unattributed) w.

Definition on_sample (w : Work) (v : Vector) : run Work :=
  if negb (is_present w (sensor v)) then Ok (discard w)
  else
    let i := Z.to_nat (sensor v) in
    let s := mk_pending (values v) (wakeup_flag (flags v)) in
    if tight_timestamps (processor w) then
      let p := processor w in
      let? next := at_ (next_timestamp_ns p) i in
      match next with
      | Some timestamp_ns =>
          let w := set_processor w (set_next p (<[i := None]> (next_timestamp_ns p))) in
          output w i timestamp_ns (sample_values s) (sample_flags s .| approximate_flag unattributed) false
      | None => push_pending w i s
      end
    else push_pending w i s.

Definition on_flush (w : Work) (v : Vector) : run Work :=
  if negb (is_present w (sensor v)) then Ok (discard w)
  else
    let i := Z.to_nat (sensor v) in
    let marker_ns := anchored_timestamp_ns arrival_ns anchor_us (vector_timestamp_us v) in
    let? w := emit_pending w i marker_ns false unattributed in
    output w i marker_ns (0, 0, 0) (wakeup_flag (flags v) .| approximate_flag unattributed) true.

Definition on_odr (w : Work) (v : Vector) : run Work :=
  if negb (is_present w (sensor v)) then Ok (discard w)
  else
    let i := Z.to_nat (sensor v) in
    let marker_ns := anchored_timestamp_ns arrival_ns anchor_us (vector_timestamp_us v) in
    let? w := emit_pending w i marker_ns false unattributed in
    forget_times w i.

Definition on_vector (w : Work) (v : Vector) : run Work :=
  match classify (flags v) with
  | Timestamp => on_timestamp w v
  | Sample => on_sample w v
  | Flush => on_flush w v
  | Odr => on_odr w v
  | TabletMode => Ok w
  | Invalid => Ok (discard w)
  end.

Definition process_vectors (w : Work) (vectors : list Vector) : run Work :=
  let? w := foldM on_vector w vectors in
  for_present (λ w i, emit_pending w i arrival_ns true unattributed) w.
End Vectors.

Definition lost_sum (l : list Z) : Z := foldl (saturating_add U32_MAX) 0 l.

(** The losses of one sensor, and the forgetting of its times. *)
Definition add_loss (w : Work) (il : nat * Z) : run Work :=
  let '(i, lost) := il in
  if lost =? 0 then Ok w
  else
    let p := processor w in
    let? state := at_ (states p) i in
    forget_times
      (set_processor w (set_states p
         (<[i := mk_state (odr_millihz state) (last_timestamp_ns state)
                   (saturating_add U32_MAX (pending_lost state) lost)]> (states p)))) i.

Definition note_losses (w : Work) (unattributed : bool) (lost_per_sensor : list Z) : run Work :=
  let? w := if unattributed then foldM forget_times w (seq 0 (length (states (processor w)))) else Ok w in
  foldM add_loss w (zip (seq 0 (length lost_per_sensor)) lost_per_sensor).

Definition process (p : Processor) (arrival_ns anchor_us total_lost : Z) (lost_per_sensor : list Z)
    (vectors : list Vector) : run (ProcessResult * Processor) :=
  if negb (len lost_per_sensor =? len (states p)) then Err LostSensorCountMismatch
  else
    let sum := lost_sum lost_per_sensor in
    if total_lost <? sum then Err LostCountMismatch
    else
      let unattributed := total_lost - sum in
      let? w := note_losses (mk_work p (replicate (length (states p)) []) [] 0)
                  (negb (unattributed =? 0)) lost_per_sensor in
      let? w := process_vectors arrival_ns anchor_us (negb (unattributed =? 0)) w vectors in
      Ok (mk_result (produced w) (dropped w) unattributed, processor w).

(** ** Draining the FIFO *)

Section Hub.
(** The EC, and what the sensor devices answer to a sample or event. *)
Context (transfer : nat → list Z → option (list Z)) (accepts : nat → OutputEvent → bool).
(** Which sensors have a device, and how many the EC has. *)
Context (sensors : list bool) (count_of_sensors : Z).

Definition to_vector (d : CrosEcMotionSensorData) : Vector :=
  mk_vector (data_flags d) (Ec.sensor_num d) (data_x d, data_y d, data_z d).

Definition validate_fifo_info (info : CrosEcMotionFifoInfo) (count : Z) : outcome string () :=
  if fifo_size info <? fifo_count info then Err "FIFO_INFO count exceeds capacity"%string
  else if negb (len (lost_per_sensor info) =? count) then Err "FIFO_INFO sensor loss count mismatch"%string
  else if total_lost info <? lost_sum (lost_per_sensor info) then Err "FIFO_INFO total loss mismatch"%string
  else Ok ().

Definition event_fifo_info (data : list Z) (n : nat) : outcome string CrosEcMotionFifoInfo * nat :=
  match map_err (parse_motion_fifo_event data) "malformed MKBP FIFO event"%string with
  | Ok info =>
      if negb (total_lost info =? 0) then
        let '(r, n) := motion_fifo_info_for_sensor_count transfer count_of_sensors n in
        (map_err r "FIFO_INFO command failed"%string, n)
      else
        (Ok (mk_fifo_info (fifo_size info) (fifo_count info) (fifo_timestamp_us info) (total_lost info)
               (replicate (Z.to_nat count_of_sensors) 0)), n)
  | Err e => (Err e, n)
  | Panic => (Panic, n)
  end.

(** [while remaining != 0]; every turn makes progress. *)
Fixpoint read_fifo (fuel : nat) (maximum remaining : Z) (vectors : list Vector) (n : nat) :
    outcome string (list Vector) * nat :=
  if remaining =? 0 then (Ok vectors, n)
  else
    match fuel with
    | O => (Panic, n)
    | S fuel =>
        if maximum <=? len vectors then (Err "FIFO drain exceeded advertised capacity"%string, n)
        else
          let requested := Z.min remaining CROS_EC_MAX_MOTION_FIFO_VECTORS in
          match motion_fifo_read transfer requested n with
          | (Ok batch, n) =>
              match fifo_remaining_after_progress remaining requested (len batch) with
              | Ok remaining => read_fifo fuel maximum remaining (vectors ++ (to_vector <$> batch)) n
              | Err _ => (Err "FIFO_READ made invalid progress"%string, n)
              | Panic => (Panic, n)
              end
          | (Err _, n) => (Err "FIFO_READ command failed"%string, n)
          | (Panic, n) => (Panic, n)
          end
    end.

(** The events handed to devices, in order, and whether something went wrong. *)
Fixpoint push_events (k : nat) (l : list OutputEvent) : list OutputEvent * bool :=
  match l with
  | [] => ([], false)
  | e :: l =>
      match sensors !! event_sensor e with
      | Some true => let '(pushed, bad) := push_events (S k) l in (e :: pushed, negb (accepts k e) || bad)
      | _ => let '(pushed, _) := push_events k l in (pushed, true)
      end
  end.

Definition push_outputs (result : ProcessResult) : list OutputEvent * outcome string () :=
  let '(pushed, bad) := push_events 0 (events result) in
  let had_error := negb (discarded result =? 0) || negb (unattributed_lost result =? 0) || bad in
  (pushed,
   if had_error then
     if negb (unattributed_lost result =? 0) then Err "unattributed FIFO timestamp loss"%string
     else Err "discarded invalid FIFO event"%string
   else Ok ()).

(** The processor after the event, the events pushed, and the answer. *)
Definition drain_fifo (p : Processor) (arrival_ns : Z) (data : list Z) (n : nat) :
    Processor * list OutputEvent * outcome string () * nat :=
  match event_fifo_info data n with
  | (Ok info, n) =>
      match validate_fifo_info info count_of_sensors with
      | Ok _ =>
          match read_fifo (Z.to_nat (fifo_count info)) (fifo_size info) (fifo_count info) [] n with
          | (Ok vectors, n) =>
              match process p arrival_ns (fifo_timestamp_us info) (total_lost info) (lost_per_sensor info) vectors with
              | Ok (result, p) => let '(pushed, res) := push_outputs result in (p, pushed, res, n)
              | Err _ => (p, [], Err "FIFO loss counters are inconsistent"%string, n)
              | Panic => (p, [], Panic, n)
              end
          | (Err e, n) => (p, [], Err e, n)
          | (Panic, n) => (p, [], Panic, n)
          end
      | Err e => (p, [], Err e, n)
      | Panic => (p, [], Panic, n)
      end
  | (Err e, n) => (p, [], Err e, n)
  | (Panic, n) => (p, [], Panic, n)
  end.

(** The listener: the hub after an event, the events pushed, and the answer. *)
Record MotionHub := mk_hub { hub_processor : Processor; consecutive_errors : Z }.

Definition on_cros_ec_event (hub : MotionHub) (event_type arrival_ns : Z) (data : list Z) (n : nat) :
    MotionHub * list OutputEvent * outcome () bool * nat :=
  if negb (event_type =? EC_MKBP_EVENT_SENSOR_FIFO) then (hub, [], Ok true, n)
  else
    let '(p, pushed, res, n) := drain_fifo (hub_processor hub) arrival_ns data n in
    match res with
    | Ok _ => (mk_hub p 0, pushed, Ok true, n)
    | Err _ => (mk_hub p ((consecutive_errors hub + 1) mod 2 ^ 64), pushed, Ok false, n)
    | Panic => (mk_hub p (consecutive_errors hub), pushed, Panic, n)
    end.
End Hub.

(** ** Start-up *)

Inductive SensorType := Accelerometer | Gyroscope | Magnetometer.
Inductive SensorLocation := Base | Lid | Camera | Unknown.

Definition map_sensor_type (value : Z) : option SensorType :=
  if value =? 0 then Some Accelerometer else if value =? 1 then Some Gyroscope
  else if value =? 2 then Some Magnetometer else None.

Definition map_location (value : Z) : SensorLocation :=
  if value =? 0 then Base else if value =? 1 then Lid else if value =? 2 then Camera else Unknown.

(** The arguments of [SensorInfo::new] that are not constants. *)
Record SensorMetadata := mk_metadata {
  metadata_type : SensorType;
  metadata_location : SensorLocation;
  identity : Z;
  metadata_range : Z;
  min_frequency : Z;
  max_frequency : Z;
  metadata_odr : Z;
  fifo_events : Z;
}.

Section Startup.
(** The EC, and whether the kernel makes a device of the metadata. *)
Context (transfer : nat → list Z → option (list Z)) (creates : SensorMetadata → bool).

(** A failed command is a value here. *)
Definition attempt {A} (m : ec A) : ec (option A) := λ n,
  match m n with (Ok a, n) => (Ok (Some a), n) | (Err _, n) => (Ok None, n) | (Panic, n) => (Panic, n) end.

(** The rate of the sensor, if it becomes a device. *)
Definition discover_sensor (i : Z) : ec (option Z) :=
  and_then (attempt (motion_sensor_info transfer i)) (λ info,
  match info with
  | None => ret (Ok None)
  | Some info =>
      and_then (attempt (motion_sensor_range transfer i)) (λ range,
      and_then (attempt (motion_sensor_odr_millihz transfer i)) (λ odr,
      ret (Ok
        match range, odr, map_sensor_type (sensor_type info) with
        | Some range, Some odr, Some kind =>
            if (0 <? range) && (0 <=? odr)
               && creates (mk_metadata kind (map_location (location info)) ((chip info << 8) .| i) range
                             (default 0 (min_frequency_millihz info))
                             (default (Z.max odr 1) (max_frequency_millihz info)) odr
                             (default 0 (fifo_max_event_count info)))
            then Some odr else None
        | _, _, _ => None
        end)))
  end).

Fixpoint discover (indices : list Z) : ec (list (option Z)) :=
  match indices with
  | [] => ret (Ok [])
  | i :: indices =>
      and_then (discover_sensor i) (λ odr, and_then (discover indices) (λ odrs, ret (Ok (odr :: odrs))))
  end.

(** One direct sample of each sensor, where the EC has no FIFO, and how many failed. *)
Fixpoint direct_samples (now_ns : Z) (sensors : list (Z * bool)) : ec (list OutputEvent * Z) :=
  match sensors with
  | [] => ret (Ok ([], 0))
  | (i, here) :: sensors =>
      if negb here then direct_samples now_ns sensors
      else
        and_then (attempt (motion_sensor_data transfer i)) (λ data,
        and_then (direct_samples now_ns sensors) (λ rest,
        let '(samples, errors) := rest in
        ret (Ok
          match data with
          | Some d =>
              if (Ec.sensor_num d =? i) && is_vector_sample d
              then (mk_output (Z.to_nat i) now_ns (data_x d, data_y d, data_z d)
                      (wakeup_flag (data_flags d) .| FLAG_TIMESTAMP_APPROXIMATE_EVENT) 0 false :: samples, errors)
              else (samples, errors + 1)
          | None => (samples, errors + 1)
          end)))
  end.

(** What start-up leaves: the sensors with a device, the processor, whether the
    hub listens to FIFO events (it does before they are enabled), the samples
    pushed, and the errors noted. *)
Record Setup := mk_setup {
  setup_sensors : list bool;
  setup_processor : Processor;
  listens : bool;
  pushed : list OutputEvent;
  errors_noted : Z;
}.

Definition initialize (now_ns : Z) : ec (option Setup) :=
  and_then (attempt (features transfer)) (λ f,
  match f with
  | Some f =>
      if negb (has_feature f EC_FEATURE_MOTION_SENSE) then ret (Ok None)
      else
        and_then (attempt (motion_sensor_summary transfer)) (λ summary,
        match summary with
        | Some summary =>
            if MAX_SENSOR_COUNT <? sensor_count summary then ret (Ok None)
            else
              and_then (discover (range (sensor_count summary))) (λ odrs,
              let present := (λ o, bool_decide (is_Some o)) <$> odrs in
              let p := new (default 0 <$> odrs) present (has_feature f EC_FEATURE_MOTION_SENSE_TIGHT_TIMESTAMPS) in
              if has_feature f EC_FEATURE_MOTION_SENSE_FIFO then
                and_then (attempt (set_motion_fifo_interrupt_enabled transfer true)) (λ enabled,
                ret (Ok (Some (mk_setup present p true []
                  (match enabled with Some true => 0 | Some false | None => 1 end)))))
              else
                and_then (direct_samples now_ns (zip (range (sensor_count summary)) present)) (λ direct,
                ret (Ok (Some (mk_setup present p false direct.1 direct.2)))))
        | None => ret (Ok None)
        end)
  | None => ret (Ok None)
  end).
End Startup.
End Motion.
