(* ===== verification/MotionFacts.v ===== *)
(** * One sensor at a time

    What the processor does to a sensor depends on nothing of the others: every
    operation is an operation on the slot of one sensor, and a call of the
    processor runs the machine of each slot over the vectors. *)
From S2P Require Import Prelude EcSpi EcFacts Motion.

Module MotionFacts.
Import Motion.

(** ** The slot of a sensor *)
Record Slot := mk_slot {
  sl_state : SensorState;
  sl_next : option Z;
  sl_pending : list PendingSample;
  sl_events : list OutputEvent;
}.

Definition events_of (i : nat) (l : list OutputEvent) : list OutputEvent := List.filter (λ e, Nat.eqb (event_sensor e) i) l.

Definition view (w : Work) (i : nat) : option Slot :=
  match states (processor w) !! i, next_timestamp_ns (processor w) !! i, pending w !! i with
  | Some state, Some next, Some p => Some (mk_slot state next p (events_of i (produced w)))
  | _, _, _ => None
  end.

(** The tables have one entry for each sensor. *)
Record work_ok (w : Work) : Prop := {
  wo_next : length (next_timestamp_ns (processor w)) = length (states (processor w));
  wo_present : length (present (processor w)) = length (states (processor w));
  wo_pending : length (pending w) = length (states (processor w));
}.

Lemma view_Some w i : work_ok w → (i < length (states (processor w)))%nat → ∃ sl, view w i = Some sl.
Proof.
  intros [Hn Hp Hq] Hi. unfold view.
  destruct (lookup_lt_is_Some_2 (states (processor w)) i Hi) as [st ->].
  destruct (lookup_lt_is_Some_2 (next_timestamp_ns (processor w)) i ltac:(lia)) as [nx ->].
  destruct (lookup_lt_is_Some_2 (pending w) i ltac:(lia)) as [pd ->]. eauto.
Qed.

Lemma view_inv w i sl :
  view w i = Some sl →
  states (processor w) !! i = Some (sl_state sl) ∧ next_timestamp_ns (processor w) !! i = Some (sl_next sl) ∧
  pending w !! i = Some (sl_pending sl) ∧ sl_events sl = events_of i (produced w).
Proof.
  unfold view. destruct (states _ !! i); [|done]. destruct (next_timestamp_ns _ !! i); [|done].
  destruct (pending w !! i); [|done]. by intros [= <-].
Qed.

(** What no operation changes. *)
Record frame (w w' : Work) : Prop := {
  fr_states : length (states (processor w')) = length (states (processor w));
  fr_next : length (next_timestamp_ns (processor w')) = length (next_timestamp_ns (processor w));
  fr_pending : length (pending w') = length (pending w);
  fr_present : present (processor w') = present (processor w);
  fr_tight : tight_timestamps (processor w') = tight_timestamps (processor w);
  fr_events e : e ∈ produced w' → e ∈ produced w ∨ (event_sensor e < length (states (processor w)))%nat;
}.

Lemma frame_refl w : frame w w.
Proof. split; auto. Qed.
Lemma frame_trans w1 w2 w3 : frame w1 w2 → frame w2 w3 → frame w1 w3.
Proof.
  intros [S1 ? ? ? ? E1] [? ? ? ? ? E2]. split; try congruence. intros e [He|He]%E2; [by apply E1|right; by rewrite <- S1].
Qed.
Lemma frame_ok w w' : frame w w' → work_ok w → work_ok w'.
Proof. intros [] []. split; congruence. Qed.

(** The slot of [i] goes from [sl] to [sl'], the others stay. *)
Record moves (i : nat) (sl : Slot) (w : Work) (sl' : Slot) (w' : Work) : Prop := {
  mv_from : view w i = Some sl;
  mv_to : view w' i = Some sl';
  mv_other j : j ≠ i → view w' j = view w j;
  mv_frame : frame w w';
  mv_dropped : dropped w' = dropped w;
}.

Lemma moves_refl i sl w : view w i = Some sl → moves i sl w sl w.
Proof. intros. split; [done|done|done|apply frame_refl|done]. Qed.

Lemma moves_trans i sl1 w1 sl2 w2 sl3 w3 : moves i sl1 w1 sl2 w2 → moves i sl2 w2 sl3 w3 → moves i sl1 w1 sl3 w3.
Proof.
  intros [F1 T1 O1 R1 D1] [F2 T2 O2 R2 D2]. split; [done|done| |by eapply frame_trans|congruence].
  intros j Hj. by rewrite O2, O1.
Qed.

Lemma events_of_app i l1 l2 : events_of i (l1 ++ l2) = events_of i l1 ++ events_of i l2.
Proof. apply List.filter_app. Qed.

(** Writing a slot. *)
Lemma moves_update i sl w sl' p' pd' es :
  view w i = Some sl →
  states p' = <[i := sl_state sl']> (states (processor w)) →
  next_timestamp_ns p' = <[i := sl_next sl']> (next_timestamp_ns (processor w)) →
  pd' = <[i := sl_pending sl']> (pending w) →
  present p' = present (processor w) → tight_timestamps p' = tight_timestamps (processor w) →
  Forall (λ e, event_sensor e = i) es → sl_events sl' = sl_events sl ++ es →
  moves i sl w sl' (mk_work p' pd' (produced w ++ es) (dropped w)).
Proof.
  intros Hv Hs Hn Hp Hpr Ht Hes Hev. destruct (view_inv _ _ _ Hv) as (Hsi & Hni & Hpi & Hei).
  pose proof (lookup_lt_Some _ _ _ Hsi). pose proof (lookup_lt_Some _ _ _ Hni). pose proof (lookup_lt_Some _ _ _ Hpi).
  split; [done| | | |done].
  - unfold view. simpl. rewrite Hs, Hn, Hp, !list_lookup_insert_eq by done. destruct sl'; simpl in *. do 2 f_equal.
    rewrite events_of_app, <- Hei, Hev. f_equal. clear -Hes. unfold events_of.
    induction Hes as [|e es He _ IH]; [done|]. simpl. by rewrite (proj2 (Nat.eqb_eq _ _) He), IH.
  - intros j Hj. unfold view. simpl. rewrite Hs, Hn, Hp, !list_lookup_insert_ne by done.
    replace (events_of j (produced w ++ es)) with (events_of j (produced w)); [done|].
    rewrite events_of_app. symmetry. rewrite <- (app_nil_r (events_of j (produced w))) at 2. f_equal.
    clear -Hes Hj. unfold events_of. induction Hes as [|e es He _ IH]; [done|]. simpl.
    by rewrite (proj2 (Nat.eqb_neq _ _)) by congruence.
  - split; simpl; rewrite ?Hs, ?Hn, ?Hp, ?length_insert; try done. intros e [He|He]%elem_of_app; [by left|right].
    rewrite Forall_forall in Hes. by rewrite (Hes e He).
Qed.

(** ** The operations on a slot *)

Definition later (last : option Z) (t : Z) : Z := match last with None => t | Some previous => Z.max previous t end.

Definition slot_normalize (sl : Slot) (t : Z) : Slot :=
  mk_slot (mk_state (odr_millihz (sl_state sl)) (Some (later (last_timestamp_ns (sl_state sl)) t)) (pending_lost (sl_state sl)))
    (sl_next sl) (sl_pending sl) (sl_events sl).

Definition slot_output (i : nat) (sl : Slot) (t : Z) (v : Values) (flags : Z) (flush : bool) : Slot :=
  let t := later (last_timestamp_ns (sl_state sl)) t in
  mk_slot (mk_state (odr_millihz (sl_state sl)) (Some t) 0) (sl_next sl) (sl_pending sl)
    (sl_events sl ++ [mk_output i t v flags (pending_lost (sl_state sl)) flush]).

Fixpoint slot_samples (i : nat) (sl : Slot) (time : Z → Z) (flag index : Z) (samples : list PendingSample) : Slot :=
  match samples with
  | [] => sl
  | s :: samples =>
      slot_samples i (slot_output i sl (time index) (sample_values s) (sample_flags s .| flag) false) time flag
        (index + 1) samples
  end.

Definition slot_taken (sl : Slot) : Slot := mk_slot (sl_state sl) (sl_next sl) [] (sl_events sl).

Definition slot_emit (i : nat) (marker : Z) (approximate force : bool) (sl : Slot) : Slot :=
  if len (sl_pending sl) =? 0 then if approximate then sl else slot_normalize sl marker
  else
    slot_samples i (slot_taken sl)
      (sample_time approximate (last_timestamp_ns (sl_state sl)) marker (period_ns (odr_millihz (sl_state sl))) (len (sl_pending sl)))
      (approximate_flag (approximate || force)) 0 (sl_pending sl).

Definition slot_forget (sl : Slot) : Slot :=
  mk_slot (mk_state (odr_millihz (sl_state sl)) None (pending_lost (sl_state sl))) None (sl_pending sl) (sl_events sl).

Definition slot_loss (lost : Z) (sl : Slot) : Slot :=
  if lost =? 0 then sl
  else mk_slot (mk_state (odr_millihz (sl_state sl)) None (saturating_add U32_MAX (pending_lost (sl_state sl)) lost))
         None (sl_pending sl) (sl_events sl).

Definition slot_push (s : PendingSample) (sl : Slot) : Slot :=
  mk_slot (sl_state sl) (sl_next sl) (sl_pending sl ++ [s]) (sl_events sl).

Definition slot_set_next (next : option Z) (sl : Slot) : Slot :=
  mk_slot (sl_state sl) next (sl_pending sl) (sl_events sl).

Lemma at_Some {A} (l : list A) i a : l !! i = Some a → at_ l i = Ok a.
Proof. intros H. unfold at_. by rewrite H. Qed.

Lemma normalize_moves i sl w t :
  view w i = Some sl →
  ∃ w', normalize_timestamp w i t = Ok (later (last_timestamp_ns (sl_state sl)) t, w') ∧ moves i sl w (slot_normalize sl t) w'.
Proof.
  intros Hv. destruct (view_inv _ _ _ Hv) as (Hs & Hn & Hp & _). unfold normalize_timestamp.
  rewrite (at_Some _ _ _ Hs). cbn [bind]. eexists. split; [reflexivity|]. unfold set_processor.
  rewrite <- (app_nil_r (produced w)). eapply moves_update; [exact Hv|..]; simpl; rewrite ?list_insert_id by done; try done.
  by rewrite app_nil_r.
Qed.

Lemma output_moves i sl w t v f b :
  view w i = Some sl → ∃ w', output w i t v f b = Ok w' ∧ moves i sl w (slot_output i sl t v f b) w'.
Proof.
  intros Hv. unfold output. destruct (normalize_moves i sl w t Hv) as (w1 & -> & Hm1). cbn [bind].
  pose proof (mv_to _ _ _ _ _ Hm1) as Hv1. destruct (view_inv _ _ _ Hv1) as (Hs & Hn & Hp & _). unfold take_lost.
  rewrite (at_Some _ _ _ Hs). cbn [bind]. eexists. split; [reflexivity|]. eapply moves_trans; [exact Hm1|].
  unfold push_event, set_processor. simpl.
  eapply moves_update; [exact Hv1|..]; simpl; rewrite ?list_insert_id by done; try done. by constructor.
Qed.

Lemma samples_moves i time flag samples : ∀ index sl w,
  view w i = Some sl →
  ∃ w', emit_samples w i time flag index samples = Ok w' ∧ moves i sl w (slot_samples i sl time flag index samples) w'.
Proof.
  induction samples as [|s samples IH]; intros index sl w Hv; simpl.
  { exists w. split; [done|by apply moves_refl]. }
  destruct (output_moves i sl w (time index) (sample_values s) (sample_flags s .| flag) false Hv) as (w1 & -> & Hm1).
  cbn [bind]. destruct (IH (index + 1) _ w1 (mv_to _ _ _ _ _ Hm1)) as (w2 & E & Hm2). exists w2.
  split; [done|by eapply moves_trans].
Qed.

Lemma emit_moves i marker approximate force sl w :
  view w i = Some sl →
  ∃ w', emit_pending w i marker approximate force = Ok w' ∧ moves i sl w (slot_emit i marker approximate force sl) w'.
Proof.
  intros Hv. destruct (view_inv _ _ _ Hv) as (Hs & Hn & Hp & _). unfold emit_pending, slot_emit.
  rewrite (at_Some _ _ _ Hp). cbn [bind]. destruct (len (sl_pending sl) =? 0).
  - destruct approximate; simpl; [exists w; split; [done|by apply moves_refl]|].
    destruct (normalize_moves i sl w marker Hv) as (w' & -> & Hm). by exists w'.
  - rewrite (at_Some _ _ _ Hs). cbn [bind].
    assert (moves i sl w (slot_taken sl) (set_pending w (<[i := []]> (pending w)))) as Hm.
    { unfold set_pending. rewrite <- (app_nil_r (produced w)). eapply moves_update; [exact Hv|..]; simpl;
        rewrite ?list_insert_id by done; try done. by rewrite app_nil_r. }
    edestruct (samples_moves i) as (w' & E & Hm2); [exact (mv_to _ _ _ _ _ Hm)|].
    exists w'. split; [exact E|by eapply moves_trans].
Qed.

Lemma forget_moves i sl w :
  view w i = Some sl → ∃ w', forget_times w i = Ok w' ∧ moves i sl w (slot_forget sl) w'.
Proof.
  intros Hv. destruct (view_inv _ _ _ Hv) as (Hs & Hn & Hp & _). unfold forget_times.
  rewrite (at_Some _ _ _ Hs). cbn [bind]. rewrite (at_Some _ _ _ Hn). cbn [bind]. eexists. split; [reflexivity|].
  unfold set_processor. rewrite <- (app_nil_r (produced w)).
  eapply moves_update; [exact Hv|..]; simpl; rewrite ?list_insert_id by done; try done. by rewrite app_nil_r.
Qed.

Lemma push_moves i s sl w :
  view w i = Some sl → ∃ w', push_pending w i s = Ok w' ∧ moves i sl w (slot_push s sl) w'.
Proof.
  intros Hv. destruct (view_inv _ _ _ Hv) as (Hs & Hn & Hp & _). unfold push_pending.
  rewrite (at_Some _ _ _ Hp). cbn [bind]. eexists. split; [reflexivity|].
  unfold set_pending. rewrite <- (app_nil_r (produced w)).
  eapply moves_update; [exact Hv|..]; simpl; rewrite ?list_insert_id by done; try done. by rewrite app_nil_r.
Qed.

Lemma set_next_moves i next sl w :
  view w i = Some sl →
  moves i sl w (slot_set_next next sl)
    (set_processor w (set_next (processor w) (<[i := next]> (next_timestamp_ns (processor w))))).
Proof.
  intros Hv. destruct (view_inv _ _ _ Hv) as (Hs & Hn & Hp & _). unfold set_processor.
  rewrite <- (app_nil_r (produced w)).
  eapply moves_update; [exact Hv|..]; simpl; rewrite ?list_insert_id by done; try done. by rewrite app_nil_r.
Qed.

Lemma loss_moves i l sl w :
  view w i = Some sl → ∃ w', add_loss w (i, l) = Ok w' ∧ moves i sl w (slot_loss l sl) w'.
Proof.
  intros Hv. destruct (view_inv _ _ _ Hv) as (Hs & Hn & Hp & _). unfold add_loss, slot_loss.
  destruct (l =? 0); [exists w; split; [done|by apply moves_refl]|]. rewrite (at_Some _ _ _ Hs). cbn [bind].
  set (st := mk_state _ _ _). set (w1 := set_processor w _).
  assert (moves i sl w (mk_slot st (sl_next sl) (sl_pending sl) (sl_events sl)) w1) as Hm.
  { unfold w1, set_processor. rewrite <- (app_nil_r (produced w)).
    eapply moves_update; [exact Hv|..]; simpl; rewrite ?list_insert_id by done; try done. by rewrite app_nil_r. }
  destruct (forget_moves i _ w1 (mv_to _ _ _ _ _ Hm)) as (w' & -> & Hm'). exists w'. split; [done|].
  by eapply moves_trans.
Qed.

(** ** All slots at once *)

Record steps (w : Work) (f : nat → Slot → Slot) (w' : Work) : Prop := {
  st_view j sl : view w j = Some sl → view w' j = Some (f j sl);
  st_frame : frame w w';
}.

Definition only (i : nat) (g : Slot → Slot) (j : nat) (sl : Slot) : Slot := if Nat.eqb j i then g sl else sl.

Lemma moves_steps i sl w g w' : moves i sl w (g sl) w' → steps w (only i g) w'.
Proof.
  intros [F T O R D]. split; [|done]. intros j sl' Hj. unfold only. destruct (Nat.eqb_spec j i) as [-> |Hne].
  - rewrite F in Hj. by injection Hj as <-.
  - by rewrite O.
Qed.

Lemma steps_refl w : steps w (λ _ sl, sl) w.
Proof. split; [done|apply frame_refl]. Qed.

Lemma steps_trans w1 f w2 g w3 : steps w1 f w2 → steps w2 g w3 → steps w1 (λ j sl, g j (f j sl)) w3.
Proof. intros [V1 F1] [V2 F2]. split; [|by eapply frame_trans]. intros j sl Hj. by apply V2, V1. Qed.

Lemma steps_ext w f g w' : (∀ j sl, f j sl = g j sl) → steps w f w' → steps w g w'.
Proof. intros E [V F]. split; [|done]. intros j sl Hj. rewrite <- E. by apply V. Qed.

(** A loop over sensors, each turn moving its own. *)
Lemma loop_steps (f : Work → nat → run Work) (g : nat → Slot → Slot) (l : list nat) : ∀ w,
  work_ok w → NoDup l → Forall (λ i, i < length (states (processor w)))%nat l →
  (∀ w0 i sl, frame w w0 → dropped w0 = dropped w → view w0 i = Some sl → i ∈ l →
     ∃ w', f w0 i = Ok w' ∧ moves i sl w0 (g i sl) w') →
  ∃ w', foldM f w l = Ok w' ∧ steps w (λ j sl, if decide (j ∈ l) then g j sl else sl) w' ∧ dropped w' = dropped w.
Proof.
  induction l as [|i l IH]; intros w Hok Hnd Hlt Hf; simpl.
  { exists w. split; [done|]. split; [|done]. eapply steps_ext; [|apply steps_refl]. intros j sl.
    destruct (decide (j ∈ [])) as [Hin|]; [by apply not_elem_of_nil in Hin|done]. }
  apply NoDup_cons in Hnd as [Hni Hnd]. apply Forall_cons in Hlt as [Hi Hlt].
  destruct (view_Some w i Hok Hi) as [sl Hv].
  destruct (Hf w i sl (frame_refl w) eq_refl Hv ltac:(by left)) as (w1 & -> & Hm). cbn [bind].
  pose proof (mv_frame _ _ _ _ _ Hm) as Hfr.
  destruct (IH w1) as (w2 & -> & Hs & Hd).
  - by eapply frame_ok.
  - done.
  - rewrite (fr_states _ _ Hfr). done.
  - intros w0 j sl0 Hfr0 Hd0 Hv0 Hj. apply Hf; [by eapply frame_trans|rewrite Hd0; apply Hm|done|by right].
  - exists w2. split; [done|]. split; [|rewrite Hd; apply Hm].
    eapply steps_ext; [|eapply steps_trans; [by eapply (moves_steps i sl w (g i))|exact Hs]].
    intros j sl'. unfold only. destruct (Nat.eqb_spec j i) as [-> |Hne].
    + destruct (decide (i ∈ l)); [done|]. rewrite decide_True by by left. done.
    + destruct (decide (j ∈ l)) as [|Hn]; [by rewrite decide_True by by right|].
      rewrite decide_False; [done|]. intros [?|?]%elem_of_cons; done.
Qed.

Lemma elem_of_seq_zero n j : j ∈ seq 0 n ↔ (j < n)%nat.
Proof. rewrite elem_of_seq. lia. Qed.

Lemma view_bound w j sl : view w j = Some sl → (j < length (states (processor w)))%nat.
Proof. intros Hv. apply view_inv in Hv as (Hs & _). by eapply lookup_lt_Some. Qed.

Lemma for_present_steps (f : Work → nat → run Work) (g : nat → Slot → Slot) w :
  work_ok w →
  (∀ w0 i sl, view w0 i = Some sl → ∃ w', f w0 i = Ok w' ∧ moves i sl w0 (g i sl) w') →
  ∃ w', for_present f w = Ok w' ∧ dropped w' = dropped w ∧
    steps w (λ j sl, if default false (present (processor w) !! j) then g j sl else sl) w'.
Proof.
  intros Hok Hf. unfold for_present.
  edestruct (loop_steps (λ w i, let? here := at_ (present (processor w)) i in if here : bool then f w i else Ok w)
    (λ j sl, if default false (present (processor w) !! j) then g j sl else sl)) as (w' & E & Hs & Hd);
    [exact Hok|apply NoDup_seq| | |exists w'; split; [exact E|split; [exact Hd|]]].
  - apply Forall_forall. intros j Hj. by apply elem_of_seq_zero in Hj.
  - intros w0 i sl Hfr _ Hv Hi. apply elem_of_seq_zero in Hi.
    destruct (lookup_lt_is_Some_2 (present (processor w)) i) as [b Hb]; [by rewrite (wo_present _ Hok)|].
    rewrite (at_Some _ _ b) by (by rewrite (fr_present _ _ Hfr)). cbn [bind]. rewrite Hb. simpl.
    destruct b; [by apply Hf|]. exists w0. split; [done|by apply moves_refl].
  - split; [|apply Hs]. intros j sl Hj. rewrite (st_view _ _ _ Hs j sl Hj).
    rewrite decide_True; [done|]. apply elem_of_seq_zero. by eapply view_bound.
Qed.

(** ** The machine of one sensor *)

Section Machine.
Context (arrival_ns anchor_us : Z) (unattributed tight : bool) (here : list bool).

Notation marker v := (anchored_timestamp_ns arrival_ns anchor_us (vector_timestamp_us v)).

(** The vector is for the sensor, and the sensor has a device. *)
Definition targets (j : nat) (v : Vector) : bool := (sensor v =? Z.of_nat j) && default false (here !! j).

(** The vector is for some sensor with a device. *)
Definition targeted (v : Vector) : bool := (sensor v <? len here) && default false (here !! Z.to_nat (sensor v)).

Definition slot_vector (j : nat) (sl : Slot) (v : Vector) : Slot :=
  match classify (flags v) with
  | Timestamp =>
      if tight && targeted v then
        if targets j v then slot_set_next (Some (marker v)) (slot_emit j arrival_ns true unattributed sl) else sl
      else if default false (here !! j) then slot_emit j (marker v) false unattributed sl else sl
  | Sample =>
      if targets j v then
        match (if tight then sl_next sl else None) with
        | Some t =>
            slot_output j (slot_set_next None sl) t (values v) (wakeup_flag (flags v) .| approximate_flag unattributed) false
        | None => slot_push (mk_pending (values v) (wakeup_flag (flags v))) sl
        end
      else sl
  | Flush =>
      if targets j v then
        slot_output j (slot_emit j (marker v) false unattributed sl) (marker v) (0, 0, 0)
          (wakeup_flag (flags v) .| approximate_flag unattributed) true
      else sl
  | Odr => if targets j v then slot_forget (slot_emit j (marker v) false unattributed sl) else sl
  | TabletMode | Invalid => sl
  end.

Definition slot_finish (j : nat) (sl : Slot) : Slot :=
  if default false (here !! j) then slot_emit j arrival_ns true unattributed sl else sl.

(** Whether a vector is counted as discarded. *)
Definition discards (v : Vector) : bool :=
  match classify (flags v) with
  | Sample | Flush | Odr => negb (targeted v)
  | Invalid => true
  | Timestamp | TabletMode => false
  end.

Definition drop_count (d : Z) (v : Vector) : Z := if discards v then saturating_add U32_MAX d 1 else d.

Definition consts (w : Work) : Prop :=
  work_ok w ∧ tight_timestamps (processor w) = tight ∧ present (processor w) = here.

Lemma consts_frame w w' : frame w w' → consts w → consts w'.
Proof. intros Hf (Hok & Ht & Hp). split; [by eapply frame_ok|]. destruct Hf. split; congruence. Qed.

Lemma is_present_targeted w v : consts w → is_present w (sensor v) = targeted v.
Proof.
  intros ([Hn Hp Hq] & Ht & Hh). unfold is_present, targeted. rewrite Hh. f_equal. unfold len. by rewrite <- Hp, Hh.
Qed.

Lemma targets_only v j : 0 ≤ sensor v → targeted v = true → targets j v = Nat.eqb j (Z.to_nat (sensor v)).
Proof.
  intros H0 Ht. unfold targeted in Ht. apply andb_true_iff in Ht as [_ Hh]. unfold targets.
  destruct (Nat.eqb_spec j (Z.to_nat (sensor v))) as [-> |Hne].
  - rewrite Hh, andb_true_r. apply Z.eqb_eq. lia.
  - apply andb_false_iff. left. apply Z.eqb_neq. lia.
Qed.

Lemma targets_not v j : 0 ≤ sensor v → targeted v = false → targets j v = false.
Proof.
  intros H0 Ht. unfold targeted, targets in *. destruct (Z.eqb_spec (sensor v) (Z.of_nat j)) as [e|]; [|done].
  rewrite e, Nat2Z.id in Ht. simpl. destruct (here !! j) eqn:E; [|done]. simpl in *. subst.
  apply andb_false_iff in Ht as [Ht| ->]; [|done]. apply lookup_lt_Some in E. unfold len in Ht. lia.
Qed.

Lemma targeted_view w v : consts w → 0 ≤ sensor v → targeted v = true → ∃ sl, view w (Z.to_nat (sensor v)) = Some sl.
Proof.
  intros (Hok & _ & Hh) H0 Ht. apply andb_true_iff in Ht as [Ht _]. apply Z.ltb_lt in Ht.
  apply view_Some; [done|]. rewrite <- (wo_present _ Hok), Hh. unfold len in Ht. lia.
Qed.

Lemma targeted_steps w v sl (g : nat → Slot → Slot) w' :
  0 ≤ sensor v → targeted v = true →
  moves (Z.to_nat (sensor v)) sl w (g (Z.to_nat (sensor v)) sl) w' →
  steps w (λ j sl, if targets j v then g j sl else sl) w' ∧ dropped w' = dropped w.
Proof.
  intros H0 Ht Hm. split; [|apply Hm]. eapply steps_ext; [|by eapply (moves_steps _ sl w (g _))].
  intros j sl'. unfold only. rewrite targets_only by done. by destruct (Nat.eqb_spec j (Z.to_nat (sensor v))) as [-> |].
Qed.

Lemma untargeted_steps w v (g : nat → Slot → Slot) :
  0 ≤ sensor v → targeted v = false → steps w (λ j sl, if targets j v then g j sl else sl) w.
Proof. intros H0 Ht. eapply steps_ext; [|apply steps_refl]. intros j sl. by rewrite targets_not. Qed.

Lemma discard_steps w v (g : nat → Slot → Slot) :
  0 ≤ sensor v → targeted v = false → steps w (λ j sl, if targets j v then g j sl else sl) (discard w).
Proof.
  intros H0 Ht. destruct (untargeted_steps w v g H0 Ht) as [V F]. split; [exact V|]. destruct F. split; auto.
Qed.

Lemma on_vector_steps w v :
  consts w → 0 ≤ sensor v →
  ∃ w', on_vector arrival_ns anchor_us unattributed w v = Ok w' ∧
    steps w (λ j sl, slot_vector j sl v) w' ∧ dropped w' = drop_count (dropped w) v.
Proof.
  intros Hc H0. pose proof Hc as (Hok & Htight & Hhere). unfold on_vector, slot_vector, drop_count, discards.
  pose proof (is_present_targeted w v Hc) as Hpt. set (i := Z.to_nat (sensor v)).
  destruct (classify (flags v)).
  - (* a sample *)
    unfold on_sample. rewrite Hpt. destruct (targeted v) eqn:Ht; simpl; [|exists (discard w); split; [done|split; [by apply (discard_steps w v)|done]]].
    destruct (targeted_view w v Hc H0 Ht) as [sl Hv]. destruct (view_inv _ _ _ Hv) as (_ & Hn & _).
    rewrite Htight. fold i in Hv, Hn |- *.
    enough (∃ w', (if tight then let? next := at_ (next_timestamp_ns (processor w)) i in
        match next with
        | Some t => output (set_processor w (set_next (processor w) (<[i:=None]> (next_timestamp_ns (processor w))))) i t
            (values v) (wakeup_flag (flags v) .| approximate_flag unattributed) false
        | None => push_pending w i (mk_pending (values v) (wakeup_flag (flags v))) end
        else push_pending w i (mk_pending (values v) (wakeup_flag (flags v)))) = Ok w' ∧
      moves i sl w (match (if tight then sl_next sl else None) with
        | Some t => slot_output i (slot_set_next None sl) t (values v) (wakeup_flag (flags v) .| approximate_flag unattributed) false
        | None => slot_push (mk_pending (values v) (wakeup_flag (flags v))) sl end) w') as (w' & E & Hm).
    { exists w'. split; [exact E|]. by apply (targeted_steps w v sl (λ j sl, match (if tight then sl_next sl else None) with
        | Some t => slot_output j (slot_set_next None sl) t (values v) (wakeup_flag (flags v) .| approximate_flag unattributed) false
        | None => slot_push (mk_pending (values v) (wakeup_flag (flags v))) sl end)). }
    destruct tight; [|by apply push_moves]. rewrite (at_Some _ _ _ Hn). cbn [bind].
    destruct (sl_next sl) as [t|]; [|by apply push_moves].
    pose proof (set_next_moves i None sl w Hv) as Hm.
    edestruct (output_moves i) as (w' & E & Hm'); [exact (mv_to _ _ _ _ _ Hm)|].
    exists w'. split; [exact E|by eapply moves_trans].
  - (* a time marker *)
    unfold on_timestamp. rewrite Htight, Hpt. destruct (tight && targeted v) eqn:Ht.
    + apply andb_true_iff in Ht as [_ Ht]. destruct (targeted_view w v Hc H0 Ht) as [sl Hv]. fold i in Hv |- *.
      destruct (emit_moves i arrival_ns true unattributed sl w Hv) as (w1 & -> & Hm1). cbn [bind].
      pose proof (mv_to _ _ _ _ _ Hm1) as Hv1. destruct (view_inv _ _ _ Hv1) as (_ & Hn1 & _).
      rewrite (at_Some _ _ _ Hn1). cbn [bind]. eexists. split; [reflexivity|].
      apply (targeted_steps w v sl (λ j sl, slot_set_next (Some (marker v)) (slot_emit j arrival_ns true unattributed sl)));
        [done|done|]. eapply moves_trans; [exact Hm1|]. by apply set_next_moves.
    + edestruct (for_present_steps (λ w i, emit_pending w i (marker v) false unattributed)
        (λ j sl, slot_emit j (marker v) false unattributed sl) w Hok) as (w' & E & Hd & Hs).
      { intros w0 k sl Hv. by apply emit_moves. }
      exists w'. split; [exact E|]. split; [|exact Hd]. by rewrite Hhere in Hs.
  - (* a flush *)
    unfold on_flush. rewrite Hpt. destruct (targeted v) eqn:Ht; simpl; [|exists (discard w); split; [done|split; [by apply (discard_steps w v)|done]]].
    destruct (targeted_view w v Hc H0 Ht) as [sl Hv]. fold i in Hv |- *.
    destruct (emit_moves i (marker v) false unattributed sl w Hv) as (w1 & -> & Hm1). cbn [bind].
    edestruct (output_moves i) as (w' & E & Hm'); [exact (mv_to _ _ _ _ _ Hm1)|].
    exists w'. split; [exact E|]. apply (targeted_steps w v sl (λ j sl, slot_output j (slot_emit j (marker v) false unattributed sl)
      (marker v) (0, 0, 0) (wakeup_flag (flags v) .| approximate_flag unattributed) true)); [done|done|].
    by eapply moves_trans.
  - (* a change of rate *)
    unfold on_odr. rewrite Hpt. destruct (targeted v) eqn:Ht; simpl; [|exists (discard w); split; [done|split; [by apply (discard_steps w v)|done]]].
    destruct (targeted_view w v Hc H0 Ht) as [sl Hv]. fold i in Hv |- *.
    destruct (emit_moves i (marker v) false unattributed sl w Hv) as (w1 & -> & Hm1). cbn [bind].
    edestruct (forget_moves i) as (w' & E & Hm'); [exact (mv_to _ _ _ _ _ Hm1)|].
    exists w'. split; [exact E|]. apply (targeted_steps w v sl (λ j sl, slot_forget (slot_emit j (marker v) false unattributed sl)));
      [done|done|]. by eapply moves_trans.
  - exists w. split; [done|]. split; [apply steps_refl|done].
  - exists (discard w). split; [done|]. split; [|done]. destruct (steps_refl w) as [V F]. split; [exact V|]. destruct F. split; auto.
Qed.

Lemma vectors_steps vectors : ∀ w,
  consts w → Forall (λ v, 0 ≤ sensor v) vectors →
  ∃ w', foldM (on_vector arrival_ns anchor_us unattributed) w vectors = Ok w' ∧
    steps w (λ j sl, foldl (slot_vector j) sl vectors) w' ∧ dropped w' = foldl drop_count (dropped w) vectors.
Proof.
  induction vectors as [|v vectors IH]; intros w Hc Hv; simpl.
  { exists w. split; [done|]. split; [apply steps_refl|done]. }
  apply Forall_cons in Hv as [H0 Hv]. destruct (on_vector_steps w v Hc H0) as (w1 & -> & Hs & Hd). cbn [bind].
  destruct (IH w1 (consts_frame _ _ (st_frame _ _ _ Hs) Hc) Hv) as (w2 & E & Hs2 & Hd2).
  exists w2. split; [done|]. split; [|by rewrite Hd2, Hd].
  exact (steps_trans w _ w1 _ w2 Hs Hs2).
Qed.

(** The vectors of one call, for one sensor. *)
Definition slot_run (vectors : list Vector) (j : nat) (sl : Slot) : Slot :=
  slot_finish j (foldl (slot_vector j) sl vectors).

Lemma process_vectors_steps vectors w :
  consts w → Forall (λ v, 0 ≤ sensor v) vectors →
  ∃ w', process_vectors arrival_ns anchor_us unattributed w vectors = Ok w' ∧
    steps w (slot_run vectors) w' ∧ dropped w' = foldl drop_count (dropped w) vectors.
Proof.
  intros Hc Hv. unfold process_vectors. destruct (vectors_steps vectors w Hc Hv) as (w1 & -> & Hs & Hd). cbn [bind].
  pose proof (consts_frame _ _ (st_frame _ _ _ Hs) Hc) as (Hok & _ & Hh).
  edestruct (for_present_steps (λ w i, emit_pending w i arrival_ns true unattributed)
    (λ j sl, slot_emit j arrival_ns true unattributed sl) w1 Hok) as (w' & E & Hd' & Hs').
  { intros w0 k sl Hv0. by apply emit_moves. }
  exists w'. split; [exact E|]. split; [|by rewrite Hd'].
  eapply steps_ext; [|exact (steps_trans w _ w1 _ w' Hs Hs')]. intros j sl. unfold slot_run, slot_finish. simpl. by rewrite Hh.
Qed.
End Machine.

(** ** Losses *)

Definition slot_losses (unattributed : bool) (lost_per_sensor : list Z) (j : nat) (sl : Slot) : Slot :=
  slot_loss (default 0 (lost_per_sensor !! j)) (if unattributed then slot_forget sl else sl).

Lemma zip_seq_fmap {A} (d : A) (l : list A) k :
  zip (seq k (length l)) l = (λ i, (i, default d (l !! (i - k)%nat))) <$> seq k (length l).
Proof.
  revert k. induction l as [|a l IH]; intros k; simpl; [done|]. rewrite Nat.sub_diag. simpl. f_equal.
  rewrite IH. apply list_fmap_ext. intros i x Hx. apply lookup_seq in Hx as [-> Hi].
  replace (S k + i - k)%nat with (S (S k + i - S k)) by lia. done.
Qed.

Lemma foldM_fmap {E X Y T} (f : T → Y → outcome E T) (g : X → Y) (l : list X) s :
  foldM f s (g <$> l) = foldM (λ s x, f s (g x)) s l.
Proof. revert s. induction l as [|x l IH]; intros s; simpl; [done|]. destruct (f s (g x)); simpl; [apply IH|done|done]. Qed.

Lemma note_losses_steps w unattributed losts :
  work_ok w → length losts = length (states (processor w)) →
  ∃ w', note_losses w unattributed losts = Ok w' ∧ steps w (slot_losses unattributed losts) w' ∧ dropped w' = dropped w.
Proof.
  intros Hok Hlen. unfold note_losses.
  assert (∃ w1, (if unattributed then foldM forget_times w (seq 0 (length (states (processor w)))) else Ok w) = Ok w1 ∧
    steps w (λ j sl, if unattributed then slot_forget sl else sl) w1 ∧ dropped w1 = dropped w) as (w1 & -> & Hs1 & Hd1).
  { destruct unattributed; [|exists w; split; [done|split; [apply steps_refl|done]]].
    destruct (loop_steps forget_times (λ _, slot_forget) (seq 0 (length (states (processor w)))) w) as (w1 & E & Hs & Hd).
    - done.
    - apply NoDup_seq.
    - apply Forall_forall. intros j Hj. by apply elem_of_seq_zero in Hj.
    - intros w0 j sl _ _ Hv _. by apply forget_moves.
    - exists w1. split; [done|]. split; [|done]. split; [|apply Hs]. intros j sl Hv.
      rewrite (st_view _ _ _ Hs j sl Hv), decide_True; [done|]. apply elem_of_seq_zero. by eapply view_bound. }
  cbn [bind]. rewrite (zip_seq_fmap 0), foldM_fmap.
  pose proof (st_frame _ _ _ Hs1) as Hfr. pose proof (frame_ok _ _ Hfr Hok) as Hok1.
  destruct (loop_steps (λ w i, add_loss w (i, default 0 (losts !! (i - 0)%nat)))
    (λ j, slot_loss (default 0 (losts !! j))) (seq 0 (length losts)) w1) as (w2 & E & Hs & Hd).
  - done.
  - apply NoDup_seq.
  - apply Forall_forall. intros j Hj. apply elem_of_seq_zero in Hj. rewrite (fr_states _ _ Hfr). lia.
  - intros w0 j sl _ _ Hv _. rewrite Nat.sub_0_r. by apply loss_moves.
  - exists w2. split; [done|]. split; [|by rewrite Hd]. split; [|by eapply frame_trans; [|apply Hs]].
    intros j sl Hv. pose proof (st_view _ _ _ Hs1 j sl Hv) as Hv1. rewrite (st_view _ _ _ Hs j _ Hv1).
    rewrite decide_True; [done|]. apply elem_of_seq_zero. apply view_bound in Hv. lia.
Qed.

(** ** One call *)

Record processor_ok (p : Processor) : Prop := {
  po_next : length (next_timestamp_ns p) = length (states p);
  po_present : length (present p) = length (states p);
}.

(** The slot a call starts from, after its losses. *)
Definition start_slot (unattributed : bool) (losts : list Z) (j : nat) (state : SensorState) (next : option Z) : Slot :=
  slot_losses unattributed losts j (mk_slot state next [] []).

Definition consistent (p : Processor) (total : Z) (losts : list Z) : Prop :=
  length losts = length (states p) ∧ lost_sum losts ≤ total.

Lemma process_spec p arrival anchor total losts vectors :
  processor_ok p → Forall (λ v, 0 ≤ sensor v) vectors → consistent p total losts →
  let unattributed := negb (total - lost_sum losts =? 0) in
  ∃ res p', process p arrival anchor total losts vectors = Ok (res, p') ∧ processor_ok p' ∧
    length (states p') = length (states p) ∧ present p' = present p ∧ tight_timestamps p' = tight_timestamps p ∧
    unattributed_lost res = total - lost_sum losts ∧
    discarded res = foldl (drop_count (present p)) 0 vectors ∧
    Forall (λ e, event_sensor e < length (states p))%nat (events res) ∧
    ∀ j state next, states p !! j = Some state → next_timestamp_ns p !! j = Some next →
      let sl := slot_run arrival anchor unattributed (tight_timestamps p) (present p) vectors j
                  (start_slot unattributed losts j state next) in
      states p' !! j = Some (sl_state sl) ∧ next_timestamp_ns p' !! j = Some (sl_next sl) ∧
      events_of j (events res) = sl_events sl.
Proof.
  intros [Hn Hpr] Hv [Hlen Hsum] unattributed. unfold process.
  replace (len losts =? len (states p)) with true by (symmetry; apply Z.eqb_eq; unfold len; lia). cbn [negb].
  destruct (Z.ltb_spec total (lost_sum losts)); [lia|].
  set (w0 := mk_work p (replicate (length (states p)) []) [] 0).
  assert (work_ok w0) as Hok by (split; simpl; rewrite ?length_replicate; done).
  fold unattributed. destruct (note_losses_steps w0 unattributed losts Hok Hlen) as (w1 & -> & Hs1 & Hd1). cbn [bind].
  pose proof (st_frame _ _ _ Hs1) as Hf1.
  destruct (process_vectors_steps arrival anchor unattributed (tight_timestamps p) (present p) vectors w1) as (w2 & -> & Hs2 & Hd2);
    [|done|].
  { split; [by eapply frame_ok|]. split; [apply (fr_tight _ _ Hf1)|apply (fr_present _ _ Hf1)]. }
  cbn [bind]. eexists _, _. split; [reflexivity|]. pose proof (frame_trans _ _ _ Hf1 (st_frame _ _ _ Hs2)) as Hf. simpl.
  split; [split; [rewrite (fr_next _ _ Hf), (fr_states _ _ Hf); exact Hn|rewrite (fr_present _ _ Hf), (fr_states _ _ Hf); exact Hpr]|].
  split; [apply (fr_states _ _ Hf)|]. split; [apply (fr_present _ _ Hf)|]. split; [apply (fr_tight _ _ Hf)|].
  split; [done|]. split; [by rewrite Hd2, Hd1|]. split.
  - apply Forall_forall. intros e He. destruct (fr_events _ _ Hf e He) as [Hin|Hlt]; [by apply not_elem_of_nil in Hin|exact Hlt].
  - intros j state next Hj Hnx.
    assert (view w0 j = Some (mk_slot state next [] [])) as Hv0.
    { unfold view. simpl. rewrite Hj, Hnx, lookup_replicate_2 by (by eapply lookup_lt_Some). done. }
    pose proof (st_view _ _ _ Hs2 j _ (st_view _ _ _ Hs1 j _ Hv0)) as Hvj.
    by apply view_inv in Hvj as (? & ? & _ & ?).
Qed.

Lemma process_refuses p arrival anchor total losts vectors :
  ¬ consistent p total losts → ∃ e, process p arrival anchor total losts vectors = Err e.
Proof.
  intros Hno. unfold process, consistent, len in *. destruct (Z.eqb_spec (Z.of_nat (length losts)) (Z.of_nat (length (states p)))); simpl; [|eauto].
  destruct (Z.ltb_spec total (lost_sum losts)); [eauto|]. exfalso. apply Hno. lia.
Qed.
End MotionFacts.
