(* ===== verification/MotionClaims.v ===== *)
(** * What the motion sensors deliver

    Over the slots of [MotionFacts.v]: each sample and flush of a sensor is
    handed out once and in order, losses are reported once, dates are never in
    the future and stay in order, and the FIFO is drained in as many reads as
    it has vectors at most.  [MotionSample] runs the processor and the hub. *)
From S2P Require Import Prelude EcSpi EcFacts Motion MotionFacts.

Create HintDb motion.
Module MotionClaims.
Import Ec EcFacts Motion MotionFacts.

(** ** What a sensor delivers *)

Definition content (e : OutputEvent) : Values * Z * bool := (event_values e, event_flags e .& FLAG_WAKEUP_EVENT, flush e).
Definition pending_content (s : PendingSample) : Values * Z * bool := (sample_values s, sample_flags s .& FLAG_WAKEUP_EVENT, false).

(** The events a vector asks of a sensor. *)
Definition wanted (here : list bool) (j : nat) (v : Vector) : list (Values * Z * bool) :=
  if targets here j v then
    match classify (flags v) with
    | Sample => [(values v, wakeup_flag (flags v), false)]
    | Flush => [((0, 0, 0), wakeup_flag (flags v), true)]
    | _ => []
    end
  else [].

Definition contents (sl : Slot) : list (Values * Z * bool) := (content <$> sl_events sl) ++ (pending_content <$> sl_pending sl).

Definition total_lost_of (sl : Slot) : Z := sum (lost <$> sl_events sl) + pending_lost (sl_state sl).

Lemma wakeup_cases f : wakeup_flag f = 0 ∨ wakeup_flag f = FLAG_WAKEUP_EVENT.
Proof. unfold wakeup_flag. destruct (negb _); auto. Qed.
Lemma approximate_cases b : approximate_flag b = 0 ∨ approximate_flag b = FLAG_TIMESTAMP_APPROXIMATE_EVENT.
Proof. unfold approximate_flag. destruct b; auto. Qed.
Lemma wakeup_kept w b : (w .| approximate_flag b) .& FLAG_WAKEUP_EVENT = w .& FLAG_WAKEUP_EVENT.
Proof.
  rewrite Z.land_lor_distr_l. destruct (approximate_cases b) as [-> | ->]; rewrite ?Z.land_0_l; apply Z.lor_0_r.
Qed.
Lemma wakeup_only f : wakeup_flag f .& FLAG_WAKEUP_EVENT = wakeup_flag f.
Proof. by destruct (wakeup_cases f) as [-> | ->]. Qed.

Lemma output_contents i sl t v f b :
  sl_pending sl = [] →
  contents (slot_output i sl t v f b) = contents sl ++ [(v, f .& FLAG_WAKEUP_EVENT, b)].
Proof. intros Hp. unfold contents. simpl. rewrite Hp. simpl. by rewrite !app_nil_r, fmap_app. Qed.

Lemma output_lost i sl t v f b : total_lost_of (slot_output i sl t v f b) = total_lost_of sl.
Proof. unfold total_lost_of. simpl. rewrite fmap_app, sum_app. simpl. lia. Qed.

Lemma samples_deliver i time b samples : ∀ index sl,
  sl_pending sl = [] →
  let sl' := slot_samples i sl time (approximate_flag b) index samples in
  contents sl' = contents sl ++ (pending_content <$> samples) ∧ sl_pending sl' = [] ∧ sl_next sl' = sl_next sl ∧
  total_lost_of sl' = total_lost_of sl.
Proof.
  induction samples as [|s samples IH]; intros index sl Hp; simpl; [by rewrite app_nil_r|].
  destruct (IH (index + 1) (slot_output i sl (time index) (sample_values s) (sample_flags s .| approximate_flag b) false) Hp)
    as (C & P & N & L). split; [|split; [done|split; [done|by rewrite L, output_lost]]].
  rewrite C, output_contents by done. rewrite wakeup_kept, <- app_assoc. done.
Qed.

Lemma emit_deliver i marker approximate force sl :
  let sl' := slot_emit i marker approximate force sl in
  contents sl' = contents sl ∧ sl_pending sl' = [] ∧ sl_next sl' = sl_next sl ∧ total_lost_of sl' = total_lost_of sl.
Proof.
  simpl. unfold slot_emit. destruct (Z.eqb_spec (len (sl_pending sl)) 0) as [E|E].
  - assert (sl_pending sl = []) as Hp by (apply nil_length_inv; unfold len in E; lia).
    destruct approximate; [by rewrite Hp|]. by simpl; rewrite Hp.
  - match goal with |- context [slot_samples i ?s ?t (approximate_flag ?b) 0 ?l] => destruct (samples_deliver i t b l 0 s eq_refl) as (C & P & N & L) end.
    split; [|by rewrite P, N, L]. rewrite C. unfold contents, slot_taken. simpl. by rewrite app_nil_r.
Qed.

Section Delivery.
Context (arrival_ns anchor_us : Z) (unattributed tight : bool) (here : list bool).
Notation slot_vector := (slot_vector arrival_ns anchor_us unattributed tight here).
Notation slot_run := (slot_run arrival_ns anchor_us unattributed tight here).

(** A sample can only be dated at once when none waits. *)
Definition exclusive (sl : Slot) : Prop := tight = true → is_Some (sl_next sl) → sl_pending sl = [].

Lemma targets_targeted j v : targets here j v = true → targeted here v = true.
Proof.
  unfold targets, targeted. intros [E%Z.eqb_eq H]%andb_true_iff. rewrite E, Nat2Z.id, H, andb_true_r.
  destruct (here !! j) eqn:F; [|done]. apply lookup_lt_Some in F. apply Z.ltb_lt. unfold len. lia.
Qed.

Lemma vector_deliver j sl v :
  exclusive sl →
  let sl' := slot_vector j sl v in
  exclusive sl' ∧ contents sl' = contents sl ++ wanted here j v ∧ total_lost_of sl' = total_lost_of sl.
Proof.
  intros Hx. simpl. unfold MotionFacts.slot_vector, wanted.
  destruct (classify (flags v)); try (by destruct (targets here j v); rewrite app_nil_r).
  - destruct (targets here j v); [|by rewrite app_nil_r].
    assert (contents (slot_push (mk_pending (values v) (wakeup_flag (flags v))) sl)
      = contents sl ++ [(values v, wakeup_flag (flags v), false)]) as Hpush.
    { unfold contents. simpl. rewrite fmap_app, app_assoc. simpl. unfold pending_content at 2. simpl. by rewrite wakeup_only. }
    destruct tight eqn:Et; [|split; [intros ?; congruence|split; [exact Hpush|done]]].
    destruct (sl_next sl) as [t|] eqn:En.
    + split; [intros _ [? [=]]|]. rewrite output_contents by (apply Hx; [done|by rewrite En]).
      rewrite wakeup_kept, wakeup_only, output_lost. done.
    + split; [intros _ [? Hs]; simpl in Hs; congruence|]. split; [exact Hpush|done].
  - destruct (emit_deliver j arrival_ns true unattributed sl) as (C & P & N & L).
    destruct (emit_deliver j (anchored_timestamp_ns arrival_ns anchor_us (vector_timestamp_us v)) false unattributed sl) as (C' & P' & N' & L').
    assert ((if targets here j v then [] else []) = @nil (Values * Z * bool)) as -> by by destruct (targets here j v).
    rewrite app_nil_r. destruct (tight && targeted here v).
    + destruct (targets here j v); [|done]. split; [by intros _ _|]. split; [exact C|exact L].
    + destruct (default false (here !! j)); [|done]. split; [by intros _ _|]. split; [exact C'|exact L'].
  - destruct (targets here j v); [|by rewrite app_nil_r].
    destruct (emit_deliver j (anchored_timestamp_ns arrival_ns anchor_us (vector_timestamp_us v)) false unattributed sl) as (C' & P' & N' & L').
    split; [by intros _ _|]. rewrite output_contents by done. rewrite C', wakeup_kept, wakeup_only, output_lost. done.
  - assert ((if targets here j v then [] else []) = @nil (Values * Z * bool)) as -> by by destruct (targets here j v).
    destruct (targets here j v); rewrite app_nil_r; [|done].
    destruct (emit_deliver j (anchored_timestamp_ns arrival_ns anchor_us (vector_timestamp_us v)) false unattributed sl) as (C' & P' & N' & L').
    split; [by intros _ _|]. split; [exact C'|exact L'].
Qed.

Lemma vectors_deliver j vectors : ∀ sl,
  exclusive sl →
  let sl' := foldl (slot_vector j) sl vectors in
  contents sl' = contents sl ++ flat_map (wanted here j) vectors ∧ total_lost_of sl' = total_lost_of sl.
Proof.
  induction vectors as [|v vectors IH]; intros sl Hx; simpl; [by rewrite app_nil_r|].
  destruct (vector_deliver j sl v Hx) as (Hx' & C & L). destruct (IH _ Hx') as [C2 L2].
  split; [|by rewrite L2]. by rewrite C2, C, app_assoc.
Qed.

Lemma wanted_absent j v : default false (here !! j) = false → wanted here j v = [].
Proof. intros H. unfold wanted, targets. by rewrite H, andb_false_r. Qed.

(** After a call from an empty buffer the events are those asked for. *)
Lemma run_delivers j vectors sl :
  sl_events sl = [] → sl_pending sl = [] →
  let sl' := slot_run vectors j sl in
  content <$> sl_events sl' = flat_map (wanted here j) vectors ∧ total_lost_of sl' = pending_lost (sl_state sl).
Proof.
  intros He Hp. simpl. destruct (vectors_deliver j vectors sl) as [C L]; [by intros _ _|].
  assert (contents sl = []) as Hc by (unfold contents; by rewrite He, Hp).
  assert (total_lost_of sl = pending_lost (sl_state sl)) as Hl by (unfold total_lost_of; by rewrite He).
  rewrite Hc in C. rewrite Hl in L. simpl in C. unfold MotionFacts.slot_run, slot_finish. destruct (default false (here !! j)) eqn:E.
  - match goal with |- context [slot_emit ?a ?b ?c ?d ?s] => destruct (emit_deliver a b c d s) as (C' & P & _ & L') end.
    rewrite L', L. split; [|done]. rewrite <- C, <- C'. unfold contents at 1. by rewrite P, app_nil_r.
  - split; [|done].
    assert (flat_map (wanted here j) vectors = []) as Hw.
    { clear -E. induction vectors; simpl; [done|]. by rewrite wanted_absent, IHvectors. }
    rewrite Hw in *. unfold contents in C. by apply app_eq_nil in C as [-> _].
Qed.
End Delivery.
(** ** When a sample is dated *)

Definition within (a : Z) (o : option Z) : Prop := ∀ t, o = Some t → 0 ≤ t ≤ a.

Record dated (a : Z) (sl : Slot) : Prop := {
  da_last : within a (last_timestamp_ns (sl_state sl));
  da_next : within a (sl_next sl);
  da_odr : 0 ≤ odr_millihz (sl_state sl);
  da_events : Forall (λ e, 0 ≤ timestamp_ns e ≤ a) (sl_events sl);
}.

Lemma within_None a : within a None.
Proof. by intros ? [=]. Qed.
Lemma within_Some a t : 0 ≤ t ≤ a → within a (Some t).
Proof. by intros H ? [= <-]. Qed.
Lemma later_within a last t : within a last → 0 ≤ t ≤ a → 0 ≤ later last t ≤ a.
Proof. intros Hl Ht. destruct last as [p|]; simpl; [|done]. specialize (Hl p eq_refl). lia. Qed.

Lemma anchored_within a anchor us : 0 ≤ a → 0 ≤ anchored_timestamp_ns a anchor us ≤ a.
Proof.
  intros Ha. unfold anchored_timestamp_ns, saturating_add, saturating_sub, U64_MAX. destruct (Z.leb_spec 0 (saturating_mul_i64 (wrapping_delta_us us anchor) 1000)); lia.
Qed.

Lemma period_nonneg odr : 0 ≤ odr → 0 ≤ period_ns odr.
Proof. intros. unfold period_ns. destruct (Z.eqb_spec odr 0); [lia|]. apply Z.div_pos; [unfold PS_PER_SECOND|]; lia. Qed.

(** A sample lies no later than its marker, or than the sample before. *)
Lemma sample_time_within approximate a previous marker period count index :
  within a previous → 0 ≤ marker ≤ a → 0 ≤ period → 0 ≤ index < count →
  0 ≤ sample_time approximate previous marker period count index ≤ a.
Proof.
  intros Hp Hm Hper Hi. unfold sample_time, saturating_add, saturating_sub, saturating_mul. destruct approximate; [done|].
  destruct previous as [p|].
  - specialize (Hp p eq_refl). assert (0 < U64_MAX) by (by vm_compute).
    set (span := Z.max 0 (marker - p)). assert (p + span ≤ a) by lia.
    assert (0 ≤ Z.min U64_MAX (span * (index + 1)) ≤ span * count) as [H1 H2] by nia.
    assert (0 ≤ Z.min U64_MAX (span * (index + 1)) / count) by (apply Z.div_pos; lia).
    assert (Z.min U64_MAX (span * (index + 1)) / count ≤ span) by (apply Z.div_le_upper_bound; lia). lia.
  - assert (0 ≤ Z.min U64_MAX (period * Z.max 0 (count - (index + 1)))) by (unfold U64_MAX; nia). lia.
Qed.

Lemma normalize_dated a sl t : dated a sl → 0 ≤ t ≤ a → dated a (slot_normalize sl t).
Proof. intros [L N O E] Ht. split; simpl; [|done|done|done]. apply within_Some. by apply later_within. Qed.

Lemma output_dated a i sl t v f b : dated a sl → 0 ≤ t ≤ a → dated a (slot_output i sl t v f b).
Proof.
  intros [L N O E] Ht. pose proof (later_within a _ t L Ht). split; simpl; [by apply within_Some|done|done|].
  apply Forall_app. split; [done|]. by apply Forall_singleton.
Qed.

Lemma samples_dated_slot a i time flag samples : ∀ index sl,
  dated a sl → (∀ k, index ≤ k < index + len samples → 0 ≤ time k ≤ a) → dated a (slot_samples i sl time flag index samples).
Proof.
  induction samples as [|s samples IH]; intros index sl Hd Ht; simpl; [done|]. unfold len in *. simpl in *.
  apply IH; [|intros k Hk; apply Ht; lia]. apply output_dated; [done|]. apply Ht. lia.
Qed.

Lemma emit_dated a i marker approximate force sl : dated a sl → 0 ≤ marker ≤ a → dated a (slot_emit i marker approximate force sl).
Proof.
  intros Hd Hm. unfold slot_emit. destruct (Z.eqb_spec (len (sl_pending sl)) 0).
  - destruct approximate; [done|by apply normalize_dated].
  - apply samples_dated_slot; [by destruct Hd; split|]. intros k Hk. destruct Hd. apply sample_time_within; try done.
    by apply period_nonneg.
Qed.

Lemma forget_dated a sl : dated a sl → dated a (slot_forget sl).
Proof. intros []. split; simpl; try done; apply within_None. Qed.
Lemma loss_dated a l sl : dated a sl → dated a (slot_loss l sl).
Proof. intros []. unfold slot_loss. destruct (l =? 0); split; simpl; try done; apply within_None. Qed.
Lemma push_dated a s sl : dated a sl → dated a (slot_push s sl).
Proof. intros []. by split. Qed.
Lemma next_dated a o sl : dated a sl → within a o → dated a (slot_set_next o sl).
Proof. intros [] ?. by split. Qed.

#[export] Hint Resolve emit_dated forget_dated push_dated next_dated output_dated within_None within_Some anchored_within : motion.

Section Dates.
Context (arrival_ns anchor_us : Z) (unattributed tight : bool) (here : list bool) (Harrival : 0 ≤ arrival_ns).

Lemma vector_dated j sl v : dated arrival_ns sl → dated arrival_ns (slot_vector arrival_ns anchor_us unattributed tight here j sl v).
Proof.
  intros Hd. assert (0 ≤ arrival_ns ≤ arrival_ns) by lia. unfold slot_vector. destruct (classify (flags v)); try done.
  - destruct (targets here j v); [|done]. destruct (if tight then sl_next sl else None) as [t|] eqn:E; [|auto with motion].
    destruct tight; [|done]. apply output_dated; [auto with motion|]. by apply (da_next _ _ Hd).
  - destruct (tight && targeted here v); [destruct (targets here j v)|destruct (default false (here !! j))]; auto 6 with motion.
  - destruct (targets here j v); auto 6 with motion.
  - destruct (targets here j v); auto 6 with motion.
Qed.

Lemma run_dated vectors j sl : dated arrival_ns sl → dated arrival_ns (slot_run arrival_ns anchor_us unattributed tight here vectors j sl).
Proof.
  intros Hd. unfold slot_run, slot_finish. assert (0 ≤ arrival_ns ≤ arrival_ns) by lia.
  assert (dated arrival_ns (foldl (slot_vector arrival_ns anchor_us unattributed tight here j) sl vectors)).
  { revert sl Hd. induction vectors as [|v vectors IH]; intros sl Hd; simpl; [done|]. apply IH. by apply vector_dated. }
  destruct (default false (here !! j)); auto with motion.
Qed.
End Dates.

(** ** In which order *)

(** Nothing is dated before the last date. *)
Record ordered (base : list Z) (sl : Slot) : Prop := {
  or_sorted : Sorted.StronglySorted Z.le (base ++ (timestamp_ns <$> sl_events sl));
  or_last : base ++ (timestamp_ns <$> sl_events sl) ≠ [] →
    ∃ last, last_timestamp_ns (sl_state sl) = Some last ∧ Forall (λ t, t ≤ last) (base ++ (timestamp_ns <$> sl_events sl));
}.

Lemma sorted_snoc (l : list Z) t : Sorted.StronglySorted Z.le l → Forall (λ x, x ≤ t) l → Sorted.StronglySorted Z.le (l ++ [t]).
Proof.
  induction 1 as [|x l Hs IH Hx]; intros Hl; simpl; [by repeat constructor|]. apply Forall_cons in Hl as [Hxt Hl].
  constructor; [by apply IH|]. apply Forall_app. by split; [|apply Forall_singleton].
Qed.

Lemma ordered_below base sl t :
  ordered base sl → Forall (λ x, x ≤ later (last_timestamp_ns (sl_state sl)) t) (base ++ (timestamp_ns <$> sl_events sl)).
Proof.
  intros [_ L]. destruct (base ++ (timestamp_ns <$> sl_events sl)) as [|x l] eqn:E; [constructor|].
  destruct (L ltac:(done)) as (last & -> & Hf). eapply Forall_impl; [exact Hf|]. simpl. intros. lia.
Qed.

Lemma normalize_ordered base sl t : ordered base sl → ordered base (slot_normalize sl t).
Proof. intros Ho. pose proof (ordered_below base sl t Ho). destruct Ho. split; simpl; [done|]. intros _. by eexists. Qed.

Lemma output_ordered base i sl t v f b : ordered base sl → ordered base (slot_output i sl t v f b).
Proof.
  intros Ho. pose proof (ordered_below base sl t Ho) as Hb. destruct Ho as [S _]. split; simpl; rewrite fmap_app; simpl; rewrite app_assoc.
  - by apply sorted_snoc.
  - intros _. eexists. split; [done|]. apply Forall_app. split; [done|]. apply Forall_singleton. lia.
Qed.

Lemma samples_ordered base i time flag samples : ∀ index sl,
  ordered base sl → ordered base (slot_samples i sl time flag index samples).
Proof. induction samples as [|s samples IH]; intros index sl Ho; simpl; [done|]. by apply IH, output_ordered. Qed.

Lemma emit_ordered base i marker approximate force sl : ordered base sl → ordered base (slot_emit i marker approximate force sl).
Proof.
  intros Ho. unfold slot_emit. destruct (len (sl_pending sl) =? 0).
  - destruct approximate; [done|by apply normalize_ordered].
  - apply samples_ordered. by destruct Ho; split.
Qed.

Lemma push_ordered base s sl : ordered base sl → ordered base (slot_push s sl).
Proof. intros []. by split. Qed.
Lemma next_ordered base o sl : ordered base sl → ordered base (slot_set_next o sl).
Proof. intros []. by split. Qed.

#[export] Hint Resolve emit_ordered push_ordered next_ordered output_ordered : motion.

(** A change of rate of the sensor. *)
Definition rate_change (here : list bool) (j : nat) (v : Vector) : bool :=
  targets here j v && bool_decide (classify (flags v) = Odr).

Lemma run_ordered arrival anchor unattributed tight here vectors j sl base :
  ordered base sl → Forall (λ v, rate_change here j v = false) vectors →
  ordered base (slot_run arrival anchor unattributed tight here vectors j sl).
Proof.
  intros Ho Hv. unfold slot_run, slot_finish.
  assert (ordered base (foldl (slot_vector arrival anchor unattributed tight here j) sl vectors)).
  { revert sl Ho. induction Hv as [|v vectors Hv _ IH]; intros sl Ho; simpl; [done|]. apply IH.
    unfold slot_vector. unfold rate_change in Hv.
    destruct (classify (flags v)); simpl in *; try done; destruct (targets here j v); simpl in *; try done; auto with motion.
    - destruct (if tight then _ else _); auto with motion.
    - destruct (tight && targeted here v); [|destruct (default false (here !! j))]; auto with motion.
    - destruct (tight && targeted here v); [|destruct (default false (here !! j))]; auto with motion.
  }
  destruct (default false (here !! j)); auto with motion.
Qed.
(** ** Draining the FIFO *)

Lemma decoded_bytes wire payload : Forall u8 wire → decode_response wire = Ok payload → Forall u8 payload.
Proof.
  intros Hw H. destruct (decode_response_Ok wire payload Hw H) as (_ & pre & rest & _ & ->).
  apply Forall_app in Hw as [_ Hw]. apply Forall_cons in Hw as [_ Hw]. apply Forall_app in Hw as [Hw _].
  unfold answer, seal in Hw. apply Forall_cons in Hw as [_ Hw]. apply Forall_cons in Hw as [_ Hw].
  by apply Forall_app in Hw as [_ Hw].
Qed.

Lemma nth_byte (l : list Z) i : Forall u8 l → 0 ≤ l.[i].
Proof.
  intros Hl. destruct (nth_in_or_default i l 0) as [Hin| ->]; [|done].
  rewrite List.Forall_forall in Hl. by apply Hl in Hin as [? _].
Qed.

Lemma slice_Forall {A} (P : A → Prop) (l : list A) a b : Forall P l → Forall P (slice l a b).
Proof. intros. unfold slice. by apply Forall_take, Forall_drop. Qed.

Lemma from_le_nonneg l : Forall u8 l → 0 ≤ from_le l.
Proof. induction 1 as [|x l Hx _ IH]; simpl; [done|]. unfold u8 in Hx. lia. Qed.

Lemma chunks_Forall (P : Z → Prop) fuel n : ∀ l, Forall P l → Forall (Forall P) (chunks_exact fuel n l).
Proof.
  induction fuel as [|fuel IH]; intros l Hl; simpl; [done|]. destruct (length l <? n)%nat; [done|].
  constructor; [by apply Forall_take|]. by apply IH, Forall_drop.
Qed.

Lemma fifo_data_sensors response requested :
  Forall u8 response → ensures (Forall (λ d, 0 ≤ sensor_num d)) (parse_motion_fifo_data response requested).
Proof.
  intros Hr. unfold parse_motion_fifo_data. do 3 (case_match; [done|]).
  set (samples := slice _ _ _). assert (Forall (Forall u8) (chunks_exact (length samples) 8 samples)) as Hc by
    by apply chunks_Forall, slice_Forall.
  eapply ensures_mono; [apply (ensures_mapM (λ _ d, 0 ≤ sensor_num d))|].
  - intros x Hx. rewrite Forall_forall in Hc. specialize (Hc x Hx). unfold parse_motion_sensor_data. case_match; [done|].
    simpl. by apply (nth_byte x 1).
  - intros ds Hds. simpl in Hds. apply Forall_forall. intros d Hd. apply list_elem_of_lookup in Hd as [k Hk].
    by destruct (Forall2_lookup_r _ _ _ _ _ Hds Hk) as (? & _ & ?).
Qed.

Section Drain.
Context (transfer : nat → list Z → option (list Z)) (Hbytes : wire_bytes transfer).

Lemma command_bytes c v payload n :
  ensures (Forall u8) (command transfer c v payload n).1 ∧ ((command transfer c v payload n).2 ≤ S n)%nat.
Proof.
  unfold command. case_match; simpl; [lia|]. split; [|lia].
  destruct (transfer n _) as [wire|] eqn:E; [|done]. specialize (Hbytes _ _ _ E).
  apply ensures_eq; [apply decode_response_no_panic|]. intros a. by apply decoded_bytes.
Qed.

Lemma fifo_read_spec requested n :
  ensures (Forall (λ d, 0 ≤ sensor_num d)) (motion_fifo_read transfer requested n).1 ∧
  ((motion_fifo_read transfer requested n).2 ≤ S n)%nat.
Proof.
  unfold motion_fifo_read. case_match; [by simpl; split; [|lia]|]. unfold motion_sense_command, and_then, ret.
  destruct (build_motion_sense_payload _ _) as [payload| |] eqn:E; [|by simpl; split; [|lia]|].
  2:{ unfold build_motion_sense_payload in E. by case_match. }
  destruct (command_bytes COMMAND_MOTION_SENSE MOTION_SENSE_VERSION_FIFO payload n) as [He Hn].
  destruct (command _ _ _ payload n) as [[r| |] k]; simpl in *; [|done|done]. split; [|lia].
  by apply fifo_data_sensors.
Qed.

Lemma fifo_info_spec count n :
  ensures (λ info, 0 ≤ fifo_count info) (motion_fifo_info_for_sensor_count transfer count n).1 ∧
  ((motion_fifo_info_for_sensor_count transfer count n).2 ≤ S n)%nat.
Proof.
  unfold motion_fifo_info_for_sensor_count, and_then, ret.
  destruct (command_bytes COMMAND_MOTION_SENSE MOTION_SENSE_VERSION_FIFO [MOTION_SENSE_COMMAND_FIFO_INFO] n) as [He Hn].
  destruct (command _ _ _ _ n) as [[r| |] k]; simpl in *; [|done|done]. split; [|lia].
  unfold parse_motion_fifo_info. case_match; [done|]. simpl. by apply from_le_nonneg, slice_Forall.
Qed.

Lemma event_info_spec count data n :
  Forall u8 data →
  ensures (λ info, 0 ≤ fifo_count info) (event_fifo_info transfer count data n).1 ∧ ((event_fifo_info transfer count data n).2 ≤ S n)%nat.
Proof.
  intros Hd. unfold event_fifo_info.
  assert (ensures (λ info, 0 ≤ fifo_count info) (parse_motion_fifo_event data)) as Hp.
  { unfold parse_motion_fifo_event, parse_motion_fifo_info. do 2 (case_match; [done|]). simpl.
    by apply from_le_nonneg, slice_Forall, slice_Forall. }
  destruct (parse_motion_fifo_event data) as [info| |]; simpl in *; [|by split; [|lia]|done].
  case_match; simpl; [|by split; [|lia]].
  destruct (fifo_info_spec count n) as [He Hn]. destruct (motion_fifo_info_for_sensor_count _ _ n) as [r k]. simpl in *.
  split; [by apply ensures_map_err|done].
Qed.

(** The EC is asked until the FIFO is read, and no longer. *)
Lemma read_fifo_spec maximum fuel : ∀ remaining vectors n,
  0 ≤ remaining ≤ Z.of_nat fuel → Forall (λ v, 0 ≤ sensor v) vectors →
  ensures (λ vs, len vs = len vectors + remaining ∧ Forall (λ v, 0 ≤ sensor v) vs)
    (read_fifo transfer fuel maximum remaining vectors n).1 ∧
  Z.of_nat (read_fifo transfer fuel maximum remaining vectors n).2 ≤ Z.of_nat n + remaining.
Proof.
  induction fuel as [|fuel IH]; intros remaining vectors n Hr Hv; cbn [read_fifo];
    destruct (Z.eqb_spec remaining 0) as [Hz|Hne]; try (simpl; split; [split; [lia|done]|lia]); [lia|].
  case_match; [by split; [|simpl; lia]|]. set (requested := Z.min _ _).
  destruct (fifo_read_spec requested n) as [He Hn]. destruct (motion_fifo_read _ _ n) as [[batch| |] k]; simpl in *;
    [|by split; [|lia]|done].
  unfold fifo_remaining_after_progress. destruct ((len batch =? 0) || (requested <? len batch) || (remaining <? len batch)) eqn:E;
    [by split; [|simpl; lia]|]. bool_to_prop. pose proof (len_nonneg batch).
  destruct (IH (remaining - len batch) (vectors ++ (to_vector <$> batch)) k) as [He2 Hn2]; [lia| |].
  - apply Forall_app. split; [done|]. by apply Forall_fmap.
  - split; [|lia]. eapply ensures_mono; [exact He2|]. intros vs [Hl Hf]. split; [|done].
    rewrite Hl, len_app. unfold len. rewrite length_fmap. lia.
Qed.
End Drain.

Definition ready (p : Processor) (count : Z) : Prop := processor_ok p ∧ len (states p) = count.

(** The events that reach a device. *)
Definition reaches (sensors : list bool) (e : OutputEvent) : bool := default false (sensors !! event_sensor e).

Lemma pushed_events accepts sensors l : ∀ k, (push_events accepts sensors k l).1 = List.filter (reaches sensors) l.
Proof.
  induction l as [|e l IH]; intros k; simpl; [done|]. unfold reaches at 1.
  destruct (sensors !! event_sensor e) as [[]|]; simpl.
  - rewrite <- (IH (S k)). by destruct (push_events accepts sensors (S k) l).
  - rewrite <- (IH k). by destruct (push_events accepts sensors k l).
  - rewrite <- (IH k). by destruct (push_events accepts sensors k l).
Qed.
(** ** One call *)

Lemma start_empty unattributed losts j state next :
  sl_events (start_slot unattributed losts j state next) = [] ∧ sl_pending (start_slot unattributed losts j state next) = [].
Proof. unfold start_slot, slot_losses, slot_loss. by destruct unattributed; simpl; destruct (_ =? 0). Qed.

Lemma start_lost unattributed losts j state next :
  pending_lost state ≤ U32_MAX →
  pending_lost (sl_state (start_slot unattributed losts j state next))
  = saturating_add U32_MAX (pending_lost state) (default 0 (losts !! j)).
Proof.
  intros Hl. unfold start_slot, slot_losses, slot_loss.
  destruct (Z.eqb_spec (default 0 (losts !! j)) 0) as [E|E]; destruct unattributed; simpl; rewrite ?E; unfold saturating_add; lia.
Qed.

Lemma start_dated a unattributed losts j state next :
  0 ≤ odr_millihz state → within a (last_timestamp_ns state) → within a next → dated a (start_slot unattributed losts j state next).
Proof.
  intros Ho Hl Hn. unfold start_slot, slot_losses. apply loss_dated. destruct unattributed; [apply forget_dated|]; by split.
Qed.

(** The date from which the events of a sensor are ordered: none after a loss. *)
Definition base_date (total : Z) (state : SensorState) : list Z :=
  if total =? 0 then option_list (last_timestamp_ns state) else [].

Lemma lost_sum_zero (losts : list Z) : Forall (λ l, 0 ≤ l) losts → lost_sum losts ≤ 0 → Forall (λ l, l = 0) losts.
Proof.
  intros Hl. unfold lost_sum.
  enough (∀ acc, 0 ≤ acc → foldl (saturating_add U32_MAX) acc losts ≤ 0 → acc = 0 ∧ Forall (λ l, l = 0) losts) as He.
  { intros H. by apply (He 0). }
  induction Hl as [|l losts Hl0 Hl IH]; intros acc Ha H; simpl in *; [split; [lia|constructor]|].
  assert (0 < U32_MAX) by (by vm_compute).
  destruct (IH (saturating_add U32_MAX acc l)) as [E Hf]; [unfold saturating_add; lia|done|].
  unfold saturating_add in E. split; [lia|]. constructor; [lia|done].
Qed.

Lemma lost_sum_nonneg (losts : list Z) : Forall (λ l, 0 ≤ l) losts → 0 ≤ lost_sum losts.
Proof.
  intros Hl. unfold lost_sum. enough (∀ acc, 0 ≤ acc → 0 ≤ foldl (saturating_add U32_MAX) acc losts) as He by by apply He.
  assert (0 < U32_MAX) by (by vm_compute).
  induction Hl as [|l losts Hl0 Hl IH]; intros acc Ha; simpl in *; [done|]. apply IH. unfold saturating_add. lia.
Qed.

Lemma start_ordered total losts j state next :
  Forall (λ l, 0 ≤ l) losts → lost_sum losts ≤ total →
  ordered (base_date total state) (start_slot (negb (total - lost_sum losts =? 0)) losts j state next).
Proof.
  intros Hl Hs. pose proof (lost_sum_nonneg _ Hl). destruct (start_empty (negb (total - lost_sum losts =? 0)) losts j state next) as [He _].
  unfold base_date. destruct (Z.eqb_spec total 0) as [->|Hne]; [|by split; rewrite He; [constructor|]].
  assert (lost_sum losts = 0) as E by lia. rewrite E in *. simpl in *.
  assert (default 0 (losts !! j) = 0) as Hj.
  { destruct (losts !! j) as [l|] eqn:F; [|done]. pose proof (lost_sum_zero losts Hl ltac:(lia)) as Hz.
    rewrite Forall_lookup in Hz. by apply (Hz j). }
  unfold start_slot, slot_losses, slot_loss in *. rewrite Hj in *. simpl in *.
  destruct (last_timestamp_ns state) as [t|] eqn:Et; split; simpl; rewrite ?Et.
  - by repeat constructor.
  - intros _. exists t. split; [done|]. by apply Forall_singleton.
  - constructor.
  - done.
Qed.

(** What a call delivers to a sensor. *)
Lemma call_delivers p arrival anchor total losts vectors :
  processor_ok p → Forall (λ v, 0 ≤ sensor v) vectors → consistent p total losts →
  ∃ res p', process p arrival anchor total losts vectors = Ok (res, p') ∧ processor_ok p' ∧
    length (states p') = length (states p) ∧ present p' = present p ∧ unattributed_lost res = total - lost_sum losts ∧
    discarded res = foldl (drop_count (present p)) 0 vectors ∧
    Forall (λ e, present p !! event_sensor e = Some true) (events res) ∧
    ∀ j state, states p !! j = Some state →
      content <$> events_of j (events res) = flat_map (wanted (present p) j) vectors ∧
      (pending_lost state ≤ U32_MAX →
       ∃ state', states p' !! j = Some state' ∧
         sum (lost <$> events_of j (events res)) + pending_lost state'
         = saturating_add U32_MAX (pending_lost state) (default 0 (losts !! j))).
Proof.
  intros Hok Hv Hc. destruct (process_spec p arrival anchor total losts vectors Hok Hv Hc)
    as (res & p' & E & Hok' & Hlen & Hpr & _ & Hu & Hd & Hb & Hj). exists res, p'.
  assert (∀ j state, states p !! j = Some state →
      content <$> events_of j (events res) = flat_map (wanted (present p) j) vectors ∧
      (pending_lost state ≤ U32_MAX →
       ∃ state', states p' !! j = Some state' ∧
         sum (lost <$> events_of j (events res)) + pending_lost state'
         = saturating_add U32_MAX (pending_lost state) (default 0 (losts !! j)))) as Hall.
  { intros j state Hs. destruct (lookup_lt_is_Some_2 (next_timestamp_ns p) j) as [next Hn].
    { rewrite (po_next _ Hok). by eapply lookup_lt_Some. }
    destruct (Hj j state next Hs Hn) as (Hs' & _ & He). rewrite He.
    set (un := negb (total - lost_sum losts =? 0)) in *.
    destruct (start_empty un losts j state next) as [He0 Hp0].
    destruct (run_delivers arrival anchor un (tight_timestamps p) (present p) j vectors _ He0 Hp0) as [C L].
    split; [exact C|]. intros Hl. eexists. split; [exact Hs'|]. rewrite <- (start_lost un losts j state next Hl). exact L. }
  split_and!; try done. apply Forall_forall. intros e He. rewrite Forall_forall in Hb. specialize (Hb e He).
  destruct (lookup_lt_is_Some_2 (states p) _ Hb) as [state Hs]. destruct (Hall _ _ Hs) as [C _].
  destruct (lookup_lt_is_Some_2 (present p) (event_sensor e)) as [b Hbe]; [by rewrite (po_present _ Hok)|].
  rewrite Hbe. destruct b; [done|]. exfalso.
  assert (flat_map (wanted (present p) (event_sensor e)) vectors = []) as Hw.
  { clear -Hbe. induction vectors; simpl; [done|]. by rewrite wanted_absent by (by rewrite Hbe). }
  rewrite Hw in C. apply fmap_nil_inv in C.
  assert (e ∈ events_of (event_sensor e) (events res)) as Hin.
  { apply list_elem_of_In, List.filter_In. split; [by apply list_elem_of_In|apply Nat.eqb_refl]. }
  rewrite C in Hin. by apply not_elem_of_nil in Hin.
Qed.

(** C31: Every sample is delivered once, in order.  A call whose loss counters add
    up never fails or panics: each sensor is handed one event for each sample
    and each flush of its own in the FIFO, with its values and its wake-up mark,
    in the order of the FIFO, and nothing else; what belongs to no sensor is
    counted as discarded; and the losses the events report, with those still to
    be reported, are the losses counted.  Counters that do not add up are
    refused. *)
Theorem samples_delivered p arrival anchor total losts vectors
    (Hok : processor_ok p) (Hv : Forall (λ v, 0 ≤ sensor v) vectors) :
  (consistent p total losts →
   ∃ res p', process p arrival anchor total losts vectors = Ok (res, p') ∧
     unattributed_lost res = total - lost_sum losts ∧
     discarded res = foldl (drop_count (present p)) 0 vectors ∧
     Forall (λ e, present p !! event_sensor e = Some true) (events res) ∧
     ∀ j state, states p !! j = Some state → pending_lost state ≤ U32_MAX →
       content <$> events_of j (events res) = flat_map (wanted (present p) j) vectors ∧
       ∃ state', states p' !! j = Some state' ∧
         sum (lost <$> events_of j (events res)) + pending_lost state'
         = saturating_add U32_MAX (pending_lost state) (default 0 (losts !! j))) ∧
  (¬ consistent p total losts → ∃ e, process p arrival anchor total losts vectors = Err e).
Proof.
  split; [|apply process_refuses]. intros Hc.
  destruct (call_delivers p arrival anchor total losts vectors Hok Hv Hc) as (res & p' & E & _ & _ & _ & Hu & Hd & Hp & Hj).
  exists res, p'. split_and!; try done. intros j state Hs Hl. destruct (Hj j state Hs) as [C L]. split; [exact C|by apply L].
Qed.

(** ** A history of calls *)

(** The calls made on a processor, the last one with events that arrived at a time. *)
Inductive processed (odrs : list Z) (here : list bool) (tight : bool) : Processor → Z → Prop :=
| processed_new : processed odrs here tight (new odrs here tight) 0
| processed_call p t arrival anchor total losts vectors res p' :
    processed odrs here tight p t → t ≤ arrival →
    Forall (λ v, 0 ≤ sensor v) vectors →
    process p arrival anchor total losts vectors = Ok (res, p') →
    processed odrs here tight p' arrival.

Record dated_processor (t : Z) (p : Processor) : Prop := {
  dp_ok : processor_ok p;
  dp_times : ∀ j state next, states p !! j = Some state → next_timestamp_ns p !! j = Some next →
    0 ≤ odr_millihz state ∧ within t (last_timestamp_ns state) ∧ within t next;
}.

Lemma within_later t t' o : t ≤ t' → within t o → within t' o.
Proof. intros H Hw x Hx. specialize (Hw x Hx). lia. Qed.

Lemma process_consistent p arrival anchor total losts vectors r :
  process p arrival anchor total losts vectors = Ok r → consistent p total losts.
Proof.
  intros H. destruct (decide (length losts = length (states p) ∧ lost_sum losts ≤ total)) as [|Hno]; [done|].
  destruct (process_refuses p arrival anchor total losts vectors Hno) as [e He]. congruence.
Qed.

Lemma call_dated p t arrival anchor total losts vectors res p' :
  dated_processor t p → 0 ≤ t ≤ arrival → Forall (λ v, 0 ≤ sensor v) vectors →
  process p arrival anchor total losts vectors = Ok (res, p') →
  dated_processor arrival p' ∧ Forall (λ e, 0 ≤ timestamp_ns e ≤ arrival) (events res).
Proof.
  intros [Hok Ht] Ha Hv E. pose proof (process_consistent _ _ _ _ _ _ _ E) as Hc.
  destruct (process_spec p arrival anchor total losts vectors Hok Hv Hc)
    as (res0 & p0 & E0 & Hok' & Hlen & _ & _ & _ & _ & Hb & Hj). rewrite E in E0. injection E0 as <- <-.
  assert (∀ j, (j < length (states p))%nat → ∃ state next, states p !! j = Some state ∧ next_timestamp_ns p !! j = Some next ∧
    dated arrival (slot_run arrival anchor (negb (total - lost_sum losts =? 0)) (tight_timestamps p) (present p) vectors j
      (start_slot (negb (total - lost_sum losts =? 0)) losts j state next))) as Hall.
  { intros j Hlt. destruct (lookup_lt_is_Some_2 _ _ Hlt) as [state Hs].
    destruct (lookup_lt_is_Some_2 (next_timestamp_ns p) j) as [next Hn]; [by rewrite (po_next _ Hok)|].
    exists state, next. split_and!; [done|done|]. destruct (Ht j state next Hs Hn) as (Ho & Hl & Hnx).
    apply run_dated; [lia|]. apply start_dated; [done| |]; by eapply within_later; [apply Ha|]. }
  split; [split; [done|]|].
  - intros j state' next' Hs' Hn'. destruct (Hall j) as (state & next & Hs & Hn & Hd).
    { rewrite <- Hlen. by eapply lookup_lt_Some. }
    destruct (Hj j state next Hs Hn) as (Es & En & _). rewrite Es in Hs'. rewrite En in Hn'. simplify_eq. by destruct Hd.
  - apply Forall_forall. intros e He. rewrite Forall_forall in Hb. destruct (Hall (event_sensor e) (Hb e He)) as (state & next & Hs & Hn & Hd).
    destruct (Hj _ state next Hs Hn) as (_ & _ & Ee). pose proof (da_events _ _ Hd) as Hde. rewrite <- Ee in Hde.
    rewrite Forall_forall in Hde. apply Hde. apply list_elem_of_In, List.filter_In.
    split; [by apply list_elem_of_In|apply Nat.eqb_refl].
Qed.

Lemma processed_dated odrs here tight p t :
  length here = length odrs → Forall (λ o, 0 ≤ o) odrs → processed odrs here tight p t → 0 ≤ t ∧ dated_processor t p.
Proof.
  intros Hl Ho. induction 1 as [|p t arrival anchor total losts vectors res p' _ [H0 IH] Hle Hv E].
  - split; [done|]. split; [by split; simpl; rewrite length_fmap, ?length_replicate|]. intros j state next Hs Hn. simpl in *.
    apply list_lookup_fmap_Some in Hs as (o & -> & Hj). apply lookup_replicate in Hn as [-> _]. simpl.
    rewrite Forall_lookup in Ho. split; [by apply (Ho j)|]. split; apply within_None.
  - split; [lia|]. by eapply call_dated.
Qed.

(** C32: No sample is dated in the future, or out of order.  After any history of
    calls whose events arrived one after the other, the events of a call are
    dated no later than their arrival; those of one sensor whose rate does not
    change are dated in order, and where nothing was lost no earlier than
    anything the sensor delivered before. *)
Theorem samples_dated odrs here tight p t arrival anchor total losts vectors res p'
    (Hlen : length here = length odrs) (Hodrs : Forall (λ o, 0 ≤ o) odrs)
    (Hp : processed odrs here tight p t) (Ht : t ≤ arrival)
    (Hv : Forall (λ v, 0 ≤ sensor v) vectors) (Hl : Forall (λ l, 0 ≤ l) losts)
    (E : process p arrival anchor total losts vectors = Ok (res, p')) :
  Forall (λ e, 0 ≤ timestamp_ns e ≤ arrival) (events res) ∧
  ∀ j state, states p !! j = Some state → Forall (λ v, rate_change (present p) j v = false) vectors →
    ∃ state', states p' !! j = Some state' ∧
      Sorted.StronglySorted Z.le
        (base_date total state ++ (timestamp_ns <$> events_of j (events res)) ++ option_list (last_timestamp_ns state')).
Proof.
  destruct (processed_dated _ _ _ _ _ Hlen Hodrs Hp) as [H0 Hd].
  destruct (call_dated p t arrival anchor total losts vectors res p' Hd ltac:(lia) Hv E) as [_ He]. split; [done|].
  intros j state Hs Hrate. destruct Hd as [Hok _]. pose proof (process_consistent _ _ _ _ _ _ _ E) as Hc.
  destruct (process_spec p arrival anchor total losts vectors Hok Hv Hc) as (res0 & p0 & E0 & _ & _ & _ & _ & _ & _ & _ & Hj).
  rewrite E in E0. injection E0 as <- <-.
  destruct (lookup_lt_is_Some_2 (next_timestamp_ns p) j) as [next Hn]; [rewrite (po_next _ Hok); by eapply lookup_lt_Some|].
  destruct (Hj j state next Hs Hn) as (Es & _ & Ee). rewrite Es, Ee. eexists. split; [done|].
  destruct (run_ordered arrival anchor (negb (total - lost_sum losts =? 0)) (tight_timestamps p) (present p) vectors j
    (start_slot (negb (total - lost_sum losts =? 0)) losts j state next) (base_date total state)) as [S L].
  - apply start_ordered; [done|]. apply Hc.
  - done.
  - rewrite app_assoc. destruct (base_date total state ++ _) as [|x l] eqn:F.
    + destruct (last_timestamp_ns _); simpl; by repeat constructor.
    + destruct L as (last & -> & Hf); [done|]. by apply sorted_snoc.
Qed.

(** C33: The FIFO is drained.  On an event of the EC the driver never panics and asks
    the EC at most once for each vector; an event it cannot read leaves the
    processor as it was and hands out nothing, and otherwise it has read
    exactly the vectors that were announced, and each sensor is handed what they
    ask of it. *)
Theorem fifo_drained (transfer : nat → list Z → option (list Z)) accepts count p arrival data n
    (Hbytes : wire_bytes transfer) (Hdata : Forall u8 data) (Hok : processor_ok p) (Hcount : len (states p) = count) :
  let '(p', pushed, res, n') := drain_fifo transfer accepts (present p) count p arrival data n in
  res ≠ Panic ∧ processor_ok p' ∧ len (states p') = count ∧ present p' = present p ∧
  ((p' = p ∧ pushed = [] ∧ ∃ e, res = Err e) ∨
   ∃ info n1 vectors, event_fifo_info transfer count data n = (Ok info, n1) ∧
     read_fifo transfer (Z.to_nat (fifo_count info)) (fifo_size info) (fifo_count info) [] n1 = (Ok vectors, n') ∧
     len vectors = fifo_count info ∧ Z.of_nat n' ≤ Z.of_nat n + 1 + fifo_count info ∧
     (∀ j, (j < length (states p))%nat → content <$> events_of j pushed = flat_map (wanted (present p) j) vectors) ∧
     (res = Ok () → foldl (drop_count (present p)) 0 vectors = 0 ∧ total_lost info = lost_sum (lost_per_sensor info))).
Proof.
  unfold drain_fifo. destruct (event_info_spec transfer Hbytes count data n Hdata) as [Hi Hn].
  destruct (event_fifo_info transfer count data n) as [[info|e|] n1]; simpl in *; [|by split_and!; try done; left; eauto|done].
  destruct (validate_fifo_info info count) as [[]|e|] eqn:Ev; [|by split_and!; try done; left; eauto|].
  2:{ unfold validate_fifo_info in Ev. by repeat case_match. }
  destruct (read_fifo_spec transfer Hbytes (fifo_size info) (Z.to_nat (fifo_count info)) (fifo_count info) [] n1) as [Hr Hn'];
    [lia|done|].
  destruct (read_fifo _ _ _ _ _ n1) as [[vectors|e|] n2] eqn:Er; simpl in *; [|by split_and!; try done; left; eauto|done].
  destruct Hr as [Hlv Hvs].
  assert (consistent p (total_lost info) (lost_per_sensor info)) as Hc.
  { unfold validate_fifo_info in Ev. repeat (case_match; [done|]). bool_to_prop. unfold consistent, len in *. lia. }
  destruct (call_delivers p arrival (fifo_timestamp_us info) _ _ vectors Hok Hvs Hc)
    as (res & p' & -> & Hok' & Hlen & Hpr & Hu & Hd & Hp & Hj).
  assert ((push_events accepts (present p) 0 (events res)).1 = events res) as Hpush.
  { rewrite pushed_events. clear -Hp. induction Hp as [|e l He _ IH]; [done|]. simpl. unfold reaches at 1. by rewrite He, IH. }
  unfold push_outputs. destruct (push_events accepts (present p) 0 (events res)) as [pushed bad]. simpl in Hpush. subst pushed.
  split; [repeat case_match; done|]. split; [done|]. split; [unfold len in *; congruence|]. split; [done|]. right.
  exists info, n1, vectors. unfold len in Hlv at 2. simpl in Hlv. split_and!; [done|done|lia|lia| |].
  - intros j Hjl. destruct (lookup_lt_is_Some_2 _ _ Hjl) as [state Hs]. by apply (Hj j state Hs).
  - rewrite <- Hd. intros Hres. destruct (Z.eqb_spec (discarded res) 0) as [Hz|]; simpl in *; [|repeat case_match; done].
    destruct (Z.eqb_spec (unattributed_lost res) 0); simpl in *; [|done]. split; [done|lia].
Qed.
End MotionClaims.

(** ** Two sensors: an accelerometer with two samples, a gyroscope that is flushed *)

Module MotionSample.
Import Ec EcFacts Motion MotionFacts MotionClaims.

Definition two : Processor := new [100000; 50000] [true; true] false.

Definition first_sample : Vector := mk_vector FLAG_WAKEUP 0 (1, 2, 3).
Definition second_sample : Vector := mk_vector 0 0 (4, 5, 6).
Definition marker (us : Z) : Vector := mk_vector FLAG_TIMESTAMP 255 (0, us, 0).
Definition flushed (us : Z) : Vector := mk_vector FLAG_FLUSH 1 (0, us, 0).
Definition nobody : Vector := mk_vector 0 7 (9, 9, 9).
Definition mixed_batch : list Vector := [first_sample; second_sample; marker 998; flushed 999; nobody].

Notation delivered r := (match r with
  | Ok (res, p) => Some ((λ e, (event_sensor e, timestamp_ns e, event_flags e, lost e, flush e)) <$> events res, discarded res)
  | _ => None end).

(** A sampling period lies between the two samples; the loss of the second sensor is reported with its flush. *)
Example dated_samples :
  delivered (process two 50000000 1000 3 [0; 3] mixed_batch)
  = Some ([(0%nat, 39998000, FLAG_WAKEUP_EVENT, 0, false); (0%nat, 49998000, 0, 0, false); (1%nat, 49999000, 0, 3, true)], 1).
Proof. vm_compute. reflexivity. Qed.

(** Where a marker was lost too, every date is approximate. *)
Example approximate_samples :
  delivered (process two 50000000 1000 4 [0; 3] mixed_batch)
  = Some ([(0%nat, 39998000, 12, 0, false); (0%nat, 49998000, 8, 0, false); (1%nat, 49999000, 8, 3, true)], 1).
Proof. vm_compute. reflexivity. Qed.

(** With a marker for each sample, the sample has the date of its marker. *)
Example tight_samples :
  delivered (process (new [100000; 50000] [true; true] true) 50000000 1000 0 [0; 0]
    [mk_vector FLAG_TIMESTAMP 0 (0, 990, 0); first_sample; mk_vector FLAG_TIMESTAMP 0 (0, 995, 0); second_sample; second_sample])
  = Some ([(0%nat, 49990000, FLAG_WAKEUP_EVENT, 0, false); (0%nat, 49995000, 0, 0, false); (0%nat, 50000000, 8, 0, false)], 0).
Proof. vm_compute. reflexivity. Qed.

Lemma two_ok : processor_ok two.
Proof. by split. Qed.
Lemma batch_sensors : Forall (λ v, 0 ≤ sensor v) mixed_batch.
Proof. repeat constructor; by apply Z.leb_le. Qed.

Lemma samples_delivered_witness : ∃ res p', process two 50000000 1000 3 [0; 3] mixed_batch = Ok (res, p') ∧
  content <$> events_of 0 (events res) = [((1, 2, 3), FLAG_WAKEUP_EVENT, false); ((4, 5, 6), 0, false)] ∧ discarded res = 1.
Proof.
  destruct (proj1 (samples_delivered two 50000000 1000 3 [0; 3] mixed_batch two_ok batch_sensors) ltac:(by split))
    as (res & p' & E & _ & Hd & _ & Hj). exists res, p'. split; [exact E|].
  destruct (Hj 0%nat (mk_state 100000 None 0) eq_refl ltac:(by apply Z.leb_le)) as [C _]. split; [exact C|exact Hd].
Defined.

Lemma samples_dated_witness : ∃ res p', process two 50000000 1000 3 [0; 3] mixed_batch = Ok (res, p') ∧
  Forall (λ e, 0 ≤ timestamp_ns e ≤ 50000000) (events res).
Proof.
  destruct (process two 50000000 1000 3 [0; 3] mixed_batch) as [[res p']| |] eqn:E; [|by vm_compute in E|by vm_compute in E].
  exists res, p'. split; [done|].
  apply (samples_dated [100000; 50000] [true; true] false two 0 50000000 1000 3 [0; 3] mixed_batch res p').
  - reflexivity.
  - repeat constructor; by apply Z.leb_le.
  - apply processed_new.
  - lia.
  - apply batch_sensors.
  - repeat constructor; by apply Z.leb_le.
  - exact E.
Defined.

(** An EC with two vectors in its FIFO. *)
Definition fifo_reply : list Z :=
  SPI_FRAME_START :: answer 0 (to_le 4 2 ++ [4; 0; 1; 0; 2; 0; 3; 0] ++ [2; 255; 0; 0; 230; 3; 0; 0]).
Definition ec_bus (n : nat) (request : list Z) : option (list Z) := Some fifo_reply.
Definition fifo_event : list Z := [0; 0; 0] ++ to_le 2 16 ++ to_le 2 2 ++ to_le 4 1000 ++ to_le 2 0.

Lemma bus_bytes : wire_bytes ec_bus.
Proof. intros n request wire [= <-]. vm_compute. repeat constructor; by intros. Qed.
Lemma event_bytes : Forall u8 fifo_event.
Proof. vm_compute. repeat constructor; by intros. Qed.

Example drained_event :
  (drain_fifo ec_bus (λ _ _, true) [true; true] 2 two 50000000 fifo_event 0).1.2 = Ok ().
Proof. vm_compute. reflexivity. Qed.

Lemma fifo_drained_witness :
  let '(p', pushed, res, n') := drain_fifo ec_bus (λ _ _, true) [true; true] 2 two 50000000 fifo_event 0 in
  res ≠ Panic ∧ processor_ok p' ∧ present p' = [true; true].
Proof.
  pose proof (fifo_drained ec_bus (λ _ _, true) 2 two 50000000 fifo_event 0 bus_bytes event_bytes two_ok eq_refl) as H.
  change (present two) with [true; true] in H.
  destruct (drain_fifo ec_bus (λ _ _, true) [true; true] 2 two 50000000 fifo_event 0) as [[[p' pushed] res] n'].
  destruct H as (H1 & H2 & _ & H3 & _). split; [exact H1|split; [exact H2|exact H3]].
Defined.

(** Start-up: an EC without motion sensors makes no hub. *)
Example no_sensors : (initialize (λ _ _, Some (SPI_FRAME_START :: answer 0 (to_le 4 0 ++ to_le 4 0))) (λ _, true) 0 0%nat).1 = Ok None.
Proof. vm_compute. reflexivity. Qed.
End MotionSample.
