(* ===== verification/Mkbp.v ===== *)
(** * Buttons and switches of the EC

    [lib.rs] of [chrome-ec-mkbp-button] and [chrome-ec-mkbp-switch]: the queries
    of start-up, the trackers of the last state, and the input events of a new
    one.  A client of the events always holds the state the last event told;
    the boot-time snapshot of the switches, taken while events may arrive, can
    overwrite a newer state. *)
From S2P Require Import Prelude EcSpi.

Module Mkbp.
Import Ec.

Definition EC_CMD_MKBP_INFO : Z := 0x0061.
Definition EC_MKBP_INFO_SUPPORTED : Z := 1.
Definition EC_MKBP_INFO_CURRENT : Z := 2.
Definition EC_MKBP_EVENT_BUTTON : Z := 3.
Definition EC_MKBP_EVENT_SWITCH : Z := 4.

Inductive QueryError := Transport (e : CrosEcError) | MalformedResponse.

(** Exactly four little-endian bytes. *)
Definition parse_button_mask (response : list Z) : outcome QueryError Z :=
  if len response =? 4 then Ok (from_le response) else Err MalformedResponse.
Definition parse_switch_mask (response : list Z) : outcome QueryError Z :=
  if len response =? 4 then Ok (from_le response) else Err MalformedResponse.

Section Queries.
Context (transfer : nat → list Z → option (list Z)).

Definition query_mask (payload : list Z) (n : nat) : outcome QueryError Z * nat :=
  match command transfer EC_CMD_MKBP_INFO 0 payload n with
  | (Ok response, n) => (parse_button_mask response, n)
  | (Err e, n) => (Err (Transport e), n)
  | (Panic, n) => (Panic, n)
  end.

Definition query_supported_buttons : nat → outcome QueryError Z * nat :=
  query_mask [EC_MKBP_INFO_SUPPORTED; EC_MKBP_EVENT_BUTTON].

Definition query_switch_mask (info_type : Z) (n : nat) : outcome QueryError Z * nat :=
  match command transfer EC_CMD_MKBP_INFO 0 [info_type; EC_MKBP_EVENT_SWITCH] n with
  | (Ok response, n) => (parse_switch_mask response, n)
  | (Err e, n) => (Err (Transport e), n)
  | (Panic, n) => (Panic, n)
  end.
End Queries.
End Mkbp.

Module Buttons.
Import Ec Mkbp.

Inductive Button := Power | VolumeUp | VolumeDown.
#[export] Instance Button_eq_dec : EqDecision Button.
Proof. solve_decision. Defined.

Definition EC_MKBP_POWER_BUTTON : Z := 1 << 0.
Definition EC_MKBP_VOL_UP : Z := 1 << 1.
Definition EC_MKBP_VOL_DOWN : Z := 1 << 2.
Definition KNOWN_BUTTONS : Z := EC_MKBP_POWER_BUTTON .| EC_MKBP_VOL_UP .| EC_MKBP_VOL_DOWN.

Definition known_supported_buttons (supported : Z) : Z := supported .& KNOWN_BUTTONS.

Definition ALL : list Button := [Power; VolumeUp; VolumeDown].

Definition bit (b : Button) : Z :=
  match b with Power => EC_MKBP_POWER_BUTTON | VolumeUp => EC_MKBP_VOL_UP | VolumeDown => EC_MKBP_VOL_DOWN end.

Definition parse_button_event (event_type : Z) (data : list Z) : outcome QueryError (option Z) :=
  if negb (event_type =? EC_MKBP_EVENT_BUTTON) then Ok None
  else let? mask := parse_button_mask data in Ok (Some mask).

Inductive ButtonOutcome := Initial (current : Z) | Changed (previous current : Z) | Unchanged.

(** The tracker is the last state; [button_accept] replaces it. *)
Definition ButtonTracker : Type := option Z.

Definition button_accept (t : ButtonTracker) (current : Z) : ButtonOutcome * ButtonTracker :=
  (match t with
   | None => Initial current
   | Some previous => if previous =? current then Unchanged else Changed previous current
   end, Some current).

Record KeyTransition := mk_transition { button : Button; pressed : bool }.

Definition set (mask : Z) (b : Button) : bool := negb (mask .& bit b =? 0).

Definition transitions (previous current : Z) (initial : bool) (supported : Z) : list KeyTransition :=
  (λ b, mk_transition b (set current b)) <$>
    List.filter (λ b, set supported b && (initial || set (Z.lxor previous current) b)) ALL.

(** A frame always ends with a report. *)
Definition frame_for_outcome (o : ButtonOutcome) (supported : Z) : option (list KeyTransition) :=
  match o with
  | Initial current => Some (transitions 0 current true supported)
  | Changed previous current => Some (transitions previous current false supported)
  | Unchanged => None
  end.

Inductive KeyEvent := Key (b : Button) (value : bool) | SynReport.

Definition button_accept_state (supported : Z) (t : ButtonTracker) (raw_state : Z) : ButtonTracker * list KeyEvent :=
  let '(o, t) := button_accept t (raw_state .& supported) in
  (t, match frame_for_outcome o supported with
      | Some frame => ((λ k, Key (button k) (pressed k)) <$> frame) ++ [SynReport]
      | None => []
      end).

Definition button_event (supported : Z) (t : ButtonTracker) (event_type : Z) (data : list Z) :
    ButtonTracker * list KeyEvent :=
  match parse_button_event event_type data with
  | Ok (Some state) => button_accept_state supported t state
  | _ => (t, [])
  end.

(** The supported buttons of the device and its tracker, if it is made. *)
Definition button_initialize (transfer : nat → list Z → option (list Z)) (n : nat) : outcome () (option (Z * ButtonTracker)) * nat :=
  match query_supported_buttons transfer n with
  | (Ok supported, n) =>
      let supported := known_supported_buttons supported in
      (Ok (if supported =? 0 then None else Some (supported, None)), n)
  | (Err _, n) => (Ok None, n)
  | (Panic, n) => (Panic, n)
  end.

(** ** What a client of the events holds *)

Definition Held : Type := Button → bool.
Definition released : Held := λ _, false.
Definition show (h : Held) (e : KeyEvent) : Held :=
  match e with Key b v => λ b', if decide (b' = b) then v else h b' | SynReport => h end.

Definition feed (supported : Z) (s : ButtonTracker * list KeyEvent) (e : Z * list Z) : ButtonTracker * list KeyEvent :=
  let '(t, out) := button_event supported s.1 e.1 e.2 in (t, s.2 ++ out).
Definition run (supported : Z) (events : list (Z * list Z)) (s : ButtonTracker * list KeyEvent) : ButtonTracker * list KeyEvent :=
  foldl (feed supported) s events.

(** The states the well-formed button events tell. *)
Definition told (supported : Z) (e : Z * list Z) : list Z :=
  match parse_button_event e.1 e.2 with Ok (Some state) => [state .& supported] | _ => [] end.

Definition holds (supported : Z) (h : Held) (t : ButtonTracker) : Prop :=
  ∀ b, h b = set supported b && match t with Some mask => set mask b | None => false end.

Lemma set_testbit mask b : set mask b = Z.testbit mask (match b with Power => 0 | VolumeUp => 1 | VolumeDown => 2 end).
Proof.
  unfold set. set (i := match b with Power => 0 | VolumeUp => 1 | VolumeDown => 2 end).
  assert (bit b = 2 ^ i) as -> by by destruct b. assert (0 ≤ i) by by destruct b.
  assert (mask .& 2 ^ i = if Z.testbit mask i then 2 ^ i else 0) as ->.
  { apply Z.bits_inj'. intros n Hn. rewrite Z.land_spec, Z.pow2_bits_eqb by done.
    destruct (Z.eqb_spec i n) as [<-|Hne].
    - rewrite andb_true_r. destruct (Z.testbit mask i); [by rewrite Z.pow2_bits_true|by rewrite Z.bits_0].
    - rewrite andb_false_r. destruct (Z.testbit mask i); [by rewrite Z.pow2_bits_false|by rewrite Z.bits_0]. }
  destruct (Z.testbit mask i); [|done]. destruct (Z.eqb_spec (2 ^ i) 0) as [E|]; [|done].
  pose proof (Z.pow_pos_nonneg 2 i). lia.
Qed.

Lemma set_xor p c b : set (Z.lxor p c) b = xorb (set p b) (set c b).
Proof. rewrite !set_testbit. apply Z.lxor_spec. Qed.
Lemma set_and m s b : set (m .& s) b = set m b && set s b.
Proof. rewrite !set_testbit. apply Z.land_spec. Qed.

Lemma show_transitions previous current initial supported (h : Held) b :
  foldl show h ((λ k, Key (button k) (pressed k)) <$> transitions previous current initial supported) b
  = if set supported b && (initial || set (Z.lxor previous current) b) then set current b else h b.
Proof.
  unfold transitions, ALL. simpl.
  destruct (set supported Power && _) eqn:E0; destruct (set supported VolumeUp && _) eqn:E1;
    destruct (set supported VolumeDown && _) eqn:E2; destruct b; simpl; by rewrite ?E0, ?E1, ?E2.
Qed.

Lemma accept_shown supported h t raw :
  holds supported h t →
  let '(t', out) := button_accept_state supported t raw in t' = Some (raw .& supported) ∧ holds supported (foldl show h out) t'.
Proof.
  intros Hh. unfold button_accept_state, button_accept. simpl. set (current := raw .& supported).
  destruct t as [previous|]; [destruct (Z.eqb_spec previous current) as [->|Hne]|]; simpl; (split; [done|]); intros b.
  - apply Hh.
  - rewrite foldl_app. simpl. rewrite show_transitions, set_xor, Hh. simpl.
    by destruct (set supported b), (set previous b), (set current b).
  - rewrite foldl_app. simpl. rewrite show_transitions, Hh. simpl. by destruct (set supported b).
Qed.

(** What one event pushes: nothing when the state is known, else one report, and
    every key of it is a supported one that changed, or any in the first report. *)
Lemma accept_frame supported t raw :
  let '(_, out) := button_accept_state supported t raw in
  (out = [] ↔ t = Some (raw .& supported)) ∧
  (out ≠ [] → ∃ keys, out = keys ++ [SynReport] ∧
    ∀ e, e ∈ keys → ∃ b, e = Key b (set (raw .& supported) b) ∧ set supported b = true ∧
      ∀ previous, t = Some previous → set previous b ≠ set (raw .& supported) b).
Proof.
  unfold button_accept_state, button_accept. simpl. set (current := raw .& supported).
  assert (∀ previous initial e, e ∈ (λ k, Key (button k) (pressed k)) <$> transitions previous current initial supported →
    ∃ b, e = Key b (set current b) ∧ set supported b = true ∧ (initial = true ∨ set (Z.lxor previous current) b = true)) as Hin.
  { intros previous initial e He. apply list_elem_of_fmap in He as (k & -> & Hk). unfold transitions in Hk.
    apply list_elem_of_fmap in Hk as (b & -> & Hb). apply list_elem_of_In, List.filter_In in Hb as [_ Hb].
    apply andb_true_iff in Hb as [Hs Hb]. apply orb_true_iff in Hb. by exists b. }
  destruct t as [previous|]; [destruct (Z.eqb_spec previous current) as [->|Hne]|]; simpl.
  - split; [done|]. by intros [].
  - split; [split; [intros E; by apply app_nil in E as [_ ?]|by intros [= ?]]|]. intros _. eexists. split; [done|]. intros e He.
    destruct (Hin _ _ _ He) as (b & -> & Hs & [?|Hx]); [done|]. exists b. split_and!; [done..|].
    intros ? [= <-]. rewrite set_xor in Hx. by destruct (set previous b), (set current b).
  - split; [split; [intros E; by apply app_nil in E as [_ ?]|done]|]. intros _. eexists. split; [done|]. intros e He.
    destruct (Hin _ _ _ He) as (b & -> & Hs & _). by exists b.
Qed.

Lemma fed supported s e :
  holds supported (foldl show released s.2) s.1 →
  holds supported (foldl show released (feed supported s e).2) (feed supported s e).1 ∧
  (feed supported s e).1 = match last (told supported e) with Some m => Some m | None => s.1 end.
Proof.
  destruct s as [t out]. intros Hh. unfold feed, button_event, told. cbn [fst snd] in *.
  destruct (parse_button_event e.1 e.2) as [[raw|]| |]; cbn [fst snd]; rewrite ?app_nil_r; try (by split).
  pose proof (accept_shown supported (foldl show released out) t raw Hh) as Ha.
  destruct (button_accept_state supported t raw) as [t' out']. simpl. destruct Ha as [-> Ha]. rewrite foldl_app. split; [exact Ha|reflexivity].
Qed.

(** Over any events, malformed ones and those of others included, a client holds
    exactly the supported buttons that the last state told. *)
Theorem buttons_shown supported events :
  let '(t, out) := run supported events (None, []) in
  t = last (flat_map (told supported) events) ∧
  ∀ b, foldl show released out b = set supported b && match last (flat_map (told supported) events) with Some mask => set mask b | None => false end.
Proof.
  assert (∀ s, let s' := run supported events s in
    holds supported (foldl show released s.2) s.1 →
    holds supported (foldl show released s'.2) s'.1 ∧
    s'.1 = match last (flat_map (told supported) events) with Some m => Some m | None => s.1 end) as H.
  { induction events as [|e events IH]; intros s s' Hh; [by split|]. subst s'.
    change (run supported (e :: events) s) with (run supported events (feed supported s e)).
    destruct (IH (feed supported s e)) as [H1 H2]; [by apply fed|]. split; [exact H1|]. rewrite H2.
    simpl flat_map. rewrite last_app. destruct (last (flat_map _ events)); [done|]. by apply fed. }
  destruct (H (None, [])) as [H1 H2]; [intros b; simpl; by rewrite andb_false_r|].
  destruct (run supported events (None, [])) as [t out]. simpl in *.
  assert (t = last (flat_map (told supported) events)) as Ht by (rewrite H2; by destruct (last _)).
  split; [done|]. intros b. by rewrite (H1 b), Ht.
Qed.
End Buttons.

Module Switches.
Import Ec Mkbp.

Definition EC_MKBP_LID_OPEN : Z := 1 << 0.
Definition EC_MKBP_TABLET_MODE : Z := 1 << 1.
Definition REQUIRED_SWITCHES : Z := EC_MKBP_LID_OPEN .| EC_MKBP_TABLET_MODE.

Record PostureState := mk_posture { lid_closed : bool; tablet_mode : bool }.
#[export] Instance PostureState_eq_dec : EqDecision PostureState.
Proof. solve_decision. Defined.

Definition from_ec_switches (switches : Z) : PostureState :=
  mk_posture (switches .& EC_MKBP_LID_OPEN =? 0) (negb (switches .& EC_MKBP_TABLET_MODE =? 0)).

Definition parse_switch_event (event_type : Z) (data : list Z) : outcome QueryError (option PostureState) :=
  if negb (event_type =? EC_MKBP_EVENT_SWITCH) then Ok None
  else let? mask := parse_switch_mask data in Ok (Some (from_ec_switches mask)).

Inductive SwitchOutcome := Snapshot (s : PostureState) | Changed (previous current : PostureState) | Unchanged.

Definition SwitchTracker : Type := option PostureState.

Definition switch_accept (t : SwitchTracker) (next : PostureState) : SwitchOutcome * SwitchTracker :=
  (match t with
   | None => Snapshot next
   | Some previous => if decide (previous = next) then Unchanged else Changed previous next
   end, Some next).

Inductive SwitchEvent := SwLid (value : bool) | SwTabletMode (value : bool) | SynReport.

Definition emit_snapshot (state : PostureState) : list SwitchEvent :=
  [SwLid (lid_closed state); SwTabletMode (tablet_mode state); SynReport].

Definition emit_change (previous current : PostureState) : list SwitchEvent :=
  (if eqb (lid_closed previous) (lid_closed current) then [] else [SwLid (lid_closed current)])
  ++ (if eqb (tablet_mode previous) (tablet_mode current) then [] else [SwTabletMode (tablet_mode current)])
  ++ [SynReport].

Definition emit (o : SwitchOutcome) : list SwitchEvent :=
  match o with
  | Snapshot state => emit_snapshot state
  | Changed previous current => emit_change previous current
  | Unchanged => []
  end.

(** ** The device while it starts

    The tracker is locked only by [switch_accept]: between the answer to the query of
    start-up, its [switch_accept] and each event pushed, the worker that delivers the
    EC's events can do any of its own steps. *)

Inductive Boot :=
| Subscribed
| Answered (state : PostureState)
| Pushing (events : list SwitchEvent)
| Removed.

(** What a client of the input device holds. *)
Definition Client : Type := option bool * option bool.
Definition show (c : Client) (e : SwitchEvent) : Client :=
  match e with SwLid v => (Some v, c.2) | SwTabletMode v => (c.1, Some v) | SynReport => c end.
Definition holding (s : PostureState) : Client := (Some (lid_closed s), Some (tablet_mode s)).

Record Device := mk_device {
  tracker : SwitchTracker;
  boot : Boot;
  worker : list SwitchEvent;
  client : Client;
}.

Definition subscribed : Device := mk_device None Subscribed [] (None, None).

Inductive Step :=
| ReadCurrent (answer : outcome QueryError Z)
| BootAccept
| BootPush
| WorkerEvent (event_type : Z) (data : list Z)
| WorkerPush.

Definition step (d : Device) (s : Step) : option Device :=
  match s, boot d, worker d with
  | ReadCurrent (Ok switches), Subscribed, w => Some (mk_device (tracker d) (Answered (from_ec_switches switches)) w (client d))
  | ReadCurrent (Err _), Subscribed, w => Some (mk_device (tracker d) Removed w (client d))
  | BootAccept, Answered state, w =>
      let '(o, t) := switch_accept (tracker d) state in Some (mk_device t (Pushing (emit o)) w (client d))
  | BootPush, Pushing (e :: l), w => Some (mk_device (tracker d) (Pushing l) w (show (client d) e))
  | WorkerEvent event_type data, b, [] =>
      match parse_switch_event event_type data with
      | Ok (Some state) => let '(o, t) := switch_accept (tracker d) state in Some (mk_device t b (emit o) (client d))
      | _ => Some d
      end
  | WorkerPush, b, e :: l => Some (mk_device (tracker d) b l (show (client d) e))
  | _, _, _ => None
  end.

Definition run (l : list Step) (d : Device) : option Device := foldl (λ d s, match d with Some d => step d s | None => None end) (Some d) l.

(** The postures a step reads from the EC. *)
Definition told (s : Step) : list PostureState :=
  match s with
  | ReadCurrent (Ok switches) => [from_ec_switches switches]
  | WorkerEvent event_type data => match parse_switch_event event_type data with Ok (Some state) => [state] | _ => [] end
  | _ => []
  end.

(** Nothing of the device is under way. *)
Definition settled (d : Device) : bool :=
  match boot d, worker d with Pushing [], [] => true | _, _ => false end.

(** The listener is registered, and the device kept, only if both queries answer. *)
Definition switch_initialize (transfer : nat → list Z → option (list Z)) (metadata_ok : bool) (t : SwitchTracker) (n : nat) :
    outcome () (option (SwitchTracker * list SwitchEvent)) * nat :=
  match query_switch_mask transfer EC_MKBP_INFO_SUPPORTED n with
  | (Ok supported, n) =>
      if negb (supported .& REQUIRED_SWITCHES =? REQUIRED_SWITCHES) then (Ok None, n)
      else if negb metadata_ok then (Ok None, n)
      else
        match query_switch_mask transfer EC_MKBP_INFO_CURRENT n with
        | (Ok switches, n) =>
            let '(o, t) := switch_accept t (from_ec_switches switches) in (Ok (Some (t, emit o)), n)
        | (Err _, n) => (Ok None, n)
        | (Panic, n) => (Panic, n)
        end
  | (Err _, n) => (Ok None, n)
  | (Panic, n) => (Panic, n)
  end.

(** ** What a client sees *)

Lemma device_run_app l1 l2 d : run (l1 ++ l2) d = match run l1 d with Some d => run l2 d | None => None end.
Proof.
  unfold run. rewrite foldl_app. destruct (foldl _ (Some d) l1) as [d'|]; [done|]. by induction l2.
Qed.

Lemma emit_shown t next c :
  (∀ s, t = Some s → c = holding s) → foldl show c (emit (switch_accept t next).1) = holding next.
Proof.
  intros Ht. unfold switch_accept. simpl. destruct t as [previous|]; [|by destruct c].
  rewrite (Ht previous eq_refl). destruct (decide (previous = next)) as [->|Hne]; [done|].
  destruct previous as [l m], next as [l' m']. by destruct l, m, l', m'.
Qed.

(** Nothing of the device is under way, whether the snapshot is still to be
    taken or has been pushed. *)
Definition idle (d : Device) : bool :=
  match boot d, worker d with (Subscribed | Pushing []), [] => true | _, _ => false end.

Definition take_snapshot (switches : Z) (k : nat) : list Step :=
  [ReadCurrent (Ok switches); BootAccept] ++ replicate k BootPush.
Definition take_event (event_type : Z) (data : list Z) (k : nat) : list Step :=
  WorkerEvent event_type data :: replicate k WorkerPush.

(** Runs in which the snapshot, and each event before or after it, is finished
    before the next begins. *)
Inductive in_turn : list Step → Device → Prop :=
| turn_none : in_turn [] subscribed
| turn_snapshot l d switches k d' :
    in_turn l d → run (take_snapshot switches k) d = Some d' → idle d' = true →
    in_turn (l ++ take_snapshot switches k) d'
| turn_event l d event_type data k d' :
    in_turn l d → run (take_event event_type data k) d = Some d' → idle d' = true →
    in_turn (l ++ take_event event_type data k) d'.

Lemma idle_inv d : idle d = true → (boot d = Subscribed ∨ boot d = Pushing []) ∧ worker d = [].
Proof. unfold idle. destruct (boot d) as [| |[]|], (worker d); try done; auto. Qed.

(** Pushing what is there, and then no more. *)
Lemma push_all l k : ∀ t b c d',
  run (replicate k WorkerPush) (mk_device t b l c) = Some d' → worker d' = [] →
  d' = mk_device t b [] (foldl show c l).
Proof.
  revert l. induction k as [|k IH]; intros l t b c d'; [by intros [= <-] ?; simpl in *; subst|].
  destruct l as [|e l]; [|exact (IH l t b (show c e) d')].
  unfold run. simpl. destruct b as [| |[]|]; simpl; clear; by induction k.
Qed.

Lemma boot_push_all l k : ∀ t w c d',
  run (replicate k BootPush) (mk_device t (Pushing l) w c) = Some d' → idle d' = true →
  d' = mk_device t (Pushing []) w (foldl show c l).
Proof.
  revert l. induction k as [|k IH]; intros l t w c d'.
  - intros [= <-] Hi. unfold idle in Hi. simpl in Hi. by destruct l.
  - destruct l as [|e l]; [|exact (IH l t w (show c e) d')]. unfold run. simpl. clear. by induction k.
Qed.

(** The client of an idle device holds what the tracker has. *)
Definition shows (d : Device) : Prop := ∀ s, tracker d = Some s → client d = holding s.

Lemma event_run d event_type data k d' :
  shows d → worker d = [] → idle d' = true → run (take_event event_type data k) d = Some d' →
  match told (WorkerEvent event_type data) with
  | [s] => tracker d' = Some s ∧ client d' = holding s
  | _ => tracker d' = tracker d ∧ client d' = client d
  end.
Proof.
  intros Hd Hw [_ Hw']%idle_inv H. destruct d as [t b w c]. simpl in Hw. subst w.
  change (take_event event_type data k) with ([WorkerEvent event_type data] ++ replicate k WorkerPush) in H.
  rewrite device_run_app in H. cbn [run foldl step boot worker] in H. unfold told.
  destruct (parse_switch_event event_type data) as [[state|]| |]; cbn [tracker client] in *.
  - apply push_all in H as ->; [|done]. split; [done|]. by apply emit_shown.
  - apply push_all in H as ->; done.
  - apply push_all in H as ->; done.
  - apply push_all in H as ->; done.
Qed.

Lemma snapshot_run d switches k d' :
  shows d → worker d = [] → idle d' = true → run (take_snapshot switches k) d = Some d' →
  tracker d' = Some (from_ec_switches switches) ∧ client d' = holding (from_ec_switches switches).
Proof.
  intros Hd Hw Hi H. destruct d as [t b w c]. simpl in Hw. subst w. unfold take_snapshot in H.
  rewrite device_run_app in H. destruct b; try done. cbn [run foldl step boot worker tracker client switch_accept] in H.
  apply boot_push_all in H as ->; [|done]. split; [done|]. by apply emit_shown.
Qed.

Lemma told_pushes k s : s = BootPush ∨ s = WorkerPush → flat_map told (replicate k s) = [].
Proof. intros [-> | ->]; by induction k. Qed.

(** What every such run comes to. *)
Lemma in_turn_shows l d :
  in_turn l d → idle d = true ∧
  match last (flat_map told l) with
  | Some s => tracker d = Some s ∧ client d = holding s
  | None => tracker d = None
  end.
Proof.
  assert (∀ l d, match last (flat_map told l) with
    | Some s => tracker d = Some s ∧ client d = holding s | None => tracker d = None end → shows d) as Hshows.
  { intros l0 d0 H s Hs. destruct (last _) as [s'|]; [destruct H; congruence|congruence]. }
  induction 1 as [|l d switches k d' _ [Hi IH] Hr Hi'|l d event_type data k d' _ [Hi IH] Hr Hi']; [done| |];
    (split; [done|]); apply idle_inv in Hi as [_ Hw]; rewrite flat_map_app.
  - assert (flat_map told (take_snapshot switches k) = [from_ec_switches switches]) as ->
      by (unfold take_snapshot; simpl; by rewrite (told_pushes k) by auto).
    rewrite last_snoc. eapply snapshot_run; [by eapply Hshows|done..].
  - pose proof (event_run d event_type data k d' (Hshows _ _ IH) Hw Hi' Hr) as He.
    unfold take_event. simpl flat_map at 2. rewrite (told_pushes k), app_nil_r by auto. unfold told in He |- *.
    destruct (parse_switch_event event_type data) as [[state|]| |]; rewrite ?app_nil_r, ?last_snoc; [done|..];
      destruct He as [Ht Hc]; rewrite Ht, Hc; destruct (last _); done.
Qed.

(** An EC that answers every query with both switches. *)
Example initial_posture :
  (switch_initialize (λ _ _, Some (SPI_FRAME_START :: [3; 246; 0; 0; 4; 0; 0; 0; 3; 0; 0; 0])) true None 0).1
  = Ok (Some (Some (mk_posture false true), [SwLid false; SwTabletMode true; SynReport])).
Proof. vm_compute. reflexivity. Qed.

(** C34: What a client of the switches sees.  As long as the snapshot of start-up
    and every event, before or after it, is finished before the next begins, the
    client holds the posture last read from the EC.  Otherwise it need not: an
    event that arrives between the answer of the snapshot query and its
    acceptance is overwritten by the older snapshot; and one accepted before
    the snapshot is pushed is hidden by it, after which the same posture told
    again is not shown either. *)
Theorem posture_shown :
  (∀ l d s, in_turn l d → last (flat_map told l) = Some s → tracker d = Some s ∧ client d = holding s) ∧
  (∃ l d s, run l subscribed = Some d ∧ settled d = true ∧ last (flat_map told l) = Some s ∧
     tracker d ≠ Some s ∧ client d ≠ holding s) ∧
  (∃ l event_type data d s, run l subscribed = Some d ∧ settled d = true ∧
     run (l ++ [WorkerEvent event_type data]) subscribed = Some d ∧
     last (flat_map told (l ++ [WorkerEvent event_type data])) = Some s ∧ tracker d = Some s ∧ client d ≠ holding s).
Proof.
  split; [|split].
  - intros l d s H Hl. apply in_turn_shows in H as [_ H]. by rewrite Hl in H.
  - exists ([ReadCurrent (Ok 1); WorkerEvent 4 [0; 0; 0; 0]] ++ replicate 3 WorkerPush ++ [BootAccept; BootPush; BootPush]).
    eexists _, _. by vm_compute.
  - exists ([ReadCurrent (Ok 1); BootAccept; WorkerEvent 4 [0; 0; 0; 0]] ++ replicate 2 WorkerPush ++ replicate 3 BootPush), 4, [0; 0; 0; 0].
    eexists _, _. by vm_compute.
Qed.

(** An event, the snapshot and another event, each in turn. *)
Example turns :
  ∃ d, in_turn (([] ++ take_event 4 [3; 0; 0; 0] 3) ++ take_snapshot 3 0 ++ []) d ∧
    tracker d = Some (mk_posture false true) ∧ client d = (Some false, Some true).
Proof.
  eexists. rewrite app_nil_r. split; [|split].
  - eapply turn_snapshot; [eapply turn_event; [apply turn_none|by vm_compute..]|by vm_compute..].
  - done.
  - done.
Qed.
End Switches.
